(* ===== verification/_CoqProject ===== *)
-Q . S2P
Prelude.v
Mzmq.v
Multimap.v
EventClient.v
Timers.v
PollerBase.v
Runtime.v
Singleton.v
Radix.v
Trie.v
Mtrie.v
Msg.v
Pipes.v
Conflate.v
Array.v
Dist.v
Fq.v
Sock.v
SocketPoller.v
Proxy.v
Xpub.v
Xsub.v
Bus.v
Lb.v
Dealer.v
Req.v
ReqReply.v
ReqSend.v
ReqRun.v
Yqueue.v
Ypipe.v
Mailbox.v
MailboxSafe.v
Own.v
OwnInv.v
OwnSafe.v
Ctx.v
Pipe.v
PipeSteps.v
PipeRuns.v
PipeLive.v
PipeFlow.v
PipeJoin.v
Inproc.v
InprocOps.v
InprocInv.v
InprocSafe.v
InprocMeet.v
Wire.v
Encoder.v
Decoder.v
