(* ===== verification/Prelude.v ===== *)
(** * EventBus-CPP: a verification development

    EventBus-CPP is an in-process publish/subscribe bus.  Every thread owns an
    [EventClient]: the objects of the thread ([EventTarget]) subscribe to event types
    through it and publish through it.  A client has a [SUB] and a [PUB] socket of
    libzmq (vendored under src/libzmq), connected to the [XPUB] and [XSUB] sockets that
    [EventBus] binds and joins with [zmq_proxy].  This library models the
    application, then the parts of libzmq that decide which message reaches which
    socket and in which form.

    ** The files

    The application (src/*.cpp, src/*.h):
    - [Mzmq]: MZmq.h.  The helpers that exchange an event as the frames [title],
      [content].  The socket is the class [Socket].
    - [Multimap]: [std::multimap], of the observers here and of the timers below, as nodes
      with identities, so that iterators outlive changes and a use of an invalid one is
      detected.
    - [EventClient]: EventClient.cpp.  [register_observer], [unregister_observer],
      [publish_event], [publish_loc_event], [handle_event]; the virtual method
      [event_handle] of the observers is a parameter and may call the client back.
    - [Runtime]: ClientCenter.cpp, EventTarget.cpp, MThread.cpp.  The pool of clients,
      the life of the client objects, and a thread's loop as steps that interleave with
      the calls of other threads.
    - [Singleton]: Singleton.h, at the grain of its accesses to the shared words.

    Subscriptions in libzmq (src/libzmq/src):
    - [Radix]: the tree nodes common to trie.hpp and generic_mtrie.hpp.
    - [Trie]: trie.cpp, the counted subscriptions of a XSUB socket.
    - [Mtrie]: generic_mtrie_impl.hpp, the pipes subscribed to each prefix of a XPUB
      socket.

    Messages and their routing:
    - [Msg]: msg.cpp, atomic_counter.hpp.  Messages and their counted contents.
    - [Pipes]: the interface [PipeOps], what a routing container asks of a pipe, with
      a sample instance.
    - [Array]: array.hpp, arrays whose items know their index, and the segments the
      containers make of them.
    - [Dist], [Fq], [Lb]: dist.cpp, fq.cpp, lb.cpp.  Fan-out, fair queueing and load
      balancing, proved against [PipeOps].

    The sockets of the bus:
    - [Xpub]: xpub.cpp and pub.cpp, over [Mtrie] and [Dist].
    - [Xsub]: xsub.cpp and sub.cpp, over [Trie], [Fq] and [Dist].
    - [Sock]: socket_base.cpp, the part of it that sends and receives: timeouts,
      commands, blocking.  The socket pattern is the class [SocketOps], the clock and the
      mailbox the class [Thread].
    - [SocketPoller]: socket_poller.cpp, on [poll].
    - [Proxy]: proxy.cpp, over the class [ProxySockets] and the poller.
    - [Bus]: the XSUB and the XPUB socket of EventBus.cpp with what the proxy moves from
      one to the other.

    Other sockets of libzmq:
    - [Dealer]: dealer.cpp, push.cpp, pull.cpp and pair.cpp, over [Fq] and [Lb].
    - [Req]: req.cpp, a DEALER socket that sends requests and receives their replies, and its
      session.  [ReqReply] has what it receives, [ReqSend] what it sends, [ReqRun] whose turn
      it is.

    Threads and bytes:
    - [Yqueue], [Ypipe]: yqueue.hpp and ypipe.hpp with atomic_ptr.hpp, the queue in
      chunks and the lock-free pipe on it.
    - [Conflate]: ypipe_conflate.hpp and dbuffer.hpp, the pipe of one message.
    - [Mailbox], [MailboxSafe]: mailbox.cpp over the steps of [Ypipe], and
      mailbox_safe.cpp: how threads send commands to each other.
    - [Own]: own.cpp and the commands of object.cpp it handles, with the threads of the
      objects as steps.  [OwnInv] has the invariant and the transitions that keep it,
      [OwnSafe] the safety and the termination of the tree.
    - [Ctx]: ctx.cpp and reaper.cpp, with the methods of socket_base.cpp they call.  The options
      of a context, its table of slots, its sockets from their creation to the reaper, and
      how it terminates.
    - [Timers]: timers.cpp, the timers of the public interface.  [PollerBase]: poller_base.cpp,
      the timers and the load of an I/O thread.  In both the handlers are parameters that may
      call the timers back.
    - [Pipe]: pipe.cpp.  The two ends of a pipe with the heap of their queues, the
      commands on their way to each end, and every method and command handler.
      [PipeSteps] has the elementary transitions and the invariant they keep,
      [PipeRuns] shows that every method is a sequence of transitions, [PipeLive] has
      the safety and termination of the protocol, [PipeFlow] the watermarks.
    - [Inproc]: the connections between the sockets of a context, of ctx.cpp and socket_base.cpp:
      the endpoints, the connections that wait for one, and the pairs of [Pipe], with a step
      for each critical section.  [PipeJoin] has the pairs whose second end has no owner yet,
      [InprocOps] what each operation does, [InprocInv] the invariant in four parts,
      [InprocSafe] that every operation keeps it, [InprocMeet] what follows.
    - [Wire], [Encoder], [Decoder]: wire.hpp, encoder.hpp, v1_encoder.cpp,
      v2_encoder.cpp, decoder.hpp, v1_decoder.cpp, v2_decoder.cpp and the two loops of
      stream_engine.cpp that drive them.

    A definition has the name of the method it translates; the fields of a record are
    the data members.  This file is the prelude: outcomes, table accesses, machine
    integers, lists, the automation and the hint databases of the other files.

    ** Conventions

    An operation that may abort or whose behaviour may be undefined returns an
    [outcome]: a failed [zmq_assert], a null or dangling pointer, an inactive union
    member, a double free and an index out of range are all [Crash].  So a theorem
    that an operation is [Done] says that none of these happens.  State is passed
    explicitly; state shared by threads is changed by steps of a thread, in any
    interleaving, and memory is sequentially consistent.  A return code with [errno] is
    a value of the result.  Machine integers are [Z]; where a width matters the
    definition wraps ([Msg]: the 32-bit counter; [Array]: the [int] index; [Wire]: the
    shifts), and the theorem states the bound under which nothing wraps.  Allocation
    succeeds.

    ** What the theorems show

    - Registrations ([EventClient]): any sequence of registrations, withdrawals and
      publications keeps the map of the abstract specification, a set of observers per
      event, and the socket subscribed exactly once to each observed event.  Dispatch
      calls exactly the observers of the title.  Where the code departs from that, the
      departure is a theorem: a local publication reaches later events, an
      observer that withdraws itself breaks the iterator, a refused subscription is
      kept, a half-received event is dispatched.
    - Life of threads and clients ([Runtime], [Singleton]): the objects of a thread share
      the client its loop serves when the thread's identifier is new, the loop stops, the pool keeps a
      dangling client after a thread is destroyed, which a thread with the same identifier
      gets, the singleton is built once.
    - Subscriptions ([Trie], [Mtrie]): the tries refine a table of reference counts and
      a table of sets of pipes, no assertion fails, nothing dead is left behind, a
      removed pipe is never matched.
    - Messages ([Msg]): reference counting refines value semantics, without a leak.
    - Routing ([Dist], [Fq], [Lb]): who gets a message, exactly; multipart messages stay
      together, except when a pipe terminates at the wrong moment (two theorems exhibit
      it); every active pipe is served within a round.
    - Sockets ([Xpub], [Xsub]): a publication reaches exactly its subscribers; in any run in which no pipe
      withdraws what it did not subscribe to, the subscriptions a XPUB socket passes on say
      exactly which prefixes are wanted; a XSUB
      socket returns the messages that match, whole, and nothing else, and polling
      does not change what is received.  Theorems exhibit what goes wrong
      with stray withdrawals, refused sends and manual mode.
    - Requests ([Dealer], [Req] to [ReqRun]): a REQ socket alternates whole requests and whole
      replies in any run; a request goes to one pipe behind its envelope, after what
      waited was thrown away; the reply is the first message from that pipe with the
      envelope; the session lets nothing else through; a PAIR socket has one peer.  Theorems
      exhibit a request that loses its envelope, a number that is leaked, and a session
      that refuses a frame it has let through.
    - The bus ([Bus]): in any run without stray withdrawals the frontend counts what the backend
      announced, once each; when nothing waits, exactly the prefixes with subscribers; the proxy
      brings the sockets to that state; in any run in which no publisher leaves in the middle of a
      message, a part crosses to exactly the subscribers it is meant for, whether or not the poll of the
      proxy has fetched it before.
    - Waiting ([Sock], [SocketPoller], [Proxy]): a call that sends or receives waits no more turns than
      commands arrive, with or without a timeout, and gives up only when the timeout has
      passed; commands are processed at least once every so many calls, a wait reports
      the events of its last pass, the poller is a map, forwarding moves whole messages, the
      proxy does not sleep while it could forward.  Theorems exhibit a busy loop of the
      proxy, a wait on a descriptor without events, a poll that a signal ends early.
    - Threads ([Ypipe], [Mailbox], [MailboxSafe]): any interleaving of the writer and the
      reader answers like a queue, in order, and no wake-up is lost; a mailbox delivers
      every command, once, in order, and a sleeping receiver is signalled.
    - The object tree ([Own] to [OwnSafe]): in any interleaving of the threads no object is used
      after its deletion, and a termination that was begun deletes the whole tree below
      the object.  Two theorems exhibit a request of a child that is lost and an object that
      is never deleted because a counter wrapped.
    - Contexts ([Ctx]): in any interleaving of the calls of the application and the events of
      the reaper no assertion fails and no empty slot is used, with one exception that a theorem
      states; a context has as many sockets as its options say; once its sockets are closed it
      terminates, and [terminate] wakes up only when nothing is left.  These are about contexts that
      were not refused an I/O thread when they started; a theorem exhibits what becomes of one that
      was, another a shutdown that is lost.
    - Timers ([Timers], [PollerBase]): a set of timers refines a plan, the intervals and next times of the
      identifiers and which of them are cancelled but not yet gone; running it calls what is
      due, once, in order, and returns; a cancelled timer never fires.  Theorems exhibit a run that never ends, handlers that break the
      iterator of the loop, and an interval that wraps.
    - Pipes ([Pipe] to [PipeFlow]): under any interleaving of the calls of both owners
      and the commands, no assertion of pipe.cpp fails and no queue is used after it was
      freed; a sleeping reader has a command on its way; a termination that was
      begun ends with both ends deleted; a queue keeps to its watermark and a writer
      that was refused can write again, as long as the watermarks stay and there are no
      credentials.  Three theorems exhibit runs that go wrong: a
      watermark announced after the acknowledgement, a delimiter lost to a hiccup, a
      watermark eaten by credentials.
    - Connections inside a context ([PipeJoin] to [InprocMeet]): in any interleaving of the calls of
      the sockets, setting options among them (a watermark not while a pipe has acknowledged its
      termination), every pair of pipes is in one place, waiting for a binder, on its way to it,
      or attached; binding takes exactly the connections that wait; the watermarks do not
      depend on who came first; a socket is deallocated exactly when nothing is on its way to
      it; and no assertion fails but one, of a bind that cannot send its routing id.
      Theorems exhibit that abort, a message lost to conflation and a writer
      that stays blocked.
    - Bytes ([Encoder], [Decoder]): the decoder inverts the encoder for both
      versions, however buffers and reads cut the stream; limits and malformed
      sizes are errors, before any allocation.

    ** Fuel

    Recursion of the source is structural where it can be.  Otherwise the fuel is an
    argument of the definition or is fixed by it, and the theorems show the result
    produced, so it was enough: the searches of [EventClient] get one unit per node of
    the map, its dispatch loops need one per observer they call, [RecvAllMessages]
    one more than the events that wait, the writing loops of [Dist] one per matching
    pipe, those of [Fq] and [Lb] one per active pipe, the encoder's inner loop 4 and
    the decoder's 3 (each has fewer states in a row without data), the decoding loop of
    the engine one per byte of input, the loops of [Xpub], [Xsub] and [Req] one more than the
    messages or frames that wait, the loop of [Timers.timeout] one per timer, that of [execute] is an argument
    that the theorems bound or show to exist, those of [Sock] one per round of waiting (the theorems give a bound
    from the timeout, or from the message that arrives), those of [SocketPoller] likewise, those
    of [Proxy] one per part of a message and one per turn, that of [Bus] one more than the
    subscriptions that wait, the loops of [Pipe] one per message that is in
    the queue when they start (nobody adds to it within a step).

    ** What is not modelled

    The thread of the bus (EventBus.cpp) is started and its sockets are bound by calls of
    libzmq.  [Bus] joins the sockets without the layer of [Sock] between them and the proxy,
    which waits where they would answer [EAGAIN].  In libzmq: the rest of
    [socket_base_t] (binding, connecting, closing, monitoring) and the other
    socket classes (REP, ROUTER, STREAM and the draft sockets), sessions, transports, security mechanisms, the pollers
    of the I/O threads, and options.  In [Own] the derived classes are the actions that
    objects take between commands; that a session delays its termination and a socket its
    deletion is not modelled, which [Ctx] has as one event.  In [Inproc] what a socket pattern does
    with an end that is attached to it is an input, a list of calls on the end; the last endpoint and
    the option that a socket is connected are left out, and the theorems are about sockets that
    do not conflate.  In [Pipe] a method is one step: the queues are those of the
    specification that [Ypipe] implements under any interleaving of their
    accesses.  Messages that a pipe closes are recorded in a log instead of a call of
    [Msg.close], the calls of the sinks are recorded and not executed, and the routing
    ids an end carries for its owner are left out.  The theorems on pairs of ends are for
    queues that do not conflate.
    The decoder's zero-copy allocators are left out, since they move bytes and do not
    change them, and so are the contents of metadata dictionaries. *)

From stdpp Require Export base tactics numbers list list_numbers gmap sets sorting.
From Stdlib Require Export ZArith Lia.

#[global] Open Scope Z_scope.

(** ** Outcomes

    A C++ function either returns or aborts the process: [zmq_assert],
    [errno_assert] and [alloc_assert] abort, and reading a null pointer, an
    inactive union member or a table slot out of range is undefined.  All of
    these are [Crash]; a theorem that an operation is [Done] therefore states that
    every assertion on its path holds and that every access is in range. *)

Inductive outcome (A : Type) : Type :=
| Done (a : A)
| Crash.
Arguments Done {A} a.
Arguments Crash {A}.

Declare Scope zmq_scope.
Delimit Scope zmq_scope with zmq.

Definition obind {A B} (m : outcome A) (k : A -> outcome B) : outcome B :=
  match m with
  | Done a => k a
  | Crash => Crash
  end.

Definition omap_out {A B} (f : A -> B) (m : outcome A) : outcome B :=
  obind m (fun a => Done (f a)).

(** [zmq_assert (b)] followed by the rest of the function. *)
Definition zmq_assert {A} (b : bool) (k : outcome A) : outcome A :=
  if b then k else Crash.

(** Dereferencing a pointer that may be null. *)
Definition deref {A} (p : option A) : outcome A :=
  match p with
  | Some a => Done a
  | None => Crash
  end.

Notation "'let*' x ':=' m 'in' k" := (obind m (fun x => k))
  (at level 10, x pattern, m at level 100, k at level 200,
   format "'[hv' 'let*'  x  ':='  m  'in'  '//' k ']'") : zmq_scope.
#[global] Open Scope zmq_scope.

Lemma obind_done {A B} (a : A) (k : A -> outcome B) : obind (Done a) k = k a.
Proof. done. Qed.

Lemma obind_inv {A B} (m : outcome A) (k : A -> outcome B) b :
  obind m k = Done b -> exists a, m = Done a /\ k a = Done b.
Proof. destruct m; simpl; [eauto | discriminate]. Qed.

Lemma zmq_assert_inv {A} (b : bool) (k : outcome A) a :
  zmq_assert b k = Done a -> b = true /\ k = Done a.
Proof. destruct b; simpl; [eauto | discriminate]. Qed.

Lemma zmq_assert_true {A} (b : bool) (k : outcome A) : b = true -> zmq_assert b k = k.
Proof. by intros ->. Qed.

(** ** Stateful code

    A function of the program that changes a state [S] and may abort is an
    [stm S A]: it takes the state before the call and returns the state after
    it with the result. *)

Definition stm (S A : Type) : Type := S -> outcome (S * A).

Definition sret {S A} (a : A) : stm S A := fun s => Done (s, a).

Definition sbind {S A B} (m : stm S A) (k : A -> stm S B) : stm S B :=
  fun s => let* (s1, a) := m s in k a s1.

(** An assertion on its own, and an abort. *)
Definition sassert {S} (b : bool) : stm S unit :=
  fun s => if b then Done (s, tt) else Crash.

Definition scrash {S A} : stm S A := fun _ => Crash.

Definition sget {S} : stm S S := fun s => Done (s, s).
Definition smod {S} (f : S -> S) : stm S unit := fun s => Done (f s, tt).
Definition slift {S A} (m : outcome A) : stm S A :=
  fun s => let* a := m in Done (s, a).

Notation "'let!' x ':=' m 'in' k" := (sbind m (fun x => k))
  (at level 10, x pattern, m at level 100, k at level 200,
   format "'[hv' 'let!'  x  ':='  m  'in'  '//' k ']'") : zmq_scope.
Notation "m ;;; k" := (sbind m (fun _ => k))
  (at level 199, right associativity, format "'[hv' m ;;;  '//' k ']'") : zmq_scope.

Lemma sbind_done {S A B} (m : stm S A) (k : A -> stm S B) s s1 a :
  m s = Done (s1, a) -> sbind m k s = k a s1.
Proof. unfold sbind. by intros ->. Qed.

Lemma sbind_inv {S A B} (m : stm S A) (k : A -> stm S B) s s2 b :
  sbind m k s = Done (s2, b) -> exists s1 a, m s = Done (s1, a) /\ k a s1 = Done (s2, b).
Proof. unfold sbind. destruct (m s) as [[s1 a]|]; simpl; [eauto | discriminate]. Qed.

(** A computation that never aborts, with what its results satisfy. *)
Definition succeeds {S A} (m : stm S A) (P : A -> Prop) : Prop :=
  forall s, exists s' a, m s = Done (s', a) /\ P a.

Lemma succeeds_ret {S A} (a : A) (P : A -> Prop) : P a -> succeeds (S := S) (sret a) P.
Proof. intros Ha s. by exists s, a. Qed.

Lemma succeeds_bind {S A B} (m : stm S A) (k : A -> stm S B) (P : A -> Prop) (Q : B -> Prop) :
  succeeds m P -> (forall a, P a -> succeeds (k a) Q) -> succeeds (sbind m k) Q.
Proof. intros Hm Hk s. destruct (Hm s) as (s1 & a & E & Ha). rewrite (sbind_done _ _ _ _ _ E). by apply Hk. Qed.

Lemma sassert_done {S} (b : bool) (s : S) : b = true -> sassert b s = Done (s, tt).
Proof. by intros ->. Qed.

(** ** Machine integers

    A value of an unsigned C type of [w] bits is a [Z] in [0, 2^w); a
    conversion to the type is written where the code has one. *)

Definition u8 (z : Z) : Z := z mod 2 ^ 8.
Definition u16 (z : Z) : Z := z mod 2 ^ 16.
Definition u32 (z : Z) : Z := z mod 2 ^ 32.
Definition u64 (z : Z) : Z := z mod 2 ^ 64.

Definition is_u8 (z : Z) : Prop := 0 <= z < 256.
Definition bytes (l : list Z) : Prop := Forall is_u8 l.

Lemma u8_small z : 0 <= z < 256 -> u8 z = z.
Proof. intros; unfold u8; apply Z.mod_small; lia. Qed.
Lemma u16_small z : 0 <= z < 65536 -> u16 z = z.
Proof. intros; unfold u16; apply Z.mod_small; lia. Qed.
Lemma u32_small z : 0 <= z < 4294967296 -> u32 z = z.
Proof. intros; unfold u32; apply Z.mod_small; lia. Qed.
Lemma u64_small z : 0 <= z < 18446744073709551616 -> u64 z = z.
Proof. intros; unfold u64; apply Z.mod_small; lia. Qed.

(** Signed 32-bit conversion ([int]). *)
Definition i32 (z : Z) : Z := (z + 2 ^ 31) mod 2 ^ 32 - 2 ^ 31.
Lemma i32_small z : -2147483648 <= z < 2147483648 -> i32 z = z.
Proof. intros; unfold i32; rewrite Z.mod_small; lia. Qed.

(** ** Tactics of the development *)

(** Invert every successful bind and assertion in the context. *)
Ltac out_inv :=
  repeat match goal with
  | H : obind _ _ = Done _ |- _ =>
      let a := fresh "a" in let E := fresh "E" in
      apply obind_inv in H as (a & E & H); cbn beta in H
  | H : zmq_assert _ _ = Done _ |- _ =>
      let E := fresh "Eassert" in apply zmq_assert_inv in H as [E H]
  | H : Done _ = Done _ |- _ => injection H as H; subst
  | H : Crash = Done _ |- _ => discriminate H
  end.

(** Turn boolean comparisons of the code into propositions, then [lia]. *)
Ltac zb :=
  repeat match goal with
  | H : context [Z.eqb ?a ?b] |- _ => destruct (Z.eqb_spec a b)
  | H : context [Z.ltb ?a ?b] |- _ => destruct (Z.ltb_spec a b)
  | H : context [Z.leb ?a ?b] |- _ => destruct (Z.leb_spec a b)
  | |- context [Z.eqb ?a ?b] => destruct (Z.eqb_spec a b)
  | |- context [Z.ltb ?a ?b] => destruct (Z.ltb_spec a b)
  | |- context [Z.leb ?a ?b] => destruct (Z.leb_spec a b)
  end.

Create HintDb zmq.
#[export] Hint Resolve u8_small u16_small u32_small u64_small : zmq.

(** ** Lists indexed by machine integers *)

(** [l[i]] for an index computed in [int]; out of range is undefined. *)
Definition nth_z {A} (l : list A) (i : Z) : outcome A :=
  if (i <? 0) then Crash else deref (l !! Z.to_nat i).

Definition set_z {A} (l : list A) (i : Z) (x : A) : outcome (list A) :=
  if (0 <=? i) && (i <? Z.of_nat (length l)) then Done (<[Z.to_nat i := x]> l)
  else Crash.

Lemma nth_z_done {A} (l : list A) i x :
  0 <= i -> l !! Z.to_nat i = Some x -> nth_z l i = Done x.
Proof. intros ? E; unfold nth_z. destruct (Z.ltb_spec i 0); [lia|]. by rewrite E. Qed.

Lemma nth_z_inv {A} (l : list A) i x :
  nth_z l i = Done x -> 0 <= i /\ l !! Z.to_nat i = Some x.
Proof.
  unfold nth_z. destruct (Z.ltb_spec i 0); [discriminate|].
  destruct (l !! Z.to_nat i) eqn:E; simpl; intros; by simplify_eq.
Qed.

Lemma set_z_done {A} (l : list A) i x :
  0 <= i < Z.of_nat (length l) -> set_z l i x = Done (<[Z.to_nat i := x]> l).
Proof.
  intros ?; unfold set_z.
  destruct (Z.leb_spec 0 i), (Z.ltb_spec i (Z.of_nat (length l))); simpl; (done || lia).
Qed.

(** ** Prefixes *)

(** Lexicographic order on prefixes, a proper prefix first. *)
Fixpoint lex_lt (p q : list Z) : Prop :=
  match p, q with
  | _, [] => False
  | [], _ :: _ => True
  | c :: p, d :: q => c < d \/ (c = d /\ lex_lt p q)
  end.

Lemma lex_lt_irrefl p : ~ lex_lt p p.
Proof. induction p as [|c p IH]; simpl; [tauto|]. intros [?|[_ ?]]; [lia|auto]. Qed.

Lemma lex_sorted_NoDup l : StronglySorted lex_lt l -> NoDup l.
Proof.
  induction 1 as [|p l Hs IH Hf]; constructor; [|done].
  intros Hin. rewrite Forall_forall in Hf. exact (lex_lt_irrefl _ (Hf _ Hin)).
Qed.

Lemma lex_sorted_app l1 l2 :
  StronglySorted lex_lt l1 -> StronglySorted lex_lt l2 ->
  (forall p q, p ∈ l1 -> q ∈ l2 -> lex_lt p q) -> StronglySorted lex_lt (l1 ++ l2).
Proof.
  induction 1 as [|p l Hs IH Hf]; intros H2 Hpq; simpl; [done|]. constructor.
  - apply IH; [done|]. intros; apply Hpq; [by constructor|done].
  - apply Forall_app; split; [done|]. apply Forall_forall. intros q Hq. apply Hpq; [constructor|done].
Qed.

Lemma lex_sorted_map_cons c l : StronglySorted lex_lt l -> StronglySorted lex_lt (map (cons c) l).
Proof.
  induction 1 as [|p l Hs IH Hf]; simpl; constructor; [done|].
  apply Forall_map. eapply Forall_impl; [exact Hf|]. simpl. auto.
Qed.

Lemma map_app_snoc (buff : list Z) c (l : list (list Z)) :
  map (app (buff ++ [c])) l = map (app buff) (map (cons c) l).
Proof. rewrite map_map. apply map_ext. intros p. by rewrite <- app_assoc. Qed.

Lemma elem_of_map_cons (c : Z) l p : p ∈ map (cons c) l <-> exists q, p = c :: q /\ q ∈ l.
Proof. rewrite list_elem_of_fmap. naive_solver. Qed.

(** [std::string]'s order, as the code computes it. *)
Fixpoint lex_ltb (p q : list Z) : bool :=
  match p, q with
  | _, [] => false
  | [], _ :: _ => true
  | c :: p, d :: q => if (c <? d) then true else if (c =? d) then lex_ltb p q else false
  end.

Lemma lex_ltb_spec p q : lex_ltb p q = true <-> lex_lt p q.
Proof.
  revert q. induction p as [|c p IH]; intros [|d q]; simpl; try (split; (done || tauto)).
  destruct (Z.ltb_spec c d); [tauto|]. destruct (Z.eqb_spec c d).
  - rewrite IH. intuition lia.
  - split; [done|]. lia.
Qed.

Lemma lex_lt_trans p q r : lex_lt p q -> lex_lt q r -> lex_lt p r.
Proof.
  revert q r. induction p as [|c p IH]; intros [|d q] [|e r]; simpl; try tauto.
  intros [?| [-> ?]] [?| [-> ?]]; eauto with lia.
Qed.

Lemma lex_lt_total p q : lex_lt p q \/ p = q \/ lex_lt q p.
Proof.
  revert q. induction p as [|c p IH]; intros [|d q]; simpl; auto.
  destruct (Z.lt_trichotomy c d) as [Hcd|[Hcd|Hcd]]; [auto| |auto].
  subst d. destruct (IH q) as [Hpq|[Hpq|Hpq]]; subst; auto.
Qed.

(** ** Orders of the keys of the standard's ordered containers *)

Class KeyOrder (K : Type) := {
  klt : K -> K -> Prop;
  kltb : K -> K -> bool;
  kltb_spec : forall p q, kltb p q = true <-> klt p q;
  klt_irrefl : forall p, ~ klt p p;
  klt_trans : forall p q r, klt p q -> klt q r -> klt p r;
  klt_total : forall p q, klt p q \/ p = q \/ klt q p
}.

#[global] Instance string_order : KeyOrder (list Z) := {
  klt := lex_lt;
  kltb := lex_ltb;
  kltb_spec := lex_ltb_spec;
  klt_irrefl := lex_lt_irrefl;
  klt_trans := lex_lt_trans;
  klt_total := lex_lt_total
}.

#[global] Instance integer_order : KeyOrder Z := {
  klt := Z.lt;
  kltb := Z.ltb;
  kltb_spec := Z.ltb_lt;
  klt_irrefl := Z.lt_irrefl;
  klt_trans := Z.lt_trans;
  klt_total := Z.lt_trichotomy
}.

Definition kle {K} `{KeyOrder K} (p q : K) : Prop := ~ klt q p.

Lemma kle_cases {K} `{KeyOrder K} (p q : K) : kle p q <-> klt p q \/ p = q.
Proof.
  unfold kle. split.
  - intros. destruct (klt_total p q) as [?|[?|?]]; tauto.
  - intros [Hpq| ->] Hqp; [|by apply klt_irrefl in Hqp].
    exact (klt_irrefl _ (klt_trans _ _ _ Hpq Hqp)).
Qed.

(** ** std::set of pointers

    A [std::set<T *>] is its elements in iteration order; pointers are numbered
    and compared by number. *)

Fixpoint sset_insert (x : nat) (l : list nat) : list nat :=
  match l with
  | [] => [x]
  | y :: l' => if decide (x < y)%nat then x :: l
               else if decide (x = y) then l else y :: sset_insert x l'
  end.

(** [erase] and the number of elements it removed. *)
Definition sset_erase (x : nat) (l : list nat) : list nat := filter (fun y => y <> x) l.
Definition sset_erased (x : nat) (l : list nat) : nat := if decide (x ∈ l) then 1%nat else 0%nat.

Abbreviation sset_ok := (StronglySorted lt).

Lemma elem_of_sset_insert x y l : y ∈ sset_insert x l <-> y = x \/ y ∈ l.
Proof.
  induction l as [|z l IH]; simpl; [by rewrite list_elem_of_singleton, elem_of_nil; tauto|].
  destruct (decide (x < z)%nat); [by rewrite !elem_of_cons|].
  destruct (decide (x = z)) as [->|]; rewrite !elem_of_cons; [tauto|]. rewrite IH. tauto.
Qed.

Lemma elem_of_sset_erase x y l : y ∈ sset_erase x l <-> y <> x /\ y ∈ l.
Proof. unfold sset_erase. by rewrite list_elem_of_filter. Qed.

Lemma sset_insert_ok x l : sset_ok l -> sset_ok (sset_insert x l).
Proof.
  induction 1 as [|y l Hs IH Hf]; simpl; [repeat constructor|].
  destruct (decide (x < y)%nat).
  - constructor; [by constructor|]. constructor; [done|]. eapply Forall_impl; [exact Hf|]. lia.
  - destruct (decide (x = y)) as [->|]; [by constructor|]. constructor; [done|].
    apply Forall_forall. intros z [->|Hz]%elem_of_sset_insert; [lia|].
    rewrite Forall_forall in Hf. auto.
Qed.

Lemma sset_erase_ok x l : sset_ok l -> sset_ok (sset_erase x l).
Proof.
  induction 1 as [|y l Hs IH Hf]; unfold sset_erase in *; simpl; [constructor|].
  rewrite filter_cons. destruct (decide _); [|done]. constructor; [done|].
  apply Forall_forall. intros z [_ Hz]%list_elem_of_filter. rewrite Forall_forall in Hf. auto.
Qed.

Lemma sset_insert_ne x l : sset_insert x l <> [].
Proof. destruct l as [|y l]; simpl; [done|]. by repeat case_decide. Qed.

Lemma sset_erase_absent x l : x ∉ l -> sset_erase x l = l.
Proof.
  unfold sset_erase. induction l as [|y l IH]; [done|]. rewrite not_elem_of_cons. intros [? ?].
  rewrite filter_cons, decide_True, IH by auto. done.
Qed.
