(* ===== verification/Mzmq.v ===== *)
(** * MZmq.h: the helpers that exchange multi-part events over a socket

    The component's socket is the [Socket] interface below: what the helpers
    use of libzmq's C interface ([zmq_msg_send], [zmq_msg_recv],
    [zmq_getsockopt (ZMQ_RCVMORE)]).  The local variable [zmq_msg_t msg] of a
    helper is part of the state, together with the contents lost when an
    initialisation overwrites a message that still owns some; the theorems show
    that every path closes the message and loses nothing.

    Allocation is assumed to succeed, as the helpers themselves assume. *)

From S2P Require Import Prelude.

Definition EAGAIN : Z := 11.
Definition INT_MAX : Z := 2147483647.

(** What a socket does when one frame is sent or received, and the options the
    bus uses.  [recv s dontwait] answers with an [errno] or with a frame and
    whether more frames of the same message follow it.  [sock_pollin s] is [zmq_poll] on the
    socket alone: what it writes in the [revents] of its item, or nothing when it fails before. *)
Class Socket (S : Type) : Type := {
  sock_send : S -> list Z -> bool -> S * (Z + unit);
  sock_recv : S -> bool -> S * (Z + list Z * bool);
  sock_rcvmore : S -> bool;
  sock_subscribe : S -> list Z -> S * Z;
  sock_unsubscribe : S -> list Z -> S * Z;
  sock_pollin : S -> S * option bool
}.

Module Mzmq.

(** The local [zmq_msg_t]. *)
Inductive msgvar : Type :=
| MsgUninit
| MsgOpen (data : list Z)
| MsgClosed.

Section Helpers.
Context {Sk : Type} `{Socket Sk}.

Record io : Type := Io {
  sock : Sk;
  msg : msgvar;
  lost : list (list Z);
  errno : Z
}.

Definition enter (s : Sk) : io := Io s MsgUninit [] 0.

(** Overwriting [msg] loses what it owns. *)
Definition overwritten (v : msgvar) : list (list Z) :=
  match v with
  | MsgOpen (_ :: _ as d) => [d]
  | _ => []
  end.

Definition zmq_msg_init_size (n : nat) : stm io unit :=
  smod (fun st => Io (sock st) (MsgOpen (replicate n 0))
                     (overwritten (msg st) ++ lost st) (errno st)).

Definition zmq_msg_init : stm io unit := zmq_msg_init_size 0.

(** [memcpy (zmq_msg_data (&msg), src, n)] *)
Definition memcpy_data (src : list Z) (n : nat) : stm io unit :=
  fun st =>
    match msg st with
    | MsgOpen d =>
      if bool_decide (n <= length d)%nat && bool_decide (n <= length src)%nat
      then Done (Io (sock st) (MsgOpen (take n src ++ drop n d)) (lost st) (errno st), tt)
      else Crash
    | _ => Crash
    end.

(** The size the C interface returns: capped so that it fits an [int]. *)
Definition frame_size (d : list Z) : Z := Z.min (Z.of_nat (length d)) INT_MAX.

Definition zmq_msg_send (sndmore : bool) : stm io Z :=
  fun st =>
    match msg st with
    | MsgOpen d =>
      match sock_send (sock st) d sndmore with
      | (s1, inr _) => Done (Io s1 (MsgOpen []) (lost st) (errno st), frame_size d)
      | (s1, inl e) => Done (Io s1 (msg st) (lost st) e, -1)
      end
    | _ => Crash
    end.

Definition zmq_msg_recv (dontwait : bool) : stm io Z :=
  fun st =>
    match msg st with
    | MsgOpen _ =>
      match sock_recv (sock st) dontwait with
      | (s1, inr (d, _)) => Done (Io s1 (MsgOpen d) (lost st) (errno st), frame_size d)
      | (s1, inl e) => Done (Io s1 (msg st) (lost st) e, -1)
      end
    | _ => Crash
    end.

Definition zmq_msg_data : stm io (list Z) :=
  fun st => match msg st with MsgOpen d => Done (st, d) | _ => Crash end.

Definition zmq_msg_close : stm io unit :=
  fun st => match msg st with
            | MsgOpen _ => Done (Io (sock st) MsgClosed (lost st) (errno st), tt)
            | _ => Crash
            end.

Definition zmq_errno : stm io Z := fun st => Done (st, errno st).

Definition rcvmore : stm io bool := fun st => Done (st, sock_rcvmore (sock st)).

(** One frame of a helper: fill [msg], send it, and on failure close it. *)
Definition send_frame (d : list Z) (n : nat) (more : bool) (k : Z -> stm io Z) : stm io Z :=
  zmq_msg_init_size n ;;;
  memcpy_data d n ;;;
  let! rc := zmq_msg_send more in
  if (rc <? 0) then zmq_msg_close ;;; sret rc else k rc.

(** [data] is the pointer, null or to a buffer, and [dataLen] the length claimed. *)
Definition SendEventEntity (title : list Z) (data : option (list Z)) (dataLen : nat)
  : stm io Z :=
  send_frame title (length title) true (fun _ =>
    match data with
    | Some buf =>
      send_frame buf dataLen false (fun rc => zmq_msg_close ;;; sret rc)
    | None =>
      zmq_msg_init_size 0 ;;;
      let! rc := zmq_msg_send false in
      if (rc <? 0) then zmq_msg_close ;;; sret rc
      else zmq_msg_close ;;; sret rc
    end).

Definition SendMsgStrings (title content : list Z) : stm io Z :=
  send_frame title (length title) true (fun _ =>
    match content with
    | _ :: _ => send_frame content (length content) false (fun rc => zmq_msg_close ;;; sret rc)
    | [] => send_frame [0] 1 false (fun rc => zmq_msg_close ;;; sret rc)
    end).

Definition Send3PartStrings (title title1 content : list Z) : stm io Z :=
  send_frame title (length title) true (fun _ =>
    let last : Z -> stm io Z := fun _ =>
      match content with
      | _ :: _ => send_frame content (length content) false (fun rc => zmq_msg_close ;;; sret rc)
      | [] => send_frame [0] 1 false (fun rc => zmq_msg_close ;;; sret rc)
      end in
    match title1 with
    | _ :: _ => send_frame title1 (length title1) true last
    | [] => last 0
    end).

Definition zmq_common_send (data : list Z) (dataLen : nat) : stm io Z :=
  zmq_msg_init_size dataLen ;;;
  memcpy_data data dataLen ;;;
  let! rc := zmq_msg_send false in
  zmq_msg_close ;;; sret rc.

(** The receiving helpers return their [rc] with the strings they filled. *)
Definition received : Type := Z * list Z * list Z.

(** [str.insert (0, data, size)] into an empty string. *)
Definition inserted (d : list Z) (size : Z) : list Z := take (Z.to_nat size) d.

Definition RecvEventEntity : stm io received :=
  zmq_msg_init ;;;
  let! size := zmq_msg_recv true in
  if (size <? 0) then
    let! errNum := zmq_errno in
    if (errNum =? EAGAIN) then zmq_msg_close ;;; sret (0, [], [])
    else zmq_msg_close ;;; sret (-1, [], [])
  else
    let! d := zmq_msg_data in
    let title := inserted d size in
    let! more := rcvmore in
    if negb more then zmq_msg_close ;;; sret (-1, title, [])
    else
      zmq_msg_close ;;;
      zmq_msg_init ;;;
      let! size := zmq_msg_recv true in
      if (size <? 0) then zmq_msg_close ;;; sret (size, title, [])
      else
        let! d := zmq_msg_data in
        zmq_msg_close ;;; sret (size, title, inserted d size).

(** As [RecvEventEntity], except that the content is the whole frame. *)
Definition RecvMsgString : stm io received :=
  zmq_msg_init ;;;
  let! size := zmq_msg_recv true in
  if (size <? 0) then
    let! errNum := zmq_errno in
    if (errNum =? EAGAIN) then zmq_msg_close ;;; sret (0, [], [])
    else zmq_msg_close ;;; sret (-1, [], [])
  else
    let! d := zmq_msg_data in
    let title := inserted d size in
    let! more := rcvmore in
    if negb more then zmq_msg_close ;;; sret (-1, title, [])
    else
      zmq_msg_close ;;;
      zmq_msg_init ;;;
      let! size := zmq_msg_recv true in
      if (size <? 0) then zmq_msg_close ;;; sret (size, title, [])
      else
        let! d := zmq_msg_data in
        zmq_msg_close ;;; sret (size, title, d).

Definition HasMoreMsg : stm io bool := rcvmore.

(** [while (1)]: one iteration per unit of fuel; running out is [None]. *)
Fixpoint RecvAllMessages (fuel : nat) (titles contents : list (list Z))
  : stm io (option (Z * list (list Z) * list (list Z))) :=
  match fuel with
  | O => sret None
  | S fuel =>
    zmq_msg_init ;;;
    let! size := zmq_msg_recv true in
    if (size <? 0) then
      let! errNum := zmq_errno in
      if (errNum =? EAGAIN) then
        zmq_msg_close ;;; sret (Some (Z.of_nat (length contents), titles, contents))
      else zmq_msg_close ;;; sret (Some (-1, titles, contents))
    else
      let! d := zmq_msg_data in
      let ptitle := inserted d size in
      let! more := rcvmore in
      if negb more then zmq_msg_close ;;; sret (Some (-1, titles, contents))
      else
        zmq_msg_close ;;;
        zmq_msg_init ;;;
        let! size := zmq_msg_recv true in
        if (size <? 0) then zmq_msg_close ;;; sret (Some (-1, titles, contents))
        else
          let! d := zmq_msg_data in
          zmq_msg_close ;;;
          RecvAllMessages fuel (titles ++ [ptitle]) (contents ++ [inserted d size])
  end.

Definition zmq_common_recv : stm io (Z * list Z) :=
  zmq_msg_init ;;;
  let! size := zmq_msg_recv false in
  if (size <? 0) then zmq_msg_close ;;; sret (size, [])
  else
    let! d := zmq_msg_data in
    zmq_msg_close ;;; sret (size, inserted d size).

(** ** Sending

    What a socket does with frames sent in turn, until one is refused. *)

Fixpoint send_all (s : Sk) (fs : list (list Z * bool)) : Sk * (Z + unit) :=
  match fs with
  | [] => (s, inr tt)
  | (d, more) :: fs =>
    match sock_send s d more with
    | (s1, inr _) => send_all s1 fs
    | (s1, inl e) => (s1, inl e)
    end
  end.

(** The state a helper leaves: the message closed, nothing lost. *)
Definition left (s : Sk) (e : Z) : io := Io s MsgClosed [] e.

(** The result of a sending helper whose frames are [fs], the last of size [n]. *)
Definition sent (r : Sk * (Z + unit)) (n : Z) : outcome (io * Z) :=
  match r with
  | (s1, inr _) => Done (left s1 0, n)
  | (s1, inl e) => Done (left s1 e, -1)
  end.

Lemma frame_size_nonneg d : 0 <= frame_size d.
Proof. unfold frame_size, INT_MAX. lia. Qed.

Lemma frame_size_small d : Z.of_nat (length d) <= INT_MAX -> frame_size d = Z.of_nat (length d).
Proof. unfold frame_size. lia. Qed.

Lemma fill_done d n st :
  overwritten (msg st) = [] -> (n <= length d)%nat ->
  (zmq_msg_init_size n ;;; memcpy_data d n) st
  = Done (Io (sock st) (MsgOpen (take n d)) (lost st) (errno st), tt).
Proof.
  intros Ho Hn. unfold sbind, zmq_msg_init_size, smod, memcpy_data; simpl.
  rewrite length_replicate, !bool_decide_eq_true_2 by lia. simpl.
  by rewrite Ho, skipn_all2, app_nil_r by (rewrite length_replicate; lia).
Qed.

(** One frame followed by the rest of the helper. *)
Lemma send_frame_spec d n more k st :
  overwritten (msg st) = [] -> (n <= length d)%nat -> lost st = [] ->
  send_frame d n more k st
  = match sock_send (sock st) (take n d) more with
    | (s1, inr _) => k (frame_size (take n d)) (Io s1 (MsgOpen []) [] (errno st))
    | (s1, inl e) => Done (left s1 e, -1)
    end.
Proof.
  intros Ho Hn Hl. unfold send_frame.
  transitivity (((zmq_msg_init_size n ;;; memcpy_data d n) ;;;
    let! rc := zmq_msg_send more in
    if (rc <? 0) then zmq_msg_close ;;; sret rc else k rc) st).
  { unfold sbind. destruct (zmq_msg_init_size n st) as [[]|]; simpl; [|done].
    by destruct (memcpy_data d n _) as [[]|]. }
  erewrite sbind_done by (by apply fill_done).
  unfold sbind, zmq_msg_send; simpl. rewrite Hl.
  destruct (sock_send _ _ _) as [s1 [e|?]]; simpl; [done|].
  by destruct (Z.ltb_spec (frame_size (take n d)) 0); [pose proof (frame_size_nonneg (take n d)); lia|].
Qed.

Ltac send_step :=
  rewrite send_frame_spec by (simpl; done || lia); cbn [send_all];
  rewrite ?take_ge by lia;
  let s1 := fresh "s" in
  destruct (sock_send _ _ _) as [s1 [?|?]]; cbn -[frame_size send_frame]; [done|].

Lemma SendEventEntity_ok s title data dataLen :
  (forall buf, data = Some buf -> (dataLen <= length buf)%nat) ->
  let content := default [] (take dataLen <$> data) in
  SendEventEntity title data dataLen (enter s)
  = sent (send_all s [(title, true); (content, false)]) (frame_size content).
Proof.
  intros Hd content. unfold SendEventEntity, enter. send_step.
  destruct data as [buf|]; subst content; simpl.
  - specialize (Hd _ eq_refl). rewrite send_frame_spec by (simpl; done || lia).
    by destruct (sock_send _ _ _) as [s2 [?|?]].
  - unfold sbind, zmq_msg_init_size, smod, zmq_msg_send; simpl.
    by destruct (sock_send _ _ _) as [s2 [?|?]].
Qed.

(** The three sends of a helper reach the socket in order, the last frame without
    [ZMQ_SNDMORE]; a refused frame stops the helper, which closes its message and
    returns -1. *)

(** [SendEventEntity] hands the socket two frames, the title with
    [ZMQ_SNDMORE] and then the content, copied up to the length given; it stops at the
    first frame refused, closes its message and returns -1, and otherwise returns the
    size of the content. *)
Theorem SendEventEntity_frames s title data dataLen :
  (forall buf, data = Some buf -> (dataLen <= length buf)%nat) ->
  let content := default [] (take dataLen <$> data) in
  SendEventEntity title data dataLen (enter s)
  = sent (send_all s [(title, true); (content, false)]) (frame_size content).
Proof. apply SendEventEntity_ok. Qed.

(** An empty content is sent as one zero byte by the string helpers, and an empty
    middle part is not sent at all. *)
Definition part (content : list Z) : list Z :=
  match content with [] => [0] | _ => content end.

Definition middle (title1 : list Z) : list (list Z * bool) :=
  match title1 with [] => [] | _ => [(title1, true)] end.

Lemma SendMsgStrings_frames s title content :
  SendMsgStrings title content (enter s)
  = sent (send_all s [(title, true); (part content, false)]) (frame_size (part content)).
Proof.
  unfold SendMsgStrings, enter. send_step.
  destruct content as [|c content]; simpl part; by send_step.
Qed.

(** [Send3PartStrings] hands the socket the title, the middle part unless it is
    empty, and the content, an empty content being sent as one zero byte. *)
Theorem Send3PartStrings_frames s title title1 content :
  Send3PartStrings title title1 content (enter s)
  = sent (send_all s ((title, true) :: middle title1 ++ [(part content, false)]))
         (frame_size (part content)).
Proof.
  unfold Send3PartStrings, enter. send_step.
  destruct title1 as [|c1 title1]; simpl middle; simpl app; [|send_step];
    destruct content as [|c content]; simpl part; by send_step.
Qed.

Lemma zmq_common_send_frame s data :
  zmq_common_send data (length data) (enter s)
  = sent (send_all s [(data, false)]) (frame_size data).
Proof.
  unfold zmq_common_send, sbind, zmq_msg_init_size, smod, memcpy_data, zmq_msg_send; simpl.
  rewrite length_replicate, !bool_decide_eq_true_2 by lia; simpl.
  rewrite take_ge, skipn_all2, app_nil_r by (rewrite ?length_replicate; lia).
  by destruct (sock_send _ _ _) as [s1 [?|?]].
Qed.
End Helpers.
Arguments io Sk : clear implicits.

(** ** Receiving

    What the helpers rely on: a socket delivers the frames that have arrived, in
    order, [ZMQ_RCVMORE] tells whether the last frame has a follower, and a
    non-blocking receive on an empty socket is [EAGAIN]. *)

Class SocketQueue (Sk : Type) `{Socket Sk} : Type := {
  inbound : Sk -> list (list Z * bool);
  recv_some : forall s d more fs dw,
    inbound s = (d, more) :: fs ->
    exists s1, sock_recv s dw = (s1, inr (d, more)) /\ inbound s1 = fs
               /\ sock_rcvmore s1 = more;
  recv_none : forall s,
    inbound s = [] -> exists s1, sock_recv s true = (s1, inl EAGAIN) /\ inbound s1 = []
}.

Section Receive.
Context {Sk : Type} `{SocketQueue Sk}.

Definition small (fs : list (list Z * bool)) : Prop :=
  Forall (fun f => Z.of_nat (length f.1) <= INT_MAX) fs.

Lemma inserted_all d : Z.of_nat (length d) <= INT_MAX -> inserted d (frame_size d) = d.
Proof. intros. unfold inserted. rewrite frame_size_small by done. by rewrite Nat2Z.id, firstn_all. Qed.

(** A receive followed by the rest of the helper, by what has arrived. *)
Lemma recv_then {A} (k : Z -> stm (io Sk) A) s l e fs dw (Q : outcome (io Sk * A) -> Prop) :
  inbound s = fs ->
  match fs with
  | [] => dw = true /\ forall s1, inbound s1 = [] -> Q (k (-1) (Io s1 (MsgOpen []) l EAGAIN))
  | (d, more) :: fs => forall s1, inbound s1 = fs -> sock_rcvmore s1 = more ->
                       Q (k (frame_size d) (Io s1 (MsgOpen d) l e))
  end ->
  Q (sbind (zmq_msg_recv dw) k (Io s (MsgOpen []) l e)).
Proof.
  intros Hi HQ. unfold sbind, zmq_msg_recv; simpl. destruct fs as [|[d more] fs].
  - destruct HQ as [-> HQ]. destruct (recv_none _ Hi) as (s1 & -> & ?). by apply HQ.
  - destruct (recv_some _ _ _ _ dw Hi) as (s1 & -> & ? & ?). by apply HQ.
Qed.

Lemma init_then {A} (k : stm (io Sk) A) s v l e :
  overwritten v = [] ->
  sbind zmq_msg_init (fun _ => k) (Io s v l e) = k (Io s (MsgOpen []) l e).
Proof. intros Ho. unfold zmq_msg_init, zmq_msg_init_size, sbind, smod; simpl. by rewrite Ho. Qed.

Lemma size_not_neg d : (frame_size d <? 0) = false.
Proof. apply Z.ltb_ge, frame_size_nonneg. Qed.

(** What a two-part receive does with the frames that have arrived: its return
    value, title and content, and the frames it leaves. *)
Definition two_part (fs : list (list Z * bool)) : received * list (list Z * bool) :=
  match fs with
  | [] => ((0, [], []), [])
  | (t, false) :: fs => ((-1, t, []), fs)
  | [(t, true)] => ((-1, t, []), [])
  | (t, true) :: (c, _) :: fs => ((Z.of_nat (length c), t, c), fs)
  end.

(** Whatever has arrived, a two-part receive closes its message and loses nothing. *)
Definition recv_result (fs : list (list Z * bool)) (r : outcome (io Sk * received)) : Prop :=
  exists s1 e, r = Done (left s1 e, (two_part fs).1) /\ inbound s1 = (two_part fs).2.

Lemma RecvEventEntity_ok s fs :
  inbound s = fs -> small fs -> recv_result fs (RecvEventEntity (enter s)).
Proof.
  intros Hi Hs. unfold RecvEventEntity, enter. rewrite init_then by done.
  apply (recv_then _ _ _ _ fs); [done|].
  destruct fs as [|[t m] fs]; [by split; [|intros s1 ?; exists s1, EAGAIN]|].
  apply Forall_cons_1 in Hs as [Ht Hs]; simpl in Ht. intros s1 Hi1 Hm.
  rewrite size_not_neg. unfold sbind at 1; simpl. unfold sbind at 1; simpl. rewrite Hm, inserted_all by done.
  destruct m; simpl.
  2: { exists s1, 0. by destruct fs as [|[]]. }
  unfold sbind at 1; simpl. rewrite init_then by done. apply (recv_then _ _ _ _ fs); [done|].
  destruct fs as [|[c mc] fs]; [by split; [|intros s2 ?; exists s2, EAGAIN]|].
  apply Forall_cons_1 in Hs as [Hc _]; simpl in Hc. intros s2 Hi2 _.
  rewrite size_not_neg. exists s2, 0. unfold sbind; simpl.
  by rewrite inserted_all, frame_size_small by done.
Qed.

(** [RecvEventEntity] takes the frames of one event, or the one frame of a
    message without a second part; the title and content are those of the frames, and
    the result is -1 exactly when a part is missing. *)
Theorem RecvEventEntity_frames s fs :
  inbound s = fs -> small fs -> recv_result fs (RecvEventEntity (enter s)).
Proof. apply RecvEventEntity_ok. Qed.

(** [RecvMsgString] differs in that the content is never truncated. *)
Lemma RecvMsgString_frames s fs :
  inbound s = fs -> small fs -> recv_result fs (RecvMsgString (enter s)).
Proof.
  intros Hi Hs. unfold RecvMsgString, enter. rewrite init_then by done.
  apply (recv_then _ _ _ _ fs); [done|].
  destruct fs as [|[t m] fs]; [by split; [|intros s1 ?; exists s1, EAGAIN]|].
  apply Forall_cons_1 in Hs as [Ht Hs]; simpl in Ht. intros s1 Hi1 Hm.
  rewrite size_not_neg. unfold sbind at 1; simpl. unfold sbind at 1; simpl. rewrite Hm, inserted_all by done.
  destruct m; simpl.
  2: { exists s1, 0. by destruct fs as [|[]]. }
  unfold sbind at 1; simpl. rewrite init_then by done. apply (recv_then _ _ _ _ fs); [done|].
  destruct fs as [|[c mc] fs]; [by split; [|intros s2 ?; exists s2, EAGAIN]|].
  apply Forall_cons_1 in Hs as [Hc _]; simpl in Hc. intros s2 Hi2 _.
  rewrite size_not_neg. exists s2, 0. unfold sbind; simpl.
  by rewrite frame_size_small by done.
Qed.

(** The frames of whole events, as [SendEventEntity] sends them. *)
Definition event_frames (evs : list (list Z * list Z)) : list (list Z * bool) :=
  flat_map (fun ev => [(ev.1, true); (ev.2, false)]) evs.

Definition drained (evs : list (list Z * list Z)) (ts cs : list (list Z))
  (r : outcome (io Sk * option (Z * list (list Z) * list (list Z)))) : Prop :=
  exists s1, inbound s1 = [] /\
    r = Done (left s1 EAGAIN, Some (Z.of_nat (length cs + length evs), ts ++ map fst evs, cs ++ map snd evs)).

Lemma RecvAllMessages_spec fuel evs s v e ts cs :
  (length evs < fuel)%nat -> inbound s = event_frames evs -> small (event_frames evs) ->
  overwritten v = [] -> drained evs ts cs (RecvAllMessages fuel ts cs (Io s v [] e)).
Proof.
  revert evs s v e ts cs.
  induction fuel as [|fuel IH]; intros evs s v e ts cs Hf Hi Hs Hv; [lia|].
  simpl RecvAllMessages. rewrite init_then by done.
  apply (recv_then _ _ _ _ _ _ _ Hi). destruct evs as [|[t c] evs]; simpl.
  - split; [done|]. intros s1 Hi1. unfold drained. exists s1. split; [done|].
    unfold sbind; simpl. by rewrite !app_nil_r, Nat.add_0_r.
  - simpl in Hs. apply Forall_cons_1 in Hs as [Ht Hs]. apply Forall_cons_1 in Hs as [Hc Hs].
    simpl in Ht, Hc. intros s1 Hi1 Hm. rewrite size_not_neg. unfold sbind at 1; simpl.
    unfold sbind at 1; simpl. rewrite Hm; simpl. unfold sbind at 1; simpl.
    rewrite init_then by done. apply (recv_then _ _ _ _ _ _ _ Hi1).
    intros s2 Hi2 _. rewrite size_not_neg. unfold sbind at 1; simpl. unfold sbind at 1; simpl.
    rewrite !inserted_all by done.
    destruct (IH evs s2 MsgClosed e (ts ++ [t]) (cs ++ [c])) as (s3 & ? & ->); try done.
    { simpl in Hf; lia. }
    exists s3. split; [done|]. rewrite length_app, <- !app_assoc; simpl.
    by replace (length cs + 1 + length evs)%nat with (length cs + S (length evs))%nat by lia.
Qed.

(** With whole events waiting, [RecvAllMessages] ends: it takes all of them,
    returns their number, and appends their titles and contents in order. *)
Theorem RecvAllMessages_drains s evs :
  inbound s = event_frames evs -> small (event_frames evs) ->
  exists s1, inbound s1 = [] /\
    RecvAllMessages (S (length evs)) [] [] (enter s)
    = Done (left s1 EAGAIN, Some (Z.of_nat (length evs), map fst evs, map snd evs)).
Proof.
  intros Hi Hs.
  apply (RecvAllMessages_spec (S (length evs)) evs s MsgUninit 0 [] []); (done || lia).
Qed.

End Receive.

(** ** A loopback socket

    The smallest socket with the behaviour relied on: what is sent is received. *)

Record loopback : Type := Loopback {
  queue : list (list Z * bool);
  last_more : bool;
  topics : list (list Z)
}.

Definition loopback0 : loopback := Loopback [] false [].

(** One occurrence removed. *)
Fixpoint list_difference_one (t : list Z) (l : list (list Z)) : list (list Z) :=
  match l with
  | [] => []
  | t' :: l => if decide (t' = t) then l else t' :: list_difference_one t l
  end.

#[global] Instance loopback_socket : Socket loopback := {
  sock_send s d more := (Loopback (queue s ++ [(d, more)]) (last_more s) (topics s), inr tt);
  sock_recv s _ :=
    match queue s with
    | [] => (s, inl EAGAIN)
    | (d, more) :: q => (Loopback q more (topics s), inr (d, more))
    end;
  sock_rcvmore s := last_more s;
  sock_subscribe s t := (Loopback (queue s) (last_more s) (topics s ++ [t]), 0);
  sock_unsubscribe s t :=
    (Loopback (queue s) (last_more s) (list_difference_one t (topics s)), 0);
  sock_pollin s := (s, Some (negb (bool_decide (queue s = []))))
}.

#[global] Instance loopback_queue : SocketQueue loopback.
Proof.
  refine {| inbound := queue |}.
  - intros [q m ts] d more fs dw E; simpl in *; subst q. by eexists.
  - intros [q m ts] E; simpl in *; subst q. by eexists.
Defined.

(** Publishing a list of events, one [SendEventEntity] each. *)
Fixpoint send_events {Sk} `{Socket Sk} (evs : list (list Z * list Z)) (s : Sk) : outcome Sk :=
  match evs with
  | [] => Done s
  | (t, c) :: evs =>
    let* (st, _) := SendEventEntity t (Some c) (length c) (enter s) in
    send_events evs (sock st)
  end.

(** A socket that takes every frame it is given: [outbound] is what it has taken. *)
Class SendQueue (P : Type) `{Socket P} : Type := {
  outbound : P -> list (list Z * bool);
  send_taken : forall s d more,
    exists s1, sock_send s d more = (s1, inr tt) /\ outbound s1 = outbound s ++ [(d, more)]
}.

#[global] Instance loopback_sends : SendQueue loopback.
Proof. refine {| outbound := queue |}. intros s d more. by eexists. Defined.

Lemma send_events_taken {P} `{SendQueue P} evs : forall s : P,
  exists s1, send_events evs s = Done s1 /\ outbound s1 = outbound s ++ event_frames evs.
Proof.
  induction evs as [|[t c] evs IH]; intros s; cbn [send_events event_frames flat_map].
  - exists s. by rewrite app_nil_r.
  - rewrite (SendEventEntity_ok s t (Some c) (length c)) by (intros buf E; by injection E as <-).
    cbn [send_all fmap option_fmap option_map default from_option].
    destruct (send_taken s t true) as (s1 & -> & H1). rewrite take_ge by lia. cbn beta iota delta [id].
    destruct (send_taken s1 c false) as (s2 & -> & H2).
    cbn. destruct (IH s2) as (s3 & -> & H3). exists s3. split; [done|].
    rewrite H3, H2, H1. by rewrite <- !app_assoc.
Qed.

(** C19: any list of events sent with [SendEventEntity] on a socket that takes the frames it is
    given is received by [RecvAllMessages] on any socket at which exactly those frames
    have arrived: it ends with the same titles and contents, in order, and returns their
    number (the comment above it announces 0); nothing is left at the socket. *)
Theorem events_roundtrip {P Sk} `{SendQueue P} `{SocketQueue Sk} evs (p : P) :
  small (event_frames evs) ->
  exists p1 arrived, send_events evs p = Done p1 /\ outbound p1 = outbound p ++ arrived /\
    forall s : Sk, inbound s = arrived ->
      exists s1, inbound s1 = [] /\
        RecvAllMessages (S (length evs)) [] [] (enter s)
        = Done (left s1 EAGAIN, Some (Z.of_nat (length evs), map fst evs, map snd evs)).
Proof.
  intros Hs. destruct (send_events_taken evs p) as (p1 & E & Ho). exists p1, (event_frames evs).
  split; [done|]. split; [done|]. intros s Hi.
  apply (RecvAllMessages_spec (S (length evs)) evs s MsgUninit 0 [] []); (done || lia).
Qed.

(** ** Witnesses *)

Definition sample_events : list (list Z * list Z) :=
  [([116; 101; 115; 116], [1; 2; 3]); ([116], []); ([], [0; 255])].

Lemma SendEventEntity_frames_witness :
  SendEventEntity [116; 49] (Some [7; 8; 9]) 2 (enter loopback0)
  = sent (send_all loopback0 [([116; 49], true); ([7; 8], false)]) 2.
Proof.
  apply (SendEventEntity_frames loopback0 [116; 49] (Some [7; 8; 9]) 2).
  intros buf E. injection E as <-. simpl. lia.
Defined.

Lemma RecvEventEntity_frames_witness :
  recv_result [([116], true); ([1], false); ([117], true)]
    (RecvEventEntity (enter (Loopback [([116], true); ([1], false); ([117], true)] false []))).
Proof.
  apply RecvEventEntity_frames; [reflexivity|].
  repeat constructor; vm_compute; discriminate.
Defined.

Lemma RecvAllMessages_drains_witness :
  exists s1, queue s1 = [] /\
    RecvAllMessages 4 [] [] (enter (Loopback (event_frames sample_events) false []))
    = Done (left s1 EAGAIN, Some (3, map fst sample_events, map snd sample_events)).
Proof.
  refine (RecvAllMessages_drains (Loopback (event_frames sample_events) false [])
            sample_events eq_refl _).
  repeat constructor; vm_compute; discriminate.
Defined.

Lemma events_roundtrip_witness :
  exists arrived, obind (send_events sample_events loopback0) (fun p => Done (queue p)) = Done arrived /\
  exists s1, queue s1 = [] /\
    RecvAllMessages 4 [] [] (enter (Loopback arrived false []))
    = Done (left s1 EAGAIN, Some (3, map fst sample_events, map snd sample_events)).
Proof.
  destruct (events_roundtrip (Sk := loopback) sample_events loopback0) as (p1 & arrived & E & Ho & Hr).
  { repeat constructor; vm_compute; discriminate. }
  exists arrived. rewrite E. cbn [obind]. split; [by f_equal|]. exact (Hr (Loopback arrived false []) eq_refl).
Defined.

End Mzmq.
