(* ===== verification/Multimap.v ===== *)
(** * std::multimap: the container of the observers, the timers and the pending connections

    A multimap is its nodes in iteration order, every node with an identity, so
    that an iterator ([Some id], or [None] for [end ()]) can outlive changes of
    the container and an iterator to an erased node is detected: using it is
    undefined behaviour, [Crash].  Searches return the first of the equal keys,
    insertion puts an element after the equal keys, as the standard's lower and
    upper bounds do. *)

From S2P Require Import Prelude.

Module Mm.
Section Multimap.
Context {K V : Type} `{EqDecision K} {order : KeyOrder K}.

Record node : Type := Node { nid : nat; key : K; val : V }.

Record mmap : Type := Mmap { items : list node; fresh_id : nat }.

Definition empty : mmap := Mmap [] 0.

Definition iterator : Type := option nat.

Definition first_of (l : list node) : iterator := nid <$> head l.

Definition begin (m : mmap) : iterator := first_of (items m).

(** The nodes from an iterator on. *)
Fixpoint from (l : list node) (id : nat) : list node :=
  match l with
  | [] => []
  | n :: l' => if decide (nid n = id) then l else from l' id
  end.

Definition get (m : mmap) (it : iterator) : outcome node :=
  let* id := deref it in deref (head (from (items m) id)).

Definition next (m : mmap) (it : iterator) : outcome iterator :=
  let* id := deref it in
  match from (items m) id with
  | _ :: l => Done (first_of l)
  | [] => Crash
  end.

(** The first node whose key is not before [k], and the first after [k]. *)
Fixpoint lower (l : list node) (k : K) : list node :=
  match l with
  | [] => []
  | n :: l' => if kltb (key n) k then lower l' k else l
  end.

Fixpoint upper (l : list node) (k : K) : list node :=
  match l with
  | [] => []
  | n :: l' => if kltb k (key n) then l else upper l' k
  end.

Definition find (m : mmap) (k : K) : iterator :=
  match lower (items m) k with
  | n :: _ => if kltb k (key n) then None else Some (nid n)
  | [] => None
  end.

Definition equal_range (m : mmap) (k : K) : iterator * iterator :=
  (first_of (lower (items m) k), first_of (upper (items m) k)).

Fixpoint insert_node (l : list node) (x : node) : list node :=
  match l with
  | [] => [x]
  | n :: l' => if kltb (key x) (key n) then x :: l else n :: insert_node l' x
  end.

Definition insert (m : mmap) (k : K) (v : V) : mmap :=
  Mmap (insert_node (items m) (Node (fresh_id m) k v)) (S (fresh_id m)).

Fixpoint remove_node (l : list node) (id : nat) : list node :=
  match l with
  | [] => []
  | n :: l' => if decide (nid n = id) then l' else n :: remove_node l' id
  end.

(** [std::find_if] over the whole container. *)
Fixpoint find_if_in (p : node -> bool) (l : list node) : iterator :=
  match l with
  | [] => None
  | n :: l' => if p n then Some (nid n) else find_if_in p l'
  end.

Definition find_if (p : node -> bool) (m : mmap) : iterator := find_if_in p (items m).

(** [erase] returns the iterator that follows. *)
Definition erase (m : mmap) (it : iterator) : outcome (mmap * iterator) :=
  let* id := deref it in
  let* it' := next m it in
  Done (Mmap (remove_node (items m) id) (fresh_id m), it').

(** [erase (equal_range (k))]: all elements of a key. *)
Definition erase_key (m : mmap) (k : K) : mmap := Mmap (filter (fun n => key n <> k) (items m)) (fresh_id m).

(** ** Well-formed multimaps: keys in order, distinct identities *)

Record wf (m : mmap) : Prop := {
  wf_sorted : StronglySorted kle (map key (items m));
  wf_ids : NoDup (map nid (items m));
  wf_fresh : Forall (fun n => nid n < fresh_id m)%nat (items m)
}.

Lemma wf_empty : wf empty.
Proof. split; simpl; constructor. Qed.

Lemma from_app l1 n l2 :
  NoDup (map nid (l1 ++ n :: l2)) -> from (l1 ++ n :: l2) (nid n) = n :: l2.
Proof.
  induction l1 as [|x l1 IH]; simpl; intros Hnd.
  - by destruct (decide (nid n = nid n)).
  - apply NoDup_cons in Hnd as [Hx Hnd]. destruct (decide (nid x = nid n)) as [E|]; [|auto].
    destruct Hx. rewrite E, map_app. apply elem_of_app; right; simpl. constructor.
Qed.

Lemma from_absent l id : id ∉ map nid l -> from l id = [].
Proof.
  induction l as [|x l IH]; simpl; [done|]. rewrite not_elem_of_cons. intros [? ?].
  destruct (decide (nid x = id)); [congruence|auto].
Qed.

Lemma remove_node_app l1 n l2 :
  NoDup (map nid (l1 ++ n :: l2)) -> remove_node (l1 ++ n :: l2) (nid n) = l1 ++ l2.
Proof.
  induction l1 as [|x l1 IH]; simpl; intros Hnd.
  - by destruct (decide (nid n = nid n)).
  - apply NoDup_cons in Hnd as [Hx Hnd]. destruct (decide (nid x = nid n)) as [E|].
    + destruct Hx. rewrite E, map_app. apply elem_of_app; right; simpl. constructor.
    + by rewrite IH.
Qed.

Section At.
Context (m : mmap) (l1 : list node) (n : node) (l2 : list node).
Context (Hm : wf m) (Hi : items m = l1 ++ n :: l2).

Lemma get_at : get m (first_of (n :: l2)) = Done n.
Proof. unfold get; simpl. rewrite Hi, from_app; [done|]. rewrite <- Hi. apply Hm. Qed.

Lemma next_at : next m (first_of (n :: l2)) = Done (first_of l2).
Proof. unfold next; simpl. rewrite Hi, from_app; [done|]. rewrite <- Hi. apply Hm. Qed.

Lemma erase_at : erase m (first_of (n :: l2)) = Done (Mmap (l1 ++ l2) (fresh_id m), first_of l2).
Proof.
  unfold erase. rewrite next_at. simpl. rewrite Hi, remove_node_app; [done|].
  rewrite <- Hi. apply Hm.
Qed.

Lemma wf_erase : wf (Mmap (l1 ++ l2) (fresh_id m)).
Proof.
  destruct Hm as [Hs Hn Hf]. rewrite Hi in *. rewrite !map_app in *. simpl in *.
  split; simpl; rewrite ?map_app.
  - revert Hs. generalize (map key l1) (map key l2). clear. intros k1 k2 Hs.
    induction k1 as [|k k1 IH]; simpl in *; inversion Hs as [|? ? Hs' Hf]; subst; [done|].
    constructor; [by apply IH|]. apply Forall_app in Hf as [? Hf]. apply Forall_app; split; [done|].
    by inversion Hf.
  - apply NoDup_app in Hn as (? & Hd & Hn). apply NoDup_cons in Hn as [? ?].
    apply NoDup_app; split_and!; [done| |done]. intros x Hx Hx2. apply (Hd x Hx). by constructor.
  - apply Forall_app in Hf as [? Hf]. apply Forall_app; split; [done|]. by inversion Hf.
Qed.
End At.

Lemma get_absent m it : (forall id, it = Some id -> id ∉ map nid (items m)) -> get m it = Crash.
Proof. destruct it as [id|]; [|done]. intros H. unfold get; simpl. by rewrite from_absent by auto. Qed.

Lemma next_absent m id : id ∉ map nid (items m) -> next m (Some id) = Crash.
Proof. intros H. unfold next; simpl. by rewrite from_absent. Qed.

Lemma from_inv l id n l2 : from l id = n :: l2 -> exists l1, l = l1 ++ n :: l2 /\ nid n = id.
Proof.
  induction l as [|x l IH]; simpl; [done|]. destruct (decide _) as [E|].
  - intros [= -> ->]. by exists [].
  - intros (l1 & -> & ?)%IH. by exists (x :: l1).
Qed.

Lemma get_inv m it n : get m it = Done n -> exists l1 l2, items m = l1 ++ n :: l2 /\ it = first_of (n :: l2).
Proof.
  destruct it as [id|]; [|done]. unfold get; simpl. destruct (from _ _) as [|x l2] eqn:E; [done|]. intros [= ->].
  destruct (from_inv _ _ _ _ E) as (l1 & ? & <-). by exists l1, l2.
Qed.

Lemma next_inv m it it' :
  next m it = Done it' -> exists l1 n l2, items m = l1 ++ n :: l2 /\ it = first_of (n :: l2) /\ it' = first_of l2.
Proof.
  destruct it as [id|]; [|done]. unfold next; simpl. destruct (from _ _) as [|x l2] eqn:E; [done|]. intros [= <-].
  destruct (from_inv _ _ _ _ E) as (l1 & ? & <-). by exists l1, x, l2.
Qed.

Lemma find_if_none p m : find_if p m = None <-> Forall (fun n => p n = false) (items m).
Proof.
  unfold find_if. induction (items m) as [|n l IH]; simpl; [by split|].
  destruct (p n) eqn:E; rewrite Forall_cons; [|tauto]. split; [done|]. intros [? _]. congruence.
Qed.

Lemma find_if_some p m it :
  find_if p m = Some it -> exists l1 n l2,
    items m = l1 ++ n :: l2 /\ p n = true /\ Some it = first_of (n :: l2).
Proof.
  unfold find_if. induction (items m) as [|n l IH]; simpl; [done|].
  destruct (p n) eqn:E; [intros [= <-]; by exists [], n, l|].
  intros (l1 & n' & l2 & -> & Hp & Hit)%IH. by exists (n :: l1), n', l2.
Qed.

Lemma insert_node_perm l x : insert_node l x ≡ₚ x :: l.
Proof.
  induction l as [|n l IH]; simpl; [done|].
  destruct (kltb _ _); [done|]. rewrite IH. by constructor.
Qed.

Lemma nid_inj m x y : wf m -> x ∈ items m -> y ∈ items m -> nid x = nid y -> x = y.
Proof.
  intros [_ Hn _]. induction (items m) as [|n l IH]; [by intros ?%not_elem_of_nil|].
  simpl in Hn. apply NoDup_cons in Hn as [Hn Hnd]. rewrite !elem_of_cons.
  intros [->|Hx] [->|Hy] E; [done| | |auto]; destruct Hn.
  - rewrite E. by apply list_elem_of_fmap_2.
  - rewrite <- E. by apply list_elem_of_fmap_2.
Qed.

(** ** The nodes of one key *)

Definition before (k : K) (l : list node) : Prop := Forall (fun n => klt (key n) k) l.
Definition equals (k : K) (l : list node) : Prop := Forall (fun n => key n = k) l.
Definition after (k : K) (l : list node) : Prop := Forall (fun n => klt k (key n)) l.

(** The values of a key, in iteration order: [count] and what [equal_range] visits. *)
Definition with_key (k : K) (l : list node) : list node := filter (fun n => key n = k) l.
Definition values (m : mmap) (k : K) : list V := map val (with_key k (items m)).

Lemma sorted_split l k :
  StronglySorted kle (map key l) ->
  exists lo hi, l = lo ++ with_key k l ++ hi /\ before k lo /\ after k hi.
Proof.
  induction l as [|n l IH]; simpl; intros Hs.
  { exists [], []. repeat split; constructor. }
  inversion Hs as [|? ? Hs' Hf]; subst. rewrite Forall_map in Hf. destruct (IH Hs') as (lo & hi & El & Hlo & Hhi).
  unfold with_key in *. rewrite filter_cons. destruct (decide (key n = k)) as [E|E].
  - assert (lo = []) as ->.
    { destruct lo as [|x lo]; [done|]. exfalso. apply Forall_cons_1 in Hlo as [Hx _].
      rewrite El in Hf. apply Forall_inv in Hf. simpl in Hf. by rewrite E in Hf. }
    simpl in El. exists [], hi. simpl. rewrite El at 1. by repeat split; try constructor.
  - destruct (klt_total (key n) k) as [Hk|[Hk|Hk]]; [|done|].
    + exists (n :: lo), hi. simpl. rewrite El at 1. by repeat split; try constructor.
    + assert (Hall : after k l).
      { unfold after. eapply Forall_impl; [exact Hf|]. simpl.
        intros x [Hlt|Heq]%kle_cases; [by eapply klt_trans|by rewrite <- Heq]. }
      assert (lo = []) as ->.
      { destruct lo as [|x lo]; [done|]. exfalso. apply Forall_cons_1 in Hlo as [Hx _].
        rewrite El in Hall. apply Forall_inv in Hall.
        exact (klt_irrefl _ (klt_trans _ _ _ Hx Hall)). }
      assert (filter (fun n => key n = k) l = []) as E0.
      { clear -Hall.
        induction Hall as [|x l Hx _ IHl]; [done|]. rewrite filter_cons.
        destruct (decide (key x = k)) as [Ex|]; [|done]. rewrite Ex in Hx.
        by apply klt_irrefl in Hx. }
      rewrite E0 in *. exists [], (n :: l). by repeat split; try constructor.
Qed.

Lemma equals_with_key k l : equals k (with_key k l).
Proof. apply Forall_forall. intros n [? _]%list_elem_of_filter. done. Qed.

Lemma ltb_false p q : kltb p q = false <-> kle q p.
Proof. unfold kle. rewrite <- kltb_spec. by destruct (kltb p q). Qed.

Lemma lower_split lo l k : before k lo -> Forall (fun n => kle k (key n)) l -> lower (lo ++ l) k = l.
Proof.
  induction 1 as [|n lo Hn _ IH]; simpl; intros Hl.
  - destruct Hl as [|n l Hn _]; simpl; [done|]. by apply ltb_false in Hn as ->.
  - apply kltb_spec in Hn as ->. auto.
Qed.

Lemma upper_split lo hi k :
  Forall (fun n => kle (key n) k) lo -> after k hi -> upper (lo ++ hi) k = hi.
Proof.
  induction 1 as [|n lo Hn _ IH]; simpl; intros Hl.
  - destruct Hl as [|n l Hn _]; simpl; [done|]. by apply kltb_spec in Hn as ->.
  - apply ltb_false in Hn as ->. auto.
Qed.

Lemma insert_node_split lo hi x :
  Forall (fun n => kle (key n) (key x)) lo -> after (key x) hi ->
  insert_node (lo ++ hi) x = lo ++ x :: hi.
Proof.
  induction 1 as [|n lo Hn _ IH]; simpl; intros Hl.
  - destruct Hl as [|n l Hn _]; simpl; [done|]. by apply kltb_spec in Hn as ->.
  - apply ltb_false in Hn as ->. by rewrite IH.
Qed.

Lemma before_le k lo : before k lo -> Forall (fun n => kle (key n) k) lo.
Proof. intros H; eapply Forall_impl; [exact H|]. intros n ?; apply kle_cases; auto. Qed.
Lemma equals_le k l : equals k l -> Forall (fun n => kle (key n) k) l.
Proof. intros H; eapply Forall_impl; [exact H|]. intros n ?; apply kle_cases; auto. Qed.
Lemma equals_ge k l : equals k l -> Forall (fun n => kle k (key n)) l.
Proof. intros H; eapply Forall_impl; [exact H|]. intros n ?; apply kle_cases; auto. Qed.
Lemma after_ge k l : after k l -> Forall (fun n => kle k (key n)) l.
Proof. intros H; eapply Forall_impl; [exact H|]. intros n ?; apply kle_cases; auto. Qed.

(** The bounds of a key in a well-formed multimap. *)
Lemma bounds m k :
  wf m -> exists lo hi,
    items m = lo ++ with_key k (items m) ++ hi /\ before k lo /\ after k hi
    /\ lower (items m) k = with_key k (items m) ++ hi /\ upper (items m) k = hi
    /\ forall v, items (insert m k v)
                = lo ++ with_key k (items m) ++ Node (fresh_id m) k v :: hi.
Proof.
  intros Hm. destruct (sorted_split (items m) k) as (lo & hi & E & Hlo & Hhi); [apply Hm|].
  pose proof (equals_with_key k (items m)) as He.
  exists lo, hi. split_and!; try done.
  - rewrite E at 1. apply lower_split; [done|].
    apply Forall_app; split; [by apply equals_ge | by apply after_ge].
  - rewrite E, app_assoc. apply upper_split; [|done].
    apply Forall_app; split; [by apply before_le | by apply equals_le].
  - intros v. simpl. rewrite E at 1. rewrite !app_assoc. apply (insert_node_split (lo ++ _)); [|done].
    apply Forall_app; split; [by apply before_le | by apply equals_le].
Qed.

Lemma with_key_app k l1 l2 : with_key k (l1 ++ l2) = with_key k l1 ++ with_key k l2.
Proof. unfold with_key. apply filter_app. Qed.

Lemma with_key_before k lo : before k lo -> with_key k lo = [].
Proof.
  induction 1 as [|n lo Hn _ IH]; [done|]. unfold with_key in *. rewrite filter_cons.
  destruct (decide _) as [E|]; [|done]. rewrite E in Hn. by apply klt_irrefl in Hn.
Qed.

Lemma find_spec m k :
  wf m -> find m k = match with_key k (items m) with
                     | [] => None
                     | n :: _ => Some (nid n)
                     end.
Proof.
  intros Hm. destruct (bounds m k Hm) as (lo & hi & _ & _ & Hhi & El & _). unfold find.
  rewrite El. pose proof (equals_with_key k (items m)) as He.
  destruct (with_key k (items m)) as [|n l]; simpl.
  - destruct Hhi as [|n hi Hn _]; [done|]. by apply kltb_spec in Hn as ->.
  - apply Forall_inv in He. cbv beta in He. rewrite He.
    assert (kltb k k = false) as -> by (apply ltb_false, kle_cases; auto). done.
Qed.

Lemma insert_perm m k v : items (insert m k v) ≡ₚ Node (fresh_id m) k v :: items m.
Proof.
  apply insert_node_perm.
Qed.

Lemma wf_insert m k v : wf m -> wf (insert m k v).
Proof.
  intros Hm. pose proof (insert_perm m k v) as Hp. destruct Hm as [Hs Hn Hf]. split.
  - unfold insert; simpl. clear Hp Hn Hf. induction (items m) as [|n l IH]; simpl in *.
    + repeat constructor.
    + inversion Hs as [|? ? Hs' Hle]; subst. destruct (kltb k (key n)) eqn:E; simpl.
      * apply kltb_spec in E. constructor; [done|]. constructor; [apply kle_cases; auto|].
        eapply Forall_impl; [exact Hle|]. intros q [Hq| <-]%kle_cases; apply kle_cases; left;
          [by eapply klt_trans|done].
      * apply ltb_false in E. constructor; [auto|]. clear -Hle E.
        rewrite insert_node_perm. by constructor.
  - rewrite Hp; simpl. constructor; [|done]. rewrite list_elem_of_fmap.
    intros (n & E & Hin). rewrite Forall_forall in Hf. specialize (Hf _ Hin). lia.
  - rewrite Hp. constructor; simpl; [lia|]. eapply Forall_impl; [exact Hf|]. simpl. lia.
Qed.

Lemma with_key_after k hi : after k hi -> with_key k hi = [].
Proof.
  induction 1 as [|n hi Hn _ IH]; [done|]. unfold with_key in *. rewrite filter_cons.
  destruct (decide _) as [E|]; [|done]. rewrite E in Hn. by apply klt_irrefl in Hn.
Qed.

Lemma with_key_equals k l : equals k l -> with_key k l = l.
Proof.
  induction 1 as [|n l Hn _ IH]; [done|]. unfold with_key in *. rewrite filter_cons.
  destruct (decide _); [|done]. by rewrite IH.
Qed.

Lemma with_key_insert_ne k l x : key x <> k -> with_key k (insert_node l x) = with_key k l.
Proof.
  intros Hx. unfold with_key. induction l as [|n l IH]; simpl.
  - rewrite filter_cons. by destruct (decide _).
  - destruct (kltb _ _); rewrite !filter_cons.
    + by destruct (decide (key x = k)).
    + by rewrite IH.
Qed.

Lemma with_key_insert m k v :
  wf m -> with_key k (items (insert m k v)) = with_key k (items m) ++ [Node (fresh_id m) k v].
Proof.
  intros Hm. destruct (bounds m k Hm) as (lo & hi & _ & Hlo & Hhi & _ & _ & ->).
  pose proof (equals_with_key k (items m)) as He. revert He.
  generalize (with_key k (items m)). intros w He.
  rewrite !with_key_app, (with_key_before k lo), (with_key_equals k w) by done. simpl.
  f_equal. unfold with_key. rewrite filter_cons. destruct (decide _) as [_|Hn]; [|by destruct Hn].
  by fold (with_key k hi); rewrite with_key_after.
Qed.

Lemma values_insert m k v k' :
  wf m -> values (insert m k v) k' = if decide (k' = k) then values m k ++ [v] else values m k'.
Proof.
  intros Hm. unfold values. destruct (decide (k' = k)) as [->|Hne].
  - by rewrite with_key_insert, map_app.
  - simpl. by rewrite with_key_insert_ne.
Qed.
End Multimap.
#[global] Arguments get : simpl never.
#[global] Arguments next : simpl never.
#[global] Arguments erase : simpl never.
#[global] Arguments find : simpl never.
Arguments node K V : clear implicits.
Arguments mmap K V : clear implicits.
End Mm.
