(* ===== verification/EventClient.v ===== *)
(** * EventClient.cpp: one thread's event client

    An event client keeps the multimap of the observers of its thread
    ([_event_object_map]) and two sockets: what its observers subscribe to is
    subscribed on the [SUB] socket, what they publish is sent on the [PUB]
    socket.  The virtual method [EventTarget::event_handle] is a parameter of
    the operations that call it; it may call back any operation of the client,
    so the dispatch loops step iterators over the map as it is after each call. *)

From S2P Require Import Prelude Mzmq Multimap.

(** What the client relies on: [ZMQ_SUBSCRIBE] and [ZMQ_UNSUBSCRIBE] count the
    subscriptions of a topic, or fail and change nothing. *)
Class SubSocket (Sk : Type) `{Socket Sk} : Type := {
  subs : Sk -> list Z -> nat;
  subscribe_ok : forall s t s1 t', sock_subscribe s t = (s1, 0) ->
    (subs s1 t' = (if decide (t' = t) then 1 else 0) + subs s t')%nat;
  subscribe_fail : forall s t s1 rc t', sock_subscribe s t = (s1, rc) -> rc <> 0 ->
    subs s1 t' = subs s t';
  unsubscribe_ok : forall s t s1 t', sock_unsubscribe s t = (s1, 0) ->
    (subs s1 t' = subs s t' - (if decide (t' = t) then 1 else 0))%nat;
  unsubscribe_fail : forall s t s1 rc t', sock_unsubscribe s t = (s1, rc) -> rc <> 0 ->
    subs s1 t' = subs s t'
}.

Module EventClient.
Section Client.
Context {Sk : Type} `{Socket Sk}.
(** [EventTarget *] *)
Context {T : Type} `{EqDecision T}.

Record client : Type := Client {
  event_object_map : Mm.mmap (list Z) T;
  sub_socket : Sk;
  pub_socket : Sk;
  revents : bool
}.

Definition set_map (c : client) (m : Mm.mmap (list Z) T) : client :=
  Client m (sub_socket c) (pub_socket c) (revents c).
Definition set_sub (c : client) (s : Sk) : client :=
  Client (event_object_map c) s (pub_socket c) (revents c).
Definition set_pub (c : client) (s : Sk) : client :=
  Client (event_object_map c) (sub_socket c) s (revents c).
Definition set_revents (c : client) (b : bool) : client :=
  Client (event_object_map c) (sub_socket c) (pub_socket c) b.

(** The constructor's state, once both sockets are connected. *)
Definition connected (sub pub : Sk) : client := Client Mm.empty sub pub false.

(** The loop that looks for an earlier registration, from [it] to the end. *)
Fixpoint already (fuel : nat) (m : Mm.mmap (list Z) T) (it : Mm.iterator)
  (type : list Z) (object : T) : outcome bool :=
  match it, fuel with
  | None, _ => Done false
  | Some _, O => Crash
  | Some _, S fuel =>
    let* n := Mm.get m it in
    if bool_decide (Mm.key n = type) && bool_decide (Mm.val n = object) then Done true
    else let* it := Mm.next m it in already fuel m it type object
  end.

Definition register_observer (type : list Z) (object : T) : stm client bool :=
  fun c =>
    let m := event_object_map c in
    let it := Mm.find m type in
    if bool_decide (it <> None) then
      let* dup := already (S (length (Mm.items m))) m it type object in
      if dup then Done (c, true)
      else Done (set_map c (Mm.insert m type object), true)
    else
      let c := set_map c (Mm.insert m type object) in
      let (s, rc) := sock_subscribe (sub_socket c) type in
      let c := set_sub c s in
      if (rc =? 0) then Done (c, true) else Done (c, false).

(** The loop of [unregister_observer], at [it]. *)
Fixpoint unregister_from (fuel : nat) (it : Mm.iterator) (type : list Z) (object : T)
  : stm client bool :=
  fun c =>
    match it, fuel with
    | None, _ => Done (c, true)
    | Some _, O => Crash
    | Some _, S fuel =>
      let m := event_object_map c in
      let* n := Mm.get m it in
      if bool_decide (Mm.key n = type) && bool_decide (Mm.val n = object) then
        let* (m, it) := Mm.erase m it in
        let c := set_map c m in
        if bool_decide (Mm.find m type = None) then
          let (s, rc) := sock_unsubscribe (sub_socket c) type in
          let c := set_sub c s in
          if (rc =? 0) then Done (c, true) else Done (c, false)
        else Done (c, true)
      else
        let* it := Mm.next m it in
        unregister_from fuel it type object c
    end.

Definition unregister_observer (type : list Z) (object : T) : stm client bool :=
  fun c => unregister_from (S (length (Mm.items (event_object_map c))))
             (Mm.begin (event_object_map c)) type object c.

Definition publish_event (type content : list Z) : stm client unit :=
  fun c =>
    let data := match content with [] => None | _ => Some content end in
    let* (st, _) := Mzmq.SendEventEntity type data (length content) (Mzmq.enter (pub_socket c)) in
    Done (set_pub c (Mzmq.sock st), tt).

Section Dispatch.
(** The virtual method of the observers. *)
Context (event_handle : T -> list Z -> list Z -> stm client unit).

(** [for (; it != stop; ++it) it->second->event_handle (type, content)]; the result
    tells whether the loop ended within the fuel. *)
Fixpoint dispatch (fuel : nat) (it stop : Mm.iterator) (type content : list Z)
  : stm client bool :=
  fun c =>
    if bool_decide (it = stop) then Done (c, true)
    else match fuel with
    | O => Done (c, false)
    | S fuel =>
      let* n := Mm.get (event_object_map c) it in
      let* (c, _) := event_handle (Mm.val n) type content c in
      let* it := Mm.next (event_object_map c) it in
      dispatch fuel it stop type content c
    end.

Definition publish_loc_event (fuel : nat) (type content : list Z) : stm client bool :=
  fun c => dispatch fuel (Mm.find (event_object_map c) type) None type content c.

Definition handle_event (fuel : nat) : stm client bool :=
  fun c =>
    let (s, pollin) := sock_pollin (sub_socket c) in
    let c := match pollin with Some b => set_revents (set_sub c s) b | None => set_sub c s end in
    if revents c then
      let* (st, r) := Mzmq.RecvEventEntity (Mzmq.enter (sub_socket c)) in
      let '(rc, title, content) := r in
      let c := set_sub c (Mzmq.sock st) in
      let (first, second) := Mm.equal_range (event_object_map c) title in
      dispatch fuel first second title content c
    else Done (c, true).

(** Calling a list of observers in order. *)
Fixpoint call_all (os : list T) (type content : list Z) : stm client unit :=
  match os with
  | [] => sret tt
  | o :: os => event_handle o type content ;;; call_all os type content
  end.
End Dispatch.

(** ** Observers *)

(** The observers of an event, in the order of their registration. *)
Definition observers (c : client) (type : list Z) : list T :=
  Mm.values (event_object_map c) type.

(** The invariant: a well-formed map in which an observer appears at most once per
    event. *)
Record ok (c : client) : Prop := {
  ok_wf : Mm.wf (event_object_map c);
  ok_nodup : forall type, NoDup (observers c type)
}.

Lemma ok_connected sub pub : ok (connected sub pub).
Proof. split; [apply Mm.wf_empty|]. intros type. constructor. Qed.

(** The duplicate test, from any point of the map. *)
Lemma already_spec fuel m l1 l2 type object :
  Mm.wf m -> Mm.items m = l1 ++ l2 -> (length l2 < fuel)%nat ->
  already fuel m (Mm.first_of l2) type object
  = Done (bool_decide (object ∈ map Mm.val (Mm.with_key type l2))).
Proof.
  intros Hm. revert fuel l1. induction l2 as [|n l2 IH]; intros fuel l1 Hi Hf.
  { by destruct fuel. }
  destruct fuel as [|fuel]; [lia|]. simpl.
  rewrite (Mm.get_at m l1 n l2), obind_done by done.
  unfold Mm.with_key; rewrite filter_cons; fold (Mm.with_key type l2).
  destruct (decide (Mm.key n = type)) as [E|E].
  - rewrite (bool_decide_eq_true_2 (Mm.key n = type)) by done. simpl.
    destruct (decide (Mm.val n = object)) as [Ev|Ev].
    + rewrite !bool_decide_eq_true_2; [done|by rewrite Ev; constructor|done].
    + rewrite (bool_decide_eq_false_2 (Mm.val n = object)) by done.
      rewrite (Mm.next_at m l1 n l2), obind_done by done.
      rewrite (IH _ (l1 ++ [n])); [|by rewrite <- app_assoc|simpl in Hf; lia].
      f_equal. apply bool_decide_ext. rewrite elem_of_cons.
      split; [auto|]. intros [?|?]; [congruence|done].
  - rewrite (bool_decide_eq_false_2 (Mm.key n = type)) by done. simpl.
    rewrite (Mm.next_at m l1 n l2), obind_done by done.
    apply (IH _ (l1 ++ [n])); [by rewrite <- app_assoc|simpl in Hf; lia].
Qed.

Lemma find_some c type :
  ok c -> Mm.find (event_object_map c) type <> None <-> observers c type <> [].
Proof.
  intros Hc. rewrite Mm.find_spec by apply Hc. unfold observers, Mm.values.
  by destruct (Mm.with_key _ _).
Qed.

(** The search of [register_observer] finds an earlier registration exactly when
    there is one: the entries after those of [type] have other keys. *)
Lemma already_find c type object :
  ok c -> observers c type <> [] ->
  let m := event_object_map c in
  already (S (length (Mm.items m))) m (Mm.find m type) type object
  = Done (bool_decide (object ∈ observers c type)).
Proof.
  intros Hc Hne m. destruct (Mm.bounds m type) as (lo & hi & E & Hlo & Hhi & _); [apply Hc|].
  assert (Hf : Mm.find m type = Mm.first_of (Mm.with_key type (Mm.items m) ++ hi)).
  { rewrite Mm.find_spec by apply Hc. unfold observers, Mm.values in Hne. fold m in Hne.
    by destruct (Mm.with_key _ _). }
  rewrite Hf, (already_spec _ m lo); [|apply Hc|done|].
  - unfold observers, Mm.values. fold m. f_equal.
    rewrite Mm.with_key_app, (Mm.with_key_after _ hi), app_nil_r by done.
    by rewrite (Mm.with_key_equals type (Mm.with_key _ _)) by apply Mm.equals_with_key.
  - rewrite E at 2. rewrite (length_app lo). lia.
Qed.

(** What the two registration calls mean for the observers of every event. *)
Definition add_observer (type : list Z) (o : T) (obs : list Z -> list T) : list Z -> list T :=
  fun t => if decide (t = type)
           then if decide (o ∈ obs type) then obs type else obs type ++ [o]
           else obs t.

Definition remove_observer (type : list Z) (o : T) (obs : list Z -> list T) : list Z -> list T :=
  fun t => if decide (t = type) then filter (fun o' => o' <> o) (obs type) else obs t.

Lemma ok_insert c type o s :
  ok c -> o ∉ observers c type ->
  let c' := set_sub (set_map c (Mm.insert (event_object_map c) type o)) s in
  ok c' /\ forall t, observers c' t = add_observer type o (observers c) t.
Proof.
  intros Hc Ho c'.
  assert (E : forall t, observers c' t = add_observer type o (observers c) t).
  { intros t. unfold observers, add_observer; simpl. rewrite Mm.values_insert by apply Hc.
    destruct (decide (t = type)) as [->|]; [|done]. by destruct (decide (o ∈ _)). }
  split; [split|done].
  - apply Mm.wf_insert, Hc.
  - intros t. rewrite E. unfold add_observer. destruct (decide (t = type)); [|apply Hc].
    destruct (decide (o ∈ _)); [apply Hc|]. apply NoDup_app; split_and!; [apply Hc| |].
    + intros x Hx Hx'. apply list_elem_of_singleton in Hx'. by subst x.
    + apply NoDup_singleton.
Qed.

Lemma set_sub_id c : set_sub c (sub_socket c) = c.
Proof. by destruct c. Qed.

Lemma register_spec c type o :
  ok c -> exists c' b,
    register_observer type o c = Done (c', b) /\ ok c'
    /\ (forall t, observers c' t = add_observer type o (observers c) t)
    /\ pub_socket c' = pub_socket c
    /\ if decide (observers c type = [])
       then sub_socket c' = (sock_subscribe (sub_socket c) type).1
            /\ b = ((sock_subscribe (sub_socket c) type).2 =? 0)
       else sub_socket c' = sub_socket c /\ b = true.
Proof.
  intros Hc. pose proof (find_some c type Hc) as Hf. unfold register_observer.
  destruct (decide (observers c type = [])) as [E0|E0].
  - assert (Hno : o ∉ observers c type) by (rewrite E0; apply not_elem_of_nil).
    rewrite bool_decide_eq_false_2 by tauto.
    destruct (ok_insert c type o (sock_subscribe (sub_socket c) type).1 Hc Hno) as [Hok Hobs].
    simpl. destruct (sock_subscribe _ _) as [s rc]; simpl in *.
    exists (set_sub (set_map c (Mm.insert (event_object_map c) type o)) s), (rc =? 0).
    by destruct (rc =? 0).
  - rewrite bool_decide_eq_true_2 by tauto. rewrite (already_find c type o Hc E0); simpl.
    destruct (bool_decide_reflect (o ∈ observers c type)) as [Hin|Hno].
    + exists c, true. split_and!; try done. intros t. unfold add_observer.
      destruct (decide (t = type)) as [->|]; [|done]. by destruct (decide _).
    + destruct (ok_insert c type o (sub_socket c) Hc Hno) as [Hok Hobs].
      exists (set_map c (Mm.insert (event_object_map c) type o)), true. by split_and!.
Qed.

Lemma filter_absent (o : T) (l : list T) : o ∉ l -> filter (fun o' => o' <> o) l = l.
Proof.
  induction l as [|x l IH]; [done|]. rewrite not_elem_of_cons. intros [? ?].
  rewrite filter_cons. destruct (decide (x <> o)) as [|Hn]; [by rewrite IH|]. by destruct Hn.
Qed.

(** Erasing the entry found removes that observer from its event and nothing else. *)
Lemma values_erase type o l1 n l2 t :
  Mm.key n = type -> Mm.val n = o ->
  NoDup (map Mm.val (Mm.with_key type (l1 ++ n :: l2))) ->
  map Mm.val (Mm.with_key t (l1 ++ l2))
  = remove_observer type o (fun t => map Mm.val (Mm.with_key t (l1 ++ n :: l2))) t.
Proof.
  intros Ek Ev. unfold remove_observer, Mm.with_key.
  rewrite !filter_app, !filter_cons, !map_app.
  destruct (decide (t = type)) as [->|Hne].
  - rewrite decide_True by done. simpl. rewrite Ev, filter_app, filter_cons.
    rewrite (decide_False (P := o <> o)) by (intros Hn; by apply Hn).
    intros (_ & Hd & Hnd)%NoDup_app. apply NoDup_cons in Hnd as [Ho _].
    rewrite !filter_absent; [done|done|]. intros Hin. apply (Hd o Hin). by constructor.
  - rewrite (decide_False (P := Mm.key n = t)) by congruence. done.
Qed.

Lemma observers_absent c type o l1 l2 :
  Mm.items (event_object_map c) = l1 ++ l2 ->
  o ∉ map Mm.val (Mm.with_key type l1) -> o ∈ observers c type ->
  o ∈ map Mm.val (Mm.with_key type l2).
Proof.
  intros Hi Ho. unfold observers, Mm.values. rewrite Hi, Mm.with_key_app, map_app.
  intros [?|?]%elem_of_app; done.
Qed.

(** What [unregister_observer] leaves: as [register_spec], the socket is told only
    when the last observer of the event has gone. *)
Definition unregistered (c : client) (type : list Z) (o : T) (r : outcome (client * bool)) : Prop :=
  exists c' b, r = Done (c', b) /\ ok c'
    /\ (forall t, observers c' t = remove_observer type o (observers c) t)
    /\ pub_socket c' = pub_socket c
    /\ Mm.items (event_object_map c') ⊆ Mm.items (event_object_map c)
    /\ if decide (observers c type = [o])
       then sub_socket c' = (sock_unsubscribe (sub_socket c) type).1
            /\ b = ((sock_unsubscribe (sub_socket c) type).2 =? 0)
       else sub_socket c' = sub_socket c /\ b = true.

Lemma remove_absent c type o t :
  o ∉ observers c type -> observers c t = remove_observer type o (observers c) t.
Proof.
  intros Ho. unfold remove_observer. destruct (decide (t = type)) as [->|]; [|done].
  by rewrite filter_absent.
Qed.

Lemma filter_nil_singleton (o : T) (l : list T) :
  NoDup l -> o ∈ l -> filter (fun o' => o' <> o) l = [] -> l = [o].
Proof.
  intros Hnd Hin E. assert (Hall : forall x, x ∈ l -> x = o).
  { intros x Hx. destruct (decide (x = o)); [done|]. exfalso.
    assert (x ∈ filter (fun o' => o' <> o) l) as Hf by (by apply list_elem_of_filter).
    rewrite E in Hf. by apply not_elem_of_nil in Hf. }
  destruct l as [|x [|y l]].
  - by apply not_elem_of_nil in Hin.
  - by rewrite (Hall x) by constructor.
  - apply NoDup_cons in Hnd as [Hx _]. destruct Hx.
    rewrite (Hall x), (Hall y) by (repeat constructor). constructor.
Qed.

Lemma unregister_found c type o l1 n l2 fuel :
  ok c -> Mm.items (event_object_map c) = l1 ++ n :: l2 ->
  Mm.key n = type -> Mm.val n = o ->
  unregistered c type o (unregister_from (S fuel) (Mm.first_of (n :: l2)) type o c).
Proof.
  intros Hc Hi Ek Ev. simpl unregister_from. unfold unregistered.
  pose proof (ok_wf _ Hc) as Hw. pose proof (ok_nodup _ Hc type) as Hnd.
  rewrite (Mm.get_at _ l1 n l2), obind_done by done.
  rewrite !bool_decide_eq_true_2 by done. simpl andb. cbv iota.
  rewrite (Mm.erase_at _ l1 n l2) by done. simpl obind.
  set (m' := Mm.Mmap (l1 ++ l2) _).
  assert (Hw' : Mm.wf m') by (by apply (Mm.wf_erase _ l1 n l2)).
  assert (Hobs : forall s t, observers (set_sub (set_map c m') s) t
                             = remove_observer type o (observers c) t).
  { intros s t. unfold observers, Mm.values. simpl. rewrite (values_erase type o l1 n l2);
      [|done|done|by rewrite <- Hi]. unfold remove_observer. by rewrite Hi. }
  assert (Hok : forall s, ok (set_sub (set_map c m') s)).
  { intros s. split; [done|]. intros t. rewrite Hobs. unfold remove_observer.
    destruct (decide _); [apply NoDup_filter|]; apply Hc. }
  assert (Hin : o ∈ observers c type).
  { unfold observers, Mm.values. rewrite Hi, Mm.with_key_app, map_app. apply elem_of_app; right.
    unfold Mm.with_key. rewrite filter_cons, decide_True by done. simpl. rewrite Ev. constructor. }
  pose proof (find_some _ type (Hok (sub_socket c))) as Hf. rewrite Hobs in Hf.
  unfold remove_observer in Hf. rewrite decide_True in Hf by done. cbn [set_sub set_map event_object_map] in Hf.
  assert (Hsub : l1 ++ l2 ⊆ Mm.items (event_object_map c)).
  { rewrite Hi. intros x. rewrite !elem_of_app, elem_of_cons. tauto. }
  destruct (decide (observers c type = [o])) as [E1|E1].
  - rewrite bool_decide_eq_true_2.
    2:{ destruct (decide (Mm.find m' type = None)) as [|Hn]; [done|]. apply Hf in Hn.
        destruct Hn. rewrite E1, filter_cons. by rewrite decide_False by (intros Hn; by apply Hn). }
    pose proof (Hok (sock_unsubscribe (sub_socket c) type).1) as Hok1.
    pose proof (Hobs (sock_unsubscribe (sub_socket c) type).1) as Hobs1.
    simpl. destruct (sock_unsubscribe _ _) as [s rc]; simpl in *.
    exists (set_sub (set_map c m') s), (rc =? 0). by destruct (rc =? 0).
  - rewrite bool_decide_eq_false_2.
    2:{ apply Hf. intros E. apply E1. by apply filter_nil_singleton. }
    exists (set_map c m'), true. split_and!; try done; [apply (Hok (sub_socket c))|apply (Hobs (sub_socket c))].
Qed.

Lemma unregister_from_spec c type o l1 l2 fuel :
  ok c -> Mm.items (event_object_map c) = l1 ++ l2 -> (length l2 < fuel)%nat ->
  o ∉ map Mm.val (Mm.with_key type l1) ->
  unregistered c type o (unregister_from fuel (Mm.first_of l2) type o c).
Proof.
  intros Hc. revert fuel l1. induction l2 as [|n l2 IH]; intros fuel l1 Hi Hf Ho.
  - assert (Hno : o ∉ observers c type).
    { unfold observers, Mm.values. by rewrite Hi, app_nil_r. }
    exists c, true. split_and!; try done; [by destruct fuel|by intros; apply remove_absent|].
    rewrite decide_False; [done|]. intros E. rewrite E in Hno. apply Hno. constructor.
  - destruct fuel as [|fuel]; [lia|].
    destruct (decide (Mm.key n = type /\ Mm.val n = o)) as [[Ek Ev]|Hne].
    { by apply (unregister_found c type o l1 n l2). }
    simpl unregister_from. rewrite (Mm.get_at _ l1 n l2), obind_done by (done || apply Hc).
    rewrite <- bool_decide_and, bool_decide_eq_false_2 by done.
    rewrite (Mm.next_at _ l1 n l2), obind_done by (done || apply Hc).
    apply (IH _ (l1 ++ [n])); [by rewrite <- app_assoc|simpl in Hf; lia|].
    rewrite Mm.with_key_app, map_app, not_elem_of_app. split; [done|].
    unfold Mm.with_key. rewrite filter_cons. destruct (decide _); [|apply not_elem_of_nil].
    rewrite filter_nil. simpl. rewrite list_elem_of_singleton. intros ->. by apply Hne.
Qed.

Lemma unregister_spec c type o :
  ok c -> unregistered c type o (unregister_observer type o c).
Proof.
  intros Hc. apply (unregister_from_spec c type o []); [done|done|lia|apply not_elem_of_nil].
Qed.

(** ** Dispatching *)

Section Dispatching.
Context (event_handle : T -> list Z -> list Z -> stm client unit).

(** Handlers that leave the registrations of their own thread alone. *)
Definition keeps_map : Prop :=
  forall o t d c c' u, event_handle o t d c = Done (c', u) ->
    event_object_map c' = event_object_map c.

Lemma first_of_ne (m : Mm.mmap (list Z) T) l1 n l2 hi :
  Mm.wf m -> Mm.items m = l1 ++ (n :: l2) ++ hi -> Mm.first_of (n :: l2 ++ hi) <> Mm.first_of hi.
Proof.
  intros Hm Hi E. destruct hi as [|x hi]; [done|]. simpl in E. injection E as E.
  pose proof (Mm.wf_ids _ Hm) as Hnd. rewrite Hi, map_app in Hnd. apply NoDup_app in Hnd as (_ & _ & Hnd).
  simpl in Hnd. apply NoDup_cons in Hnd as [Hn _]. apply Hn. rewrite E, map_app.
  apply elem_of_app; right. constructor.
Qed.

(** The loop visits the entries between its iterators, once each, in order. *)
Lemma dispatch_spec l1 w hi fuel type content c :
  keeps_map -> Mm.wf (event_object_map c) ->
  Mm.items (event_object_map c) = l1 ++ w ++ hi -> (length w <= fuel)%nat ->
  dispatch event_handle fuel (Mm.first_of (w ++ hi)) (Mm.first_of hi) type content c
  = (call_all event_handle (map Mm.val w) type content ;;; sret true) c.
Proof.
  intros Hk. revert l1 fuel c. induction w as [|n w IH]; intros l1 fuel c Hw Hi Hf.
  { destruct fuel; simpl; by rewrite bool_decide_eq_true_2. }
  destruct fuel as [|fuel]; [simpl in Hf; lia|]. simpl dispatch.
  pose proof (first_of_ne _ _ _ _ _ Hw Hi) as Hne.
  rewrite bool_decide_eq_false_2 by done.
  rewrite (Mm.get_at _ l1 n (w ++ hi)), obind_done by done.
  simpl call_all. unfold sbind.
  destruct (event_handle (Mm.val n) type content c) as [[c' u]|] eqn:E; [|done]. simpl.
  apply Hk in E. rewrite <- E in Hw, Hi.
  rewrite (Mm.next_at _ l1 n (w ++ hi)), obind_done by done.
  rewrite (IH (l1 ++ [n])); [|done|by rewrite <- app_assoc|simpl in Hf; lia].
  unfold sbind. by destruct u.
Qed.

(** The observers of the events after [type] in the map. *)
Definition later_observers (c : client) (type : list Z) : list T :=
  map Mm.val (filter (fun n => kltb type (Mm.key n) = true) (Mm.items (event_object_map c))).

Lemma filter_after (type : list Z) (lo w hi : list (Mm.node (list Z) T)) :
  Mm.before type lo -> Mm.equals type w -> Mm.after type hi ->
  filter (fun n => kltb type (Mm.key n) = true) (lo ++ w ++ hi) = hi.
Proof.
  intros Hlo Hw Hhi. rewrite !filter_app.
  assert (Hnil : forall l : list (Mm.node (list Z) T), Forall (fun n => kle (Mm.key n) type) l ->
    filter (fun n => kltb type (Mm.key n) = true) l = []).
  { induction 1 as [|n l Hn _ IH]; [done|]. rewrite filter_cons.
    apply Mm.ltb_false in Hn. by rewrite Hn. }
  rewrite (Hnil lo), (Hnil w) by first [by apply Mm.before_le | by apply Mm.equals_le]. rewrite !app_nil_l.
  induction Hhi as [|n l Hn _ IH]; [done|]. rewrite filter_cons.
  rewrite decide_True by (by apply kltb_spec). by rewrite IH.
Qed.

(** C20: [publish_loc_event] calls every observer of the type, in the order of
    registration, and then, since it walks to the end of the map and not to the end of
    the range of the type, the observers of every greater type; it calls nobody when
    the type has no observer. *)
Theorem publish_loc_event_calls c type content fuel :
  keeps_map -> ok c -> (length (Mm.items (event_object_map c)) <= fuel)%nat ->
  publish_loc_event event_handle fuel type content c
  = (call_all event_handle
       (match observers c type with
        | [] => []
        | os => os ++ later_observers c type
        end) type content ;;; sret true) c.
Proof.
  intros Hk Hc Hf. destruct (Mm.bounds (event_object_map c) type) as (lo & hi & E & Hlo & Hhi & _);
    [apply Hc|].
  pose proof (Mm.equals_with_key type (Mm.items (event_object_map c))) as Hw.
  assert (later_observers c type = map Mm.val hi) as ->.
  { unfold later_observers. rewrite E. by rewrite (filter_after type). }
  unfold publish_loc_event, observers, Mm.values. rewrite Mm.find_spec by apply Hc.
  revert E Hw. generalize (Mm.with_key type (Mm.items (event_object_map c))). intros w E Hw.
  destruct w as [|n w]; simpl map.
  { by destruct fuel. }
  pose proof (dispatch_spec lo ((n :: w) ++ hi) [] fuel type content c Hk (ok_wf _ Hc)) as Hd.
  rewrite !app_nil_r, map_app in Hd. apply Hd; [done|].
  rewrite E, length_app in Hf. lia.
Qed.

Lemma equal_range_dispatch fuel type content c :
  keeps_map -> ok c -> (length (observers c type) <= fuel)%nat ->
  (let (first, second) := Mm.equal_range (event_object_map c) type in
   dispatch event_handle fuel first second type content) c
  = (call_all event_handle (observers c type) type content ;;; sret true) c.
Proof.
  intros Hk Hc Hf. destruct (Mm.bounds (event_object_map c) type)
    as (lo & hi & E & _ & _ & El & Eu & _); [apply Hc|].
  unfold Mm.equal_range. rewrite El, Eu.
  apply (dispatch_spec lo); [done|apply Hc|done|].
  unfold observers, Mm.values in Hf. by rewrite length_map in Hf.
Qed.

Context {HQ : Mzmq.SocketQueue Sk}.

(** What the socket's [zmq_poll] reports, and does not change. *)
Definition ready (c : client) (fs : list (list Z * bool)) : Prop :=
  sock_pollin (sub_socket c) = (sub_socket c, Some true)
  /\ Mzmq.inbound (sub_socket c) = fs /\ Mzmq.small fs.

(** One call of [handle_event] takes the frames [RecvEventEntity] takes, and calls
    the observers of the title it read, whether or not the receive failed. *)
Lemma handle_event_title c fs fuel :
  keeps_map -> ok c -> ready c fs ->
  let '(_, title, content) := (Mzmq.two_part fs).1 in
  (length (observers c title) <= fuel)%nat ->
  exists s, Mzmq.inbound s = (Mzmq.two_part fs).2 /\
    handle_event event_handle fuel c
    = (call_all event_handle (observers c title) title content ;;; sret true)
        (set_sub (set_revents c true) s).
Proof.
  intros Hk Hc (Hp & Hi & Hs).
  destruct (Mzmq.RecvEventEntity_ok (sub_socket c) fs Hi Hs) as (s & e & Er & Hin).
  destruct (Mzmq.two_part fs) as [[[rc title] content] fs']. simpl in *.
  intros Hf. exists s. split; [done|]. unfold handle_event. rewrite Hp. simpl.
  change (sub_socket c) with (sub_socket (set_revents (set_sub c (sub_socket c)) true)) in Er.
  simpl in Er. rewrite Er. simpl.
  apply (equal_range_dispatch fuel title content (set_sub (set_revents c true) s)); [done| |done].
  split; apply Hc.
Qed.

(** C5: when a whole event is waiting on the subscriber socket and no handler changes the map
    ([self_unregister_crashes] shows what follows otherwise), [handle_event] takes
    exactly its two frames and calls exactly the observers registered for its type,
    each once, in the order of registration, with the type and content received. *)
Theorem handle_event_exact c type content rest fuel :
  keeps_map -> ok c -> ready c ((type, true) :: (content, false) :: rest) ->
  (length (observers c type) <= fuel)%nat ->
  exists s, Mzmq.inbound s = rest /\
    handle_event event_handle fuel c
    = (call_all event_handle (observers c type) type content ;;; sret true)
        (set_sub (set_revents c true) s).
Proof.
  intros Hk Hc Hr. exact (handle_event_title c _ fuel Hk Hc Hr).
Qed.

(** When an event of one frame arrives, [RecvEventEntity] reports the failure,
    and [handle_event], which does not look at its result, calls the observers of the
    type all the same, with an empty content. *)
Theorem handle_event_partial c type rest fuel :
  keeps_map -> ok c -> ready c ((type, false) :: rest) ->
  (length (observers c type) <= fuel)%nat ->
  (exists s, Mzmq.RecvEventEntity (Mzmq.enter (sub_socket c)) = Done (s, (-1, type, []))) /\
  exists s, Mzmq.inbound s = rest /\
    handle_event event_handle fuel c
    = (call_all event_handle (observers c type) type [] ;;; sret true)
        (set_sub (set_revents c true) s).
Proof.
  intros Hk Hc Hr. split; [|exact (handle_event_title c _ fuel Hk Hc Hr H0)].
  destruct Hr as (_ & Hi & Hs).
  destruct (Mzmq.RecvEventEntity_ok _ _ Hi Hs) as (s & e & Er & _). eexists. exact Er.
Qed.

(** C21: an observer that unregisters itself in its callback makes [handle_event]
    advance an iterator to an erased element: the loop cannot continue. *)
Theorem self_unregister_crashes c type content rest fuel o os :
  (forall c, event_handle o type content c
             = (unregister_observer type o ;;; sret tt) c) ->
  ok c -> ready c ((type, true) :: (content, false) :: rest) ->
  observers c type = o :: os ->
  handle_event event_handle (S fuel) c = Crash.
Proof.
  intros Hu Hc (Hp & Hi & Hs) Ho.
  destruct (Mzmq.RecvEventEntity_ok _ _ Hi Hs) as (s & e & Er & _).
  unfold handle_event. rewrite Hp. simpl.
  change (sub_socket c) with (sub_socket (set_revents (set_sub c (sub_socket c)) true)) in Er.
  simpl in Er. rewrite Er. simpl. clear Er.
  set (c1 := set_sub _ _). assert (Hc1 : ok c1) by (split; apply Hc).
  destruct (Mm.bounds (event_object_map c) type) as (lo & hi & E & Hlo & _ & El & Eu & _); [apply Hc|].
  rewrite El, Eu. unfold observers, Mm.values in Ho.
  pose proof (Mm.equals_with_key type (Mm.items (event_object_map c))) as He.
  destruct (Mm.with_key type (Mm.items (event_object_map c))) as [|n w] eqn:Ew; [done|].
  injection Ho as Ev Ew'. apply Forall_inv in He. cbv beta in He.
  pose proof (first_of_ne _ lo n w hi (ok_wf _ Hc) E) as Hne.
  rewrite bool_decide_eq_false_2 by done.
  rewrite (Mm.get_at _ lo n (w ++ hi)), obind_done by (done || apply Hc). rewrite Ev, Hu.
  destruct (unregister_spec c1 type o Hc1) as (c2 & b & Eu2 & Hc2 & Hobs & _ & Hsub & _).
  rewrite (sbind_done _ _ _ _ _ Eu2). simpl.
  change (Mm.first_of (n :: w ++ hi)) with (Some (Mm.nid n)).
  rewrite Mm.next_absent; [done|].
  rewrite list_elem_of_fmap. intros (x & Ex & Hx).
  assert (x = n) as ->.
  { apply Hsub in Hx. apply (Mm.nid_inj (event_object_map c)); [apply Hc|done| |done].
    simpl in E. rewrite E. apply elem_of_app; right. constructor. }
  assert (Hin : o ∈ observers c2 type).
  { unfold observers, Mm.values. apply list_elem_of_fmap. exists n. split; [done|].
    by apply list_elem_of_filter. }
  rewrite Hobs in Hin. unfold remove_observer in Hin. rewrite decide_True in Hin by done.
  by apply list_elem_of_filter in Hin as [? _].
Qed.
End Dispatching.

(** ** Publishing *)
Lemma publish_event_spec type content c :
  publish_event type content c
  = Done (set_pub c (Mzmq.send_all (pub_socket c) [(type, true); (content, false)]).1, tt).
Proof.
  unfold publish_event. rewrite Mzmq.SendEventEntity_ok.
  2:{ intros buf. destruct content as [|x content]; [done|]. intros E; injection E as <-. done. }
  assert (default [] (take (length content) <$> match content with [] => None | _ => Some content end)
          = content) as ->.
  { destruct content as [|x content]; [done|]. simpl. by rewrite firstn_all. }
  by destruct (Mzmq.send_all _ _) as [s [e|u]].
Qed.

(** ** Sequences of calls *)

Inductive call : Type :=
| Register (type : list Z) (o : T)
| Unregister (type : list Z) (o : T)
| Publish (type content : list Z).

Definition run_call (op : call) : stm client bool :=
  match op with
  | Register type o => register_observer type o
  | Unregister type o => unregister_observer type o
  | Publish type content => publish_event type content ;;; sret true
  end.

Fixpoint run (ops : list call) : stm client (list bool) :=
  match ops with
  | [] => sret []
  | op :: ops => let! b := run_call op in let! bs := run ops in sret (b :: bs)
  end.

Definition spec_call (op : call) (obs : list Z -> list T) : list Z -> list T :=
  match op with
  | Register type o => add_observer type o obs
  | Unregister type o => remove_observer type o obs
  | Publish _ _ => obs
  end.

Fixpoint spec_run (ops : list call) (obs : list Z -> list T) : list Z -> list T :=
  match ops with
  | [] => obs
  | op :: ops => spec_run ops (spec_call op obs)
  end.

Lemma spec_call_ext op obs obs' :
  (forall t, obs t = obs' t) -> forall t, spec_call op obs t = spec_call op obs' t.
Proof.
  intros E t. destruct op as [type o|type o|]; simpl; unfold add_observer, remove_observer;
    by rewrite ?E.
Qed.

Lemma spec_run_ext ops obs obs' :
  (forall t, obs t = obs' t) -> forall t, spec_run ops obs t = spec_run ops obs' t.
Proof.
  revert obs obs'. induction ops as [|op ops IH]; intros obs obs' E t; simpl; [done|].
  apply IH. by apply spec_call_ext.
Qed.

Context {HS : SubSocket Sk}.

(** The socket is subscribed, once, to exactly the events that have observers. *)
Definition linked (c : client) : Prop :=
  forall t, subs (sub_socket c) t = if decide (observers c t = []) then 0%nat else 1%nat.

Lemma add_observer_ne type o obs t :
  add_observer type o obs t = [] <-> t <> type /\ obs t = [].
Proof.
  unfold add_observer. destruct (decide (t = type)) as [->|]; [|tauto].
  destruct (decide (o ∈ obs type)) as [Hin|].
  - split; [|tauto]. intros E. rewrite E in Hin. by apply not_elem_of_nil in Hin.
  - split; [|tauto]. intros E. by apply app_eq_nil in E as [_ ?].
Qed.

Lemma register_linked c c' type o :
  ok c -> linked c -> register_observer type o c = Done (c', true) -> linked c'.
Proof.
  intros Hc Hl E. destruct (register_spec c type o Hc) as (c1 & b & E1 & _ & Hobs & _ & Hs).
  rewrite E in E1. injection E1 as <- <-. intros t. specialize (Hl t).
  destruct (decide (observers c type = [])) as [E0|E0].
  - destruct Hs as [-> Hb]. destruct (sock_subscribe _ _) as [s rc] eqn:Es; simpl in *.
    assert (rc = 0) as -> by (symmetry in Hb; by apply Z.eqb_eq).
    rewrite (subscribe_ok _ _ _ _ Es), Hl, Hobs. repeat case_decide;
      try (subst; rewrite add_observer_ne in *; tauto); done.
  - destruct Hs as [-> _]. rewrite Hl, Hobs. repeat case_decide; rewrite ?add_observer_ne in *; try done;
      [|tauto]. exfalso. assert (t <> type) by (by intros ->). tauto.
Qed.

Lemma unregister_linked c c' type o :
  ok c -> linked c -> unregister_observer type o c = Done (c', true) -> linked c'.
Proof.
  intros Hc Hl E. destruct (unregister_spec c type o Hc) as (c1 & b & E1 & _ & Hobs & _ & _ & Hs).
  rewrite E in E1. injection E1 as <- <-. intros t. specialize (Hl t). rewrite Hobs.
  destruct (decide (observers c type = [o])) as [E0|E0].
  - destruct Hs as [-> Hb]. destruct (sock_unsubscribe _ _) as [s rc] eqn:Es; simpl in *.
    assert (rc = 0) as -> by (symmetry in Hb; by apply Z.eqb_eq).
    rewrite (unsubscribe_ok _ _ _ _ Es), Hl. unfold remove_observer.
    destruct (decide (t = type)) as [->|]; [|by rewrite Nat.sub_0_r].
    rewrite E0, filter_cons. rewrite (decide_False (P := o <> o)) by (intros Hn; by apply Hn).
    done.
  - destruct Hs as [-> _]. rewrite Hl. unfold remove_observer.
    destruct (decide (t = type)) as [->|]; [|done].
    destruct (decide (o ∈ observers c type)) as [Hin|Hno]; [|by rewrite filter_absent].
    repeat case_decide; try done.
    + rewrite H0 in Hin. by apply not_elem_of_nil in Hin.
    + destruct E0. apply filter_nil_singleton; [apply Hc|done|done].
Qed.

Lemma run_call_spec op c :
  ok c -> exists c' b, run_call op c = Done (c', b) /\ ok c'
    /\ (forall t, observers c' t = spec_call op (observers c) t)
    /\ (b = true -> linked c -> linked c').
Proof.
  intros Hc. destruct op as [type o|type o|type content]; simpl.
  - destruct (register_spec c type o Hc) as (c' & b & E & Hok & Hobs & _).
    exists c', b. split_and!; [done..|]. intros -> Hl. by apply (register_linked c c' type o).
  - destruct (unregister_spec c type o Hc) as (c' & b & E & Hok & Hobs & _).
    exists c', b. split_and!; [done..|]. intros -> Hl. by apply (unregister_linked c c' type o).
  - rewrite (sbind_done _ _ _ _ _ (publish_event_spec type content c)).
    eexists _, true. split; [reflexivity|]. split_and!; [split; apply Hc|done|done].
Qed.

Lemma client_run_spec ops c :
  ok c -> exists c' bs, run ops c = Done (c', bs) /\ ok c'
    /\ (forall t, observers c' t = spec_run ops (observers c) t)
    /\ (Forall (eq true) bs -> linked c -> linked c').
Proof.
  revert c. induction ops as [|op ops IH]; intros c Hc; simpl.
  - by exists c, [].
  - destruct (run_call_spec op c Hc) as (c1 & b & E1 & Hc1 & Ho1 & Hl1).
    destruct (IH c1 Hc1) as (c2 & bs & E2 & Hc2 & Ho2 & Hl2).
    exists c2, (b :: bs). split_and!; [|done| |].
    + unfold sbind in *. rewrite E1. simpl. by rewrite E2.
    + intros t. rewrite Ho2. by apply spec_run_ext.
    + intros [<- Hbs]%Forall_cons_1 Hl. auto.
Qed.

(** C1: after any sequence of registrations and unregistrations on a connected
    client, in any order and with duplicates, no operation crashes, the observers of
    each type are those of the abstract registry (a list of distinct observers in the
    order of registration), and if every call reported success the subscriber socket
    is subscribed once to exactly the types that have observers. *)
Theorem registrations_refine sub pub ops :
  (forall t, subs sub t = 0%nat) ->
  exists c bs, run ops (connected sub pub) = Done (c, bs)
    /\ (forall t, observers c t = spec_run ops (fun _ => []) t)
    /\ (Forall (eq true) bs -> linked c).
Proof.
  intros Hs. destruct (client_run_spec ops (connected sub pub) (ok_connected sub pub))
    as (c & bs & E & _ & Ho & Hl).
  exists c, bs. split_and!; [done|done|]. intros Hbs. apply Hl; [done|]. intros t.
  simpl. by rewrite Hs.
Qed.

(** When the socket refuses the subscription, [register_observer] reports
    failure but keeps the observer in the map; a second registration for the type then
    reports success although the socket is not subscribed. *)
Theorem refused_subscription_is_kept c type o o' :
  ok c -> linked c -> observers c type = [] -> (sock_subscribe (sub_socket c) type).2 <> 0 ->
  exists c1 c2, register_observer type o c = Done (c1, false)
    /\ observers c1 type = [o]
    /\ register_observer type o' c1 = Done (c2, true)
    /\ subs (sub_socket c2) type = 0%nat.
Proof.
  intros Hc Hl E0 Hrc. destruct (register_spec c type o Hc) as (c1 & b & E1 & Hc1 & Ho1 & _ & Hs).
  rewrite decide_True in Hs by done. destruct Hs as [Hs1 Hb].
  apply Z.eqb_neq in Hrc as Hrc'. rewrite Hrc' in Hb. subst b.
  assert (Eo : observers c1 type = [o]).
  { rewrite Ho1. unfold add_observer. rewrite decide_True, E0 by done.
    rewrite decide_False by apply not_elem_of_nil. done. }
  destruct (register_spec c1 type o' Hc1) as (c2 & b2 & E2 & _ & _ & _ & Hs2).
  rewrite decide_False in Hs2 by (by rewrite Eo). destruct Hs2 as [Hs2 ->].
  exists c1, c2. split_and!; try done. rewrite Hs2, Hs1.
  destruct (sock_subscribe (sub_socket c) type) as [s rc] eqn:Es. simpl.
  rewrite (subscribe_fail _ _ _ _ _ Es) by done. rewrite (Hl type). by rewrite decide_True.
Qed.
End Client.
Arguments client Sk T : clear implicits.

(** ** The loopback socket counts subscriptions *)

Definition topic_count (s : Mzmq.loopback) (t : list Z) : nat :=
  length (filter (fun t' => t' = t) (Mzmq.topics s)).

Lemma count_remove (t t' : list Z) l :
  length (filter (fun x => x = t') (Mzmq.list_difference_one t l))
  = (length (filter (fun x => x = t') l) - (if decide (t' = t) then 1 else 0))%nat.
Proof.
  induction l as [|x l IH]; simpl; [done|]. destruct (decide (x = t)) as [->|Hx].
  - rewrite filter_cons. destruct (decide (t = t')) as [->|].
    + rewrite decide_True by done. simpl. lia.
    + rewrite decide_False by congruence. lia.
  - rewrite !filter_cons. destruct (decide (x = t')) as [->|]; [|done]. simpl. rewrite IH.
    rewrite decide_False by done. lia.
Qed.

#[global] Instance loopback_subsocket : SubSocket Mzmq.loopback.
Proof.
  refine {| subs := topic_count |}; intros s t s1; simpl; unfold topic_count.
  - intros t' E; injection E as <-; simpl. rewrite filter_app, length_app, filter_cons, filter_nil.
    repeat case_decide; subst; simpl; (done || lia).
  - intros rc t' E; injection E as <- <-. done.
  - intros t' E; injection E as <-; simpl. apply count_remove.
  - intros rc t' E; injection E as <- <-. done.
Defined.

(** A socket that refuses every subscription (an invalid socket). *)
Record refusing : Type := Refusing { inner : Mzmq.loopback }.

#[global] Instance refusing_socket : Socket refusing := {
  sock_send s d more := (s, inl 88);
  sock_recv s _ := (s, inl 88);
  sock_rcvmore s := false;
  sock_subscribe s t := (s, -1);
  sock_unsubscribe s t := (s, -1);
  sock_pollin s := (s, None)
}.

#[global] Instance refusing_subsocket : SubSocket refusing.
Proof.
  refine {| subs := fun s t => 0%nat |}; simpl; by intros.
Defined.

(** ** Witnesses *)

Definition topic1 : list Z := [116; 49].
Definition topic2 : list Z := [116; 50].

Abbreviation lclient := (client Mzmq.loopback nat).

(** A handler that answers an event by publishing on its own topic. *)
Definition reply (o : nat) (type content : list Z) : stm lclient unit :=
  publish_event [Z.of_nat o] content.

Lemma reply_keeps_map : keeps_map reply.
Proof.
  intros o t d c c' u. unfold reply. rewrite publish_event_spec. intros E. by injection E as <- _.
Qed.

Definition sample_calls : list (@call nat) :=
  [Register topic1 1%nat; Register topic2 2%nat; Register topic1 3%nat;
   Register topic1 1%nat; Publish topic2 [5]; Unregister topic2 2%nat;
   Register topic2 4%nat].

(** The state after [sample_calls], by evaluation. *)
Definition sample_client : lclient :=
  match run sample_calls (connected Mzmq.loopback0 Mzmq.loopback0) with
  | Done (c, _) => c
  | Crash => connected Mzmq.loopback0 Mzmq.loopback0
  end.

Lemma sample_client_ok : ok sample_client.
Proof.
  destruct (client_run_spec sample_calls _ (ok_connected Mzmq.loopback0 Mzmq.loopback0))
    as (c & bs & E & Hc & _).
  unfold sample_client. by rewrite E.
Qed.

(** [sample_client] with two events waiting on its socket. *)
Definition waiting (fs : list (list Z * bool)) : lclient :=
  set_sub sample_client (Mzmq.Loopback fs false (Mzmq.topics (sub_socket sample_client))).

Lemma waiting_ok fs : ok (waiting fs).
Proof. destruct sample_client_ok as [Hw Hn]. split; [exact Hw|exact Hn]. Qed.

Lemma registrations_refine_witness :
  exists c bs, run sample_calls (connected Mzmq.loopback0 Mzmq.loopback0) = Done (c, bs)
    /\ (forall t, observers c t = spec_run sample_calls (fun _ => []) t)
    /\ (Forall (eq true) bs -> linked c).
Proof. apply registrations_refine. reflexivity. Defined.

Lemma handle_event_exact_witness :
  exists s, Mzmq.inbound s = [(topic2, true); ([], false)] /\
    handle_event reply 2 (waiting [(topic1, true); ([7], false); (topic2, true); ([], false)])
    = (call_all reply [1; 3]%nat topic1 [7] ;;; sret true)
        (set_sub (set_revents
          (waiting [(topic1, true); ([7], false); (topic2, true); ([], false)]) true) s).
Proof.
  apply (handle_event_exact reply
           (waiting [(topic1, true); ([7], false); (topic2, true); ([], false)])
           topic1 [7] [(topic2, true); ([], false)] 2 reply_keeps_map (waiting_ok _)).
  - repeat split. repeat constructor; vm_compute; discriminate.
  - vm_compute. repeat constructor.
Defined.

Lemma handle_event_partial_witness :
  (exists s, Mzmq.RecvEventEntity (Mzmq.enter (sub_socket (waiting [(topic1, false)])))
             = Done (s, (-1, topic1, []))) /\
  exists s, Mzmq.inbound s = [] /\
    handle_event reply 2 (waiting [(topic1, false)])
    = (call_all reply [1; 3]%nat topic1 [] ;;; sret true)
        (set_sub (set_revents (waiting [(topic1, false)]) true) s).
Proof.
  apply (handle_event_partial reply (waiting [(topic1, false)])
           topic1 [] 2 reply_keeps_map (waiting_ok _)).
  - repeat split. repeat constructor; vm_compute; discriminate.
  - vm_compute. repeat constructor.
Defined.

Lemma publish_loc_event_calls_witness :
  publish_loc_event reply 3 topic1 [9] sample_client
  = (call_all reply [1; 3; 4]%nat topic1 [9] ;;; sret true) sample_client.
Proof.
  apply (publish_loc_event_calls reply sample_client topic1 [9] 3 reply_keeps_map sample_client_ok).
  vm_compute. repeat constructor.
Defined.

(** A handler that withdraws its own registration. *)
Definition once (o : nat) (type content : list Z) : stm lclient unit :=
  unregister_observer type o ;;; sret tt.

Lemma self_unregister_crashes_witness :
  handle_event once 2 (waiting [(topic1, true); ([7], false)]) = Crash.
Proof.
  apply (self_unregister_crashes once (waiting [(topic1, true); ([7], false)])
           topic1 [7] [] 1 1%nat [3%nat]); [reflexivity|apply waiting_ok| |reflexivity].
  repeat split. repeat constructor; vm_compute; discriminate.
Defined.

Lemma refused_subscription_is_kept_witness :
  exists c1 c2 : client refusing nat,
    register_observer topic1 1%nat
      (connected (Refusing Mzmq.loopback0) (Refusing Mzmq.loopback0)) = Done (c1, false)
    /\ observers c1 topic1 = [1%nat]
    /\ register_observer topic1 2%nat c1 = Done (c2, true)
    /\ subs (sub_socket c2) topic1 = 0%nat.
Proof.
  apply refused_subscription_is_kept; [apply ok_connected| |reflexivity|vm_compute; discriminate].
  intros t. reflexivity.
Defined.

End EventClient.
