(* ===== verification/Timers.v ===== *)
(** * Timers: timers_t (libzmq/src/timers.cpp) and the timers of an I/O thread (poller_base.cpp)

    A set of timers is a multimap from the time a timer is due to the timer, and
    the identifiers of the timers cancelled but not removed yet.  [execute] calls the
    handlers, which may call the set again; the handlers are code of the user. *)

From S2P Require Import Prelude Multimap.

Module Timers.

(** [errno] of a call that returns -1. *)
Inductive errno : Type := EFAULT | EINVAL.

(** [(long)] of a [uint64_t] *)
Definition i64 (z : Z) : Z := (z + 2 ^ 63) mod 2 ^ 64 - 2 ^ 63.

Section Timers.

(** Pointers to handlers, the arguments stored with them. *)
Context {H A : Type}.

Record timer_t : Type := Timer { timer_id : Z; interval : Z; handler : H; arg : A }.

Record timers_t : Type := TimersT {
  next_timer_id : Z;
  timers : Mm.mmap Z timer_t;
  cancelled_timers : gset Z
}.

Definition timers_new : timers_t := TimersT 0 Mm.empty ∅.

Definition set_map (m : Mm.mmap Z timer_t) (s : timers_t) : timers_t :=
  TimersT (next_timer_id s) m (cancelled_timers s).
Definition set_cancelled (c : gset Z) (s : timers_t) : timers_t :=
  TimersT (next_timer_id s) (timers s) c.

(** Every call takes what [clock.now_ms ()] returns. *)
Definition add (now interval_ : Z) (handler_ : option H) (arg_ : A) : stm timers_t (errno + Z) := fun s =>
  match handler_ with
  | None => Done (s, inl EFAULT)
  | Some h =>
      let when := u64 (now + interval_) in
      zmq_assert (next_timer_id s <? 2 ^ 31 - 1) (
      let timer := Timer (next_timer_id s + 1) interval_ h arg_ in
      Done (TimersT (timer_id timer) (Mm.insert (timers s) when timer) (cancelled_timers s),
            inr (timer_id timer)))
  end.

Definition match_by_id (timer_id_ : Z) (entry : Mm.node Z timer_t) : bool :=
  timer_id (Mm.val entry) =? timer_id_.

Definition find_by_id (s : timers_t) (timer_id_ : Z) : Mm.iterator :=
  Mm.find_if (match_by_id timer_id_) (timers s).

Definition cancel (timer_id_ : Z) : stm timers_t (errno + Z) := fun s =>
  if bool_decide (find_by_id s timer_id_ = None) then Done (s, inl EINVAL)
  else if bool_decide (timer_id_ ∈ cancelled_timers s) then Done (s, inl EINVAL)
  else Done (set_cancelled ({[ timer_id_ ]} ∪ cancelled_timers s) s, inr 0).

(** [timers.erase (it); timers.insert (value_type (when, timer))] *)
Definition reinsert (it : Mm.iterator) (when : Z) (timer : timer_t) : stm timers_t unit := fun s =>
  let* (m, _) := Mm.erase (timers s) it in
  Done (set_map (Mm.insert m when timer) s, tt).

Definition set_interval (now timer_id_ interval_ : Z) : stm timers_t (errno + Z) := fun s =>
  let it := find_by_id s timer_id_ in
  if bool_decide (it <> None) then
    let* n := Mm.get (timers s) it in
    let timer := Timer (timer_id (Mm.val n)) interval_ (handler (Mm.val n)) (arg (Mm.val n)) in
    let when := u64 (now + interval_) in
    let* (s, _) := reinsert it when timer s in
    Done (s, inr 0)
  else Done (s, inl EINVAL).

Definition reset (now timer_id_ : Z) : stm timers_t (errno + Z) := fun s =>
  let it := find_by_id s timer_id_ in
  if bool_decide (it <> None) then
    let* n := Mm.get (timers s) it in
    let timer := Mm.val n in
    let when := u64 (now + interval timer) in
    let* (s, _) := reinsert it when timer s in
    Done (s, inr 0)
  else Done (s, inl EINVAL).

(** Removing a cancelled timer: the iterator moves on. *)
Definition remove_cancelled (it : Mm.iterator) (id : Z) : stm timers_t Mm.iterator := fun s =>
  let* it' := Mm.next (timers s) it in
  let* (m, _) := Mm.erase (timers s) it in
  Done (TimersT (next_timer_id s) m (cancelled_timers s ∖ {[ id ]}), it').

Fixpoint timeout_from (fuel : nat) (now : Z) (it : Mm.iterator) : stm timers_t Z :=
  match fuel, it with
  | _, None => sret (-1)
  | O, _ => scrash
  | S fuel, _ =>
      let! s := sget in
      let! n := slift (Mm.get (timers s) it) in
      let id := timer_id (Mm.val n) in
      if bool_decide (id ∈ cancelled_timers s) then
        let! it := remove_cancelled it id in
        timeout_from fuel now it
      else sret (if now <? Mm.key n then i64 (u64 (Mm.key n - now)) else 0)
  end.

Definition timeout (now : Z) : stm timers_t Z := fun s =>
  timeout_from (length (Mm.items (timers s))) now (Mm.begin (timers s)) s.

(** *** execute *)

(** The timers and the rest of the program's state. *)
Context {W : Type}.

Record sys : Type := Sys { set : timers_t; world : W }.

Definition on_set {R} (m : stm timers_t R) : stm sys R := fun v =>
  let* (s, r) := m (set v) in Done (Sys s (world v), r).

Section Execute.
(** A call of a handler with its timer's identifier and argument. *)
Context (run : H -> Z -> A -> stm sys unit).

(** The loop from an iterator on; [None] when it still runs after [fuel] turns. *)
Fixpoint execute_from (fuel : nat) (now : Z) (it : Mm.iterator) : stm sys (option Z) :=
  match it, fuel with
  | None, _ => sret (Some 0)
  | Some _, O => sret None
  | Some _, S fuel =>
      let! v := sget in
      let! n := slift (Mm.get (timers (set v)) it) in
      let timer := Mm.val n in
      if bool_decide (timer_id timer ∈ cancelled_timers (set v)) then
        let! it := on_set (remove_cancelled it (timer_id timer)) in
        execute_from fuel now it
      else if now <? Mm.key n then sret (Some 0)
      else
        run (handler timer) (timer_id timer) (arg timer) ;;;
        let! v := sget in
        let! it' := slift (Mm.next (timers (set v)) it) in
        on_set (reinsert it (u64 (now + interval timer)) timer) ;;;
        execute_from fuel now it'
  end.

Definition execute (fuel : nat) (now : Z) : stm sys (option Z) := fun v =>
  execute_from fuel now (Mm.begin (timers (set v))) v.
End Execute.

(** ** The timers that are alive *)

Abbreviation node := (Mm.node Z timer_t).

Definition id_of (n : node) : Z := timer_id (Mm.val n).
Definition ids (l : list node) : list Z := map id_of l.

(** The schedule of the nodes that are not cancelled: when each is due next. *)
Definition entries (c : gset Z) (l : list node) : list (Z * (Z * timer_t)) :=
  map (fun n => (id_of n, (Mm.key n, Mm.val n))) (filter (fun n => id_of n ∉ c) l).
Definition schedule_of (c : gset Z) (l : list node) : gmap Z (Z * timer_t) := list_to_map (entries c l).
Definition schedule (s : timers_t) : gmap Z (Z * timer_t) :=
  schedule_of (cancelled_timers s) (Mm.items (timers s)).

Record ok (s : timers_t) : Prop := {
  ok_wf : Mm.wf (timers s);
  ok_ids : NoDup (ids (Mm.items (timers s)));
  ok_range : Forall (fun n => 1 <= id_of n <= next_timer_id s) (Mm.items (timers s));
  ok_next : 0 <= next_timer_id s < 2 ^ 31;
  ok_cancelled : forall id, id ∈ cancelled_timers s -> id ∈ ids (Mm.items (timers s))
}.

Lemma timers_ok_new : ok timers_new.
Proof.
  split; simpl; [apply Mm.wf_empty|constructor|constructor|lia|]. intros id. set_solver.
Qed.

Lemma entries_keys c l : (entries c l).*1 = ids (filter (fun n => id_of n ∉ c) l).
Proof. unfold entries, ids. rewrite map_map. by apply map_ext. Qed.

Lemma entries_nodup c l : NoDup (ids l) -> NoDup ((entries c l).*1).
Proof.
  rewrite entries_keys. induction l as [|n l IH]; intros Hl; [constructor|].
  unfold ids in *; simpl in Hl. apply NoDup_cons in Hl as [Hn Hl]. rewrite filter_cons.
  destruct (decide _); [|by apply IH]. simpl. apply NoDup_cons. split; [|by apply IH].
  rewrite list_elem_of_fmap. intros (m & E & [_ Hm]%list_elem_of_filter). apply Hn. rewrite E.
  by apply list_elem_of_fmap_2.
Qed.

Lemma schedule_of_cons c n l :
  schedule_of c (n :: l)
  = if decide (id_of n ∈ c) then schedule_of c l
    else <[id_of n := (Mm.key n, Mm.val n)]> (schedule_of c l).
Proof.
  unfold schedule_of, entries. rewrite filter_cons.
  destruct (decide (id_of n ∈ c)); [by rewrite decide_False by tauto|by rewrite decide_True by done].
Qed.

Lemma schedule_of_perm c l l' : NoDup (ids l) -> l ≡ₚ l' -> schedule_of c l = schedule_of c l'.
Proof.
  intros Hl Hp. apply list_to_map_proper; [by apply entries_nodup|].
  unfold entries. by rewrite Hp.
Qed.

Lemma schedule_of_some c l id e :
  NoDup (ids l) ->
  schedule_of c l !! id = Some e
  <-> exists n, n ∈ l /\ id_of n = id /\ (id ∉ c) /\ e = (Mm.key n, Mm.val n).
Proof.
  intros Hl. unfold schedule_of. rewrite <- elem_of_list_to_map; [|by apply entries_nodup].
  unfold entries. rewrite list_elem_of_fmap. split.
  - intros (n & [= -> ->] & [? ?]%list_elem_of_filter). by exists n.
  - intros (n & Hn & <- & Hc & ->). exists n. split; [done|]. by apply list_elem_of_filter.
Qed.

Lemma schedule_of_none c l id : schedule_of c l !! id = None <-> id ∈ c \/ id ∉ ids l.
Proof.
  unfold schedule_of. rewrite <- not_elem_of_list_to_map, entries_keys. unfold ids.
  rewrite !list_elem_of_fmap. setoid_rewrite list_elem_of_filter.
  destruct (decide (id ∈ c)); [naive_solver|]. naive_solver.
Qed.

(** [find_by_id] finds the timer of the identifier. *)
Lemma find_by_id_some s id :
  id ∈ ids (Mm.items (timers s)) ->
  exists l1 n l2, Mm.items (timers s) = l1 ++ n :: l2 /\ id_of n = id
    /\ find_by_id s id = Mm.first_of (n :: l2).
Proof.
  intros Hid. destruct (find_by_id s id) as [it|] eqn:E.
  - destruct (Mm.find_if_some _ _ _ E) as (l1 & n & l2 & Hi & Hn & Hit).
    exists l1, n, l2. split_and!; [done|by apply Z.eqb_eq in Hn|done].
  - apply Mm.find_if_none in E. apply list_elem_of_fmap in Hid as (n & -> & Hn).
    rewrite Forall_forall in E. specialize (E n Hn). unfold match_by_id, id_of in E.
    by rewrite Z.eqb_refl in E.
Qed.

Lemma find_by_id_none s id : id ∉ ids (Mm.items (timers s)) -> find_by_id s id = None.
Proof.
  intros Hid. apply Mm.find_if_none, Forall_forall. intros n Hn. apply Z.eqb_neq.
  intros <-. apply Hid. unfold ids. apply list_elem_of_fmap. by exists n.
Qed.

Lemma find_by_id_spec s id : find_by_id s id = None <-> id ∉ ids (Mm.items (timers s)).
Proof.
  split; [|apply find_by_id_none]. intros E Hid.
  destruct (find_by_id_some s id Hid) as (l1 & n & l2 & _ & _ & E'). by rewrite E in E'.
Qed.

(** ** What the operations do to the nodes and to the schedule *)
Lemma ids_mid l1 n l2 : ids (l1 ++ n :: l2) ≡ₚ id_of n :: ids (l1 ++ l2).
Proof. unfold ids. rewrite <- Permutation_middle. done. Qed.

Lemma ok_mid s l1 n l2 :
  ok s -> Mm.items (timers s) = l1 ++ n :: l2 -> NoDup (ids (l1 ++ l2)) /\ id_of n ∉ ids (l1 ++ l2).
Proof.
  intros Hs Hi. pose proof (ok_ids s Hs) as Hd. rewrite Hi, ids_mid in Hd.
  by apply NoDup_cons in Hd as [? ?].
Qed.

(** Erasing a node and inserting its timer at another time. *)
Lemma reinsert_spec s l1 n l2 when t :
  ok s -> Mm.items (timers s) = l1 ++ n :: l2 -> timer_id t = id_of n ->
  let x := Mm.Node (Mm.fresh_id (timers s)) when t in
  let s' := TimersT (next_timer_id s)
              (Mm.Mmap (Mm.insert_node (l1 ++ l2) x) (S (Mm.fresh_id (timers s)))) (cancelled_timers s) in
  reinsert (Mm.first_of (n :: l2)) when t s = Done (s', tt)
  /\ ok s'
  /\ schedule s' = if decide (id_of n ∈ cancelled_timers s) then schedule s
                   else <[id_of n := (when, t)]> (schedule s).
Proof.
  intros Hs Hi Ht x s'. destruct (ok_mid s l1 n l2 Hs Hi) as [Hd Hn].
  destruct Hs as [Hw Hids Hr Hnext Hc]. split_and!.
  - unfold reinsert. rewrite (Mm.erase_at _ l1 n l2) by done. done.
  - assert (Hp : Mm.insert_node (l1 ++ l2) x ≡ₚ x :: (l1 ++ l2)) by apply Mm.insert_node_perm.
    assert (Hx : ids (Mm.insert_node (l1 ++ l2) x) ≡ₚ ids (l1 ++ n :: l2)).
    { rewrite ids_mid. unfold ids at 1. rewrite Hp. simpl. unfold id_of at 1. simpl. by rewrite Ht. }
    split; simpl; [|by rewrite Hx, <- Hi| |done|].
    + apply (Mm.wf_insert (Mm.Mmap (l1 ++ l2) (Mm.fresh_id (timers s))) when t).
      by apply (Mm.wf_erase (timers s) l1 n l2).
    + rewrite Hp. rewrite Hi, <- Permutation_middle in Hr. apply Forall_cons in Hr as [Hn1 Hr].
      constructor; [|done]. unfold id_of at 1 2. simpl. by rewrite Ht.
    + intros id Hid. rewrite Hx, <- Hi. by apply Hc.
  - unfold schedule, s'; simpl. rewrite Hi.
    rewrite (schedule_of_perm _ (Mm.insert_node (l1 ++ l2) x) (x :: l1 ++ l2)).
    2:{ unfold ids. rewrite Mm.insert_node_perm. simpl. apply NoDup_cons. unfold id_of at 1; simpl. by rewrite Ht. }
    2:{ apply Mm.insert_node_perm. }
    rewrite (schedule_of_perm _ (l1 ++ n :: l2) (n :: l1 ++ l2)).
    2:{ by rewrite <- Hi. }
    2:{ by rewrite Permutation_middle. }
    rewrite !schedule_of_cons. assert (id_of x = id_of n) as -> by done.
    destruct (decide _); [done|]. by rewrite insert_insert_eq.
Qed.

(** Removing a cancelled timer. *)
Lemma remove_cancelled_spec s l1 n l2 :
  ok s -> Mm.items (timers s) = l1 ++ n :: l2 -> id_of n ∈ cancelled_timers s ->
  let s' := TimersT (next_timer_id s) (Mm.Mmap (l1 ++ l2) (Mm.fresh_id (timers s)))
              (cancelled_timers s ∖ {[ id_of n ]}) in
  remove_cancelled (Mm.first_of (n :: l2)) (id_of n) s = Done (s', Mm.first_of l2)
  /\ ok s' /\ schedule s' = schedule s.
Proof.
  intros Hs Hi Hn s'. destruct (ok_mid s l1 n l2 Hs Hi) as [Hd Hnd].
  pose proof (ok_wf s Hs) as Hw. split_and!.
  - unfold remove_cancelled. rewrite (Mm.next_at _ l1 n l2), obind_done by done.
    rewrite (Mm.erase_at _ l1 n l2) by done. done.
  - destruct Hs as [_ Hids Hr Hnext Hc]. rewrite Hi in *. split; simpl; [|done| |done|].
    + by apply (Mm.wf_erase (timers s) l1 n l2).
    + rewrite <- Permutation_middle in Hr. by apply Forall_cons in Hr as [_ Hr].
    + intros id [Hid Hne]%elem_of_difference. apply Hc in Hid. rewrite ids_mid in Hid.
      apply elem_of_cons in Hid as [->|]; [|done]. set_solver.
  - apply map_eq. intros id. apply option_eq. intros e. unfold schedule, s'; simpl.
    rewrite !schedule_of_some by (done || apply Hs). rewrite Hi. setoid_rewrite <- Permutation_middle.
    setoid_rewrite elem_of_cons. split.
    + intros (m & Hm & <- & Hc & ->). exists m. split_and!; [by right|done| |done].
      intros Hm'. apply Hc. apply elem_of_difference. split; [done|]. intros E%elem_of_singleton.
      apply Hnd. rewrite <- E. unfold ids. by apply list_elem_of_fmap_2.
    + intros (m & [->|Hm] & <- & Hc & ->); [done|]. exists m. split_and!; [done|done| |done]. set_solver.
Qed.

(** ** The contract of the calls *)

Inductive call : Type :=
| Add (now interval_ : Z) (handler_ : option H) (arg_ : A)
| Cancel (timer_id_ : Z)
| SetInterval (now timer_id_ interval_ : Z)
| Reset (now timer_id_ : Z)
| Timeout (now : Z).

Definition do_call (c : call) : stm timers_t (errno + Z) :=
  match c with
  | Add now interval_ handler_ arg_ => add now interval_ handler_ arg_
  | Cancel id => cancel id
  | SetInterval now id interval_ => set_interval now id interval_
  | Reset now id => reset now id
  | Timeout now => let! r := timeout now in sret (inr r)
  end.

(** What a set of timers promises, in terms of what is scheduled and of the last identifier given. *)
Abbreviation sched := (gmap Z (Z * timer_t)).

Definition restart (now : Z) (interval_ : Z -> Z) (e : Z * timer_t) : Z * timer_t :=
  let t := e.2 in
  let t := Timer (timer_id t) (interval_ (interval t)) (handler t) (arg t) in
  (u64 (now + interval t), t).

Definition spec_after (c : call) (m : sched) (next : Z) : sched * Z :=
  match c with
  | Add now interval_ (Some h) arg_ =>
      (<[next + 1 := (u64 (now + interval_), Timer (next + 1) interval_ h arg_)]> m, next + 1)
  | Add _ _ None _ => (m, next)
  | Cancel id => (delete id m, next)
  | SetInterval now id interval_ => (alter (restart now (fun _ => interval_)) id m, next)
  | Reset now id => (alter (restart now (fun i => i)) id m, next)
  | Timeout _ => (m, next)
  end.

(** The first of the times at which a timer is due. *)
Definition first_due (m : sched) (d : Z) : Prop :=
  (exists id t, m !! id = Some (d, t)) /\ forall id e, m !! id = Some e -> d <= e.1.

(** All the timers of the set, the cancelled ones that were not removed yet among them. *)
Definition whole (s : timers_t) : sched := schedule_of ∅ (Mm.items (timers s)).

(** A timer that was cancelled is found as long as it was not removed. *)
Definition found (w : sched) (id : Z) : errno + Z := if decide (id ∈ dom w) then inr 0 else inl EINVAL.

(** [w] is the whole set, [m] what is scheduled. *)
Definition spec_answer (c : call) (w m : sched) (next : Z) (r : errno + Z) : Prop :=
  match c with
  | Add _ _ None _ => r = inl EFAULT
  | Add _ _ (Some _) _ => r = inr (next + 1)
  | Cancel id => r = if decide (id ∈ dom m) then inr 0 else inl EINVAL
  | SetInterval _ id _ | Reset _ id => r = found w id
  | Timeout now =>
      (m = ∅ /\ r = inr (-1))
      \/ exists d, first_due m d /\ r = inr (if now <? d then i64 (u64 (d - now)) else 0)
  end.

(** There is an identifier left for [Add]. *)
Definition callable (c : call) (s : timers_t) : Prop :=
  match c with Add _ _ (Some _) _ => next_timer_id s < 2 ^ 31 - 1 | _ => True end.

Definition meets (c : call) (s : timers_t) : Prop :=
  exists s' r, do_call c s = Done (s', r) /\ ok s'
    /\ (schedule s', next_timer_id s') = spec_after c (schedule s) (next_timer_id s)
    /\ spec_answer c (whole s) (schedule s) (next_timer_id s) r.

Lemma in_schedule s id : ok s -> id ∈ dom (schedule s) <-> id ∈ ids (Mm.items (timers s)) /\ id ∉ cancelled_timers s.
Proof.
  intros Hs. rewrite elem_of_dom, <- not_eq_None_Some. unfold schedule. rewrite schedule_of_none.
  destruct (decide (id ∈ ids (Mm.items (timers s)))), (decide (id ∈ cancelled_timers s)); tauto.
Qed.

Lemma in_whole s id : id ∈ dom (whole s) <-> id ∈ ids (Mm.items (timers s)).
Proof.
  rewrite elem_of_dom, <- not_eq_None_Some. unfold whole. rewrite schedule_of_none.
  destruct (decide (id ∈ ids (Mm.items (timers s)))); set_solver.
Qed.

Lemma ids_range s id : ok s -> id ∈ ids (Mm.items (timers s)) -> 1 <= id <= next_timer_id s.
Proof.
  intros Hs. unfold ids. rewrite list_elem_of_fmap. intros (n & -> & Hn).
  pose proof (ok_range s Hs) as Hr. rewrite Forall_forall in Hr. by apply Hr.
Qed.

Lemma meets_add now i h a s : ok s -> callable (Add now i h a) s -> meets (Add now i h a) s.
Proof.
  intros Hs Hc. unfold meets; simpl. destruct h as [h|]; simpl in *; [|by exists s, (inl EFAULT)].
  unfold zmq_assert. rewrite (proj2 (Z.ltb_lt _ _) Hc). eexists _, _. split; [done|].
  set (x := Mm.Node (Mm.fresh_id (timers s)) (u64 (now + i)) (Timer (next_timer_id s + 1) i h a)).
  assert (Hp := Mm.insert_perm (timers s) (u64 (now + i)) (Timer (next_timer_id s + 1) i h a)).
  fold x in Hp.
  assert (Hx : id_of x ∉ ids (Mm.items (timers s))).
  { intros Hin%ids_range; [|done]. simpl in Hin. unfold id_of, x in Hin; simpl in Hin. lia. }
  assert (Hd : NoDup (ids (x :: Mm.items (timers s)))).
  { apply NoDup_cons. split; [done|]. apply Hs. }
  split; [|split; [|done]].
  - destruct Hs as [Hw Hids Hr Hnext Hcan].
    assert (Hpi : ids (Mm.items (Mm.insert (timers s) (u64 (now + i)) (Timer (next_timer_id s + 1) i h a)))
              ≡ₚ ids (x :: Mm.items (timers s))).
    { unfold ids at 1. by rewrite Hp. }
    split; cbn [next_timer_id timers cancelled_timers timer_id]; [by apply Mm.wf_insert| | |lia|].
    + by rewrite Hpi.
    + rewrite Hp. constructor; [unfold id_of, x; simpl; lia|]. eapply Forall_impl; [exact Hr|]. simpl. lia.
    + intros id Hid. rewrite Hpi. apply elem_of_cons. right. by apply Hcan.
  - cbn [next_timer_id timer_id]. f_equal. unfold schedule. cbn [timers cancelled_timers].
    rewrite (schedule_of_perm _ _ (x :: Mm.items (timers s))); [|unfold ids; by rewrite Hp|done].
    rewrite schedule_of_cons, decide_False; [done|]. intros Hin%(ok_cancelled s Hs). by apply Hx.
Qed.

Lemma schedule_cancel c l id : NoDup (ids l) -> schedule_of ({[ id ]} ∪ c) l = delete id (schedule_of c l).
Proof.
  intros Hl. apply map_eq. intros i. apply option_eq. intros e.
  rewrite lookup_delete_Some, !schedule_of_some by done. set_solver.
Qed.

Lemma meets_cancel id s : ok s -> meets (Cancel id) s.
Proof.
  intros Hs. unfold meets; simpl. unfold cancel. pose proof (in_schedule s id Hs) as Hin.
  assert (Hdel : id ∉ dom (schedule s) -> delete id (schedule s) = schedule s).
  { intros Hd. by apply delete_id, not_elem_of_dom. }
  case_bool_decide as Hf.
  { apply find_by_id_spec in Hf. exists s, (inl EINVAL). rewrite decide_False, Hdel by tauto. done. }
  case_bool_decide as Hc.
  { exists s, (inl EINVAL). rewrite decide_False, Hdel by tauto. done. }
  rewrite find_by_id_spec in Hf. assert (Hf' : id ∈ ids (Mm.items (timers s))) by (by apply dec_stable).
  eexists _, _. split; [done|]. split; [|split; [|rewrite decide_True by tauto; done]].
  - destruct Hs as [Hw Hids Hr Hnext Hcan]. split; simpl; try done.
    intros i [->%elem_of_singleton|Hi]%elem_of_union; [done|by apply Hcan].
  - f_equal. unfold schedule; simpl. apply schedule_cancel, Hs.
Qed.

(** Setting an interval and resetting are the same but for the interval. *)
Lemma restarted s id now f :
  ok s ->
  match find_by_id s id with
  | None => alter (restart now f) id (schedule s) = schedule s
      /\ inl EINVAL = found (whole s) id
  | it => exists n s', Mm.get (timers s) it = Done n /\ id_of n = id
      /\ (let t := Timer (timer_id (Mm.val n)) (f (interval (Mm.val n))) (handler (Mm.val n)) (arg (Mm.val n)) in
          reinsert it (u64 (now + interval t)) t s = Done (s', tt))
      /\ ok s' /\ schedule s' = alter (restart now f) id (schedule s)
      /\ next_timer_id s' = next_timer_id s
      /\ inr 0 = found (whole s) id
  end.
Proof.
  intros Hs. pose proof (in_schedule s id Hs) as Hin. destruct (find_by_id s id) as [it|] eqn:E.
  - assert (Hid : id ∈ ids (Mm.items (timers s))).
    { apply dec_stable. rewrite <- find_by_id_spec. by rewrite E. }
    destruct (find_by_id_some s id Hid) as (l1 & n & l2 & Hi & Hn & E'). rewrite E in E'. rewrite E'.
    set (t := Timer (timer_id (Mm.val n)) (f (interval (Mm.val n))) (handler (Mm.val n)) (arg (Mm.val n))).
    destruct (reinsert_spec s l1 n l2 (u64 (now + interval t)) t Hs Hi) as (Hr & Hok & Hsch); [done|].
    exists n. eexists. split; [by apply (Mm.get_at _ l1), Hi; apply Hs|]. split; [done|].
    split; [exact Hr|]. split; [exact Hok|]. split.
    + rewrite Hsch, Hn. destruct (decide (id ∈ cancelled_timers s)) as [Hc|Hc].
      { symmetry. apply map_eq. intros i. destruct (decide (i = id)) as [->|]; [|by rewrite lookup_alter_ne by congruence].
        rewrite lookup_alter_eq. assert (schedule s !! id = None) as -> by (apply not_elem_of_dom; tauto). done. }
      apply map_eq. intros i. destruct (decide (i = id)) as [->|].
      2:{ by rewrite lookup_insert_ne, lookup_alter_ne by congruence. }
      rewrite lookup_insert_eq, lookup_alter_eq.
      assert (schedule s !! id = Some (Mm.key n, Mm.val n)) as ->; [|done].
      apply schedule_of_some; [apply Hs|]. exists n. rewrite Hi. split_and!; [|done..].
      apply elem_of_app; right; constructor.
    + split; [done|]. unfold found. by rewrite decide_True by (by apply in_whole).
  - apply find_by_id_spec in E. split.
    + apply map_eq. intros i. destruct (decide (i = id)) as [->|]; [|by rewrite lookup_alter_ne by congruence].
      rewrite lookup_alter_eq. assert (schedule s !! id = None) as -> by (apply not_elem_of_dom; tauto). done.
    + unfold found. by rewrite decide_False by (by rewrite in_whole).
Qed.

Lemma meets_set_interval now id i s : ok s -> meets (SetInterval now id i) s.
Proof.
  intros Hs. unfold meets; simpl. unfold set_interval. pose proof (restarted s id now (fun _ => i) Hs) as Hr.
  destruct (find_by_id s id) as [it|]; simpl.
  - destruct Hr as (n & s' & -> & _ & Hre & Hok & Hsch & Hnext & Ha). simpl in *. rewrite Hre; simpl.
    exists s', (inr 0). by rewrite Hsch, Hnext.
  - destruct Hr as [-> Ha]. by exists s, (inl EINVAL).
Qed.

Lemma meets_reset now id s : ok s -> meets (Reset now id) s.
Proof.
  intros Hs. unfold meets; simpl. unfold reset. pose proof (restarted s id now (fun i => i) Hs) as Hr.
  destruct (find_by_id s id) as [it|]; simpl.
  - destruct Hr as (n & s' & -> & _ & Hre & Hok & Hsch & Hnext & Ha). simpl in *.
    assert (Ht : Timer (timer_id (Mm.val n)) (interval (Mm.val n)) (handler (Mm.val n)) (arg (Mm.val n)) = Mm.val n)
      by (by destruct (Mm.val n)).
    rewrite Ht in Hre. rewrite Hre; simpl. exists s', (inr 0). by rewrite Hsch, Hnext.
  - destruct Hr as [-> Ha]. by exists s, (inl EINVAL).
Qed.

(** The first node that is not cancelled is the first due. *)
Lemma first_due_head s n l :
  ok s -> Mm.items (timers s) = n :: l -> id_of n ∉ cancelled_timers s -> first_due (schedule s) (Mm.key n).
Proof.
  intros Hs Hi Hn. unfold schedule. rewrite Hi. assert (Hd := ok_ids s Hs). rewrite Hi in Hd. split.
  - exists (id_of n), (Mm.val n). apply schedule_of_some; [done|]. exists n. split_and!; [constructor|done..].
  - intros id e (m & Hm & _ & _ & ->)%schedule_of_some; [|done]. simpl.
    apply elem_of_cons in Hm as [->|Hm]; [lia|].
    pose proof (Mm.wf_sorted _ (ok_wf s Hs)) as Hsort. rewrite Hi in Hsort. simpl in Hsort.
    inversion Hsort as [|? ? _ Hf]; subst. rewrite Forall_map, Forall_forall in Hf. specialize (Hf m Hm).
    apply kle_cases in Hf. simpl in Hf. lia.
Qed.

Lemma timeout_loop now fuel s :
  ok s -> (length (Mm.items (timers s)) <= fuel)%nat ->
  exists s' r, timeout_from fuel now (Mm.first_of (Mm.items (timers s))) s = Done (s', r) /\ ok s'
    /\ schedule s' = schedule s /\ next_timer_id s' = next_timer_id s
    /\ spec_answer (Timeout now) (whole s) (schedule s) (next_timer_id s) (inr r).
Proof.
  revert s. induction fuel as [|fuel IH]; intros s Hs Hf;
    destruct (Mm.items (timers s)) as [|n l] eqn:Hi; simpl in Hf; try lia.
  1,2: exists s, (-1); do 4 (split; [done|]); left; split; [unfold schedule; by rewrite Hi|done].
  pose proof (ok_wf s Hs) as Hw. simpl timeout_from. unfold sbind, sget, slift; simpl.
  rewrite (Mm.get_at (timers s) [] n l Hw Hi). simpl. case_bool_decide as Hc.
  - destruct (remove_cancelled_spec s [] n l Hs Hi Hc) as (E & Hok & Hsch). simpl in E, Hok, Hsch.
    unfold id_of in E. rewrite E; simpl. destruct (IH _ Hok) as (s' & r & E' & Hok' & Hsch' & Hn' & Ha); simpl in *.
    { lia. }
    exists s', r. rewrite <- Hsch. split_and!; [exact E'|done..].
  - eexists _, _. split; [done|]. split_and!; [done..|]. right. exists (Mm.key n).
    split; [by apply (first_due_head s n l)|done].
Qed.

Lemma meets_timeout now s : ok s -> meets (Timeout now) s.
Proof.
  intros Hs. destruct (timeout_loop now _ s Hs (le_n _)) as (s' & r & E & Hok & Hsch & Hn & Ha).
  exists s', (inr r). unfold do_call, sbind, timeout. unfold Mm.begin. rewrite E. simpl.
  split_and!; [done..| |done]. by rewrite Hsch, Hn.
Qed.

Lemma timers_meet c s : ok s -> callable c s -> meets c s.
Proof.
  intros Hs Hc. destruct c; [by apply meets_add|by apply meets_cancel|by apply meets_set_interval
                            |by apply meets_reset|by apply meets_timeout].
Qed.

(** *** The abstract set

    All the timers with the time each is due, the identifiers of the cancelled ones that are still among
    them, and the last identifier given. *)
Record plan : Type := Plan { p_all : sched; p_gone : gset Z; p_next : Z }.

Definition plan_of (s : timers_t) : plan := Plan (whole s) (cancelled_timers s) (next_timer_id s).

(** What is scheduled. *)
Definition live (p : plan) : sched := filter (fun e => e.1 ∉ p_gone p) (p_all p).

(** The cancelled timers that a call of [timeout] meets before the first live one: those that are due before all
    the live ones, none that is due after one of them, and at the same time as the first, those inserted before it. *)
Definition passed (p : plan) (K : gset Z) : Prop :=
  K ⊆ p_gone p /\ forall id e, id ∈ p_gone p -> p_all p !! id = Some e ->
    ((forall i x, live p !! i = Some x -> e.1 < x.1) -> id ∈ K) /\
    ((exists i x, live p !! i = Some x /\ x.1 < e.1) -> id ∉ K).

Definition spec_call (c : call) (p p' : plan) (r : errno + Z) : Prop :=
  match c with
  | Add _ _ None _ => p' = p /\ r = inl EFAULT
  | Add now interval_ (Some h) arg_ =>
      p' = Plan (<[p_next p + 1 := (u64 (now + interval_), Timer (p_next p + 1) interval_ h arg_)]> (p_all p))
                (p_gone p) (p_next p + 1) /\ r = inr (p_next p + 1)
  | Cancel id =>
      if decide (id ∈ dom (live p)) then p' = Plan (p_all p) ({[ id ]} ∪ p_gone p) (p_next p) /\ r = inr 0
      else p' = p /\ r = inl EINVAL
  | SetInterval now id interval_ =>
      p' = Plan (alter (restart now (fun _ => interval_)) id (p_all p)) (p_gone p) (p_next p) /\ r = found (p_all p) id
  | Reset now id =>
      p' = Plan (alter (restart now (fun i => i)) id (p_all p)) (p_gone p) (p_next p) /\ r = found (p_all p) id
  | Timeout now =>
      (exists K, passed p K /\ p' = Plan (filter (fun e => e.1 ∉ K) (p_all p)) (p_gone p ∖ K) (p_next p)) /\
      ((live p = ∅ /\ r = inr (-1))
       \/ exists d, first_due (live p) d /\ r = inr (if now <? d then i64 (u64 (d - now)) else 0))
  end.

Lemma whole_some s id e :
  ok s -> whole s !! id = Some e <-> exists n, n ∈ Mm.items (timers s) /\ id_of n = id /\ e = (Mm.key n, Mm.val n).
Proof.
  intros Hs. unfold whole. rewrite schedule_of_some by apply Hs.
  split; [intros (n & ? & ? & _ & ?)|intros (n & ? & ? & ?)]; exists n; set_solver.
Qed.

Lemma live_schedule s : ok s -> live (plan_of s) = schedule s.
Proof.
  intros Hs. apply map_eq. intros id. apply option_eq. intros e. unfold live. cbn [plan_of p_all p_gone].
  rewrite map_lookup_filter_Some, whole_some by done. unfold schedule. rewrite schedule_of_some by apply Hs.
  cbn [fst]. naive_solver.
Qed.

(** Without its cancelled identifiers a set is in order, and schedules the whole of it. *)
Definition bare (s : timers_t) : timers_t := set_cancelled ∅ s.

Lemma bare_ok s : ok s -> ok (bare s).
Proof. intros [H1 H2 H3 H4 H5]. split; try done. Qed.

(** Adding, setting and resetting do not look at what is cancelled. *)
Definition blind (c : call) : bool :=
  match c with Add _ _ _ _ | SetInterval _ _ _ | Reset _ _ => true | _ => false end.

Lemma blind_bare c s :
  blind c = true ->
  do_call c (bare s) = (let* (s', r) := do_call c s in Done (bare s', r)) /\
  forall s' r, do_call c s = Done (s', r) -> cancelled_timers s' = cancelled_timers s.
Proof.
  assert (Hre : forall it when t, reinsert it when t (bare s) = (let* (s', r) := reinsert it when t s in Done (bare s', r)) /\
    forall s' r, reinsert it when t s = Done (s', r) -> cancelled_timers s' = cancelled_timers s).
  { intros it when t. unfold reinsert. cbn [bare set_cancelled timers]. destruct (Mm.erase (timers s) it) as [[m it']|]; [|done].
    cbn [obind]. split; [done|]. by intros s' r [= <- _]. }
  destruct c as [now i h a| |now id i|now id|]; cbn [blind]; try done; intros _; cbn [do_call].
  - unfold add, zmq_assert. destruct h as [h|]; [|split; [done|by intros s' r [= <- _]]]. cbn [bare set_cancelled next_timer_id].
    destruct (next_timer_id s <? _); [|done]. split; [done|]. by intros s' r [= <- _].
  - unfold set_interval. change (find_by_id (bare s) id) with (find_by_id s id). change (timers (bare s)) with (timers s).
    case_bool_decide; [|split; [done|by intros s' r [= <- _]]].
    destruct (Mm.get (timers s) (find_by_id s id)) as [n|]; [|done]. cbn [obind].
    match goal with |- context [reinsert ?it ?w ?t s] => destruct (Hre it w t) as [-> Hc]; destruct (reinsert it w t s) as [[s1 []]|]; [|done] end.
    cbn [obind]. split; [done|]. intros s' r [= <- _]. by apply (Hc s1 tt).
  - unfold reset. change (find_by_id (bare s) id) with (find_by_id s id). change (timers (bare s)) with (timers s).
    case_bool_decide; [|split; [done|by intros s' r [= <- _]]].
    destruct (Mm.get (timers s) (find_by_id s id)) as [n|]; [|done]. cbn [obind].
    match goal with |- context [reinsert ?it ?w ?t s] => destruct (Hre it w t) as [-> Hc]; destruct (reinsert it w t s) as [[s1 []]|]; [|done] end.
    cbn [obind]. split; [done|]. intros s' r [= <- _]. by apply (Hc s1 tt).
Qed.

Lemma refine_blind c s :
  ok s -> callable c s -> blind c = true -> exists s' r, do_call c s = Done (s', r) /\ ok s' /\ spec_call c (plan_of s) (plan_of s') r.
Proof.
  intros Hs Hc Hb. destruct (timers_meet c s Hs Hc) as (s' & r & E & Hok & _ & _). exists s', r. split; [done|]. split; [done|].
  assert (Hcb : callable c (bare s)) by (by destruct c).
  destruct (timers_meet c (bare s) (bare_ok s Hs) Hcb) as (s1 & r1 & E1 & _ & Hsp & Ha).
  destruct (blind_bare c s Hb) as [Eb Hcan]. rewrite E in Eb. cbn [obind] in Eb. rewrite Eb in E1. injection E1 as <- <-.
  specialize (Hcan _ _ E). unfold plan_of. rewrite Hcan.
  change (schedule (bare s')) with (whole s') in Hsp. change (next_timer_id (bare s')) with (next_timer_id s') in Hsp.
  change (schedule (bare s)) with (whole s) in Hsp, Ha. change (next_timer_id (bare s)) with (next_timer_id s) in Hsp, Ha.
  change (whole (bare s)) with (whole s) in Ha. destruct c as [now i [h|] a| |now id i|now id|]; cbn in Hsp, Ha |- *; try done;
    injection Hsp as -> ->; by rewrite Ha.
Qed.

Lemma refine_cancel id s :
  ok s -> exists s' r, cancel id s = Done (s', r) /\ ok s' /\ spec_call (Cancel id) (plan_of s) (plan_of s') r.
Proof.
  intros Hs. destruct (meets_cancel id s Hs) as (s' & r & E & Hok & _ & Ha). exists s', r. split; [done|]. split; [done|].
  cbn [spec_call spec_answer] in *. rewrite live_schedule by done. cbn [do_call] in E. unfold cancel in E.
  rewrite Ha in E |- *. destruct (decide (id ∈ dom (schedule s))); repeat case_bool_decide; try discriminate E; by injection E as <-.
Qed.

(** What [timeout] removes is a beginning of the list. *)
Lemma timeout_prefix now fuel : forall s s' r,
  ok s -> timeout_from fuel now (Mm.first_of (Mm.items (timers s))) s = Done (s', r) ->
  exists l1 l2, Mm.items (timers s) = l1 ++ l2 /\ Mm.items (timers s') = l2 /\
    Forall (fun n => id_of n ∈ cancelled_timers s) l1 /\
    match l2 with n :: _ => id_of n ∉ cancelled_timers s | [] => True end /\
    cancelled_timers s' = cancelled_timers s ∖ list_to_set (ids l1).
Proof.
  induction fuel as [|fuel IH]; intros s s' r Hs E; destruct (Mm.items (timers s)) as [|n l] eqn:Hi; cbn in E; try done;
    [injection E as <- _; exists [], []; rewrite Hi; set_solver..|].
  pose proof (ok_wf s Hs) as Hw. unfold sbind, sget, slift in E; cbn in E.
  pose proof (Mm.get_at (timers s) [] n l Hw Hi) as Eg. cbn in Eg. rewrite Eg in E. cbn in E. case_bool_decide as Hc.
  - destruct (remove_cancelled_spec s [] n l Hs Hi Hc) as (E1 & Hok & _). cbn in E1, Hok. unfold id_of in E1.
    rewrite E1 in E. cbn in E. destruct (IH _ s' r Hok E) as (l1 & l2 & H1 & H2 & H3 & H4 & H5). cbn in H1, H3, H4, H5.
    destruct (ok_mid s [] n l Hs Hi) as [_ Hnd]. cbn in Hnd.
    exists (n :: l1), l2. split; [by rewrite H1|]. split; [done|]. split; [|split].
    + constructor; [done|]. eapply Forall_impl; [exact H3|]. intros m Hm. set_solver.
    + destruct l2 as [|m l2]; [done|]. intros Hm. apply H4. apply elem_of_difference. split; [done|].
      intros Em%elem_of_singleton. apply Hnd. rewrite <- Em, H1. unfold ids. apply list_elem_of_fmap_2. set_solver.
    + rewrite H5. cbn [ids map list_to_set]. unfold id_of at 2. fold (ids l1). set_solver.
  - injection E as <- _. exists [], (n :: l). rewrite Hi. set_solver.
Qed.

Lemma refine_timeout now s :
  ok s -> exists s' r, do_call (Timeout now) s = Done (s', r) /\ ok s' /\ spec_call (Timeout now) (plan_of s) (plan_of s') r.
Proof.
  intros Hs. destruct (timeout_loop now _ s Hs (le_n _)) as (s' & r & E & Hok & Hsch & Hn & Ha).
  destruct (timeout_prefix now _ s s' r Hs E) as (l1 & l2 & Hi & Hi' & H1 & H2 & Hc).
  exists s', (inr r). unfold do_call, sbind, timeout. unfold Mm.begin. rewrite E. split; [done|]. split; [done|].
  cbn [spec_call]. rewrite live_schedule by done. split; [|exact Ha]. exists (list_to_set (ids l1)).
  assert (Hin : forall n, id_of n ∈ ids l1 -> n ∈ l1 ++ l2 -> n ∈ l1).
  { intros n (m & Em & Hm)%list_elem_of_fmap Hn'. pose proof (ok_ids s Hs) as Hd. rewrite Hi in Hd.
    apply elem_of_app in Hn' as [|Hn']; [done|]. unfold ids in Hd. rewrite map_app in Hd. apply NoDup_app in Hd as (_ & Hd & _).
    destruct (Hd (id_of n)); [rewrite Em|]; by apply list_elem_of_fmap_2. }
  assert (Hle : forall n m, n ∈ l1 -> m ∈ l2 -> Mm.key n <= Mm.key m).
  { intros n m Hn1 Hm2. pose proof (Mm.wf_sorted _ (ok_wf s Hs)) as Hsort. rewrite Hi, map_app in Hsort.
    eapply (StronglySorted_app_1_elem_of) in Hsort; [|by apply list_elem_of_fmap_2|by apply list_elem_of_fmap_2].
    apply kle_cases in Hsort. simpl in Hsort. lia. }
  split; [split|].
  - intros id Hid%elem_of_list_to_set. unfold ids in Hid. apply list_elem_of_fmap in Hid as (n & -> & Hn1).
    rewrite Forall_forall in H1. by apply H1.
  - cbn [plan_of p_gone p_all]. rewrite live_schedule by done. intros id e Hg He.
    apply whole_some in He as (n & Hn1 & <- & ->); [|done]. rewrite Hi in Hn1. cbn [fst]. split.
    + intros Hlt. apply elem_of_list_to_set. apply elem_of_app in Hn1 as [Hn1|Hn2]; [by apply list_elem_of_fmap_2|exfalso].
      destruct l2 as [|h l2]; [by apply not_elem_of_nil in Hn2|].
      assert (Hh : schedule s !! id_of h = Some (Mm.key h, Mm.val h)).
      { apply schedule_of_some; [apply Hs|]. exists h. rewrite Hi. set_solver. }
      specialize (Hlt _ _ Hh). cbn in Hlt. apply elem_of_cons in Hn2 as [->|Hn2]; [lia|].
      pose proof (Mm.wf_sorted _ (ok_wf s Hs)) as Hsort. rewrite Hi, map_app in Hsort.
      apply StronglySorted_app_1_r in Hsort. cbn [map] in Hsort. apply StronglySorted_inv in Hsort as [_ Hf].
      rewrite Forall_forall in Hf. assert (Hk := Hf (Mm.key n) ltac:(by apply list_elem_of_fmap_2)). apply kle_cases in Hk. simpl in Hk. lia.
    + intros (i & x & Hx & Hlt) Hid%elem_of_list_to_set.
      apply schedule_of_some in Hx as (m & Hm & <- & Hmc & ->); [|apply Hs]. cbn in Hlt.
      pose proof (Hin n Hid Hn1) as Hn'. rewrite Hi in Hm. apply elem_of_app in Hm as [Hm|Hm].
      * rewrite Forall_forall in H1. by apply H1 in Hm.
      * specialize (Hle n m Hn' Hm). lia.
  - unfold plan_of. cbn [p_all p_gone p_next]. rewrite Hc, Hn. f_equal. apply map_eq. intros id. apply option_eq. intros e.
    rewrite map_lookup_filter_Some, !whole_some by done. rewrite Hi, Hi'. cbn [fst]. split.
    + intros (n & Hn2 & <- & ->). split; [exists n; set_solver|]. intros Hid%elem_of_list_to_set.
      pose proof (Hin n Hid ltac:(set_solver)) as Hn'. pose proof (ok_ids s Hs) as Hd. rewrite Hi in Hd. unfold ids in Hd.
      rewrite map_app in Hd. apply NoDup_app in Hd as (_ & Hd & _). destruct (Hd (id_of n)); by apply list_elem_of_fmap_2.
    + intros ((n & Hn1 & <- & ->) & Hid). exists n. split; [|done]. apply elem_of_app in Hn1 as [Hn1|]; [|done].
      destruct Hid. apply elem_of_list_to_set. by apply list_elem_of_fmap_2.
Qed.

(** C22: a set of timers is a finite map from the identifiers to the timers and the times they are due, with
    the set of the identifiers that were cancelled.  Every call but [execute] (see [execute_calls_due]) answers and acts
    as on this map: [add] and [cancel] as expected, [set_interval] and [reset] on a
    cancelled timer too as long as it was not removed, and [timeout] answers from the timers that are alive and removes the
    cancelled ones that it meets, which are those due before all the live ones. *)
Theorem timers_refine_schedule c s :
  ok s -> callable c s ->
  exists s' r, do_call c s = Done (s', r) /\ ok s' /\ spec_call c (plan_of s) (plan_of s') r.
Proof.
  intros Hs Hc. destruct c as [now i h a|id|now id i|now id|now]; [by apply refine_blind|by apply refine_cancel
    |by apply refine_blind|by apply refine_blind|by apply refine_timeout].
Qed.

(** ** Running the timers *)

(** A handler that leaves the set alone changes the rest of the program as [effect] says. *)
Definition keeps_timers (run : H -> Z -> A -> stm sys unit) (effect : H -> Z -> A -> W -> W) : Prop :=
  forall h id a v, run h id a v = Done (Sys (set v) (effect h id a (world v)), tt).

Definition due (c : gset Z) (now : Z) (l : list node) : list node :=
  filter (fun n => (id_of n ∉ c) /\ Mm.key n <= now) l.

Definition call_due (effect : H -> Z -> A -> W -> W) (l : list node) (w : W) : W :=
  foldl (fun w n => let t := Mm.val n in effect (handler t) (timer_id t) (arg t) w) w l.

(** A timer that is due is due again an interval after [now]. *)
Definition postpone (now : Z) (e : Z * timer_t) : Z * timer_t :=
  if decide (e.1 <= now) then (u64 (now + interval e.2), e.2) else e.

Definition progresses (now : Z) (t : timer_t) : Prop := now < u64 (now + interval t).

(** Inserting past [now] leaves the iterator to the nodes [l2], and the nodes from it on but for the new
    one. *)
Lemma insert_past now (x : node) (l1 l2 : list node) :
  now < Mm.key x ->
  exists la lb, Mm.insert_node (l1 ++ l2) x = la ++ lb /\ Mm.first_of lb = Mm.first_of l2
    /\ (Forall (fun n => now < Mm.key n) l1 -> Forall (fun n => now < Mm.key n) la)
    /\ forall (P : node -> Prop) (dec : forall n, Decision (P n)), ~ P x -> filter P lb = filter P l2.
Proof.
  intros Hx.
  assert (Hins : forall (l : list node) (P : node -> Prop) (dec : forall n, Decision (P n)), ~ P x -> filter P (Mm.insert_node l x) = filter P l).
  { intros l P ? HP. induction l as [|n l IH]; cbn [Mm.insert_node].
    - rewrite filter_cons. by rewrite decide_False.
    - destruct (kltb _ _); rewrite !filter_cons; [by rewrite (decide_False (P := P x))|]. by rewrite IH. }
  induction l1 as [|n l1 IH]; simpl.
  - destruct l2 as [|m l2].
    + exists [x], []. split_and!; try done. intros; by constructor.
    + cbn [Mm.insert_node]. destruct (kltb (Mm.key x) (Mm.key m)) eqn:E.
      * exists [x], (m :: l2). split_and!; try done. intros; by constructor.
      * exists [], (m :: Mm.insert_node l2 x). split_and!; try done.
        intros. rewrite !filter_cons, Hins; done.
  - destruct (Mm.key x <? Mm.key n) eqn:E.
    + exists (x :: n :: l1), l2. split_and!; try done. intros. by constructor.
    + destruct IH as (la & lb & E' & ? & Hla & ?). exists (n :: la), lb. split_and!; try done.
      * by rewrite E'.
      * intros Hf. inversion Hf; subst. constructor; [done|]. by apply Hla.
Qed.

(** The nodes that a turn of the loop removes or moves. *)
Definition turns (c : gset Z) (now : Z) (l : list node) : list node :=
  filter (fun n => id_of n ∈ c \/ Mm.key n <= now) l.

Lemma turns_cons c now n l :
  id_of n ∈ c \/ Mm.key n <= now -> turns c now (n :: l) = n :: turns c now l.
Proof. intros Hn. unfold turns. by rewrite filter_cons, decide_True. Qed.

Lemma filter_id_ext (P Q : node -> Prop) `{!forall n, Decision (P n), !forall n, Decision (Q n)} (l : list node) :
  (forall n, n ∈ l -> P n <-> Q n) -> filter P l = filter Q l.
Proof.
  induction l as [|n l IH]; intros Hl; [done|]. rewrite !filter_cons, IH.
  2:{ intros m Hm. apply Hl. by constructor. }
  destruct (Hl n) as [Ha Hb]; [constructor|].
  destruct (decide (P n)); [by rewrite decide_True by auto|by rewrite decide_False by auto].
Qed.

(** Removing a cancelled timer leaves the rest as it is. *)
Lemma remove_others c now n l1 l2 :
  id_of n ∉ ids (l1 ++ l2) ->
  turns (c ∖ {[ id_of n ]}) now l2 = turns c now l2 /\ due (c ∖ {[ id_of n ]}) now l2 = due c now l2.
Proof.
  intros Hn. assert (Hne : forall m, m ∈ l2 -> id_of m <> id_of n).
  { intros m Hm E. apply Hn. rewrite <- E. unfold ids. apply list_elem_of_fmap. exists m. split; [done|].
    apply elem_of_app. by right. }
  split; apply filter_id_ext; intros m Hm%Hne; set_solver.
Qed.

(** The nodes after one that is past [now] are past it. *)
Lemma past_after s now l1 n l2 :
  ok s -> Mm.items (timers s) = l1 ++ n :: l2 -> now < Mm.key n ->
  Forall (fun m => now < Mm.key m) (n :: l2).
Proof.
  intros Hs Hi Hn. pose proof (Mm.wf_sorted _ (ok_wf s Hs)) as Hsort.
  rewrite Hi, map_app in Hsort. simpl in Hsort. constructor; [done|].
  assert (Hf : StronglySorted kle (Mm.key n :: map Mm.key l2)).
  { revert Hsort. generalize (map Mm.key l1). intros l. induction l; simpl; [done|].
    intros Hs'. inversion Hs'; subst. auto. }
  inversion Hf as [|? ? _ Hle]; subst. rewrite Forall_map in Hle. eapply Forall_impl; [exact Hle|]. simpl.
  intros m Hm%kle_cases. simpl in Hm. lia.
Qed.

Lemma postpone_past s now :
  ok s -> Forall (fun m => now < Mm.key m) (Mm.items (timers s)) -> postpone now <$> schedule s = schedule s.
Proof.
  intros Hs Hf. rewrite <- (map_fmap_id (schedule s)) at 2. apply map_fmap_ext.
  intros id e (n & Hn & _ & _ & ->)%schedule_of_some; [|apply Hs]. rewrite Forall_forall in Hf.
  unfold postpone. rewrite decide_False; [done|]. specialize (Hf n Hn). simpl. lia.
Qed.

Lemma due_past c now l : Forall (fun m => now < Mm.key m) l -> due c now l = [].
Proof.
  induction 1 as [|m l Hm _ IH]; [done|]. unfold due in *. rewrite filter_cons.
  rewrite decide_False; [done|]. lia.
Qed.

Lemma postpone_fired now id k t (m : sched) :
  m !! id = Some (k, t) -> k <= now -> progresses now t ->
  postpone now <$> <[id := (u64 (now + interval t), t)]> m = postpone now <$> m.
Proof.
  intros Hm Hk Hp. apply map_eq. intros i. rewrite !lookup_fmap.
  destruct (decide (i = id)) as [->|]; [|by rewrite lookup_insert_ne by congruence].
  rewrite lookup_insert_eq, Hm. simpl. unfold postpone. simpl. unfold progresses in Hp.
  by rewrite (decide_False (P := u64 _ <= now)), (decide_True (P := k <= now)) by lia.
Qed.

(** Every timer that is due makes progress: its next time is past [now]. *)
Definition all_progress (now : Z) (s : timers_t) : Prop :=
  forall id e, schedule s !! id = Some e -> e.1 <= now -> progresses now e.2.

(** ** The turns of the loop *)

Section Turns.
Context (run : H -> Z -> A -> stm sys unit) (fuel : nat) (now : Z) (v : sys).
Context (l1 : list node) (n : node) (l2 : list node).
Context (Hs : ok (set v)) (Hi : Mm.items (timers (set v)) = l1 ++ n :: l2).

Lemma turn_removes :
  id_of n ∈ cancelled_timers (set v) ->
  let s' := TimersT (next_timer_id (set v)) (Mm.Mmap (l1 ++ l2) (Mm.fresh_id (timers (set v))))
              (cancelled_timers (set v) ∖ {[ id_of n ]}) in
  execute_from run (S fuel) now (Mm.first_of (n :: l2)) v
  = execute_from run fuel now (Mm.first_of l2) (Sys s' (world v))
  /\ ok s' /\ schedule s' = schedule (set v).
Proof.
  intros Hc s'. destruct (remove_cancelled_spec (set v) l1 n l2 Hs Hi Hc) as (E & Hok & Hsch).
  split; [|done]. pose proof (Mm.get_at (timers (set v)) l1 n l2 (ok_wf _ Hs) Hi) as Hg. simpl in Hg, E.
  simpl execute_from. unfold sbind, sget, slift, on_set. simpl. rewrite Hg. simpl.
  rewrite bool_decide_eq_true_2 by done. unfold id_of in E. rewrite E. done.
Qed.

Lemma turn_stops :
  id_of n ∉ cancelled_timers (set v) -> now < Mm.key n ->
  execute_from run (S fuel) now (Mm.first_of (n :: l2)) v = Done (v, Some 0).
Proof.
  intros Hc Hk. pose proof (Mm.get_at (timers (set v)) l1 n l2 (ok_wf _ Hs) Hi) as Hg. simpl in Hg.
  simpl execute_from. unfold sbind, sget, slift. simpl. rewrite Hg. simpl.
  rewrite bool_decide_eq_false_2 by done. by rewrite (proj2 (Z.ltb_lt _ _) Hk).
Qed.

(** The handler leaves the node in its place. *)
Context (v' : sys) (l1' l2' : list node).
Context (Hs' : ok (set v')) (Hi' : Mm.items (timers (set v')) = l1' ++ n :: l2').

Lemma turn_calls :
  id_of n ∉ cancelled_timers (set v) -> Mm.key n <= now ->
  run (handler (Mm.val n)) (id_of n) (arg (Mm.val n)) v = Done (v', tt) ->
  let when := u64 (now + interval (Mm.val n)) in
  let x := Mm.Node (Mm.fresh_id (timers (set v'))) when (Mm.val n) in
  let s'' := TimersT (next_timer_id (set v'))
               (Mm.Mmap (Mm.insert_node (l1' ++ l2') x) (S (Mm.fresh_id (timers (set v')))))
               (cancelled_timers (set v')) in
    execute_from run (S fuel) now (Mm.first_of (n :: l2)) v
    = execute_from run fuel now (Mm.first_of l2') (Sys s'' (world v'))
    /\ ok s''
    /\ schedule s'' = if decide (id_of n ∈ cancelled_timers (set v')) then schedule (set v')
                      else <[id_of n := (when, Mm.val n)]> (schedule (set v')).
Proof.
  intros Hc Hk Hr when x s''.
  destruct (reinsert_spec (set v') l1' n l2' when (Mm.val n) Hs' Hi') as (E & Hok & Hsch); [done|].
  split; [|split; [exact Hok|exact Hsch]].
  pose proof (Mm.get_at (timers (set v)) l1 n l2 (ok_wf _ Hs) Hi) as Hg.
  pose proof (Mm.next_at (timers (set v')) l1' n l2' (ok_wf _ Hs') Hi') as Hn. simpl in Hg, Hn, E.
  unfold id_of in Hr. simpl execute_from. unfold sbind, sget, slift, on_set. simpl. rewrite Hg. simpl.
  rewrite bool_decide_eq_false_2 by done. rewrite (proj2 (Z.ltb_ge _ _) Hk), Hr. simpl.
  change (Mm.first_of (n :: l2)) with (Mm.first_of (n :: l2')).
  rewrite Hn. simpl. fold when. rewrite E. done.
Qed.
End Turns.

Lemma execute_exact_loop run effect now :
  keeps_timers run effect ->
  forall fuel v l1 l2,
  ok (set v) -> Mm.items (timers (set v)) = l1 ++ l2 -> Forall (fun n => now < Mm.key n) l1 ->
  all_progress now (set v) -> (length (turns (cancelled_timers (set v)) now l2) < fuel)%nat ->
  exists s',
    execute_from run fuel now (Mm.first_of l2) v
    = Done (Sys s' (call_due effect (due (cancelled_timers (set v)) now l2) (world v)), Some 0)
    /\ ok s' /\ schedule s' = postpone now <$> schedule (set v).
Proof.
  intros Hrun. induction fuel as [|fuel IH]; intros v l1 l2 Hs Hi Hl1 Hp Hf; [lia|].
  destruct l2 as [|n l2].
  { exists (set v). rewrite app_nil_r in Hi. destruct v as [s w]; simpl in *.
    split; [done|]. split; [done|]. symmetry. apply postpone_past; [done|]. by rewrite Hi. }
  destruct (decide (id_of n ∈ cancelled_timers (set v))) as [Hc|Hc].
  - destruct (turn_removes run fuel now v l1 n l2 Hs Hi Hc) as (E & Hok & Hsch).
    destruct (ok_mid _ _ _ _ Hs Hi) as [_ Hn].
    destruct (remove_others (cancelled_timers (set v)) now n l1 l2 Hn) as [Et Ed].
    rewrite turns_cons in Hf by auto. simpl in Hf.
    destruct (IH (Sys _ (world v)) l1 l2 Hok) as (s' & E' & Hok' & Hsch'); [done|done| |simpl; rewrite Et; lia|].
    { unfold all_progress. simpl set. rewrite Hsch. exact Hp. }
    exists s'. rewrite E, E'. simpl. rewrite Ed. unfold due at 2. rewrite filter_cons, decide_False by tauto.
    split; [done|]. split; [done|]. simpl in Hsch'. by rewrite Hsch', Hsch.
  - destruct (decide (Mm.key n <= now)) as [Hk|Hk].
    + pose proof (Hrun (handler (Mm.val n)) (id_of n) (arg (Mm.val n)) v) as Hr.
      destruct (turn_calls run fuel now v l1 n l2 Hs Hi (Sys (set v) _) l1 l2 Hs Hi Hc Hk Hr)
        as (E & Hok & Hsch). cbn [world set] in E, Hok, Hsch.
      assert (Hn : schedule (set v) !! id_of n = Some (Mm.key n, Mm.val n)).
      { apply schedule_of_some; [apply Hs|]. exists n. rewrite Hi. split_and!; [|done..].
        apply elem_of_app; right; constructor. }
      pose proof (Hp _ _ Hn Hk) as Hpn. simpl in Hpn.
      destruct (insert_past now (Mm.Node (Mm.fresh_id (timers (set v))) (u64 (now + interval (Mm.val n))) (Mm.val n))
                  l1 l2 Hpn) as (la & lb & Eab & Hfst & Hla & Hfil).
      rewrite decide_False in Hsch by done. rewrite turns_cons in Hf by auto. simpl in Hf.
      rewrite <- Hfst in E. rewrite Eab in *.
      assert (Ht : turns (cancelled_timers (set v)) now lb = turns (cancelled_timers (set v)) now l2).
      { apply Hfil. unfold id_of; simpl. unfold progresses in Hpn. intros [Hx|Hx]; [by apply Hc|lia]. }
      assert (Hd : due (cancelled_timers (set v)) now lb = due (cancelled_timers (set v)) now l2).
      { apply Hfil. simpl. unfold progresses in Hpn. lia. }
      edestruct (IH (Sys _ (effect (handler (Mm.val n)) (id_of n) (arg (Mm.val n)) (world v))) la lb Hok)
        as (s'' & E' & Hok' & Hsch'); [done|by apply Hla| |simpl; rewrite Ht; lia|].
      { unfold all_progress. simpl set. rewrite Hsch. intros id e. destruct (decide (id = id_of n)) as [->|Hne].
        - rewrite lookup_insert_eq. intros [= <-]. simpl. unfold progresses in Hpn. lia.
        - rewrite lookup_insert_ne by congruence. apply Hp. }
      exists s''. rewrite E, E'. simpl. rewrite Hd. split; [|split; [done|]].
      * do 3 f_equal. unfold due at 2. rewrite filter_cons, decide_True by done. done.
      * simpl in Hsch'. rewrite Hsch', Hsch. by apply (postpone_fired now (id_of n) (Mm.key n)).
    + rewrite (turn_stops run fuel now v l1 n l2 Hs Hi Hc) by lia.
      pose proof (past_after (set v) now l1 n l2 Hs Hi) as Hpast.
      exists (set v). rewrite due_past by (apply Hpast; lia). destruct v as [s w]; simpl in *.
      split; [done|]. split; [done|]. symmetry. apply postpone_past; [done|]. rewrite Hi.
      apply Forall_app; split; [done|]. apply Hpast; lia.
Qed.

(** [execute] calls the handler of every timer that is due, and of no other, once, in the order in
    which they are due, and lets each wait for its interval from [now] on; it returns 0, after as many
    turns as there are timers at most, when the intervals are positive and do not overflow. *)
Theorem execute_calls_due run effect now fuel v :
  keeps_timers run effect -> ok (set v) -> all_progress now (set v) ->
  (length (Mm.items (timers (set v))) < fuel)%nat ->
  exists s',
    execute run fuel now v
    = Done (Sys s' (call_due effect (due (cancelled_timers (set v)) now (Mm.items (timers (set v)))) (world v)),
            Some 0)
    /\ ok s' /\ schedule s' = postpone now <$> schedule (set v).
Proof.
  intros Hr Hs Hp Hf. apply (execute_exact_loop run effect now Hr fuel v []); try done.
  unfold turns. pose proof (length_filter (fun n => id_of n ∈ cancelled_timers (set v) \/ Mm.key n <= now)
    (Mm.items (timers (set v)))). lia.
Qed.

(** ** Handlers that call the set *)

(** The calls with which a handler leaves the loop's timer in its place: it adds timers that are not due
    yet and cancels. *)
Inductive polite (now : Z) (s s' : timers_t) : Prop :=
| polite_add t i h a r :
    callable (Add t i h a) s -> now < u64 (t + i) -> do_call (Add t i h a) s = Done (s', r) -> polite now s s'
| polite_cancel id r : do_call (Cancel id) s = Done (s', r) -> polite now s s'.

Definition polite_handlers (run : H -> Z -> A -> stm sys unit) (now : Z) : Prop :=
  forall h id a v, ok (set v) -> exists v', run h id a v = Done (v', tt) /\ rtc (polite now) (set v) (set v').

(** A successful call does what [meets] says. *)
Lemma call_done c s s' r :
  ok s -> callable c s -> do_call c s = Done (s', r) ->
  ok s' /\ (schedule s', next_timer_id s') = spec_after c (schedule s) (next_timer_id s)
  /\ spec_answer c (whole s) (schedule s) (next_timer_id s) r.
Proof.
  intros Hs Hc E. destruct (timers_meet c s Hs Hc) as (s1 & r1 & E1 & ?). rewrite E in E1.
  by injection E1 as -> ->.
Qed.

Lemma insert_node_after now x (l1 : list node) n l2 :
  Forall (fun m => Mm.key m <= now) l1 -> Mm.key n <= now -> now < Mm.key x ->
  Mm.insert_node (l1 ++ n :: l2) x = l1 ++ n :: Mm.insert_node l2 x.
Proof.
  intros Hl1 Hn Hx.
  induction Hl1 as [|m l1 Hm _ IH]; simpl.
  - by rewrite (proj2 (Z.ltb_ge _ _)) by lia.
  - rewrite (proj2 (Z.ltb_ge _ _)) by lia. by rewrite IH.
Qed.

Lemma before_due s now l1 n l2 :
  ok s -> Mm.items (timers s) = l1 ++ n :: l2 -> Mm.key n <= now -> Forall (fun m => Mm.key m <= now) l1.
Proof.
  intros Hs Hi Hn. pose proof (Mm.wf_sorted _ (ok_wf s Hs)) as Hsort. rewrite Hi, map_app in Hsort. simpl in Hsort.
  clear Hi. induction l1 as [|m l1 IH]; [constructor|]. simpl in Hsort. inversion Hsort as [|? ? Hs1 Hf]; subst.
  constructor; [|by apply IH]. apply Forall_app in Hf as [_ Hf]. apply Forall_inv in Hf.
  apply kle_cases in Hf. simpl in Hf. lia.
Qed.

(** What is due of the nodes: the filter that the politeness of handlers preserves. *)
Definition overdue (now : Z) (l : list node) : list node := filter (fun m => Mm.key m <= now) l.

Lemma timers_polite_keeps now s s' l1 n l2 :
  polite now s s' -> ok s -> all_progress now s -> Mm.items (timers s) = l1 ++ n :: l2 -> Mm.key n <= now ->
  ok s' /\ all_progress now s'
  /\ exists l2', Mm.items (timers s') = l1 ++ n :: l2' /\ overdue now l2' = overdue now l2.
Proof.
  intros [t i h a r Hc Hp E|id r E] Hs Hall Hi Hn.
  - destruct (call_done _ s s' r Hs Hc E) as (Hok & Hspec & _). split; [done|].
    destruct h as [h|]; [|simpl in E; injection E as <- <-; split; [done|by exists l2]].
    simpl in Hspec. injection Hspec as Hsch _. split.
    + intros id e. rewrite Hsch. destruct (decide (id = next_timer_id s + 1)) as [->|Hne].
      * rewrite lookup_insert_eq. intros [= <-]. simpl. lia.
      * rewrite lookup_insert_ne by congruence. apply Hall.
    + unfold do_call, add, zmq_assert in E. destruct (_ <? _); [|done]. injection E as <- _. simpl.
      rewrite Hi, (insert_node_after now); [|exact (before_due s now l1 n l2 Hs Hi Hn)|done|done].
      eexists. split; [done|]. set (x := Mm.Node _ _ _). assert (Hx : ~ Mm.key x <= now) by (simpl; lia).
      clear -Hx. unfold overdue. induction l2 as [|m l2 IH]; cbn [Mm.insert_node].
      * by rewrite filter_cons, decide_False.
      * destruct (kltb _ _); rewrite !filter_cons; [by rewrite (decide_False (P := Mm.key x <= now))|]. by rewrite IH.
  - destruct (call_done (Cancel id) s s' r Hs I E) as (Hok & Hspec & _). split; [done|].
    simpl in Hspec. injection Hspec as Hsch _. split.
    + intros j e. rewrite Hsch, lookup_delete_Some. intros [_ Hj]. by apply (Hall j).
    + exists l2. split; [|done]. unfold do_call, cancel in E.
      repeat case_bool_decide; injection E as <- _; done.
Qed.

Lemma polite_keeps_all now s s' l1 n l2 :
  rtc (polite now) s s' -> ok s -> all_progress now s -> Mm.items (timers s) = l1 ++ n :: l2 -> Mm.key n <= now ->
  ok s' /\ all_progress now s'
  /\ exists l2', Mm.items (timers s') = l1 ++ n :: l2' /\ overdue now l2' = overdue now l2.
Proof.
  intros Hr. revert l2. induction Hr as [s|s s1 s2 Hp Hr IH]; intros l2 Hs Hall Hi Hn; [by eauto|].
  destruct (timers_polite_keeps now s s1 l1 n l2 Hp Hs Hall Hi Hn) as (Hs1 & Hall1 & l3 & Hi1 & Ho).
  destruct (IH l3 Hs1 Hall1 Hi1 Hn) as (Hs2 & Hall2 & l4 & Hi2 & Ho2).
  split_and!; [done..|]. exists l4. by rewrite Ho2.
Qed.

(** Nothing that is alive is due. *)
Definition nothing_due (now : Z) (s : timers_t) : Prop :=
  forall id e, schedule s !! id = Some e -> now < e.1.

Lemma nothing_due_past now s :
  ok s -> Forall (fun m => now < Mm.key m) (Mm.items (timers s)) -> nothing_due now s.
Proof.
  intros Hs Hf id e (n & Hn & _ & _ & ->)%schedule_of_some; [|apply Hs]. rewrite Forall_forall in Hf. by apply Hf.
Qed.

Lemma overdue_cons now n l : Mm.key n <= now -> overdue now (n :: l) = n :: overdue now l.
Proof. intros Hn. unfold overdue. by rewrite filter_cons, decide_True. Qed.

Lemma execute_returns_loop run now :
  polite_handlers run now ->
  forall d k v l1 l2,
  ok (set v) -> Mm.items (timers (set v)) = l1 ++ l2 -> Forall (fun n => now < Mm.key n) l1 ->
  all_progress now (set v) -> (length (overdue now l2) <= d)%nat -> (length l2 <= k)%nat ->
  exists fuel v', execute_from run fuel now (Mm.first_of l2) v = Done (v', Some 0)
    /\ ok (set v') /\ nothing_due now (set v').
Proof.
  intros Hrun. induction d as [d IHd] using lt_wf_ind. induction k as [k IHk] using lt_wf_ind.
  intros v l1 l2 Hs Hi Hl1 Hp Hd Hk. destruct l2 as [|n l2].
  { exists O, v. rewrite app_nil_r in Hi. split; [done|]. split; [done|]. apply nothing_due_past; [done|]. by rewrite Hi. }
  destruct (decide (id_of n ∈ cancelled_timers (set v))) as [Hc|Hc].
  - destruct (turn_removes run O now v l1 n l2 Hs Hi Hc) as (_ & Hok & Hsch).
    destruct (IHk (length l2)) with (v := Sys (TimersT (next_timer_id (set v))
      (Mm.Mmap (l1 ++ l2) (Mm.fresh_id (timers (set v)))) (cancelled_timers (set v) ∖ {[ id_of n ]})) (world v))
      (l1 := l1) (l2 := l2) as (f & v' & E & Hok' & Hn'); [simpl in Hk; lia|exact Hok|done|done| | |done|].
    { unfold all_progress. simpl set. by rewrite Hsch. }
    { unfold overdue in *. rewrite filter_cons in Hd. destruct (decide _); simpl in Hd; lia. }
    exists (S f), v'. rewrite (proj1 (turn_removes run f now v l1 n l2 Hs Hi Hc)). done.
  - destruct (decide (Mm.key n <= now)) as [Hn|Hn].
    + destruct (Hrun (handler (Mm.val n)) (id_of n) (arg (Mm.val n)) v Hs) as (v1 & Hr & Hpol).
      destruct (polite_keeps_all now _ _ l1 n l2 Hpol Hs Hp Hi Hn) as (Hs1 & Hp1 & l3 & Hi1 & Ho1).
      assert (Hpn : progresses now (Mm.val n)).
      { apply (Hp (id_of n) (Mm.key n, Mm.val n)); [|done]. apply schedule_of_some; [apply Hs|]. exists n.
        rewrite Hi. split_and!; [|done..]. apply elem_of_app; right; constructor. }
      pose proof (fun f => turn_calls run f now v l1 n l2 Hs Hi v1 l1 l3 Hs1 Hi1 Hc Hn Hr) as Hturn.
      destruct (Hturn O) as (_ & Hs2 & Hsch2).
      destruct (insert_past now (Mm.Node (Mm.fresh_id (timers (set v1))) (u64 (now + interval (Mm.val n))) (Mm.val n))
                  l1 l3 Hpn) as (la & lb & Eab & Hfst & Hla & Hfil).
      rewrite Eab in *. match type of Hs2 with ok ?x => set (s2 := x) in * end. rewrite overdue_cons in Hd by done. simpl in Hd.
      destruct (IHd (length (overdue now l2))) with (k := length lb) (v := Sys s2 (world v1)) (l1 := la) (l2 := lb)
        as (f & v' & E & Hok' & Hn'); [lia|exact Hs2|done|by apply Hla| | |done|].
      { intros id e. simpl set. rewrite Hsch2. destruct (decide (id_of n ∈ _)); [apply Hp1|].
        destruct (decide (id = id_of n)) as [->|Hne].
        - rewrite lookup_insert_eq. intros [= <-]. simpl. unfold progresses in Hpn. lia.
        - rewrite lookup_insert_ne by congruence. apply Hp1. }
      { assert (Hob : overdue now lb = overdue now l3).
        { apply Hfil. simpl. unfold progresses in Hpn. lia. }
        by rewrite Hob, Ho1. }
      exists (S f), v'. split; [|done]. rewrite (proj1 (Hturn f)), <- Hfst, ?Eab. exact E.
    + exists 1%nat, v. rewrite (turn_stops run 0 now v l1 n l2 Hs Hi Hc) by lia. split; [done|]. split; [done|].
      apply nothing_due_past; [done|]. rewrite Hi. apply Forall_app; split; [done|].
      apply (past_after (set v) now l1 n l2 Hs Hi). lia.
Qed.

(** With handlers that add timers, not due yet, and cancel timers, [execute] does not crash and
    returns 0 when nothing is due any more; it never runs forever. *)
Theorem execute_returns run now v :
  polite_handlers run now -> ok (set v) -> all_progress now (set v) ->
  exists fuel v', execute run fuel now v = Done (v', Some 0) /\ ok (set v') /\ nothing_due now (set v').
Proof.
  intros Hr Hs Hp. destruct (execute_returns_loop run now Hr (length (overdue now (Mm.items (timers (set v)))))
    (length (Mm.items (timers (set v)))) v [] (Mm.items (timers (set v))) Hs) as (fuel & v' & E); try done.
  by exists fuel, v'.
Qed.

(** ** A timer that was cancelled *)

(** What the code outside and the handlers can do to the set. *)
Definition api (s s' : timers_t) : Prop := exists c r, do_call c s = Done (s', r).

Definition api_handlers (run : H -> Z -> A -> stm sys unit) : Prop :=
  forall h id a v v', run h id a v = Done (v', tt) -> rtc api (set v) (set v').

Inductive step (run : H -> Z -> A -> stm sys unit) (v v' : sys) : Prop :=
| step_call c r : on_set (do_call c) v = Done (v', r) -> step run v v'
| step_execute fuel now r : execute run fuel now v = Done (v', r) -> step run v v'.

(** The identifier was given, and its timer is not alive. *)
Definition dead (id : Z) (s : timers_t) : Prop := 1 <= id <= next_timer_id s /\ schedule s !! id = None.

Lemma done_callable c s s' r : do_call c s = Done (s', r) -> callable c s.
Proof.
  destruct c as [now i [h|] a| | | |]; simpl; try done. unfold zmq_assert.
  destruct (Z.ltb_spec (next_timer_id s) (2 ^ 31 - 1)); done.
Qed.

Lemma api_dead id s s' : api s s' -> ok s -> dead id s -> ok s' /\ dead id s'.
Proof.
  intros (c & r & E) Hs [Hid Hd]. destruct (call_done c s s' r Hs (done_callable _ _ _ _ E) E) as (Hok & Hsp & _).
  split; [done|]. unfold dead. destruct c as [now i [h|] a|j|now j i|now j|now]; simpl in Hsp; injection Hsp as -> ->.
  - split; [lia|]. by rewrite lookup_insert_ne by lia.
  - done.
  - split; [done|]. apply lookup_delete_None. auto.
  - split; [done|]. destruct (decide (id = j)) as [->|]; [by rewrite lookup_alter_eq, Hd|].
    by rewrite lookup_alter_ne by congruence.
  - split; [done|]. destruct (decide (id = j)) as [->|]; [by rewrite lookup_alter_eq, Hd|].
    by rewrite lookup_alter_ne by congruence.
  - done.
Qed.

Lemma api_dead_all id s s' : rtc api s s' -> ok s -> dead id s -> ok s' /\ dead id s'.
Proof.
  induction 1 as [s|s s1 s2 Ha Hr IH]; [done|]. intros Hs Hd. destruct (api_dead id s s1 Ha Hs Hd). by apply IH.
Qed.

(** A node keeps its timer: a timer that moves gets a new node. *)
Definition keeps_nodes (m m' : Mm.mmap Z timer_t) : Prop :=
  (Mm.fresh_id m <= Mm.fresh_id m')%nat
  /\ forall n, n ∈ Mm.items m' -> (Mm.nid n < Mm.fresh_id m)%nat -> n ∈ Mm.items m.

#[local] Instance keeps_nodes_preorder : PreOrder keeps_nodes.
Proof.
  split; [by split|]. intros m1 m2 m3 [? H1] [? H2]. split; [lia|]. intros n Hn Hl. apply H1; [|done].
  apply H2; [done|]. lia.
Qed.

Lemma insert_keeps m k t : keeps_nodes m (Mm.insert m k t).
Proof.
  split; [simpl; lia|]. intros n. rewrite Mm.insert_perm. intros [->|?]%elem_of_cons Hl; [simpl in Hl; lia|done].
Qed.

Lemma erase_keeps m it m' it' : Mm.erase m it = Done (m', it') -> keeps_nodes m m'.
Proof.
  unfold Mm.erase. intros E. out_inv. split; [done|]. simpl. intros n Hn _. revert Hn.
  induction (Mm.items m) as [|x l IH]; simpl; [done|]. destruct (decide _); [by right|].
  intros [->|Hn]%elem_of_cons; [left|right; auto].
Qed.

Lemma reinsert_keeps it when t s s' : reinsert it when t s = Done (s', tt) -> keeps_nodes (timers s) (timers s').
Proof.
  unfold reinsert. intros E. apply obind_inv in E as ([m it'] & E1 & [= <-]). simpl.
  transitivity m; [by eapply erase_keeps|apply insert_keeps].
Qed.

Lemma timeout_keeps fuel now it s s' r :
  timeout_from fuel now it s = Done (s', r) -> keeps_nodes (timers s) (timers s').
Proof.
  revert it s. induction fuel as [|fuel IH]; intros [it|] s; simpl; try done; try (intros [= <- <-]; done).
  intros E. apply sbind_inv in E as (? & ? & [= <- <-] & E). apply sbind_inv in E as (s1 & n & En & E).
  apply obind_inv in En as (? & _ & [= <- <-]). case_bool_decide; [|by injection E as <- <-].
  apply sbind_inv in E as (s2 & it2 & E2 & E). apply IH in E. unfold remove_cancelled in E2.
  apply obind_inv in E2 as (? & _ & E2). apply obind_inv in E2 as ([m ?] & E2 & [= <- <-]).
  etransitivity; [|exact E]. simpl. by eapply erase_keeps.
Qed.

Lemma api_keeps s s' : api s s' -> keeps_nodes (timers s) (timers s').
Proof.
  intros (c & r & E). destruct c as [now i [h|] a|j|now j i|now j|now]; simpl in E.
  - unfold zmq_assert in E. destruct (_ <? _); [|done]. injection E as <- _. apply insert_keeps.
  - by injection E as <- _.
  - unfold cancel in E. repeat case_bool_decide; by injection E as <- _.
  - unfold set_interval in E. case_bool_decide; [|by injection E as <- _].
    apply obind_inv in E as (n & _ & E). apply obind_inv in E as ([s1 []] & E & [= <- <-]). by eapply reinsert_keeps.
  - unfold reset in E. case_bool_decide; [|by injection E as <- _].
    apply obind_inv in E as (n & _ & E). apply obind_inv in E as ([s1 []] & E & [= <- <-]). by eapply reinsert_keeps.
  - apply sbind_inv in E as (s1 & z & E & [= <- <-]). by eapply timeout_keeps.
Qed.

Lemma api_keeps_all s s' : rtc api s s' -> keeps_nodes (timers s) (timers s').
Proof. induction 1 as [s|s s1 s2 Ha _ IH]; [done|]. etransitivity; [by apply api_keeps|done]. Qed.

(** [execute] when the handler of [id] aborts the program: to agree with it is never to call it. *)
Definition without (id : Z) (run : H -> Z -> A -> stm sys unit) : H -> Z -> A -> stm sys unit :=
  fun h i a => if decide (i = id) then scrash else run h i a.

Lemma execute_dead run id fuel now it v :
  api_handlers run -> ok (set v) -> dead id (set v) ->
  execute_from run fuel now it v = execute_from (without id run) fuel now it v
  /\ forall v' r, execute_from run fuel now it v = Done (v', r) -> ok (set v') /\ dead id (set v').
Proof.
  intros Hrun. revert it v. induction fuel as [|fuel IH]; intros [it|] v Hs Hd;
    try (split; [done|]; intros v' r [= <- <-]; done).
  simpl execute_from. unfold sbind, sget, slift. simpl.
  destruct (Mm.get (timers (set v)) (Some it)) as [n|] eqn:En; simpl; [|done].
  destruct (Mm.get_inv _ _ _ En) as (l1 & l2 & Hi & Hit). rewrite Hit.
  case_bool_decide as Hc.
  - destruct (remove_cancelled_spec (set v) l1 n l2 Hs Hi Hc) as (E & Hok & Hsch).
    unfold on_set. unfold id_of in E. rewrite E. simpl. apply IH; [done|].
    exact (conj (proj1 Hd) (eq_trans (f_equal (lookup id) Hsch) (proj2 Hd))).
  - destruct (now <? Mm.key n); [split; [done|]; intros v' r [= <- <-]; done|].
    assert (Hne : timer_id (Mm.val n) <> id).
    { intros E. destruct Hd as [_ Hd]. apply schedule_of_none in Hd as [Hd|Hd]; [by rewrite <- E in Hd|].
      apply Hd. unfold ids. apply list_elem_of_fmap. exists n. rewrite Hi. split; [done|].
      apply elem_of_app; right; constructor. }
    unfold without at 1. rewrite decide_False by done.
    destruct (run _ _ _ v) as [[v1 []]|] eqn:Er; simpl; [|done].
    pose proof (Hrun _ _ _ _ _ Er) as Hapi. destruct (api_dead_all id _ _ Hapi Hs Hd) as [Hs1 Hd1].
    destruct (api_keeps_all _ _ Hapi) as [_ Hk].
    destruct (Mm.next _ _) as [it'|] eqn:Enx; simpl; [|done].
    destruct (Mm.next_inv _ _ _ Enx) as (l1' & n1 & l2' & Hi1 & Hit1 & ->).
    assert (n1 = n) as ->.
    { injection Hit1 as Enid. assert (Hin : n1 ∈ Mm.items (timers (set v1))).
      { rewrite Hi1. apply elem_of_app; right; constructor. }
      assert (Hinn : n ∈ Mm.items (timers (set v))) by (rewrite Hi; apply elem_of_app; right; constructor).
      apply (Mm.nid_inj (timers (set v))); [apply Hs| |done|done]. apply Hk; [done|].
      pose proof (Mm.wf_fresh _ (ok_wf _ Hs)) as Hf. rewrite Forall_forall in Hf. rewrite <- Enid. by apply Hf. }
    destruct (reinsert_spec (set v1) l1' n l2' (u64 (now + interval (Mm.val n))) (Mm.val n) Hs1 Hi1)
      as (E & Hok & Hsch); [done|].
    change (Mm.first_of (n :: l2)) with (Mm.first_of (n :: l2')). unfold on_set. rewrite E. simpl.
    apply IH; [done|]. split; [apply Hd1|]. refine (eq_trans (f_equal (lookup id) Hsch) _).
    destruct (decide _); [apply Hd1|]. rewrite lookup_insert_ne by done. apply Hd1.
Qed.

(** A timer that was cancelled never fires again: whatever calls and executions follow, running the
    timers never calls its handler, and cancelling it again fails. *)
Theorem cancelled_never_fires run id v v1 v2 fuel now :
  api_handlers run -> ok (set v) ->
  on_set (cancel id) v = Done (v1, inr 0) -> rtc (step run) v1 v2 ->
  execute run fuel now v2 = execute (without id run) fuel now v2
  /\ on_set (cancel id) v2 = Done (v2, inl EINVAL).
Proof.
  intros Hrun Hs E Hr.
  assert (H1 : ok (set v1) /\ dead id (set v1)).
  { unfold on_set in E. apply obind_inv in E as ([s1 r] & E & [= <- ->]).
    destruct (call_done (Cancel id) (set v) s1 (inr 0) Hs I E) as (Hok & [= Hsch Hn] & Ha). simpl.
    split; [done|]. simpl in Ha. destruct (decide _) as [Hin|]; [|done]. split.
    - rewrite Hn. apply ids_range; [done|]. by apply in_schedule.
    - rewrite Hsch. by rewrite lookup_delete_eq. }
  assert (H2 : ok (set v2) /\ dead id (set v2)).
  { clear E. induction Hr as [v2|v1 v' v2 Hst Hr IH]; [done|]. apply IH. destruct H1 as [Hs1 Hd1].
    destruct Hst as [c r E|f t r E].
    - unfold on_set in E. apply obind_inv in E as ([s1 r'] & E & [= <- ->]). simpl.
      apply (api_dead id (set v1)); [by exists c, r|done..].
    - by apply (proj2 (execute_dead run id f t (Mm.begin (timers (set v1))) v1 Hrun Hs1 Hd1) _ _ E). }
  destruct H2 as [Hs2 Hd2]. split; [by apply execute_dead|].
  destruct (meets_cancel id (set v2) Hs2) as (s' & r & E2 & _ & _ & Ha). simpl in E2, Ha.
  rewrite decide_False in Ha by (apply not_elem_of_dom; apply Hd2). subst r.
  unfold on_set. rewrite E2. simpl. unfold cancel in E2. destruct v2 as [s2 w2].
  repeat case_bool_decide; by injection E2 as <-.
Qed.

(** ** Where running the timers goes wrong *)

(** Two timers that are due, of interval 0. *)
Definition zero_pair (now : Z) (s : timers_t) : Prop :=
  exists p q, Mm.items (timers s) = [p; q] /\ (id_of p ∉ cancelled_timers s) /\ (id_of q ∉ cancelled_timers s)
    /\ Mm.key p <= now /\ Mm.key q <= now /\ interval (Mm.val p) = 0 /\ interval (Mm.val q) = 0.

(** Two timers of interval 0 that are due keep [execute] running forever: each is put behind the
    other, and is still due. *)
Theorem execute_spins run effect now v :
  keeps_timers run effect -> ok (set v) -> 0 <= now < 2 ^ 64 -> zero_pair now (set v) ->
  forall fuel, exists v', execute run fuel now v = Done (v', None).
Proof.
  intros Hrun Hs Hnow Hz fuel. unfold execute. revert v Hs Hz.
  induction fuel as [|fuel IH]; intros v Hs Hz;
    destruct Hz as (p & q & Hi & Hp & Hq & Hkp & Hkq & Hip & Hiq); unfold Mm.begin; rewrite Hi; [by exists v|].
  pose proof (Hrun (handler (Mm.val p)) (id_of p) (arg (Mm.val p)) v) as Hr.
  destruct (turn_calls run fuel now v [] p [q] Hs Hi (Sys (set v) _) [] [q] Hs Hi Hp Hkp Hr) as (E & Hok & _).
  rewrite E. cbn [set world].
  rewrite Hip, Z.add_0_r, (u64_small now) in Hok |- * by lia. cbn [set] in Hok.
  assert (Eins : forall x, Mm.key x = now -> Mm.insert_node ([] ++ [q]) x = [q; x]).
  { intros x Hx. simpl. by rewrite (proj2 (Z.ltb_ge _ _)) by lia. }
  rewrite Eins in Hok |- * by done.
  edestruct (IH (Sys _ (effect (handler (Mm.val p)) (id_of p) (arg (Mm.val p)) (world v))) Hok) as [v' E'].
  - eexists q, _. cbn [set timers Mm.items]. split; [done|]. unfold id_of; cbn [Mm.val Mm.key cancelled_timers].
    split_and!; (done || lia).
  - exists v'. exact E'.
Qed.

(** The handler of the first timer that is due resets its own timer. *)
Definition resets_itself (run : H -> Z -> A -> stm sys unit) (n : node) (v : sys) : Prop :=
  exists t r, run (handler (Mm.val n)) (id_of n) (arg (Mm.val n)) v
    = (let* (v', _) := on_set (do_call r) v in Done (v', tt)) /\ (r = Reset t (id_of n) \/ exists i, r = SetInterval t (id_of n) i).

(** A handler that resets its own timer, or changes its interval, leaves [execute] with an iterator
    to an erased element. *)
Theorem reset_in_handler_crashes run fuel now v n l :
  ok (set v) -> Mm.items (timers (set v)) = n :: l ->
  id_of n ∉ cancelled_timers (set v) -> Mm.key n <= now -> resets_itself run n v ->
  execute run (S fuel) now v = Crash.
Proof.
  intros Hs Hi Hc Hk (t & r & Er & Hr). unfold execute, Mm.begin. rewrite Hi.
  pose proof (Mm.get_at (timers (set v)) [] n l (ok_wf _ Hs) Hi) as Hg. simpl in Hg.
  simpl execute_from. unfold sbind, sget, slift. simpl. rewrite Hg. simpl.
  rewrite bool_decide_eq_false_2 by done. rewrite (proj2 (Z.ltb_ge _ _) Hk). unfold id_of in Er. rewrite Er.
  destruct (on_set _ _) as [[v' r']|] eqn:E; [|done]. simpl.
  unfold on_set in E. apply obind_inv in E as ([s1 r1] & E & [= <- ->]). simpl.
  change (Mm.first_of (n :: l)) with (Some (Mm.nid n)). rewrite Mm.next_absent; [done|]. destruct (find_by_id_some (set v) (id_of n)) as (l1 & n1 & l2 & Hi1 & Hn1 & Ef).
  { rewrite Hi. constructor. }
  assert (n1 = n /\ l1 = [] /\ l2 = l) as (-> & -> & ->).
  { destruct l1 as [|x l1]; [rewrite Hi in Hi1; by injection Hi1 as -> ->|]. exfalso.
    destruct (ok_mid (set v) (x :: l1) n1 l2 Hs Hi1) as [_ Hd]. apply Hd. rewrite Hi in Hi1. injection Hi1 as <- _.
    rewrite Hn1. constructor. }
  assert (Hre : forall when u s2, timer_id u = id_of n -> reinsert (Mm.first_of (n :: l)) when u (set v) = Done (s2, tt) ->
    Mm.nid n ∉ map Mm.nid (Mm.items (timers s2))).
  { intros when u s2 Hu E2. destruct (reinsert_spec (set v) [] n l when u Hs Hi Hu) as (E3 & _).
    rewrite E3 in E2. injection E2 as <-. cbn [timers Mm.items]. rewrite Mm.insert_node_perm.
    pose proof (Mm.wf_ids _ (ok_wf _ Hs)) as Hnd. rewrite Hi in Hnd. apply NoDup_cons in Hnd as [Hnd _].
    apply not_elem_of_cons. split; [|done]. simpl.
    pose proof (Mm.wf_fresh _ (ok_wf _ Hs)) as Hf. rewrite Hi in Hf. apply Forall_inv in Hf. lia. }
  destruct Hr as [->|[i ->]]; simpl in E; unfold reset, set_interval in E; rewrite Ef in E;
    rewrite bool_decide_eq_true_2 in E by done; apply obind_inv in E as (m & Em & E);
    rewrite (Mm.get_at (timers (set v)) [] n l (ok_wf _ Hs) Hi) in Em; injection Em as <-;
    apply obind_inv in E as ([s2 []] & E & [= <- _]); (eapply Hre; [|exact E]; done).
Qed.

(** [when] wraps around: a timer of the greatest interval, [SIZE_MAX], is due at once. *)
Theorem longest_interval_is_due now s h a :
  ok s -> callable (Add now (2 ^ 64 - 1) (Some h) a) s -> 1 <= now < 2 ^ 64 ->
  exists s' s'', add now (2 ^ 64 - 1) (Some h) a s = Done (s', inr (next_timer_id s + 1))
    /\ timeout now s' = Done (s'', 0).
Proof.
  intros Hs Hc Hnow. destruct (timers_meet _ s Hs Hc) as (s1 & r & E & Hok & Hsp & Ha). simpl in Ha. subst r.
  simpl in Hsp. injection Hsp as Hsch _. exists s1.
  assert (Hw : u64 (now + (2 ^ 64 - 1)) = now - 1).
  { unfold u64. replace (now + (2 ^ 64 - 1)) with (now - 1 + 1 * 2 ^ 64) by lia.
    rewrite Z.mod_add, Z.mod_small; lia. }
  destruct (timeout_loop now _ s1 Hok (le_n _)) as (s2 & r & E2 & _ & _ & _ & Ha). simpl in Ha.
  exists s2. split; [exact E|]. unfold timeout, Mm.begin. rewrite E2.
  assert (Hin : schedule s1 !! (next_timer_id s + 1) = Some (now - 1, Timer (next_timer_id s + 1) (2 ^ 64 - 1) h a)).
  { by rewrite Hsch, lookup_insert_eq, Hw. }
  destruct Ha as [[He _]|(d & [_ Hd] & [= ->])]; [by rewrite He in Hin|].
  specialize (Hd _ _ Hin). simpl in Hd. by rewrite (proj2 (Z.ltb_ge _ _)) by lia.
Qed.

Lemma all_progress_items now s :
  ok s -> Forall (fun n => Mm.key n <= now -> progresses now (Mm.val n)) (Mm.items (timers s)) -> all_progress now s.
Proof.
  intros Hs Hf id e (n & Hn & _ & _ & ->)%schedule_of_some; [|apply Hs]. rewrite Forall_forall in Hf. by apply Hf.
Qed.

(** The state after a call. *)
Definition after (c : call) (s : timers_t) : timers_t :=
  match do_call c s with Done (s', _) => s' | Crash => s end.

Lemma after_ok c s : ok s -> callable c s -> ok (after c s).
Proof. intros Hs Hc. unfold after. destruct (timers_meet c s Hs Hc) as (s' & r & -> & Hok & _). done. Qed.
End Timers.

Arguments timer_t : clear implicits.
Arguments timers_t : clear implicits.
Arguments sys : clear implicits.
Arguments call : clear implicits.

(** *** Runs *)

(** The handlers of the samples are numbers, and the program records the timers that fired. *)
Abbreviation lab_set := (timers_t nat unit).
Abbreviation lab_sys := (sys nat unit (list Z)).

Definition lab_log (h : nat) (id : Z) (a : unit) (w : list Z) : list Z := w ++ [id].
Definition lab_run (h : nat) (id : Z) (a : unit) : stm lab_sys unit :=
  fun v => Done (Sys (set v) (lab_log h id a (world v)), tt).

Definition lab1 : lab_set := after (Add 0 100 (Some 0%nat) tt) timers_new.
Definition lab2 : lab_set := after (Add 0 50 (Some 1%nat) tt) lab1.

Lemma lab2_ok : ok lab2.
Proof. repeat (apply after_ok; [|vm_compute; reflexivity]). apply timers_ok_new. Qed.

Lemma lab2_progress : all_progress 100 lab2.
Proof. apply all_progress_items; [apply lab2_ok|]. repeat constructor. Qed.

Lemma lab_run_keeps : keeps_timers lab_run lab_log.
Proof. done. Qed.

Lemma lab_run_api : api_handlers lab_run.
Proof. intros h id a v v' [= <-]. apply rtc_refl. Qed.

(** Timer 1 is cancelled and reset. *)
Definition lab6 : lab_set := after (Cancel 1) lab2.

Lemma lab6_ok : ok lab6.
Proof. apply after_ok; [exact lab2_ok|done]. Qed.

Lemma timers_refine_schedule_witness :
  ok lab6 /\ callable (Reset 7 1) lab6 /\ p_gone (plan_of lab6) = {[ 1 ]} /\
  exists s' r, do_call (Reset 7 1) lab6 = Done (s', r) /\ ok s' /\ r = inr 0
    /\ p_all (plan_of s') = alter (restart 7 (fun i => i)) 1 (p_all (plan_of lab6)).
Proof.
  split; [exact lab6_ok|]. split; [done|]. split; [vm_compute; reflexivity|].
  destruct (timers_refine_schedule (Reset 7 1) lab6 lab6_ok I) as (s' & r & E & Hok & Hp & Hr).
  exists s', r. split; [done|]. split; [done|]. split; [rewrite Hr; vm_compute; reflexivity|by rewrite Hp].
Defined.

Lemma execute_calls_due_witness :
  call_due lab_log (due (cancelled_timers lab2) 100 (Mm.items (timers lab2))) [] = [2; 1] /\
  exists s',
    execute lab_run 5 100 (Sys lab2 [])
    = Done (Sys s' (call_due lab_log (due (cancelled_timers lab2) 100 (Mm.items (timers lab2))) []), Some 0)
    /\ ok s' /\ schedule s' = postpone 100 <$> schedule lab2.
Proof.
  split; [vm_compute; reflexivity|].
  exact (execute_calls_due lab_run lab_log 100 5 (Sys lab2 []) lab_run_keeps lab2_ok lab2_progress
           ltac:(vm_compute; lia)).
Defined.

(** A handler that adds a timer of ten milliseconds, when there is an identifier left, and cancels timer 1. *)
Definition lab_run_polite (h : nat) (id : Z) (a : unit) : stm lab_sys unit := fun v =>
  if next_timer_id (set v) <? 2 ^ 31 - 1 then
    let* (v, _) := on_set (do_call (Add 100 10 (Some 0%nat) tt)) v in
    let* (v, _) := on_set (do_call (Cancel 1)) v in Done (v, tt)
  else Done (v, tt).

Lemma lab_run_is_polite : polite_handlers lab_run_polite 100.
Proof.
  intros h id a v Hv. unfold lab_run_polite. destruct (Z.ltb_spec (next_timer_id (set v)) (2 ^ 31 - 1)) as [Hl|].
  2:{ exists v. split; [done|]. apply rtc_refl. }
  destruct (timers_meet (Add 100 10 (Some 0%nat) tt) (set v) Hv Hl) as (s1 & r1 & E1 & Hs1 & _).
  destruct (timers_meet (Cancel 1) s1 Hs1 I) as (s2 & r2 & E2 & _).
  exists (Sys s2 (world v)). unfold on_set. rewrite E1. cbn [obind set world]. rewrite E2. split; [done|].
  eapply rtc_l; [exact (polite_add 100 _ _ 100 10 (Some 0%nat) tt r1 Hl ltac:(done) E1)|].
  apply rtc_once. exact (polite_cancel 100 _ _ 1 r2 E2).
Qed.

Lemma execute_returns_witness :
  omap_out (fun x => snd x) (execute lab_run_polite 9 100 (Sys lab2 [])) = Done (Some 0) /\
  exists fuel v', execute lab_run_polite fuel 100 (Sys lab2 []) = Done (v', Some 0)
    /\ ok (set v') /\ nothing_due 100 (set v').
Proof.
  split; [vm_compute; reflexivity|].
  exact (execute_returns lab_run_polite 100 (Sys lab2 []) lab_run_is_polite lab2_ok lab2_progress).
Defined.

Definition lab3 : lab_set := after (Cancel 1) lab2.

Definition lab4 : lab_sys :=
  match execute lab_run 5 100 (Sys lab3 []) with Done (v, _) => v | Crash => Sys lab3 [] end.

Lemma cancelled_never_fires_witness :
  world lab4 = [2] /\
  execute lab_run 9 200 lab4 = execute (without 1 lab_run) 9 200 lab4
  /\ on_set (cancel 1) lab4 = Done (lab4, inl EINVAL).
Proof.
  split; [vm_compute; reflexivity|].
  refine (cancelled_never_fires lab_run 1 (Sys lab2 []) (Sys lab3 []) lab4 9 200 lab_run_api lab2_ok _ _).
  - vm_compute; reflexivity.
  - apply rtc_once. refine (step_execute _ _ _ 5 100 (Some 0) _). vm_compute; reflexivity.
Defined.

Definition lab5 : lab_set := after (Add 0 0 (Some 1%nat) tt) (after (Add 0 0 (Some 0%nat) tt) timers_new).

Lemma lab5_ok : ok lab5.
Proof. repeat (apply after_ok; [|vm_compute; reflexivity]). apply timers_ok_new. Qed.

Lemma execute_spins_witness :
  omap_out (fun x => world (fst x)) (execute lab_run 6 1 (Sys lab5 [])) = Done [1; 2; 1; 2; 1; 2] /\
  (forall fuel, exists v', execute lab_run fuel 1 (Sys lab5 []) = Done (v', None)).
Proof.
  split; [vm_compute; reflexivity|].
  refine (execute_spins lab_run lab_log 1 (Sys lab5 []) lab_run_keeps lab5_ok ltac:(lia) _).
  eexists _, _. split; [vm_compute; reflexivity|]. split_and!; vm_compute; done.
Defined.

Definition lab_run_reset (h : nat) (id : Z) (a : unit) : stm lab_sys unit :=
  fun v => let* (v', _) := on_set (do_call (Reset 60 id)) v in Done (v', tt).

Lemma reset_in_handler_crashes_witness :
  (exists n l, Mm.items (timers lab2) = n :: l /\ id_of n = 2) /\ execute lab_run_reset 5 60 (Sys lab2 []) = Crash.
Proof.
  split; [eexists _, _; split; vm_compute; reflexivity|].
  refine (reset_in_handler_crashes lab_run_reset 4 60 (Sys lab2 []) (Mm.Node 1 50 (Timer 2 50 1%nat tt))
            [Mm.Node 0 100 (Timer 1 100 0%nat tt)] lab2_ok _ _ _ _).
  - vm_compute; reflexivity.
  - vm_compute; done.
  - vm_compute; done.
  - exists 60, (Reset 60 2). split; [done|by left].
Defined.

Lemma longest_interval_is_due_witness :
  callable (Add 5 (2 ^ 64 - 1) (Some 0%nat) tt) lab2 /\
  exists s' s'', add 5 (2 ^ 64 - 1) (Some 0%nat) tt lab2 = Done (s', inr (next_timer_id lab2 + 1))
    /\ timeout 5 s' = Done (s'', 0).
Proof.
  split; [vm_compute; reflexivity|].
  exact (longest_interval_is_due 5 lab2 0%nat tt lab2_ok ltac:(vm_compute; reflexivity) ltac:(lia)).
Defined.
End Timers.
