(* ===== verification/PollerBase.v ===== *)
(** * PollerBase: the timers and the load of an I/O thread (libzmq/src/poller_base.cpp)

    The objects that live in an I/O thread, its sinks, ask for [timer_event] to be
    called after a time.  The poller runs what is due before it waits for the
    descriptors, and waits no longer than until the next timer. *)

From S2P Require Import Prelude Multimap.

Module PollerBase.
Section PollerBase.

(** Pointers to [i_poll_events]. *)
Context {P : Type} `{EqDecision P}.

Record timer_info_t : Type := TimerInfo { sink : P; id : Z }.

Record poller_base_t : Type := PollerBaseT {
  timers : Mm.mmap Z timer_info_t;
  load : Z
}.

Definition poller_base_new : poller_base_t := PollerBaseT Mm.empty 0.

(** [load] is an [atomic_counter_t], 32 bits wide. *)
Definition get_load (p : poller_base_t) : Z := i32 (load p).

Definition adjust_load (amount_ : Z) (p : poller_base_t) : poller_base_t :=
  if 0 <? amount_ then PollerBaseT (timers p) (u32 (load p + amount_))
  else if amount_ <? 0 then PollerBaseT (timers p) (u32 (load p - (- amount_)))
  else p.

(** [now] is what [clock.now_ms ()] returns; [timeout_] is an [int]. *)
Definition add_timer (now timeout_ : Z) (sink_ : P) (id_ : Z) : stm poller_base_t unit := fun p =>
  let expiration := u64 (now + timeout_) in
  Done (PollerBaseT (Mm.insert (timers p) expiration (TimerInfo sink_ id_)) (load p), tt).

Definition is_timer (sink_ : P) (id_ : Z) (n : Mm.node Z timer_info_t) : bool :=
  bool_decide (sink (Mm.val n) = sink_) && (id (Mm.val n) =? id_).

Definition cancel_timer (sink_ : P) (id_ : Z) : stm poller_base_t unit := fun p =>
  match Mm.find_if (is_timer sink_ id_) (timers p) with
  | Some it => let* (m, _) := Mm.erase (timers p) (Some it) in Done (PollerBaseT m (load p), tt)
  | None => Crash
  end.

(** The poller and the rest of the I/O thread. *)
Context {W : Type}.

Record sys : Type := Sys { poller : poller_base_t; world : W }.

Section Execute.
Context (timer_event : P -> Z -> stm sys unit).

(** The loop; [None] when it still runs after [fuel] turns. *)
Fixpoint execute_from (fuel : nat) (current : Z) (it : Mm.iterator) : stm sys (option Z) :=
  match it, fuel with
  | None, _ => sret (Some 0)
  | Some _, O => sret None
  | Some _, S fuel =>
      let! v := sget in
      let! n := slift (Mm.get (timers (poller v)) it) in
      if current <? Mm.key n then sret (Some (u64 (Mm.key n - current)))
      else
        timer_event (sink (Mm.val n)) (id (Mm.val n)) ;;;
        let! v := sget in
        let! it' := slift (Mm.next (timers (poller v)) it) in
        let! e := slift (Mm.erase (timers (poller v)) it) in
        smod (fun v => Sys (PollerBaseT e.1 (load (poller v))) (world v)) ;;;
        execute_from fuel current it'
  end.

Definition execute_timers (fuel : nat) (current : Z) : stm sys (option Z) := fun v =>
  if bool_decide (Mm.items (timers (poller v)) = []) then Done (v, Some 0)
  else execute_from fuel current (Mm.begin (timers (poller v))) v.
End Execute.

Abbreviation node := (Mm.node Z timer_info_t).

(** ** What the events of the timers do to the poller *)

(** An event adds timers that are not due yet, and cancels timers other than its own. *)
Inductive polite (now : Z) (own : timer_info_t) (p p' : poller_base_t) : Prop :=
| polite_add t timeout_ s i :
    now < u64 (t + timeout_) -> add_timer t timeout_ s i p = Done (p', tt) -> polite now own p p'
| polite_cancel s i :
    own <> TimerInfo s i -> cancel_timer s i p = Done (p', tt) -> polite now own p p'.

(** It only adds timers. *)
Inductive adding (now : Z) (p p' : poller_base_t) : Prop :=
| adding_timer t timeout_ s i :
    now < u64 (t + timeout_) -> add_timer t timeout_ s i p = Done (p', tt) -> adding now p p'.

Definition overdue (now : Z) (l : list node) : list node := filter (fun n => Mm.key n <= now) l.

(** The times are 64-bit numbers, in order. *)
Record ok (p : poller_base_t) : Prop := {
  ok_wf : Mm.wf (timers p);
  ok_times : Forall (fun n => 0 <= Mm.key n < 2 ^ 64) (Mm.items (timers p))
}.

Lemma pollerbase_ok_new : ok poller_base_new.
Proof. split; [apply Mm.wf_empty|constructor]. Qed.

Lemma ok_add now timeout_ s i p p' : ok p -> add_timer now timeout_ s i p = Done (p', tt) -> ok p'.
Proof.
  intros [Hw Ht] [= <-]. split; cbn [timers]; [by apply Mm.wf_insert|].
  rewrite Mm.insert_perm. constructor; [|done]. cbn [Mm.key]. unfold u64. apply Z.mod_pos_bound. lia.
Qed.

Lemma ok_erase p l1 n l2 :
  ok p -> Mm.items (timers p) = l1 ++ n :: l2 ->
  ok (PollerBaseT (Mm.Mmap (l1 ++ l2) (Mm.fresh_id (timers p))) (load p)).
Proof.
  intros [Hw Ht] Hi. split; cbn [timers]; [by apply (Mm.wf_erase (timers p) l1 n l2)|]. cbn [Mm.items].
  rewrite Hi, <- Permutation_middle in Ht. by apply Forall_cons in Ht as [_ Ht].
Qed.

Definition all_later (now : Z) (p : poller_base_t) : Prop :=
  Forall (fun n => now < Mm.key n) (Mm.items (timers p)).

(** How long the poller may wait: to the first of the timers left. *)
Definition until_next (now : Z) (p : poller_base_t) (r : Z) : Prop :=
  match Mm.items (timers p) with
  | [] => r = 0
  | n :: _ => r = Mm.key n - now /\ 0 < r
  end.

Lemma insert_behind (now : Z) (x n : node) (l : list node) :
  Mm.key n <= now -> now < Mm.key x -> Mm.insert_node (n :: l) x = n :: Mm.insert_node l x.
Proof. intros. simpl. by rewrite (proj2 (Z.ltb_ge _ _)) by lia. Qed.

Lemma overdue_insert (now : Z) (x : node) (l : list node) :
  now < Mm.key x -> overdue now (Mm.insert_node l x) = overdue now l.
Proof.
  intros Hx. unfold overdue. induction l as [|m l IH]; cbn [Mm.insert_node].
  - rewrite filter_cons, decide_False; [done|]. lia.
  - destruct (kltb _ _); rewrite !filter_cons; [by rewrite (decide_False (P := Mm.key x <= now)) by lia|].
    by rewrite IH.
Qed.

Lemma adding_keeps now p p' n l :
  adding now p p' -> ok p -> Mm.items (timers p) = n :: l -> Mm.key n <= now ->
  ok p' /\ exists l', Mm.items (timers p') = n :: l' /\ overdue now l' = overdue now l.
Proof.
  intros [t i s j Hl E] Hw Hi Hn. split; [by eapply ok_add|]. injection E as <-.
  cbn [timers Mm.items Mm.insert]. rewrite Hi, (insert_behind now) by done. eexists. split; [done|].
  by apply overdue_insert.
Qed.

Lemma pollerbase_polite_keeps now p p' n l :
  polite now (Mm.val n) p p' -> ok p -> Mm.items (timers p) = n :: l -> Mm.key n <= now ->
  ok p'
  /\ exists l', Mm.items (timers p') = n :: l' /\ (length (overdue now l') <= length (overdue now l))%nat.
Proof.
  intros [t i s j Hl E|s j Hne E] Hw Hi Hn.
  - destruct (adding_keeps now p p' n l) as (? & l' & ? & Ho); [by econstructor|done..|].
    split; [done|]. exists l'. by rewrite Ho.
  - unfold cancel_timer in E. destruct (Mm.find_if _ _) as [it|] eqn:Ef; [|done].
    destruct (Mm.find_if_some _ _ _ Ef) as (l1 & m & l2 & Hi1 & Hm & Hit). rewrite Hit in E.
    rewrite (Mm.erase_at _ l1 m l2 (ok_wf _ Hw) Hi1) in E. injection E as <-. cbn [timers Mm.items].
    split; [by apply (ok_erase p l1 m l2)|]. rewrite Hi in Hi1. destruct l1 as [|n' l1].
    { injection Hi1 as <- <-. destruct Hne. unfold is_timer in Hm. apply andb_prop in Hm as [Hm1 Hm2].
      apply bool_decide_eq_true in Hm1. apply Z.eqb_eq in Hm2. by destruct (Mm.val n); simpl in *; subst. }
    injection Hi1 as <- ->. exists (l1 ++ l2). split; [done|]. unfold overdue. rewrite !filter_app, filter_cons.
    destruct (decide _); rewrite !length_app; simpl; lia.
Qed.

Lemma keeps_all (R : poller_base_t -> poller_base_t -> Prop) (Q : list node -> list node -> Prop) n now :
  PreOrder Q ->
  (forall p p' l, R p p' -> ok p -> Mm.items (timers p) = n :: l -> Mm.key n <= now ->
    ok p' /\ exists l', Mm.items (timers p') = n :: l' /\ Q l' l) ->
  forall p p' l, rtc R p p' -> ok p -> Mm.items (timers p) = n :: l -> Mm.key n <= now ->
  ok p' /\ exists l', Mm.items (timers p') = n :: l' /\ Q l' l.
Proof.
  intros HQ Hone p p' l Hr. revert l. induction Hr as [p|p p1 p2 Hp Hr IH]; intros l Hw Hi Hn.
  { split; [done|]. exists l. by split. }
  destruct (Hone p p1 l Hp Hw Hi Hn) as (Hw1 & l1 & Hi1 & Ho1).
  destruct (IH l1 Hw1 Hi1 Hn) as (Hw2 & l2 & Hi2 & Ho2). split; [done|]. exists l2. split; [done|]. by transitivity l1.
Qed.

(** ** The turns of the loop *)
Lemma turn timer_event fuel now v n l v' l' :
  ok (poller v) -> Mm.items (timers (poller v)) = n :: l -> Mm.key n <= now ->
  timer_event (sink (Mm.val n)) (id (Mm.val n)) v = Done (v', tt) ->
  ok (poller v') -> Mm.items (timers (poller v')) = n :: l' ->
  let p := PollerBaseT (Mm.Mmap l' (Mm.fresh_id (timers (poller v')))) (load (poller v')) in
  execute_from timer_event (S fuel) now (Mm.first_of (n :: l)) v
  = execute_from timer_event fuel now (Mm.first_of l') (Sys p (world v'))
  /\ ok p.
Proof.
  intros Hw Hi Hn Ht Hw' Hi' p. split; [|by apply (ok_erase (poller v') [] n l')].
  pose proof (Mm.get_at (timers (poller v)) [] n l (ok_wf _ Hw) Hi) as Hg. simpl in Hg.
  simpl execute_from. unfold sbind, sget, slift, smod. simpl. rewrite Hg. simpl.
  rewrite (proj2 (Z.ltb_ge _ _) Hn), Ht. simpl. change (Mm.first_of (n :: l)) with (Mm.first_of (n :: l')).
  rewrite (Mm.next_at (timers (poller v')) [] n l' (ok_wf _ Hw') Hi'). simpl.
  rewrite (Mm.erase_at (timers (poller v')) [] n l' (ok_wf _ Hw') Hi'). done.
Qed.

Lemma stops timer_event fuel now v n l :
  ok (poller v) -> Mm.items (timers (poller v)) = n :: l -> now < Mm.key n ->
  execute_from timer_event (S fuel) now (Mm.first_of (n :: l)) v = Done (v, Some (u64 (Mm.key n - now)))
  /\ all_later now (poller v) /\ (0 <= now -> until_next now (poller v) (u64 (Mm.key n - now))).
Proof.
  intros Hw Hi Hn. split; [|split].
  - pose proof (Mm.get_at (timers (poller v)) [] n l (ok_wf _ Hw) Hi) as Hg. simpl in Hg.
    simpl execute_from. unfold sbind, sget, slift. simpl. rewrite Hg. simpl.
    by rewrite (proj2 (Z.ltb_lt _ _) Hn).
  - pose proof (Mm.wf_sorted _ (ok_wf _ Hw)) as Hs. unfold all_later. rewrite Hi in *. inversion Hs as [|? ? _ Hf]; subst.
    constructor; [done|]. rewrite Forall_map in Hf. eapply Forall_impl; [exact Hf|]. simpl.
    intros m Hm%kle_cases. simpl in Hm. lia.
  - intros Hnow. unfold until_next. rewrite Hi. pose proof (ok_times _ Hw) as Ht. rewrite Hi in Ht.
    apply Forall_inv in Ht. rewrite u64_small by lia. lia.
Qed.

Lemma loop_returns timer_event now :
  0 <= now ->
  (forall (n : node) v, ok (poller v) -> exists v', timer_event (sink (Mm.val n)) (id (Mm.val n)) v = Done (v', tt)
    /\ rtc (polite now (Mm.val n)) (poller v) (poller v')) ->
  forall d v l, ok (poller v) -> Mm.items (timers (poller v)) = l -> (length (overdue now l) <= d)%nat ->
  exists fuel v' r, execute_from timer_event fuel now (Mm.first_of l) v = Done (v', Some r)
    /\ ok (poller v') /\ all_later now (poller v') /\ until_next now (poller v') r.
Proof.
  intros Hnow Hev. induction d as [|d IH]; intros v l Hw Hi Hd; destruct l as [|n l].
  1,3: exists O, v, 0; unfold all_later, until_next; rewrite Hi; by split_and!.
  all: destruct (decide (Mm.key n <= now)) as [Hn|Hn];
    [|destruct (stops timer_event 0 now v n l Hw Hi) as (E & Ha & Hu); [lia|]; exists 1%nat, v, (u64 (Mm.key n - now)); auto].
  { unfold overdue in Hd. rewrite filter_cons, decide_True in Hd by done. simpl in Hd. lia. }
  destruct (Hev n v Hw) as (v1 & Et & Hr).
  destruct (keeps_all (polite now (Mm.val n)) (fun l' l => (length (overdue now l') <= length (overdue now l))%nat) n now)
    with (p := poller v) (p' := poller v1) (l := l) as (Hw1 & l1 & Hi1 & Ho); try done.
  { split; [intros x; lia|intros x y z; lia]. }
  { intros p p' l0 Hp. by apply pollerbase_polite_keeps. }
  pose proof (fun f => turn timer_event f now v n l v1 l1 Hw Hi Hn Et Hw1 Hi1) as Hturn.
  destruct (IH (Sys (PollerBaseT (Mm.Mmap l1 (Mm.fresh_id (timers (poller v1)))) (load (poller v1))) (world v1)) l1)
    as (f & v' & r & E & ?); [apply (Hturn O)|done| |].
  { unfold overdue in Hd at 1. rewrite filter_cons, decide_True in Hd by done. simpl in Hd.
    fold (overdue now l) in Hd. lia. }
  exists (S f), v', r. rewrite (proj1 (Hturn f)). done.
Qed.

(** [execute_timers] returns when the events add timers that are not due yet and cancel timers other
    than the one that runs: nothing is due any more, and the result is the time to the first of the timers
    that are left, or 0 when there are none. *)
Theorem execute_timers_returns timer_event now v :
  0 <= now ->
  (forall (n : node) v, ok (poller v) -> exists v', timer_event (sink (Mm.val n)) (id (Mm.val n)) v = Done (v', tt)
    /\ rtc (polite now (Mm.val n)) (poller v) (poller v')) ->
  ok (poller v) ->
  exists fuel v' r, execute_timers timer_event fuel now v = Done (v', Some r)
    /\ ok (poller v') /\ all_later now (poller v') /\ until_next now (poller v') r.
Proof.
  intros Hnow Hev Hw. unfold execute_timers. case_bool_decide as Hi.
  - exists O, v, 0. unfold all_later, until_next. rewrite Hi. by split_and!.
  - by apply (loop_returns timer_event now Hnow Hev (length (overdue now (Mm.items (timers (poller v)))))).
Qed.

(** ** Which events run *)

Definition call_due (effect : P -> Z -> W -> W) (l : list node) (w : W) : W :=
  foldl (fun w n => effect (sink (Mm.val n)) (id (Mm.val n)) w) w l.

(** Events that only add timers, and change the rest of the thread as [effect] says. *)
Definition adds_only (timer_event : P -> Z -> stm sys unit) (effect : P -> Z -> W -> W) (now : Z) : Prop :=
  forall s i v, exists p, timer_event s i v = Done (Sys p (effect s i (world v)), tt) /\ rtc (adding now) (poller v) p.

Lemma loop_fires timer_event effect now :
  adds_only timer_event effect now ->
  forall fuel v l, ok (poller v) -> Mm.items (timers (poller v)) = l -> (length (overdue now l) < fuel)%nat ->
  exists v' r, execute_from timer_event fuel now (Mm.first_of l) v = Done (v', Some r)
    /\ world v' = call_due effect (overdue now l) (world v).
Proof.
  intros Hev. induction fuel as [|fuel IH]; intros v l Hw Hi Hf; [lia|].
  destruct l as [|n l]; [by exists v, 0|]. destruct (decide (Mm.key n <= now)) as [Hn|Hn].
  - destruct (Hev (sink (Mm.val n)) (id (Mm.val n)) v) as (p & Et & Hr).
    destruct (keeps_all (adding now) (fun l' l => overdue now l' = overdue now l) n now)
      with (p := poller v) (p' := p) (l := l) as (Hw1 & l1 & Hi1 & Ho); try done.
    { split; [done|]. intros x y z -> ->. done. }
    { intros p1 p2 l0. apply adding_keeps. }
    destruct (turn timer_event fuel now v n l _ l1 Hw Hi Hn Et Hw1 Hi1) as [E Hok]. cbn [poller world] in E, Hok.
    unfold overdue in Hf |- *. rewrite filter_cons, decide_True in Hf |- * by done. simpl in Hf.
    fold (overdue now l) in Hf |- *. 
    destruct (IH (Sys _ (effect (sink (Mm.val n)) (id (Mm.val n)) (world v))) l1 Hok) as (v' & r & E' & Hv'); [done|rewrite Ho; lia|].
    exists v', r. rewrite E, E'. split; [done|]. rewrite Hv', Ho. done.
  - destruct (stops timer_event fuel now v n l Hw Hi) as (E & Ha & _); [lia|].
    exists v, (u64 (Mm.key n - now)). split; [done|]. unfold all_later in Ha. rewrite Hi in Ha.
    assert (overdue now (n :: l) = []) as ->; [|done].
    clear -Ha. induction Ha as [|m k Hm _ IH]; [done|]. unfold overdue. rewrite filter_cons, decide_False by lia. apply IH.
Qed.

(** Every timer that is due fires, once and in the order of the times, and no other does. *)
Theorem execute_timers_fires timer_event effect now fuel v :
  adds_only timer_event effect now -> ok (poller v) ->
  (length (Mm.items (timers (poller v))) < fuel)%nat ->
  exists v' r, execute_timers timer_event fuel now v = Done (v', Some r)
    /\ world v' = call_due effect (overdue now (Mm.items (timers (poller v)))) (world v).
Proof.
  intros Hev Hw Hf. unfold execute_timers. case_bool_decide as Hi.
  - exists v, 0. by rewrite Hi.
  - apply loop_fires; [done..|]. pose proof (length_filter (fun n : node => Mm.key n <= now) (Mm.items (timers (poller v)))).
    unfold overdue. lia.
Qed.

(** An event that cancels its own timer, which the loop has not removed yet, leaves the loop with an
    iterator to an erased element. *)
Theorem own_cancel_crashes timer_event now fuel v n l :
  ok (poller v) -> Mm.items (timers (poller v)) = n :: l -> Mm.key n <= now ->
  (forall s i v, timer_event s i v
    = let* (p, _) := cancel_timer s i (poller v) in Done (Sys p (world v), tt)) ->
  execute_timers timer_event (S fuel) now v = Crash.
Proof.
  intros Hw Hi Hn Hev. unfold execute_timers. rewrite Hi. rewrite bool_decide_eq_false_2 by done.
  unfold Mm.begin. rewrite Hi. pose proof (Mm.get_at (timers (poller v)) [] n l (ok_wf _ Hw) Hi) as Hg. simpl in Hg.
  simpl execute_from. unfold sbind, sget, slift, smod. simpl. rewrite Hg. simpl.
  rewrite (proj2 (Z.ltb_ge _ _) Hn), Hev. unfold cancel_timer, Mm.find_if. rewrite Hi. simpl.
  unfold is_timer at 1. rewrite bool_decide_eq_true_2, Z.eqb_refl by done. simpl.
  change (Some (Mm.nid n)) with (Mm.first_of (n :: l)). rewrite (Mm.erase_at _ [] n l (ok_wf _ Hw) Hi). simpl.
  change (Mm.first_of (n :: l)) with (Some (Mm.nid n)). rewrite Mm.next_absent; [done|]. simpl.
  pose proof (Mm.wf_ids _ (ok_wf _ Hw)) as Hd. rewrite Hi in Hd. by apply NoDup_cons in Hd as [Hd _].
Qed.

(** The load is a count, as long as it is one: from 0 to 2^31 - 1. *)
Lemma adjust_load_counts p amount_ :
  0 <= load p < 2 ^ 31 -> 0 <= load p + amount_ < 2 ^ 31 ->
  load (adjust_load amount_ p) = load p + amount_ /\ get_load (adjust_load amount_ p) = load p + amount_.
Proof.
  intros Hp Ha. unfold get_load, adjust_load.
  destruct (Z.ltb_spec 0 amount_); simpl; [rewrite u32_small by lia; rewrite i32_small; lia|].
  destruct (Z.ltb_spec amount_ 0); simpl; [rewrite u32_small by lia; rewrite i32_small; lia|].
  rewrite i32_small; lia.
Qed.
End PollerBase.

Arguments poller_base_t : clear implicits.
Arguments sys : clear implicits.

(** *** Runs *)

Abbreviation lab_sys := (sys nat (list (nat * Z))).

(** Sink 7 asks for timer 1 again after ten milliseconds; the others do nothing. *)
Definition lab_effect (s : nat) (i : Z) (w : list (nat * Z)) : list (nat * Z) := w ++ [(s, i)].
Definition lab_event (s : nat) (i : Z) : stm lab_sys unit := fun v =>
  let p := if decide (s = 7%nat) then PollerBaseT (Mm.insert (timers (poller v)) (u64 (100 + 10)) (TimerInfo 7%nat 1)) (load (poller v))
           else poller v in
  Done (Sys p (lab_effect s i (world v)), tt).

Definition lab_poller : poller_base_t nat :=
  PollerBaseT (Mm.insert (Mm.insert (Mm.insert Mm.empty 90 (TimerInfo 7%nat 1)) 300 (TimerInfo 8%nat 1)) 50 (TimerInfo 9%nat 2)) 2.

Lemma lab_poller_ok : ok lab_poller.
Proof.
  split; [repeat apply Mm.wf_insert; apply Mm.wf_empty|]. apply (bool_decide_unpack _). vm_compute. exact I.
Qed.

Lemma lab_event_adds : adds_only lab_event lab_effect 100.
Proof.
  intros s i v. unfold lab_event. eexists. split; [reflexivity|]. destruct (decide (s = 7%nat)); [|apply rtc_refl].
  apply rtc_once. by apply (adding_timer 100 _ _ 100 10 7%nat 1).
Qed.

Lemma execute_timers_fires_witness :
  call_due lab_effect (overdue 100 (Mm.items (timers lab_poller))) [] = [(9%nat, 2); (7%nat, 1)] /\
  exists v' r, execute_timers lab_event 9 100 (Sys lab_poller []) = Done (v', Some r)
    /\ world v' = call_due lab_effect (overdue 100 (Mm.items (timers lab_poller))) [].
Proof.
  split; [vm_compute; reflexivity|].
  exact (execute_timers_fires lab_event lab_effect 100 9 (Sys lab_poller []) lab_event_adds lab_poller_ok
           ltac:(vm_compute; lia)).
Defined.

Lemma lab_event_polite (n : Mm.node Z (timer_info_t (P := nat))) (v : lab_sys) :
  ok (poller v) -> exists v', lab_event (sink (Mm.val n)) (id (Mm.val n)) v = Done (v', tt)
    /\ rtc (polite 100 (Mm.val n)) (poller v) (poller v').
Proof.
  intros _. unfold lab_event. eexists. split; [reflexivity|]. cbn [poller].
  destruct (decide _); [|apply rtc_refl]. apply rtc_once. by apply (polite_add 100 _ _ _ 100 10 7%nat 1).
Qed.

Lemma execute_timers_returns_witness :
  omap_out (fun x => snd x) (execute_timers lab_event 9 100 (Sys lab_poller [])) = Done (Some 10) /\
  exists fuel v' r, execute_timers lab_event fuel 100 (Sys lab_poller []) = Done (v', Some r)
    /\ ok (poller v') /\ all_later 100 (poller v') /\ until_next 100 (poller v') r.
Proof.
  split; [vm_compute; reflexivity|].
  exact (execute_timers_returns lab_event 100 (Sys lab_poller []) ltac:(lia) lab_event_polite lab_poller_ok).
Defined.

Definition lab_cancel (s : nat) (i : Z) : stm lab_sys unit := fun v =>
  let* (p, _) := cancel_timer s i (poller v) in Done (Sys p (world v), tt).

Lemma own_cancel_crashes_witness :
  map Mm.key (Mm.items (timers lab_poller)) = [50; 90; 300]
  /\ execute_timers lab_cancel 5 100 (Sys lab_poller []) = Crash.
Proof.
  split; [vm_compute; reflexivity|].
  refine (own_cancel_crashes lab_cancel 100 4 (Sys lab_poller []) (Mm.Node 2 50 (TimerInfo 9%nat 2))
            [Mm.Node 0 90 (TimerInfo 7%nat 1); Mm.Node 1 300 (TimerInfo 8%nat 1)] lab_poller_ok _ _ _).
  - vm_compute; reflexivity.
  - vm_compute; done.
  - intros s i v. reflexivity.
Defined.
End PollerBase.
