(* ===== verification/Runtime.v ===== *)
(** * ClientCenter.cpp, EventTarget.cpp, MThread.cpp: the objects of a process

    The process-wide state is the set of live [EventClient] objects, which
    object a pointer denotes ([nat], the order of creation), and the client pool
    of [ClientCenter] that maps a thread to its client.  Using or deleting a
    client that is no longer live is undefined ([Crash]).  The pool's operations
    hold [_mutex] from their first access to their last, so each is one step. *)

From S2P Require Import Prelude Mzmq Multimap EventClient.

Module Runtime.
Section Runtime.
Context {Sk : Type} `{Socket Sk}.
Context {T : Type} `{EqDecision T}.
(** The sockets [zmq_socket] creates, connected. *)
Context (new_sub new_pub : Sk).

Abbreviation client := (EventClient.client Sk T).
Abbreviation thread_id := nat.

Record world : Type := World {
  heap : gmap nat client;
  next_client : nat;
  client_pool : gmap thread_id nat
}.

Definition world0 : world := World empty 0 empty.

(** ** ClientCenter *)

Definition register_client (id : thread_id) (c : nat) : stm world bool :=
  fun w =>
    match client_pool w !! id with
    | Some _ => Done (w, false)
    | None => Done (World (heap w) (next_client w) (<[id := c]> (client_pool w)), true)
    end.

Definition find_client (id : thread_id) : stm world (option nat) :=
  fun w => Done (w, client_pool w !! id).

(** [delete client] *)
Definition delete_client (c : nat) : stm world unit :=
  fun w =>
    match heap w !! c with
    | Some _ => Done (World (delete c (heap w)) (next_client w) (client_pool w), tt)
    | None => Crash
    end.

Fixpoint delete_all (cs : list nat) : stm world unit :=
  match cs with
  | [] => sret tt
  | c :: cs => delete_client c ;;; delete_all cs
  end.

(** [~ClientCenter] *)
Definition delete_center : stm world unit :=
  fun w => delete_all (map snd (map_to_list (client_pool w))) w.

(** [new EventClient ()] on thread [id]; a failed registration is only logged. *)
Definition new_client (id : thread_id) : stm world nat :=
  fun w =>
    let c := next_client w in
    let w := World (<[c := EventClient.connected new_sub new_pub]> (heap w)) (S c)
                   (client_pool w) in
    (let! _ := register_client id c in sret c) w.

(** ** EventTarget *)

(** An [EventTarget] is its [_client] pointer. *)
Definition new_target (id : thread_id) : stm world (option nat) := find_client id.

(** A method call through a client pointer. *)
Definition on_client {A} (p : option nat) (m : stm client A) : stm world A :=
  fun w =>
    let* c := deref p in
    let* cl := deref (heap w !! c) in
    let* (cl, a) := m cl in
    Done (World (<[c := cl]> (heap w)) (next_client w) (client_pool w), a).

Definition subscribe (target_client : option nat) (type : list Z) (object : T)
  : stm world bool :=
  if bool_decide (target_client = None) then sret false
  else on_client target_client (EventClient.register_observer type object).

Definition unsubscribe (target_client : option nat) (type : list Z) (object : T)
  : stm world bool :=
  if bool_decide (target_client = None) then sret false
  else on_client target_client (EventClient.unregister_observer type object).

(** No test of [_client] here; the [int] results are never set. *)
Definition publish_event (target_client : option nat) (type content : list Z) : stm world unit :=
  on_client target_client (EventClient.publish_event type content).

Definition publish_loc_event (event_handle : T -> list Z -> list Z -> stm client unit)
  (fuel : nat) (target_client : option nat) (type content : list Z) : stm world bool :=
  on_client target_client (EventClient.publish_loc_event event_handle fuel type content).

(** ** std::thread *)

(** A [std::thread] object: the thread it represents, if any. *)
Definition std_thread : Type := option thread_id.
Definition detach (t : std_thread) : std_thread := None.
Definition get_id (t : std_thread) : option thread_id := t.

(** ** MThread *)

Record mthread : Type := MThread {
  target_client : option nat;      (* EventTarget::_client *)
  thread_client : option nat;
  is_run : bool;
  is_exit : bool;
  self_thread : option std_thread;
  this_id : option thread_id       (* [None]: the id of no thread *)
}.

Definition new_mthread (creator : thread_id) : stm world mthread :=
  let! p := new_target creator in sret (MThread p None false false None None).

Definition task_begin (m : mthread) : mthread :=
  MThread (target_client m) (thread_client m) true (is_exit m) (self_thread m) (this_id m).
Definition task_stop (m : mthread) : mthread :=
  MThread (target_client m) (thread_client m) false (is_exit m) (self_thread m) (this_id m).
Definition task_exit (m : mthread) : mthread :=
  MThread (target_client m) (thread_client m) (is_run m) true (self_thread m) (this_id m).

(** [init]: the operating system gives the new thread [id]. *)
Definition init (id : thread_id) (m : mthread) : mthread :=
  let t := detach (Some id) in
  MThread (target_client m) (thread_client m) (is_run m) (is_exit m) (Some t) (get_id t).

(** The start of [_thread_run], on the new thread, up to [setup_thread ()]. *)
Definition thread_start (id : thread_id) (m : mthread) : stm world mthread :=
  let! c := new_client id in
  sret (MThread (Some c) (Some c) (is_run m) (is_exit m) (self_thread m) (this_id m)).

(** [~MThread]: deleting a null pointer does nothing. *)
Definition delete_mthread (m : mthread) : stm world unit :=
  match thread_client m with
  | Some c => delete_client c
  | None => sret tt
  end.

Definition handle_message (event_handle : T -> list Z -> list Z -> stm client unit)
  (fuel : nat) (m : mthread) : stm world bool :=
  match thread_client m with
  | None => sret true
  | Some c => on_client (Some c) (EventClient.handle_event event_handle fuel)
  end.

(** ** The loop of [_thread_run]

    The loop runs on the object's own thread while other threads set [_is_run] and
    [_is_exit]: a schedule lists whose step comes next. *)

Inductive loop_pc : Type := AtTest | AtHandle | AtRunTest | Returned.

Inductive action : Type := HandleEvent | Sleep | ThreadRun.

Inductive turn : Type := Own | Begin | Stop | Exit.

#[global] Instance action_eq_dec : EqDecision action.
Proof. solve_decision. Defined.
#[global] Instance turn_eq_dec : EqDecision turn.
Proof. solve_decision. Defined.

Definition own_step (m : mthread) (p : loop_pc) : loop_pc * list action :=
  match p with
  | AtTest => (if is_exit m then Returned else AtHandle, [])
  | AtHandle => (AtRunTest, [HandleEvent])
  | AtRunTest => (AtTest, if negb (is_run m) then [Sleep] else [ThreadRun])
  | Returned => (Returned, [])
  end.

Fixpoint thread_loop (sched : list turn) (m : mthread) (p : loop_pc)
  : mthread * loop_pc * list action :=
  match sched with
  | [] => (m, p, [])
  | Own :: sched =>
    let (p, a) := own_step m p in
    let '(m, p, l) := thread_loop sched m p in (m, p, a ++ l)
  | Begin :: sched => thread_loop sched (task_begin m) p
  | Stop :: sched => thread_loop sched (task_stop m) p
  | Exit :: sched => thread_loop sched (task_exit m) p
  end.

(** Events are handled once per iteration, before its work: [b] tells whether the
    next action must be the iteration's work. *)
Fixpoint alternates (b : bool) (l : list action) : Prop :=
  match l with
  | [] => True
  | HandleEvent :: l => b = false /\ alternates true l
  | _ :: l => b = true /\ alternates false l
  end.

Definition expects (p : loop_pc) : bool := match p with AtRunTest => true | _ => false end.

Lemma thread_loop_alternates sched m p :
  alternates (expects p) (thread_loop sched m p).2.
Proof.
  revert m p. induction sched as [|[| | |] sched IH]; intros m p; simpl; [done| |apply IH..].
  destruct (own_step m p) as [p1 a] eqn:Ep.
  specialize (IH m p1). destruct (thread_loop sched m p1) as [[m2 p2] l]. simpl in *.
  destruct p; simpl in Ep; injection Ep as <- <-; simpl; auto.
  - by destruct (is_exit m).
  - by destruct (negb (is_run m)).
Qed.

Definition owns (sched : list turn) : nat :=
  length (filter (fun t => t = Own) sched).
Definition runs (l : list action) : nat :=
  length (filter (fun a => a = ThreadRun) l).

(** The own steps left once [_is_exit] is set, and the calls of [thread_run] among
    them. *)
Definition steps_left (p : loop_pc) : nat :=
  match p with AtHandle => 3 | AtRunTest => 2 | AtTest => 1 | Returned => 0 end.
Definition runs_left (p : loop_pc) : nat :=
  match p with AtHandle | AtRunTest => 1 | _ => 0 end.

Lemma thread_loop_exit sched m p :
  is_exit m = true ->
  let '(m', p', l) := thread_loop sched m p in
  is_exit m' = true /\ (steps_left p' <= steps_left p - owns sched)%nat
  /\ (runs l <= runs_left p)%nat.
Proof.
  revert m p. unfold owns. induction sched as [|[| | |] sched IH]; intros m p Hx; simpl;
    rewrite ?filter_cons; simpl; [unfold runs; simpl; split_and!; (done || lia)| |by apply IH..].
  destruct (own_step m p) as [p1 a] eqn:Ep.
  specialize (IH m p1 Hx). destruct (thread_loop sched m p1) as [[m2 p2] l]. simpl in *.
  destruct IH as (? & Hs & Hr). unfold runs in *. rewrite filter_app, length_app.
  destruct p; simpl in Ep; rewrite ?Hx in Ep; injection Ep as <- <-; simpl in *;
    split_and!; try done; try lia; destruct (negb (is_run m)); simpl; rewrite ?filter_cons; simpl; lia.
Qed.

(** C30: however the thread's loop is interleaved with the other threads, after
    [task_exit] the loop runs at most one more iteration and then returns; event
    handling and task running alternate until then. *)
Theorem task_exit_stops before after m :
  (3 <= owns after)%nat ->
  let '(m1, p1, _) := thread_loop before m AtTest in
  let '(_, p2, l) := thread_loop after (task_exit m1) p1 in
  alternates (expects p1) l /\ p2 = Returned /\ (runs l <= 1)%nat.
Proof.
  intros Ho. destruct (thread_loop before m AtTest) as [[m1 p1] l1].
  pose proof (thread_loop_alternates after (task_exit m1) p1) as Ha.
  pose proof (thread_loop_exit after (task_exit m1) p1 eq_refl) as Hx.
  destruct (thread_loop after (task_exit m1) p1) as [[m2 p2] l]. simpl in Ha.
  destruct Hx as (_ & Hs & Hr). split_and!; [done| |destruct p1; simpl in *; lia].
  destruct p2, p1; simpl in Hs; (done || lia).
Qed.

(** ** Threads and clients *)

(** [this_id] is read after [detach]: it never identifies the new thread. *)
Lemma init_this_id id m : this_id (init id m) = None /\ self_thread (init id m) = Some None.
Proof. done. Qed.

Fixpoint new_clients (ids : list thread_id) : stm world unit :=
  match ids with
  | [] => sret tt
  | id :: ids => new_client id ;;; new_clients ids
  end.

Lemma new_client_spec id w :
  new_client id w = Done
    (World (<[next_client w := EventClient.connected new_sub new_pub]> (heap w))
           (S (next_client w))
           (if client_pool w !! id is Some _ then client_pool w
            else <[id := next_client w]> (client_pool w)), next_client w).
Proof.
  unfold new_client, sbind, register_client; simpl. by destruct (client_pool w !! id).
Qed.

(** The pool keeps the first client a thread creates. *)
Lemma new_clients_pool ids w :
  exists w', new_clients ids w = Done (w', tt) /\
    forall id, client_pool w' !! id =
      match client_pool w !! id with
      | Some c => Some c
      | None => (fun p => next_client w + p.1)%nat <$> list_find (eq id) ids
      end.
Proof.
  revert w. induction ids as [|x ids IH]; intros w; simpl.
  { exists w. split; [done|]. intros id. by destruct (client_pool w !! id). }
  rewrite (sbind_done _ _ _ _ _ (new_client_spec x w)).
  destruct (IH (World (<[next_client w := EventClient.connected new_sub new_pub]> (heap w))
           (S (next_client w))
           (if client_pool w !! x is Some _ then client_pool w
            else <[x := next_client w]> (client_pool w)))) as (w' & -> & Hw').
  exists w'. split; [done|]. intros id. rewrite Hw'; simpl. clear IH Hw'.
  destruct (decide (id = x)) as [->|Hne].
  - destruct (client_pool w !! x) as [c|] eqn:Ex; [by rewrite Ex|].
    rewrite lookup_insert_eq. simpl. f_equal. lia.
  - destruct (client_pool w !! x) as [c|] eqn:Ex; rewrite ?lookup_insert_ne by done;
      (destruct (client_pool w !! id); [done|]);
      destruct (list_find (eq id) ids) as [[]|]; simpl; f_equal; lia.
Qed.

(** Clients created for a list of thread ids are found by the id, the first
    occurrence of the id deciding which. *)
Theorem find_client_first ids id :
  exists w, new_clients ids world0 = Done (w, tt)
    /\ find_client id w = Done (w, fst <$> list_find (eq id) ids).
Proof.
  destruct (new_clients_pool ids world0) as (w & E & Hp). exists w. split; [done|].
  unfold find_client. by rewrite Hp.
Qed.

(** ** The life of a thread's client *)
Lemma thread_start_spec id m w :
  client_pool w !! id = None ->
  exists w1, thread_start id m w
    = Done (w1, MThread (Some (next_client w)) (Some (next_client w)) (is_run m) (is_exit m)
                        (self_thread m) (this_id m))
    /\ client_pool w1 = <[id := next_client w]> (client_pool w)
    /\ heap w1 = <[next_client w := EventClient.connected new_sub new_pub]> (heap w)
    /\ next_client w1 = S (next_client w).
Proof.
  intros Hp. unfold thread_start. rewrite (sbind_done _ _ _ _ _ (new_client_spec id w)).
  rewrite Hp. by eexists.
Qed.

Lemma on_client_done {A} c cl cl' (a : A) m w :
  heap w !! c = Some cl -> m cl = Done (cl', a) ->
  on_client (Some c) m w = Done (World (<[c := cl']> (heap w)) (next_client w) (client_pool w), a).
Proof. intros E Em. unfold on_client; simpl. rewrite E; simpl. by rewrite Em. Qed.

(** C24: every thread that starts makes a client of its own, which its loop serves and its own
    subscriptions use.  An object constructed in the thread gets the client that was registered first under the
    thread's identifier.  When none was (nothing ever leaves the pool), that is the thread's client: subscribing
    with it adds the observer to that client, and the clients of other threads do not
    change.  When the identifier was used before, it is the client of then, not the one the
    thread serves (see [thread_id_reused]). *)
Theorem thread_objects_share_client id m w type o :
  exists w1 m1, thread_start id m w = Done (w1, m1)
    /\ thread_client m1 = Some (next_client w) /\ target_client m1 = thread_client m1
    /\ match client_pool w !! id with
       | Some c => new_target id w1 = Done (w1, Some c)
       | None => new_target id w1 = Done (w1, thread_client m1)
         /\ exists w2 b cl, subscribe (thread_client m1) type o w1 = Done (w2, b)
           /\ heap w2 = <[next_client w := cl]> (heap w)
           /\ EventClient.observers cl type = [o]
           /\ (forall t, t <> type -> EventClient.observers cl t = [])
       end.
Proof.
  unfold thread_start. rewrite (sbind_done _ _ _ _ _ (new_client_spec id w)).
  eexists _, _. split; [reflexivity|]. split_and!; [done..|]. unfold new_target, find_client. simpl.
  destruct (client_pool w !! id) as [c|] eqn:Hp; [by rewrite Hp|]. rewrite lookup_insert_eq. split; [done|].
  destruct (EventClient.register_spec (EventClient.connected new_sub new_pub) type o
              (EventClient.ok_connected _ _)) as (cl & b & Er & _ & Hobs & _).
  unfold subscribe. rewrite bool_decide_eq_false_2 by done.
  rewrite (on_client_done _ (EventClient.connected new_sub new_pub) cl b _ _ (lookup_insert_eq _ _ _) Er).
  eexists _, b, cl. split; [reflexivity|]. simpl. split_and!; [by rewrite insert_insert_eq| |].
  - rewrite Hobs. unfold EventClient.add_observer. by rewrite decide_True.
  - intros t Hne. rewrite Hobs. unfold EventClient.add_observer. by rewrite decide_False.
Qed.

(** An object constructed on a thread that has no client. *)
Lemma target_without_client id w :
  client_pool w !! id = None ->
  new_target id w = Done (w, None)
  /\ (forall type o, subscribe None type o w = Done (w, false))
  /\ forall type content, publish_event None type content w = Crash.
Proof. intros Hp. unfold new_target, find_client. by rewrite Hp. Qed.

Lemma delete_all_absent c cs w :
  c ∈ cs -> heap w !! c = None -> delete_all cs w = Crash.
Proof.
  revert w. induction cs as [|x cs IH]; intros w; [by intros ?%not_elem_of_nil|].
  intros [->|Hin]%elem_of_cons Hc; simpl; unfold sbind, delete_client.
  - by rewrite Hc.
  - destruct (heap w !! x) eqn:Ex; [|done]. simpl. apply IH; [done|]. simpl.
    destruct (decide (x = c)) as [->|]; [congruence|]. by rewrite lookup_delete_ne.
Qed.

(** [~MThread] deletes the client that the pool still holds: objects constructed in
    the thread afterwards get a dangling pointer, and [~ClientCenter] deletes the
    client a second time. *)

(** C29: after the thread object is deleted the pool still returns its client: an
    object constructed in that thread gets a pointer to a deleted client, subscribing
    with it is undefined, and so is the destruction of the pool, which deletes the
    client again. *)
Theorem thread_client_dangles id m w type o :
  client_pool w !! id = None ->
  exists w1 m1 w2, thread_start id m w = Done (w1, m1)
    /\ delete_mthread m1 w1 = Done (w2, tt)
    /\ new_target id w2 = Done (w2, thread_client m1)
    /\ subscribe (thread_client m1) type o w2 = Crash
    /\ delete_center w2 = Crash.
Proof.
  intros Hp. destruct (thread_start_spec id m w Hp) as (w1 & E & Hpool & Hheap & Hnext).
  exists w1. eexists. eexists. split; [exact E|].
  assert (Hat : heap w1 !! next_client w = Some (EventClient.connected new_sub new_pub)).
  { by rewrite Hheap, lookup_insert_eq. }
  unfold delete_mthread, delete_client; simpl. rewrite Hat. split; [reflexivity|].
  unfold new_target, find_client, subscribe, on_client; simpl.
  rewrite Hpool, lookup_insert_eq, lookup_delete_eq. split_and!; [done..|].
  unfold delete_center; simpl. apply (delete_all_absent (next_client w)).
  - apply list_elem_of_fmap. exists (id, next_client w). split; [done|].
    apply elem_of_map_to_list. by rewrite ?Hpool, lookup_insert_eq.
  - simpl. by rewrite ?lookup_delete_eq.
Qed.

(** A thread that gets the identifier of one that is over: objects constructed in it
    get a pointer to the deleted client of the first thread, not to the client that the thread serves. *)
Theorem thread_id_reused id m m' w type o :
  client_pool w !! id = None ->
  exists w1 m1 w2 w3 m3, thread_start id m w = Done (w1, m1)
    /\ delete_mthread m1 w1 = Done (w2, tt)
    /\ thread_start id m' w2 = Done (w3, m3)
    /\ new_target id w3 = Done (w3, thread_client m1) /\ thread_client m3 <> thread_client m1
    /\ subscribe (thread_client m1) type o w3 = Crash.
Proof.
  intros Hp. destruct (thread_start_spec id m w Hp) as (w1 & E & Hpool & Hheap & Hnext).
  exists w1. eexists. eexists. eexists. eexists. split; [exact E|].
  assert (Hat : heap w1 !! next_client w = Some (EventClient.connected new_sub new_pub)).
  { by rewrite Hheap, lookup_insert_eq. }
  unfold delete_mthread, delete_client; simpl. rewrite Hat. split; [reflexivity|].
  unfold thread_start. rewrite (sbind_done _ _ _ _ _ (new_client_spec id _)). split; [reflexivity|].
  unfold new_target, find_client, subscribe, on_client; simpl. rewrite Hpool, !lookup_insert_eq, Hnext.
  split; [done|]. split; [intros [= ?]; lia|].
  by rewrite lookup_insert_ne, lookup_delete_eq by lia.
Qed.
End Runtime.

(** ** Witnesses *)
Lemma task_exit_stops_witness :
  let m := MThread None None false false None None in
  let '(m1, p1, _) := thread_loop [Begin; Own; Own; Own; Own] m AtTest in
  let '(_, p2, l) := thread_loop [Own; Own; Stop; Own; Own] (task_exit m1) p1 in
  alternates (expects p1) l /\ p2 = Returned /\ (runs l <= 1)%nat.
Proof.
  apply (task_exit_stops [Begin; Own; Own; Own; Own] [Own; Own; Stop; Own; Own]
           (MThread None None false false None None)).
  vm_compute. repeat constructor.
Defined.

Abbreviation lworld := (@world Mzmq.loopback nat).

Lemma thread_objects_share_client_witness :
  exists (w1 : lworld) m1 w2 b cl,
    thread_start Mzmq.loopback0 Mzmq.loopback0 7 (MThread None None false false None None) world0 = Done (w1, m1)
    /\ new_target 7 w1 = Done (w1, thread_client m1)
    /\ subscribe (thread_client m1) [104] 3%nat w1 = Done (w2, b)
    /\ heap w2 = {[ 0%nat := cl ]} /\ EventClient.observers cl [104] = [3%nat].
Proof.
  destruct (thread_objects_share_client Mzmq.loopback0 Mzmq.loopback0 7 (MThread None None false false None None)
              (world0 : lworld) [104] 3%nat) as (w1 & m1 & E & _ & _ & En & w2 & b & cl & Es & Hh & Ho & _).
  by exists w1, m1, w2, b, cl.
Defined.

Lemma thread_id_reused_witness :
  exists (w1 : lworld) m1 w2 w3 m3,
    thread_start Mzmq.loopback0 Mzmq.loopback0 7 (MThread None None false false None None) world0 = Done (w1, m1)
    /\ delete_mthread m1 w1 = Done (w2, tt)
    /\ thread_start Mzmq.loopback0 Mzmq.loopback0 7 (MThread None None false false None None) w2 = Done (w3, m3)
    /\ new_target 7 w3 = Done (w3, thread_client m1) /\ thread_client m3 <> thread_client m1
    /\ subscribe (thread_client m1) [104] 3%nat w3 = Crash.
Proof. apply thread_id_reused; reflexivity. Defined.

Lemma thread_client_dangles_witness :
  exists (w1 : lworld) m1 w2,
    thread_start Mzmq.loopback0 Mzmq.loopback0 7 (MThread None None false false None None) world0
    = Done (w1, m1)
    /\ delete_mthread m1 w1 = Done (w2, tt)
    /\ new_target 7 w2 = Done (w2, thread_client m1)
    /\ subscribe (thread_client m1) [104] 3%nat w2 = Crash
    /\ delete_center w2 = Crash.
Proof. apply thread_client_dangles; reflexivity. Defined.

End Runtime.
