(* ===== verification/Singleton.v ===== *)
(** * Singleton.h: double-checked creation under a mutex

    [Singleton<T>::instance] is modelled at the grain of its accesses to the
    shared [_instance] and [_mutex]: any number of threads interleave, a step
    of a thread is one access.  Accesses are sequentially consistent, which is
    what the code assumes of the unprotected first test. *)

From S2P Require Import Prelude.

Module Singleton.

(** Where a thread is in [instance ()]. *)
Inductive pc : Type :=
| Test1                        (* if (_instance.get () == NULL) *)
| Lock                         (* _mutex.lock () *)
| Test2                        (* the second test *)
| Construct                    (* _instance.reset (new T) *)
| Unlock                       (* _mutex.unlock () *)
| Fetch                        (* object = _instance.get () *)
| Return (p : option nat).     (* return object *)

(** Instances are numbered in the order of their construction. *)
Record state : Type := State {
  instance : option nat;
  mutex : option nat;
  made : nat;
  pcs : gmap nat pc
}.

Definition goto (s : state) (t : nat) (p : pc) : state :=
  State (instance s) (mutex s) (made s) (<[t := p]> (pcs s)).

(** One step of thread [t]; [None] when it has returned or waits for the mutex. *)
Definition step (t : nat) (s : state) : option state :=
  match pcs s !! t with
  | Some Test1 => Some (goto s t (if instance s is Some _ then Fetch else Lock))
  | Some Lock =>
    match mutex s with
    | None => Some (goto (State (instance s) (Some t) (made s) (pcs s)) t Test2)
    | Some _ => None
    end
  | Some Test2 => Some (goto s t (if instance s is Some _ then Unlock else Construct))
  | Some Construct =>
    Some (goto (State (Some (made s)) (mutex s) (S (made s)) (pcs s)) t Unlock)
  | Some Unlock => Some (goto (State (instance s) None (made s) (pcs s)) t Fetch)
  | Some Fetch => Some (goto s t (Return (instance s)))
  | Some (Return _) | None => None
  end.

(** Threads [0 .. n-1] call [instance ()]. *)
Definition init (n : nat) : state :=
  State None None 0 (gset_to_gmap Test1 (set_seq 0 n)).

Inductive reachable (n : nat) : state -> Prop :=
| reach_init : reachable n (init n)
| reach_step s t s' : reachable n s -> step t s = Some s' -> reachable n s'.

(** A schedule, run as far as it goes: a blocked thread's turn is skipped. *)
Definition run (s : state) (ts : list nat) : state :=
  foldl (fun s t => default s (step t s)) s ts.

Definition holds_mutex (p : pc) : bool :=
  match p with Test2 | Construct | Unlock => true | _ => false end.

(** What the position of a thread says about the shared state. *)
Definition consistent (s : state) (p : pc) : Prop :=
  match p with
  | Construct => instance s = None
  | Unlock | Fetch => instance s = Some 0%nat
  | Return q => q = Some 0%nat /\ instance s = Some 0%nat
  | _ => True
  end.

Record inv (s : state) : Prop := {
  inv_made : (instance s = None /\ made s = 0%nat) \/ (instance s = Some 0%nat /\ made s = 1%nat);
  inv_mutex : forall t p, pcs s !! t = Some p -> holds_mutex p = true <-> mutex s = Some t;
  inv_owner : forall t, mutex s = Some t -> is_Some (pcs s !! t);
  inv_pc : forall t p, pcs s !! t = Some p -> consistent s p
}.

Lemma inv_init n : inv (init n).
Proof.
  split; simpl; [auto| |done|]; intros t p E; apply lookup_gset_to_gmap_Some in E as [_ <-]; done.
Qed.

(** A thread that holds the mutex is alone in its critical section. *)
Lemma critical s t t' p p' :
  inv s -> pcs s !! t = Some p -> pcs s !! t' = Some p' ->
  holds_mutex p = true -> holds_mutex p' = true -> t = t'.
Proof.
  intros Hi E E' H H'. apply (inv_mutex _ Hi _ _ E) in H. apply (inv_mutex _ Hi _ _ E') in H'.
  congruence.
Qed.

Lemma singleton_inv_step s t s' : inv s -> step t s = Some s' -> inv s'.
Proof.
  intros Hi. unfold step. destruct (pcs s !! t) as [p|] eqn:Et; [|done].
  pose proof (inv_mutex _ Hi _ _ Et) as Hm. pose proof (inv_pc _ Hi _ _ Et) as Hc.
  pose proof (inv_made _ Hi) as Hmade.
  assert (Hother : forall t' p', t' <> t -> holds_mutex p = true -> pcs s !! t' = Some p' ->
    holds_mutex p' = false).
  { intros t' p' Hne Hp Et'. destruct (holds_mutex p') eqn:Hp'; [|done].
    destruct Hne. by apply (critical s t' t p' p). }
  destruct p; simpl in *; intros E; try discriminate E;
    try (destruct (mutex s) as [o|] eqn:Eo; [discriminate E|]); injection E as <-;
    (split; simpl;
     [ try done; destruct Hmade as [[? Hz]|[? ?]]; simplify_eq; rewrite ?Hz; auto
     | intros t' p'; rewrite lookup_insert; destruct (decide (t = t')) as [<-|Hne];
       [intros E; injection E as <-; destruct (instance s); simpl; intuition congruence|];
       intros Et'; pose proof (inv_mutex _ Hi _ _ Et') as Hm'
     | intros t' Ht'; rewrite lookup_insert; destruct (decide (t = t')); [eauto|];
       try (apply (inv_owner _ Hi)); congruence
     | intros t' p'; rewrite lookup_insert; destruct (decide (t = t')) as [<-|Hne];
       [intros E; injection E as <-|intros Et'; pose proof (inv_pc _ Hi _ _ Et') as Hc'] ]).
  all: try done; try tauto; try congruence.
  all: try (destruct (instance s); simpl in *; intuition congruence).
  - by destruct Hmade as [[E0 ?]|[E0 ?]]; rewrite E0; simpl.
  - by destruct Hmade as [[E0 ?]|[E0 ?]]; rewrite E0; simpl.
  - specialize (Hother t' p' ltac:(congruence) eq_refl Et').
    destruct Hmade as [[_ Hz]|[E0 _]]; [|congruence].
    destruct p'; simpl in *; try done; rewrite ?Hz; try congruence. intuition congruence.
Qed.

Lemma inv_reachable n s : reachable n s -> inv s.
Proof. induction 1; [apply inv_init|by eapply singleton_inv_step]. Qed.

Lemma run_reachable n s ts : reachable n s -> reachable n (run s ts).
Proof.
  revert s. induction ts as [|t ts IH]; intros s Hr; simpl; [done|]. apply IH.
  destruct (step t s) eqn:E; simpl; [by econstructor|done].
Qed.

(** Whatever the interleaving, the object is constructed at most once, and every
    call that has returned has returned it. *)

(** C31: in every state reachable by any interleaving of any number of threads that
    call [getInstance], the object has been constructed at most once, and every call
    that has returned has returned it. *)
Theorem instance_unique n s :
  reachable n s ->
  (made s <= 1)%nat /\
  forall t p, pcs s !! t = Some (Return p) -> p = Some 0%nat /\ made s = 1%nat.
Proof.
  intros Hr. pose proof (inv_reachable n s Hr) as Hi.
  destruct (inv_made _ Hi) as [[E Em]|[E Em]]; rewrite Em; split; try lia;
    intros t p Et; destruct (inv_pc _ Hi _ _ Et) as [-> Ei]; [congruence|done].
Qed.

(** ** Every schedule ends *)

(** The steps a thread has left. *)
Definition rank (p : pc) : nat :=
  match p with
  | Test1 => 6 | Lock => 5 | Test2 => 4 | Construct => 3 | Unlock => 2 | Fetch => 1
  | Return _ => 0
  end.

Definition work (s : state) : nat := map_fold (fun _ p k => (rank p + k)%nat) 0%nat (pcs s).

Lemma work_goto s t p q :
  pcs s !! t = Some p ->
  (work s + rank q = work (goto s t q) + rank p)%nat.
Proof.
  intros E. unfold work; simpl.
  rewrite <- (insert_delete_eq (pcs s) t q).
  rewrite <- (insert_id (pcs s) t p E) at 1. rewrite <- (insert_delete_eq (pcs s) t p).
  assert (Hd : delete t (pcs s) !! t = None) by apply lookup_delete_eq.
  assert (Hf : forall r, map_fold (fun (_ : nat) p k => (rank p + k)%nat) 0%nat (<[t:=r]> (delete t (pcs s)))
          = (rank r + map_fold (fun (_ : nat) p k => (rank p + k)%nat) 0%nat (delete t (pcs s)))%nat).
  { intros r. rewrite (map_fold_insert_L (fun (_ : nat) p k => (rank p + k)%nat) 0%nat t r);
      [done|intros; lia|exact Hd]. }
  rewrite !Hf. lia.
Qed.

Lemma step_work s t s' : step t s = Some s' -> (work s' < work s)%nat.
Proof.
  unfold step. destruct (pcs s !! t) as [p|] eqn:Et; [|done].
  destruct p; simpl; intros E; try discriminate E;
    try (destruct (mutex s) eqn:Eo; [discriminate E|]); injection E as <-;
    match goal with |- (work (goto ?s0 t ?q) < _)%nat =>
      pose proof (work_goto s0 t _ q Et) as Hw; change (work s0) with (work s) in Hw end;
    simpl in Hw; try lia; destruct (instance s); simpl in Hw; lia.
Qed.

(** No thread waits for ever: while one has not returned, one can move. *)
Lemma progress n s :
  reachable n s -> (forall t p, pcs s !! t = Some p -> rank p = 0%nat) \/ exists t s', step t s = Some s'.
Proof.
  intros Hr. pose proof (inv_reachable n s Hr) as Hi.
  destruct (mutex s) as [o|] eqn:Eo.
  - right. destruct (inv_owner _ Hi o Eo) as [p Ep]. exists o. unfold step. rewrite Ep.
    apply (inv_mutex _ Hi _ _ Ep) in Eo. destruct p; try done; eauto.
  - destruct (decide (map_Forall (fun _ p => rank p = 0%nat) (pcs s))) as [Hall|Hn]; [by left|].
    right. apply map_not_Forall in Hn as (t & p & Ep & Hp); [|apply _].
    exists t. unfold step. rewrite Ep, Eo. destruct p; simpl in Hp; try done; eauto.
Qed.

Lemma threads_stay n s t : reachable n s -> (t < n)%nat -> is_Some (pcs s !! t).
Proof.
  intros Hr Ht. induction Hr as [|s t' s' _ IH E].
  - exists Test1. apply lookup_gset_to_gmap_Some. split; [|done]. apply elem_of_set_seq. lia.
  - unfold step in E. repeat case_match; simplify_eq; simpl; rewrite lookup_insert; by case_decide.
Qed.

Lemma drain n k s :
  (work s <= k)%nat -> reachable n s -> exists ts, (length ts <= k)%nat /\
    forall t p, pcs (run s ts) !! t = Some p -> rank p = 0%nat.
Proof.
  revert s. induction k as [|k IH]; intros s Hk Hr;
    (destruct (progress n s Hr) as [Hall|(t & s' & Hst)]; [exists []; split; [simpl; lia|done]|]);
    pose proof (step_work _ _ _ Hst) as Hw; [lia|].
  destruct (IH s') as (ts & Hl & Hts); [lia|by econstructor|].
  exists (t :: ts). simpl. rewrite Hst. split; [lia|done].
Qed.

(** From every reachable state the calls that are under way can all return, in as
    many steps as they have left, and they return the same object. *)

(** From every reachable state the calls under way can all return, in as many
    steps as they have left, and they return the same object. *)
Theorem instance_returns n s :
  reachable n s ->
  exists ts, (length ts <= work s)%nat /\
    forall t, (t < n)%nat -> pcs (run s ts) !! t = Some (Return (Some 0%nat)).
Proof.
  intros Hr. destruct (drain n (work s) s) as (ts & Hl & Hts); [lia|done|].
  exists ts. split; [done|]. intros t Ht.
  pose proof (run_reachable n s ts Hr) as Hr'.
  destruct (threads_stay n _ t Hr' Ht) as [p Ep]. specialize (Hts t p Ep).
  destruct p as [| | | | | |q]; try done.
  destruct (inv_pc _ (inv_reachable n _ Hr') _ _ Ep) as [-> _]. done.
Qed.

(** ** Witnesses *)

(** Two threads pass the first test before either constructs. *)
Definition race : list nat := [0; 1; 0; 1; 0; 0; 0; 1; 1; 1; 1; 0; 1]%nat.

Lemma instance_unique_witness :
  (made (run (init 2) race) <= 1)%nat /\
  forall t p, pcs (run (init 2) race) !! t = Some (Return p) ->
    p = Some 0%nat /\ made (run (init 2) race) = 1%nat.
Proof. apply (instance_unique 2), run_reachable, reach_init. Defined.

Lemma instance_returns_witness :
  exists ts, (length ts <= work (run (init 3) [0; 1; 0]%nat))%nat /\
    forall t, (t < 3)%nat ->
      pcs (run (run (init 3) [0; 1; 0]%nat) ts) !! t = Some (Return (Some 0%nat)).
Proof. apply (instance_returns 3), run_reachable, reach_init. Defined.

End Singleton.
