(* ===== verification/Radix.v ===== *)
(** * Radix: the node representation shared by the two subscription tries

    [trie_t] (trie.hpp) and [generic_mtrie_t] (generic_mtrie.hpp) are the same
    radix tree with a different payload: a node covers the characters
    [min .. min + count - 1]; with [count = 1] the child is [next.node], with
    [count > 1] the children are [next.table[0 .. count-1]].  This file holds
    the node, its union [next], the extension of a table to a new character
    (the same code in both classes), the well-formedness shape and the lemmas
    about children that both tries use. *)

From S2P Require Import Prelude.

Module Radix.

(** ** Counting the live slots of a table *)

Section nlive.
Context {A : Type}.
Implicit Types (l : list (option A)).

Fixpoint nlive (l : list (option A)) : nat :=
  match l with
  | [] => 0
  | Some _ :: l => S (nlive l)
  | None :: l => nlive l
  end%nat.

Lemma nlive_app l1 l2 : nlive (l1 ++ l2) = (nlive l1 + nlive l2)%nat.
Proof. induction l1 as [|[a|] l1 IH]; simpl; lia. Qed.

Lemma nlive_replicate k : nlive (replicate k (@None A)) = 0%nat.
Proof. induction k; simpl; auto. Qed.

Lemma nlive_insert l (i : nat) (o x : option A) :
  l !! i = Some o ->
  (nlive (<[i := x]> l) + (if o is Some _ then 1 else 0)
   = nlive l + (if x is Some _ then 1 else 0))%nat.
Proof.
  revert i; induction l as [|y l IH]; intros [|i] E; simplify_eq/=.
  - destruct o, x; simpl; lia.
  - specialize (IH _ E). destruct y; simpl; lia.
Qed.

Lemma nlive_le l : (nlive l <= length l)%nat.
Proof. induction l as [|[a|] l IH]; simpl; lia. Qed.

Lemma nlive_pos l (i : nat) (a : A) : l !! i = Some (Some a) -> (1 <= nlive l)%nat.
Proof. revert i; induction l as [|[x|] l IH]; intros [|i] E; simplify_eq/=; try lia; eauto. Qed.

Lemma nlive_two l (i j : nat) (a b : A) :
  i <> j -> l !! i = Some (Some a) -> l !! j = Some (Some b) -> (2 <= nlive l)%nat.
Proof.
  intros Hij Ei Ej. pose proof (nlive_insert l i _ None Ei) as H.
  assert (<[i:=None]> l !! j = Some (Some b)) as Ej' by by rewrite list_lookup_insert_ne.
  apply nlive_pos in Ej'. simpl in H. lia.
Qed.

Lemma nlive_none l : nlive l = 0%nat -> forall (i : nat) (o : option A), l !! i = Some o -> o = None.
Proof.
  intros H i [a|] E; [|done]. apply nlive_pos in E. lia.
Qed.

(** Exactly one live slot: every other slot is null. *)
Lemma nlive_one l (i : nat) (a : A) (j : nat) (o : option A) :
  nlive l = 1%nat -> l !! i = Some (Some a) -> l !! j = Some o -> j <> i -> o = None.
Proof.
  intros H Ei Ej Hij. destruct o; [|done].
  pose proof (nlive_two l i j _ _ ltac:(auto) Ei Ej). lia.
Qed.
End nlive.

(** ** Scanning a table for a non-null slot

    [for (i = lo; i < lo + n; ++i) if (get i) break;] *)
Fixpoint scan {A} (get : Z -> outcome (option A)) (i : Z) (n : nat) : outcome (option Z) :=
  match n with
  | O => Done None
  | S n' =>
      let* o := get i in
      match o with
      | Some _ => Done (Some i)
      | None => scan get (i + 1) n'
      end
  end.

Lemma scan_first {A} (get : Z -> outcome (option A)) i n j x :
  i <= j < i + Z.of_nat n ->
  get j = Done (Some x) ->
  (forall k, i <= k < j -> exists o, get k = Done o) ->
  exists k, scan get i n = Done (Some k) /\ i <= k <= j /\
    (exists y, get k = Done (Some y)) /\ (forall m, i <= m < k -> get m = Done None).
Proof.
  revert i; induction n as [|n IH]; intros i Hj Ej Hdef; [lia|]. simpl.
  destruct (decide (i = j)) as [->|Hne].
  - rewrite Ej; simpl. exists j. split; [done|]. split; [lia|]. split; [eauto|]. intros; lia.
  - destruct (Hdef i) as [[y|] Ei]; [lia| |]; rewrite Ei; simpl.
    + exists i. split; [done|]. split; [lia|]. split; [eauto|]. intros; lia.
    + destruct (IH (i + 1)) as (k & E & Hk & Hy & Hn); [lia|done|intros; apply Hdef; lia|].
      exists k. rewrite E. split; [done|]. split; [lia|]. split; [done|].
      intros m Hm. destruct (decide (m = i)) as [->|]; [done|]. apply Hn; lia.
Qed.

(** ** Nodes *)

Inductive node (V : Type) : Type :=
| Node (val : V) (min count live_nodes : Z) (next : next_t V)
with next_t (V : Type) : Type :=
| NextNode (n : option (node V))
| NextTable (t : list (option (node V))).
Arguments Node {V} val min count live_nodes next.
Arguments NextNode {V} n.
Arguments NextTable {V} t.

Section node.
Context {V : Type}.
Implicit Types (n : node V).

Definition val n := match n with Node v _ _ _ _ => v end.
Definition min n := match n with Node _ m _ _ _ => m end.
Definition count n := match n with Node _ _ c _ _ => c end.
Definition live_nodes n := match n with Node _ _ _ l _ => l end.
Definition next n := match n with Node _ _ _ _ x => x end.

Definition set_val (v : V) n := Node v (min n) (count n) (live_nodes n) (next n).
Definition set_live (l : Z) n := Node (val n) (min n) (count n) l (next n).
Definition set_next (x : next_t V) n := Node (val n) (min n) (count n) (live_nodes n) x.

(** Reading a member of the union [next]: the member last written. *)
Definition next_node n : outcome (option (node V)) :=
  match next n with NextNode o => Done o | NextTable _ => Crash end.
Definition next_table n : outcome (list (option (node V))) :=
  match next n with NextTable t => Done t | NextNode _ => Crash end.

(** [next.table[i]] read and written. *)
Definition table_get n (i : Z) : outcome (option (node V)) :=
  let* t := next_table n in nth_z t i.
Definition table_set n (i : Z) (o : option (node V)) : outcome (node V) :=
  let* t := next_table n in
  let* t := set_z t i o in
  Done (set_next (NextTable t) n).

(** [count == 1 ? next.node : next.table[c - min]] *)
Definition slot_get n (c : Z) : outcome (option (node V)) :=
  if count n =? 1 then next_node n else table_get n (c - min n).
Definition slot_set n (c : Z) (o : option (node V)) : outcome (node V) :=
  if count n =? 1 then
    let* _ := next_node n in Done (set_next (NextNode o) n)
  else table_set n (c - min n) o.

(** [c < min || c >= min + count] *)
Definition out_of_range n (c : Z) : bool := (c <? min n) || (min n + count n <=? c).

(** Extending the range of a node to the character [c] (the table code at the
    head of [add]); the identity when [c] is already in range. *)
Definition extend n (c : Z) : outcome (node V) :=
  if out_of_range n c then
    if count n =? 0 then
      Done (Node (val n) c 1 (live_nodes n) (NextNode None))
    else if count n =? 1 then
      let oldc := min n in
      let* oldp := next_node n in
      let cnt := u16 ((if min n <? c then c - min n else min n - c) + 1) in
      let tbl := replicate (Z.to_nat cnt) None in
      let mn := Z.min (min n) c in
      let* tbl := set_z tbl (oldc - mn) oldp in
      Done (Node (val n) mn cnt (live_nodes n) (NextTable tbl))
    else if min n <? c then
      let cnt := u16 (c - min n + 1) in
      let* tbl := next_table n in
      Done (Node (val n) (min n) cnt (live_nodes n)
              (NextTable (tbl ++ replicate (Z.to_nat (cnt - count n)) None)))
    else
      let cnt := u16 (min n + count n - c) in
      let* tbl := next_table n in
      Done (Node (val n) c cnt (live_nodes n)
              (NextTable (replicate (Z.to_nat (min n - c)) None ++ tbl)))
  else Done n.
End node.

(** ** Children and shape *)

Section shape.
Context {V : Type}.
Implicit Types (n ch : node V) (t : list (option (node V))).

(** The child of a node at character [c], whatever the representation. *)
Definition child n (c : Z) : option (node V) :=
  if out_of_range n c then None
  else match next n with
       | NextNode o => o
       | NextTable t => mjoin (t !! Z.to_nat (c - min n))
       end.

(** The representation invariant of one node: no child at all, exactly one
    child held directly, or a table whose first and last slots are live.
    [live_nodes] counts the live children and characters stay in a byte. *)
Inductive shape n : Prop :=
| shape_leaf : count n = 0 -> live_nodes n = 0 -> is_u8 (min n) -> shape n
| shape_one ch :
    count n = 1 -> live_nodes n = 1 -> is_u8 (min n) -> next n = NextNode (Some ch) ->
    shape n
| shape_table t a b :
    2 <= count n -> 0 <= min n -> min n + count n <= 256 ->
    next n = NextTable t -> Z.of_nat (length t) = count n ->
    t !! 0%nat = Some (Some a) -> t !! Nat.pred (length t) = Some (Some b) ->
    live_nodes n = Z.of_nat (nlive t) -> shape n.

(** The same with a slot for [c] that may still be empty. *)
Inductive pshape n (c : Z) : Prop :=
| pshape_one o :
    count n = 1 -> min n = c -> is_u8 c -> next n = NextNode o ->
    live_nodes n = (if o is Some _ then 1 else 0) -> pshape n c
| pshape_table t :
    2 <= count n -> 0 <= min n -> min n + count n <= 256 ->
    min n <= c < min n + count n ->
    next n = NextTable t -> Z.of_nat (length t) = count n ->
    (min n = c \/ exists a, t !! 0%nat = Some (Some a)) ->
    (min n + count n - 1 = c \/ exists b, t !! Nat.pred (length t) = Some (Some b)) ->
    live_nodes n = Z.of_nat (nlive t) -> pshape n c.

Lemma out_of_range_false n c :
  out_of_range n c = false <-> min n <= c < min n + count n.
Proof. unfold out_of_range. zb; simpl; intuition (discriminate || lia). Qed.

Lemma out_of_range_true n c :
  out_of_range n c = true <-> c < min n \/ min n + count n <= c.
Proof. unfold out_of_range. zb; simpl; intuition (discriminate || lia). Qed.

Lemma child_table n t d :
  next n = NextTable t -> Z.of_nat (length t) = count n ->
  child n d = if (min n <=? d) then mjoin (t !! Z.to_nat (d - min n)) else None.
Proof.
  intros Hn Hl. unfold child, out_of_range. rewrite Hn.
  zb; simpl; try lia; try done. rewrite lookup_ge_None_2; [done|lia].
Qed.

Lemma child_node n o d :
  next n = NextNode o -> count n = 1 -> child n d = if decide (d = min n) then o else None.
Proof.
  intros Hn Hc. unfold child, out_of_range. rewrite Hn, Hc.
  case_decide; zb; simpl; (done || lia).
Qed.

Lemma child_leaf n d : count n = 0 -> child n d = None.
Proof. intros H. unfold child, out_of_range. rewrite H. zb; simpl; (done || lia). Qed.

Lemma child_in_range n c ch : child n c = Some ch -> min n <= c < min n + count n.
Proof. unfold child. destruct (out_of_range n c) eqn:E; [done|]. by apply out_of_range_false in E. Qed.

Lemma shape_range n : shape n -> 0 <= min n <= 255 /\ 0 <= count n /\ min n + count n <= 256 /\ 0 <= live_nodes n <= 256.
Proof.
  destruct 1 as [|ch|t a b]; unfold is_u8 in *; [lia|lia|].
  pose proof (nlive_le t). lia.
Qed.

Lemma shape_child_u8 n c ch : shape n -> child n c = Some ch -> is_u8 c.
Proof. intros ?%shape_range ?%child_in_range. unfold is_u8. lia. Qed.

Lemma shape_pshape n c : shape n -> out_of_range n c = false -> pshape n c.
Proof.
  intros Hs Hr%out_of_range_false. destruct Hs as [|ch|t a b]; [lia| |].
  - replace c with (min n) by lia. eapply pshape_one; eauto.
  - eapply pshape_table; eauto.
Qed.

(** Extending a well-shaped node makes room for [c] and changes no child. *)
Lemma extend_spec n c :
  shape n -> is_u8 c ->
  exists n', extend n c = Done n' /\ pshape n' c /\ val n' = val n /\
    forall d, child n' d = child n d.
Proof.
  intros Hs Hc. unfold extend. destruct (out_of_range n c) eqn:Hr.
  2:{ exists n. eauto using shape_pshape. }
  apply out_of_range_true in Hr. unfold is_u8 in Hc.
  destruct Hs as [H0 Hl Hm|ch H1 Hl Hm Hn|t a b H2 Hm Hm' Hn Hlen Ha Hb Hl].
  - rewrite (proj2 (Z.eqb_eq _ _) H0). eexists; split; [done|]. split; [|split; [done|]].
    + by eapply (pshape_one _ _ None).
    + intros d. rewrite (child_node _ None), child_leaf by done. by case_decide.
  - destruct (Z.eqb_spec (count n) 0); [lia|]. rewrite (proj2 (Z.eqb_eq _ _) H1).
    unfold next_node; rewrite Hn; simpl. unfold is_u8 in Hm.
    set (w := (if min n <? c then c - min n else min n - c) + 1).
    assert (w = Z.abs (c - min n) + 1) as Hw by (unfold w; zb; lia).
    rewrite (u16_small w), set_z_done by (rewrite ?length_replicate; lia). simpl.
    eexists; split; [done|]. split; [|split; [done|]].
    + clearbody w. eapply pshape_table; cbn [min count live_nodes next];
        [lia|lia|lia|lia|reflexivity|rewrite length_insert, length_replicate; lia|..];
        rewrite ?length_insert, ?length_replicate.
      * destruct (decide (c < min n)); [left; lia|right]. exists ch.
        rewrite Z.min_l, Z.sub_diag by lia. apply list_lookup_insert_eq. rewrite length_replicate; lia.
      * destruct (decide (c < min n)); [right|left; lia]. exists ch.
        replace (Nat.pred (Z.to_nat w)) with (Z.to_nat (min n - Z.min (min n) c)) by lia.
        apply list_lookup_insert_eq. rewrite length_replicate; lia.
      * opose proof* (nlive_insert (replicate (Z.to_nat w) None)
          (Z.to_nat (min n - Z.min (min n) c)) None (Some ch)) as Hi.
        { apply lookup_replicate; split; [done|lia]. }
        rewrite nlive_replicate in Hi. simpl in *. lia.
    + intros d. erewrite child_table by (done || cbn; rewrite length_insert, length_replicate; lia).
      rewrite (child_node n (Some ch)) by done. cbn [min].
      case_decide as Hd; zb; try lia; [| |done].
      * rewrite Hd, list_lookup_insert_eq; [done|rewrite length_replicate; lia].
      * rewrite list_lookup_insert_ne by lia.
        destruct (decide (Z.to_nat (d - Z.min (min n) c) < Z.to_nat w)%nat).
        -- by rewrite lookup_replicate_2 by lia.
        -- by rewrite lookup_ge_None_2 by (rewrite length_replicate; lia).
  - destruct (Z.eqb_spec (count n) 0); [lia|]. destruct (Z.eqb_spec (count n) 1); [lia|].
    unfold next_table; rewrite Hn; simpl. destruct (Z.ltb_spec (min n) c).
    + rewrite u16_small by lia. eexists; split; [done|]. split; [|split; [done|]].
      * eapply pshape_table; cbn [min count live_nodes next];
          [lia|lia|lia|lia|reflexivity|rewrite length_app, length_replicate; lia|..];
          rewrite ?length_app, ?length_replicate.
        -- right. exists a. by apply lookup_app_l_Some.
        -- left. lia.
        -- rewrite nlive_app, nlive_replicate. lia.
      * intros d. erewrite child_table by (done || cbn; rewrite length_app, length_replicate; lia).
        rewrite (child_table n t) by done. cbn [min].
        destruct (Z.leb_spec (min n) d); [|done].
        destruct (decide (Z.to_nat (d - min n) < length t)%nat); [by rewrite lookup_app_l|].
        rewrite lookup_app_r, (lookup_ge_None_2 t) by lia.
        destruct (replicate _ _ !! _) eqn:E; [|done].
        apply lookup_replicate in E as [-> _]. done.
    + rewrite u16_small by lia. eexists; split; [done|]. split; [|split; [done|]].
      * eapply pshape_table; cbn [min count live_nodes next];
          [lia|lia|lia|lia|reflexivity|rewrite length_app, length_replicate; lia|..];
          rewrite ?length_app, ?length_replicate.
        -- left. lia.
        -- right. exists b. rewrite lookup_app_r by (rewrite length_replicate; lia).
           rewrite length_replicate. etrans; [|exact Hb]. f_equal. lia.
        -- rewrite nlive_app, nlive_replicate. lia.
      * intros d. erewrite child_table by (done || cbn; rewrite length_app, length_replicate; lia).
        rewrite (child_table n t) by done. cbn [min].
        destruct (Z.leb_spec c d), (Z.leb_spec (min n) d); try lia; try done.
        -- rewrite lookup_app_r by (rewrite length_replicate; lia). rewrite length_replicate. f_equal. f_equal. lia.
        -- rewrite lookup_app_l by (rewrite length_replicate; lia). by rewrite lookup_replicate_2 by lia.
Qed.
Lemma slot_get_spec n c : pshape n c -> slot_get n c = Done (child n c).
Proof.
  intros [o H1 Hm Hc Hn Hl|t H2 Hm Hm' Hr Hn Hlen Ha Hb Hl]; unfold slot_get.
  - rewrite (proj2 (Z.eqb_eq _ _) H1). unfold next_node.
    rewrite Hn, (child_node n o) by done. by rewrite decide_True.
  - destruct (Z.eqb_spec (count n) 1); [lia|].
    rewrite (child_table n t) by done. unfold table_get, next_table. rewrite Hn. simpl.
    destruct (Z.leb_spec (min n) c); [|lia].
    destruct (lookup_lt_is_Some_2 t (Z.to_nat (c - min n))) as [o Ho]; [lia|].
    rewrite Ho. apply nth_z_done; [lia|done].
Qed.

(** Writing a live child into the slot for [c]. *)
Lemma slot_set_spec n c ch l :
  pshape n c ->
  l = live_nodes n + (if child n c is Some _ then 0 else 1) ->
  exists n', slot_set (set_live l n) c (Some ch) = Done n' /\ shape n' /\ val n' = val n /\
    min n' = min n /\ count n' = count n /\ live_nodes n' = l /\
    forall d, child n' d = if decide (d = c) then Some ch else child n d.
Proof.
  intros [o H1 Hm Hc Hn Hl|t H2 Hm Hm' Hr Hn Hlen Ha Hb Hl] Hl'; unfold slot_set; simpl.
  - rewrite (child_node n o), decide_True in Hl' by done.
    rewrite (proj2 (Z.eqb_eq _ _) H1). unfold next_node; simpl; rewrite Hn; simpl.
    eexists; split; [done|]. split; [|repeat (split; [done|])].
    + eapply shape_one; simpl; try done; [destruct o; lia|by subst].
    + intros d. rewrite (child_node _ (Some ch)) by done. rewrite (child_node n o) by done.
      simpl. subst c. by repeat case_decide.
  - destruct (Z.eqb_spec (count n) 1); [lia|].
    destruct (lookup_lt_is_Some_2 t (Z.to_nat (c - min n))) as [o Ho]; [lia|].
    rewrite (child_table n t) in Hl' by done. destruct (Z.leb_spec (min n) c); [|lia].
    rewrite Ho in Hl'. simpl in Hl'.
    unfold table_set, next_table; simpl; rewrite Hn; simpl. rewrite set_z_done by lia. simpl.
    eexists; split; [done|]. split; [|repeat (split; [done|])].
    + assert (exists a, <[Z.to_nat (c - min n) := Some ch]> t !! 0%nat = Some (Some a)) as [a Ha'].
      { destruct (decide (c = min n)) as [->|].
        - exists ch. rewrite Z.sub_diag. apply list_lookup_insert_eq. lia.
        - destruct Ha as [?|[a Ha]]; [lia|]. exists a. rewrite list_lookup_insert_ne by lia. done. }
      assert (exists b, <[Z.to_nat (c - min n) := Some ch]> t !! Nat.pred (length t) = Some (Some b)) as [b Hb'].
      { destruct (decide (c = min n + count n - 1)) as [->|].
        - exists ch. replace (Nat.pred (length t)) with (Z.to_nat (min n + count n - 1 - min n)) by lia.
          apply list_lookup_insert_eq. lia.
        - destruct Hb as [?|[b Hb]]; [lia|]. exists b. rewrite list_lookup_insert_ne by lia. done. }
      pose proof (nlive_insert t _ _ (Some ch) Ho) as Hi.
      eapply (shape_table _ _ a b); simpl; try done; rewrite ?length_insert; try done.
      destruct o; simpl in *; lia.
    + intros d. erewrite child_table by (done || simpl; rewrite length_insert; lia).
      rewrite (child_table n t) by done. simpl. case_decide as Hd.
      * subst d. destruct (Z.leb_spec (min n) c); [|lia].
        rewrite list_lookup_insert_eq by lia. done.
      * destruct (Z.leb_spec (min n) d); [|done].
        rewrite list_lookup_insert_ne by lia. done.
Qed.

(** In a table with an empty slot for [c] some other slot is live. *)
Lemma pshape_live n c : pshape n c -> count n <> 1 -> 1 <= live_nodes n.
Proof.
  intros [o Hc1|t Hc2 Hm Hm' Hr Hn Hlen Ha Hb Hl] Hne; [lia|].
  destruct (decide (c = min n)).
  - destruct Hb as [?|[b Hb]]; [lia|]. apply nlive_pos in Hb. lia.
  - destruct Ha as [?|[a Ha]]; [lia|]. apply nlive_pos in Ha. lia.
Qed.

Lemma shape_count n c ch :
  shape n -> child n c = Some ch ->
  (count n = 1 /\ live_nodes n = 1 /\ next n = NextNode (Some ch) /\ c = min n) \/
  (2 <= count n /\ 2 <= live_nodes n /\ exists t, next n = NextTable t /\
     Z.of_nat (length t) = count n /\ t !! Z.to_nat (c - min n) = Some (Some ch)).
Proof.
  intros [H0 ? ?|ch' Hc1 Hl Hm Hn|t a b Hc2 Hm Hm' Hn Hlen Ha Hb Hl] Hc.
  - by rewrite child_leaf in Hc.
  - left. rewrite (child_node n (Some ch')) in Hc by done. case_decide; by simplify_eq.
  - right. split; [done|]. split.
    + opose proof* (nlive_two t 0%nat (Nat.pred (length t)) a b); [lia|done|done|lia].
    + exists t. split; [done|]. split; [done|]. rewrite (child_table n t) in Hc by done.
      destruct (Z.leb_spec (min n) c); [|done].
      destruct (t !! Z.to_nat (c - min n)) as [[x|]|] eqn:E; by simplify_eq/=.
Qed.

(** A sub-table [t[lo .. lo+len-1]] of [t] outside which [t] is empty. *)
Lemma subtable_child n n' t lo len d :
  next n = NextTable t -> Z.of_nat (length t) = count n ->
  next n' = NextTable (take (Z.to_nat len) (drop (Z.to_nat lo) t)) ->
  count n' = len -> min n' = min n + lo ->
  0 <= lo -> 0 <= len -> lo + len <= count n ->
  (forall i o, t !! i = Some o -> Z.of_nat i < lo \/ lo + len <= Z.of_nat i -> o = None) ->
  child n' d = child n d.
Proof.
  intros Hn Hlen Hn' Hc Hm Hlo Hle Hsum Hnone.
  rewrite (child_table n t) by done.
  rewrite (child_table n' _ d Hn') by (rewrite length_take, length_drop; lia).
  rewrite Hm. destruct (Z.leb_spec (min n + lo) d), (Z.leb_spec (min n) d); try lia; try done.
  - destruct (decide (d - min n < lo + len)).
    + rewrite lookup_take_lt, lookup_drop by lia. f_equal. f_equal. lia.
    + rewrite lookup_take_ge by lia. destruct (t !! Z.to_nat (d - min n)) eqn:E; [|done].
      simpl. symmetry. eapply Hnone; [exact E|lia].
  - destruct (t !! Z.to_nat (d - min n)) eqn:E; [|done].
    simpl. symmetry. eapply Hnone; [exact E|lia].
Qed.

Lemma nlive_subtable t lo len :
  (lo + len <= length t)%nat ->
  (forall i o, t !! i = Some o -> (i < lo \/ lo + len <= i)%nat -> o = None) ->
  nlive (take len (drop lo t)) = nlive t.
Proof.
  intros Hl Hnone.
  assert (forall l : list (option (node V)), (forall i o, l !! i = Some o -> o = None) -> nlive l = 0%nat) as Hz.
  { induction l as [|[x|] l IH]; intros H; simpl; [done| |].
    - by specialize (H 0%nat (Some x) eq_refl).
    - apply IH. intros i o E. by apply (H (S i)). }
  rewrite <- (take_drop lo t) at 2. rewrite <- (take_drop len (drop lo t)) at 2.
  rewrite !nlive_app, (Hz (take lo t)), (Hz (drop len (drop lo t))); [lia| |].
  - intros i o E. rewrite !lookup_drop in E. eapply Hnone; [exact E|lia].
  - intros i o E. pose proof (lookup_lt_Some _ _ _ E) as Hi. rewrite length_take in Hi.
    rewrite lookup_take_lt in E by lia. eapply Hnone; [exact E|lia].
Qed.
End shape.

(** ** Descending into the child for a character

    The steps of [add] around its recursive call: extend the table, look the
    slot up (creating the child counts it in [live_nodes]) and, after the
    recursion, store the child. *)
Section descend.
Context {V : Type}.
Implicit Types (n ch : node V).

Lemma set_live_id n : set_live (live_nodes n) n = n.
Proof. by destruct n. Qed.

Lemma descend_spec n c :
  shape n -> is_u8 c ->
  exists n1, extend n c = Done n1 /\ slot_get n1 c = Done (child n c) /\
    (child n c = None ->
       u16 (live_nodes n1 + 1) = live_nodes n1 + 1 /\
       (count n1 = 1 -> live_nodes n1 + 1 = 1) /\ (count n1 <> 1 -> 1 < live_nodes n1 + 1)) /\
    forall ch, exists n',
      slot_set (if child n c is Some _ then n1 else set_live (live_nodes n1 + 1) n1) c (Some ch)
        = Done n' /\
      shape n' /\ val n' = val n /\
      forall d, child n' d = if decide (d = c) then Some ch else child n d.
Proof.
  intros Hs Hc. destruct (extend_spec n c Hs Hc) as (n1 & E & Hp & Hv & Hch).
  exists n1. split; [done|]. rewrite <- (Hch c). split; [by apply slot_get_spec|]. split.
  - intros Hnone. assert (0 <= live_nodes n1 <= 256).
    { destruct Hp as [o|t]; [destruct o; lia|]. pose proof (nlive_le t). lia. }
    split; [apply u16_small; lia|]. split.
    + intros H1. destruct Hp as [o Hc1 Hm Hu Hn Hl|]; [|lia].
      rewrite (child_node n1 o), decide_True in Hnone by done. subst o. lia.
    + intros H1. pose proof (pshape_live _ _ Hp H1). lia.
  - intros ch. destruct (child n1 c) eqn:Hcc.
    + destruct (slot_set_spec n1 c ch (live_nodes n1) Hp) as (n' & E' & Hs' & Hv' & _ & _ & _ & Hd).
      { rewrite Hcc. lia. }
      rewrite set_live_id in E'. exists n'. split; [done|]. split; [done|].
      split; [congruence|]. intros d. rewrite Hd, Hch. done.
    + destruct (slot_set_spec n1 c ch (live_nodes n1 + 1) Hp) as (n' & E' & Hs' & Hv' & _ & _ & _ & Hd).
      { rewrite Hcc. lia. }
      exists n'. split; [done|]. split; [done|].
      split; [congruence|]. intros d. rewrite Hd, Hch. done.
Qed.

(** Storing an updated child over an existing one ([rm] after recursion). *)
Lemma update_spec n c ch ch' :
  shape n -> child n c = Some ch ->
  out_of_range n c = false /\ count n <> 0 /\ slot_get n c = Done (Some ch) /\
  exists n', slot_set n c (Some ch') = Done n' /\ shape n' /\ val n' = val n /\
    min n' = min n /\ count n' = count n /\ live_nodes n' = live_nodes n /\
    forall d, child n' d = if decide (d = c) then Some ch' else child n d.
Proof.
  intros Hs Hch. assert (out_of_range n c = false) as Hr.
  { by eapply out_of_range_false, child_in_range. }
  pose proof (shape_pshape _ _ Hs Hr) as Hp.
  split; [done|]. split; [apply child_in_range in Hch; lia|].
  split; [rewrite slot_get_spec by done; by rewrite Hch|].
  destruct (slot_set_spec n c ch' (live_nodes n) Hp) as (n' & E' & H').
  { rewrite Hch. lia. }
  rewrite set_live_id in E'. eauto.
Qed.
End descend.

(** ** Compacting a table

    [tabled n t]: [n] holds the table [t] of [count n] slots, without the
    requirement that its first and last slots are live. *)
Section narrow.
Context {V : Type}.
Implicit Types (n : node V) (t : list (option (node V))).

Record tabled n t : Prop := {
  tabled_next : next n = NextTable t;
  tabled_len : Z.of_nat (length t) = count n;
  tabled_min : 0 <= min n;
  tabled_max : min n + count n <= 256;
  tabled_live : live_nodes n = Z.of_nat (nlive t) }.

Lemma shape_tabled n t :
  shape n -> next n = NextTable t -> 2 <= count n -> tabled n t.
Proof.
  intros [|ch|t' a b] Hn Hc; [lia|lia|]. constructor; congruence.
Qed.

Lemma shape_ends n t :
  shape n -> next n = NextTable t -> 2 <= count n ->
  exists a b, t !! Z.to_nat 0 = Some (Some a) /\ t !! Z.to_nat (count n - 1) = Some (Some b).
Proof.
  intros [|ch|t' a b] Hn Hc; [lia|lia|]. assert (t' = t) as -> by congruence.
  exists a, b. split; [done|]. etrans; [|eassumption]. f_equal. lia.
Qed.

Lemma tabled_get n t i :
  tabled n t -> 0 <= i < count n -> exists o, t !! Z.to_nat i = Some o /\ table_get n i = Done o.
Proof.
  intros [Hn Hl _ _ _] Hi. destruct (lookup_lt_is_Some_2 t (Z.to_nat i)) as [o Ho]; [lia|].
  exists o. split; [done|]. unfold table_get, next_table. rewrite Hn. apply nth_z_done; [lia|done].
Qed.

(** Clearing the slot of a live child. *)
Lemma table_clear n t c ch :
  tabled n t -> min n <= c < min n + count n -> t !! Z.to_nat (c - min n) = Some (Some ch) ->
  let t' := <[Z.to_nat (c - min n) := None]> t in
  exists n', table_set n (c - min n) None = Done n' /\
    min n' = min n /\ count n' = count n /\ val n' = val n /\ live_nodes n' = live_nodes n /\
    tabled (set_live (live_nodes n - 1) n') t' /\
    forall d, child n' d = if decide (d = c) then None else child n d.
Proof.
  intros [Hn Hl Hm Hm' Hv] Hr Hc. unfold table_set, next_table. rewrite Hn; simpl.
  rewrite set_z_done by lia. simpl. eexists; split; [done|]. repeat (split; [done|]). split.
  - constructor; simpl; try done; [by rewrite length_insert|].
    pose proof (nlive_insert t _ _ None Hc). simpl in *. lia.
  - intros d. erewrite child_table by (done || simpl; rewrite length_insert; lia).
    rewrite (child_table n t) by done. simpl. case_decide as Hd.
    + subst d. destruct (Z.leb_spec (min n) c); [|lia]. by rewrite list_lookup_insert_eq by lia.
    + destruct (Z.leb_spec (min n) d); [|done]. by rewrite list_lookup_insert_ne by lia.
Qed.

Definition empty_outside t (lo len : Z) : Prop :=
  forall i o, t !! i = Some o -> Z.of_nat i < lo \/ lo + len <= Z.of_nat i -> o = None.

Lemma narrow_table n t v lo len a b :
  tabled n t -> 0 <= lo -> 2 <= len -> lo + len <= count n ->
  t !! Z.to_nat lo = Some (Some a) -> t !! Z.to_nat (lo + len - 1) = Some (Some b) ->
  empty_outside t lo len ->
  let n' := Node v (min n + lo) len (live_nodes n)
              (NextTable (take (Z.to_nat len) (drop (Z.to_nat lo) t))) in
  shape n' /\ forall d, child n' d = child n d.
Proof.
  intros [Hn Hl Hm Hm' Hv] Hlo Hlen Hsum Ha Hb Hout n'. split.
  - assert (length (take (Z.to_nat len) (drop (Z.to_nat lo) t)) = Z.to_nat len) as Hlt.
    { rewrite length_take, length_drop. lia. }
    apply (shape_table n' (take (Z.to_nat len) (drop (Z.to_nat lo) t)) a b); simpl; try lia; try done.
    + rewrite lookup_take_lt, lookup_drop by lia. by rewrite Nat.add_0_r.
    + rewrite Hlt, lookup_take_lt, lookup_drop by lia.
      etrans; [|exact Hb]. f_equal. lia.
    + rewrite Hv. f_equal. symmetry. apply nlive_subtable; [lia|].
      intros i o Ei Hi. eapply Hout; [exact Ei|lia].
  - intros d. eapply subtable_child; try done; lia.
Qed.

Lemma narrow_node n t v lo a :
  tabled n t -> 0 <= lo < count n -> t !! Z.to_nat lo = Some (Some a) ->
  live_nodes n = 1 ->
  let n' := Node v (min n + lo) 1 1 (NextNode (Some a)) in
  shape n' /\ forall d, child n' d = child n d.
Proof.
  intros [Hn Hl Hm Hm' Hv] Hlo Ha H1 n'. split.
  - by apply (shape_one n' a); unfold is_u8; simpl; try lia.
  - intros d. rewrite (child_node n' (Some a)) by done. rewrite (child_table n t) by done. simpl.
    case_decide as Hd.
    + destruct (Z.leb_spec (min n) d); [|lia].
      replace (Z.to_nat (d - min n)) with (Z.to_nat lo) by lia. by rewrite Ha.
    + destruct (Z.leb_spec (min n) d); [|done].
      destruct (t !! Z.to_nat (d - min n)) eqn:E; [|done]. simpl. symmetry.
      eapply (nlive_one t); [|exact Ha|exact E|]; lia.
Qed.
(** With two live slots the live range of a table is not a single slot. *)
Lemma live_range_two n T lo len :
  tabled n T -> 2 <= live_nodes n -> 0 <= lo -> 0 <= len -> lo + len <= count n ->
  empty_outside T lo len -> 2 <= len.
Proof.
  intros Ht Hl Hlo Hle Hsum Hout. destruct (decide (2 <= len)); [done|]. exfalso.
  pose proof (tabled_live _ _ Ht) as Hv. pose proof (tabled_len _ _ Ht) as Hlen.
  rewrite <- (nlive_subtable T (Z.to_nat lo) (Z.to_nat len)) in Hv.
  - pose proof (nlive_le (take (Z.to_nat len) (drop (Z.to_nat lo) T))) as Hle'.
    rewrite length_take in Hle'. lia.
  - lia.
  - intros i o Ei Hi. eapply Hout; [exact Ei|lia].
Qed.

(** The scan of the left compaction: the first live slot after an empty one. *)
Lemma left_scan_spec n T v b :
  tabled n T -> 2 <= count n -> T !! 0%nat = Some None ->
  T !! Z.to_nat (count n - 1) = Some (Some b) -> 2 <= live_nodes n ->
  exists k, scan (table_get n) 1 (Z.to_nat (count n - 1)) = Done (Some k) /\
    1 <= k < count n - 1 /\
    let n' := Node v (min n + k) (count n - k) (live_nodes n)
                (NextTable (take (Z.to_nat (count n - k)) (drop (Z.to_nat k) T))) in
    shape n' /\ forall d, child n' d = child n d.
Proof.
  intros Ht Hc H0 Hb Hl.
  destruct (tabled_get n T (count n - 1)) as (o & Ho & E); [done|lia|].
  rewrite Hb in Ho; simplify_eq.
  destruct (scan_first (table_get n) 1 (Z.to_nat (count n - 1)) (count n - 1) b)
    as (k & -> & Hk & [y Hy] & Hn); [lia|done|intros i Hi; destruct (tabled_get n T i) as (?&?&?); eauto; lia|].
  assert (empty_outside T k (count n - k)) as Hout.
  { intros i o Ei [Hi|Hi].
    - destruct (decide (i = 0%nat)) as [->|]; [congruence|].
      destruct (tabled_get n T (Z.of_nat i)) as (o' & Ho & Eo); [done|lia|].
      rewrite Nat2Z.id in Ho. rewrite Hn in Eo by lia. congruence.
    - apply lookup_lt_Some in Ei. pose proof (tabled_len _ _ Ht). lia. }
  destruct (tabled_get n T k) as (o & Ho & Eo); [done|lia|]. rewrite Hy in Eo. simplify_eq.
  assert (2 <= count n - k) as Hk2 by (apply (live_range_two n T k); done || lia).
  exists k. split; [done|]. split; [lia|].
  apply (narrow_table n T v k (count n - k) y b); try done; try lia.
  replace (k + (count n - k) - 1) with (count n - 1) by lia. done.
Qed.

(** The scan of the right compaction. *)
Lemma right_scan_spec n T v a :
  tabled n T -> 2 <= count n -> T !! Z.to_nat (count n - 1) = Some None ->
  T !! Z.to_nat 0 = Some (Some a) -> 2 <= live_nodes n ->
  exists k, scan (fun i => table_get n (count n - 1 - i)) 1 (Z.to_nat (count n - 1)) = Done (Some k) /\
    1 <= k < count n - 1 /\
    let n' := Node v (min n) (count n - k) (live_nodes n)
                (NextTable (take (Z.to_nat (count n - k)) T)) in
    shape n' /\ forall d, child n' d = child n d.
Proof.
  intros Ht Hc H0 Ha Hl.
  destruct (tabled_get n T 0) as (o & Ho & E); [done|lia|].
  rewrite Ha in Ho; simplify_eq.
  destruct (scan_first (fun i => table_get n (count n - 1 - i)) 1 (Z.to_nat (count n - 1)) (count n - 1) a)
    as (k & -> & Hk & [y Hy] & Hn); [lia|by rewrite Z.sub_diag|
      intros i Hi; destruct (tabled_get n T (count n - 1 - i)) as (?&?&?); eauto; lia|].
  assert (empty_outside T 0 (count n - k)) as Hout.
  { intros i o Ei [Hi|Hi]; [lia|].
    pose proof (lookup_lt_Some _ _ _ Ei). pose proof (tabled_len _ _ Ht).
    destruct (decide (Z.of_nat i = count n - 1)).
    - replace i with (Z.to_nat (count n - 1)) in Ei by lia. congruence.
    - destruct (tabled_get n T (Z.of_nat i)) as (o' & Ho & Eo); [done|lia|].
      specialize (Hn (count n - 1 - Z.of_nat i)).
      replace (count n - 1 - (count n - 1 - Z.of_nat i)) with (Z.of_nat i) in Hn by lia.
      rewrite Nat2Z.id in Ho. rewrite Hn in Eo by lia. congruence. }
  destruct (tabled_get n T (count n - 1 - k)) as (o & Ho & Eo); [done|lia|]. rewrite Hy in Eo. simplify_eq.
  assert (2 <= count n - k) as Hk2 by (apply (live_range_two n T 0); done || lia).
  exists k. split; [done|]. split; [lia|].
  destruct (narrow_table n T v 0 (count n - k) a y) as [Hs Hd]; try done; try lia.
  { replace (0 + (count n - k) - 1) with (count n - 1 - k) by lia. done. }
  rewrite Z.add_0_r in Hs, Hd. change (Z.to_nat 0) with 0%nat in Hs, Hd. by rewrite drop_0 in Hs, Hd.
Qed.
End narrow.

(** ** Removing a child from a table

    Both tries compact a table whose child for [c] has just been deleted: to
    the single-node form when one live child is left, from the left or from
    the right when [c] was an end of the range, not at all otherwise.  The
    three compactions differ in their code; what they must satisfy is stated
    here, and [prune_table_spec] is proved from it. *)
Section prune.
Context {V : Type}.
Implicit Types (n : node V) (T : list (option (node V))).

(** [n'] has the payload and the children of [n] in proper shape. *)
Definition compacts_to n (m : outcome (node V)) : Prop :=
  exists n', m = Done n' /\ shape n' /\ val n' = val n /\ forall d, child n' d = child n d.

Variables (single : node V -> Z -> outcome (node V)) (left right : node V -> outcome (node V)).

Hypothesis single_ok : forall n T c a b,
  tabled n T -> 2 <= count n -> live_nodes n = 1 ->
  (c = min n /\ T !! Z.to_nat (count n - 1) = Some (Some b)) \/
  (c = min n + count n - 1 /\ T !! Z.to_nat 0 = Some (Some a)) ->
  compacts_to n (single n c).
Hypothesis left_ok : forall n T b,
  tabled n T -> 2 <= count n -> T !! 0%nat = Some None ->
  T !! Z.to_nat (count n - 1) = Some (Some b) -> 2 <= live_nodes n -> compacts_to n (left n).
Hypothesis right_ok : forall n T a,
  tabled n T -> 2 <= count n -> T !! Z.to_nat (count n - 1) = Some None ->
  T !! Z.to_nat 0 = Some (Some a) -> 2 <= live_nodes n -> compacts_to n (right n).

Definition compact n (c : Z) : outcome (node V) :=
  if live_nodes n =? 1 then single n c
  else if c =? min n then left n
  else if c =? min n + count n - 1 then right n
  else Done n.

Lemma compact_ok n n' T c ch :
  shape n -> tabled n T -> 2 <= count n -> T !! Z.to_nat (c - min n) = Some (Some ch) ->
  min n <= c < min n + count n ->
  tabled n' (<[Z.to_nat (c - min n) := None]> T) -> min n' = min n -> count n' = count n ->
  compacts_to n' (compact n' c).
Proof.
  intros Hs Ht H2 Hc Hr Ht' Hm Hcnt. unfold compact. rewrite Hm, Hcnt.
  destruct (shape_ends n T Hs (tabled_next _ _ Ht) H2) as (a & b & Ha & Hb).
  pose proof (tabled_len _ _ Ht) as Hlen. pose proof (tabled_live _ _ Ht') as Hlive.
  destruct (Z.eqb_spec (live_nodes n') 1) as [He|He].
  - apply (single_ok n' _ c a b Ht'); [lia|done|]. rewrite Hm, Hcnt.
    destruct (decide (c = min n)) as [->|]; [left|right].
    + split; [done|]. rewrite list_lookup_insert_ne by lia. exact Hb.
    + destruct (decide (c = min n + count n - 1)).
      * split; [done|]. rewrite list_lookup_insert_ne by lia. exact Ha.
      * exfalso. rewrite He in Hlive.
        assert (2 <= nlive (<[Z.to_nat (c - min n):=None]> T))%nat; [|lia].
        apply (nlive_two _ (Z.to_nat 0) (Z.to_nat (count n - 1)) a b); [lia|..];
          rewrite list_lookup_insert_ne by lia; done.
  - assert (1 <= nlive (<[Z.to_nat (c - min n):=None]> T))%nat.
    { destruct (decide (c = min n)).
      - apply (nlive_pos _ (Z.to_nat (count n - 1)) b). rewrite list_lookup_insert_ne by lia. done.
      - apply (nlive_pos _ (Z.to_nat 0) a). rewrite list_lookup_insert_ne by lia. done. }
    destruct (Z.eqb_spec c (min n)) as [->|].
    + apply (left_ok n' _ b Ht'); [lia|..|lia].
      * rewrite Z.sub_diag. apply list_lookup_insert_eq. lia.
      * rewrite Hcnt, list_lookup_insert_ne by lia. exact Hb.
    + destruct (Z.eqb_spec c (min n + count n - 1)) as [->|].
      * apply (right_ok n' _ a Ht'); [lia|..|lia].
        -- rewrite Hcnt. replace (count n - 1) with (min n + count n - 1 - min n) by lia.
           apply list_lookup_insert_eq. lia.
        -- rewrite list_lookup_insert_ne by lia. exact Ha.
      * exists n'. split; [done|]. split; [|done]. destruct Ht' as [Hn' Hl' Hm' Hx' Hv'].
        apply (shape_table n' (<[Z.to_nat (c - min n):=None]> T) a b); try lia; try done.
        -- rewrite list_lookup_insert_ne by lia. exact Ha.
        -- rewrite length_insert, list_lookup_insert_ne by lia.
           etrans; [|exact Hb]. f_equal. lia.
Qed.

(** Clearing the slot for [c], counting it out and compacting. *)
Lemma prune_table_spec n c ch :
  shape n -> child n c = Some ch -> 2 <= count n ->
  exists n1, table_set n (c - min n) None = Done n1 /\ live_nodes n1 = live_nodes n /\
    2 <= live_nodes n <= 256 /\
    exists n', compact (set_live (live_nodes n - 1) n1) c = Done n' /\
      shape n' /\ val n' = val n /\
      forall d, child n' d = if decide (d = c) then None else child n d.
Proof.
  intros Hs Hch H2. pose proof (child_in_range _ _ _ Hch) as Hr. pose proof (shape_range n Hs).
  destruct (shape_count n c ch Hs Hch) as [(H1 & _)|(_ & Hl & T & Hn & Hlen & Hc)]; [lia|].
  pose proof (shape_tabled n T Hs Hn H2) as Ht.
  destruct (table_clear n T c ch Ht Hr Hc) as (n1 & E & Hm1 & Hc1 & Hv1 & Hl1 & Ht1 & Hd1).
  exists n1. split; [done|]. split; [done|]. split; [lia|].
  destruct (compact_ok n (set_live (live_nodes n - 1) n1) T c ch) as (n' & E' & Hs' & Hv' & Hd'); try done.
  exists n'. split; [done|]. split; [done|]. split; [by rewrite Hv'|].
  intros d. rewrite Hd'. apply Hd1.
Qed.
End prune.

(** ** Well-formed tries

    [ok] is the invariant of the payload, [dead] says that a payload holds no
    subscription ([is_redundant] is then [dead && live_nodes == 0]). *)

Section wf.
Context {V : Type} (ok : V -> Prop) (dead : V -> bool).
Implicit Types (n ch : node V).

Definition is_redundant n : bool := dead (val n) && (live_nodes n =? 0).

Inductive wf n : Prop :=
| wf_intro :
    ok (val n) -> shape n ->
    (forall c ch, child n c = Some ch -> wf ch) ->
    (forall c ch, child n c = Some ch -> is_redundant ch = false) ->
    wf n.

Lemma wf_ok n : wf n -> ok (val n).
Proof. by destruct 1. Qed.
Lemma wf_shape n : wf n -> shape n.
Proof. by destruct 1. Qed.
Lemma wf_child n c ch : wf n -> child n c = Some ch -> wf ch.
Proof. destruct 1; eauto. Qed.
Lemma wf_live_child n c ch : wf n -> child n c = Some ch -> is_redundant ch = false.
Proof. destruct 1; eauto. Qed.

(** The payload stored at a key, if there is a node for it. *)
Fixpoint find n (p : list Z) : option V :=
  match p with
  | [] => Some (val n)
  | c :: p' => match child n c with Some ch => find ch p' | None => None end
  end.

Lemma shape_new (v : V) : shape (Node v 0 0 0 (NextNode None)).
Proof. by apply shape_leaf. Qed.

Lemma wf_new (v : V) : ok v -> wf (Node v 0 0 0 (NextNode None)).
Proof.
  intros. constructor; [done|apply shape_new|..]; intros c ch; by rewrite child_leaf.
Qed.

(** A node without live children has no child at all. *)
Lemma shape_no_live n c : shape n -> live_nodes n = 0 -> child n c = None.
Proof.
  intros Hs Hl. destruct (child n c) eqn:E; [|done].
  destruct (shape_count n c _ Hs E) as [?|[]]; lia.
Qed.

(** Replacing or adding one child keeps a node well formed. *)
Lemma wf_update n n' c ch :
  wf n -> shape n' -> val n' = val n -> wf ch -> is_redundant ch = false ->
  (forall d, child n' d = if decide (d = c) then Some ch else child n d) -> wf n'.
Proof.
  intros Hw Hs Hv Hch Hr Hd. constructor; [rewrite Hv; by apply wf_ok|done|..];
    intros d x E; rewrite Hd in E; case_decide; simplify_eq; eauto using wf_child, wf_live_child.
Qed.

(** Removing one child keeps a node well formed. *)
Lemma wf_remove n n' c :
  wf n -> shape n' -> val n' = val n ->
  (forall d, child n' d = if decide (d = c) then None else child n d) -> wf n'.
Proof.
  intros Hw Hs Hv Hd. constructor; [rewrite Hv; by apply wf_ok|done|..];
    intros d x E; rewrite Hd in E; case_decide; simplify_eq; eauto using wf_child, wf_live_child.
Qed.
End wf.

End Radix.
