(* ===== verification/Trie.v ===== *)
(** * Trie: the subscription trie of XSUB sockets (libzmq/src/trie.cpp)

    [trie_t] counts the subscriptions of each prefix; [add], [rm], [check] and
    [apply] are translated with their table compaction and their assertions.
    The abstraction of a trie is [refs t : list Z -> Z], the reference count
    of every prefix; the theorems say that the four operations implement
    increment, decrement, "some prefix of the message is subscribed" and
    "enumerate the subscribed prefixes", and that no assertion can fail. *)

From S2P Require Import Prelude Radix.

Module Trie.
Import Radix.

Abbreviation trie_t := (node Z).

(** The payload is [uint32_t refcnt]. *)
Definition refcnt (t : trie_t) : Z := val t.
Definition set_refcnt (v : Z) (t : trie_t) : trie_t := set_val v t.

(** [trie_t::trie_t ()] *)
Definition trie_new : trie_t := Node 0 0 0 0 (NextNode None).

(** [trie_t::is_redundant] *)
Definition is_redundant (t : trie_t) : bool := (refcnt t =? 0) && (live_nodes t =? 0).

(** "If next node does not exist, create one": the slot for [c] with the
    creation of its node, the [live_nodes] increment and its assertion. *)
Definition get_or_create (t : trie_t) (c : Z) : outcome (trie_t * trie_t) :=
  let* o := slot_get t c in
  match o with
  | Some nd => Done (t, nd)
  | None =>
      let t := set_live (u16 (live_nodes t + 1)) t in
      zmq_assert (if count t =? 1 then live_nodes t =? 1 else 1 <? live_nodes t)
        (Done (t, trie_new))
  end.

(** [trie_t::add]: the boolean is its result, the second component the trie
    after the call. *)
Fixpoint add (t : trie_t) (prefix : list Z) : outcome (bool * trie_t) :=
  match prefix with
  | [] =>
      let r := u32 (refcnt t + 1) in
      Done (r =? 1, set_refcnt r t)
  | c :: rest =>
      let* t := extend t c in
      let* (t, nd) := get_or_create t c in
      let* (ret, nd) := add nd rest in
      let* t := slot_set t c (Some nd) in
      Done (ret, t)
  end.

(** "We can switch to using the more compact single-node representation". *)
Definition compact_single (t : trie_t) (c : Z) : outcome trie_t :=
  let* (nd, mn) :=
    if c =? min t then
      let* nd := table_get t (count t - 1) in Done (nd, u8 (min t + (count t - 1)))
    else if c =? min t + count t - 1 then
      let* nd := table_get t 0 in Done (nd, min t)
    else Done (None, min t) in
  zmq_assert (if nd is Some _ then true else false)
    (Done (Node (val t) mn 1 (live_nodes t) (NextNode nd))).

(** "We can compact the table from the left". *)
Definition compact_left (t : trie_t) : outcome trie_t :=
  let* o := scan (table_get t) 1 (Z.to_nat (count t - 1)) in
  let new_min := match o with Some i => u8 (i + min t) | None => min t end in
  zmq_assert (negb (new_min =? min t))
  (zmq_assert (min t <? new_min)
  (zmq_assert (new_min - min t <? count t)
  (let cnt := u16 (count t - (new_min - min t)) in
   let* tbl := next_table t in
   Done (Node (val t) new_min cnt (live_nodes t)
          (NextTable (take (Z.to_nat cnt) (drop (Z.to_nat (new_min - min t)) tbl))))))).

(** "We can compact the table from the right". *)
Definition compact_right (t : trie_t) : outcome trie_t :=
  let* o := scan (fun i => table_get t (count t - 1 - i)) 1 (Z.to_nat (count t - 1)) in
  let new_count := match o with Some i => u16 (count t - i) | None => count t end in
  zmq_assert (negb (new_count =? count t))
  (let* tbl := next_table t in
   Done (Node (val t) (min t) new_count (live_nodes t)
          (NextTable (take (Z.to_nat new_count) tbl)))).

(** "Prune redundant nodes": the child for [c] has become redundant.  The
    node is deleted and the table compacted. *)
Definition prune (t : trie_t) (c : Z) : outcome trie_t :=
  zmq_assert (0 <? count t)
  (if count t =? 1 then
    let lv := u16 (live_nodes t - 1) in
    zmq_assert (lv =? 0) (Done (Node (val t) (min t) 0 lv (NextNode None)))
  else
    let* t := table_set t (c - min t) None in
    zmq_assert (1 <? live_nodes t)
    (let t := set_live (u16 (live_nodes t - 1)) t in
     if live_nodes t =? 1 then compact_single t c
     else if c =? min t then compact_left t
     else if c =? min t + count t - 1 then compact_right t
     else Done t)).

(** [trie_t::rm] *)
Fixpoint rm (t : trie_t) (prefix : list Z) : outcome (bool * trie_t) :=
  match prefix with
  | [] =>
      if refcnt t =? 0 then Done (false, t)
      else
        let r := u32 (refcnt t - 1) in
        Done (r =? 0, set_refcnt r t)
  | c :: rest =>
      if (count t =? 0) || out_of_range t c then Done (false, t)
      else
        let* o := slot_get t c in
        match o with
        | None => Done (false, t)
        | Some next_node =>
            let* (ret, next_node) := rm next_node rest in
            let* t := slot_set t c (Some next_node) in
            if is_redundant next_node then
              let* t := prune t c in Done (ret, t)
            else Done (ret, t)
        end
  end.

(** [trie_t::check]: the loop walks down the message; [current] is the node
    reached so far. *)
Fixpoint check (current : trie_t) (data : list Z) : outcome bool :=
  if negb (refcnt current =? 0) then Done true
  else match data with
  | [] => Done false
  | c :: data =>
      if out_of_range current c then Done false
      else if count current =? 1 then
        let* o := next_node current in
        let* current := deref o in check current data
      else
        let* o := table_get current (c - min current) in
        match o with
        | None => Done false
        | Some current => check current data
        end
  end.

(** "If there are multiple subnodes": the loop of [apply_helper] over
    [next.table[c .. count-1]]; [rec] is the recursive call. *)
Definition apply_children (rec : trie_t -> list Z -> outcome (list (list Z)))
    (min count : Z) (buff : list Z) : Z -> list (option trie_t) -> outcome (list (list Z)) :=
  fix children (c : Z) (tbl : list (option trie_t)) {struct tbl} :=
    match tbl with
    | [] => if c =? count then Done [] else Crash
    | o :: tbl =>
        if c =? count then Done []
        else
          let* l := match o with
                    | None => Done []
                    | Some nd => rec nd (buff ++ [u8 (min + c)])
                    end in
          let* ls := children (c + 1) tbl in
          Done (l ++ ls)
    end.

(** [trie_t::apply_helper]: the calls [func_ (buff, buffsize, arg)] it makes,
    in order, as the contents of [buff[0 .. buffsize-1]] at each call. *)
Fixpoint apply_helper (t : trie_t) (buff : list Z) : outcome (list (list Z)) :=
  match t with
  | Node refcnt min count live_nodes next =>
      let here := if refcnt =? 0 then [] else [buff] in
      if count =? 0 then Done here
      else if count =? 1 then
        match next with
        | NextNode (Some nd) =>
            let* l := apply_helper nd (buff ++ [min]) in Done (here ++ l)
        | _ => Crash
        end
      else
        match next with
        | NextNode _ => Crash
        | NextTable tbl =>
            let* l := apply_children apply_helper min count buff 0 tbl in Done (here ++ l)
        end
  end.

(** [trie_t::apply]: [func_] is called once per subscription with [arg_],
    here a state transformer on what [arg_] points to. *)
Definition apply {S} (t : trie_t) (func_ : list Z -> S -> S) (arg_ : S) : outcome S :=
  let* calls := apply_helper t [] in
  Done (fold_left (fun s p => func_ p s) calls arg_).

(** ** Abstraction *)

(** The reference count of a prefix; 0 when there is no node for it. *)
Definition refs (t : trie_t) (p : list Z) : Z := default 0 (find t p).

Definition ok (r : Z) : Prop := 0 <= r < 2 ^ 32.
Definition dead (r : Z) : bool := r =? 0.
Abbreviation wf := (Radix.wf ok dead).

Lemma refs_nil t : refs t [] = refcnt t.
Proof. done. Qed.

Lemma refs_cons t c p :
  refs t (c :: p) = match child t c with Some ch => refs ch p | None => 0 end.
Proof. unfold refs; simpl. by destruct (child t c). Qed.

Lemma wf_trie_new : wf trie_new.
Proof. by apply wf_new. Qed.

Lemma refs_trie_new p : refs trie_new p = 0.
Proof. destruct p; [done|]. by rewrite refs_cons, child_leaf. Qed.

Lemma refs_nonneg t p : wf t -> 0 <= refs t p < 2 ^ 32.
Proof.
  revert t; induction p as [|c p IH]; intros t Hw.
  - by apply (wf_ok _ _ _ Hw).
  - rewrite refs_cons. destruct (child t c) eqn:E; [|lia]. eauto using wf_child.
Qed.

(** A node with a subscription below or at it is not redundant. *)
Lemma refs_not_redundant t p : wf t -> refs t p <> 0 -> is_redundant t = false.
Proof.
  intros Hw Hp. destruct (is_redundant t) eqn:E; [|done].
  apply andb_prop in E as [Hr%Z.eqb_eq Hl%Z.eqb_eq].
  destruct p; [rewrite refs_nil in Hp; lia|].
  rewrite refs_cons, shape_no_live in Hp by eauto using wf_shape. done.
Qed.

(** ** add *)
Lemma trie_add_spec p t :
  wf t -> bytes p -> refs t p < 2 ^ 32 - 1 ->
  exists t', add t p = Done (refs t p =? 0, t') /\ wf t' /\
    forall q, refs t' q = if decide (q = p) then refs t p + 1 else refs t q.
Proof.
  revert t; induction p as [|c p IH]; intros t Hw Hp Hr.
  - rewrite refs_nil in *. pose proof (wf_ok _ _ _ Hw) as Hok. unfold ok in Hok. fold (refcnt t) in Hok.
    simpl. rewrite u32_small by lia.
    eexists; split; [f_equal; f_equal; zb; lia|]. split.
    + destruct Hw as [_ Hs Hc Hl]. constructor; [simpl; unfold ok; lia|by destruct t, Hs; econstructor|..];
        intros d ch; destruct t; simpl; eauto.
    + intros [|d q]; [done|]. by destruct t.
  - apply Forall_cons in Hp as [Hc Hp]. simpl.
    destruct (descend_spec t c (wf_shape _ _ _ Hw) Hc) as (n1 & E1 & E2 & Hnone & Hset).
    rewrite E1; simpl. unfold get_or_create. rewrite E2; simpl. rewrite refs_cons in *.
    destruct (child t c) as [nd|] eqn:Hch; simpl.
    + destruct (IH nd) as (nd' & E3 & Hw' & Hq); [eauto using wf_child|done|done|].
      rewrite E3; simpl. destruct (Hset nd') as (t' & E4 & Hs' & Hv' & Hd). rewrite E4; simpl.
      eexists; split; [done|]. split.
      * apply (wf_update ok dead t t' c nd'); try done. apply (refs_not_redundant nd' p); [done|].
        rewrite Hq, decide_True by done.
        pose proof (refs_nonneg nd p ltac:(eauto using wf_child)). lia.
      * intros [|d q]; [rewrite !refs_nil; unfold refcnt; by rewrite Hv'|].
        rewrite !refs_cons, Hd. case_decide as Hdc.
        -- subst d. rewrite Hq, Hch. repeat case_decide; congruence.
        -- rewrite decide_False by congruence. done.
    + destruct (Hnone eq_refl) as (Hu & H1 & H2). rewrite Hu.
      replace (if count _ =? 1 then _ else _) with true by (simpl; zb; lia || done). simpl.
      destruct (IH trie_new) as (nd' & E3 & Hw' & Hq); [apply wf_trie_new|done|by rewrite refs_trie_new|].
      rewrite refs_trie_new in E3. rewrite E3; simpl.
      destruct (Hset nd') as (t' & E4 & Hs' & Hv' & Hd). rewrite E4; simpl.
      eexists; split; [done|]. split.
      * apply (wf_update ok dead t t' c nd'); try done. apply (refs_not_redundant nd' p); [done|].
        rewrite Hq, decide_True, refs_trie_new by done. lia.
      * intros [|d q]; [rewrite !refs_nil; unfold refcnt; by rewrite Hv'|].
        rewrite !refs_cons, Hd. case_decide as Hdc.
        -- subst d. rewrite Hq, Hch, !refs_trie_new. repeat case_decide; congruence.
        -- rewrite decide_False by congruence. done.
Qed.

(** ** rm *)
Lemma trie_compact_single_spec t T c a b :
  tabled t T -> 2 <= count t -> live_nodes t = 1 ->
  (c = min t /\ T !! Z.to_nat (count t - 1) = Some (Some b)) \/
  (c = min t + count t - 1 /\ T !! Z.to_nat 0 = Some (Some a)) ->
  compacts_to t (compact_single t c).
Proof.
  intros Ht Hc Hl [[-> Hb]|[-> Ha]]; unfold compact_single.
  - destruct (tabled_get t T (count t - 1)) as (o & Ho & E); [done|lia|].
    rewrite Z.eqb_refl, E; simpl. rewrite Hb in Ho; simplify_eq; simpl.
    pose proof (tabled_min _ _ Ht). pose proof (tabled_max _ _ Ht).
    rewrite u8_small, Hl by lia.
    destruct (narrow_node t T (val t) (count t - 1) b) as [Hs Hd]; [done|lia|done|done|].
    eexists; eauto.
  - destruct (Z.eqb_spec (min t + count t - 1) (min t)); [lia|].
    destruct (tabled_get t T 0) as (o & Ho & E); [done|lia|].
    rewrite Z.eqb_refl, E; simpl. rewrite Ha in Ho; simplify_eq; simpl.
    destruct (narrow_node t T (val t) 0 a) as [Hs Hd]; [done|lia|done|done|].
    rewrite Z.add_0_r in Hs, Hd. rewrite Hl. eexists; eauto.
Qed.

Lemma trie_compact_left_spec t T b :
  tabled t T -> 2 <= count t -> T !! 0%nat = Some None ->
  T !! Z.to_nat (count t - 1) = Some (Some b) -> 2 <= live_nodes t ->
  compacts_to t (compact_left t).
Proof.
  intros Ht Hc H0 Hb Hl. unfold compact_left.
  destruct (left_scan_spec t T (val t) b Ht Hc H0 Hb Hl) as (k & -> & Hk & Hs & Hd). simpl.
  pose proof (tabled_min _ _ Ht). pose proof (tabled_max _ _ Ht).
  rewrite (u8_small (k + min t)) by lia. replace (k + min t - min t) with k by lia.
  rewrite !zmq_assert_true by (zb; simpl; (done || lia)).
  rewrite (u16_small (count t - k)) by lia.
  unfold next_table. rewrite (tabled_next _ _ Ht). simpl.
  rewrite Z.add_comm in Hs, Hd. eexists; eauto.
Qed.

Lemma trie_compact_right_spec t T a :
  tabled t T -> 2 <= count t -> T !! Z.to_nat (count t - 1) = Some None ->
  T !! Z.to_nat 0 = Some (Some a) -> 2 <= live_nodes t ->
  compacts_to t (compact_right t).
Proof.
  intros Ht Hc H0 Ha Hl. unfold compact_right.
  destruct (right_scan_spec t T (val t) a Ht Hc H0 Ha Hl) as (k & -> & Hk & Hs & Hd). simpl.
  pose proof (tabled_min _ _ Ht). pose proof (tabled_max _ _ Ht).
  rewrite (u16_small (count t - k)) by lia.
  rewrite zmq_assert_true by (zb; simpl; (done || lia)).
  unfold next_table. rewrite (tabled_next _ _ Ht). simpl. eexists; eauto.
Qed.

Lemma trie_prune_spec t c ch :
  shape t -> child t c = Some ch ->
  exists t', prune t c = Done t' /\ shape t' /\ val t' = val t /\
    forall d, child t' d = if decide (d = c) then None else child t d.
Proof.
  intros Hs Hch. unfold prune.
  destruct (shape_count t c ch Hs Hch) as [(H1 & Hl & Hn & Hm)|(H2 & _)].
  - rewrite H1, Hl. change (u16 (1 - 1)) with 0. simpl. eexists; split; [done|].
    split; [apply shape_leaf; simpl; try done; apply shape_range in Hs; unfold is_u8; lia|].
    split; [done|]. intros d. rewrite child_leaf by done.
    rewrite (child_node t (Some ch)) by done. subst c. by case_decide.
  - rewrite zmq_assert_true by (zb; (done || lia)). destruct (Z.eqb_spec (count t) 1); [lia|].
    destruct (prune_table_spec compact_single compact_left compact_right
      trie_compact_single_spec trie_compact_left_spec trie_compact_right_spec t c ch Hs Hch H2)
      as (t1 & -> & Hl1 & Hl & t' & E & H').
    simpl. rewrite Hl1, zmq_assert_true, u16_small by (zb; (done || lia)). eauto.
Qed.

Lemma refs_redundant t p : wf t -> is_redundant t = true -> refs t p = 0.
Proof.
  intros Hw Hr. destruct (decide (refs t p = 0)); [done|].
  rewrite (refs_not_redundant t p) in Hr by done. done.
Qed.

Lemma trie_rm_spec p t :
  wf t ->
  exists t', rm t p = Done (refs t p =? 1, t') /\ wf t' /\
    forall q, refs t' q = if decide (q = p) then Z.max 0 (refs t p - 1) else refs t q.
Proof.
  revert t; induction p as [|c p IH]; intros t Hw.
  - rewrite refs_nil. pose proof (wf_ok _ _ _ Hw) as Hok. unfold ok in Hok. fold (refcnt t) in Hok.
    simpl. destruct (Z.eqb_spec (refcnt t) 0) as [H0|H0].
    { exists t. rewrite H0. split; [done|]. split; [done|]. intros q. case_decide; [|done].
      subst q. rewrite refs_nil. lia. }
    rewrite u32_small by lia.
    eexists; split; [f_equal; f_equal; zb; lia|]. split.
    + destruct Hw as [_ Hs Hc Hl]. constructor; [simpl; unfold ok; lia|by destruct t, Hs; econstructor|..];
        intros d ch; destruct t; simpl; eauto.
    + intros [|d q]; [unfold refs; simpl; lia|]. by destruct t.
  - simpl. rewrite refs_cons. destruct (child t c) as [nd|] eqn:Hch.
    + destruct (IH nd) as (nd' & E & Hw' & Hq); [eauto using wf_child|].
      destruct (update_spec t c nd nd' (wf_shape _ _ _ Hw) Hch)
        as (Hr & Hc0 & Hg & t1 & E1 & Hs1 & Hv1 & _ & _ & _ & Hd1).
      rewrite Hr. destruct (Z.eqb_spec (count t) 0); [done|]. simpl.
      rewrite Hg; simpl. rewrite E; simpl. rewrite E1; simpl.
      destruct (is_redundant nd') eqn:Hred.
      * destruct (trie_prune_spec t1 c nd') as (t2 & -> & Hs2 & Hv2 & Hd2);
          [done|by rewrite Hd1, decide_True|].
        simpl. eexists; split; [done|]. split.
        -- apply (wf_remove ok dead t t2 c); [done..|congruence|].
           intros d. rewrite Hd2, Hd1. by case_decide.
        -- intros [|d q]; [rewrite decide_False, !refs_nil by done; unfold refcnt; congruence|].
           rewrite !refs_cons, Hd2, Hd1. case_decide as Hdc.
           ++ subst d. rewrite Hch. pose proof (Hq q) as Hqq.
              rewrite refs_redundant in Hqq by done. repeat case_decide; congruence.
           ++ rewrite decide_False by congruence. done.
      * eexists; split; [done|]. split.
        -- by apply (wf_update ok dead t t1 c nd').
        -- intros [|d q]; [rewrite decide_False, !refs_nil by done; unfold refcnt; congruence|].
           rewrite !refs_cons, Hd1. case_decide as Hdc.
           ++ subst d. rewrite Hq, Hch. repeat case_decide; congruence.
           ++ rewrite decide_False by congruence. done.
    + exists t. split.
      * destruct ((count t =? 0) || out_of_range t c) eqn:Hr; [done|].
        apply orb_false_iff in Hr as [_ Hr].
        rewrite slot_get_spec by eauto using shape_pshape, wf_shape. by rewrite Hch.
      * split; [done|]. intros [|d q]; [done|]. case_decide as Hdq; [|done].
        simplify_eq. by rewrite refs_cons, Hch.
Qed.

(** ** check *)
Lemma check_spec data t :
  wf t ->
  exists b, check t data = Done b /\
    (b = true <-> exists p, p `prefix_of` data /\ 0 < refs t p).
Proof.
  revert t; induction data as [|c data IH]; intros t Hw;
    pose proof (wf_ok _ _ _ Hw) as Hok; unfold ok in Hok; fold (refcnt t) in Hok; simpl;
    destruct (Z.eqb_spec (refcnt t) 0) as [H0|H0]; simpl.
  - exists false. split; [done|]. split; [done|]. intros (p & Hp%prefix_nil_inv & Hr).
    subst p. rewrite refs_nil in Hr. lia.
  - exists true. split; [done|]. split; [|done]. intros _. exists []. split; [done|].
    rewrite refs_nil. lia.
  - assert (forall b, (b = true <-> exists ch q, child t c = Some ch /\ q `prefix_of` data /\ 0 < refs ch q) ->
        (b = true <-> exists p, p `prefix_of` c :: data /\ 0 < refs t p)) as Hcons.
    { intros b ->. split.
      - intros (ch & q & Hc & Hq & Hr). exists (c :: q). split; [by apply prefix_cons|].
        by rewrite refs_cons, Hc.
      - intros ([|d q] & Hp & Hr); [rewrite refs_nil in Hr; lia|].
        pose proof (prefix_cons_inv_1 _ _ _ _ Hp) as ->. apply prefix_cons_inv_2 in Hp.
        rewrite refs_cons in Hr. destruct (child t c) eqn:E; [|lia]. eauto. }
    destruct (out_of_range t c) eqn:Hr.
    + exists false. split; [done|]. apply Hcons. split; [done|].
      intros (ch & q & Hc & _). apply child_in_range, out_of_range_false in Hc. congruence.
    + pose proof (slot_get_spec t c (shape_pshape _ _ (wf_shape _ _ _ Hw) Hr)) as Hg.
      unfold slot_get in Hg. destruct (Z.eqb_spec (count t) 1) as [H1|H1]; rewrite Hg; simpl.
      * destruct (child t c) as [nd|] eqn:Hc; simpl.
        -- destruct (IH nd) as (b & E & Hb); [eauto using wf_child|].
           exists b. split; [done|]. apply Hcons. rewrite Hb.
           split; [intros (q & ? & ?); eauto|intros (? & q & ? & ? & ?); simplify_eq; eauto].
        -- exfalso. destruct (wf_shape _ _ _ Hw) as [?|ch ? ? ? Hn|]; try lia.
           rewrite (child_node t (Some ch)), decide_True in Hc by
             (done || (apply out_of_range_false in Hr; lia)). done.
      * destruct (child t c) as [nd|] eqn:Hc; simpl.
        -- destruct (IH nd) as (b & E & Hb); [eauto using wf_child|].
           exists b. split; [done|]. apply Hcons. rewrite Hb.
           split; [intros (q & ? & ?); eauto|intros (? & q & ? & ? & ?); simplify_eq; eauto].
        -- exists false. split; [done|]. apply Hcons. split; [done|]. by intros (? & ? & ? & _).
  - exists true. split; [done|]. split; [|done]. intros _. exists [].
    split; [apply prefix_nil|]. rewrite refs_nil. lia.
Qed.

(** ** apply *)

(** The calls below one node: sorted, and exactly the subscribed prefixes. *)
Definition enumerates (buff : list Z) (R : list Z -> Z) (m : outcome (list (list Z))) : Prop :=
  exists l, m = Done (map (app buff) l) /\ StronglySorted lex_lt l /\
    forall p, p ∈ l <-> R p <> 0.

(** The loop over [next.table[c ..]] emits the subscriptions of the characters
    from [mn + c] on. *)
Lemma apply_children_spec t T buff :
  tabled t T -> 0 <= count t ->
  (forall c ch, child t c = Some ch -> forall b, enumerates b (refs ch) (apply_helper ch b)) ->
  forall T2 c, 0 <= c -> (forall i, T2 !! i = T !! (Z.to_nat c + i)%nat) -> c + Z.of_nat (length T2) = count t ->
  exists l, apply_children apply_helper (min t) (count t) buff c T2 = Done (map (app buff) l) /\
    StronglySorted lex_lt l /\
    forall p, p ∈ l <-> exists d q, p = d :: q /\ min t + c <= d /\ refs t p <> 0.
Proof.
  intros Ht Hcnt Hrec. pose proof (tabled_min _ _ Ht) as Hmin. pose proof (tabled_max _ _ Ht) as Hmax.
  assert (forall d, child t d = if (min t <=? d) then mjoin (T !! Z.to_nat (d - min t)) else None) as Hchild.
  { intros d. apply child_table; [apply (tabled_next _ _ Ht)|apply (tabled_len _ _ Ht)]. }
  induction T2 as [|o T2 IH]; intros c Hc0 HT Hlen; simpl in *.
  - destruct (Z.eqb_spec c (count t)); [|lia]. exists []. split; [done|]. split; [constructor|].
    intros p. split; [by intros ?%not_elem_of_nil|]. intros (d & q & -> & Hd & Hr). exfalso.
    rewrite refs_cons, Hchild in Hr. destruct (Z.leb_spec (min t) d); [|lia].
    rewrite lookup_ge_None_2 in Hr; [done|]. pose proof (tabled_len _ _ Ht). lia.
  - destruct (Z.eqb_spec c (count t)); [lia|].
    destruct (IH (c + 1)) as (ls & -> & Hs & Hin); [lia| |lia|].
    { intros i. specialize (HT (S i)). simpl in HT. rewrite HT. f_equal. lia. }
    assert (child t (min t + c) = o) as Hco.
    { rewrite Hchild. destruct (Z.leb_spec (min t) (min t + c)); [|lia].
      specialize (HT 0%nat). simpl in HT.
      replace (Z.to_nat (min t + c - min t)) with (Z.to_nat c + 0)%nat by lia. by rewrite <- HT. }
    assert (exists l0, (match o with None => Done [] | Some nd => apply_helper nd (buff ++ [u8 (min t + c)]) end)
              = Done (map (app buff) (map (cons (min t + c)) l0)) /\ StronglySorted lex_lt l0 /\
              forall q, q ∈ l0 <-> refs t (min t + c :: q) <> 0) as (l0 & -> & Hs0 & Hin0).
    { destruct o as [nd|].
      - rewrite u8_small by lia.
        destruct (Hrec _ _ Hco (buff ++ [min t + c])) as (l0 & -> & Hs0 & Hin0).
        exists l0. rewrite map_app_snoc. split; [done|]. split; [done|].
        intros q. rewrite refs_cons, Hco. apply Hin0.
      - exists []. split; [done|]. split; [constructor|]. intros q. rewrite refs_cons, Hco. split; [|done].
        by intros ?%not_elem_of_nil. }
    simpl. exists (map (cons (min t + c)) l0 ++ ls). rewrite map_app. split; [done|]. split.
    + apply lex_sorted_app; [by apply lex_sorted_map_cons|done|].
      intros p q (p' & -> & _)%elem_of_map_cons (d & q' & -> & Hd & _)%Hin. simpl. left. lia.
    + intros p. rewrite elem_of_app, elem_of_map_cons, Hin. split.
      * intros [(q & -> & Hq%Hin0)|(d & q & -> & ? & ?)]; [exists (min t + c), q|exists d, q]; split_and!; auto; lia.
      * intros (d & q & -> & Hd & Hr). destruct (decide (d = min t + c)) as [->|].
        -- left. exists q. split; [done|]. by apply Hin0.
        -- right. exists d, q. split_and!; auto; lia.
Qed.

Lemma enumerates_here t buff m :
  (exists l, m = Done (map (app buff) l) /\ StronglySorted lex_lt l /\
     forall p, p ∈ l <-> exists d q, p = d :: q /\ refs t p <> 0) ->
  enumerates buff (refs t)
    (let* l := m in Done ((if refcnt t =? 0 then [] else [buff]) ++ l)).
Proof.
  intros (l & -> & Hs & Hin). simpl.
  exists ((if refcnt t =? 0 then [] else [[]]) ++ l). split; [|split].
  - rewrite map_app. f_equal. f_equal. destruct (refcnt t =? 0); simpl; by rewrite ?app_nil_r.
  - destruct (refcnt t =? 0); simpl; [done|]. constructor; [done|].
    apply Forall_forall. intros p (d & q & -> & _)%Hin. done.
  - intros p. rewrite elem_of_app, Hin. destruct p as [|d q].
    + rewrite refs_nil. destruct (Z.eqb_spec (refcnt t) 0) as [H0|H0].
      * split; [|done]. intros [?%not_elem_of_nil|(? & ? & ? & _)]; done.
      * split; [done|]. left. constructor.
    + destruct (refcnt t =? 0); (split; [intros [?|(? & ? & ? & ?)]|]); try done; eauto 6.
      * by apply not_elem_of_nil in H.
      * by apply list_elem_of_singleton in H.
Qed.

Lemma apply_helper_spec t : wf t -> forall buff, enumerates buff (refs t) (apply_helper t buff).
Proof.
  induction 1 as [t Hok Hs Hwch IH Hlive]. intros buff.
  assert (apply_helper t buff =
    let* l := (if count t =? 0 then Done []
               else if count t =? 1 then
                 match next t with NextNode (Some nd) => apply_helper nd (buff ++ [min t]) | _ => Crash end
               else match next t with
                    | NextNode _ => Crash
                    | NextTable T => apply_children apply_helper (min t) (count t) buff 0 T
                    end) in
    Done ((if refcnt t =? 0 then [] else [buff]) ++ l)) as ->.
  { destruct t as [v m c l nx]; simpl. destruct (c =? 0); simpl; [by rewrite app_nil_r|].
    destruct (c =? 1); simpl; [by destruct nx as [[nd|]|]|]. by destruct nx. }
  apply enumerates_here.
  destruct Hs as [H0 ? ?|ch H1 Hl Hm Hn|T a b H2 Hm Hm' Hn Hlen Ha Hb Hl].
  - rewrite H0; simpl. exists []. split; [done|]. split; [constructor|]. intros p. split; [by intros ?%not_elem_of_nil|].
    intros (d & q & -> & Hr). by rewrite refs_cons, child_leaf in Hr.
  - rewrite H1, Hn; simpl.
    assert (forall d, child t d = if decide (d = min t) then Some ch else None) as Hd.
    { intros d. by apply (child_node t (Some ch)). }
    destruct (IH (min t) ch ltac:(by rewrite Hd, decide_True) (buff ++ [min t])) as (l & -> & Hsl & Hin).
    exists (map (cons (min t)) l). rewrite map_app_snoc. split; [done|]. split; [by apply lex_sorted_map_cons|].
    intros p. rewrite elem_of_map_cons. split.
    + intros (q & -> & Hq%Hin). exists (min t), q. split; [done|]. by rewrite refs_cons, Hd, decide_True.
    + intros (d & q & -> & Hr). rewrite refs_cons, Hd in Hr. case_decide; [|done]. subst d.
      exists q. split; [done|]. by apply Hin.
  - destruct (Z.eqb_spec (count t) 0); [lia|]. destruct (Z.eqb_spec (count t) 1); [lia|]. rewrite Hn.
    destruct (apply_children_spec t T buff) with (T2 := T) (c := 0) as (l & E & Hsl & Hin);
      [by constructor|lia|done|lia|done|lia|].
    exists l. split; [done|]. split; [done|]. intros p. rewrite Hin. split.
    + intros (d & q & -> & _ & Hr). eauto.
    + intros (d & q & -> & Hr). exists d, q. split; [done|]. split; [|done].
      rewrite refs_cons in Hr. destruct (child t d) eqn:E'; [|done].
      apply child_in_range in E'. lia.
Qed.

(** ** Every node is on the way to a subscription *)
Lemma wf_live_below t :
  wf t -> is_redundant t = false -> exists p, 0 < refs t p.
Proof.
  induction 1 as [t Hok Hs Hwch IH Hlive]. intros Hr.
  destruct (decide (refcnt t = 0)) as [H0|H0].
  - assert (exists c ch, child t c = Some ch) as (c & ch & Hc).
    { destruct Hs as [_ Hl _|ch H1 _ _ Hn|T a b H2 _ _ Hn Hlen Ha _ _].
      - unfold is_redundant in Hr. rewrite H0, Hl in Hr. done.
      - exists (min t), ch. rewrite (child_node t (Some ch)), decide_True by done. done.
      - exists (min t), a. rewrite (child_table t T) by done.
        destruct (Z.leb_spec (min t) (min t)); [|lia]. rewrite Z.sub_diag; change (Z.to_nat 0) with 0%nat; by rewrite Ha. }
    destruct (IH c ch Hc) as (p & Hp); [by eapply Hlive|].
    exists (c :: p). by rewrite refs_cons, Hc.
  - exists []. rewrite refs_nil. unfold ok in Hok. fold (refcnt t) in Hok. lia.
Qed.

(** ** Runs and their specification *)

Inductive op : Type :=
| Add (p : list Z)
| Rm (p : list Z)
| Check (data : list Z).

Definition op_bytes (o : op) : Prop :=
  match o with Add p | Rm p | Check p => bytes p end.

Definition step (t : trie_t) (o : op) : outcome (bool * trie_t) :=
  match o with
  | Add p => add t p
  | Rm p => rm t p
  | Check d => let* b := check t d in Done (b, t)
  end.

Fixpoint run (t : trie_t) (os : list op) : outcome (list bool * trie_t) :=
  match os with
  | [] => Done ([], t)
  | o :: os =>
      let* (b, t) := step t o in
      let* (bs, t) := run t os in
      Done (b :: bs, t)
  end.

(** The specification: a table of reference counts.  [Add] reports whether the
    prefix is new, [Rm] whether its last reference went away, [Check] whether
    some prefix of the message is subscribed. *)
Definition spec_state : Type := list Z -> Z.

Definition spec_matches (R : spec_state) (d : list Z) : bool :=
  existsb (fun k => 0 <? R (take k d)) (seq 0 (S (length d))).

Definition spec_step (R : spec_state) (o : op) : bool * spec_state :=
  match o with
  | Add p => (R p =? 0, fun q => if decide (q = p) then R p + 1 else R q)
  | Rm p => (R p =? 1, fun q => if decide (q = p) then Z.max 0 (R p - 1) else R q)
  | Check d => (spec_matches R d, R)
  end.

Fixpoint spec_run (R : spec_state) (os : list op) : list bool * spec_state :=
  match os with
  | [] => ([], R)
  | o :: os =>
      let '(b, R) := spec_step R o in
      let '(bs, R) := spec_run R os in
      (b :: bs, R)
  end.

Lemma spec_matches_true R d :
  spec_matches R d = true <-> exists p, p `prefix_of` d /\ 0 < R p.
Proof.
  unfold spec_matches. rewrite existsb_exists. split.
  - intros (k & _ & Hk%Z.ltb_lt). exists (take k d). split; [|done]. apply prefix_take.
  - intros (p & [r ->] & Hp). exists (length p). rewrite take_app_length. split.
    + apply in_seq. rewrite length_app. lia.
    + by apply Z.ltb_lt.
Qed.

(** [t] implements [R], and no count exceeds [k]. *)
Definition implements (t : trie_t) (R : spec_state) (k : Z) : Prop :=
  wf t /\ (forall p, refs t p = R p) /\ forall p, R p <= k.

Lemma trie_step_refines t R k o :
  implements t R k -> op_bytes o -> 0 <= k < 2 ^ 32 - 1 ->
  exists t', step t o = Done (fst (spec_step R o), t') /\
    implements t' (snd (spec_step R o)) (k + 1).
Proof.
  intros (Hw & Hr & Hk) Ho Hb. destruct o as [p|p|d]; simpl in *.
  - destruct (trie_add_spec p t) as (t' & -> & Hw' & Hq); [done|done|rewrite Hr; specialize (Hk p); lia|].
    rewrite Hr. exists t'. split; [done|]. split; [done|]. split.
    + intros q. rewrite Hq, !Hr. done.
    + intros q. pose proof (Hk p). pose proof (Hk q). case_decide; lia.
  - destruct (trie_rm_spec p t) as (t' & -> & Hw' & Hq); [done|].
    rewrite Hr. exists t'. split; [done|]. split; [done|]. split.
    + intros q. rewrite Hq, !Hr. done.
    + intros q. pose proof (Hk p). pose proof (Hk q). case_decide; lia.
  - destruct (check_spec d t) as (b & -> & Hm); [done|]. simpl. exists t. split.
    + do 2 f_equal. apply eq_true_iff_eq. rewrite Hm, spec_matches_true.
      split; intros (p & ? & Hp); exists p; (rewrite <- Hr || rewrite Hr); by rewrite ?Hr in *.
    + split; [done|]. split; [done|]. intros q. specialize (Hk q). lia.
Qed.

Lemma trie_run_refines os t R k :
  implements t R k -> Forall op_bytes os -> 0 <= k -> k + Z.of_nat (length os) < 2 ^ 32 ->
  exists t', run t os = Done (fst (spec_run R os), t') /\
    implements t' (snd (spec_run R os)) (k + Z.of_nat (length os)).
Proof.
  revert t R k. induction os as [|o os IH]; intros t R k Hi Hf Hk Hlen; cbn [run spec_run].
  - exists t. split; [done|]. simpl. by rewrite Z.add_0_r.
  - apply Forall_cons in Hf as [Ho Hf]. cbn [length] in Hlen |- *.
    destruct (trie_step_refines t R k o Hi Ho) as (t1 & -> & Hi1); [lia|]. simpl.
    destruct (spec_step R o) as [b R1]; simpl in *.
    destruct (IH t1 R1 (k + 1) Hi1 Hf) as (t2 & -> & Hi2); [lia|lia|]. simpl.
    destruct (spec_run R1 os) as [bs R2]; simpl in *.
    exists t2. split; [done|]. replace (k + Z.of_nat (S (length os))) with (k + 1 + Z.of_nat (length os)) by lia.
    done.
Qed.

Lemma trie_implements_new : implements trie_new (fun _ => 0) 0.
Proof. split; [apply wf_trie_new|]. split; [intros; apply refs_trie_new|done]. Qed.

(** ** Properties *)

(** C40: a subscription trie refines a table of reference counts.  Starting
    from an empty trie, any sequence of fewer than 2^32 [add]/[rm]/[check]
    calls on byte strings runs without a failing assertion or an out-of-range
    access, returns exactly the answers of the table, and leaves a trie whose
    counts are those of the table. *)
Theorem trie_refines_counts os :
  Forall op_bytes os -> Z.of_nat (length os) < 2 ^ 32 ->
  exists t, run trie_new os = Done (fst (spec_run (fun _ => 0) os), t) /\
    forall p, refs t p = snd (spec_run (fun _ => 0) os) p.
Proof.
  intros Hf Hl. destruct (trie_run_refines os _ _ _ trie_implements_new Hf) as (t & E & _ & Hr & _); [lia|lia|].
  eauto.
Qed.

Definition sample_ops : list op :=
  [Add [97; 98]; Add [97]; Add [97; 98]; Check [97; 98; 99]; Rm [97; 98]; Rm [97];
   Check [97; 99]; Rm [120]; Rm [97; 98]; Check [97; 98]].

Lemma trie_refines_counts_witness :
  Forall op_bytes sample_ops /\
  exists t, run trie_new sample_ops = Done (fst (spec_run (fun _ => 0) sample_ops), t) /\
    forall p, refs t p = snd (spec_run (fun _ => 0) sample_ops) p.
Proof.
  assert (Forall op_bytes sample_ops) as H.
  { repeat constructor; unfold is_u8; simpl; lia. }
  split; [exact H|]. apply trie_refines_counts; [exact H|reflexivity].
Defined.

(** [apply] enumerates the subscriptions: on the trie left by any such
    run it calls [func_] once for every prefix with a positive count and for no
    other, in lexicographic order. *)
Theorem trie_apply_enumerates {S} os (func_ : list Z -> S -> S) (arg_ : S) :
  Forall op_bytes os -> Z.of_nat (length os) < 2 ^ 32 ->
  exists t l, run trie_new os = Done (fst (spec_run (fun _ => 0) os), t) /\
    apply t func_ arg_ = Done (fold_left (fun s p => func_ p s) l arg_) /\
    NoDup l /\ StronglySorted lex_lt l /\
    forall p, p ∈ l <-> 0 < snd (spec_run (fun _ => 0) os) p.
Proof.
  intros Hf Hl. destruct (trie_run_refines os _ _ _ trie_implements_new Hf) as (t & E & Hw & Hr & _); [lia|lia|].
  destruct (apply_helper_spec t Hw []) as (l & El & Hs & Hin). exists t, l.
  split; [done|]. split.
  { unfold apply. rewrite El. simpl. by rewrite map_id. }
  split; [by apply lex_sorted_NoDup|]. split; [done|]. intros p.
  rewrite Hin, <- Hr. pose proof (refs_nonneg t p Hw). lia.
Qed.

Lemma trie_apply_enumerates_witness :
  exists t l, run trie_new sample_ops = Done (fst (spec_run (fun _ => 0) sample_ops), t) /\
    apply t cons [] = Done (fold_left (fun s p => p :: s) l []) /\
    NoDup l /\ StronglySorted lex_lt l /\
    forall p, p ∈ l <-> 0 < snd (spec_run (fun _ => 0) sample_ops) p.
Proof.
  apply (trie_apply_enumerates sample_ops cons []);
    [repeat constructor; unfold is_u8; simpl; lia|reflexivity].
Defined.

(** Pruning is complete: after any such run every node below the root
    leads to a subscription, so a trie whose counts are all zero has no node
    besides its root. *)
Theorem trie_no_dead_nodes os :
  Forall op_bytes os -> Z.of_nat (length os) < 2 ^ 32 ->
  exists t, run trie_new os = Done (fst (spec_run (fun _ => 0) os), t) /\
    (forall c ch, child t c = Some ch -> exists p, 0 < snd (spec_run (fun _ => 0) os) (c :: p)) /\
    ((forall p, snd (spec_run (fun _ => 0) os) p = 0) -> count t = 0).
Proof.
  intros Hf Hl. destruct (trie_run_refines os _ _ _ trie_implements_new Hf) as (t & E & Hw & Hr & _); [lia|lia|].
  assert (forall c ch, child t c = Some ch -> exists p, 0 < snd (spec_run (fun _ => 0) os) (c :: p)) as Hch.
  { intros c ch Hc. destruct (wf_live_below ch) as (p & Hp); [by eapply wf_child|exact (wf_live_child ok dead t c ch Hw Hc)|].
    exists p. rewrite <- Hr, refs_cons, Hc. done. }
  exists t. split; [done|]. split; [done|]. intros Hz.
  destruct (wf_shape _ _ _ Hw) as [H0|ch H1 _ _ Hn|T a b H2 _ _ Hn Hlen Ha _ _]; [done| |].
  - destruct (Hch (min t) ch) as (p & Hp); [|rewrite Hz in Hp; lia].
    by rewrite (child_node t (Some ch)), decide_True.
  - destruct (Hch (min t) a) as (p & Hp); [|rewrite Hz in Hp; lia].
    rewrite (child_table t T) by done. destruct (Z.leb_spec (min t) (min t)); [|lia].
    rewrite Z.sub_diag; change (Z.to_nat 0) with 0%nat; by rewrite Ha.
Qed.

Lemma trie_no_dead_nodes_witness :
  exists t, run trie_new sample_ops = Done (fst (spec_run (fun _ => 0) sample_ops), t) /\
    (forall c ch, child t c = Some ch -> exists p, 0 < snd (spec_run (fun _ => 0) sample_ops) (c :: p)) /\
    ((forall p, snd (spec_run (fun _ => 0) sample_ops) p = 0) -> count t = 0).
Proof.
  apply (trie_no_dead_nodes sample_ops); [repeat constructor; unfold is_u8; simpl; lia|reflexivity].
Defined.

End Trie.
