(* ===== verification/Mtrie.v ===== *)
(** * Mtrie: the subscription trie of XPUB sockets (libzmq/src/generic_mtrie_impl.hpp)

    [generic_mtrie_t<pipe_t>] keeps, for each prefix, the set of pipes that
    subscribed to it.  Its nodes are those of [Radix] with the set as payload;
    compaction is written differently from [trie_t]'s.  The abstraction is
    [subs t : list Z -> list nat], the pipes of each prefix in iteration order. *)

From S2P Require Import Prelude Radix.

Module Mtrie.
Import Radix.

(** [pipes_t *pipes], null when the prefix has no subscriber. *)
Abbreviation pipes_t := (option (list nat)).
Abbreviation mtrie_t := (node (option (list nat))).

Definition pipes (t : mtrie_t) : pipes_t := val t.
Definition set_pipes (v : pipes_t) (t : mtrie_t) : mtrie_t := set_val v t.

(** [generic_mtrie_t ()] *)
Definition mtrie_new : mtrie_t := Node None 0 0 0 (NextNode None).

Definition is_null {A} (p : option A) : bool := if p is Some _ then false else true.

(** [is_redundant] *)
Definition is_redundant (t : mtrie_t) : bool := is_null (pipes t) && (live_nodes t =? 0).

Definition is_nil {A} (l : list A) : bool := if l is [] then true else false.

(** "If next node does not exist, create one". *)
Definition get_or_create (t : mtrie_t) (c : Z) : outcome (mtrie_t * mtrie_t) :=
  let* o := slot_get t c in
  match o with
  | Some nd => Done (t, nd)
  | None => Done (set_live (u16 (live_nodes t + 1)) t, mtrie_new)
  end.

(** [add], [add_helper] *)
Fixpoint add (t : mtrie_t) (prefix : list Z) (pipe : nat) : outcome (bool * mtrie_t) :=
  match prefix with
  | [] =>
      let result := is_null (pipes t) in
      let ps := default [] (pipes t) in
      Done (result, set_pipes (Some (sset_insert pipe ps)) t)
  | c :: rest =>
      let* t := extend t c in
      let* (t, nd) := get_or_create t c in
      let* (ret, nd) := add nd rest pipe in
      let* t := slot_set t c (Some nd) in
      Done (ret, t)
  end.

(** [rm_result] *)
Inductive rm_result : Type := not_found | last_value_removed | values_remain.

(** The three compactions of [rm_helper (prefix)]. *)
Definition compact_single (t : mtrie_t) (c : Z) : outcome mtrie_t :=
  let* o := scan (table_get t) 0 (Z.to_nat (count t)) in
  let i := default (count t) o in
  zmq_assert (i <? count t)
  (let* oldp := table_get t i in
   Done (Node (val t) (u8 (min t + i)) 1 (live_nodes t) (NextNode oldp))).

Definition compact_left (t : mtrie_t) : outcome mtrie_t :=
  let* o := scan (table_get t) 1 (Z.to_nat (count t - 1)) in
  let i := default (count t) o in
  zmq_assert (i <? count t)
  (let cnt := u16 (count t - i) in
   let* tbl := next_table t in
   Done (Node (val t) (u8 (min t + i)) cnt (live_nodes t)
          (NextTable (take (Z.to_nat cnt) (drop (Z.to_nat i) tbl))))).

Definition compact_right (t : mtrie_t) : outcome mtrie_t :=
  let* o := scan (fun i => table_get t (count t - 1 - i)) 1 (Z.to_nat (count t - 1)) in
  let i := default (count t) o in
  zmq_assert (i <? count t)
  (let cnt := u16 (count t - i) in
   let* tbl := next_table t in
   Done (Node (val t) (min t) cnt (live_nodes t) (NextTable (take (Z.to_nat cnt) tbl)))).

(** The child for [c] has become redundant: it is deleted and the table compacted. *)
Definition prune (t : mtrie_t) (c : Z) : outcome mtrie_t :=
  zmq_assert (0 <? count t)
  (if count t =? 1 then
    let lv := u16 (live_nodes t - 1) in
    zmq_assert (lv =? 0) (Done (Node (val t) (min t) 0 lv (NextNode None)))
  else
    let* t := table_set t (c - min t) None in
    zmq_assert (1 <? live_nodes t)
    (let t := set_live (u16 (live_nodes t - 1)) t in
     if live_nodes t =? 1 then compact_single t c
     else if c =? min t then compact_left t
     else if c =? min t + count t - 1 then compact_right t
     else Done t)).

(** [rm (prefix, size, pipe)], [rm_helper] *)
Fixpoint rm (t : mtrie_t) (prefix : list Z) (pipe : nat) : outcome (rm_result * mtrie_t) :=
  match prefix with
  | [] =>
      match pipes t with
      | None => Done (not_found, t)
      | Some ps =>
          let erased := sset_erased pipe ps in
          let ps := sset_erase pipe ps in
          if is_nil ps then
            zmq_assert (bool_decide (erased = 1%nat))
              (Done (last_value_removed, set_pipes None t))
          else Done (if decide (erased = 1%nat) then values_remain else not_found,
                     set_pipes (Some ps) t)
      end
  | c :: rest =>
      if (count t =? 0) || out_of_range t c then Done (not_found, t)
      else
        let* o := slot_get t c in
        match o with
        | None => Done (not_found, t)
        | Some next_node =>
            let* (ret, next_node) := rm next_node rest pipe in
            let* t := slot_set t c (Some next_node) in
            if is_redundant next_node then
              let* t := prune t c in Done (ret, t)
            else Done (ret, t)
        end
  end.

(** [match (data)]: the pipes the callback is called with, in order. *)
Fixpoint match_ (current : mtrie_t) (data : list Z) : outcome (list nat) :=
  let here := default [] (pipes current) in
  match data with
  | [] => Done here
  | c :: data =>
      if count current =? 0 then Done here
      else if count current =? 1 then
        if negb (c =? min current) then Done here
        else
          let* o := next_node current in
          let* current := deref o in
          let* l := match_ current data in Done (here ++ l)
      else if out_of_range current c then Done here
      else
        let* o := table_get current (c - min current) in
        match o with
        | None => Done here
        | Some current => let* l := match_ current data in Done (here ++ l)
        end
  end.

(** [rm (pipe, func, arg, call_on_uniq)]: what its loop over the table keeps. *)
Record sweep : Type := Sweep {
  swept : list (option mtrie_t);
  calls : list (list Z);
  sweep_live : Z;
  new_min : Z;
  new_max : Z
}.

(** "If there are multiple subnodes": the loop over [next.table[c .. count-1]]; [rec]
    is the recursive call, with the callbacks it makes. *)
Definition sweep_table (rec : mtrie_t -> list Z -> outcome (list (list Z) * mtrie_t))
    (mn count : Z) (buff : list Z) : Z -> list (option mtrie_t) -> Z -> Z -> Z -> outcome sweep :=
  fix loop (c : Z) (tbl : list (option mtrie_t)) (live nmin nmax : Z) {struct tbl} :=
    match tbl with
    | [] => if c =? count then Done (Sweep [] [] live nmin nmax) else Crash
    | o :: tbl =>
        if c =? count then Crash
        else match o with
        | None =>
            let* s := loop (c + 1) tbl live nmin nmax in
            Done (Sweep (None :: swept s) (calls s) (sweep_live s) (new_min s) (new_max s))
        | Some nd =>
            let* (l, nd) := rec nd (buff ++ [u8 (mn + c)]) in
            if is_redundant nd then
              zmq_assert (0 <? live)
              (let* s := loop (c + 1) tbl (u16 (live - 1)) nmin nmax in
               Done (Sweep (None :: swept s) (l ++ calls s) (sweep_live s) (new_min s) (new_max s)))
            else
              let nmin := if c + mn <? nmin then u8 (c + mn) else nmin in
              let nmax := if nmax <? c + mn then u8 (c + mn) else nmax in
              let* s := loop (c + 1) tbl live nmin nmax in
              Done (Sweep (Some nd :: swept s) (l ++ calls s) (sweep_live s) (new_min s) (new_max s))
        end
    end.

(** The table after the loop, freed or compacted. *)
Definition compact_swept (v : pipes_t) (mn cnt : Z) (s : sweep) : outcome mtrie_t :=
  zmq_assert (1 <? cnt)
  (if sweep_live s =? 0 then Done (Node v mn 0 0 (NextNode None))
   else if sweep_live s =? 1 then
     zmq_assert (new_min s =? new_max s)
     (zmq_assert ((mn <=? new_min s) && (new_min s <? mn + cnt))
      (let* nd := nth_z (swept s) (new_min s - mn) in
       zmq_assert (negb (is_null nd))
         (Done (Node v (new_min s) 1 (sweep_live s) (NextNode nd)))))
   else if (mn <? new_min s) || (new_max s <? mn + cnt - 1) then
     zmq_assert (1 <? new_max s - new_min s + 1)
     (zmq_assert ((mn <? new_min s) || (new_max s <? mn + cnt - 1))
     (zmq_assert (mn <=? new_min s)
     (zmq_assert (new_max s <=? mn + cnt - 1)
     (zmq_assert (new_max s - new_min s + 1 <? cnt)
     (let cnt := u16 (new_max s - new_min s + 1) in
      Done (Node v (new_min s) cnt (sweep_live s)
             (NextTable (take (Z.to_nat cnt) (drop (Z.to_nat (new_min s - mn)) (swept s))))))))))
   else Done (Node v mn cnt (sweep_live s) (NextTable (swept s)))).

(** "Remove the subscription from this node": the callback and the pipes left. *)
Definition rm_here (pipe : nat) (call_on_uniq : bool) (v : pipes_t) (buff : list Z)
  : list (list Z) * pipes_t :=
  match v with
  | None => ([], None)
  | Some ps =>
      if decide (pipe ∈ ps) then
        let ps := sset_erase pipe ps in
        (if negb call_on_uniq || is_nil ps then [buff] else [],
         if is_nil ps then None else Some ps)
      else ([], Some ps)
  end.

(** [rm_helper (pipe, buff, ...)]: the callbacks it makes, as the contents of the
    buffer at each, and the node after it. *)
Fixpoint rm_pipe (pipe : nat) (call_on_uniq : bool) (t : mtrie_t) (buff : list Z)
  : outcome (list (list Z) * mtrie_t) :=
  match t with
  | Node v mn cnt live nx =>
      let (here, v) := rm_here pipe call_on_uniq v buff in
      if cnt =? 0 then Done (here, Node v mn cnt live nx)
      else if cnt =? 1 then
        match nx with
        | NextNode (Some nd) =>
            let* (l, nd) := rm_pipe pipe call_on_uniq nd (buff ++ [mn]) in
            if is_redundant nd then
              let live := u16 (live - 1) in
              zmq_assert (live =? 0) (Done (here ++ l, Node v mn 0 live (NextNode None)))
            else Done (here ++ l, Node v mn cnt live (NextNode (Some nd)))
        | _ => Crash
        end
      else
        match nx with
        | NextNode _ => Crash
        | NextTable tbl =>
            let* s := sweep_table (rm_pipe pipe call_on_uniq) mn cnt buff 0 tbl live
                        (u8 (mn + cnt - 1)) mn in
            let* t := compact_swept v mn cnt s in
            Done (here ++ calls s, t)
        end
  end.

(** ** Abstraction *)

(** The subscribers of a prefix, in the order of the set. *)
Definition subs (t : mtrie_t) (p : list Z) : list nat := default [] (mjoin (find t p)).

Definition ok (v : pipes_t) : Prop :=
  match v with None => True | Some l => l <> [] /\ sset_ok l end.
Definition dead (v : pipes_t) : bool := is_null v.
Abbreviation wf := (Radix.wf ok dead).

Lemma subs_nil t : subs t [] = default [] (pipes t).
Proof. done. Qed.

Lemma subs_cons t c p :
  subs t (c :: p) = match child t c with Some ch => subs ch p | None => [] end.
Proof. unfold subs; simpl. by destruct (child t c). Qed.

Lemma wf_mtrie_new : wf mtrie_new.
Proof. by apply wf_new. Qed.

Lemma subs_mtrie_new p : subs mtrie_new p = [].
Proof. destruct p; [done|]. by rewrite subs_cons, child_leaf. Qed.

Lemma subs_sorted t p : wf t -> sset_ok (subs t p).
Proof.
  revert t; induction p as [|c p IH]; intros t Hw.
  - rewrite subs_nil. pose proof (wf_ok _ _ _ Hw) as Hok. unfold pipes.
    destruct (val t); simpl; [apply Hok|constructor].
  - rewrite subs_cons. destruct (child t c) eqn:E; [|constructor]. eauto using wf_child.
Qed.

Lemma pipes_subs t : wf t -> pipes t = if subs t [] is [] then None else Some (subs t []).
Proof.
  intros Hw. rewrite subs_nil. pose proof (wf_ok _ _ _ Hw) as Hok. unfold ok, pipes in *.
  destruct (val t) as [l|]; [|done]. simpl. by destruct l, Hok.
Qed.

Lemma subs_not_redundant t p : wf t -> subs t p <> [] -> is_redundant t = false.
Proof.
  intros Hw Hp. destruct (is_redundant t) eqn:E; [|done].
  apply andb_prop in E as [Hr Hl%Z.eqb_eq]. destruct p.
  - rewrite subs_nil in Hp. by destruct (pipes t).
  - rewrite subs_cons, shape_no_live in Hp by eauto using wf_shape. done.
Qed.

Lemma subs_redundant t p : wf t -> is_redundant t = true -> subs t p = [].
Proof.
  intros Hw Hr. destruct (subs t p) eqn:E; [done|].
  rewrite (subs_not_redundant t p) in Hr by (done || by rewrite E). done.
Qed.

(** Changing the set of a node keeps the rest. *)
Lemma wf_set_pipes t v : wf t -> ok v -> wf (set_pipes v t).
Proof.
  intros [_ Hs Hc Hl] Hok. constructor; [done|by destruct t, Hs; econstructor|..];
    intros d ch; destruct t; simpl; eauto.
Qed.

Lemma subs_set_pipes t v q :
  subs (set_pipes v t) q = if decide (q = []) then default [] v else subs t q.
Proof. destruct q as [|d q]; [done|]. by destruct t. Qed.

(** ** add *)
Lemma mtrie_add_spec p t pipe :
  wf t -> bytes p ->
  exists t', add t p pipe = Done (is_nil (subs t p), t') /\ wf t' /\
    forall q, subs t' q = if decide (q = p) then sset_insert pipe (subs t p) else subs t q.
Proof.
  revert t; induction p as [|c p IH]; intros t Hw Hp.
  - simpl. rewrite (pipes_subs t Hw). eexists; split.
    { f_equal. f_equal. by destruct (subs t []). }
    assert (default [] (if subs t [] is [] then None else Some (subs t [])) = subs t []) as ->
      by by destruct (subs t []).
    split.
    + apply wf_set_pipes; [done|]. split; [apply sset_insert_ne|apply sset_insert_ok, subs_sorted, Hw].
    + intros q. rewrite subs_set_pipes. by repeat case_decide.
  - apply Forall_cons in Hp as [Hc Hp]. simpl.
    destruct (descend_spec t c (wf_shape _ _ _ Hw) Hc) as (n1 & E1 & E2 & Hnone & Hset).
    rewrite E1; simpl. unfold get_or_create. rewrite E2; simpl. rewrite subs_cons in *.
    assert (forall nd nd' : mtrie_t, nd = (if child t c is Some nd0 then nd0 else mtrie_new) ->
      wf nd' -> (forall q, subs nd' q = if decide (q = p) then sset_insert pipe (subs nd p) else subs nd q) ->
      exists t', slot_set (if child t c is Some _ then n1 else set_live (live_nodes n1 + 1) n1) c (Some nd')
                 = Done t' /\ wf t' /\
      forall q, subs t' q = if decide (q = c :: p) then sset_insert pipe (subs nd p) else subs t q) as Hmain.
    { intros nd nd' End Hw' Hq. destruct (Hset nd') as (t' & E4 & Hs' & Hv' & Hd).
      exists t'. split; [done|]. split.
      - apply (wf_update ok dead t t' c nd'); try done. apply (subs_not_redundant nd' p); [done|].
        rewrite Hq, decide_True by done. apply sset_insert_ne.
      - intros [|d q]; [rewrite !subs_nil; unfold pipes; by rewrite Hv'|].
        rewrite !subs_cons, Hd. case_decide as Hdc.
        + subst d. rewrite Hq. destruct (child t c); subst nd;
            rewrite ?subs_mtrie_new; repeat case_decide; congruence.
        + rewrite decide_False by congruence. done. }
    destruct (child t c) as [nd|] eqn:Hch; simpl.
    + destruct (IH nd) as (nd' & E3 & Hw' & Hq); [eauto using wf_child|done|].
      rewrite E3; simpl. destruct (Hmain nd nd') as (t' & -> & ? & ?); try done. simpl. eauto.
    + destruct (Hnone eq_refl) as (Hu & _). rewrite Hu.
      destruct (IH mtrie_new) as (nd' & E3 & Hw' & Hq); [apply wf_mtrie_new|done|].
      rewrite E3; simpl. destruct (Hmain mtrie_new nd') as (t' & -> & ? & Hsub); try done. simpl.
      exists t'. split; [by rewrite subs_mtrie_new|]. split; [done|]. intros q.
      rewrite Hsub. by rewrite subs_mtrie_new.
Qed.

(** ** rm of one subscription *)
Lemma mtrie_compact_single_spec t T c a b :
  tabled t T -> 2 <= count t -> live_nodes t = 1 ->
  (c = min t /\ T !! Z.to_nat (count t - 1) = Some (Some b)) \/
  (c = min t + count t - 1 /\ T !! Z.to_nat 0 = Some (Some a)) ->
  compacts_to t (compact_single t c).
Proof.
  intros Ht Hc Hl Hx. unfold compact_single.
  pose proof (tabled_min _ _ Ht). pose proof (tabled_max _ _ Ht).
  assert (exists j x, 0 <= j < count t /\ T !! Z.to_nat j = Some (Some x)) as (j & x & Hj & Ex).
  { destruct Hx as [[_ Hb]|[_ Ha]]; [exists (count t - 1), b|exists 0, a]; (split; [lia|done]). }
  destruct (tabled_get t T j) as (o & Ho & E); [done|lia|]. rewrite Ex in Ho; simplify_eq.
  destruct (scan_first (table_get t) 0 (Z.to_nat (count t)) j x)
    as (k & -> & Hk & [y Hy] & _); [lia|done|intros i Hi; destruct (tabled_get t T i) as (?&?&?); eauto; lia|].
  simpl. rewrite zmq_assert_true by (zb; (done || lia)). rewrite Hy; simpl.
  rewrite u8_small, Hl by lia.
  destruct (tabled_get t T k) as (o & Ho & Eo); [done|lia|]. rewrite Hy in Eo. simplify_eq.
  destruct (narrow_node t T (val t) k y) as [Hs Hd]; [done|lia|done|done|]. eexists; eauto.
Qed.

Lemma mtrie_compact_left_spec t T b :
  tabled t T -> 2 <= count t -> T !! 0%nat = Some None ->
  T !! Z.to_nat (count t - 1) = Some (Some b) -> 2 <= live_nodes t ->
  compacts_to t (compact_left t).
Proof.
  intros Ht Hc H0 Hb Hl. unfold compact_left.
  destruct (left_scan_spec t T (val t) b Ht Hc H0 Hb Hl) as (k & -> & Hk & Hs & Hd). simpl.
  pose proof (tabled_min _ _ Ht). pose proof (tabled_max _ _ Ht).
  rewrite zmq_assert_true by (zb; (done || lia)).
  rewrite (u8_small (min t + k)), (u16_small (count t - k)) by lia.
  unfold next_table. rewrite (tabled_next _ _ Ht). simpl. eexists; eauto.
Qed.

Lemma mtrie_compact_right_spec t T a :
  tabled t T -> 2 <= count t -> T !! Z.to_nat (count t - 1) = Some None ->
  T !! Z.to_nat 0 = Some (Some a) -> 2 <= live_nodes t ->
  compacts_to t (compact_right t).
Proof.
  intros Ht Hc H0 Ha Hl. unfold compact_right.
  destruct (right_scan_spec t T (val t) a Ht Hc H0 Ha Hl) as (k & -> & Hk & Hs & Hd). simpl.
  pose proof (tabled_min _ _ Ht). pose proof (tabled_max _ _ Ht).
  rewrite zmq_assert_true by (zb; (done || lia)).
  rewrite (u16_small (count t - k)) by lia.
  unfold next_table. rewrite (tabled_next _ _ Ht). simpl. eexists; eauto.
Qed.

Lemma mtrie_prune_spec t c ch :
  shape t -> child t c = Some ch ->
  exists t', prune t c = Done t' /\ shape t' /\ val t' = val t /\
    forall d, child t' d = if decide (d = c) then None else child t d.
Proof.
  intros Hs Hch. unfold prune.
  destruct (shape_count t c ch Hs Hch) as [(H1 & Hl & Hn & Hm)|(H2 & _)].
  - rewrite H1, Hl. change (u16 (1 - 1)) with 0. simpl. eexists; split; [done|].
    split; [apply shape_leaf; simpl; try done; apply shape_range in Hs; unfold is_u8; lia|].
    split; [done|]. intros d. rewrite child_leaf by done.
    rewrite (child_node t (Some ch)) by done. subst c. by case_decide.
  - rewrite zmq_assert_true by (zb; (done || lia)). destruct (Z.eqb_spec (count t) 1); [lia|].
    destruct (prune_table_spec compact_single compact_left compact_right
      mtrie_compact_single_spec mtrie_compact_left_spec mtrie_compact_right_spec t c ch Hs Hch H2)
      as (t1 & -> & Hl1 & Hl & t' & E & H').
    simpl. rewrite Hl1, zmq_assert_true, u16_small by (zb; (done || lia)). eauto.
Qed.

(** How the result classifies the removal. *)
Definition classify (pipe : nat) (l : list nat) : rm_result :=
  if decide (pipe ∈ l) then if is_nil (sset_erase pipe l) then last_value_removed else values_remain
  else not_found.

Lemma mtrie_rm_spec p t pipe :
  wf t ->
  exists t', rm t p pipe = Done (classify pipe (subs t p), t') /\ wf t' /\
    forall q, subs t' q = if decide (q = p) then sset_erase pipe (subs t p) else subs t q.
Proof.
  revert t; induction p as [|c p IH]; intros t Hw.
  - simpl. rewrite (pipes_subs t Hw). pose proof (subs_sorted t [] Hw) as Hss. unfold classify.
    destruct (subs t []) as [|x l] eqn:El.
    { exists t. split; [done|]. split; [done|]. intros q. case_decide; [by subst q|done]. }
    rewrite <- El in *. unfold sset_erased.
    destruct (is_nil (sset_erase pipe (subs t []))) eqn:En.
    + assert (pipe ∈ subs t []) as Hin.
      { destruct (decide (pipe ∈ subs t [])) as [|Hno]; [done|]. rewrite sset_erase_absent in En by done.
        rewrite El in En. done. }
      rewrite !decide_True by done. rewrite bool_decide_eq_true_2 by done. simpl.
      eexists; split; [done|]. split; [by apply wf_set_pipes|]. intros q.
      rewrite subs_set_pipes. destruct (sset_erase pipe (subs t [])); [|done]. by repeat case_decide.
    + eexists; split; [f_equal; f_equal; by repeat case_decide|].
      split; [apply wf_set_pipes; [done|split; [|by apply sset_erase_ok]]|].
      { intros E. by rewrite E in En. }
      intros q. rewrite subs_set_pipes. by repeat case_decide.
  - simpl. rewrite subs_cons. destruct (child t c) as [nd|] eqn:Hch.
    + destruct (IH nd) as (nd' & E & Hw' & Hq); [eauto using wf_child|].
      destruct (update_spec t c nd nd' (wf_shape _ _ _ Hw) Hch)
        as (Hr & Hc0 & Hg & t1 & E1 & Hs1 & Hv1 & _ & _ & _ & Hd1).
      rewrite Hr. destruct (Z.eqb_spec (count t) 0); [done|]. simpl.
      rewrite Hg; simpl. rewrite E; simpl. rewrite E1; simpl.
      destruct (is_redundant nd') eqn:Hred.
      * destruct (mtrie_prune_spec t1 c nd') as (t2 & -> & Hs2 & Hv2 & Hd2);
          [done|by rewrite Hd1, decide_True|].
        simpl. eexists; split; [done|]. split.
        -- apply (wf_remove ok dead t t2 c); [done..|congruence|].
           intros d. rewrite Hd2, Hd1. by case_decide.
        -- intros [|d q]; [rewrite decide_False, !subs_nil by done; unfold pipes; congruence|].
           rewrite !subs_cons, Hd2, Hd1. case_decide as Hdc.
           ++ subst d. rewrite Hch. pose proof (Hq q) as Hqq.
              rewrite subs_redundant in Hqq by done. repeat case_decide; congruence.
           ++ rewrite decide_False by congruence. done.
      * eexists; split; [done|]. split.
        -- by apply (wf_update ok dead t t1 c nd').
        -- intros [|d q]; [rewrite decide_False, !subs_nil by done; unfold pipes; congruence|].
           rewrite !subs_cons, Hd1. case_decide as Hdc.
           ++ subst d. rewrite Hq, Hch. repeat case_decide; congruence.
           ++ rewrite decide_False by congruence. done.
    + exists t. split.
      * destruct ((count t =? 0) || out_of_range t c) eqn:Hr; [done|].
        apply orb_false_iff in Hr as [_ Hr].
        rewrite slot_get_spec by eauto using shape_pshape, wf_shape. by rewrite Hch.
      * split; [done|]. intros [|d q]; [done|]. case_decide as Hdq; [|done].
        simplify_eq. by rewrite subs_cons, Hch.
Qed.

(** ** match *)

(** The prefixes of a message, the empty one first. *)
Fixpoint prefixes (data : list Z) : list (list Z) :=
  [] :: match data with [] => [] | c :: data => map (cons c) (prefixes data) end.

Lemma match_below t c data l :
  match child t c with Some ch => match_ ch data | None => Done [] end = Done l ->
  wf t -> match_ t (c :: data) = Done (subs t [] ++ l).
Proof.
  intros El Hw. rewrite subs_nil. simpl.
  destruct (wf_shape _ _ _ Hw) as [H0 _ _|ch H1 _ _ Hn|T a b H2 Hm Hm' Hn Hlen _ _ _].
  - rewrite H0; simpl. rewrite child_leaf in El by done. injection El as <-. by rewrite app_nil_r.
  - rewrite H1; simpl. rewrite (child_node t (Some ch)) in El by done.
    destruct (Z.eqb_spec c (min t)) as [->|]; simpl.
    + rewrite decide_True in El by done. unfold next_node; rewrite Hn; simpl. by rewrite El.
    + rewrite decide_False in El by done. injection El as <-. by rewrite app_nil_r.
  - destruct (Z.eqb_spec (count t) 0); [lia|]. destruct (Z.eqb_spec (count t) 1); [lia|].
    destruct (out_of_range t c) eqn:Hr.
    + unfold child in El. rewrite Hr in El. injection El as <-. by rewrite app_nil_r.
    + pose proof (slot_get_spec t c (shape_pshape _ _ (wf_shape _ _ _ Hw) Hr)) as Hg.
      unfold slot_get in Hg. destruct (Z.eqb_spec (count t) 1); [lia|]. rewrite Hg; simpl.
      destruct (child t c); [by rewrite El|]. injection El as <-. by rewrite app_nil_r.
Qed.

Lemma mtrie_match_spec data t : wf t -> match_ t data = Done (flat_map (subs t) (prefixes data)).
Proof.
  revert t; induction data as [|c data IH]; intros t Hw.
  - simpl. by rewrite subs_nil, app_nil_r.
  - simpl prefixes. simpl flat_map. apply match_below; [|done].
    destruct (child t c) as [ch|] eqn:E.
    + rewrite IH by eauto using wf_child. f_equal. rewrite flat_map_concat_map, flat_map_concat_map, map_map.
      f_equal. apply map_ext. intros q. by rewrite subs_cons, E.
    + f_equal. clear IH. induction (prefixes data) as [|q l IHl]; simpl; [done|].
      rewrite subs_cons, E. exact IHl.
Qed.

(** ** rm of a pipe *)

Section rm_pipe.
Variables (pipe : nat) (uniq : bool).

(** The callback is made for a prefix with these subscribers. *)
Definition reported (l : list nat) : Prop :=
  pipe ∈ l /\ (uniq = false \/ sset_erase pipe l = []).

#[local] Instance reported_dec l : Decision (reported l).
Proof. apply _. Defined.

Lemma not_reported_nil : ~ reported [].
Proof. intros [Hin _]. by apply not_elem_of_nil in Hin. Qed.

(** What removing the pipe from a whole sub-trie does. *)
Definition removes (t : mtrie_t) (buff : list Z) (m : outcome (list (list Z) * mtrie_t)) : Prop :=
  exists l t', m = Done (map (app buff) l, t') /\ wf t' /\ StronglySorted lex_lt l /\
    (forall p, p ∈ l <-> reported (subs t p)) /\
    forall p, subs t' p = sset_erase pipe (subs t p).

(** A slot before and after the loop. *)
Definition slot_ok (o o' : option mtrie_t) : Prop :=
  match o with
  | None => o' = None
  | Some nd => exists nd', wf nd' /\ (forall p, subs nd' p = sset_erase pipe (subs nd p)) /\
                 o' = if is_redundant nd' then None else Some nd'
  end.

(** [r] is the least of [lim] and the characters of the live slots of [S]. *)
Definition is_min (base : Z) (S : list (option mtrie_t)) (lim r : Z) : Prop :=
  r <= lim /\ (forall (i : nat) a, S !! i = Some (Some a) -> r <= base + Z.of_nat i) /\
  (r = lim \/ exists (i : nat) a, S !! i = Some (Some a) /\ r = base + Z.of_nat i).

Definition is_max (base : Z) (S : list (option mtrie_t)) (lim r : Z) : Prop :=
  lim <= r /\ (forall (i : nat) a, S !! i = Some (Some a) -> base + Z.of_nat i <= r) /\
  (r = lim \/ exists (i : nat) a, S !! i = Some (Some a) /\ r = base + Z.of_nat i).

Lemma is_min_none base S lim r : is_min (base + 1) S lim r -> is_min base (None :: S) lim r.
Proof.
  intros (H1 & H2 & H3). split; [done|]. split.
  - intros [|i] a; simpl; [done|]. intros E. specialize (H2 i a E). lia.
  - destruct H3 as [|(i & a & E & ?)]; [by left|]. right. exists (Datatypes.S i), a. split; [done|lia].
Qed.

Lemma is_min_some base S lim a r :
  is_min (base + 1) S (Z.min lim base) r -> is_min base (Some a :: S) lim r.
Proof.
  intros (H1 & H2 & H3). split; [lia|]. split.
  - intros [|i] b; simpl; [intros _; lia|]. intros E. specialize (H2 i b E). lia.
  - destruct H3 as [->|(i & b & E & ?)].
    + destruct (Z.le_gt_cases lim base); [left; lia|right]. exists 0%nat, a. split; [done|lia].
    + right. exists (Datatypes.S i), b. split; [done|lia].
Qed.

Lemma is_max_none base S lim r : is_max (base + 1) S lim r -> is_max base (None :: S) lim r.
Proof.
  intros (H1 & H2 & H3). split; [done|]. split.
  - intros [|i] a; simpl; [done|]. intros E. specialize (H2 i a E). lia.
  - destruct H3 as [|(i & a & E & ?)]; [by left|]. right. exists (Datatypes.S i), a. split; [done|lia].
Qed.

Lemma is_max_some base S lim a r :
  is_max (base + 1) S (Z.max lim base) r -> is_max base (Some a :: S) lim r.
Proof.
  intros (H1 & H2 & H3). split; [lia|]. split.
  - intros [|i] b; simpl; [intros _; lia|]. intros E. specialize (H2 i b E). lia.
  - destruct H3 as [->|(i & b & E & ?)].
    + destruct (Z.le_gt_cases base lim); [left; lia|right]. exists 0%nat, a. split; [done|lia].
    + right. exists (Datatypes.S i), b. split; [done|lia].
Qed.

(** The prefixes reported below the slots [T2], whose first character is [base]. *)
Definition reported_below (base : Z) (T2 : list (option mtrie_t)) (p : list Z) : Prop :=
  exists (i : nat) nd q, T2 !! i = Some (Some nd) /\ p = base + Z.of_nat i :: q /\ reported (subs nd q).

Definition sweeps (mn c : Z) (buff : list Z) (T2 : list (option mtrie_t)) (live nmin nmax : Z)
  (m : outcome sweep) : Prop :=
  exists s l, m = Done s /\ calls s = map (app buff) l /\ StronglySorted lex_lt l /\
    (forall p, p ∈ l <-> reported_below (mn + c) T2 p) /\
    Forall2 slot_ok T2 (swept s) /\
    sweep_live s = live - Z.of_nat (nlive T2) + Z.of_nat (nlive (swept s)) /\
    is_min (mn + c) (swept s) nmin (new_min s) /\ is_max (mn + c) (swept s) nmax (new_max s).

Lemma reported_below_none base T2 p :
  reported_below base (None :: T2) p <-> reported_below (base + 1) T2 p.
Proof.
  split; intros (i & nd & q & E & -> & Hr).
  - destruct i as [|i]; [done|]. exists i, nd, q. split; [done|]. split; [f_equal; lia|done].
  - exists (Datatypes.S i), nd, q. split; [done|]. split; [f_equal; lia|done].
Qed.

Lemma reported_below_some base nd T2 p :
  reported_below base (Some nd :: T2) p
  <-> (exists q, p = base :: q /\ reported (subs nd q)) \/ reported_below (base + 1) T2 p.
Proof.
  split.
  - intros (i & nd' & q & E & -> & Hr). destruct i as [|i]; simpl in E.
    + simplify_eq. left. exists q. split; [f_equal; lia|done].
    + right. exists i, nd', q. split; [done|]. split; [f_equal; lia|done].
  - intros [(q & -> & Hr)|(i & nd' & q & E & -> & Hr)].
    + exists 0%nat, nd, q. split; [done|]. split; [f_equal; lia|done].
    + exists (Datatypes.S i), nd', q. split; [done|]. split; [f_equal; lia|done].
Qed.

(** Callbacks for the character [base], then for the later ones, are in order. *)
Lemma calls_cons base l0 ls T2 nd :
  StronglySorted lex_lt l0 -> (forall q, q ∈ l0 <-> reported (subs nd q)) ->
  StronglySorted lex_lt ls -> (forall p, p ∈ ls <-> reported_below (base + 1) T2 p) ->
  StronglySorted lex_lt (map (cons base) l0 ++ ls) /\
  forall p, p ∈ map (cons base) l0 ++ ls <-> reported_below base (Some nd :: T2) p.
Proof.
  intros Hs0 Hin0 Hs Hin. split.
  - apply lex_sorted_app; [by apply lex_sorted_map_cons|done|].
    intros p q (p' & -> & _)%elem_of_map_cons (i & nd' & q' & _ & -> & _)%Hin. simpl. left. lia.
  - intros p. rewrite elem_of_app, elem_of_map_cons, Hin, reported_below_some. split.
    + intros [(q & -> & Hq%Hin0)|]; eauto.
    + intros [(q & -> & Hq%Hin0)|]; eauto.
Qed.

Lemma sweep_spec mn cnt buff T2 : forall c live nmin nmax,
  0 <= mn -> 0 <= c -> c + Z.of_nat (length T2) = cnt -> mn + cnt <= 256 ->
  (forall nd, Some nd ∈ T2 -> forall b, removes nd b (rm_pipe pipe uniq nd b)) ->
  Z.of_nat (nlive T2) <= live <= 256 ->
  sweeps mn c buff T2 live nmin nmax
    (sweep_table (rm_pipe pipe uniq) mn cnt buff c T2 live nmin nmax).
Proof.
  induction T2 as [|o T2 IH]; intros c live nmin nmax Hmn Hc Hlen Hmax Hrec Hlive; simpl in *.
  - destruct (Z.eqb_spec c cnt); [|lia]. exists (Sweep [] [] live nmin nmax), []. simpl.
    split_and!; try done; try constructor; try lia.
    + by intros ?%not_elem_of_nil.
    + intros (i & nd & q & E & _). done.
    + split; [by intros i a|by left].
    + split; [by intros i a|by left].
  - destruct (Z.eqb_spec c cnt); [lia|].
    assert (Hrec2 : forall nd, Some nd ∈ T2 -> forall b, removes nd b (rm_pipe pipe uniq nd b)).
    { intros nd Hnd. apply Hrec. by constructor. }
    destruct o as [nd|].
    + destruct (Hrec nd ltac:(constructor) (buff ++ [u8 (mn + c)]))
        as (l0 & nd' & -> & Hw' & Hs0 & Hin0 & Hsub0). simpl.
      rewrite (u8_small (mn + c)) by lia. simpl in Hlive.
      assert (Hslot : slot_ok (Some nd) (if is_redundant nd' then None else Some nd')).
      { exists nd'. done. }
      destruct (is_redundant nd').
      * rewrite zmq_assert_true by (zb; (done || lia)). rewrite u16_small by lia.
        destruct (IH (c + 1) (live - 1) nmin nmax) as (s & l & -> & Hcs & Hs & Hin & Hf & Hl & Hmi & Hma);
          try done; try lia.
        rewrite Z.add_assoc in Hin, Hmi, Hma.
        destruct (calls_cons (mn + c) l0 l T2 nd Hs0 Hin0 Hs Hin) as [Hso Hio].
        eexists _, (map (cons (mn + c)) l0 ++ l). split; [reflexivity|]. simpl.
        split_and!; try done; try (by apply is_min_none); try (by apply is_max_none); try lia.
        -- by rewrite map_app, Hcs, map_app_snoc.
        -- by constructor.
      * destruct (IH (c + 1) live (if c + mn <? nmin then u8 (c + mn) else nmin)
                    (if nmax <? c + mn then u8 (c + mn) else nmax))
          as (s & l & -> & Hcs & Hs & Hin & Hf & Hl & Hmi & Hma); try done; try lia.
        rewrite Z.add_assoc in Hin, Hmi, Hma. rewrite u8_small in Hmi, Hma by lia.
        destruct (calls_cons (mn + c) l0 l T2 nd Hs0 Hin0 Hs Hin) as [Hso Hio].
        eexists _, (map (cons (mn + c)) l0 ++ l). split; [reflexivity|]. simpl.
        split_and!; try done; try lia.
        -- by rewrite map_app, Hcs, map_app_snoc.
        -- by constructor.
        -- apply is_min_some.
           replace (Z.min nmin (mn + c)) with (if c + mn <? nmin then c + mn else nmin) by (zb; lia). done.
        -- apply is_max_some.
           replace (Z.max nmax (mn + c)) with (if nmax <? c + mn then c + mn else nmax) by (zb; lia). done.
    + destruct (IH (c + 1) live nmin nmax) as (s & l & -> & Hcs & Hs & Hin & Hf & Hl & Hmi & Hma);
        try done; try lia.
      rewrite Z.add_assoc in Hin, Hmi, Hma.
      eexists _, l. split; [reflexivity|]. simpl.
      split_and!; try done; try (by apply is_min_none); try (by apply is_max_none); try lia.
      * intros p. by rewrite Hin, reported_below_none.
      * by constructor.
Qed.

Lemma nlive_exists {A} (l : list (option A)) :
  (1 <= nlive l)%nat -> exists (i : nat) a, l !! i = Some (Some a).
Proof.
  induction l as [|[a|] l IH]; simpl; intros Hl; [lia|by exists 0%nat, a|].
  destruct IH as (i & a & E); [done|]. by exists (Datatypes.S i), a.
Qed.

Lemma min_live mn S cnt r :
  is_min mn S (mn + cnt - 1) r -> Z.of_nat (length S) = cnt -> (1 <= nlive S)%nat ->
  exists (i : nat) a, S !! i = Some (Some a) /\ r = mn + Z.of_nat i.
Proof.
  intros (H1 & H2 & [->|H3]) Hl Hn; [|done]. destruct (nlive_exists S Hn) as (i & a & E).
  specialize (H2 i a E). pose proof (lookup_lt_Some _ _ _ E). exists i, a. split; [done|lia].
Qed.

Lemma max_live mn S r :
  is_max mn S mn r -> (1 <= nlive S)%nat ->
  exists (i : nat) a, S !! i = Some (Some a) /\ r = mn + Z.of_nat i.
Proof.
  intros (H1 & H2 & [->|H3]) Hn; [|done]. destruct (nlive_exists S Hn) as (i & a & E).
  specialize (H2 i a E). exists i, a. split; [done|lia].
Qed.

(** Freeing or compacting the table changes no child. *)
Lemma compact_swept_spec v mn cnt s :
  2 <= cnt -> 0 <= mn -> mn + cnt <= 256 ->
  Z.of_nat (length (swept s)) = cnt -> sweep_live s = Z.of_nat (nlive (swept s)) ->
  is_min mn (swept s) (mn + cnt - 1) (new_min s) -> is_max mn (swept s) mn (new_max s) ->
  let n := Node v mn cnt (sweep_live s) (NextTable (swept s)) in
  exists t', compact_swept v mn cnt s = Done t' /\ shape t' /\ val t' = v /\
    forall d, child t' d = child n d.
Proof.
  intros Hcnt Hmn Hsum Hlen Hlive Hmin Hmax n. unfold compact_swept.
  rewrite zmq_assert_true by (zb; (done || lia)).
  assert (Ht : tabled n (swept s)) by (constructor; simpl; lia || done).
  destruct (Z.eqb_spec (sweep_live s) 0) as [H0|H0].
  { eexists; split; [done|]. split; [apply shape_leaf; unfold is_u8; simpl; (done || lia)|].
    split; [done|]. intros d. rewrite child_leaf by done. rewrite (child_table n (swept s)) by done.
    simpl min. destruct (mn <=? d); [|done]. destruct (swept s !! _) as [o|] eqn:E; [|done].
    rewrite (nlive_none (swept s) ltac:(lia) _ _ E). reflexivity. }
  destruct (min_live mn (swept s) cnt (new_min s)) as (i & a & Ei & Hi); [done|done|lia|].
  destruct (max_live mn (swept s) (new_max s)) as (j & b & Ej & Hj); [done|lia|].
  pose proof (lookup_lt_Some _ _ _ Ei) as Hil. pose proof (lookup_lt_Some _ _ _ Ej) as Hjl.
  pose proof (proj1 (proj2 Hmin) j b Ej) as Hij.
  destruct (Z.eqb_spec (sweep_live s) 1) as [H1|H1].
  { assert (j = i) as ->.
    { destruct (decide (j = i)) as [|Hne]; [done|].
      pose proof (nlive_two (swept s) j i b a Hne Ej Ei). lia. }
    rewrite !zmq_assert_true by (rewrite ?andb_true_iff; zb; (done || lia)).
    rewrite (nth_z_done _ _ (Some a)) by (lia || by replace (Z.to_nat (new_min s - mn)) with i by lia).
    simpl. rewrite H1. destruct (narrow_node n (swept s) v (Z.of_nat i) a) as [Hs Hd];
      [done|simpl; lia|by rewrite Nat2Z.id|done|]. rewrite Hi. eexists; eauto. }
  assert (Hout : empty_outside (swept s) (Z.of_nat i) (Z.of_nat j - Z.of_nat i + 1)).
  { intros k o Ek Hk. destruct o as [x|]; [|done]. exfalso.
    pose proof (proj1 (proj2 Hmin) k x Ek). pose proof (proj1 (proj2 Hmax) k x Ek). lia. }
  assert (2 <= Z.of_nat j - Z.of_nat i + 1) as Htwo.
  { apply (live_range_two n (swept s) (Z.of_nat i)); simpl; try lia; done. }
  destruct ((mn <? new_min s) || (new_max s <? mn + cnt - 1)) eqn:Hnarrow.
  - assert (0 < Z.of_nat i \/ Z.of_nat j < cnt - 1) by (apply orb_true_iff in Hnarrow; zb; lia).
    rewrite !zmq_assert_true by (zb; (done || lia)).
    rewrite u16_small by lia.
    destruct (narrow_table n (swept s) v (Z.of_nat i) (Z.of_nat j - Z.of_nat i + 1) a b) as [Hs Hd];
      [done|lia|lia|simpl; lia|by rewrite Nat2Z.id| |done|].
    { by replace (Z.to_nat (Z.of_nat i + (Z.of_nat j - Z.of_nat i + 1) - 1)) with j by lia. }
    replace (new_max s - new_min s + 1) with (Z.of_nat j - Z.of_nat i + 1) by lia.
    replace (new_min s - mn) with (Z.of_nat i) by lia. rewrite Hi. eexists; eauto.
  - apply orb_false_iff in Hnarrow. assert (Z.of_nat i = 0 /\ Z.of_nat j = cnt - 1) as [Hi0 Hj0] by (zb; lia).
    exists n. split; [done|]. split; [|done].
    apply (shape_table n (swept s) a b); simpl; try lia; try done.
    + by replace 0%nat with i by lia.
    + by replace (Nat.pred (length (swept s))) with j by lia.
Qed.

Definition here_calls (l : list nat) : list (list Z) := if decide (reported l) then [[]] else [].

Lemma rm_here_spec v buff :
  ok v -> exists v', rm_here pipe uniq v buff = (map (app buff) (here_calls (default [] v)), v')
    /\ ok v' /\ default [] v' = sset_erase pipe (default [] v).
Proof.
  intros Hok. unfold rm_here, here_calls. destruct v as [l|]; simpl.
  - destruct Hok as [Hne Hs]. destruct (decide (pipe ∈ l)) as [Hin|Hno].
    + exists (if is_nil (sset_erase pipe l) then None else Some (sset_erase pipe l)).
      pose proof (sset_erase_ok pipe l Hs) as Hs'. split_and!.
      * f_equal. destruct (decide (reported l)) as [[_ Hd]|Hd]; unfold reported in Hd;
          destruct (sset_erase pipe l) eqn:E; destruct uniq; simpl; rewrite ?app_nil_r; try done;
          exfalso; try (apply Hd; tauto). by destruct Hd.
      * destruct (sset_erase pipe l) eqn:E; simpl; [done|by split].
      * by destruct (sset_erase pipe l).
    + exists (Some l). rewrite decide_False by (intros [? _]; done). split_and!; [done|by split|].
      simpl. by rewrite sset_erase_absent.
  - by exists None.
Qed.

(** The callbacks at a node and below it. *)
Lemma here_calls_below t l :
  StronglySorted lex_lt l ->
  (forall p, p ∈ l <-> exists d q, p = d :: q /\ reported (subs t p)) ->
  StronglySorted lex_lt (here_calls (subs t []) ++ l) /\
  forall p, p ∈ here_calls (subs t []) ++ l <-> reported (subs t p).
Proof.
  intros Hs Hin. unfold here_calls. split.
  - destruct (decide _); simpl; [|done]. constructor; [done|].
    apply Forall_forall. by intros p (d & q & -> & _)%Hin.
  - intros p. rewrite elem_of_app, Hin. destruct (decide (reported (subs t []))) as [Hr|Hr].
    + rewrite list_elem_of_singleton. destruct p as [|d q]; [tauto|]. split.
      * intros [?|(d' & q' & ? & ?)]; done.
      * intros. right. eauto.
    + destruct p as [|d q].
      * split; [intros [?%not_elem_of_nil|(d & q & ? & _)]; done|done].
      * split; [intros [?%not_elem_of_nil|(d' & q' & ? & ?)]; done|]. intros. right. eauto.
Qed.

(** Rebuilding a node whose children have been swept. *)
Lemma wf_swept t t' (v : pipes_t) :
  wf t -> shape t' -> val t' = v -> ok v ->
  default [] v = sset_erase pipe (subs t []) ->
  (forall d, slot_ok (child t d) (child t' d)) ->
  wf t' /\ forall p, subs t' p = sset_erase pipe (subs t p).
Proof.
  intros Hw Hs Hv Hok Hd Hc. split.
  - constructor; [by rewrite Hv|done|..]; intros d x E; specialize (Hc d); rewrite E in Hc;
      (destruct (child t d) as [nd|]; [|done]); destruct Hc as (nd' & Hw' & _ & E');
      destruct (is_redundant nd') eqn:Er; simplify_eq; done.
  - intros [|d q]; [rewrite subs_nil; unfold pipes; by rewrite Hv|].
    rewrite !subs_cons. specialize (Hc d). destruct (child t d) as [nd|]; simpl in Hc.
    + destruct Hc as (nd' & Hw' & Hsub & ->). destruct (is_redundant nd') eqn:Er; [|done].
      rewrite <- Hsub. by rewrite subs_redundant.
    + by rewrite Hc.
Qed.

Lemma rm_pipe_spec t : wf t -> forall buff, removes t buff (rm_pipe pipe uniq t buff).
Proof.
  intros Hw0. pose proof Hw0 as Hw. induction Hw as [t Hok Hs Hwch IH Hlive]. intros buff.
  destruct (rm_here_spec (val t) buff Hok) as (v' & Eh & Hok' & Hd).
  change (default [] (val t)) with (subs t []) in Eh, Hd.
  destruct t as [v mn cnt live nx]; simpl in Eh. simpl rm_pipe. rewrite Eh. unfold removes.
  set (t := Node v mn cnt live nx) in *. pose proof Hs as Hs1.
  destruct Hs as [H0 Hl Hu|ch H1 Hl Hu Hn|T a b H2 Hm Hm' Hn Hlen Ha Hb Hl]; simpl in *.
  - rewrite (proj2 (Z.eqb_eq cnt 0) H0).
    destruct (here_calls_below t []) as [Hso Hin]; [constructor| |].
    { intros p. split; [by intros ?%not_elem_of_nil|]. intros (d & q & -> & Hr).
      rewrite subs_cons, child_leaf in Hr by done. by apply not_reported_nil in Hr. }
    rewrite app_nil_r in *. eexists _, _. split; [reflexivity|].
    assert (Hs' : shape (Node v' mn cnt live nx)) by (by apply shape_leaf).
    destruct (wf_swept t (Node v' mn cnt live nx) v' Hw0 Hs' eq_refl Hok' Hd) as [Hw' Hsub].
    { intros d. unfold t. by rewrite !child_leaf. }
    exact (conj Hw' (conj Hso (conj Hin Hsub))).
  - subst cnt nx; simpl.
    assert (Hcd : forall d, child t d = if decide (d = mn) then Some ch else None).
    { intros d. by apply (child_node t (Some ch)). }
    assert (Hch : child t mn = Some ch) by (by rewrite Hcd, decide_True).
    destruct (IH mn ch Hch (Hwch _ _ Hch) (buff ++ [mn])) as (l & nd' & -> & Hw' & Hsl & Hin & Hsub).
    simpl. destruct (here_calls_below t (map (cons mn) l)) as [Hso Hin'];
      [by apply lex_sorted_map_cons| |].
    { intros p. rewrite elem_of_map_cons. split.
      - intros (q & -> & Hq%Hin). exists mn, q. split; [done|]. by rewrite subs_cons, Hch.
      - intros (d & q & -> & Hr). rewrite subs_cons, Hcd in Hr. case_decide as Hdm.
        + subst d. exists q. split; [done|]. by apply Hin.
        + by apply not_reported_nil in Hr. }
    assert (Hslot : forall d o, (o = if is_redundant nd' then None else Some nd') ->
      slot_ok (child t d) (if decide (d = mn) then o else None)).
    { intros d o ->. rewrite Hcd. case_decide; [|done]. exists nd'. done. }
    rewrite map_app_snoc, <- map_app. destruct (is_redundant nd') eqn:Er.
    + rewrite Hl. change (u16 (1 - 1)) with 0. simpl. eexists _, _. split; [reflexivity|].
      assert (Hs' : shape (Node v' mn 0 0 (NextNode None))) by (by apply shape_leaf).
      destruct (wf_swept t (Node v' mn 0 0 (NextNode None)) v' Hw0 Hs' eq_refl Hok' Hd) as [Hw2 Hsub2].
      { intros d. rewrite (child_leaf (Node _ _ 0 _ _)) by done.
        specialize (Hslot d None eq_refl). by destruct (decide (d = mn)). }
      exact (conj Hw2 (conj Hso (conj Hin' Hsub2))).
    + eexists _, _. split; [reflexivity|].
      assert (Hs' : shape (Node v' mn 1 live (NextNode (Some nd')))) by (by apply (shape_one _ nd')).
      destruct (wf_swept t _ v' Hw0 Hs' eq_refl Hok' Hd) as [Hw2 Hsub2].
      { intros d. rewrite (child_node (Node _ _ 1 _ _) (Some nd')) by done.
        exact (Hslot d (Some nd') eq_refl). }
      exact (conj Hw2 (conj Hso (conj Hin' Hsub2))).
  - subst nx. assert (Ht : tabled t T) by (constructor; simpl; done || lia).
    destruct (Z.eqb_spec cnt 0); [lia|]. destruct (Z.eqb_spec cnt 1); [lia|].
    assert (Hchild : forall (i : nat) o, T !! i = Some o -> child t (mn + Z.of_nat i) = o).
    { intros i o E. rewrite (child_table t T) by done. simpl.
      destruct (Z.leb_spec mn (mn + Z.of_nat i)); [|lia].
      replace (Z.to_nat (mn + Z.of_nat i - mn)) with i by lia. by rewrite E. }
    destruct (sweep_spec mn cnt buff T 0 live (u8 (mn + cnt - 1)) mn)
      as (s & l & Es & Hcs & Hsl & Hin & Hf & Hsw & Hmi & Hma); try lia.
    { intros nd Hnd b0. apply list_elem_of_lookup in Hnd as [i Ei].
      pose proof (Hchild i _ Ei) as Hci. exact (IH _ _ Hci (Hwch _ _ Hci) b0). }
    { pose proof (nlive_le T). lia. }
    rewrite Z.add_0_r in Hin, Hmi, Hma. rewrite u8_small in Es, Hmi by lia.
    rewrite u8_small by lia. rewrite Es. cbn [obind].
    pose proof (Forall2_length _ _ _ Hf) as Hlens.
    destruct (compact_swept_spec v' mn cnt s) as (t' & Et & Hs' & Hv' & Hc'); try done; try lia.
    rewrite Et. cbn [obind].
    destruct (here_calls_below t l Hsl) as [Hso Hin'].
    { intros p. rewrite Hin. split.
      - intros (i & nd & q & Ei & -> & Hr). exists (mn + Z.of_nat i), q. split; [done|].
        by rewrite subs_cons, (Hchild i _ Ei).
      - intros (d & q & -> & Hr). rewrite subs_cons in Hr.
        destruct (child t d) as [nd|] eqn:Ed; [|by apply not_reported_nil in Hr].
        rewrite (child_table t T) in Ed by done. simpl in Ed.
        destruct (Z.leb_spec mn d); [|done].
        destruct (T !! Z.to_nat (d - mn)) as [o|] eqn:Eo; [|done]. simpl in Ed. subst o.
        exists (Z.to_nat (d - mn)), nd, q. split; [done|]. split; [f_equal; lia|done]. }
    rewrite Hcs, <- map_app. eexists _, _. split; [reflexivity|].
    destruct (wf_swept t t' v' Hw0 Hs' Hv' Hok' Hd) as [Hw2 Hsub2].
    { intros d. rewrite Hc'. rewrite (child_table t T), (child_table _ (swept s)) by (simpl; done || lia).
      simpl. destruct (mn <=? d); [|done].
      destruct (T !! Z.to_nat (d - mn)) as [o|] eqn:Eo.
      - destruct (Forall2_lookup_l _ _ _ _ _ Hf Eo) as (o' & -> & Ho). done.
      - apply lookup_ge_None_1 in Eo. by rewrite lookup_ge_None_2 by lia. }
    exact (conj Hw2 (conj Hso (conj Hin' Hsub2))).
Qed.
End rm_pipe.

(** ** Runs and their specification *)

Inductive op : Type :=
| Add (p : list Z) (pipe : nat)
| Rm (p : list Z) (pipe : nat)
| RmPipe (pipe : nat) (call_on_uniq : bool)
| Match (data : list Z).

Inductive answer : Type :=
| Added (first : bool)
| Removed (r : rm_result)
| Reported (prefixes : list (list Z))
| Matched (pipes : list nat).

Definition op_bytes (o : op) : Prop :=
  match o with Add p _ => bytes p | _ => True end.

Definition step (t : mtrie_t) (o : op) : outcome (answer * mtrie_t) :=
  match o with
  | Add p pipe => let* (b, t) := add t p pipe in Done (Added b, t)
  | Rm p pipe => let* (r, t) := rm t p pipe in Done (Removed r, t)
  | RmPipe pipe u => let* (l, t) := rm_pipe pipe u t [] in Done (Reported l, t)
  | Match data => let* l := match_ t data in Done (Matched l, t)
  end.

Fixpoint run (t : mtrie_t) (os : list op) : outcome (list answer * mtrie_t) :=
  match os with
  | [] => Done ([], t)
  | o :: os =>
      let* (a, t) := step t o in
      let* (l, t) := run t os in
      Done (a :: l, t)
  end.

(** The specification: a table of sets of pipes, every prefix having one. *)
Definition table : Type := list Z -> list nat.

Inductive spec_step (R : table) : op -> answer -> table -> Prop :=
| spec_add p pipe :
    spec_step R (Add p pipe) (Added (is_nil (R p)))
      (fun q => if decide (q = p) then sset_insert pipe (R p) else R q)
| spec_rm p pipe :
    spec_step R (Rm p pipe) (Removed (classify pipe (R p)))
      (fun q => if decide (q = p) then sset_erase pipe (R p) else R q)
| spec_rm_pipe pipe u l :
    StronglySorted lex_lt l -> (forall p, p ∈ l <-> reported pipe u (R p)) ->
    spec_step R (RmPipe pipe u) (Reported l) (fun q => sset_erase pipe (R q))
| spec_match data :
    spec_step R (Match data) (Matched (flat_map R (prefixes data))) R.

Inductive spec_run (R : table) : list op -> list answer -> table -> Prop :=
| spec_done : spec_run R [] [] R
| spec_more o os a l R' R'' :
    spec_step R o a R' -> spec_run R' os l R'' -> spec_run R (o :: os) (a :: l) R''.

Definition implements (t : mtrie_t) (R : table) : Prop := wf t /\ forall p, subs t p = R p.

Lemma mtrie_step_refines t R o :
  implements t R -> op_bytes o ->
  exists a t' R', step t o = Done (a, t') /\ spec_step R o a R' /\ implements t' R'.
Proof.
  intros [Hw Hr] Ho. destruct o as [p pipe|p pipe|pipe u|data]; simpl in *.
  - destruct (mtrie_add_spec p t pipe) as (t' & -> & Hw' & Hq); [done|done|].
    rewrite Hr in *. eexists _, t', _. split; [done|]. split; [constructor|]. split; [done|].
    intros q. by rewrite Hq, Hr.
  - destruct (mtrie_rm_spec p t pipe Hw) as (t' & -> & Hw' & Hq).
    rewrite Hr in *. eexists _, t', _. split; [done|]. split; [constructor|]. split; [done|].
    intros q. by rewrite Hq, Hr.
  - destruct (rm_pipe_spec pipe u t Hw []) as (l & t' & -> & Hw' & Hs & Hin & Hq). simpl.
    rewrite map_id. eexists _, t', _. split; [done|]. split.
    + constructor; [done|]. intros p. by rewrite Hin, Hr.
    + split; [done|]. intros q. simpl. by rewrite Hq, Hr.
  - rewrite mtrie_match_spec by done. simpl. eexists _, t, _. split; [done|]. split; [|by split].
    replace (flat_map (subs t) (prefixes data)) with (flat_map R (prefixes data)); [constructor|].
    apply flat_map_ext. intros p. by rewrite Hr.
Qed.

Lemma mtrie_run_refines os t R :
  implements t R -> Forall op_bytes os ->
  exists l t' R', run t os = Done (l, t') /\ spec_run R os l R' /\ implements t' R'.
Proof.
  revert t R. induction os as [|o os IH]; intros t R Hi Hf; cbn [run].
  - exists [], t, R. split; [done|]. split; [constructor|done].
  - apply Forall_cons in Hf as [Ho Hf].
    destruct (mtrie_step_refines t R o Hi Ho) as (a & t1 & R1 & -> & Hs & Hi1). simpl.
    destruct (IH t1 R1 Hi1 Hf) as (l & t2 & R2 & -> & Hrun & Hi2). simpl.
    exists (a :: l), t2, R2. split; [done|]. split; [by econstructor|done].
Qed.

Lemma mtrie_implements_new : implements mtrie_new (fun _ => []).
Proof. split; [apply wf_mtrie_new|apply subs_mtrie_new]. Qed.

(** ** Properties *)

(** A multi-trie refines a table of sets of pipes.  Any sequence of [add],
    [rm], [rm] of a pipe and [match] calls runs without a failing assertion or an
    out-of-range access; [add] reports the first subscriber of a prefix, [rm]
    whether the subscription existed and was the last, the removal of a pipe calls
    back for exactly the prefixes the specification reports, in lexicographic
    order, and [match] calls the subscribers of each prefix of the message. *)
Theorem mtrie_refines_table os :
  Forall op_bytes os ->
  exists l t R, run mtrie_new os = Done (l, t) /\ spec_run (fun _ => []) os l R /\
    forall p, subs t p = R p.
Proof.
  intros Hf. destruct (mtrie_run_refines os _ _ mtrie_implements_new Hf) as (l & t & R & E & Hs & _ & Hr).
  exists l, t, R. done.
Qed.

(** Once a pipe has been removed no message matches it: after any sequence
    of calls that ends with [rm] of the pipe, [match] never calls back with it,
    whatever the message. *)
Theorem mtrie_removed_pipe_unreachable os pipe u data :
  Forall op_bytes os ->
  exists l t m, run mtrie_new (os ++ [RmPipe pipe u]) = Done (l, t) /\
    match_ t data = Done m /\ pipe ∉ m.
Proof.
  intros Hf. assert (Hrun : forall t os1 os2 l1 t1, run t os1 = Done (l1, t1) ->
    run t (os1 ++ os2) = let* (l2, t2) := run t1 os2 in Done (l1 ++ l2, t2)).
  { intros t os1 os2. revert t. induction os1 as [|o os1 IH]; intros t l1 t1 E; cbn [run app] in *.
    - injection E as <- <-. by destruct (run t os2) as [[]|].
    - destruct (step t o) as [[a t']|]; simpl in *; [|done].
      destruct (run t' os1) as [[l' t'']|] eqn:Er; simpl in *; [|done]. injection E as <- <-.
      rewrite (IH _ _ _ Er). by destruct (run t'' os2) as [[]|]. }
  destruct (mtrie_run_refines os _ _ mtrie_implements_new Hf) as (l & t & R & E & _ & Hw & _).
  rewrite (Hrun _ _ _ _ _ E). simpl.
  destruct (rm_pipe_spec pipe u t Hw []) as (lc & t' & -> & Hw' & _ & _ & Hq). simpl.
  eexists _, t', _. split; [done|]. split; [by apply mtrie_match_spec|].
  intros Hin. apply list_elem_of_In, in_flat_map in Hin as (p & _ & Hp).
  rewrite Hq in Hp. apply list_elem_of_In, elem_of_sset_erase in Hp as [? _]. done.
Qed.

(** ** Witnesses *)

Definition sample_ops : list op :=
  [Add [97; 98] 1; Add [97] 2; Add [97; 98] 3; Add [99] 1; Match [97; 98; 99];
   Rm [97] 1; Rm [97] 2; RmPipe 1 true; Match [99]; Add [] 4; Match [97; 98]].

Lemma mtrie_refines_table_witness :
  Forall op_bytes sample_ops /\
  exists l t R, run mtrie_new sample_ops = Done (l, t) /\ spec_run (fun _ => []) sample_ops l R /\
    forall p, subs t p = R p.
Proof.
  assert (Forall op_bytes sample_ops) as H.
  { repeat constructor; unfold is_u8; simpl; lia. }
  split; [exact H|]. apply mtrie_refines_table. exact H.
Defined.

Lemma mtrie_removed_pipe_unreachable_witness :
  exists l t m, run mtrie_new (sample_ops ++ [RmPipe 3 false]) = Done (l, t) /\
    match_ t [97; 98; 100] = Done m /\ 3%nat ∉ m.
Proof.
  apply (mtrie_removed_pipe_unreachable sample_ops 3 false [97; 98; 100]).
  repeat constructor; unfold is_u8; simpl; lia.
Defined.

End Mtrie.
