(* ===== verification/Msg.v ===== *)
(** * Msg: messages and their reference-counted contents (libzmq/src/msg.cpp)

    A [msg_t] is the 64-byte union of the source: its [type] selects the body.
    Long messages point to a [content_t] kept in the heap of the model, whose
    reference counter is meaningful only while the message has the [shared] flag.
    Freeing a content removes it from the heap; using one that is not there is
    [Crash], so a [Done] means no use after free and no double free. *)

From S2P Require Import Prelude.

Module Msg.

(** Message flags. *)
Definition more : Z := 1.
Definition command : Z := 2.
Definition credential : Z := 32.
Definition routing_id_flag : Z := 64.
Definition shared : Z := 128.

Definition msg_t_size : Z := 64.
Definition max_vsm_size : Z := msg_t_size - (8 + 3 + 16 + 4).
Definition ZMQ_GROUP_MAX_LENGTH : Z := 15.

(** [content_t]: [ffn] is the user's deallocation function, if any; [refcnt] counts
    references only once the message is shared. *)
Record content : Type := Content { c_data : list Z; c_ffn : option nat; refcnt : Z }.

(** [u.base.type] with the members of the union it selects. *)
Inductive body : Type :=
| Vsm (data : list Z)
| Lmsg (c : nat)
| Delimiter
| Cmsg (data : list Z)
| Zclmsg (c : nat)
| Join
| Leave
| Invalid.

Record msg : Type := Msg {
  u : body;
  flags : Z;
  group : list Z;
  routing_id : Z;
  metadata : option nat
}.

(** Contents by address, the next address [malloc] returns, metadata reference
    counts, and the calls [ffn (data, hint)] made so far. *)
Record memory : Type := Memory {
  heap : gmap nat content;
  next_addr : nat;
  metas : gmap nat Z;
  ffn_calls : list nat
}.

Definition memory0 : memory := Memory empty 0 empty [].

Abbreviation M := (stm memory).

Definition set_heap (h : gmap nat content) (m : memory) : memory :=
  Memory h (next_addr m) (metas m) (ffn_calls m).

(** [check] *)
Definition check (m : msg) : bool := match u m with Invalid => false | _ => true end.

(** The fields every initialisation resets. *)
Definition fresh (b : body) : msg := Msg b 0 [] 0 None.

Definition init : msg := fresh (Vsm []).
Definition init_delimiter : msg := fresh Delimiter.
Definition init_join : msg := fresh Join.
Definition init_leave : msg := fresh Leave.

Definition malloc (c : content) : M nat :=
  fun m => Done (Memory (<[next_addr m := c]> (heap m)) (S (next_addr m)) (metas m) (ffn_calls m),
                 next_addr m).

(** The content a pointer denotes. *)
Definition content_at (c : nat) : M content := fun m => let* x := deref (heap m !! c) in Done (m, x).

Definition set_content (c : nat) (x : content) : M unit :=
  fun m => match heap m !! c with
           | Some _ => Done (set_heap (<[c := x]> (heap m)) m, tt)
           | None => Crash
           end.

(** [ffn (data, hint)] if there is one, then [free (content)]. *)
Definition free_content (c : nat) : M unit :=
  fun m => let* x := deref (heap m !! c) in
           Done (Memory (delete c (heap m)) (next_addr m) (metas m)
                        (match c_ffn x with Some f => f :: ffn_calls m | None => ffn_calls m end), tt).

(** [atomic_counter_t::add], [set] and [sub], which tells whether the counter is
    not zero afterwards. *)
Definition rc_add (c : nat) (n : Z) : M unit :=
  let! x := content_at c in set_content c (Content (c_data x) (c_ffn x) (u32 (refcnt x + n))).
Definition rc_set (c : nat) (n : Z) : M unit :=
  let! x := content_at c in set_content c (Content (c_data x) (c_ffn x) (u32 n)).
Definition rc_sub (c : nat) (n : Z) : M bool :=
  let! x := content_at c in
  let v := u32 (refcnt x - n) in
  set_content c (Content (c_data x) (c_ffn x) v) ;;; sret (negb (v =? 0)).

Definition is_shared (m : msg) : bool := negb (Z.land (flags m) shared =? 0).
Definition is_delimiter (m : msg) : bool := match u m with Delimiter => true | _ => false end.
Definition is_vsm (m : msg) : bool := match u m with Vsm _ => true | _ => false end.
Definition is_cmsg (m : msg) : bool := match u m with Cmsg _ => true | _ => false end.
Definition is_zcmsg (m : msg) : bool := match u m with Zclmsg _ => true | _ => false end.
Definition is_join (m : msg) : bool := match u m with Join => true | _ => false end.
Definition is_leave (m : msg) : bool := match u m with Leave => true | _ => false end.
Definition is_routing_id (m : msg) : bool := Z.land (flags m) routing_id_flag =? routing_id_flag.
Definition is_credential (m : msg) : bool := Z.land (flags m) credential =? credential.

Definition set_flags (f : Z) (m : msg) : msg :=
  Msg (u m) (Z.lor (flags m) f) (group m) (routing_id m) (metadata m).
Definition reset_flags (f : Z) (m : msg) : msg :=
  Msg (u m) (Z.land (flags m) (Z.lxor 255 f)) (group m) (routing_id m) (metadata m).
Definition set_body (b : body) (m : msg) : msg :=
  Msg b (flags m) (group m) (routing_id m) (metadata m).
Definition with_metadata (d : option nat) (m : msg) : msg :=
  Msg (u m) (flags m) (group m) (routing_id m) d.

Section Alloc.
(** Whether [malloc] of so many bytes succeeds. *)
Context (can_malloc : Z -> bool).

Definition sizeof_content : Z := 40.

(** [init_size]: the bytes are not initialised (zero here); -1 is [ENOMEM]. *)
Definition init_size (size : Z) : M (Z * msg) :=
  if (size <=? max_vsm_size) then sret (0, fresh (Vsm (replicate (Z.to_nat size) 0)))
  else if (size <? u64 (sizeof_content + size)) && can_malloc (sizeof_content + size) then
    let! c := malloc (Content (replicate (Z.to_nat size) 0) None 0) in sret (0, fresh (Lmsg c))
  else sret (-1, fresh Invalid).

(** [init_external_storage]: the content's storage is the caller's. *)
Definition init_external_storage (data : list Z) (ffn : option nat) : M (Z * msg) :=
  let! c := malloc (Content data ffn 0) in sret (0, fresh (Zclmsg c)).

(** [init_data]; without [ffn] the data are constant. *)
Definition init_data (data : list Z) (ffn : option nat) : M (Z * msg) :=
  match ffn with
  | None => sret (0, fresh (Cmsg data))
  | Some _ =>
    if can_malloc sizeof_content then
      let! c := malloc (Content data ffn 0) in sret (0, fresh (Lmsg c))
    else sret (-1, fresh Invalid)
  end.

Definition data (m : msg) : M (list Z) :=
  match u m with
  | Vsm d | Cmsg d => sret d
  | Lmsg c | Zclmsg c => let! x := content_at c in sret (c_data x)
  | _ => scrash
  end.

Definition size (m : msg) : M Z := let! d := data m in sret (Z.of_nat (length d)).

(** [memcpy (data (), src, size)] by the owner of the message. *)
Definition fill (src : list Z) (m : msg) : M msg :=
  match u m with
  | Vsm d => sassert (bool_decide (length src <= length d)%nat) ;;;
             sret (set_body (Vsm (src ++ drop (length src) d)) m)
  | Lmsg c | Zclmsg c =>
      let! x := content_at c in
      sassert (bool_decide (length src <= length (c_data x))%nat) ;;;
      set_content c (Content (src ++ drop (length src) (c_data x)) (c_ffn x) (refcnt x)) ;;; sret m
  | _ => scrash
  end.

(** [init (data, size, ffn, hint, content)]; [external] when [content] is given. *)
Definition init_buffer (buf : list Z) (ffn : option nat) (external : bool) : M (Z * msg) :=
  if (Z.of_nat (length buf) <? max_vsm_size) then
    let! (rc, m) := init_size (Z.of_nat (length buf)) in
    if (rc =? -1) then sret (-1, m) else let! m := fill buf m in sret (0, m)
  else if external then init_external_storage buf ffn
  else init_data buf ffn.

(** ** Metadata counters *)

Definition meta_add_ref (d : nat) : M unit :=
  fun m => let* n := deref (metas m !! d) in
           Done (Memory (heap m) (next_addr m) (<[d := u32 (n + 1)]> (metas m)) (ffn_calls m), tt).

(** [drop_ref], and [delete] when it was the last. *)
Definition meta_drop (d : nat) : M unit :=
  fun m => let* n := deref (metas m !! d) in
           let n := u32 (n - 1) in
           Done (Memory (heap m) (next_addr m)
                        (if (n =? 0) then delete d (metas m) else <[d := n]> (metas m))
                        (ffn_calls m), tt).

Definition set_metadata (d : nat) (m : msg) : M msg :=
  sassert (bool_decide (metadata m = None)) ;;; meta_add_ref d ;;; sret (with_metadata (Some d) m).

Definition reset_metadata (m : msg) : M msg :=
  match metadata m with
  | Some d => meta_drop d ;;; sret (with_metadata None m)
  | None => sret m
  end.

(** ** close, move, copy *)

(** The content goes when it is not shared or its last reference goes. *)
Definition release (c : nat) (m : msg) : M unit :=
  if negb (is_shared m) then free_content c
  else let! alive := rc_sub c 1 in if negb alive then free_content c else sret tt.

Definition close (m : msg) : M (Z * msg) :=
  if negb (check m) then sret (-1, m)
  else
    match u m with
    | Lmsg c => release c m
    | Zclmsg c => (let! x := content_at c in sassert (bool_decide (c_ffn x <> None))) ;;; release c m
    | _ => sret tt
    end ;;;
    let! m := reset_metadata m in
    sret (0, set_body Invalid m).

(** [dst.move (src)]: the new [dst] and [src]. *)
Definition move (dst src : msg) : M (Z * msg * msg) :=
  if negb (check src) then sret (-1, dst, src)
  else
    let! (rc, dst) := close dst in
    if (rc <? 0) then sret (rc, dst, src) else sret (0, src, init).

(** A reference more to the content of [src], which becomes shared. *)
Definition share (c : nat) (src : msg) : M msg :=
  if is_shared src then rc_add c 1 ;;; sret src
  else rc_set c 2 ;;; sret (set_flags shared src).

Definition copy (dst src : msg) : M (Z * msg * msg) :=
  if negb (check src) then sret (-1, dst, src)
  else
    let! (rc, dst) := close dst in
    if (rc <? 0) then sret (rc, dst, src)
    else
      let! src := match u src with
                  | Lmsg c | Zclmsg c => share c src
                  | _ => sret src
                  end in
      match metadata src with Some d => meta_add_ref d | None => sret tt end ;;;
      sret (0, src, src).

(** ** References for plain copies *)

Definition add_refs (refs : Z) (m : msg) : M msg :=
  sassert (0 <=? refs) ;;;
  sassert (bool_decide (metadata m = None)) ;;;
  if (refs =? 0) then sret m
  else match u m with
       | Lmsg c | Zclmsg c =>
         if is_shared m then rc_add c refs ;;; sret m
         else rc_set c (refs + 1) ;;; sret (set_flags shared m)
       | _ => sret m
       end.

(** The result tells whether the message is still valid. *)
Definition rm_refs (refs : Z) (m : msg) : M (bool * msg) :=
  sassert (0 <=? refs) ;;;
  sassert (bool_decide (metadata m = None)) ;;;
  if (refs =? 0) then sret (true, m)
  else match u m with
       | Lmsg c | Zclmsg c =>
         if is_shared m then
           let! alive := rc_sub c refs in
           if negb alive then free_content c ;;; sret (false, m) else sret (true, m)
         else let! (_, m) := close m in sret (false, m)
       | _ => let! (_, m) := close m in sret (false, m)
       end.

(** ** Routing id and group *)

Definition get_routing_id (m : msg) : Z := routing_id m.

Definition set_routing_id (r : Z) (m : msg) : Z * msg :=
  if (r =? 0) then (-1, m) else (0, Msg (u m) (flags m) (group m) r (metadata m)).

Definition reset_routing_id (m : msg) : Z * msg :=
  (0, Msg (u m) (flags m) (group m) 0 (metadata m)).

(** The C string up to its terminator. *)
Fixpoint c_string (l : list Z) : list Z :=
  match l with
  | [] => []
  | c :: l => if (c =? 0) then [] else c :: c_string l
  end.

(** [set_group (group, length)]: [strncpy] stops at a zero byte. *)
Definition set_group (g : list Z) (len : Z) (m : msg) : Z * msg :=
  if (ZMQ_GROUP_MAX_LENGTH <? len) then (-1, m)
  else (0, Msg (u m) (flags m) (c_string (take (Z.to_nat len) g)) (routing_id m) (metadata m)).
End Alloc.

(** ** Ownership

    A program holds messages in variables.  [refs c vs] counts those that point to
    the content [c]. *)

Definition ptr (m : msg) : option nat :=
  match u m with Lmsg c | Zclmsg c => Some c | _ => None end.

Abbreviation vars := (gmap nat msg).

Definition refs (c : nat) (vs : vars) : nat := base.size (filter (fun p => ptr p.2 = Some c) vs).

Definition points (m : msg) (c : nat) : nat := if decide (ptr m = Some c) then 1%nat else 0%nat.

Lemma refs_insert c v m vs :
  vs !! v = None -> refs c (<[v := m]> vs) = (points m c + refs c vs)%nat.
Proof.
  intros Hv. unfold refs, points. destruct (decide (ptr m = Some c)).
  - rewrite map_filter_insert_True by done. rewrite map_size_insert_None; [done|].
    by apply map_lookup_filter_None; left.
  - rewrite map_filter_insert_False by done. by rewrite delete_id.
Qed.

Lemma refs_delete c v m vs :
  vs !! v = Some m -> refs c vs = (points m c + refs c (delete v vs))%nat.
Proof.
  intros Hv. rewrite <- (insert_delete_id vs v m Hv) at 1.
  apply refs_insert, lookup_delete_eq.
Qed.

Lemma refs_pos c v m vs : vs !! v = Some m -> ptr m = Some c -> (1 <= refs c vs)%nat.
Proof. intros Hv Hp. rewrite (refs_delete c v m vs Hv). unfold points. rewrite decide_True by done. lia. Qed.

Lemma refs_le c vs : (refs c vs <= base.size vs)%nat.
Proof. unfold refs. apply map_size_filter. Qed.

Lemma refs_other c v m w m' vs :
  vs !! v = Some m -> ptr m = Some c -> vs !! w = Some m' -> ptr m' = Some c ->
  refs c vs = 1%nat -> w = v.
Proof.
  intros Hv Hp Hw Hp' H1. destruct (decide (w = v)) as [|Hne]; [done|]. exfalso.
  rewrite (refs_delete c v m vs Hv) in H1. unfold points in H1. rewrite decide_True in H1 by done.
  pose proof (refs_pos c w m' (delete v vs) ltac:(by rewrite lookup_delete_ne) Hp'). lia.
Qed.

(** A variable's message is valid and its counter is right. *)
Definition owns (mem : memory) (vs : vars) (m : msg) : Prop :=
  check m = true /\ metadata m = None /\
  forall c, ptr m = Some c -> exists x, heap mem !! c = Some x /\
    (is_zcmsg m = true -> c_ffn x <> None) /\
    if is_shared m then refcnt x = Z.of_nat (refs c vs) else refs c vs = 1%nat.

Record inv (mem : memory) (vs : vars) : Prop := {
  inv_owns : forall v m, vs !! v = Some m -> owns mem vs m;
  inv_leak : forall c, is_Some (heap mem !! c) -> (0 < refs c vs)%nat;
  inv_fresh : forall c, is_Some (heap mem !! c) -> (c < next_addr mem)%nat;
  inv_size : Z.of_nat (base.size vs) < 2 ^ 32
}.

Lemma inv_empty : inv memory0 empty.
Proof.
  split; [by intros v m; rewrite lookup_empty| | |reflexivity];
    intros c [x E]; unfold memory0 in E; simpl in E; by rewrite lookup_empty in E.
Qed.

(** The bytes of a message. *)
Definition contents (mem : memory) (m : msg) : option (list Z) :=
  match u m with
  | Vsm d | Cmsg d => Some d
  | Lmsg c | Zclmsg c => c_data <$> heap mem !! c
  | _ => Some []
  end.

(** Every content that is still there has the same bytes. *)
Definition same_data (mem mem' : memory) : Prop :=
  forall c x', heap mem' !! c = Some x' -> exists x, heap mem !! c = Some x /\ c_data x = c_data x'.

Lemma contents_same mem mem' vs m :
  same_data mem mem' -> owns mem' vs m -> contents mem' m = contents mem m.
Proof.
  intros Hs (_ & _ & Hp). unfold contents, ptr in *. destruct (u m) as [| c| | |c| | |]; try done;
    destruct (Hp c eq_refl) as (x & Ex & _); destruct (Hs c x Ex) as (y & Ey & Ed);
    rewrite Ex, Ey; simpl; by rewrite Ed.
Qed.

(** ** Releasing a reference *)
Lemma content_at_done mem c x : heap mem !! c = Some x -> content_at c mem = Done (mem, x).
Proof. unfold content_at. by intros ->. Qed.

Lemma set_content_done mem c x y :
  heap mem !! c = Some x -> set_content c y mem = Done (set_heap (<[c := y]> (heap mem)) mem, tt).
Proof. unfold set_content. by intros ->. Qed.

Lemma rc_sub_done mem c x n :
  heap mem !! c = Some x ->
  rc_sub c n mem = Done (set_heap (<[c := Content (c_data x) (c_ffn x) (u32 (refcnt x - n))]> (heap mem)) mem,
                         negb (u32 (refcnt x - n) =? 0)).
Proof.
  intros E. unfold rc_sub. rewrite (sbind_done _ _ _ _ _ (content_at_done _ _ _ E)).
  by rewrite (sbind_done _ _ _ _ _ (set_content_done _ _ _ _ E)).
Qed.

(** What dropping [n] references to [c] leaves: the content goes with the last. *)
Definition dropped (mem mem' : memory) (c : nat) (n : Z) : Prop :=
  exists x, heap mem !! c = Some x /\ next_addr mem' = next_addr mem /\
    heap mem' = if decide (refcnt x = n) then delete c (heap mem)
                else <[c := Content (c_data x) (c_ffn x) (refcnt x - n)]> (heap mem).

Lemma free_after_sub mem c x n :
  heap mem !! c = Some x -> 0 <= n <= refcnt x -> refcnt x < 2 ^ 32 ->
  exists mem', (let! alive := rc_sub c n in if negb alive then free_content c else sret tt) mem
    = Done (mem', tt) /\ dropped mem mem' c n.
Proof.
  intros E Hn Hb. rewrite (sbind_done _ _ _ _ _ (rc_sub_done _ _ _ n E)).
  rewrite u32_small by lia. unfold dropped. destruct (Z.eqb_spec (refcnt x - n) 0) as [H0|H0]; simpl.
  - unfold free_content; simpl. rewrite lookup_insert_eq; simpl. eexists; split; [reflexivity|].
    exists x. simpl. rewrite decide_True by lia. by rewrite delete_insert_eq.
  - eexists; split; [reflexivity|]. exists x. simpl. rewrite decide_False by lia. done.
Qed.

Lemma points_eq m c c' : ptr m = Some c -> points m c' = if decide (c' = c) then 1%nat else 0%nat.
Proof. intros E. unfold points. rewrite E. repeat case_decide; congruence. Qed.

Lemma points_none m c : ptr m = None -> points m c = 0%nat.
Proof. intros E. unfold points. by rewrite E. Qed.

Lemma refs_delete_none c v m vs : vs !! v = Some m -> ptr m = None -> refs c (delete v vs) = refs c vs.
Proof. intros Hv Hp. rewrite (refs_delete c v m vs Hv). by rewrite points_none. Qed.

Lemma size_delete_le v (vs : vars) : (base.size (delete v vs) <= base.size vs)%nat.
Proof. rewrite map_size_delete. destruct (vs !! v); simpl; lia. Qed.

(** Removing a variable whose message has no content. *)
Lemma inv_delete_none mem vs v m : inv mem vs -> vs !! v = Some m -> ptr m = None -> inv mem (delete v vs).
Proof.
  intros [Ho Hl Hf Hz] Hv Hp.
  split; [| |done|pose proof (size_delete_le v vs); lia].
  - intros w m' Hw. rewrite lookup_delete_Some in Hw. destruct Hw as [Hne Hw].
    destruct (Ho w m' Hw) as (Hc & Hm & Hx). split; [done|]. split; [done|]. intros c Ec.
    destruct (Hx c Ec) as (x & Ex & Hz' & Hr). exists x. by rewrite (refs_delete_none _ _ _ _ Hv Hp).
  - intros c Hc. rewrite (refs_delete_none _ _ _ _ Hv Hp). auto.
Qed.

(** Removing a variable together with its reference. *)
Lemma inv_delete_ptr mem mem' vs v m c x :
  inv mem vs -> vs !! v = Some m -> ptr m = Some c -> heap mem !! c = Some x ->
  next_addr mem' = next_addr mem ->
  heap mem' = (if decide (refs c vs = 1%nat) then delete c (heap mem)
               else <[c := Content (c_data x) (c_ffn x) (Z.of_nat (refs c vs) - 1)]> (heap mem)) ->
  inv mem' (delete v vs) /\ same_data mem mem'.
Proof.
  intros [Ho Hl Hf Hz] Hv Hp Ex Hn Hh. pose proof (refs_pos c v m vs Hv Hp) as Hpos.
  assert (Hr : forall c', refs c' vs = ((if decide (c' = c) then 1 else 0) + refs c' (delete v vs))%nat).
  { intros c'. rewrite (refs_delete c' v m vs Hv). by rewrite (points_eq m c c' Hp). }
  assert (Hlook : forall c' y, heap mem' !! c' = Some y ->
    exists z, heap mem !! c' = Some z /\ c_data z = c_data y).
  { intros c' y. rewrite Hh. case_decide.
    - intros [? ?]%lookup_delete_Some. eauto.
    - intros [[<- <-]|[? ?]]%lookup_insert_Some; eauto. }
  split; [split|done].
  - intros w m' Hw. rewrite lookup_delete_Some in Hw. destruct Hw as [Hne Hw].
    destruct (Ho w m' Hw) as (Hc & Hm & Hx). split; [done|]. split; [done|]. intros c' Ec.
    destruct (Hx c' Ec) as (y & Ey & Hz' & Hrc). specialize (Hr c').
    destruct (decide (c' = c)) as [->|Hcc].
    + rewrite Ex in Ey. injection Ey as <-.
      assert (refs c vs <> 1%nat) as H1.
      { intros H1. destruct Hne. symmetry. by apply (refs_other c v m w m' vs). }
      rewrite Hh, decide_False, lookup_insert_eq by done. eexists; split; [done|]. split; [done|].
      destruct (is_shared m'); [simpl; lia|lia].
    + exists y. split; [|split; [done|]].
      * rewrite Hh. case_decide; [by rewrite lookup_delete_ne|by rewrite lookup_insert_ne].
      * destruct (is_shared m'); lia.
  - intros c' Hc'. specialize (Hr c'). rewrite Hh in Hc'. destruct (decide (c' = c)) as [->|Hcc].
    + case_decide as H1; [rewrite lookup_delete_eq in Hc'; by destruct Hc'|]. lia.
    + specialize (Hl c'). rewrite Hr in Hl. simpl in Hl. apply Hl.
      case_decide; [by rewrite lookup_delete_ne in Hc'|by rewrite lookup_insert_ne in Hc'].
  - intros c' [y Hy]. rewrite Hn. destruct (Hlook c' y Hy) as (z & Hz' & _). eauto.
  - pose proof (size_delete_le v vs). lia.
Qed.

Lemma refs_bound mem vs c : inv mem vs -> Z.of_nat (refs c vs) < 2 ^ 32.
Proof. intros Hi. pose proof (inv_size _ _ Hi). pose proof (refs_le c vs). lia. Qed.

(** [release] of a variable's content. *)
Lemma release_spec mem vs v m c :
  inv mem vs -> vs !! v = Some m -> ptr m = Some c ->
  exists mem', release c m mem = Done (mem', tt) /\ inv mem' (delete v vs) /\ same_data mem mem'.
Proof.
  intros Hi Hv Hp. destruct (inv_owns _ _ Hi v m Hv) as (_ & _ & Hx).
  destruct (Hx c Hp) as (x & Ex & _ & Hr). pose proof (refs_pos c v m vs Hv Hp) as Hpos.
  pose proof (refs_bound mem vs c Hi) as Hb. unfold release.
  destruct (is_shared m) eqn:Es; cbn [negb].
  - destruct (free_after_sub mem c x 1 Ex) as (mem' & E & y & Ey & Hn & Hh); [lia|lia|].
    rewrite Ex in Ey. injection Ey as <-. exists mem'. split; [exact E|].
    apply (inv_delete_ptr mem mem' vs v m c x); try done. rewrite Hh, Hr.
    destruct (decide (refs c vs = 1%nat)) as [->|]; [by rewrite decide_True|].
    by rewrite decide_False by lia.
  - unfold free_content. rewrite Ex. simpl. eexists; split; [reflexivity|].
    apply (inv_delete_ptr mem _ vs v m c x); try done. simpl. by rewrite decide_True.
Qed.

Lemma close_spec mem vs v m :
  inv mem vs -> vs !! v = Some m ->
  exists mem', close m mem = Done (mem', (0, set_body Invalid m))
    /\ inv mem' (delete v vs) /\ same_data mem mem'.
Proof.
  intros Hi Hv. destruct (inv_owns _ _ Hi v m Hv) as (Hc & Hm & Hx). unfold close. rewrite Hc; simpl.
  assert (Hmeta : forall mem', (let! m := reset_metadata m in sret (0, set_body Invalid m)) mem'
                  = Done (mem', (0, set_body Invalid m))).
  { intros mem'. unfold reset_metadata. by rewrite Hm. }
  destruct (ptr m) as [c|] eqn:Hp.
  - destruct (release_spec mem vs v m c Hi Hv Hp) as (mem' & E & Hi' & Hs).
    exists mem'. split; [|done]. destruct (Hx c eq_refl) as (x & Ex & Hz & _).
    unfold ptr, is_zcmsg in *. destruct (u m); try done; injection Hp as ->.
    + rewrite (sbind_done _ _ _ _ _ E). apply Hmeta.
    + rewrite <- (Hmeta mem'). unfold sbind at 1. unfold sbind at 1. unfold sbind at 1.
      rewrite (content_at_done _ _ _ Ex). simpl. unfold sassert.
      rewrite bool_decide_eq_true_2 by auto. simpl. by rewrite E.
  - exists mem. split; [|split; [by apply (inv_delete_none mem vs v m)|intros c x; eauto]].
    unfold ptr in Hp. rewrite <- (Hmeta mem). by destruct (u m).
Qed.

(** ** Adding variables and references *)

(** Plain copies of a message into the variables [ds]. *)
Definition insert_all (ds : list nat) (m : msg) (vs : vars) : vars :=
  foldr (fun d vs => <[d := m]> vs) vs ds.

Lemma lookup_insert_all ds m (vs : vars) w :
  insert_all ds m vs !! w = if decide (w ∈ ds) then Some m else vs !! w.
Proof.
  induction ds as [|d ds IH]; [done|]. simpl. fold (insert_all ds m vs).
  rewrite lookup_insert, IH. destruct (decide (d = w)) as [->|].
  - by rewrite decide_True by constructor.
  - destruct (decide (w ∈ ds)); [by rewrite decide_True by by constructor|].
    rewrite decide_False; [done|]. rewrite elem_of_cons. intuition congruence.
Qed.

Definition unused (ds : list nat) (vs : vars) : Prop := NoDup ds /\ forall d, d ∈ ds -> vs !! d = None.

Lemma refs_insert_all c ds m vs :
  unused ds vs -> refs c (insert_all ds m vs) = (length ds * points m c + refs c vs)%nat.
Proof.
  intros [Hnd Hf]. induction ds as [|d ds IH]; simpl; [done|]. apply NoDup_cons in Hnd as [Hd Hnd].
  rewrite refs_insert.
  - rewrite IH; [lia|done|]. intros d' ?. apply Hf. by constructor.
  - rewrite lookup_insert_all, decide_False by done. apply Hf. constructor.
Qed.

Lemma size_insert_all ds m vs :
  unused ds vs -> base.size (insert_all ds m vs) = (length ds + base.size vs)%nat.
Proof.
  intros [Hnd Hf]. induction ds as [|d ds IH]; simpl; [done|]. apply NoDup_cons in Hnd as [Hd Hnd].
  rewrite map_size_insert_None.
  - f_equal. apply IH; [done|]. intros d' ?. apply Hf. by constructor.
  - rewrite lookup_insert_all, decide_False by done. apply Hf. constructor.
Qed.

Lemma inv_insert_none mem vs ds m :
  inv mem vs -> unused ds vs -> ptr m = None -> check m = true -> metadata m = None ->
  Z.of_nat (length ds + base.size vs) < 2 ^ 32 -> inv mem (insert_all ds m vs).
Proof.
  intros [Ho Hl Hf Hz] Hu Hp Hc Hm Hs.
  assert (Hr : forall c, refs c (insert_all ds m vs) = refs c vs).
  { intros c. rewrite refs_insert_all, points_none by done. lia. }
  split; [| |done|by rewrite size_insert_all].
  - intros w m' Hw. rewrite lookup_insert_all in Hw. case_decide.
    + injection Hw as <-. split; [done|]. split; [done|]. by rewrite Hp.
    + destruct (Ho w m' Hw) as (? & ? & Hx). split; [done|]. split; [done|].
      intros c Ec. destruct (Hx c Ec) as (x & ? & ? & ?). exists x. by rewrite Hr.
  - intros c Hc'. rewrite Hr. auto.
Qed.

(** A new content, owned by one new variable. *)
Lemma inv_malloc mem vs v m x c :
  inv mem vs -> vs !! v = None -> c = next_addr mem -> ptr m = Some c -> check m = true ->
  metadata m = None -> is_shared m = false -> (is_zcmsg m = true -> c_ffn x <> None) ->
  Z.of_nat (S (base.size vs)) < 2 ^ 32 ->
  let mem' := Memory (<[c := x]> (heap mem)) (S (next_addr mem)) (metas mem) (ffn_calls mem) in
  inv mem' (<[v := m]> vs) /\ forall c' y, heap mem !! c' = Some y -> heap mem' !! c' = Some y.
Proof.
  intros [Ho Hl Hf Hz] Hv -> Hp Hc Hm Hs Hffn Hsz mem'.
  assert (Hnew : heap mem !! next_addr mem = None).
  { destruct (heap mem !! next_addr mem) eqn:E; [|done]. specialize (Hf (next_addr mem) ltac:(eauto)). lia. }
  assert (H0 : refs (next_addr mem) vs = 0%nat).
  { destruct (refs (next_addr mem) vs) eqn:E; [done|]. exfalso.
    assert (exists w m', vs !! w = Some m' /\ ptr m' = Some (next_addr mem)) as (w & m' & Hw & Hp').
    { unfold refs in E. destruct (map_size_ne_0_lookup_1 (filter (fun p => ptr p.2 = Some (next_addr mem)) vs))
        as [w [m' Hw]]; [lia|]. apply map_lookup_filter_Some in Hw as [? ?]. eauto. }
    destruct (Ho w m' Hw) as (_ & _ & Hx). destruct (Hx _ Hp') as (y & Ey & _). congruence. }
  assert (Hr : forall c', refs c' (<[v := m]> vs) = ((if decide (c' = next_addr mem) then 1 else 0) + refs c' vs)%nat).
  { intros c'. rewrite refs_insert by done. by rewrite (points_eq m (next_addr mem) c' Hp). }
  split; [split|].
  - intros w m' [[<- <-]|[Hne Hw]]%lookup_insert_Some.
    + split; [done|]. split; [done|]. intros c' Ec. rewrite Hp in Ec. injection Ec as <-.
      exists x. simpl. rewrite lookup_insert_eq, Hs, Hr, decide_True, H0 by done. done.
    + destruct (Ho w m' Hw) as (? & ? & Hx). split; [done|]. split; [done|].
      intros c' Ec. destruct (Hx c' Ec) as (y & Ey & ? & ?). exists y. simpl.
      assert (c' <> next_addr mem) by congruence.
      by rewrite Hr, decide_False, lookup_insert_ne by done.
  - intros c' Hc'. rewrite Hr. case_decide; [lia|]. apply Hl. simpl in Hc'. by rewrite lookup_insert_ne in Hc'.
  - intros c' [y Hy]. simpl in *. apply lookup_insert_Some in Hy as [[<- _]|[_ Hy]]; [lia|].
    specialize (Hf c' ltac:(eauto)). lia.
  - by rewrite map_size_insert_None.
  - intros c' y Hy. simpl. rewrite lookup_insert_ne; [done|congruence].
Qed.

(** The reference of [src] is replaced by those of the variables [ds]. *)
Lemma inv_replace mem mem' vs src m m' ds c x r :
  inv mem vs -> vs !! src = Some m -> ptr m = Some c -> heap mem !! c = Some x ->
  unused ds (delete src vs) -> ptr m' = Some c -> is_zcmsg m' = is_zcmsg m -> metadata m' = None ->
  Z.of_nat (length ds + base.size (delete src vs)) < 2 ^ 32 ->
  (is_shared m = true -> is_shared m' = true) ->
  let n := (length ds + refs c (delete src vs))%nat in
  (n <> 0%nat -> if is_shared m' then r = Z.of_nat n else n = 1%nat) ->
  next_addr mem' = next_addr mem ->
  heap mem' = (if decide (n = 0%nat) then delete c (heap mem)
               else <[c := Content (c_data x) (c_ffn x) r]> (heap mem)) ->
  inv mem' (insert_all ds m' (delete src vs)) /\ same_data mem mem'.
Proof.
  intros [Ho Hl Hf Hz] Hv Hp Ex Hu Hp' Hzc Hm' Hsz Hsh n Hn Hnext Hh.
  assert (Hr : forall c', refs c' (insert_all ds m' (delete src vs))
             = (if decide (c' = c) then n else refs c' vs)%nat).
  { intros c'. rewrite refs_insert_all by done. rewrite (points_eq m' c c' Hp').
    destruct (decide (c' = c)) as [->|Hcc]; [unfold n; lia|].
    rewrite (refs_delete c' src m vs Hv), (points_eq m c c' Hp), decide_False by done. lia. }
  assert (Hlook : forall c' y, heap mem' !! c' = Some y ->
    exists z, heap mem !! c' = Some z /\ c_data z = c_data y).
  { intros c' y. rewrite Hh. case_decide.
    - intros [? ?]%lookup_delete_Some. eauto.
    - intros [[<- <-]|[? ?]]%lookup_insert_Some; eauto. }
  assert (Hother : forall c', c' <> c -> heap mem' !! c' = heap mem !! c').
  { intros c' Hne. rewrite Hh. case_decide; [by rewrite lookup_delete_ne|by rewrite lookup_insert_ne]. }
  destruct (Ho src m Hv) as (Hcm & _ & Hxm). destruct (Hxm c Hp) as (x0 & Ex0 & Hffn & Hrc).
  rewrite Ex in Ex0. injection Ex0 as <-.
  split; [split|done].
  - intros w q Hw. rewrite lookup_insert_all in Hw. destruct (decide (w ∈ ds)) as [Hin|Hin].
    + injection Hw as <-. split; [unfold ptr, check in *; by destruct (u m')|]. split; [done|].
      intros c' Ec. rewrite Hp' in Ec. injection Ec as <-.
      assert (n <> 0%nat) as Hn0 by (unfold n; destruct ds; [by apply not_elem_of_nil in Hin|simpl; lia]).
      exists (Content (c_data x) (c_ffn x) r). rewrite Hh, decide_False, lookup_insert_eq by done.
      rewrite Hr, decide_True by done. split; [done|]. split; [by rewrite Hzc|]. simpl. exact (Hn Hn0).
    + rewrite lookup_delete_Some in Hw. destruct Hw as [Hne Hw].
      destruct (Ho w q Hw) as (Hc & Hm & Hx). split; [done|]. split; [done|]. intros c' Ec.
      destruct (Hx c' Ec) as (y & Ey & Hz' & Hq). rewrite Hr. destruct (decide (c' = c)) as [->|Hcc].
      * rewrite Ex in Ey. injection Ey as <-.
        pose proof (refs_pos c w q (delete src vs) ltac:(by rewrite lookup_delete_ne) Ec) as Hd.
        assert (n <> 0%nat) as Hn0 by (unfold n; lia).
        assert (is_shared m' = true) as Hs'.
        { apply Hsh. destruct (is_shared m); [done|]. exfalso. destruct Hne. symmetry.
          by apply (refs_other c src m w q vs). }
        assert (is_shared q = true) as Hsq.
        { destruct (is_shared q); [done|]. exfalso. destruct Hne.
          by apply (refs_other c w q src m vs). }
        rewrite Hh, decide_False, lookup_insert_eq, Hsq by done. specialize (Hn Hn0). rewrite Hs' in Hn.
        eexists; split; [done|]. done.
      * exists y. by rewrite Hother.
  - intros c' Hc'. rewrite Hr. destruct (decide (c' = c)) as [->|Hcc].
    + rewrite Hh in Hc'. case_decide as Hn0; [rewrite lookup_delete_eq in Hc'; by destruct Hc'|]. lia.
    + apply Hl. by rewrite <- Hother.
  - intros c' [y Hy]. rewrite Hnext. destruct (Hlook c' y Hy) as (z & Hz' & _). eauto.
  - by rewrite size_insert_all.
Qed.

(** ** Programs over message variables *)

Record state : Type := State { mem : memory; vs : vars }.

Definition state0 : state := State memory0 empty.

(** [Distribute src ds failed] is what [dist_t::distribute] and [lb_t] do with a
    message: references for all the pipes, a plain copy into each pipe that takes it
    ([ds]), the references of the others dropped, and [src] initialised again. *)
Inductive op : Type :=
| Init (v : nat)
| InitSize (v : nat) (n : Z)
| InitBuffer (v : nat) (buf : list Z) (ffn : option nat) (external : bool)
| Close (v : nat)
| Move (dst src : nat)
| Copy (dst src : nat)
| Distribute (src : nat) (ds : list nat) (failed : Z).

Section Programs.
Context (can_malloc : Z -> bool).

(** A message from a fallible initialisation is kept only on success. *)
Definition keep (v : nat) (r : outcome (memory * (Z * msg))) (st : state) : outcome state :=
  let* (m, (rc, x)) := r in
  Done (State m (if (rc =? 0) then <[v := x]> (vs st) else vs st)).

Definition step (o : op) (st : state) : outcome state :=
  match o with
  | Init v => Done (State (mem st) (<[v := init]> (vs st)))
  | InitSize v n => keep v (init_size can_malloc n (mem st)) st
  | InitBuffer v buf ffn ext => keep v (init_buffer can_malloc buf ffn ext (mem st)) st
  | Close v =>
      let* m := deref (vs st !! v) in
      let* (mm, _) := close m (mem st) in Done (State mm (delete v (vs st)))
  | Move dst src =>
      let* d := deref (vs st !! dst) in
      let* s := deref (vs st !! src) in
      let* (mm, (_, d, s)) := move d s (mem st) in
      Done (State mm (<[dst := d]> (<[src := s]> (vs st))))
  | Copy dst src =>
      let* d := deref (vs st !! dst) in
      let* s := deref (vs st !! src) in
      let* (mm, (_, d, s)) := copy d s (mem st) in
      Done (State mm (<[dst := d]> (<[src := s]> (vs st))))
  | Distribute src ds failed =>
      let* s := deref (vs st !! src) in
      let* (mm, s) := add_refs (Z.of_nat (length ds) + failed - 1) s (mem st) in
      let* (mm, _) := rm_refs failed s mm in
      Done (State mm (<[src := init]> (insert_all ds s (vs st))))
  end.

(** What the interface asks of its caller: initialise only free variables, use only
    initialised ones, and the documented conditions on the arguments. *)
Definition pre (o : op) (st : state) : Prop :=
  match o with
  | Init v | InitSize v _ => vs st !! v = None
  | InitBuffer v buf ffn ext =>
      vs st !! v = None /\ (ext = true -> ffn <> None)
  | Close v => is_Some (vs st !! v)
  | Move dst src | Copy dst src => dst <> src /\ is_Some (vs st !! dst) /\ is_Some (vs st !! src)
  | Distribute src ds failed =>
      is_Some (vs st !! src) /\ unused ds (vs st) /\
      0 <= failed /\ 1 <= Z.of_nat (length ds) + failed /\
      Z.of_nat (length ds + base.size (vs st)) + failed < 2 ^ 32
  end.

(** The bytes of each variable: messages as values. *)
Definition value (st : state) (v : nat) : option (list Z) := vs st !! v ≫= contents (mem st).

Definition upd (v : nat) (x : option (list Z)) (f : nat -> option (list Z)) : nat -> option (list Z) :=
  fun w => if decide (w = v) then x else f w.

Definition spec_step (o : op) (f : nat -> option (list Z)) : nat -> option (list Z) :=
  match o with
  | Init v => upd v (Some []) f
  | InitSize v n => upd v (Some (replicate (Z.to_nat n) 0)) f
  | InitBuffer v buf _ _ => upd v (Some buf) f
  | Close v => upd v None f
  | Move dst src => upd dst (f src) (upd src (Some []) f)
  | Copy dst src => upd dst (f src) f
  | Distribute src ds _ => fun w => if decide (w = src) then Some []
                                    else if decide (w ∈ ds) then f src else f w
  end.

(** Only an initialisation that runs out of memory has no effect. *)
Definition fallible (o : op) : bool :=
  match o with InitSize _ _ | InitBuffer _ _ _ _ => true | _ => false end.

Definition good (st : state) : Prop := inv (mem st) (vs st).

(** A step from a good state. *)
Definition step_ok (o : op) (st : state) (r : outcome state) : Prop :=
  exists st', r = Done st' /\ good st' /\
    ((forall v, value st' v = spec_step o (value st) v)
     \/ (fallible o = true /\ st' = st)).

(** Variables other than those written keep their bytes. *)
Lemma value_same mm mm' (vs0 vs1 : vars) w m :
  same_data mm mm' -> inv mm' vs1 -> vs1 !! w = Some m -> vs0 !! w = Some m ->
  value (State mm' vs1) w = value (State mm vs0) w.
Proof.
  intros Hs Hi H1 H0. unfold value; simpl. rewrite H1, H0; simpl.
  apply (contents_same mm mm' vs1); [done|]. by apply (inv_owns _ _ Hi w).
Qed.

Lemma step_close st v : good st -> pre (Close v) st -> step_ok (Close v) st (step (Close v) st).
Proof.
  intros Hi [m Hv]. unfold step. rewrite Hv; simpl.
  destruct (close_spec (mem st) (vs st) v m Hi Hv) as (mm & -> & Hi' & Hs). simpl.
  eexists; split; [reflexivity|]. split; [exact Hi'|]. left. intros w. simpl. unfold upd.
  destruct (decide (w = v)) as [->|Hne]; [unfold value; simpl; by rewrite lookup_delete_eq|].
  destruct (vs st !! w) as [q|] eqn:Hw.
  - apply (value_same (mem st) mm (vs st) _ w q); simpl; try done. by rewrite lookup_delete_ne.
  - unfold value; simpl. by rewrite lookup_delete_ne, Hw.
Qed.

Lemma owned_value st v m : vs st !! v = Some m -> value st v = contents (mem st) m.
Proof. intros E. unfold value. by rewrite E. Qed.

(** A plain copy that takes the place of its source. *)
Lemma inv_move mm vs0 src s dst :
  inv mm vs0 -> vs0 !! src = Some s -> vs0 !! dst = None -> inv mm (<[dst := s]> (delete src vs0)).
Proof.
  intros Hi Hs Hd. change (<[dst := s]> (delete src vs0)) with (insert_all [dst] s (delete src vs0)).
  assert (Hu : unused [dst] (delete src vs0)).
  { split; [apply NoDup_singleton|]. intros d ->%list_elem_of_singleton. apply lookup_delete_None; auto. }
  assert (Hsz : Z.of_nat (length [dst] + base.size (delete src vs0)) < 2 ^ 32).
  { pose proof (inv_size _ _ Hi). rewrite (map_size_delete src vs0), Hs. simpl length.
    assert (base.size vs0 <> 0%nat) by (apply map_size_ne_0_lookup; eauto). lia. }
  destruct (inv_owns _ _ Hi src s Hs) as (Hc & Hm & Hx).
  destruct (ptr s) as [c|] eqn:Hp.
  - destruct (Hx c eq_refl) as (x & Ex & Hz & Hr).
    assert (Hn : refs c vs0 = (length [dst] + refs c (delete src vs0))%nat).
    { rewrite (refs_delete c src s vs0 Hs), (points_eq s c c Hp), decide_True by done. done. }
    destruct (inv_replace mm mm vs0 src s s [dst] c x (refcnt x) Hi Hs Hp Ex Hu Hp eq_refl Hm Hsz)
      as [H _]; [done| |done| |exact H].
    + intros _. rewrite <- Hn. exact Hr.
    + rewrite <- Hn. pose proof (refs_pos c src s vs0 Hs Hp). rewrite decide_False by lia.
      symmetry. apply insert_id. by destruct x.
  - apply inv_insert_none; try done. by apply (inv_delete_none mm vs0 src s).
Qed.

(** Overwriting the source of a plain copy with a message without content. *)
Lemma inv_insert_init mm vs0 v :
  inv mm vs0 -> vs0 !! v = None -> Z.of_nat (S (base.size vs0)) < 2 ^ 32 -> inv mm (<[v := init]> vs0).
Proof.
  intros Hi Hv Hz. apply (inv_insert_none mm vs0 [v] init Hi); try done.
  split; [apply NoDup_singleton|]. by intros d ->%list_elem_of_singleton.
Qed.

Lemma size_delete_some (vs0 : vars) v m :
  vs0 !! v = Some m -> S (base.size (delete v vs0)) = base.size vs0.
Proof.
  intros E. rewrite (map_size_delete v vs0), E.
  assert (base.size vs0 <> 0%nat) by (apply map_size_ne_0_lookup; eauto). simpl. lia.
Qed.

Lemma step_move st dst src :
  good st -> pre (Move dst src) st -> step_ok (Move dst src) st (step (Move dst src) st).
Proof.
  intros Hi (Hne & [d Hd] & [s Hs]). unfold step. rewrite Hd, Hs; simpl.
  destruct (inv_owns _ _ Hi src s Hs) as (Hc & _ & _). unfold move. rewrite Hc. cbn [negb].
  destruct (close_spec (mem st) (vs st) dst d Hi Hd) as (mm & E & Hi1 & Hsame).
  rewrite (sbind_done _ _ _ _ _ E). simpl.
  assert (Hs1 : delete dst (vs st) !! src = Some s) by (by rewrite lookup_delete_ne).
  assert (Hd1 : delete dst (vs st) !! dst = None) by apply lookup_delete_eq.
  pose proof (inv_move mm _ src s dst Hi1 Hs1 Hd1) as Hi2.
  assert (Heq : <[dst := s]> (<[src := init]> (vs st))
          = <[src := init]> (<[dst := s]> (delete src (delete dst (vs st))))).
  { apply map_eq. intros w. rewrite !lookup_insert, !lookup_delete. by repeat case_decide; subst. }
  rewrite Heq. eexists; split; [reflexivity|].
  assert (Hi3 : inv mm (<[src := init]> (<[dst := s]> (delete src (delete dst (vs st)))))).
  { apply inv_insert_init; [done|by rewrite lookup_insert_ne, lookup_delete_eq by done|].
    pose proof (inv_size _ _ Hi). rewrite map_size_insert_None by (by rewrite lookup_delete_ne).
    pose proof (size_delete_some _ _ _ Hs1). pose proof (size_delete_some _ _ _ Hd). lia. }
  split; [exact Hi3|]. left. intros w. simpl. unfold upd.
  destruct (decide (w = dst)) as [->|].
  { unfold value; simpl. rewrite lookup_insert_ne, lookup_insert_eq, Hs by done. simpl.
    eapply (contents_same (mem st) mm); [exact Hsame|].
    apply (inv_owns _ _ Hi3 dst). by rewrite lookup_insert_ne, lookup_insert_eq. }
  destruct (decide (w = src)) as [->|]; [unfold value; simpl; by rewrite lookup_insert_eq|].
  assert (Hw' : <[src := init]> (<[dst := s]> (delete src (delete dst (vs st)))) !! w = vs st !! w).
  { by rewrite !lookup_insert_ne, !lookup_delete_ne. }
  destruct (vs st !! w) as [q|] eqn:Hw.
  - by apply (value_same (mem st) mm (vs st) _ w q).
  - unfold value; simpl. by rewrite Hw', Hw.
Qed.

(** Making a reference for each of [n] plain copies. *)
Lemma shared_set m : is_shared (set_flags shared m) = true.
Proof.
  unfold is_shared, set_flags; simpl. apply negb_true_iff, Z.eqb_neq. intros H.
  assert (Hb : Z.testbit (Z.land (Z.lor (flags m) shared) shared) 7 = true).
  { rewrite Z.land_spec, Z.lor_spec. unfold shared. by rewrite orb_true_r. }
  rewrite H in Hb. by rewrite Z.bits_0 in Hb.
Qed.

Lemma rc_add_done mm c x n :
  heap mm !! c = Some x ->
  rc_add c n mm = Done (set_heap (<[c := Content (c_data x) (c_ffn x) (u32 (refcnt x + n))]> (heap mm)) mm, tt).
Proof.
  intros E. unfold rc_add. rewrite (sbind_done _ _ _ _ _ (content_at_done _ _ _ E)).
  by rewrite (set_content_done _ _ _ _ E).
Qed.

Lemma rc_set_done mm c x n :
  heap mm !! c = Some x ->
  rc_set c n mm = Done (set_heap (<[c := Content (c_data x) (c_ffn x) (u32 n)]> (heap mm)) mm, tt).
Proof.
  intros E. unfold rc_set. rewrite (sbind_done _ _ _ _ _ (content_at_done _ _ _ E)).
  by rewrite (set_content_done _ _ _ _ E).
Qed.

(** [add_refs] on an owned content: the counter, if it is used, counts the [n] new
    references too. *)
Lemma add_refs_spec mm vs0 v m c x n :
  inv mm vs0 -> vs0 !! v = Some m -> ptr m = Some c -> heap mm !! c = Some x ->
  0 <= n -> Z.of_nat (refs c vs0) + n < 2 ^ 32 ->
  exists m' r, add_refs n m mm
    = Done (set_heap (<[c := Content (c_data x) (c_ffn x) r]> (heap mm)) mm, m')
    /\ u m' = u m /\ metadata m' = None /\ (is_shared m = true -> is_shared m' = true)
    /\ (if is_shared m' then r = Z.of_nat (refs c vs0) + n else n = 0 /\ refs c vs0 = 1%nat).
Proof.
  intros Hi Hv Hp Ex Hn Hb. destruct (inv_owns _ _ Hi v m Hv) as (Hc & Hm & Hx).
  destruct (Hx c Hp) as (x0 & Ex0 & _ & Hr). rewrite Ex in Ex0. injection Ex0 as <-.
  pose proof (refs_pos c v m vs0 Hv Hp).
  unfold add_refs. rewrite !sbind_done with (a := tt) (s1 := mm)
    by (apply sassert_done; first [by apply bool_decide_eq_true_2 | zb; (done || lia)]).
  destruct (Z.eqb_spec n 0) as [->|Hn0].
  { exists m, (refcnt x). split.
    { unfold sret. f_equal. f_equal. unfold set_heap. destruct mm; simpl in *. f_equal.
      symmetry. apply insert_id. rewrite Ex. by destruct x. }
    split_and!; try done. destruct (is_shared m); [lia|done]. }
  assert (Hshare : forall b, u m = b -> (ptr m = Some c) ->
    exists m' r, (if is_shared m then rc_add c n ;;; sret m
                  else rc_set c (n + 1) ;;; sret (set_flags shared m)) mm
      = Done (set_heap (<[c := Content (c_data x) (c_ffn x) r]> (heap mm)) mm, m')
      /\ u m' = u m /\ metadata m' = None /\ (is_shared m = true -> is_shared m' = true)
      /\ (if is_shared m' then r = Z.of_nat (refs c vs0) + n else n = 0 /\ refs c vs0 = 1%nat)).
  { intros b _ _. destruct (is_shared m) eqn:Es.
    - rewrite (sbind_done _ _ _ _ _ (rc_add_done _ _ _ _ Ex)). eexists m, _. split; [reflexivity|].
      split_and!; try done. rewrite Es. rewrite u32_small by lia. lia.
    - rewrite (sbind_done _ _ _ _ _ (rc_set_done _ _ _ _ Ex)). eexists _, _. split; [reflexivity|].
      split_and!; try done. rewrite shared_set. rewrite u32_small by lia. lia. }
  unfold ptr in Hp. destruct (u m) eqn:Eu; try done; injection Hp as ->;
    (eapply Hshare; [reflexivity|]); unfold ptr; by rewrite Eu.
Qed.

Lemma share_add_refs c m mm :
  ptr m = Some c -> metadata m = None -> share c m mm = add_refs 1 m mm.
Proof.
  intros Hp Hm. unfold add_refs. rewrite !sbind_done with (a := tt) (s1 := mm)
    by (apply sassert_done; by rewrite ?Hm). simpl.
  unfold ptr in Hp. by destruct (u m); try done; injection Hp as ->.
Qed.

Lemma add_refs_none n m mm :
  ptr m = None -> metadata m = None -> 0 <= n -> add_refs n m mm = Done (mm, m).
Proof.
  intros Hp Hm Hn. unfold add_refs. rewrite !sbind_done with (a := tt) (s1 := mm)
    by (apply sassert_done; first [by rewrite Hm | zb; (done || lia)]).
  destruct (n =? 0); [done|]. unfold ptr in Hp. by destruct (u m).
Qed.

(** The values after [src]'s bytes have been copied into [ds] and [src] set to [x]. *)
Lemma value_copies st mm' vs' src s s' (ds : list nat) :
  same_data (mem st) mm' -> inv mm' vs' -> vs st !! src = Some s -> u s' = u s -> src ∉ ds ->
  vs' !! src = Some init ->
  (forall w, w <> src -> vs' !! w = if decide (w ∈ ds) then Some s' else vs st !! w) ->
  forall w, value (State mm' vs') w
    = if decide (w = src) then Some [] else if decide (w ∈ ds) then value st src else value st w.
Proof.
  intros Hsame Hi Hs Hu Hds Hsrc Hl w. destruct (decide (w = src)) as [->|Hne].
  { unfold value; simpl. by rewrite Hsrc. }
  specialize (Hl w Hne). destruct (decide (w ∈ ds)) as [Hin|Hin].
  - unfold value; simpl. rewrite Hl, Hs; simpl.
    rewrite (contents_same (mem st) mm' vs') by (done || by apply (inv_owns _ _ Hi w)).
    unfold contents. by rewrite Hu.
  - destruct (vs st !! w) as [q|] eqn:Hw.
    + by apply (value_same (mem st) mm' (vs st) _ w q).
    + unfold value; simpl. by rewrite Hl, Hw.
Qed.

Lemma step_copy st dst src :
  good st -> pre (Copy dst src) st -> step_ok (Copy dst src) st (step (Copy dst src) st).
Proof.
  intros Hi (Hne & [d Hd] & [s Hs]). unfold step. rewrite Hd, Hs; simpl.
  destruct (inv_owns _ _ Hi src s Hs) as (Hc & Hm & _). unfold copy. rewrite Hc. cbn [negb].
  destruct (close_spec (mem st) (vs st) dst d Hi Hd) as (mm & E & Hi1 & Hsame).
  rewrite (sbind_done _ _ _ _ _ E). simpl. clear E.
  assert (Hs1 : delete dst (vs st) !! src = Some s) by (by rewrite lookup_delete_ne).
  assert (Hu : unused [dst; src] (delete src (delete dst (vs st)))).
  { split; [by apply NoDup_cons; split; [rewrite list_elem_of_singleton|apply NoDup_singleton]|].
    intros w [->|[->|?%not_elem_of_nil]%elem_of_cons]%elem_of_cons; [|apply lookup_delete_eq|done].
    by rewrite lookup_delete_ne, lookup_delete_eq. }
  assert (Hsz : Z.of_nat (length [dst; src] + base.size (delete src (delete dst (vs st)))) < 2 ^ 32).
  { pose proof (inv_size _ _ Hi). pose proof (size_delete_some _ _ _ Hs1).
    pose proof (size_delete_some _ _ _ Hd). simpl length. lia. }
  assert (Hmap : forall s', insert_all [dst; src] s' (delete src (delete dst (vs st)))
    = <[dst := s']> (<[src := s']> (vs st))).
  { intros s'. apply map_eq. intros w. simpl. rewrite !lookup_insert, !lookup_delete.
    by repeat case_decide. }
  assert (Hval : forall mm' s', same_data (mem st) mm' ->
    inv mm' (<[dst := s']> (<[src := s']> (vs st))) -> u s' = u s ->
    step_ok (Copy dst src) st (Done (State mm' (<[dst := s']> (<[src := s']> (vs st)))))).
  { intros mm' s' Hsm Hi' Hus. eexists; split; [reflexivity|]. split; [exact Hi'|]. left.
    intros w. simpl. unfold upd.
    assert (Hcs : contents mm' s' = contents (mem st) s).
    { rewrite (contents_same (mem st) mm' (<[dst := s']> (<[src := s']> (vs st)))); [|done|].
      - unfold contents. by rewrite Hus.
      - apply (inv_owns _ _ Hi' dst). apply lookup_insert_eq. }
    destruct (decide (w = dst)) as [->|Hwd].
    { unfold value; simpl. by rewrite lookup_insert_eq, Hs. }
    destruct (decide (w = src)) as [->|Hws].
    { unfold value; simpl. by rewrite lookup_insert_ne, lookup_insert_eq, Hs by done. }
    assert (Hw' : <[dst := s']> (<[src := s']> (vs st)) !! w = vs st !! w) by (by rewrite !lookup_insert_ne).
    destruct (vs st !! w) as [q|] eqn:Hw; [by apply (value_same (mem st) mm' (vs st) _ w q)|].
    unfold value; simpl. by rewrite Hw', Hw. }
  destruct (ptr s) as [c|] eqn:Hp.
  - destruct (inv_owns _ _ Hi1 src s Hs1) as (_ & _ & Hx). destruct (Hx c Hp) as (x & Ex & _ & _).
    pose proof (refs_bound _ _ c Hi1) as Hb. pose proof (refs_le c (delete src (delete dst (vs st)))) as Hle.
    assert (Hr1 : refs c (delete dst (vs st)) = S (refs c (delete src (delete dst (vs st))))).
    { rewrite (refs_delete c src s _ Hs1), (points_eq s c c Hp), decide_True by done. done. }
    simpl length in Hsz.
    destruct (add_refs_spec mm _ src s c x 1 Hi1 Hs1 Hp Ex) as (s' & r & Ea & Hus & Hms & Hsh & Hr);
      [lia|lia|].
    assert (Esh : (let! src0 := match u s with Lmsg c | Zclmsg c => share c s | _ => sret s end in
              match metadata src0 with Some d => meta_add_ref d | None => sret tt end ;;;
              sret (0, src0, src0)) mm
            = Done (set_heap (<[c := Content (c_data x) (c_ffn x) r]> (heap mm)) mm, (0, s', s'))).
    { assert (Em : match u s with Lmsg c | Zclmsg c => share c s | _ => sret s end = share c s).
      { unfold ptr in Hp. by destruct (u s); try done; injection Hp as ->. }
      rewrite Em. unfold sbind at 1. rewrite (share_add_refs c s mm Hp Hm), Ea. simpl.
      by rewrite Hms. }
    rewrite Esh. simpl.
    assert (Hp' : ptr s' = Some c) by (unfold ptr in *; by rewrite Hus).
    destruct (inv_replace mm (set_heap (<[c := Content (c_data x) (c_ffn x) r]> (heap mm)) mm)
      (delete dst (vs st)) src s s' [dst; src] c x r Hi1 Hs1 Hp Ex Hu Hp') as [Hi2 Hs2].
    { unfold is_zcmsg. by rewrite Hus. }
    { done. } { done. } { done. }
    { intros _. simpl length. destruct (is_shared s'); lia. }
    { done. }
    { simpl length. by rewrite decide_False by lia. }
    rewrite Hmap in Hi2. apply (Hval _ s'); [|done|done].
    intros c' y Hy. destruct (Hs2 c' y Hy) as (z & Hz & Ed). destruct (Hsame c' z Hz) as (t & ? & ?).
    exists t. split; [done|congruence].
  - assert (Esh : (let! src0 := match u s with Lmsg c | Zclmsg c => share c s | _ => sret s end in
              match metadata src0 with Some d => meta_add_ref d | None => sret tt end ;;;
              sret (0, src0, src0)) mm = Done (mm, (0, s, s))).
    { unfold ptr in Hp. unfold sbind. destruct (u s); try done; simpl; by rewrite Hm. }
    rewrite Esh. simpl. apply (Hval mm s); [done| |done]. rewrite <- Hmap.
    apply inv_insert_none; try done. by apply (inv_delete_none mm _ src s).
Qed.

Lemma insert_all_delete ds s (vs0 : vars) src x :
  src ∉ ds -> <[src := x]> (insert_all ds s vs0) = <[src := x]> (insert_all ds s (delete src vs0)).
Proof.
  intros Hn. apply map_eq. intros w. rewrite !lookup_insert, !lookup_insert_all, lookup_delete.
  by repeat case_decide.
Qed.

(** What [rm_refs] does to the content of a message that [add_refs] prepared. *)
Lemma rm_refs_spec mm m c x failed rest :
  ptr m = Some c -> metadata m = None -> heap mm !! c = Some x -> 0 <= failed -> 0 <= rest ->
  1 <= rest + failed < 2 ^ 32 ->
  (if is_shared m then refcnt x = rest + failed else rest + failed = 1) ->
  (is_zcmsg m = true -> c_ffn x <> None) ->
  exists mm' b m' r, rm_refs failed m mm = Done (mm', (b, m')) /\ next_addr mm' = next_addr mm /\
    heap mm' = (if decide (rest = 0) then delete c (heap mm)
                else <[c := Content (c_data x) (c_ffn x) r]> (heap mm))
    /\ (is_shared m = true -> r = rest).
Proof.
  intros Hp Hm Ex Hf Hl Hb Hr Hz. unfold rm_refs. rewrite !sbind_done with (a := tt) (s1 := mm)
    by (apply sassert_done; first [by rewrite Hm | zb; (done || lia)]).
  destruct (Z.eqb_spec failed 0) as [->|Hf0].
  { exists mm, true, m, (refcnt x). split; [done|]. split; [done|]. split.
    - rewrite decide_False by lia. symmetry. apply insert_id. rewrite Ex. by destruct x.
    - intros E. rewrite E in Hr. lia. }
  assert (Hsub : is_shared m = true -> exists mm' b m' r,
    (let! alive := rc_sub c failed in
     if negb alive then free_content c ;;; sret (false, m) else sret (true, m)) mm = Done (mm', (b, m'))
    /\ next_addr mm' = next_addr mm /\
    heap mm' = (if decide (rest = 0) then delete c (heap mm)
                else <[c := Content (c_data x) (c_ffn x) r]> (heap mm)) /\ r = rest).
  { intros E. rewrite E in Hr. rewrite (sbind_done _ _ _ _ _ (rc_sub_done _ _ _ failed Ex)).
    rewrite u32_small by lia. destruct (Z.eqb_spec (refcnt x - failed) 0) as [H0|H0]; simpl.
    - unfold sbind, free_content; simpl. rewrite lookup_insert_eq; simpl.
      eexists _, _, _, rest. split; [reflexivity|]. split; [done|]. split; [|done]. simpl.
      rewrite decide_True by lia. by rewrite delete_insert_eq.
    - eexists _, _, _, _. split; [reflexivity|]. split; [done|]. simpl. rewrite decide_False by lia.
      split; [done|]. lia. }
  assert (Hclose : is_shared m = false -> exists mm' m', close m mm = Done (mm', (0, m'))
    /\ next_addr mm' = next_addr mm /\ heap mm' = delete c (heap mm)).
  { intros E. unfold close, ptr, check, is_zcmsg in *.
    destruct (u m) as [| c0| | |c0| | |] eqn:Eu; try done; injection Hp as ->; unfold release; rewrite E;
      unfold sbind, reset_metadata; simpl; rewrite ?(content_at_done _ _ _ Ex); simpl;
      unfold sassert; rewrite ?bool_decide_eq_true_2 by auto; simpl; unfold free_content; rewrite Ex; simpl;
      rewrite Hm; simpl; by eexists _, _. }
  destruct (is_shared m) eqn:Es.
  - destruct (Hsub eq_refl) as (mm' & b & m' & r & E & H1 & H2 & H3).
    exists mm', b, m', r. split; [|done]. rewrite <- E.
    unfold ptr in Hp. by destruct (u m); try done; injection Hp as ->.
  - destruct (Hclose eq_refl) as (mm' & m' & E & H1 & H2).
    exists mm', false, m', 0. rewrite decide_True by lia. split; [|done].
    unfold ptr in Hp. by destruct (u m); try done; unfold sbind; rewrite E.
Qed.

Lemma rm_refs_none n m mm vs0 v :
  inv mm vs0 -> vs0 !! v = Some m -> ptr m = None -> 0 <= n ->
  exists b m', rm_refs n m mm = Done (mm, (b, m')).
Proof.
  intros Hi Hv Hp Hn. destruct (inv_owns _ _ Hi v m Hv) as (Hc & Hm & _). unfold rm_refs.
  rewrite !sbind_done with (a := tt) (s1 := mm)
    by (apply sassert_done; first [by rewrite Hm | zb; (done || lia)]).
  destruct (n =? 0); [by eexists _, _|].
  unfold ptr in Hp. unfold close. rewrite Hc. unfold sbind, reset_metadata. rewrite Hm.
  by destruct (u m); try done; eexists _, _.
Qed.

Lemma step_distribute st src ds failed :
  good st -> pre (Distribute src ds failed) st ->
  step_ok (Distribute src ds failed) st (step (Distribute src ds failed) st).
Proof.
  intros Hi ([s Hs] & [Hnd Hfresh] & Hf & Hpos & Hb). unfold step. rewrite Hs. cbn [deref obind].
  destruct (inv_owns _ _ Hi src s Hs) as (Hc & Hm & Hx).
  assert (Hsrc : src ∉ ds) by (intros Hin; apply Hfresh in Hin; congruence).
  assert (Hu : unused ds (delete src (vs st))).
  { split; [done|]. intros d Hd. apply lookup_delete_None. auto. }
  pose proof (size_delete_some _ _ _ Hs) as Hsz.
  assert (Hfin : forall mm' s', same_data (mem st) mm' -> u s' = u s ->
    inv mm' (insert_all ds s' (delete src (vs st))) ->
    step_ok (Distribute src ds failed) st (Done (State mm' (<[src := init]> (insert_all ds s' (vs st)))))).
  { intros mm' s' Hsame Hus Hi'. rewrite insert_all_delete by done.
    assert (Hi2 : inv mm' (<[src := init]> (insert_all ds s' (delete src (vs st))))).
    { apply inv_insert_init; [done| |].
      - by rewrite lookup_insert_all, decide_False, lookup_delete_eq.
      - rewrite size_insert_all by done. lia. }
    eexists; split; [reflexivity|]. split; [exact Hi2|]. left.
    apply (value_copies st mm' _ src s s' ds); try done; [apply lookup_insert_eq|].
    intros w Hw. rewrite lookup_insert_ne, lookup_insert_all, lookup_delete_ne by done. done. }
  destruct (ptr s) as [c|] eqn:Hp.
  - destruct (Hx c eq_refl) as (x & Ex & Hz & _).
    pose proof (refs_le c (vs st)) as Hle.
    assert (Hr1 : refs c (vs st) = S (refs c (delete src (vs st)))).
    { rewrite (refs_delete c src s _ Hs), (points_eq s c c Hp), decide_True by done. done. }
    destruct (add_refs_spec (mem st) (vs st) src s c x (Z.of_nat (length ds) + failed - 1))
      as (s' & r & Ea & Hus & Hms & Hsh & Hr); try done; [lia|lia|].
    rewrite Ea. cbn [obind]. assert (Hp' : ptr s' = Some c) by (unfold ptr in *; by rewrite Hus).
    set (mm := set_heap _ _). set (n := (length ds + refs c (delete src (vs st)))%nat).
    destruct (rm_refs_spec mm s' c (Content (c_data x) (c_ffn x) r) failed (Z.of_nat n))
      as (mm' & b & m' & r' & E & Hn & Hh & Hr'); try done.
    + simpl. apply lookup_insert_eq.
    + lia.
    + unfold n. lia.
    + simpl. unfold n. destruct (is_shared s'); lia.
    + simpl. unfold is_zcmsg in *. by rewrite Hus.
    + rewrite E. cbn [obind]. apply Hfin; [|done|].
      all: destruct (inv_replace (mem st) mm' (vs st) src s s' ds c x r') as [Hi' Hsame]; try done.
      all: try (unfold is_zcmsg; by rewrite Hus).
      all: try (pose proof (inv_size _ _ Hi); lia).
      all: try (intros Hn0; fold n; destruct (is_shared s'); [by apply Hr'|unfold n in *; lia]).
      all: fold n; rewrite Hh; simpl; destruct (decide (Z.of_nat n = 0)), (decide (n = 0%nat)); try lia;
        by rewrite ?delete_insert_eq, ?insert_insert_eq.
  - rewrite (add_refs_none _ s (mem st) Hp Hm) by lia. cbn [obind].
    destruct (rm_refs_none failed s (mem st) (vs st) src Hi Hs Hp Hf) as (b & m' & ->). cbn [obind].
    apply Hfin; [intros c y; eauto|done|].
    apply inv_insert_none; try done; [by apply (inv_delete_none _ _ src s)|lia].
Qed.

(** A new variable with a message whose bytes are [d]. *)
Lemma value_new st mm v m d :
  vs st !! v = None -> contents mm m = Some d ->
  (forall c y, heap (mem st) !! c = Some y -> heap mm !! c = Some y) -> good st ->
  forall w, value (State mm (<[v := m]> (vs st))) w = upd v (Some d) (value st) w.
Proof.
  intros Hv Hd Hkeep Hi w. unfold upd, value; simpl. rewrite lookup_insert.
  destruct (decide (v = w)) as [->|Hne]; [by rewrite decide_True|]. rewrite decide_False by done.
  destruct (vs st !! w) as [q|] eqn:Hw; [|done]. simpl.
  destruct (inv_owns _ _ Hi w q Hw) as (_ & _ & Hx). unfold contents, ptr in *.
  destruct (u q); try done; destruct (Hx _ eq_refl) as (x & Ex & _); by rewrite Ex, (Hkeep _ _ Ex).
Qed.

Lemma init_none_ok o st v m d :
  good st -> vs st !! v = None -> Z.of_nat (S (base.size (vs st))) < 2 ^ 32 ->
  ptr m = None -> check m = true -> metadata m = None -> contents (mem st) m = Some d ->
  spec_step o (value st) = upd v (Some d) (value st) ->
  step_ok o st (Done (State (mem st) (<[v := m]> (vs st)))).
Proof.
  intros Hi Hv Hz Hp Hc Hm Hd Ho. eexists; split; [reflexivity|]. split.
  - apply (inv_insert_none (mem st) (vs st) [v] m); try done.
    split; [apply NoDup_singleton|]. by intros d' ->%list_elem_of_singleton.
  - left. intros w. rewrite Ho. by apply value_new.
Qed.

Lemma init_malloc_ok o st v b x :
  good st -> vs st !! v = None -> Z.of_nat (S (base.size (vs st))) < 2 ^ 32 ->
  let c := next_addr (mem st) in
  (b = Lmsg c \/ b = Zclmsg c /\ c_ffn x <> None) ->
  spec_step o (value st) = upd v (Some (c_data x)) (value st) ->
  step_ok o st (Done (State
    (Memory (<[c := x]> (heap (mem st))) (S c) (metas (mem st)) (ffn_calls (mem st)))
    (<[v := fresh b]> (vs st)))).
Proof.
  intros Hi Hv Hz c Hb Ho. eexists; split; [reflexivity|].
  destruct (inv_malloc (mem st) (vs st) v (fresh b) x c Hi Hv eq_refl) as [Hi' Hkeep]; try done.
  - by destruct Hb as [->|[-> _]].
  - by destruct Hb as [->|[-> _]].
  - by destruct Hb as [->|[-> ?]].
  - split; [exact Hi'|]. left. intros w. rewrite Ho. apply value_new; [done| |done|done].
    unfold contents. destruct Hb as [->|[-> _]]; simpl; by rewrite lookup_insert_eq.
Qed.

Lemma step_inits o st :
  good st -> pre o st -> Z.of_nat (S (base.size (vs st))) < 2 ^ 32 ->
  match o with Init _ | InitSize _ _ | InitBuffer _ _ _ _ => True | _ => False end ->
  step_ok o st (step o st).
Proof.
  intros Hi Hpre Hz Ho.
  assert (Hfail : fallible o = true -> step_ok o st (Done (State (mem st) (vs st)))).
  { intros Hf. exists st. split; [by destruct st|]. split; [done|]. by right. }
  destruct o as [v|v n|v buf ffn ext| | | |]; try done; simpl in Hpre.
  - by apply (init_none_ok (Init v) st v init []).
  - unfold step, init_size. destruct (n <=? max_vsm_size).
    + by apply (init_none_ok _ st v (fresh (Vsm (replicate (Z.to_nat n) 0))) (replicate (Z.to_nat n) 0)).
    + destruct (_ && _); [|by apply Hfail].
      apply (init_malloc_ok (InitSize v n) st v (Lmsg (next_addr (mem st)))
               (Content (replicate (Z.to_nat n) 0) None 0)); auto.
  - destruct Hpre as [Hv Hffn]. unfold step, init_buffer.
    destruct (Z.ltb_spec (Z.of_nat (length buf)) max_vsm_size).
    + unfold init_size. destruct (Z.leb_spec (Z.of_nat (length buf)) max_vsm_size); [|lia].
      assert (E : fill buf (fresh (Vsm (replicate (Z.to_nat (Z.of_nat (length buf))) 0))) (mem st)
                  = Done (mem st, fresh (Vsm buf))).
      { unfold fill; simpl. unfold sbind, sassert. rewrite length_replicate, Nat2Z.id.
        rewrite bool_decide_eq_true_2 by done. simpl. unfold set_body; simpl.
        by rewrite skipn_all2, app_nil_r by (rewrite length_replicate; lia). }
      unfold sbind at 1. simpl. unfold sbind. rewrite E. simpl.
      by apply (init_none_ok _ st v (fresh (Vsm buf)) buf).
    + destruct ext.
      * apply (init_malloc_ok _ st v (Zclmsg (next_addr (mem st))) (Content buf ffn 0)); auto.
      * unfold init_data. destruct ffn as [f|].
        -- destruct (can_malloc sizeof_content); [|by apply Hfail].
           apply (init_malloc_ok _ st v (Lmsg (next_addr (mem st))) (Content buf (Some f) 0)); auto.
        -- by apply (init_none_ok _ st v (fresh (Cmsg buf)) buf).
Qed.

Lemma msg_step_spec o st :
  good st -> pre o st -> Z.of_nat (S (base.size (vs st))) < 2 ^ 32 -> step_ok o st (step o st).
Proof.
  intros Hi Hpre Hz. destruct o.
  1-3: by apply step_inits.
  - by apply step_close.
  - by apply step_move.
  - by apply step_copy.
  - by apply step_distribute.
Qed.

(** A program: a sequence of operations, each made when its conditions hold. *)
Fixpoint run (os : list op) (st : state) : outcome state :=
  match os with
  | [] => Done st
  | o :: os => let* st := step o st in run os st
  end.

(** The preconditions hold at each step, as the values of the specification tell:
    whether a variable is initialised is whether it has a value. *)
Definition live (f : nat -> option (list Z)) (v : nat) : Prop := is_Some (f v).

Inductive well_behaved : list op -> state -> Prop :=
| wb_nil st : well_behaved [] st
| wb_cons o os st :
    pre o st -> Z.of_nat (S (base.size (vs st))) < 2 ^ 32 ->
    (forall st', step o st = Done st' -> well_behaved os st') ->
    well_behaved (o :: os) st.

Inductive spec_run : list op -> (nat -> option (list Z)) -> (nat -> option (list Z)) -> Prop :=
| spec_nil f g : (forall v, f v = g v) -> spec_run [] f g
| spec_cons o os f g h : (forall v, g v = spec_step o f v) -> spec_run os g h -> spec_run (o :: os) f h
| spec_oom o os f g h : fallible o = true -> (forall v, f v = g v) -> spec_run os g h ->
    spec_run (o :: os) f h.

Lemma msg_run_spec os st :
  good st -> well_behaved os st ->
  exists st', run os st = Done st' /\ good st' /\ spec_run os (value st) (value st').
Proof.
  intros Hi Hw. induction Hw as [st|o os st Hp Hz _ IH]; simpl.
  { exists st. split; [done|]. split; [done|]. by constructor. }
  destruct (msg_step_spec o st Hi Hp Hz) as (st1 & E & Hi1 & Hs). rewrite E. simpl.
  destruct (IH st1 E Hi1) as (st2 & E2 & Hi2 & Hr). exists st2. split; [done|]. split; [done|].
  destruct Hs as [Hs|[Hf ->]]; [by econstructor|]. by eapply spec_oom.
Qed.
End Programs.

(** ** Properties *)

(** Messages are values.  A program that initialises, closes, moves, copies and
    distributes messages, respecting the conditions of each call, never uses a freed
    content, frees none twice and fails no assertion; each of its variables holds the
    bytes it would hold if messages were copied outright; and the contents that are
    allocated at the end are exactly those some message still points to. *)
Theorem messages_are_values can_malloc os :
  well_behaved can_malloc os state0 ->
  exists st, run can_malloc os state0 = Done st /\
    spec_run os (fun _ => None) (value st) /\
    (forall c, is_Some (heap (mem st) !! c)
               <-> exists v m, vs st !! v = Some m /\ ptr m = Some c).
Proof.
  intros Hw. destruct (msg_run_spec can_malloc os state0 inv_empty Hw) as (st & E & Hi & Hs).
  exists st. split; [done|]. split.
  - enough (value state0 = fun _ => None) as <- by done. reflexivity.
  - intros c. split.
    + intros Hc. apply (inv_leak _ _ Hi) in Hc. unfold refs in Hc.
      destruct (map_size_ne_0_lookup_1 (filter (fun p => ptr p.2 = Some c) (vs st))) as [v [m Hv]]; [lia|].
      apply map_lookup_filter_Some in Hv as [? ?]. eauto.
    + intros (v & m & Hv & Hp). destruct (inv_owns _ _ Hi v m Hv) as (_ & _ & Hx).
      destruct (Hx c Hp) as (x & Ex & _). eauto.
Qed.

(** ** Witness *)

Definition sample_program : list op :=
  [InitSize 1 100; InitBuffer 2 (replicate 40 7) (Some 9%nat) true; Copy 1 2; Init 3;
   Distribute 2 [4; 5]%nat 2; Move 3 4; Close 5; Close 1; Distribute 3 [] 1; Close 4].

(** The conditions of a program, computed along its run. *)
#[global] Instance unused_dec ds (vs0 : vars) : Decision (unused ds vs0).
Proof.
  refine (cast_if (decide (NoDup ds /\ Forall (fun d => vs0 !! d = None) ds))).
  - abstract (unfold unused; by rewrite <- Forall_forall).
  - abstract (unfold unused; by rewrite <- Forall_forall).
Defined.

#[global] Instance pre_dec o st : Decision (pre o st).
Proof. destruct o; simpl; apply _. Defined.

Fixpoint check_run (can_malloc : Z -> bool) (os : list op) (st : state) : bool :=
  match os with
  | [] => true
  | o :: os =>
    bool_decide (pre o st) && (Z.of_nat (S (base.size (vs st))) <? 2 ^ 32)
    && match step can_malloc o st with Done st => check_run can_malloc os st | Crash => false end
  end.

Lemma check_run_ok can_malloc os st :
  check_run can_malloc os st = true -> well_behaved can_malloc os st.
Proof.
  revert st. induction os as [|o os IH]; intros st; simpl; [constructor|].
  rewrite !andb_true_iff, bool_decide_eq_true, Z.ltb_lt. intros [[Hp Hz] Hs].
  constructor; [done|done|]. intros st' E. rewrite E in Hs. auto.
Qed.

Lemma messages_are_values_witness :
  well_behaved (fun _ => true) sample_program state0 /\
  exists st, run (fun _ => true) sample_program state0 = Done st /\
    spec_run sample_program (fun _ => None) (value st) /\
    (forall c, is_Some (heap (mem st) !! c)
               <-> exists v m, vs st !! v = Some m /\ ptr m = Some c).
Proof.
  assert (Hw : well_behaved (fun _ => true) sample_program state0).
  { apply check_run_ok. vm_compute. reflexivity. }
  split; [exact Hw|]. apply (messages_are_values (fun _ => true) sample_program Hw).
Defined.

End Msg.
