(* ===== verification/Pipes.v ===== *)
(** * Pipes: what dist_t, fq_t and lb_t ask of the pipes they manage

    Pipes are numbered; [W] is the state of all of them.  The three containers are
    proved against this interface. *)

From S2P Require Import Prelude Msg.

Class PipeOps (W : Type) : Type := {
  pipe_write : nat -> Msg.msg -> W -> W * bool;
  pipe_flush : nat -> W -> W;
  pipe_rollback : nat -> W -> W;
  pipe_check_write : nat -> W -> W * bool;
  pipe_check_hwm : nat -> W -> bool;
  pipe_read : nat -> W -> W * option Msg.msg;
  pipe_check_read : nat -> W -> W * bool;
  pipe_credential : nat -> W -> list Z;
  pipe_set_nodelay : nat -> W -> W
}.

(** The error a call of a socket leaves in [errno]. *)
Inductive errno : Type := EAGAIN | EINVAL | ENOTSUP | ETERM | EFAULT | EINTR | EMFILE.

#[global] Instance errno_eq_dec : EqDecision errno.
Proof. solve_decision. Defined.

(** What pipe_t and the pipes of messages under it ask of a message; messages are
    values here, as [Msg.messages_are_values] allows. *)
Class Message (T : Type) : Type := {
  msg_init : T;
  msg_delimiter : T;
  is_delimiter : T -> bool;
  is_credential : T -> bool;
  is_routing_id : T -> bool;
  has_more : T -> bool;
  msg_data : T -> list Z;
  delimiter_delimits : is_delimiter msg_delimiter = true;
  delimiter_whole : has_more msg_delimiter = false;
  delimiter_no_credential : is_credential msg_delimiter = false;
  init_not_delimiter : is_delimiter msg_init = false
}.

(** [msg.flags () & msg_t::more] *)
Definition msg_more (m : Msg.msg) : bool := negb (Z.land (Msg.flags m) Msg.more =? 0).

(** The messages of [Msg], with the contents as they are in a memory. *)
#[global] Program Instance msg_message (mem : Msg.memory) : Message Msg.msg := {
  msg_init := Msg.init;
  msg_delimiter := Msg.init_delimiter;
  is_delimiter := Msg.is_delimiter;
  is_credential := Msg.is_credential;
  is_routing_id := Msg.is_routing_id;
  has_more := msg_more;
  msg_data := fun m => default [] (Msg.contents mem m)
}.
Solve All Obligations with done.

(** The message contents and the pipes. *)
Record env (W : Type) : Type := Env { e_mem : Msg.memory; e_pipes : W }.
Arguments Env {W} e_mem e_pipes.
Arguments e_mem {W} e.
Arguments e_pipes {W} e.

(** An operation on messages, and one on the pipes. *)
Definition on_mem {W A} (f : Msg.M A) : stm (env W) A :=
  fun e => let* (m, a) := f (e_mem e) in Done (Env m (e_pipes e), a).

Definition on_pipes {W A} (f : W -> W * A) : stm (env W) A :=
  fun e => let (w, a) := f (e_pipes e) in Done (Env (e_mem e) w, a).

(** [close] with [errno_assert (rc == 0)], then [init]. *)
Definition close_init {W} (m : Msg.msg) : stm (env W) Msg.msg :=
  let! (rc, _) := on_mem (Msg.close m) in
  sassert (rc =? 0) ;;; sret Msg.init.

(** [data ()] may be called. *)
Definition has_data (m : Msg.msg) : Prop :=
  match Msg.u m with Msg.Vsm _ | Msg.Lmsg _ | Msg.Cmsg _ | Msg.Zclmsg _ => True | _ => False end.

(** [init_size (size)], [errno_assert (rc == 0)], [memcpy (data (), src, size)]. *)
Definition msg_of (d : list Z) : Msg.M Msg.msg :=
  let! (rc, m) := Msg.init_size (fun _ => true) (Z.of_nat (length d)) in
  sassert (rc =? 0) ;;; Msg.fill d m.

(** The size of a message fits in a [size_t] with its header. *)
Definition fits (d : list Z) : Prop := Z.of_nat (length d) + Msg.sizeof_content < 2 ^ 64.

Lemma fill_lmsg c x d mem :
  Msg.heap mem !! c = Some x -> length (Msg.c_data x) = length d ->
  Msg.fill d (Msg.fresh (Msg.Lmsg c)) mem =
    Done (Msg.set_heap (<[c := Msg.Content d (Msg.c_ffn x) (Msg.refcnt x)]> (Msg.heap mem)) mem, Msg.fresh (Msg.Lmsg c)).
Proof.
  intros E Hl. unfold Msg.fill. simpl. rewrite (sbind_done _ _ _ _ _ (Msg.content_at_done _ _ _ E)).
  rewrite bool_decide_eq_true_2 by lia. rewrite (sbind_done _ _ mem mem tt) by done.
  rewrite drop_ge, app_nil_r by lia. by rewrite (sbind_done _ _ _ _ _ (Msg.set_content_done _ _ _ _ E)).
Qed.

Lemma msg_of_spec d mem :
  fits d ->
  exists mem' m, msg_of d mem = Done (mem', m) /\ Msg.contents mem' m = Some d /\
    Msg.flags m = 0 /\ Msg.metadata m = None /\ has_data m /\ Msg.check m = true /\
    (forall c y, Msg.heap mem !! c = Some y -> (c < Msg.next_addr mem)%nat -> Msg.heap mem' !! c = Some y) /\
    forall vs v, Msg.inv mem vs -> vs !! v = None -> Z.of_nat (S (base.size vs)) < 2 ^ 32 ->
      Msg.inv mem' (<[v := m]> vs).
Proof.
  unfold fits, Msg.sizeof_content. intros Hf. unfold msg_of, Msg.init_size.
  destruct (Z.leb_spec (Z.of_nat (length d)) Msg.max_vsm_size).
  - exists mem, (Msg.fresh (Msg.Vsm d)). unfold sbind, sret, sassert. simpl.
    unfold Msg.fill, sbind, sassert, sret. simpl.
    rewrite bool_decide_eq_true_2 by (rewrite length_replicate; lia). simpl.
    rewrite drop_ge, app_nil_r by (rewrite length_replicate; lia).
    split_and!; try done. intros vs v Hi Hv Hz.
    apply (Msg.inv_insert_none mem vs [v] (Msg.fresh (Msg.Vsm d))); try done.
    split; [apply NoDup_singleton|]. by intros d' ->%list_elem_of_singleton.
  - unfold Msg.sizeof_content. rewrite u64_small by lia. destruct (Z.ltb_spec (Z.of_nat (length d)) (40 + Z.of_nat (length d))); [|lia].
    cbn [andb]. unfold sbind at 1 2, Msg.malloc, sret, sassert. cbn [obind Z.eqb].
    unfold sbind. cbn [obind]. erewrite fill_lmsg; [|apply lookup_insert_eq|apply length_replicate || (simpl; rewrite length_replicate; lia)].
    unfold Msg.set_heap. simpl. rewrite insert_insert_eq. eexists _, _. split; [reflexivity|].
    unfold Msg.contents. simpl. rewrite lookup_insert_eq. split_and!; try done.
    + intros c y Hc Hl. rewrite lookup_insert_ne; [done|lia].
    + intros vs v Hi Hv Hz.
      by apply (Msg.inv_malloc mem vs v (Msg.fresh (Msg.Lmsg (Msg.next_addr mem))) (Msg.Content d None 0)).
Qed.

(** ** Messages on their way

    A message that waits in a pipe owns its contents like one held in a variable. *)
Lemma data_owned mem vs v m :
  Msg.inv mem vs -> vs !! v = Some m -> has_data m ->
  exists d, Msg.contents mem m = Some d /\ Msg.data m mem = Done (mem, d).
Proof.
  intros Hi Hv Hd. destruct (Msg.inv_owns _ _ Hi v m Hv) as (_ & _ & Hx).
  unfold has_data, Msg.contents, Msg.data, Msg.ptr in *.
  destruct (Msg.u m) as [d|c| |d|c| | |]; try done; try (by exists d);
    destruct (Hx c eq_refl) as (x & Ex & _); exists (Msg.c_data x); rewrite Ex; simpl;
    (split; [done|]); by rewrite (sbind_done _ _ _ _ _ (Msg.content_at_done _ _ _ Ex)).
Qed.

Lemma contents_data mem m d : has_data m -> Msg.contents mem m = Some d -> Msg.data m mem = Done (mem, d).
Proof.
  unfold has_data, Msg.contents, Msg.data. destruct (Msg.u m) as [b|c| |b|c| | |]; try done; try (by intros _ [= ->]);
    intros _; unfold sbind, Msg.content_at, sret; destruct (Msg.heap mem !! c) as [x|]; simpl; try done; by intros [= <-].
Qed.

(** The variables [ks] hold the messages [ms], whose bytes are [ds]. *)
Definition held (mem : Msg.memory) (vs : gmap nat Msg.msg) (ks : list nat) (ms : list Msg.msg)
    (ds : list (list Z)) : Prop :=
  NoDup ks /\ Forall2 (fun k m => vs !! k = Some m) ks ms /\ Forall has_data ms /\
  Forall2 (fun m d => Msg.contents mem m = Some d) ms ds.

Definition forget (ks : list nat) (vs : gmap nat Msg.msg) : gmap nat Msg.msg :=
  fold_left (fun vs k => delete k vs) ks vs.

Lemma held_close mem vs k ks m ms d ds :
  Msg.inv mem vs -> held mem vs (k :: ks) (m :: ms) (d :: ds) ->
  Msg.data m mem = Done (mem, d) /\ Msg.metadata m = None /\
  exists mem', Msg.close m mem = Done (mem', (0, Msg.set_body Msg.Invalid m)) /\
    Msg.inv mem' (delete k vs) /\ held mem' (delete k vs) ks ms ds.
Proof.
  intros Hi (Hn & Hk & Hd & Hc). apply NoDup_cons in Hn as [Hni Hn].
  apply Forall2_cons in Hk as [Hk Hks]. apply Forall_cons in Hd as [Hd Hds].
  apply Forall2_cons in Hc as [Hc Hcs].
  destruct (data_owned mem vs k m Hi Hk Hd) as (d' & Ec & Ed). rewrite Hc in Ec. injection Ec as <-.
  split; [done|]. split; [apply (Msg.inv_owns _ _ Hi k m Hk)|].
  destruct (Msg.close_spec mem vs k m Hi Hk) as (mem' & E & Hi' & Hs). exists mem'.
  split; [done|]. split; [done|]. split; [done|].
  assert (Hks' : Forall2 (fun k0 m0 => delete k vs !! k0 = Some m0) ks ms).
  { apply Forall2_same_length_lookup in Hks as [Hl Hks]. apply Forall2_same_length_lookup. split; [done|].
    intros i k0 m0 E0 E1. rewrite lookup_delete_ne; [by eapply Hks|]. intros ->.
    apply Hni. by eapply list_elem_of_lookup_2. }
  split; [done|]. split; [done|]. clear - Hi' Hs Hks' Hcs. revert ms ds Hks' Hcs.
  induction ks as [|k0 ks IH]; intros ms ds Hk Hc; destruct ms as [|m0 ms]; inversion Hk as [|? ? ? ? Hk0 Hk1]; subst;
    destruct ds as [|d0 ds]; inversion Hc as [|? ? ? ? Hc0 Hc1]; subst; constructor; [|by eapply IH].
  by rewrite (Msg.contents_same mem mem' _ m0 Hs (Msg.inv_owns _ _ Hi' k0 m0 Hk0)).
Qed.

(** What a pipe gives until it has nothing; [n] bounds the number of messages. *)
Fixpoint unread {W} `{PipeOps W} (n : nat) (p : nat) (w : W) : option (list Msg.msg * W) :=
  match pipe_read p w with
  | (w, None) => Some ([], w)
  | (w, Some m) =>
    match n with
    | O => None
    | S n => match unread n p w with Some (l, w) => Some (m :: l, w) | None => None end
    end
  end.

(** ** A small model of the interface

    Each pipe is the room left in it, the parts written, and the parts to read; it is
    used to evaluate the containers on concrete states. *)
Module Boxes.

Record box : Type := Box { room : Z; written : list Msg.msg; flushed : Z; unread : list Msg.msg }.

Definition boxes : Type := gmap nat box.

Definition box_of (p : nat) (w : boxes) : box := default (Box 0 [] 0 []) (w !! p).

Definition write (p : nat) (m : Msg.msg) (w : boxes) : boxes * bool :=
  let b := box_of p w in
  if (0 <? room b) then (<[p := Box (room b - 1) (written b ++ [m]) (flushed b) (unread b)]> w, true)
  else (w, false).

Definition flush (p : nat) (w : boxes) : boxes :=
  let b := box_of p w in <[p := Box (room b) (written b) (flushed b + 1) (unread b)]> w.

Definition read (p : nat) (w : boxes) : boxes * option Msg.msg :=
  let b := box_of p w in
  match unread b with
  | [] => (w, None)
  | m :: l => (<[p := Box (room b) (written b) (flushed b) l]> w, Some m)
  end.

#[global] Instance boxes_ops : PipeOps boxes := {
  pipe_write := write;
  pipe_flush := flush;
  pipe_rollback := fun _ w => w;
  pipe_check_write := fun p w => (w, 0 <? room (box_of p w));
  pipe_check_hwm := fun p w => 0 <? room (box_of p w);
  pipe_read := read;
  pipe_check_read := fun p w => (w, bool_decide (unread (box_of p w) <> []));
  pipe_credential := fun _ _ => [];
  pipe_set_nodelay := fun _ w => w
}.

End Boxes.
