(* ===== verification/Conflate.v ===== *)
(** * Conflate: the pipe of one message (libzmq/src/dbuffer.hpp, ypipe_conflate.hpp)

    The pipe behind [ZMQ_CONFLATE] keeps only the last message.  The writer fills the
    back slot and swaps the slots if it gets the mutex at once; the reader always
    waits for it.  A method is one step, and [write] is told whether the reader held
    the mutex.  The theorems: the pipe is a cell that the last message overwrites, no
    message is closed or read twice, and [flush] never reports a reader awake. *)

From S2P Require Import Prelude Pipes.

Module Conflate.

Section Conflate.
Context {T : Type} `{Message T}.

Record dbuffer : Type := Dbuffer { back : T; front : T; has_msg : bool }.

Definition dbuffer_new : dbuffer := Dbuffer msg_init msg_init false.

(** [back->move (xvalue)] closes what the back slot held: it is returned.  [contended]
    tells that [try_lock] fails. *)
Definition db_write (contended : bool) (v : T) (d : dbuffer) : T * dbuffer :=
  let d' := Dbuffer v (front d) (has_msg d) in
  (back d, if negb contended then Dbuffer (front d') (back d') true else d').

Definition db_read (d : dbuffer) : option T * dbuffer :=
  if negb (has_msg d) then (None, d)
  else (Some (front d), Dbuffer (back d) msg_init false).

Definition db_check_read (d : dbuffer) : bool := has_msg d.

Definition db_probe (fn : T -> bool) (d : dbuffer) : bool := fn (front d).

Record cpipe : Type := Cpipe { buffer : dbuffer; reader_awake : bool }.

Definition cpipe_new : cpipe := Cpipe dbuffer_new false.

Definition write (contended : bool) (v : T) (incomplete : bool) (y : cpipe) : T * cpipe :=
  let (old, d) := db_write contended v (buffer y) in (old, Cpipe d (reader_awake y)).

Definition unwrite (y : cpipe) : option T * cpipe := (None, y).

Definition flush (y : cpipe) : bool * cpipe := (reader_awake y, y).

Definition check_read (y : cpipe) : bool * cpipe :=
  let res := db_check_read (buffer y) in
  (res, if negb res then Cpipe (buffer y) false else y).

Definition read (y : cpipe) : option T * cpipe :=
  let (ok, y) := check_read y in
  if negb ok then (None, y)
  else let (v, d) := db_read (buffer y) in (v, Cpipe d (reader_awake y)).

Definition probe (fn : T -> bool) (y : cpipe) : bool * cpipe := (db_probe fn (buffer y), y).

(** What the two threads do, and what they see. *)
Inductive op : Type :=
| Write (contended : bool) (v : T)
| Flush
| CheckRead
| Read.

Inductive obs : Type :=
| Closed (v : T)
| Flag (b : bool)
| Got (v : option T).

Definition step (o : op) (y : cpipe) : obs * cpipe :=
  match o with
  | Write contended v => let (old, y) := write contended v false y in (Closed old, y)
  | Flush => let (b, y) := flush y in (Flag b, y)
  | CheckRead => let (b, y) := check_read y in (Flag b, y)
  | Read => let (v, y) := read y in (Got v, y)
  end.

Fixpoint run (os : list op) (y : cpipe) : list obs * cpipe :=
  match os with
  | [] => ([], y)
  | o :: os => let (x, y) := step o y in let (xs, y) := run os y in (x :: xs, y)
  end.

(** ** The specification: a cell *)

Definition s_step (o : op) (cell : option T) : option obs * option T :=
  match o with
  | Write true _ => (None, cell)
  | Write false v => (None, Some v)
  | Flush => (Some (Flag false), cell)
  | CheckRead => (Some (Flag (bool_decide (is_Some cell))), cell)
  | Read => (Some (Got cell), None)
  end.

Definition agrees (x : obs) (o : option obs) : Prop := match o with Some x' => x = x' | None => True end.

Inductive s_run : list op -> list obs -> option T -> option T -> Prop :=
| s_nil c : s_run [] [] c c
| s_cons o os x xs c c' :
    agrees x (s_step o c).1 -> s_run os xs (s_step o c).2 c' -> s_run (o :: os) (x :: xs) c c'.

(** The cell of a pipe. *)
Definition cell (y : cpipe) : option T := if has_msg (buffer y) then Some (front (buffer y)) else None.

Lemma step_cell o y :
  reader_awake y = false ->
  agrees (step o y).1 (s_step o (cell y)).1 /\ cell (step o y).2 = (s_step o (cell y)).2 /\
  reader_awake (step o y).2 = false.
Proof.
  destruct y as [[b f h] w]. simpl. intros ->.
  destruct o as [[] v| | |]; destruct h; simpl; unfold cell; simpl; split_and!; done.
Qed.

Lemma run_cell os : forall y,
  reader_awake y = false -> s_run os (run os y).1 (cell y) (cell (run os y).2).
Proof.
  induction os as [|o os IH]; intros y Hy; simpl; [constructor|].
  destruct (step_cell o y Hy) as (Ha & Hc & Hw). destruct (step o y) as [x y1]. simpl in *.
  specialize (IH y1 Hw). destruct (run os y1) as [xs y2]. simpl in *.
  constructor; [done|]. by rewrite <- Hc.
Qed.

(** ** No message is closed or read twice *)

Definition writes (os : list op) : list T := omap (fun o => if o is Write _ v then Some v else None) os.

(** The messages that left the pipe: closed by a write, or read. *)
Definition left_pipe (xs : list obs) : list T :=
  omap (fun x => match x with Closed v => Some v | Got v => v | Flag _ => None end) xs.

Definition slots (y : cpipe) : list T := [back (buffer y); front (buffer y)].

(** A read leaves an initialised message in its slot. *)
Definition reads (xs : list obs) : list T :=
  omap (fun x => if x is Got (Some _) then Some msg_init else None) xs.

Lemma step_conserves o y :
  left_pipe [(step o y).1] ++ slots (step o y).2 ≡ₚ writes [o] ++ reads [(step o y).1] ++ slots y.
Proof.
  destruct y as [[b f h] w]. destruct o as [[] v| | |]; destruct h; simpl; unfold slots; simpl; try done; try solve_Permutation.
Qed.

Lemma run_conserves os : forall y,
  left_pipe (run os y).1 ++ slots (run os y).2 ≡ₚ writes os ++ reads (run os y).1 ++ slots y.
Proof.
  induction os as [|o os IH]; intros y; [done|].
  pose proof (step_conserves o y) as Hs. cbn [run]. destruct (step o y) as [x y1]. specialize (IH y1).
  destruct (run os y1) as [xs y2]. cbn [fst snd] in *.
  assert (Ew : writes (o :: os) = writes [o] ++ writes os) by (unfold writes; by rewrite <- omap_app).
  assert (El : forall l, left_pipe (x :: l) = left_pipe [x] ++ left_pipe l) by (intros; unfold left_pipe; by rewrite <- omap_app).
  assert (Er : forall l, reads (x :: l) = reads [x] ++ reads l) by (intros; unfold reads; by rewrite <- omap_app).
  rewrite Ew, El, Er, <- app_assoc, IH.
  rewrite (Permutation_app_swap_app (left_pipe [x]) (writes os)).
  rewrite (Permutation_app_swap_app (left_pipe [x]) (reads xs)), Hs. solve_Permutation.
Qed.
End Conflate.

(** ** Properties *)

(** In any sequence of writes, flushes, checks and reads a conflating pipe answers
    like a cell that holds at most the last message: a read gives the message of the last
    write that was not contended since the last read, or nothing; [flush] reports a reader
    asleep every time.  And every message written is closed by a later write, or
    read, or still in a slot, exactly once: none is closed twice and none is lost (the
    [msg_init] are the empty messages of a new pipe and those that reads leave). *)
Theorem conflate_keeps_last {T} `{Message T} (os : list (op (T := T))) :
  s_run os (run os cpipe_new).1 None (cell (run os cpipe_new).2) /\
  left_pipe (run os cpipe_new).1 ++ slots (run os cpipe_new).2 ≡ₚ
    writes os ++ reads (run os cpipe_new).1 ++ [msg_init; msg_init].
Proof. split; [by apply (run_cell os cpipe_new)|by apply (run_conserves os cpipe_new)]. Qed.

End Conflate.
