(* ===== verification/Array.v ===== *)
(** * Array: array_t, the arrays whose items know their position (libzmq/src/array.hpp)

    The vector of pointers and the [array_index] each item carries for this
    array.  Indexing a [std::vector] out of range is [Crash]. *)

From S2P Require Import Prelude.

Module Array.

Record array : Type := Arr { items : list nat; array_index : gmap nat Z }.

Definition empty : array := Arr [] ∅.

Definition size (a : array) : Z := Z.of_nat (length (items a)).

(** [index (item)]: the [int] kept by the item, -1 at first, as a [size_type]; the
    setters truncate to [int]. *)
Definition index (a : array) (p : nat) : Z := u64 (default (-1) (array_index a !! p)).

Definition get (a : array) (i : Z) : outcome nat := nth_z (items a) i.

Definition push_back (a : array) (p : nat) : array :=
  Arr (items a ++ [p]) (<[p := i32 (size a)]> (array_index a)).

Definition swap (a : array) (i j : Z) : outcome array :=
  let* x := get a i in
  let* y := get a j in
  Done (Arr (<[Z.to_nat j := x]> (<[Z.to_nat i := y]> (items a)))
            (<[y := i32 i]> (<[x := i32 j]> (array_index a)))).

(** [erase (index)] and [erase (item)] *)
Definition erase_at (a : array) (i : Z) : outcome array :=
  let* b := deref (last (items a)) in
  let idx := <[b := i32 i]> (array_index a) in
  let* l := set_z (items a) i b in
  Done (Arr (removelast l) idx).

Definition erase (a : array) (p : nat) : outcome array := erase_at a (index a p).

(** Items know their positions. *)
Record ok (a : array) : Prop := {
  ok_index : forall (i : nat) p, items a !! i = Some p -> array_index a !! p = Some (Z.of_nat i);
  ok_small : size a < 2 ^ 31
}.

Lemma ok_empty : ok empty.
Proof. split; [by intros i p|reflexivity]. Qed.

Lemma index_lookup a (i : nat) p : ok a -> items a !! i = Some p -> index a p = Z.of_nat i.
Proof.
  intros Ha Hi. unfold index. rewrite (ok_index _ Ha i p Hi). simpl.
  apply u64_small. pose proof (ok_small _ Ha). apply lookup_lt_Some in Hi. unfold size in *. lia.
Qed.

Lemma elem_index a p : ok a -> p ∈ items a -> 0 <= index a p < size a /\ items a !! Z.to_nat (index a p) = Some p.
Proof.
  intros Ha [i Hi]%list_elem_of_lookup. rewrite (index_lookup a i p Ha Hi).
  pose proof (lookup_lt_Some _ _ _ Hi). unfold size. split; [lia|]. by rewrite Nat2Z.id.
Qed.

Lemma get_index a p : ok a -> p ∈ items a -> get a (index a p) = Done p.
Proof.
  intros Ha Hp. destruct (elem_index a p Ha Hp) as [Hr Hl]. apply nth_z_done; [lia|done].
Qed.

Lemma get_some a i : 0 <= i < size a -> exists p, get a i = Done p /\ items a !! Z.to_nat i = Some p.
Proof.
  intros Hi. unfold size in Hi. destruct (lookup_lt_is_Some_2 (items a) (Z.to_nat i)) as [p Hp]; [lia|].
  exists p. split; [|done]. apply nth_z_done; [lia|done].
Qed.

Lemma ok_inj a (i j : nat) p : ok a -> items a !! i = Some p -> items a !! j = Some p -> i = j.
Proof.
  intros Ha Hi Hj. pose proof (ok_index _ Ha i p Hi). pose proof (ok_index _ Ha j p Hj). simplify_eq. lia.
Qed.

Lemma ok_nodup a : ok a -> NoDup (items a).
Proof. intros Ha. apply NoDup_alt. intros i j p. by apply ok_inj. Qed.

(** [push_back] of a pipe that is not in the array. *)
Lemma push_back_ok a p :
  ok a -> p ∉ items a -> size a + 1 < 2 ^ 31 ->
  ok (push_back a p) /\ index (push_back a p) p = size a /\ size (push_back a p) = size a + 1 /\
  forall q, q <> p -> index (push_back a p) q = index a q.
Proof.
  intros Ha Hp Hs. assert (Hok : ok (push_back a p)).
  { split.
    - intros i q Hi. simpl in *. apply lookup_app_Some in Hi as [Hi|[Hl Hi]].
      + rewrite lookup_insert_ne; [by apply Ha|]. intros ->. apply Hp, list_elem_of_lookup. eauto.
      + apply list_lookup_singleton_Some in Hi as [Hi ->]. rewrite lookup_insert_eq. unfold size in *. f_equal. rewrite i32_small; lia.
    - unfold size in *; simpl. rewrite length_app; simpl. lia. }
  split; [done|]. split; [|split].
  - unfold index; simpl. rewrite lookup_insert_eq. simpl. unfold size in *. rewrite i32_small by lia. apply u64_small. lia.
  - unfold size; simpl. rewrite length_app; simpl. lia.
  - intros q Hq. unfold index; simpl. by rewrite lookup_insert_ne.
Qed.

(** The positions after a swap. *)
Definition swapped (i j k : Z) : Z := if decide (k = i) then j else if decide (k = j) then i else k.

Lemma swap_ok a i j :
  ok a -> 0 <= i < size a -> 0 <= j < size a ->
  exists a', swap a i j = Done a' /\ ok a' /\ items a' ≡ₚ items a /\ size a' = size a /\
    forall p, p ∈ items a -> index a' p = swapped i j (index a p).
Proof.
  intros Ha Hi Hj. pose proof (ok_small _ Ha) as Hsm. unfold size in Hsm. destruct (get_some a i Hi) as (x & Ex & Lx). destruct (get_some a j Hj) as (y & Ey & Ly).
  unfold swap. rewrite Ex, Ey. simpl. eexists; split; [reflexivity|]. unfold size in *.
  assert (Hlen : length (<[Z.to_nat j := x]> (<[Z.to_nat i := y]> (items a))) = length (items a)).
  { by rewrite !length_insert. }
  assert (Hlook : forall (k : nat) p, <[Z.to_nat j := x]> (<[Z.to_nat i := y]> (items a)) !! k = Some p ->
    <[y := i32 i]> (<[x := i32 j]> (array_index a)) !! p = Some (Z.of_nat k)).
  { intros k p Hk. rewrite !list_lookup_insert in Hk. rewrite !lookup_insert.
    pose proof (ok_index _ Ha) as Hix.
    destruct (decide (Z.to_nat j = k)) as [<-|Hjk].
    - rewrite decide_True in Hk by (split; [done|rewrite length_insert; lia]). injection Hk as <-.
      destruct (decide (y = x)) as [->|].
      + assert (Z.to_nat i = Z.to_nat j) by (by apply (ok_inj a _ _ x)). f_equal. rewrite i32_small; lia.
      + rewrite decide_True by done. f_equal. rewrite i32_small; lia.
    - rewrite decide_False in Hk by tauto. destruct (decide (Z.to_nat i = k)) as [<-|Hik].
      + rewrite decide_True in Hk by (split; [done|lia]). injection Hk as <-.
        rewrite decide_True by done. f_equal. rewrite i32_small; lia.
      + rewrite decide_False in Hk by tauto. rewrite !decide_False; [by apply Hix| |].
        * intros ->. destruct Hik. by apply (ok_inj a _ _ p).
        * intros ->. destruct Hjk. by apply (ok_inj a _ _ p). }
  assert (Hok : ok (Arr (<[Z.to_nat j := x]> (<[Z.to_nat i := y]> (items a)))
                        (<[y := i32 i]> (<[x := i32 j]> (array_index a))))).
  { split; [exact Hlook|]. pose proof (ok_small _ Ha). unfold size in *; simpl. by rewrite Hlen. }
  split; [exact Hok|]. split; [|split; [simpl; lia|]].
  - apply NoDup_Permutation; [by apply ok_nodup in Hok|by apply ok_nodup|].
    intros p. simpl. rewrite !list_elem_of_lookup. split.
    + intros [k Hk]. rewrite !list_lookup_insert in Hk. repeat case_decide; simplify_eq; eauto.
    + intros [k Hk]. destruct (decide (k = Z.to_nat i)) as [->|].
      { exists (Z.to_nat j). rewrite Lx in Hk. injection Hk as <-.
        apply list_lookup_insert_eq. rewrite length_insert. lia. }
      destruct (decide (k = Z.to_nat j)) as [->|].
      { rewrite Ly in Hk. injection Hk as <-. exists (Z.to_nat i).
        destruct (decide (Z.to_nat i = Z.to_nat j)); [done|].
        rewrite list_lookup_insert_ne by done. apply list_lookup_insert_eq. lia. }
      exists k. by rewrite !list_lookup_insert_ne.
  - intros p Hp. destruct (elem_index a p Ha Hp) as [Hr Hl]. unfold size in Hr. unfold swapped.
    destruct (decide (index a p = i)) as [E|Hni].
    + rewrite E, Lx in Hl. injection Hl as <-.
      rewrite (index_lookup _ (Z.to_nat j) x Hok); [lia|]. simpl.
      apply list_lookup_insert_eq. rewrite length_insert. lia.
    + destruct (decide (index a p = j)) as [E|Hnj].
      * rewrite E, Ly in Hl. injection Hl as <-.
        rewrite (index_lookup _ (Z.to_nat i) y Hok); [lia|]. simpl.
        rewrite list_lookup_insert_ne by lia. apply list_lookup_insert_eq. lia.
      * rewrite (index_lookup _ (Z.to_nat (index a p)) p Hok); [lia|]. simpl.
        by rewrite !list_lookup_insert_ne by lia.
Qed.

(** [erase] moves the last item into the hole. *)
Lemma erase_ok a p :
  ok a -> p ∈ items a ->
  exists a', erase a p = Done a' /\ ok a' /\ size a' = size a - 1 /\
    (forall q, q ∈ items a' <-> q ∈ items a /\ q <> p) /\
    forall q, q ∈ items a' ->
      index a' q = if decide (index a q = size a - 1) then index a p else index a q.
Proof.
  intros Ha Hp. destruct (elem_index a p Ha Hp) as [Hr Hl]. unfold size in Hr.
  pose proof (ok_small _ Ha) as Hsm. unfold size in Hsm.
  destruct (exists_last (l := items a)) as (l & b & El); [by intros E; rewrite E in Hr; simpl in Hr; lia|].
  assert (Elast : last (items a) = Some b) by (by rewrite El, last_snoc).
  unfold erase, erase_at. rewrite Elast. simpl.
  set (i := Z.to_nat (index a p)) in *.
  assert (Hlen : length (items a) = S (length l)) by (rewrite El, length_app; simpl; lia).
  rewrite set_z_done by lia. fold i. cbn [obind].
  assert (Hb : items a !! length l = Some b) by (by rewrite El, lookup_app_r, Nat.sub_diag by lia).
  assert (Hrem : removelast (<[i := b]> (items a)) = <[i := b]> l).
  { rewrite El. destruct (decide (i < length l)%nat).
    - rewrite insert_app_l by done. by rewrite removelast_last.
    - replace i with (length l + 0)%nat by lia. rewrite insert_app_r. simpl.
      rewrite removelast_last. by rewrite list_insert_ge by lia. }
  rewrite Hrem. eexists; split; [reflexivity|].
  assert (Hlk : forall (k : nat), (k < length l)%nat -> l !! k = items a !! k).
  { intros k Hk. by rewrite El, lookup_app_l. }
  assert (Hlook : forall (k : nat) q, <[i := b]> l !! k = Some q ->
    items a !! (if decide (k = i) then length l else k) = Some q /\ (k < length l)%nat).
  { intros k q Hk. rewrite list_lookup_insert in Hk. destruct (decide (k = i)) as [->|Hki].
    - destruct (decide (i = i /\ (i < length l)%nat)) as [[_ Hil]|]; simplify_eq; [done|].
      apply lookup_lt_Some in Hk. tauto.
    - rewrite decide_False in Hk by (intros [Hik _]; congruence). pose proof (lookup_lt_Some _ _ _ Hk).
      by rewrite <- Hlk. }
  assert (Hok : ok (Arr (<[i := b]> l) (<[b := i32 (index a p)]> (array_index a)))).
  { split.
    - intros k q Hk. simpl in Hk |- *. apply Hlook in Hk as [Hk Hkl].
      rewrite lookup_insert. destruct (decide (k = i)) as [->|Hki].
      + rewrite Hb in Hk. injection Hk as <-. rewrite decide_True by done. f_equal. unfold i. rewrite i32_small; lia.
      + rewrite decide_False; [by apply Ha|]. intros Eb. rewrite <- Eb in Hk.
        pose proof (ok_inj a _ _ b Ha Hk Hb). lia.
    - pose proof (ok_small _ Ha). unfold size in *; simpl. rewrite length_insert. lia. }
  split; [exact Hok|]. split; [unfold size; simpl; rewrite length_insert; lia|]. split.
  - intros q. simpl. rewrite !list_elem_of_lookup. split.
    + intros [k Hk]. apply Hlook in Hk as [Hk Hkl]. split; [eauto|]. intros ->.
      pose proof (ok_inj a _ _ p Ha Hk Hl). case_decide; lia.
    + intros [[k Hk] Hne]. assert (Hki : k <> i) by (intros ->; congruence).
      destruct (decide (k = length l)) as [->|].
      * rewrite Hb in Hk. injection Hk as <-. exists i. apply list_lookup_insert_eq. lia.
      * exists k. rewrite list_lookup_insert_ne by done. rewrite Hlk; [done|].
        apply lookup_lt_Some in Hk. lia.
  - intros q [k Hk]%list_elem_of_lookup. rewrite (index_lookup _ k q Hok Hk). simpl in Hk.
    apply Hlook in Hk as [Hk Hkl]. rewrite (index_lookup a _ q Ha Hk). unfold size.
    destruct (decide (k = i)) as [->|].
    + rewrite decide_True by lia. unfold i. lia.
    + rewrite decide_False by lia. done.
Qed.

(** ** The first items, as a set *)

Definition seg (a : array) (n : Z) : gset nat := list_to_set (take (Z.to_nat n) (items a)).

Lemma elem_seg a n q : ok a -> q ∈ seg a n <-> q ∈ items a /\ index a q < n.
Proof.
  intros Ha. unfold seg. rewrite elem_of_list_to_set. split.
  - intros Hq. pose proof Hq as [k Hk]%list_elem_of_lookup. pose proof Hk as Hk'.
    apply lookup_take_Some in Hk as [Hk Hl]. split; [apply list_elem_of_lookup; eauto|].
    rewrite (index_lookup a k q Ha Hk). lia.
  - intros [Hq Hi]. destruct (elem_index a q Ha Hq) as [Hr Hl]. apply list_elem_of_lookup.
    exists (Z.to_nat (index a q)). rewrite lookup_take_lt by lia. done.
Qed.

Lemma elem_all a q : ok a -> q ∈ seg a (size a) <-> q ∈ items a.
Proof.
  intros Ha. rewrite elem_seg by done. split; [tauto|]. intros Hq. split; [done|].
  by apply elem_index.
Qed.

(** A swap, by its effect. *)
Record swaps (a a' : array) (i j : Z) : Prop := {
  sw_ok : ok a';
  sw_perm : items a' ≡ₚ items a;
  sw_size : size a' = size a;
  sw_index : forall p, p ∈ items a -> index a' p = swapped i j (index a p)
}.

Lemma swap_spec a i j :
  ok a -> 0 <= i < size a -> 0 <= j < size a -> exists a', swap a i j = Done a' /\ swaps a a' i j.
Proof. intros Ha Hi Hj. destruct (swap_ok a i j Ha Hi Hj) as (a' & E & ? & ? & ? & ?). by exists a'. Qed.

Lemma swaps_sym a a' i j : swaps a a' i j -> swaps a a' j i.
Proof.
  intros [? ? ? Hi]. split; try done. intros p Hp. rewrite (Hi p Hp). unfold swapped.
  by repeat case_decide; subst.
Qed.

Lemma swaps_elem a a' i j q : swaps a a' i j -> q ∈ items a' <-> q ∈ items a.
Proof. intros H. by rewrite (sw_perm _ _ _ _ H). Qed.

Lemma swaps_at a a' i j p : swaps a a' i j -> p ∈ items a -> index a p = i -> index a' p = j.
Proof. intros H Hp E. rewrite (sw_index _ _ _ _ H p Hp). unfold swapped. by rewrite decide_True. Qed.

(** Both positions on the same side of a boundary: the segment does not change. *)
Lemma seg_same a a' i j n : ok a -> swaps a a' i j -> (i < n <-> j < n) -> seg a' n = seg a n.
Proof.
  intros Ha Hs Hn. apply set_eq. intros q. rewrite !elem_seg by (done || apply Hs).
  rewrite (swaps_elem a a' i j q Hs). split; intros [Hq Hl]; (split; [done|]);
    rewrite (sw_index _ _ _ _ Hs q Hq) in *; unfold swapped in *; repeat case_decide; lia.
Qed.

(** Swapping a pipe with the first position after a segment adds it. *)
Lemma seg_add a a' p n :
  ok a -> swaps a a' (index a p) n -> p ∈ items a -> n <= index a p ->
  seg a' (n + 1) = {[p]} ∪ seg a n.
Proof.
  intros Ha Hs Hp Hn. apply set_eq. intros q. rewrite elem_of_union, elem_of_singleton.
  rewrite !elem_seg by (done || apply Hs). rewrite (swaps_elem a a' _ _ q Hs). split.
  - intros [Hq Hl]. destruct (decide (q = p)) as [|Hne]; [by left|]. right. split; [done|].
    assert (index a q <> index a p).
    { intros E. destruct (elem_index a p Ha Hp) as [_ Lp], (elem_index a q Ha Hq) as [_ Lq].
      rewrite E, Lp in Lq. congruence. }
    rewrite (sw_index _ _ _ _ Hs q Hq) in Hl. unfold swapped in Hl. repeat case_decide; lia.
  - intros [->|[Hq Hl]].
    + split; [done|]. rewrite (swaps_at a a' _ _ p Hs) by done. lia.
    + split; [done|]. rewrite (sw_index _ _ _ _ Hs q Hq). unfold swapped. repeat case_decide; lia.
Qed.

(** Swapping a pipe with the last position of a segment removes it. *)
Lemma seg_sub a a' p n :
  ok a -> swaps a a' (index a p) (n - 1) -> p ∈ items a -> index a p < n ->
  seg a' (n - 1) = seg a n ∖ {[p]}.
Proof.
  intros Ha Hs Hp Hn. apply set_eq. intros q. rewrite elem_of_difference, elem_of_singleton.
  rewrite !elem_seg by (done || apply Hs). rewrite (swaps_elem a a' _ _ q Hs). split.
  - intros [Hq Hl]. split; [split; [done|]|].
    + rewrite (sw_index _ _ _ _ Hs q Hq) in Hl. unfold swapped in Hl. repeat case_decide; lia.
    + intros ->. rewrite (swaps_at a a' _ _ p Hs) in Hl by done. lia.
  - intros [[Hq Hl] Hne]. split; [done|].
    assert (index a q <> index a p).
    { intros E. destruct (elem_index a p Ha Hp) as [_ Lp], (elem_index a q Ha Hq) as [_ Lq].
      rewrite E, Lp in Lq. congruence. }
    rewrite (sw_index _ _ _ _ Hs q Hq). unfold swapped. repeat case_decide; lia.
Qed.

Lemma seg_all a a' i j n m : ok a -> swaps a a' i j -> n = size a' -> m = size a -> seg a' n = seg a m.
Proof.
  intros Ha Hs -> ->. apply set_eq. intros q. rewrite !elem_all by (done || apply Hs).
  by apply (swaps_elem a a' i j).
Qed.

(** "Remove the pipe from the segment [n] if it is there", by a swap with its last
    position; [F] is the state built from the array and the boundary. *)
Lemma cut_spec {B} (F : array -> Z -> B) p a n :
  ok a -> p ∈ items a -> 0 <= n <= size a ->
  exists a' n',
    (if index a p <? n then let* a' := swap a (index a p) (n - 1) in Done (F a' (n - 1))
     else Done (F a n)) = Done (F a' n')
    /\ ok a' /\ p ∈ items a' /\ size a' = size a /\ 0 <= n' <= n
    /\ seg a' n' = seg a n ∖ {[p]} /\ n' <= index a' p
    /\ (forall m, n <= m -> seg a' m = seg a m)
    /\ (forall m, m <= n' -> m <= index a p -> seg a' m = seg a m)
    /\ (if decide (index a p < n) then n' = n - 1 else n' = n).
Proof.
  intros Ha Hp Hn. destruct (elem_index a p Ha Hp) as [Hr _].
  destruct (Z.ltb_spec (index a p) n).
  - destruct (swap_spec a (index a p) (n - 1)) as (a' & -> & Hs); [done|lia|lia|]. simpl.
    exists a', (n - 1). split; [done|]. pose proof (sw_ok _ _ _ _ Hs). rewrite decide_True by done.
    split_and!; try done; try lia.
    + by apply (swaps_elem a a' _ _ p Hs).
    + by apply Hs.
    + by apply seg_sub.
    + rewrite (swaps_at _ _ _ _ p Hs Hp); [lia|done].
    + intros m Hm. apply (seg_same a a' _ _ m Ha Hs). lia.
    + intros m Hm Hmi. apply (seg_same a a' _ _ m Ha Hs). lia.
  - exists a, n. rewrite decide_False by lia. split_and!; try done; try lia.
    apply set_eq. intros q. rewrite elem_of_difference, elem_of_singleton, elem_seg by done.
    split; [|tauto]. intros [Hq Hl]. split; [done|]. intros ->. lia.
Qed.

Lemma erase_spec p a :
  ok a -> p ∈ items a ->
  exists a', erase a p = Done a' /\ ok a' /\ size a' = size a - 1 /\
    seg a' (size a') = seg a (size a) ∖ {[p]} /\
    forall n, n <= index a p -> seg a' n = seg a n.
Proof.
  intros Ha Hp. destruct (elem_index a p Ha Hp) as [Hr Lp].
  destruct (erase_ok a p Ha Hp) as (a' & -> & Hok & Hs & Hel & Hi). exists a'. split_and!; try done.
  - apply set_eq. intros q. rewrite elem_of_difference, elem_of_singleton, !elem_all by done. apply Hel.
  - intros n Hn. apply set_eq. intros q. rewrite !elem_seg by done. split.
    + intros [Hq Hl]. rewrite (Hi q Hq) in Hl. apply Hel in Hq as [Hq Hne]. split; [done|].
      case_decide; lia.
    + intros [Hq Hl]. assert (Hq' : q ∈ items a') by (apply Hel; split; [done|]; intros ->; lia).
      split; [done|]. rewrite (Hi q Hq'). case_decide; lia.
Qed.

Lemma seg_snoc a n p :
  ok a -> 0 <= n -> get a n = Done p -> seg a (n + 1) = {[p]} ∪ seg a n.
Proof.
  intros Ha Hn Hp. unfold get in Hp. apply nth_z_inv in Hp as [_ Hp].
  apply set_eq. intros q. rewrite elem_of_union, elem_of_singleton. unfold seg. rewrite !elem_of_list_to_set.
  replace (Z.to_nat (n + 1)) with (S (Z.to_nat n)) by lia. rewrite (take_S_r _ _ _ Hp), elem_of_app, list_elem_of_singleton.
  tauto.
Qed.

(** [push_back] adds at the end, and the segments before do not change. *)
Lemma push_back_spec a p :
  ok a -> p ∉ items a -> size a + 1 < 2 ^ 31 ->
  ok (push_back a p) /\ index (push_back a p) p = size a /\ size (push_back a p) = size a + 1 /\
  p ∈ items (push_back a p) /\
  (forall n, n <= size a -> seg (push_back a p) n = seg a n) /\
  seg (push_back a p) (size (push_back a p)) = {[p]} ∪ seg a (size a).
Proof.
  intros Ha Hp Hz. destruct (push_back_ok _ p Ha Hp Hz) as (Hb & Hi & Hs & Hne).
  set (b := push_back a p) in *.
  assert (Hq : forall q, q ∈ items b <-> q ∈ items a \/ q = p).
  { intros q. unfold b; simpl. by rewrite elem_of_app, list_elem_of_singleton. }
  split_and!; try done.
  - apply Hq. by right.
  - intros n Hn. apply set_eq. intros q. rewrite !elem_seg, Hq by done. split.
    + intros [[?| ->] Hl]; [|lia]. assert (q <> p) by (by intros ->). by rewrite Hne in Hl.
    + intros [? Hl]. assert (q <> p) by (by intros ->). rewrite Hne by done. auto.
  - apply set_eq. intros q. rewrite elem_of_union, elem_of_singleton, !elem_all, Hq by done. tauto.
Qed.

Lemma get_swaps a a' i j p q :
  ok a -> swaps a a' i j -> get a i = Done p -> get a j = Done q -> get a' j = Done p /\ get a' i = Done q.
Proof.
  intros Ha Hs Hp Hq. unfold get in *. apply nth_z_inv in Hp as [? Hp]. apply nth_z_inv in Hq as [? Hq].
  assert (Ep : p ∈ items a) by (apply list_elem_of_lookup; eauto).
  assert (Eq : q ∈ items a) by (apply list_elem_of_lookup; eauto).
  pose proof (index_lookup a _ p Ha Hp) as Ip. pose proof (index_lookup a _ q Ha Hq) as Iq.
  rewrite Z2Nat.id in Ip, Iq by lia. pose proof (sw_ok _ _ _ _ Hs) as Oa.
  pose proof (sw_index _ _ _ _ Hs p Ep) as Sp. pose proof (sw_index _ _ _ _ Hs q Eq) as Sq.
  unfold swapped in *. rewrite Ip in Sp. rewrite Iq in Sq. rewrite decide_True in Sp by done.
  split.
  - rewrite <- Sp. apply get_index; [done|]. by apply (swaps_elem _ _ _ _ p Hs).
  - replace i with (index a' q) by (repeat case_decide; congruence).
    apply get_index; [done|]. by apply (swaps_elem _ _ _ _ q Hs).
Qed.

(** ** Round robin over the first [active] items

    fq_t and lb_t keep a position [current] in the segment of active pipes.  How many
    pipes the round robin meets before [p]: *)
Definition ahead (a : array) (active current : Z) (p : nat) : Z :=
  if (current <=? index a p) then index a p - current else active - current + index a p.

(** A pipe that has nothing to offer leaves the segment: its last pipe takes the
    place, or the round robin starts again. *)
Lemma skip_spec a active current :
  ok a -> 0 <= current < active -> active <= size a ->
  exists a' c, get a current = Done c /\ swap a current (active - 1) = Done a' /\ ok a' /\
    size a' = size a /\
    seg a' (active - 1) = seg a active ∖ {[c]} /\ c ∈ seg a active /\
    (forall m, active <= m -> seg a' m = seg a m) /\
    forall p, p ∈ seg a' (active - 1) ->
      ahead a' (active - 1) (if current =? active - 1 then 0 else current) p <= ahead a active current p.
Proof.
  intros Ha Hc Hs. destruct (get_some a current) as (c & Ec & Lc); [lia|].
  assert (Hin : c ∈ items a) by (apply list_elem_of_lookup; eauto).
  pose proof (index_lookup _ _ c Ha Lc) as Ic. rewrite Z2Nat.id in Ic by lia.
  destruct (swap_spec a current (active - 1)) as (a' & -> & Hsw); [done|lia|lia|].
  exists a', c. pose proof Hsw as [Oa _ Zs Hi]. pose proof Hsw as Hsw'. rewrite <- Ic in Hsw'.
  split_and!; try done.
  - apply seg_sub; [done|done|done|lia].
  - apply elem_seg; [done|]. split; [done|lia].
  - intros m Hm. apply (seg_same _ _ _ _ m Ha Hsw). lia.
  - intros p Hp. apply elem_seg in Hp as [Hp Hl]; [|done]. apply (swaps_elem _ _ _ _ p Hsw) in Hp.
    rewrite (Hi p Hp) in Hl. unfold ahead. rewrite (Hi p Hp).
    assert (Hpc : index a p = current -> p = c).
    { intros E. pose proof (get_index a p Ha Hp) as G. congruence. }
    destruct (elem_index a p Ha Hp) as [Hr _].
    unfold swapped in *. destruct (Z.eqb_spec current (active - 1));
      repeat case_decide; repeat case_match; lia.
Qed.

(** A pipe that was served: the others are one step closer. *)
Lemma advance_spec a active current p c :
  ok a -> 0 <= current < active -> get a current = Done c -> p ∈ seg a active -> p <> c ->
  0 <= (current + 1) mod active < active /\
  ahead a active ((current + 1) mod active) p = ahead a active current p - 1.
Proof.
  intros Ha Hc Ec Hp Hne. apply elem_seg in Hp as [Hp Hl]; [|done].
  split; [apply Z.mod_pos_bound; lia|].
  assert (index a p <> current) by (intros E; pose proof (get_index a p Ha Hp); congruence).
  destruct (elem_index a p Ha Hp) as [Hr _].
  assert (Hm : (current + 1) mod active = if current + 1 =? active then 0 else current + 1).
  { destruct (Z.eqb_spec (current + 1) active) as [->|]; [by apply Z_mod_same_full|]. apply Z.mod_small. lia. }
  rewrite Hm. unfold ahead. destruct (Z.eqb_spec (current + 1) active);
    repeat case_match; lia.
Qed.

Lemma ahead_bound a active current p :
  ok a -> 0 <= current < active -> p ∈ seg a active -> 0 <= ahead a active current p < active.
Proof.
  intros Ha Hc Hp. apply elem_seg in Hp as [Hp Hl]; [|done].
  destruct (elem_index a p Ha Hp) as [Hr _]. unfold ahead. case_match; lia.
Qed.

Lemma get_item a i c : ok a -> get a i = Done c -> c ∈ items a /\ index a c = i /\ 0 <= i < size a.
Proof.
  intros Ha Hc. unfold get in Hc. apply nth_z_inv in Hc as [Hi Lc].
  assert (Hin : c ∈ items a) by (apply list_elem_of_lookup; eauto).
  pose proof (index_lookup _ _ c Ha Lc) as Ic. rewrite Z2Nat.id in Ic by lia.
  destruct (elem_index a c Ha Hin). split; [done|]. split; [done|]. lia.
Qed.

(** Erasing an item does not move the ones before it. *)
Lemma erase_get a a' p c i :
  ok a -> p ∈ items a -> erase a p = Done a' -> get a i = Done c -> i < index a p -> get a' i = Done c.
Proof.
  intros Ha Hp E Hc Hi. destruct (get_item a i c Ha Hc) as (Hin & Ic & Hr).
  destruct (erase_ok a p Ha Hp) as (a1 & E1 & Oa & _ & Hel & Hidx). rewrite E in E1. injection E1 as <-.
  assert (Hc' : c ∈ items a') by (apply Hel; split; [done|]; intros ->; lia).
  destruct (elem_index a p Ha Hp) as [Hrp _].
  replace i with (index a' c); [by apply get_index|]. rewrite (Hidx c Hc'), decide_False by lia. done.
Qed.

(** When pipe [p] leaves the active segment, the turn stays with the pipe that had it,
    unless that pipe was the last of the segment and [p] was not the first. *)
Lemma turn_kept a a' active current p c :
  ok a -> p ∈ items a -> index a p < active -> active <= size a -> get a current = Done c -> c <> p ->
  current < active -> current <> active - 1 \/ index a p = 0 ->
  swap a (index a p) (active - 1) = Done a' ->
  get a' (if current =? active - 1 then 0 else current) = Done c /\
  (if current =? active - 1 then 0 else current) < active - 1.
Proof.
  intros Ha Hp Hlt Hs Hc Hne Hcur Hcase E. destruct (get_item a current c Ha Hc) as (Hin & Ic & Hr).
  destruct (elem_index a p Ha Hp) as [Hrp Lp].
  destruct (swap_spec a (index a p) (active - 1)) as (a1 & E1 & Hsw); [done|done|lia|].
  rewrite E in E1. injection E1 as <-.
  assert (Hpc : index a p <> current).
  { intros Ep. pose proof (get_index a p Ha Hp) as G. rewrite Ep, Hc in G. congruence. }
  assert (Hi : index a' c = if current =? active - 1 then 0 else current).
  { rewrite (sw_index _ _ _ _ Hsw c Hin), Ic. unfold swapped. rewrite decide_False by done.
    destruct (Z.eqb_spec current (active - 1)); [rewrite decide_True by done; lia|by rewrite decide_False]. }
  rewrite <- Hi. split.
  - apply get_index; [apply Hsw|]. by apply (swaps_elem _ _ _ _ c Hsw).
  - rewrite Hi. destruct (Z.eqb_spec current (active - 1)); lia.
Qed.

End Array.
