(* ===== verification/Dist.v ===== *)
(** * Dist: dist_t, the distributor of outbound messages (libzmq/src/dist.cpp)

    The pipes are one array in four segments: the matching ones first, then the
    other active ones, the other eligible ones, and the passive ones.  Segments are
    changed by swapping; the theorems show that the segments behave as sets and
    that a message goes to every matching pipe, once. *)

From S2P Require Import Prelude Msg Pipes Array.

Module Dist.
Import Array.

Record dist : Type := Dist {
  pipes : array;
  matching : Z;
  active : Z;
  eligible : Z;
  more : bool
}.

Definition dist_new : dist := Dist empty 0 0 0 false.

Definition attach (pipe : nat) (d : dist) : outcome dist :=
  let a := push_back (pipes d) pipe in
  if more d then
    let* a := swap a (eligible d) (size a - 1) in
    Done (Dist a (matching d) (active d) (eligible d + 1) (more d))
  else
    let* a := swap a (active d) (size a - 1) in
    Done (Dist a (matching d) (active d + 1) (eligible d + 1) (more d)).

Definition match_ (pipe : nat) (d : dist) : outcome dist :=
  if (index (pipes d) pipe <? matching d) then Done d
  else if (eligible d <=? index (pipes d) pipe) then Done d
  else
    let* a := swap (pipes d) (index (pipes d) pipe) (matching d) in
    Done (Dist a (matching d + 1) (active d) (eligible d) (more d)).

Definition unmatch (d : dist) : dist := Dist (pipes d) 0 (active d) (eligible d) (more d).

(** [for (i = prev_matching; i < eligible; ++i) pipes.swap (i, matching++)] *)
Fixpoint reverse_loop (n : nat) (i : Z) (d : dist) : outcome dist :=
  match n with
  | O => Done d
  | S n =>
    let* a := swap (pipes d) i (matching d) in
    reverse_loop n (i + 1) (Dist a (matching d + 1) (active d) (eligible d) (more d))
  end.

Definition reverse_match (d : dist) : outcome dist :=
  let prev_matching := matching d in
  let d := unmatch d in
  reverse_loop (Z.to_nat (eligible d - prev_matching)) prev_matching d.

Definition pipe_terminated (pipe : nat) (d : dist) : outcome dist :=
  let* d := if (index (pipes d) pipe <? matching d) then
              let* a := swap (pipes d) (index (pipes d) pipe) (matching d - 1) in
              Done (Dist a (matching d - 1) (active d) (eligible d) (more d))
            else Done d in
  let* d := if (index (pipes d) pipe <? active d) then
              let* a := swap (pipes d) (index (pipes d) pipe) (active d - 1) in
              Done (Dist a (matching d) (active d - 1) (eligible d) (more d))
            else Done d in
  let* d := if (index (pipes d) pipe <? eligible d) then
              let* a := swap (pipes d) (index (pipes d) pipe) (eligible d - 1) in
              Done (Dist a (matching d) (active d) (eligible d - 1) (more d))
            else Done d in
  let* a := erase (pipes d) pipe in
  Done (Dist a (matching d) (active d) (eligible d) (more d)).

Definition activated (pipe : nat) (d : dist) : outcome dist :=
  let* d := if (eligible d <? size (pipes d)) then
              let* a := swap (pipes d) (index (pipes d) pipe) (eligible d) in
              Done (Dist a (matching d) (active d) (eligible d + 1) (more d))
            else Done d in
  if negb (more d) && (active d <? size (pipes d)) then
    let* a := swap (pipes d) (eligible d - 1) (active d) in
    Done (Dist a (matching d) (active d + 1) (eligible d) (more d))
  else Done d.

(** What [write] does to the array when the pipe refuses the message. *)
Definition demote (pipe : nat) (d : dist) : outcome dist :=
  let* a := swap (pipes d) (index (pipes d) pipe) (matching d - 1) in
  let m := matching d - 1 in
  let* a := swap a (index a pipe) (active d - 1) in
  let ac := active d - 1 in
  let* a := swap a ac (eligible d - 1) in
  Done (Dist a m ac (eligible d - 1) (more d)).

Section Send.
Context {W : Type} `{PipeOps W}.

Definition write (pipe : nat) (msg : Msg.msg) (d : dist) : stm (env W) (bool * dist) :=
  let! ok := on_pipes (pipe_write pipe msg) in
  if negb ok then let! d := slift (demote pipe d) in sret (false, d)
  else
    (if negb (msg_more msg) then on_pipes (fun w => (pipe_flush pipe w, tt)) else sret tt) ;;;
    sret (true, d).

(** [for (i = 0; i < matching; ++i) if (!write (pipes[i], msg)) { ++failed; --i; }]; one
    unit of fuel per write. *)
Fixpoint write_loop (fuel : nat) (i failed : Z) (msg : Msg.msg) (d : dist)
  : stm (env W) (Z * dist) :=
  if (i <? matching d) then
    match fuel with
    | O => scrash
    | S fuel =>
      let! p := slift (get (pipes d) i) in
      let! (ok, d) := write p msg d in
      if ok then write_loop fuel (i + 1) failed msg d
      else write_loop fuel i (failed + 1) msg d
    end
  else sret (failed, d).

(** The message left is the caller's, initialised again. *)
Definition distribute (msg : Msg.msg) (d : dist) : stm (env W) (Msg.msg * dist) :=
  if (matching d =? 0) then let! m := close_init msg in sret (m, d)
  else if Msg.is_vsm msg then
    let! (_, d) := write_loop (Z.to_nat (matching d)) 0 0 msg d in
    let! m := close_init msg in sret (m, d)
  else
    let! msg := on_mem (Msg.add_refs (i32 (matching d) - 1) msg) in
    let! (failed, d) := write_loop (Z.to_nat (matching d)) 0 0 msg d in
    (if negb (failed =? 0) then on_mem (Msg.rm_refs failed msg) ;;; sret tt else sret tt) ;;;
    sret (Msg.init, d).

Definition send_to_matching (msg : Msg.msg) (d : dist) : stm (env W) (Msg.msg * dist) :=
  let more_ := msg_more msg in
  let! (m, d) := distribute msg d in
  let ac := if negb more_ then eligible d else active d in
  sret (m, Dist (pipes d) (matching d) ac (eligible d) more_).

Definition send_to_all (msg : Msg.msg) (d : dist) : stm (env W) (Msg.msg * dist) :=
  send_to_matching msg (Dist (pipes d) (active d) (active d) (eligible d) (more d)).

Definition has_out (d : dist) : bool := true.

Fixpoint check_hwm_from (n : nat) (i : Z) (d : dist) (w : W) : outcome bool :=
  match n with
  | O => Done true
  | S n =>
    let* p := get (pipes d) i in
    if negb (pipe_check_hwm p w) then Done false else check_hwm_from n (i + 1) d w
  end.

Definition check_hwm (d : dist) (w : W) : outcome bool :=
  check_hwm_from (Z.to_nat (matching d)) 0 d w.
End Send.

(** ** The four segments as sets *)

Record dist_ok (d : dist) : Prop := {
  d_array : ok (pipes d);
  d_order : 0 <= matching d <= active d /\ active d <= eligible d <= size (pipes d);
  d_idle : more d = false -> active d = eligible d
}.

(** The abstract state: four nested sets of pipes, and whether a message is half
    sent. *)
Record segs : Type := Segs {
  s_match : gset nat; s_active : gset nat; s_elig : gset nat; s_all : gset nat; s_more : bool
}.

Definition abs (d : dist) : segs :=
  Segs (seg (pipes d) (matching d)) (seg (pipes d) (active d)) (seg (pipes d) (eligible d))
       (seg (pipes d) (size (pipes d))) (more d).

Definition s_attach (p : nat) (s : segs) : segs :=
  Segs (s_match s) (if s_more s then s_active s else {[p]} ∪ s_active s) ({[p]} ∪ s_elig s)
       ({[p]} ∪ s_all s) (s_more s).

Definition s_matched (p : nat) (s : segs) : segs :=
  Segs (if decide (p ∈ s_elig s) then {[p]} ∪ s_match s else s_match s) (s_active s) (s_elig s)
       (s_all s) (s_more s).

Definition s_unmatch (s : segs) : segs :=
  Segs ∅ (s_active s) (s_elig s) (s_all s) (s_more s).

Definition s_reverse (s : segs) : segs :=
  Segs (s_elig s ∖ s_match s) (s_active s) (s_elig s) (s_all s) (s_more s).

Definition s_remove (p : nat) (s : segs) : segs :=
  Segs (s_match s ∖ {[p]}) (s_active s ∖ {[p]}) (s_elig s ∖ {[p]}) (s_all s ∖ {[p]}) (s_more s).

Definition s_activated (p : nat) (s : segs) : segs :=
  Segs (s_match s) (if s_more s then s_active s else {[p]} ∪ s_active s) ({[p]} ∪ s_elig s)
       (s_all s) (s_more s).

Lemma segs_eq s s' :
  (forall q, q ∈ s_match s <-> q ∈ s_match s') -> (forall q, q ∈ s_active s <-> q ∈ s_active s') ->
  (forall q, q ∈ s_elig s <-> q ∈ s_elig s') -> (forall q, q ∈ s_all s <-> q ∈ s_all s') ->
  s_more s = s_more s' -> s = s'.
Proof.
  destruct s, s'; simpl. intros H1 H2 H3 H4 ->. f_equal; by apply set_eq.
Qed.

(** ** Each operation on the sets *)
Lemma dist_match_spec p d :
  dist_ok d -> more d = false -> p ∈ items (pipes d) ->
  exists d', match_ p d = Done d' /\ dist_ok d' /\ abs d' = s_matched p (abs d).
Proof.
  intros [Ha Ho Hm] Hmore Hp. destruct (elem_index _ p Ha Hp) as [Hr _]. unfold match_, abs, s_matched.
  specialize (Hm Hmore). simpl.
  assert (He : p ∈ seg (pipes d) (eligible d) <-> index (pipes d) p < eligible d).
  { rewrite elem_seg by done. tauto. }
  destruct (Z.ltb_spec (index (pipes d) p) (matching d)).
  { exists d. split; [done|]. split; [done|]. rewrite decide_True by (apply He; lia). f_equal.
    symmetry. apply subseteq_union_1_L, singleton_subseteq_l, elem_seg; done. }
  destruct (Z.leb_spec (eligible d) (index (pipes d) p)).
  { exists d. split; [done|]. split; [done|]. by rewrite decide_False by (rewrite He; lia). }
  destruct (swap_spec (pipes d) (index (pipes d) p) (matching d)) as (a & -> & Hs); [done|done|lia|].
  simpl. eexists; split; [reflexivity|]. split; [split; simpl; [apply Hs|rewrite (sw_size _ _ _ _ Hs); lia|lia]|].
  simpl. rewrite decide_True by (apply He; lia). rewrite (seg_add (pipes d) a p) by done.
  rewrite (seg_same (pipes d) a _ _ (active d) Ha Hs) by lia.
  rewrite (seg_same (pipes d) a _ _ (eligible d) Ha Hs) by lia.
  by rewrite (seg_all (pipes d) a _ _ _ (size (pipes d)) Ha Hs).
Qed.

Definition s_fail (p : nat) (s : segs) : segs :=
  Segs (s_match s ∖ {[p]}) (s_active s ∖ {[p]}) (s_elig s ∖ {[p]}) (s_all s) (s_more s).

(** A pipe that refused a message becomes passive; the pipes before it do not move. *)
Lemma demote_spec p d :
  dist_ok d -> p ∈ items (pipes d) -> index (pipes d) p < matching d ->
  exists d', demote p d = Done d' /\ dist_ok d' /\ abs d' = s_fail p (abs d) /\
    matching d' = matching d - 1 /\
    forall n, n <= index (pipes d) p -> seg (pipes d') n = seg (pipes d) n.
Proof.
  intros [Ha Ho Hm] Hp Hlt. destruct (elem_index _ p Ha Hp) as [Hr _]. unfold demote.
  destruct (swap_spec (pipes d) (index (pipes d) p) (matching d - 1)) as (a1 & -> & H1); [done|lia|lia|].
  cbn [obind]. pose proof (swaps_at _ _ _ _ p H1 Hp eq_refl) as P1.
  pose proof (proj2 (swaps_elem _ _ _ _ p H1) Hp) as E1. pose proof (sw_ok _ _ _ _ H1) as O1.
  pose proof (sw_size _ _ _ _ H1) as Z1.
  destruct (swap_spec a1 (index a1 p) (active d - 1)) as (a2 & -> & H2); [done|lia|lia|].
  cbn [obind]. pose proof (swaps_at _ _ _ _ p H2 E1 eq_refl) as P2.
  pose proof (proj2 (swaps_elem _ _ _ _ p H2) E1) as E2. pose proof (sw_ok _ _ _ _ H2) as O2.
  pose proof (sw_size _ _ _ _ H2) as Z2.
  destruct (swap_spec a2 (active d - 1) (eligible d - 1)) as (a3 & -> & H3); [done|lia|lia|].
  cbn [obind]. pose proof (sw_ok _ _ _ _ H3) as O3. pose proof (sw_size _ _ _ _ H3) as Z3.
  eexists; split; [reflexivity|].
  split; [split; simpl; [done|lia|intros E; specialize (Hm E); lia]|]. split; [|split; [done|]].
  - unfold abs, s_fail; simpl. f_equal.
    + rewrite (seg_same a2 a3 _ _ _ O2 H3), (seg_same a1 a2 _ _ _ O1 H2) by lia.
      by apply (seg_sub (pipes d) a1 p (matching d)).
    + rewrite (seg_same a2 a3 _ _ _ O2 H3) by lia.
      rewrite (seg_sub a1 a2 p (active d)) by (done || lia).
      by rewrite (seg_same (pipes d) a1 _ _ (active d) Ha H1) by lia.
    + rewrite <- P2 in H3. rewrite (seg_sub a2 a3 p (eligible d)) by (done || lia).
      rewrite (seg_same a1 a2 _ _ (eligible d) O1 H2) by lia.
      by rewrite (seg_same (pipes d) a1 _ _ (eligible d) Ha H1) by lia.
    + rewrite (seg_all a2 a3 _ _ _ (size a2) O2 H3), (seg_all a1 a2 _ _ _ (size a1) O1 H2) by done.
      by apply (seg_all (pipes d) a1 _ _ _ _ Ha H1).
  - intros n Hn. simpl. rewrite (seg_same a2 a3 _ _ n O2 H3), (seg_same a1 a2 _ _ n O1 H2) by lia.
    by apply (seg_same (pipes d) a1 _ _ n Ha H1); lia.
Qed.

Lemma dist_attach_spec p d :
  dist_ok d -> p ∉ items (pipes d) -> size (pipes d) + 1 < 2 ^ 31 ->
  exists d', attach p d = Done d' /\ dist_ok d' /\ abs d' = s_attach p (abs d).
Proof.
  intros [Ha Ho Hm] Hp Hz. destruct (push_back_spec _ p Ha Hp Hz) as (Hb & Hi & Hs & Hpb & Hseg & Hall).
  set (b := push_back (pipes d) p) in *.
  assert (Hat : forall n, 0 <= n <= size (pipes d) -> exists a, swap b n (size b - 1) = Done a /\
    swaps b a (index b p) n).
  { intros n Hn. destruct (swap_spec b n (size b - 1)) as (a & E & Hsw); [done|lia|lia|].
    exists a. split; [done|]. apply swaps_sym in Hsw. by replace (index b p) with (size b - 1) by lia. }
  unfold attach, s_attach, abs; simpl. fold b. destruct (more d) eqn:Em.
  - destruct (Hat (eligible d)) as (a & -> & Hsw); [lia|]. simpl. eexists; split; [reflexivity|].
    pose proof (sw_size _ _ _ _ Hsw). split; [split; simpl; [apply Hsw|lia|done]|]. simpl.
    rewrite (seg_same b a _ _ (matching d) Hb Hsw), (seg_same b a _ _ (active d) Hb Hsw) by lia.
    rewrite (seg_add b a p) by (done || lia). rewrite (seg_all b a _ _ _ (size b) Hb Hsw), Hall by done.
    by rewrite !Hseg by lia.
  - specialize (Hm eq_refl). destruct (Hat (active d)) as (a & -> & Hsw); [lia|]. simpl.
    eexists; split; [reflexivity|]. pose proof (sw_size _ _ _ _ Hsw).
    split; [split; simpl; [apply Hsw|lia|lia]|]. simpl.
    rewrite (seg_same b a _ _ (matching d) Hb Hsw) by lia.
    rewrite <- Hm, (seg_add b a p) by (done || lia).
    rewrite (seg_all b a _ _ _ (size b) Hb Hsw), Hall by done. by rewrite !Hseg by lia.
Qed.

Lemma dist_pipe_terminated_spec p d :
  dist_ok d -> p ∈ items (pipes d) ->
  exists d', pipe_terminated p d = Done d' /\ dist_ok d' /\ abs d' = s_remove p (abs d).
Proof.
  intros [Ha Ho Hm] Hp. destruct d as [a m ac e mo]; simpl in *. unfold pipe_terminated; simpl.
  destruct (cut_spec (fun a n => Dist a n ac e mo) p a m Ha Hp)
    as (a1 & m1 & -> & O1 & P1 & Z1 & B1 & S1 & I1 & U1 & L1 & D1); [lia|]. cbn [obind pipes matching active eligible more].
  destruct (cut_spec (fun a n => Dist a m1 n e mo) p a1 ac O1 P1)
    as (a2 & ac2 & -> & O2 & P2 & Z2 & B2 & S2 & I2 & U2 & L2 & D2); [lia|]. cbn [obind pipes matching active eligible more].
  destruct (cut_spec (fun a n => Dist a m1 ac2 n mo) p a2 e O2 P2)
    as (a3 & e3 & -> & O3 & P3 & Z3 & B3 & S3 & I3 & U3 & L3 & D3); [lia|]. cbn [obind pipes matching active eligible more].
  destruct (erase_spec p a3 O3 P3) as (a4 & -> & O4 & Z4 & S4 & L4). cbn [obind].
  eexists; split; [reflexivity|].
  assert (Hmm : m1 <= ac2 /\ ac2 <= e3 /\ (mo = false -> ac2 = e3)).
  { assert (Hx1 : index a p < ac <-> index a1 p < ac).
    { pose proof (U1 ac ltac:(lia)) as E. pose proof (elem_seg a1 ac p O1). pose proof (elem_seg a ac p Ha).
      rewrite E in *. tauto. }
    assert (Hx2 : index a1 p < e <-> index a2 p < e).
    { pose proof (U2 e ltac:(lia)) as E. pose proof (elem_seg a2 e p O2). pose proof (elem_seg a1 e p O1).
      rewrite E in *. tauto. }
    clear - D1 D2 D3 Hx1 Hx2 Ho Hm. destruct mo; repeat case_decide; split_and!; intros; try specialize (Hm eq_refl); lia. }
  assert (Hsz : e3 <= size a3 - 1).
  { destruct (elem_index a3 p O3 P3) as [? _]. lia. }
  split; [split; simpl; [done|lia|tauto]|].
  unfold abs, s_remove; simpl.
  rewrite (L4 m1), (L4 ac2), (L4 e3), S4 by lia.
  f_equal.
  - destruct (Z.le_gt_cases m1 (index a2 p)); [|lia].
    rewrite (L3 m1), (L2 m1) by lia. exact S1.
  - rewrite (L3 ac2) by lia. rewrite S2. by rewrite (U1 ac) by lia.
  - rewrite S3. rewrite (U2 e), (U1 e) by lia. done.
  - rewrite Z3, Z2, Z1. rewrite (U3 (size a)), (U2 (size a)), (U1 (size a)) by lia. done.
Qed.

Lemma dist_activated_spec p d :
  dist_ok d -> p ∈ items (pipes d) -> eligible d <= index (pipes d) p ->
  exists d', activated p d = Done d' /\ dist_ok d' /\ abs d' = s_activated p (abs d).
Proof.
  intros [Ha Ho Hm] Hp Hge. destruct (elem_index _ p Ha Hp) as [Hr _]. unfold activated.
  destruct (Z.ltb_spec (eligible d) (size (pipes d))); [|lia].
  destruct (swap_spec (pipes d) (index (pipes d) p) (eligible d)) as (a & -> & Hs); [done|done|lia|].
  cbn [obind pipes matching active eligible more]. pose proof (sw_size _ _ _ _ Hs) as Hz.
  pose proof (sw_ok _ _ _ _ Hs) as Oa. unfold abs, s_activated; simpl.
  destruct (more d) eqn:Em; simpl.
  - eexists; split; [reflexivity|]. split; [split; simpl; [done|lia|done]|]. simpl.
    rewrite (seg_add (pipes d) a p) by done.
    rewrite (seg_same _ _ _ _ (matching d) Ha Hs), (seg_same _ _ _ _ (active d) Ha Hs) by lia.
    by rewrite (seg_all _ _ _ _ _ (size (pipes d)) Ha Hs).
  - specialize (Hm eq_refl). destruct (Z.ltb_spec (active d) (size a)); [|lia].
    replace (eligible d + 1 - 1) with (active d) by lia.
    destruct (swap_spec a (active d) (active d)) as (b & -> & Hb); [done|lia|lia|]. simpl.
    pose proof (sw_size _ _ _ _ Hb). eexists; split; [reflexivity|].
    split; [split; simpl; [apply Hb|lia|lia]|]. simpl.
    rewrite !(seg_same _ _ _ _ _ Oa Hb) by lia. rewrite Hm.
    rewrite (seg_add (pipes d) a p) by done.
    rewrite (seg_same _ _ _ _ (matching d) Ha Hs) by lia.
    by rewrite (seg_all (pipes d) a _ _ _ (size (pipes d)) Ha Hs) by congruence.
Qed.

Lemma unmatch_spec d : dist_ok d -> dist_ok (unmatch d) /\ abs (unmatch d) = s_unmatch (abs d).
Proof. intros [Ha Ho Hm]. split; [split; simpl; [done|lia|done]|done]. Qed.

(** Invariant of [reverse_loop]: of the positions from [i] to [eligible], nothing has
    moved; the matching ones are what was met on the way. *)
Lemma reverse_loop_spec k : forall i d,
  dist_ok d -> Z.of_nat k = eligible d - i -> 0 <= matching d <= i -> active d = eligible d ->
  exists d', reverse_loop k i d = Done d' /\ dist_ok d' /\
    abs d' = Segs (s_match (abs d) ∪ (seg (pipes d) (eligible d) ∖ seg (pipes d) i))
                  (s_active (abs d)) (s_elig (abs d)) (s_all (abs d)) (more d).
Proof.
  induction k as [|k IH]; intros i d Hd Hk Hi Hact.
  - exists d. split; [done|]. split; [done|]. unfold abs; simpl. f_equal.
    replace i with (eligible d) by lia. set_solver.
  - pose proof Hd as [Ha Ho Hm]. simpl.
    destruct (swap_spec (pipes d) i (matching d)) as (a & -> & Hs); [done|lia|lia|]. cbn [obind].
    pose proof (sw_size _ _ _ _ Hs) as Hz. pose proof (sw_ok _ _ _ _ Hs) as Oa.
    destruct (get_some (pipes d) i) as (p & Hp & _); [lia|].
    destruct (get_some (pipes d) (matching d)) as (q & Hq & _); [lia|].
    destruct (get_swaps _ _ _ _ p q Ha Hs Hp Hq) as [Hp' Hq'].
    assert (Hm' : matching d + 1 <= i + 1) by lia.
    destruct (IH (i + 1) (Dist a (matching d + 1) (active d) (eligible d) (more d))) as (d' & -> & Hd' & Ed').
    { split; simpl; [exact Oa|lia|intros E; exact (Hm E)]. }
    { simpl; lia. } { simpl; lia. } { exact Hact. }
    exists d'. split; [done|]. split; [done|]. rewrite Ed'. unfold abs; simpl.
    rewrite (seg_snoc a (matching d) p) by (done || lia).
    rewrite (seg_same _ _ _ _ (matching d) Ha Hs), (seg_same _ _ _ _ (active d) Ha Hs),
      (seg_same _ _ _ _ (eligible d) Ha Hs) by lia.
    rewrite (seg_all (pipes d) a _ _ (size a) (size (pipes d)) Ha Hs) by done. f_equal.
    rewrite (seg_same _ _ _ _ (i + 1) Ha Hs) by lia.
    rewrite (seg_snoc (pipes d) i p) by (done || lia).
    assert (Hpe : p ∈ seg (pipes d) (eligible d) /\ p ∉ seg (pipes d) i).
    { unfold get in Hp. apply nth_z_inv in Hp as [_ Hp].
      pose proof (index_lookup _ _ p Ha Hp) as Ip. rewrite !elem_seg by done.
      assert (p ∈ items (pipes d)) by (apply list_elem_of_lookup; eauto). split; [split; [done|lia]|lia]. }
    apply set_eq. intros x. rewrite !elem_of_union, !elem_of_difference, !elem_of_union, elem_of_singleton.
    destruct (decide (x = p)) as [->|]; [|tauto]. tauto.
Qed.

Lemma reverse_match_spec d :
  dist_ok d -> more d = false ->
  exists d', reverse_match d = Done d' /\ dist_ok d' /\ abs d' = s_reverse (abs d).
Proof.
  intros Hd Hmore. pose proof Hd as [Ha Ho Hm]. destruct (unmatch_spec d Hd) as [Hu Eu].
  unfold reverse_match.
  destruct (reverse_loop_spec (Z.to_nat (eligible (unmatch d) - matching d)) (matching d) (unmatch d))
    as (d' & -> & Hd' & Ed'); [done|simpl; lia|simpl; lia|by apply Hm|].
  exists d'. split; [done|]. split; [done|]. rewrite Ed', Eu. unfold s_reverse, abs; simpl. f_equal. set_solver.
Qed.

(** ** The operations, and what they do to the sets *)

Inductive op : Type :=
| Attach (p : nat)
| Match (p : nat)
| Unmatch
| ReverseMatch
| PipeTerminated (p : nat)
| Activated (p : nat).

Definition step (o : op) (d : dist) : outcome dist :=
  match o with
  | Attach p => attach p d
  | Match p => match_ p d
  | Unmatch => Done (unmatch d)
  | ReverseMatch => reverse_match d
  | PipeTerminated p => pipe_terminated p d
  | Activated p => activated p d
  end.

(** When the sockets call it: a pipe is attached once, matching is done between two
    messages, and a pipe is activated when it is passive. *)
Definition pre (o : op) (d : dist) : Prop :=
  match o with
  | Attach p => (p ∉ s_all (abs d)) /\ size (pipes d) + 1 < 2 ^ 31
  | Match p => more d = false /\ p ∈ s_all (abs d)
  | Unmatch => True
  | ReverseMatch => more d = false
  | PipeTerminated p => p ∈ s_all (abs d)
  | Activated p => p ∈ s_all (abs d) /\ p ∉ s_elig (abs d)
  end.

Definition spec_step (o : op) (s : segs) : segs :=
  match o with
  | Attach p => s_attach p s
  | Match p => s_matched p s
  | Unmatch => s_unmatch s
  | ReverseMatch => s_reverse s
  | PipeTerminated p => s_remove p s
  | Activated p => s_activated p s
  end.

Lemma dist_step_spec o d :
  dist_ok d -> pre o d ->
  exists d', step o d = Done d' /\ dist_ok d' /\ abs d' = spec_step o (abs d).
Proof.
  intros Hd. pose proof (d_array _ Hd) as Ha.
  assert (Hall : forall p, p ∈ s_all (abs d) <-> p ∈ items (pipes d)) by (intros p; by apply elem_all).
  destruct o as [p|p| | |p|p]; simpl pre; rewrite ?Hall.
  - intros [? ?]. by apply dist_attach_spec.
  - intros [? ?]. by apply dist_match_spec.
  - intros _. eexists; split; [reflexivity|]. by apply unmatch_spec.
  - intros ?. by apply reverse_match_spec.
  - intros ?. by apply dist_pipe_terminated_spec.
  - intros [Hp He]. apply dist_activated_spec; [done|done|]. simpl in He. rewrite elem_seg in He by done.
    apply Z.nlt_ge. tauto.
Qed.

Lemma dist_new_ok : dist_ok dist_new.
Proof. split; simpl; [apply ok_empty|unfold size; simpl; lia|done]. Qed.

(** ** Sending *)

Section Sending.
Context {W : Type} `{PipeOps W}.

(** One part written to each pipe of a list, and the pipes that refused it. *)
Fixpoint deliver (msg : Msg.msg) (ps : list nat) (w : W) : W * list nat :=
  match ps with
  | [] => (w, [])
  | p :: ps =>
    let (w, ok) := pipe_write p msg w in
    if ok then deliver msg ps (if msg_more msg then w else pipe_flush p w)
    else let (w, failed) := deliver msg ps w in (w, p :: failed)
  end.

(** The distribution of a part to a list of pipes: one reference per pipe. *)
Definition spec_send (msg : Msg.msg) (ps : list nat) : stm (env W) (Msg.msg * list nat) :=
  match ps with
  | [] => let! m := close_init msg in sret (m, [])
  | _ :: _ =>
    if Msg.is_vsm msg then
      let! failed := on_pipes (deliver msg ps) in
      let! m := close_init msg in sret (m, failed)
    else
      let! msg := on_mem (Msg.add_refs (Z.of_nat (length ps) - 1) msg) in
      let! failed := on_pipes (deliver msg ps) in
      (if negb (Z.of_nat (length failed) =? 0)
       then on_mem (Msg.rm_refs (Z.of_nat (length failed)) msg) ;;; sret tt else sret tt) ;;;
      sret (Msg.init, failed)
  end.

Lemma deliver_failed msg ps : forall w, (length (deliver msg ps w).2 <= length ps)%nat.
Proof.
  induction ps as [|p ps IH]; intros w; simpl; [lia|]. destruct (pipe_write p msg w) as [w1 []].
  - specialize (IH (if msg_more msg then w1 else pipe_flush p w1)). lia.
  - specialize (IH w1). destruct (deliver msg ps w1). simpl in *. lia.
Qed.

(** The references for [n] pipes of which [f] refuse. *)
Lemma distribute_total mem vs v msg n f :
  Msg.inv mem vs -> vs !! v = Some msg -> (f <= n)%nat -> (0 < n)%nat -> Z.of_nat (n + base.size vs) < 2 ^ 32 ->
  exists mem1 m1 mem2, Msg.add_refs (Z.of_nat n - 1) msg mem = Done (mem1, m1) /\
    (exists r, Msg.rm_refs (Z.of_nat f) m1 mem1 = Done (mem2, r)) /\
    exists vs', Msg.inv mem2 vs' /\ delete v vs ⊆ vs' /\ (base.size vs' <= n + base.size vs)%nat.
Proof.
  intros Hi Hv Hf Hn Hz. set (ds := fresh_list (n - f) (dom vs) : list nat).
  assert (Hlen : length ds = (n - f)%nat) by apply length_fresh_list.
  assert (Hu : Msg.unused ds vs).
  { split; [apply NoDup_fresh_list|]. intros d Hd. apply not_elem_of_dom.
    by apply (fresh_list_is_fresh (n - f) (dom vs)). }
  destruct (Msg.step_distribute (fun _ => true) (Msg.State mem vs) v ds (Z.of_nat f) Hi) as (st' & E & Hg & _).
  { cbn [Msg.pre Msg.vs]. rewrite Hlen. split; [by eexists|]. split; [done|]. split_and!; lia. }
  cbn [Msg.step Msg.mem Msg.vs] in E. rewrite Hv, Hlen in E. cbn [deref obind] in E.
  replace (Z.of_nat (n - f) + Z.of_nat f - 1) with (Z.of_nat n - 1) in E by lia.
  destruct (Msg.add_refs _ msg mem) as [[mem1 m1]|]; [|done]. cbn [obind] in E. exists mem1, m1.
  destruct (Msg.rm_refs _ m1 mem1) as [[mem2 r]|]; [|done]. cbn [obind] in E. injection E as <-.
  exists mem2. split; [done|]. split; [by exists r|].
  exists (delete v (<[v := Msg.init]> (Msg.insert_all ds m1 vs))). split; [|split].
  - apply (Msg.inv_delete_none mem2 _ v Msg.init Hg); [apply lookup_insert_eq|done].
  - rewrite delete_insert_eq. apply delete_mono. apply map_subseteq_spec. intros k m Hk.
    rewrite Msg.lookup_insert_all, decide_False; [done|]. intros Hin. apply Hu in Hin. congruence.
  - rewrite delete_insert_eq. etrans; [apply Msg.size_delete_le|]. rewrite Msg.size_insert_all by done. lia.
Qed.

(** The distribution of a message held by a variable succeeds: its references go to the copies
    in the pipes, and what it leaves to the caller is a new message. *)
Lemma spec_send_total msg ps mem (w : W) vs v :
  Msg.inv mem vs -> vs !! v = Some msg -> Z.of_nat (length ps + base.size vs) < 2 ^ 32 ->
  exists mem' w' failed vs', spec_send msg ps (Env mem w) = Done (Env mem' w', (Msg.init, failed)) /\
    Msg.inv mem' vs' /\ delete v vs ⊆ vs' /\ (base.size vs' <= length ps + base.size vs)%nat.
Proof.
  intros Hi Hv Hz. destruct (Msg.close_spec mem vs v msg Hi Hv) as (mem1 & Ec & Hi1 & _).
  pose proof (Msg.size_delete_le v vs) as Hsz.
  assert (Hclose : forall w' : W, close_init msg (Env mem w') = Done (Env mem1 w', Msg.init)).
  { intros w'. unfold close_init, sbind, on_mem. cbn [e_mem e_pipes]. by rewrite Ec. }
  unfold spec_send. destruct ps as [|p ps].
  { exists mem1, w, [], (delete v vs). unfold sbind. rewrite Hclose. split; [done|]. split; [done|]. split; [done|lia]. }
  destruct (Msg.is_vsm msg) eqn:Evsm.
  { exists mem1, (deliver msg (p :: ps) w).1, (deliver msg (p :: ps) w).2, (delete v vs). unfold sbind, on_pipes. cbn [e_mem e_pipes].
    destruct (deliver msg (p :: ps) w) as [w' failed]. cbn [obind fst snd]. rewrite Hclose. split; [done|]. split; [done|].
    split; [done|lia]. }
  assert (Hl : (0 < length (p :: ps))%nat) by (simpl; lia).
  destruct (distribute_total mem vs v msg (length (p :: ps)) 0 Hi Hv) as (mem2 & m2 & _ & Ea & _); [lia|lia|lia|].
  pose proof (deliver_failed m2 (p :: ps) w) as Hfl.
  unfold sbind, on_mem, on_pipes, sret. cbn [e_mem e_pipes]. rewrite Ea. cbn [obind e_mem e_pipes].
  destruct (deliver m2 (p :: ps) w) as [w' failed]. cbn [obind fst snd e_mem e_pipes] in *.
  destruct (distribute_total mem vs v msg (length (p :: ps)) (length failed) Hi Hv) as (mem3 & m3 & mem4 & Ea' & (r & Hrm) & vs' & Hi' & Hsub & Hs');
    [lia|lia|lia|]. rewrite Ea in Ea'. injection Ea' as <- <-. exists mem4, w', failed, vs'.
  split; [|done]. destruct (Z.eqb_spec (Z.of_nat (length failed)) 0) as [E0|_]; cbn [negb].
  - rewrite E0 in Hrm. cbn [obind]. unfold Msg.rm_refs, sbind, sassert, sret in Hrm.
    destruct (bool_decide (Msg.metadata m2 = None)); [|done]. cbn in Hrm. by injection Hrm as <- _.
  - cbn [obind e_mem e_pipes]. by rewrite Hrm.
Qed.

Definition s_fails (ps : list nat) (s : segs) : segs := fold_left (fun s p => s_fail p s) ps s.

Lemma fails_all l : forall s, s_all (s_fails l s) = s_all s.
Proof. unfold s_fails. induction l as [|p l IH]; intros s; [done|]. simpl. by rewrite IH. Qed.

Lemma write_eq p msg d (e : env W) :
  write p msg d e =
    let (w, ok) := pipe_write p msg (e_pipes e) in
    if ok then Done (Env (e_mem e) (if msg_more msg then w else pipe_flush p w), (true, d))
    else let* d' := demote p d in Done (Env (e_mem e) w, (false, d')).
Proof.
  unfold write, sbind, slift, on_pipes. destruct (pipe_write p msg (e_pipes e)) as [w ok]. simpl.
  destruct ok; simpl; [by destruct (msg_more msg)|]. by destruct (demote p d).
Qed.

Lemma write_loop_eq k i failed msg d p (e : env W) :
  i < matching d -> get (pipes d) i = Done p ->
  write_loop (S k) i failed msg d e =
    let* (e, r) := write p msg d e in
    if (r : bool * dist).1 then write_loop k (i + 1) failed msg r.2 e
    else write_loop k i (failed + 1) msg r.2 e.
Proof.
  intros Hi Hp. cbn [write_loop]. destruct (Z.ltb_spec i (matching d)); [|lia].
  unfold sbind, slift. rewrite Hp. cbn [obind]. destruct (write p msg d e) as [[e' [[] d']]|]; done.
Qed.

Lemma write_loop_spec msg : forall k d i failed (e : env W),
  dist_ok d -> 0 <= i -> Z.of_nat k = matching d - i ->
  exists ps, NoDup ps /\ Z.of_nat (length ps) = Z.of_nat k /\
    (forall q, q ∈ ps <-> q ∈ seg (pipes d) (matching d) /\ q ∉ seg (pipes d) i) /\
    exists d', write_loop k i failed msg d e =
      Done (Env (e_mem e) (deliver msg ps (e_pipes e)).1,
            (failed + Z.of_nat (length (deliver msg ps (e_pipes e)).2), d'))
    /\ dist_ok d' /\ abs d' = s_fails (deliver msg ps (e_pipes e)).2 (abs d)
    /\ more d' = more d.
Proof.
  induction k as [|k IH]; intros d i failed e Hd Hi Hk; pose proof Hd as [Ha Ho Hm].
  - exists []. split; [constructor|]. split; [done|]. simpl. destruct (Z.ltb_spec i (matching d)); [lia|].
    split.
    + intros q. replace i with (matching d) by lia. rewrite elem_of_nil. tauto.
    + exists d. rewrite Z.add_0_r. by destruct e.
  - destruct (get_some (pipes d) i) as (p & Ep & Lp); [lia|].
    pose proof (index_lookup _ _ p Ha Lp) as Ip. rewrite Z2Nat.id in Ip by lia.
    assert (Hp : p ∈ items (pipes d)) by (apply list_elem_of_lookup; eauto).
    assert (Hin : p ∈ seg (pipes d) (matching d)) by (apply elem_seg; [done|]; split; [done|lia]).
    assert (Hout : p ∉ seg (pipes d) i) by (rewrite elem_seg by done; lia).
    rewrite (write_loop_eq k i failed msg d p e) by (done || lia). rewrite write_eq.
    destruct (pipe_write p msg (e_pipes e)) as [w ok] eqn:Ew. destruct ok.
    + set (w2 := if msg_more msg then w else pipe_flush p w).
      destruct (IH d (i + 1) failed (Env (e_mem e) w2)) as (ps & Hnd & Hl & Hq & d' & E & Hd' & Ed'); [done|lia|lia|].
      exists (p :: ps). split; [|split; [simpl; lia|]].
      { constructor; [|done]. rewrite Hq, (seg_snoc (pipes d) i p) by done. set_solver. }
      split.
      { intros q. rewrite elem_of_cons, Hq, (seg_snoc (pipes d) i p) by done.
        destruct (decide (q = p)) as [->|]; [tauto|]. set_solver. }
      exists d'. simpl deliver. rewrite Ew. fold w2.
      cbn [obind fst snd]. by rewrite E.
    + destruct (demote_spec p d Hd Hp) as (d1 & E1 & Hd1 & Ed1 & Hm1 & Hs1); [lia|].
      destruct (IH d1 i (failed + 1) (Env (e_mem e) w)) as (ps & Hnd & Hl & Hq & d' & E & Hd' & Ed' & Md'); [done|lia|lia|].
      assert (Es : seg (pipes d1) (matching d1) = seg (pipes d) (matching d) ∖ {[p]})
        by exact (f_equal s_match Ed1).
      rewrite Es, (Hs1 i) in Hq by lia.
      exists (p :: ps). split; [|split; [simpl; lia|]].
      { constructor; [|done]. rewrite Hq. set_solver. }
      split.
      { intros q. rewrite elem_of_cons, Hq. destruct (decide (q = p)) as [->|]; [tauto|]. set_solver. }
      exists d'. simpl deliver. rewrite Ew. rewrite E1. cbn [obind fst snd]. rewrite E.
      simpl e_mem in *. simpl e_pipes in *. destruct (deliver msg ps w) as [w' fs]. simpl in *.
      split; [do 3 f_equal; lia|]. split; [done|]. split; [by rewrite Ed', Ed1|].
      rewrite Md'. exact (f_equal s_more Ed1).
Qed.

(** After a part: between messages every eligible pipe is active again. *)
Definition s_sent (b : bool) (s : segs) : segs :=
  Segs (s_match s) (if b then s_active s else s_elig s) (s_elig s) (s_all s) b.

(** [send_to_all]: the matching pipes are all the active ones. *)
Definition s_everyone (s : segs) : segs :=
  Segs (s_active s) (s_active s) (s_elig s) (s_all s) (s_more s).

Definition sends (msg : Msg.msg) (d : dist) (e : env W) (targets : gset nat) (s : segs)
    (r : outcome (env W * (Msg.msg * dist))) : Prop :=
  exists ps, NoDup ps /\ (forall q, q ∈ ps <-> q ∈ targets) /\
    match spec_send msg ps e with
    | Done (e', (m', failed)) =>
        exists d', r = Done (e', (m', d')) /\ dist_ok d' /\ abs d' = s_sent (msg_more msg) (s_fails failed s)
    | Crash => r = Crash
    end.

Lemma sent_ok d b : dist_ok d ->
  dist_ok (Dist (pipes d) (matching d) (if negb b then eligible d else active d) (eligible d) b) /\
  abs (Dist (pipes d) (matching d) (if negb b then eligible d else active d) (eligible d) b) = s_sent b (abs d).
Proof. intros [Ha Ho Hm]. destruct b; (split; [split; simpl; [done|lia|done]|done]). Qed.

(** The whole loop: what it writes is a permutation of the matching pipes. *)
Lemma loop_all msg d (e : env W) :
  dist_ok d -> exists ps, NoDup ps /\ Z.of_nat (length ps) = matching d /\
    (forall q, q ∈ ps <-> q ∈ s_match (abs d)) /\
    exists w' failed d', deliver msg ps (e_pipes e) = (w', failed) /\
      write_loop (Z.to_nat (matching d)) 0 0 msg d e =
        Done (Env (e_mem e) w', (Z.of_nat (length failed), d'))
      /\ dist_ok d' /\ abs d' = s_fails failed (abs d).
Proof.
  intros Hd. destruct (write_loop_spec msg (Z.to_nat (matching d)) d 0 0 e Hd)
    as (ps & Hnd & Hl & Hq & d' & E & Hd' & Ed' & _); [done|destruct Hd; lia|].
  exists ps. split; [done|]. split; [destruct Hd; lia|]. split.
  - intros q. rewrite Hq. unfold seg at 2. simpl. set_solver.
  - destruct (deliver msg ps (e_pipes e)) as [w' failed]. simpl in *. by exists w', failed, d'.
Qed.

Lemma distribute_spec msg d (e : env W) :
  dist_ok d -> exists ps, NoDup ps /\ (forall q, q ∈ ps <-> q ∈ s_match (abs d)) /\
    match spec_send msg ps e with
    | Done (e', (m', failed)) =>
        exists d', distribute msg d e = Done (e', (m', d')) /\ dist_ok d' /\ abs d' = s_fails failed (abs d)
    | Crash => distribute msg d e = Crash
    end.
Proof.
  intros Hd. unfold distribute. destruct (Z.eqb_spec (matching d) 0) as [Em|Em].
  { exists []. split; [constructor|]. split.
    - intros q. simpl. unfold seg. rewrite Em. simpl. set_solver.
    - simpl. unfold sbind. destruct (close_init msg e) as [[e' m']|]; simpl; [|done]. by exists d. }
  destruct (Msg.is_vsm msg) eqn:Ev.
  - destruct (loop_all msg d e Hd) as (ps & Hnd & Hl & Hq & w' & failed & d' & Edl & E & Hd' & Ed').
    exists ps. split; [done|]. split; [done|]. unfold spec_send. rewrite Ev.
    destruct ps as [|p ps]; [simpl in Hl; lia|]. unfold sbind, on_pipes. rewrite Edl, E. cbn [obind].
    destruct (close_init msg (Env (e_mem e) w')) as [[e' m']|]; simpl; [|done]. by exists d'.
  - assert (Ei : i32 (matching d) = matching d)
      by (apply i32_small; pose proof (d_order _ Hd); pose proof (ok_small _ (d_array _ Hd)); lia).
    rewrite Ei. destruct (Msg.add_refs (matching d - 1) msg (e_mem e)) as [[mem1 msg1]|] eqn:Ea.
    + destruct (loop_all msg1 d (Env mem1 (e_pipes e)) Hd)
        as (ps & Hnd & Hl & Hq & w' & failed & d' & Edl & E & Hd' & Ed').
      exists ps. split; [done|]. split; [done|]. unfold spec_send. rewrite Ev, Hl.
      destruct ps as [|p ps]; [simpl in Hl; lia|]. unfold sbind, on_mem, on_pipes. rewrite Ea.
      cbn [obind e_pipes e_mem]. cbn [e_pipes e_mem] in Edl, E. rewrite Edl, E. cbn [obind e_pipes e_mem].
      destruct (Z.of_nat (length failed) =? 0); cbn [negb].
      * by exists d'.
      * cbn. destruct (Msg.rm_refs (Z.of_nat (length failed)) msg1 mem1) as [[mem2 [b msg2]]|]; cbn; [|done].
        by exists d'.
    + destruct (loop_all msg d e Hd) as (ps & Hnd & Hl & Hq & _).
      exists ps. split; [done|]. split; [done|]. unfold spec_send. rewrite Ev, Hl.
      destruct ps as [|p ps]; [simpl in Hl; lia|]. unfold sbind, on_mem. by rewrite Ea.
Qed.

Lemma send_to_matching_spec msg d (e : env W) :
  dist_ok d -> sends msg d e (s_match (abs d)) (abs d) (send_to_matching msg d e).
Proof.
  intros Hd. destruct (distribute_spec msg d e Hd) as (ps & Hnd & Hq & Hm). exists ps.
  split; [done|]. split; [done|]. unfold send_to_matching, sbind.
  destruct (spec_send msg ps e) as [[e' [m' failed]]|]; [|by rewrite Hm].
  destruct Hm as (d' & -> & Hd' & Ed'). simpl. eexists; split; [reflexivity|]. rewrite <- Ed'.
  by apply sent_ok.
Qed.

End Sending.

(** The operations of the distributor that do not send ([attach], [match],
    [unmatch], [reverse_match], [pipe_terminated], [activated]) are done with no
    access out of range and no [size_t] underflow, keep the array consistent with
    the positions its items carry and the three boundaries in order, and act on the
    four segments as the named operation on sets of pipes. *)
Theorem dist_refines_segments o d :
  dist_ok d -> pre o d ->
  exists d', step o d = Done d' /\ dist_ok d' /\ abs d' = spec_step o (abs d).
Proof. apply dist_step_spec. Qed.

(** [send_to_matching] writes the part to every matching pipe exactly once, in
    some order, and to no other; it counts one reference per pipe before and gives
    back those of the pipes that refused it; the pipes that refused become passive,
    and the last part of a message makes every eligible pipe active again. *)
Theorem send_to_matching_exact {U} `{PipeOps U} msg d (e : env U) :
  dist_ok d ->
  exists ps, NoDup ps /\ (forall q, q ∈ ps <-> q ∈ s_match (abs d)) /\
    match spec_send msg ps e with
    | Done (e', (m', failed)) =>
        exists d', send_to_matching msg d e = Done (e', (m', d')) /\ dist_ok d' /\
          abs d' = s_sent (msg_more msg) (s_fails failed (abs d))
    | Crash => send_to_matching msg d e = Crash
    end.
Proof. apply send_to_matching_spec. Qed.

(** [send_to_all] does the same with all active pipes as targets, which between
    two messages are all the pipes that are not passive. *)
Theorem send_to_all_exact {U} `{PipeOps U} msg d (e : env U) :
  dist_ok d ->
  (more d = false -> s_active (abs d) = s_elig (abs d)) /\
  exists ps, NoDup ps /\ (forall q, q ∈ ps <-> q ∈ s_active (abs d)) /\
    match spec_send msg ps e with
    | Done (e', (m', failed)) =>
        exists d', send_to_all msg d e = Done (e', (m', d')) /\ dist_ok d' /\
          abs d' = s_sent (msg_more msg) (s_fails failed (s_everyone (abs d)))
    | Crash => send_to_all msg d e = Crash
    end.
Proof.
  intros [Ha Ho Hm]. split; [intros E; simpl; by rewrite Hm|].
  apply (send_to_matching_spec msg (Dist (pipes d) (active d) (active d) (eligible d) (more d)) e).
  split; simpl; [done|lia|done].
Qed.

(** ** A distributor with three pipes, the second of which is full *)

Definition sample : outcome dist :=
  let* d := attach 4 dist_new in
  let* d := attach 5 d in
  let* d := attach 6 d in
  let* d := match_ 6 d in
  match_ 5 d.

Definition sample_dist : dist := Eval vm_compute in match sample with Done d => d | Crash => dist_new end.

Definition sample_env : env Boxes.boxes :=
  Env (Msg.Memory ∅ 0 ∅ []) {[ 4%nat := Boxes.Box 3 [] 0 []; 5%nat := Boxes.Box 0 [] 0 []; 6%nat := Boxes.Box 3 [] 0 [] ]}.

Definition sample_msg : Msg.msg := Msg.set_body (Msg.Vsm [1; 2; 3]) Msg.init.

Lemma dist_sample_ok : dist_ok sample_dist.
Proof.
  split; simpl; [|unfold size; simpl; lia|done]. split; [|reflexivity]. simpl.
  intros [|[|[|i]]] p E; simpl in E; simplify_eq; reflexivity.
Qed.

Example sample_segs :
  map elements [s_match (abs sample_dist); s_active (abs sample_dist)] = [[6; 5]; [6; 4; 5]]%nat.
Proof. vm_compute. reflexivity. Qed.

Lemma dist_refines_segments_witness :
  dist_ok sample_dist /\ pre (PipeTerminated 5) sample_dist /\
  exists d', step (PipeTerminated 5) sample_dist = Done d' /\ dist_ok d' /\
    abs d' = spec_step (PipeTerminated 5) (abs sample_dist).
Proof.
  assert (Hp : pre (PipeTerminated 5) sample_dist) by (vm_compute; tauto).
  split; [apply dist_sample_ok|]. split; [exact Hp|].
  exact (dist_refines_segments (PipeTerminated 5) sample_dist dist_sample_ok Hp).
Defined.

Lemma send_to_matching_exact_witness :
  dist_ok sample_dist /\
  exists ps, NoDup ps /\ (forall q, q ∈ ps <-> q ∈ s_match (abs sample_dist)) /\
    match spec_send sample_msg ps sample_env with
    | Done (e', (m', failed)) =>
        exists d', send_to_matching sample_msg sample_dist sample_env = Done (e', (m', d')) /\ dist_ok d' /\
          abs d' = s_sent (msg_more sample_msg) (s_fails failed (abs sample_dist))
    | Crash => send_to_matching sample_msg sample_dist sample_env = Crash
    end.
Proof.
  split; [apply dist_sample_ok|]. exact (send_to_matching_exact sample_msg sample_dist sample_env dist_sample_ok).
Defined.

Lemma send_to_all_exact_witness :
  dist_ok sample_dist /\ more sample_dist = false /\ s_active (abs sample_dist) = s_elig (abs sample_dist).
Proof.
  split; [apply dist_sample_ok|]. split; [reflexivity|].
  exact (proj1 (send_to_all_exact sample_msg sample_dist sample_env dist_sample_ok) eq_refl).
Defined.

End Dist.
