(* ===== verification/Fq.v ===== *)
(** * Fq: fq_t, fair queueing of inbound messages (libzmq/src/fq.cpp)

    The active pipes are the first [active] of the array and [current] is the next
    one to read.  A pipe with nothing to read leaves the active segment.  The
    theorems: nothing is lost or invented, a message in several parts is read from one
    pipe, and no active pipe waits longer than a round. *)

From S2P Require Import Prelude Msg Pipes Array.

Module Fq.
Import Array.

Record fq : Type := Fq {
  pipes : array;
  active : Z;
  last_in : option nat;
  current : Z;
  more : bool;
  saved_credential : list Z
}.

Definition fq_new : fq := Fq empty 0 None 0 false [].

Definition set_pipes (a : array) (active current : Z) (q : fq) : fq :=
  Fq a active (last_in q) current (more q) (saved_credential q).

Definition attach (pipe : nat) (q : fq) : outcome fq :=
  let a := push_back (pipes q) pipe in
  let* a := swap a (active q) (size a - 1) in
  Done (set_pipes a (active q + 1) (current q) q).

(** [active--; pipes.swap (index, active); if (current == active) current = 0] *)
Definition deactivate (index : Z) (q : fq) : outcome fq :=
  let* a := swap (pipes q) index (active q - 1) in
  Done (set_pipes a (active q - 1) (if (current q =? active q - 1) then 0 else current q) q).

Section Env.
Context {W : Type} `{PipeOps W}.

Definition pipe_terminated (pipe : nat) (q : fq) : stm (env W) fq :=
  let! q := slift (if (index (pipes q) pipe <? active q)
                   then deactivate (index (pipes q) pipe) q else Done q) in
  let! a := slift (erase (pipes q) pipe) in
  let q := set_pipes a (active q) (current q) q in
  if decide (last_in q = Some pipe) then
    let! e := sget in
    sret (Fq (pipes q) (active q) None (current q) (more q) (pipe_credential pipe (e_pipes e)))
  else sret q.

(** The loop of [recvpipe]: the answer is the message and the pipe it comes from. *)
Fixpoint recv_loop (fuel : nat) (q : fq) : stm (env W) (option (Msg.msg * nat) * fq) :=
  if (0 <? active q) then
    match fuel with
    | O => scrash
    | S fuel =>
      let! p := slift (get (pipes q) (current q)) in
      let! fetched := on_pipes (pipe_read p) in
      match fetched with
      | Some msg =>
        if negb (msg_more msg) then
          sret (Some (msg, p),
                Fq (pipes q) (active q) (Some p) ((current q + 1) mod active q) false (saved_credential q))
        else sret (Some (msg, p), Fq (pipes q) (active q) (last_in q) (current q) true (saved_credential q))
      | None =>
        sassert (negb (more q)) ;;;
        let! q := slift (deactivate (current q) q) in
        recv_loop fuel q
      end
    end
  else sret (None, q).

(** The code (0, or -1 with [EAGAIN]), the message, the pipe, and the queue. *)
Definition recvpipe (msg : Msg.msg) (q : fq)
  : stm (env W) (Z * Msg.msg * option nat * fq) :=
  let! (rc, _) := on_mem (Msg.close msg) in
  sassert (rc =? 0) ;;;
  let! (r, q) := recv_loop (Z.to_nat (active q)) q in
  match r with
  | Some (m, p) => sret (0, m, Some p, q)
  | None => sret (-1, Msg.init, None, q)
  end.

Definition recv (msg : Msg.msg) (q : fq) : stm (env W) (Z * Msg.msg * fq) :=
  let! (rc, m, _, q) := recvpipe msg q in sret (rc, m, q).

Fixpoint has_in_loop (fuel : nat) (q : fq) : stm (env W) (bool * fq) :=
  if (0 <? active q) then
    match fuel with
    | O => scrash
    | S fuel =>
      let! p := slift (get (pipes q) (current q)) in
      let! ready := on_pipes (pipe_check_read p) in
      if ready then sret (true, q)
      else let! q := slift (deactivate (current q) q) in has_in_loop fuel q
    end
  else sret (false, q).

Definition has_in (q : fq) : stm (env W) (bool * fq) :=
  if more q then sret (true, q) else has_in_loop (Z.to_nat (active q)) q.

Definition get_credential (q : fq) (w : W) : list Z :=
  match last_in q with
  | Some p => pipe_credential p w
  | None => saved_credential q
  end.
End Env.

Definition activated (pipe : nat) (q : fq) : outcome fq :=
  let* a := swap (pipes q) (index (pipes q) pipe) (active q) in
  Done (set_pipes a (active q + 1) (current q) q).

(** ** Invariant *)

Record fq_ok (q : fq) : Prop := {
  q_array : ok (pipes q);
  q_active : 0 <= active q <= size (pipes q);
  q_current : 0 <= current q /\ (current q < active q \/ current q = 0)
}.

Definition actives (q : fq) : gset nat := seg (pipes q) (active q).
Definition members (q : fq) : gset nat := seg (pipes q) (size (pipes q)).
Definition waits (q : fq) (p : nat) : Z := ahead (pipes q) (active q) (current q) p.

Lemma fq_new_ok : fq_ok fq_new.
Proof. split; simpl; [apply ok_empty|unfold size; simpl; lia|lia]. Qed.

Lemma actives_members q : fq_ok q -> actives q ⊆ members q.
Proof.
  intros [Ha Hs Hc] p. unfold actives, members. rewrite elem_all, elem_seg by done. tauto.
Qed.

Lemma active_mono q q' : fq_ok q -> fq_ok q' -> actives q ⊆ actives q' -> 0 < active q -> 0 < active q'.
Proof.
  intros [Ha Hs Hc] [Ha' Hs' Hc'] Hsub Hp. destruct (get_some (pipes q) 0) as (p & Ep & Hin); [lia|].
  assert (Hi : p ∈ actives q').
  { apply Hsub. unfold actives. rewrite elem_seg by done.
    pose proof (index_lookup _ _ _ Ha Hin). split; [by eapply list_elem_of_lookup_2|lia]. }
  unfold actives in Hi. rewrite elem_seg in Hi by done. destruct Hi as [Hi Hl]. destruct (elem_index _ p Ha' Hi). lia.
Qed.

Lemma fq_attach_spec p q :
  fq_ok q -> p ∉ members q -> size (pipes q) + 1 < 2 ^ 31 ->
  exists q', attach p q = Done q' /\ fq_ok q' /\ actives q' = {[p]} ∪ actives q /\
    members q' = {[p]} ∪ members q /\ more q' = more q /\ last_in q' = last_in q.
Proof.
  intros [Ha Hs Hc] Hp Hz. unfold members in Hp. rewrite elem_all in Hp by done.
  destruct (push_back_spec _ p Ha Hp Hz) as (Hb & Hi & Zb & Hpb & Hseg & Hall).
  unfold attach. set (b := push_back (pipes q) p) in *.
  destruct (swap_spec b (active q) (size b - 1)) as (a & -> & Hsw); [done|lia|lia|].
  apply swaps_sym in Hsw. replace (size b - 1) with (index b p) in Hsw by lia.
  simpl. pose proof (sw_size _ _ _ _ Hsw). eexists; split; [reflexivity|].
  split; [split; simpl; [apply Hsw|lia|lia]|]. unfold actives, members; simpl.
  rewrite (seg_add b a p) by (done || lia). rewrite (seg_all b a _ _ (size a) (size b) Hb Hsw), Hall by done.
  by rewrite Hseg by lia.
Qed.

Lemma fq_activated_spec p q :
  fq_ok q -> p ∈ members q -> p ∉ actives q ->
  exists q', activated p q = Done q' /\ fq_ok q' /\ actives q' = {[p]} ∪ actives q /\
    members q' = members q /\ more q' = more q /\ last_in q' = last_in q.
Proof.
  intros [Ha Hs Hc] Hp Hn. unfold members, actives in *. rewrite elem_all in Hp by done.
  rewrite elem_seg in Hn by done. assert (active q <= index (pipes q) p) by (apply Z.nlt_ge; tauto).
  destruct (elem_index _ p Ha Hp) as [Hr _]. unfold activated.
  destruct (swap_spec (pipes q) (index (pipes q) p) (active q)) as (a & -> & Hsw); [done|done|lia|].
  simpl. pose proof (sw_size _ _ _ _ Hsw). eexists; split; [reflexivity|].
  split; [split; simpl; [apply Hsw|lia|lia]|]. unfold actives, members; simpl.
  rewrite (seg_add (pipes q) a p) by (done || lia).
  by rewrite (seg_all (pipes q) a _ _ (size a) (size (pipes q)) Ha Hsw) by done.
Qed.

(** The current pipe has nothing to offer. *)
Lemma deactivate_spec q :
  fq_ok q -> 0 < active q ->
  exists q' c, get (pipes q) (current q) = Done c /\ deactivate (current q) q = Done q' /\ fq_ok q' /\
    active q' = active q - 1 /\ actives q' = actives q ∖ {[c]} /\ c ∈ actives q /\
    members q' = members q /\ more q' = more q /\ last_in q' = last_in q /\
    saved_credential q' = saved_credential q /\
    forall p, p ∈ actives q' -> waits q' p <= waits q p.
Proof.
  intros [Ha Hs Hc] Hpos. unfold deactivate.
  destruct (skip_spec (pipes q) (active q) (current q)) as (a & c & Ec & -> & Oa & Za & Hsub & Hin & Hm & Hw);
    [done|lia|lia|].
  simpl. eexists _, c. split; [done|]. split; [reflexivity|].
  split; [split; simpl; [done|lia|destruct (Z.eqb_spec (current q) (active q - 1)); lia]|].
  unfold actives, members, waits; simpl. split; [done|]. split; [done|]. split; [done|].
  split; [rewrite Za; apply Hm; lia|]. done.
Qed.

Lemma erase_wf (q : fq) p n c :
  ok (pipes q) -> p ∈ items (pipes q) -> n <= index (pipes q) p -> 0 <= n ->
  0 <= c /\ (c < n \/ c = 0) ->
  exists a, erase (pipes q) p = Done a /\ fq_ok (set_pipes a n c q) /\ seg a n = seg (pipes q) n /\
    seg a (size a) = seg (pipes q) (size (pipes q)) ∖ {[p]}.
Proof.
  intros Ha Hp Hn Hn0 Hc. destruct (erase_spec p (pipes q) Ha Hp) as (a & -> & Oa & Za & Hall & Hseg).
  destruct (elem_index _ p Ha Hp) as [Hr _].
  exists a. split; [done|]. split; [split; simpl; [done|lia|done]|]. split; [by apply Hseg|done].
Qed.

Section Receive.
Context {W : Type} `{PipeOps W}.

Lemma fq_pipe_terminated_spec p q (e : env W) :
  fq_ok q -> p ∈ members q ->
  exists q', pipe_terminated p q e = Done (e, q') /\ fq_ok q' /\ actives q' = actives q ∖ {[p]} /\
    members q' = members q ∖ {[p]} /\ more q' = more q /\
    last_in q' = (if decide (last_in q = Some p) then None else last_in q) /\
    get_credential q' (e_pipes e) = get_credential q (e_pipes e).
Proof.
  intros [Ha Hs Hc] Hp. unfold members in Hp. rewrite elem_all in Hp by done.
  destruct (elem_index _ p Ha Hp) as [Hr _]. unfold pipe_terminated.
  assert (Hd : exists q1, (if (index (pipes q) p <? active q) then deactivate (index (pipes q) p) q
      else Done q) = Done q1 /\ ok (pipes q1) /\ p ∈ items (pipes q1) /\ 0 <= active q1 <= index (pipes q1) p /\
      (0 <= current q1 /\ (current q1 < active q1 \/ current q1 = 0)) /\ actives q1 = actives q ∖ {[p]} /\
      members q1 = members q /\ more q1 = more q /\ last_in q1 = last_in q /\
      saved_credential q1 = saved_credential q).
  { destruct (Z.ltb_spec (index (pipes q) p) (active q)).
    - unfold deactivate. destruct (swap_spec (pipes q) (index (pipes q) p) (active q - 1)) as (a & -> & Hsw);
        [done|lia|lia|]. simpl. pose proof (sw_size _ _ _ _ Hsw).
      eexists; split; [reflexivity|]. split_and!; simpl; try (done || lia).
      + apply Hsw.
      + by apply (swaps_elem _ _ _ _ p Hsw).
      + rewrite (swaps_at _ _ _ _ p Hsw) by done. lia.
      + destruct (Z.eqb_spec (current q) (active q - 1)); lia.
      + destruct (Z.eqb_spec (current q) (active q - 1)); lia.
      + unfold actives; simpl. by apply seg_sub.
      + unfold members; simpl. by apply (seg_all (pipes q) a _ _ _ _ Ha Hsw).
    - exists q. split_and!; try (done || lia). unfold actives. apply set_eq. intros x.
      rewrite elem_of_difference, elem_of_singleton, elem_seg by done. split; [|tauto].
      intros [Hx Hl]. split; [done|]. intros ->. lia. }
  destruct Hd as (q1 & E1 & O1 & P1 & A1 & C1 & S1 & M1 & Mo & Li & Sc).
  unfold sbind at 1. unfold slift at 1. rewrite E1. cbn [obind].
  destruct (erase_wf q1 p (active q1) (current q1) O1 P1) as (a & Ea & Hok & Hseg & Hall);
    [lia|lia|done|].
  unfold sbind at 1. unfold slift at 1. rewrite Ea. cbn [obind].
  set (q2 := set_pipes a (active q1) (current q1) q1) in *.
  assert (Hf : forall q', pipes q' = pipes q2 -> active q' = active q2 -> current q' = current q2 ->
    fq_ok q' /\ actives q' = actives q ∖ {[p]} /\ members q' = members q ∖ {[p]}).
  { intros q' E2 E3 E4. unfold actives, members. rewrite E2, E3. destruct Hok as [? ? ?].
    split; [split; by rewrite ?E2, ?E3, ?E4|]. simpl. unfold actives in S1. rewrite Hseg, S1.
    split; [done|]. rewrite Hall. unfold members in M1. by rewrite M1. }
  destruct (Hf q2) as (? & ? & ?); try done.
  change (last_in q2) with (last_in q1). rewrite Li. destruct (decide (last_in q = Some p)) as [El|El].
  - eexists; split; [reflexivity|]. destruct (Hf (Fq (pipes q2) (active q2) None (current q2) (more q2)
      (pipe_credential p (e_pipes e)))) as (? & ? & ?); try done. split_and!; try done.
    unfold get_credential; simpl. by rewrite El.
  - eexists; split; [reflexivity|]. split_and!; try done. unfold get_credential. simpl. by rewrite Li, Sc.
Qed.

(** Reading in turn from a list of pipes, up to the first that has a message. *)
Fixpoint try_read (ps : list nat) (w : W) : W * list nat * option (Msg.msg * nat) :=
  match ps with
  | [] => (w, [], None)
  | p :: ps =>
    match pipe_read p w with
    | (w, Some m) => (w, [], Some (m, p))
    | (w, None) => let '(w, skipped, r) := try_read ps w in (w, p :: skipped, r)
    end
  end.

(** What a call leaves: [skipped] had nothing to read. *)
Record received (q q' : fq) (skipped : list nat) (r : option (Msg.msg * nat)) : Prop := {
  r_ok : fq_ok q';
  r_actives : forall x, x ∈ actives q' <-> x ∈ actives q /\ x ∉ skipped;
  r_members : members q' = members q;
  r_result : match r with
             | Some (m, p) => p ∈ actives q' /\ more q' = msg_more m /\
                 last_in q' = (if msg_more m then last_in q else Some p) /\
                 (msg_more m = true -> get (pipes q') (current q') = Done p)
             | None => actives q' = ∅ /\ more q' = false /\ last_in q' = last_in q
             end;
  r_waits : forall x, x ∈ actives q' ->
    match r with
    | Some (m, p) => x <> p -> waits q' x <= waits q x - (if msg_more m then 0 else 1)
    | None => waits q' x <= waits q x
    end
}.

(** The current pipe has a message. *)
Lemma read_received q p m :
  fq_ok q -> 0 < active q -> get (pipes q) (current q) = Done p ->
  let q' := if negb (msg_more m)
            then Fq (pipes q) (active q) (Some p) ((current q + 1) mod active q) false (saved_credential q)
            else Fq (pipes q) (active q) (last_in q) (current q) true (saved_credential q) in
  received q q' [] (Some (m, p)).
Proof.
  intros [Ha Hs Hc] Hpos Ep.
  assert (Hp : p ∈ actives q).
  { pose proof Ep as Lp. unfold get in Lp. apply nth_z_inv in Lp as [_ Lp].
    pose proof (index_lookup _ _ p Ha Lp). apply elem_seg; [done|].
    split; [apply list_elem_of_lookup; eauto|lia]. }
  destruct (msg_more m) eqn:Em; simpl; split; simpl; rewrite ?Em.
  - by split.
  - intros x. unfold actives; simpl. set_solver.
  - done.
  - done.
  - intros x Hx _. unfold waits; simpl. lia.
  - split; simpl; [done|done|]. pose proof (Z.mod_pos_bound (current q + 1) (active q)). lia.
  - intros x. unfold actives; simpl. set_solver.
  - done.
  - done.
  - intros x Hx Hne. unfold waits; simpl.
    destruct (advance_spec (pipes q) (active q) (current q) x p) as [_ ->]; try done; lia.
Qed.

Lemma recv_loop_spec : forall k q (e : env W),
  fq_ok q -> Z.of_nat k = active q -> more q = false ->
  exists ps, NoDup ps /\ (forall x, x ∈ ps <-> x ∈ actives q) /\
    (0 < active q -> exists c ps', get (pipes q) (current q) = Done c /\ ps = c :: ps') /\
    exists w' skipped r q', try_read ps (e_pipes e) = (w', skipped, r) /\
      recv_loop k q e = Done (Env (e_mem e) w', (r, q')) /\ received q q' skipped r.
Proof.
  induction k as [|k IH]; intros q e Hq Hk Hm.
  - exists []. split; [constructor|]. assert (Hn : forall x, x ∉ actives q).
    { intros x. unfold actives, seg. replace (active q) with 0 by lia. simpl. set_solver. }
    split; [intros x; rewrite elem_of_nil; split; [done|by intros ?%Hn]|]. split; [lia|].
    exists (e_pipes e), [], None, q. split; [done|]. simpl. destruct (Z.ltb_spec 0 (active q)); [lia|].
    split; [by destruct e|]. split; try done.
    + intros x. set_solver.
    + split; [|done]. apply set_eq. intros x. rewrite elem_of_empty. split; [by intros ?%Hn|done].
  - assert (Hpos : 0 < active q) by lia.
    destruct (deactivate_spec q Hq Hpos)
      as (q1 & c & Ec & E1 & O1 & A1 & S1 & I1 & M1 & Mo1 & L1 & C1 & W1).
    cbn [recv_loop]. destruct (Z.ltb_spec 0 (active q)); [|lia].
    unfold sbind at 1. unfold slift at 1. rewrite Ec. cbn [obind].
    unfold sbind at 1, on_pipes at 1. destruct (pipe_read c (e_pipes e)) as [w1 [m|]] eqn:Er; cbn [obind].
    + set (rest := elements (actives q ∖ {[c]})). exists (c :: rest). split.
      { constructor; [|apply NoDup_elements]. unfold rest. rewrite elem_of_elements. set_solver. }
      split. { intros x. unfold rest. rewrite elem_of_cons, elem_of_elements.
        destruct (decide (x = c)) as [->|]; set_solver. }
      split; [eauto|]. simpl. rewrite Er. exists w1, [], (Some (m, c)). eexists. split; [done|].
      pose proof (read_received q c m Hq Hpos Ec) as Hr. cbv zeta in Hr.
      split; [|exact Hr]. by destruct (msg_more m).
    + destruct (IH q1 (Env (e_mem e) w1)) as (ps & Hnd & Hps & _ & w' & sk & r & q' & Et & El & [R1 R2 R3 R4 R5]);
        [done|lia|congruence|].
      exists (c :: ps). split; [constructor; [|done]; rewrite Hps, S1; set_solver|].
      split. { intros x. rewrite elem_of_cons, Hps, S1. destruct (decide (x = c)) as [->|]; set_solver. }
      split; [eauto|]. simpl in Et |- *. rewrite Er, Et. exists w', (c :: sk), r, q'. split; [done|].
      unfold sbind, sassert, slift. rewrite Hm. cbn [negb obind]. rewrite E1. cbn [obind].
      split; [exact El|]. split.
      * done.
      * intros x. rewrite R2, S1, not_elem_of_cons. set_solver.
      * by rewrite R3.
      * destruct r as [[m p]|]; [by rewrite <- L1|by rewrite <- L1].
      * intros x Hx. assert (x ∈ actives q1) by (apply R2 in Hx; tauto). specialize (R5 x Hx).
        specialize (W1 x ltac:(done)). destruct r as [[m p]|]; [intros Hne; specialize (R5 Hne)|]; lia.
Qed.

(** In the middle of a message, the current pipe is read and no other. *)
Lemma recv_more_spec q p (e : env W) k :
  fq_ok q -> 0 < active q -> more q = true -> get (pipes q) (current q) = Done p ->
  match pipe_read p (e_pipes e) with
  | (w', Some m) => exists q', recv_loop (S k) q e = Done (Env (e_mem e) w', (Some (m, p), q')) /\
      received q q' [] (Some (m, p))
  | (w', None) => recv_loop (S k) q e = Crash
  end.
Proof.
  intros Hq Hpos Hm Ep. cbn [recv_loop]. destruct (Z.ltb_spec 0 (active q)); [|lia].
  unfold sbind, slift, on_pipes. rewrite Ep. cbn [obind].
  destruct (pipe_read p (e_pipes e)) as [w' [m|]]; cbn [obind].
  - eexists. split; [|exact (read_received q p m Hq Hpos Ep)]. by destruct (msg_more m).
  - unfold sassert. by rewrite Hm.
Qed.

(** [recvpipe] from the loop. *)
Lemma recvpipe_eq msg q (e : env W) :
  recvpipe msg q e =
    let* (mem, r) := Msg.close msg (e_mem e) in
    if (r.1 =? 0) then
      let* (e', r) := recv_loop (Z.to_nat (active q)) q (Env mem (e_pipes e)) in
      match r.1 with
      | Some (m, p) => Done (e', (0, m, Some p, r.2))
      | None => Done (e', (-1, Msg.init, None, r.2))
      end
    else Crash.
Proof.
  unfold recvpipe, sbind, on_mem, sassert. destruct (Msg.close msg (e_mem e)) as [[mem [rc m]]|]; [|done].
  simpl. destruct (rc =? 0); [|done]. simpl.
  destruct (recv_loop (Z.to_nat (active q)) q (Env mem (e_pipes e))) as [[e' [[[m' p]|] q']]|]; done.
Qed.

(** Between two calls: a message in several parts is being read from an active
    pipe. *)
Definition good (q : fq) : Prop := fq_ok q /\ (more q = true -> 0 < active q).

Lemma received_good q q' sk r : received q q' sk r -> good q'.
Proof.
  intros [Hok _ _ Hr _]. split; [done|]. intros Hm. pose proof Hok as [Ha Hs Hc].
  destruct r as [[m p]|]; [|destruct Hr as (_ & E & _); congruence].
  destruct Hr as (Hp & _). unfold actives in Hp. rewrite elem_seg in Hp by done. destruct Hp as [Hp Hl].
  destruct (elem_index _ p Ha Hp). lia.
Qed.

(** A call that returns, whether a message was being read or not. *)
Lemma recv_loop_cases q (e e' : env W) r q' :
  good q -> recv_loop (Z.to_nat (active q)) q e = Done (e', (r, q')) ->
  exists sk, received q q' sk r /\
    (more q = true -> exists m p, r = Some (m, p) /\ get (pipes q) (current q) = Done p).
Proof.
  intros [Hq Hg] E. destruct (more q) eqn:Em.
  - specialize (Hg eq_refl). destruct (get_some (pipes q) (current q)) as (p & Ep & _);
      [destruct Hq; lia|].
    pose proof (recv_more_spec q p e (Z.to_nat (active q) - 1) Hq Hg Em Ep) as Hr.
    replace (S (Z.to_nat (active q) - 1)) with (Z.to_nat (active q)) in Hr by lia. rewrite E in Hr.
    destruct (pipe_read p (e_pipes e)) as [w' [m|]]; [|done]. destruct Hr as (q1 & E1 & R1).
    simplify_eq. exists []. split; [done|]. intros _. by exists m, p.
  - destruct (recv_loop_spec (Z.to_nat (active q)) q e Hq) as
      (ps & _ & _ & _ & w' & sk & r0 & q0 & _ & El & HR); [destruct Hq; lia|done|].
    rewrite E in El. simplify_eq. by exists sk.
Qed.

(** Up to [n] calls, as long as they return a message. *)
Fixpoint recv_many (n : nat) (q : fq) : stm (env W) (list (Msg.msg * nat) * fq) :=
  match n with
  | O => sret ([], q)
  | S n =>
    let! (_, m, o, q) := recvpipe Msg.init q in
    match o with
    | None => sret ([], q)
    | Some p => let! (l, q) := recv_many n q in sret ((m, p) :: l, q)
    end
  end.

Lemma recv_many_step n q (e e' : env W) l q' :
  recv_many (S n) q e = Done (e', (l, q')) ->
  exists e1 r q1, recv_loop (Z.to_nat (active q)) q e = Done (e1, (r, q1)) /\
    match r with
    | None => l = [] /\ q' = q1 /\ e1 = e'
    | Some (m, p) => exists l1, l = (m, p) :: l1 /\ recv_many n q1 e1 = Done (e', (l1, q'))
    end.
Proof.
  cbn [recv_many]. unfold sbind at 1. rewrite recvpipe_eq. simpl. destruct e as [mem w].
  simpl. destruct (recv_loop (Z.to_nat (active q)) q (Env mem w)) as [[e1 [[[m p]|] q1]]|]; simpl; [| |done].
  - unfold sbind. destruct (recv_many n q1 e1) as [[e2 [l1 q2]]|] eqn:E; simpl; [|done].
    injection 1 as <- <- <-. exists e1, (Some (m, p)), q1. split; [done|]. by exists l1.
  - injection 1 as <- <- <-. exists e1, None, q1. by split.
Qed.

(** How many messages were completed. *)
Definition completed (l : list (Msg.msg * nat)) : Z :=
  Z.of_nat (length (filter (fun mp : Msg.msg * nat => msg_more mp.1 = false) l)).

Lemma recv_many_waits n : forall q (e e' : env W) l q' x,
  good q -> recv_many n q e = Done (e', (l, q')) -> x ∈ actives q' ->
  (forall m, (m, x) ∉ l) -> x ∈ actives q /\ waits q' x <= waits q x - completed l /\ good q'.
Proof.
  induction n as [|n IH]; intros q e e' l q' x Hq E Hx Hno.
  - injection E as <- <- <-. unfold completed; simpl. split; [done|]. split; [lia|done].
  - apply recv_many_step in E as (e1 & r & q1 & El & Hr).
    destruct (recv_loop_cases q e e1 r q1 Hq El) as (sk & HR & _).
    pose proof (received_good _ _ _ _ HR) as Hg. destruct HR as [R1 R2 R3 R4 R5].
    destruct r as [[m p]|].
    + destruct Hr as (l1 & -> & E1).
      destruct (IH q1 e1 e' l1 q' x Hg E1 Hx) as (I1 & I2 & I3).
      { intros m' Hm'. apply (Hno m'). by constructor. }
      assert (Hne : x <> p) by (intros ->; apply (Hno m); constructor).
      specialize (R5 x I1 Hne). apply R2 in I1 as [I1 _]. split; [done|]. split; [|done].
      unfold completed in *. rewrite filter_cons. simpl.
      destruct (msg_more m) eqn:Em.
      * rewrite decide_False by done. lia.
      * rewrite decide_True by done. simpl. lia.
    + destruct Hr as (-> & -> & _). specialize (R5 x Hx). apply R2 in Hx as [Hx _].
      unfold completed; simpl. split; [done|]. split; [lia|done].
Qed.

(** Whose turn it is, along a sequence of parts. *)
Fixpoint together (turn : option nat) (l : list (Msg.msg * nat)) : Prop :=
  match l with
  | [] => True
  | (m, p) :: l =>
    (forall t, turn = Some t -> p = t) /\ together (if msg_more m then Some p else None) l
  end.

Definition turn (q : fq) : option nat :=
  if more q then match get (pipes q) (current q) with Done p => Some p | Crash => None end else None.

Lemma recv_many_together n : forall q (e e' : env W) l q',
  good q -> recv_many n q e = Done (e', (l, q')) -> together (turn q) l.
Proof.
  induction n as [|n IH]; intros q e e' l q' Hq E; [by injection E as <- <- <-|].
  apply recv_many_step in E as (e1 & r & q1 & El & Hr).
  destruct (recv_loop_cases q e e1 r q1 Hq El) as (sk & HR & Ht).
  pose proof (received_good _ _ _ _ HR) as Hg. destruct HR as [R1 R2 R3 R4 R5].
  destruct r as [[m p]|]; [|by destruct Hr as (-> & _)].
  destruct Hr as (l1 & -> & E1). simpl. split.
  - intros t. unfold turn. destruct (more q); [|done]. destruct (Ht eq_refl) as (m' & p' & ? & ->). congruence.
  - specialize (IH q1 e1 e' l1 q' Hg E1). destruct R4 as (_ & Em & _ & Ec). unfold turn in IH.
    rewrite Em in IH. destruct (msg_more m); [|done]. by rewrite (Ec eq_refl) in IH.
Qed.

(** [has_in] skips pipes with no message, and stops at one that has. *)
Lemma has_in_loop_spec : forall k q (e : env W),
  fq_ok q -> Z.of_nat k = active q ->
  exists w' b q', has_in_loop k q e = Done (Env (e_mem e) w', (b, q')) /\ fq_ok q' /\
    members q' = members q /\ more q' = more q /\ last_in q' = last_in q /\ actives q' ⊆ actives q /\
    (b = false -> actives q' = ∅) /\ (b = true -> 0 < active q') /\
    forall x, x ∈ actives q' -> waits q' x <= waits q x.
Proof.
  induction k as [|k IH]; intros q e Hq Hk.
  - exists (e_pipes e), false, q. simpl. destruct (Z.ltb_spec 0 (active q)); [lia|].
    split; [by destruct e|]. split_and!; try done. intros _. unfold actives, seg.
    by replace (active q) with 0 by lia.
  - assert (Hpos : 0 < active q) by lia.
    destruct (deactivate_spec q Hq Hpos)
      as (q1 & c & Ec & E1 & O1 & A1 & S1 & I1 & M1 & Mo1 & L1 & C1 & W1).
    cbn [has_in_loop]. destruct (Z.ltb_spec 0 (active q)); [|lia].
    unfold sbind at 1. unfold slift at 1. rewrite Ec. cbn [obind].
    unfold sbind at 1, on_pipes at 1. destruct (pipe_check_read c (e_pipes e)) as [w1 []]; cbn [obind].
    + exists w1, true, q. split; [done|]. by split_and!.
    + destruct (IH q1 (Env (e_mem e) w1)) as (w' & b & q' & E & R1 & R2 & R3 & R4 & R5 & R6 & R7 & R8); [done|lia|].
      exists w', b, q'. unfold sbind, slift. rewrite E1. cbn [obind]. split; [exact E|].
      split_and!; try done; try congruence.
      * rewrite R5, S1. set_solver.
      * intros x Hx. specialize (R8 x Hx). specialize (W1 x (R5 x Hx)). lia.
Qed.
End Receive.

(** Between two messages, [recvpipe] asks the active pipes in some order that
    starts with the current one, until one has a message: that message is returned
    with the pipe it comes from ([EAGAIN] and an empty message if no pipe has one),
    the pipes that had nothing and no others become passive, and nothing else is read. *)
Theorem recvpipe_exact {W} `{PipeOps W} q (e : env W) :
  fq_ok q -> more q = false ->
  exists ps, NoDup ps /\ (forall x, x ∈ ps <-> x ∈ actives q) /\
    (0 < active q -> exists c ps', get (pipes q) (current q) = Done c /\ ps = c :: ps') /\
    exists w' skipped r q', try_read ps (e_pipes e) = (w', skipped, r) /\
      recvpipe Msg.init q e =
        Done (Env (e_mem e) w', (match r with Some (m, p) => (0, m, Some p, q')
                                 | None => (-1, Msg.init, None, q') end)) /\
      received q q' skipped r.
Proof.
  intros Hq Hm. destruct (recv_loop_spec (Z.to_nat (active q)) q e Hq) as
    (ps & Hnd & Hps & Hh & w' & sk & r & q' & Et & El & HR); [destruct Hq; lia|done|].
  exists ps. split; [done|]. split; [done|]. split; [done|]. exists w', sk, r, q'. split; [done|].
  split; [|done]. rewrite recvpipe_eq. simpl. destruct e as [mem w]; simpl in *. rewrite El. simpl.
  by destruct r as [[m p]|].
Qed.

(** The parts of a message come from one pipe: along any sequence of calls, after
    a part with the [more] flag the next part is from the same pipe. *)
Theorem fq_parts_together {W} `{PipeOps W} n q (e e' : env W) l q' :
  good q -> recv_many n q e = Done (e', (l, q')) -> together (turn q) l.
Proof. apply recv_many_together. Qed.

(** Fairness: as long as a pipe stays active and gets nothing, fewer messages
    are completed by the others than there are active pipes. *)
Theorem fq_fair {W} `{PipeOps W} n q (e e' : env W) l q' x :
  good q -> recv_many n q e = Done (e', (l, q')) -> x ∈ actives q' -> (forall m, (m, x) ∉ l) ->
  completed l < active q.
Proof.
  intros Hq E Hx Hno. destruct (recv_many_waits n q e e' l q' x Hq E Hx Hno) as (I & Hw & [Hq' _]).
  assert (Hb : forall q0, fq_ok q0 -> x ∈ actives q0 -> 0 <= waits q0 x < active q0).
  { intros q0 [Ha Hs Hc] Hi. apply ahead_bound; [done| |done]. unfold actives in Hi.
    rewrite elem_seg in Hi by done. destruct Hi as [Hi Hl]. destruct (elem_index _ x Ha Hi). lia. }
  pose proof (Hb q (proj1 Hq) I). pose proof (Hb q' Hq' Hx). lia.
Qed.

(** [attach], [activated] and [pipe_terminated] are done, keep the invariant, and
    add to or remove from the active pipes and the members exactly the pipe named;
    the credential of the last pipe survives its termination. *)
Theorem fq_membership {W} `{PipeOps W} q p (e : env W) :
  fq_ok q -> size (pipes q) + 1 < 2 ^ 31 ->
  (p ∉ members q -> exists q', attach p q = Done q' /\ fq_ok q' /\
     actives q' = {[p]} ∪ actives q /\ members q' = {[p]} ∪ members q) /\
  (p ∈ members q -> p ∉ actives q -> exists q', activated p q = Done q' /\ fq_ok q' /\
     actives q' = {[p]} ∪ actives q /\ members q' = members q) /\
  (p ∈ members q -> exists q', pipe_terminated p q e = Done (e, q') /\ fq_ok q' /\
     actives q' = actives q ∖ {[p]} /\ members q' = members q ∖ {[p]} /\
     get_credential q' (e_pipes e) = get_credential q (e_pipes e)).
Proof.
  intros Hq Hs. split_and!.
  - intros Hp. destruct (fq_attach_spec p q Hq Hp Hs) as (q' & ? & ? & ? & ? & _). by exists q'.
  - intros Hp Hn. destruct (fq_activated_spec p q Hq Hp Hn) as (q' & ? & ? & ? & ? & _). by exists q'.
  - intros Hp. destruct (fq_pipe_terminated_spec p q e Hq Hp) as (q' & ? & ? & ? & ? & _ & _ & ?). by exists q'.
Qed.

(** [has_in] answers at once in the middle of a message; otherwise it removes
    pipes without messages from the active ones, answers no only when none is left,
    and never makes an active pipe wait longer. *)
Theorem has_in_exact {W} `{PipeOps W} q (e : env W) :
  fq_ok q ->
  exists w' b q', has_in q e = Done (Env (e_mem e) w', (b, q')) /\ fq_ok q' /\
    (more q = true -> b = true /\ q' = q) /\
    (more q = false -> members q' = members q /\ (b = false -> actives q' = ∅) /\
       (b = true -> 0 < active q') /\ actives q' ⊆ actives q /\
       forall x, x ∈ actives q' -> waits q' x <= waits q x).
Proof.
  intros Hq. unfold has_in. destruct (more q) eqn:Em.
  - exists (e_pipes e), true, q. by destruct e.
  - destruct (has_in_loop_spec (Z.to_nat (active q)) q e Hq) as
      (w' & b & q' & -> & ? & ? & ? & ? & ? & ? & ? & ?); [destruct Hq; lia|].
    by exists w', b, q'.
Qed.

(** ** Three pipes: the first has one message of two parts, the second none *)

Definition sample : outcome fq :=
  let* q := attach 4 fq_new in
  let* q := attach 5 q in
  attach 6 q.

Definition sample_fq : fq := Eval vm_compute in match sample with Done q => q | Crash => fq_new end.

Definition part (d : list Z) (b : bool) : Msg.msg :=
  let m := Msg.set_body (Msg.Vsm d) Msg.init in if b then Msg.set_flags Msg.more m else m.

Definition sample_env : env Boxes.boxes :=
  Env (Msg.Memory ∅ 0 ∅ [])
      {[ 4%nat := Boxes.Box 0 [] 0 [part [1] true; part [2] false];
         5%nat := Boxes.Box 0 [] 0 [];
         6%nat := Boxes.Box 0 [] 0 [part [3] false; part [4] false] ]}.

Example sample_reads :
  match recv_many 4 sample_fq sample_env with
  | Done (_, (l, _)) => map (fun mp => (Msg.u mp.1, mp.2)) l
  | Crash => []
  end = [(Msg.Vsm [1], 4%nat); (Msg.Vsm [2], 4%nat); (Msg.Vsm [3], 6%nat); (Msg.Vsm [4], 6%nat)].
Proof. vm_compute. reflexivity. Qed.

(** Pipes 4 and 5 have a message and pipe 6 one of two parts; pipe 5 terminates, or
    not, between the two parts. *)
Definition two_parts_env : env Boxes.boxes :=
  Env (Msg.Memory ∅ 0 ∅ [])
      {[ 4%nat := Boxes.Box 0 [] 0 [part [1] false];
         5%nat := Boxes.Box 0 [] 0 [part [2] false];
         6%nat := Boxes.Box 0 [] 0 [part [3] true; part [4] false] ]}.

Definition split_run (terminate : bool) : stm (env Boxes.boxes) (list (Msg.msg * nat)) :=
  let! (l, q) := recv_many 3 sample_fq in
  let! q := if terminate then pipe_terminated 5 q else sret q in
  let! (l', _) := recv_many 1 q in
  sret (l ++ l').

Definition split_result (terminate : bool) : outcome (list (Msg.body * bool * nat)) :=
  let* (_, l) := split_run terminate two_parts_env in
  Done (map (fun mp => (Msg.u mp.1, msg_more mp.1, mp.2)) l).

(** When the turn is with the last active pipe, in the middle of a message, the
    termination of another pipe moves the turn: the next part is asked from a pipe
    that is not the one of the message, and the assertion that parts are available
    together fails. *)
Theorem fq_termination_breaks_message :
  split_result false = Done [(Msg.Vsm [1], false, 4%nat); (Msg.Vsm [2], false, 5%nat);
                             (Msg.Vsm [3], true, 6%nat); (Msg.Vsm [4], false, 6%nat)] /\
  split_result true = Crash.
Proof. split; vm_compute; reflexivity. Qed.

Lemma fq_sample_ok : fq_ok sample_fq.
Proof.
  split; simpl; [|unfold size; simpl; lia|lia]. split; [|reflexivity]. simpl.
  intros [|[|[|i]]] p E; simpl in E; simplify_eq; reflexivity.
Qed.

Lemma fq_sample_good : good sample_fq.
Proof. split; [apply fq_sample_ok|by vm_compute]. Qed.

Lemma recvpipe_exact_witness :
  fq_ok sample_fq /\ more sample_fq = false /\
  exists ps w' skipped r q', NoDup ps /\ try_read ps (e_pipes sample_env) = (w', skipped, r) /\
    recvpipe Msg.init sample_fq sample_env =
      Done (Env (e_mem sample_env) w', (match r with Some (m, p) => (0, m, Some p, q')
                               | None => (-1, Msg.init, None, q') end)).
Proof.
  split; [apply fq_sample_ok|]. split; [reflexivity|].
  destruct (recvpipe_exact sample_fq sample_env fq_sample_ok eq_refl)
    as (ps & Hnd & _ & _ & w' & sk & r & q' & E1 & E2 & _).
  exists ps, w', sk, r, q'. split; [exact Hnd|]. split; [exact E1|exact E2].
Defined.

Lemma fq_parts_together_witness :
  exists e' l q', good sample_fq /\ recv_many 2 sample_fq sample_env = Done (e', (l, q')) /\
    length l = 2%nat /\ together (turn sample_fq) l.
Proof.
  eexists _, _, _. split; [exact fq_sample_good|]. split; [vm_compute; reflexivity|]. split; [reflexivity|].
  eapply (fq_parts_together 2 sample_fq sample_env); [exact fq_sample_good|vm_compute; reflexivity].
Defined.

Lemma fq_fair_witness :
  exists e' l q', good sample_fq /\ recv_many 2 sample_fq sample_env = Done (e', (l, q')) /\
    6%nat ∈ actives q' /\ completed l = 1 /\ completed l < active sample_fq.
Proof.
  eexists _, _, _. split; [exact fq_sample_good|]. split; [vm_compute; reflexivity|].
  split; [apply (bool_decide_unpack _); vm_compute; exact I|]. split; [reflexivity|].
  eapply (fq_fair 2 sample_fq sample_env _ _ _ 6%nat);
    [exact fq_sample_good|vm_compute; reflexivity|apply (bool_decide_unpack _); vm_compute; exact I|].
  intros m Hm. rewrite !elem_of_cons in Hm. destruct Hm as [Hm|[Hm|Hm]]; [discriminate|discriminate|].
  by apply elem_of_nil in Hm.
Defined.

Lemma fq_membership_witness :
  fq_ok sample_fq /\ size (pipes sample_fq) + 1 < 2 ^ 31 /\ 5%nat ∈ members sample_fq /\
  exists q', pipe_terminated 5 sample_fq sample_env = Done (sample_env, q') /\ fq_ok q' /\
    actives q' = actives sample_fq ∖ {[5%nat]}.
Proof.
  assert (H5 : 5%nat ∈ members sample_fq) by (apply (bool_decide_unpack _); vm_compute; exact I).
  split; [apply fq_sample_ok|]. split; [reflexivity|]. split; [exact H5|].
  destruct (proj2 (proj2 (fq_membership sample_fq 5 sample_env fq_sample_ok eq_refl)) H5)
    as (q' & E1 & E2 & E3 & _).
  exists q'. split; [exact E1|]. split; [exact E2|exact E3].
Defined.

Lemma has_in_exact_witness :
  fq_ok sample_fq /\ exists w' b q', has_in sample_fq sample_env = Done (Env (e_mem sample_env) w', (b, q')) /\ fq_ok q'.
Proof.
  split; [apply fq_sample_ok|].
  destruct (has_in_exact sample_fq sample_env fq_sample_ok) as (w' & b & q' & E1 & E2 & _).
  exists w', b, q'. split; [exact E1|exact E2].
Defined.
End Fq.
