(* ===== verification/Sock.v ===== *)
(** * Sock: socket_base_t, sending and receiving (libzmq/src/socket_base.cpp)

    What every class of sockets shares: the checks before a call, the processing of the
    commands for the thread, waiting until a deadline, and the flags of messages.  The class
    of the socket is the interface [SocketOps], the thread's mailbox and clocks are
    [Thread]. *)

From S2P Require Import Prelude Msg Pipes.

Module Sock.

Definition ZMQ_DONTWAIT : Z := 1.
Definition ZMQ_SNDMORE : Z := 2.
Definition ZMQ_POLLIN : Z := 1.
Definition ZMQ_POLLOUT : Z := 2.

(** config.hpp *)
Definition inbound_poll_rate : Z := 100.
Definition max_command_delay : Z := 3000000.

(** The virtual methods of a class of sockets. *)
Class SocketOps (X W : Type) : Type := {
  xsend : Msg.msg -> X -> stm (env W) (option errno * Msg.msg * X);
  xrecv : Msg.msg -> X -> stm (env W) (option errno * Msg.msg * X);
  xhas_in : X -> stm (env W) (bool * X);
  xhas_out : X -> stm (env W) (bool * X)
}.

(** [i_mailbox::recv], with its timeout; the counter of the processor; the clock. *)
Class Thread (W C : Type) : Type := {
  mailbox_recv : Z -> stm (env W) (errno + C);
  rdtsc : stm (env W) Z;
  now_ms : stm (env W) Z
}.

(** The members used here; [sndtimeo], [rcvtimeo] and [recv_routing_id] are [options]. *)
Record base (X : Type) : Type := Base {
  socket : X;
  ctx_terminated : bool;
  last_tsc : Z;
  ticks : Z;
  rcvmore : bool;
  sndtimeo : Z;
  rcvtimeo : Z;
  recv_routing_id : bool
}.
Arguments Base {X}.
Arguments socket {X} b.
Arguments ctx_terminated {X} b.
Arguments last_tsc {X} b.
Arguments ticks {X} b.
Arguments rcvmore {X} b.
Arguments sndtimeo {X} b.
Arguments rcvtimeo {X} b.
Arguments recv_routing_id {X} b.

Definition set_socket {X} (x : X) (b : base X) : base X :=
  Base x (ctx_terminated b) (last_tsc b) (ticks b) (rcvmore b) (sndtimeo b) (rcvtimeo b) (recv_routing_id b).
Definition set_last_tsc {X} (n : Z) (b : base X) : base X :=
  Base (socket b) (ctx_terminated b) n (ticks b) (rcvmore b) (sndtimeo b) (rcvtimeo b) (recv_routing_id b).
Definition set_ticks {X} (n : Z) (b : base X) : base X :=
  Base (socket b) (ctx_terminated b) (last_tsc b) n (rcvmore b) (sndtimeo b) (rcvtimeo b) (recv_routing_id b).
Definition set_rcvmore {X} (m : bool) (b : base X) : base X :=
  Base (socket b) (ctx_terminated b) (last_tsc b) (ticks b) m (sndtimeo b) (rcvtimeo b) (recv_routing_id b).
Definition set_terminated {X} (t : bool) (b : base X) : base X :=
  Base (socket b) t (last_tsc b) (ticks b) (rcvmore b) (sndtimeo b) (rcvtimeo b) (recv_routing_id b).

(** [process_stop], the monitor apart. *)
Definition process_stop {X} (b : base X) : base X := set_terminated true b.

Section Sock.
Context {X W C : Type} `{SocketOps X W} `{Thread W C}.

(** [cmd.destination->process_command (cmd)]: the command may be for any object of the thread, this
    socket among them. *)
Context (process_command : C -> base X -> stm (env W) (base X)).

(** The loop over the commands; one unit of fuel per command.  The result is the [errno] of
    the last call of the mailbox, [None] when there are more commands than fuel. *)
Fixpoint command_loop (fuel : nat) (r : errno + C) (b : base X) : stm (env W) (option errno * base X) :=
  match r with
  | inl e => sret (Some e, b)
  | inr cmd =>
    match fuel with
    | O => sret (None, b)
    | S fuel =>
      let! b := process_command cmd b in
      let! r := mailbox_recv 0 in
      command_loop fuel r b
    end
  end.

(** What a call answers; [Blocked]: it has not returned after the turns it was given. *)
Inductive answer : Type := Ok | Err (e : errno) | Blocked.

Definition commands_done (e : option errno) (b : base X) : stm (env W) (answer * base X) :=
  match e with
  | None => sret (Blocked, b)
  | Some e =>
    if decide (e = EINTR) then sret (Err EINTR, b)
    else
      sassert (bool_decide (e = EAGAIN)) ;;;
      sret (if ctx_terminated b then Err ETERM else Ok, b)
  end.

Definition process_commands (fuel : nat) (timeout : Z) (throttle : bool) (b : base X)
  : stm (env W) (answer * base X) :=
  if negb (timeout =? 0) then
    let! r := mailbox_recv timeout in
    let! (e, b) := command_loop fuel r b in commands_done e b
  else
    let! tsc := rdtsc in
    if negb (tsc =? 0) && throttle && (last_tsc b <=? tsc) && (tsc - last_tsc b <=? max_command_delay)
    then sret (Ok, b)
    else
      let b := if negb (tsc =? 0) && throttle then set_last_tsc tsc b else b in
      let! r := mailbox_recv 0 in
      let! (e, b) := command_loop fuel r b in commands_done e b.

Definition extract_flags (msg : Msg.msg) (b : base X) : stm (env W) (base X) :=
  (if Msg.is_routing_id msg then sassert (recv_routing_id b) else sret tt) ;;;
  sret (set_rcvmore (msg_more msg) b).

(** What is left of the timeout, [None] when it is reached. *)
Definition time_left (timeout end_ : Z) : stm (env W) (option Z) :=
  if (0 <? timeout) then
    let! now := now_ms in
    let timeout := i32 (u64 (end_ - now)) in
    sret (if (timeout <=? 0) then None else Some timeout)
  else sret (Some timeout).

(** The loop of [send] that waits; one unit of [rounds] per turn. *)
Fixpoint send_wait (rounds fuel : nat) (timeout end_ : Z) (msg : Msg.msg) (b : base X)
  : stm (env W) (answer * Msg.msg * base X) :=
  match rounds with
  | O => sret (Blocked, msg, b)
  | S rounds =>
    let! (rc, b) := process_commands fuel timeout false b in
    match rc with
    | Err _ | Blocked => sret (rc, msg, b)
    | Ok =>
      let! (rc, msg, x) := xsend msg (socket b) in
      let b := set_socket x b in
      match rc with
      | None => sret (Ok, msg, b)
      | Some EAGAIN =>
        let! rest := time_left timeout end_ in
        match rest with
        | None => sret (Err EAGAIN, msg, b)
        | Some timeout => send_wait rounds fuel timeout end_ msg b
        end
      | Some e => sret (Err e, msg, b)
      end
    end
  end.

(** [timeout < 0 ? 0 : (clock.now_ms () + timeout)] *)
Definition deadline (timeout : Z) : stm (env W) Z :=
  if (timeout <? 0) then sret 0 else let! now := now_ms in sret (u64 (now + timeout)).

Definition has_flag (flags f : Z) : bool := negb (Z.land flags f =? 0).

Definition send (rounds fuel : nat) (msg : Msg.msg) (flags : Z) (b : base X)
  : stm (env W) (answer * Msg.msg * base X) :=
  if ctx_terminated b then sret (Err ETERM, msg, b)
  else if negb (Msg.check msg) then sret (Err EFAULT, msg, b)
  else
    let! (rc, b) := process_commands fuel 0 true b in
    match rc with
    | Err _ | Blocked => sret (rc, msg, b)
    | Ok =>
      let msg := Msg.reset_flags Msg.more msg in
      let msg := if has_flag flags ZMQ_SNDMORE then Msg.set_flags Msg.more msg else msg in
      let! msg := on_mem (Msg.reset_metadata msg) in
      let! (rc, msg, x) := xsend msg (socket b) in
      let b := set_socket x b in
      match rc with
      | None => sret (Ok, msg, b)
      | Some EAGAIN =>
        if has_flag flags ZMQ_DONTWAIT || (sndtimeo b =? 0) then sret (Err EAGAIN, msg, b)
        else
          let! end_ := deadline (sndtimeo b) in
          send_wait rounds fuel (sndtimeo b) end_ msg b
      | Some e => sret (Err e, msg, b)
      end
    end.

(** The loop of [recv] that waits. *)
Fixpoint recv_wait (rounds fuel : nat) (block : bool) (timeout end_ : Z) (msg : Msg.msg) (b : base X)
  : stm (env W) (answer * Msg.msg * base X) :=
  match rounds with
  | O => sret (Blocked, msg, b)
  | S rounds =>
    let! (rc, b) := process_commands fuel (if block then timeout else 0) false b in
    match rc with
    | Err _ | Blocked => sret (rc, msg, b)
    | Ok =>
      let! (rc, msg, x) := xrecv msg (socket b) in
      let b := set_socket x b in
      match rc with
      | None =>
        let b := set_ticks 0 b in
        let! b := extract_flags msg b in sret (Ok, msg, b)
      | Some EAGAIN =>
        let! rest := time_left timeout end_ in
        match rest with
        | None => sret (Err EAGAIN, msg, b)
        | Some timeout => recv_wait rounds fuel true timeout end_ msg b
        end
      | Some e => sret (Err e, msg, b)
      end
    end
  end.

Definition recv (rounds fuel : nat) (msg : Msg.msg) (flags : Z) (b : base X)
  : stm (env W) (answer * Msg.msg * base X) :=
  if ctx_terminated b then sret (Err ETERM, msg, b)
  else if negb (Msg.check msg) then sret (Err EFAULT, msg, b)
  else
    let b := set_ticks (ticks b + 1) b in
    let! (rc, b) := (if (ticks b =? inbound_poll_rate) then
                       let! (rc, b) := process_commands fuel 0 false b in
                       match rc with
                       | Ok => sret (Ok, set_ticks 0 b)
                       | _ => sret (rc, b)
                       end
                     else sret (Ok, b)) in
    match rc with
    | Err _ | Blocked => sret (rc, msg, b)
    | Ok =>
      let! (rc, msg, x) := xrecv msg (socket b) in
      let b := set_socket x b in
      match rc with
      | None => let! b := extract_flags msg b in sret (Ok, msg, b)
      | Some EAGAIN =>
        if has_flag flags ZMQ_DONTWAIT || (rcvtimeo b =? 0) then
          let! (rc, b) := process_commands fuel 0 false b in
          match rc with
          | Err _ | Blocked => sret (rc, msg, b)
          | Ok =>
            let b := set_ticks 0 b in
            let! (rc, msg, x) := xrecv msg (socket b) in
            let b := set_socket x b in
            match rc with
            | Some e => sret (Err e, msg, b)
            | None => let! b := extract_flags msg b in sret (Ok, msg, b)
            end
          end
        else
          let! end_ := deadline (rcvtimeo b) in
          recv_wait rounds fuel (negb (ticks b =? 0)) (rcvtimeo b) end_ msg b
      | Some e => sret (Err e, msg, b)
      end
    end.

(** [getsockopt] of [ZMQ_RCVMORE] and of [ZMQ_EVENTS]; of the two operands of [|], [has_out] comes
    first here. *)
Definition getsockopt_rcvmore (b : base X) : option errno * Z :=
  if ctx_terminated b then (Some ETERM, 0) else (None, if rcvmore b then 1 else 0).

Definition getsockopt_events (fuel : nat) (b : base X) : stm (env W) (answer * Z * base X) :=
  if ctx_terminated b then sret (Err ETERM, 0, b)
  else
    let! (rc, b) := process_commands fuel 0 false b in
    match rc with
    | Err EINTR | Err ETERM | Blocked => sret (rc, 0, b)
    | Err _ => scrash
    | Ok =>
      let! (out, x) := xhas_out (socket b) in
      let b := set_socket x b in
      let! (in_, x) := xhas_in (socket b) in
      let b := set_socket x b in
      sret (Ok, Z.lor (if out then ZMQ_POLLOUT else 0) (if in_ then ZMQ_POLLIN else 0), b)
    end.

(** Successive calls of [recv], each with its message and its flags. *)
Fixpoint recvs (rounds fuel : nat) (l : list (Msg.msg * Z)) (b : base X) : stm (env W) (list answer * base X) :=
  match l with
  | [] => sret ([], b)
  | (msg, flags) :: l =>
    let! (a, _, b) := recv rounds fuel msg flags b in
    let! (al, b) := recvs rounds fuel l b in
    sret (a :: al, b)
  end.

End Sock.

(** ** What the thread and the sockets are asked

    [clock] is the time in milliseconds, [taken] counts the commands received and [idle] how often the mailbox
    had none.  A mailbox that has no command keeps the caller for the time it was given, as
    [mailbox_t] does (a [mailbox_safe_t] may not, when receivers compete); one that was given no limit
    answers with a command or an interruption only.
    Commands leave the options, the counter of calls and the clock readings alone. *)
Record laws {X W C : Type} `{SocketOps X W} `{Thread W C} (process_command : C -> base X -> stm (env W) (base X))
    (clock : W -> Z) (taken idle : W -> nat) : Prop := {
  law_now s s' t : now_ms s = Done (s', t) ->
    t = clock (e_pipes s') /\ clock (e_pipes s) <= clock (e_pipes s') /\
    taken (e_pipes s') = taken (e_pipes s) /\ idle (e_pipes s') = idle (e_pipes s);
  law_rdtsc s s' t : rdtsc s = Done (s', t) -> e_pipes s' = e_pipes s;
  law_mailbox t s s' r : mailbox_recv t s = Done (s', r) ->
    clock (e_pipes s) <= clock (e_pipes s') /\
    match r with
    | inr _ => taken (e_pipes s') = S (taken (e_pipes s)) /\ idle (e_pipes s') = idle (e_pipes s)
    | inl e => taken (e_pipes s') = taken (e_pipes s) /\
        (e = EAGAIN -> 0 <= t /\ clock (e_pipes s) + t <= clock (e_pipes s') /\ idle (e_pipes s') = S (idle (e_pipes s))) /\
        (e <> EAGAIN -> idle (e_pipes s') = idle (e_pipes s))
    end;
  law_send m x s s' r : xsend m x s = Done (s', r) ->
    clock (e_pipes s) <= clock (e_pipes s') /\
    taken (e_pipes s') = taken (e_pipes s) /\ idle (e_pipes s') = idle (e_pipes s);
  law_recv m x s s' r : xrecv m x s = Done (s', r) ->
    clock (e_pipes s) <= clock (e_pipes s') /\
    taken (e_pipes s') = taken (e_pipes s) /\ idle (e_pipes s') = idle (e_pipes s);
  law_command c b s s' b' : process_command c b s = Done (s', b') ->
    clock (e_pipes s) <= clock (e_pipes s') /\
    taken (e_pipes s') = taken (e_pipes s) /\ idle (e_pipes s') = idle (e_pipes s) /\
    sndtimeo b' = sndtimeo b /\ rcvtimeo b' = rcvtimeo b /\ ticks b' = ticks b
}.

(** None of them aborts; a mailbox fails with [EAGAIN] or [EINTR] only, and no message
    received carries a routing id. *)
Record total {X W C : Type} `{SocketOps X W} `{Thread W C} (process_command : C -> base X -> stm (env W) (base X))
  : Prop := {
  total_now : succeeds (S := env W) now_ms (fun _ => True);
  total_rdtsc : succeeds (S := env W) rdtsc (fun _ => True);
  total_mailbox t : succeeds (S := env W) (mailbox_recv t)
    (fun r => match r with inl e => e = EAGAIN \/ e = EINTR | inr _ => True end);
  total_send m x : succeeds (xsend m x) (fun _ => True);
  total_recv m x : succeeds (xrecv m x) (fun r => Msg.is_routing_id r.1.2 = false);
  total_command c b : succeeds (process_command c b) (fun _ => True)
}.

Section Total.
Context {X W C : Type} `{SocketOps X W} `{Thread W C}.
Context (process_command : C -> base X -> stm (env W) (base X)) (Htot : total process_command).

Abbreviation returns m := (succeeds m (fun _ => True)).

Lemma command_loop_total fuel : forall r b,
  match r with inl e => e = EAGAIN \/ e = EINTR | inr _ => True end ->
  succeeds (command_loop process_command fuel r b)
    (fun r => match r.1 with Some e => e = EAGAIN \/ e = EINTR | None => True end).
Proof.
  induction fuel as [|fuel IH]; intros [e|c] b Hr; simpl; try (by apply succeeds_ret).
  eapply succeeds_bind; [apply Htot|]. intros b1 _. eapply succeeds_bind; [apply (total_mailbox _ Htot)|].
  intros r Hr1. by apply IH.
Qed.

Lemma process_commands_total fuel t th b : returns (process_commands process_command fuel t th b).
Proof.
  assert (Hgo : forall b0, returns (let! r := mailbox_recv t in
    let! (e, b) := command_loop process_command fuel r b0 in commands_done e b)).
  { intros b0. eapply succeeds_bind; [apply (total_mailbox _ Htot)|]. intros r Hr.
    eapply succeeds_bind; [by apply command_loop_total|]. intros [[e|] b1] He; simpl in *; [|by apply succeeds_ret].
    destruct (decide (e = EINTR)); [by apply succeeds_ret|]. destruct He as [->|]; [|done].
    rewrite bool_decide_eq_true_2 by done. intros s. by eexists _, _. }
  unfold process_commands. destruct (Z.eqb_spec t 0) as [->|]; cbn [negb]; [|apply Hgo].
  eapply succeeds_bind; [apply Htot|]. intros tsc _. destruct (_ && _ && _ && _); [by apply succeeds_ret|apply Hgo].
Qed.

Lemma time_left_total timeout end_ : returns (time_left timeout end_).
Proof.
  unfold time_left. destruct (0 <? timeout); [|by apply succeeds_ret].
  eapply succeeds_bind; [apply Htot|]. intros now _. by apply succeeds_ret.
Qed.

Lemma deadline_total timeout : returns (deadline timeout).
Proof.
  unfold deadline. destruct (timeout <? 0); [by apply succeeds_ret|].
  eapply succeeds_bind; [apply Htot|]. intros now _. by apply succeeds_ret.
Qed.

Lemma extract_flags_total msg (b : base X) (P : base X -> Prop) :
  Msg.is_routing_id msg = false -> (forall b, P b) -> succeeds (S := env W) (extract_flags msg b) P.
Proof. intros E HP s. unfold extract_flags. rewrite E. by eexists _, _. Qed.

Lemma send_wait_total rounds fuel : forall timeout end_ msg b,
  returns (send_wait process_command rounds fuel timeout end_ msg b).
Proof.
  induction rounds as [|rounds IH]; intros timeout end_ msg b; cbn [send_wait]; [by apply succeeds_ret|].
  eapply succeeds_bind; [apply process_commands_total|]. intros [rc b1] _.
  destruct rc; try by apply succeeds_ret.
  eapply succeeds_bind; [apply Htot|]. intros [[rc msg2] x] _.
  destruct rc as [[]|]; try by apply succeeds_ret.
  eapply succeeds_bind; [apply time_left_total|]. intros [t|] _; [apply IH|by apply succeeds_ret].
Qed.

Lemma recv_wait_total rounds fuel : forall block timeout end_ msg b,
  returns (recv_wait process_command rounds fuel block timeout end_ msg b).
Proof.
  induction rounds as [|rounds IH]; intros block timeout end_ msg b; cbn [recv_wait]; [by apply succeeds_ret|].
  eapply succeeds_bind; [apply process_commands_total|]. intros [rc b1] _.
  destruct rc; try by apply succeeds_ret.
  eapply succeeds_bind; [apply (total_recv _ Htot)|]. intros [[rc msg2] x] Hm.
  destruct rc as [[]|]; try by apply succeeds_ret.
  - eapply succeeds_bind; [apply time_left_total|]. intros [t|] _; [apply IH|by apply succeeds_ret].
  - eapply succeeds_bind; [by apply (extract_flags_total _ _ (fun _ => True))|]. intros b2 _. by apply succeeds_ret.
Qed.

Lemma send_total rounds fuel msg flags b :
  Msg.metadata msg = None -> returns (send process_command rounds fuel msg flags b).
Proof.
  intros Hmd. unfold send. destruct (ctx_terminated b); [by apply succeeds_ret|].
  destruct (negb (Msg.check msg)); [by apply succeeds_ret|].
  eapply succeeds_bind; [apply process_commands_total|]. intros [rc b1] _.
  destruct rc; try by apply succeeds_ret.
  eapply (succeeds_bind _ _ (fun _ => True)).
  { intros s. unfold on_mem, Msg.reset_metadata.
    destruct (has_flag flags ZMQ_SNDMORE); simpl; rewrite Hmd; simpl; by eexists _, _. }
  intros msg1 _. eapply succeeds_bind; [apply Htot|]. intros [[rc msg2] x] _.
  destruct rc as [[]|]; try by apply succeeds_ret.
  destruct (_ || _); [by apply succeeds_ret|].
  eapply succeeds_bind; [apply deadline_total|]. intros end_ _. apply send_wait_total.
Qed.

Lemma recv_total rounds fuel msg flags b : returns (recv process_command rounds fuel msg flags b).
Proof.
  unfold recv. destruct (ctx_terminated b); [by apply succeeds_ret|].
  destruct (negb (Msg.check msg)); [by apply succeeds_ret|].
  eapply (succeeds_bind _ _ (fun _ => True)).
  { destruct (_ =? _); [|by apply succeeds_ret]. eapply succeeds_bind; [apply process_commands_total|].
    intros [rc b1] _. destruct rc; by apply succeeds_ret. }
  intros [rc b1] _. destruct rc; try by apply succeeds_ret.
  eapply succeeds_bind; [apply (total_recv _ Htot)|]. intros [[rc msg2] x] Hm.
  destruct rc as [[]|]; try by apply succeeds_ret.
  - destruct (_ || _).
    + eapply succeeds_bind; [apply process_commands_total|]. intros [rc b2] _. destruct rc; try by apply succeeds_ret.
      eapply succeeds_bind; [apply (total_recv _ Htot)|]. intros [[rc msg3] x3] Hm3.
      destruct rc; [by apply succeeds_ret|].
      eapply succeeds_bind; [by apply (extract_flags_total _ _ (fun _ => True))|]. intros b3 _. by apply succeeds_ret.
    + eapply succeeds_bind; [apply deadline_total|]. intros end_ _. apply recv_wait_total.
  - eapply succeeds_bind; [by apply (extract_flags_total _ _ (fun _ => True))|]. intros b3 _. by apply succeeds_ret.
Qed.
End Total.

Section Time.
Context {X W C : Type} `{SocketOps X W} `{Thread W C}.
Context (process_command : C -> base X -> stm (env W) (base X)) (clock : W -> Z) (taken idle : W -> nat).
Context (L : laws process_command clock taken idle).

Abbreviation clk s := (clock (e_pipes s)).
Abbreviation tkn s := (taken (e_pipes s)).
Abbreviation idl s := (idle (e_pipes s)).

(** Time does not go back, the counters do not either. *)
Definition later (s s' : env W) : Prop := clk s <= clk s' /\ (tkn s <= tkn s')%nat /\ (idl s <= idl s')%nat.

Definition same_options (b b' : base X) : Prop :=
  sndtimeo b' = sndtimeo b /\ rcvtimeo b' = rcvtimeo b /\ ticks b' = ticks b.

(** Splits the conjunctions that are seen, not those inside definitions. *)
Ltac ands := lazymatch goal with |- _ /\ _ => split; [|ands] | _ => idtac end.

Lemma later_trans s1 s2 s3 : later s1 s2 -> later s2 s3 -> later s1 s3.
Proof. unfold later. lia. Qed.

Lemma later_eq s s' : e_pipes s' = e_pipes s -> later s s'.
Proof. intros E. unfold later. rewrite E. lia. Qed.

Lemma later_law s s' :
  clk s <= clk s' -> tkn s' = tkn s -> idl s' = idl s -> later s s'.
Proof. unfold later. lia. Qed.

Lemma same_trans b1 b2 b3 : same_options b1 b2 -> same_options b2 b3 -> same_options b1 b3.
Proof. unfold same_options. intros (? & ? & ?) (? & ? & ?). split_and!; congruence. Qed.

Lemma mailbox_later t s s' r :
  mailbox_recv t s = Done (s', r) ->
  later s s' /\
  match r with
  | inr _ => (tkn s < tkn s')%nat
  | inl e => e = EAGAIN -> 0 <= t /\ clk s + t <= clk s' /\ (idl s < idl s')%nat
  end.
Proof.
  intros E. destruct (law_mailbox _ _ _ _ L _ _ _ _ E) as [Hc Hr]. unfold later.
  destruct r as [e|c]; [|lia]. destruct Hr as (Ht & He & Hn).
  destruct (decide (e = EAGAIN)) as [Ee|Ne]; [destruct (He Ee)|specialize (Hn Ne)]; split; try lia; done.
Qed.

Lemma command_later c b s s' b' :
  process_command c b s = Done (s', b') -> later s s' /\ same_options b b'.
Proof.
  intros E. destruct (law_command _ _ _ _ L _ _ _ _ _ E) as (? & ? & ? & ? & ? & ?).
  split; [by apply later_law|done].
Qed.

Lemma command_loop_spec fuel : forall r b s s' e b',
  command_loop process_command fuel r b s = Done (s', (e, b')) ->
  later s s' /\ same_options b b' /\
  (e = None -> (fuel <= tkn s' - tkn s)%nat) /\
  match r with
  | inl e0 => e = Some e0
  | inr _ => e = Some EAGAIN -> (idl s < idl s')%nat
  end.
Proof.
  induction fuel as [|fuel IH]; intros [e0|c] b s s' e b' E; simpl in E; try done;
    try (injection E as <- <- <-; by ands; [apply later_eq|done|done || lia|]).
  apply sbind_inv in E as (s1 & b1 & E1 & E). apply sbind_inv in E as (s2 & r & E2 & E).
  apply command_later in E1 as [Hl1 Ho1]. apply mailbox_later in E2 as [Hl2 Hr2].
  apply IH in E as (Hl & Ho & Hf & Hr).
  split; [by eapply later_trans, later_trans|]. split; [by eapply same_trans|]. unfold later in *. split.
  - intros Ee. specialize (Hf Ee). destruct r as [e1|c1]; [congruence|lia].
  - intros Ee. destruct r as [e1|c1]; [destruct Hr2; [congruence|]|specialize (Hr Ee)]; lia.
Qed.

(** What a call of [process_commands] did: it went through the commands, unless it was interrupted, found the
    context terminated, or has more commands than fuel. *)
Definition processed (fuel : nat) (t : Z) (th : bool) (b b' : base X) (s s' : env W) (rc : answer) : Prop :=
  later s s' /\ same_options b b' /\
  (rc = Ok \/ rc = Err EINTR \/ rc = Err ETERM \/ rc = Blocked) /\
  (rc = Blocked -> (fuel < tkn s' - tkn s)%nat) /\
  (rc = Ok -> ctx_terminated b = false -> ctx_terminated b' = false) /\
  (rc <> Err EINTR -> t <> 0 -> 0 <= t /\ clk s + t <= clk s' \/ (tkn s < tkn s')%nat) /\
  (rc <> Err EINTR -> rc <> Blocked -> t <> 0 \/ th = false -> (idl s < idl s')%nat).

Lemma commands_spec fuel t th b b0 s s0 s' rc b' :
  same_options b b0 -> e_pipes s0 = e_pipes s ->
  (let! r := mailbox_recv t in
   let! (e, b) := command_loop process_command fuel r b0 in commands_done e b) s0 = Done (s', (rc, b')) ->
  processed fuel t th b b' s s' rc.
Proof.
  unfold processed. intros Ho0 Es0 E0. apply sbind_inv in E0 as (s1 & r & E1 & E0).
  apply sbind_inv in E0 as (s2 & [e b2] & E2 & E0).
  apply mailbox_later in E1 as [Hl1 Hr1]. apply command_loop_spec in E2 as (Hl2 & Ho2 & Hf2 & Hr2).
  assert (Hl : later s s2) by (apply later_trans with s0; [by apply later_eq|by eapply later_trans]).
  assert (Ho : same_options b b2) by by eapply same_trans.
  unfold commands_done in E0. destruct e as [e|].
  2:{ injection E0 as <- <- <-. specialize (Hf2 eq_refl). destruct r as [e1|c1]; [done|].
      unfold later in *. rewrite Es0 in *. ands; try done; auto; intros; try lia; try congruence. }
  destruct (decide (e = EINTR)) as [->|Hi].
  { injection E0 as <- <- <-. ands; try done; auto. }
  destruct (decide (e = EAGAIN)) as [->|]; [|by rewrite bool_decide_eq_false_2 in E0].
  rewrite bool_decide_eq_true_2, (sbind_done _ _ s2 s2 tt) in E0 by done. injection E0 as <- <- <-.
  ands; try done; [by destruct (ctx_terminated b2); auto|by destruct (ctx_terminated b2)..| |];
    rewrite <- Es0; unfold later in *;
    destruct r as [e1|c1]; [injection Hr2 as <-; destruct (Hr1 eq_refl)|specialize (Hr2 eq_refl)
      |injection Hr2 as <-; destruct (Hr1 eq_refl)|specialize (Hr2 eq_refl)]; intros; lia.
Qed.

Lemma process_commands_spec fuel t th b s s' rc b' :
  process_commands process_command fuel t th b s = Done (s', (rc, b')) ->
  processed fuel t th b b' s s' rc.
Proof.
  intros E. unfold process_commands in E. destruct (Z.eqb_spec t 0) as [->|Ht]; cbn [negb] in E.
  - apply sbind_inv in E as (s0 & tsc & E0 & E). apply (law_rdtsc _ _ _ _ L) in E0.
    destruct (negb (tsc =? 0) && th) eqn:Et; cbn [andb] in E; [|by eapply commands_spec].
    destruct ((last_tsc b <=? tsc) && (tsc - last_tsc b <=? max_command_delay)).
    + injection E as <- <- <-. apply andb_true_iff in Et as [_ ->]. unfold processed.
      ands; try done; [by apply later_eq|auto|]. by intros _ _ [?|?].
    + by eapply commands_spec in E.
  - by eapply commands_spec.
Qed.

(** ** Waiting *)
Lemma time_left_spec timeout end_ s s' r :
  time_left timeout end_ s = Done (s', r) ->
  (0 < timeout -> end_ - clk s < 2 ^ 31 /\ clk s' - end_ < 2 ^ 31) ->
  later s s' /\
  match r with
  | None => 0 < timeout /\ end_ <= clk s'
  | Some t => (0 < timeout -> 0 < t /\ end_ <= clk s' + t /\ clk s' < end_) /\ (timeout <= 0 -> t = timeout)
  end.
Proof.
  intros E Hb. unfold time_left in E. destruct (Z.ltb_spec 0 timeout) as [Hto|Hto].
  - apply sbind_inv in E as (s1 & now & E1 & E).
    destruct (law_now _ _ _ _ L _ _ _ E1) as (-> & Hc & Ht & Hi). injection E as -> <-.
    destruct (Hb Hto) as [H1 H2].
    assert (Hw : i32 (u64 (end_ - clk s')) = end_ - clk s').
    { transitivity (i32 (end_ - clk s')); [|by apply i32_small; lia]. unfold i32, u64. f_equal.
      rewrite <- (Z.add_mod_idemp_l (_ mod _)), Z.mod_mod_divide by (done || by exists (2 ^ 32)).
      by rewrite Z.add_mod_idemp_l. }
    rewrite Hw. split; [by apply later_law|]. destruct (Z.leb_spec (end_ - clk s') 0); [split; lia|].
    split; lia.
  - injection E as <- <-. split; [by apply later_eq|]. split; [lia|done].
Qed.

Lemma time_left_later timeout end_ s s' r : time_left timeout end_ s = Done (s', r) -> later s s'.
Proof.
  intros E. unfold time_left in E. destruct (0 <? timeout); [|injection E as <- <-; by apply later_eq].
  apply sbind_inv in E as (s1 & now & E1 & E). injection E as <- <-.
  destruct (law_now _ _ _ _ L _ _ _ E1) as (-> & Hc & Ht & Hi). by apply later_law.
Qed.

Lemma send_later m x s s' r : xsend m x s = Done (s', r) -> later s s'.
Proof. intros E. destruct (law_send _ _ _ _ L _ _ _ _ _ E) as (? & ? & ?). by apply later_law. Qed.

Lemma recv_later m x s s' r : xrecv m x s = Done (s', r) -> later s s'.
Proof. intros E. destruct (law_recv _ _ _ _ L _ _ _ _ _ E) as (? & ? & ?). by apply later_law. Qed.

Lemma send_wait_later rounds fuel : forall timeout end_ msg b s s' a msg' b',
  send_wait process_command rounds fuel timeout end_ msg b s = Done (s', (a, msg', b')) ->
  later s s' /\ same_options b b'.
Proof.
  induction rounds as [|rounds IH]; intros timeout end_ msg b s s' a msg' b' E; cbn [send_wait] in E.
  { injection E as <- <- <- <-. split; [by apply later_eq|done]. }
  apply sbind_inv in E as (s1 & [rc b1] & E1 & E).
  apply process_commands_spec in E1 as (Hl1 & Ho1 & _).
  destruct rc as [|e|]; try (by injection E as <- <- <- <-).
  apply sbind_inv in E as (s2 & [[rc msg2] x] & E2 & E).
  apply send_later in E2 as Hl2. pose proof (later_trans _ _ _ Hl1 Hl2) as Hl.
  destruct rc as [[]|]; try (by injection E as <- <- <- <-).
  apply sbind_inv in E as (s3 & rest & E3 & E). apply time_left_later in E3.
  destruct rest as [t|].
  - apply IH in E as [Hl4 Ho4]. split; [by eapply later_trans, later_trans|]. by eapply same_trans.
  - injection E as <- <- <- <-. split; [by eapply later_trans|done].
Qed.

(** The deadline and the timeout a wait goes on with, when there is one. *)
Definition on_time (timeout end_ : Z) (s s' : env W) : Prop :=
  0 < timeout -> end_ <= clk s + timeout /\ end_ - clk s < 2 ^ 31 /\ clk s' - end_ < 2 ^ 31.

(** A turn that ends the wait, or leaves it with the rest of its time; [n] commands were processed
    before unless [timeout] has passed. *)
Lemma turn_ends timeout end_ (s s1 s2 s3 s' : env W) rest :
  later s s1 -> later s1 s2 -> later s3 s' ->
  time_left timeout end_ s2 = Done (s3, rest) -> on_time timeout end_ s s' ->
  match rest with
  | None => 0 < timeout /\ end_ <= clk s3
  | Some t =>
    on_time t end_ s3 s' /\ (0 < t -> 0 < timeout) /\
    (timeout <> 0 -> t <> 0 /\ (0 <= timeout /\ clk s + timeout <= clk s1 \/ (tkn s < tkn s1)%nat -> (tkn s < tkn s3)%nat))
  end.
Proof.
  intros Hl1 Hl2 Hl4 E Hon. apply time_left_later in E as Hl3. unfold on_time, later in *.
  apply time_left_spec in E as [_ E]; [|lia]. destruct rest as [t|]; [|done].
  destruct E as [Hp Hn]. destruct (Z.lt_ge_cases 0 timeout) as [Hto|Hto].
  - destruct (Hp Hto) as (Ht & Hle & Hlt). lia.
  - rewrite Hn by done. lia.
Qed.

Lemma send_wait_spec rounds fuel : forall timeout end_ msg b s s' a msg' b',
  send_wait process_command rounds fuel timeout end_ msg b s = Done (s', (a, msg', b')) ->
  on_time timeout end_ s s' ->
  (a = Err EAGAIN -> 0 < timeout /\ end_ <= clk s') /\
  (a = Blocked -> (fuel < tkn s' - tkn s)%nat \/ (timeout <> 0 -> (rounds <= tkn s' - tkn s)%nat)) /\
  (ctx_terminated b = false -> a = Err ETERM \/ a = Err EINTR \/ a = Blocked \/ ctx_terminated b' = false).
Proof.
  induction rounds as [|rounds IH]; intros timeout end_ msg b s s' a msg' b' E Hon; cbn [send_wait] in E.
  { injection E as <- <- <- <-. split_and!; [done|right; lia|auto]. }
  apply sbind_inv in E as (s1 & [rc b1] & E1 & E).
  apply process_commands_spec in E1 as (Hl1 & _ & Hrc & Hf1 & Ht1 & Hw1 & _).
  destruct rc as [|e|]; try (injection E as <- <- <- <-; naive_solver).
  apply sbind_inv in E as (s2 & [[rc msg2] x] & E2 & E). apply send_later in E2 as Hl2.
  destruct rc as [[]|]; try (injection E as <- <- <- <-; naive_solver).
  apply sbind_inv in E as (s3 & rest & E3 & E). destruct rest as [t|].
  - pose proof (send_wait_later _ _ _ _ _ _ _ _ _ _ _ E) as [Hl4 _].
    destruct (turn_ends _ _ _ _ _ _ _ _ Hl1 Hl2 Hl4 E3 Hon) as (Hon' & Hp & Hk).
    apply IH in E as (Ha & Hb & Hc); [|done]. split_and!.
    + intros Ea. destruct (Ha Ea). auto.
    + intros Ea. specialize (Hw1 ltac:(done)). apply time_left_later in E3. unfold later in *.
      destruct (Hb Ea) as [?|Hr]; [left; lia|]. right. intros Hto.
      destruct (Hk Hto) as [Ht Hlt]. specialize (Hr Ht). specialize (Hlt (Hw1 ltac:(lia))). lia.
    + intros Hct. apply Hc. exact (Ht1 eq_refl Hct).
  - injection E as <- <- <- <-.
    destruct (turn_ends _ _ _ _ _ _ _ _ Hl1 Hl2 (later_eq _ _ eq_refl) E3 Hon).
    split_and!; [done|done|]. intros Hct. right; right; right. exact (Ht1 eq_refl Hct).
Qed.

Lemma extract_flags_eq msg (b : base X) (s s' : env W) b' :
  extract_flags msg b s = Done (s', b') -> s' = s /\ b' = set_rcvmore (msg_more msg) b.
Proof.
  unfold extract_flags. intros E. apply sbind_inv in E as (s1 & u & E1 & E). injection E as <- <-. split; [|done].
  destruct (Msg.is_routing_id msg); [|by injection E1 as <- _].
  unfold sassert in E1. destruct (recv_routing_id b); [by injection E1 as <- _|done].
Qed.

(** What a wait for a message does to the socket's counter of calls. *)
Definition same_or_reset (b b' : base X) : Prop := ticks b' = ticks b \/ ticks b' = 0.

Lemma recv_wait_later rounds fuel : forall block timeout end_ msg b s s' a msg' b',
  recv_wait process_command rounds fuel block timeout end_ msg b s = Done (s', (a, msg', b')) ->
  later s s' /\ same_or_reset b b' /\ (a = Blocked \/ a = Err EINTR \/ (idl s < idl s')%nat).
Proof.
  unfold same_or_reset.
  induction rounds as [|rounds IH]; intros block timeout end_ msg b s s' a msg' b' E; cbn [recv_wait] in E.
  { injection E as <- <- <- <-. split_and!; [by apply later_eq|by left|by left]. }
  apply sbind_inv in E as (s1 & [rc b1] & E1 & E).
  apply process_commands_spec in E1 as (Hl1 & (_ & _ & Ho1) & _ & _ & _ & _ & Hi1).
  destruct rc as [|e|]; [|injection E as <- <- <- <-; ands; [done|by left|]..]; [|right|by left].
  2:{ destruct (decide (e = EINTR)) as [->|]; [by left|]. right. apply Hi1; [congruence|done|by right]. }
  specialize (Hi1 ltac:(done) ltac:(done) ltac:(by right)).
  apply sbind_inv in E as (s2 & [[rc msg2] x] & E2 & E). apply recv_later in E2 as Hl2.
  pose proof (later_trans _ _ _ Hl1 Hl2) as Hl. assert (Hi2 : (idl s < idl s2)%nat) by (unfold later in *; lia).
  destruct rc as [[]|]; try (injection E as <- <- <- <-; split_and!; [done|by left|by right; right]).
  - apply sbind_inv in E as (s3 & rest & E3 & E). apply time_left_later in E3.
    destruct rest as [t|].
    + apply IH in E as (Hl4 & Ho4 & Hi4). split; [by eapply later_trans, later_trans|].
      split; [simpl in Ho4; destruct Ho4; [left; congruence|by right]|].
      right; right. unfold later in *. lia.
    + injection E as <- <- <- <-. split; [by eapply later_trans|]. split; [by left|].
      right; right. unfold later in *. lia.
  - apply sbind_inv in E as (s3 & b3 & E3 & E). apply extract_flags_eq in E3 as [-> ->].
    injection E as <- <- <- <-. split_and!; [done|by right|by right; right].
Qed.

Lemma recv_wait_spec rounds fuel : forall (block : bool) timeout end_ msg b s s' a msg' b',
  recv_wait process_command rounds fuel block timeout end_ msg b s = Done (s', (a, msg', b')) ->
  on_time timeout end_ s s' ->
  (a = Err EAGAIN -> 0 < timeout /\ end_ <= clk s') /\
  (a = Blocked -> (fuel < tkn s' - tkn s)%nat \/ (timeout <> 0 -> (rounds <= (if block then 0 else 1) + (tkn s' - tkn s))%nat)) /\
  (ctx_terminated b = false -> a = Err ETERM \/ a = Err EINTR \/ a = Blocked \/ ctx_terminated b' = false).
Proof.
  induction rounds as [|rounds IH]; intros block timeout end_ msg b s s' a msg' b' E Hon; cbn [recv_wait] in E.
  { injection E as <- <- <- <-. split_and!; [done|right; lia|auto]. }
  apply sbind_inv in E as (s1 & [rc b1] & E1 & E).
  apply process_commands_spec in E1 as (Hl1 & _ & Hrc & Hf1 & Ht1 & Hw1 & _).
  destruct rc as [|e|]; try (injection E as <- <- <- <-; naive_solver).
  apply sbind_inv in E as (s2 & [[rc msg2] x] & E2 & E). apply recv_later in E2 as Hl2.
  destruct rc as [[]|]; try (injection E as <- <- <- <-; naive_solver).
  - apply sbind_inv in E as (s3 & rest & E3 & E). destruct rest as [t|].
    + pose proof (recv_wait_later _ _ _ _ _ _ _ _ _ _ _ _ E) as (Hl4 & _).
      destruct (turn_ends _ _ _ _ _ _ _ _ Hl1 Hl2 Hl4 E3 Hon) as (Hon' & Hp & Hk).
      apply time_left_later in E3. apply IH in E as (Ha & Hb & Hc); [|done]. split_and!.
      * intros Ea. destruct (Ha Ea). auto.
      * intros Ea. specialize (Hw1 ltac:(done)). unfold later in *.
        destruct (Hb Ea) as [?|Hr]; [left; lia|]. right. intros Hto.
        destruct (Hk Hto) as [Ht Hlt]. specialize (Hr Ht).
        destruct block; [specialize (Hlt (Hw1 ltac:(lia)))|]; lia.
      * intros Hct. apply Hc. exact (Ht1 eq_refl Hct).
    + injection E as <- <- <- <-.
      destruct (turn_ends _ _ _ _ _ _ _ _ Hl1 Hl2 (later_eq _ _ eq_refl) E3 Hon).
      split_and!; [done|done|]. intros Hct. right; right; right. exact (Ht1 eq_refl Hct).
  - apply sbind_inv in E as (s3 & b3 & E3 & E). apply extract_flags_eq in E3 as [-> ->].
    injection E as <- <- <- <-. split_and!; [done|done|]. intros Hct. right; right; right. exact (Ht1 eq_refl Hct).
Qed.

Lemma deadline_on_time timeout (s s1 s2 : env W) end_ :
  deadline timeout s = Done (s1, end_) -> 0 <= clk s -> clk s2 < 2 ^ 63 -> clk s2 - clk s < 2 ^ 31 ->
  timeout < 2 ^ 31 -> later s1 s2 ->
  later s s1 /\ on_time timeout end_ s1 s2 /\ (0 < timeout -> clk s + timeout <= end_).
Proof.
  unfold deadline, on_time. intros E Hs0 Hs1 Hs2 Hto Hl2. destruct (Z.ltb_spec timeout 0).
  - injection E as <- <-. split; [by apply later_eq|]. lia.
  - apply sbind_inv in E as (s3 & now & E1 & E). injection E as <- <-.
    destruct (law_now _ _ _ _ L _ _ _ E1) as (-> & Hc & Ht & Hi). split; [by apply later_law|].
    unfold later in *. rewrite u64_small by lia. lia.
Qed.

(** A call of [send]: the wait it may come to, and everything before it. *)
Lemma send_cases rounds fuel msg flags b s s' a msg' b' :
  send process_command rounds fuel msg flags b s = Done (s', (a, msg', b')) ->
  ((a = Blocked -> (fuel < tkn s' - tkn s)%nat) /\ later s s' /\ same_options b b' /\
     (ctx_terminated b = false -> a = Err ETERM \/ a = Err EINTR \/ a = Blocked \/ ctx_terminated b' = false) /\
     (a = Err EAGAIN -> has_flag flags ZMQ_DONTWAIT = true \/ sndtimeo b = 0)) \/
  (has_flag flags ZMQ_DONTWAIT = false /\ sndtimeo b <> 0 /\
   exists s1 s2 end_ b1 msg1, later s s1 /\ same_options b b1 /\
     (ctx_terminated b = false -> ctx_terminated b1 = false) /\
     deadline (sndtimeo b) s1 = Done (s2, end_) /\
     send_wait process_command rounds fuel (sndtimeo b) end_ msg1 b1 s2 = Done (s', (a, msg', b'))).
Proof.
  intros E. unfold send in E.
  destruct (ctx_terminated b) eqn:Hct.
  { injection E as <- <- <- <-. left. ands; done. }
  destruct (negb (Msg.check msg)).
  { injection E as <- <- <- <-. left. ands; try done. auto. }
  apply sbind_inv in E as (s1 & [rc b1] & E1 & E).
  apply process_commands_spec in E1 as (Hl1 & Ho1 & Hrc & Hf1 & Ht1 & _).
  destruct rc as [|e|]; try (injection E as <- <- <- <-; left; ands; naive_solver).
  apply sbind_inv in E as (s2 & msg2 & E2 & E).
  assert (Hl2 : later s s2).
  { eapply later_trans; [exact Hl1|]. apply later_eq. unfold on_mem in E2.
    destruct (Msg.reset_metadata _ _) as [[m' r]|]; [|done]. by injection E2 as <- _. }
  apply sbind_inv in E as (s3 & [[rc msg3] x] & E3 & E). apply send_later in E3 as Hl3.
  pose proof (later_trans _ _ _ Hl2 Hl3) as Hl. specialize (Ht1 eq_refl Hct).
  destruct rc as [[]|]; try (injection E as <- <- <- <-; left; ands; try done; auto).
  destruct Ho1 as (Hs1 & Hr1 & Hk1). cbn [set_socket sndtimeo] in E. rewrite Hs1 in E.
  destruct (has_flag flags ZMQ_DONTWAIT) eqn:Ef; cbn [orb] in E.
  { injection E as <- <- <- <-. left. ands; try done; auto. }
  destruct (Z.eqb_spec (sndtimeo b) 0) as [Hz|Hz].
  { injection E as <- <- <- <-. left. ands; try done; auto. }
  right. apply sbind_inv in E as (s4 & end_ & E4 & E). ands; [done..|].
  by exists s3, s4, end_, (set_socket x b1), msg3.
Qed.

(** A call either counts, or empties the mailbox; it does the second when it would be the hundredth. *)
Definition counted (b b' : base X) (s s' : env W) : Prop :=
  (ticks b' = ticks b + 1 /\ ticks b + 1 <> inbound_poll_rate /\ (idl s <= idl s')%nat) \/
  (ticks b' = ticks b + 1 /\ ticks b + 1 <> inbound_poll_rate \/ ticks b' = 0) /\ (idl s < idl s')%nat.

(** The first lines of [recv], up to its first [xrecv]. *)
Lemma poll_spec fuel b s s1 rc b1 :
  (if (ticks b + 1 =? inbound_poll_rate) then
     let! (rc, b) := process_commands process_command fuel 0 false (set_ticks (ticks b + 1) b) in
     match rc with
     | Ok => sret (Ok, set_ticks 0 b)
     | _ => sret (rc, b)
     end
   else sret (Ok, set_ticks (ticks b + 1) b)) s = Done (s1, (rc, b1)) ->
  later s s1 /\ rcvtimeo b1 = rcvtimeo b /\
  (rc = Ok \/ rc = Err EINTR \/ rc = Err ETERM \/ rc = Blocked) /\
  (rc = Blocked -> (fuel < tkn s1 - tkn s)%nat) /\
  (rc = Ok -> ctx_terminated b = false -> ctx_terminated b1 = false) /\
  (rc = Ok -> counted b b1 s s1).
Proof.
  unfold counted. destruct (Z.eqb_spec (ticks b + 1) inbound_poll_rate) as [Et|Et]; intros E.
  - apply sbind_inv in E as (s0 & [rc0 b0] & E0 & E).
    apply process_commands_spec in E0 as (Hl & (_ & Hr & _) & Hrc & Hf & Ht & _ & Hi).
    destruct rc0 as [|e|]; injection E as <- <- <-; ands; try done; auto.
  - injection E as <- <- <-. ands; try done; auto.
Qed.

Lemma recv_cases rounds fuel msg flags b s s' a msg' b' :
  recv process_command rounds fuel msg flags b s = Done (s', (a, msg', b')) ->
  ((a = Blocked -> (fuel < tkn s' - tkn s)%nat) /\ later s s' /\
     (ctx_terminated b = false -> a = Err ETERM \/ a = Err EINTR \/ a = Blocked \/ ctx_terminated b' = false) /\
     (a = Err EAGAIN -> has_flag flags ZMQ_DONTWAIT = true \/ rcvtimeo b = 0) /\
     (Msg.check msg = true -> a = Err EINTR \/ a = Err ETERM \/ a = Blocked \/ counted b b' s s')) \/
  (has_flag flags ZMQ_DONTWAIT = false /\ rcvtimeo b <> 0 /\
   exists s1 s2 end_ b1 msg1 block, later s s1 /\ counted b b1 s s1 /\
     (ctx_terminated b = false -> ctx_terminated b1 = false) /\
     deadline (rcvtimeo b) s1 = Done (s2, end_) /\
     recv_wait process_command rounds fuel block (rcvtimeo b) end_ msg1 b1 s2 = Done (s', (a, msg', b'))).
Proof.
  intros E. unfold recv in E.
  destruct (ctx_terminated b) eqn:Hct.
  { injection E as <- <- <- <-. left. ands; try done. auto. }
  destruct (Msg.check msg) eqn:Hck; cbn [negb] in E.
  2:{ injection E as <- <- <- <-. left. ands; try done. auto. }
  apply sbind_inv in E as (s1 & [rc b1] & E1 & E). cbn [set_ticks ticks] in E1.
  apply poll_spec in E1 as (Hl1 & Hr1 & Hrc & Hf1 & Ht1 & Hk1).
  destruct rc as [|e|]; try (injection E as <- <- <- <-; left; ands; naive_solver).
  specialize (Ht1 eq_refl Hct). specialize (Hk1 eq_refl).
  apply sbind_inv in E as (s2 & [[rc msg2] x] & E2 & E). apply recv_later in E2 as Hl2.
  pose proof (later_trans _ _ _ Hl1 Hl2) as Hl.
  assert (Hk2 : counted b (set_socket x b1) s s2) by (unfold counted, later in *; simpl; lia).
  destruct rc as [[]|]; try (injection E as <- <- <- <-; left; ands; try done; by auto).
  2:{ apply sbind_inv in E as (s3 & b3 & E3 & E). apply extract_flags_eq in E3 as [-> ->].
      injection E as <- <- <- <-. left. ands; try done; auto. }
  destruct (has_flag flags ZMQ_DONTWAIT || (rcvtimeo (set_socket x b1) =? 0)) eqn:Ef.
  - apply sbind_inv in E as (s3 & [rc3 b3] & E3 & E).
    apply process_commands_spec in E3 as (Hl3 & (_ & _ & Ho3) & Hrc3 & Hf3 & Ht3 & _ & Hi3).
    pose proof (later_trans _ _ _ Hl Hl3) as Hl'.
    assert (Hd : has_flag flags ZMQ_DONTWAIT = true \/ rcvtimeo b = 0).
    { cbn [set_socket rcvtimeo] in Ef. rewrite Hr1 in Ef. apply orb_true_iff in Ef as [|?%Z.eqb_eq]; auto. }
    destruct rc3 as [|e|]; try (injection E as <- <- <- <-; left; unfold later in *; ands; naive_solver lia).
    apply sbind_inv in E as (s4 & [[rc4 msg4] x4] & E4 & E). apply recv_later in E4 as Hl4.
    pose proof (later_trans _ _ _ Hl' Hl4) as Hl''.
    assert (Hk4 : counted b (set_socket x4 (set_ticks 0 b3)) s s4).
    { right. split; [by right|]. specialize (Hi3 ltac:(done) ltac:(done) ltac:(by right)). unfold later in *. lia. }
    specialize (Ht3 eq_refl Ht1).
    destruct rc4 as [e|]; [injection E as <- <- <- <-; left; ands; try done; auto|].
    apply sbind_inv in E as (s5 & b5 & E5 & E). apply extract_flags_eq in E5 as [-> ->].
    injection E as <- <- <- <-. left. ands; try done; auto.
  - apply orb_false_iff in Ef as [Ef Ez]. cbn [set_socket rcvtimeo] in Ez, E. rewrite Hr1 in Ez, E.
    apply Z.eqb_neq in Ez. apply sbind_inv in E as (s3 & end_ & E3 & E).
    right. ands; [done..|].
    exists s2, s3, end_, (set_socket x b1), msg2, (negb (ticks (set_socket x b1) =? 0)). by ands.
Qed.

Lemma recv_counted rounds fuel msg flags b s s' a msg' b' :
  recv process_command rounds fuel msg flags b s = Done (s', (a, msg', b')) ->
  Msg.check msg = true -> a <> Err EINTR -> a <> Err ETERM -> a <> Blocked ->
  counted b b' s s'.
Proof.
  intros E Hck Hi Ht Hb. destruct (recv_cases _ _ _ _ _ _ _ _ _ _ E)
    as [(_ & _ & _ & _ & Hc)|(_ & _ & s1 & s2 & end_ & b1 & msg1 & bl & Hl1 & Hc & _ & Ed & Ew)].
  - destruct (Hc Hck) as [?|[?|[?|?]]]; done.
  - apply recv_wait_later in Ew as (Hl3 & Ho & [?|[?|Hid]]); [done..|].
    assert (Hl2 : later s1 s2).
    { unfold deadline in Ed. destruct (rcvtimeo b <? 0); [injection Ed as <- <-; by apply later_eq|].
      apply sbind_inv in Ed as (s3 & now & E1 & Ed). injection Ed as <- <-.
      destruct (law_now _ _ _ _ L _ _ _ E1) as (_ & ? & ? & ?). by apply later_law. }
    unfold counted, same_or_reset, later in *. lia.
Qed.

Lemma recvs_counted rounds fuel l : forall b s s' al b',
  recvs process_command rounds fuel l b s = Done (s', (al, b')) ->
  Forall (fun c => Msg.check c.1 = true) l ->
  Forall (fun a => a <> Err EINTR /\ a <> Err ETERM /\ a <> Blocked) al ->
  0 <= ticks b < inbound_poll_rate ->
  0 <= ticks b' < inbound_poll_rate /\ (idl s <= idl s')%nat /\
  ((idl s < idl s')%nat \/ ticks b' = ticks b + Z.of_nat (length l)).
Proof.
  induction l as [|[msg flags] l IH]; intros b s s' al b' E Hl Ha Hb; cbn [recvs] in E.
  { injection E as <- <- <-. simpl. lia. }
  apply sbind_inv in E as (s1 & [[a m1] b1] & E1 & E). apply sbind_inv in E as (s2 & [al2 b2] & E2 & E).
  injection E as <- <- <-. apply Forall_cons in Hl as [Hm Hl]. apply Forall_cons in Ha as [(Hi & Ht & Hbl) Ha].
  apply recv_counted in E1; [|done..]. unfold counted, inbound_poll_rate in *.
  apply IH in E2; [|done..|lia]. simpl. lia.
Qed.
End Time.

(** ** Properties *)

(** C25: when every wait of the mailbox ends, a call of [send] waits no more turns than commands arrive: one that
    has not answered after [rounds] turns ([Blocked]) has received [rounds] commands or, in one
    turn, more than [fuel].  It holds for every timeout, the default -1 (no limit) among
    them; with [ZMQ_DONTWAIT] or a timeout of 0 there is no turn to wait.  A call without a limit
    waits as long as the commands that come make no room, and never answers [EAGAIN]; one with a limit
    answers [EAGAIN] not before the whole timeout has passed.  And a call never answers as if nothing had
    happened once the context was terminated. *)
Theorem send_returns {X W C} `{SocketOps X W} `{Thread W C} process_command clock taken idle
    rounds fuel msg flags (b : base X) (s : env W) :
  total process_command -> laws process_command clock taken idle ->
  Msg.metadata msg = None -> 0 <= clock (e_pipes s) -> sndtimeo b < 2 ^ 31 ->
  exists s' a msg' b',
    send process_command rounds fuel msg flags b s = Done (s', (a, msg', b')) /\
    (a = Blocked ->
       (fuel < taken (e_pipes s') - taken (e_pipes s))%nat \/
       has_flag flags ZMQ_DONTWAIT = false /\ sndtimeo b <> 0) /\
    (clock (e_pipes s') < 2 ^ 63 -> clock (e_pipes s') - clock (e_pipes s) < 2 ^ 31 ->
     (a = Err EAGAIN -> has_flag flags ZMQ_DONTWAIT = true \/
        0 <= sndtimeo b /\ clock (e_pipes s) + sndtimeo b <= clock (e_pipes s')) /\
     (a = Blocked ->
        (fuel < taken (e_pipes s') - taken (e_pipes s))%nat \/
        (rounds <= taken (e_pipes s') - taken (e_pipes s))%nat) /\
     (ctx_terminated b = false ->
        a = Err ETERM \/ a = Err EINTR \/ a = Blocked \/ ctx_terminated b' = false)).
Proof.
  intros Ht L Hmd Hs0 Hto.
  destruct (send_total process_command Ht rounds fuel msg flags b Hmd s) as (s' & [[a msg'] b'] & E & _).
  exists s', a, msg', b'. split; [exact E|].
  destruct (send_cases process_command clock taken idle L _ _ _ _ _ _ _ _ _ _ E)
    as [(Hb & Hl & Ho & Hc & Ha)|(Hf & Hz & s1 & s2 & end_ & b1 & msg1 & Hl1 & Ho1 & Hc1 & Ed & Ew)].
  { split; [by left; auto|]. intros _ _. split; [|split; [by left; auto|done]].
    intros Ea. destruct (Ha Ea) as [?|Hz]; [by left|right]. rewrite Hz.
    unfold later in Hl. lia. }
  split; [by right|]. intros Hs1 Hs2.
  destruct (send_wait_later process_command clock taken idle L _ _ _ _ _ _ _ _ _ _ _ Ew) as [Hl3 _].
  unfold later in Hl1.
  destruct (deadline_on_time process_command clock taken idle L (sndtimeo b) s1 s2 s' end_ Ed) as (Hl2 & Hon & Hend);
    [unfold later in *; lia..|exact Hl3|].
  destruct (send_wait_spec process_command clock taken idle L _ _ _ _ _ _ _ _ _ _ _ Ew Hon) as (Ha & Hb & Hc).
  unfold later in *. split; [|split].
  - intros Ea. destruct (Ha Ea) as [Hpos Hle]. right. specialize (Hend Hpos). lia.
  - intros Ea. destruct (Hb Ea) as [?|Hr]; [left; lia|right; specialize (Hr Hz); lia].
  - intros Hct. apply Hc, Hc1, Hct.
Qed.

(** When every wait of the mailbox ends, a call of [recv] waits no more turns than commands arrive, one
    more when it starts by going through the commands without waiting; for every timeout, the
    default -1 (no limit) among them.  A call without a limit never answers [EAGAIN], one with a limit not
    before the whole timeout has passed.  And a call never answers as if nothing had happened once the
    context was terminated. *)
Theorem recv_returns {X W C} `{SocketOps X W} `{Thread W C} process_command clock taken idle
    rounds fuel msg flags (b : base X) (s : env W) :
  total process_command -> laws process_command clock taken idle ->
  0 <= clock (e_pipes s) -> rcvtimeo b < 2 ^ 31 ->
  exists s' a msg' b',
    recv process_command rounds fuel msg flags b s = Done (s', (a, msg', b')) /\
    (a = Blocked ->
       (fuel < taken (e_pipes s') - taken (e_pipes s))%nat \/
       has_flag flags ZMQ_DONTWAIT = false /\ rcvtimeo b <> 0) /\
    (clock (e_pipes s') < 2 ^ 63 -> clock (e_pipes s') - clock (e_pipes s) < 2 ^ 31 ->
     (a = Err EAGAIN -> has_flag flags ZMQ_DONTWAIT = true \/
        0 <= rcvtimeo b /\ clock (e_pipes s) + rcvtimeo b <= clock (e_pipes s')) /\
     (a = Blocked ->
        (fuel < taken (e_pipes s') - taken (e_pipes s))%nat \/
        (rounds <= 1 + (taken (e_pipes s') - taken (e_pipes s)))%nat) /\
     (ctx_terminated b = false ->
        a = Err ETERM \/ a = Err EINTR \/ a = Blocked \/ ctx_terminated b' = false)).
Proof.
  intros Ht L Hs0 Hto.
  destruct (recv_total process_command Ht rounds fuel msg flags b s) as (s' & [[a msg'] b'] & E & _).
  exists s', a, msg', b'. split; [exact E|].
  destruct (recv_cases process_command clock taken idle L _ _ _ _ _ _ _ _ _ _ E)
    as [(Hb & Hl & Hc & Ha & _)|(Hf & Hz & s1 & s2 & end_ & b1 & msg1 & bl & Hl1 & _ & Hc1 & Ed & Ew)].
  { split; [by left; auto|]. intros _ _. split; [|split; [by left; auto|done]].
    intros Ea. destruct (Ha Ea) as [?|Hz]; [by left|right]. rewrite Hz.
    unfold later in Hl. lia. }
  split; [by right|]. intros Hs1 Hs2.
  destruct (recv_wait_later process_command clock taken idle L _ _ _ _ _ _ _ _ _ _ _ _ Ew) as [Hl3 _].
  unfold later in Hl1.
  destruct (deadline_on_time process_command clock taken idle L (rcvtimeo b) s1 s2 s' end_ Ed) as (Hl2 & Hon & Hend);
    [unfold later in *; lia..|exact Hl3|].
  destruct (recv_wait_spec process_command clock taken idle L _ _ _ _ _ _ _ _ _ _ _ _ Ew Hon) as (Ha & Hb & Hc).
  unfold later in *. split; [|split].
  - intros Ea. destruct (Ha Ea) as [Hpos Hle]. right. specialize (Hend Hpos). lia.
  - intros Ea. destruct (Hb Ea) as [?|Hr]; [left; lia|right; specialize (Hr Hz); destruct bl; lia].
  - intros Hct. apply Hc, Hc1, Hct.
Qed.

(** Commands are not starved by messages: the counter stays in its range, and among any hundred calls of
    [recv] that are not interrupted one went through the commands until there was none. *)
Theorem recv_polls_commands {X W C} `{SocketOps X W} `{Thread W C} process_command clock taken idle
    rounds fuel l (b : base X) (s s' : env W) al b' :
  laws process_command clock taken idle ->
  recvs process_command rounds fuel l b s = Done (s', (al, b')) ->
  Forall (fun c => Msg.check c.1 = true) l ->
  Forall (fun a => a <> Err EINTR /\ a <> Err ETERM /\ a <> Blocked) al ->
  0 <= ticks b < inbound_poll_rate ->
  0 <= ticks b' < inbound_poll_rate /\
  (inbound_poll_rate <= Z.of_nat (length l) -> (idle (e_pipes s) < idle (e_pipes s'))%nat).
Proof.
  intros L E Hl Ha Hb.
  destruct (recvs_counted process_command clock taken idle L _ _ _ _ _ _ _ _ E Hl Ha Hb) as (H1 & H2 & H3).
  split; [done|]. lia.
Qed.

(** ** A laboratory

    Commands arrive at given times; signals interrupt.  The socket is the number of messages it can
    send or give. *)
Inductive lab_command : Type := Fill (n : nat) | Stop.
Record lab : Type := Lab { time : Z; mail : list (Z * option lab_command); took : nat; idled : nat }.

Definition lab_recv (t : Z) (s : env lab) : outcome (env lab * (errno + lab_command)) :=
  let w := e_pipes s in
  let nothing := Done (Env (e_mem s) (Lab (time w + Z.max t 0) (mail w) (took w) (S (idled w))), inl EAGAIN) in
  match mail w with
  | [] => if (t <? 0) then Done (s, inl EINTR) else nothing
  | (at_, c) :: l =>
    if (t <? 0) || (at_ <=? time w + t) then
      let now := Z.max (time w) at_ in
      match c with
      | None => Done (Env (e_mem s) (Lab now l (took w) (idled w)), inl EINTR)
      | Some c => Done (Env (e_mem s) (Lab now l (S (took w)) (idled w)), inr c)
      end
    else nothing
  end.

#[global] Instance lab_thread : Thread lab lab_command := {
  mailbox_recv := lab_recv;
  rdtsc := sret 0;
  now_ms := fun s => Done (s, time (e_pipes s))
}.

Definition lab_op (m : Msg.msg) (n : nat) : option errno * Msg.msg * nat :=
  match n with O => (Some EAGAIN, m, O) | S n => (None, Msg.init, n) end.

#[global] Instance lab_socket : SocketOps nat lab := {
  xsend := fun m n => sret (lab_op m n);
  xrecv := fun m n => sret (match lab_op m n with (e, _, n) => (e, Msg.init, n) end);
  xhas_in := fun n => sret (bool_decide (n <> O), n);
  xhas_out := fun n => sret (bool_decide (n <> O), n)
}.

Definition lab_process (c : lab_command) (b : base nat) : stm (env lab) (base nat) :=
  sret (match c with Fill n => set_socket (socket b + n)%nat b | Stop => process_stop b end).

Lemma lab_total : total lab_process.
Proof.
  split; intros; try (intros s; by eexists _, _).
  - intros [mem [now [|[at_ [c|]] l] k i]]; simpl; unfold lab_recv; simpl; repeat case_match; simplify_eq;
      eexists _, _; split; try reflexivity; simpl; auto.
  - intros s. eexists _, _. split; [reflexivity|]. by destruct x.
Qed.

Lemma lab_laws : laws lab_process time took idled.
Proof.
  split.
  - intros s s' t [= <- <-]. lia.
  - by intros s s' t [= <- _].
  - intros t [mem [now ml k i]] s' r. unfold mailbox_recv, lab_thread, lab_recv. simpl.
    intros E. repeat case_match; simplify_eq; simpl; split; try lia; split; try done; split; try done; intros; lia.
  - intros m x s s' r [= <- _]. lia.
  - intros m x s s' r [= <- _]. lia.
  - intros [n|] b s s' b' [= <- <-]; simpl; lia.
Qed.

Definition lab_base (n : nat) (timeo : Z) : base nat := Base n false 0 0 false timeo timeo false.

(** A command that makes no room comes after 4 ms, and one that does after 7; then none comes. *)
Definition lab_start (l : list (Z * option lab_command)) : env lab := Env Msg.memory0 (Lab 0 l 0 0).

Lemma send_returns_witness :
  (exists s' b', send lab_process 3 5 Msg.init 0 (lab_base 0 10) (lab_start [(4, Some (Fill 0)); (7, Some (Fill 1))])
     = Done (s', (Ok, Msg.init, b')) /\ time (e_pipes s') = 7) /\
  exists s' msg' b', send lab_process 3 5 Msg.init 0 (lab_base 0 10) (lab_start [(4, Some (Fill 0))])
     = Done (s', (Err EAGAIN, msg', b')) /\ 10 <= time (e_pipes s').
Proof.
  split; [eexists _, _; split; [vm_compute; reflexivity|reflexivity]|].
  destruct (send_returns lab_process time took idled 3 5 Msg.init 0 (lab_base 0 10)
    (lab_start [(4, Some (Fill 0))]) lab_total lab_laws eq_refl) as (s' & a & msg' & b' & E & _ & Hs); [simpl; lia..|].
  vm_compute in E. injection E as <- <- <- <-. eexists _, _, _. split; [vm_compute; reflexivity|].
  destruct Hs as (Ha & _); [simpl; lia..|]. destruct (Ha eq_refl) as [?|[_ Hle]]; [done|exact Hle].
Defined.

Lemma recv_returns_witness :
  (exists s' b', recv lab_process 3 5 Msg.init 0 (lab_base 0 10) (lab_start [(4, Some (Fill 0)); (7, Some (Fill 1))])
     = Done (s', (Ok, Msg.init, b')) /\ time (e_pipes s') = 7) /\
  exists s' msg' b', recv lab_process 3 5 Msg.init 0 (lab_base 0 10) (lab_start [(4, Some (Fill 0))])
     = Done (s', (Err EAGAIN, msg', b')) /\ 10 <= time (e_pipes s').
Proof.
  split; [eexists _, _; split; [vm_compute; reflexivity|reflexivity]|].
  destruct (recv_returns lab_process time took idled 3 5 Msg.init 0 (lab_base 0 10)
    (lab_start [(4, Some (Fill 0))]) lab_total lab_laws) as (s' & a & msg' & b' & E & _ & Hs); [simpl; lia..|].
  vm_compute in E. injection E as <- <- <- <-. eexists _, _, _. split; [vm_compute; reflexivity|].
  destruct Hs as (Ha & _); [simpl; lia..|]. destruct (Ha eq_refl) as [?|[_ Hle]]; [done|exact Hle].
Defined.

(** A hundred and twenty messages wait, and a command. *)
Lemma recv_polls_commands_witness :
  exists s' al b',
    recvs lab_process 3 5 (replicate 120 (Msg.init, 0)) (lab_base 120 10) (lab_start [(0, Some (Fill 1))])
      = Done (s', (al, b')) /\ Forall (fun a => a = Ok) al /\ (0 < idled (e_pipes s'))%nat /\ took (e_pipes s') = 1%nat.
Proof.
  assert (E : exists s' al b', recvs lab_process 3 5 (replicate 120 (Msg.init, 0)) (lab_base 120 10)
    (lab_start [(0, Some (Fill 1))]) = Done (s', (al, b')) /\ al = replicate 120 Ok /\ took (e_pipes s') = 1%nat).
  { assert (Hv : match recvs lab_process 3 5 (replicate 120 (Msg.init, 0)) (lab_base 120 10)
      (lab_start [(0, Some (Fill 1))]) with
      | Done (s', (al, b')) => al = replicate 120 Ok /\ took (e_pipes s') = 1%nat
      | Crash => False end) by (vm_compute; by split).
    destruct (recvs _ _ _ _ _ _) as [(s' & al & b')|]; [|done]. by exists s', al, b'. }
  destruct E as (s' & al & b' & E & Hal & Hk). exists s', al, b'. split; [exact E|]. rewrite Hal.
  split; [by apply Forall_replicate|]. split; [|exact Hk].
  refine (proj2 (recv_polls_commands lab_process time took idled 3 5 _ _ _ _ _ _ lab_laws E _ _ _) _).
  - by apply Forall_replicate.
  - rewrite Hal. apply Forall_replicate. clear. by split_and!.
  - simpl. unfold inbound_poll_rate. lia.
  - rewrite length_replicate. unfold inbound_poll_rate. lia.
Defined.

(** An interruption stops the polling.  The counter is incremented before the commands are
    processed and reset only after, so when a signal interrupts the hundredth call the counter stays at 100;
    it then passes 100 without being equal to it again, and as long as there are messages no call
    processes a command, here the one that tells that the context is terminated. *)
Theorem interrupted_poll_stops_polling n :
  exists s1 b1 msg,
    recv lab_process 3 5 Msg.init 0 (set_ticks 99 (lab_base n 10)) (lab_start [(0, None); (0, Some Stop)])
      = Done (s1, (Err EINTR, msg, b1)) /\
    exists b2,
      recvs lab_process 3 5 (replicate n (Msg.init, 0)) b1 s1 = Done (s1, (replicate n Ok, b2)) /\
      mail (e_pipes s1) = [(0, Some Stop)] /\ ctx_terminated b2 = false.
Proof.
  eexists _, _, _. split; [vm_compute; reflexivity|].
  cut (forall k t more, inbound_poll_rate <= t -> exists b2,
    recvs lab_process 3 5 (replicate k (Msg.init, 0)) (Base k false 0 t more 10 10 false)
      (Env Msg.memory0 (Lab 0 [(0, Some Stop)] 0 0)) =
    Done (Env Msg.memory0 (Lab 0 [(0, Some Stop)] 0 0), (replicate k Ok, b2)) /\ ctx_terminated b2 = false).
  { intros Hk. destruct (Hk n 100 false) as (b2 & E & ?); [done|]. exists b2. split; [exact E|done]. }
  induction k as [|k IH]; intros t more Ht; [by eexists|].
  destruct (IH (t + 1) false) as (b2 & E & Hb); [lia|]. exists b2. split; [|exact Hb].
  cbn [replicate recvs]. unfold recv, sbind. cbn [ctx_terminated Msg.check Msg.init Msg.fresh Msg.u negb ticks set_ticks
    last_tsc socket rcvmore sndtimeo rcvtimeo recv_routing_id].
  rewrite (proj2 (Z.eqb_neq (t + 1) inbound_poll_rate)) by lia. simpl.
  unfold set_rcvmore, set_socket, set_ticks. cbn [socket ctx_terminated last_tsc ticks rcvmore sndtimeo rcvtimeo recv_routing_id].
  change (msg_more Msg.init) with false. by rewrite E.
Qed.

End Sock.
