(* ===== verification/SocketPoller.v ===== *)
(** * SocketPoller: socket_poller_t (libzmq/src/socket_poller.cpp)

    A set of sockets and descriptors with the events each is watched for, and
    the wait for one of them, in the version built on [poll].  The system and the sockets are the
    class [PollOps]. *)

From S2P Require Import Prelude Pipes Sock.

Module SocketPoller.
Import Sock (answer(..), ZMQ_POLLIN, ZMQ_POLLOUT).

Definition ZMQ_POLLERR : Z := 4.
Definition ZMQ_POLLPRI : Z := 8.

(** The events of [poll]. *)
Definition POLLIN : Z := 1.
Definition POLLPRI : Z := 2.
Definition POLLOUT : Z := 4.

(** What the sockets and the system provide; [zmq_events] is the option [ZMQ_EVENTS],
    [poll] gives the [revents] of the descriptors or was interrupted. *)
Class PollOps (W : Type) : Type := {
  thread_safe : nat -> bool;
  zmq_fd : nat -> Z;
  zmq_events : nat -> stm W (errno + Z);
  add_signaler : nat -> stm W unit;
  remove_signaler : nat -> stm W unit;
  signaler_valid : stm W bool;
  signaler_recv : stm W unit;
  signaler_fd : Z;
  poll : list (Z * Z) -> Z -> stm W (option (list Z));
  usleep : Z -> stm W (option errno);
  now_ms : stm W Z
}.

Inductive target : Type := Socket (s : nat) | Fd (fd : Z).

#[global] Instance target_eq_dec : EqDecision target.
Proof. solve_decision. Defined.

Record item : Type := Item {
  it_target : target;
  user_data : nat;
  it_events : Z;
  pollfd_index : Z
}.

(** [pollfds] is empty when it is [NULL]; its [revents] are what the last [poll] gave. *)
Record poller : Type := Poller {
  items : list item;
  signaler : bool;
  need_rebuild : bool;
  use_signaler : bool;
  poll_size : Z;
  pollfds : list (Z * Z)
}.

Definition poller_new : poller := Poller [] false true false 0 [].

Definition set_items (l : list item) (p : poller) : poller :=
  Poller l (signaler p) true (use_signaler p) (poll_size p) (pollfds p).
Definition set_signaler (b : bool) (p : poller) : poller :=
  Poller (items p) b (need_rebuild p) (use_signaler p) (poll_size p) (pollfds p).

(** The searches of the methods. *)
Fixpoint find (t : target) (l : list item) : option nat :=
  match l with
  | [] => None
  | i :: l => if decide (it_target i = t) then Some O else S <$> find t l
  end.

Definition set_events (e : Z) (i : item) : item := Item (it_target i) (user_data i) e (pollfd_index i).

Section Ops.
Context {W : Type} `{PollOps W}.

(** The poller's own signaler, made for the first thread safe socket. *)
Definition make_signaler (p : poller) : stm W (option errno * poller) :=
  if signaler p then sret (None, p)
  else
    let! valid := signaler_valid in
    if valid then sret (None, set_signaler true p) else sret (Some EMFILE, p).

Definition add (s data : nat) (events_ : Z) (p : poller) : stm W (option errno * poller) :=
  match find (Socket s) (items p) with
  | Some _ => sret (Some EINVAL, p)
  | None =>
    let! (rc, p) := (if thread_safe s then
                       let! (rc, p) := make_signaler p in
                       match rc with
                       | None => add_signaler s ;;; sret (None, p)
                       | Some e => sret (Some e, p)
                       end
                     else sret (None, p)) in
    match rc with
    | Some e => sret (Some e, p)
    | None => sret (None, set_items (items p ++ [Item (Socket s) data events_ (-1)]) p)
    end
  end.

Definition add_fd (fd : Z) (data : nat) (events_ : Z) (p : poller) : option errno * poller :=
  match find (Fd fd) (items p) with
  | Some _ => (Some EINVAL, p)
  | None => (None, set_items (items p ++ [Item (Fd fd) data events_ (-1)]) p)
  end.

(** [modify] and [modify_fd] *)
Definition modify (t : target) (events_ : Z) (p : poller) : option errno * poller :=
  match find t (items p) with
  | None => (Some EINVAL, p)
  | Some n => (None, set_items (alter (set_events events_) n (items p)) p)
  end.

Definition remove_fd (fd : Z) (p : poller) : option errno * poller :=
  match find (Fd fd) (items p) with
  | None => (Some EINVAL, p)
  | Some n => (None, set_items (delete n (items p)) p)
  end.

Definition remove (s : nat) (p : poller) : stm W (option errno * poller) :=
  match find (Socket s) (items p) with
  | None => sret (Some EINVAL, p)
  | Some n =>
    let p := set_items (delete n (items p)) p in
    (if thread_safe s then remove_signaler s else sret tt) ;;;
    sret (None, p)
  end.

(** ** rebuild *)

(** The items of one descriptor each. *)
Definition has_fd (i : item) : bool :=
  negb (it_events i =? 0) && match it_target i with Socket s => negb (thread_safe s) | Fd _ => true end.
Definition via_signaler (i : item) : bool :=
  negb (it_events i =? 0) && match it_target i with Socket s => thread_safe s | Fd _ => false end.

Fixpoint count_items (l : list item) (use : bool) (size : Z) : bool * Z :=
  match l with
  | [] => (use, size)
  | i :: l =>
    if negb (it_events i =? 0) then
      if via_signaler i then
        if use then count_items l use size else count_items l true (size + 1)
      else count_items l use (size + 1)
    else count_items l use size
  end.

Definition poll_flags (e : Z) : Z :=
  Z.lor (Z.lor (if negb (Z.land e ZMQ_POLLIN =? 0) then POLLIN else 0)
               (if negb (Z.land e ZMQ_POLLOUT =? 0) then POLLOUT else 0))
        (if negb (Z.land e ZMQ_POLLPRI =? 0) then POLLPRI else 0).

Fixpoint fill (l : list item) (item_nbr : Z) (fds : list (Z * Z)) : outcome (list item * list (Z * Z)) :=
  match l with
  | [] => Done ([], fds)
  | i :: l =>
    let skip := let* (l, fds) := fill l item_nbr fds in Done (i :: l, fds) in
    if negb (it_events i =? 0) then
      match it_target i with
      | Socket s =>
        if negb (thread_safe s) then
          let* fds := set_z fds item_nbr (zmq_fd s, POLLIN) in
          let* (l, fds) := fill l (item_nbr + 1) fds in Done (i :: l, fds)
        else skip
      | Fd fd =>
        let* fds := set_z fds item_nbr (fd, poll_flags (it_events i)) in
        let* (l, fds) := fill l (item_nbr + 1) fds in
        Done (Item (it_target i) (user_data i) (it_events i) item_nbr :: l, fds)
      end
    else skip
  end.

(** [signaler->get_fd ()] needs the signaler. *)
Definition rebuild (p : poller) : outcome poller :=
  let (use, size) := count_items (items p) false 0 in
  if (size =? 0) then Done (Poller (items p) (signaler p) (need_rebuild p) use size [])
  else
    let fds := replicate (Z.to_nat size) (0, 0) in
    let* fds := (if use then zmq_assert (signaler p) (set_z fds 0 (signaler_fd, POLLIN)) else Done fds) in
    let* (l, fds) := fill (items p) (if use then 1 else 0) fds in
    Done (Poller l (signaler p) false use size fds).

(** ** wait *)

(** An entry of [events_]. *)
Record event : Type := Event { ev_target : target; ev_data : nat; ev_events : Z }.

Definition revents_events (r : Z) : Z :=
  Z.lor (Z.lor (Z.lor (if negb (Z.land r POLLIN =? 0) then ZMQ_POLLIN else 0)
                      (if negb (Z.land r POLLOUT =? 0) then ZMQ_POLLOUT else 0))
               (if negb (Z.land r POLLPRI =? 0) then ZMQ_POLLPRI else 0))
        (if negb (Z.land r (Z.lnot (Z.lor (Z.lor POLLIN POLLOUT) POLLPRI)) =? 0) then ZMQ_POLLERR else 0).

(** [room] is what is left of [n_events_]. *)
Fixpoint check_events (revents : list Z) (l : list item) (room : nat) : stm W (errno + list event) :=
  match l, room with
  | [], _ | _, O => sret (inr [])
  | i :: l, S room' =>
    let! e := match it_target i with
              | Socket s => let! r := zmq_events s in
                            sret match r with inl e => inl e | inr ev => inr (Z.land (it_events i) ev) end
              | Fd fd => let! r := slift (nth_z revents (pollfd_index i)) in sret (inr (revents_events r))
              end in
    match e with
    | inl e => sret (inl e)
    | inr ev =>
      if negb (ev =? 0) then
        let! r := check_events revents l room' in
        sret match r with inl e => inl e | inr evs => inr (Event (it_target i) (user_data i) ev :: evs) end
      else check_events revents l room
    end
  end.

(** [first_pass] and [end], as [None] and [Some end]; the answer is whether to go on. *)
Definition adjust_timeout (timeout_ : Z) (end_ : option Z) : stm W (bool * Z * option Z) :=
  if (timeout_ =? 0) then sret (false, 0, end_)
  else if (timeout_ <? 0) then sret (true, 0, Some 0)
  else
    let! now := now_ms in
    match end_ with
    | None => sret (true, now, Some (u64 (now + timeout_)))
    | Some e => sret (negb (e <=? now), now, end_)
    end.

(** The loop; one unit of [rounds] per pass. *)
Fixpoint wait_loop (rounds : nat) (p : poller) (n_events : nat) (timeout_ now : Z) (end_ : option Z)
  : stm W (answer * list event) :=
  match rounds with
  | O => sret (Blocked, [])
  | S rounds =>
    let timeout := match end_ with
                   | None => 0
                   | Some e => if (timeout_ <? 0) then -1 else i32 (u64 (e - now))
                   end in
    let! r := poll (pollfds p) timeout in
    match r with
    | None => sret (Err EINTR, [])
    | Some revents =>
      (if use_signaler p then
         let! r0 := slift (nth_z revents 0) in
         if negb (Z.land r0 POLLIN =? 0) then signaler_recv else sret tt
       else sret tt) ;;;
      let! found := check_events revents (items p) n_events in
      match found with
      | inl e => sret (Err e, [])
      | inr [] =>
        let! (go_on, now, end_) := adjust_timeout timeout_ end_ in
        if go_on then wait_loop rounds p n_events timeout_ now end_ else sret (Err EAGAIN, [])
      | inr evs => sret (Ok, evs)
      end
    end
  end.

Definition wait (rounds : nat) (n_events : nat) (timeout_ : Z) (p : poller) : stm W (answer * list event * poller) :=
  if bool_decide (items p = []) && (timeout_ <? 0) then sret (Err EFAULT, [], p)
  else
    let! p := (if need_rebuild p then slift (rebuild p) else sret p) in
    if (poll_size p =? 0) then
      if (timeout_ =? 0) then sret (Err EAGAIN, [], p)
      else
        let! e := usleep (timeout_ * 1000) in
        sret (Err (default EAGAIN e), [], p)
    else
      let! (rc, evs) := wait_loop rounds p n_events timeout_ 0 None in
      sret (rc, evs, p).

End Ops.

(** ** The set of what is watched *)

(** What a target is watched for, with its data. *)
Fixpoint watch (l : list item) (t : target) : option (nat * Z) :=
  match l with
  | [] => None
  | i :: l => if decide (it_target i = t) then Some (user_data i, it_events i) else watch l t
  end.

Definition distinct (p : poller) : Prop := NoDup (it_target <$> items p).

Lemma find_watch t l : is_Some (find t l) <-> is_Some (watch l t).
Proof.
  induction l as [|i l IH]; simpl; [done|]. destruct (decide (it_target i = t)); [by split; eauto|].
  rewrite fmap_is_Some. done.
Qed.

Lemma find_none t l : find t l = None <-> watch l t = None.
Proof. rewrite !eq_None_not_Some. by rewrite find_watch. Qed.

Lemma watch_none t l : watch l t = None <-> t ∉ (it_target <$> l).
Proof.
  induction l as [|i l IH]; simpl; [split; [intros _; apply not_elem_of_nil|done]|].
  rewrite not_elem_of_cons. destruct (decide (it_target i = t)) as [->|Hne]; naive_solver.
Qed.

Lemma sp_find_some t l n :
  find t l = Some n -> exists i, l !! n = Some i /\ it_target i = t.
Proof.
  revert n. induction l as [|i l IH]; intros n; simpl; [done|].
  destruct (decide (it_target i = t)) as [E|_]; [intros [= <-]; by exists i|].
  intros (m & Hm & ->)%fmap_Some. destruct (IH m Hm) as (j & ? & ?). by exists j.
Qed.

Lemma watch_app l i t : watch (l ++ [i]) t =
  match watch l t with Some x => Some x | None => if decide (it_target i = t) then Some (user_data i, it_events i) else None end.
Proof. induction l as [|j l IH]; simpl; [done|]. by destruct (decide (it_target j = t)). Qed.

Lemma watch_delete l n t t' :
  NoDup (it_target <$> l) -> find t l = Some n ->
  watch (delete n l) t' = if decide (t' = t) then None else watch l t'.
Proof.
  revert n. induction l as [|i l IH]; intros n; simpl; [done|]. rewrite NoDup_cons. intros [Hi Hn].
  destruct (decide (it_target i = t)) as [E|Hne].
  - intros [= <-]. simpl. subst t. destruct (decide (t' = it_target i)) as [->|Hd].
    + by apply watch_none.
    + by rewrite decide_False.
  - intros (m & Hm & ->)%fmap_Some. simpl. rewrite (IH m Hn Hm).
    destruct (decide (it_target i = t')) as [<-|]; [by rewrite decide_False|done].
Qed.

Lemma watch_alter l n t t' e :
  NoDup (it_target <$> l) -> find t l = Some n ->
  watch (alter (set_events e) n l) t' =
    if decide (t' = t) then (fun x => (fst x, e)) <$> watch l t else watch l t'.
Proof.
  revert n. induction l as [|i l IH]; intros n; [done|]. cbn [find fmap list_fmap]. rewrite NoDup_cons. intros [Hi Hn].
  destruct (decide (it_target i = t)) as [E|Hne].
  - intros [= <-]. change (alter (set_events e) O (i :: l)) with (set_events e i :: l). cbn [watch set_events it_target].
    subst t. destruct (decide (t' = it_target i)) as [->|Hd].
    + by rewrite !(decide_True (P := it_target i = it_target i)).
    + by destruct (decide (it_target i = t')).
  - intros (m & Hm & ->)%fmap_Some. change (alter (set_events e) (S m) (i :: l)) with (i :: alter (set_events e) m l).
    cbn [watch]. rewrite (IH m Hn Hm).
    destruct (decide (it_target i = t')) as [<-|]; [by rewrite !decide_False|].
    by rewrite (decide_False (P := it_target i = t)).
Qed.

Lemma targets_alter (l : list item) (n : nat) e : it_target <$> alter (set_events e) n l = it_target <$> l.
Proof. revert n. induction l as [|i l IH]; intros [|n]; try done. exact (f_equal (cons (it_target i)) (IH n)). Qed.

Lemma targets_delete (l : list item) (n : nat) : it_target <$> delete n l `sublist_of` it_target <$> l.
Proof. apply fmap_sublist, sublist_delete. Qed.

(** ** Rebuilding *)
Section Rebuild.
Context {W : Type} `{PollOps W}.

(** The items and the descriptors correspond. *)
Definition in_place (fds : list (Z * Z)) (i : item) : Prop :=
  match it_target i with
  | Socket s => True
  | Fd fd => it_events i <> 0 ->
      exists n, pollfd_index i = Z.of_nat n /\ fds !! n = Some (fd, poll_flags (it_events i))
  end.

Definition fd_count (l : list item) : nat := length (List.filter has_fd l).

(** What a rebuild leaves of an item. *)
Definition same_item (i i' : item) : Prop :=
  it_target i' = it_target i /\ user_data i' = user_data i /\ it_events i' = it_events i.

Record built (p : poller) : Prop := {
  b_length : Z.of_nat (length (pollfds p)) = poll_size p;
  b_signaler : use_signaler p = existsb via_signaler (items p);
  b_first : use_signaler p = true -> pollfds p !! 0%nat = Some (signaler_fd, POLLIN);
  b_items : Forall (in_place (pollfds p)) (items p)
}.

Lemma item_kind i :
  (it_events i =? 0) = true /\ has_fd i = false /\ via_signaler i = false \/
  (it_events i =? 0) = false /\ has_fd i = negb (via_signaler i).
Proof.
  unfold has_fd, via_signaler. destruct (it_events i =? 0); simpl; [by left|right].
  split; [done|]. by destruct (it_target i).
Qed.

Lemma count_items_spec l : forall use size,
  count_items l use size =
    (use || existsb via_signaler l,
     size + Z.of_nat (fd_count l) + (if negb use && existsb via_signaler l then 1 else 0)).
Proof.
  unfold fd_count. induction l as [|i l IH]; intros use size; simpl.
  { rewrite orb_false_r, andb_false_r. f_equal; lia. }
  destruct (item_kind i) as [(-> & -> & ->)|(-> & ->)]; cbn [negb].
  - rewrite IH. done.
  - destruct (via_signaler i); cbn [negb].
    + destruct use; rewrite IH; cbn [orb andb negb]; [done|]. f_equal. lia.
    + rewrite IH. cbn [orb]. f_equal. cbn [length]. lia.
Qed.

(** The positions from [n] on get the descriptors of the items; what was before stays. *)
Lemma sp_fill_spec l : forall n fds,
  (n + fd_count l <= length fds)%nat ->
  exists l' fds', fill l (Z.of_nat n) fds = Done (l', fds') /\
    length fds' = length fds /\ Forall2 same_item l l' /\ Forall (in_place fds') l' /\
    (forall k, (k < n)%nat -> fds' !! k = fds !! k).
Proof.
  unfold fd_count. induction l as [|i l IH]; intros n fds Hn; simpl.
  { exists [], fds. split_and!; try done; constructor. }
  destruct (item_kind i) as [(E0 & Eh & Ev)|(E0 & Eh)]; rewrite E0; cbn [negb].
  - simpl in Hn. rewrite Eh in Hn. destruct (IH n fds Hn) as (l' & fds' & E & Hl & Hs & Hp & Hk).
    rewrite E. simpl. exists (i :: l'), fds'. split_and!; try done; constructor; try done.
    unfold in_place. apply Z.eqb_eq in E0. by destruct (it_target i).
  - assert (Hh : has_fd i = match it_target i with Socket s => negb (thread_safe s) | Fd _ => true end).
    { unfold has_fd. by rewrite E0. }
    simpl in Hn. rewrite Hh in Hn. clear Eh Hh.
    destruct (it_target i) as [s|fd] eqn:Et.
    + destruct (thread_safe s) eqn:Es; cbn [negb] in *.
      * destruct (IH n fds Hn) as (l' & fds' & E & Hl & Hs & Hp & Hk).
        rewrite E. simpl. exists (i :: l'), fds'. split_and!; try done; constructor; try done.
        unfold in_place. by rewrite Et.
      * simpl in Hn. rewrite set_z_done by lia. simpl.
        replace (Z.of_nat n + 1) with (Z.of_nat (S n)) by lia.
        destruct (IH (S n) (<[n := (zmq_fd s, POLLIN)]> fds)) as (l' & fds' & E & Hl & Hs & Hp & Hk);
          [rewrite length_insert; lia|].
        rewrite Nat2Z.id, E. simpl. rewrite length_insert in Hl.
        exists (i :: l'), fds'. split_and!; try done; try (constructor; try done).
        -- unfold in_place. by rewrite Et.
        -- intros k Hk'. rewrite Hk by lia. apply list_lookup_insert_ne. lia.
    + simpl in Hn. rewrite set_z_done by lia. simpl.
      replace (Z.of_nat n + 1) with (Z.of_nat (S n)) by lia.
      destruct (IH (S n) (<[n := (fd, poll_flags (it_events i))]> fds)) as (l' & fds' & E & Hl & Hs & Hp & Hk);
        [rewrite length_insert; lia|].
      rewrite Nat2Z.id, E. simpl. rewrite length_insert in Hl. eexists _, fds'. split; [reflexivity|].
      split; [done|]. split; [constructor; [done|done]|]. split.
      * constructor; [|done]. unfold in_place. simpl. intros _. exists n. split; [done|].
        rewrite Hk by lia. apply list_lookup_insert_eq. lia.
      * intros k Hk'. rewrite Hk by lia. apply list_lookup_insert_ne. lia.
Qed.

(** A thread safe socket is there only with a signaler. *)
Definition signalled (p : poller) : Prop :=
  Forall (fun i => match it_target i with Socket s => thread_safe s = true -> signaler p = true | Fd _ => True end)
    (items p).

Lemma via_signaler_signalled p : signalled p -> existsb via_signaler (items p) = true -> signaler p = true.
Proof.
  unfold signalled. intros Hs (i & Hi & Hv)%existsb_exists. apply list_elem_of_In in Hi.
  rewrite Forall_forall in Hs. specialize (Hs i Hi). unfold via_signaler in Hv.
  apply andb_true_iff in Hv as [_ Hv]. destruct (it_target i); [auto|done].
Qed.

Lemma rebuild_spec p :
  signalled p ->
  exists p', rebuild p = Done p' /\ signaler p' = signaler p /\ Forall2 same_item (items p) (items p') /\
    ((poll_size p' <> 0 /\ need_rebuild p' = false /\ built p') \/
     (poll_size p' = 0 /\ need_rebuild p' = need_rebuild p)).
Proof.
  intros Hs. unfold rebuild. rewrite count_items_spec. cbn [orb negb andb].
  assert (Hsame : forall l, Forall2 same_item l l) by (intros l; induction l as [|i l IH]; constructor; [by repeat split|exact IH]).
  set (use := existsb via_signaler (items p)). set (size := 0 + _ + _).
  destruct (Z.eqb_spec size 0) as [E|Hne].
  { eexists. split; [reflexivity|]. simpl. split_and!; try done. by right. }
  assert (Hsig : use = true -> signaler p = true) by apply via_signaler_signalled, Hs.
  set (fds0 := replicate (Z.to_nat size) (0, 0)).
  assert (Hl0 : length fds0 = Z.to_nat size) by apply length_replicate.
  set (n0 := if use then 1%nat else 0%nat).
  assert (Hsz : size = Z.of_nat (n0 + fd_count (items p))) by (unfold size, n0; destruct use; lia).
  assert (Hfirst : exists fds1, (if use then zmq_assert (signaler p) (set_z fds0 0 (signaler_fd, POLLIN)) else Done fds0)
      = Done fds1 /\ length fds1 = length fds0 /\ (use = true -> fds1 !! 0%nat = Some (signaler_fd, POLLIN))).
  { unfold n0 in Hsz. destruct use.
    - rewrite Hsig by done. unfold zmq_assert. rewrite set_z_done by lia. eexists. split; [reflexivity|].
      rewrite length_insert. split; [done|]. intros _. apply list_lookup_insert_eq. lia.
    - by exists fds0. }
  destruct Hfirst as (fds1 & E1 & Hl1 & H1). rewrite E1. simpl.
  destruct (sp_fill_spec (items p) n0 fds1) as (l' & fds' & E2 & Hl2 & Hs2 & Hp2 & Hk2); [lia|].
  replace (if use then 1 else 0) with (Z.of_nat n0) by (unfold n0; by destruct use). rewrite E2. simpl.
  eexists. split; [reflexivity|]. simpl. split; [done|]. split; [done|]. left. split_and!; try done.
  split; simpl; [lia| | |done].
  - unfold use. clear -Hs2. induction Hs2 as [|i i' l l' (Et & _ & Ee) _ IH]; simpl; [done|].
    rewrite IH. f_equal. unfold via_signaler. by rewrite Et, Ee.
  - intros Hu. rewrite Hk2; [by apply H1|]. unfold n0. rewrite Hu. lia.
Qed.

(** ** Waiting *)

(** What the system says of the sockets and of the descriptors. *)
Record poll_laws (ready : W -> nat -> Z) (sys : W -> Z * Z -> Z) : Prop := {
  law_zmq_events s w w' r : zmq_events s w = Done (w', r) ->
    ready w' = ready w /\ match r with inr z => z = ready w s | inl e => e = EINTR \/ e = ETERM end;
  law_poll fds t w w' r : poll fds t w = Done (w', Some r) -> r = map (sys w') fds
}.

Definition happens (rev : Z * Z -> Z) (ready : nat -> Z) (i : item) : Z :=
  match it_target i with
  | Socket s => Z.land (it_events i) (ready s)
  | Fd fd => revents_events (rev (fd, poll_flags (it_events i)))
  end.

Definition happened (rev : Z * Z -> Z) (ready : nat -> Z) (l : list item) : list event :=
  omap (fun i => let e := happens rev ready i in
    if (e =? 0) then None else Some (Event (it_target i) (user_data i) e)) l.

(** Every descriptor is watched for something. *)
Definition fds_watched (l : list item) : Prop :=
  Forall (fun i => match it_target i with Fd _ => it_events i <> 0 | Socket _ => True end) l.

Context (ready : W -> nat -> Z) (sys : W -> Z * Z -> Z) (L : poll_laws ready sys).

Lemma check_events_spec rev fds l : forall room w w' r,
  Forall (in_place fds) l -> fds_watched l ->
  check_events (map rev fds) l room w = Done (w', r) ->
  (exists e, r = inl e /\ (e = EINTR \/ e = ETERM)) \/ (r = inr (take room (happened rev (ready w) l)) /\ ready w' = ready w).
Proof.
  induction l as [|i l IH]; intros room w w' r Hp Hw E; simpl in E.
  { injection E as <- <-. right. by destruct room. }
  destruct room as [|room]; [injection E as <- <-; by right|].
  apply Forall_cons in Hp as [Hi Hp]. apply Forall_cons in Hw as [Hwi Hw].
  apply sbind_inv in E as (w1 & e & E1 & E).
  assert (He : (exists x, e = inl x /\ (x = EINTR \/ x = ETERM)) \/ (e = inr (happens rev (ready w) i) /\ ready w1 = ready w)).
  { unfold happens, in_place in *. destruct (it_target i) as [s|fd].
    - apply sbind_inv in E1 as (w2 & r2 & E2 & E1). injection E1 as <- <-.
      destruct (law_zmq_events _ _ L _ _ _ _ E2) as [Hr Hz]. destruct r2 as [x|z]; [left; eauto|right].
      by rewrite Hz.
    - destruct (Hi Hwi) as (n & Hn & Hf). right.
      apply sbind_inv in E1 as (w2 & r2 & E2 & E1). injection E1 as <- <-.
      unfold slift in E2. rewrite (nth_z_done _ _ (rev (fd, poll_flags (it_events i)))) in E2;
        [|lia|by rewrite Hn, Nat2Z.id, list_lookup_fmap, Hf].
      by injection E2 as <- <-. }
  destruct He as [(x & -> & Hx)|[-> Hr]]; [injection E as <- <-; left; eauto|].
  unfold happened. cbn [omap list_omap]. destruct (happens rev (ready w) i =? 0) eqn:Ez; cbn [negb] in E.
  - destruct (IH _ _ _ _ Hp Hw E) as [?|[-> Hr']]; [by left|right]. rewrite Hr in *. done.
  - apply sbind_inv in E as (w2 & r2 & E2 & E). injection E as <- <-.
    destruct (IH _ _ _ _ Hp Hw E2) as [(x & -> & Hx)|[-> Hr']]; [left; eauto|right]. rewrite Hr in *. done.
Qed.

(** One pass of the loop that asked the system and the sockets: [poll] answers in [w], with what
    [sys] says in the world it leaves, the signal may be received, and the sockets are asked. *)
Definition pass (fds : list (Z * Z)) (l : list item) (n_events : nat) (w w' : W) (evs : list event) : Prop :=
  exists t w1 w2, poll fds t w = Done (w1, Some (map (sys w1) fds)) /\
    (w2 = w1 \/ signaler_recv w1 = Done (w2, tt)) /\
    evs = take n_events (happened (sys w1) (ready w2) l) /\ ready w' = ready w2.

(** A look at the clock, or none. *)
Definition glance (w w' : W) : Prop := w' = w \/ exists t, now_ms w = Done (w', t).

(** [k] passes that find nothing. *)
Fixpoint passes (fds : list (Z * Z)) (l : list item) (n_events : nat) (k : nat) (w w' : W) : Prop :=
  match k with
  | O => w' = w
  | S k => exists w1 w2, pass fds l n_events w w1 [] /\ glance w1 w2 /\ passes fds l n_events k w2 w'
  end.

(** What a wait did, by what it answers. *)
Definition waited (fds : list (Z * Z)) (l : list item) (n_events rounds : nat) (timeout_ : Z) (w w' : W)
  (rc : answer) (evs : list event) : Prop :=
  match rc with
  | Ok => evs <> [] /\ exists k wl, (k < rounds)%nat /\ passes fds l n_events k w wl /\ pass fds l n_events wl w' evs
  | Err e => evs = [] /\ (e = EINTR \/ e = ETERM \/
      e = EAGAIN /\ (timeout_ = 0 /\ pass fds l n_events w w' [] \/
                     0 < timeout_ /\ exists k, (k < rounds)%nat /\ passes fds l n_events (S k) w w'))
  | Blocked => evs = [] /\ passes fds l n_events rounds w w'
  end.

Lemma waited_later fds l n rounds timeout_ w w1 w2 w' rc evs :
  timeout_ <> 0 -> pass fds l n w w1 [] -> glance w1 w2 ->
  waited fds l n rounds timeout_ w2 w' rc evs -> waited fds l n (S rounds) timeout_ w w' rc evs.
Proof.
  intros Ht Hp Hc. assert (Hk : forall k v, passes fds l n k w2 v -> passes fds l n (S k) w v) by (intros; by exists w1, w2).
  unfold waited. destruct rc as [|e|].
  - intros (He & k & wl & Hlt & Hk' & Hl). split; [done|]. exists (S k), wl. split; [lia|]. split; [by apply Hk|done].
  - intros (He & H2). split; [done|]. destruct H2 as [?|[?|(? & [[? _]|(? & k & Hlt & Hk')])]]; auto; [done|].
    right; right. split; [done|]. right. split; [done|]. exists (S k). split; [lia|by apply Hk].
  - intros [? ?]. split; [done|by apply Hk].
Qed.

Lemma adjust_timeout_spec timeout_ end_ w w' go now end' :
  adjust_timeout timeout_ end_ w = Done (w', (go, now, end')) ->
  timeout_ = 0 /\ w' = w /\ go = false \/ timeout_ <> 0 /\ glance w w' /\ (go = false -> 0 < timeout_).
Proof.
  unfold adjust_timeout, glance. destruct (Z.eqb_spec timeout_ 0) as [E0|Hne].
  - intros [= <- <- _ _]. by left.
  - intros E. right. split; [done|]. destruct (Z.ltb_spec timeout_ 0).
    + injection E as <- <- _ _. split; [by left|done].
    + apply sbind_inv in E as (w1 & t & E1 & E). assert (w1 = w') as -> by (destruct end_; by injection E).
      split; [eauto|lia].
Qed.

Lemma wait_loop_spec rounds p n_events timeout_ : forall now end_ w w' rc evs,
  built p -> fds_watched (items p) ->
  wait_loop rounds p n_events timeout_ now end_ w = Done (w', (rc, evs)) ->
  waited (pollfds p) (items p) n_events rounds timeout_ w w' rc evs.
Proof.
  induction rounds as [|rounds IH]; intros now end_ w w' rc evs Hb Hw E; cbn [wait_loop] in E.
  { by injection E as <- <- <-. }
  apply sbind_inv in E as (w1 & r & E1 & E).
  destruct r as [revents|]; [|injection E as <- <- <-; split; auto].
  pose proof (law_poll _ _ L _ _ _ _ _ E1) as ->.
  apply sbind_inv in E as (w2 & u & E2 & E). apply sbind_inv in E as (w3 & found & E3 & E).
  assert (Hdrain : w2 = w1 \/ signaler_recv w1 = Done (w2, tt)).
  { destruct (use_signaler p); [|injection E2; auto]. apply sbind_inv in E2 as (w4 & r0 & E4 & E2).
    assert (w4 = w1) as -> by (unfold slift in E4; destruct (nth_z _ _); [by injection E4|done]).
    destruct (negb _); [right; by destruct u|injection E2; auto]. }
  destruct (check_events_spec (sys w1) (pollfds p) (items p) _ _ _ _ (b_items _ Hb) Hw E3)
    as [(e & -> & He)|[-> Hr]]; [injection E as <- <- <-; split; [done|naive_solver]|].
  assert (Hpass : pass (pollfds p) (items p) n_events w w3 (take n_events (happened (sys w1) (ready w2) (items p)))).
  { by eexists _, w1, w2. }
  destruct (take n_events (happened (sys w1) (ready w2) (items p))) as [|ev evs'] eqn:Ev.
  - apply sbind_inv in E as (w4 & [[go now'] end'] & E4 & E).
    apply adjust_timeout_spec in E4 as [(Ht & -> & ->)|(Ht & Hg & Hgo)].
    + injection E as <- <- <-. split; [done|]. auto 6.
    + destruct go; [by eapply waited_later, IH|]. injection E as <- <- <-. split; [done|].
      right; right. split; [done|]. right. split; [by apply Hgo|]. exists O. split; [lia|]. by exists w3, w4.
  - injection E as <- <- <-. split; [done|]. exists O, w. split; [lia|]. done.
Qed.

(** None of the operations aborts. *)
Record poll_total : Prop := {
  total_events s : succeeds (zmq_events s) (fun _ => True);
  total_add s : succeeds (add_signaler s) (fun _ => True);
  total_remove s : succeeds (remove_signaler s) (fun _ => True);
  total_valid : succeeds signaler_valid (fun _ => True);
  total_recv : succeeds signaler_recv (fun _ => True);
  total_poll fds t : succeeds (poll fds t) (fun _ => True);
  total_usleep t : succeeds (usleep t) (fun _ => True);
  total_now : succeeds now_ms (fun _ => True)
}.
Context (T : poll_total).

Lemma check_events_total rev fds l : forall room,
  Forall (in_place fds) l -> fds_watched l ->
  succeeds (check_events (map rev fds) l room) (fun _ => True).
Proof.
  induction l as [|i l IH]; intros room Hp Hw; simpl; [by apply succeeds_ret|].
  destruct room as [|room]; [by apply succeeds_ret|].
  apply Forall_cons in Hp as [Hi Hp]. apply Forall_cons in Hw as [Hwi Hw].
  eapply (succeeds_bind _ _ (fun _ => True)).
  - unfold in_place in Hi. destruct (it_target i) as [s|fd].
    + eapply succeeds_bind; [apply T|]. intros r _. by apply succeeds_ret.
    + destruct (Hi Hwi) as (n & Hn & Hf). intros w. unfold slift.
      unfold sbind. rewrite (nth_z_done _ _ (rev (fd, poll_flags (it_events i))));
        [|lia|by rewrite Hn, Nat2Z.id, list_lookup_fmap, Hf]. simpl. by eexists _, _.
  - intros [e|ev] _; [by apply succeeds_ret|]. destruct (negb (ev =? 0)).
    + eapply succeeds_bind; [by apply IH|]. intros r _. by apply succeeds_ret.
    + by apply IH.
Qed.

Lemma wait_loop_total rounds p n_events timeout_ : forall now end_,
  built p -> poll_size p <> 0 -> fds_watched (items p) ->
  succeeds (wait_loop rounds p n_events timeout_ now end_) (fun _ => True).
Proof.
  induction rounds as [|rounds IH]; intros now end_ Hb Hz Hw; cbn [wait_loop]; [by apply succeeds_ret|].
  intros w. destruct (total_poll T (pollfds p) (match end_ with None => 0 | Some e => if timeout_ <? 0 then -1 else i32 (u64 (e - now)) end) w)
    as (w1 & r & E & _). rewrite (sbind_done _ _ _ _ _ E). destruct r as [revents|]; [|by eexists _, _].
  apply (law_poll _ _ L) in E. subst revents. revert w1. intros w1.
  refine (succeeds_bind _ _ (fun _ => True) _ _ _ w1).
  - destruct (use_signaler p) eqn:Eu; [|by apply succeeds_ret].
    intros w2. unfold slift, sbind. rewrite (nth_z_done _ _ (sys w1 (signaler_fd, POLLIN)));
      [|done|change (Z.to_nat 0) with O; by rewrite list_lookup_fmap, (b_first _ Hb Eu)]. simpl.
    destruct (negb _); [by apply T|by eexists _, _].
  - intros _ _. eapply succeeds_bind; [apply check_events_total; [apply Hb|done]|].
    intros [e|[|ev evs]] _; try by apply succeeds_ret.
    eapply (succeeds_bind _ _ (fun _ => True)).
    + unfold adjust_timeout. destruct (timeout_ =? 0); [by apply succeeds_ret|].
      destruct (timeout_ <? 0); [by apply succeeds_ret|].
      eapply succeeds_bind; [apply T|]. intros t _. destruct end_; by apply succeeds_ret.
    + intros [[go now'] end'] _. destruct go; [by apply IH|by apply succeeds_ret].
Qed.

(** ** The invariant of the methods *)
Record ok (p : poller) : Prop := {
  ok_distinct : distinct p;
  ok_signalled : signalled p;
  ok_built : need_rebuild p = false -> built p /\ poll_size p <> 0
}.

Lemma sp_ok_new : ok poller_new.
Proof. split; [apply NoDup_nil_2|constructor|done]. Qed.

Lemma ok_set_items l p :
  NoDup (it_target <$> l) ->
  Forall (fun i => match it_target i with Socket s => thread_safe s = true -> signaler p = true | Fd _ => True end) l ->
  ok (set_items l p).
Proof. intros Hn Hs. by split. Qed.

Lemma ok_set_signaler p : ok p -> ok (set_signaler true p).
Proof.
  intros [Hd Hs Hb]. split; [done| |by intros E; destruct (Hb E) as [[] ?]].
  unfold signalled in *. simpl. eapply Forall_impl; [exact Hs|]. intros i _. simpl. by destruct (it_target i).
Qed.

(** The calls that change the set. *)
Inductive call : Type :=
| Add (s data : nat) (e : Z)
| AddFd (fd : Z) (data : nat) (e : Z)
| Modify (t : target) (e : Z)
| Remove (s : nat)
| RemoveFd (fd : Z).

Definition run_call (c : call) (p : poller) : stm W (option errno * poller) :=
  match c with
  | Add s d e => add s d e p
  | AddFd fd d e => sret (add_fd fd d e p)
  | Modify t e => sret (modify t e p)
  | Remove s => remove s p
  | RemoveFd fd => sret (remove_fd fd p)
  end.

(** What a call does to the finite map of what is watched. *)
Definition put (t : target) (x : option (nat * Z)) (m : target -> option (nat * Z)) : target -> option (nat * Z) :=
  fun t' => if decide (t' = t) then x else m t'.

Definition spec_call (c : call) (m : target -> option (nat * Z)) : option errno * (target -> option (nat * Z)) :=
  let insert t d e := match m t with Some _ => (Some EINVAL, m) | None => (None, put t (Some (d, e)) m) end in
  let take_out t := match m t with Some _ => (None, put t None m) | None => (Some EINVAL, m) end in
  match c with
  | Add s d e => insert (Socket s) d e
  | AddFd fd d e => insert (Fd fd) d e
  | Modify t e => match m t with Some (d, _) => (None, put t (Some (d, e)) m) | None => (Some EINVAL, m) end
  | Remove s => take_out (Socket s)
  | RemoveFd fd => take_out (Fd fd)
  end.

Lemma distinct_snoc l i :
  NoDup (it_target <$> l) -> watch l (it_target i) = None -> NoDup (it_target <$> l ++ [i]).
Proof.
  intros Hn Hi. rewrite fmap_app. apply NoDup_app. split; [done|]. split.
  - intros x Hx ->%list_elem_of_singleton. by apply watch_none in Hi.
  - apply NoDup_singleton.
Qed.

Lemma insert_spec p t d e :
  ok p -> watch (items p) t = None ->
  (match t with Socket s => thread_safe s = true -> signaler p = true | Fd _ => True end) ->
  ok (set_items (items p ++ [Item t d e (-1)]) p) /\
  forall t', watch (items p ++ [Item t d e (-1)]) t' = put t (Some (d, e)) (watch (items p)) t'.
Proof.
  intros [Hd Hs _] Ht Hsig. split.
  - apply ok_set_items; [by apply distinct_snoc|]. apply Forall_app. split; [exact Hs|]. by apply Forall_singleton.
  - intros t'. rewrite watch_app. unfold put. simpl. destruct (decide (t' = t)) as [->|Hne].
    + by rewrite Ht, decide_True.
    + rewrite decide_False by congruence. by destruct (watch (items p) t').
Qed.

Lemma delete_spec p n t :
  ok p -> find t (items p) = Some n ->
  ok (set_items (delete n (items p)) p) /\
  forall t', watch (delete n (items p)) t' = put t None (watch (items p)) t'.
Proof.
  intros [Hd Hs _] Hf. split.
  - apply ok_set_items; [by eapply sublist_NoDup, targets_delete|].
    by apply Forall_delete.
  - intros t'. by rewrite (watch_delete _ _ t) by done.
Qed.

Lemma alter_spec p n t e :
  ok p -> find t (items p) = Some n ->
  ok (set_items (alter (set_events e) n (items p)) p) /\
  forall t', watch (alter (set_events e) n (items p)) t' =
    put t ((fun x => (fst x, e)) <$> watch (items p) t) (watch (items p)) t'.
Proof.
  intros [Hd Hs _] Hf. split.
  - apply ok_set_items; [by rewrite targets_alter|]. unfold signalled in Hs.
    apply Forall_alter; [exact Hs|]. by intros [].
  - intros t'. by rewrite (watch_alter _ _ t) by done.
Qed.

Lemma make_signaler_spec p w w' rc p' :
  ok p -> make_signaler p w = Done (w', (rc, p')) ->
  items p' = items p /\ ((rc = None /\ signaler p' = true /\ ok p') \/ (rc = Some EMFILE /\ p' = p)).
Proof.
  unfold make_signaler. intros Ho E. destruct (signaler p) eqn:Es; [injection E as <- <- <-; auto|].
  apply sbind_inv in E as (w1 & v & E1 & E). destruct v; injection E as <- <- <-; [|auto].
  split; [done|]. left. split_and!; try done. by apply ok_set_signaler.
Qed.

Lemma sp_run_call_spec c p w w' rc p' :
  ok p -> run_call c p w = Done (w', (rc, p')) ->
  ok p' /\
  ((rc = (spec_call c (watch (items p))).1 /\
    forall t, watch (items p') t = (spec_call c (watch (items p))).2 t) \/
   (rc = Some EMFILE /\ p' = p)).
Proof.
  intros Ho. destruct c as [s d e|fd d e|t e|s|fd]; simpl.
  - unfold add. destruct (find (Socket s) (items p)) eqn:Ef.
    + intros [= <- <- <-]. destruct (proj1 (find_watch _ _) (mk_is_Some _ _ Ef)) as [x ->]. auto.
    + apply find_none in Ef. rewrite Ef. intros E. apply sbind_inv in E as (w1 & [rc1 p1] & E1 & E).
      assert (Hp1 : items p1 = items p /\ ((rc1 = None /\ ok p1 /\ (thread_safe s = true -> signaler p1 = true)) \/
        (rc1 = Some EMFILE /\ p1 = p))).
      { destruct (thread_safe s); [|injection E1 as <- <- <-; split; [done|by left]].
        apply sbind_inv in E1 as (w2 & [rc2 p2] & E2 & E1).
        apply make_signaler_spec in E2 as [Hi [(-> & Hs & Hok)|[-> ->]]]; [| |exact Ho].
        - apply sbind_inv in E1 as (w3 & u & E3 & E1). injection E1 as <- <- <-. split; [done|by left].
        - injection E1 as <- <- <-. split; [done|by right]. }
      destruct Hp1 as [Hi [(-> & Hok & Hs)|[-> ->]]]; injection E as <- <- <-; [|by split; [|right]].
      rewrite Hi. destruct (insert_spec p1 (Socket s) d e Hok) as [Hok' Hw]; [by rewrite Hi|done|].
      rewrite Hi in Hok', Hw. split; [done|]. left. split; [done|]. exact Hw.
  - intros [= <- E]. unfold add_fd in E. destruct (find (Fd fd) (items p)) eqn:Ef; injection E as <- <-.
    + destruct (proj1 (find_watch _ _) (mk_is_Some _ _ Ef)) as [x ->]. auto.
    + apply find_none in Ef. rewrite Ef.
      destruct (insert_spec p (Fd fd) d e Ho Ef I) as [Hok' Hw]. split; [done|]. left. split; [done|exact Hw].
  - intros [= <- E]. unfold modify in E. destruct (find t (items p)) as [n|] eqn:Ef; injection E as <- <-.
    + destruct (alter_spec p n t e Ho Ef) as [Hok' Hw].
      destruct (proj1 (find_watch _ _) (mk_is_Some _ _ Ef)) as [[d e0] Ew]. rewrite Ew in *.
      split; [done|]. left. split; [done|exact Hw].
    + apply find_none in Ef. rewrite Ef. auto.
  - unfold remove. destruct (find (Socket s) (items p)) as [n|] eqn:Ef.
    + intros E. apply sbind_inv in E as (w1 & u & E1 & E). injection E as <- <- <-.
      destruct (delete_spec p n _ Ho Ef) as [Hok' Hw].
      destruct (proj1 (find_watch _ _) (mk_is_Some _ _ Ef)) as [x ->].
      split; [done|]. left. split; [done|exact Hw].
    + intros [= <- <- <-]. apply find_none in Ef. rewrite Ef. auto.
  - intros [= <- E]. unfold remove_fd in E. destruct (find (Fd fd) (items p)) as [n|] eqn:Ef; injection E as <- <-.
    + destruct (delete_spec p n _ Ho Ef) as [Hok' Hw].
      destruct (proj1 (find_watch _ _) (mk_is_Some _ _ Ef)) as [x ->].
      split; [done|]. left. split; [done|exact Hw].
    + apply find_none in Ef. rewrite Ef. auto.
Qed.

Lemma same_item_watch l l' t : Forall2 same_item l l' -> watch l' t = watch l t.
Proof.
  induction 1 as [|i i' l l' (Et & Ed & Ee) _ IH]; simpl; [done|]. by rewrite Et, Ed, Ee, IH.
Qed.

Lemma same_item_targets l l' : Forall2 same_item l l' -> it_target <$> l' = it_target <$> l.
Proof. induction 1 as [|i i' l l' (Et & _) _ IH]; [done|]. rewrite !fmap_cons. by rewrite Et, IH. Qed.

Lemma same_item_happened rev rd l l' : Forall2 same_item l l' -> happened rev rd l' = happened rev rd l.
Proof.
  unfold happened. induction 1 as [|i i' l l' (Et & Ed & Ee) _ IH]; [done|].
  cbn [omap list_omap]. unfold happens in *. by rewrite Et, Ed, Ee, IH.
Qed.

Lemma same_item_fds l l' : Forall2 same_item l l' -> fds_watched l -> fds_watched l'.
Proof.
  unfold fds_watched. induction 1 as [|i i' l l' (Et & _ & Ee) _ IH]; [done|].
  rewrite !Forall_cons, Et, Ee. naive_solver.
Qed.

Lemma same_item_signalled p p' :
  signaler p' = signaler p -> Forall2 same_item (items p) (items p') -> signalled p -> signalled p'.
Proof.
  unfold signalled. intros ->. induction 1 as [|i i' l l' (Et & _) _ IH]; [done|].
  rewrite !Forall_cons, Et. naive_solver.
Qed.

(** Something is watched for. *)
Definition watching (l : list item) : bool := existsb (fun i => negb (it_events i =? 0)) l.

Lemma watching_counts l :
  watching l = true -> existsb via_signaler l = false -> (0 < fd_count l)%nat.
Proof.
  unfold watching, fd_count. induction l as [|i l IH]; simpl; [done|].
  destruct (item_kind i) as [(-> & -> & ->)|(-> & ->)]; cbn [negb orb]; [auto|].
  intros _ [-> _]%orb_false_iff. simpl. lia.
Qed.

(** What the first lines of [wait] make of the poller. *)
Lemma prepare_spec p :
  ok p ->
  exists p', (if need_rebuild p then rebuild p else Done p) = Done p' /\ ok p' /\
    Forall2 same_item (items p) (items p') /\
    (poll_size p' <> 0 -> built p') /\ (watching (items p) = true -> poll_size p' <> 0).
Proof.
  intros Ho. destruct (need_rebuild p) eqn:En.
  - destruct (rebuild_spec p (ok_signalled _ Ho)) as (p' & E & Hsg & Hs & Hb). exists p'. split; [done|].
    split.
    { split; [unfold distinct; rewrite (same_item_targets _ _ Hs); apply Ho| |].
      - by eapply same_item_signalled, Ho.
      - intros Hn. destruct Hb as [(? & ? & ?)|[? Hc]]; [done|congruence]. }
    split; [done|]. split; [intros Hz; by destruct Hb as [(? & ? & ?)|[? _]]|].
    intros Hw Hz. clear -E Hw Hz. unfold rebuild in E. rewrite count_items_spec in E. cbn [orb negb andb] in E.
    pose proof (watching_counts _ Hw) as Hc. destruct (Z.eqb_spec (0 + Z.of_nat (fd_count (items p)) +
      (if existsb via_signaler (items p) then 1 else 0)) 0) as [E0|Hne].
    + destruct (existsb via_signaler (items p)); [lia|]. specialize (Hc eq_refl). lia.
    + apply obind_inv in E as (fds & _ & E). apply obind_inv in E as ([l' fds'] & _ & E). injection E as <-.
      simpl in Hz. lia.
  - exists p. destruct (ok_built _ Ho En) as [Hb Hz]. split; [done|]. split; [done|].
    split; [|done]. clear. induction (items p) as [|i l IH]; constructor; [by repeat split|exact IH].
Qed.
End Rebuild.

Lemma wait_keeps {W} `{PollOps W} rounds n t p w w' rc evs p' :
  ok p -> wait rounds n t p w = Done (w', (rc, evs, p')) ->
  ok p' /\ Forall2 same_item (items p) (items p').
Proof.
  intros Ho E. unfold wait in E. destruct (_ && _).
  { injection E as <- <- <- <-. split; [done|].
    clear. induction (items p) as [|i l IH]; constructor; [by repeat split|exact IH]. }
  destruct (prepare_spec p Ho) as (p1 & E1 & Ho1 & Hs & _ & _).
  apply sbind_inv in E as (w1 & p2 & E2 & E).
  assert (p2 = p1) as ->.
  { destruct (need_rebuild p); [unfold slift in E2; rewrite E1 in E2; by injection E2|].
    injection E1 as ->. by injection E2. }
  destruct (poll_size p1 =? 0).
  - destruct (t =? 0); [by injection E as <- <- <- <-|].
    apply sbind_inv in E as (w2 & e & _ & E). by injection E as <- <- <- <-.
  - apply sbind_inv in E as (w2 & [rc2 evs2] & _ & E). by injection E as <- <- <- <-.
Qed.

(** A wait with something watched: the loop, on a poller that watches the same. *)
Lemma wait_loop_of {W} `{PollOps W} rounds n_events timeout_ p (w : W) :
  ok p -> watching (items p) = true -> fds_watched (items p) ->
  exists p1, built p1 /\ poll_size p1 <> 0 /\ Forall2 same_item (items p) (items p1) /\ fds_watched (items p1) /\
    wait rounds n_events timeout_ p w =
      match wait_loop rounds p1 n_events timeout_ 0 None w with
      | Done (w', (rc, evs)) => Done (w', (rc, evs, p1))
      | Crash => Crash
      end.
Proof.
  intros Ho Hw Hf. destruct (prepare_spec p Ho) as (p1 & E1 & Ho1 & Hs & Hb & Hz).
  specialize (Hz Hw). exists p1. split_and!; [by apply Hb|done|done|by eapply same_item_fds|].
  unfold wait. destruct (items p) as [|i l] eqn:Ei; [done|]. rewrite bool_decide_eq_false_2 by done. cbn [andb].
  rewrite (sbind_done _ _ w w p1).
  2:{ destruct (need_rebuild p); [unfold slift; by rewrite E1|by injection E1 as ->]. }
  rewrite (proj2 (Z.eqb_neq _ _) Hz). unfold sbind. by destruct (wait_loop _ _ _ _ _ _ _) as [[w1 [rc evs]]|].
Qed.

Lemma waited_same {W} `{PollOps W} ready sys fds l l' n rounds t (w w' : W) rc evs :
  Forall2 same_item l l' -> waited ready sys fds l' n rounds t w w' rc evs -> waited ready sys fds l n rounds t w w' rc evs.
Proof.
  intros Hs. assert (Hp : forall v v' e, pass ready sys fds l' n v v' e -> pass ready sys fds l n v v' e).
  { intros v v' e (t1 & w1 & w2 & E1 & E2 & He & Hr). rewrite (same_item_happened _ _ _ _ Hs) in He. by exists t1, w1, w2. }
  assert (Hk : forall k v v', passes ready sys fds l' n k v v' -> passes ready sys fds l n k v v').
  { induction k as [|k IH]; [done|]. intros v v' (w1 & w2 & ? & ? & ?). exists w1, w2. auto. }
  unfold waited. destruct rc as [|e|]; [naive_solver..|].
  intros [? ?]. auto.
Qed.

(** What a wait reports when something is watched. *)
Lemma wait_result {W} `{PollOps W} ready sys rounds n_events timeout_ p (w w' : W) rc evs p' :
  poll_laws ready sys -> ok p -> watching (items p) = true -> fds_watched (items p) ->
  wait rounds n_events timeout_ p w = Done (w', (rc, evs, p')) ->
  waited ready sys (pollfds p') (items p) n_events rounds timeout_ w w' rc evs.
Proof.
  intros L Ho Hw Hf E. destruct (wait_loop_of rounds n_events timeout_ p w Ho Hw Hf) as (p1 & Hb & Hz & Hs & Hf1 & E1).
  rewrite E1 in E. destruct (wait_loop _ _ _ _ _ _ _) as [[w1 [rc1 evs1]]|] eqn:E2; [|done].
  injection E as <- <- <- <-. eapply waited_same; [exact Hs|]. by eapply wait_loop_spec.
Qed.

(** What every operation of the sockets and the system keeps, a wait keeps. *)
Section Relates.
Context {W : Type} `{PollOps W} (R : W -> W -> Prop) `{!PreOrder R}.
Context (Hev : forall s w w' r, zmq_events s w = Done (w', r) -> R w w').
Context (Hsig : forall w w' r, signaler_recv w = Done (w', r) -> R w w').
Context (Hpoll : forall fds t w w' r, poll fds t w = Done (w', r) -> R w w').
Context (Hnow : forall w w' r, now_ms w = Done (w', r) -> R w w').

Lemma check_events_relates revents l : forall room w w' r, check_events revents l room w = Done (w', r) -> R w w'.
Proof using Hev PreOrder0.
  induction l as [|i l IH]; intros room w1 w2 r1 E; simpl in E; [by injection E as <- _|].
  destruct room as [|room]; [by injection E as <- _|].
  apply sbind_inv in E as (w3 & e & E1 & E).
  assert (R w1 w3).
  { destruct (it_target i); apply sbind_inv in E1 as (w4 & r4 & E4 & E1); injection E1 as <- _; [by eapply Hev|].
    unfold slift in E4. destruct (nth_z _ _); [|done]. by injection E4 as <- _. }
  destruct e as [e|ev]; [by injection E as <- _|]. etransitivity; [done|]. destruct (negb _).
  - apply sbind_inv in E as (w4 & r4 & E4 & E). injection E as <- _. by eapply IH.
  - by eapply IH.
Qed.

Lemma adjust_timeout_relates t end_ w w' r : adjust_timeout t end_ w = Done (w', r) -> R w w'.
Proof using Hnow PreOrder0.
  unfold adjust_timeout. intros E. destruct (t =? 0); [by injection E as <- _|].
  destruct (t <? 0); [by injection E as <- _|]. apply sbind_inv in E as (w5 & now5 & E5 & E).
  apply Hnow in E5. by destruct end_; injection E as <- _.
Qed.

Lemma wait_loop_relates rounds p n t : forall now end_ w w' r,
  wait_loop rounds p n t now end_ w = Done (w', r) -> R w w'.
Proof using Type*.
  induction rounds as [|rounds IH]; intros now end_ w w' r E; cbn [wait_loop] in E; [by injection E as <- _|].
  apply sbind_inv in E as (w1 & r1 & E1 & E). apply Hpoll in E1. etransitivity; [exact E1|].
  destruct r1 as [revents|]; [|by injection E as <- _].
  apply sbind_inv in E as (w2 & u & E2 & E).
  assert (R w1 w2).
  { destruct (use_signaler p); [|by injection E2 as <- _]. apply sbind_inv in E2 as (w3 & r0 & E3 & E2).
    unfold slift in E3. destruct (nth_z _ _); [|done]. injection E3 as <- _.
    destruct (negb _); [by eapply Hsig|by injection E2 as <- _]. }
  apply sbind_inv in E as (w3 & found & E3 & E). apply check_events_relates in E3.
  etransitivity; [done|]. etransitivity; [exact E3|].
  destruct found as [e|[|ev evs]]; [by injection E as <- _| |by injection E as <- _].
  apply sbind_inv in E as (w4 & [[go now'] end'] & E4 & E). apply adjust_timeout_relates in E4.
  etransitivity; [exact E4|]. destruct go; [by eapply IH|by injection E as <- _].
Qed.

Lemma wait_relates rounds n_events timeout_ p (w w' : W) r :
  (forall t w w' r, usleep t w = Done (w', r) -> R w w') ->
  wait rounds n_events timeout_ p w = Done (w', r) -> R w w'.
Proof using Type*.
  intros Hsl. unfold wait. intros E. destruct (_ && _); [by injection E as <- _|].
  apply sbind_inv in E as (w1 & p1 & E1 & E).
  assert (w1 = w) as ->.
  { destruct (need_rebuild p); [|by injection E1]. unfold slift in E1. destruct (rebuild p); [|done]. by injection E1. }
  destruct (poll_size p1 =? 0).
  - destruct (timeout_ =? 0); [by injection E as <- _|].
    apply sbind_inv in E as (w2 & e & E2 & E). injection E as <- _. by eapply Hsl.
  - apply sbind_inv in E as (w2 & [rc2 evs2] & E2 & E). injection E as <- _. by eapply wait_loop_relates.
Qed.
End Relates.

(** ** The time a wait takes

    [clock] is the time in milliseconds that [now_ms] reads; it does not go back. *)
Record clock_laws {W} `{PollOps W} (clock : W -> Z) : Prop := {
  law_clock_reads w w' t : now_ms w = Done (w', t) -> t = clock w';
  law_clock_now w w' t : now_ms w = Done (w', t) -> clock w <= clock w';
  law_clock_events s w w' r : zmq_events s w = Done (w', r) -> clock w <= clock w';
  law_clock_signal w w' r : signaler_recv w = Done (w', r) -> clock w <= clock w';
  law_clock_poll fds t w w' r : poll fds t w = Done (w', r) -> clock w <= clock w'
}.

Section Time.
Context {W : Type} `{PollOps W} (clock : W -> Z) (K : clock_laws clock).

#[local] Instance time_preorder : PreOrder (fun w w' => clock w <= clock w').
Proof. split; [by intros w|intros w1 w2 w3; lia]. Qed.

Lemma wait_loop_later rounds p n t now end_ w w' r :
  wait_loop rounds p n t now end_ w = Done (w', r) -> clock w <= clock w'.
Proof.
  apply (wait_loop_relates (fun w w' => clock w <= clock w')); apply K.
Qed.

Lemma check_events_later revents l room w w' r : check_events revents l room w = Done (w', r) -> clock w <= clock w'.
Proof. by apply (check_events_relates (fun w w' => clock w <= clock w')); apply K. Qed.

Lemma check_events_error ready sys revents l : poll_laws ready sys -> forall room w w' e,
  check_events revents l room w = Done (w', inl e) -> e = EINTR \/ e = ETERM.
Proof using Type.
  intros L. induction l as [|i l IH]; intros room w w' e E; simpl in E; [done|].
  destruct room as [|room]; [done|]. apply sbind_inv in E as (w1 & r & E1 & E). destruct r as [e1|ev].
  - injection E as _ <-. destruct (it_target i); apply sbind_inv in E1 as (w2 & r2 & E2 & E1); [|done].
    destruct r2; [|done]. injection E1 as _ ->. by apply (law_zmq_events _ _ L) in E2 as [_ ?].
  - destruct (negb _); [|by eapply IH]. apply sbind_inv in E as (w2 & r2 & E2 & E). destruct r2; [|done].
    injection E as _ ->. by eapply IH.
Qed.

(** The loop gives up when the whole timeout has passed since [start]. *)
Lemma wait_loop_time ready sys rounds p n_events timeout_ start : poll_laws ready sys -> forall now end_ w w' evs,
  0 <= start <= clock w -> (forall e, end_ = Some e -> 0 < timeout_ -> start + timeout_ <= e) ->
  timeout_ < 2 ^ 63 -> clock w' < 2 ^ 63 ->
  wait_loop rounds p n_events timeout_ now end_ w = Done (w', (Err EAGAIN, evs)) ->
  start + timeout_ <= clock w'.
Proof.
  intros L. induction rounds as [|rounds IH]; intros now end_ w w' evs Hs He Ht Hc E; [done|].
  pose proof (wait_loop_later _ _ _ _ _ _ _ _ _ E) as Hw. cbn [wait_loop] in E.
  apply sbind_inv in E as (w1 & r & E1 & E). destruct r as [revents|]; [|done].
  apply (law_clock_poll _ K) in E1. apply sbind_inv in E as (w2 & u & E2 & E).
  assert (Hd : clock w1 <= clock w2).
  { destruct (use_signaler p); [|injection E2 as <- _; lia]. apply sbind_inv in E2 as (w3 & r0 & E3 & E2).
    assert (w3 = w1) as -> by (unfold slift in E3; destruct (nth_z _ _); [by injection E3|done]).
    destruct (negb _); [by apply (law_clock_signal _ K) in E2|injection E2 as <- _; lia]. }
  apply sbind_inv in E as (w3 & found & E3 & E).
  assert (He3 : clock w2 <= clock w3).
  { by eapply check_events_later. }
  destruct found as [e|[|ev evs']]; [|clear E3|done].
  { injection E as -> -> _. by apply (check_events_error _ _ _ _ L) in E3 as [?|?]. }
  apply sbind_inv in E as (w4 & [[go now'] end'] & E4 & E).
  unfold adjust_timeout in E4. destruct (Z.eqb_spec timeout_ 0) as [->|Hne].
  { injection E4 as <- <- _ _. injection E as <- _. lia. }
  destruct (Z.ltb_spec timeout_ 0).
  { injection E4 as <- <- _ <-. eapply IH in E; try done; lia. }
  apply sbind_inv in E4 as (w5 & t & E5 & E4). pose proof (law_clock_now _ K _ _ _ E5) as Hcl. apply (law_clock_reads _ K) in E5 as ->.
  destruct end_ as [e|].
  - specialize (He e eq_refl ltac:(lia)). injection E4 as <- Hgo <- <-. destruct (Z.leb_spec e (clock w5)); subst go.
    + injection E as <- _. lia.
    + eapply IH in E; try done; [lia|]. by intros ? [= <-].
  - injection E4 as <- <- <- <-. pose proof (wait_loop_later _ _ _ _ _ _ _ _ _ E) as Hw5.
    eapply IH in E; try done; [lia|]. intros ? [= <-] _. rewrite u64_small; lia.
Qed.
End Time.

(** ** Properties *)

(** The pollers a program can have. *)
Inductive reach {W} `{PollOps W} : poller -> Prop :=
| reach_new : reach poller_new
| reach_call c p w w' rc p' : reach p -> run_call c p w = Done (w', (rc, p')) -> reach p'
| reach_wait rounds n t p w w' rc evs p' : reach p -> wait rounds n t p w = Done (w', (rc, evs, p')) -> reach p'.

Lemma reach_ok {W} `{PollOps W} p : reach p -> ok p.
Proof.
  induction 1 as [|c p w w' rc p' _ IH E|rounds n t p w w' rc evs p' _ IH E]; [apply sp_ok_new| |].
  - by apply sp_run_call_spec in E as [? _].
  - by apply wait_keeps in E as [? _].
Qed.

(** The poller is a finite map from sockets and descriptors to the events they are watched for.
    In any sequence of calls and waits, a registration of something that is there and a
    change or removal of something that is not are refused with [EINVAL] and change nothing, the
    others change the map as they say, and waiting leaves it alone (a thread safe socket may also
    be refused with [EMFILE]). *)
Theorem poller_refines_map {W} `{PollOps W} p c (w w' : W) rc p' :
  reach p -> run_call c p w = Done (w', (rc, p')) ->
  (rc = (spec_call c (watch (items p))).1 /\ forall t, watch (items p') t = (spec_call c (watch (items p))).2 t) \/
  (rc = Some EMFILE /\ p' = p).
Proof. intros Hr E. by apply sp_run_call_spec in E as [_ ?]; [|apply reach_ok]. Qed.

(** C28: a wait returns the events that there are.  When something is watched and no
    descriptor is watched for nothing (which breaks the wait, see
    [unwatched_descriptor_breaks_wait]), [wait] does not abort and leaves the watched set alone.  It looks in
    passes: each asks [poll], in the world the pass before left, and then the sockets.  When it
    succeeds, its events are those of the last pass, what the descriptors had when that [poll]
    answered and the sockets when they were asked, in order of registration, up to the size of the caller's
    array; there is at least one, and no pass before found any.  When it fails, it was
    interrupted, the context is terminated, or no pass found anything: the only one with a timeout of
    0, and with a positive timeout all of them until the whole timeout had passed; never with an infinite one. *)
Theorem wait_reports {W} `{PollOps W} ready sys clock rounds n_events timeout_ p (w : W) :
  poll_laws ready sys -> clock_laws clock -> poll_total -> reach p ->
  watching (items p) = true -> fds_watched (items p) ->
  exists w' rc evs p', wait rounds n_events timeout_ p w = Done (w', (rc, evs, p')) /\
    (forall t, watch (items p') t = watch (items p) t) /\
    waited ready sys (pollfds p') (items p) n_events rounds timeout_ w w' rc evs /\
    (rc = Err EAGAIN -> 0 <= clock w -> clock w' < 2 ^ 63 -> timeout_ < 2 ^ 63 -> clock w + timeout_ <= clock w').
Proof.
  intros L K T Hr Hw Hf. apply reach_ok in Hr as Ho.
  destruct (wait_loop_of rounds n_events timeout_ p w Ho Hw Hf) as (p1 & Hb & Hz & Hs & Hf1 & E1).
  destruct (wait_loop_total ready sys L T rounds p1 n_events timeout_ 0 None Hb Hz Hf1 w) as (w' & [rc evs] & E2 & _).
  rewrite E2 in E1. exists w', rc, evs, p1. split; [exact E1|]. split; [intros t; by apply same_item_watch|].
  split; [by eapply wait_result|]. intros -> H0 H1 H2.
  eapply (wait_loop_time clock K ready sys rounds p1 n_events timeout_ (clock w) L); [| |exact H2|exact H1|exact E2]; [lia|done].
Qed.

(** ** A laboratory: the world is what is ready, for sockets and descriptors *)

Definition lab : Type := (nat -> Z) * (Z -> Z).

#[global] Instance lab_ops : PollOps lab := {
  thread_safe := fun _ => false;
  zmq_fd := fun s => 100 + Z.of_nat s;
  zmq_events := fun s w => Done (w, inr (w.1 s));
  add_signaler := fun _ => sret tt;
  remove_signaler := fun _ => sret tt;
  signaler_valid := sret true;
  signaler_recv := sret tt;
  signaler_fd := 99;
  poll := fun fds _ w => Done (w, Some (map (fun x => Z.land (w.2 x.1) x.2) fds));
  usleep := fun _ => sret None;
  now_ms := sret 0
}.

Definition lab_ready (w : lab) : nat -> Z := w.1.
Definition lab_sys (w : lab) (x : Z * Z) : Z := Z.land (w.2 x.1) x.2.

Lemma sp_lab_laws : poll_laws lab_ready lab_sys.
Proof. split; [by intros s w w' r [= <- <-]|by intros fds t w w' r [= <- <-]]. Qed.

Lemma lab_poll_total : poll_total.
Proof. split; intros; intros w; by eexists _, _. Qed.

(** Socket 1 has a message; descriptor 5 can be written. *)
Definition lab_world : lab := ((fun s => if decide (s = 1%nat) then ZMQ_POLLIN else 0), (fun fd => if decide (fd = 5) then POLLOUT else 0)).

(** What a sequence of calls makes of a new poller. *)
Fixpoint build (l : list call) (p : poller) (w : lab) : poller :=
  match l with
  | [] => p
  | c :: l => match run_call c p w with Done (w, (_, p)) => build l p w | Crash => p end
  end.

Lemma build_reach l : forall p w, reach p -> reach (build l p w).
Proof.
  induction l as [|c l IH]; intros p w Hp; simpl; [done|].
  destruct (run_call c p w) as [[w1 [rc p1]]|] eqn:E; [|done]. apply IH. by eapply reach_call.
Qed.

Definition lab_poller : poller :=
  build [Add 1 7 ZMQ_POLLIN; Add 2 8 ZMQ_POLLIN; AddFd 5 9 ZMQ_POLLOUT; AddFd 6 4 ZMQ_POLLIN; Remove 2; Modify (Fd 6) ZMQ_POLLPRI]
    poller_new lab_world.

Lemma poller_refines_map_witness :
  exists p', run_call (Add 1 3 ZMQ_POLLOUT) lab_poller lab_world = Done (lab_world, (Some EINVAL, p')) /\
    watch (items p') (Socket 1) = Some (7%nat, ZMQ_POLLIN) /\ watch (items p') (Socket 2) = None.
Proof.
  eexists. split; [vm_compute; reflexivity|].
  assert (Hr : reach lab_poller) by apply build_reach, reach_new.
  edestruct (poller_refines_map lab_poller (Add 1 3 ZMQ_POLLOUT) lab_world lab_world (Some EINVAL) lab_poller Hr)
    as [[_ Hw]|[Hx _]]; [vm_compute; reflexivity| |discriminate].
  split; [exact (Hw (Socket 1))|exact (Hw (Socket 2))].
Defined.

Lemma lab_clock_laws : clock_laws (fun _ : lab => 0).
Proof. split; try done. by intros w w' t [= _ <-]. Qed.

Lemma wait_reports_witness :
  exists w' evs p', wait 1 3 0 lab_poller lab_world = Done (w', (Ok, evs, p')) /\
    evs = [Event (Socket 1) 7 ZMQ_POLLIN; Event (Fd 5) 9 ZMQ_POLLOUT] /\
    pass lab_ready lab_sys (pollfds p') (items lab_poller) 3 lab_world w' evs.
Proof.
  destruct (wait_reports lab_ready lab_sys (fun _ => 0) 1 3 0 lab_poller lab_world sp_lab_laws lab_clock_laws lab_poll_total)
    as (w' & rc & evs & p' & E & _ & Hs & _); [apply build_reach, reach_new|reflexivity| |].
  - unfold fds_watched. vm_compute. repeat constructor; discriminate.
  - assert (Hc : match wait 1 3 0 lab_poller lab_world with
      | Done (_, (rc, evs, _)) => rc = Ok /\ evs = [Event (Socket 1) 7 ZMQ_POLLIN; Event (Fd 5) 9 ZMQ_POLLOUT]
      | Crash => False end) by (vm_compute; by split).
    rewrite E in Hc. destruct Hc as [-> Hev]. exists w', evs, p'. split; [exact E|]. split; [exact Hev|].
    destruct Hs as (_ & k & wl & Hk & Hps & Hp). assert (k = O) as -> by lia. simpl in Hps. by subst wl.
Defined.

(** A descriptor that is watched for nothing breaks the wait.  [rebuild] gives it no place in
    [pollfds], but [check_events] looks at its place all the same: just registered it
    has none and [pollfds] is read at index -1; when it had one before it was set to
    nothing, the events of another descriptor are reported for it. *)
Theorem unwatched_descriptor_breaks_wait :
  wait 1 3 0 (build [AddFd 6 4 0; AddFd 5 9 ZMQ_POLLOUT] poller_new lab_world) lab_world = Crash /\
  exists p1, wait 1 3 0 (build [AddFd 6 4 ZMQ_POLLIN; AddFd 5 9 ZMQ_POLLOUT] poller_new lab_world) lab_world
    = Done (lab_world, (Ok, [Event (Fd 5) 9 ZMQ_POLLOUT], p1)) /\
    exists p2, wait 1 3 0 (build [Modify (Fd 6) 0] p1 lab_world) lab_world
      = Done (lab_world, (Ok, [Event (Fd 6) 4 ZMQ_POLLOUT; Event (Fd 5) 9 ZMQ_POLLOUT], p2)).
Proof.
  split; [vm_compute; reflexivity|]. eexists. split; [vm_compute; reflexivity|].
  eexists. vm_compute. reflexivity.
Qed.

End SocketPoller.
