(* ===== verification/Proxy.v ===== *)
(** * Proxy: zmq::proxy (libzmq/src/proxy.cpp)

    What the thread of the event bus runs: messages go from one socket to the
    other and back, and a set of pollers decides what the thread waits for.  The pollers are
    those of [SocketPoller]; the sockets are the class [ProxySockets], with messages as values. *)

From S2P Require Import Prelude Pipes Sock SocketPoller.

Module Proxy.
Import Sock (answer(..), ZMQ_POLLIN, ZMQ_POLLOUT).
Import SocketPoller (poller, poller_new, items, event, ev_target, ev_events, target(..), PollOps, wait, add, watch).

(** [recv] and [send] of a socket without [ZMQ_DONTWAIT], and the option [ZMQ_RCVMORE].  The flag of
    [send] is [ZMQ_SNDMORE]. *)
Class ProxySockets (V T : Type) : Type := {
  recv : nat -> stm V (answer * T);
  rcvmore : nat -> stm V (answer * bool);
  send : nat -> T -> bool -> stm V answer;
  message_of : list Z -> T
}.

(** zmq_socket_stats_t *)
Record stats : Type := Stats { msg_in : Z; bytes_in : Z; msg_out : Z; bytes_out : Z }.
Definition stats0 : stats := Stats 0 0 0 0.

Definition received (n : Z) (s : stats) : stats :=
  Stats (u64 (msg_in s + 1)) (u64 (bytes_in s + n)) (msg_out s) (bytes_out s).
Definition forwarded (n : Z) (s : stats) : stats :=
  Stats (msg_in s) (bytes_in s) (u64 (msg_out s + 1)) (u64 (bytes_out s + n)).

(** The pollers; [poller_wait] points to one of those but [All]. *)
Inductive which : Type :=
| All | In | Control | ReceiveBlocked | SendBlocked | BothBlocked | FrontendOnly | BackendOnly.

#[global] Instance which_eq_dec : EqDecision which.
Proof. solve_decision. Defined.

Inductive pstate : Type := Active | Paused | Terminated.

#[global] Instance pstate_eq_dec : EqDecision pstate.
Proof. solve_decision. Defined.

Record proxy : Type := MkProxy {
  state : pstate;
  frontend_in : bool;
  frontend_out : bool;
  backend_in : bool;
  backend_out : bool;
  control_in : bool;
  poller_wait : which;
  pollers : which -> poller;
  frontend_stats : stats;
  backend_stats : stats
}.

Definition proxy_new : proxy :=
  MkProxy Active false false false false false In (fun _ => poller_new) stats0 stats0.

Definition set_flags (fi fo bi bo : bool) (p : proxy) : proxy :=
  MkProxy (state p) fi fo bi bo (control_in p) (poller_wait p) (pollers p) (frontend_stats p) (backend_stats p).
Definition set_control (c : bool) (p : proxy) : proxy :=
  MkProxy (state p) (frontend_in p) (frontend_out p) (backend_in p) (backend_out p) c (poller_wait p) (pollers p)
    (frontend_stats p) (backend_stats p).
Definition set_state (s : pstate) (w : which) (p : proxy) : proxy :=
  MkProxy s (frontend_in p) (frontend_out p) (backend_in p) (backend_out p) (control_in p) w (pollers p)
    (frontend_stats p) (backend_stats p).
Definition set_poller (w : which) (x : poller) (p : proxy) : proxy :=
  MkProxy (state p) (frontend_in p) (frontend_out p) (backend_in p) (backend_out p) (control_in p) (poller_wait p)
    (fun w' => if decide (w' = w) then x else pollers p w') (frontend_stats p) (backend_stats p).
Definition set_stats (f b : stats) (p : proxy) : proxy :=
  MkProxy (state p) (frontend_in p) (frontend_out p) (backend_in p) (backend_out p) (control_in p) (poller_wait p)
    (pollers p) f b.

Section Proxy.
Context {V T : Type} `{Message T} `{ProxySockets V T} `{PollOps V}.

Definition size (m : T) : Z := Z.of_nat (length (msg_data m)).

(** The copy of the message is a message of its own. *)
Definition capture (capture_ : option nat) (msg : T) (more : bool) : stm V answer :=
  match capture_ with
  | Some c => send c msg more
  | None => sret Ok
  end.

(** The loop of [forward]; one unit of fuel per part.  The result is the size of the message. *)
Fixpoint forward_loop (fuel : nat) (from to : nat) (capture_ : option nat) (complete_msg_size : Z)
  : stm V (answer * Z) :=
  match fuel with
  | O => sret (Blocked, complete_msg_size)
  | S fuel =>
    let! (rc, msg) := recv from in
    match rc with
    | Err _ | Blocked => sret (rc, complete_msg_size)
    | Ok =>
      let complete_msg_size := u64 (complete_msg_size + size msg) in
      let! (rc, more) := rcvmore from in
      match rc with
      | Err _ | Blocked => sret (rc, complete_msg_size)
      | Ok =>
        let! rc := capture capture_ msg more in
        match rc with
        | Err _ | Blocked => sret (rc, complete_msg_size)
        | Ok =>
          let! rc := send to msg more in
          match rc with
          | Err _ | Blocked => sret (rc, complete_msg_size)
          | Ok => if more then forward_loop fuel from to capture_ complete_msg_size
                  else sret (Ok, complete_msg_size)
          end
        end
      end
    end
  end.

Definition forward (fuel : nat) (from : nat) (from_stats : stats) (to : nat) (to_stats : stats) (capture_ : option nat)
  : stm V (answer * stats * stats) :=
  let! (rc, n) := forward_loop fuel from to capture_ 0 in
  match rc with
  | Ok => sret (Ok, received n from_stats, forwarded n to_stats)
  | _ => sret (rc, from_stats, to_stats)
  end.

(** ** The control socket *)

(** The bytes of a [uint64_t] in memory. *)
Fixpoint le_bytes (n : nat) (x : Z) : list Z :=
  match n with
  | O => []
  | S n => x mod 256 :: le_bytes n (x / 256)
  end.

Definition stat_msg (stat : Z) : T := message_of (le_bytes 8 stat).

(** A part after the first is sent again while [EAGAIN] is answered, as long as there is fuel. *)
Fixpoint loop_and_send_multipart_stat (fuel : nat) (control_ : nat) (stat : Z) (first more : bool) : stm V answer :=
  match fuel with
  | O => sret Blocked
  | S fuel =>
    let! rc := send control_ (stat_msg stat) more in
    match rc with
    | Err EAGAIN => if negb first then loop_and_send_multipart_stat fuel control_ stat first more else sret rc
    | _ => sret rc
    end
  end.

(** The results after the first are not looked at. *)
Fixpoint send_stats (fuel : nat) (control_ : nat) (l : list (Z * bool)) : stm V answer :=
  match l with
  | [] => sret Ok
  | (stat, more) :: l =>
    let! rc := loop_and_send_multipart_stat fuel control_ stat false more in
    match rc with
    | Blocked => sret Blocked
    | _ => send_stats fuel control_ l
    end
  end.

Definition reply_stats (fuel : nat) (control_ : nat) (f b : stats) : stm V answer :=
  let! rc := loop_and_send_multipart_stat fuel control_ (msg_in f) true true in
  match rc with
  | Ok =>
    send_stats fuel control_
      [(bytes_in f, true); (msg_out f, true); (bytes_out f, true);
       (msg_in b, true); (bytes_in b, true); (msg_out b, true); (bytes_out b, false)]
  | _ => sret rc
  end.

(** "PAUSE", "RESUME", "TERMINATE", "STATISTICS" *)
Definition PAUSE : list Z := [80; 65; 85; 83; 69].
Definition RESUME : list Z := [82; 69; 83; 85; 77; 69].
Definition TERMINATE : list Z := [84; 69; 82; 77; 73; 78; 65; 84; 69].
Definition STATISTICS : list Z := [83; 84; 65; 84; 73; 83; 84; 73; 67; 83].

Context (draft : bool) (frontend_ backend_ : nat) (capture_ control_ : option nat).

Definition frontend_equal_to_backend : bool := bool_decide (frontend_ = backend_).

(** What a part of the loop does: it goes on, or [zmq::proxy] returns. *)
Inductive outcome_of_turn : Type := Continue (p : proxy) | Return (rc : answer).

Definition process_control (fuel : nat) (c : nat) (p : proxy) : stm V outcome_of_turn :=
  let! (rc, msg) := recv c in
  match rc with
  | Err _ | Blocked => sret (Return rc)
  | Ok =>
    let! (rc, more) := rcvmore c in
    match rc with
    | Blocked => sret (Return Blocked)
    | Err e => sret (Return (Err e))
    | Ok =>
      (* -1, with the errno of some call before *)
      if more then sret (Return (Err EINVAL))
      else
        let! rc := capture capture_ msg false in
        match rc with
        | Err _ | Blocked => sret (Return rc)
        | Ok =>
          let data := msg_data msg in
          if bool_decide (data = PAUSE) then sret (Continue (set_control false (set_state Paused Control p)))
          else if bool_decide (data = RESUME) then sret (Continue (set_control false (set_state Active In p)))
          else if bool_decide (data = TERMINATE) then
            sret (Continue (set_control false (set_state Terminated (poller_wait p) p)))
          else if draft && bool_decide (data = STATISTICS) then
            let! rc := reply_stats fuel c (frontend_stats p) (backend_stats p) in
            match rc with
            | Ok => sret (Continue (set_control false p))
            | _ => sret (Return rc)
            end
          else scrash
        end
    end
  end.

(** ** Which poller is waited on next *)

(** When a request or a reply was processed. *)
Definition enable (request_processed reply_processed : bool) (w : which) : which :=
  if decide (w = In) then w
  else
    let w := if request_processed then
               match w with
               | BothBlocked => SendBlocked
               | ReceiveBlocked | FrontendOnly => In
               | _ => w
               end
             else w in
    if reply_processed then
      match w with
      | BothBlocked => ReceiveBlocked
      | SendBlocked | BackendOnly => In
      | _ => w
      end
    else w.

(** When nothing was processed. *)
Definition disable (fi fo bi bo : bool) (w : which) : which :=
  let w := if fi then
             if fo then BackendOnly
             else match w with SendBlocked => BothBlocked | In => ReceiveBlocked | _ => w end
           else w in
  if bi then
    if bo then FrontendOnly
    else match w with ReceiveBlocked => BothBlocked | In => SendBlocked | _ => w end
  else w.

Definition read_event (p : proxy) (e : event) : proxy :=
  let in_ := negb (Z.land (ev_events e) ZMQ_POLLIN =? 0) in
  let out := negb (Z.land (ev_events e) ZMQ_POLLOUT =? 0) in
  if decide (ev_target e = Socket frontend_) then set_flags in_ out (backend_in p) (backend_out p) p
  else if decide (ev_target e = Socket backend_) then set_flags (frontend_in p) (frontend_out p) in_ out p
  else if decide (Socket <$> control_ = Some (ev_target e)) then set_control in_ p
  else p.

(** The part of the loop that forwards. *)
Definition process_active (fuel : nat) (p : proxy) : stm V outcome_of_turn :=
  let request_processed := frontend_in p && (backend_out p || frontend_equal_to_backend) in
  let! (rc, p) := (if request_processed then
      let! (rc, fs, bs) := forward fuel frontend_ (frontend_stats p) backend_ (backend_stats p) capture_ in
      sret (rc, set_flags false (frontend_out p) (backend_in p) false (set_stats fs bs p))
    else sret (Ok, p)) in
  match rc with
  | Err _ | Blocked => sret (Return rc)
  | Ok =>
    let reply_processed := backend_in p && frontend_out p in
    let! (rc, p) := (if reply_processed then
        let! (rc, bs, fs) := forward fuel backend_ (backend_stats p) frontend_ (frontend_stats p) capture_ in
        sret (rc, set_flags (frontend_in p) false false (backend_out p) (set_stats fs bs p))
      else sret (Ok, p)) in
    match rc with
    | Err _ | Blocked => sret (Return rc)
    | Ok =>
      let w := if request_processed || reply_processed
               then enable request_processed reply_processed (poller_wait p)
               else disable (frontend_in p) (frontend_out p) (backend_in p) (backend_out p) (poller_wait p) in
      sret (Continue (set_state (state p) w p))
    end
  end.

(** A wait on one of the pollers; [EAGAIN] means no events. *)
Definition wait_on (rounds : nat) (timeout : Z) (w : which) (p : proxy) : stm V (answer * list event * proxy) :=
  let! (rc, evs, x) := wait rounds 3 timeout (pollers p w) in
  let p := set_poller w x p in
  match rc with
  | Err EAGAIN => sret (Ok, [], p)
  | _ => sret (rc, evs, p)
  end.

(** The body of the loop. *)
Definition turn (rounds fuel : nat) (p : proxy) : stm V outcome_of_turn :=
  let! (rc, _, p) := wait_on rounds (-1) (poller_wait p) p in
  match rc with
  | Err _ | Blocked => sret (Return rc)
  | Ok =>
    let! (rc, evs, p) := wait_on rounds 0 All p in
    match rc with
    | Err _ | Blocked => sret (Return rc)
    | Ok =>
      let p := fold_left read_event evs p in
      let! r := match control_in p, control_ with
                | true, Some c => process_control fuel c p
                | true, None => scrash
                | false, _ => sret (Continue p)
                end in
      match r with
      | Return rc => sret (Return rc)
      | Continue p => if decide (state p = Active) then process_active fuel p else sret (Continue p)
      end
    end
  end.

(** ** The registrations before the loop *)
Definition registrations : list (which * nat * Z) :=
  let both := Z.lor ZMQ_POLLIN ZMQ_POLLOUT in
  [(All, frontend_, both); (In, frontend_, ZMQ_POLLIN)] ++
  (if frontend_equal_to_backend then [(ReceiveBlocked, frontend_, ZMQ_POLLOUT)]
   else [(All, backend_, both); (In, backend_, ZMQ_POLLIN);
         (BothBlocked, frontend_, ZMQ_POLLOUT); (BothBlocked, backend_, ZMQ_POLLOUT);
         (SendBlocked, backend_, ZMQ_POLLOUT); (SendBlocked, frontend_, both);
         (ReceiveBlocked, frontend_, ZMQ_POLLOUT); (ReceiveBlocked, backend_, both);
         (FrontendOnly, frontend_, both); (BackendOnly, backend_, both)]) ++
  match control_ with
  | None => []
  | Some c =>
    [(All, c, ZMQ_POLLIN); (In, c, ZMQ_POLLIN); (Control, c, ZMQ_POLLIN); (ReceiveBlocked, c, ZMQ_POLLIN)] ++
    (if frontend_equal_to_backend then []
     else [(SendBlocked, c, ZMQ_POLLIN); (BothBlocked, c, ZMQ_POLLIN); (FrontendOnly, c, ZMQ_POLLIN);
           (BackendOnly, c, ZMQ_POLLIN)])
  end.

Fixpoint register (l : list (which * nat * Z)) (p : proxy) : stm V (option errno * proxy) :=
  match l with
  | [] => sret (None, p)
  | (w, s, e) :: l =>
    let! (rc, x) := add s 0 e (pollers p w) in
    let p := set_poller w x p in
    match rc with
    | Some e => sret (Some e, p)
    | None => register l p
    end
  end.

(** The loop; one unit of [turns] per turn. *)
Fixpoint proxy_loop (turns rounds fuel : nat) (p : proxy) : stm V answer :=
  if decide (state p = Terminated) then sret Ok
  else
    match turns with
    | O => sret Blocked
    | S turns =>
      let! r := turn rounds fuel p in
      match r with
      | Return rc => sret rc
      | Continue p => proxy_loop turns rounds fuel p
      end
    end.

Definition zmq_proxy (turns rounds fuel : nat) : stm V answer :=
  let! (rc, p) := register registrations proxy_new in
  match rc with
  | Some e => sret (Err e)
  | None => proxy_loop turns rounds fuel p
  end.

End Proxy.

(** ** Forwarding *)
Section Forward.
Context {V T : Type} `{Message T} `{ProxySockets V T} `{PollOps V}.

(** What was received from each socket, and what was sent to it with its flag. *)
Record socket_laws (got : V -> nat -> list T) (put : V -> nat -> list (T * bool)) : Prop := {
  law_recv s v v' rc m : recv s v = Done (v', (rc, m)) ->
    put v' = put v /\
    match rc with Ok => forall s', got v' s' = if decide (s' = s) then got v s ++ [m] else got v s'
                | _ => got v' = got v end;
  law_more s v v' rc b m : rcvmore s v = Done (v', (rc, b)) ->
    got v' = got v /\ put v' = put v /\ (rc = Ok -> last (got v s) = Some m -> b = has_more m);
  law_send s m b v v' rc : send s m b v = Done (v', rc) ->
    got v' = got v /\
    match rc with Ok => forall s', put v' s' = if decide (s' = s) then put v s ++ [(m, b)] else put v s'
                | _ => put v' = put v end
}.

(** A message: parts that announce another, and a last one. *)
Definition whole (l : list T) : Prop :=
  exists l0 m, l = l0 ++ [m] /\ Forall (fun m => has_more m = true) l0 /\ has_more m = false.

Definition with_flags (l : list T) : list (T * bool) := map (fun m => (m, has_more m)) l.
Definition total_size (l : list T) : Z := foldr (fun m n => size m + n) 0 l.

Context (got : V -> nat -> list T) (put : V -> nat -> list (T * bool)) (L : socket_laws got put).

(** [l] went from one socket to another, and to the one that captures. *)
Definition moved (from to : nat) (cap : option nat) (l : list T) (v v' : V) : Prop :=
  (forall s, got v' s = if decide (s = from) then got v from ++ l else got v s) /\
  put v' to = put v to ++ with_flags l /\
  (forall c, cap = Some c -> put v' c = put v c ++ with_flags l) /\
  (forall s, s <> to -> cap <> Some s -> put v' s = put v s).

Lemma moved_nil from to cap v : moved from to cap [] v v.
Proof.
  split_and!; intros; rewrite ?app_nil_r; try done. by destruct (decide (s = from)) as [->|].
Qed.

Lemma moved_cons from to cap m l v v1 v2 :
  moved from to cap [m] v v1 -> moved from to cap l v1 v2 -> moved from to cap (m :: l) v v2.
Proof.
  intros (Hg1 & Hp1 & Hc1 & Ho1) (Hg2 & Hp2 & Hc2 & Ho2). split_and!.
  - intros s. rewrite Hg2. destruct (decide (s = from)) as [->|Hne]; rewrite Hg1; [|by rewrite decide_False].
    by rewrite decide_True, <- app_assoc.
  - by rewrite Hp2, Hp1, <- app_assoc.
  - intros c Hc. by rewrite Hc2, Hc1, <- app_assoc.
  - intros s H3 H4. by rewrite Ho2, Ho1.
Qed.

Lemma capture_spec cap m b v v' rc :
  capture cap m b v = Done (v', rc) ->
  got v' = got v /\
  match rc with
  | Ok => (forall c, cap = Some c -> put v' c = put v c ++ [(m, b)]) /\ (forall s, cap <> Some s -> put v' s = put v s)
  | _ => put v' = put v
  end.
Proof.
  unfold capture. destruct cap as [c|]; [|by intros [= <- <-]].
  intros E. destruct (law_send _ _ L _ _ _ _ _ _ E) as [Hg Hp]. split; [done|]. destruct rc; [|done..].
  split; [intros c' [= <-]; by rewrite Hp, decide_True|]. intros s Hs. rewrite Hp. apply decide_False. congruence.
Qed.

(** What a call of [forward] leaves: a whole message moved; or parts that announce another moved, and perhaps one more
    was received and captured when the other socket failed. *)
Lemma forward_loop_spec fuel from to cap : cap <> Some to -> forall n v v' rc n',
  forward_loop fuel from to cap n v = Done (v', (rc, n')) ->
  match rc with
  | Ok => exists l, whole l /\ moved from to cap l v v' /\ (0 <= n < 2 ^ 64 -> n' = u64 (n + total_size l))
  | _ => exists l r, Forall (fun m => has_more m = true) l /\ (length r <= 1)%nat /\
      got v' from = got v from ++ l ++ r /\ put v' to = put v to ++ with_flags l
  end.
Proof.
  intros Hcap. induction fuel as [|fuel IH]; intros n v v' rc n' E; cbn [forward_loop] in E.
  { injection E as <- <- <-. exists [], []. simpl. rewrite !app_nil_r. split_and!; try done; lia. }
  assert (Hstop : forall v1, got v1 = got v -> put v1 = put v -> exists l r,
    Forall (fun m => has_more m = true) l /\ (length r <= 1)%nat /\
    got v1 from = got v from ++ l ++ r /\ put v1 to = put v to ++ with_flags l).
  { intros v1 Hg Hp. exists [], []. rewrite Hg, Hp. simpl. rewrite !app_nil_r. split_and!; try done; simpl; lia. }
  apply sbind_inv in E as (v1 & [rc1 m] & E1 & E).
  destruct (law_recv _ _ L _ _ _ _ _ E1) as [Hp1 Hg1].
  destruct rc1; [|injection E as <- <- <-; by apply Hstop..].
  assert (Hstop1 : forall v2, got v2 = got v1 -> put v2 to = put v to -> exists l r,
    Forall (fun m => has_more m = true) l /\ (length r <= 1)%nat /\
    got v2 from = got v from ++ l ++ r /\ put v2 to = put v to ++ with_flags l).
  { intros v2 Hg Hp. exists [], [m]. rewrite Hg, Hp, Hg1, decide_True by done. simpl. rewrite !app_nil_r.
    split_and!; try done; simpl; lia. }
  apply sbind_inv in E as (v2 & [rc2 more] & E2 & E).
  destruct (law_more _ _ L _ _ _ _ _ m E2) as (Hg2 & Hp2 & Hm2).
  destruct rc2; [|injection E as <- <- <-; apply Hstop1; [done|by rewrite Hp2, Hp1]..].
  specialize (Hm2 eq_refl). rewrite Hg1, decide_True, last_snoc in Hm2 by done. specialize (Hm2 eq_refl). subst more.
  apply sbind_inv in E as (v3 & rc3 & E3 & E). destruct (capture_spec _ _ _ _ _ _ E3) as [Hg3 Hp3].
  destruct rc3; [|injection E as <- <- <-; apply Hstop1; [by rewrite Hg3|by rewrite Hp3, Hp2, Hp1]..].
  destruct Hp3 as [Hp3 Hp3'].
  apply sbind_inv in E as (v4 & rc4 & E4 & E). destruct (law_send _ _ L _ _ _ _ _ _ E4) as [Hg4 Hp4].
  assert (Hto3 : put v3 to = put v to) by by rewrite Hp3', Hp2, Hp1.
  destruct rc4; [|injection E as <- <- <-; apply Hstop1; [by rewrite Hg4, Hg3|by rewrite Hp4, Hto3]..].
  assert (Hmv : moved from to cap [m] v v4).
  { split_and!.
    - intros s. by rewrite Hg4, Hg3, Hg2, Hg1.
    - by rewrite Hp4, decide_True, Hto3.
    - intros c Hc. rewrite Hp4, decide_False by congruence. by rewrite (Hp3 c Hc), Hp2, Hp1.
    - intros s Hs Hc. by rewrite Hp4, decide_False, Hp3', Hp2, Hp1. }
  destruct (has_more m) eqn:Em.
  - specialize (IH _ _ _ _ _ E). destruct rc.
    + destruct IH as (l & (l0 & m0 & -> & Hl0 & Hm0) & Hmv' & Hn). exists (m :: l0 ++ [m0]).
      split; [exists (m :: l0), m0; split_and!; [done|by constructor|done]|].
      split; [by eapply moved_cons|]. intros Hn0. rewrite Hn by (unfold u64; apply Z.mod_pos_bound; lia).
      cbn [total_size foldr]. fold (total_size (l0 ++ [m0])). unfold u64.
      rewrite Zplus_mod_idemp_l. f_equal. lia.
    + destruct IH as (l & r & Hl & Hr & Hgf & Hpt). exists (m :: l), r. destruct Hmv as (Hg & Hp & _).
      split_and!; [by constructor|done| |]; [by rewrite Hgf, Hg, decide_True, <- app_assoc|by rewrite Hpt, Hp, <- app_assoc].
    + destruct IH as (l & r & Hl & Hr & Hgf & Hpt). exists (m :: l), r. destruct Hmv as (Hg & Hp & _).
      split_and!; [by constructor|done| |]; [by rewrite Hgf, Hg, decide_True, <- app_assoc|by rewrite Hpt, Hp, <- app_assoc].
  - injection E as <- <- <-. exists [m]. split; [by exists [], m|]. split; [done|]. intros _.
    unfold total_size. simpl. by rewrite Z.add_0_r.
Qed.
End Forward.

(** ** Waiting

    A proxy without a control socket, between two different sockets.  [ready] is what
    [ZMQ_EVENTS] says of each socket; only a reception makes a socket less readable and
    only a sending makes it less writable. *)
Section Waiting.
Context {V T : Type} `{Message T} `{ProxySockets V T} `{PollOps V}.
Context (ready : V -> nat -> Z) (sys : V -> Z * Z -> Z).

Definition readable (v : V) (s : nat) : bool := negb (Z.land (ready v s) ZMQ_POLLIN =? 0).
Definition writable (v : V) (s : nat) : bool := negb (Z.land (ready v s) ZMQ_POLLOUT =? 0).

Definition grows (v v' : V) : Prop :=
  forall s, (readable v s = true -> readable v' s = true) /\ (writable v s = true -> writable v' s = true).

#[global] Instance grows_preorder : PreOrder grows.
Proof. split; [by intros v s|]. intros v1 v2 v3 H12 H23 s. specialize (H12 s). specialize (H23 s). naive_solver. Qed.

Record ready_laws : Prop := {
  rl_poll_laws : SocketPoller.poll_laws ready sys;
  rl_recv s v v' r : recv s v = Done (v', r) -> forall s',
    (s' <> s -> readable v s' = true -> readable v' s' = true) /\ (writable v s' = true -> writable v' s' = true);
  rl_send s m b v v' r : send s m b v = Done (v', r) -> forall s',
    (readable v s' = true -> readable v' s' = true) /\ (s' <> s -> writable v s' = true -> writable v' s' = true);
  rl_more s v v' r : rcvmore s v = Done (v', r) -> grows v v';
  rl_signal v v' r : SocketPoller.signaler_recv v = Done (v', r) -> grows v v';
  rl_poll fds t v v' r : SocketPoller.poll fds t v = Done (v', r) -> grows v v';
  rl_usleep t v v' r : SocketPoller.usleep t v = Done (v', r) -> grows v v';
  rl_now v v' r : SocketPoller.now_ms v = Done (v', r) -> grows v v'
}.

Context (draft : bool) (frontend_ backend_ : nat) (capture_ : option nat) (L : ready_laws).
Context (Hdiff : frontend_ <> backend_) (Hcapf : capture_ <> Some frontend_) (Hcapb : capture_ <> Some backend_).

Lemma wait_grows rounds n t p v v' r : wait rounds n t p v = Done (v', r) -> grows v v'.
Proof.
  apply (SocketPoller.wait_relates grows); try apply L.
  intros s w w' r' E. destruct (SocketPoller.law_zmq_events _ _ (rl_poll_laws L) _ _ _ _ E) as [Hr _].
  intros s'. unfold readable, writable. by rewrite Hr.
Qed.

(** What forwarding costs: the readability of one socket and the writability of the other. *)
Definition spends (from to : nat) (v v' : V) : Prop := forall s,
  (s <> from -> readable v s = true -> readable v' s = true) /\
  (s <> to -> capture_ <> Some s -> writable v s = true -> writable v' s = true).

Lemma spends_trans from to v1 v2 v3 : spends from to v1 v2 -> spends from to v2 v3 -> spends from to v1 v3.
Proof. intros H12 H23 s. specialize (H12 s). specialize (H23 s). naive_solver. Qed.

Lemma forward_loop_spends fuel from to : forall n v v' r,
  forward_loop fuel from to capture_ n v = Done (v', r) -> spends from to v v'.
Proof.
  induction fuel as [|fuel IH]; intros n v v' r E; cbn [forward_loop] in E; [by injection E as <- _|].
  apply sbind_inv in E as (v1 & [rc1 m] & E1 & E).
  assert (S1 : spends from to v v1) by (intros s; pose proof (rl_recv L _ _ _ _ E1 s); naive_solver).
  destruct rc1; [|by injection E as <- _..]. eapply spends_trans; [exact S1|].
  apply sbind_inv in E as (v2 & [rc2 more] & E2 & E).
  assert (S2 : spends from to v1 v2) by (intros s; pose proof (rl_more L _ _ _ _ E2 s); naive_solver).
  destruct rc2; [|by injection E as <- _..]. eapply spends_trans; [exact S2|].
  apply sbind_inv in E as (v3 & rc3 & E3 & E).
  assert (S3 : spends from to v2 v3).
  { unfold capture in E3. destruct capture_ as [c|] eqn:Ec; [|by injection E3 as <- _].
    intros s. pose proof (rl_send L _ _ _ _ _ _ E3 s) as [Hr Hw]. split; [auto|]. intros _ Hc Hwr. apply Hw; [congruence|done]. }
  destruct rc3; [|by injection E as <- _..]. eapply spends_trans; [exact S3|].
  apply sbind_inv in E as (v4 & rc4 & E4 & E).
  assert (S4 : spends from to v3 v4) by (intros s; pose proof (rl_send L _ _ _ _ _ _ E4 s); naive_solver).
  destruct rc4; [|by injection E as <- _..]. eapply spends_trans; [exact S4|].
  destruct more; [by eapply IH|by injection E as <- _].
Qed.

Lemma forward_spends fuel from fs to ts v v' r :
  forward fuel from fs to ts capture_ v = Done (v', r) -> spends from to v v'.
Proof.
  unfold forward. intros E. apply sbind_inv in E as (v1 & [rc n] & E1 & E).
  apply forward_loop_spends in E1. destruct rc; by injection E as <- _.
Qed.

(** What each poller watches. *)
Abbreviation both := (Z.lor ZMQ_POLLIN ZMQ_POLLOUT).
Definition item (s : nat) (e : Z) : SocketPoller.item := SocketPoller.Item (Socket s) 0 e (-1).

Definition watched (w : which) : list SocketPoller.item :=
  match w with
  | All => [item frontend_ both; item backend_ both]
  | In => [item frontend_ ZMQ_POLLIN; item backend_ ZMQ_POLLIN]
  | Control => []
  | ReceiveBlocked => [item frontend_ ZMQ_POLLOUT; item backend_ both]
  | SendBlocked => [item backend_ ZMQ_POLLOUT; item frontend_ both]
  | BothBlocked => [item frontend_ ZMQ_POLLOUT; item backend_ ZMQ_POLLOUT]
  | FrontendOnly => [item frontend_ both]
  | BackendOnly => [item backend_ both]
  end.

(** Whether a wait on the poller would return at once. *)
Definition wakes (v : V) (w : which) : bool :=
  match w with
  | All => readable v frontend_ || writable v frontend_ || readable v backend_ || writable v backend_
  | In => readable v frontend_ || readable v backend_
  | Control => false
  | ReceiveBlocked => writable v frontend_ || readable v backend_ || writable v backend_
  | SendBlocked => writable v backend_ || readable v frontend_ || writable v frontend_
  | BothBlocked => writable v frontend_ || writable v backend_
  | FrontendOnly => readable v frontend_ || writable v frontend_
  | BackendOnly => readable v backend_ || writable v backend_
  end.

Lemma land_both x :
  (Z.land both x =? 0) = (Z.land x ZMQ_POLLIN =? 0) && (Z.land x ZMQ_POLLOUT =? 0).
Proof.
  rewrite Z.land_lor_distr_l, (Z.land_comm ZMQ_POLLIN), (Z.land_comm ZMQ_POLLOUT).
  apply eq_true_iff_eq. rewrite andb_true_iff, !Z.eqb_eq. apply Z.lor_eq_0_iff.
Qed.

Lemma land_in x : (Z.land (Z.land both x) ZMQ_POLLIN =? 0) = (Z.land x ZMQ_POLLIN =? 0).
Proof. by rewrite (Z.land_comm both), <- Z.land_assoc. Qed.

Lemma land_out x : (Z.land (Z.land both x) ZMQ_POLLOUT =? 0) = (Z.land x ZMQ_POLLOUT =? 0).
Proof. by rewrite (Z.land_comm both), <- Z.land_assoc. Qed.

Lemma wakes_spec rev v w : w <> Control ->
  wakes v w = bool_decide (SocketPoller.happened rev (ready v) (watched w) <> []).
Proof.
  unfold SocketPoller.happened, SocketPoller.happens, wakes, readable, writable.
  assert (Hin : forall s, Z.land ZMQ_POLLIN (ready v s) = Z.land (ready v s) ZMQ_POLLIN) by (intros; apply Z.land_comm).
  assert (Hout : forall s, Z.land ZMQ_POLLOUT (ready v s) = Z.land (ready v s) ZMQ_POLLOUT) by (intros; apply Z.land_comm).
  intros Hw. destruct w; try done;
    cbn [watched omap list_omap SocketPoller.it_target SocketPoller.it_events item];
    rewrite ?land_both, ?Hin, ?Hout;
    repeat match goal with |- context [Z.land ?x ?y =? 0] => destruct (Z.land x y =? 0) end; reflexivity.
Qed.

Lemma take_watched rev v w :
  take 3 (SocketPoller.happened rev (ready v) (watched w)) = SocketPoller.happened rev (ready v) (watched w).
Proof.
  apply take_ge. unfold SocketPoller.happened.
  assert (Hl : forall (f : SocketPoller.item -> option event) l, (length (omap f l) <= length l)%nat).
  { intros f l. induction l as [|i l IH]; [done|]. simpl. destruct (f i); [by apply le_n_S|by apply Nat.le_le_succ_r]. }
  etransitivity; [apply Hl|]. destruct w; simpl; lia.
Qed.

(** ** The invariant

    After a turn the flags are still true; each poller but [In] was chosen because of some
    flags that stay until it is left. *)
Definition chosen (fi fo bi bo : bool) (w : which) : Prop :=
  match w with
  | In => True
  | ReceiveBlocked => fi = true
  | SendBlocked => bi = true
  | BothBlocked => fi = true /\ bi = true
  | FrontendOnly => bo = true
  | BackendOnly => fo = true
  | All | Control => False
  end.

Record inv (p : proxy) (v : V) : Prop := {
  i_ok w : SocketPoller.ok (pollers p w);
  i_items w : Forall2 SocketPoller.same_item (watched w) (items (pollers p w));
  i_active : state p = Active;
  i_control : control_in p = false;
  i_frontend_in : frontend_in p = true -> readable v frontend_ = true;
  i_frontend_out : frontend_out p = true -> writable v frontend_ = true;
  i_backend_in : backend_in p = true -> readable v backend_ = true;
  i_backend_out : backend_out p = true -> writable v backend_ = true;
  i_chosen : chosen (frontend_in p) (frontend_out p) (backend_in p) (backend_out p) (poller_wait p)
}.

(** While there is something to forward the proxy does not sleep, whatever it waits for. *)
Lemma wakes_for_work v fi fo bi bo w :
  chosen fi fo bi bo w ->
  readable v frontend_ && writable v backend_ || readable v backend_ && writable v frontend_ = true ->
  wakes v w = true.
Proof.
  unfold wakes, chosen. destruct w; try done;
    destruct (readable v frontend_), (writable v frontend_), (readable v backend_), (writable v backend_); done.
Qed.

(** The decision: the poller that is chosen, and the flags with which it was. *)
Lemma decision_chosen fi fo bi bo fi0 fo0 bi0 bo0 w :
  chosen fi0 fo0 bi0 bo0 w ->
  (fi0 = true -> fi = true) -> (fo0 = true -> fo = true) -> (bi0 = true -> bi = true) -> (bo0 = true -> bo = true) ->
  let request := fi && bo in
  let reply := bi && fo in
  chosen (if request then false else fi) (if reply then false else fo) (if reply then false else bi)
    (if request then false else bo)
    (if request || reply then enable request reply w else disable fi fo bi bo w).
Proof.
  intros Hc Hfi Hfo Hbi Hbo.
  destruct w, fi, fo, bi, bo; simpl in *; intuition congruence.
Qed.

(** A turn that forwards nothing leaves a poller that sleeps, except when one socket alone is watched and both could be
    written to. *)
Lemma idle_sleeps v fi0 fo0 bi0 bo0 w :
  let fi := readable v frontend_ in let fo := writable v frontend_ in
  let bi := readable v backend_ in let bo := writable v backend_ in
  chosen fi0 fo0 bi0 bo0 w ->
  (fi0 = true -> fi = true) -> (fo0 = true -> fo = true) -> (bi0 = true -> bi = true) -> (bo0 = true -> bo = true) ->
  fi && bo = false -> bi && fo = false ->
  wakes v (disable fi fo bi bo w) = false \/
  (w = FrontendOnly \/ w = BackendOnly) /\ disable fi fo bi bo w = w /\
    fi = false /\ bi = false /\ fo = true /\ bo = true.
Proof.
  intros fi fo bi bo. unfold wakes. fold fi fo bi bo. clearbody fi fo bi bo.
  intros Hc Hfi Hfo Hbi Hbo Hreq Hrep.
  destruct w, fi, fo, bi, bo; simpl in *; try done; try (by left); try (by destruct Hc); naive_solver.
Qed.

(** After all events were read the flags are what is ready. *)
Definition exact (p : proxy) (v : V) : Prop :=
  frontend_in p = readable v frontend_ /\ frontend_out p = writable v frontend_ /\
  backend_in p = readable v backend_ /\ backend_out p = writable v backend_.

Definition event_of (v : V) (s : nat) : list event :=
  if (Z.land both (ready v s) =? 0) then [] else [SocketPoller.Event (Socket s) 0 (Z.land both (ready v s))].

Lemma happened_all rev v :
  SocketPoller.happened rev (ready v) (watched All) = event_of v frontend_ ++ event_of v backend_.
Proof.
  unfold SocketPoller.happened, SocketPoller.happens, event_of.
  cbn [watched omap list_omap SocketPoller.it_target SocketPoller.it_events SocketPoller.user_data item].
  by destruct (Z.land both (ready v frontend_) =? 0), (Z.land both (ready v backend_) =? 0).
Qed.

Lemma read_frontend v p :
  (frontend_in p = true -> readable v frontend_ = true) -> (frontend_out p = true -> writable v frontend_ = true) ->
  fold_left (read_event frontend_ backend_ None) (event_of v frontend_) p =
    set_flags (readable v frontend_) (writable v frontend_) (backend_in p) (backend_out p) p.
Proof.
  intros Hi Ho. unfold event_of. rewrite land_both. unfold readable, writable in *.
  destruct (_ && _) eqn:E.
  - apply andb_true_iff in E as [E1 E2]. rewrite E1, E2 in *. destruct p as [st [] [] bi bo ci w ps fs bs]; try done;
      naive_solver.
  - cbn [fold_left]. unfold read_event. cbn [ev_target ev_events]. rewrite decide_True by done. by rewrite land_in, land_out.
Qed.

Lemma read_backend v p :
  (backend_in p = true -> readable v backend_ = true) -> (backend_out p = true -> writable v backend_ = true) ->
  fold_left (read_event frontend_ backend_ None) (event_of v backend_) p =
    set_flags (frontend_in p) (frontend_out p) (readable v backend_) (writable v backend_) p.
Proof.
  intros Hi Ho. unfold event_of. rewrite land_both. unfold readable, writable in *.
  destruct (_ && _) eqn:E.
  - apply andb_true_iff in E as [E1 E2]. rewrite E1, E2 in *. destruct p as [st fi fo [] [] ci w ps fs bs]; try done;
      naive_solver.
  - cbn [fold_left]. unfold read_event. cbn [ev_target ev_events].
    rewrite decide_False by congruence. rewrite decide_True by done. by rewrite land_in, land_out.
Qed.

Lemma read_events_exact rev p v :
  (frontend_in p = true -> readable v frontend_ = true) -> (frontend_out p = true -> writable v frontend_ = true) ->
  (backend_in p = true -> readable v backend_ = true) -> (backend_out p = true -> writable v backend_ = true) ->
  fold_left (read_event frontend_ backend_ None) (SocketPoller.happened rev (ready v) (watched All)) p =
    set_flags (readable v frontend_) (writable v frontend_) (readable v backend_) (writable v backend_) p.
Proof.
  intros Hfi Hfo Hbi Hbo. rewrite happened_all, fold_left_app, read_frontend by done. by rewrite read_backend.
Qed.

(** Nothing was forwarded: the counters of messages are what they were. *)
Definition idle (p p' : proxy) : Prop :=
  msg_in (frontend_stats p') = msg_in (frontend_stats p) /\ msg_in (backend_stats p') = msg_in (backend_stats p).

Lemma counter_moves x : u64 (x + 1) <> x.
Proof.
  unfold u64. intros E. assert (0 <= x < 2 ^ 64) by (rewrite <- E; apply Z.mod_pos_bound; lia).
  destruct (Z.eq_dec x (2 ^ 64 - 1)) as [->|]; [by vm_compute in E|]. rewrite Z.mod_small in E; lia.
Qed.

Lemma forward_counts fuel from fs to ts v v' rc fs' ts' :
  forward fuel from fs to ts capture_ v = Done (v', (rc, fs', ts')) ->
  match rc with
  | Ok => msg_in fs' = u64 (msg_in fs + 1) /\ msg_in ts' = msg_in ts
  | _ => True
  end.
Proof.
  unfold forward. intros E. apply sbind_inv in E as (v1 & [rc1 n] & _ & E). by destruct rc1; injection E as <- <- <- <-.
Qed.

(** A turn keeps the invariant.  A turn that forwards nothing sees the sockets as it leaves them. *)
Lemma wait_on_spec rounds t w p v v' rc evs p' :
  inv p v -> w <> Control -> wait_on rounds t w p v = Done (v', (rc, evs, p')) ->
  grows v v' /\ (exists x, p' = set_poller w x p) /\
  (forall w', SocketPoller.ok (pollers p' w') /\ Forall2 SocketPoller.same_item (watched w') (items (pollers p' w'))) /\
  (t = 0 -> rc = Ok -> exists rev, evs = SocketPoller.happened rev (ready v') (watched w)).
Proof.
  intros Hi Hw E. unfold wait_on in E. apply sbind_inv in E as (v1 & [[rc1 evs1] x] & E1 & E).
  pose proof (wait_grows _ _ _ _ _ _ _ E1) as Hg.
  destruct (SocketPoller.wait_keeps _ _ _ _ _ _ _ _ _ (i_ok _ _ Hi w) E1) as [Hok Hsame].
  assert (Hps : forall w', SocketPoller.ok (pollers (set_poller w x p) w') /\
    Forall2 SocketPoller.same_item (watched w') (items (pollers (set_poller w x p) w'))).
  { intros w'. simpl. destruct (decide (w' = w)) as [->|]; [|split; apply Hi]. split; [done|].
    pose proof (i_items _ _ Hi w) as H12. revert Hsame. clear -H12. generalize (items x). induction H12 as [|i j l k (? & ? & ?) _ IH];
      intros l' Hs; inversion Hs as [|? j' ? k' (? & ? & ?) ?]; subst; constructor; [|by apply IH].
    repeat split; congruence. }
  assert (Hwatch : SocketPoller.watching (items (pollers p w)) = true).
  { pose proof (i_items _ _ Hi w) as H12. clear -H12 Hw. unfold SocketPoller.watching.
    destruct w; try done; inversion H12 as [|? ? ? ? (_ & _ & He)]; subst; simpl; by rewrite He. }
  assert (Hfds : SocketPoller.fds_watched (items (pollers p w))).
  { eapply SocketPoller.same_item_fds; [apply Hi|]. unfold SocketPoller.fds_watched. by destruct w; repeat constructor. }
  pose proof (SocketPoller.wait_result ready sys _ _ _ _ _ _ _ _ _ (rl_poll_laws L) (i_ok _ _ Hi w) Hwatch Hfds E1) as Hres.
  assert (Hhap : forall rev r, SocketPoller.happened rev r (items (pollers p w)) = SocketPoller.happened rev r (watched w)).
  { intros rev r. by apply SocketPoller.same_item_happened, Hi. }
  assert (Hout : (rc1 = Err EAGAIN /\ v' = v1 /\ rc = Ok /\ evs = [] \/ v' = v1 /\ rc = rc1 /\ evs = evs1 /\ rc1 <> Err EAGAIN) /\
    p' = set_poller w x p).
  { destruct rc1 as [|[]|]; injection E as <- <- <- <-; split; try done; auto 10. }
  destruct Hout as [Hout ->]. split; [destruct Hout as [(_ & -> & _)|(-> & _)]; done|].
  split; [by exists x|]. split; [done|]. intros -> Hrc.
  destruct Hout as [(-> & -> & _ & ->)|(-> & -> & -> & _)].
  - destruct Hres as [_ [?|[?|(_ & [[_ (? & w1 & w2 & _ & _ & Hn & Hr)]|[? _]])]]]; [done..| |done]. exists (sys w1).
    by rewrite Hr, <- take_watched, <- Hhap, <- Hn.
  - subst rc1. destruct Hres as [_ (k & wl & _ & _ & ? & w1 & w2 & _ & _ & -> & Hr)]. exists (sys w1).
    by rewrite Hr, Hhap, take_watched.
Qed.

Lemma inv_set_poller w x p v v' :
  inv p v -> grows v v' ->
  (forall w', SocketPoller.ok (pollers (set_poller w x p) w') /\
    Forall2 SocketPoller.same_item (watched w') (items (pollers (set_poller w x p) w'))) ->
  inv (set_poller w x p) v'.
Proof.
  intros [Hok Hit Ha Hc Hfi Hfo Hbi Hbo Hch] Hg Hp.
  split; simpl; try done; try (intros w'; apply Hp); intros E; apply Hg; auto.
Qed.

(** The forwarding part, for flags that are what is ready. *)
Definition request_of (v : V) : bool := readable v frontend_ && writable v backend_.
Definition reply_of (v : V) : bool := readable v backend_ && writable v frontend_.

Lemma process_active_spec fuel fi0 fo0 bi0 bo0 p v v' p' :
  inv (set_flags fi0 fo0 bi0 bo0 p) v -> exact p v ->
  process_active frontend_ backend_ capture_ fuel p v = Done (v', Continue p') ->
  inv p' v' /\
  (idle p p' -> request_of v = false /\ reply_of v = false /\ v' = v /\
    poller_wait p' = disable (readable v frontend_) (writable v frontend_) (readable v backend_) (writable v backend_)
                       (poller_wait p)).
Proof.
  intros [Hok Hit Ha Hc Hfi Hfo Hbi Hbo Hch] (Efi & Efo & Ebi & Ebo) E. simpl in *.
  unfold process_active in E. unfold frontend_equal_to_backend in E. rewrite bool_decide_eq_false_2, orb_false_r in E by done.
  rewrite Efi, Ebo in E. fold (request_of v) in E.
  apply sbind_inv in E as (v1 & [rc1 p1] & E1 & E).
  assert (H1' : rc1 = Ok -> spends frontend_ backend_ v v1 /\
    (request_of v = false -> v1 = v /\ p1 = p) /\
    (request_of v = true -> msg_in (frontend_stats p1) <> msg_in (frontend_stats p) /\
       msg_in (backend_stats p1) = msg_in (backend_stats p)) /\
    p1 = set_flags (if request_of v then false else frontend_in p) (frontend_out p) (backend_in p)
      (if request_of v then false else backend_out p) (set_stats (frontend_stats p1) (backend_stats p1) p)).
  { intros ->. destruct (request_of v).
    - apply sbind_inv in E1 as (v2 & [[rc2 fs] bs] & E2 & E1). injection E1 as <- -> <-.
      pose proof (forward_spends _ _ _ _ _ _ _ _ E2). apply forward_counts in E2 as [Hf Hb].
      split_and!; try done. intros _. simpl. split; [rewrite Hf; apply counter_moves|done].
    - injection E1 as <- <-. split_and!; [by intros s|done|done|]. by destruct p. }
  destruct rc1; [|discriminate..]. destruct (H1' eq_refl) as (Hs1 & Hn1 & Hy1 & Ep1). clear H1'.
  assert (Efl : backend_in p1 = backend_in p /\ frontend_out p1 = frontend_out p) by (rewrite Ep1; done).
  destruct Efl as [-> ->] in E. rewrite Ebi, Efo in E. fold (reply_of v) in E.
  apply sbind_inv in E as (v2 & [rc2 p2] & E2 & E).
  assert (H2' : rc2 = Ok -> spends backend_ frontend_ v1 v2 /\
    (reply_of v = false -> v2 = v1 /\ p2 = p1) /\
    (reply_of v = true -> msg_in (backend_stats p2) <> msg_in (backend_stats p1) /\
       msg_in (frontend_stats p2) = msg_in (frontend_stats p1)) /\
    p2 = set_flags (frontend_in p1) (if reply_of v then false else frontend_out p1) (if reply_of v then false else backend_in p1)
      (backend_out p1) (set_stats (frontend_stats p2) (backend_stats p2) p1)).
  { intros ->. destruct (reply_of v).
    - apply sbind_inv in E2 as (v3 & [[rc3 bs] fs] & E3 & E2). injection E2 as <- -> <-.
      pose proof (forward_spends _ _ _ _ _ _ _ _ E3). apply forward_counts in E3 as [Hb Hf].
      split_and!; try done. intros _. simpl. split; [rewrite Hb; apply counter_moves|done].
    - injection E2 as <- <-. split_and!; [by intros s|done|done|]. by destruct p1. }
  destruct rc2; [|discriminate..]. destruct (H2' eq_refl) as (Hs2 & Hn2 & Hy2 & Ep2). clear H2'.
  injection E as <- <-. split.
  - pose proof (decision_chosen (readable v frontend_) (writable v frontend_) (readable v backend_) (writable v backend_)
      fi0 fo0 bi0 bo0 (poller_wait p) Hch Hfi Hfo Hbi Hbo) as Hd. cbn zeta in Hd.
    fold (request_of v) (reply_of v) in Hd.
    assert (Hfl : frontend_in p2 = (if request_of v then false else readable v frontend_) /\
      frontend_out p2 = (if reply_of v then false else writable v frontend_) /\
      backend_in p2 = (if reply_of v then false else readable v backend_) /\
      backend_out p2 = (if request_of v then false else writable v backend_) /\
      poller_wait p2 = poller_wait p /\ state p2 = state p /\ control_in p2 = control_in p /\ pollers p2 = pollers p).
    { rewrite Ep2, Ep1. simpl. by rewrite Efi, Efo, Ebi, Ebo. }
    destruct Hfl as (F1 & F2 & F3 & F4 & F5 & F6 & F7 & F8).
    split; simpl; rewrite ?F1, ?F2, ?F3, ?F4, ?F5, ?F6, ?F7, ?F8; try done.
    + intros Hx. destruct (request_of v) eqn:Er; [done|]. apply Hs2; [done|]. destruct (Hn1 ltac:(done)) as [-> _]. done.
    + intros Hx. destruct (reply_of v) eqn:Ey; [done|]. destruct (Hn2 ltac:(done)) as [-> _]. by apply Hs1.
    + intros Hx. destruct (reply_of v) eqn:Ey; [done|]. destruct (Hn2 ltac:(done)) as [-> _]. apply Hs1; [congruence|done].
    + intros Hx. destruct (request_of v) eqn:Er; [done|]. apply Hs2; [congruence|done|]. destruct (Hn1 ltac:(done)) as [-> _]. done.
    + destruct (request_of v || reply_of v) eqn:Eor; [exact Hd|].
      apply orb_false_iff in Eor as [Er Ey]. rewrite Er, Ey in *. exact Hd.
  - intros [Hi1 Hi2]. simpl in Hi1, Hi2. destruct (request_of v) eqn:Er.
    { exfalso. destruct (Hy1 ltac:(done)) as [Hne _]. apply Hne.
      destruct (reply_of v) eqn:Ey; [|destruct (Hn2 ltac:(done)) as [_ ->]; congruence].
      destruct (Hy2 ltac:(done)) as [_ Hf]. congruence. }
    destruct (Hn1 ltac:(done)) as [-> ->]. destruct (reply_of v) eqn:Ey.
    { exfalso. by destruct (Hy2 ltac:(done)) as [Hne _]. }
    destruct (Hn2 ltac:(done)) as [-> ->]. split_and!; try done. simpl. by rewrite Efi, Efo, Ebi, Ebo.
Qed.

Lemma turn_spec rounds fuel p v v' p' :
  inv p v -> turn draft frontend_ backend_ capture_ None rounds fuel p v = Done (v', Continue p') ->
  inv p' v' /\
  (idle p p' -> grows v v' /\ poller_wait p' = disable (readable v' frontend_) (writable v' frontend_)
    (readable v' backend_) (writable v' backend_) (poller_wait p)) /\
  (idle p p' -> wakes v' (poller_wait p') = false \/
    (poller_wait p' = FrontendOnly \/ poller_wait p' = BackendOnly) /\ poller_wait p' = poller_wait p /\
    readable v' frontend_ = false /\ readable v' backend_ = false /\
    writable v' frontend_ = true /\ writable v' backend_ = true).
Proof.
  intros Hi E. unfold turn in E. apply sbind_inv in E as (v1 & [[rc1 evs1] p1] & E1 & E).
  assert (Hw : poller_wait p <> Control) by (intros Ew; pose proof (i_chosen _ _ Hi) as Hc; by rewrite Ew in Hc).
  destruct (wait_on_spec _ _ _ _ _ _ _ _ _ Hi Hw E1) as (Hg1 & (x1 & ->) & Hp1 & _).
  destruct rc1; [|discriminate..].
  pose proof (inv_set_poller _ _ _ _ _ Hi Hg1 Hp1) as Hi1.
  apply sbind_inv in E as (v2 & [[rc2 evs2] p2] & E2 & E).
  assert (Hall : All <> Control) by done.
  destruct (wait_on_spec _ _ _ _ _ _ _ _ _ Hi1 Hall E2) as (Hg2 & (x2 & ->) & Hp2 & Hev).
  destruct rc2; [|discriminate..]. destruct (Hev eq_refl eq_refl) as (rev & ->).
  pose proof (inv_set_poller _ _ _ _ _ Hi1 Hg2 Hp2) as Hi2. clear Hi1 Hp1 Hp2 Hev E1 E2.
  set (p2 := set_poller All x2 (set_poller (poller_wait p) x1 p)) in *.
  rewrite read_events_exact in E by apply Hi2.
  assert (Hp2f : poller_wait p2 = poller_wait p /\ frontend_stats p2 = frontend_stats p /\ backend_stats p2 = backend_stats p) by done.
  clearbody p2. destruct Hp2f as (Hpw & Hfs & Hbs).
  set (p3 := set_flags _ _ _ _ p2) in E.
  assert (Hc3 : control_in p3 = false) by apply Hi2. rewrite Hc3 in E.
  apply sbind_inv in E as (v3 & r & E3 & E). injection E3 as <- <-.
  assert (Ha3 : state p3 = Active) by apply Hi2. rewrite decide_True in E by done.
  destruct (process_active_spec fuel (frontend_in p2) (frontend_out p2) (backend_in p2) (backend_out p2) p3 v2 v' p')
    as [Hi' Hidle]; [unfold p3; by destruct p2|done|exact E|].
  split; [exact Hi'|].
  assert (Hid' : idle p p' -> idle p3 p') by (intros [H3 H4]; split; simpl; congruence).
  split; intros Hid; destruct (Hidle (Hid' Hid)) as (Hreq & Hrep & -> & Hpw').
  { split; [by etransitivity|]. by rewrite Hpw', <- Hpw. }
  destruct (idle_sleeps v2 (frontend_in p2) (frontend_out p2) (backend_in p2) (backend_out p2) (poller_wait p2))
    as [Hsl|(Hone & Hsame & F1 & F2 & F3 & F4)]; try apply Hi2; try done.
  - left. rewrite Hpw'. exact Hsl.
  - right. rewrite Hpw'. change (poller_wait p3) with (poller_wait p2).
    rewrite Hsame. split; [done|]. split; [by rewrite Hpw|]. done.
Qed.

(** *** The registrations *)
Lemma add_spec s e (x : poller) (v v' : V) x' :
  SocketPoller.ok x -> add s 0 e x v = Done (v', (None, x')) ->
  SocketPoller.ok x' /\ items x' = items x ++ [item s e].
Proof.
  intros Hok E. split; [by apply (SocketPoller.sp_run_call_spec (SocketPoller.Add s 0 e)) in E as [? _]|].
  unfold add in E. destruct (SocketPoller.find _ _); [discriminate|].
  apply sbind_inv in E as (v1 & [rc1 x1] & E1 & E).
  destruct rc1; [discriminate|]. injection E as <- <-. simpl. f_equal.
  destruct (SocketPoller.thread_safe s); [|by injection E1 as _ ->].
  apply sbind_inv in E1 as (v2 & [rc2 x2] & E2 & E1).
  apply SocketPoller.make_signaler_spec in E2 as [Hi _]; [|done]. destruct rc2; [discriminate|].
  apply sbind_inv in E1 as (v3 & u & E3 & E1). injection E1 as _ <-. exact Hi.
Qed.

Lemma proxy_register_spec l : forall p v v' p',
  (forall w, SocketPoller.ok (pollers p w)) -> register l p v = Done (v', (None, p')) ->
  (forall w, SocketPoller.ok (pollers p' w) /\
    items (pollers p' w) = items (pollers p w) ++ map (fun r => item r.1.2 r.2) (List.filter (fun r => bool_decide (r.1.1 = w)) l)) /\
  p' = MkProxy (state p) (frontend_in p) (frontend_out p) (backend_in p) (backend_out p) (control_in p) (poller_wait p)
         (pollers p') (frontend_stats p) (backend_stats p).
Proof.
  induction l as [|[[w s] e] l IH]; intros p v v' p' Hok E; simpl in E.
  { injection E as <- <-. split; [|by destruct p]. intros w. simpl. by rewrite app_nil_r. }
  apply sbind_inv in E as (v1 & [rc x] & E1 & E). destruct rc; [discriminate|].
  destruct (add_spec _ _ _ _ _ _ (Hok w) E1) as [Hokx Hitx].
  assert (Hok' : forall w', SocketPoller.ok (pollers (set_poller w x p) w')).
  { intros w'. simpl. destruct (decide (w' = w)); [exact Hokx|apply Hok]. }
  destruct (IH _ _ _ _ Hok' E) as [Hall Hp'].
  split; [|exact Hp']. intros w'. destruct (Hall w') as [Ho Hit]. split; [done|]. rewrite Hit. simpl.
  destruct (decide (w' = w)) as [->|Hne].
  - rewrite bool_decide_eq_true_2 by done. simpl. rewrite Hitx. by rewrite <- app_assoc.
  - by rewrite bool_decide_eq_false_2 by congruence.
Qed.

Lemma inv_start v0 v p :
  register (registrations frontend_ backend_ None) proxy_new v0 = Done (v, (None, p)) -> inv p v.
Proof.
  intros E. apply proxy_register_spec in E as [Hall Hp]; [|intros w; apply SocketPoller.sp_ok_new].
  assert (Hit : forall w, items (pollers p w) = watched w).
  { intros w. destruct (Hall w) as [_ ->]. unfold registrations, frontend_equal_to_backend.
    rewrite bool_decide_eq_false_2 by done. by destruct w. }
  split; try (rewrite Hp; done); [apply Hall|]. intros w. rewrite Hit.
  induction (watched w) as [|i l IH]; constructor; [by repeat split|exact IH].
Qed.

(** The states of a proxy: it registers its sockets and takes turns; between turns sockets may
    become ready. *)
Inductive reach : proxy -> V -> Prop :=
| reach_start v0 v p :
    register (registrations frontend_ backend_ None) proxy_new v0 = Done (v, (None, p)) -> reach p v
| reach_turn rounds fuel p v v' p' :
    reach p v -> turn draft frontend_ backend_ capture_ None rounds fuel p v = Done (v', Continue p') -> reach p' v'
| reach_world p v v' : reach p v -> grows v v' -> reach p v'.

Lemma reach_inv_proxy p v : reach p v -> inv p v.
Proof.
  induction 1 as [v0 v p E|rounds fuel p v v' p' _ IH E|p v v' _ IH Hg]; [by eapply inv_start|by eapply turn_spec|].
  destruct IH as [Hok Hit Ha Hc Hfi Hfo Hbi Hbo Hch]. split; try done; intros Hf; apply Hg; auto.
Qed.

(** The events for which the next wait would return. *)
Definition events_now (p : proxy) (v : V) : list event :=
  SocketPoller.happened (sys v) (ready v) (items (pollers p (poller_wait p))).

Lemma events_now_wakes p v : inv p v -> wakes v (poller_wait p) = bool_decide (events_now p v <> []).
Proof.
  intros Hi. unfold events_now.
  rewrite (SocketPoller.same_item_happened _ _ _ _ (i_items _ _ Hi (poller_wait p))).
  apply wakes_spec. intros Ew. pose proof (i_chosen _ _ Hi) as Hc. by rewrite Ew in Hc.
Qed.

(** One socket is watched alone, nothing can be read, and both sockets can be written to. *)
Definition spins (p : proxy) (v : V) : Prop :=
  (poller_wait p = FrontendOnly \/ poller_wait p = BackendOnly) /\
  readable v frontend_ = false /\ readable v backend_ = false /\
  writable v frontend_ = true /\ writable v backend_ = true.

Lemma spins_on rounds fuel p v v' p' :
  inv p v -> spins p v -> turn draft frontend_ backend_ capture_ None rounds fuel p v = Done (v', Continue p') ->
  idle p p' -> readable v' frontend_ = false -> readable v' backend_ = false ->
  spins p' v' /\ events_now p' v' <> [].
Proof.
  intros Hi (Hw & _ & _ & Hwf & Hwb) E Hid Hrf' Hrb'.
  destruct (turn_spec _ _ _ _ _ _ Hi E) as (Hi' & Hidle & _). destruct (Hidle Hid) as [Hg Hpw].
  rewrite Hrf', Hrb' in Hpw. simpl in Hpw.
  assert (Hs : spins p' v') by (split; [by rewrite Hpw|repeat split; [done|done|by apply Hg..]]).
  split; [exact Hs|]. apply (bool_decide_eq_true (events_now p' v' <> [])). rewrite <- events_now_wakes by done.
  rewrite Hpw. destruct Hs as (_ & _ & _ & Hf & Hb). unfold wakes. destruct Hw as [->| ->]; by rewrite ?Hf, ?Hb, orb_true_r.
Qed.
End Waiting.

(** ** Properties *)

(** C10: [forward] moves one message, whole: the parts it received are the parts it sent, in order, each with the
    flag that tells whether another follows, the last without; the socket that captures
    gets the same; and both statistics count one message and its bytes.  When it fails, what the other socket was
    given is the beginning of what was received, without a last part. *)
Theorem forward_moves_message {V T} `{Message T} `{ProxySockets V T} `{PollOps V} got put fuel from fs to ts cap
    (v v' : V) rc fs' ts' :
  socket_laws got put -> cap <> Some to ->
  forward fuel from fs to ts cap v = Done (v', (rc, fs', ts')) ->
  match rc with
  | Ok => exists l, whole l /\ moved got put from to cap l v v' /\
      fs' = received (u64 (total_size l)) fs /\ ts' = forwarded (u64 (total_size l)) ts
  | _ => fs' = fs /\ ts' = ts /\
      exists l r, Forall (fun m => has_more m = true) l /\ (length r <= 1)%nat /\
        got v' from = got v from ++ l ++ r /\ put v' to = put v to ++ with_flags l
  end.
Proof.
  intros L Hc E. unfold forward in E. apply sbind_inv in E as (v1 & [rc1 n] & E1 & E).
  pose proof (forward_loop_spec got put L fuel from to cap Hc _ _ _ _ _ E1) as Hs.
  destruct rc1; injection E as <- <- <- <-; [|done..].
  destruct Hs as (l & Hw & Hm & Hn). exists l. by rewrite Hn.
Qed.

(** C11: the proxy waits for the right things.  In every state it can reach, whatever happened before: while a message
    could go from one of its sockets to the other, the poller it waits on
    has an event, so it does not sleep; and after a turn that moved nothing the
    poller has no event, so it does not run in circles, unless the poller watches one
    socket alone, no socket has a message and both could be written to. *)
Theorem proxy_waits_right {V T} `{Message T} `{ProxySockets V T} `{PollOps V} ready sys draft f b cap p (v : V) :
  ready_laws (T := T) ready sys -> f <> b -> cap <> Some f -> cap <> Some b ->
  reach ready draft f b cap p v ->
  (request_of ready f b v || reply_of ready f b v = true -> events_now ready sys p v <> []) /\
  (forall rounds fuel v' p', turn draft f b cap None rounds fuel p v = Done (v', Continue p') -> idle p p' ->
     events_now ready sys p' v' = [] \/ spins ready f b p' v').
Proof.
  intros L Hd Hcf Hcb Hr. pose proof (reach_inv_proxy ready sys draft f b cap L Hd Hcf Hcb p v Hr) as Hi. split.
  - intros Hw. apply (bool_decide_eq_true (events_now ready sys p v <> [])).
    rewrite <- (events_now_wakes ready sys f b) by done. eapply wakes_for_work; [apply Hi|exact Hw].
  - intros rounds fuel v' p' E Hid.
    destruct (turn_spec ready sys draft f b cap L Hd Hcf Hcb _ _ _ _ _ _ Hi E) as (Hi' & _ & Hs).
    destruct (Hs Hid) as [Hsl|(Hw & _ & F)]; [left|by right].
    rewrite (events_now_wakes ready sys f b) in Hsl by done. apply bool_decide_eq_false in Hsl.
    destruct (events_now ready sys p' v'); [done|]. exfalso. by apply Hsl.
Qed.

(** ** A laboratory: queues of messages and room for messages *)

Definition lab_msg : Type := option (list Z * bool).

#[global] Program Instance lab_message : Message lab_msg := {
  msg_init := Some ([], false);
  msg_delimiter := None;
  is_delimiter := fun m => match m with None => true | Some _ => false end;
  is_credential := fun _ => false;
  is_routing_id := fun _ => false;
  has_more := fun m => match m with None => false | Some (_, b) => b end;
  msg_data := fun m => match m with None => [] | Some (d, _) => d end
}.
Solve All Obligations with done.

Record lab : Type := Lab {
  inbox : nat -> list lab_msg;
  room : nat -> nat;
  got : nat -> list lab_msg;
  put : nat -> list (lab_msg * bool)
}.

Definition upd {A} (s : nat) (x : A) (g : nat -> A) : nat -> A := fun s' => if decide (s' = s) then x else g s'.

Definition lab_ready (v : lab) (s : nat) : Z :=
  Z.lor (match inbox v s with [] => 0 | _ => ZMQ_POLLIN end) (match room v s with O => 0 | S _ => ZMQ_POLLOUT end).

#[global] Instance lab_sockets : ProxySockets lab lab_msg := {
  recv := fun s v => match inbox v s with
                     | [] => Done (v, (Blocked, None))
                     | m :: l => Done (Lab (upd s l (inbox v)) (room v) (upd s (got v s ++ [m]) (got v)) (put v), (Ok, m))
                     end;
  rcvmore := fun s v => Done (v, (Ok, match last (got v s) with Some m => has_more m | None => false end));
  send := fun s m b v => match room v s with
                         | O => Done (v, Blocked)
                         | S n => Done (Lab (inbox v) (upd s n (room v)) (got v) (upd s (put v s ++ [(m, b)]) (put v)), Ok)
                         end;
  message_of := fun d => Some (d, false)
}.

#[global] Instance lab_polls : PollOps lab := {
  SocketPoller.thread_safe := fun _ => false;
  SocketPoller.zmq_fd := fun s => Z.of_nat s;
  SocketPoller.zmq_events := fun s v => Done (v, inr (lab_ready v s));
  SocketPoller.add_signaler := fun _ => sret tt;
  SocketPoller.remove_signaler := fun _ => sret tt;
  SocketPoller.signaler_valid := sret true;
  SocketPoller.signaler_recv := sret tt;
  SocketPoller.signaler_fd := 99;
  SocketPoller.poll := fun fds _ v => Done (v, Some (map (fun _ => 0) fds));
  SocketPoller.usleep := fun _ => sret None;
  SocketPoller.now_ms := sret 0
}.

Definition lab_sys (v : lab) (x : Z * Z) : Z := 0.

Lemma lab_socket_laws : socket_laws (T := lab_msg) got put.
Proof.
  split.
  - intros s v v' rc m E. simpl in E. destruct (inbox v s); injection E as <- <- <-; simpl; split; try done.
  - intros s v v' rc b m [= <- <- <-]. split_and!; try done. intros _ E. simpl. by rewrite E.
  - intros s m b v v' rc E. simpl in E. destruct (room v s); injection E as <- <-; simpl; split; try done.
Qed.

Lemma lab_readable v s : readable lab_ready v s = match inbox v s with [] => false | _ => true end.
Proof. unfold readable, lab_ready. by destruct (inbox v s), (room v s). Qed.
Lemma lab_writable v s : writable lab_ready v s = match room v s with O => false | _ => true end.
Proof. unfold writable, lab_ready. by destruct (inbox v s), (room v s). Qed.

Lemma lab_ready_laws : ready_laws (T := lab_msg) lab_ready lab_sys.
Proof.
  split.
  - split; [by intros s v v' r [= <- <-]|by intros fds t v v' r [= <- <-]].
  - intros s v v' r E s'. rewrite !lab_readable, !lab_writable. simpl in E.
    destruct (inbox v s) eqn:Ei; injection E as <- _; simpl; [done|]. split; [|done].
    intros Hne. unfold upd. by rewrite decide_False.
  - intros s m b v v' r E s'. rewrite !lab_readable, !lab_writable. simpl in E.
    destruct (room v s) eqn:Ei; injection E as <- _; simpl; [done|]. split; [done|].
    intros Hne. unfold upd. by rewrite decide_False.
  - by intros s v v' r [= <- _].
  - by intros v v' r [= <- _].
  - by intros fds t v v' r [= <- _].
  - by intros t v v' r [= <- _].
  - by intros v v' r [= <- _].
Qed.

Definition lab0 (i : nat -> list lab_msg) (r : nat -> nat) : lab := Lab i r (fun _ => []) (fun _ => []).

Definition two_parts : list lab_msg := [Some ([1; 2], true); Some ([3], false)].

Lemma forward_moves_message_witness :
  exists v' fs' ts', forward 5 0 stats0 1 stats0 (Some 2%nat) (lab0 (upd 0 two_parts (fun _ => [])) (fun _ => 9%nat))
    = Done (v', (Ok, fs', ts')) /\ put v' 1 = [(Some ([1; 2], true), true); (Some ([3], false), false)] /\
    put v' 2 = put v' 1 /\ fs' = Stats 1 3 0 0.
Proof.
  destruct (forward 5 0 stats0 1 stats0 (Some 2%nat) (lab0 (upd 0%nat two_parts (fun _ => [])) (fun _ => 9%nat)))
    as [[v' [[rc fs'] ts']]|] eqn:E; [|discriminate].
  pose proof (forward_moves_message got put 5 0 stats0 1 stats0 (Some 2%nat) _ v' rc fs' ts' lab_socket_laws
    ltac:(discriminate) E) as Hs.
  assert (Hrc : rc = Ok) by (injection E as _ <-; reflexivity). subst rc.
  destruct Hs as (l & _ & (Hg & Hp & Hc & _) & Hfs & _).
  assert (Hl : l = two_parts).
  { specialize (Hg 0%nat). injection E as <- _ _. simpl in Hg. exact (eq_sym Hg). }
  subst l. exists v', fs', ts'. split; [reflexivity|]. split; [exact Hp|]. split; [|exact Hfs].
  rewrite (Hc 2%nat eq_refl), Hp. reflexivity.
Defined.

(** *** A proxy at work: socket 0 in front, socket 1 behind *)

Definition lab_start (v : lab) : proxy :=
  match register (registrations 0 1 None) proxy_new v with Done (_, (_, p)) => p | Crash => proxy_new end.
Abbreviation lab_turn p v := (turn (V := lab) (T := lab_msg) false 0 1 None None 2 5 p v).

(** A request has come, and the back socket has no room. *)
Definition lab1 : lab := lab0 (upd 0%nat [Some ([7], false)] (fun _ => [])) (upd 0%nat 9%nat (fun _ => O)).
(** Then it has. *)
Definition lab2 : lab := lab0 (upd 0%nat [Some ([7], false)] (fun _ => [])) (fun _ => 9%nat).

(** After the first turn, the proxy watches the back socket alone. *)
Definition lab_proxy1 : proxy :=
  match lab_turn (lab_start lab1) lab1 with Done (_, Continue p) => p | _ => proxy_new end.

Lemma lab_registers : register (registrations 0 1 None) proxy_new lab1 = Done (lab1, (None, lab_start lab1)).
Proof.
  assert (H : match register (registrations 0 1 None) proxy_new lab1 with
    | Done (v, (rc, _)) => v = lab1 /\ rc = None | Crash => False end) by (vm_compute; by split).
  unfold lab_start. destruct (register (registrations 0 1 None) proxy_new lab1) as [[v [rc p]]|]; [|done].
  by destruct H as [-> ->].
Qed.

Lemma lab_turn1 : lab_turn (lab_start lab1) lab1 = Done (lab1, Continue lab_proxy1).
Proof.
  assert (H : match lab_turn (lab_start lab1) lab1 with Done (v, Continue _) => v = lab1 | _ => False end)
    by (vm_compute; reflexivity).
  unfold lab_proxy1. destruct (lab_turn (lab_start lab1) lab1) as [[v [p|rc]]|]; [by subst v|done..].
Qed.

Lemma lab_reach1 : reach (T := lab_msg) lab_ready false 0 1 None lab_proxy1 lab2.
Proof.
  apply (reach_world (T := lab_msg) lab_ready false 0 1 None lab_proxy1 lab1 lab2).
  - refine (reach_turn (T := lab_msg) lab_ready false 0 1 None 2 5 (lab_start lab1) lab1 lab1 lab_proxy1 _ lab_turn1).
    exact (reach_start (T := lab_msg) lab_ready false 0 1 None lab1 lab1 (lab_start lab1) lab_registers).
  - intros s. rewrite !lab_readable, !lab_writable. unfold lab1, lab2. cbn [inbox room lab0]. split; [done|].
    unfold upd at 1. by destruct (decide (s = 0%nat)).
Qed.

Lemma proxy_waits_right_witness :
  reach lab_ready false 0 1 None lab_proxy1 lab2 /\ request_of lab_ready 0 1 lab2 = true /\
  events_now lab_ready lab_sys lab_proxy1 lab2 <> [].
Proof.
  pose proof lab_reach1 as Hr. split; [exact Hr|]. split; [reflexivity|].
  destruct (proxy_waits_right lab_ready lab_sys false 0 1 None lab_proxy1 lab2 lab_ready_laws) as [Hw _];
    [discriminate|discriminate|discriminate|exact Hr|]. apply Hw. reflexivity.
Defined.

(** The second turn forwards the request; the back socket is still watched alone. *)
Definition lab_proxy2 : proxy := match lab_turn lab_proxy1 lab2 with Done (_, Continue p) => p | _ => proxy_new end.
Definition lab3 : lab := match lab_turn lab_proxy1 lab2 with Done (v, Continue _) => v | _ => lab2 end.

Lemma lab_turn2 : lab_turn lab_proxy1 lab2 = Done (lab3, Continue lab_proxy2).
Proof.
  assert (H : match lab_turn lab_proxy1 lab2 with Done (v, Continue _) => True | _ => False end) by (vm_compute; exact I).
  unfold lab_proxy2, lab3. by destruct (lab_turn lab_proxy1 lab2) as [[v [p|rc]]|].
Qed.

Lemma lab_reach2 : reach (T := lab_msg) lab_ready false 0 1 None lab_proxy2 lab3.
Proof. exact (reach_turn (T := lab_msg) lab_ready false 0 1 None 2 5 lab_proxy1 lab2 lab3 lab_proxy2 lab_reach1 lab_turn2). Qed.

(** The proxy can run in circles.  A message came while the back socket could not be written to,
    so the proxy watched the back socket alone; when it could, the message was forwarded,
    but [poller_wait] stays ([enable] gives [FrontendOnly] back to [In] after a request, not
    [BackendOnly]).  Nothing can be read any more, the poller has an event all
    the same, the room of the back socket, and every turn that moves nothing leaves it so: the
    thread polls without sleeping until a message comes from the back socket. *)
Theorem proxy_spins :
  reach (T := lab_msg) lab_ready false 0 1 None lab_proxy2 lab3 /\
  inbox lab3 0 = [] /\ inbox lab3 1 = [] /\ put lab3 1 = [(Some ([7], false), false)] /\
  spins lab_ready 0 1 lab_proxy2 lab3 /\ events_now lab_ready lab_sys lab_proxy2 lab3 <> [] /\
  forall p v rounds fuel v' p',
    reach (T := lab_msg) lab_ready false 0 1 None p v -> spins lab_ready 0 1 p v ->
    turn (T := lab_msg) false 0 1 None None rounds fuel p v = Done (v', Continue p') -> idle p p' ->
    inbox v' 0 = [] -> inbox v' 1 = [] ->
    spins lab_ready 0 1 p' v' /\ events_now lab_ready lab_sys p' v' <> [].
Proof.
  split; [exact lab_reach2|]. split; [vm_compute; reflexivity|]. split; [vm_compute; reflexivity|].
  split; [vm_compute; reflexivity|]. split; [split; [right; vm_compute; reflexivity|vm_compute; by split_and!]|].
  split; [vm_compute; discriminate|]. intros p v rounds fuel v' p' Hr Hs E Hid H0 H1.
  apply (spins_on lab_ready lab_sys false 0 1 None lab_ready_laws ltac:(done) ltac:(done) ltac:(done) rounds fuel p v);
    try done; [|by rewrite lab_readable, H0|by rewrite lab_readable, H1].
  by apply (reach_inv_proxy lab_ready lab_sys false 0 1 None lab_ready_laws ltac:(done) ltac:(done) ltac:(done)).
Qed.

End Proxy.
