(* ===== verification/Xpub.v ===== *)
(** * Xpub: xpub_t and pub_t, the publishing sockets (libzmq/src/xpub.cpp, pub.cpp)

    A XPUB socket keeps the pipes subscribed to each prefix in a [Mtrie], sends a
    message to the pipes of its prefixes with a [Dist], and queues the subscriptions it
    received for its owner.  A PUB socket is a XPUB socket that queues none of them. *)

From S2P Require Import Prelude Radix Mtrie Msg Pipes Array Dist.

Module Xpub.

(** [ZMQ_PUB], [ZMQ_XPUB] and the options, from zmq.h. *)
Definition ZMQ_PUB : Z := 1.
Definition ZMQ_SUBSCRIBE : Z := 6.
Definition ZMQ_UNSUBSCRIBE : Z := 7.
Definition ZMQ_XPUB : Z := 9.
Definition ZMQ_XPUB_VERBOSE : Z := 40.
Definition ZMQ_XPUB_NODROP : Z := 69.
Definition ZMQ_XPUB_MANUAL : Z := 71.
Definition ZMQ_XPUB_WELCOME_MSG : Z := 72.
Definition ZMQ_XPUB_VERBOSER : Z := 78.

(** The three deques of pending messages are [pending_data], [pending_metadata] and
    [pending_flags]; [type] and [invert_matching] are [options]. *)
Record xpub : Type := Xpub {
  subscriptions : Mtrie.mtrie_t;
  manual_subscriptions : Mtrie.mtrie_t;
  dist : Dist.dist;
  verbose_subs : bool;
  verbose_unsubs : bool;
  more : bool;
  lossy : bool;
  manual : bool;
  last_pipe : option nat;
  pending_pipes : list (option nat);
  welcome_msg : Msg.msg;
  pending_data : list (list Z);
  pending_metadata : list (option nat);
  pending_flags : list Z;
  type : Z;
  invert_matching : bool
}.

Definition xpub_new (type_ : Z) : xpub :=
  Xpub Mtrie.mtrie_new Mtrie.mtrie_new Dist.dist_new false false false true false None [] Msg.init
       [] [] [] type_ false.

(** *** Assignments to the members *)

Definition set_subscriptions (t : Mtrie.mtrie_t) (x : xpub) : xpub :=
  Xpub t (manual_subscriptions x) (dist x) (verbose_subs x) (verbose_unsubs x) (more x) (lossy x) (manual x)
       (last_pipe x) (pending_pipes x) (welcome_msg x) (pending_data x) (pending_metadata x) (pending_flags x)
       (type x) (invert_matching x).
Definition set_manual_subscriptions (t : Mtrie.mtrie_t) (x : xpub) : xpub :=
  Xpub (subscriptions x) t (dist x) (verbose_subs x) (verbose_unsubs x) (more x) (lossy x) (manual x)
       (last_pipe x) (pending_pipes x) (welcome_msg x) (pending_data x) (pending_metadata x) (pending_flags x)
       (type x) (invert_matching x).
Definition set_dist (d : Dist.dist) (x : xpub) : xpub :=
  Xpub (subscriptions x) (manual_subscriptions x) d (verbose_subs x) (verbose_unsubs x) (more x) (lossy x)
       (manual x) (last_pipe x) (pending_pipes x) (welcome_msg x) (pending_data x) (pending_metadata x)
       (pending_flags x) (type x) (invert_matching x).
Definition set_verbose (subs unsubs : bool) (x : xpub) : xpub :=
  Xpub (subscriptions x) (manual_subscriptions x) (dist x) subs unsubs (more x) (lossy x)
       (manual x) (last_pipe x) (pending_pipes x) (welcome_msg x) (pending_data x) (pending_metadata x)
       (pending_flags x) (type x) (invert_matching x).
Definition set_more (b : bool) (x : xpub) : xpub :=
  Xpub (subscriptions x) (manual_subscriptions x) (dist x) (verbose_subs x) (verbose_unsubs x) b (lossy x)
       (manual x) (last_pipe x) (pending_pipes x) (welcome_msg x) (pending_data x) (pending_metadata x)
       (pending_flags x) (type x) (invert_matching x).
Definition set_lossy (b : bool) (x : xpub) : xpub :=
  Xpub (subscriptions x) (manual_subscriptions x) (dist x) (verbose_subs x) (verbose_unsubs x) (more x) b
       (manual x) (last_pipe x) (pending_pipes x) (welcome_msg x) (pending_data x) (pending_metadata x)
       (pending_flags x) (type x) (invert_matching x).
Definition set_manual (b : bool) (x : xpub) : xpub :=
  Xpub (subscriptions x) (manual_subscriptions x) (dist x) (verbose_subs x) (verbose_unsubs x) (more x) (lossy x)
       b (last_pipe x) (pending_pipes x) (welcome_msg x) (pending_data x) (pending_metadata x)
       (pending_flags x) (type x) (invert_matching x).
Definition set_pipes_of (last : option nat) (l : list (option nat)) (x : xpub) : xpub :=
  Xpub (subscriptions x) (manual_subscriptions x) (dist x) (verbose_subs x) (verbose_unsubs x) (more x) (lossy x)
       (manual x) last l (welcome_msg x) (pending_data x) (pending_metadata x)
       (pending_flags x) (type x) (invert_matching x).
Definition set_welcome_msg (m : Msg.msg) (x : xpub) : xpub :=
  Xpub (subscriptions x) (manual_subscriptions x) (dist x) (verbose_subs x) (verbose_unsubs x) (more x) (lossy x)
       (manual x) (last_pipe x) (pending_pipes x) m (pending_data x) (pending_metadata x)
       (pending_flags x) (type x) (invert_matching x).
Definition set_pending (d : list (list Z)) (md : list (option nat)) (f : list Z) (x : xpub) : xpub :=
  Xpub (subscriptions x) (manual_subscriptions x) (dist x) (verbose_subs x) (verbose_unsubs x) (more x) (lossy x)
       (manual x) (last_pipe x) (pending_pipes x) (welcome_msg x) d md f (type x) (invert_matching x).

(** The three [push_back]s. *)
Definition push (data : list Z) (md : option nat) (fl : Z) (x : xpub) : xpub :=
  set_pending (pending_data x ++ [data]) (pending_metadata x ++ [md]) (pending_flags x ++ [fl]) x.

Section Env.
Context {W : Type} `{PipeOps W}.

(** [if (metadata) metadata->add_ref ()], then the pushes. *)
Definition store (data : list Z) (md : option nat) (fl : Z) (x : xpub) : stm (env W) xpub :=
  match md with Some d => on_mem (Msg.meta_add_ref d) | None => sret tt end ;;;
  sret (push data md fl x).

(** *** xread_activated *)

(** The body of the loop, for the message [sub] read from [pipe]. *)
Definition process_sub (pipe : nat) (sub : Msg.msg) (x : xpub) : stm (env W) xpub :=
  let! data := on_mem (Msg.data sub) in
  let metadata := Msg.metadata sub in
  match data with
  | c :: topic =>
    if (c =? 0) || (c =? 1) then
      if manual x then
        let! t := slift (if c =? 0 then omap_out snd (Mtrie.rm (manual_subscriptions x) topic pipe)
                         else omap_out snd (Mtrie.add (manual_subscriptions x) topic pipe)) in
        let x := set_manual_subscriptions t x in
        let x := set_pipes_of (last_pipe x) (pending_pipes x ++ [Some pipe]) x in
        store data metadata 0 x
      else
        let! (notify, t) :=
          slift (if c =? 0 then
                   let* (r, t) := Mtrie.rm (subscriptions x) topic pipe in
                   Done (match r with Mtrie.values_remain => false | _ => true end || verbose_unsubs x, t)
                 else
                   let* (first_added, t) := Mtrie.add (subscriptions x) topic pipe in
                   Done (first_added || verbose_subs x, t)) in
        let x := set_subscriptions t x in
        if (type x =? ZMQ_XPUB) && notify then store data metadata 0 x else sret x
    else store data metadata (Msg.flags sub) x
  | [] => store data metadata (Msg.flags sub) x
  end.

(** One unit of fuel per message. *)
Fixpoint xread_activated (fuel : nat) (pipe : nat) (x : xpub) : stm (env W) xpub :=
  let! sub := on_pipes (pipe_read pipe) in
  match sub with
  | None => sret x
  | Some sub =>
    match fuel with
    | O => scrash
    | S fuel =>
      let! x := process_sub pipe sub x in
      on_mem (Msg.close sub) ;;;
      xread_activated fuel pipe x
    end
  end.

(** *** xattach_pipe *)

Definition xattach_pipe (fuel : nat) (pipe : nat) (subscribe_to_all : bool) (x : xpub) : stm (env W) xpub :=
  let! d := slift (Dist.attach pipe (dist x)) in
  let x := set_dist d x in
  let! x := (if subscribe_to_all
             then let! t := slift (omap_out snd (Mtrie.add (subscriptions x) [] pipe)) in
                  sret (set_subscriptions t x)
             else sret x) in
  let! n := on_mem (Msg.size (welcome_msg x)) in
  let! x := (if 0 <? n then
               let! (rc, copy, src) := on_mem (Msg.copy Msg.init (welcome_msg x)) in
               sassert (rc =? 0) ;;;
               let! ok := on_pipes (pipe_write pipe copy) in
               sassert ok ;;;
               on_pipes (fun w => (pipe_flush pipe w, tt)) ;;;
               sret (set_welcome_msg src x)
             else sret x) in
  xread_activated fuel pipe x.

Definition xwrite_activated (pipe : nat) (x : xpub) : stm (env W) xpub :=
  let! d := slift (Dist.activated pipe (dist x)) in sret (set_dist d x).

(** *** xsetsockopt *)

(** [*static_cast<const int *> (optval_)] on a little-endian machine. *)
Definition int_of (l : list Z) : Z := i32 (fold_right (fun b n => b + 256 * n) 0 l).

Definition xsetsockopt (option_ : Z) (optval : list Z) (x : xpub) : stm (env W) (option errno * xpub) :=
  if (option_ =? ZMQ_XPUB_VERBOSE) || (option_ =? ZMQ_XPUB_VERBOSER)
     || (option_ =? ZMQ_XPUB_NODROP) || (option_ =? ZMQ_XPUB_MANUAL) then
    if negb (length optval =? 4)%nat || (int_of optval <? 0) then sret (Some EINVAL, x)
    else
      let b := negb (int_of optval =? 0) in
      sret (None,
            if option_ =? ZMQ_XPUB_VERBOSE then set_verbose b false x
            else if option_ =? ZMQ_XPUB_VERBOSER then set_verbose b b x
            else if option_ =? ZMQ_XPUB_NODROP then set_lossy (negb b) x
            else set_manual b x)
  else if (option_ =? ZMQ_SUBSCRIBE) && manual x then
    match last_pipe x with
    | Some p =>
      let! t := slift (omap_out snd (Mtrie.add (subscriptions x) optval p)) in
      sret (None, set_subscriptions t x)
    | None => sret (None, x)
    end
  else if (option_ =? ZMQ_UNSUBSCRIBE) && manual x then
    match last_pipe x with
    | Some p =>
      let! t := slift (omap_out snd (Mtrie.rm (subscriptions x) optval p)) in
      sret (None, set_subscriptions t x)
    | None => sret (None, x)
    end
  else if option_ =? ZMQ_XPUB_WELCOME_MSG then
    on_mem (Msg.close (welcome_msg x)) ;;;
    if (0 <? length optval)%nat then
      let! m := on_mem (msg_of optval) in
      sret (None, set_welcome_msg m x)
    else sret (None, set_welcome_msg Msg.init x)
  else sret (Some EINVAL, x).

(** *** xpipe_terminated *)

Definition send_unsubscription (data : list Z) (x : xpub) : xpub :=
  if negb (type x =? ZMQ_PUB) then
    let x := push (0 :: data) None 0 x in
    if manual x then set_pipes_of None (pending_pipes x ++ [None]) x else x
  else x.

Definition xpipe_terminated (pipe : nat) (x : xpub) : stm (env W) xpub :=
  let! x :=
    slift (if manual x then
             let* (l, t) := Mtrie.rm_pipe pipe false (manual_subscriptions x) [] in
             let x := fold_left (fun x p => send_unsubscription p x) l (set_manual_subscriptions t x) in
             let* (_, t) := Mtrie.rm_pipe pipe false (subscriptions x) [] in
             Done (set_subscriptions t x)
           else
             let* (l, t) := Mtrie.rm_pipe pipe (negb (verbose_unsubs x)) (subscriptions x) [] in
             Done (fold_left (fun x p => send_unsubscription p x) l (set_subscriptions t x))) in
  let! d := slift (Dist.pipe_terminated pipe (dist x)) in
  sret (set_dist d x).

(** *** xsend *)

(** [mark_as_matching] for every pipe [match] calls back with. *)
Fixpoint mark_all (l : list nat) (d : Dist.dist) : outcome Dist.dist :=
  match l with
  | [] => Done d
  | p :: l => let* d := Dist.match_ p d in mark_all l d
  end.

(** The error, the caller's message, the socket. *)
Definition xsend (msg : Msg.msg) (x : xpub) : stm (env W) (option errno * Msg.msg * xpub) :=
  let more_ := msg_more msg in
  let! x := (if negb (more x) then
               let! data := on_mem (Msg.data msg) in
               let! l := slift (Mtrie.match_ (subscriptions x) data) in
               let! d := slift (mark_all l (dist x)) in
               let! d := slift (if invert_matching x then Dist.reverse_match d else Done d) in
               sret (set_dist d x)
             else sret x) in
  let! e := sget in
  let! ok := (if lossy x then sret true else slift (Dist.check_hwm (dist x) (e_pipes e))) in
  if ok then
    let! (m, d) := Dist.send_to_matching msg (dist x) in
    let d := if negb more_ then Dist.unmatch d else d in
    sret (None, m, set_more more_ (set_dist d x))
  else sret (Some EAGAIN, msg, x).

Definition xhas_out (x : xpub) : bool := Dist.has_out (dist x).

(** *** xrecv *)

Definition xrecv (msg : Msg.msg) (x : xpub) : stm (env W) (option errno * Msg.msg * xpub) :=
  match pending_data x with
  | [] => sret (Some EAGAIN, msg, x)
  | data :: datas =>
    let x := if manual x then
               match pending_pipes x with
               | p :: l => set_pipes_of p l x
               | [] => x
               end
             else x in
    let! (rc, _) := on_mem (Msg.close msg) in
    sassert (rc =? 0) ;;;
    let! msg := on_mem (msg_of data) in
    match pending_metadata x, pending_flags x with
    | md :: mds, fl :: fls =>
      let! msg := match md with
                  | Some d => let! msg := on_mem (Msg.set_metadata d msg) in
                              on_mem (Msg.meta_drop d) ;;; sret msg
                  | None => sret msg
                  end in
      sret (None, Msg.set_flags fl msg, set_pending datas mds fls x)
    | _, _ => scrash
    end
  end.

Definition xhas_in (x : xpub) : bool := match pending_data x with [] => false | _ => true end.

(** *** pub_t *)

Definition pub_attach_pipe (fuel : nat) (pipe : nat) (subscribe_to_all : bool) (x : xpub) : stm (env W) xpub :=
  on_pipes (fun w => (pipe_set_nodelay pipe w, tt)) ;;;
  xattach_pipe fuel pipe subscribe_to_all x.

Definition pub_recv (msg : Msg.msg) (x : xpub) : option errno * Msg.msg * xpub := (Some ENOTSUP, msg, x).

Definition pub_has_in (x : xpub) : bool := false.

(** The destructor. *)
Definition xpub_delete (x : xpub) : stm (env W) unit := on_mem (Msg.close (welcome_msg x)) ;;; sret tt.

End Env.

(** ** The table of subscriptions and the queue *)

Record view : Type := View { v_subs : Mtrie.table; v_pend : list (list Z * Z) }.

(** What processing a message of [pipe] does, in a socket that is not manual. *)
Definition s_sub (x : xpub) (pipe : nat) (m : list Z * Z) (s : view) : view :=
  match m.1 with
  | c :: t =>
    if c =? 0 then
      View (fun q => if decide (q = t) then sset_erase pipe (v_subs s t) else v_subs s q)
           (if (type x =? ZMQ_XPUB) &&
               (match Mtrie.classify pipe (v_subs s t) with Mtrie.values_remain => false | _ => true end
                || verbose_unsubs x)
            then v_pend s ++ [(m.1, 0)] else v_pend s)
    else if c =? 1 then
      View (fun q => if decide (q = t) then sset_insert pipe (v_subs s t) else v_subs s q)
           (if (type x =? ZMQ_XPUB) && (Mtrie.is_nil (v_subs s t) || verbose_subs x)
            then v_pend s ++ [(m.1, 0)] else v_pend s)
    else View (v_subs s) (v_pend s ++ [m])
  | [] => View (v_subs s) (v_pend s ++ [m])
  end.

Definition s_subs (x : xpub) (pipe : nat) (ms : list (list Z * Z)) (s : view) : view :=
  fold_left (fun s m => s_sub x pipe m s) ms s.

Record shows (x : xpub) (s : view) : Prop := {
  sh_wf : Mtrie.wf (subscriptions x);
  sh_subs : forall p, Mtrie.subs (subscriptions x) p = v_subs s p;
  sh_data : pending_data x = (v_pend s).*1;
  sh_flags : pending_flags x = (v_pend s).*2;
  sh_meta : pending_metadata x = (fun _ => None) <$> v_pend s
}.

(** Everything but the subscriptions and the queue is as before. *)
Definition moved (x x' : xpub) : Prop :=
  exists t d md f, x' = set_pending d md f (set_subscriptions t x).

Lemma moved_refl x : moved x x.
Proof. exists (subscriptions x), (pending_data x), (pending_metadata x), (pending_flags x). by destruct x. Qed.

Lemma moved_trans x y z : moved x y -> moved y z -> moved x z.
Proof. intros (t & d & md & f & ->) (t' & d' & md' & f' & ->). by exists t', d', md', f'. Qed.

Lemma moved_push x t d fl : moved x (push d None fl (set_subscriptions t x)).
Proof. by eexists t, _, _, _. Qed.

Lemma shows_push x t (s : view) R d fl :
  shows x s -> Mtrie.wf t -> (forall p, Mtrie.subs t p = R p) ->
  shows (push d None fl (set_subscriptions t x)) (View R (v_pend s ++ [(d, fl)])).
Proof.
  intros [_ _ Hd Hf Hm] Hw Hs. split; simpl; try done.
  - by rewrite Hd, fmap_app.
  - by rewrite Hf, fmap_app.
  - by rewrite Hm, fmap_app.
Qed.

Lemma shows_set x t (s : view) R :
  shows x s -> Mtrie.wf t -> (forall p, Mtrie.subs t p = R p) ->
  shows (set_subscriptions t x) (View R (v_pend s)).
Proof. intros [_ _ Hd Hf Hm] Hw Hs. by split. Qed.

Lemma set_subscriptions_id x : set_subscriptions (subscriptions x) x = x.
Proof. by destruct x. Qed.

Lemma moved_push0 x d fl : moved x (push d None fl x).
Proof. pose proof (moved_push x (subscriptions x) d fl) as Hm. by rewrite set_subscriptions_id in Hm. Qed.

Lemma shows_push0 x (s : view) d fl :
  shows x s -> shows (push d None fl x) (View (v_subs s) (v_pend s ++ [(d, fl)])).
Proof.
  intros Hx. pose proof (shows_push x (subscriptions x) s (v_subs s) d fl Hx (sh_wf _ _ Hx) (sh_subs _ _ Hx)) as Hp.
  by rewrite set_subscriptions_id in Hp.
Qed.

Section Spec.
Context {W : Type} `{PipeOps W}.

Lemma process_sub_spec pipe sub d x s (e : env W) :
  shows x s -> manual x = false -> bytes d ->
  Msg.data sub (e_mem e) = Done (e_mem e, d) -> Msg.metadata sub = None ->
  exists x', process_sub pipe sub x e = Done (e, x') /\ moved x x' /\
    shows x' (s_sub x pipe (d, Msg.flags sub) s).
Proof.
  intros Hx Hm Hb Hd Hmd. destruct e as [mem w]; simpl in Hd. unfold process_sub.
  unfold sbind at 1, on_mem at 1. simpl. rewrite Hd. cbn [obind]. rewrite Hmd. unfold s_sub. simpl.
  assert (Huser : exists x', store d None (Msg.flags sub) x (Env mem w) = Done (Env mem w, x') /\ moved x x' /\
    shows x' (View (v_subs s) (v_pend s ++ [(d, Msg.flags sub)]))).
  { eexists. split; [reflexivity|]. split; [apply moved_push0|by apply shows_push0]. }
  destruct d as [|c t]; [exact Huser|]. apply Forall_cons in Hb as [_ Hb].
  destruct (Z.eqb_spec c 0) as [->|H0]; simpl; [|destruct (Z.eqb_spec c 1) as [->|H1]; simpl; [|exact Huser]];
    rewrite Hm.
  - destruct (Mtrie.mtrie_rm_spec t (subscriptions x) pipe (sh_wf _ _ Hx)) as (t' & E & Hw & Hs).
    unfold sbind, slift. rewrite E, (sh_subs _ _ Hx t). cbn [obind]. rewrite (sh_subs _ _ Hx t) in Hs.
    assert (Hs' : forall q, Mtrie.subs t' q = if decide (q = t) then sset_erase pipe (v_subs s t) else v_subs s q).
    { intros q. rewrite Hs. by rewrite (sh_subs _ _ Hx q). }
    destruct ((type x =? ZMQ_XPUB) && _); eexists.
    + split; [reflexivity|]. split; [apply moved_push|by apply shows_push].
    + split; [reflexivity|]. split; [by exists t', (pending_data x), (pending_metadata x), (pending_flags x)|].
      by apply shows_set.
  - destruct (Mtrie.mtrie_add_spec t (subscriptions x) pipe (sh_wf _ _ Hx) Hb) as (t' & E & Hw & Hs).
    unfold sbind, slift. rewrite E, (sh_subs _ _ Hx t). cbn [obind]. rewrite (sh_subs _ _ Hx t) in Hs.
    assert (Hs' : forall q, Mtrie.subs t' q = if decide (q = t) then sset_insert pipe (v_subs s t) else v_subs s q).
    { intros q. rewrite Hs. by rewrite (sh_subs _ _ Hx q). }
    destruct ((type x =? ZMQ_XPUB) && _); eexists.
    + split; [reflexivity|]. split; [apply moved_push|by apply shows_push].
    + split; [reflexivity|]. split; [by exists t', (pending_data x), (pending_metadata x), (pending_flags x)|].
      by apply shows_set.
Qed.

Lemma moved_same x x' : moved x x' ->
  type x' = type x /\ verbose_subs x' = verbose_subs x /\ verbose_unsubs x' = verbose_unsubs x /\
  manual x' = manual x /\ dist x' = dist x /\ more x' = more x /\ lossy x' = lossy x /\
  welcome_msg x' = welcome_msg x /\ invert_matching x' = invert_matching x.
Proof. by intros (t & d & md & f & ->). Qed.

Lemma s_sub_moved x x' pipe m s : moved x x' -> s_sub x' pipe m s = s_sub x pipe m s.
Proof. by intros (t & d & md & f & ->). Qed.

Lemma s_subs_moved x x' pipe ms s : moved x x' -> s_subs x' pipe ms s = s_subs x pipe ms s.
Proof. by intros (t & d & md & f & ->). Qed.

(** Reading a pipe until it is empty processes its messages in order. *)
Lemma xread_activated_spec n pipe : forall ms ds mem w w' vs ks x s,
  unread n pipe w = Some (ms, w') ->
  Msg.inv mem vs -> held mem vs ks ms ds -> Forall bytes ds -> shows x s -> manual x = false ->
  exists mem' x', xread_activated n pipe x (Env mem w) = Done (Env mem' w', x') /\
    Msg.inv mem' (forget ks vs) /\ moved x x' /\
    shows x' (s_subs x pipe (zip ds (Msg.flags <$> ms)) s).
Proof.
  induction n as [|n IH]; intros ms ds mem w w' vs ks x s Hu Hi Hh Hb Hx Hm; cbn [unread xread_activated] in *;
    unfold sbind at 1, on_pipes at 1; simpl;
    destruct (pipe_read pipe w) as [w1 [m|]]; simplify_eq; cbn [obind].
  - destruct Hh as (_ & Hk & _ & Hc). inversion Hc; subst. inversion Hk; subst.
    exists mem, x. by split_and!; [|done|apply moved_refl|].
  - destruct (unread n pipe w1) as [[ms1 w2]|] eqn:Eu; simplify_eq.
    pose proof Hh as (_ & Hk & _ & Hc). inversion Hk as [|k ? ks1 ? Hk0 Hk1]; subst.
    inversion Hc as [|? d ? ds1 Hc0 Hc1]; subst. apply Forall_cons in Hb as [Hb0 Hb].
    destruct (held_close mem vs k ks1 m ms1 d ds1 Hi Hh) as (Ed & Emd & mem1 & Ecl & Hi1 & Hh1).
    destruct (process_sub_spec pipe m d x s (Env mem w1) Hx Hm Hb0 Ed Emd) as (x1 & E1 & Hmv & Hx1).
    unfold sbind at 1. rewrite E1. cbn [obind]. unfold sbind at 1, on_mem at 1. cbn [e_mem e_pipes]. rewrite Ecl. cbn [obind].
    destruct (moved_same x x1 Hmv) as (_ & _ & _ & Em1 & _).
    destruct (IH ms1 ds1 mem1 w1 w' (delete k vs) ks1 x1 _ Eu Hi1 Hh1 Hb Hx1) as (mem' & x' & E & Hi' & Hmv' & Hs'); [congruence|].
    exists mem', x'. split; [exact E|]. split; [exact Hi'|]. split; [by eapply moved_trans|].
    by rewrite (s_subs_moved x x1) in Hs' by done.
  - destruct Hh as (_ & Hk & _ & Hc). inversion Hc; subst. inversion Hk; subst.
    exists mem, x. by split_and!; [|done|apply moved_refl|].
Qed.
End Spec.

(** ** What the owner learns

    The owner of the socket sees the messages of the queue; [interest] is what it
    knows after them: the prefixes that somebody subscribed to. *)

Definition note (U : gset (list Z)) (d : list Z) : gset (list Z) :=
  match d with
  | c :: t => if c =? 0 then U ∖ {[t]} else if c =? 1 then {[t]} ∪ U else U
  | [] => U
  end.

Definition interest (log : list (list Z)) : gset (list Z) := fold_left note log ∅.

Lemma interest_app l l' : interest (l ++ l') = fold_left note l' (interest l).
Proof. apply fold_left_app. Qed.

(** The pipe withdraws only prefixes it is subscribed to. *)
Fixpoint legit (x : xpub) (pipe : nat) (ms : list (list Z * Z)) (s : view) : Prop :=
  match ms with
  | [] => True
  | m :: ms =>
    match m.1 with c :: t => c = 0 -> pipe ∈ v_subs s t | [] => True end /\
    legit x pipe ms (s_sub x pipe m s)
  end.

(** The log of what the owner received, with what still waits, says which prefixes
    have subscribers. *)
Definition informed (log : list (list Z)) (s : view) : Prop :=
  forall t, t ∈ interest (log ++ (v_pend s).*1) <-> v_subs s t <> [].

Lemma informed_keep log R R' pend :
  informed log (View R pend) -> (forall t, R' t <> [] <-> R t <> []) -> informed log (View R' pend).
Proof. intros Hi Hr t. rewrite (Hi t). simpl. by rewrite Hr. Qed.

Lemma informed_note log R R' pend d fl :
  informed log (View R pend) ->
  (forall t U, (forall q, q ∈ U <-> R q <> []) -> t ∈ note U d <-> R' t <> []) ->
  informed log (View R' (pend ++ [(d, fl)])).
Proof.
  intros Hi Hr t. simpl. rewrite fmap_app, app_assoc, interest_app. simpl. by apply Hr.
Qed.

Lemma s_sub_informed log x pipe m s :
  type x = ZMQ_XPUB -> verbose_unsubs x = false -> informed log s ->
  match m.1 with c :: t => c = 0 -> pipe ∈ v_subs s t | [] => True end ->
  informed log (s_sub x pipe m s).
Proof.
  intros Ht Hv Hi Hl. destruct s as [R pend], m as [d fl]. unfold s_sub. simpl in *. rewrite Ht, Hv.
  assert (Huser : (forall U, note U d = U) -> informed log (View R (pend ++ [(d, fl)]))).
  { intros Hn. eapply informed_note; [done|]. intros t U Hu. rewrite Hn. by apply Hu. }
  destruct d as [|c t]; [by apply Huser|].
  destruct (Z.eqb_spec c 0) as [->|H0]; [|destruct (Z.eqb_spec c 1) as [->|H1]].
  - specialize (Hl eq_refl). unfold Mtrie.classify. rewrite decide_True by done. simpl.
    destruct (sset_erase pipe (R t)) as [|y l] eqn:Er; simpl.
    + eapply informed_note; [done|]. intros q U Hu. simpl. rewrite elem_of_difference, elem_of_singleton, Hu.
      case_decide; [subst q|]; tauto.
    + eapply informed_keep; [done|]. intros q. case_decide; [subst q|done]. split; [|done].
      intros _ E. rewrite E in Hl. by apply not_elem_of_nil in Hl.
  - simpl. destruct (Mtrie.is_nil (R t) || verbose_subs x) eqn:En.
    + eapply informed_note; [done|]. intros q U Hu. simpl. rewrite elem_of_union, elem_of_singleton, Hu.
      case_decide; [subst q|tauto]. pose proof (sset_insert_ne pipe (R t)). tauto.
    + eapply informed_keep; [done|]. intros q. case_decide; [subst q|done].
      apply orb_false_iff in En as [En _]. pose proof (sset_insert_ne pipe (R t)). by destruct (R t).
  - apply Huser. intros U. simpl. destruct (Z.eqb_spec c 0), (Z.eqb_spec c 1); done.
Qed.

Lemma s_subs_informed log x pipe ms : forall s,
  type x = ZMQ_XPUB -> verbose_unsubs x = false -> informed log s -> legit x pipe ms s ->
  informed log (s_subs x pipe ms s).
Proof.
  induction ms as [|m ms IH]; intros s Ht Hv Hi Hl; [done|]. destruct Hl as [Hl1 Hl].
  apply IH; [done|done|by apply s_sub_informed|done].
Qed.

(** Without [verbose_subs], no subscription is reported twice in a row: what the owner is told is
    news to it. *)
Fixpoint exact (U : gset (list Z)) (log : list (list Z)) : Prop :=
  match log with
  | [] => True
  | d :: log =>
    match d with c :: t => (c = 0 -> t ∈ U) /\ (c = 1 -> t ∉ U) | [] => True end /\ exact (note U d) log
  end.

Lemma exact_app l : forall U l', exact U (l ++ l') <-> exact U l /\ exact (fold_left note l U) l'.
Proof. induction l as [|d l IH]; intros U l'; simpl; [tauto|]. rewrite IH. tauto. Qed.

Definition quiet (log : list (list Z)) (x : xpub) (s : view) : Prop :=
  verbose_subs x = false -> exact ∅ (log ++ (v_pend s).*1).

Lemma quiet_note log x s R d fl :
  informed log s -> quiet log x s ->
  (verbose_subs x = false -> match d with c :: t => (c = 0 -> v_subs s t <> []) /\ (c = 1 -> v_subs s t = []) | [] => True end) ->
  quiet log x (View R (v_pend s ++ [(d, fl)])).
Proof.
  intros Hi Hq Hd Hv. simpl. rewrite fmap_app, app_assoc. apply exact_app. split; [by apply Hq|].
  specialize (Hd Hv). simpl. split; [|done]. destruct d as [|c t]; [done|]. pose proof (Hi t) as Ht.
  unfold interest in Ht. rewrite Ht. destruct Hd as [H0 H1]. split; [done|]. intros E. specialize (H1 E). tauto.
Qed.

Lemma s_sub_quiet log x pipe m s :
  informed log s -> quiet log x s ->
  match m.1 with c :: t => c = 0 -> pipe ∈ v_subs s t | [] => True end ->
  quiet log x (s_sub x pipe m s).
Proof.
  intros Hi Hq Hl. destruct m as [d fl]. unfold s_sub. simpl in *.
  destruct d as [|c t]; [by apply quiet_note|].
  destruct (Z.eqb_spec c 0) as [->|H0]; [|destruct (Z.eqb_spec c 1) as [->|H1]].
  - destruct (_ && _); [|done]. apply quiet_note; [done|done|]. intros _. split; [|done].
    intros _ E. specialize (Hl eq_refl). rewrite E in Hl. by apply not_elem_of_nil in Hl.
  - destruct ((type x =? ZMQ_XPUB) && (Mtrie.is_nil (v_subs s t) || verbose_subs x)) eqn:En; [|done].
    apply quiet_note; [done|done|]. intros Hv. split; [done|]. intros _.
    apply andb_prop in En as [_ En]. rewrite Hv in En. by destruct (v_subs s t).
  - apply quiet_note; [done|done|]. intros _. done.
Qed.

Lemma s_subs_quiet log x pipe ms : forall s,
  type x = ZMQ_XPUB -> verbose_unsubs x = false -> informed log s -> quiet log x s -> legit x pipe ms s ->
  quiet log x (s_subs x pipe ms s).
Proof.
  induction ms as [|m ms IH]; intros s Ht Hv Hi Hq Hl; [done|]. destruct Hl as [Hl1 Hl].
  apply IH; [done|done|by apply s_sub_informed|by apply s_sub_quiet|done].
Qed.

(** ** The pipe goes away *)

Definition unsubs (l : list (list Z)) : list (list Z * Z) := map (fun p => (0 :: p, 0)) l.

Lemma send_unsubs x l : forall s, manual x = false -> type x <> ZMQ_PUB -> shows x s ->
  exists x', fold_left (fun x p => send_unsubscription p x) l x = x' /\ moved x x' /\
    shows x' (View (v_subs s) (v_pend s ++ unsubs l)).
Proof.
  revert x. induction l as [|p l IH]; intros x s Hm Ht Hx.
  - exists x. split; [done|]. split; [apply moved_refl|]. simpl. rewrite app_nil_r. by destruct s.
  - simpl. assert (E1 : send_unsubscription p x = push (0 :: p) None 0 x).
    { unfold send_unsubscription. destruct (Z.eqb_spec (type x) ZMQ_PUB); [done|]. simpl. by rewrite Hm. }
    rewrite E1.
    destruct (IH (push (0 :: p) None 0 x) _ Hm Ht (shows_push0 x s (0 :: p) 0 Hx)) as (x' & Ex & Hmv & Hs).
    exists x'. split; [done|]. split; [eapply moved_trans; [apply moved_push0|done]|].
    simpl in Hs. by rewrite <- app_assoc in Hs.
Qed.

Lemma unsubs_interest l : forall U t, t ∈ fold_left note (unsubs l).*1 U <-> t ∈ U /\ t ∉ l.
Proof.
  induction l as [|p l IH]; intros U t; simpl; [rewrite elem_of_nil; tauto|].
  rewrite IH, elem_of_difference, elem_of_singleton, elem_of_cons. tauto.
Qed.

Section Terminated.
Context {W : Type} `{PipeOps W}.

Lemma xpipe_terminated_spec pipe x s (e : env W) :
  shows x s -> manual x = false -> type x <> ZMQ_PUB -> Dist.dist_ok (dist x) ->
  pipe ∈ Array.items (Dist.pipes (dist x)) ->
  exists x' l d, xpipe_terminated pipe x e = Done (e, x') /\ StronglySorted lex_lt l /\
    (forall p, p ∈ l <-> Mtrie.reported pipe (negb (verbose_unsubs x)) (v_subs s p)) /\
    Dist.dist_ok d /\ Dist.abs d = Dist.s_remove pipe (Dist.abs (dist x)) /\
    moved (set_dist d x) x' /\
    shows x' (View (fun q => sset_erase pipe (v_subs s q)) (v_pend s ++ unsubs l)).
Proof.
  intros Hx Hm Ht Hd Hp. unfold xpipe_terminated. rewrite Hm.
  destruct (Mtrie.rm_pipe_spec pipe (negb (verbose_unsubs x)) (subscriptions x) (sh_wf _ _ Hx) [])
    as (l & t & E & Hw & Hso & Hin & Hs). unfold slift at 1, sbind at 1. rewrite E, map_id. cbn [obind].
  assert (Hx1 : shows (set_subscriptions t x) (View (fun q => sset_erase pipe (v_subs s q)) (v_pend s))).
  { apply shows_set; [done|done|]. intros p. by rewrite Hs, (sh_subs _ _ Hx). }
  destruct (send_unsubs (set_subscriptions t x) l _ Hm Ht Hx1) as (x1 & -> & Hmv & Hx2).
  assert (Ed : dist x1 = dist x) by (by apply moved_same in Hmv as (_ & _ & _ & _ & -> & _)).
  destruct (Dist.dist_pipe_terminated_spec pipe (dist x) Hd Hp) as (d & E2 & Hd' & Ha).
  exists (set_dist d x1), l, d. unfold sbind, slift. rewrite Ed, E2. cbn [obind].
  split; [done|]. split; [done|]. split; [intros p; by rewrite Hin, (sh_subs _ _ Hx)|].
  split; [done|]. split; [done|]. split.
  - destruct Hmv as (t' & dd & md & f & ->). by exists t', dd, md, f.
  - by destruct Hx2; split.
Qed.

Lemma terminated_informed log pipe s l :
  informed log s -> (forall p, p ∈ l <-> Mtrie.reported pipe true (v_subs s p)) ->
  informed log (View (fun q => sset_erase pipe (v_subs s q)) (v_pend s ++ unsubs l)).
Proof.
  intros Hi Hl t. simpl. rewrite fmap_app, app_assoc, interest_app, unsubs_interest, (Hi t), Hl.
  unfold Mtrie.reported. destruct (decide (pipe ∈ v_subs s t)) as [Hin|Hni].
  - split; [tauto|]. intros Hne. split; [intros E; rewrite E in Hin; by apply not_elem_of_nil in Hin|].
    intros [_ [?|?]]; done.
  - rewrite sset_erase_absent by done. tauto.
Qed.

Lemma unsubs_exact l : forall U, NoDup l -> (forall t, t ∈ l -> t ∈ U) -> exact U (unsubs l).*1.
Proof.
  induction l as [|p l IH]; intros U Hn Hl; [done|]. apply NoDup_cons in Hn as [Hp Hn].
  change ((unsubs (p :: l)).*1) with ((0 :: p) :: (unsubs l).*1). cbn [exact].
  split; [split; [intros _; apply Hl; by constructor|done]|]. apply IH; [done|].
  intros t Ht. simpl. apply elem_of_difference. split; [apply Hl; by constructor|].
  rewrite elem_of_singleton. by intros ->.
Qed.

Lemma terminated_quiet log x pipe s l R :
  informed log s -> quiet log x s -> NoDup l ->
  (forall p, p ∈ l <-> Mtrie.reported pipe true (v_subs s p)) ->
  quiet log x (View R (v_pend s ++ unsubs l)).
Proof.
  intros Hi Hq Hn Hl Hv. simpl. rewrite fmap_app, app_assoc. apply exact_app. split; [by apply Hq|].
  apply unsubs_exact; [done|]. intros t Ht. apply Hl in Ht as [Ht _]. apply (Hi t).
  intros E. rewrite E in Ht. by apply not_elem_of_nil in Ht.
Qed.
End Terminated.

(** ** Receiving *)

Section Receive.
Context {W : Type} `{PipeOps W}.

Lemma xrecv_spec x R d fl pend mem (w : W) :
  shows x (View R ((d, fl) :: pend)) -> manual x = false -> fits d ->
  exists mem' m x', xrecv Msg.init x (Env mem w) = Done (Env mem' w, (None, Msg.set_flags fl m, x')) /\
    Msg.contents mem' m = Some d /\ has_data m /\ Msg.flags m = 0 /\
    (forall vs v, Msg.inv mem vs -> vs !! v = None -> Z.of_nat (S (base.size vs)) < 2 ^ 32 ->
       Msg.inv mem' (<[v := m]> vs)) /\
    moved x x' /\ subscriptions x' = subscriptions x /\ shows x' (View R pend).
Proof.
  intros [Hw Hs Hd Hf Hm] Hma Hfit. simpl in *. destruct (msg_of_spec d mem Hfit)
    as (mem' & m & E & Hc & Hfl & Hmd & Hda & _ & _ & Hi). unfold xrecv. rewrite Hd, Hma, Hm, Hf.
  unfold sbind, on_mem, sassert, sret. cbn [e_mem e_pipes obind]. simpl. rewrite E. cbn [obind].
  exists mem', m, (set_pending pend.*1 ((fun _ => None) <$> pend) pend.*2 x).
  split; [done|]. split_and!; try done. by exists (subscriptions x), pend.*1, ((fun _ => None) <$> pend), pend.*2; destruct x.
Qed.
End Receive.

Lemma informed_recv log R d fl pend :
  informed log (View R ((d, fl) :: pend)) -> informed (log ++ [d]) (View R pend).
Proof. intros Hi t. rewrite <- (Hi t). simpl. by rewrite <- app_assoc. Qed.

(** ** Sending *)

(** The message has a prefix the pipe subscribed to. *)
Definition wants (x : xpub) (d : list Z) (p : nat) : Prop :=
  exists t, t `prefix_of` d /\ p ∈ Mtrie.subs (subscriptions x) t.

Lemma elem_prefixes d : forall t, t ∈ Mtrie.prefixes d <-> t `prefix_of` d.
Proof.
  induction d as [|c d IH]; intros t; cbn [Mtrie.prefixes].
  - rewrite list_elem_of_singleton. split; [by intros ->|]. apply prefix_nil_inv.
  - rewrite elem_of_cons. split.
    + intros [->|Ht]; [apply prefix_nil|]. apply list_elem_of_fmap in Ht as (t' & -> & Ht').
      by apply prefix_cons, IH.
    + intros Ht. destruct t as [|c' t]; [by left|]. right. apply list_elem_of_fmap.
      exists t. rewrite IH. split; [|by eapply prefix_cons_inv_2].
      by rewrite (prefix_cons_inv_1 _ _ _ _ Ht).
Qed.

Lemma elem_matched x d p :
  p ∈ flat_map (Mtrie.subs (subscriptions x)) (Mtrie.prefixes d) <-> wants x d p.
Proof.
  rewrite list_elem_of_In, in_flat_map. unfold wants.
  split; intros (t & Ht & Hp); exists t; revert Ht Hp; rewrite <- !list_elem_of_In, ?elem_prefixes; done.
Qed.

Lemma mark_all_spec l : forall d,
  Dist.dist_ok d -> Dist.more d = false -> (forall p, p ∈ l -> p ∈ Dist.s_all (Dist.abs d)) ->
  exists d', mark_all l d = Done d' /\ Dist.dist_ok d' /\ Dist.more d' = false /\
    Dist.s_active (Dist.abs d') = Dist.s_active (Dist.abs d) /\
    Dist.s_elig (Dist.abs d') = Dist.s_elig (Dist.abs d) /\
    Dist.s_all (Dist.abs d') = Dist.s_all (Dist.abs d) /\
    forall q, q ∈ Dist.s_match (Dist.abs d') <->
      q ∈ Dist.s_match (Dist.abs d) \/ (q ∈ l /\ q ∈ Dist.s_elig (Dist.abs d)).
Proof.
  induction l as [|p l IH]; intros d Hd Hm Hl.
  - exists d. split_and!; try done. intros q. rewrite elem_of_nil. tauto.
  - simpl. destruct (Dist.dist_match_spec p d Hd Hm) as (d1 & -> & Hd1 & E1).
    { pose proof (Dist.d_array _ Hd) as Ha. apply (Array.elem_all _ p Ha). apply (Hl p). constructor. }
    cbn [obind]. assert (Em : Dist.more d1 = false) by (change (Dist.s_more (Dist.abs d1) = false); by rewrite E1).
    destruct (IH d1 Hd1 Em) as (d' & -> & Hd' & Hm' & Ea & Ee & El & Hq).
    { intros q Hq. rewrite E1. simpl. apply Hl. by constructor. }
    exists d'. rewrite E1 in *. simpl in *. split_and!; try done. intros q. rewrite Hq, elem_of_cons.
    case_decide; [rewrite elem_of_union, elem_of_singleton|]; [|naive_solver].
    destruct (decide (q = p)) as [->|]; naive_solver.
Qed.

Record ok (x : xpub) : Prop := {
  x_subs : Mtrie.wf (subscriptions x);
  x_dist : Dist.dist_ok (dist x);
  x_attached : forall p t, p ∈ Mtrie.subs (subscriptions x) t -> p ∈ Dist.s_all (Dist.abs (dist x));
  x_more : more x = Dist.more (dist x);
  x_idle : more x = false -> Dist.s_match (Dist.abs (dist x)) = ∅;
  x_lossy : lossy x = true
}.

(** The pipes that get the next part. *)
Definition targets (x : xpub) (d : list Z) (q : nat) : Prop :=
  if more x then q ∈ Dist.s_match (Dist.abs (dist x))
  else q ∈ Dist.s_elig (Dist.abs (dist x)) /\
       (if invert_matching x then ~ wants x d q else wants x d q).

Definition between (b : bool) (s : Dist.segs) : Dist.segs := if b then s else Dist.s_unmatch s.

Section Send.
Context {W : Type} `{PipeOps W}.

(** The selection of the pipes, for the first part. *)
Lemma select_spec x d :
  ok x -> more x = false ->
  exists d1, (let* d1 := mark_all (flat_map (Mtrie.subs (subscriptions x)) (Mtrie.prefixes d)) (dist x) in
              if invert_matching x then Dist.reverse_match d1 else Done d1) = Done d1 /\
    Dist.dist_ok d1 /\ Dist.more d1 = false /\
    Dist.s_active (Dist.abs d1) = Dist.s_active (Dist.abs (dist x)) /\
    Dist.s_elig (Dist.abs d1) = Dist.s_elig (Dist.abs (dist x)) /\
    Dist.s_all (Dist.abs d1) = Dist.s_all (Dist.abs (dist x)) /\
    forall q, q ∈ Dist.s_match (Dist.abs d1) <-> targets x d q.
Proof.
  intros [Hs Hd Ha Hm Hi Hl] Em. unfold targets. rewrite Em. specialize (Hi Em). rewrite Em in Hm.
  destruct (mark_all_spec (flat_map (Mtrie.subs (subscriptions x)) (Mtrie.prefixes d)) (dist x) Hd (eq_sym Hm))
    as (d1 & -> & Hd1 & Hm1 & Ea & Ee & El & Hq).
  { intros p (t & _ & Hp)%elem_matched. by eapply Ha. }
  cbn [obind]. destruct (invert_matching x).
  - destruct (Dist.reverse_match_spec d1 Hd1 Hm1) as (d2 & -> & Hd2 & E2). exists d2.
    change (Dist.more d2) with (Dist.s_more (Dist.abs d2)). rewrite E2.
    split_and!; try done. intros q. unfold Dist.s_reverse. cbn [Dist.s_match].
    rewrite elem_of_difference, Hq, elem_matched, Hi, Ee. set_solver.
  - exists d1. split_and!; try done. intros q. rewrite Hq, elem_matched, Hi. set_solver.
Qed.

Lemma xpub_xsend_spec msg x d (e : env W) :
  ok x -> Msg.data msg (e_mem e) = Done (e_mem e, d) ->
  exists ps sg, NoDup ps /\ (forall q, q ∈ ps <-> targets x d q) /\
    (forall q, q ∈ Dist.s_match sg <-> targets x d q) /\ Dist.s_all sg = Dist.s_all (Dist.abs (dist x)) /\
    match Dist.spec_send msg ps e with
    | Done (e', (m', failed)) =>
        exists x' d', xsend msg x e = Done (e', (None, m', x')) /\ x' = set_more (msg_more msg) (set_dist d' x) /\
          Dist.dist_ok d' /\ Dist.abs d' = between (msg_more msg) (Dist.s_sent (msg_more msg) (Dist.s_fails failed sg))
    | Crash => xsend msg x e = Crash
    end.
Proof.
  intros Hx Hd. destruct e as [mem w]; simpl in Hd. pose proof (x_lossy _ Hx) as Hl.
  assert (Hsel : exists x1, (if negb (more x) then
       let! data := on_mem (Msg.data msg) in
       let! l := slift (Mtrie.match_ (subscriptions x) data) in
       let! d := slift (mark_all l (dist x)) in
       let! d := slift (if invert_matching x then Dist.reverse_match d else Done d) in
       sret (set_dist d x)
     else sret x) (Env mem w) = Done (Env mem w, set_dist x1 x) /\ Dist.dist_ok x1 /\
     Dist.s_elig (Dist.abs x1) = Dist.s_elig (Dist.abs (dist x)) /\
     Dist.s_all (Dist.abs x1) = Dist.s_all (Dist.abs (dist x)) /\
     (forall q, q ∈ Dist.s_match (Dist.abs x1) <-> targets x d q)).
  { destruct (more x) eqn:Em; simpl.
    - exists (dist x). split; [by destruct x|]. split_and!; try done; [apply Hx|]. intros q. unfold targets. by rewrite Em.
    - destruct (select_spec x d Hx Em) as (d1 & E & Hd1 & _ & _ & Ee & El & Hq). exists d1.
      split; [|done]. unfold sbind, on_mem, slift. simpl. rewrite Hd. cbn [obind].
      rewrite (Mtrie.mtrie_match_spec d _ (x_subs _ Hx)). cbn [obind].
      destruct (mark_all _ (dist x)) as [d0|]; [|done]. cbn [obind] in E |- *. by rewrite E. }
  destruct Hsel as (d1 & E & Hd1 & Ee & El & Hq).
  destruct (Dist.send_to_matching_spec msg d1 (Env mem w) Hd1) as (ps & Hnd & Hps & Hsend).
  exists ps, (Dist.abs d1). split; [done|]. split; [intros q; by rewrite Hps, Hq|]. split; [done|]. split; [done|].
  assert (Eq : xsend msg x (Env mem w) =
    let* (e', r) := Dist.send_to_matching msg d1 (Env mem w) in
    Done (e', (None, r.1, set_more (msg_more msg)
                 (set_dist (if negb (msg_more msg) then Dist.unmatch r.2 else r.2) x)))).
  { unfold xsend. unfold sbind at 1. rewrite E. cbn [obind]. unfold sbind at 1, sget. cbn [obind].
    change (lossy (set_dist d1 x)) with (lossy x). rewrite Hl. unfold sbind, sret.
    cbn [obind]. change (dist (set_dist d1 x)) with d1.
    by destruct (Dist.send_to_matching msg d1 (Env mem w)) as [[e' [m' d']]|]. }
  rewrite Eq. destruct (Dist.spec_send msg ps (Env mem w)) as [[e' [m' failed]]|].
  - destruct Hsend as (d' & -> & Hd' & Ha'). cbn [obind fst snd].
    eexists _, (if negb (msg_more msg) then Dist.unmatch d' else d'). split; [reflexivity|]. split; [done|].
    rewrite <- Ha'. destruct (msg_more msg); simpl; [done|]. by apply Dist.unmatch_spec.
  - by rewrite Hsend.
Qed.

(** A socket that has sent a part is as it should be. *)
Lemma sent_x_ok x d' b sg failed :
  ok x -> Dist.s_all sg = Dist.s_all (Dist.abs (dist x)) -> Dist.dist_ok d' ->
  Dist.abs d' = between b (Dist.s_sent b (Dist.s_fails failed sg)) ->
  ok (set_more b (set_dist d' x)).
Proof.
  intros [Hs Hd Ha Hm Hi Hl] Eall Hd' Eabs.
  split; cbn [set_more set_dist dist more subscriptions lossy]; try done.
  - intros p t Hp. rewrite Eabs. specialize (Ha p t Hp). rewrite <- Eall, <- (Dist.fails_all failed) in Ha. by destruct b.
  - change (Dist.more d') with (Dist.s_more (Dist.abs d')). rewrite Eabs. by destruct b.
  - intros ->. by rewrite Eabs.
Qed.

Lemma fails_match l : forall s q, q ∈ Dist.s_match (Dist.s_fails l s) <-> q ∈ Dist.s_match s /\ q ∉ l.
Proof.
  unfold Dist.s_fails. induction l as [|p l IH]; intros s q; simpl; [rewrite elem_of_nil; tauto|].
  rewrite IH. simpl. rewrite elem_of_difference, elem_of_singleton, elem_of_cons. tauto.
Qed.

Lemma xsend_targets msg x d (e : env W) :
  ok x -> Msg.data msg (e_mem e) = Done (e_mem e, d) ->
  exists ps, NoDup ps /\ (forall q, q ∈ ps <-> targets x d q) /\
    match Dist.spec_send msg ps e with
    | Done (e', (m', failed)) =>
        exists x', xsend msg x e = Done (e', (None, m', x')) /\ ok x' /\ more x' = msg_more msg /\
          Dist.s_all (Dist.abs (dist x')) = Dist.s_all (Dist.abs (dist x)) /\ subscriptions x' = subscriptions x /\
          forall q, q ∈ Dist.s_match (Dist.abs (dist x')) <-> msg_more msg = true /\ q ∈ ps /\ q ∉ failed
    | Crash => xsend msg x e = Crash
    end.
Proof.
  intros Hx Hd. destruct (xpub_xsend_spec msg x d e Hx Hd) as (ps & sg & Hnd & Hps & Hm & Hall & Hs).
  exists ps. split; [done|]. split; [done|]. destruct (Dist.spec_send msg ps e) as [[e' [m' failed]]|]; [|done].
  destruct Hs as (x' & d' & E & -> & Hd' & Ea). eexists. split; [exact E|].
  split; [exact (sent_x_ok x d' (msg_more msg) sg failed Hx Hall Hd' Ea)|]. split; [done|].
  cbn [set_more set_dist dist subscriptions]. rewrite Ea. split; [|split; [done|]].
  - rewrite <- Hall. transitivity (Dist.s_all (Dist.s_fails failed sg)); [|apply Dist.fails_all]. by destruct (msg_more msg).
  - intros q. rewrite Hps, <- Hm. destruct (msg_more msg); simpl.
    + rewrite fails_match. tauto.
    + set_solver.
Qed.
End Send.

(** ** The invariant of a XPUB socket and its owner *)

Definition view_of (x : xpub) : view :=
  View (Mtrie.subs (subscriptions x)) (zip (pending_data x) (pending_flags x)).

Lemma shows_view x s : shows x s -> v_pend (view_of x) = v_pend s /\ shows x (view_of x).
Proof.
  intros [Hw Hs Hd Hf Hm]. assert (E : v_pend (view_of x) = v_pend s).
  { unfold view_of. cbn [v_pend]. rewrite Hd, Hf. apply zip_fst_snd. }
  split; [done|]. split; rewrite ?E; done.
Qed.

Lemma informed_view log x s : shows x s -> informed log s -> informed log (view_of x).
Proof.
  intros Hx Hi t. rewrite (proj1 (shows_view x s Hx)), (Hi t). simpl. by rewrite (sh_subs _ _ Hx).
Qed.

Lemma quiet_view log x x' s :
  shows x' s -> quiet log x s -> verbose_subs x' = verbose_subs x -> quiet log x' (view_of x').
Proof.
  intros Hx Hq Ev Hv. rewrite (proj1 (shows_view x' s Hx)). apply Hq. congruence.
Qed.

(** The default options of a XPUB socket, its data as they should be, and the owner
    informed: [log] is what it has received. *)
Record tracks (log : list (list Z)) (x : xpub) : Prop := {
  t_ok : ok x;
  t_type : type x = ZMQ_XPUB;
  t_manual : manual x = false;
  t_unsubs : verbose_unsubs x = false;
  t_welcome : welcome_msg x = Msg.init;
  t_shows : shows x (view_of x);
  t_informed : informed log (view_of x);
  t_quiet : quiet log x (view_of x)
}.

Definition attached (x : xpub) : gset nat := Dist.s_all (Dist.abs (dist x)).

Lemma s_subs_members x pipe ms : forall s p t,
  p ∈ v_subs (s_subs x pipe ms s) t -> p ∈ v_subs s t \/ p = pipe.
Proof.
  induction ms as [|m ms IH]; intros s p t Hp; [by left|]. apply IH in Hp as [Hp| ->]; [|by right].
  unfold s_sub in Hp. destruct (m.1) as [|c q]; [by left|].
  destruct (c =? 0); [|destruct (c =? 1); [|by left]]; simpl in Hp; case_decide; [|by left| |by left]; subst t.
  - apply elem_of_sset_erase in Hp as [_ Hp]. by left.
  - apply elem_of_sset_insert in Hp as [->|Hp]; [by right|by left].
Qed.

(** Changes of the subscriptions and of the queue. *)
Lemma tracks_moved log log' x x' s :
  tracks log x -> moved x x' -> shows x' s -> informed log' s -> quiet log' x s ->
  (forall p t, p ∈ v_subs s t -> p ∈ attached x) -> tracks log' x'.
Proof.
  intros [[Hs Hd Ha Hm Hi Hl] Ht Hma Hv Hw _ _ _] Hmv Hx' Hin Hqu Hatt.
  pose proof Hx' as [Hw' Hs' _ _ _]. destruct (shows_view x' s Hx') as [_ Hsv].
  pose proof (informed_view log' x' s Hx' Hin) as Hiv.
  pose proof (quiet_view log' x x' s Hx' Hqu (proj1 (proj2 (moved_same _ _ Hmv)))) as Hqv. destruct Hmv as (t' & d & md & f & ->).
  split; [|exact Ht|exact Hma|exact Hv|exact Hw|exact Hsv|exact Hiv|exact Hqv].
  split; [exact Hw'|exact Hd| |exact Hm|exact Hi|exact Hl]. intros p t Hp. rewrite Hs' in Hp. by apply (Hatt p t).
Qed.

(** Changes of the distributor. *)
Lemma tracks_dist log x d b :
  tracks log x -> ok (set_more b (set_dist d x)) -> tracks log (set_more b (set_dist d x)).
Proof.
  intros [_ Ht Hma Hv Hw [H1 H2 H3 H4 H5] Hi Hq] Hok.
  split; [exact Hok|exact Ht|exact Hma|exact Hv|exact Hw|by split|exact Hi|exact Hq].
Qed.

Lemma xpub_ok_new ty : ok (xpub_new ty).
Proof.
  split; [apply Mtrie.wf_mtrie_new|apply Dist.dist_new_ok| |reflexivity|intros _; reflexivity|reflexivity].
  intros p t Hp. simpl in Hp. rewrite Mtrie.subs_mtrie_new in Hp. by apply not_elem_of_nil in Hp.
Qed.

Lemma tracks_new : tracks [] (xpub_new ZMQ_XPUB).
Proof.
  split; [apply xpub_ok_new|reflexivity|reflexivity|reflexivity|reflexivity| | |intros _; exact I].
  - split; [apply Mtrie.wf_mtrie_new|intros p; reflexivity|reflexivity|reflexivity|reflexivity].
  - intros t. simpl. rewrite Mtrie.subs_mtrie_new. unfold interest. simpl. set_solver.
Qed.

Lemma set_more_same x : set_more (more x) x = x.
Proof. by destruct x. Qed.

Section Handlers.
Context {W : Type} `{PipeOps W}.

(** [ms] is what waits in the pipe: well-formed messages, held by the variables [ks]. *)
Definition arrives (n pipe : nat) (mem : Msg.memory) (w w' : W) (vs : gmap nat Msg.msg) (ks : list nat)
    (ms : list (list Z * Z)) : Prop :=
  exists msgs, unread n pipe w = Some (msgs, w') /\ Msg.inv mem vs /\ held mem vs ks msgs ms.*1 /\
    Forall bytes ms.*1 /\ ms = zip ms.*1 (Msg.flags <$> msgs).

Lemma xread_tracks log n pipe mem (w w' : W) vs ks ms x :
  tracks log x -> pipe ∈ attached x -> arrives n pipe mem w w' vs ks ms -> legit x pipe ms (view_of x) ->
  exists mem' x', xread_activated n pipe x (Env mem w) = Done (Env mem' w', x') /\
    Msg.inv mem' (forget ks vs) /\ tracks log x' /\ moved x x'.
Proof.
  intros Ht Hp (msgs & Hu & Hi & Hh & Hb & Hf) Hl. pose proof Ht as [Hok Hty Hma Hv Hw Hs Hin Hqu].
  destruct (xread_activated_spec n pipe msgs ms.*1 mem w w' vs ks x _ Hu Hi Hh Hb Hs Hma)
    as (mem' & x' & E & Hi' & Hmv & Hx'). rewrite <- Hf in Hx'.
  exists mem', x'. split; [done|]. split; [done|]. split; [|done].
  eapply (tracks_moved log log x x' _ Ht Hmv Hx'); [by apply s_subs_informed|by apply s_subs_quiet|].
  intros p t [Hp'| ->]%s_subs_members; [by apply (x_attached _ Hok p t)|done].
Qed.

Lemma xattach_tracks log n pipe mem (w w' : W) vs ks ms x :
  tracks log x -> pipe ∉ attached x -> Array.size (Dist.pipes (dist x)) + 1 < 2 ^ 31 ->
  arrives n pipe mem w w' vs ks ms -> legit x pipe ms (view_of x) ->
  exists mem' x', xattach_pipe n pipe false x (Env mem w) = Done (Env mem' w', x') /\
    Msg.inv mem' (forget ks vs) /\ tracks log x' /\ attached x' = {[pipe]} ∪ attached x /\
    verbose_subs x' = verbose_subs x.
Proof.
  intros Ht Hp Hz Har Hl. pose proof Ht as [[Hs Hd Ha Hm Hi Hlo] Hty Hma Hv Hw Hsh Hin Hqu].
  destruct (Dist.dist_attach_spec pipe (dist x) Hd) as (d & E & Hd' & Ed); [|done|].
  { intros Hin'. apply Hp. by apply (Array.elem_all _ pipe (Dist.d_array _ Hd)). }
  assert (Hatt : attached (set_dist d x) = {[pipe]} ∪ attached x).
  { unfold attached. cbn [set_dist dist]. by rewrite Ed. }
  assert (Hx1 : tracks log (set_dist d x)).
  { rewrite <- (set_more_same (set_dist d x)). apply (tracks_dist log x d (more x) Ht).
    split; cbn [set_more set_dist dist more subscriptions lossy]; [exact Hs|exact Hd'| | | |exact Hlo].
    - intros p t Hpt. rewrite Ed. simpl. apply elem_of_union. right. by eapply Ha.
    - change (Dist.more d) with (Dist.s_more (Dist.abs d)). by rewrite Ed.
    - intros Em. rewrite Ed. by apply Hi. }
  destruct (xread_tracks log n pipe mem w w' vs ks ms (set_dist d x) Hx1) as (mem' & x' & E' & Hi' & Ht' & Hmv).
  { rewrite Hatt. set_solver. } { done. }
  { clear - Hl. change (view_of (set_dist d x)) with (view_of x). generalize (view_of x) Hl. clear Hl.
    induction ms as [|m ms IH]; intros s Hl; [done|]. destruct Hl as [Hl1 Hl]. split; [done|]. by apply IH. }
  exists mem', x'. split; [|split; [done|split; [done|split]]].
  - unfold xattach_pipe, sbind, slift. rewrite E. cbn [obind]. rewrite <- E'. unfold sret, on_mem.
    cbn [obind welcome_msg set_dist]. rewrite Hw. done.
  - unfold attached in *. destruct (moved_same _ _ Hmv) as (_ & _ & _ & _ & -> & _). done.
  - destruct (moved_same _ _ Hmv) as (_ & -> & _). done.
Qed.

Lemma xpipe_terminated_tracks log pipe x (e : env W) :
  tracks log x -> pipe ∈ attached x ->
  exists x', xpipe_terminated pipe x e = Done (e, x') /\ tracks log x' /\ attached x' = attached x ∖ {[pipe]} /\
    (forall t, pipe ∉ Mtrie.subs (subscriptions x') t) /\ verbose_subs x' = verbose_subs x.
Proof.
  intros Ht Hp. pose proof Ht as [[Hs Hd Ha Hm Hi Hlo] Hty Hma Hv Hw Hsh Hin Hqu].
  assert (Hp' : pipe ∈ Array.items (Dist.pipes (dist x))) by (by apply (Array.elem_all _ pipe (Dist.d_array _ Hd))).
  destruct (xpipe_terminated_spec pipe x (view_of x) e Hsh Hma) as (x' & l & d & E & Hso & Hl & Hd' & Ed & Hmv & Hx');
    [by rewrite Hty|done|done|]. rewrite Hv in Hl.
  pose proof (terminated_informed log pipe (view_of x) l Hin Hl) as Hin'.
  pose proof (terminated_quiet log x pipe (view_of x) l (fun q => sset_erase pipe (v_subs (view_of x) q))
                Hin Hqu (lex_sorted_NoDup l Hso) Hl) as Hqu'.
  exists x'. split; [done|]. split; [|split; [|split]].
  - destruct (shows_view x' _ Hx') as [_ Hsv]. pose proof (informed_view log x' _ Hx' Hin') as Hiv.
    pose proof (quiet_view log (set_dist d x) x' _ Hx' Hqu' (proj1 (proj2 (moved_same _ _ Hmv)))) as Hqv.
    destruct Hx' as [Hw' Hs' _ _ _]. destruct Hmv as (t' & dd & md & f & ->).
    split; [|exact Hty|exact Hma|exact Hv|exact Hw|exact Hsv|exact Hiv|exact Hqv].
    split; cbn [set_pending set_subscriptions set_dist dist more subscriptions lossy];
      [exact Hw'|exact Hd'| | | |exact Hlo].
    + intros p t Hpt. rewrite Ed. simpl in *. rewrite Hs' in Hpt. apply elem_of_sset_erase in Hpt as [Hne Hpt].
      apply elem_of_difference. split; [by apply (Ha p t)|set_solver].
    + change (Dist.more d) with (Dist.s_more (Dist.abs d)). by rewrite Ed.
    + intros Em. rewrite Ed. specialize (Hi Em). unfold Dist.s_remove. cbn [Dist.s_match]. rewrite Hi. set_solver.
  - unfold attached. destruct (moved_same _ _ Hmv) as (_ & _ & _ & _ & E1 & _). rewrite E1.
    change (dist (set_dist d x)) with d. by rewrite Ed.
  - intros t Hpt. rewrite (sh_subs _ _ Hx') in Hpt. simpl in Hpt. apply elem_of_sset_erase in Hpt. tauto.
  - destruct (moved_same _ _ Hmv) as (_ & -> & _). done.
Qed.

Lemma xrecv_tracks log x mem (w : W) :
  tracks log x ->
  match pending_data x with
  | [] => xrecv Msg.init x (Env mem w) = Done (Env mem w, (Some EAGAIN, Msg.init, x))
  | d :: l => fits d ->
    exists mem' m x', xrecv Msg.init x (Env mem w) = Done (Env mem' w, (None, m, x')) /\
      Msg.contents mem' m = Some d /\ tracks (log ++ [d]) x' /\ attached x' = attached x /\
      subscriptions x' = subscriptions x /\ verbose_subs x' = verbose_subs x /\ pending_data x' = l /\
      has_data m /\ pending_flags x' = tail (pending_flags x) /\
      (head (pending_flags x) = Some 0 -> forall vs v, Msg.inv mem vs -> vs !! v = None ->
        Z.of_nat (S (base.size vs)) < 2 ^ 32 -> Msg.inv mem' (<[v := m]> vs))
  end.
Proof.
  intros Ht. pose proof Ht as [Hok Hty Hma Hv Hw Hsh Hin Hqu].
  destruct (pending_data x) as [|d l] eqn:Ed; [unfold xrecv; by rewrite Ed|]. intros Hfit.
  pose proof Hsh as [_ _ Hd Hf Hmeta]. destruct (v_pend (view_of x)) as [|[d' fl] pend] eqn:Ep; [simpl in Hd; congruence|].
  assert (d' = d) as -> by (simpl in Hd; congruence).
  assert (Hs1 : shows x (View (Mtrie.subs (subscriptions x)) ((d, fl) :: pend))).
  { pose proof (sh_wf _ _ Hsh). split; [done|by intros p|exact Hd|exact Hf|exact Hmeta]. }
  destruct (xrecv_spec x _ d fl pend mem w Hs1 Hma Hfit) as (mem' & m & x' & E & Hc & Hda & Hfl & Hi & Hmv & Hsub & Hx').
  exists mem', (Msg.set_flags fl m), x'. split; [done|]. split; [done|]. split.
  - apply (tracks_moved log (log ++ [d]) x x' _ Ht Hmv Hx').
    + apply (informed_recv log _ d fl). intros t. rewrite <- (Hin t), Ep. done.
    + intros Hv'. specialize (Hqu Hv'). rewrite Ep in Hqu. simpl in Hqu. by rewrite <- app_assoc.
    + intros p t Hpt. exact (x_attached _ Hok p t Hpt).
  - unfold attached. destruct (moved_same _ _ Hmv) as (_ & -> & _ & _ & -> & _). split; [done|].
    split; [done|]. split; [done|]. pose proof (sh_data _ _ Hx') as Hd'. simpl in Hd, Hd'.
    pose proof (sh_flags _ _ Hx') as Hf'. simpl in Hf, Hf'. rewrite Hd', Hf', Hf, Ed in *.
    split; [by injection Hd|]. split; [exact Hda|]. split; [done|]. intros [= ->].
    replace (Msg.set_flags 0 m) with m by (destruct m; simpl in *; by subst). exact Hi.
Qed.

Lemma xsend_tracks log x msg d (e e' : env W) r :
  tracks log x -> Msg.data msg (e_mem e) = Done (e_mem e, d) -> xsend msg x e = Done (e', r) ->
  tracks log r.2 /\ verbose_subs r.2 = verbose_subs x.
Proof.
  intros Ht Hd E. destruct (xpub_xsend_spec msg x d e (t_ok _ _ Ht) Hd) as (ps & sg & _ & _ & _ & Hall & Hs).
  destruct (Dist.spec_send msg ps e) as [[e2 [m2 failed]]|]; [|congruence].
  destruct Hs as (x' & d' & E' & -> & Hd' & Ha). rewrite E' in E. injection E as _ <-. split; [|done].
  apply tracks_dist; [done|]. by apply (sent_x_ok x d' (msg_more msg) sg failed (t_ok _ _ Ht)).
Qed.

Lemma xwrite_activated_tracks log p x (e : env W) :
  tracks log x -> p ∈ Array.items (Dist.pipes (dist x)) ->
  Dist.eligible (dist x) <= Array.index (Dist.pipes (dist x)) p ->
  exists x', xwrite_activated p x e = Done (e, x') /\ tracks log x' /\ verbose_subs x' = verbose_subs x /\
    attached x' = attached x.
Proof.
  intros Ht Hp Hi. pose proof (t_ok _ _ Ht) as [Hs Hd Ha Hm Hid Hl].
  destruct (Dist.dist_activated_spec p (dist x) Hd Hp Hi) as (d & Ed & Hd' & Ea). exists (set_dist d x).
  unfold xwrite_activated, sbind, slift. rewrite Ed. split; [done|]. split; [|split; [done|]].
  - rewrite <- (set_more_same (set_dist d x)). apply tracks_dist; [done|].
    split; cbn [set_more set_dist dist more subscriptions lossy]; try done.
    + intros q t Hq. rewrite Ea. by apply (Ha q t).
    + change (Dist.more d) with (Dist.s_more (Dist.abs d)). by rewrite Ea.
    + intros Em. rewrite Ea. by apply Hid.
  - unfold attached. cbn [set_dist dist]. by rewrite Ea.
Qed.

(** *** Runs

    What becomes of a socket with the default options between its creation and its end:
    the calls of its base class and of its owner, in any order, each of which returned.  [told log x] says
    that [x] can be reached, and that [log] is what the owner has received meanwhile.  What waits in
    a pipe and the memory may be anything at each call.  The rule of [legit] is the only thing asked of
    the peers. *)
Inductive told : list (list Z) -> xpub -> Prop :=
| told_new : told [] (xpub_new ZMQ_XPUB)
| told_verbose log x x' (e e' : env W) :
    told log x -> xsetsockopt ZMQ_XPUB_VERBOSE [1; 0; 0; 0] x e = Done (e', (None, x')) -> told log x'
| told_read log x x' n p mem (w w' : W) vs ks ms e' :
    told log x -> p ∈ attached x -> arrives n p mem w w' vs ks ms -> legit x p ms (view_of x) ->
    xread_activated n p x (Env mem w) = Done (e', x') -> told log x'
| told_attach log x x' n p mem (w w' : W) vs ks ms e' :
    told log x -> p ∉ attached x -> Array.size (Dist.pipes (dist x)) + 1 < 2 ^ 31 ->
    arrives n p mem w w' vs ks ms -> legit x p ms (view_of x) ->
    xattach_pipe n p false x (Env mem w) = Done (e', x') -> told log x'
| told_gone log x x' p (e e' : env W) :
    told log x -> p ∈ attached x -> xpipe_terminated p x e = Done (e', x') -> told log x'
| told_room log x x' p (e e' : env W) :
    told log x -> p ∈ Array.items (Dist.pipes (dist x)) ->
    Dist.eligible (dist x) <= Array.index (Dist.pipes (dist x)) p ->
    xwrite_activated p x e = Done (e', x') -> told log x'
| told_sent log x x' msg d rc m (e e' : env W) :
    told log x -> Msg.data msg (e_mem e) = Done (e_mem e, d) -> xsend msg x e = Done (e', (rc, m, x')) -> told log x'
| told_received log x x' d l m mem (w : W) e' :
    told log x -> pending_data x = d :: l -> fits d ->
    xrecv Msg.init x (Env mem w) = Done (e', (None, m, x')) -> told (log ++ [d]) x'.

Lemma done_inj {A B} (m : outcome (A * B)) a b a' b' : m = Done (a, b) -> m = Done (a', b') -> b = b'.
Proof. congruence. Qed.

Lemma told_tracks log x : told log x -> tracks log x.
Proof.
  induction 1 as [|log x x' e e' _ Ht E|log x x' n p mem w w' vs ks ms e' _ Ht Hp Har Hl E|log x x' n p mem w w' vs ks ms e' _ Ht Hp Hz Har Hl E
    |log x x' p e e' _ Ht Hp E|log x x' p e e' _ Ht Hp Hi E|log x x' msg d rc m e e' _ Ht Hd E
    |log x x' d l m mem w e' _ Ht Ed Hf E].
  - apply tracks_new.
  - injection E as _ <-. destruct Ht as [Hok Hty Hma Hv Hw [S1 S2 S3 S4 S5] Hi Hq].
    split; [by destruct Hok|exact Hty|exact Hma|reflexivity|exact Hw|by split|exact Hi|discriminate].
  - destruct (xread_tracks log n p mem w w' vs ks ms x Ht Hp Har Hl) as (m1 & x1 & E1 & _ & Ht1 & _).
    by rewrite (done_inj _ _ _ _ _ E E1).
  - destruct (xattach_tracks log n p mem w w' vs ks ms x Ht Hp Hz Har Hl) as (m1 & x1 & E1 & _ & Ht1 & _).
    by rewrite (done_inj _ _ _ _ _ E E1).
  - destruct (xpipe_terminated_tracks log p x e Ht Hp) as (x1 & E1 & Ht1 & _). by rewrite (done_inj _ _ _ _ _ E E1).
  - destruct (xwrite_activated_tracks log p x e Ht Hp Hi) as (x1 & E1 & Ht1 & _). by rewrite (done_inj _ _ _ _ _ E E1).
  - by destruct (xsend_tracks log x msg d e e' _ Ht Hd E).
  - pose proof (xrecv_tracks log x mem w Ht) as Hr. rewrite Ed in Hr.
    destruct (Hr Hf) as (m1 & m2 & x1 & E1 & _ & Ht1 & _). pose proof (done_inj _ _ _ _ _ E E1) as E2. by injection E2 as _ ->.
Qed.

(** Such a socket announces what it should. *)
Lemma tracks_says log x :
  tracks log x ->
  (forall t, t ∈ interest (log ++ pending_data x) <-> Mtrie.subs (subscriptions x) t <> []) /\
  (verbose_subs x = false -> exact ∅ (log ++ pending_data x)).
Proof.
  intros Ht. rewrite (sh_data _ _ (t_shows _ _ Ht)). split.
  - exact (t_informed _ _ Ht).
  - exact (t_quiet _ _ Ht).
Qed.
End Handlers.

(** ** Properties *)

(** C7: a XPUB socket tells its owner exactly which prefixes have subscribers.  At any moment of
    any run of the calls of its base class and of its owner, as long as no pipe withdraws a
    prefix it is not subscribed to ([stray_unsubscription_cuts_others] shows what follows
    otherwise), the messages the owner has received, followed by those that wait, amount to the set of prefixes
    with a subscriber; and, in a socket that was not made verbose, each of them is news: it announces a prefix
    that nobody had, or withdraws one that was announced.  From there none of the
    calls fails: reading the messages of a pipe, attaching a pipe, losing a pipe (after which the pipe is subscribed to
    nothing), and giving the next message to the owner, with its content. *)
Theorem xpub_forwards_interest {W} `{PipeOps W} log x :
  told log x ->
  (forall t, t ∈ interest (log ++ pending_data x) <-> Mtrie.subs (subscriptions x) t <> []) /\
  (verbose_subs x = false -> exact ∅ (log ++ pending_data x)) /\
  (forall n pipe mem (w w' : W) vs ks ms,
    arrives n pipe mem w w' vs ks ms -> legit x pipe ms (view_of x) ->
    (pipe ∈ attached x ->
     exists mem' x', xread_activated n pipe x (Env mem w) = Done (Env mem' w', x') /\
       Msg.inv mem' (forget ks vs) /\ attached x' = attached x) /\
    (pipe ∉ attached x -> Array.size (Dist.pipes (dist x)) + 1 < 2 ^ 31 ->
     exists mem' x', xattach_pipe n pipe false x (Env mem w) = Done (Env mem' w', x') /\
       Msg.inv mem' (forget ks vs) /\ attached x' = {[pipe]} ∪ attached x)) /\
  (forall pipe (e : env W), pipe ∈ attached x ->
    exists x', xpipe_terminated pipe x e = Done (e, x') /\
      attached x' = attached x ∖ {[pipe]} /\ forall t, pipe ∉ Mtrie.subs (subscriptions x') t) /\
  (forall mem (w : W),
    match pending_data x with
    | [] => xrecv Msg.init x (Env mem w) = Done (Env mem w, (Some EAGAIN, Msg.init, x))
    | d :: l => fits d ->
      exists mem' m x', xrecv Msg.init x (Env mem w) = Done (Env mem' w, (None, m, x')) /\
        Msg.contents mem' m = Some d /\ pending_data x' = l
    end).
Proof.
  intros Ht%told_tracks. destruct (tracks_says log x Ht) as [Hsay Hex]. split; [exact Hsay|]. split; [exact Hex|].
  split; [|split].
  - intros n pipe mem w w' vs ks ms Har Hl. split.
    + intros Hp. destruct (xread_tracks log n pipe mem w w' vs ks ms x Ht Hp Har Hl) as (mem' & x' & ? & ? & _ & Hmv).
      exists mem', x'. split_and!; try done. unfold attached. by destruct (moved_same _ _ Hmv) as (_ & _ & _ & _ & -> & _).
    + intros Hp Hz. destruct (xattach_tracks log n pipe mem w w' vs ks ms x Ht Hp Hz Har Hl)
        as (mem' & x' & ? & ? & _ & ? & _). by exists mem', x'.
  - intros pipe e Hp. destruct (xpipe_terminated_tracks log pipe x e Ht Hp) as (x' & ? & _ & ? & ? & _). by exists x'.
  - intros mem w. pose proof (xrecv_tracks log x mem w Ht) as Hr. destruct (pending_data x); [done|]. intros Hf.
    destruct (Hr Hf) as (mem' & m & x' & ? & ? & _ & _ & _ & _ & ? & _). by exists mem', m, x'.
Qed.

(** C6: a publication reaches its subscribers and nobody else.  The first part of a
    message goes, once each, to the pipes with room for it that subscribed to one of its
    prefixes (to the other ones when matching is inverted), the further parts to the same
    pipes less those that refused a part; what is written is the distribution that
    [Dist] specifies, and the socket is as it should be afterwards, with no target left
    after the last part. *)
Theorem xpub_delivers {W} `{PipeOps W} msg x d (e : env W) :
  ok x -> Msg.data msg (e_mem e) = Done (e_mem e, d) ->
  exists ps, NoDup ps /\ (forall q, q ∈ ps <-> targets x d q) /\
    match Dist.spec_send msg ps e with
    | Done (e', (m', failed)) =>
        exists x', xsend msg x e = Done (e', (None, m', x')) /\ ok x' /\ more x' = msg_more msg /\
          attached x' = attached x /\ subscriptions x' = subscriptions x /\
          forall q, q ∈ Dist.s_match (Dist.abs (dist x')) <-> msg_more msg = true /\ q ∈ ps /\ q ∉ failed
    | Crash => xsend msg x e = Crash
    end.
Proof.
  intros Hx Hd. destruct (xsend_targets msg x d e Hx Hd) as (ps & Hnd & Hps & Hs). by exists ps.
Qed.

(** ** Runs of a socket over the sample pipes *)

Definition text (d : list Z) : Msg.msg := Msg.set_body (Msg.Vsm d) Msg.init.

(** Pipes with room and messages to read. *)
Definition boxes (l : list (nat * Z * list Msg.msg)) : Boxes.boxes :=
  list_to_map (map (fun '(p, r, ms) => (p, Boxes.Box r [] 0 ms)) l).

Definition world (l : list (nat * Z * list Msg.msg)) : env Boxes.boxes := Env Msg.memory0 (boxes l).

(** Attach the pipes, in order. *)
Fixpoint attach_all (ps : list nat) (x : xpub) : stm (env Boxes.boxes) xpub :=
  match ps with
  | [] => sret x
  | p :: ps => let! x := xattach_pipe 9 p false x in attach_all ps x
  end.

(** A pipe that withdraws a subscription it does not have cuts off the others: pipe 1 is
    subscribed to "a", pipe 2 is not and withdraws "a"; the owner is told that nobody
    wants "a" although pipe 1 is still subscribed, because [not_found] counts as a removal. *)
Theorem stray_unsubscription_cuts_others :
  match attach_all [1; 2]%nat (xpub_new ZMQ_XPUB) (world [(1%nat, 5, [text [1; 97]]); (2%nat, 5, [text [0; 97]])]) with
  | Done (_, x) => Mtrie.subs (subscriptions x) [97] = [1%nat] /\ pending_data x = [[1; 97]; [0; 97]] /\
                   [97] ∉ interest (pending_data x)
  | Crash => False
  end.
Proof. vm_compute. split; [done|]. split; [done|]. intros Hin. by inversion Hin. Qed.

(** In a socket that does not drop, a refused message leaves its targets behind: the
    message "a" is refused because its subscriber, pipe 1, is full; the message "b", sent when pipe 1
    has room again, is written to pipe 1, which never subscribed to "b". *)
Theorem refused_send_leaves_targets :
  match (let! x := attach_all [1; 2]%nat (xpub_new ZMQ_XPUB) in
         let! (_, x) := xsetsockopt ZMQ_XPUB_NODROP [1; 0; 0; 0] x in
         let! (r, _, x) := xsend (text [97]) x in
         let! _ := (fun e => Done (Env (e_mem e) (boxes [(1%nat, 1, []); (2%nat, 5, [])]), tt)) in
         let! (r', _, x) := xsend (text [98]) x in sret (r, r', x))
        (world [(1%nat, 0, [text [1; 97]]); (2%nat, 5, [text [1; 98]])]) with
  | Done (e, (r, r', x)) =>
      r = Some EAGAIN /\ r' = None /\ Mtrie.subs (subscriptions x) [98] = [2%nat] /\
      map (fun p => Boxes.written (Boxes.box_of p (e_pipes e))) [1; 2]%nat = [[text [98]]; [text [98]]]
  | Crash => False
  end.
Proof. vm_compute. done. Qed.

(** A manual socket subscribes pipes that are gone: pipe 1 subscribes to "a" and
    terminates before the owner receives the subscription; the owner receives it and
    accepts it, and the trie then holds a pipe that is not attached any more. *)
Theorem manual_subscribes_dead_pipe :
  match (let! (_, x) := xsetsockopt ZMQ_XPUB_MANUAL [1; 0; 0; 0] (xpub_new ZMQ_XPUB) in
         let! x := attach_all [1]%nat x in
         let! x := xpipe_terminated 1 x in
         let! (_, m, x) := xrecv Msg.init x in
         let! (r, x) := xsetsockopt ZMQ_SUBSCRIBE [97] x in sret (m, r, x))
        (world [(1%nat, 5, [text [1; 97]])]) with
  | Done (_, (m, r, x)) =>
      m = text [1; 97] /\ r = None /\ Mtrie.subs (subscriptions x) [97] = [1%nat] /\ attached x = ∅
  | Crash => False
  end.
Proof. vm_compute. done. Qed.

(** A manual socket credits a subscription to another pipe when a user message came first: the
    message of pipe 1 takes no place among the pending pipes, so the
    owner accepts the "a" of pipe 2 for pipe 3. *)
Theorem manual_subscribes_other_pipe :
  match (let! (_, x) := xsetsockopt ZMQ_XPUB_MANUAL [1; 0; 0; 0] (xpub_new ZMQ_XPUB) in
         let! x := attach_all [1; 2; 3]%nat x in
         let! (_, _, x) := xrecv Msg.init x in
         let! (_, m, x) := xrecv Msg.init x in
         let! (_, x) := xsetsockopt ZMQ_SUBSCRIBE [97] x in sret (m, x))
        (world [(1%nat, 5, [text [7]]); (2%nat, 5, [text [1; 97]]); (3%nat, 5, [text [1; 98]])]) with
  | Done (_, (m, x)) => m = text [1; 97] /\ Mtrie.subs (subscriptions x) [97] = [3%nat]
  | Crash => False
  end.
Proof. vm_compute. done. Qed.

(** A message received from a shared content is never freed: [xrecv] gives its fresh copy
    the flags of the original, [shared] among them, with a counter at zero. *)
Theorem shared_user_message_leaks :
  let mem := Msg.Memory {[ 0%nat := Msg.Content (replicate 40 7) None 2 ]} 1 ∅ [] in
  match (let! x := attach_all [1]%nat (xpub_new ZMQ_XPUB) in
         let! (_, m, x) := xrecv Msg.init x in
         on_mem (Msg.close m))
        (Env mem (boxes [(1%nat, 5, [Msg.set_flags Msg.shared (Msg.fresh (Msg.Lmsg 0))])])) with
  | Done (e, (rc, _)) => rc = 0 /\ Msg.refcnt <$> Msg.heap (e_mem e) !! 1%nat = Some 4294967295
  | Crash => False
  end.
Proof. vm_compute. done. Qed.

(** A PUB socket keeps the user messages its peers send, and nothing takes them out. *)
Theorem pub_hoards_user_messages {W} `{PipeOps W} pipe c d x s (e : env W) msg :
  c <> 0 -> c <> 1 -> type x = ZMQ_PUB -> shows x s -> manual x = false -> bytes (c :: d) ->
  exists x', process_sub pipe (text (c :: d)) x e = Done (e, x') /\
    pending_data x' = pending_data x ++ [c :: d] /\ pub_recv msg x' = (Some ENOTSUP, msg, x').
Proof.
  intros H0 H1 Ht Hx Hm Hb.
  destruct (process_sub_spec pipe (text (c :: d)) (c :: d) x s e Hx Hm Hb) as (x' & E & _ & Hx'); [by destruct e|done|].
  exists x'. split; [done|]. split; [|done]. rewrite (sh_data _ _ Hx'), (sh_data _ _ Hx). unfold s_sub. simpl.
  rewrite (proj2 (Z.eqb_neq c 0) H0), (proj2 (Z.eqb_neq c 1) H1). simpl. by rewrite fmap_app.
Qed.

(** ** Witnesses *)

Definition sample_world : env Boxes.boxes := world [(1%nat, 5, [text [1; 97]]); (2%nat, 5, [])].

Definition sample : outcome (env Boxes.boxes * xpub) := attach_all [1; 2]%nat (xpub_new ZMQ_XPUB) sample_world.

Definition sample_x : xpub := match sample with Done (_, x) => x | Crash => xpub_new ZMQ_XPUB end.
Definition sample_e : env Boxes.boxes := match sample with Done (e, _) => e | Crash => sample_world end.

Lemma sample_arrives :
  arrives 9 1 Msg.memory0 (e_pipes sample_world) (boxes [(1%nat, 5, []); (2%nat, 5, [])])
    {[ 0%nat := text [1; 97] ]} [0%nat] [([1; 97], 0)].
Proof.
  exists [text [1; 97]]. split; [vm_compute; reflexivity|]. split.
  { apply (Msg.inv_insert_none Msg.memory0 ∅ [0%nat]); try done; [apply Msg.inv_empty|].
    split; [apply NoDup_singleton|]. intros d' ->%list_elem_of_singleton. apply lookup_empty. }
  split; [|split; [|done]].
  - split; [apply NoDup_singleton|]. split; [by repeat constructor|]. split; by repeat constructor.
  - repeat constructor; unfold is_u8; simpl; lia.
Qed.

(** Pipe 1 connects and subscribes to "a", which waits for the owner. *)
Definition sample_one : xpub := Eval vm_compute in
  match xattach_pipe 9 1 false (xpub_new ZMQ_XPUB) sample_world with Done (_, x) => x | Crash => xpub_new ZMQ_XPUB end.

Lemma sample_told : told (W := Boxes.boxes) [] sample_one.
Proof.
  eapply (told_attach [] (xpub_new ZMQ_XPUB) sample_one 9 1 Msg.memory0 (e_pipes sample_world));
    [constructor| |done|apply sample_arrives| |].
  - apply (bool_decide_unpack _). vm_compute. exact I.
  - split; [|done]. intros E. discriminate E.
  - vm_compute. reflexivity.
Qed.

Lemma xpub_forwards_interest_witness :
  [97] ∈ interest (pending_data sample_one) /\
  exists x', xpipe_terminated 1 sample_one sample_world = Done (sample_world, x') /\
    forall t, 1%nat ∉ Mtrie.subs (subscriptions x') t.
Proof.
  destruct (xpub_forwards_interest [] sample_one sample_told) as (Hi & _ & _ & Hg & _). split.
  - apply (Hi [97]). vm_compute. done.
  - destruct (Hg 1%nat sample_world) as (x' & E & _ & Hn); [|by exists x'].
    apply (bool_decide_unpack _). vm_compute. exact I.
Defined.

Lemma sample_ok : ok sample_x.
Proof.
  destruct (xattach_tracks [] 9 1 Msg.memory0 (e_pipes sample_world) (boxes [(1%nat, 5, []); (2%nat, 5, [])])
    {[ 0%nat := text [1; 97] ]} [0%nat] [([1; 97], 0)] (xpub_new ZMQ_XPUB) tracks_new)
    as (m1 & x1 & E1 & _ & Ht1 & Ha1 & _); [set_solver|reflexivity|apply sample_arrives| |].
  { split; [|done]. intros E. discriminate E. }
  assert (E0 : Done (Env m1 (boxes [(1%nat, 5, []); (2%nat, 5, [])]), x1) = 
    xattach_pipe 9 1 false (xpub_new ZMQ_XPUB) sample_world) by done.
  destruct (xattach_tracks [] 9 2 m1 (boxes [(1%nat, 5, []); (2%nat, 5, [])]) (boxes [(1%nat, 5, []); (2%nat, 5, [])])
    ∅ [] [] x1 Ht1) as (m2 & x2 & E2 & _ & Ht2 & _).
  { rewrite Ha1. set_solver. }
  { replace (Array.size (Dist.pipes (dist x1)))
      with (match xattach_pipe 9 1 false (xpub_new ZMQ_XPUB) sample_world with
            | Done (_, x) => Array.size (Dist.pipes (dist x)) | Crash => 0 end) by (by rewrite <- E0).
    by vm_compute. }
  { exists []. split; [done|]. split; [|split; [|done]]; [|split; [constructor|by repeat constructor]].
    replace m1 with (match xattach_pipe 9 1 false (xpub_new ZMQ_XPUB) sample_world with
                     | Done (e, _) => e_mem e | Crash => Msg.memory0 end) by (by rewrite <- E0).
    exact Msg.inv_empty. }
  { done. }
  assert (Es : sample = Done (Env m2 (boxes [(1%nat, 5, []); (2%nat, 5, [])]), x2)).
  { change sample with (let* (e1, x) := xattach_pipe 9 1 false (xpub_new ZMQ_XPUB) sample_world in
                        let* (e2, x) := xattach_pipe 9 2 false x e1 in Done (e2, x)).
    rewrite <- E0. cbn [obind]. rewrite E2. reflexivity. }
  unfold sample_x. rewrite Es. apply Ht2.
Qed.

Lemma xpub_delivers_witness :
  ok sample_x /\
  exists ps, NoDup ps /\ (forall q, q ∈ ps <-> targets sample_x [97; 98] q) /\
    match Dist.spec_send (text [97; 98]) ps sample_e with
    | Done (e', (m', failed)) =>
        exists x', xsend (text [97; 98]) sample_x sample_e = Done (e', (None, m', x')) /\ ok x' /\ more x' = false /\
          attached x' = attached sample_x /\ subscriptions x' = subscriptions sample_x /\
          forall q, q ∈ Dist.s_match (Dist.abs (dist x')) <-> false = true /\ q ∈ ps /\ q ∉ failed
    | Crash => xsend (text [97; 98]) sample_x sample_e = Crash
    end.
Proof.
  split; [apply sample_ok|]. exact (xpub_delivers (text [97; 98]) sample_x [97; 98] sample_e sample_ok eq_refl).
Defined.

(** The message "ab" goes to pipe 1 alone. *)
Example sample_delivery :
  match xsend (text [97; 98]) sample_x sample_e with
  | Done (e, (r, _, x)) => r = None /\ more x = false /\
      map (fun p => Boxes.written (Boxes.box_of p (e_pipes e))) [1; 2]%nat = [[text [97; 98]]; []]
  | Crash => False
  end.
Proof. vm_compute. done. Qed.

End Xpub.
