(* ===== verification/Xsub.v ===== *)
(** * Xsub: xsub_t and sub_t, the subscribing sockets (libzmq/src/xsub.cpp, sub.cpp)

    A XSUB socket reads its pipes with a [Fq], counts its subscriptions in a [Trie] and
    sends them to its pipes with a [Dist].  A SUB socket is a XSUB socket that drops
    the messages nobody subscribed to and whose subscriptions are options. *)

From S2P Require Import Prelude Radix Trie Msg Pipes Array Dist Fq.

Module Xsub.

Definition ZMQ_SUBSCRIBE : Z := 6.
Definition ZMQ_UNSUBSCRIBE : Z := 7.

(** [filter] and [invert_matching] are [options]. *)
Record xsub : Type := Xsub {
  fq : Fq.fq;
  dist : Dist.dist;
  subscriptions : Trie.trie_t;
  has_message : bool;
  message : Msg.msg;
  more : bool;
  filter : bool;
  invert_matching : bool
}.

(** The constructors of xsub_t and of sub_t, which filters. *)
Definition xsub_new (filter_ : bool) : xsub :=
  Xsub Fq.fq_new Dist.dist_new Trie.trie_new false Msg.init false filter_ false.

Definition set_fq (q : Fq.fq) (x : xsub) : xsub :=
  Xsub q (dist x) (subscriptions x) (has_message x) (message x) (more x) (filter x) (invert_matching x).
Definition set_dist (d : Dist.dist) (x : xsub) : xsub :=
  Xsub (fq x) d (subscriptions x) (has_message x) (message x) (more x) (filter x) (invert_matching x).
Definition set_subscriptions (t : Trie.trie_t) (x : xsub) : xsub :=
  Xsub (fq x) (dist x) t (has_message x) (message x) (more x) (filter x) (invert_matching x).
Definition set_message (b : bool) (m : Msg.msg) (x : xsub) : xsub :=
  Xsub (fq x) (dist x) (subscriptions x) b m (more x) (filter x) (invert_matching x).
Definition set_more (b : bool) (x : xsub) : xsub :=
  Xsub (fq x) (dist x) (subscriptions x) (has_message x) (message x) b (filter x) (invert_matching x).

Section Env.
Context {W : Type} `{PipeOps W}.

(** *** The subscriptions go upstream *)

Definition send_subscription (data : list Z) (pipe : nat) : stm (env W) unit :=
  let! m := on_mem (msg_of (1 :: data)) in
  let! sent := on_pipes (pipe_write pipe m) in
  if negb sent then on_mem (Msg.close m) ;;; sret tt else sret tt.

(** [subscriptions.apply (send_subscription, pipe_)], then [flush]. *)
Definition send_subscriptions (pipe : nat) (x : xsub) : stm (env W) unit :=
  fun e =>
  let* r := Trie.apply (subscriptions x)
              (fun d s => let* e := s in omap_out fst (send_subscription d pipe e)) (Done e) in
  let* e := r in
  on_pipes (fun w => (pipe_flush pipe w, tt)) e.

Definition xattach_pipe (pipe : nat) (x : xsub) : stm (env W) xsub :=
  let! q := slift (Fq.attach pipe (fq x)) in
  let! d := slift (Dist.attach pipe (dist x)) in
  let x := set_dist d (set_fq q x) in
  send_subscriptions pipe x ;;; sret x.

Definition xhiccuped (pipe : nat) (x : xsub) : stm (env W) xsub :=
  send_subscriptions pipe x ;;; sret x.

Definition xread_activated (pipe : nat) (x : xsub) : outcome xsub :=
  let* q := Fq.activated pipe (fq x) in Done (set_fq q x).

Definition xwrite_activated (pipe : nat) (x : xsub) : outcome xsub :=
  let* d := Dist.activated pipe (dist x) in Done (set_dist d x).

Definition xpipe_terminated (pipe : nat) (x : xsub) : stm (env W) xsub :=
  let! q := Fq.pipe_terminated pipe (fq x) in
  let! d := slift (Dist.pipe_terminated pipe (dist x)) in
  sret (set_dist d (set_fq q x)).

(** [dist.send_to_all (msg_)] *)
Definition send_all (msg : Msg.msg) (x : xsub) : stm (env W) (Msg.msg * xsub) :=
  let! (m, d) := Dist.send_to_all msg (dist x) in sret (m, set_dist d x).

(** It always returns 0; the result is the caller's message and the socket. *)
Definition xsend (msg : Msg.msg) (x : xsub) : stm (env W) (Msg.msg * xsub) :=
  let! data := on_mem (Msg.data msg) in
  match data with
  | c :: topic =>
    if c =? 1 then
      let! t := slift (omap_out snd (Trie.add (subscriptions x) topic)) in
      send_all msg (set_subscriptions t x)
    else if c =? 0 then
      let! (last, t) := slift (Trie.rm (subscriptions x) topic) in
      let x := set_subscriptions t x in
      if last then send_all msg x
      else let! m := close_init msg in sret (m, x)
    else send_all msg x
  | [] => send_all msg x
  end.

Definition xhas_out (x : xsub) : bool := true.

(** *** Receiving *)

Definition match_ (msg : Msg.msg) (x : xsub) : stm (env W) bool :=
  let! data := on_mem (Msg.data msg) in
  let! matching := slift (Trie.check (subscriptions x) data) in
  sret (xorb matching (invert_matching x)).

(** "Pop any remaining parts of the message from the pipe"; one unit of fuel per part. *)
Fixpoint drop_parts (fuel : nat) (msg : Msg.msg) (q : Fq.fq) : stm (env W) (Msg.msg * Fq.fq) :=
  if msg_more msg then
    match fuel with
    | O => scrash
    | S fuel =>
      let! (rc, msg, q) := Fq.recv msg q in
      sassert (rc =? 0) ;;; drop_parts fuel msg q
    end
  else sret (msg, q).

(** The loop of [xrecv]; one unit of fuel per message. *)
Fixpoint recv_matching (fuel : nat) (msg : Msg.msg) (x : xsub)
  : stm (env W) (option errno * Msg.msg * xsub) :=
  match fuel with
  | O => scrash
  | S fuel =>
    let! (rc, msg, q) := Fq.recv msg (fq x) in
    let x := set_fq q x in
    if negb (rc =? 0) then sret (Some EAGAIN, msg, x)
    else
      let! ok := (if more x || negb (filter x) then sret true else match_ msg x) in
      if ok then sret (None, msg, set_more (msg_more msg) x)
      else
        let! (msg, q) := drop_parts fuel msg q in
        recv_matching fuel msg (set_fq q x)
  end.

Definition xrecv (fuel : nat) (msg : Msg.msg) (x : xsub) : stm (env W) (option errno * Msg.msg * xsub) :=
  if has_message x then
    let! (rc, msg, message) := on_mem (Msg.move msg (message x)) in
    sassert (rc =? 0) ;;;
    sret (None, msg, set_more (msg_more msg) (set_message false message x))
  else recv_matching fuel msg x.

(** The loop of [xhas_in], which keeps the message it finds. *)
Fixpoint has_in_loop (fuel : nat) (x : xsub) : stm (env W) (bool * xsub) :=
  match fuel with
  | O => scrash
  | S fuel =>
    let! (rc, msg, q) := Fq.recv (message x) (fq x) in
    let x := set_message (has_message x) msg (set_fq q x) in
    if negb (rc =? 0) then sret (false, x)
    else
      let! ok := (if negb (filter x) then sret true else match_ msg x) in
      if ok then sret (true, set_message true msg x)
      else
        let! (msg, q) := drop_parts fuel msg q in
        has_in_loop fuel (set_message (has_message x) msg (set_fq q x))
  end.

Definition xhas_in (fuel : nat) (x : xsub) : stm (env W) (bool * xsub) :=
  if more x then sret (true, x)
  else if has_message x then sret (true, x)
  else has_in_loop fuel x.

Definition get_credential (x : xsub) (w : W) : list Z := Fq.get_credential (fq x) w.

(** The destructor. *)
Definition xsub_delete (x : xsub) : stm (env W) unit :=
  let! (rc, _) := on_mem (Msg.close (message x)) in sassert (rc =? 0).

(** *** sub_t *)

Definition sub_setsockopt (option_ : Z) (optval : list Z) (x : xsub) : stm (env W) (option errno * xsub) :=
  if negb (option_ =? ZMQ_SUBSCRIBE) && negb (option_ =? ZMQ_UNSUBSCRIBE) then sret (Some EINVAL, x)
  else
    let! msg := on_mem (msg_of ((if option_ =? ZMQ_SUBSCRIBE then 1 else 0) :: optval)) in
    let! (msg, x) := xsend msg x in
    let! (rc, _) := on_mem (Msg.close msg) in
    sassert (rc =? 0) ;;; sret (None, x).

Definition sub_send (msg : Msg.msg) (x : xsub) : option errno * Msg.msg * xsub := (Some ENOTSUP, msg, x).

Definition sub_has_out (x : xsub) : bool := false.
End Env.

(** ** Filtering

    What the fair queue would deliver decides what the socket does: a message whose
    first part does not match is passed over with all its parts. *)

Section Filter.
Context {W : Type} `{PipeOps W}.

(** The fair queue reads pipes and leaves the memory alone. *)
Lemma recv_loop_mem k : forall q mem (w : W) e' r,
  Fq.recv_loop k q (Env mem w) = Done (e', r) ->
  e_mem e' = mem /\ forall mem2, Fq.recv_loop k q (Env mem2 w) = Done (Env mem2 (e_pipes e'), r).
Proof.
  induction k as [|k IH]; intros q mem w e' r E; cbn [Fq.recv_loop] in *.
  - unfold sret in *. destruct (0 <? Fq.active q); [done|]. by simplify_eq.
  - unfold sbind, slift, on_pipes, sret in *. destruct (0 <? Fq.active q); [|by simplify_eq].
    destruct (Array.get (Fq.pipes q) (Fq.current q)) as [p|]; [|done].
    cbn [obind e_pipes e_mem] in *. destruct (pipe_read p w) as [w1 [m|]]; cbn [obind] in *.
    + destruct (negb (msg_more m)); by simplify_eq.
    + unfold sassert in *. destruct (negb (Fq.more q)); [|done]. cbn [obind] in *.
      destruct (Fq.deactivate (Fq.current q) q) as [q1|]; [|done]. cbn [obind] in *. by apply IH in E.
Qed.

(** One call of [recv]. *)
Lemma recv_eq msg q mem (w : W) mem1 m1 :
  Msg.close msg mem = Done (mem1, (0, m1)) ->
  Fq.recv msg q (Env mem w) =
    let* (e', r) := Fq.recv_loop (Z.to_nat (Fq.active q)) q (Env mem1 w) in
    match r.1 with
    | Some (m, _) => Done (e', (0, m, r.2))
    | None => Done (e', (-1, Msg.init, r.2))
    end.
Proof.
  intros E. unfold Fq.recv, sbind at 1. rewrite Fq.recvpipe_eq. cbn [e_mem e_pipes]. rewrite E. cbn [obind fst Z.eqb].
  destruct (Fq.recv_loop _ q (Env mem1 w)) as [[e' [[[m p]|] q1]]|]; done.
Qed.

(** The first of the frames that a queue gives until it has none, with the pipe it comes from. *)
Lemma recv_many_next n q (w : W) l q' w' :
  Fq.recv_many n q (Env Msg.memory0 w) = Done (Env Msg.memory0 w', (l, q')) -> (length l < n)%nat -> Fq.good q ->
  exists k, n = S k /\ exists w1 q1, Fq.good q1 /\
    match l with
    | [] => q1 = q' /\ w1 = w' /\ Fq.more q = false /\
        forall mem, Fq.recv_loop (Z.to_nat (Fq.active q)) q (Env mem w) = Done (Env mem w', (None, q'))
    | (m, p) :: l => Fq.more q1 = msg_more m /\ (length l < k)%nat /\
        Fq.recv_many k q1 (Env Msg.memory0 w1) = Done (Env Msg.memory0 w', (l, q')) /\
        forall mem, Fq.recv_loop (Z.to_nat (Fq.active q)) q (Env mem w) = Done (Env mem w1, (Some (m, p), q1))
    end.
Proof.
  intros E Hn Hg. destruct n as [|k]; [lia|]. exists k. split; [done|].
  apply Fq.recv_many_step in E as (e1 & r & q1 & El & Hr).
  destruct (recv_loop_mem _ _ _ _ _ _ El) as [Em Ea]. destruct e1 as [mem1 w1]. simpl in Em. subst mem1.
  destruct (Fq.recv_loop_cases q _ _ r q1 Hg El) as (sk & HR & Ht).
  pose proof (Fq.received_good _ _ _ _ HR) as Hg1. exists w1, q1. split; [done|].
  destruct HR as [_ _ _ Hres _]. destruct r as [[m p]|].
  - destruct Hr as (l1 & -> & E1). simpl in Hn. split; [apply Hres|]. split; [lia|done].
  - destruct Hr as (-> & <- & [= ->]). split; [done|]. split; [done|]. split; [|done].
    destruct (Fq.more q); [|done]. destruct (Ht eq_refl) as (m & p & ? & _). done.
Qed.

(** [l] is all that waits in the pipes of the queue, in the order of the queue. *)
Definition waiting (n : nat) (q : Fq.fq) (w : W) (l : list Msg.msg) (q' : Fq.fq) (w' : W) : Prop :=
  exists l0, Fq.recv_many n q (Env Msg.memory0 w) = Done (Env Msg.memory0 w', (l0, q')) /\
    l = l0.*1 /\ (length l0 < n)%nat.

(** The next part. *)
Lemma waiting_next n q (w : W) l q' w' :
  waiting n q w l q' w' -> Fq.good q ->
  exists k, n = S k /\ exists w1 q1, Fq.good q1 /\
    match l with
    | [] => q1 = q' /\ w1 = w' /\ Fq.more q = false /\
        forall mem, Fq.recv_loop (Z.to_nat (Fq.active q)) q (Env mem w) = Done (Env mem w', (None, q'))
    | m :: l => exists p, Fq.more q1 = msg_more m /\ waiting k q1 w1 l q' w' /\
        forall mem, Fq.recv_loop (Z.to_nat (Fq.active q)) q (Env mem w) = Done (Env mem w1, (Some (m, p), q1))
    end.
Proof.
  intros (l0 & E & -> & Hn) Hg. destruct (recv_many_next n q w l0 q' w' E Hn Hg) as (k & -> & w1 & q1 & Hg1 & Hr).
  exists k. split; [done|]. exists w1, q1. split; [done|]. destruct l0 as [|[m p] l0]; [done|]. simpl.
  destruct Hr as (Hm & Hk & E1 & El). exists p. split; [done|]. split; [|done]. by exists l0.
Qed.

(** Where the first part that is let through is: [rest] while the parts of a refused message pass. *)
Fixpoint pick (keep : list Z -> bool) (rest : bool) (l : list (Msg.msg * list Z)) : option nat :=
  match l with
  | [] => None
  | (m, d) :: l =>
    if rest then S <$> pick keep (msg_more m) l
    else if keep d then Some 0%nat
    else S <$> pick keep (msg_more m) l
  end.

Lemma held_nonempty mem vs ks m ms ds :
  held mem vs ks (m :: ms) ds -> exists k ks1 d ds1, ks = k :: ks1 /\ ds = d :: ds1.
Proof.
  intros (_ & Hk & _ & Hd). inversion Hk; subst. inversion Hd; subst. by eexists _, _, _, _.
Qed.

(** The rest of a refused message: [j] parts are read and closed. *)
Lemma drop_parts_spec n : forall f q (w : W) l q' w' mem vs msg ks d ds,
  (n <= f)%nat -> waiting n q w l q' w' -> Fq.good q -> Fq.more q = msg_more msg ->
  Msg.inv mem vs -> held mem vs ks (msg :: l) (d :: ds) ->
  exists j m' q1 w1 mem1,
    drop_parts f msg q (Env mem w) = Done (Env mem1 w1, (m', q1)) /\
    waiting (n - j) q1 w1 (drop j l) q' w' /\ Fq.good q1 /\ Fq.more q1 = false /\
    Msg.inv mem1 (forget (take j ks) vs) /\
    held mem1 (forget (take j ks) vs) (drop j ks) (m' :: drop j l) (drop j (d :: ds)) /\
    forall keep, pick keep (msg_more msg) (zip l ds) = (Nat.add j) <$> pick keep false (drop j (zip l ds)).
Proof.
  induction n as [|n IH]; intros f q w l q' w' mem vs msg ks d ds Hf Hw Hg Hm Hi Hh.
  { destruct (waiting_next _ _ _ _ _ _ Hw Hg) as (k & ? & _). done. }
  destruct (msg_more msg) eqn:Em.
  - destruct (waiting_next _ _ _ _ _ _ Hw Hg) as (k & [= <-] & w1 & q1 & Hg1 & Hn).
    destruct l as [|m l]; [destruct Hn as (_ & _ & ? & _); congruence|].
    destruct Hn as (p & Hm1 & Hw1 & El). destruct (held_nonempty _ _ _ _ _ _ Hh) as (v & ks1 & ? & ? & -> & [= <- <-]).
    destruct (held_close mem vs v ks1 msg (m :: l) d ds Hi Hh) as (_ & _ & mem1 & Ec & Hi1 & Hh1).
    destruct (held_nonempty _ _ _ _ _ _ Hh1) as (v1 & ks2 & d1 & ds1 & -> & ->).
    destruct f as [|f]; [lia|].
    destruct (IH f q1 w1 l q' w' mem1 (delete v vs) m (v1 :: ks2) d1 ds1) as
      (j & m' & q2 & w2 & mem2 & E & R1 & R2 & R3 & R4 & R5 & R6); [lia|done..|].
    exists (S j), m', q2, w2, mem2. split_and!; try done.
    + cbn [drop_parts]. rewrite Em. unfold sbind at 1. rewrite (recv_eq _ _ _ _ _ _ Ec), El. exact E.
    + intros keep. cbn [zip_with pick drop]. rewrite R6. by destruct (pick keep false _).
  - exists 0%nat, msg, q, w, mem. rewrite Nat.sub_0_r. split_and!; try done.
    + destruct f; cbn [drop_parts]; by rewrite Em.
    + intros keep. cbn [drop]. by destruct (pick keep false _).
Qed.

Lemma forget_take j k ks vs :
  forget (take k (drop j ks)) (forget (take j ks) vs) = forget (take (j + k) ks) vs.
Proof. unfold forget. by rewrite <- fold_left_app, take_take_drop. Qed.

Lemma forget_drop j ks vs : forget (drop j ks) (forget (take j ks) vs) = forget ks vs.
Proof. unfold forget. by rewrite <- fold_left_app, take_drop. Qed.

(** The filter of the socket. *)
Definition keep (x : xsub) (d : list Z) : bool :=
  match Trie.check (subscriptions x) d with Done b => xorb b (invert_matching x) | Crash => false end.

Lemma match_keep msg x d (e : env W) :
  Trie.wf (subscriptions x) -> Msg.data msg (e_mem e) = Done (e_mem e, d) -> match_ msg x e = Done (e, keep x d).
Proof.
  intros Hw Hd. unfold match_, keep, sbind, on_mem, slift. rewrite Hd. cbn [obind].
  destruct (Trie.check_spec d (subscriptions x) Hw) as (b & -> & _). by destruct e.
Qed.

(** The index of the part that is returned, in what waits. *)
Definition choice (x : xsub) (l : list (Msg.msg * list Z)) : option nat :=
  if more x || negb (filter x) then match l with [] => None | _ => Some 0%nat end
  else pick (keep x) false l.

Definition recv_result (x : xsub) (n : nat) (l : list Msg.msg) (q' : Fq.fq) (w' : W) (vs : gmap nat Msg.msg) (ks : list nat)
    (ds : list (list Z)) (r : outcome (env W * (option errno * Msg.msg * xsub))) : Prop :=
  match choice x (zip l ds) with
  | Some k => exists m mem1 w1 q1, l !! k = Some m /\
      r = Done (Env mem1 w1, (None, m, set_more (msg_more m) (set_fq q1 x))) /\
      waiting (n - S k) q1 w1 (drop (S k) l) q' w' /\ Fq.good q1 /\ Fq.more q1 = msg_more m /\
      Msg.inv mem1 (forget (take (S k) ks) vs) /\
      held mem1 (forget (take (S k) ks) vs) (drop (S k) ks) (m :: drop (S k) l) (drop k ds)
  | None => exists mem1, r = Done (Env mem1 w', (Some EAGAIN, Msg.init, set_fq q' x)) /\ Msg.inv mem1 (forget ks vs)
  end.

Lemma choice_first x l : more x = false -> choice (set_more false x) l = choice x l.
Proof. unfold choice. simpl. by intros ->. Qed.

Lemma recv_matching_spec n : forall f (w : W) l q' w' mem vs msg ks d ds x,
  (n <= f)%nat -> waiting n (fq x) w l q' w' -> Fq.good (fq x) -> Fq.more (fq x) = more x ->
  Trie.wf (subscriptions x) -> Msg.inv mem vs -> held mem vs ks (msg :: l) (d :: ds) ->
  recv_result x n l q' w' vs ks ds (recv_matching f msg x (Env mem w)).
Proof.
  induction n as [n IH] using lt_wf_ind. intros f w l q' w' mem vs msg ks d ds x Hf Hw Hg Hm Ht Hi Hh.
  destruct (waiting_next _ _ _ _ _ _ Hw Hg) as (k & -> & w1 & q1 & Hg1 & Hn).
  destruct (held_nonempty _ _ _ _ _ _ Hh) as (v & ks1 & ? & ? & -> & [= <- <-]).
  destruct (held_close mem vs v ks1 msg l d ds Hi Hh) as (_ & _ & mem1 & Ec & Hi1 & Hh1).
  destruct f as [|f]; [lia|]. cbn [recv_matching]. unfold sbind at 1. rewrite (recv_eq _ _ _ _ _ _ Ec).
  destruct l as [|m l].
  - destruct Hn as (-> & -> & Em & El). rewrite El. cbn [obind fst snd negb Z.eqb].
    assert (ks1 = []) as -> by (destruct Hh1 as (_ & Hk & _); by inversion Hk).
    unfold recv_result, choice. destruct (more x || negb (filter x)); by exists mem1.
  - destruct Hn as (p & Hm1 & Hw1 & El). rewrite El. cbn [obind fst snd negb Z.eqb].
    destruct (held_nonempty _ _ _ _ _ _ Hh1) as (v1 & ks2 & d1 & ds1 & -> & ->).
    assert (Hok : (if more x || negb (filter x) then sret true else match_ m (set_fq q1 x)) (Env mem1 w1)
                  = Done (Env mem1 w1, more x || negb (filter x) || keep x d1)).
    { destruct (more x || negb (filter x)); [done|].
      destruct (held_close mem1 _ v1 ks2 m l d1 ds1 Hi1 Hh1) as (Ed & _).
      by apply (match_keep m (set_fq q1 x)). }
    unfold sbind at 1. change (more (set_fq q1 x)) with (more x). change (filter (set_fq q1 x)) with (filter x).
    rewrite Hok. cbn [obind]. unfold recv_result, choice.
    destruct (more x || negb (filter x)) eqn:Eo; cbn [orb zip_with pick]; [|destruct (keep x d1) eqn:Ek].
    + exists m, mem1, w1, q1. split_and!; try done. by rewrite Nat.sub_succ, Nat.sub_0_r.
    + exists m, mem1, w1, q1. split_and!; try done. by rewrite Nat.sub_succ, Nat.sub_0_r.
    + apply orb_false_iff in Eo as [Emo Efi].
      destruct (drop_parts_spec k f q1 w1 l q' w' mem1 (delete v vs) m (v1 :: ks2) d1 ds1) as
        (j & m' & q2 & w2 & mem2 & E & R1 & R2 & R3 & R4 & R5 & R6); [lia|done..|].
      assert (Eb : (let! (msg, q) := drop_parts f m q1 in recv_matching f msg (set_fq q (set_fq q1 x)))
                     (Env mem1 w1) = recv_matching f m' (set_fq q2 x) (Env mem2 w2)).
      { unfold sbind. by rewrite E. }
      rewrite Eb, R6.
      destruct (held_nonempty _ _ _ _ _ _ R5) as (v2 & ks3 & d2 & ds3 & Ek2 & Ed2).
      assert (Ed3 : drop j ds1 = ds3).
      { pose proof (f_equal (drop 1) Ed2) as E1. rewrite drop_drop in E1.
        replace (j + 1)%nat with (S j) in E1 by lia. exact E1. }
      assert (Edz : drop j (zip l ds1) = zip (drop j l) ds3) by (by rewrite zip_with_drop, Ed3).
      rewrite Ek2, Ed2 in R5.
      pose proof (IH (k - j)%nat ltac:(lia) f w2 (drop j l) q' w' mem2 _ m' (v2 :: ks3) d2 ds3 (set_fq q2 x)
        ltac:(lia) R1 R2 ltac:(simpl; congruence) Ht R4 R5) as IHr.
      unfold recv_result, choice in IHr. cbn [more filter set_fq] in IHr. rewrite Emo, Efi in IHr. cbn [orb] in IHr.
      rewrite Edz. change (keep (set_fq q2 x)) with (keep x) in IHr.
      destruct (pick (keep x) false (zip (drop j l) ds3)) as [k0|]; cbn [fmap option_fmap option_map].
      * destruct IHr as (m0 & mem3 & w3 & q3 & I1 & I2 & I3 & I4 & I5 & I6 & I7).
        rewrite <- Ek2, forget_take in I6, I7. rewrite lookup_drop in I1. rewrite !drop_drop in I3, I7.
        rewrite <- Ed3 in I7. rewrite !drop_drop in I7. rewrite !Nat.add_succ_r in I3, I6, I7.
        exists m0, mem3, w3, q3. replace (S k - S (S (j + k0)))%nat with (k - j - S k0)%nat by lia.
        split; [exact I1|]. split; [exact I2|]. split; [exact I3|]. split; [done|]. split; [done|].
        split; [exact I6|exact I7].
      * destruct IHr as (mem3 & I1 & I2). exists mem3. split; [done|]. rewrite <- Ek2 in I2.
        by rewrite forget_drop in I2.
Qed.
End Filter.

(** ** Subscriptions *)

Section Subscriptions.
Context {W : Type} `{PipeOps W}.

(** A message made by [msg_of] can be closed. *)
Lemma msg_of_close d mem mem' m :
  msg_of d mem = Done (mem', m) -> fits d ->
  exists mem'', Msg.close m mem' = Done (mem'', (0, Msg.set_body Msg.Invalid m)).
Proof.
  intros E Hf. revert E. unfold msg_of, Msg.init_size. unfold fits, Msg.sizeof_content in *.
  destruct (Z.leb_spec (Z.of_nat (length d)) Msg.max_vsm_size).
  - unfold sbind, sret, sassert. simpl. unfold Msg.fill, sbind, sassert, sret. simpl.
    rewrite bool_decide_eq_true_2 by (rewrite length_replicate; lia). simpl.
    intros [= <- <-]. by eexists.
  - unfold Msg.sizeof_content. rewrite u64_small by lia.
    destruct (Z.ltb_spec (Z.of_nat (length d)) (40 + Z.of_nat (length d))); [|lia].
    cbn [andb]. unfold sbind at 1 2, Msg.malloc, sret, sassert. cbn [obind Z.eqb].
    unfold sbind. cbn [obind]. erewrite fill_lmsg; [|apply lookup_insert_eq|simpl; rewrite length_replicate; lia].
    intros [= <- <-]. unfold Msg.close, Msg.release, Msg.free_content, sbind. simpl.
    rewrite lookup_insert_eq. simpl. by eexists.
Qed.

(** One subscription written to a pipe. *)
Lemma send_subscription_spec d pipe mem (w : W) :
  fits (1 :: d) ->
  exists mem1 m mem2, msg_of (1 :: d) mem = Done (mem1, m) /\ Msg.contents mem1 m = Some (1 :: d) /\
    send_subscription d pipe (Env mem w) = Done (Env mem2 (pipe_write pipe m w).1, tt).
Proof.
  intros Hf. destruct (msg_of_spec (1 :: d) mem Hf) as (mem1 & m & E & Hc & _).
  destruct (msg_of_close _ _ _ _ E Hf) as (mem3 & Ec).
  unfold send_subscription, sbind, on_mem, on_pipes. cbn [e_mem e_pipes]. rewrite E. cbn [obind e_mem e_pipes].
  destruct (pipe_write pipe m w) as [w1 []] eqn:Ew; cbn [obind negb e_mem e_pipes].
  - exists mem1, m, mem1. by rewrite Ew.
  - rewrite Ec. exists mem1, m, mem3. by rewrite Ew.
Qed.

(** The subscriptions [l], in turn. *)
Fixpoint announce (l : list (list Z)) (pipe : nat) : stm (env W) unit :=
  match l with
  | [] => sret tt
  | d :: l => send_subscription d pipe ;;; announce l pipe
  end.

Lemma announce_done l pipe : forall mem (w : W), Forall (fun d => fits (1 :: d)) l ->
  exists e, announce l pipe (Env mem w) = Done (e, tt).
Proof.
  induction l as [|d l IH]; intros mem w Hf; [by eexists|]. apply Forall_cons in Hf as [Hd Hf].
  destruct (send_subscription_spec d pipe mem w Hd) as (mem1 & m & mem2 & _ & _ & E).
  cbn [announce]. unfold sbind. rewrite E. cbn [obind]. by apply IH.
Qed.

Lemma announce_fold l pipe : forall e : env W,
  fold_left (fun s p => let* e := s in omap_out fst (send_subscription p pipe e)) l (Done e) =
  omap_out fst (announce l pipe e).
Proof.
  induction l as [|d l IH]; intros e; [done|]. cbn [fold_left announce]. unfold sbind.
  cbn [obind]. destruct (send_subscription d pipe e) as [[e1 []]|] eqn:E; cbn; [apply IH|].
  clear. induction l as [|d l IH]; [done|]. exact IH.
Qed.

Lemma send_subscriptions_spec pipe x (e : env W) :
  Trie.wf (subscriptions x) ->
  exists l, StronglySorted lex_lt l /\ (forall t, t ∈ l <-> 0 < Trie.refs (subscriptions x) t) /\
    send_subscriptions pipe x e = (announce l pipe ;;; on_pipes (fun w => (pipe_flush pipe w, tt))) e.
Proof.
  intros Hw. destruct (Trie.apply_helper_spec _ Hw []) as (l & El & Hs & Hin). exists l.
  split; [done|]. split.
  { intros t. rewrite Hin. pose proof (Trie.refs_nonneg (subscriptions x) t Hw). lia. }
  unfold send_subscriptions, Trie.apply, sbind. rewrite El. cbn [obind]. rewrite map_id.
  rewrite announce_fold. destruct (announce l pipe e) as [[e1 []]|]; done.
Qed.

Lemma send_all_spec msg x (e : env W) :
  Dist.dist_ok (dist x) ->
  exists ps, NoDup ps /\ (forall q, q ∈ ps <-> q ∈ Dist.s_active (Dist.abs (dist x))) /\
    match Dist.spec_send msg ps e with
    | Done (e', (m', failed)) => exists d', send_all msg x e = Done (e', (m', set_dist d' x)) /\ Dist.dist_ok d' /\
        Dist.abs d' = Dist.s_sent (msg_more msg) (Dist.s_fails failed (Dist.s_everyone (Dist.abs (dist x))))
    | Crash => send_all msg x e = Crash
    end.
Proof.
  intros [Ha Ho Hm]. set (d := dist x) in *.
  destruct (Dist.send_to_matching_spec msg (Dist.Dist (Dist.pipes d) (Dist.active d) (Dist.active d) (Dist.eligible d) (Dist.more d)) e)
    as (ps & Hn & Hps & Hs); [split; simpl; [done|lia|done]|].
  exists ps. split; [done|]. split; [done|]. unfold send_all, Dist.send_to_all, sbind. fold d.
  destruct (Dist.spec_send msg ps e) as [[e' [m' failed]]|].
  - destruct Hs as (d' & -> & ? & ?). by exists d'.
  - by rewrite Hs.
Qed.

(** What a message does to the counts, and whether it goes upstream. *)
Definition recount (R : list Z -> Z) (d : list Z) (q : list Z) : Z :=
  match d with
  | c :: t => if decide (q = t) then if c =? 1 then R t + 1 else if c =? 0 then Z.max 0 (R t - 1) else R q
              else R q
  | [] => R q
  end.

Definition forwards (R : list Z -> Z) (d : list Z) : bool :=
  match d with c :: t => negb (c =? 0) || (R t =? 1) | [] => true end.

Lemma xsub_xsend_spec msg x d (e : env W) :
  Trie.wf (subscriptions x) -> Dist.dist_ok (dist x) -> Msg.data msg (e_mem e) = Done (e_mem e, d) -> bytes d ->
  (forall t, Trie.refs (subscriptions x) t < 2 ^ 32 - 1) ->
  exists t', Trie.wf t' /\ (forall q, Trie.refs t' q = recount (Trie.refs (subscriptions x)) d q) /\
    xsend msg x e = if forwards (Trie.refs (subscriptions x)) d then send_all msg (set_subscriptions t' x) e
                    else (let! m := close_init msg in sret (m, set_subscriptions t' x)) e.
Proof.
  intros Hw Hd Hdata Hb Hr. unfold xsend. unfold sbind at 1, on_mem at 1. rewrite Hdata. cbn [obind].
  assert (He : Env (e_mem e) (e_pipes e) = e) by (by destruct e). rewrite He.
  assert (Hsame : set_subscriptions (subscriptions x) x = x) by (by destruct x).
  unfold forwards, recount. destruct d as [|c t].
  { exists (subscriptions x). by rewrite Hsame. }
  apply Forall_cons in Hb as [_ Hb]. destruct (Z.eqb_spec c 1) as [->|H1]; [|destruct (Z.eqb_spec c 0) as [->|H0]].
  - destruct (Trie.trie_add_spec t (subscriptions x) Hw Hb (Hr t)) as (t' & E & Hw' & Hq).
    exists t'. split; [done|]. split; [done|]. unfold sbind, slift. by rewrite E.
  - destruct (Trie.trie_rm_spec t (subscriptions x) Hw) as (t' & E & Hw' & Hq).
    exists t'. split; [done|]. split; [done|]. unfold sbind at 1, slift at 1. rewrite E. cbn [obind].
    by destruct (Trie.refs (subscriptions x) t =? 1).
  - exists (subscriptions x). split; [done|]. split; [intros q; by case_decide|]. by rewrite Hsame.
Qed.
End Subscriptions.

(** The loop does not look at the message kept. *)
Lemma recv_matching_message {W} `{PipeOps W} f b m0 : forall msg x (e : env W),
  recv_matching f msg (set_message b m0 x) e =
    let* (e', r) := recv_matching f msg x e in Done (e', (r.1, set_message b m0 r.2)).
Proof.
  induction f as [|f IH]; intros msg x e; [done|]. cbn [recv_matching]. unfold sbind, sret.
  change (fq (set_message b m0 x)) with (fq x).
  destruct (Fq.recv msg (fq x) e) as [[e1 [[rc m] q]]|]; [|done]. cbn [obind].
  destruct (negb (rc =? 0)); [done|].
  change (match_ m (set_fq q (set_message b m0 x))) with (match_ (W := W) m (set_fq q x)).
  cbn [more filter set_fq set_message].
  match goal with |- obind ?c _ = _ => destruct c as [[e2 []]|]; [| |done]; cbn [obind] end; [done|].
  destruct (drop_parts f m q e2) as [[e3 [m' q']]|]; [|done]. cbn [obind].
  by rewrite <- IH.
Qed.

(** [xhas_in] does the loop of [xrecv] on the message of the socket. *)
Lemma has_in_loop_eq {W} `{PipeOps W} f : forall x (e : env W), more x = false ->
  has_in_loop f x e =
    let* (e', r) := recv_matching f (message x) x e in
    let '(err, m, x') := r in
    Done (e', match err with
              | None => (true, set_message true m (set_more false x'))
              | Some _ => (false, set_message (has_message x) m x')
              end).
Proof.
  induction f as [|f IH]; intros x e Hm; [done|]. cbn [has_in_loop recv_matching]. unfold sbind, sret.
  destruct (Fq.recv (message x) (fq x) e) as [[e1 [[rc m] q]]|]; [|done]. cbn [obind].
  destruct (negb (rc =? 0)); [done|].
  change (more (set_fq q x)) with (more x). rewrite Hm. cbn [orb].
  change (filter (set_message (has_message x) m (set_fq q x))) with (filter (set_fq q x)).
  change (match_ m (set_message (has_message x) m (set_fq q x))) with (match_ (W := W) m (set_fq q x)).
  match goal with |- obind ?c _ = _ => destruct c as [[e2 []]|]; [| |done]; cbn [obind] end.
  - by destruct x; simpl in Hm; subst.
  - destruct (drop_parts f m q e2) as [[e3 [m' q']]|]; [|done]. cbn [obind]. rewrite IH by done.
    change (message (set_message _ m' _)) with m'.
    change (set_fq q' (set_message (has_message x) m (set_fq q x)))
      with (set_message (has_message x) m (set_fq q' (set_fq q x))).
    rewrite !recv_matching_message.
    destruct (recv_matching f m' (set_fq q' (set_fq q x)) e3) as [[e4 [[[err|] m4] x4]]|]; done.
Qed.

(** What the loop changes of the socket. *)
Lemma recv_matching_frame {W} `{PipeOps W} f : forall msg x (e e' : env W) m x',
  recv_matching f msg x e = Done (e', (None, m, x')) -> exists q, x' = set_more (msg_more m) (set_fq q x).
Proof.
  induction f as [|f IH]; intros msg x e e' m x' E; [done|]. cbn [recv_matching] in E.
  apply sbind_inv in E as (e1 & [[rc m1] q] & _ & E). destruct (negb (rc =? 0)); [done|].
  apply sbind_inv in E as (e2 & b & _ & E). destruct b.
  - unfold sret in E. simplify_eq. by exists q.
  - apply sbind_inv in E as (e3 & [m2 q2] & _ & E). apply IH in E as [q3 ->]. by exists q3.
Qed.

(** ** The fair queue and the socket between two calls

    Both know which message is being read: the one in the middle of which the socket is, or the
    one whose first part it keeps. *)
Record steady (x : xsub) : Prop := {
  st_good : Fq.good (fq x);
  st_more : Fq.more (fq x) = (if has_message x then msg_more (message x) else more x);
  st_kept : has_message x = true -> more x = false;
  st_pipes : Fq.members (fq x) = Dist.s_all (Dist.abs (dist x));
  st_dist : Dist.dist_ok (dist x)
}.

Lemma steady_new b : steady (xsub_new b).
Proof. split; [split; [apply Fq.fq_new_ok|done]|done|done|done|apply Dist.dist_new_ok]. Qed.

(** The same pipes, so as many. *)
Lemma steady_size x : steady x -> Array.size (Fq.pipes (fq x)) = Array.size (Dist.pipes (dist x)).
Proof.
  intros [[[Ha _ _] _] _ _ Hp Hd]. pose proof (Dist.d_array _ Hd) as Hb. unfold Array.size. f_equal.
  apply Permutation_length, NoDup_Permutation; [by apply Array.ok_nodup..|]. intros p.
  rewrite <- (Array.elem_all _ _ Ha), <- (Array.elem_all _ _ Hb). unfold Fq.members in Hp. rewrite Hp. done.
Qed.

Section Steady.
Context {W : Type} `{PipeOps W}.

Lemma recv_steady msg q (e e' : env W) rc m q' :
  Fq.good q -> Fq.recv msg q e = Done (e', (rc, m, q')) ->
  Fq.good q' /\ Fq.members q' = Fq.members q /\
  (if rc =? 0 then Fq.more q' = msg_more m else Fq.more q' = false /\ Fq.more q = false).
Proof.
  intros Hg E. unfold Fq.recv in E. apply sbind_inv in E as (e1 & [[[rc1 m1] p1] q1] & E & [= _ <- <- <-]).
  rewrite Fq.recvpipe_eq in E. destruct (Msg.close msg (e_mem e)) as [[mem r]|]; [|done]. cbn [obind] in E.
  destruct (r.1 =? 0); [|done].
  destruct (Fq.recv_loop _ q _) as [[e2 [r2 q2]]|] eqn:El; [|done]. cbn [obind fst snd] in E.
  destruct (Fq.recv_loop_cases q _ _ r2 q2 Hg El) as (sk & HR & Hm).
  pose proof (Fq.received_good _ _ _ _ HR) as Hg2. destruct HR as [_ _ Hmem Hr _].
  destruct r2 as [[m2 p2]|]; injection E as <- <- <- <- <-; cbn [Z.eqb]; [by split_and!; try apply Hr|].
  split_and!; [done|done|apply Hr|]. destruct (Fq.more q); [|done]. by destruct (Hm eq_refl) as (? & ? & ? & _).
Qed.

Lemma drop_parts_steady f : forall msg q (e e' : env W) m q',
  Fq.good q -> Fq.more q = msg_more msg -> drop_parts f msg q e = Done (e', (m, q')) ->
  Fq.good q' /\ Fq.members q' = Fq.members q /\ Fq.more q' = false.
Proof.
  induction f as [|f IH]; intros msg q e e' m q' Hg Hm E; cbn [drop_parts] in E; destruct (msg_more msg) eqn:Em;
    [done|by injection E as _ _ <-| |by injection E as _ _ <-].
  apply sbind_inv in E as (e1 & [[rc m1] q1] & E1 & E). apply sbind_inv in E as (e2 & [] & Ea & E).
  destruct (recv_steady _ _ _ _ _ _ _ Hg E1) as (Hg1 & Hp1 & Hr). unfold sassert in Ea.
  destruct (rc =? 0); [|done]. destruct (IH _ _ _ _ _ _ Hg1 Hr E) as (? & ? & ?). by split_and!; try congruence.
Qed.

(** What [xrecv] and [xhas_in] find. *)
Lemma recv_matching_steady f : forall msg x (e e' : env W) rc m x',
  Fq.good (fq x) -> Fq.more (fq x) = more x -> recv_matching f msg x e = Done (e', (rc, m, x')) ->
  Fq.good (fq x') /\ Fq.members (fq x') = Fq.members (fq x) /\ Fq.more (fq x') = more x' /\ dist x' = dist x /\
  has_message x' = has_message x /\
  match rc with None => more x' = msg_more m | Some _ => more x' = more x end.
Proof.
  induction f as [|f IH]; intros msg x e e' rc m x' Hg Hm E; [done|]. cbn [recv_matching] in E.
  apply sbind_inv in E as (e1 & [[rc1 m1] q1] & E1 & E).
  destruct (recv_steady _ _ _ _ _ _ _ Hg E1) as (Hg1 & Hp1 & Hr).
  destruct (rc1 =? 0); cbn [negb] in E.
  - apply sbind_inv in E as (e2 & b & Eb & E). destruct b; [by injection E as _ <- <- <-|].
    destruct (more x) eqn:Ex; [cbn in Eb; by rewrite Ex in Eb|].
    apply sbind_inv in E as (e3 & [m2 q2] & E2 & E).
    destruct (drop_parts_steady _ _ _ _ _ _ _ Hg1 Hr E2) as (Hg2 & Hp2 & Hm2).
    destruct (IH _ (set_fq q2 (set_fq q1 x)) _ _ _ _ _ Hg2 ltac:(cbn; by rewrite Ex) E) as (H1 & H2 & H3 & H4 & H5 & H6).
    cbn in H2, H4, H5, H6. split_and!; try done; [congruence|]. destruct rc; [by rewrite <- Ex|done].
  - injection E as _ <- <- <-. cbn. destruct Hr as [-> Hr]. split_and!; try done. by rewrite <- Hm.
Qed.

Lemma xrecv_steady f msg x (e e' : env W) rc m x' :
  steady x -> xrecv f msg x e = Done (e', (rc, m, x')) -> steady x'.
Proof.
  intros [Hg Hm Hk Hp Hd] E. unfold xrecv in E. destruct (has_message x) eqn:Eh.
  - apply sbind_inv in E as (e1 & [[rc1 m1] m2] & E1 & E). apply sbind_inv in E as (e2 & [] & Ea & E).
    injection E as _ _ _ <-. split; cbn [fq dist has_message message more set_fq set_dist set_more set_message set_subscriptions]; try done. rewrite Hm.
    unfold on_mem, Msg.move in E1. destruct (Msg.check (message x)); cbn in E1; [|injection E1 as <- <- <- <-; discriminate Ea].
    unfold sbind in E1. destruct (Msg.close msg (e_mem e)) as [[mem [rc2 m3]]|]; [|done]. cbn in E1.
    destruct (Z.ltb_spec rc2 0); cbn in E1; injection E1 as <- <- <- <-; [|done].
    unfold sassert in Ea. destruct (Z.eqb_spec rc2 0); [lia|done].
  - destruct (recv_matching_steady f msg x e e' rc m x' Hg Hm E) as (H1 & H2 & H3 & H4 & H5 & _).
    split; [done|by rewrite H5, Eh|by rewrite H5, Eh|by rewrite H2, H4|by rewrite H4].
Qed.

Lemma xhas_in_steady f x (e e' : env W) b x' : steady x -> xhas_in f x e = Done (e', (b, x')) -> steady x'.
Proof.
  intros Hs E. pose proof Hs as [Hg Hm Hk Hp Hd]. unfold xhas_in in E. destruct (more x) eqn:Em; [by injection E as _ _ <-|].
  destruct (has_message x) eqn:Eh; [by injection E as _ _ <-|]. rewrite has_in_loop_eq in E by done.
  destruct (recv_matching f (message x) x e) as [[e1 [[rc m] x1]]|] eqn:E1; [|done]. cbn [obind] in E.
  destruct (recv_matching_steady f _ x e e1 rc m x1 Hg ltac:(by rewrite Em) E1) as (H1 & H2 & H3 & H4 & H5 & H6).
  destruct rc; injection E as _ _ <-.
  - split; cbn [fq dist has_message message more set_fq set_dist set_more set_message set_subscriptions]; [done|by rewrite Eh|by rewrite Eh|by rewrite H2, H4|by rewrite H4].
  - split; cbn [fq dist has_message message more set_fq set_dist set_more set_message set_subscriptions]; [done|by rewrite H3, H6|done|by rewrite H2, H4|by rewrite H4].
Qed.

Lemma xattach_steady p x (e e' : env W) x' :
  steady x -> p ∉ Array.items (Dist.pipes (dist x)) -> Array.size (Dist.pipes (dist x)) + 1 < 2 ^ 31 ->
  xattach_pipe p x e = Done (e', x') -> steady x'.
Proof.
  intros Hs Hp Hz E. pose proof Hs as [[Hg Hl] Hm Hk Hpi Hd].
  destruct (Dist.dist_attach_spec p (dist x) Hd Hp Hz) as (d & Ed & Hd' & Ea).
  destruct (Fq.fq_attach_spec p (fq x) Hg) as (q & Eq & Hg' & Hac & Hme & Hmo & _); [|by rewrite steady_size|].
  { rewrite Hpi. intros Hin. apply Hp. by apply (Array.elem_all _ _ (Dist.d_array _ Hd)). }
  unfold xattach_pipe in E. apply sbind_inv in E as (e1 & q1 & E1 & E). apply sbind_inv in E as (e2 & d1 & E2 & E).
  unfold slift in E1, E2. rewrite Eq in E1. rewrite Ed in E2. injection E1 as _ <-. injection E2 as _ <-.
  apply sbind_inv in E as (e3 & [] & _ & E). injection E as _ <-.
  split; cbn [fq dist has_message message more set_fq set_dist set_more set_message set_subscriptions]; [|by rewrite Hmo|done|by rewrite Hme, Hpi, Ea|done]. split; [done|]. intros Hb. rewrite Hmo in Hb. specialize (Hl Hb).
  assert (Hsub : Fq.actives (fq x) ⊆ Fq.actives q) by (rewrite Hac; set_solver).
  exact (Fq.active_mono _ _ Hg Hg' Hsub Hl).
Qed.

Lemma xread_activated_steady p x x' :
  steady x -> p ∈ Fq.members (fq x) -> p ∉ Fq.actives (fq x) -> xread_activated p x = Done x' -> steady x'.
Proof.
  intros [[Hg Hl] Hm Hk Hpi Hd] Hp Hn E.
  destruct (Fq.fq_activated_spec p (fq x) Hg Hp Hn) as (q & Eq & Hg' & Hac & Hme & Hmo & _).
  unfold xread_activated in E. rewrite Eq in E. injection E as <-.
  split; cbn [fq dist has_message message more set_fq set_dist set_more set_message set_subscriptions]; [|by rewrite Hmo|done|by rewrite Hme|done]. split; [done|]. intros Hb. rewrite Hmo in Hb. specialize (Hl Hb).
  assert (Hsub : Fq.actives (fq x) ⊆ Fq.actives q) by (rewrite Hac; set_solver).
  exact (Fq.active_mono _ _ Hg Hg' Hsub Hl).
Qed.

(** Between two messages a pipe may go. *)
Lemma xpipe_terminated_steady p x (e e' : env W) x' :
  steady x -> p ∈ Array.items (Dist.pipes (dist x)) -> Fq.more (fq x) = false ->
  xpipe_terminated p x e = Done (e', x') -> steady x'.
Proof.
  intros [[Hg Hl] Hm Hk Hpi Hd] Hp Hmo E.
  destruct (Dist.dist_pipe_terminated_spec p (dist x) Hd Hp) as (d & Ed & Hd' & Ea).
  destruct (Fq.fq_pipe_terminated_spec p (fq x) e Hg) as (q & Eq & Hg' & _ & Hme & Hm' & _).
  { rewrite Hpi. by apply (Array.elem_all _ _ (Dist.d_array _ Hd)). }
  unfold xpipe_terminated in E. unfold sbind at 1 in E. rewrite Eq in E. cbn [obind] in E.
  apply sbind_inv in E as (e2 & d1 & E2 & E). unfold slift in E2. rewrite Ed in E2. injection E2 as _ <-. injection E as _ <-.
  split; cbn [fq dist has_message message more set_fq set_dist set_more set_message set_subscriptions]; [split; [done|]|by rewrite Hm'|done|by rewrite Hme, Hpi, Ea|done]. rewrite Hm', Hmo. done.
Qed.

Lemma xwrite_activated_steady p x x' :
  steady x -> p ∈ Array.items (Dist.pipes (dist x)) -> Dist.eligible (dist x) <= Array.index (Dist.pipes (dist x)) p ->
  xwrite_activated p x = Done x' -> steady x'.
Proof.
  intros [Hg Hm Hk Hpi Hd] Hp Hi E. destruct (Dist.dist_activated_spec p (dist x) Hd Hp Hi) as (d & Ed & Hd' & Ea).
  unfold xwrite_activated in E. rewrite Ed in E. injection E as <-. split; cbn [fq dist has_message message more set_fq set_dist set_more set_message set_subscriptions]; try done. by rewrite Hpi, Ea.
Qed.

Lemma xsend_steady msg x (e e' : env W) r : steady x -> xsend msg x e = Done (e', r) -> steady r.2.
Proof.
  intros [Hg Hm Hk Hpi Hd] E.
  assert (Hall : forall (t : Trie.trie_t) (e1 e2 : env W) q, send_all msg (set_subscriptions t x) e1 = Done (e2, q) -> steady q.2).
  { intros t e1 e2 q Eq. destruct (send_all_spec msg (set_subscriptions t x) e1 Hd) as (ps & _ & _ & Hs).
    destruct (Dist.spec_send msg ps e1) as [[e3 [m3 failed]]|]; [|congruence].
    destruct Hs as (d' & E' & Hd' & Ea). rewrite E' in Eq. injection Eq as _ <-.
    cbn [snd]. split; cbn [fq dist has_message message more set_fq set_dist set_more set_message set_subscriptions]; try done. 
    rewrite Hpi, Ea. change (Dist.s_all (Dist.s_sent (msg_more msg) ?s)) with (Dist.s_all s). by rewrite Dist.fails_all. }
  assert (Hset : forall t : Trie.trie_t, steady (set_subscriptions t x)) by (intros t; by split).
  assert (Hx : send_all msg x = send_all (W := W) msg (set_subscriptions (subscriptions x) x)) by (by destruct x).
  unfold xsend in E. apply sbind_inv in E as (e1 & d & _ & E). destruct d as [|c t]; [rewrite Hx in E; by eapply Hall|].
  destruct (c =? 1); [apply sbind_inv in E as (e2 & t' & _ & E); by eapply Hall|].
  destruct (c =? 0); [|rewrite Hx in E; by eapply Hall].
  apply sbind_inv in E as (e2 & [last t'] & _ & E). destruct last; [by eapply Hall|].
  apply sbind_inv in E as (e3 & m & _ & E). by injection E as _ <-.
Qed.
End Steady.

(** ** Properties *)

(** C8: a XSUB socket returns the next message that matches its subscriptions and nothing else.
    Of the parts that wait in its pipes, in the order of the fair queue, a message whose
    first part has no subscribed prefix (or has one, when matching is inverted) is
    passed over with all its parts, each closed once; the first part that passes the filter is returned, as
    are the further parts of a message already begun and every part when the socket does not
    filter; if there is none the answer is [EAGAIN] with the pipes empty.  The loop
    ends: its fuel is one more than the parts that wait. *)
Theorem xsub_returns_matching {W} `{PipeOps W} n (w : W) l q' w' mem vs msg ks d ds x :
  waiting n (fq x) w l q' w' -> Fq.good (fq x) -> Fq.more (fq x) = more x -> has_message x = false ->
  Trie.wf (subscriptions x) -> Msg.inv mem vs -> held mem vs ks (msg :: l) (d :: ds) ->
  recv_result x n l q' w' vs ks ds (xrecv n msg x (Env mem w)) /\
  forall b, keep x b = true <->
    if invert_matching x then ~ (exists t, t `prefix_of` b /\ 0 < Trie.refs (subscriptions x) t)
    else exists t, t `prefix_of` b /\ 0 < Trie.refs (subscriptions x) t.
Proof.
  intros Hw Hg Hm Hh Ht Hi Hd. split.
  - unfold xrecv. rewrite Hh. by apply (recv_matching_spec n n w l q' w' mem vs msg ks d ds x).
  - intros b. unfold keep. destruct (Trie.check_spec b (subscriptions x) Ht) as ([] & -> & Hb);
      destruct (invert_matching x); simpl; (split; [try done|]); try tauto.
    intros _ Hx. apply Hb in Hx. done.
Qed.

(** Polling changes nothing: [xhas_in] followed by [xrecv] answers, and leaves the socket, the
    pipes and the memory, as [xrecv] alone; when there is no message [xhas_in] says so
    where [xrecv] would have answered [EAGAIN]. *)
Theorem xsub_poll_then_recv {W} `{PipeOps W} f g x (e : env W) :
  more x = false -> has_message x = false -> message x = Msg.init ->
  match xrecv f Msg.init x e with
  | Done (e', (None, m, x')) => Msg.check m = true ->
      exists x1, xhas_in f x e = Done (e', (true, x1)) /\ xrecv g Msg.init x1 e' = Done (e', (None, m, x'))
  | Done (e', (Some _, m, x')) => xhas_in f x e = Done (e', (false, set_message false m x'))
  | Crash => xhas_in f x e = Crash
  end.
Proof.
  intros Hm Hh Hi. unfold xrecv at 1, xhas_in. rewrite Hm, Hh, (has_in_loop_eq f x e Hm), Hi.
  destruct (recv_matching f Msg.init x e) as [[e' [[[err|] m] x']]|] eqn:E; cbn [obind]; [by rewrite Hh| |done].
  intros Hc. eexists. split; [reflexivity|]. unfold xrecv. cbn [has_message set_message message].
  unfold sbind, on_mem, Msg.move. rewrite Hc. cbn. destruct (recv_matching_frame f Msg.init x e e' m x' E) as [q ->].
  destruct e', x. simpl in *. by subst.
Qed.

(** C9: a XSUB socket counts its subscriptions and keeps its peers informed.  A message
    that starts with 1 adds one to the count of its prefix, one that starts with 0 takes one away
    (never below zero), any other leaves the counts; the message goes to every pipe with room,
    except a withdrawal that is not the last of its prefix, which is closed.  After a hiccup
    the pipe is sent every subscribed prefix, once, in order, and flushed. *)
Theorem xsub_counts_and_forwards {W} `{PipeOps W} msg x d pipe (e : env W) :
  Trie.wf (subscriptions x) -> Dist.dist_ok (dist x) ->
  (Msg.data msg (e_mem e) = Done (e_mem e, d) -> bytes d ->
   (forall t, Trie.refs (subscriptions x) t < 2 ^ 32 - 1) ->
   exists t', Trie.wf t' /\ (forall q, Trie.refs t' q = recount (Trie.refs (subscriptions x)) d q) /\
     if forwards (Trie.refs (subscriptions x)) d then
       exists ps, NoDup ps /\ (forall q, q ∈ ps <-> q ∈ Dist.s_active (Dist.abs (dist x))) /\
         match Dist.spec_send msg ps e with
         | Done (e', (m', failed)) => exists d', xsend msg x e = Done (e', (m', set_dist d' (set_subscriptions t' x))) /\
             Dist.dist_ok d' /\
             Dist.abs d' = Dist.s_sent (msg_more msg) (Dist.s_fails failed (Dist.s_everyone (Dist.abs (dist x))))
         | Crash => xsend msg x e = Crash
         end
     else xsend msg x e = (let! m := close_init msg in sret (m, set_subscriptions t' x)) e) /\
  exists l, StronglySorted lex_lt l /\ (forall t, t ∈ l <-> 0 < Trie.refs (subscriptions x) t) /\
    (Forall (fun t => fits (1 :: t)) l -> exists e1, announce l pipe e = Done (e1, tt) /\
      xhiccuped pipe x e = Done (Env (e_mem e1) (pipe_flush pipe (e_pipes e1)), x)).
Proof.
  intros Hw Hd. split.
  - intros Hdata Hb Hr. destruct (xsub_xsend_spec msg x d e Hw Hd Hdata Hb Hr) as (t' & Hw' & Hq & E).
    exists t'. split; [done|]. split; [done|]. rewrite E. destruct (forwards _ d); [|done].
    exact (send_all_spec msg (set_subscriptions t' x) e Hd).
  - destruct (send_subscriptions_spec pipe x e Hw) as (l & Hs & Hl & E). exists l. split; [done|]. split; [done|].
    intros Hf. destruct e as [mem w]. destruct (announce_done l pipe mem w Hf) as [e1 E1]. exists e1.
    split; [done|]. unfold xhiccuped, sbind. rewrite E. unfold sbind. by rewrite E1.
Qed.

(** A later part of a user message that starts with 1 is counted as a subscription, since [xsend]
    does not know that it is inside a message. *)
Theorem message_part_taken_for_subscription :
  match (let! (_, x) := xsend (Msg.set_flags Msg.more (Msg.set_body (Msg.Vsm [7]) Msg.init)) (xsub_new false) in
         xsend (Msg.set_body (Msg.Vsm [1; 97]) Msg.init) x) (Env Msg.memory0 (∅ : Boxes.boxes)) with
  | Done (_, (_, x)) => Trie.refs (subscriptions x) [97] = 1
  | Crash => False
  end.
Proof. vm_compute. done. Qed.

(** ** A subscriber of "a" whose pipe has "b" in two parts, then "ab" *)

Definition part (d : list Z) (b : bool) : Msg.msg :=
  (if b then Msg.set_flags Msg.more else id) (Msg.set_body (Msg.Vsm d) Msg.init).

Definition sample_world : Boxes.boxes :=
  {[ 1%nat := Boxes.Box 5 [] 0 [part [98] true; part [120] false; part [97; 98] false] ]}.

Definition sample_after : Boxes.boxes := {[ 1%nat := Boxes.Box 5 [] 0 [] ]}.

Definition sample_fq : Fq.fq := Eval vm_compute in match Fq.attach 1 Fq.fq_new with Done q => q | Crash => Fq.fq_new end.

Definition sample_end : Fq.fq :=
  Eval vm_compute in match Fq.recv_many 4 sample_fq (Env Msg.memory0 sample_world) with
                     | Done (_, (_, q)) => q | Crash => sample_fq end.

Definition sample_trie : Trie.trie_t :=
  match Trie.add Trie.trie_new [97] with Done (_, t) => t | Crash => Trie.trie_new end.

Definition sample_x : xsub := set_subscriptions sample_trie (set_fq sample_fq (xsub_new true)).

Definition sample_vars : gmap nat Msg.msg :=
  Msg.insert_all [0]%nat Msg.init (Msg.insert_all [1]%nat (part [98] true)
    (Msg.insert_all [2]%nat (part [120] false) (Msg.insert_all [3]%nat (part [97; 98] false) ∅))).

Lemma xsub_sample_inv : Msg.inv Msg.memory0 sample_vars.
Proof.
  assert (Hu : forall d (vs : gmap nat Msg.msg), vs !! d = None -> Msg.unused [d] vs).
  { intros d vs Hd. split; [apply NoDup_singleton|]. by intros d' ->%list_elem_of_singleton. }
  apply Msg.inv_insert_none; [|by apply Hu|done..].
  apply Msg.inv_insert_none; [|by apply Hu|done..].
  apply Msg.inv_insert_none; [|by apply Hu|done..].
  apply Msg.inv_insert_none; [apply Msg.inv_empty|by apply Hu|done..].
Qed.

Lemma xsub_sample_held :
  held Msg.memory0 sample_vars [0; 1; 2; 3]%nat
    [Msg.init; part [98] true; part [120] false; part [97; 98] false] [[]; [98]; [120]; [97; 98]].
Proof.
  split; [by apply (bool_decide_unpack _); vm_compute|]. split; [by repeat constructor|].
  split; by repeat constructor.
Qed.

Lemma xsub_sample_waiting :
  waiting 4 sample_fq sample_world [part [98] true; part [120] false; part [97; 98] false] sample_end sample_after.
Proof.
  exists [(part [98] true, 1%nat); (part [120] false, 1%nat); (part [97; 98] false, 1%nat)].
  split; [vm_compute; reflexivity|]. split; [done|]. simpl. lia.
Qed.

Lemma sample_trie_wf : Trie.wf sample_trie.
Proof.
  destruct (Trie.trie_add_spec [97] Trie.trie_new) as (t & E & Hw & _);
    [apply Trie.wf_trie_new|repeat constructor; lia|by rewrite Trie.refs_trie_new|].
  unfold sample_trie. by rewrite E.
Qed.

Lemma xsub_sample_good : Fq.good sample_fq.
Proof.
  destruct (Fq.fq_attach_spec 1 Fq.fq_new) as (q & E & Hq & _); [apply Fq.fq_new_ok|set_solver|done|].
  assert (sample_fq = q) as -> by (change sample_fq with (match Fq.attach 1 Fq.fq_new with Done q => q | Crash => Fq.fq_new end); by rewrite E).
  split; [done|]. by injection E as <-.
Qed.

Lemma xsub_returns_matching_witness :
  choice sample_x (zip [part [98] true; part [120] false; part [97; 98] false] [[98]; [120]; [97; 98]]) = Some 2%nat /\
  recv_result sample_x 4 [part [98] true; part [120] false; part [97; 98] false] sample_end sample_after
    sample_vars [0; 1; 2; 3]%nat [[98]; [120]; [97; 98]]
    (xrecv 4 Msg.init sample_x (Env Msg.memory0 sample_world)).
Proof.
  split; [vm_compute; reflexivity|].
  exact (proj1 (xsub_returns_matching 4 sample_world _ sample_end sample_after Msg.memory0 sample_vars Msg.init
                  [0; 1; 2; 3]%nat [] [[98]; [120]; [97; 98]] sample_x xsub_sample_waiting xsub_sample_good eq_refl eq_refl
                  sample_trie_wf xsub_sample_inv xsub_sample_held)).
Defined.

Lemma xsub_poll_then_recv_witness :
  match xrecv 4 Msg.init sample_x (Env Msg.memory0 sample_world) with
  | Done (e', (None, m, x')) => m = part [97; 98] false /\
      exists x1, xhas_in 4 sample_x (Env Msg.memory0 sample_world) = Done (e', (true, x1)) /\
        xrecv 1 Msg.init x1 e' = Done (e', (None, m, x'))
  | _ => False
  end.
Proof.
  pose proof (xsub_poll_then_recv 4 1 sample_x (Env Msg.memory0 sample_world) eq_refl eq_refl eq_refl) as Hx.
  destruct (xrecv 4 Msg.init sample_x (Env Msg.memory0 sample_world)) as [[e' [[[err|] m] x']]|] eqn:E.
  - exfalso. revert E. vm_compute. done.
  - assert (m = part [97; 98] false) as -> by (revert E; vm_compute; congruence).
    split; [done|]. by apply Hx.
  - exfalso. revert E. vm_compute. done.
Defined.

Lemma xsub_counts_and_forwards_witness :
  exists t', (forall q, Trie.refs t' q = recount (Trie.refs sample_trie) [0; 97] q) /\ Trie.refs t' [97] = 0.
Proof.
  destruct (proj1 (xsub_counts_and_forwards (part [0; 97] false) sample_x [0; 97] 1
              (Env Msg.memory0 sample_world) sample_trie_wf (Dist.dist_new_ok)))
    as (t' & _ & Hq & _); [reflexivity|repeat constructor; lia| |].
  - intros t. destruct (Trie.trie_add_spec [97] Trie.trie_new) as (t1 & E & _ & Hr);
      [apply Trie.wf_trie_new|repeat constructor; lia|by rewrite Trie.refs_trie_new|].
    change (subscriptions sample_x) with sample_trie. unfold sample_trie. rewrite E. rewrite Hr, !Trie.refs_trie_new. by case_decide.
  - exists t'. split; [done|]. rewrite Hq. vm_compute. reflexivity.
Defined.

End Xsub.
