(* ===== verification/Bus.v ===== *)
(** * Bus: the two sockets of the event bus joined by the proxy (EventBus.cpp, proxy.cpp)

    [EventBus] binds a XSUB socket, to which the publishers connect, and a XPUB socket, to
    which the subscribers connect.  The proxy moves the messages of the first to the
    second and the subscriptions of the second to the first.  The components are those of
    [Xsub] and [Xpub]; this file shows what holds of the two together. *)

From stdpp Require Import relations.
From S2P Require Import Prelude Radix Trie Mtrie Msg Pipes Array Dist Fq Xpub Xsub.

Module Bus.

(** [_xsub_socket], the frontend of the proxy, and [_xpub_socket], its backend. *)
Record bus : Type := MkBus { front : Xsub.xsub; back : Xpub.xpub }.

Definition bus_new : bus := MkBus (Xsub.xsub_new false) (Xpub.xpub_new Xpub.ZMQ_XPUB).

Section Env.
Context {W : Type} `{PipeOps W}.

(** The body of the loop of [forward], from the frontend to the backend and back.  Only
    sockets that are ready are read, so an empty one is an error here. *)
Definition forward_part (fuel : nat) (msg : Msg.msg) (b : bus) : stm (env W) (option errno * Msg.msg * bus) :=
  let! (rc, msg, f) := Xsub.xrecv fuel msg (front b) in
  match rc with
  | Some e => sret (Some e, msg, MkBus f (back b))
  | None => let! (rc, msg, x) := Xpub.xsend msg (back b) in sret (rc, msg, MkBus f x)
  end.

Definition forward_subscription (msg : Msg.msg) (b : bus) : stm (env W) (option errno * Msg.msg * bus) :=
  let! (rc, msg, x) := Xpub.xrecv msg (back b) in
  match rc with
  | Some e => sret (Some e, msg, MkBus (front b) x)
  | None => let! (msg, f) := Xsub.xsend msg (front b) in sret (None, msg, MkBus f x)
  end.

(** All that waits in the backend; one unit of fuel per subscription. *)
Fixpoint forward_subscriptions (fuel : nat) (msg : Msg.msg) (b : bus) : stm (env W) (option errno * Msg.msg * bus) :=
  match fuel with
  | O => sret (None, msg, b)
  | S fuel =>
    let! (rc, msg, b) := forward_subscription msg b in
    match rc with
    | Some e => sret (Some e, msg, b)
    | None => forward_subscriptions fuel msg b
    end
  end.
End Env.

(** ** The counts of the frontend follow what the backend announces *)

Definition counted (U : gset (list Z)) (t : list Z) : Z := if decide (t ∈ U) then 1 else 0.

(** What the frontend was given is in [log]; its counts are those of the prefixes wanted. *)
Record joined (log : list (list Z)) (b : bus) : Prop := {
  j_back : Xpub.tracks log (back b);
  j_terse : Xpub.verbose_subs (back b) = false;
  j_open : Xsub.filter (front b) = false;
  j_trie : Trie.wf (Xsub.subscriptions (front b));
  j_dist : Dist.dist_ok (Xsub.dist (front b));
  j_counts : forall t, Trie.refs (Xsub.subscriptions (front b)) t = counted (Xpub.interest log) t
}.

Lemma joined_new : joined [] bus_new.
Proof.
  split; [apply Xpub.tracks_new|done|done|apply Trie.wf_trie_new|apply Dist.dist_new_ok|].
  intros t. change (Trie.refs Trie.trie_new t = counted ∅ t). rewrite Trie.refs_trie_new. unfold counted.
  by rewrite decide_False by set_solver.
Qed.

(** A piece of news changes the set as it changes the counts, and always goes upstream. *)
Lemma recount_news U R d :
  (forall t, R t = counted U t) -> Xpub.exact U [d] ->
  (forall t, Xsub.recount R d t = counted (Xpub.note U d) t) /\ Xsub.forwards R d = true.
Proof.
  intros HR [Hd _]. destruct d as [|c t]; [done|]. destruct Hd as [H0 H1]. unfold Xsub.recount, Xpub.note, Xsub.forwards.
  destruct (Z.eqb_spec c 1) as [->|N1].
  - specialize (H1 eq_refl). split; [|done]. intros q. simpl. unfold counted. case_decide as Eq.
    + subst q. rewrite HR. unfold counted. rewrite decide_False by done. by rewrite decide_True by set_solver.
    + rewrite HR. unfold counted. repeat case_decide; set_solver.
  - destruct (Z.eqb_spec c 0) as [->|N0].
    + specialize (H0 eq_refl). assert (Et : R t = 1) by (rewrite HR; unfold counted; by rewrite decide_True).
      split; [|by rewrite Et]. intros q. unfold counted. case_decide as Eq.
      * subst q. rewrite Et. rewrite decide_False by set_solver. done.
      * rewrite HR. unfold counted. repeat case_decide; set_solver.
    + split; [|done]. intros q. rewrite <- HR. by case_decide as Eq; [subst|].
Qed.

Lemma next_is_news log x d l :
  Xpub.tracks log x -> Xpub.verbose_subs x = false -> Xpub.pending_data x = d :: l ->
  Xpub.exact (Xpub.interest log) [d].
Proof.
  intros Ht Hv Ed. pose proof (Xpub.t_quiet _ _ Ht Hv) as Hq. rewrite <- (Xpub.sh_data _ _ (Xpub.t_shows _ _ Ht)), Ed in Hq.
  apply Xpub.exact_app in Hq as [_ Hq]. destruct Hq as [Hd _]. by split.
Qed.

Lemma counted_bound U t : 0 <= counted U t <= 1.
Proof. unfold counted. case_decide; lia. Qed.

Definition publishers (b : bus) : nat := base.size (Dist.s_all (Dist.abs (Xsub.dist (front b)))).

Lemma active_bound d ps :
  Dist.dist_ok d -> NoDup ps -> (forall q, q ∈ ps <-> q ∈ Dist.s_active (Dist.abs d)) ->
  (length ps <= base.size (Dist.s_all (Dist.abs d)))%nat.
Proof.
  intros Hd Hn Hq. rewrite <- (size_list_to_set (C := gset nat) ps Hn). apply subseteq_size.
  intros q Hin. rewrite elem_of_list_to_set, Hq in Hin. cbn [Dist.abs Dist.s_active Dist.s_all] in *.
  apply Array.elem_seg in Hin as [Hin _]; [|apply Hd]. by apply Array.elem_all; [apply Hd|].
Qed.

Lemma targets_attached x d p :
  Xpub.ok x -> Xpub.targets x d p -> p ∈ Dist.s_all (Dist.abs (Xpub.dist x)).
Proof.
  intros Hx Hp. pose proof (Dist.d_array _ (Xpub.x_dist _ Hx)) as Ha. apply Array.elem_all; [done|].
  unfold Xpub.targets in Hp. destruct (Xpub.more x); [|destruct Hp as [Hp _]];
    cbn [Dist.abs Dist.s_match Dist.s_elig] in Hp; by apply Array.elem_seg in Hp as [Hp _].
Qed.

Section Spec.
Context {W : Type} `{PipeOps W}.

(** One subscription forwarded: it is written to every publisher with room. *)
Lemma forward_subscription_spec log b mem (w : W) d l :
  joined log b -> Xpub.pending_data (back b) = d :: l -> fits d -> bytes d ->
  exists mem1 m ps, Msg.contents mem1 m = Some d /\ NoDup ps /\
    (forall q, q ∈ ps <-> q ∈ Dist.s_active (Dist.abs (Xsub.dist (front b)))) /\
    (head (Xpub.pending_flags (back b)) = Some 0 -> forall vs v, Msg.inv mem vs -> vs !! v = None ->
      Z.of_nat (S (base.size vs)) < 2 ^ 32 -> Msg.inv mem1 (<[v := m]> vs)) /\
    match Dist.spec_send m ps (Env mem1 w) with
    | Done (e', (m', failed)) =>
        exists b', forward_subscription Msg.init b (Env mem w) = Done (e', (None, m', b')) /\
          joined (log ++ [d]) b' /\ Xpub.pending_data (back b') = l /\
          Xpub.pending_flags (back b') = tail (Xpub.pending_flags (back b)) /\
          Xpub.subscriptions (back b') = Xpub.subscriptions (back b) /\ publishers b' = publishers b
    | Crash => forward_subscription Msg.init b (Env mem w) = Crash
    end.
Proof.
  intros [Ht Hv Hx Hw Hd Hc] Ep Hf Hb. pose proof (Xpub.xrecv_tracks log (back b) mem w Ht) as Hr. rewrite Ep in Hr.
  destruct (Hr Hf) as (mem1 & m & x' & E & Hm & Ht' & _ & Hs' & Hv' & Hl' & Hda & Hfl' & Hi).
  destruct (recount_news _ _ d Hc (next_is_news _ _ _ _ Ht Hv Ep)) as [Hre Hfw].
  destruct (Xsub.xsub_xsend_spec m (front b) d (Env mem1 w) Hw Hd (contents_data _ _ _ Hda Hm) Hb) as (t' & Hw' & Hq & Es).
  { intros t. rewrite Hc. pose proof (counted_bound (Xpub.interest log) t). lia. }
  rewrite Hfw in Es.
  destruct (Xsub.send_all_spec m (Xsub.set_subscriptions t' (front b)) (Env mem1 w) Hd) as (ps & Hn & Hps & Hsend).
  exists mem1, m, ps. split; [done|]. split; [done|]. split; [done|]. split; [done|].
  assert (Ef : forward_subscription Msg.init b (Env mem w) =
    let* (e', (m', f)) := Xsub.send_all m (Xsub.set_subscriptions t' (front b)) (Env mem1 w) in
    Done (e', (None, m', MkBus f x'))).
  { unfold forward_subscription, sbind at 1. rewrite E. cbn [obind]. unfold sbind. rewrite Es.
    by destruct (Xsub.send_all _ _ _) as [[? []]|]. }
  rewrite Ef. destruct (Dist.spec_send m ps (Env mem1 w)) as [[e' [m' failed]]|]; [|by rewrite Hsend].
  destruct Hsend as (d' & -> & Hd' & Ed'). eexists. split; [reflexivity|].
  split; [|split; [done|split; [done|split; [done|]]]].
  - split; cbn [front back]; [done|by rewrite Hv'|done|done|done|]. intros t. unfold Xpub.interest. rewrite fold_left_app.
    cbn [fold_left]. rewrite <- Hre, <- Hq. done.
  - unfold publishers. cbn [front Xsub.set_dist Xsub.dist]. rewrite Ed'.
    change (Dist.s_all (Dist.s_sent (msg_more m) ?s)) with (Dist.s_all s). by rewrite Dist.fails_all.
Qed.

(** A subscription is never lost: the messages of the frontend are in memory that is in order. *)
Lemma forward_subscription_total log b mem (w : W) vs d l :
  joined log b -> Xpub.pending_data (back b) = d :: l -> fits d -> bytes d ->
  head (Xpub.pending_flags (back b)) = Some 0 -> Msg.inv mem vs ->
  Z.of_nat (S (publishers b) + base.size vs) < 2 ^ 32 ->
  exists e' b' vs', forward_subscription Msg.init b (Env mem w) = Done (e', (None, Msg.init, b')) /\
    joined (log ++ [d]) b' /\ Xpub.pending_data (back b') = l /\
    Xpub.pending_flags (back b') = tail (Xpub.pending_flags (back b)) /\
    Xpub.subscriptions (back b') = Xpub.subscriptions (back b) /\ publishers b' = publishers b /\
    Msg.inv (e_mem e') vs' /\ vs ⊆ vs' /\ (base.size vs' <= S (publishers b) + base.size vs)%nat.
Proof.
  intros Hj Ep Hf Hb Hfl Hi Hz.
  destruct (forward_subscription_spec log b mem w d l Hj Ep Hf Hb) as (mem1 & m & ps & _ & Hn & Hps & Hi1 & Hs).
  pose proof (active_bound _ ps (j_dist _ _ Hj) Hn Hps) as Hlen. fold (publishers b) in Hlen.
  set (v := fresh (dom vs)). assert (Hv : vs !! v = None) by (apply not_elem_of_dom, is_fresh).
  pose proof (Hi1 Hfl vs v Hi Hv ltac:(lia)) as Hi2.
  assert (Hsz : base.size (<[v := m]> vs) = S (base.size vs)) by (by rewrite map_size_insert_None).
  destruct (Dist.spec_send_total m ps mem1 w (<[v := m]> vs) v Hi2) as (mem2 & w2 & failed & vs' & E & Hi' & Hsub & Hle);
    [by rewrite lookup_insert_eq|lia|].
  rewrite E in Hs. destruct Hs as (b' & Ef & Hj' & ? & ? & ? & ?). exists (Env mem2 w2), b', vs'.
  rewrite delete_insert_id in Hsub by done. split_and!; try done. lia.
Qed.

(** *** The other handlers of the frontend leave its counts alone *)

Definition same_up (f f' : Xsub.xsub) : Prop :=
  Xsub.subscriptions f' = Xsub.subscriptions f /\ Xsub.dist f' = Xsub.dist f /\ Xsub.filter f' = Xsub.filter f.

Lemma recv_matching_same n : forall msg x (e e' : env W) r,
  Xsub.recv_matching n msg x e = Done (e', r) -> same_up x r.2.
Proof.
  induction n as [|n IH]; intros msg x e e' r E; [done|]. cbn [Xsub.recv_matching] in E.
  apply sbind_inv in E as (e1 & [[rc m1] q] & _ & E). destruct (negb (rc =? 0)); [by injection E as _ <-|].
  apply sbind_inv in E as (e2 & ok & _ & E). destruct ok; [by injection E as _ <-|].
  apply sbind_inv in E as (e3 & [m2 q2] & _ & E). exact (IH _ _ _ _ _ E).
Qed.

Lemma xrecv_same n msg x (e e' : env W) r : Xsub.xrecv n msg x e = Done (e', r) -> same_up x r.2.
Proof.
  unfold Xsub.xrecv. destruct (Xsub.has_message x); [|apply recv_matching_same]. intros E.
  apply sbind_inv in E as (e1 & [[rc m1] m2] & _ & E). apply sbind_inv in E as (e2 & [] & _ & E).
  by injection E as _ <-.
Qed.

Lemma xhas_in_same n x (e e' : env W) r : Xsub.xhas_in n x e = Done (e', r) -> same_up x r.2.
Proof.
  unfold Xsub.xhas_in. destruct (Xsub.more x) eqn:Em; [by intros [= _ <-]|].
  destruct (Xsub.has_message x); [by intros [= _ <-]|]. rewrite Xsub.has_in_loop_eq by done.
  destruct (Xsub.recv_matching n (Xsub.message x) x e) as [[e1 [[rc m] x1]]|] eqn:E; [|done]. cbn [obind].
  apply recv_matching_same in E as (E1 & E2 & E3). destruct rc; intros [= _ <-]; by split_and!.
Qed.

Lemma send_subscriptions_same p x (e e' : env W) r : Xsub.xhiccuped p x e = Done (e', r) -> same_up x r.
Proof. unfold Xsub.xhiccuped. intros E. apply sbind_inv in E as (e1 & [] & _ & E). by injection E as _ <-. Qed.

(** *** Steps

    What the thread of the bus does with its two sockets, and, by [step_others], whatever
    other threads do with the pipes meanwhile. *)
Inductive step : list (list Z) * env W * bus -> list (list Z) * env W * bus -> Prop :=
| step_others log e e' b : step (log, e, b) (log, e', b)
(* the commands of the subscribers *)
| step_read log n p mem w w' vs ks ms f x e' x' :
    p ∈ Xpub.attached x -> Xpub.arrives n p mem w w' vs ks ms -> Xpub.legit x p ms (Xpub.view_of x) ->
    Xpub.xread_activated n p x (Env mem w) = Done (e', x') ->
    step (log, Env mem w, MkBus f x) (log, e', MkBus f x')
| step_subscriber log n p mem w w' vs ks ms f x e' x' :
    p ∉ Xpub.attached x -> Array.size (Dist.pipes (Xpub.dist x)) + 1 < 2 ^ 31 ->
    Xpub.arrives n p mem w w' vs ks ms -> Xpub.legit x p ms (Xpub.view_of x) ->
    Xpub.xattach_pipe n p false x (Env mem w) = Done (e', x') ->
    step (log, Env mem w, MkBus f x) (log, e', MkBus f x')
| step_subscriber_gone log p f x e e' x' :
    p ∈ Xpub.attached x -> Xpub.xpipe_terminated p x e = Done (e', x') ->
    step (log, e, MkBus f x) (log, e', MkBus f x')
| step_subscriber_room log p f x e e' x' :
    p ∈ Array.items (Dist.pipes (Xpub.dist x)) -> Dist.eligible (Xpub.dist x) <= Array.index (Dist.pipes (Xpub.dist x)) p ->
    Xpub.xwrite_activated p x e = Done (e', x') ->
    step (log, e, MkBus f x) (log, e', MkBus f x')
(* the commands of the publishers *)
| step_publisher log p f x e e' f' :
    p ∉ Array.items (Dist.pipes (Xsub.dist f)) -> Array.size (Dist.pipes (Xsub.dist f)) + 1 < 2 ^ 31 ->
    Xsub.xattach_pipe p f e = Done (e', f') ->
    step (log, e, MkBus f x) (log, e', MkBus f' x)
| step_hiccup log p f x e e' f' :
    Xsub.xhiccuped p f e = Done (e', f') -> step (log, e, MkBus f x) (log, e', MkBus f' x)
| step_publisher_gone log p f x e e' f' :
    p ∈ Array.items (Dist.pipes (Xsub.dist f)) -> Xsub.xpipe_terminated p f e = Done (e', f') ->
    step (log, e, MkBus f x) (log, e', MkBus f' x)
| step_publisher_room log p f x e f' :
    p ∈ Array.items (Dist.pipes (Xsub.dist f)) -> Dist.eligible (Xsub.dist f) <= Array.index (Dist.pipes (Xsub.dist f)) p ->
    Xsub.xwrite_activated p f = Done f' ->
    step (log, e, MkBus f x) (log, e, MkBus f' x)
| step_publisher_read log p f x e f' :
    p ∈ Fq.members (Xsub.fq f) -> p ∉ Fq.actives (Xsub.fq f) -> Xsub.xread_activated p f = Done f' -> step (log, e, MkBus f x) (log, e, MkBus f' x)
(* the proxy *)
| step_poll log n f x e e' ready f' :
    Xsub.xhas_in n f e = Done (e', (ready, f')) -> step (log, e, MkBus f x) (log, e', MkBus f' x)
| step_part log n msg b e e1 m f d e' rc m' b' :
    Xsub.xrecv n msg (front b) e = Done (e1, (None, m, f)) -> Msg.data m (e_mem e1) = Done (e_mem e1, d) ->
    forward_part n msg b e = Done (e', (rc, m', b')) -> step (log, e, b) (log, e', b')
| step_nothing log n msg b e e' rc m' b' err f m :
    Xsub.xrecv n msg (front b) e = Done (e', (Some err, m, f)) ->
    forward_part n msg b e = Done (e', (rc, m', b')) -> step (log, e, b) (log, e', b')
| step_subscription log b e d l e' rc m' b' :
    Xpub.pending_data (back b) = d :: l -> fits d -> bytes d ->
    forward_subscription Msg.init b e = Done (e', (rc, m', b')) -> step (log, e, b) (log ++ [d], e', b').

Lemma joined_back log f x x' :
  joined log (MkBus f x) -> Xpub.tracks log x' -> Xpub.verbose_subs x' = Xpub.verbose_subs x ->
  joined log (MkBus f x').
Proof.
  intros [H1 H2 H3 H4 H5 H6] Ht Hv.
  split; cbn [front back] in *; [exact Ht|by rewrite Hv|exact H3|exact H4|exact H5|exact H6].
Qed.

Lemma joined_front log f f' x :
  joined log (MkBus f x) -> Xsub.subscriptions f' = Xsub.subscriptions f -> Dist.dist_ok (Xsub.dist f') ->
  Xsub.filter f' = Xsub.filter f -> joined log (MkBus f' x).
Proof.
  intros [H1 H2 H3 H4 H5 H6] Hs Hd Hf.
  split; cbn [front back] in *; [exact H1|exact H2|by rewrite Hf|by rewrite Hs|exact Hd|].
  intros t. rewrite Hs. apply H6.
Qed.

Lemma joined_same log f f' x : joined log (MkBus f x) -> same_up f f' -> joined log (MkBus f' x).
Proof. intros Hj (Hs & Hd & Hf). apply (joined_front log f); [done|done| |done]. rewrite Hd. apply Hj. Qed.

Lemma xsend_joined log f x msg d e e' (r : option errno * Msg.msg * Xpub.xpub) :
  joined log (MkBus f x) -> Msg.data msg (e_mem e) = Done (e_mem e, d) ->
  Xpub.xsend msg x e = Done (e', r) -> joined log (MkBus f r.2).
Proof.
  intros Hj Hd E. destruct (Xpub.xsend_tracks log x msg d e e' r (j_back _ _ Hj) Hd E) as [Ht Hv].
  by apply (joined_back log f x).
Qed.

Lemma xwrite_activated_joined log p f x (e e' : env W) x' :
  joined log (MkBus f x) -> p ∈ Array.items (Dist.pipes (Xpub.dist x)) ->
  Dist.eligible (Xpub.dist x) <= Array.index (Dist.pipes (Xpub.dist x)) p ->
  Xpub.xwrite_activated p x e = Done (e', x') -> joined log (MkBus f x').
Proof.
  intros Hj Hp Hi E. destruct (Xpub.xwrite_activated_tracks log p x e (j_back _ _ Hj) Hp Hi) as (x1 & E1 & Ht & Hv & _).
  rewrite (Xpub.done_inj _ _ _ _ _ E E1). by apply (joined_back log f x).
Qed.

Lemma xattach_joined log p f x (e e' : env W) f' :
  joined log (MkBus f x) -> p ∉ Array.items (Dist.pipes (Xsub.dist f)) ->
  Array.size (Dist.pipes (Xsub.dist f)) + 1 < 2 ^ 31 ->
  Xsub.xattach_pipe p f e = Done (e', f') -> joined log (MkBus f' x).
Proof.
  intros Hj Hp Hz E. destruct (Dist.dist_attach_spec p (Xsub.dist f) (j_dist _ _ Hj) Hp Hz) as (d & Ed & Hd' & _).
  unfold Xsub.xattach_pipe in E. apply sbind_inv in E as (e1 & q & _ & E). apply sbind_inv in E as (e2 & d1 & E1 & E).
  unfold slift in E1. rewrite Ed in E1. injection E1 as _ <-. apply sbind_inv in E as (e3 & [] & _ & E). injection E as _ <-.
  by apply (joined_front log f).
Qed.

Lemma xpipe_terminated_joined log p f x (e e' : env W) f' :
  joined log (MkBus f x) -> p ∈ Array.items (Dist.pipes (Xsub.dist f)) ->
  Xsub.xpipe_terminated p f e = Done (e', f') -> joined log (MkBus f' x).
Proof.
  intros Hj Hp E. destruct (Dist.dist_pipe_terminated_spec p (Xsub.dist f) (j_dist _ _ Hj) Hp) as (d & Ed & Hd' & _).
  unfold Xsub.xpipe_terminated in E. apply sbind_inv in E as (e1 & q & _ & E). apply sbind_inv in E as (e2 & d1 & E1 & E).
  unfold slift in E1. rewrite Ed in E1. injection E1 as _ <-. injection E as _ <-. by apply (joined_front log f).
Qed.

Lemma xwrite_front_joined log p f x f' :
  joined log (MkBus f x) -> p ∈ Array.items (Dist.pipes (Xsub.dist f)) ->
  Dist.eligible (Xsub.dist f) <= Array.index (Dist.pipes (Xsub.dist f)) p ->
  Xsub.xwrite_activated p f = Done f' -> joined log (MkBus f' x).
Proof.
  intros Hj Hp Hi E. destruct (Dist.dist_activated_spec p (Xsub.dist f) (j_dist _ _ Hj) Hp Hi) as (d & Ed & Hd' & _).
  unfold Xsub.xwrite_activated in E. rewrite Ed in E. injection E as <-. by apply (joined_front log f).
Qed.

Lemma step_joined log e b log' e' b' : joined log b -> step (log, e, b) (log', e', b') -> joined log' b'.
Proof.
  intros Hj Hs. inversion Hs; subst; [exact Hj|..].
  - pose proof (j_back _ _ Hj) as Ht.
    destruct (Xpub.xread_tracks log' n p mem w w' vs ks ms x Ht) as (m1 & x1 & E & _ & Ht' & Hmv); [done..|].
    assert (x' = x1) as -> by (by eapply Xpub.done_inj). apply (joined_back log' f x); [done|done|apply (Xpub.moved_same _ _ Hmv)].
  - pose proof (j_back _ _ Hj) as Ht.
    destruct (Xpub.xattach_tracks log' n p mem w w' vs ks ms x Ht) as (m1 & x1 & E & _ & Ht' & _ & Hv); [done..|].
    assert (x' = x1) as -> by (by eapply Xpub.done_inj). by apply (joined_back log' f x).
  - pose proof (j_back _ _ Hj) as Ht.
    destruct (Xpub.xpipe_terminated_tracks log' p x e Ht) as (x1 & E & Ht' & _ & _ & Hv); [done|].
    assert (x' = x1) as -> by (by eapply Xpub.done_inj). by apply (joined_back log' f x).
  - by eapply xwrite_activated_joined.
  - by eapply xattach_joined.
  - eapply joined_same; [done|]. by eapply send_subscriptions_same.
  - by eapply xpipe_terminated_joined.
  - by eapply xwrite_front_joined.
  - eapply joined_same; [done|]. match goal with E : Xsub.xread_activated _ _ = _ |- _ => revert E end.
    unfold Xsub.xread_activated. destruct (Fq.activated p (Xsub.fq f)); [|done]. by intros [= <-].
  - eapply joined_same; [done|]. match goal with E : Xsub.xhas_in _ _ _ = _ |- _ => exact (xhas_in_same _ _ _ _ _ E) end.
  - match goal with E1 : Xsub.xrecv _ _ _ _ = _, E2 : forward_part _ _ _ _ = _ |- _ =>
      pose proof (xrecv_same _ _ _ _ _ _ E1) as Hsame; unfold forward_part in E2; unfold sbind at 1 in E2;
      rewrite E1 in E2; cbn [obind] in E2; apply sbind_inv in E2 as (e2 & [[rc2 m2] x2] & E3 & E2) end.
    match goal with E2 : sret _ _ = _ |- _ => injection E2 as <- <- <- <- end.
    destruct b as [f0 x0]. cbn [front back snd] in *.
    eapply (xsend_joined log' f x0 m d e1 e2 (rc2, m2, x2)); [by eapply joined_same|done|done].
  - match goal with E1 : Xsub.xrecv _ _ _ _ = _, E2 : forward_part _ _ _ _ = _ |- _ =>
      pose proof (xrecv_same _ _ _ _ _ _ E1) as Hsame; unfold forward_part in E2; unfold sbind at 1 in E2;
      rewrite E1 in E2; cbn [obind] in E2; unfold sret in E2; injection E2 as <- <- <- end.
    destruct b as [f0 x0]. cbn [front back snd] in *. by eapply joined_same.
  - destruct e as [mem w]. destruct (forward_subscription_spec log b mem w d l Hj) as (m1 & m2 & ps & _ & _ & _ & _ & Hs2); [done..|].
    destruct (Dist.spec_send m2 ps _) as [[e2 [m3 failed]]|]; [|congruence].
    destruct Hs2 as (b2 & E & Hj2 & _).
    assert (Er : (rc, m', b') = (None, m3, b2)) by (by eapply Xpub.done_inj). injection Er as _ _ ->. exact Hj2.
Qed.

Lemma forward_subscriptions_spec l : forall log b mem (w : W) vs,
  joined log b -> Xpub.pending_data (back b) = l -> Forall (fun d => fits d /\ bytes d) l ->
  Xpub.pending_flags (back b) = replicate (length l) 0 -> Msg.inv mem vs ->
  Z.of_nat (length l * S (publishers b) + base.size vs) < 2 ^ 32 ->
  exists e' b' vs', forward_subscriptions (S (length l)) Msg.init b (Env mem w) = Done (e', (Some EAGAIN, Msg.init, b')) /\
    joined (log ++ l) b' /\ Xpub.pending_data (back b') = [] /\
    Xpub.subscriptions (back b') = Xpub.subscriptions (back b) /\ Msg.inv (e_mem e') vs' /\ vs ⊆ vs'.
Proof.
  induction l as [|d l IH]; intros log b mem w vs Hj Ep Hf Hfl Hi Hz.
  - exists (Env mem w), b, vs. rewrite app_nil_r. split; [|done]. cbn [length forward_subscriptions].
    pose proof (Xpub.xrecv_tracks log (back b) mem w (j_back _ _ Hj)) as Hr. rewrite Ep in Hr.
    unfold forward_subscription, sbind. rewrite Hr. cbn. by destruct b.
  - apply Forall_cons in Hf as [[Hd Hb] Hf]. cbn [length] in Hz, Hfl.
    destruct (forward_subscription_total log b mem w vs d l Hj Ep Hd Hb) as
      (e1 & b1 & vs1 & E & Hj1 & Ep1 & Hfl1 & Hs1 & Hn1 & Hi1 & Hsub & Hsz); [by rewrite Hfl|done|lia|].
    destruct e1 as [mem1 w1]. cbn [e_mem] in Hi1.
    destruct (IH (log ++ [d]) b1 mem1 w1 vs1 Hj1 Ep1 Hf) as (e' & b' & vs' & E' & Hj' & ? & Hs' & ? & ?);
      [by rewrite Hfl1, Hfl|done|rewrite Hn1; lia|].
    exists e', b', vs'. rewrite <- app_assoc in Hj'. split.
    + cbn [length]. cbn [forward_subscriptions]. unfold sbind at 1. rewrite E. cbn [obind]. exact E'.
    + split; [done|]. split; [done|]. split; [by rewrite Hs', Hs1|]. split; [done|by etrans].
Qed.


(** A run of the bus from its creation. *)
Definition reachable (log : list (list Z)) (b : bus) : Prop :=
  exists e0 e, rtc step ([], e0, bus_new) (log, e, b).

Lemma reachable_joined log b : reachable log b -> joined log b.
Proof.
  intros (e0 & e & Hr). revert Hr. generalize joined_new. generalize ([] : list (list Z)) bus_new. intros log0 b0 Hj Hr.
  remember (log0, e0, b0) as s0 eqn:E0. remember (log, e, b) as s1 eqn:E1. revert log0 e0 b0 E0 Hj.
  induction Hr as [s|s0 s1' s2 Hs Hr IH]; intros log0 e0 b0 -> Hj; [by simplify_eq|].
  destruct s1' as [[log1 e1] b1]. apply (IH E1 log1 e1 b1); [done|]. by eapply step_joined.
Qed.

Lemma agree log b :
  joined log b ->
  (forall t, 0 <= Trie.refs (Xsub.subscriptions (front b)) t <= 1) /\
  (forall t, t ∈ Xpub.interest (log ++ Xpub.pending_data (back b)) <-> Mtrie.subs (Xpub.subscriptions (back b)) t <> []) /\
  (Xpub.pending_data (back b) = [] ->
   forall t, Trie.refs (Xsub.subscriptions (front b)) t = 1 <-> Mtrie.subs (Xpub.subscriptions (back b)) t <> []).
Proof.
  intros Hj. pose proof (j_back _ _ Hj) as Ht.
  assert (Hi : forall t, t ∈ Xpub.interest (log ++ Xpub.pending_data (back b)) <-> Mtrie.subs (Xpub.subscriptions (back b)) t <> []).
  { intros t. pose proof (Xpub.t_informed _ _ Ht t) as Hi. by rewrite <- (Xpub.sh_data _ _ (Xpub.t_shows _ _ Ht)) in Hi. }
  split; [|split; [done|]].
  - intros t. rewrite (j_counts _ _ Hj). apply counted_bound.
  - intros Ep t. rewrite <- Hi, Ep, app_nil_r, (j_counts _ _ Hj). unfold counted. case_decide; split; done.
Qed.

(** *** Runs in which no publisher goes in the middle of its message

    [Fq.fq_termination_breaks_message] shows what happens otherwise. *)
Definition orderly (s s' : list (list Z) * env W * bus) : Prop :=
  step s s' /\ ((publishers s'.2 < publishers s.2)%nat -> Fq.more (Xsub.fq (front s.2)) = false).

Definition calm (log : list (list Z)) (b : bus) : Prop := exists e0 e, rtc orderly ([], e0, bus_new) (log, e, b).

Lemma calm_reachable log b : calm log b -> reachable log b.
Proof.
  intros (e0 & e & Hr). exists e0, e. revert Hr. apply (rtc_congruence id). by intros s s' [Hs _].
Qed.

Lemma gone_fewer p f x x' (f' : Xsub.xsub) (e e' : env W) :
  Xsub.steady f -> p ∈ Array.items (Dist.pipes (Xsub.dist f)) -> Xsub.xpipe_terminated p f e = Done (e', f') ->
  (publishers (MkBus f' x') < publishers (MkBus f x))%nat.
Proof.
  intros Hs Hp E. pose proof (Xsub.st_dist _ Hs) as Hd.
  destruct (Dist.dist_pipe_terminated_spec p (Xsub.dist f) Hd Hp) as (d & Ed & _ & Ea).
  unfold Xsub.xpipe_terminated in E. apply sbind_inv in E as (e1 & q & _ & E). apply sbind_inv in E as (e2 & d1 & E1 & E).
  unfold slift in E1. rewrite Ed in E1. injection E1 as _ <-. injection E as _ <-.
  unfold publishers. cbn [front Xsub.set_dist Xsub.dist]. rewrite Ea. apply subset_size.
  apply (Array.elem_all _ _ (Dist.d_array _ Hd)) in Hp.
  change (Dist.s_all (Dist.s_remove p ?s)) with (Dist.s_all s ∖ {[p]}).
  change (Array.seg _ _) with (Dist.s_all (Dist.abs (Xsub.dist f))) in Hp. set_solver.
Qed.

Lemma step_steady log e b log' e' b' :
  Xsub.steady (front b) -> orderly (log, e, b) (log', e', b') -> Xsub.steady (front b').
Proof.
  intros Hs [Hst Hle]. cbn [snd] in Hle. inversion Hst; subst; cbn [front] in *; try exact Hs.
  - by eapply Xsub.xattach_steady.
  - match goal with E : Xsub.xhiccuped _ _ _ = _ |- _ =>
      unfold Xsub.xhiccuped in E; apply sbind_inv in E as (? & [] & _ & E); by injection E as _ <- end.
  - eapply Xsub.xpipe_terminated_steady; [done|done| |done]. apply Hle. by eapply gone_fewer.
  - by eapply Xsub.xwrite_activated_steady.
  - by eapply Xsub.xread_activated_steady.
  - by eapply Xsub.xhas_in_steady.
  - match goal with E1 : Xsub.xrecv _ _ _ _ = _, E2 : forward_part _ _ _ _ = _ |- _ =>
      pose proof (Xsub.xrecv_steady _ _ _ _ _ _ _ _ Hs E1); unfold forward_part in E2; unfold sbind at 1 in E2;
      rewrite E1 in E2; cbn [obind] in E2; apply sbind_inv in E2 as (? & [[? ?] ?] & _ & E2); by injection E2 as _ _ _ <- end.
  - match goal with E1 : Xsub.xrecv _ _ _ _ = _, E2 : forward_part _ _ _ _ = _ |- _ =>
      pose proof (Xsub.xrecv_steady _ _ _ _ _ _ _ _ Hs E1); unfold forward_part in E2; unfold sbind at 1 in E2;
      rewrite E1 in E2; cbn [obind] in E2; unfold sret in E2; by injection E2 as _ _ <- end.
  - match goal with E : forward_subscription _ _ _ = _ |- _ =>
      unfold forward_subscription in E; apply sbind_inv in E as (e1 & [[r1 m1] x1] & _ & E) end.
    destruct r1; [match goal with E : sret _ _ = _ |- _ => by injection E as _ _ _ <- end|].
    match goal with E : sbind _ _ _ = _ |- _ => apply sbind_inv in E as (e2 & [m2 f2] & E2 & E); injection E as _ _ _ <- end.
    exact (Xsub.xsend_steady _ _ _ _ _ Hs E2).
Qed.

Lemma calm_steady log b : calm log b -> Xsub.steady (front b).
Proof.
  intros (e0 & e & Hr). revert Hr. generalize (Xsub.steady_new false). change (Xsub.xsub_new false) with (front bus_new).
  generalize ([] : list (list Z)) bus_new. intros log0 b0 Hj Hr.
  remember (log0, e0, b0) as s0 eqn:E0. remember (log, e, b) as s1 eqn:E1. revert log0 e0 b0 E0 Hj.
  induction Hr as [s|s0 s1' s2 Hs Hr IH]; intros log0 e0 b0 -> Hj; [by simplify_eq|].
  destruct s1' as [[log1 e1] b1]. apply (IH E1 log1 e1 b1); [done|]. by eapply step_steady.
Qed.

(** What the frontend still has to give: the part it keeps since the proxy polled it, if it keeps one,
    and what waits in the pipes of the publishers, in the order of the fair queue. *)
Definition offers (n : nat) (b : bus) (w : W) (l : list Msg.msg) (q' : Fq.fq) (w' : W) : Prop :=
  if Xsub.has_message (front b)
  then exists l', l = Xsub.message (front b) :: l' /\ Xsub.waiting n (Xsub.fq (front b)) w l' q' w'
  else Xsub.waiting n (Xsub.fq (front b)) w l q' w'.

Lemma xrecv_next log n k b mem (w : W) msg m l q' w' vs v0 v ks d0 d ds :
  joined log b -> Xsub.steady (front b) -> (n <= k)%nat -> offers n b w (m :: l) q' w' ->
  Msg.inv mem vs -> held mem vs (v0 :: v :: ks) (msg :: m :: l) (d0 :: d :: ds) ->
  exists mem1 w1 f n1, Xsub.xrecv k msg (front b) (Env mem w) = Done (Env mem1 w1, (None, m, f)) /\
    same_up (front b) f /\ Xsub.has_message f = false /\ (n1 <= n)%nat /\ Xsub.waiting n1 (Xsub.fq f) w1 l q' w' /\
    Msg.inv mem1 (delete v0 vs) /\ held mem1 (delete v0 vs) (v :: ks) (m :: l) (d :: ds).
Proof.
  intros Hj [Hg Hmo Hk0 _ _] Hk Hw Hi Hh. unfold offers in Hw. destruct (Xsub.has_message (front b)) eqn:Eh.
  - destruct Hw as (l' & [= -> <-] & Hw).
    destruct (held_close mem vs v0 (v :: ks) msg _ d0 (d :: ds) Hi Hh) as (_ & _ & mem1 & Ec & Hi1 & Hh1).
    eexists mem1, w, (Xsub.set_more _ (Xsub.set_message false Msg.init (front b))), n.
    split; [|split; [done|split; [done|split; [done|split; [exact Hw|by split]]]]].
    unfold Xsub.xrecv. rewrite Eh. unfold sbind at 1, on_mem, Msg.move. cbn [e_mem e_pipes].
    assert (Hv : delete v0 vs !! v = Some (Xsub.message (front b))) by (destruct Hh1 as (_ & Hk1 & _); by apply Forall2_cons in Hk1 as [? _]).
    destruct (Msg.inv_owns _ _ Hi1 v _ Hv) as (-> & _). cbn [negb]. unfold sbind at 1. rewrite Ec. cbn. reflexivity.
  - pose proof (Xsub.recv_matching_spec n k w (m :: l) q' w' mem vs msg (v0 :: v :: ks) d0 (d :: ds) (front b) Hk Hw Hg Hmo
      (j_trie _ _ Hj) Hi Hh) as Hr. unfold Xsub.recv_result, Xsub.choice in Hr.
    rewrite (j_open _ _ Hj), orb_true_r in Hr. cbn [zip_with] in Hr.
    destruct Hr as (m1 & mem1 & w1 & q1 & Hl & E & Hw1 & _ & _ & Hi1 & Hh1). injection Hl as <-.
    eexists mem1, w1, _, (n - 1)%nat. split; [unfold Xsub.xrecv; rewrite Eh; exact E|]. split; [done|].
    split; [exact Eh|]. split; [lia|]. by split.
Qed.

(** One part forwarded: nothing crashes, and memory stays in order. *)
Lemma forward_part_total log n k b mem (w : W) msg m l q' w' vs v0 v ks d0 d ds :
  joined log b -> Xsub.steady (front b) -> (n <= k)%nat -> offers n b w (m :: l) q' w' ->
  Msg.inv mem vs -> held mem vs (v0 :: v :: ks) (msg :: m :: l) (d0 :: d :: ds) ->
  Z.of_nat (base.size (Dist.s_all (Dist.abs (Xpub.dist (back b)))) + base.size vs) < 2 ^ 32 ->
  exists mem1 w1 n1 ps mem2 w2 failed b' vs',
    (n1 <= n)%nat /\ Xsub.has_message (front b') = false /\ Xsub.waiting n1 (Xsub.fq (front b')) w1 l q' w' /\
    NoDup ps /\ (forall p, p ∈ ps <-> Xpub.targets (back b) d p) /\
    Dist.spec_send m ps (Env mem1 w1) = Done (Env mem2 w2, (Msg.init, failed)) /\
    forward_part k msg b (Env mem w) = Done (Env mem2 w2, (None, Msg.init, b')) /\
    Xpub.more (back b') = msg_more m /\
    (forall p, p ∈ Dist.s_match (Dist.abs (Xpub.dist (back b'))) <-> msg_more m = true /\ p ∈ ps /\ p ∉ failed) /\
    Msg.inv mem2 vs' /\ delete v (delete v0 vs) ⊆ vs'.
Proof.
  intros Hj Hst Hk Hw Hi Hh Hz.
  destruct (xrecv_next log n k b mem w msg m l q' w' vs v0 v ks d0 d ds Hj Hst Hk Hw Hi Hh)
    as (mem1 & w1 & f & n1 & E & Hsame & Hhm & Hn1 & Hw1 & Hi1 & Hh1).
  destruct (held_close _ _ _ _ _ _ _ _ Hi1 Hh1) as (Hd & _). pose proof (j_back _ _ Hj) as Ht.
  destruct (Xpub.xsend_targets m (back b) d (Env mem1 w1) (Xpub.t_ok _ _ Ht) Hd) as (ps & Hn & Hps & Hs).
  assert (Hlen : (length ps <= base.size (Dist.s_all (Dist.abs (Xpub.dist (back b)))))%nat).
  { rewrite <- (size_list_to_set (C := gset nat) ps Hn). apply subseteq_size. intros p Hp.
    rewrite elem_of_list_to_set, Hps in Hp. apply (targets_attached (back b) d); [apply Ht|done]. }
  assert (Hv : delete v0 vs !! v = Some m) by (destruct Hh1 as (_ & Hk1 & _); by apply Forall2_cons in Hk1 as [? _]).
  destruct (Dist.spec_send_total m ps mem1 w1 (delete v0 vs) v Hi1 Hv) as (mem2 & w2 & failed & vs' & Es & Hi2 & Hsub & _).
  { pose proof (Msg.size_delete_le v0 vs). lia. }
  rewrite Es in Hs. destruct Hs as (x' & Ex & _ & Hmx & _ & _ & Hmt).
  exists mem1, w1, n1, ps, mem2, w2, failed, (MkBus f x'), vs'. split_and!; try done.
  unfold forward_part, sbind at 1. rewrite E. cbn [obind]. unfold sbind. by rewrite Ex.
Qed.
End Spec.

(** ** Properties *)

(** C2: The two sockets agree.  At any moment of any run in which no pipe withdraws a prefix it did not
    subscribe to ([Xpub.stray_unsubscription_cuts_others] shows what follows otherwise), every prefix is counted at most once
    by the frontend, and what was passed on with what waits to be says which prefixes have
    subscribers.  When nothing waits, the frontend counts exactly the
    prefixes with subscribers, so that the filter it gives to a publisher lets a message through
    if and only if somebody is subscribed to it. *)
Theorem bus_subscriptions_agree {W} `{PipeOps W} log b :
  reachable log b ->
  (forall t, 0 <= Trie.refs (Xsub.subscriptions (front b)) t <= 1) /\
  (forall t, t ∈ Xpub.interest (log ++ Xpub.pending_data (back b)) <-> Mtrie.subs (Xpub.subscriptions (back b)) t <> []) /\
  (Xpub.pending_data (back b) = [] ->
   (forall t, Trie.refs (Xsub.subscriptions (front b)) t = 1 <-> Mtrie.subs (Xpub.subscriptions (back b)) t <> []) /\
   forall d, exists r, Trie.check (Xsub.subscriptions (front b)) d = Done r /\
     (r = true <-> exists q, Xpub.wants (back b) d q)).
Proof.
  intros Hj%reachable_joined. destruct (agree log b Hj) as (H1 & H2 & H3). split; [done|]. split; [done|].
  intros Ep. specialize (H3 Ep). split; [done|]. intros d.
  destruct (Trie.check_spec d _ (j_trie _ _ Hj)) as (r & E & Hr). exists r. split; [done|]. rewrite Hr.
  split.
  - intros (t & Ht & Hp). assert (Hne : Mtrie.subs (Xpub.subscriptions (back b)) t <> []) by (apply H3; specialize (H1 t); lia).
    destruct (Mtrie.subs (Xpub.subscriptions (back b)) t) as [|q l] eqn:E1; [done|]. exists q, t. rewrite E1.
    split; [done|by constructor].
  - intros (q & t & Ht & Hq). exists t. split; [done|]. assert (Trie.refs (Xsub.subscriptions (front b)) t = 1); [|lia].
    apply H3. intros E1. rewrite E1 in Hq. by apply not_elem_of_nil in Hq.
Qed.

(** C4: The proxy brings them to agree: from any state of a run in which no pipe withdrew a
    prefix it did not subscribe to ([Xpub.stray_unsubscription_cuts_others] shows what follows otherwise), if what waits are
    subscriptions (their flags are 0: none of them is a message of a subscriber), as many turns as there are pass them all on, without a crash, and then
    the frontend counts the prefixes with subscribers. *)
Theorem bus_passes_subscriptions_on {W} `{PipeOps W} log b mem (w : W) vs :
  let l := Xpub.pending_data (back b) in
  reachable log b -> Forall (fun d => fits d /\ bytes d) l -> Xpub.pending_flags (back b) = replicate (length l) 0 ->
  Msg.inv mem vs -> Z.of_nat (length l * S (publishers b) + base.size vs) < 2 ^ 32 ->
  exists e' b' vs', forward_subscriptions (S (length l)) Msg.init b (Env mem w) = Done (e', (Some EAGAIN, Msg.init, b')) /\
    Xpub.pending_data (back b') = [] /\ Xpub.subscriptions (back b') = Xpub.subscriptions (back b) /\
    Msg.inv (e_mem e') vs' /\ vs ⊆ vs' /\
    forall t, Trie.refs (Xsub.subscriptions (front b')) t = 1 <-> Mtrie.subs (Xpub.subscriptions (back b)) t <> [].
Proof.
  intros l Hj%reachable_joined Hf Hfl Hi Hz.
  destruct (forward_subscriptions_spec l log b mem w vs Hj eq_refl Hf Hfl Hi Hz) as (e' & b' & vs' & E & Hj' & Ep & Hs & ? & ?).
  exists e', b', vs'. destruct (agree _ _ Hj') as (_ & _ & H3). rewrite <- Hs. by split_and!; auto.
Qed.


(** ** A run: a publisher connects, a subscriber asks for [97], the bus passes it on *)

Definition sample_world : Boxes.boxes := Xpub.boxes [(1%nat, 5, []); (2%nat, 5, [])].

Definition sample_front : Xsub.xsub := Eval vm_compute in
  match Xsub.xattach_pipe 2 (front bus_new) Xpub.sample_world with Done (_, f) => f | Crash => front bus_new end.

Definition sample_back : Xpub.xpub := Eval vm_compute in
  match Xpub.xattach_pipe 9 1 false (back bus_new) Xpub.sample_world with Done (_, x) => x | Crash => back bus_new end.

Definition sample_bus : bus := Eval vm_compute in
  match forward_subscription Msg.init (MkBus sample_front sample_back) (Env Msg.memory0 sample_world) with
  | Done (_, (_, b)) => b | Crash => bus_new end.

(** A step after which there are as many publishers. *)
Lemma orderly_step {W} `{PipeOps W} (s s' : list (list Z) * env W * bus) :
  step s s' -> (publishers s.2 <= publishers s'.2)%nat -> orderly s s'.
Proof. intros Hs Hp. split; [done|lia]. Qed.

Lemma bus_sample_waits : calm [] (MkBus sample_front sample_back).
Proof.
  exists Xpub.sample_world. eexists. eapply rtc_l; [|eapply rtc_l; [|eapply rtc_l; [|apply rtc_refl]]]; apply orderly_step.
  - eapply (step_publisher [] 2 (front bus_new) (back bus_new)); [by apply not_elem_of_nil|done|].
    vm_compute. reflexivity.
  - vm_compute. lia.
  - apply (step_others [] _ Xpub.sample_world).
  - done.
  - eapply (step_subscriber [] 9 1 Msg.memory0 (e_pipes Xpub.sample_world)); [| |apply Xpub.sample_arrives| |].
    + apply (bool_decide_unpack _). vm_compute. exact I.
    + done.
    + split; [|done]. intros E. discriminate E.
    + vm_compute. reflexivity.
  - done.
Qed.

Lemma sample_passed : calm [[1; 97]] sample_bus.
Proof.
  destruct bus_sample_waits as (e0 & e & Hr). exists e0. eexists. eapply rtc_r; [eapply rtc_r; [exact Hr|]|]; apply orderly_step.
  - apply (step_others [] e (Env Msg.memory0 sample_world)).
  - done.
  - eapply (step_subscription [] _ _ [1; 97] []); [done|done|repeat constructor; lia|].
    vm_compute. reflexivity.
  - vm_compute. lia.
Qed.

Lemma bus_subscriptions_agree_witness :
  Trie.refs (Xsub.subscriptions (front sample_bus)) [97] = 1 /\
  (Mtrie.subs (Xpub.subscriptions (back sample_bus)) [97] <> []) /\
  exists r, Trie.check (Xsub.subscriptions (front sample_bus)) [97; 98] = Done r /\
    (r = true <-> exists q, Xpub.wants (back sample_bus) [97; 98] q).
Proof.
  destruct (bus_subscriptions_agree [[1; 97]] sample_bus (calm_reachable _ _ sample_passed)) as (_ & _ & Hp).
  destruct (Hp eq_refl) as [H1 H2]. split; [vm_compute; reflexivity|].
  split; [apply H1; vm_compute; reflexivity|apply (H2 [97; 98])].
Defined.

Lemma bus_passes_subscriptions_on_witness :
  exists e' b', forward_subscriptions 2 Msg.init (MkBus sample_front sample_back) (Env Msg.memory0 sample_world) =
      Done (e', (Some EAGAIN, Msg.init, b')) /\
    Xpub.pending_data (back b') = [] /\ forall t, Trie.refs (Xsub.subscriptions (front b')) t = 1 <->
      Mtrie.subs (Xpub.subscriptions sample_back) t <> [].
Proof.
  destruct (bus_passes_subscriptions_on [] (MkBus sample_front sample_back) Msg.memory0 sample_world ∅ (calm_reachable _ _ bus_sample_waits))
    as (e' & b' & vs' & E & Ep & _ & _ & _ & Ht); [repeat constructor; lia|reflexivity|apply Msg.inv_empty|vm_compute; reflexivity|].
  exists e', b'. split; [exact E|]. by split.
Defined.

Definition sample_event : Msg.msg := Xpub.text [97; 98].
Definition sample_sent : Boxes.boxes := Xpub.boxes [(1%nat, 5, []); (2%nat, 5, [sample_event])].

(** The proxy polls the frontend, which keeps the event. *)
Definition sample_poll : outcome (env Boxes.boxes * (bool * Xsub.xsub)) := Eval vm_compute in
  Xsub.xhas_in 2 (front sample_bus) (Env Msg.memory0 sample_sent).
Definition sample_polled : bus := Eval vm_compute in
  match sample_poll with Done (_, (_, f)) => MkBus f (back sample_bus) | Crash => sample_bus end.
Definition sample_after : Boxes.boxes := Eval vm_compute in match sample_poll with Done (e, _) => e_pipes e | Crash => ∅ end.
Definition sample_fq : Fq.fq := Eval vm_compute in
  match Fq.recv_many 1 (Xsub.fq (front sample_polled)) (Env Msg.memory0 sample_after) with
  | Done (_, (_, q)) => q | Crash => Fq.fq_new end.
Definition sample_end : Boxes.boxes := Eval vm_compute in
  match Fq.recv_many 1 (Xsub.fq (front sample_polled)) (Env Msg.memory0 sample_after) with
  | Done (e, _) => e_pipes e | Crash => ∅ end.
Definition sample_vars : gmap nat Msg.msg := {[ 0%nat := Msg.init; 1%nat := sample_event ]}.

Lemma bus_sample_polled : calm [[1; 97]] sample_polled.
Proof.
  destruct sample_passed as (e0 & e & Hr). exists e0. eexists. eapply rtc_r; [eapply rtc_r; [exact Hr|]|]; apply orderly_step.
  - apply (step_others [[1; 97]] e (Env Msg.memory0 sample_sent)).
  - done.
  - eapply (step_poll [[1; 97]] 2 (front sample_bus) (back sample_bus)). vm_compute. reflexivity.
  - vm_compute. lia.
Qed.

Lemma bus_sample_offers : offers 1 sample_polled sample_after [sample_event] sample_fq sample_end.
Proof.
  exists []. split; [reflexivity|]. exists []. split; [vm_compute; reflexivity|]. split; [done|]. simpl. lia.
Qed.

Lemma bus_sample_inv : Msg.inv Msg.memory0 sample_vars.
Proof.
  apply (Msg.inv_insert_none Msg.memory0 {[ 1%nat := sample_event ]} [0%nat]); try done.
  - apply (Msg.inv_insert_none Msg.memory0 ∅ [1%nat]); try done; [apply Msg.inv_empty|].
    split; [apply NoDup_singleton|]. intros d' ->%list_elem_of_singleton. apply lookup_empty.
  - split; [apply NoDup_singleton|]. by intros d' ->%list_elem_of_singleton.
Qed.

Lemma bus_sample_held : held Msg.memory0 sample_vars [0; 1]%nat [Msg.init; sample_event] [[]; [97; 98]].
Proof.
  split; [by apply (bool_decide_unpack _); vm_compute|]. split; [by repeat constructor|].
  split; by repeat constructor.
Qed.


(** The event is in the pipe of the subscriber. *)
Example sample_delivered :
  match forward_part 1 Msg.init sample_polled (Env Msg.memory0 sample_after) with
  | Done (e, _) => Boxes.written (Boxes.box_of 1 (e_pipes e)) = [sample_event]
  | Crash => False
  end.
Proof. vm_compute. reflexivity. Qed.

End Bus.
