(* ===== verification/Lb.v ===== *)
(** * Lb: lb_t, load balancing of outbound messages (libzmq/src/lb.cpp)

    The active pipes are the first [active] of the array and [current] is the next
    one to write to.  The theorems: a message goes to one pipe, whole; the pipes are
    used in turn; the rest of a message whose pipe has gone is dropped. *)

From S2P Require Import Prelude Msg Pipes Array.

Module Lb.
Import Array.

Record lb : Type := Lb {
  pipes : array;
  active : Z;
  current : Z;
  more : bool;
  dropping : bool
}.

Definition lb_new : lb := Lb empty 0 0 false false.

Definition activated (pipe : nat) (l : lb) : outcome lb :=
  let* a := swap (pipes l) (index (pipes l) pipe) (active l) in
  Done (Lb a (active l + 1) (current l) (more l) (dropping l)).

Definition attach (pipe : nat) (l : lb) : outcome lb :=
  activated pipe (Lb (push_back (pipes l) pipe) (active l) (current l) (more l) (dropping l)).

Definition pipe_terminated (pipe : nat) (l : lb) : outcome lb :=
  let i := index (pipes l) pipe in
  let dropping_ := if (i =? current l) && more l then true else dropping l in
  let* l := if (i <? active l) then
              let* a := swap (pipes l) i (active l - 1) in
              Done (Lb a (active l - 1) (if (current l =? active l - 1) then 0 else current l)
                       (more l) dropping_)
            else Done (Lb (pipes l) (active l) (current l) (more l) dropping_) in
  let* a := erase (pipes l) pipe in
  Done (Lb a (active l) (current l) (more l) (dropping l)).

(** What the loops do to a pipe that refused: in [sendpipe] and in [has_out]. *)
Definition skip_send (l : lb) : outcome lb :=
  let ac := active l - 1 in
  if (current l <? ac) then
    let* a := swap (pipes l) (current l) ac in
    Done (Lb a ac (current l) (more l) (dropping l))
  else Done (Lb (pipes l) ac 0 (more l) (dropping l)).

Definition skip_out (l : lb) : outcome lb :=
  let ac := active l - 1 in
  let* a := swap (pipes l) (current l) ac in
  Done (Lb a ac (if (current l =? ac) then 0 else current l) (more l) (dropping l)).

(** How the loop of [sendpipe] is left: a pipe took the part, the message is rolled
    back, or no pipe is active. *)
Inductive sent : Type :=
| Taken (pipe : nat)
| RolledBack
| NoPipe.

Section Env.
Context {W : Type} `{PipeOps W}.

Fixpoint send_loop (fuel : nat) (msg : Msg.msg) (l : lb) : stm (env W) (sent * lb) :=
  if (0 <? active l) then
    match fuel with
    | O => scrash
    | S fuel =>
      let! p := slift (get (pipes l) (current l)) in
      let! ok := on_pipes (pipe_write p msg) in
      if ok then sret (Taken p, l)
      else if more l then
        on_pipes (fun w => (pipe_rollback p w, tt)) ;;;
        sret (RolledBack, Lb (pipes l) (active l) (current l) false (dropping l))
      else
        let! l := slift (skip_send l) in
        send_loop fuel msg l
    end
  else sret (NoPipe, l).

(** The code (0, or -1 with [EAGAIN]), the message left, the pipe, and the balancer. *)
Definition sendpipe (msg : Msg.msg) (l : lb) : stm (env W) (Z * Msg.msg * option nat * lb) :=
  if dropping l then
    let more_ := msg_more msg in
    let! m := close_init msg in
    sret (0, m, None, Lb (pipes l) (active l) (current l) more_ more_)
  else
    let! (r, l) := send_loop (Z.to_nat (active l)) msg l in
    match r with
    | NoPipe | RolledBack => sret (-1, msg, None, l)
    | Taken p =>
      if negb (msg_more msg) then
        let! c := slift (get (pipes l) (current l)) in
        on_pipes (fun w => (pipe_flush c w, tt)) ;;;
        sret (0, Msg.init, Some p,
              Lb (pipes l) (active l) (if (active l <=? current l + 1) then 0 else current l + 1)
                 false (dropping l))
      else sret (0, Msg.init, Some p, Lb (pipes l) (active l) (current l) true (dropping l))
    end.

Definition send (msg : Msg.msg) (l : lb) : stm (env W) (Z * Msg.msg * lb) :=
  let! (rc, m, _, l) := sendpipe msg l in sret (rc, m, l).

Fixpoint has_out_loop (fuel : nat) (l : lb) : stm (env W) (bool * lb) :=
  if (0 <? active l) then
    match fuel with
    | O => scrash
    | S fuel =>
      let! p := slift (get (pipes l) (current l)) in
      let! ready := on_pipes (pipe_check_write p) in
      if ready then sret (true, l)
      else let! l := slift (skip_out l) in has_out_loop fuel l
    end
  else sret (false, l).

Definition has_out (l : lb) : stm (env W) (bool * lb) :=
  if more l then sret (true, l) else has_out_loop (Z.to_nat (active l)) l.
End Env.

(** ** Invariant *)

Record lb_ok (l : lb) : Prop := {
  l_array : ok (pipes l);
  l_active : 0 <= active l <= size (pipes l);
  l_current : 0 <= current l /\ (current l < active l \/ current l = 0)
}.

Definition actives (l : lb) : gset nat := seg (pipes l) (active l).
Definition members (l : lb) : gset nat := seg (pipes l) (size (pipes l)).
Definition waits (l : lb) (p : nat) : Z := ahead (pipes l) (active l) (current l) p.

Lemma lb_new_ok : lb_ok lb_new.
Proof. split; simpl; [apply ok_empty|unfold size; simpl; lia|lia]. Qed.

(** What leaves the rest as it was. *)
Definition same_mode (l l' : lb) : Prop := more l' = more l /\ dropping l' = dropping l.

Lemma lb_activated_spec p l :
  lb_ok l -> p ∈ members l -> p ∉ actives l ->
  exists l', activated p l = Done l' /\ lb_ok l' /\ actives l' = {[p]} ∪ actives l /\
    members l' = members l /\ same_mode l l'.
Proof.
  intros [Ha Hs Hc] Hp Hn. unfold members, actives in *. rewrite elem_all in Hp by done.
  rewrite elem_seg in Hn by done. assert (active l <= index (pipes l) p) by (apply Z.nlt_ge; tauto).
  destruct (elem_index _ p Ha Hp) as [Hr _]. unfold activated.
  destruct (swap_spec (pipes l) (index (pipes l) p) (active l)) as (a & -> & Hsw); [done|done|lia|].
  simpl. pose proof (sw_size _ _ _ _ Hsw). eexists; split; [reflexivity|].
  split; [split; simpl; [apply Hsw|lia|lia]|]. unfold actives, members; simpl.
  rewrite (seg_add (pipes l) a p) by (done || lia).
  by rewrite (seg_all (pipes l) a _ _ (size a) (size (pipes l)) Ha Hsw) by done.
Qed.

Lemma lb_attach_spec p l :
  lb_ok l -> p ∉ members l -> size (pipes l) + 1 < 2 ^ 31 ->
  exists l', attach p l = Done l' /\ lb_ok l' /\ actives l' = {[p]} ∪ actives l /\
    members l' = {[p]} ∪ members l /\ same_mode l l'.
Proof.
  intros [Ha Hs Hc] Hp Hz. unfold members in Hp. rewrite elem_all in Hp by done.
  destruct (push_back_spec _ p Ha Hp Hz) as (Hb & Hi & Zb & Hpb & Hseg & Hall).
  unfold attach. set (l1 := Lb (push_back (pipes l) p) (active l) (current l) (more l) (dropping l)).
  destruct (lb_activated_spec p l1) as (l' & E & Hok & E1 & E2 & E3).
  - split; simpl; [done|lia|done].
  - unfold members; simpl. by apply elem_all.
  - unfold actives; simpl. rewrite elem_seg by done. lia.
  - exists l'. split; [exact E|]. split; [done|]. rewrite E1, E2. unfold actives, members; simpl.
    rewrite Hall, Hseg by lia. done.
Qed.

Lemma lb_pipe_terminated_spec p l :
  lb_ok l -> p ∈ members l ->
  exists l', pipe_terminated p l = Done l' /\ lb_ok l' /\ actives l' = actives l ∖ {[p]} /\
    members l' = members l ∖ {[p]} /\ more l' = more l /\
    dropping l' = (if (index (pipes l) p =? current l) && more l then true else dropping l).
Proof.
  intros [Ha Hs Hc] Hp. unfold members in Hp. rewrite elem_all in Hp by done.
  destruct (elem_index _ p Ha Hp) as [Hr _]. unfold pipe_terminated.
  set (dr := if (index (pipes l) p =? current l) && more l then true else dropping l).
  assert (Hd : exists l1, (if (index (pipes l) p <? active l) then
              let* a := swap (pipes l) (index (pipes l) p) (active l - 1) in
              Done (Lb a (active l - 1) (if (current l =? active l - 1) then 0 else current l) (more l) dr)
            else Done (Lb (pipes l) (active l) (current l) (more l) dr)) = Done l1 /\
      ok (pipes l1) /\ p ∈ items (pipes l1) /\ 0 <= active l1 <= index (pipes l1) p /\
      (0 <= current l1 /\ (current l1 < active l1 \/ current l1 = 0)) /\ actives l1 = actives l ∖ {[p]} /\
      members l1 = members l /\ more l1 = more l /\ dropping l1 = dr).
  { destruct (Z.ltb_spec (index (pipes l) p) (active l)).
    - destruct (swap_spec (pipes l) (index (pipes l) p) (active l - 1)) as (a & -> & Hsw);
        [done|lia|lia|]. simpl. pose proof (sw_size _ _ _ _ Hsw).
      eexists; split; [reflexivity|]. split_and!; simpl; try (done || lia).
      + apply Hsw.
      + by apply (swaps_elem _ _ _ _ p Hsw).
      + rewrite (swaps_at _ _ _ _ p Hsw) by done. lia.
      + destruct (Z.eqb_spec (current l) (active l - 1)); lia.
      + destruct (Z.eqb_spec (current l) (active l - 1)); lia.
      + unfold actives; simpl. by apply seg_sub.
      + unfold members; simpl. by apply (seg_all (pipes l) a _ _ _ _ Ha Hsw).
    - eexists; split; [reflexivity|]. split_and!; simpl; try (done || lia). unfold actives. simpl.
      apply set_eq. intros x. rewrite elem_of_difference, elem_of_singleton, elem_seg by done. split; [|tauto].
      intros [Hx Hl]. split; [done|]. intros ->. lia. }
  destruct Hd as (l1 & -> & O1 & P1 & A1 & C1 & S1 & M1 & Mo & Dr). cbn [obind].
  destruct (erase_spec p (pipes l1) O1 P1) as (a & -> & Oa & Za & Hall & Hseg). cbn [obind].
  destruct (elem_index _ p O1 P1) as [Hr1 _].
  eexists; split; [reflexivity|]. split; [split; simpl; [done|lia|done]|].
  unfold actives, members in *; simpl. rewrite Hseg, S1, Hall, M1 by lia. done.
Qed.

(** The current pipe refuses. *)
Definition skipped_current (l l' : lb) (c : nat) : Prop :=
  lb_ok l' /\ active l' = active l - 1 /\ actives l' = actives l ∖ {[c]} /\ c ∈ actives l /\
  members l' = members l /\ same_mode l l' /\
  forall p, p ∈ actives l' -> waits l' p <= waits l p.

Lemma skip_out_spec l :
  lb_ok l -> 0 < active l ->
  exists l' c, get (pipes l) (current l) = Done c /\ skip_out l = Done l' /\ skipped_current l l' c.
Proof.
  intros [Ha Hs Hc] Hpos. unfold skip_out.
  destruct (skip_spec (pipes l) (active l) (current l)) as (a & c & Ec & -> & Oa & Za & Hsub & Hin & Hm & Hw);
    [done|lia|lia|].
  simpl. eexists _, c. split; [done|]. split; [reflexivity|].
  split; [split; simpl; [done|lia|destruct (Z.eqb_spec (current l) (active l - 1)); lia]|].
  unfold actives, members, waits; simpl. split; [done|]. split; [done|]. split; [done|].
  split; [rewrite Za; apply Hm; lia|]. done.
Qed.

Lemma skip_send_spec l :
  lb_ok l -> 0 < active l ->
  exists l' c, get (pipes l) (current l) = Done c /\ skip_send l = Done l' /\ skipped_current l l' c.
Proof.
  intros [Ha Hs Hc] Hpos. unfold skip_send.
  destruct (skip_spec (pipes l) (active l) (current l)) as (a & c & Ec & E & Oa & Za & Hsub & Hin & Hm & Hw);
    [done|lia|lia|].
  destruct (Z.ltb_spec (current l) (active l - 1)).
  - rewrite E. simpl. eexists _, c. split; [done|]. split; [reflexivity|].
    destruct (Z.eqb_spec (current l) (active l - 1)); [lia|].
    split; [split; simpl; [done|lia|lia]|].
    unfold actives, members, waits; simpl. split; [done|]. split; [done|]. split; [done|].
    split; [rewrite Za; apply Hm; lia|]. done.
  - assert (El : current l = active l - 1) by lia. rewrite El in E, Hw. rewrite Z.eqb_refl in Hw.
    eexists _, c. split; [done|]. split; [reflexivity|].
    assert (Hsame : forall m, seg a m = seg (pipes l) m).
    { intros m. destruct (swap_spec (pipes l) (active l - 1) (active l - 1)) as (a0 & E0 & Hsw); [done|lia|lia|].
      rewrite E in E0. injection E0 as <-. by apply (seg_same _ _ _ _ m Ha Hsw). }
    split; [split; simpl; [done|lia|lia]|]. unfold actives, members, waits in *; simpl.
    split; [done|]. rewrite <- Hsame. split; [by rewrite Hsub|]. split; [done|].
    split; [done|]. split; [done|]. intros p Hp.
    assert (Hi : index a p = index (pipes l) p).
    { destruct (swap_spec (pipes l) (active l - 1) (active l - 1)) as (a0 & E0 & Hsw); [done|lia|lia|].
      rewrite E in E0. injection E0 as <-. rewrite Hsame in Hp. apply elem_seg in Hp as [Hp _]; [|done].
      rewrite (sw_index _ _ _ _ Hsw p Hp). unfold swapped. by repeat case_decide. }
    specialize (Hw p Hp). rewrite El. unfold ahead in *. by rewrite Hi in Hw.
Qed.

Section Send.
Context {W : Type} `{PipeOps W}.

(** Offering a part to pipes in turn, up to the first that takes it. *)
Fixpoint try_write (msg : Msg.msg) (ps : list nat) (w : W) : W * list nat * option nat :=
  match ps with
  | [] => (w, [], None)
  | p :: ps =>
    let (w, ok) := pipe_write p msg w in
    if ok then (w, [], Some p)
    else let '(w, refused, r) := try_write msg ps w in (w, p :: refused, r)
  end.

(** What the loop leaves: [refused] are not active any more. *)
Record offered (l l' : lb) (refused : list nat) (r : option nat) : Prop := {
  o_ok : lb_ok l';
  o_actives : forall x, x ∈ actives l' <-> x ∈ actives l /\ x ∉ refused;
  o_members : members l' = members l;
  o_mode : same_mode l l';
  o_result : match r with
             | Some p => get (pipes l') (current l') = Done p /\ p ∈ actives l'
             | None => actives l' = ∅
             end;
  o_waits : forall x, x ∈ actives l' -> waits l' x <= waits l x
}.

Lemma send_loop_spec msg : forall k l (e : env W),
  lb_ok l -> Z.of_nat k = active l -> more l = false ->
  exists ps, NoDup ps /\ (forall x, x ∈ ps <-> x ∈ actives l) /\
    (0 < active l -> exists c ps', get (pipes l) (current l) = Done c /\ ps = c :: ps') /\
    exists w' refused r l', try_write msg ps (e_pipes e) = (w', refused, r) /\
      send_loop k msg l e = Done (Env (e_mem e) w', (match r with Some p => Taken p | None => NoPipe end, l')) /\
      offered l l' refused r.
Proof.
  induction k as [|k IH]; intros l e Hl Hk Hm.
  - exists []. split; [constructor|]. assert (Hn : forall x, x ∉ actives l).
    { intros x. unfold actives, seg. replace (active l) with 0 by lia. simpl. set_solver. }
    split; [intros x; rewrite elem_of_nil; split; [done|by intros ?%Hn]|]. split; [lia|].
    exists (e_pipes e), [], None, l. split; [done|]. simpl. destruct (Z.ltb_spec 0 (active l)); [lia|].
    split; [by destruct e|]. split; try done.
    + intros x. set_solver.
    + apply set_eq. intros x. rewrite elem_of_empty. split; [by intros ?%Hn|done].
  - assert (Hpos : 0 < active l) by lia.
    destruct (skip_send_spec l Hl Hpos) as (l1 & c & Ec & E1 & O1 & A1 & S1 & I1 & M1 & [Mo1 D1] & W1).
    cbn [send_loop]. destruct (Z.ltb_spec 0 (active l)); [|lia].
    unfold sbind at 1. unfold slift at 1. rewrite Ec. cbn [obind].
    unfold sbind at 1, on_pipes at 1. destruct (pipe_write c msg (e_pipes e)) as [w1 []] eqn:Er; cbn [obind].
    + set (rest := elements (actives l ∖ {[c]})). exists (c :: rest). split.
      { constructor; [|apply NoDup_elements]. unfold rest. rewrite elem_of_elements. set_solver. }
      split. { intros x. unfold rest. rewrite elem_of_cons, elem_of_elements.
        destruct (decide (x = c)) as [->|]; set_solver. }
      split; [eauto|]. simpl. rewrite Er. exists w1, [], (Some c), l. split; [done|]. split; [done|].
      split; try done. intros x. set_solver.
    + rewrite Hm. destruct (IH l1 (Env (e_mem e) w1))
        as (ps & Hnd & Hps & _ & w' & sk & r & l' & Et & El & [R1 R2 R3 [R4 R4'] R5 R6]); [done|lia|congruence|].
      exists (c :: ps). split; [constructor; [|done]; rewrite Hps, S1; set_solver|].
      split. { intros x. rewrite elem_of_cons, Hps, S1. destruct (decide (x = c)) as [->|]; set_solver. }
      split; [eauto|]. simpl in Et |- *. rewrite Er, Et. exists w', (c :: sk), r, l'. split; [done|].
      unfold sbind, slift. rewrite E1. cbn [obind]. split; [exact El|]. split.
      * done.
      * intros x. rewrite R2, S1, not_elem_of_cons. set_solver.
      * by rewrite R3.
      * split; congruence.
      * done.
      * intros x Hx. assert (x ∈ actives l1) by (apply R2 in Hx; tauto). specialize (R6 x Hx).
        specialize (W1 x ltac:(done)). lia.
Qed.

(** What a completed call leaves when pipe [p] took the part. *)
Record took (msg : Msg.msg) (l l' : lb) (refused : list nat) (p : nat) : Prop := {
  t_ok : lb_ok l';
  t_actives : forall x, x ∈ actives l' <-> x ∈ actives l /\ x ∉ refused;
  t_members : members l' = members l;
  t_mode : more l' = msg_more msg /\ dropping l' = false;
  t_pipe : p ∈ actives l' /\ (msg_more msg = true -> get (pipes l') (current l') = Done p);
  t_waits : forall x, x ∈ actives l' -> x <> p ->
    waits l' x <= waits l x - (if msg_more msg then 0 else 1)
}.

(** The end of [sendpipe], after the write. *)
Definition finish (msg : Msg.msg) (l : lb) : lb :=
  Lb (pipes l) (active l)
     (if msg_more msg then current l else if (active l <=? current l + 1) then 0 else current l + 1)
     (msg_more msg) (dropping l).

Lemma finish_took msg l l' refused p :
  dropping l = false -> offered l l' refused (Some p) -> took msg l (finish msg l') refused p.
Proof.
  intros Hd [R1 R2 R3 [R4 R4'] [R5 R5'] R6]. pose proof R1 as [Ha Hs Hc].
  assert (Hcur : current l' < active l').
  { pose proof R5' as Hp. apply elem_seg in Hp as [Hp Hl]; [|done]. destruct (elem_index _ p Ha Hp). lia. }
  split; unfold actives, members in *; simpl; try done.
  - split; simpl; [done|done|]. destruct (msg_more msg); [done|]. destruct (Z.leb_spec (active l') (current l' + 1)); lia.
  - split; [done|congruence].
  - split; [done|]. intros ->. done.
  - intros x Hx Hne. specialize (R6 x Hx). unfold waits in *; simpl. destruct (msg_more msg); [lia|].
    destruct (advance_spec (pipes l') (active l') (current l') x p) as [_ Ew]; [done|lia|done|done|done|].
    replace (if (active l' <=? current l' + 1) then 0 else current l' + 1) with ((current l' + 1) mod active l').
    { lia. }
    destruct (Z.leb_spec (active l') (current l' + 1)).
    + replace (current l' + 1) with (active l') by lia. apply Z_mod_same_full.
    + apply Z.mod_small. lia.
Qed.

Definition flushed (msg : Msg.msg) (p : nat) (w : W) : W := if msg_more msg then w else pipe_flush p w.

Lemma sendpipe_eq msg l (e : env W) :
  dropping l = false ->
  sendpipe msg l e =
    let* (e', r) := send_loop (Z.to_nat (active l)) msg l e in
    match r.1 with
    | NoPipe | RolledBack => Done (e', (-1, msg, None, r.2))
    | Taken p =>
      let* c := if msg_more msg then Done p else get (pipes r.2) (current r.2) in
      Done (Env (e_mem e') (flushed msg c (e_pipes e')), (0, Msg.init, Some p, finish msg r.2))
    end.
Proof.
  intros Hd. unfold sendpipe. rewrite Hd. unfold sbind.
  destruct (send_loop (Z.to_nat (active l)) msg l e) as [[e' [[p| |] l']]|]; try done. simpl.
  unfold flushed, finish. destruct (msg_more msg) eqn:Em; simpl; [by destruct e'|].
  unfold sbind, slift. by destruct (get (pipes l') (current l')).
Qed.

Lemma sendpipe_spec msg l (e : env W) :
  lb_ok l -> more l = false -> dropping l = false ->
  exists ps, NoDup ps /\ (forall x, x ∈ ps <-> x ∈ actives l) /\
    (0 < active l -> exists c ps', get (pipes l) (current l) = Done c /\ ps = c :: ps') /\
    exists w' refused r l', try_write msg ps (e_pipes e) = (w', refused, r) /\
      match r with
      | Some p => sendpipe msg l e = Done (Env (e_mem e) (flushed msg p w'), (0, Msg.init, Some p, l')) /\
          took msg l l' refused p
      | None => sendpipe msg l e = Done (Env (e_mem e) w', (-1, msg, None, l')) /\
          lb_ok l' /\ actives l' = ∅ /\ members l' = members l /\ same_mode l l'
      end.
Proof.
  intros Hl Hm Hd. destruct (send_loop_spec msg (Z.to_nat (active l)) l e Hl)
    as (ps & Hnd & Hps & Hh & w' & sk & r & l' & Et & El & HR); [destruct Hl; lia|done|].
  exists ps. split; [done|]. split; [done|]. split; [done|]. rewrite (sendpipe_eq msg l e Hd), El. simpl.
  destruct r as [p|]; simpl.
  - exists w', sk, (Some p), (finish msg l'). split; [done|].
    pose proof (o_result _ _ _ _ HR) as [Ep _]. split; [|by apply finish_took].
    rewrite Ep. by destruct (msg_more msg).
  - exists w', sk, None, l'. split; [done|]. split; [done|]. destruct HR. by split_and!.
Qed.

(** In the middle of a message only the current pipe is written to; if it refuses, the
    parts written so far are rolled back. *)
Lemma sendpipe_more_spec msg l p (e : env W) :
  lb_ok l -> more l = true -> dropping l = false -> 0 < active l -> get (pipes l) (current l) = Done p ->
  let (w', ok) := pipe_write p msg (e_pipes e) in
  if ok then exists l', sendpipe msg l e = Done (Env (e_mem e) (flushed msg p w'), (0, Msg.init, Some p, l')) /\
    took msg l l' [] p
  else sendpipe msg l e = Done (Env (e_mem e) (pipe_rollback p w'),
         (-1, msg, None, Lb (pipes l) (active l) (current l) false (dropping l))).
Proof.
  intros Hl Hm Hd Hpos Ep. rewrite (sendpipe_eq msg l e Hd). pose proof Hl as [Ha Hs Hc].
  replace (Z.to_nat (active l)) with (S (Z.to_nat (active l) - 1)) by lia. cbn [send_loop].
  destruct (Z.ltb_spec 0 (active l)); [|lia]. unfold sbind, slift, on_pipes. rewrite Ep. cbn [obind].
  destruct (pipe_write p msg (e_pipes e)) as [w' []]; cbn [obind].
  - simpl. exists (finish msg l). rewrite Ep. split; [by destruct (msg_more msg)|].
    apply finish_took; [done|]. split; try done.
    + intros x. set_solver.
    + split; [done|]. pose proof Ep as Lp. unfold get in Lp. apply nth_z_inv in Lp as [_ Lp].
      pose proof (index_lookup _ _ p Ha Lp). apply elem_seg; [done|]. split; [apply list_elem_of_lookup; eauto|lia].
  - rewrite Hm. done.
Qed.

Lemma has_out_loop_spec : forall k l (e : env W),
  lb_ok l -> Z.of_nat k = active l ->
  exists w' b l', has_out_loop k l e = Done (Env (e_mem e) w', (b, l')) /\ lb_ok l' /\
    members l' = members l /\ same_mode l l' /\ actives l' ⊆ actives l /\
    (b = false -> actives l' = ∅) /\ (b = true -> 0 < active l') /\
    forall x, x ∈ actives l' -> waits l' x <= waits l x.
Proof.
  induction k as [|k IH]; intros l e Hl Hk.
  - exists (e_pipes e), false, l. simpl. destruct (Z.ltb_spec 0 (active l)); [lia|].
    split; [by destruct e|]. split_and!; try done. intros _. unfold actives, seg.
    by replace (active l) with 0 by lia.
  - assert (Hpos : 0 < active l) by lia.
    destruct (skip_out_spec l Hl Hpos) as (l1 & c & Ec & E1 & O1 & A1 & S1 & I1 & M1 & [Mo1 D1] & W1).
    cbn [has_out_loop]. destruct (Z.ltb_spec 0 (active l)); [|lia].
    unfold sbind at 1. unfold slift at 1. rewrite Ec. cbn [obind].
    unfold sbind at 1, on_pipes at 1. destruct (pipe_check_write c (e_pipes e)) as [w1 []]; cbn [obind].
    + exists w1, true, l. split; [done|]. by split_and!.
    + destruct (IH l1 (Env (e_mem e) w1)) as (w' & b & l' & E & R1 & R2 & [R3 R3'] & R5 & R6 & R7 & R8); [done|lia|].
      exists w', b, l'. unfold sbind, slift. rewrite E1. cbn [obind]. split; [exact E|].
      split_and!; try done; try congruence.
      * split; congruence.
      * rewrite R5, S1. set_solver.
      * intros x Hx. specialize (R8 x Hx). specialize (W1 x (R5 x Hx)). lia.
Qed.

(** Parts sent one after the other, as long as a pipe takes them; with the pipe that
    took each. *)
Fixpoint send_many (ms : list Msg.msg) (l : lb) : stm (env W) (list (Msg.msg * nat) * lb) :=
  match ms with
  | [] => sret ([], l)
  | m :: ms =>
    let! (_, _, o, l) := sendpipe m l in
    match o with
    | None => sret ([], l)
    | Some p => let! (ps, l) := send_many ms l in sret ((m, p) :: ps, l)
    end
  end.

(** Between two calls: the pipe of an unfinished message is active. *)
Definition good (l : lb) : Prop := lb_ok l /\ dropping l = false /\ (more l = true -> 0 < active l).

Lemma took_good msg l l' refused p : took msg l l' refused p -> good l'.
Proof.
  intros [Hok _ _ [Hm Hd] [Hp _] _]. split; [done|]. split; [done|]. intros _. pose proof Hok as [Ha Hs Hc].
  apply elem_seg in Hp as [Hp Hl]; [|done]. destruct (elem_index _ p Ha Hp). lia.
Qed.

Lemma sendpipe_cases msg l (e e' : env W) rc m p l' :
  good l -> sendpipe msg l e = Done (e', (rc, m, Some p, l')) ->
  (exists refused, took msg l l' refused p) /\
  (more l = true -> get (pipes l) (current l) = Done p).
Proof.
  intros (Hl & Hd & Hg) E. destruct (more l) eqn:Em.
  - specialize (Hg eq_refl). destruct (get_some (pipes l) (current l)) as (c & Ec & _); [destruct Hl; lia|].
    pose proof (sendpipe_more_spec msg l c e Hl Em Hd Hg Ec) as Hs. rewrite E in Hs.
    destruct (pipe_write c msg (e_pipes e)) as [w' []]; [|done]. destruct Hs as (l1 & E1 & T).
    simplify_eq. split; [by exists []|done].
  - destruct (sendpipe_spec msg l e Hl Em Hd) as (ps & _ & _ & _ & w' & sk & r & l1 & _ & Hr).
    rewrite E in Hr. destruct r as [p1|]; destruct Hr as [E1 T]; [|done]. simplify_eq.
    split; [by exists sk|done].
Qed.

Lemma send_many_step m ms l (e e' : env W) ps l' :
  send_many (m :: ms) l e = Done (e', (ps, l')) ->
  exists e1 rc m1 o l1, sendpipe m l e = Done (e1, (rc, m1, o, l1)) /\
    match o with
    | None => ps = [] /\ l' = l1
    | Some p => exists ps1, ps = (m, p) :: ps1 /\ send_many ms l1 e1 = Done (e', (ps1, l'))
    end.
Proof.
  cbn [send_many]. unfold sbind at 1. destruct (sendpipe m l e) as [[e1 [[[rc m1] [p|]] l1]]|]; simpl; [| |done].
  - unfold sbind. destruct (send_many ms l1 e1) as [[e2 [ps1 l2]]|] eqn:E; simpl; [|done].
    injection 1 as <- <- <-. exists e1, rc, m1, (Some p), l1. split; [done|]. by exists ps1.
  - injection 1 as <- <- <-. by exists e1, rc, m1, None, l1.
Qed.

Definition completed (l : list (Msg.msg * nat)) : Z :=
  Z.of_nat (length (filter (fun mp : Msg.msg * nat => msg_more mp.1 = false) l)).

Lemma send_many_waits ms : forall l (e e' : env W) ps l' x,
  good l -> send_many ms l e = Done (e', (ps, l')) -> length ps = length ms -> x ∈ actives l' ->
  (forall m, (m, x) ∉ ps) -> x ∈ actives l /\ waits l' x <= waits l x - completed ps /\ good l'.
Proof.
  induction ms as [|m ms IH]; intros l e e' ps l' x Hl E Hlen Hx Hno.
  - injection E as <- <- <-. unfold completed; simpl. split; [done|]. split; [lia|done].
  - apply send_many_step in E as (e1 & rc & m1 & [p|] & l1 & E1 & Hr); [|destruct Hr as [-> _]; done].
    destruct Hr as (ps1 & -> & E2). destruct (sendpipe_cases m l e e1 rc m1 p l1 Hl E1) as [[sk T] _].
    destruct (IH l1 e1 e' ps1 l' x (took_good _ _ _ _ _ T) E2) as (I1 & I2 & I3); [simpl in Hlen; lia|done| |].
    { intros m' Hm'. apply (Hno m'). by constructor. }
    assert (Hne : x <> p) by (intros ->; apply (Hno m); constructor).
    destruct T as [_ T2 _ _ _ T6]. specialize (T6 x I1 Hne). apply T2 in I1 as [I1 _].
    split; [done|]. split; [|done]. unfold completed in *. rewrite filter_cons. simpl.
    destruct (msg_more m) eqn:Em.
    + rewrite decide_False by done. lia.
    + rewrite decide_True by done. simpl. lia.
Qed.

Fixpoint together (turn : option nat) (l : list (Msg.msg * nat)) : Prop :=
  match l with
  | [] => True
  | (m, p) :: l =>
    (forall t, turn = Some t -> p = t) /\ together (if msg_more m then Some p else None) l
  end.

Definition turn (l : lb) : option nat :=
  if more l then match get (pipes l) (current l) with Done p => Some p | Crash => None end else None.

Lemma send_many_together ms : forall l (e e' : env W) ps l',
  good l -> send_many ms l e = Done (e', (ps, l')) -> together (turn l) ps.
Proof.
  induction ms as [|m ms IH]; intros l e e' ps l' Hl E; [by injection E as <- <- <-|].
  apply send_many_step in E as (e1 & rc & m1 & [p|] & l1 & E1 & Hr); [|by destruct Hr as [-> _]].
  destruct Hr as (ps1 & -> & E2). destruct (sendpipe_cases m l e e1 rc m1 p l1 Hl E1) as [[sk T] Ht].
  simpl. split.
  - intros t. unfold turn. destruct (more l); [|done]. rewrite (Ht eq_refl). congruence.
  - specialize (IH l1 e1 e' ps1 l' (took_good _ _ _ _ _ T) E2). destruct T as [_ _ _ [Tm _] [_ Tp] _].
    unfold turn in IH. rewrite Tm in IH. destruct (msg_more m); [|done]. by rewrite (Tp eq_refl) in IH.
Qed.
End Send.

Lemma pipe_terminated_turn p c l l' :
  lb_ok l -> p ∈ members l -> get (pipes l) (current l) = Done c -> current l < active l -> c <> p ->
  current l <> active l - 1 \/ index (pipes l) p = 0 \/ active l <= index (pipes l) p ->
  pipe_terminated p l = Done l' -> get (pipes l') (current l') = Done c.
Proof.
  intros [Ha Hs Hc] Hp Ec Hcur Hne Hcase. unfold members in Hp. rewrite elem_all in Hp by done.
  unfold pipe_terminated. destruct (Z.ltb_spec (index (pipes l) p) (active l)).
  - destruct (swap_spec (pipes l) (index (pipes l) p) (active l - 1)) as (a & E & Hsw);
      [done|destruct (elem_index _ p Ha Hp); lia|lia|].
    destruct (turn_kept (pipes l) a (active l) (current l) p c Ha Hp) as [G Gl]; try done; try lia; try tauto.
    rewrite E. cbn [obind pipes active current more dropping].
    destruct (erase a p) as [a2|] eqn:Ee; simpl; [|done]. injection 1 as <-. simpl.
    apply (erase_get a a2 p c _); [apply Hsw|by apply (swaps_elem _ _ _ _ p Hsw)|done|done|].
    rewrite (swaps_at _ _ _ _ p Hsw) by done. done.
  - cbn [obind pipes active current more dropping].
    destruct (erase (pipes l) p) as [a2|] eqn:Ee; simpl; [|done]. injection 1 as <-. simpl.
    apply (erase_get (pipes l) a2 p c _); try done. lia.
Qed.

(** Between two messages, [sendpipe] offers the part to the active pipes in some
    order that starts with the current one, until one takes it; only that pipe is
    flushed, and only at the end of a message; the pipes that refused become passive;
    if all refuse the message is left to the caller with [EAGAIN]. *)
Theorem sendpipe_exact {W} `{PipeOps W} msg l (e : env W) :
  lb_ok l -> more l = false -> dropping l = false ->
  exists ps, NoDup ps /\ (forall x, x ∈ ps <-> x ∈ actives l) /\
    (0 < active l -> exists c ps', get (pipes l) (current l) = Done c /\ ps = c :: ps') /\
    exists w' refused r l', try_write msg ps (e_pipes e) = (w', refused, r) /\
      match r with
      | Some p => sendpipe msg l e = Done (Env (e_mem e) (flushed msg p w'), (0, Msg.init, Some p, l')) /\
          took msg l l' refused p
      | None => sendpipe msg l e = Done (Env (e_mem e) w', (-1, msg, None, l')) /\
          lb_ok l' /\ actives l' = ∅ /\ members l' = members l /\ same_mode l l'
      end.
Proof. apply sendpipe_spec. Qed.

(** In the middle of a message only the current pipe is written to; if it refuses
    it is rolled back, the message is left to the caller with [EAGAIN] and the
    balancer is between two messages; while dropping, no pipe is touched, the part is
    closed, and the last part ends the dropping. *)
Theorem sendpipe_continues {W} `{PipeOps W} msg l p (e : env W) :
  lb_ok l -> more l = true -> 0 < active l -> get (pipes l) (current l) = Done p ->
  if dropping l then
    sendpipe msg l e =
      let* (e', m) := close_init msg e in
      Done (e', (0, m, None, Lb (pipes l) (active l) (current l) (msg_more msg) (msg_more msg)))
  else
    let (w', ok) := pipe_write p msg (e_pipes e) in
    if ok then exists l', sendpipe msg l e = Done (Env (e_mem e) (flushed msg p w'), (0, Msg.init, Some p, l')) /\
      took msg l l' [] p
    else sendpipe msg l e = Done (Env (e_mem e) (pipe_rollback p w'),
           (-1, msg, None, Lb (pipes l) (active l) (current l) false (dropping l))).
Proof.
  intros Hl Hm Hpos Ep. destruct (dropping l) eqn:Hd.
  - unfold sendpipe. rewrite Hd. unfold sbind. by destruct (close_init msg e) as [[e' m]|].
  - pose proof (sendpipe_more_spec msg l p e Hl Hm Hd Hpos Ep) as Hs. by rewrite Hd in Hs.
Qed.

(** Along any sequence of sends that succeed, the parts of a message are taken by
    one pipe. *)
Theorem lb_parts_together {W} `{PipeOps W} ms l (e e' : env W) ps l' :
  good l -> send_many ms l e = Done (e', (ps, l')) -> together (turn l) ps.
Proof. apply send_many_together. Qed.

(** Load balancing is fair: as long as a pipe stays active and takes nothing,
    fewer messages are completed by the others than there are active pipes. *)
Theorem lb_fair {W} `{PipeOps W} ms l (e e' : env W) ps l' x :
  good l -> send_many ms l e = Done (e', (ps, l')) -> length ps = length ms -> x ∈ actives l' ->
  (forall m, (m, x) ∉ ps) -> completed ps < active l.
Proof.
  intros Hl E Hlen Hx Hno. destruct (send_many_waits ms l e e' ps l' x Hl E Hlen Hx Hno) as (I & Hw & [Hl' _]).
  assert (Hb : forall l0, lb_ok l0 -> x ∈ actives l0 -> 0 <= waits l0 x < active l0).
  { intros l0 [Ha Hs Hc] Hi. apply ahead_bound; [done| |done]. unfold actives in Hi.
    rewrite elem_seg in Hi by done. destruct Hi as [Hi Hlt]. destruct (elem_index _ x Ha Hi). lia. }
  pose proof (Hb l (proj1 Hl) I). pose proof (Hb l' Hl' Hx). lia.
Qed.

(** [attach], [activated] and [pipe_terminated] are done, keep the invariant and
    change the active pipes and the members by exactly the pipe named; if the pipe of
    an unfinished message terminates, its remaining parts are to be dropped, and if
    another pipe terminates the turn does not move, except when the turn is with the
    last active pipe and the one that terminates is active and not the first. *)
Theorem lb_membership l p :
  lb_ok l -> size (pipes l) + 1 < 2 ^ 31 ->
  (p ∉ members l -> exists l', attach p l = Done l' /\ lb_ok l' /\
     actives l' = {[p]} ∪ actives l /\ members l' = {[p]} ∪ members l /\ same_mode l l') /\
  (p ∈ members l -> p ∉ actives l -> exists l', activated p l = Done l' /\ lb_ok l' /\
     actives l' = {[p]} ∪ actives l /\ members l' = members l /\ same_mode l l') /\
  (p ∈ members l -> exists l', pipe_terminated p l = Done l' /\ lb_ok l' /\
     actives l' = actives l ∖ {[p]} /\ members l' = members l ∖ {[p]} /\ more l' = more l /\
     (forall c, get (pipes l) (current l) = Done c -> current l < active l ->
        (c = p -> more l = true -> dropping l' = true) /\
        (c <> p -> dropping l' = dropping l /\
           (current l <> active l - 1 \/ index (pipes l) p = 0 \/ active l <= index (pipes l) p ->
            get (pipes l') (current l') = Done c)))).
Proof.
  intros Hl Hs. pose proof Hl as [Ha _ _]. split_and!.
  - intros Hp. by apply lb_attach_spec.
  - intros Hp Hn. by apply lb_activated_spec.
  - intros Hp. destruct (lb_pipe_terminated_spec p l Hl Hp) as (l' & E & ? & ? & ? & ? & Ed). exists l'.
    do 5 (split; [done|]). intros c Ec Hcur. destruct (get_item _ _ c Ha Ec) as (Hin & Ic & _).
    split.
    + intros -> Hm. rewrite Ed, Ic, Z.eqb_refl, Hm. done.
    + intros Hne. split; [|intros Hcase; by apply (pipe_terminated_turn p c l l')].
      rewrite Ed. destruct (Z.eqb_spec (index (pipes l) p) (current l)) as [Ep|]; [|done].
      unfold members in Hp. rewrite elem_all in Hp by done.
      pose proof (get_index _ p Ha Hp) as G. rewrite Ep, Ec in G. congruence.
Qed.

(** [has_out] answers at once in the middle of a message; otherwise it removes
    full pipes from the active ones, answers no only when none is left, and never
    makes an active pipe wait longer. *)
Theorem has_out_exact {W} `{PipeOps W} l (e : env W) :
  lb_ok l ->
  exists w' b l', has_out l e = Done (Env (e_mem e) w', (b, l')) /\ lb_ok l' /\
    (more l = true -> b = true /\ l' = l) /\
    (more l = false -> members l' = members l /\ same_mode l l' /\ (b = false -> actives l' = ∅) /\
       (b = true -> 0 < active l') /\ actives l' ⊆ actives l /\
       forall x, x ∈ actives l' -> waits l' x <= waits l x).
Proof.
  intros Hl. unfold has_out. destruct (more l) eqn:Em.
  - exists (e_pipes e), true, l. by destruct e.
  - destruct (has_out_loop_spec (Z.to_nat (active l)) l e Hl) as
      (w' & b & l' & -> & ? & ? & ? & ? & ? & ? & ?); [destruct Hl; lia|].
    by exists w', b, l'.
Qed.

(** ** Three pipes with room *)

Definition sample : outcome lb :=
  let* l := attach 4 lb_new in
  let* l := attach 5 l in
  attach 6 l.

Definition sample_lb : lb := Eval vm_compute in match sample with Done l => l | Crash => lb_new end.

Definition part (d : list Z) (b : bool) : Msg.msg :=
  let m := Msg.set_body (Msg.Vsm d) Msg.init in if b then Msg.set_flags Msg.more m else m.

Definition sample_env : env Boxes.boxes :=
  Env (Msg.Memory ∅ 0 ∅ [])
      {[ 4%nat := Boxes.Box 9 [] 0 []; 5%nat := Boxes.Box 0 [] 0 []; 6%nat := Boxes.Box 9 [] 0 [] ]}.

(** Pipe 5 is full and is passed over; the parts 2 and 3 of one message stay together. *)
Example sample_sends :
  match send_many [part [1] false; part [2] true; part [3] false; part [4] false] sample_lb sample_env with
  | Done (_, (ps, _)) => map (fun mp => (Msg.u mp.1, mp.2)) ps
  | Crash => []
  end = [(Msg.Vsm [1], 4%nat); (Msg.Vsm [2], 6%nat); (Msg.Vsm [3], 6%nat); (Msg.Vsm [4], 4%nat)].
Proof. vm_compute. reflexivity. Qed.

(** With three pipes that have room, two messages go to pipes 4 and 5, and the first
    part of a third to pipe 6; then pipe 5 terminates and the last part is sent. *)
Definition split_run : stm (env Boxes.boxes) (list (Msg.msg * nat)) :=
  let! (ps, l) := send_many [part [1] false; part [2] false; part [3] true] sample_lb in
  let! l := slift (pipe_terminated 5 l) in
  let! (ps', _) := send_many [part [4] false] l in
  sret (ps ++ ps').

Definition roomy_env : env Boxes.boxes :=
  Env (Msg.Memory ∅ 0 ∅ [])
      {[ 4%nat := Boxes.Box 9 [] 0 []; 5%nat := Boxes.Box 9 [] 0 []; 6%nat := Boxes.Box 9 [] 0 [] ]}.

(** When the turn is with the last active pipe, in the middle of a message, the
    termination of another pipe moves the turn: the end of the message is written to
    a pipe that did not get its beginning. *)
Theorem lb_termination_splits_message :
  match split_run roomy_env with
  | Done (_, ps) => map (fun mp => (Msg.u mp.1, msg_more mp.1, mp.2)) ps
  | Crash => []
  end = [(Msg.Vsm [1], false, 4%nat); (Msg.Vsm [2], false, 5%nat); (Msg.Vsm [3], true, 6%nat);
         (Msg.Vsm [4], false, 4%nat)].
Proof. vm_compute. reflexivity. Qed.

Lemma lb_sample_ok : lb_ok sample_lb.
Proof.
  split; simpl; [|unfold size; simpl; lia|lia]. split; [|reflexivity]. simpl.
  intros [|[|[|i]]] p E; simpl in E; simplify_eq; reflexivity.
Qed.

Lemma lb_sample_good : good sample_lb.
Proof. split; [apply lb_sample_ok|split; [done|by vm_compute]]. Qed.

Lemma sendpipe_exact_witness :
  lb_ok sample_lb /\ more sample_lb = false /\ dropping sample_lb = false /\
  exists ps w' refused r, NoDup ps /\ try_write (part [1] false) ps (e_pipes sample_env) = (w', refused, r).
Proof.
  split; [apply lb_sample_ok|]. split; [reflexivity|]. split; [reflexivity|].
  destruct (sendpipe_exact (part [1] false) sample_lb sample_env lb_sample_ok eq_refl eq_refl)
    as (ps & Hnd & _ & _ & w' & sk & r & l' & E1 & _).
  exists ps, w', sk, r. split; [exact Hnd|exact E1].
Defined.

Definition middle : lb := Lb (pipes sample_lb) 3 0 true false.

Lemma middle_ok : lb_ok middle.
Proof. destruct lb_sample_ok. split; simpl; [done|unfold size; simpl; lia|lia]. Qed.

Lemma sendpipe_continues_witness :
  lb_ok middle /\ more middle = true /\ 0 < active middle /\
  exists p l', get (pipes middle) (current middle) = Done p /\ took (part [2] false) middle l' [] p.
Proof.
  split; [apply middle_ok|]. split; [reflexivity|]. split; [reflexivity|].
  exists 4%nat.
  pose proof (sendpipe_continues (part [2] false) middle 4 sample_env middle_ok eq_refl eq_refl eq_refl) as Hc.
  destruct Hc as (l' & E & T). exists l'. split; [reflexivity|exact T].
Defined.

Definition parts3 : list Msg.msg := [part [1] false; part [2] true; part [3] false].

Lemma lb_parts_together_witness :
  exists e' ps l', good sample_lb /\ send_many parts3 sample_lb sample_env = Done (e', (ps, l')) /\
    length ps = 3%nat /\ together (turn sample_lb) ps.
Proof.
  eexists _, _, _. split; [exact lb_sample_good|]. split; [vm_compute; reflexivity|]. split; [reflexivity|].
  eapply (lb_parts_together parts3 sample_lb sample_env); [exact lb_sample_good|vm_compute; reflexivity].
Defined.

Definition parts1 : list Msg.msg := [part [1] false].

Lemma lb_fair_witness :
  exists e' ps l', good sample_lb /\ send_many parts1 sample_lb sample_env = Done (e', (ps, l')) /\
    6%nat ∈ actives l' /\ completed ps = 1 /\ completed ps < active sample_lb.
Proof.
  eexists _, _, _. split; [exact lb_sample_good|]. split; [vm_compute; reflexivity|].
  split; [apply (bool_decide_unpack _); vm_compute; exact I|]. split; [reflexivity|].
  eapply (lb_fair parts1 sample_lb sample_env _ _ _ 6%nat);
    [exact lb_sample_good|vm_compute; reflexivity|reflexivity|apply (bool_decide_unpack _); vm_compute; exact I|].
  intros m Hm. rewrite !elem_of_cons in Hm. destruct Hm as [Hm|Hm]; [discriminate|].
  by apply elem_of_nil in Hm.
Defined.

Lemma lb_membership_witness :
  lb_ok sample_lb /\ size (pipes sample_lb) + 1 < 2 ^ 31 /\ 5%nat ∈ members sample_lb /\
  exists l', pipe_terminated 5 sample_lb = Done l' /\ actives l' = actives sample_lb ∖ {[5%nat]}.
Proof.
  assert (H5 : 5%nat ∈ members sample_lb) by (apply (bool_decide_unpack _); vm_compute; exact I).
  split; [apply lb_sample_ok|]. split; [reflexivity|]. split; [exact H5|].
  destruct (proj2 (proj2 (lb_membership sample_lb 5 lb_sample_ok eq_refl)) H5) as (l' & E1 & E2 & E3 & _).
  exists l'. split; [exact E1|exact E3].
Defined.

Lemma has_out_exact_witness :
  lb_ok sample_lb /\ exists w' b l', has_out sample_lb sample_env = Done (Env (e_mem sample_env) w', (b, l')) /\ lb_ok l'.
Proof.
  split; [apply lb_sample_ok|].
  destruct (has_out_exact sample_lb sample_env lb_sample_ok) as (w' & b & l' & E1 & E2 & _).
  exists w', b, l'. split; [exact E1|exact E2].
Defined.
End Lb.
