(* ===== verification/Dealer.v ===== *)
(** * Dealer: dealer_t, push_t, pull_t and pair_t (libzmq/src/dealer.cpp, push.cpp, pull.cpp, pair.cpp)

    A DEALER socket reads its pipes with a [Fq] and writes to them with a [Lb]; a PUSH and a
    PULL socket do one of the two; a PAIR socket has one pipe.  The theorems on DEALER are
    those of [Fq] and [Lb], and what REQ makes of them ([Req]). *)

From S2P Require Import Prelude Msg Pipes Array Fq Lb.

Module Dealer.

Record dealer : Type := Dealer { fq : Fq.fq; lb : Lb.lb; probe_router : bool }.

Definition dealer_new : dealer := Dealer Fq.fq_new Lb.lb_new false.

Definition set_fq (q : Fq.fq) (x : dealer) : dealer := Dealer q (lb x) (probe_router x).
Definition set_lb (l : Lb.lb) (x : dealer) : dealer := Dealer (fq x) l (probe_router x).

Section Env.
Context {W : Type} `{PipeOps W}.

(** The probe is a message of size zero; whether the pipe takes it does not matter. *)
Definition xattach_pipe (pipe : nat) (x : dealer) : stm (env W) dealer :=
  (if probe_router x then
     on_pipes (pipe_write pipe Msg.init) ;;;
     on_pipes (fun w => (pipe_flush pipe w, tt)) ;;;
     let! (rc, _) := on_mem (Msg.close Msg.init) in sassert (rc =? 0)
   else sret tt) ;;;
  let! q := slift (Fq.attach pipe (fq x)) in
  let! l := slift (Lb.attach pipe (lb x)) in
  sret (Dealer q l (probe_router x)).

(** [ZMQ_PROBE_ROUTER], with an integer; other options are refused. *)
Definition xsetsockopt (is_probe : bool) (value : option Z) (x : dealer) : option errno * dealer :=
  match value with
  | Some v => if is_probe && (0 <=? v) then (None, Dealer (fq x) (lb x) (negb (v =? 0))) else (Some EINVAL, x)
  | None => (Some EINVAL, x)
  end.

Definition sendpipe (msg : Msg.msg) (x : dealer) : stm (env W) (Z * Msg.msg * option nat * dealer) :=
  let! (rc, m, p, l) := Lb.sendpipe msg (lb x) in sret (rc, m, p, set_lb l x).

Definition recvpipe (msg : Msg.msg) (x : dealer) : stm (env W) (Z * Msg.msg * option nat * dealer) :=
  let! (rc, m, p, q) := Fq.recvpipe msg (fq x) in sret (rc, m, p, set_fq q x).

Definition xsend (msg : Msg.msg) (x : dealer) : stm (env W) (Z * Msg.msg * dealer) :=
  let! (rc, m, _, x) := sendpipe msg x in sret (rc, m, x).

Definition xrecv (msg : Msg.msg) (x : dealer) : stm (env W) (Z * Msg.msg * dealer) :=
  let! (rc, m, _, x) := recvpipe msg x in sret (rc, m, x).

Definition xhas_in (x : dealer) : stm (env W) (bool * dealer) :=
  let! (b, q) := Fq.has_in (fq x) in sret (b, set_fq q x).

Definition xhas_out (x : dealer) : stm (env W) (bool * dealer) :=
  let! (b, l) := Lb.has_out (lb x) in sret (b, set_lb l x).

Definition get_credential (x : dealer) (w : W) : list Z := Fq.get_credential (fq x) w.

Definition xread_activated (pipe : nat) (x : dealer) : outcome dealer :=
  let* q := Fq.activated pipe (fq x) in Done (set_fq q x).

Definition xwrite_activated (pipe : nat) (x : dealer) : outcome dealer :=
  let* l := Lb.activated pipe (lb x) in Done (set_lb l x).

Definition xpipe_terminated (pipe : nat) (x : dealer) : stm (env W) dealer :=
  let! q := Fq.pipe_terminated pipe (fq x) in
  let! l := slift (Lb.pipe_terminated pipe (lb x)) in
  sret (Dealer q l (probe_router x)).

(** *** push_t and pull_t *)

Definition push_attach_pipe (pipe : nat) (l : Lb.lb) : stm (env W) Lb.lb :=
  on_pipes (fun w => (pipe_set_nodelay pipe w, tt)) ;;; slift (Lb.attach pipe l).
Definition push_send (msg : Msg.msg) (l : Lb.lb) : stm (env W) (Z * Msg.msg * Lb.lb) := Lb.send msg l.
Definition push_has_out (l : Lb.lb) : stm (env W) (bool * Lb.lb) := Lb.has_out l.
Definition push_write_activated (pipe : nat) (l : Lb.lb) : outcome Lb.lb := Lb.activated pipe l.
Definition push_pipe_terminated (pipe : nat) (l : Lb.lb) : outcome Lb.lb := Lb.pipe_terminated pipe l.

Definition pull_attach_pipe (pipe : nat) (q : Fq.fq) : outcome Fq.fq := Fq.attach pipe q.
Definition pull_recv (msg : Msg.msg) (q : Fq.fq) : stm (env W) (Z * Msg.msg * Fq.fq) := Fq.recv msg q.
Definition pull_has_in (q : Fq.fq) : stm (env W) (bool * Fq.fq) := Fq.has_in q.
Definition pull_read_activated (pipe : nat) (q : Fq.fq) : outcome Fq.fq := Fq.activated pipe q.
Definition pull_pipe_terminated (pipe : nat) (q : Fq.fq) : stm (env W) Fq.fq := Fq.pipe_terminated pipe q.

(** *** pair_t *)

Record pair : Type := Pair { pipe : option nat; last_in : option nat; saved_credential : list Z }.

Definition pair_new : pair := Pair None None [].

(** A second pipe is told to terminate: it is in the result. *)
Definition pair_attach_pipe (pipe_ : nat) (x : pair) : pair * option nat :=
  match pipe x with
  | None => (Pair (Some pipe_) (last_in x) (saved_credential x), None)
  | Some _ => (x, Some pipe_)
  end.

Definition pair_pipe_terminated (pipe_ : nat) (x : pair) : stm (env W) pair :=
  if decide (pipe x = Some pipe_) then
    if decide (last_in x = Some pipe_) then
      let! e := sget in sret (Pair None None (pipe_credential pipe_ (e_pipes e)))
    else sret (Pair None (last_in x) (saved_credential x))
  else sret x.

Definition pair_send (msg : Msg.msg) (x : pair) : stm (env W) (option errno * Msg.msg * pair) :=
  match pipe x with
  | None => sret (Some EAGAIN, msg, x)
  | Some p =>
      let! ok := on_pipes (pipe_write p msg) in
      if negb ok then sret (Some EAGAIN, msg, x)
      else
        (if negb (msg_more msg) then on_pipes (fun w => (pipe_flush p w, tt)) else sret tt) ;;;
        sret (None, Msg.init, x)
  end.

Definition pair_recv (msg : Msg.msg) (x : pair) : stm (env W) (option errno * Msg.msg * pair) :=
  let! (rc, _) := on_mem (Msg.close msg) in
  sassert (rc =? 0) ;;;
  match pipe x with
  | None => sret (Some EAGAIN, Msg.init, x)
  | Some p =>
      let! r := on_pipes (pipe_read p) in
      match r with
      | None => sret (Some EAGAIN, Msg.init, x)
      | Some m => sret (None, m, Pair (pipe x) (pipe x) (saved_credential x))
      end
  end.

Definition pair_has_in (x : pair) : stm (env W) bool :=
  match pipe x with None => sret false | Some p => on_pipes (pipe_check_read p) end.

Definition pair_has_out (x : pair) : stm (env W) bool :=
  match pipe x with None => sret false | Some p => on_pipes (pipe_check_write p) end.

Definition pair_get_credential (x : pair) (w : W) : list Z :=
  match last_in x with Some p => pipe_credential p w | None => saved_credential x end.

(** ** A pair has one peer *)

Inductive pair_event : Type := Attach (pipe : nat) | Terminated (pipe : nat).

(** The pipes that are attached, in order, and the one that is used: the first, until it goes; then none of those that
    were refused, but the next that comes. *)
Definition pair_step (v : pair_event) (s : option nat * list nat) : option nat * list nat :=
  match v with
  | Attach p => match s.1 with None => (Some p, s.2) | Some _ => (s.1, s.2 ++ [p]) end
  | Terminated p => if decide (s.1 = Some p) then (None, s.2) else s
  end.

Fixpoint pair_events (vs : list pair_event) (x : pair) (refused : list nat) : stm (env W) (pair * list nat) :=
  match vs with
  | [] => sret (x, refused)
  | Attach p :: vs => let (x, r) := pair_attach_pipe p x in pair_events vs x (refused ++ option_list r)
  | Terminated p :: vs => let! x := pair_pipe_terminated p x in pair_events vs x refused
  end.

Lemma pair_events_spec vs : forall x refused (e : env W),
  (forall p, last_in x = Some p -> pipe x = Some p) ->
  exists x', pair_events vs x refused e = Done (e, (x', (fold_left (fun s v => pair_step v s) vs (pipe x, refused)).2))
    /\ pipe x' = (fold_left (fun s v => pair_step v s) vs (pipe x, refused)).1
    /\ (forall p, last_in x' = Some p -> pipe x' = Some p).
Proof.
  induction vs as [|[p|p] vs IH]; intros x refused e Hl; [by exists x| |]; cbn [pair_events fold_left].
  - unfold pair_attach_pipe, pair_step at 2 4. simpl. destruct (pipe x) as [q|] eqn:Eq.
    + destruct (IH x (refused ++ [p]) e) as (x' & E & ? & ?); [by rewrite Eq|]. rewrite Eq in *. by exists x'.
    + destruct (IH (Pair (Some p) (last_in x) (saved_credential x)) (refused ++ []) e) as (x' & E & ? & ?).
      { simpl. intros q Hq. by specialize (Hl q Hq). }
      rewrite app_nil_r in *. by exists x'.
  - unfold pair_step at 2 4. simpl. unfold pair_pipe_terminated. destruct (decide (pipe x = Some p)) as [Ep|Ep].
    + destruct (decide (last_in x = Some p)) as [Ei|Ei].
      * destruct (IH (Pair None None (pipe_credential p (e_pipes e))) refused e) as (x' & E & ? & ?); [done|]. by exists x'.
      * destruct (IH (Pair None (last_in x) (saved_credential x)) refused e) as (x' & E & ? & ?); [|by exists x'].
        simpl. intros q Hq. specialize (Hl q Hq). congruence.
    + destruct (IH x refused e Hl) as (x' & E & ? & ?). by exists x'.
Qed.
End Env.

(** A PAIR socket talks to one peer.  Whatever pipes come and go, it uses the first that was attached, until that
    one goes, and then the next that comes; every other pipe is told to terminate. *)
Theorem pair_has_one_peer {W} `{PipeOps W} vs (e : env W) :
  exists x, pair_events vs pair_new [] e = Done (e, (x, (fold_left (fun s v => pair_step v s) vs (None, [])).2)) /\
    pipe x = (fold_left (fun s v => pair_step v s) vs (None, [])).1.
Proof. destruct (pair_events_spec vs pair_new [] e) as (x & E & Ep & _); [done|]. by exists x. Qed.
End Dealer.
