(* ===== verification/Req.v ===== *)
(** * Req: req_t and req_session_t (libzmq/src/req.cpp)

    A REQ socket is a DEALER socket that sends a request, then receives its reply.  A request
    is sent behind an empty frame, and behind the number of the request when that is asked
    for; a reply must come from the pipe that took the request and have the same frames, and
    what does not is skipped.  The session of a REQ socket lets only such messages through. *)

From S2P Require Import Prelude Msg Pipes Array Fq Lb Xsub Dealer.

Module Req.

Inductive errno : Type := EAGAIN | EFSM | EINVAL | EFAULT.

Record req : Type := Req {
  dealer : Dealer.dealer;
  receiving_reply : bool;
  message_begins : bool;
  reply_pipe : option nat;
  request_id_frames_enabled : bool;
  request_id : Z;
  strict : bool
}.

(** The first request number is random. *)
Definition req_new (random : Z) : req := Req Dealer.dealer_new false true None false random true.

Definition with_dealer (d : Dealer.dealer) (x : req) : req :=
  Req d (receiving_reply x) (message_begins x) (reply_pipe x) (request_id_frames_enabled x) (request_id x) (strict x).
Definition with_fsm (receiving begins : bool) (x : req) : req :=
  Req (dealer x) receiving begins (reply_pipe x) (request_id_frames_enabled x) (request_id x) (strict x).
Definition with_reply (p : option nat) (x : req) : req :=
  Req (dealer x) (receiving_reply x) (message_begins x) p (request_id_frames_enabled x) (request_id x) (strict x).
Definition with_id (z : Z) (x : req) : req :=
  Req (dealer x) (receiving_reply x) (message_begins x) (reply_pipe x) (request_id_frames_enabled x) z (strict x).

(** A [uint32_t] in memory, on a little-endian machine. *)
Definition native32 (z : Z) : list Z := [z mod 256; z / 256 mod 256; z / 65536 mod 256; z / 16777216 mod 256].

(** The deallocator of the number. *)
Definition free_id : nat := 1.

Section Env.
Context {W : Type} `{PipeOps W}.

(** *** Sending *)

(** [dealer_t::sendpipe (&msg, &reply_pipe)]; the pipe is stored when a pipe took the message. *)
Definition sendpipe_reply (msg : Msg.msg) (x : req) : stm (env W) (Z * req) :=
  let! (rc, _, p, d) := Dealer.sendpipe msg (dealer x) in
  let x := with_dealer d x in
  sret (rc, match p with Some _ => with_reply p x | None => x end).

Definition send_id (x : req) : stm (env W) (Z * req) :=
  if request_id_frames_enabled x then
    let x := with_id (u32 (request_id x + 1)) x in
    let! (rc, id) := on_mem (Msg.init_data (fun _ => true) (native32 (request_id x)) (Some free_id)) in
    sassert (rc =? 0) ;;;
    sendpipe_reply (Msg.set_flags Msg.more id) x
  else sret (0, x).

(** "Eat all currently available messages"; one unit of fuel per message, and one to see that there is none. *)
Fixpoint drop_available (fuel : nat) (d : Dealer.dealer) : stm (env W) Dealer.dealer :=
  match fuel with
  | O => scrash
  | S fuel =>
      let! (rc, drop, d) := Dealer.xrecv Msg.init d in
      if negb (rc =? 0) then sret d
      else on_mem (Msg.close drop) ;;; drop_available fuel d
  end.

(** The first part of a request: whether it was sent. *)
Definition begin_request (fuel : nat) (x : req) : stm (env W) (bool * req) :=
  let! (rc, x) := send_id (with_reply None x) in
  if negb (rc =? 0) then sret (false, x)
  else
    let! (rc, x) := sendpipe_reply (Msg.set_flags Msg.more Msg.init) x in
    if negb (rc =? 0) then sret (false, x)
    else
      sassert (bool_decide (is_Some (reply_pipe x))) ;;;
      let x := with_fsm (receiving_reply x) false x in
      let! d := drop_available fuel (dealer x) in
      sret (true, with_dealer d x).

Definition send_part (msg : Msg.msg) (x : req) : stm (env W) (option errno * Msg.msg * req) :=
  let more := msg_more msg in
  let! (rc, msg, d) := Dealer.xsend msg (dealer x) in
  let x := with_dealer d x in
  if negb (rc =? 0) then sret (Some EAGAIN, msg, x)
  else sret (None, msg, if negb more then with_fsm true true x else x).

Definition xsend (fuel : nat) (msg : Msg.msg) (x : req) : stm (env W) (option errno * Msg.msg * req) :=
  if receiving_reply x && strict x then sret (Some EFSM, msg, x)
  else
    let x := if receiving_reply x then with_fsm false true x else x in
    if message_begins x then
      let! (sent, x) := begin_request fuel x in
      if sent then send_part msg x else sret (Some EAGAIN, msg, x)
    else send_part msg x.

(** *** Receiving *)

Fixpoint recv_reply_pipe (fuel : nat) (msg : Msg.msg) (x : req) : stm (env W) (Z * Msg.msg * req) :=
  match fuel with
  | O => scrash
  | S fuel =>
      let! (rc, msg, p, d) := Dealer.recvpipe msg (dealer x) in
      let x := with_dealer d x in
      if negb (rc =? 0) then sret (rc, msg, x)
      else if bool_decide (reply_pipe x = None) || bool_decide (p = reply_pipe x) then sret (0, msg, x)
      else recv_reply_pipe fuel msg x
  end.

(** "Skip the remaining frames" *)
Fixpoint skip_frames (fuel : nat) (msg : Msg.msg) (x : req) : stm (env W) (Msg.msg * req) :=
  if msg_more msg then
    match fuel with
    | O => scrash
    | S fuel =>
        let! (rc, msg, x) := recv_reply_pipe (S fuel) msg x in
        sassert (rc =? 0) ;;; skip_frames fuel msg x
    end
  else sret (msg, x).

(** A frame with these bytes that is not the last one of its message. *)
Definition frame_is (d : list Z) (msg : Msg.msg) : stm (env W) bool :=
  if negb (msg_more msg) then sret false
  else let! d' := on_mem (Msg.data msg) in sret (bool_decide (d' = d)).

Inductive verdict : Type := NoFrame | Skipped | Passed.

(** The next frame is [d], or its message is skipped. *)
Definition expect (fuel : nat) (d : list Z) (msg : Msg.msg) (x : req) : stm (env W) (verdict * Msg.msg * req) :=
  let! (rc, msg, x) := recv_reply_pipe fuel msg x in
  if negb (rc =? 0) then sret (NoFrame, msg, x)
  else
    let! ok := frame_is d msg in
    if ok then sret (Passed, msg, x)
    else let! (msg, x) := skip_frames fuel msg x in sret (Skipped, msg, x).

(** [while (message_begins)]: whether the frame that follows can be received. *)
Fixpoint recv_begin (fuel : nat) (msg : Msg.msg) (x : req) : stm (env W) (bool * Msg.msg * req) :=
  if message_begins x then
    match fuel with
    | O => scrash
    | S fuel =>
        let! (v, msg, x) := (if request_id_frames_enabled x then expect (S fuel) (native32 (request_id x)) msg x
                             else sret (Passed, msg, x)) in
        match v with
        | NoFrame => sret (false, msg, x)
        | Skipped => recv_begin fuel msg x
        | Passed =>
            let! (v, msg, x) := expect (S fuel) [] msg x in
            match v with
            | NoFrame => sret (false, msg, x)
            | Skipped => recv_begin fuel msg x
            | Passed => sret (true, msg, with_fsm (receiving_reply x) false x)
            end
        end
    end
  else sret (true, msg, x).

Definition xrecv (fuel : nat) (msg : Msg.msg) (x : req) : stm (env W) (option errno * Msg.msg * req) :=
  if negb (receiving_reply x) then sret (Some EFSM, msg, x)
  else
    let! (ok, msg, x) := recv_begin fuel msg x in
    if negb ok then sret (Some EAGAIN, msg, x)
    else
      let! (rc, msg, x) := recv_reply_pipe fuel msg x in
      if negb (rc =? 0) then sret (Some EAGAIN, msg, x)
      else sret (None, msg, if negb (msg_more msg) then with_fsm false true x else x).

Definition xhas_in (x : req) : stm (env W) (bool * req) :=
  if negb (receiving_reply x) then sret (false, x)
  else let! (b, d) := Dealer.xhas_in (dealer x) in sret (b, with_dealer d x).

Definition xhas_out (x : req) : stm (env W) (bool * req) :=
  if receiving_reply x && strict x then sret (false, x)
  else let! (b, d) := Dealer.xhas_out (dealer x) in sret (b, with_dealer d x).

Inductive option_name : Type := ZMQ_REQ_CORRELATE | ZMQ_REQ_RELAXED | ZMQ_PROBE_ROUTER | Other.

(** [value] is the integer, when the option has the size of one. *)
Definition xsetsockopt (option_ : option_name) (value : option Z) (x : req) : option errno * req :=
  let base := let (rc, d) := Dealer.xsetsockopt (if option_ is ZMQ_PROBE_ROUTER then true else false) value (dealer x) in
              (match rc with Some _ => Some EINVAL | None => None end, with_dealer d x) in
  match option_, value with
  | ZMQ_REQ_CORRELATE, Some v =>
      if 0 <=? v then (None, Req (dealer x) (receiving_reply x) (message_begins x) (reply_pipe x) (negb (v =? 0)) (request_id x) (strict x))
      else base
  | ZMQ_REQ_RELAXED, Some v =>
      if 0 <=? v then (None, Req (dealer x) (receiving_reply x) (message_begins x) (reply_pipe x) (request_id_frames_enabled x) (request_id x) (v =? 0))
      else base
  | _, _ => base
  end.

Definition xattach_pipe (pipe : nat) (x : req) : stm (env W) req :=
  let! d := Dealer.xattach_pipe pipe (dealer x) in sret (with_dealer d x).

Definition xread_activated (pipe : nat) (x : req) : outcome req :=
  let* d := Dealer.xread_activated pipe (dealer x) in Done (with_dealer d x).

Definition xwrite_activated (pipe : nat) (x : req) : outcome req :=
  let* d := Dealer.xwrite_activated pipe (dealer x) in Done (with_dealer d x).

Definition xpipe_terminated (pipe : nat) (x : req) : stm (env W) req :=
  let x := if bool_decide (reply_pipe x = Some pipe) then with_reply None x else x in
  let! d := Dealer.xpipe_terminated pipe (dealer x) in sret (with_dealer d x).
End Env.

(** ** req_session_t *)

Module Session.

Inductive state_t : Type := bottom | request_id | body.

Section Push.
(** [session_base_t::push_msg], which writes to the pipe of the session: refused with [EAGAIN], or done. *)
Context {E : Type} (base_push : Msg.msg -> stm E (option errno * Msg.msg)).
(** The size of a message. *)
Context (size : Msg.msg -> stm E Z).

Definition refuse (msg : Msg.msg) (s : state_t) : stm E (option errno * Msg.msg * state_t) := sret (Some EFAULT, msg, s).

Definition pass (msg : Msg.msg) (s : state_t) : stm E (option errno * Msg.msg * state_t) :=
  let! (rc, msg) := base_push msg in sret (rc, msg, s).

Definition push_msg (msg : Msg.msg) (s : state_t) : stm E (option errno * Msg.msg * state_t) :=
  match s with
  | bottom =>
      if Msg.flags msg =? Msg.more then
        let! n := size msg in
        if n =? 4 then pass msg request_id
        else
          let! n := size msg in
          if n =? 0 then pass msg body else refuse msg s
      else refuse msg s
  | request_id =>
      if Msg.flags msg =? Msg.more then
        let! n := size msg in
        if n =? 0 then pass msg body else refuse msg s
      else refuse msg s
  | body =>
      if Msg.flags msg =? Msg.more then pass msg body
      else if Msg.flags msg =? 0 then pass msg bottom
      else refuse msg s
  end.
End Push.

Definition reset (s : state_t) : state_t := bottom.

(** *** What a session lets through *)

(** A frame, as far as the session looks: its flags and its size. *)
Abbreviation frame := (Z * Z)%type.

(** The state after a frame; [None] when it is refused. *)
Definition next (s : state_t) (f : frame) : option state_t :=
  match s with
  | bottom => if f.1 =? Msg.more then (if f.2 =? 4 then Some request_id else if f.2 =? 0 then Some body else None) else None
  | request_id => if (f.1 =? Msg.more) && (f.2 =? 0) then Some body else None
  | body => if f.1 =? Msg.more then Some body else if f.1 =? 0 then Some bottom else None
  end.

Fixpoint next_all (s : state_t) (fs : list frame) : option state_t :=
  match fs with
  | [] => Some s
  | f :: fs => match next s f with Some s => next_all s fs | None => None end
  end.

(** A reply: a number or none, an empty frame, the body. *)
Inductive reply : list frame -> Prop :=
| reply_intro ids parts n :
    ids = [] \/ ids = [(Msg.more, 4)] -> Forall (fun f => f.1 = Msg.more) parts ->
    reply (ids ++ (Msg.more, 0) :: parts ++ [(0, n)]).

Inductive replies : list frame -> Prop :=
| no_reply : replies []
| more_replies f fs : reply f -> replies fs -> replies (f ++ fs).

Lemma req_next_all_app s fs gs :
  next_all s (fs ++ gs) = match next_all s fs with Some s => next_all s gs | None => None end.
Proof. revert s. induction fs as [|f fs IH]; intros s; [done|]. simpl. destruct (next s f); [apply IH|done]. Qed.

Lemma next_parts parts fs : Forall (fun f => f.1 = Msg.more) parts -> next_all body (parts ++ fs) = next_all body fs.
Proof. induction 1 as [|[a n] parts Ha _ IH]; [done|]. simpl in *. by rewrite Ha. Qed.

Lemma reply_next f : reply f -> next_all bottom f = Some bottom.
Proof.
  intros [ids parts n Hids Hp]. assert (Hb : forall fs, next_all body (parts ++ [(0, n)] ++ fs) = next_all bottom fs).
  { intros fs. by rewrite (next_parts parts). }
  specialize (Hb []). rewrite app_nil_r in Hb. destruct Hids as [->| ->]; exact Hb.
Qed.

Lemma body_ends fs : next_all body fs = Some bottom ->
  exists parts n rest, fs = parts ++ (0, n) :: rest /\ Forall (fun f => f.1 = Msg.more) parts /\ next_all bottom rest = Some bottom.
Proof.
  induction fs as [|[a n] fs IH]; [done|]. simpl. destruct (Z.eqb_spec a Msg.more) as [->|Ha].
  - intros (parts & k & rest & -> & Hp & Hr)%IH. exists ((Msg.more, n) :: parts), k, rest. split; [done|]. by split; [constructor|].
  - destruct (Z.eqb_spec a 0) as [->|]; [|done]. intros Hr. by exists [], n, fs.
Qed.

Lemma next_replies n : forall fs, (length fs <= n)%nat -> next_all bottom fs = Some bottom -> replies fs.
Proof.
  induction n as [|n IH]; intros fs Hn E; [destruct fs; [constructor|simpl in Hn; lia]|].
  destruct fs as [|[a k] fs]; [constructor|]. simpl in Hn.
  assert (Hbody : forall ids gs, ids = [] \/ ids = [(Msg.more, 4)] -> (length gs <= n)%nat -> next_all body gs = Some bottom ->
    replies (ids ++ (Msg.more, 0) :: gs)).
  { intros ids gs Hids Hl (parts & j & rest & -> & Hp & Hr)%body_ends.
    replace (ids ++ (Msg.more, 0) :: parts ++ (0, j) :: rest) with ((ids ++ (Msg.more, 0) :: parts ++ [(0, j)]) ++ rest)
      by (by rewrite <- !app_assoc; simpl; rewrite <- app_assoc).
    constructor; [by constructor|]. apply IH; [|done]. rewrite length_app in Hl. simpl in Hl. lia. }
  simpl in E. destruct (Z.eqb_spec a Msg.more) as [->|]; [|done]. destruct (Z.eqb_spec k 4) as [->|].
  - destruct fs as [|[b j] fs]; [done|]. simpl in E, Hn. destruct (Z.eqb_spec b Msg.more) as [->|]; [|done].
    destruct (Z.eqb_spec j 0) as [->|]; [|done]. apply (Hbody [(Msg.more, 4)]); [by right|lia|done].
  - destruct (Z.eqb_spec k 0) as [->|]; [|done]. apply (Hbody []); [by left|lia|done].
Qed.

Lemma replies_next fs : replies fs <-> next_all bottom fs = Some bottom.
Proof.
  split; [|by apply (next_replies (length fs))].
  induction 1 as [|f fs Hf _ IH]; [done|]. by rewrite req_next_all_app, (reply_next f Hf).
Qed.

(** Every state can come to the end of a reply. *)
Lemma req_next_completes s : exists fs, next_all s fs = Some bottom.
Proof. destruct s; [by exists []|by exists [(Msg.more, 0); (0, 0)]|by exists [(0, 0)]]. Qed.

Section Language.
Context {E : Type} (base_push : Msg.msg -> stm E (option errno * Msg.msg)) (size : Msg.msg -> stm E Z).

(** Messages pushed one after the other, until one is refused. *)
Fixpoint push_all (ms : list Msg.msg) (s : state_t) : stm E (option state_t) :=
  match ms with
  | [] => sret (Some s)
  | m :: ms =>
      let! (rc, _, s) := push_msg base_push size m s in
      match rc with None => push_all ms s | Some _ => sret None end
  end.

Context (sz : Msg.msg -> Z).
Hypothesis Hsize : forall m e, size m e = Done (e, sz m).
Hypothesis Hbase : forall m e, exists e' m', base_push m e = Done (e', (None, m')).

Definition frame_of (m : Msg.msg) : frame := (Msg.flags m, sz m).

Lemma push_msg_next m s e : exists e' m',
  push_msg base_push size m s e = Done (e', match next s (frame_of m) with Some s => (None, m', s) | None => (Some EFAULT, m', s) end).
Proof.
  assert (Hpass : forall s', exists e' m', pass base_push m s' e = Done (e', (None, m', s'))).
  { intros s'. destruct (Hbase m e) as (e' & m' & E1). exists e', m'. unfold pass. by rewrite (sbind_done _ _ _ _ _ E1). }
  destruct s; unfold push_msg, next, frame_of; simpl; destruct (Msg.flags m =? Msg.more); simpl;
    rewrite ?(sbind_done _ _ _ _ _ (Hsize m e)); try (by exists e, m); try apply Hpass.
  - destruct (sz m =? 4); [apply Hpass|]. rewrite (sbind_done _ _ _ _ _ (Hsize m e)). destruct (sz m =? 0); [apply Hpass|by exists e, m].
  - destruct (sz m =? 0); [apply Hpass|by exists e, m].
  - destruct (Msg.flags m =? 0); [apply Hpass|by exists e, m].
Qed.

Lemma push_all_next ms : forall s e, exists e', push_all ms s e = Done (e', next_all s (map frame_of ms)).
Proof.
  induction ms as [|m ms IH]; intros s e; [by exists e|]. destruct (push_msg_next m s e) as (e1 & m' & E1). cbn [push_all map next_all].
  rewrite (sbind_done _ _ _ _ _ E1). destruct (next s (frame_of m)) as [s'|]; [apply IH|by exists e1].
Qed.
End Language.

(** The session of a REQ socket lets exactly the beginnings of sequences of replies through, and is at
    the beginning of a reply exactly after whole replies: a number of four bytes or none, an empty frame, parts, and
    a last part without a flag. *)
Theorem session_lets_replies_through {E} base_push size (sz : Msg.msg -> Z) (ms : list Msg.msg) (e : E) :
  (forall m e, size m e = Done (e, sz m)) -> (forall m e, exists e' m', base_push m e = Done (e', (None, m'))) ->
  exists e' r, push_all base_push size ms bottom e = Done (e', r)
    /\ (r = Some bottom <-> replies (map (frame_of sz) ms))
    /\ (r <> None <-> exists fs, replies (map (frame_of sz) ms ++ fs)).
Proof.
  intros Hsize Hbase. destruct (push_all_next base_push size sz Hsize Hbase ms bottom e) as (e' & E1). exists e', (next_all bottom (map (frame_of sz) ms)). split; [exact E1|].
  split; [by rewrite replies_next|]. split.
  - intros Hr. destruct (next_all bottom (map (frame_of sz) ms)) as [s|] eqn:En; [|done]. destruct (req_next_completes s) as (fs & Hfs).
    exists fs. rewrite replies_next, req_next_all_app, En. done.
  - intros (fs & Hfs). rewrite replies_next, req_next_all_app in Hfs. intros Hn. by rewrite Hn in Hfs.
Qed.

(** A frame that could not be pushed is refused when it is pushed again.  The session has already gone on
    to the next state: when the pipe is full as the number of a reply arrives, the same number is a protocol error once
    there is room, and the connection is closed; so it is with the last part of a body. *)
Theorem session_refuses_again {E} (base_push : Msg.msg -> stm E (option errno * Msg.msg)) size (sz : Msg.msg -> Z) m (e : E) :
  (forall m e, size m e = Done (e, sz m)) -> base_push m e = Done (e, (Some EAGAIN, m)) ->
  (Msg.flags m = Msg.more -> sz m = 4 -> exists s,
    push_msg base_push size m bottom e = Done (e, (Some EAGAIN, m, s)) /\ push_msg base_push size m s e = Done (e, (Some EFAULT, m, s)))
  /\ (Msg.flags m = 0 -> exists s,
    push_msg base_push size m body e = Done (e, (Some EAGAIN, m, s)) /\ push_msg base_push size m s e = Done (e, (Some EFAULT, m, s))).
Proof.
  intros Hsize Hbase. assert (Hpass : forall s, pass base_push m s e = Done (e, (Some EAGAIN, m, s))).
  { intros s. unfold pass. by rewrite (sbind_done _ _ _ _ _ Hbase). }
  split.
  - intros Hf Hz. exists request_id. unfold push_msg. rewrite Hf. simpl. rewrite !(sbind_done _ _ _ _ _ (Hsize m e)), Hz. simpl.
    split; [apply Hpass|done].
  - intros Hf. exists bottom. unfold push_msg. rewrite Hf. simpl. split; [apply Hpass|done].
Qed.

(** ** A session that keeps what it lets through, and one whose pipe is full *)

Definition small_size (m : Msg.msg) : Z := match Msg.u m with Msg.Vsm d => Z.of_nat (length d) | _ => 0 end.

Definition keep_push (m : Msg.msg) : stm (list Msg.msg) (option errno * Msg.msg) := fun l => Done (l ++ [m], (None, Msg.init)).

Definition full_push (m : Msg.msg) : stm (list Msg.msg) (option errno * Msg.msg) := fun l => Done (l, (Some EAGAIN, m)).

Definition frame_with (d : list Z) (flags_ : Z) : Msg.msg := Msg.set_flags flags_ (Msg.set_body (Msg.Vsm d) Msg.init).

Lemma session_lets_replies_through_witness :
  exists e' r, push_all keep_push (fun m e => Done (e, small_size m)) [frame_with [] Msg.more; frame_with [7] 0] bottom [] = Done (e', r)
    /\ (r = Some bottom <-> replies [(Msg.more, 0); (0, 1)]).
Proof.
  destruct (session_lets_replies_through keep_push (fun m e => Done (e, small_size m)) small_size
              [frame_with [] Msg.more; frame_with [7] 0] []) as (e' & r & E & Hr & _);
    [reflexivity|by intros m e; eexists _, _|]. exists e', r. split; [exact E|exact Hr].
Defined.

Lemma session_refuses_again_witness :
  exists s, push_msg full_push (fun m e => Done (e, small_size m)) (frame_with [8; 0; 0; 0] Msg.more) bottom []
      = Done ([], (Some EAGAIN, frame_with [8; 0; 0; 0] Msg.more, s)) /\
    push_msg full_push (fun m e => Done (e, small_size m)) (frame_with [8; 0; 0; 0] Msg.more) s []
      = Done ([], (Some EFAULT, frame_with [8; 0; 0; 0] Msg.more, s)).
Proof.
  apply (session_refuses_again full_push (fun m e => Done (e, small_size m)) small_size (frame_with [8; 0; 0; 0] Msg.more) []);
    reflexivity.
Defined.
End Session.
End Req.
