(* ===== verification/ReqReply.v ===== *)
(** * ReqReply: what a REQ socket receives (libzmq/src/req.cpp)

    The frames that wait in the pipes of a REQ socket are those of whole messages, in the
    order in which the fair queue gives them.  The theorem: [xrecv] passes over the messages
    that do not come from the peer that took the request, and those without the envelope of
    the request, and gives the parts of the first reply, one by one. *)

From S2P Require Import Prelude Msg Pipes Array Fq Lb Xsub Dealer Req.

Module ReqReply.
Import Req.

(** A frame that waits: the message, the pipe it comes from, its bytes. *)
Record frame : Type := Frame { f_msg : Msg.msg; f_pipe : nat; f_data : list Z }.

Definition goes_on (f : frame) : bool := msg_more (f_msg f).

(** A frame with the bytes [d] that is not the last one. *)
Definition carries (d : list Z) (f : frame) : bool := goes_on f && bool_decide (f_data f = d).

Section Reading.
Context {W : Type} `{PipeOps W}.

(** [fs] are the frames that the queue gives until it has none, [msg] is the message to receive into, and [rest] are
    the other variables that hold messages. *)
Definition reading (rest : gmap nat Msg.msg) (q : Fq.fq) (e : env W) (msg : Msg.msg) (fs : list frame) : Prop :=
  exists n vs ks d q' w',
    Fq.recv_many n q (Env Msg.memory0 (e_pipes e)) = Done (Env Msg.memory0 w', (map (fun f => (f_msg f, f_pipe f)) fs, q')) /\
    (length fs < n)%nat /\ Fq.good q /\ Msg.inv (e_mem e) vs /\ forget ks vs = rest /\
    held (e_mem e) vs ks (msg :: map f_msg fs) (d :: map f_data fs).

Lemma recvpipe_reading rest q e msg fs : reading rest q e msg fs ->
  match fs with
  | [] => exists e' q', Fq.recvpipe msg q e = Done (e', (-1, Msg.init, None, q')) /\ Fq.good q' /\ Msg.inv (e_mem e') rest
  | f :: fs => exists e' q', Fq.recvpipe msg q e = Done (e', (0, f_msg f, Some (f_pipe f), q')) /\
      reading rest q' e' (f_msg f) fs /\ Msg.data (f_msg f) (e_mem e') = Done (e_mem e', f_data f)
  end.
Proof.
  destruct e as [mem w]. intros (n & vs & ks & d & q' & w' & E & Hn & Hg & Hi & Hr & Hh). simpl in *.
  rewrite <- (length_map (fun f => (f_msg f, f_pipe f)) fs) in Hn.
  destruct (Xsub.recv_many_next n q w _ q' w' E Hn Hg) as (k & -> & w1 & q1 & Hg1 & Hnext).
  destruct (Xsub.held_nonempty _ _ _ _ _ _ Hh) as (v & ks1 & d0 & ds0 & -> & [= <- <-]).
  destruct (held_close mem vs v ks1 msg (map f_msg fs) d (map f_data fs) Hi Hh) as (_ & _ & mem1 & Ec & Hi1 & Hh1).
  rewrite Fq.recvpipe_eq. simpl. rewrite Ec. cbn [obind fst Z.eqb].
  destruct fs as [|[m p b] fs].
  - destruct Hnext as (-> & -> & _ & El). rewrite El. simpl. exists (Env mem1 w'), q'. split; [done|]. split; [done|].
    destruct Hh1 as (_ & Hk & _). inversion Hk; subst. done.
  - destruct Hnext as (_ & Hk & E1 & El). rewrite El. simpl. exists (Env mem1 w1), q1. split; [done|].
    rewrite length_map in Hk. split.
    + by exists k, (delete v vs), ks1, b, q', w'.
    + destruct (Xsub.held_nonempty _ _ _ _ _ _ Hh1) as (v1 & ks2 & ? & ? & -> & [= <- <-]).
      by destruct (held_close mem1 (delete v vs) v1 ks2 m (map f_msg fs) b (map f_data fs) Hi1 Hh1) as (? & _).
Qed.

(** *** Frames of the peer *)

Definition with_fq (q : Fq.fq) (x : req) : req := with_dealer (Dealer.set_fq q (dealer x)) x.

(** The frame comes from the pipe that took the request, if there is still one. *)
Definition from_peer (x : req) (f : frame) : bool :=
  match reply_pipe x with None => true | Some p => bool_decide (f_pipe f = p) end.

Definition waits (rest : gmap nat Msg.msg) (x : req) (e : env W) (msg : Msg.msg) (fs : list frame) : Prop :=
  reading rest (Dealer.fq (dealer x)) e msg fs.

(** One call of [recvpipe] by the socket. *)
Lemma dealer_recvpipe rest x e msg fs : waits rest x e msg fs ->
  match fs with
  | [] => exists e' q', Dealer.recvpipe msg (dealer x) e = Done (e', (-1, Msg.init, None, Dealer.set_fq q' (dealer x))) /\
      Msg.inv (e_mem e') rest
  | f :: fs => exists e' q',
      Dealer.recvpipe msg (dealer x) e = Done (e', (0, f_msg f, Some (f_pipe f), Dealer.set_fq q' (dealer x))) /\
      waits rest (with_fq q' x) e' (f_msg f) fs /\ Msg.data (f_msg f) (e_mem e') = Done (e_mem e', f_data f)
  end.
Proof.
  intros Hw. pose proof (recvpipe_reading rest _ e msg fs Hw) as Hr. unfold Dealer.recvpipe. destruct fs as [|f fs].
  - destruct Hr as (e' & q' & E & _ & Hi). exists e', q'. by rewrite (sbind_done _ _ _ _ _ E).
  - destruct Hr as (e' & q' & E & Hr & Hd). exists e', q'. by rewrite (sbind_done _ _ _ _ _ E).
Qed.

Lemma from_peer_check x f :
  bool_decide (reply_pipe x = None) || bool_decide (Some (f_pipe f) = reply_pipe x) = from_peer x f.
Proof.
  unfold from_peer. destruct (reply_pipe x) as [p|]; [|done]. simpl.
  apply bool_decide_ext. split; [by intros [= ->]|by intros ->].
Qed.

(** The frame that [recv_reply_pipe] gives. *)
Definition gives (rest : gmap nat Msg.msg) (x : req) (r : outcome (env W * (Z * Msg.msg * req))) (f : frame) (fs : list frame) : Prop :=
  exists e' q', r = Done (e', (0, f_msg f, with_fq q' x)) /\ waits rest (with_fq q' x) e' (f_msg f) fs /\
    Msg.data (f_msg f) (e_mem e') = Done (e_mem e', f_data f).

Lemma recv_reply_gives skipped : forall fuel rest x e msg f fs,
  waits rest x e msg (skipped ++ f :: fs) -> Forall (fun g => from_peer x g = false) skipped -> from_peer x f = true ->
  (length skipped < fuel)%nat -> gives rest x (recv_reply_pipe fuel msg x e) f fs.
Proof.
  induction skipped as [|g skipped IH]; intros fuel rest x e msg f fs Hw Hs Hf Hl; (destruct fuel as [|fuel]; [simpl in Hl; lia|]).
  - destruct (dealer_recvpipe _ _ _ _ _ Hw) as (e' & q' & E & Hw' & Hd). exists e', q'. split; [|done].
    cbn [recv_reply_pipe]. rewrite (sbind_done _ _ _ _ _ E). cbn. by rewrite from_peer_check, Hf.
  - destruct (dealer_recvpipe _ _ _ _ _ Hw) as (e' & q' & E & Hw' & Hd). apply Forall_cons in Hs as [Hg Hs].
    destruct (IH fuel rest (with_fq q' x) e' (f_msg g) f fs Hw' Hs Hf) as (e2 & q2 & E2 & R); [simpl in Hl; lia|].
    exists e2, q2. split; [|exact R]. cbn [recv_reply_pipe]. rewrite (sbind_done _ _ _ _ _ E). cbn.
    rewrite from_peer_check, Hg. exact E2.
Qed.

Definition gives_none (rest : gmap nat Msg.msg) (x : req) (r : outcome (env W * (Z * Msg.msg * req))) : Prop :=
  exists e' q', r = Done (e', (-1, Msg.init, with_fq q' x)) /\ Msg.inv (e_mem e') rest.

Lemma recv_reply_none fs : forall fuel rest x e msg,
  waits rest x e msg fs -> Forall (fun g => from_peer x g = false) fs -> (length fs < fuel)%nat ->
  gives_none rest x (recv_reply_pipe fuel msg x e).
Proof.
  induction fs as [|g fs IH]; intros fuel rest x e msg Hw Hs Hl; (destruct fuel as [|fuel]; [simpl in Hl; lia|]).
  - destruct (dealer_recvpipe _ _ _ _ _ Hw) as (e' & q' & E & Hi). exists e', q'. split; [|done].
    cbn [recv_reply_pipe]. by rewrite (sbind_done _ _ _ _ _ E).
  - destruct (dealer_recvpipe _ _ _ _ _ Hw) as (e' & q' & E & Hw' & Hd). apply Forall_cons in Hs as [Hg Hs].
    destruct (IH fuel rest (with_fq q' x) e' (f_msg g) Hw' Hs) as (e2 & q2 & E2 & R); [simpl in Hl; lia|].
    exists e2, q2. split; [|exact R]. cbn [recv_reply_pipe]. rewrite (sbind_done _ _ _ _ _ E). cbn.
    rewrite from_peer_check, Hg. exact E2.
Qed.

(** *** Messages *)

(** The frames of one message: a flag on all but the last, and one pipe. *)
Definition whole (p : nat) (g : list frame) : Prop :=
  exists l f, g = l ++ [f] /\ Forall (fun f => goes_on f = true) l /\ goes_on f = false /\ Forall (fun f => f_pipe f = p) g.

Lemma whole_cons p f g : whole p (f :: g) -> if goes_on f then whole p g else g = [].
Proof.
  intros ([|f0 l] & f1 & E & Hl & Hf & Hp).
  - injection E as -> ->. by rewrite Hf.
  - injection E as -> ->. apply Forall_cons in Hl as [-> Hl]. apply Forall_cons in Hp as [_ Hp]. by exists l, f1.
Qed.

Lemma whole_head p g : whole p g -> exists f l, g = f :: l /\ f_pipe f = p /\ Forall (fun f => f_pipe f = p) g.
Proof.
  intros ([|f0 l] & f & -> & _ & _ & Hp).
  - exists f, []. apply Forall_cons in Hp as Hp'. by destruct Hp'.
  - exists f0, (l ++ [f]). apply Forall_cons in Hp as Hp'. by destruct Hp'.
Qed.

(** "Skip the remaining frames": [fs] follows the message. *)
Lemma skip_frames_gives tl : forall fuel rest x e f fs p,
  waits rest x e (f_msg f) (tl ++ fs) -> whole p (f :: tl) -> from_peer x f = true -> f_pipe f = p -> (length tl <= fuel)%nat ->
  exists e' q' m, skip_frames fuel (f_msg f) x e = Done (e', (m, with_fq q' x)) /\ waits rest (with_fq q' x) e' m fs.
Proof.
  induction tl as [|g tl IH]; intros fuel rest x e f fs p Hw Hg Hf Hp Hl; pose proof (whole_cons _ _ _ Hg) as Hc;
    unfold goes_on in Hc; destruct (msg_more (f_msg f)) eqn:Em.
  - destruct (whole_head _ _ Hc) as (? & ? & ? & _). done.
  - exists e, (Dealer.fq (dealer x)), (f_msg f). split; [destruct fuel; cbn [skip_frames]; rewrite Em|];
      destruct x as [[] ? ? ? ? ? ?]; done.
  - destruct fuel as [|fuel]; [simpl in Hl; lia|]. destruct (whole_head _ _ Hc) as (g' & ? & [= <- <-] & Ep & _).
    assert (Hpeer : from_peer x g = true) by (revert Hf; unfold from_peer; by rewrite Ep, <- Hp).
    destruct (recv_reply_gives [] (S fuel) rest x e (f_msg f) g (tl ++ fs) Hw) as (e1 & q1 & E1 & Hw1 & _); [done|done|simpl; lia|].
    destruct (IH fuel rest (with_fq q1 x) e1 g fs p Hw1 Hc Hpeer Ep) as (e2 & q2 & m & E2 & Hw2); [simpl in Hl; lia|].
    exists e2, q2, m. split; [|exact Hw2]. cbn [skip_frames]. rewrite Em, (sbind_done _ _ _ _ _ E1). exact E2.
  - done.
Qed.

(** What [expect] does with a message of the peer. *)
Lemma expect_gives skipped fuel rest x e msg d f tl fs p :
  waits rest x e msg (skipped ++ f :: tl ++ fs) -> Forall (fun g => from_peer x g = false) skipped ->
  whole p (f :: tl) -> from_peer x f = true -> (length skipped + length tl < fuel)%nat ->
  exists e' q' m,
    expect fuel d msg x e = Done (e', (if carries d f then Passed else Skipped, m, with_fq q' x)) /\
    waits rest (with_fq q' x) e' m (if carries d f then tl ++ fs else fs).
Proof.
  intros Hw Hs Hg Hf Hl. destruct (recv_reply_gives skipped fuel rest x e msg f (tl ++ fs) Hw Hs Hf) as (e1 & q1 & E1 & Hw1 & Hd); [lia|].
  unfold expect. rewrite (sbind_done _ _ _ _ _ E1). cbn [Z.eqb negb]. unfold carries, goes_on.
  assert (Eis : frame_is d (f_msg f) e1 = Done (e1, msg_more (f_msg f) && bool_decide (f_data f = d))).
  { unfold frame_is. destruct (msg_more (f_msg f)); [|done]. cbn [negb]. unfold sbind, on_mem. rewrite Hd. by destruct e1. }
  rewrite (sbind_done _ _ _ _ _ Eis). destruct (msg_more (f_msg f) && bool_decide (f_data f = d)); [by exists e1, q1, (f_msg f)|].
  destruct (whole_head _ _ Hg) as (f' & ? & [= <- <-] & Ep & _).
  destruct (skip_frames_gives tl fuel rest (with_fq q1 x) e1 f fs p Hw1 Hg Hf Ep) as (e2 & q2 & m & E2 & Hw2); [lia|].
  exists e2, q2, m. rewrite (sbind_done _ _ _ _ _ E2). done.
Qed.

Lemma expect_none skipped fuel rest x e msg d :
  waits rest x e msg skipped -> Forall (fun g => from_peer x g = false) skipped -> (length skipped < fuel)%nat ->
  exists e' q', expect fuel d msg x e = Done (e', (NoFrame, Msg.init, with_fq q' x)) /\ Msg.inv (e_mem e') rest.
Proof.
  intros Hw Hs Hl. destruct (recv_reply_none skipped fuel rest x e msg Hw Hs Hl) as (e1 & q1 & E1 & Hi).
  exists e1, q1. unfold expect. by rewrite (sbind_done _ _ _ _ _ E1).
Qed.

(** *** Replies *)

(** The frames in front of a reply: the number of the request when it was sent with one, and an empty frame. *)
Definition envelope (x : req) : list (list Z) :=
  (if request_id_frames_enabled x then [native32 (request_id x)] else []) ++ [[]].

(** The frames behind those with the bytes [ds]. *)
Fixpoint behind (ds : list (list Z)) (g : list frame) : option (list frame) :=
  match ds, g with
  | [], _ => Some g
  | d :: ds, f :: g => if carries d f then behind ds g else None
  | _, [] => None
  end.

(** The body of a reply. *)
Definition body_of (x : req) (g : list frame) : option (list frame) :=
  match g with
  | f :: _ => if from_peer x f then behind (envelope x) g else None
  | [] => None
  end.

(** The body of the first reply, and the messages after it. *)
Fixpoint first_reply (x : req) (gs : list (list frame)) : option (list frame * list (list frame)) :=
  match gs with
  | [] => None
  | g :: gs => match body_of x g with Some b => Some (b, gs) | None => first_reply x gs end
  end.

Lemma first_reply_fq q x gs : first_reply (with_fq q x) gs = first_reply x gs.
Proof. induction gs as [|[|f g] gs IH]; [done|exact IH|]. cbn [first_reply]. rewrite IH. reflexivity. Qed.

Definition begins_at (rest : gmap nat Msg.msg) (x : req) (r : outcome (env W * (bool * Msg.msg * req)))
    (o : option (list frame * list (list frame))) : Prop :=
  match o with
  | Some (b, after) => exists e' q' m, r = Done (e', (true, m, with_fsm (receiving_reply x) false (with_fq q' x))) /\
      waits rest (with_fq q' x) e' m (b ++ concat after)
  | None => exists e' q', r = Done (e', (false, Msg.init, with_fq q' x)) /\ Msg.inv (e_mem e') rest
  end.

(** The second half of the loop: the empty frame. *)
Definition expect_empty (fuel : nat) (again : Msg.msg -> req -> stm (env W) (bool * Msg.msg * req)) (msg : Msg.msg) (x : req) :=
  let! (v, msg, x) := expect fuel [] msg x in
  match v with
  | NoFrame => sret (false, msg, x)
  | Skipped => again msg x
  | Passed => sret (true, msg, with_fsm (receiving_reply x) false x)
  end.

Lemma expect_empty_gives skipped fuel again rest x e msg f tl after p :
  waits rest x e msg (skipped ++ f :: tl ++ concat after) -> Forall (fun g => from_peer x g = false) skipped ->
  whole p (f :: tl) -> from_peer x f = true -> (length skipped + length tl < fuel)%nat ->
  (forall e q m, waits rest (with_fq q x) e m (concat after) -> begins_at rest x (again m (with_fq q x) e) (first_reply x after)) ->
  begins_at rest x (expect_empty fuel again msg x e)
    (if carries [] f then Some (tl, after) else first_reply x after).
Proof.
  intros Hw Hs Hg Hf Hl Ha.
  destruct (expect_gives skipped fuel rest x e msg [] f tl (concat after) p Hw Hs Hg Hf Hl) as (e1 & q1 & m & E1 & Hw1).
  unfold expect_empty. rewrite (sbind_done _ _ _ _ _ E1). destruct (carries [] f).
  - red. by exists e1, q1, m.
  - by apply Ha.
Qed.

Lemma recv_begin_gives gs : forall skipped fuel rest x e msg,
  waits rest x e msg (skipped ++ concat gs) -> Forall (fun g => from_peer x g = false) skipped ->
  Forall (fun g => exists p, whole p g) gs -> message_begins x = true -> (length skipped + length (concat gs) < fuel)%nat ->
  begins_at rest x (recv_begin fuel msg x e) (first_reply x gs).
Proof.
  induction gs as [|g gs IH]; intros skipped fuel rest x e msg Hw Hs Hgs Hb Hl;
    (destruct fuel as [|fuel]; [simpl in Hl; lia|]).
  - simpl in Hw. rewrite app_nil_r in Hw. simpl in Hl. assert (Hl' : (length skipped < S fuel)%nat) by lia.
    cbn [recv_begin]. rewrite Hb. destruct (request_id_frames_enabled x).
    + destruct (expect_none skipped _ rest x e msg (native32 (request_id x)) Hw Hs Hl') as (e1 & q1 & E1 & Hi).
      red. simpl. exists e1, q1. by rewrite (sbind_done _ _ _ _ _ E1).
    + destruct (expect_none skipped _ rest x e msg [] Hw Hs Hl') as (e1 & q1 & E1 & Hi).
      red. simpl. exists e1, q1. unfold sbind at 1, sret at 1. cbn [obind]. by rewrite (sbind_done _ _ _ _ _ E1).
  - apply Forall_cons in Hgs as [[p Hg] Hgs]. destruct (whole_head _ _ Hg) as (f & tl & -> & Ep & Hall). simpl in Hw, Hl.
    rewrite length_app in Hl. cbn [first_reply body_of]. destruct (from_peer x f) eqn:Hf.
    2: { apply (IH (skipped ++ f :: tl)); [by rewrite <- app_assoc| |done|done|rewrite length_app; simpl; lia].
      apply Forall_app. split; [done|]. apply (Forall_impl _ _ _ Hall). intros g' Eg. revert Hf. unfold from_peer. by rewrite Ep, Eg. }
    assert (Hagain : forall e q m, waits rest (with_fq q x) e m (concat gs) ->
      begins_at rest x (recv_begin fuel m (with_fq q x) e) (first_reply x gs)).
    { intros e1 q1 m Hw1. rewrite <- (first_reply_fq q1). apply (IH [] fuel rest (with_fq q1 x)); [done|constructor|done|done|simpl; lia]. }
    unfold envelope. cbn [recv_begin]. rewrite Hb. destruct (request_id_frames_enabled x) eqn:Eid.
    + destruct (expect_gives skipped (S fuel) rest x e msg (native32 (request_id x)) f tl (concat gs) p Hw Hs Hg Hf)
        as (e1 & q1 & m & E1 & Hw1); [lia|].
      rewrite (sbind_done _ _ _ _ _ E1). cbn [app behind]. pose proof (whole_cons _ _ _ Hg) as Hc.
      unfold carries in Hw1 |- * at 1 2. destruct (goes_on f); cbn [andb] in Hw1 |- *; [|by apply Hagain].
      destruct (bool_decide (f_data f = native32 (request_id x))); [|by apply Hagain].
      destruct (whole_head _ _ Hc) as (f2 & tl2 & -> & Ep2 & _).
      assert (Hf2 : from_peer x f2 = true) by (revert Hf; unfold from_peer; by rewrite Ep, Ep2).
      pose proof (expect_empty_gives [] (S fuel) (fun m => recv_begin fuel m) rest (with_fq q1 x) e1 m f2 tl2 gs p) as He.
      rewrite first_reply_fq in He. simpl in He.
      specialize (He Hw1 (Forall_nil_2 _) Hc Hf2 ltac:(simpl in Hl; lia) (fun e q m => Hagain e q m)).
      destruct (carries [] f2); exact He.
    + pose proof (expect_empty_gives skipped (S fuel) (fun m => recv_begin fuel m) rest x e msg f tl gs p Hw Hs Hg Hf ltac:(lia) Hagain) as He.
      cbn [app behind]. destruct (carries [] f); exact He.
Qed.

Lemma behind_whole p ds : forall g b, whole p g -> behind ds g = Some b -> whole p b.
Proof.
  induction ds as [|d ds IH]; intros [|f g] b Hg E; simplify_eq/=; try done. unfold carries in E.
  pose proof (whole_cons _ _ _ Hg) as Hc. destruct (goes_on f); [|done]. simpl in E. case_bool_decide; [|done]. by apply (IH g).
Qed.

Lemma first_reply_whole x gs b after :
  Forall (fun g => exists p, whole p g) gs -> first_reply x gs = Some (b, after) ->
  exists p, whole p b /\ Forall (fun f => from_peer x f = true) b /\ Forall (fun g => exists p, whole p g) after.
Proof.
  induction 1 as [|g gs [p Hg] Hgs IH]; cbn [first_reply]; [done|]. destruct (body_of x g) as [b'|] eqn:Eb; [|done].
  intros [= -> ->]. destruct (whole_head _ _ Hg) as (f & l & -> & Ep & _). simpl in Eb. destruct (from_peer x f) eqn:Ef; [|done].
  exists p. pose proof (behind_whole p (envelope x) (f :: l) b Hg Eb) as Hb. split; [done|]. split; [|done].
  destruct Hb as (? & ? & _ & _ & _ & Hp). apply (Forall_impl _ _ _ Hp). intros g' Eg. revert Ef. unfold from_peer. by rewrite Ep, Eg.
Qed.

(** *** Receiving a reply *)

(** [xrecv] until the last part, [n] times at most: the bytes of the parts. *)
Fixpoint receive (n fuel : nat) (msg : Msg.msg) (x : req) : stm (env W) (option errno * list (list Z) * Msg.msg * req) :=
  match n with
  | O => sret (None, [], msg, x)
  | S n =>
      let! (rc, msg, x) := xrecv fuel msg x in
      match rc with
      | Some err => sret (Some err, [], msg, x)
      | None =>
          let! d := on_mem (Msg.data msg) in
          if msg_more msg then let! (rc, ds, msg, x) := receive n fuel msg x in sret (rc, d :: ds, msg, x)
          else sret (None, [d], msg, x)
      end
  end.

Lemma receive_body b : forall fuel rest x e msg fs p,
  waits rest x e msg (b ++ fs) -> whole p b -> Forall (fun f => from_peer x f = true) b ->
  receiving_reply x = true -> message_begins x = false -> (0 < fuel)%nat ->
  exists e' q' m, receive (length b) fuel msg x e = Done (e', (None, map f_data b, m, with_fsm false true (with_fq q' x))) /\
    waits rest (with_fq q' x) e' m fs.
Proof.
  induction b as [|f b IH]; intros fuel rest x e msg fs p Hw Hb Hf Hr Hm Hl.
  { destruct (whole_head _ _ Hb) as (? & ? & ? & _). done. }
  pose proof (whole_cons _ _ _ Hb) as Hc. apply Forall_cons in Hf as [Hf Hfs].
  destruct (recv_reply_gives [] fuel rest x e msg f (b ++ fs) Hw) as (e1 & q1 & E1 & Hw1 & Hd); [done|done|done|].
  assert (Ex : xrecv fuel msg x e = Done (e1, (None, f_msg f, if goes_on f then with_fq q1 x else with_fsm false true (with_fq q1 x)))).
  { unfold xrecv. rewrite Hr. simpl. assert (Eb : recv_begin fuel msg x e = Done (e, (true, msg, x))) by (destruct fuel; cbn [recv_begin]; by rewrite Hm).
    rewrite (sbind_done _ _ _ _ _ Eb). simpl. rewrite (sbind_done _ _ _ _ _ E1). simpl. unfold goes_on. by destruct (msg_more (f_msg f)). }
  cbn [length receive map]. rewrite (sbind_done _ _ _ _ _ Ex). unfold sbind at 1, on_mem at 1. rewrite Hd. cbn [obind].
  replace (Env (e_mem e1) (e_pipes e1)) with e1 by by destruct e1.
  change (msg_more (f_msg f)) with (goes_on f). destruct (goes_on f).
  - destruct (IH fuel rest (with_fq q1 x) e1 (f_msg f) fs p Hw1 Hc Hfs Hr Hm Hl) as (e2 & q2 & m & E2 & Hw2).
    exists e2, q2, m. by rewrite (sbind_done _ _ _ _ _ E2).
  - rewrite Hc in *. by exists e1, q1, (f_msg f).
Qed.

(** The answer to a request that was sent, when [gs] are the messages in the pipes. *)
Definition reply_result (fuel : nat) (rest : gmap nat Msg.msg) (x : req) (e : env W) (msg : Msg.msg) (gs : list (list frame)) : Prop :=
  match first_reply x gs with
  | Some (b, after) => exists e' q' m,
      receive (length b) fuel msg x e = Done (e', (None, map f_data b, m, with_fsm false true (with_fq q' x))) /\
      waits rest (with_fq q' x) e' m (concat after)
  | None => exists e' q', xrecv fuel msg x e = Done (e', (Some EAGAIN, Msg.init, with_fq q' x)) /\ Msg.inv (e_mem e') rest
  end.

End Reading.

(** ** A socket with two pipes *)

Definition lb_of (ps : list nat) : Lb.lb :=
  fold_left (fun l p => match Lb.attach p l with Done l => l | Crash => l end) ps Lb.lb_new.

Definition fq_of (ps : list nat) : Fq.fq :=
  fold_left (fun q p => match Fq.attach p q with Done q => q | Crash => q end) ps Fq.fq_new.

(** A socket with these pipes. *)
Definition socket_of (ps : list nat) (numbers : bool) : req :=
  Req (Dealer.Dealer (fq_of ps) (lb_of ps) false) false true None numbers 7 true.

Definition part (d : list Z) (b : bool) : Msg.msg :=
  (if b then Msg.set_flags Msg.more else id) (Msg.set_body (Msg.Vsm d) Msg.init).

(** The first pipe has a message without an envelope, then a reply of two parts; the second has a reply. *)
Definition sample_messages : list (list frame) :=
  [ [Frame (part [9] false) 4%nat [9]];
    [Frame (part [] true) 5%nat []; Frame (part [7] false) 5%nat [7]];
    [Frame (part [] true) 4%nat []; Frame (part [1] true) 4%nat [1]; Frame (part [2] false) 4%nat [2]] ].

Definition sample_world : Boxes.boxes :=
  {[ 4%nat := Boxes.Box 9 [] 0 [part [9] false; part [] true; part [1] true; part [2] false];
     5%nat := Boxes.Box 9 [] 0 [part [] true; part [7] false] ]}.

(** A request has gone to the first pipe. *)
Definition sample_socket : req := with_fsm true true (with_reply (Some 4%nat) (socket_of [4; 5]%nat false)).

Definition sample_vars (ms : list Msg.msg) : gmap nat Msg.msg :=
  (fix ins k ms := match ms with [] => ∅ | m :: ms => <[k := m]> (ins (S k) ms) end) 0%nat ms.

Definition sample_fq : Fq.fq := Eval vm_compute in fq_of [4; 5]%nat.

Lemma sample_fq_good : Fq.good sample_fq.
Proof.
  split; [|by vm_compute]. split; simpl; [|unfold Array.size; simpl; lia|lia]. split; [|reflexivity]. simpl.
  intros [|[|i]] p E; simpl in E; simplify_eq; reflexivity.
Qed.

Lemma reqreply_sample_waits :
  waits ∅ sample_socket (Env Msg.memory0 sample_world) Msg.init (concat sample_messages).
Proof.
  exists 7%nat, (sample_vars (Msg.init :: map f_msg (concat sample_messages))), (seq 0 7), [].
  eexists _, _. split; [vm_compute; reflexivity|]. split; [simpl; lia|]. split; [exact sample_fq_good|]. split.
  { assert (Hu : forall d (vs : gmap nat Msg.msg), vs !! d = None -> Msg.unused [d] vs).
    { intros d vs Hd. split; [apply NoDup_singleton|]. by intros d' ->%list_elem_of_singleton. }
    do 7 (match goal with |- Msg.inv _ (sample_vars _) => idtac | _ => idtac end;
      apply (Msg.inv_insert_none Msg.memory0 _ [_]); [|by apply Hu|done..]). apply Msg.inv_empty. }
  split; [by vm_compute|]. split; [by apply (bool_decide_unpack _); vm_compute|]. split; [by repeat constructor|].
  split; by repeat constructor.
Qed.

End ReqReply.
