(* ===== verification/ReqSend.v ===== *)
(** * ReqSend: what a REQ socket sends (libzmq/src/req.cpp)

    A request goes to one pipe, behind its envelope, and the pipe is remembered; what waits
    in the pipes is thrown away before the request is complete.  Two ways in which this fails:
    a request whose pipe goes away is continued on another pipe without its envelope, and the
    number of a request that no pipe takes is not freed. *)

From S2P Require Import Prelude Msg Pipes Array Fq Lb Xsub Dealer Req ReqReply.

Module ReqSend.
Import Req ReqReply.

(** ** Writing does not take away what can be read

    Two states of the pipes are the same for a reader. *)
Class ReadsApart (W : Type) `{PipeOps W} : Type := {
  same_reads : W -> W -> Prop;
  same_reads_refl w : same_reads w w;
  same_reads_trans w1 w2 w3 : same_reads w1 w2 -> same_reads w2 w3 -> same_reads w1 w3;
  read_same p w1 w2 : same_reads w1 w2 ->
    (pipe_read p w1).2 = (pipe_read p w2).2 /\ same_reads (pipe_read p w1).1 (pipe_read p w2).1;
  write_same p m w : same_reads w (pipe_write p m w).1
}.

#[global] Program Instance boxes_apart : ReadsApart Boxes.boxes := {
  same_reads w1 w2 := forall p, Boxes.unread (Boxes.box_of p w1) = Boxes.unread (Boxes.box_of p w2)
}.
Next Obligation. done. Qed.
Next Obligation. intros w1 w2 w3 H12 H23 p. by rewrite H12. Qed.
Next Obligation.
  intros p w1 w2 Hs. unfold pipe_read. simpl. unfold Boxes.read. pose proof (Hs p) as Hp. rewrite <- Hp.
  destruct (Boxes.unread (Boxes.box_of p w1)) as [|m l]; [done|]. split; [done|]. intros q. simpl. unfold Boxes.box_of, Boxes.boxes in *.
  destruct (decide (q = p)) as [->|Hne]; [by rewrite !lookup_insert_eq|]. rewrite !(lookup_insert_ne (M:=gmap nat)) by done. exact (Hs q).
Qed.
Next Obligation.
  intros p m w q. unfold pipe_write. simpl. unfold Boxes.write. destruct (0 <? Boxes.room (Boxes.box_of p w)); [|done].
  simpl. unfold Boxes.box_of, Boxes.boxes in *. destruct (decide (q = p)) as [->|Hne]; [by rewrite lookup_insert_eq|]. by rewrite (lookup_insert_ne (M:=gmap nat)).
Qed.

Section Send.
Context {W : Type} `{ReadsApart W}.

Lemma recv_loop_same k : forall q mem (w1 w2 w1' : W) mem' r,
  same_reads w1 w2 -> Fq.recv_loop k q (Env mem w1) = Done (Env mem' w1', r) ->
  exists w2', Fq.recv_loop k q (Env mem w2) = Done (Env mem' w2', r) /\ same_reads w1' w2'.
Proof.
  induction k as [|k IH]; intros q mem w1 w2 w1' mem' r Hs E; cbn [Fq.recv_loop] in *.
  - unfold sret in *. destruct (0 <? Fq.active q); [done|]. simplify_eq. by exists w2.
  - unfold sbind, slift, on_pipes, sret in *. destruct (0 <? Fq.active q); [|simplify_eq; by exists w2].
    destruct (Array.get (Fq.pipes q) (Fq.current q)) as [p|]; [|done].
    cbn [obind e_pipes e_mem] in *. destruct (read_same p w1 w2 Hs) as [Er Hr].
    destruct (pipe_read p w1) as [v1 o1], (pipe_read p w2) as [v2 o2]. simpl in Er, Hr. subst o2. cbn [obind] in *.
    destruct o1 as [m|]; cbn [obind] in *.
    + destruct (negb (msg_more m)); simplify_eq; by exists v2.
    + unfold sassert in *. destruct (negb (Fq.more q)); [|done]. cbn [obind] in *.
      destruct (Fq.deactivate (Fq.current q) q) as [q1|]; [|done]. cbn [obind] in *. by apply (IH q1 mem v1).
Qed.

Lemma recv_many_same n : forall q mem (w1 w2 w1' : W) mem' r,
  same_reads w1 w2 -> Fq.recv_many n q (Env mem w1) = Done (Env mem' w1', r) ->
  exists w2', Fq.recv_many n q (Env mem w2) = Done (Env mem' w2', r) /\ same_reads w1' w2'.
Proof.
  induction n as [|n IH]; intros q mem w1 w2 w1' mem' r Hs E; [unfold Fq.recv_many, sret in *; simplify_eq; by exists w2|].
  cbn [Fq.recv_many] in *. apply sbind_inv in E as ([mem1 v1] & [[[rc m] o] q1] & E1 & E).
  rewrite Fq.recvpipe_eq in E1. cbn [e_mem e_pipes] in E1. destruct (Msg.close Msg.init mem) as [[mem0 [rc0 m0]]|] eqn:Ec; [|done].
  simpl in E1. destruct (rc0 =? 0) eqn:Erc; [|done].
  destruct (Fq.recv_loop (Z.to_nat (Fq.active q)) q (Env mem0 w1)) as [[[mem2 v2] r2]|] eqn:El; [|done].
  destruct (recv_loop_same _ q mem0 w1 w2 v2 mem2 r2 Hs El) as (v2' & El' & Hs2).
  assert (E2 : exists v1', Fq.recvpipe Msg.init q (Env mem w2) = Done (Env mem1 v1', (rc, m, o, q1)) /\ same_reads v1 v1').
  { rewrite Fq.recvpipe_eq. cbn [e_mem e_pipes]. rewrite Ec. simpl. rewrite Erc, El'. simpl in E1 |- *.
    destruct r2 as [[[m2 p2]|] q2]; simpl in *; simplify_eq; by exists v2'. }
  destruct E2 as (v1' & E2 & Hs1). rewrite (sbind_done _ _ _ _ _ E2). destruct o as [p|].
  - apply sbind_inv in E as ([mem3 v3] & [l q3] & E3 & E). destruct (IH _ _ _ _ _ _ _ Hs1 E3) as (v3' & E3' & Hs3).
    rewrite (sbind_done _ _ _ _ _ E3'). unfold sret in *. simplify_eq. by exists v3'.
  - unfold sret in *. simplify_eq. by exists v1'.
Qed.

Lemma reading_same rest q mem (w w' : W) msg fs :
  same_reads w w' -> reading rest q (Env mem w) msg fs -> reading rest q (Env mem w') msg fs.
Proof.
  intros Hs (n & vs & ks & d & q' & w1 & E & R). destruct (recv_many_same _ _ _ _ _ _ _ _ Hs E) as (w2 & E2 & _).
  by exists n, vs, ks, d, q', w2.
Qed.

(** *** Throwing away what waits *)

(** Closing the message read last. *)
Lemma reading_close rest q (e : env W) msg fs : reading rest q e msg fs ->
  exists mem m, Msg.close msg (e_mem e) = Done (mem, m) /\ reading rest q (Env mem (e_pipes e)) Msg.init fs.
Proof.
  destruct e as [mem w]. intros (n & vs & ks & d & q' & w' & E & Hn & Hg & Hi & Hr & Hh). simpl in *.
  destruct (Xsub.held_nonempty _ _ _ _ _ _ Hh) as (v & ks1 & d0 & ds0 & -> & [= <- <-]).
  destruct (held_close mem vs v ks1 msg _ d _ Hi Hh) as (_ & _ & mem1 & Ec & Hi1 & Hn1 & Hk1 & Hd1 & Hc1).
  exists mem1, (0, Msg.set_body Msg.Invalid msg). split; [done|]. destruct Hh as (Hnd & Hk & _ & _). apply NoDup_cons in Hnd as [Hv _].
  apply Forall2_cons in Hk as [Hk _].
  exists n, (<[v := Msg.init]> (delete v vs)), (v :: ks1), [], q', w'. split_and!; try done.
  - apply Msg.inv_insert_init; [done|by rewrite lookup_delete_eq|]. rewrite (Msg.size_delete_some vs v msg Hk). apply (Msg.inv_size _ _ Hi).
  - rewrite <- Hr. cbn [forget fold_left]. by rewrite delete_insert_eq, delete_delete_eq.
  - split; [by apply NoDup_cons|]. split; [|by split; constructor]. constructor; [by rewrite lookup_insert_eq|].
    eapply Forall2_impl; [exact Hk1|]. intros k m Hkm. pose proof Hkm as [Hne _]%lookup_delete_Some. by rewrite lookup_insert_ne.
Qed.

Lemma recv_loop_none k : forall q (e e' : env W) q', Fq.recv_loop k q e = Done (e', (None, q')) -> Fq.active q' <= 0.
Proof.
  induction k as [|k IH]; intros q e e' q' E; cbn [Fq.recv_loop] in E; destruct (Z.ltb_spec 0 (Fq.active q)); try done;
    try (unfold sret in E; simplify_eq; lia).
  apply sbind_inv in E as (e1 & p & _ & E). apply sbind_inv in E as (e2 & [m|] & _ & E).
  - unfold sret in E. by destruct (negb (msg_more m)).
  - apply sbind_inv in E as (e3 & [] & _ & E). apply sbind_inv in E as (e4 & q1 & _ & E). by apply IH in E.
Qed.

Lemma drop_available_spec fs : forall fuel rest d (e : env W),
  reading rest (Dealer.fq d) e Msg.init fs -> (length fs < fuel)%nat ->
  exists e' q', drop_available fuel d e = Done (e', Dealer.set_fq q' d) /\ Fq.active q' <= 0 /\ Msg.inv (e_mem e') rest.
Proof.
  induction fs as [|f fs IH]; intros fuel rest d e Hw Hl; (destruct fuel as [|fuel]; [simpl in Hl; lia|]);
    pose proof (recvpipe_reading rest _ e Msg.init _ Hw) as Hr; simpl in Hr.
  - destruct Hr as (e1 & q1 & E1 & _ & Hi). exists e1, q1. cbn [drop_available]. unfold Dealer.xrecv, Dealer.recvpipe.
    split; [|split; [|done]].
    + unfold sbind at 1 2 3. rewrite E1. done.
    + rewrite Fq.recvpipe_eq in E1. apply obind_inv in E1 as ([mem0 [rc0 m0]] & _ & E1). destruct (_ =? 0); [|done].
      apply obind_inv in E1 as ([e2 [[[m p]|] q2]] & E2 & E1); [done|]. injection E1 as -> ->. exact (recv_loop_none _ _ _ _ _ E2).
  - destruct Hr as (e1 & q1 & E1 & Hr & _). destruct (reading_close rest q1 e1 (f_msg f) fs Hr) as (mem & m & Ec & Hr').
    destruct (IH fuel rest (Dealer.set_fq q1 d) (Env mem (e_pipes e1)) Hr') as (e2 & q2 & E2 & Ha & Hi); [simpl in Hl; lia|].
    exists e2, q2. split; [|done]. cbn [drop_available]. unfold Dealer.xrecv, Dealer.recvpipe.
    unfold sbind at 1 2 3. rewrite E1. cbn [obind sret]. simpl. unfold sbind, on_mem. rewrite Ec. exact E2.
Qed.

(** *** The envelope *)

Definition with_lb (l : Lb.lb) (x : req) : req := with_dealer (Dealer.set_lb l (dealer x)) x.

(** The number of the request, and the memory with a copy of it. *)
Definition next_id (x : req) : Z :=
  if request_id_frames_enabled x then u32 (request_id x + 1) else request_id x.

Definition numbered_mem (x : req) (mem : Msg.memory) : Msg.memory :=
  if request_id_frames_enabled x then
    Msg.Memory (<[Msg.next_addr mem := Msg.Content (native32 (next_id x)) (Some free_id) 0]> (Msg.heap mem))
      (S (Msg.next_addr mem)) (Msg.metas mem) (Msg.ffn_calls mem)
  else mem.

Definition bottom_frame : Msg.msg := Msg.set_flags Msg.more Msg.init.

Definition first_frame (x : req) (mem : Msg.memory) : Msg.msg :=
  if request_id_frames_enabled x then Msg.set_flags Msg.more (Msg.fresh (Msg.Lmsg (Msg.next_addr mem))) else bottom_frame.

(** The rest of the envelope, to the pipe that took the first frame. *)
Definition rest_frames (x : req) (p : nat) (w : W) : W * bool :=
  if request_id_frames_enabled x then pipe_write p bottom_frame w else (w, true).

Lemma first_frame_more x mem : msg_more (first_frame x mem) = true.
Proof. unfold first_frame. by destruct (request_id_frames_enabled x). Qed.

Lemma forget_insert v m ks (vs : gmap nat Msg.msg) : v ∉ ks -> forget ks (<[v := m]> vs) = <[v := m]> (forget ks vs).
Proof.
  revert vs. induction ks as [|k ks IH]; intros vs Hv; [done|]. apply not_elem_of_cons in Hv as [Hk Hv].
  cbn [forget fold_left]. rewrite delete_insert_ne by done. by apply IH.
Qed.

Lemma contents_mono mem mem' m d :
  (forall c y, Msg.heap mem !! c = Some y -> Msg.heap mem' !! c = Some y) ->
  Msg.contents mem m = Some d -> Msg.contents mem' m = Some d.
Proof.
  intros Hk. unfold Msg.contents. destruct (Msg.u m) as [b|c| |b|c| | |]; try done;
    (destruct (Msg.heap mem !! c) as [y|] eqn:E; [by rewrite (Hk c y E)|done]).
Qed.

Lemma forget_none v ks (vs : gmap nat Msg.msg) : vs !! v = None -> forget ks vs !! v = None.
Proof.
  revert vs. induction ks as [|k ks IH]; intros vs Hv; [done|]. apply (IH (delete k vs)). by rewrite lookup_delete_None; right.
Qed.

Lemma forget_size ks (vs : gmap nat Msg.msg) : (size vs <= length ks + size (forget ks vs))%nat.
Proof.
  revert vs. induction ks as [|k ks IH]; intros vs; [done|]. specialize (IH (delete k vs)). cbn [forget fold_left length].
  change (fold_left _ ks (delete k vs)) with (forget ks (delete k vs)). destruct (vs !! k) as [m|] eqn:E.
  - pose proof (Msg.size_delete_some vs k m E). lia.
  - rewrite delete_id in IH by done. rewrite delete_id by done. lia.
Qed.

(** The copy of the number takes a new place in memory and nothing else changes. *)
Lemma reading_numbered rest q x mem (w : W) msg fs :
  reading rest q (Env mem w) msg fs -> Z.of_nat (2 + length fs + size rest) < 2 ^ 32 ->
  exists rest', reading rest' q (Env (numbered_mem x mem) w) msg fs /\ rest ⊆ rest'.
Proof.
  intros Hr Hz. unfold numbered_mem. destruct (request_id_frames_enabled x); [|by exists rest].
  destruct Hr as (n & vs & ks & d & q' & w' & E & Hn & Hg & Hi & Hf & Hnd & Hk & Hd & Hc). simpl in *.
  set (v := fresh (dom vs)). assert (Hv : vs !! v = None) by (apply not_elem_of_dom, is_fresh).
  assert (Hvk : v ∉ ks).
  { intros Hin. apply list_elem_of_lookup in Hin as [i Ei]. destruct (Forall2_lookup_l _ _ _ _ _ Hk Ei) as (m & _ & Em). congruence. }
  pose proof (forget_size ks vs) as Hs. rewrite (Forall2_length _ _ _ Hk) in Hs. simpl in Hs. rewrite length_map, Hf in Hs.
  destruct (Msg.inv_malloc mem vs v (Msg.set_flags Msg.more (Msg.fresh (Msg.Lmsg (Msg.next_addr mem))))
    (Msg.Content (native32 (next_id x)) (Some free_id) 0) (Msg.next_addr mem)) as [Hi' Hkeep]; try done; [lia|].
  exists (<[v := Msg.set_flags Msg.more (Msg.fresh (Msg.Lmsg (Msg.next_addr mem)))]> rest). split.
  - eexists n, _, ks, d, q', w'. split_and!; try done; [by rewrite forget_insert, Hf|].
    split; [done|]. split; [|split; [done|]].
    + eapply Forall2_impl; [exact Hk|]. intros k m Ek. rewrite lookup_insert_ne; [done|]. intros <-. congruence.
    + eapply Forall2_impl; [exact Hc|]. intros m b. by apply contents_mono.
  - apply insert_subseteq. rewrite <- Hf. by apply forget_none.
Qed.

(** *** The pipe of the request *)

Definition idle (l : Lb.lb) : Prop := Lb.lb_ok l /\ Lb.more l = false /\ Lb.dropping l = false.

(** In the middle of a message to [p]. *)
Definition midway (l : Lb.lb) (p : nat) : Prop :=
  Lb.lb_ok l /\ Lb.more l = true /\ Lb.dropping l = false /\ 0 < Lb.active l /\ Array.get (Lb.pipes l) (Lb.current l) = Done p.

Lemma took_midway msg l l' refused p : Lb.took msg l l' refused p -> msg_more msg = true -> midway l' p.
Proof.
  intros Ht Hm. pose proof (Lb.took_good _ _ _ _ _ Ht) as (_ & _ & Ha). destruct Ht as [Hok _ _ [Hmo Hd] [_ Hp] _].
  rewrite Hm in Hmo. split_and!; auto.
Qed.

Definition rolled_back (l : Lb.lb) : Lb.lb := Lb.Lb (Lb.pipes l) (Lb.active l) (Lb.current l) false (Lb.dropping l).

Lemma rolled_back_idle l p : midway l p -> idle (rolled_back l).
Proof. intros ([Ha Hs Hc] & _ & Hd & _). by split. Qed.

Lemma sendpipe_reply_lb msg x (e e' : env W) rc m o l' :
  Lb.sendpipe msg (Dealer.lb (dealer x)) e = Done (e', (rc, m, o, l')) ->
  sendpipe_reply msg x e = Done (e', (rc, match o with Some p => with_reply (Some p) (with_lb l' x) | None => with_lb l' x end)).
Proof. intros E. unfold sendpipe_reply, Dealer.sendpipe. unfold sbind at 1 2. rewrite E. by destruct o. Qed.

(** A part of a message that has begun. *)
Lemma sendpipe_midway msg l p (e : env W) :
  midway l p ->
  exists l', Lb.sendpipe msg l e =
      (let (w, ok) := pipe_write p msg (e_pipes e) in
       Done (Env (e_mem e) (if ok then Lb.flushed msg p w else pipe_rollback p w),
             if ok then (0, Msg.init, Some p, l') else (-1, msg, None, rolled_back l))) /\
    Lb.took msg l l' [] p.
Proof.
  intros (Hok & Hm & Hd & Ha & Hp). pose proof (Lb.sendpipe_more_spec msg l p e Hok Hm Hd Ha Hp) as Hs.
  pose proof (Lb.finish_took msg l l [] p Hd) as Hf. exists (Lb.finish msg l). split.
  - destruct (pipe_write p msg (e_pipes e)) as [w []] eqn:Ew; [|exact Hs]. rewrite (Lb.sendpipe_eq msg l e Hd).
    replace (Z.to_nat (Lb.active l)) with (S (Z.to_nat (Lb.active l) - 1)) by lia. cbn [Lb.send_loop].
    destruct (Z.ltb_spec 0 (Lb.active l)); [|lia]. unfold sbind, slift, on_pipes. rewrite Hp. cbn [obind]. rewrite Ew. cbn.
    rewrite Hp. by destruct (msg_more msg).
  - apply Hf. split; try done; [intros y; set_solver|]. split; [done|]. destruct Hok as [Hl Hs' Hc].
    unfold Array.get in Hp. apply nth_z_inv in Hp as [_ Lp]. pose proof (Array.index_lookup _ _ p Hl Lp).
    apply Array.elem_seg; [done|]. split; [apply list_elem_of_lookup; eauto|lia].
Qed.

(** The socket when its request has begun: [l] and [q] are its balancer and its queue. *)
Definition begun (x : req) (l : Lb.lb) (q : Fq.fq) (p : nat) : req :=
  Req (Dealer.Dealer q l (Dealer.probe_router (dealer x))) false false (Some p) (request_id_frames_enabled x) (next_id x) (strict x).

(** The socket when its request could not begin. *)
Definition not_begun (x : req) (l : Lb.lb) (o : option nat) : req :=
  Req (Dealer.set_lb l (dealer x)) false true o (request_id_frames_enabled x) (next_id x) (strict x).

(** The end of [begin_request], when the envelope has been taken. *)
Definition drained (x : req) (rest : gmap nat Msg.msg) (p : nat) (o : outcome (env W * (bool * req))) : Prop :=
  exists mem' w' l q rest', midway l p /\ Fq.active q <= 0 /\ rest ⊆ rest' /\ Msg.inv mem' rest' /\
    o = Done (Env mem' w', (true, begun x l q p)).

Definition finish_begin (fuel : nat) (x : req) : stm (env W) (bool * req) :=
  let x := with_fsm (receiving_reply x) false x in
  let! d := drop_available fuel (dealer x) in
  sret (true, with_dealer d x).

Lemma finish_begin_drained fuel x x1 rest rest' mem (w : W) p l fs :
  x1 = not_begun x l (Some p) -> midway l p -> rest ⊆ rest' ->
  reading rest' (Dealer.fq (dealer x)) (Env mem w) Msg.init fs -> (length fs < fuel)%nat ->
  drained x rest p (finish_begin fuel x1 (Env mem w)).
Proof.
  intros -> Hl Hs Hr Hf. destruct (drop_available_spec fs fuel rest' (Dealer.set_lb l (dealer x)) (Env mem w) Hr Hf)
    as ([mem1 w1] & q & E & Ha & Hi).
  exists mem1, w1, l, q, rest'. split_and!; try done. unfold finish_begin. cbv zeta. by rewrite (sbind_done _ _ _ _ _ E).
Qed.

Lemma try_write_same msg ps : forall w w' refused r, Lb.try_write msg ps w = (w', refused, r) -> same_reads w w'.
Proof.
  induction ps as [|p ps IH]; intros w w' refused r E; cbn [Lb.try_write] in E; [simplify_eq; apply same_reads_refl|].
  pose proof (write_same p msg w) as Hs. destruct (pipe_write p msg w) as [w1 []]; [by simplify_eq|].
  destruct (Lb.try_write msg ps w1) as [[w2 refused2] r2] eqn:E2. simplify_eq. simpl in Hs.
  exact (same_reads_trans _ _ _ Hs (IH _ _ _ _ E2)).
Qed.

(** What follows the last frame of the envelope, and the first. *)
Definition after_last (fuel : nat) (r : Z * req) : stm (env W) (bool * req) :=
  let (rc, x) := r in
  if negb (rc =? 0) then sret (false, x) else sassert (bool_decide (is_Some (reply_pipe x))) ;;; finish_begin fuel x.

Definition after_first (fuel : nat) (x : req) (r : Z * req) : stm (env W) (bool * req) :=
  if request_id_frames_enabled x then
    let (rc, x) := r in
    if negb (rc =? 0) then sret (false, x) else let! r := sendpipe_reply bottom_frame x in after_last fuel r
  else after_last fuel r.

Lemma begin_request_first fuel x mem (w : W) :
  begin_request fuel x (Env mem w) =
    (let! r := sendpipe_reply (first_frame x mem) (with_id (next_id x) (with_reply None x)) in after_first fuel x r)
      (Env (numbered_mem x mem) w).
Proof.
  unfold begin_request, send_id, first_frame, numbered_mem, after_first, after_last, next_id. cbn [with_reply request_id_frames_enabled request_id].
  destruct (request_id_frames_enabled x) eqn:Eid; [|by destruct x].
  unfold sbind at 1 2, on_mem at 1. cbn. unfold sbind at 1. unfold sbind at 3.
  destruct (sendpipe_reply _ _ _) as [[e1 [rc x1]]|]; [|done]. cbn. by destruct (rc =? 0).
Qed.

Lemma begin_request_spec fuel rest x mem (w : W) fs :
  receiving_reply x = false -> message_begins x = true -> idle (Dealer.lb (dealer x)) ->
  reading rest (Dealer.fq (dealer x)) (Env mem w) Msg.init fs -> (length fs < fuel)%nat ->
  Z.of_nat (2 + length fs + size rest) < 2 ^ 32 ->
  exists ps, NoDup ps /\ (forall p, p ∈ ps <-> p ∈ Lb.actives (Dealer.lb (dealer x))) /\
    exists w1 refused r, Lb.try_write (first_frame x mem) ps w = (w1, refused, r) /\ same_reads w w1 /\
    match r with
    | None => exists l, idle l /\ Lb.actives l = ∅ /\
        begin_request fuel x (Env mem w) = Done (Env (numbered_mem x mem) w1, (false, not_begun x l None))
    | Some p =>
        let (w2, ok) := rest_frames x p w1 in
        if ok then drained x rest p (begin_request fuel x (Env mem w))
        else exists l, idle l /\
          begin_request fuel x (Env mem w) = Done (Env (numbered_mem x mem) (pipe_rollback p w2), (false, not_begun x l (Some p)))
    end.
Proof.
  intros Hrc Hmb (Hok & Hm & Hd) Hr Hf Hz. pose proof (first_frame_more x mem) as Hmore.
  destruct (Lb.sendpipe_spec (first_frame x mem) (Dealer.lb (dealer x)) (Env (numbered_mem x mem) w) Hok Hm Hd)
    as (ps & Hnd & Hps & _ & w1 & refused & r & l & Et & Hres).
  exists ps. split; [done|]. split; [done|]. exists w1, refused, r. split; [done|].
  pose proof (try_write_same _ _ _ _ _ _ Et) as Hs. split; [done|]. rewrite begin_request_first.
  destruct (reading_numbered rest _ x mem w Msg.init fs Hr Hz) as (rest' & Hr' & Hsub).
  set (x0 := with_id (next_id x) (with_reply None x)).
  assert (Ex : forall l o, not_begun x l o = with_reply o (with_lb l x0)) by (intros; destruct x; simpl in *; by subst).
  destruct r as [p|].
  - destruct Hres as [E Htook]. unfold Lb.flushed in E. rewrite Hmore in E.
    pose proof (took_midway _ _ _ _ _ Htook Hmore) as Hmid.
    pose proof (sendpipe_reply_lb _ x0 _ _ _ _ _ _ E) as E1. rewrite (sbind_done _ _ _ _ _ E1). rewrite <- Ex.
    unfold rest_frames, after_first. destruct (request_id_frames_enabled x).
    + destruct (sendpipe_midway bottom_frame l p (Env (numbered_mem x mem) w1) Hmid) as (l2 & E2 & Htook2). cbn [e_pipes e_mem] in E2.
      pose proof (write_same p bottom_frame w1) as Hs2. destruct (pipe_write p bottom_frame w1) as [w2 []]; cbn [Z.eqb negb].
      * pose proof (sendpipe_reply_lb _ (not_begun x l (Some p)) _ _ _ _ _ _ E2) as E3. rewrite (sbind_done _ _ _ _ _ E3). cbn.
        eapply (finish_begin_drained fuel x _ rest rest' _ w2 p l2 fs); [done|by eapply took_midway|done| |done].
        refine (reading_same _ _ _ w w2 _ _ _ Hr'). exact (same_reads_trans _ _ _ Hs Hs2).
      * pose proof (sendpipe_reply_lb _ (not_begun x l (Some p)) _ _ _ _ _ _ E2) as E3. rewrite (sbind_done _ _ _ _ _ E3).
        exists (rolled_back l). split; [by eapply rolled_back_idle|done].
    + cbn. eapply (finish_begin_drained fuel x _ rest rest' _ w1 p l fs); [done|done|done| |done].
      exact (reading_same _ _ _ w w1 _ _ Hs Hr').
  - destruct Hres as (E & Hl & Ha & _ & [Hm' Hd']). exists l. split; [split_and!; congruence|]. split; [done|].
    pose proof (sendpipe_reply_lb _ x0 _ _ _ _ _ _ E) as E1. rewrite (sbind_done _ _ _ _ _ E1), Ex.
    unfold after_first. by destruct (request_id_frames_enabled x).
Qed.

(** The socket after a part of its request was taken by [p]: it waits for the reply when it was the last. *)
Definition part_sent (x : req) (l : Lb.lb) (q : Fq.fq) (p : nat) (last : bool) : req :=
  Req (Dealer.Dealer q l (Dealer.probe_router (dealer x))) last last (Some p) (request_id_frames_enabled x) (next_id x) (strict x).

Lemma send_part_begun msg x mem (w : W) l q p :
  midway l p ->
  exists l', send_part msg (begun x l q p) (Env mem w) =
      (let (w', ok) := pipe_write p msg w in
       Done (Env mem (if ok then Lb.flushed msg p w' else pipe_rollback p w'),
             if ok then (None, Msg.init, part_sent x l' q p (negb (msg_more msg)))
             else (Some EAGAIN, msg, begun x (rolled_back l) q p))) /\
    if msg_more msg then midway l' p else idle l'.
Proof.
  intros Hmid. destruct (sendpipe_midway msg l p (Env mem w) Hmid) as (l' & E & Ht). exists l'. split.
  - unfold send_part, Dealer.xsend, Dealer.sendpipe. unfold sbind at 1 2 3. cbn [e_pipes e_mem dealer begun Dealer.lb] in E |- *.
    rewrite E. destruct (pipe_write p msg w) as [w' []]; [|done]. cbn. by destruct (msg_more msg).
  - destruct (msg_more msg) eqn:Em; [by eapply took_midway|]. destruct Ht as [Hok _ _ [Hm Hd] _ _]. rewrite Em in Hm. done.
Qed.

(** The first call of [xsend] of a request, when [r] is the pipe that takes the first frame. *)
Definition request_result (fuel : nat) (rest : gmap nat Msg.msg) (x : req) (msg : Msg.msg) (e : env W) (w1 : W) (r : option nat) : Prop :=
  let mem := numbered_mem x (e_mem e) in
  match r with
  | None => exists l, idle l /\ Lb.actives l = ∅ /\ xsend fuel msg x e = Done (Env mem w1, (Some EAGAIN, msg, not_begun x l None))
  | Some p =>
      let (w2, ok) := rest_frames x p w1 in
      if ok then
        exists mem3 w3 q rest', Fq.active q <= 0 /\ rest ⊆ rest' /\ Msg.inv mem3 rest' /\
          let (w4, ok) := pipe_write p msg w3 in
          if ok then exists l, (if msg_more msg then midway l p else idle l) /\
            xsend fuel msg x e = Done (Env mem3 (Lb.flushed msg p w4), (None, Msg.init, part_sent x l q p (negb (msg_more msg))))
          else exists l, idle l /\
            xsend fuel msg x e = Done (Env mem3 (pipe_rollback p w4), (Some EAGAIN, msg, begun x l q p))
      else exists l, idle l /\ xsend fuel msg x e = Done (Env mem (pipe_rollback p w2), (Some EAGAIN, msg, not_begun x l (Some p)))
  end.

(** A request goes to the first pipe that takes the first frame of its envelope, whole.  When a request may be
    sent, [xsend] returns: the pipes that are full are passed over, the envelope goes to the first that is not, which is
    remembered, all messages that wait are thrown away, and the part follows the envelope; without such a pipe nothing
    happens but [EAGAIN]. *)
Theorem request_goes_to_one_pipe fuel rest x e msg fs :
  message_begins x = true -> receiving_reply x && strict x = false -> idle (Dealer.lb (dealer x)) ->
  reading rest (Dealer.fq (dealer x)) e Msg.init fs -> (length fs < fuel)%nat -> Z.of_nat (2 + length fs + size rest) < 2 ^ 32 ->
  exists ps, NoDup ps /\ (forall p, p ∈ ps <-> p ∈ Lb.actives (Dealer.lb (dealer x))) /\
    exists w1 refused r, Lb.try_write (first_frame x (e_mem e)) ps (e_pipes e) = (w1, refused, r) /\ request_result fuel rest x msg e w1 r.
Proof.
  intros Hmb Hrc Hi Hr Hf Hz. destruct e as [mem w]. set (x0 := if receiving_reply x then with_fsm false true x else x).
  assert (Ex : xsend fuel msg x (Env mem w) =
    (let! (sent, x) := begin_request fuel x0 in if sent then send_part msg x else sret (Some EAGAIN, msg, x)) (Env mem w)).
  { unfold xsend. rewrite Hrc. cbv zeta. fold x0. assert (message_begins x0 = true) as -> by (unfold x0; by destruct (receiving_reply x)). done. }
  unfold request_result. revert Ex. generalize (xsend fuel msg x (Env mem w)). intros o ->.
  assert (E0 : x0 = with_fsm false true x) by (unfold x0; destruct (receiving_reply x) eqn:E; [done|]; destruct x; simpl in *; by subst).
  destruct (begin_request_spec fuel rest x0 mem w fs) as (ps & Hnd & Hps & w1 & refused & r & Et & _ & Hres); [by rewrite E0..|done|done|].
  rewrite E0 in *. clear x0 E0. exists ps. split; [done|]. split; [done|]. exists w1, refused, r. split; [exact Et|]. cbv zeta.
  destruct r as [p|].
  - change (rest_frames (with_fsm false true x) p w1) with (rest_frames x p w1) in Hres. destruct (rest_frames x p w1) as [w2 []].
    + destruct Hres as (mem3 & w3 & l & q & rest' & Hmid & Ha & Hsub & Hinv & E). exists mem3, w3, q, rest'.
      split; [done|]. split; [done|]. split; [done|]. destruct (send_part_begun msg x mem3 w3 l q p Hmid) as (l' & E2 & Hl).
      rewrite (sbind_done _ _ _ _ _ E). destruct (pipe_write p msg w3) as [w4 []]; [by exists l'|].
      exists (rolled_back l). split; [by eapply rolled_back_idle|done].
    + destruct Hres as (l & Hl & E). exists l. split; [done|]. by rewrite (sbind_done _ _ _ _ _ E).
  - destruct Hres as (l & Hl & Ha & E). exists l. split; [done|]. split; [done|]. by rewrite (sbind_done _ _ _ _ _ E).
Qed.
End Send.

(** ** Where requests go wrong *)

(** The first pipe refuses the second part of a request; the part is sent again. *)
Definition retried : stm (env Boxes.boxes) (option errno * option errno * option errno * option nat) :=
  let! (rc1, _, x) := xsend 5 (part [1] true) (socket_of [4; 5]%nat false) in
  let! (rc2, msg, x) := xsend 5 (part [2] false) x in
  let! (rc3, _, x) := xsend 5 msg x in
  sret (rc1, rc2, rc3, reply_pipe x).

(** A request can arrive at a peer without its beginning.  A pipe whose peer goes away refuses the next part
    of a message, which is rolled back, with the envelope; [xsend] answers [EAGAIN] and does not begin again.  When the
    part is sent again, as a blocking send does, the next pipe takes it as a message of its own, without an envelope,
    and the reply is expected from the first pipe. *)
Theorem request_loses_envelope :
  match retried (Env Msg.memory0 {[ 4%nat := Boxes.Box 2 [] 0 []; 5%nat := Boxes.Box 9 [] 0 [] ]}) with
  | Done (e, r) => r = (None, Some EAGAIN, None, Some 4%nat) /\
      Boxes.written (Boxes.box_of 5 (e_pipes e)) = [part [2] false]
  | Crash => False
  end.
Proof. vm_compute. done. Qed.

(** The number of a request that no pipe takes is lost: each attempt takes a new number and leaves its copy
    in memory, and a blocking send attempts it again and again. *)
Theorem refused_request_leaks :
  match (let! (rc1, msg, x) := xsend 5 (part [1] false) (socket_of [] true) in
         let! (rc2, _, x) := xsend 5 msg x in
         sret (rc1, rc2, request_id x)) (Env Msg.memory0 (∅ : Boxes.boxes)) with
  | Done (e, r) => r = (Some EAGAIN, Some EAGAIN, 9) /\ size (Msg.heap (e_mem e)) = 2%nat /\ ~ Msg.inv (e_mem e) ∅
  | Crash => False
  end.
Proof.
  vm_compute. split; [done|]. split; [done|]. intros [_ Hl _ _]. specialize (Hl 0%nat (ex_intro _ _ eq_refl)). vm_compute in Hl. lia.
Qed.

Definition sample_lb : Lb.lb := Eval vm_compute in lb_of [4; 5]%nat.

Lemma sample_lb_idle : idle sample_lb.
Proof.
  split; [|done]. split; simpl; [|unfold Array.size; simpl; lia|lia]. split; [|reflexivity]. simpl.
  intros [|[|i]] p E; simpl in E; simplify_eq; reflexivity.
Qed.

Lemma request_goes_to_one_pipe_witness :
  exists ps, NoDup ps /\ (forall p, p ∈ ps <-> p ∈ Lb.actives sample_lb) /\
    exists w1 refused r,
      Lb.try_write (first_frame (socket_of [4; 5]%nat true) Msg.memory0) ps sample_world = (w1, refused, r) /\
      request_result 7 ∅ (socket_of [4; 5]%nat true) (part [1] false) (Env Msg.memory0 sample_world) w1 r.
Proof.
  exact (request_goes_to_one_pipe 7 ∅ (socket_of [4; 5]%nat true) (Env Msg.memory0 sample_world) (part [1] false)
           (concat sample_messages) eq_refl eq_refl sample_lb_idle reqreply_sample_waits ltac:(vm_compute; lia) eq_refl).
Defined.
End ReqSend.
