(* ===== verification/ReqRun.v ===== *)
(** * ReqRun: the turns of a REQ socket (libzmq/src/req.cpp)

    A REQ socket seen from outside is a small state machine: it is sending a request or
    waiting for its reply, and it is strict or not.  The theorems: every sequence of calls
    follows that machine; a strict socket sends whole requests and receives whole replies
    alternately, and says [EFSM] exactly when it is not the turn of the call. *)

From S2P Require Import Prelude Msg Pipes Array Fq Lb Xsub Dealer Req.

Module ReqRun.
Import Req.

(** The calls of the user and of the pipes. *)
Inductive call : Type :=
| Send (msg : Msg.msg)
| Recv (msg : Msg.msg)
| HasIn
| HasOut
| SetOption (name : option_name) (value : option Z)
| Attach (pipe : nat)
| ReadActivated (pipe : nat)
| WriteActivated (pipe : nat)
| Terminated (pipe : nat).

Inductive answer : Type :=
| Sent (rc : option errno) (more : bool)
| Received (rc : option errno) (more : bool)
| Readable (b : bool)
| Writable (b : bool)
| OptionSet (rc : option errno)
| Event.

Section Run.
Context {W : Type} `{PipeOps W}.

Definition perform (fuel : nat) (c : call) (x : req) : stm (env W) (answer * req) :=
  match c with
  | Send msg => let! (rc, _, x) := xsend fuel msg x in sret (Sent rc (msg_more msg), x)
  | Recv msg => let! (rc, msg, x) := xrecv fuel msg x in sret (Received rc (msg_more msg), x)
  | HasIn => let! (b, x) := xhas_in x in sret (Readable b, x)
  | HasOut => let! (b, x) := xhas_out x in sret (Writable b, x)
  | SetOption name value => let (rc, x) := xsetsockopt name value x in sret (OptionSet rc, x)
  | Attach p => let! x := xattach_pipe p x in sret (Event, x)
  | ReadActivated p => let! x := slift (xread_activated p x) in sret (Event, x)
  | WriteActivated p => let! x := slift (xwrite_activated p x) in sret (Event, x)
  | Terminated p => let! x := xpipe_terminated p x in sret (Event, x)
  end.

Fixpoint run (fuel : nat) (cs : list call) (x : req) : stm (env W) (list answer * req) :=
  match cs with
  | [] => sret ([], x)
  | c :: cs =>
      let! (a, x) := perform fuel c x in
      let! (l, x) := run fuel cs x in
      sret (a :: l, x)
  end.
End Run.

(** ** The machine *)

(** Waiting for a reply, and strict. *)
Record turn : Type := Turn { waiting : bool; is_strict : bool }.

Definition turn_of (x : req) : turn := Turn (receiving_reply x) (strict x).

(** A refused send of a socket that is not strict still gives up the reply that it was waiting for. *)
Inductive follows : turn -> call -> answer -> turn -> Prop :=
| send_refused s msg : waiting s = true -> is_strict s = true -> follows s (Send msg) (Sent (Some EFSM) (msg_more msg)) s
| send_full s msg : waiting s && is_strict s = false ->
    follows s (Send msg) (Sent (Some EAGAIN) (msg_more msg)) (Turn false (is_strict s))
| send_done s msg : waiting s && is_strict s = false ->
    follows s (Send msg) (Sent None (msg_more msg)) (Turn (negb (msg_more msg)) (is_strict s))
| recv_refused s msg : waiting s = false -> follows s (Recv msg) (Received (Some EFSM) (msg_more msg)) s
| recv_empty s msg more : waiting s = true -> follows s (Recv msg) (Received (Some EAGAIN) more) s
| recv_done s msg more : waiting s = true -> follows s (Recv msg) (Received None more) (Turn more (is_strict s))
| has_in s b : (waiting s = false -> b = false) -> follows s HasIn (Readable b) s
| has_out s b : (waiting s = true -> is_strict s = true -> b = false) -> follows s HasOut (Writable b) s
| set_relaxed s v : 0 <= v -> follows s (SetOption ZMQ_REQ_RELAXED (Some v)) (OptionSet None) (Turn (waiting s) (v =? 0))
| set_other s name value rc : (forall v, name = ZMQ_REQ_RELAXED -> value = Some v -> v < 0) ->
    follows s (SetOption name value) (OptionSet rc) s
| event s c : match c with Attach _ | ReadActivated _ | WriteActivated _ | Terminated _ => True | _ => False end ->
    follows s c Event s.

Inductive path : turn -> list call -> list answer -> turn -> Prop :=
| path_end s : path s [] [] s
| path_step s c a s1 cs l s2 : follows s c a s1 -> path s1 cs l s2 -> path s (c :: cs) (a :: l) s2.

Section Follows.
Context {W : Type} `{PipeOps W}.
Implicit Types (e : env W) (x : req).

(** *** What does not change the turn *)

Ltac run_inv := repeat match goal with
  | E : sbind _ _ _ = Done _ |- _ => let e := fresh "e" in let a := fresh "a" in let E1 := fresh "E" in
      apply sbind_inv in E as (e & a & E1 & E)
  | a : (_ * _)%type |- _ => destruct a
  | E : sret _ _ = Done _ |- _ => unfold sret in E; injection E; clear E; intros; subst
  | E : scrash _ = Done _ |- _ => discriminate E
  end.

Lemma sendpipe_reply_turn msg x e e' rc x' : sendpipe_reply msg x e = Done (e', (rc, x')) -> turn_of x' = turn_of x.
Proof. unfold sendpipe_reply. intros E. run_inv. by destruct o. Qed.

Lemma send_id_turn x e e' rc x' : send_id x e = Done (e', (rc, x')) -> turn_of x' = turn_of x.
Proof.
  unfold send_id. destruct (request_id_frames_enabled x); intros E; run_inv; [|done].
  by apply sendpipe_reply_turn in E.
Qed.

Lemma begin_request_turn fuel x e e' sent x' : begin_request fuel x e = Done (e', (sent, x')) -> turn_of x' = turn_of x.
Proof.
  unfold begin_request. intros E. run_inv. apply send_id_turn in E0. destruct (negb _); run_inv; [exact E0|].
  apply sendpipe_reply_turn in E1. destruct (negb _); run_inv; (etrans; [exact E1|exact E0]).
Qed.

Lemma send_part_turn msg x e e' rc m x' : send_part msg x e = Done (e', (rc, m, x')) ->
  (rc = Some EAGAIN /\ turn_of x' = turn_of x) \/ (rc = None /\ turn_of x' = Turn (if msg_more msg then receiving_reply x else true) (strict x)).
Proof.
  unfold send_part. intros E. run_inv. destruct (negb (z =? 0)); run_inv; [by left|]. right. by destruct (msg_more msg).
Qed.

Lemma recv_reply_turn fuel : forall msg x e e' rc m x',
  recv_reply_pipe fuel msg x e = Done (e', (rc, m, x')) -> turn_of x' = turn_of x.
Proof.
  induction fuel as [|fuel IH]; intros msg x e e' rc m x' E; [done|]. cbn [recv_reply_pipe] in E. run_inv.
  destruct (negb _); run_inv; [done|]. destruct (_ || _); run_inv; [done|]. by apply IH in E.
Qed.

Lemma skip_frames_turn fuel : forall msg x e e' m x', skip_frames fuel msg x e = Done (e', (m, x')) -> turn_of x' = turn_of x.
Proof.
  induction fuel as [|fuel IH]; intros msg x e e' m x' E; cbn [skip_frames] in E; destruct (msg_more msg); run_inv; try done.
  apply recv_reply_turn in E0. apply IH in E. by rewrite E.
Qed.

Lemma expect_turn fuel d msg x e e' v m x' : expect fuel d msg x e = Done (e', (v, m, x')) -> turn_of x' = turn_of x.
Proof.
  unfold expect. intros E. run_inv. apply recv_reply_turn in E0. destruct (negb _); run_inv; [done|].
  destruct a; run_inv; [done|]. apply skip_frames_turn in E2. by rewrite E2.
Qed.

Lemma recv_begin_turn fuel : forall msg x e e' ok m x', recv_begin fuel msg x e = Done (e', (ok, m, x')) -> turn_of x' = turn_of x.
Proof.
  induction fuel as [|fuel IH]; intros msg x e e' ok m x' E; cbn [recv_begin] in E; destruct (message_begins x); run_inv; try done.
  assert (Ev : turn_of r = turn_of x).
  { destruct (request_id_frames_enabled x); [by apply expect_turn in E0|]. by run_inv. }
  destruct v; run_inv; [done|by apply IH in E as ->|]. apply expect_turn in E1.
  destruct v; run_inv; [congruence|apply IH in E; congruence|]. rewrite <- Ev, <- E1. done.
Qed.

Lemma xsend_follows fuel msg x e e' rc m x' : xsend fuel msg x e = Done (e', (rc, m, x')) ->
  follows (turn_of x) (Send msg) (Sent rc (msg_more msg)) (turn_of x').
Proof.
  unfold xsend. destruct (receiving_reply x && strict x) eqn:Ew.
  - intros E. run_inv. apply andb_prop in Ew as [? ?]. by constructor.
  - set (x0 := if receiving_reply x then with_fsm false true x else x). cbv zeta.
    assert (E0 : turn_of x0 = Turn false (strict x)).
    { unfold x0, turn_of. destruct (receiving_reply x) eqn:Er; simpl; [done|by rewrite Er]. }
    assert (Hpart : forall x1 e1, turn_of x1 = turn_of x0 -> send_part msg x1 e1 = Done (e', (rc, m, x')) ->
      follows (turn_of x) (Send msg) (Sent rc (msg_more msg)) (turn_of x')).
    { intros x1 e1 E1 E. rewrite E0 in E1. injection E1 as Er Es. apply send_part_turn in E as [[-> E]|[-> E]]; rewrite E.
      - unfold turn_of. rewrite Er, Es. by apply (send_full (turn_of x)).
      - rewrite Es, Er. replace (if msg_more msg then false else true) with (negb (msg_more msg)) by done. by apply (send_done (turn_of x)). }
    destruct (message_begins x0); [|by apply Hpart].
    intros E. run_inv. apply begin_request_turn in E1. destruct b; [by apply (Hpart r e0)|]. run_inv. rewrite E1, E0.
    by apply (send_full (turn_of x)).
Qed.

Lemma xrecv_follows fuel msg x e e' rc m x' : xrecv fuel msg x e = Done (e', (rc, m, x')) ->
  follows (turn_of x) (Recv msg) (Received rc (msg_more m)) (turn_of x').
Proof.
  unfold xrecv. destruct (receiving_reply x) eqn:Er; cbn [negb].
  - intros E. run_inv. apply recv_begin_turn in E0. destruct b; cbn [negb] in E; run_inv.
    + apply recv_reply_turn in E1. destruct (negb _); run_inv; [rewrite E1, E0; by constructor|].
      replace (turn_of (if negb (msg_more m) then _ else _)) with (Turn (msg_more m) (strict x)); [by apply (recv_done (turn_of x))|].
      rewrite E0 in E1. injection E1 as Er1 Es1. unfold turn_of. destruct (msg_more m); simpl; congruence.
    + rewrite E0. by constructor.
  - intros E. run_inv. by constructor.
Qed.

Lemma perform_follows fuel c x e e' a x' : perform fuel c x e = Done (e', (a, x')) -> follows (turn_of x) c a (turn_of x').
Proof.
  destruct c; cbn [perform]; intros E.
  - run_inv. by eapply xsend_follows.
  - run_inv. by eapply xrecv_follows.
  - unfold xhas_in in E. run_inv. destruct (receiving_reply x) eqn:Er; cbn [negb] in E0; run_inv; constructor; [|done].
    unfold turn_of. simpl. congruence.
  - unfold xhas_out in E. run_inv. destruct (receiving_reply x && strict x) eqn:Er; run_inv; constructor; [done|].
    simpl. intros E2 E3. by rewrite E2, E3 in Er.
  - destruct (xsetsockopt name value x) as [rc x1] eqn:Ex. run_inv. unfold xsetsockopt in Ex.
    destruct (Dealer.xsetsockopt _ value (dealer x)) as [rc1 d1].
    destruct name, value as [v|]; try (simplify_eq; apply set_other; by intros);
      destruct (Z.leb_spec 0 v); simplify_eq.
    + apply set_other. by intros.
    + apply set_other. by intros.
    + by apply (set_relaxed (turn_of x)).
    + apply set_other. intros ? _ [= <-]. lia.
  - unfold xattach_pipe in E. run_inv. by constructor.
  - unfold xread_activated, slift in E. run_inv. destruct (Dealer.xread_activated _ _); [|done]. simpl in E0. simplify_eq. by constructor.
  - unfold xwrite_activated, slift in E. run_inv. destruct (Dealer.xwrite_activated _ _); [|done]. simpl in E0. simplify_eq. by constructor.
  - unfold xpipe_terminated in E. run_inv. replace (turn_of (with_dealer _ _)) with (turn_of x); [by constructor|]. by case_bool_decide.
Qed.

Lemma run_path fuel cs : forall x e e' l x', run fuel cs x e = Done (e', (l, x')) -> path (turn_of x) cs l (turn_of x').
Proof.
  induction cs as [|c cs IH]; intros x e e' l x' E; cbn [run] in E; run_inv; [constructor|].
  apply perform_follows in E0. apply IH in E1. by econstructor.
Qed.
End Follows.

(** ** Requests and replies alternate *)

(** The parts that were sent and received, with the flag. *)
Inductive part : Type := Out (more : bool) | In (more : bool).

Definition part_of (a : answer) : option part :=
  match a with
  | Sent None more => Some (Out more)
  | Received None more => Some (In more)
  | _ => None
  end.

Definition parts (l : list answer) : list part := omap part_of l.

(** A request and its reply. *)
Definition exchange (l : list part) : Prop :=
  exists a b, l = replicate a (Out true) ++ Out false :: replicate b (In true) ++ [In false].

Inductive exchanges : list part -> Prop :=
| no_exchange : exchanges []
| more_exchanges l ls : exchange l -> exchanges ls -> exchanges (l ++ ls).

(** A request has been sent whose reply has not been received to the end. *)
Definition owed (ps : list part) : bool :=
  match last ps with Some (Out more) => negb more | Some (In more) => more | None => false end.

(** The turn after a part. *)
Definition next (w : bool) (p : part) : option bool :=
  match w, p with
  | false, Out more => Some (negb more)
  | true, In more => Some more
  | _, _ => None
  end.

Fixpoint next_all (w : bool) (ps : list part) : option bool :=
  match ps with [] => Some w | p :: ps => match next w p with Some w => next_all w ps | None => None end end.

Lemma reqrun_next_all_app w ps qs : next_all w (ps ++ qs) = match next_all w ps with Some w => next_all w qs | None => None end.
Proof. revert w. induction ps as [|p ps IH]; intros w; [done|]. simpl. destruct (next w p); [apply IH|done]. Qed.

Lemma next_owed ps : forall w w', next_all w ps = Some w' -> ps <> [] -> w' = owed ps.
Proof.
  induction ps as [|p ps IH]; intros w w' E Hn; [done|]. simpl in E. destruct (next w p) as [w1|] eqn:Ep; [|done].
  destruct ps as [|q ps]; [|by apply (IH w1)]. simpl in E. simplify_eq. destruct w, p; simpl in *; by simplify_eq.
Qed.

(** Whatever was sent and received can be completed to exchanges. *)
Lemma reqrun_next_completes ps : forall w w', next_all w ps = Some w' ->
  exists qs, if w then exists b l, ps ++ qs = replicate b (In true) ++ In false :: l /\ exchanges l
             else exists l ls, ps ++ qs = l ++ ls /\ exchange l /\ exchanges ls.
Proof.
  assert (Hnil : exchanges []) by constructor.
  induction ps as [|p ps IH]; intros w w' E.
  - destruct w; [by exists [In false], 0%nat, []|]. exists [Out false; In false], [Out false; In false], []. split; [done|]. split; [|done].
    by exists 0%nat, 0%nat.
  - simpl in E. destruct w, p as [m|m]; simpl in E; try done; destruct m; apply IH in E as (qs & E); exists qs; simpl in E |- *.
    + destruct E as (b & l & -> & Hl). by exists (S b), l.
    + destruct E as (l & ls & -> & Hl & Hls). exists 0%nat, (l ++ ls). split; [done|]. by constructor.
    + destruct E as (l & ls & -> & (a & b & ->) & Hls). eexists _, ls. split; [|split; [by exists (S a), b|done]]. done.
    + destruct E as (b & l & -> & Hl). exists (Out false :: replicate b (In true) ++ [In false]), l. split; [|split; [by exists 0%nat, b|done]].
      simpl. by rewrite <- app_assoc.
Qed.

(** A strict socket keeps the turn. *)
Definition keeps_strict (c : call) : Prop := forall v, c <> SetOption ZMQ_REQ_RELAXED v.

Lemma follows_strict s c a s' : follows s c a s' -> is_strict s = true -> keeps_strict c ->
  is_strict s' = true /\ next_all (waiting s) (option_list (part_of a)) = Some (waiting s') /\
  match a with
  | Sent rc _ => rc = Some EFSM <-> waiting s = true
  | Received rc _ => rc = Some EFSM <-> waiting s = false
  | _ => True
  end.
Proof.
  intros Hf Hs Hk. destruct Hf as [s msg Hw _|s msg Hw|s msg Hw|s msg Hw|s msg more Hw|s msg more Hw|s b Hb|s b Hb|s v Hv|s name value rc Hn|s c Hc];
    try (rewrite Hs, andb_true_r in Hw); simpl; try rewrite Hw; try done.
  by destruct (Hk (Some v)).
Qed.

Lemma path_strict s cs l s' : path s cs l s' -> is_strict s = true -> Forall keeps_strict cs ->
  next_all (waiting s) (parts l) = Some (waiting s') /\
  forall l1 a l2, l = l1 ++ a :: l2 -> exists w, next_all (waiting s) (parts l1) = Some w /\
    match a with
    | Sent rc _ => rc = Some EFSM <-> w = true
    | Received rc _ => rc = Some EFSM <-> w = false
    | _ => True
    end.
Proof.
  induction 1 as [s|s c a s1 cs l s2 Hf _ IH]; intros Hs Hk.
  { split; [done|]. intros l1 a l2 E. by destruct l1. }
  apply Forall_cons in Hk as [Hk Hks]. destruct (follows_strict _ _ _ _ Hf Hs Hk) as (Hs1 & Hn & Ha). destruct (IH Hs1 Hks) as [Hall Hat].
  assert (Ep : forall l, next_all (waiting s) (parts (a :: l)) = next_all (waiting s1) (parts l)).
  { intros l0. replace (parts (a :: l0)) with (option_list (part_of a) ++ parts l0) by (unfold parts; simpl; by destruct (part_of a)).
    by rewrite reqrun_next_all_app, Hn. }
  split; [by rewrite Ep|]. intros [|a1 l1] b l2 [= -> ->]; [by exists (waiting s)|]. destruct (Hat l1 b l2 eq_refl) as (w & Hw & Hb).
  exists w. by rewrite Ep.
Qed.

(** A REQ socket follows the machine of its turns, whatever its user and its pipes do. *)
Theorem req_takes_turns {W} `{PipeOps W} fuel cs x (e e' : env W) l x' :
  run fuel cs x e = Done (e', (l, x')) -> path (turn_of x) cs l (turn_of x').
Proof. apply run_path. Qed.

(** C27: The parts that go through a strict socket are those of requests, each followed by its whole reply, up to an
    exchange that is not finished; a call is refused with [EFSM] exactly when it is out of turn. *)
Theorem req_alternates {W} `{PipeOps W} fuel cs random (e e' : env W) l x' :
  Forall keeps_strict cs -> run fuel cs (req_new random) e = Done (e', (l, x')) ->
  (exists qs, exchanges (parts l ++ qs)) /\ receiving_reply x' = owed (parts l) /\
  forall l1 a l2, l = l1 ++ a :: l2 ->
    match a with
    | Sent rc _ => rc = Some EFSM <-> owed (parts l1) = true
    | Received rc _ => rc = Some EFSM <-> owed (parts l1) = false
    | _ => True
    end.
Proof.
  intros Hk E. apply run_path in E. destruct (path_strict _ _ _ _ E eq_refl Hk) as [Hall Hat].
  assert (Howed : forall ps w, next_all false ps = Some w -> w = owed ps).
  { intros [|p ps] w Ew; [by injection Ew as <-|]. by apply (next_owed _ false). }
  split; [|split].
  - destruct (reqrun_next_completes _ _ _ Hall) as (qs & l1 & l2 & Eq & H1 & H2). exists qs. rewrite Eq. by constructor.
  - by apply Howed in Hall.
  - intros l1 a l2 El. destruct (Hat l1 a l2 El) as (w & Ew & Ha). by rewrite <- (Howed _ _ Ew).
Qed.

(** ** A request, and calls that are out of turn *)

Definition sample_calls : list call :=
  [Recv Msg.init; Attach 4; Send (Msg.set_flags Msg.more Msg.init); Send Msg.init; Send Msg.init; Recv Msg.init; HasOut; Terminated 4].

Definition sample_env : env Boxes.boxes := Env Msg.memory0 {[ 4%nat := Boxes.Box 9 [] 0 [] ]}.

Definition sample_answers : list answer :=
  [Received (Some EFSM) false; Event; Sent None true; Sent None false; Sent (Some EFSM) false; Received (Some EAGAIN) false;
   Writable false; Event].

Definition sample_end : req :=
  Eval vm_compute in match run 3 sample_calls (req_new 7) sample_env with Done (_, (_, x)) => x | Crash => req_new 7 end.

Lemma req_takes_turns_witness :
  exists e', run 3 sample_calls (req_new 7) sample_env = Done (e', (sample_answers, sample_end)) /\
    path (Turn false true) sample_calls sample_answers (Turn true true).
Proof.
  eexists. split; [vm_compute; reflexivity|].
  eapply (req_takes_turns 3 sample_calls (req_new 7) sample_env _ sample_answers sample_end). vm_compute. reflexivity.
Defined.

Lemma req_alternates_witness :
  exists e' x', run 3 sample_calls (req_new 7) sample_env = Done (e', (sample_answers, x')) /\
    parts sample_answers = [Out true; Out false] /\ exists qs, exchanges (parts sample_answers ++ qs).
Proof.
  eexists _, _. split; [vm_compute; reflexivity|]. split; [reflexivity|].
  eapply (req_alternates 3 sample_calls 7 sample_env); [by repeat constructor|vm_compute; reflexivity].
Defined.
End ReqRun.
