(* ===== verification/Yqueue.v ===== *)
(** * Yqueue: yqueue_t, the queue in chunks under the pipes (libzmq/src/yqueue.hpp)

    The chunks are a heap indexed by their addresses; [malloc] may return any free
    address, so addresses come back into use, and the spare chunk is recycled.  The
    theorems show that the queue is a list of slots and that two positions have the
    same address only if they are the same position. *)

From S2P Require Import Prelude.

Module Yq.

Section Yqueue.
Context {T : Type} (N : nat).

Record chunk : Type := Chunk {
  values : gmap nat T;
  prev : option nat;
  next : option nat
}.

(** What [malloc] returns is not initialised. *)
Definition raw_chunk : chunk := Chunk ∅ None None.

Record yqueue : Type := Yqueue {
  chunks : gmap nat chunk;
  begin_chunk : nat;
  begin_pos : nat;
  back_chunk : option nat;
  back_pos : nat;
  end_chunk : nat;
  end_pos : nat;
  spare_chunk : option nat
}.

(** [a] is the address [malloc] returns. *)
Definition yqueue_new (a : nat) : yqueue :=
  Yqueue {[ a := raw_chunk ]} a 0 None 0 a 0 None.

Definition load (h : gmap nat chunk) (a : nat) : outcome chunk := deref (h !! a).

Definition set_next (a : nat) (x : option nat) (h : gmap nat chunk) : outcome (gmap nat chunk) :=
  let* c := load h a in Done (<[a := Chunk (values c) (prev c) x]> h).

Definition set_prev (a : nat) (x : option nat) (h : gmap nat chunk) : outcome (gmap nat chunk) :=
  let* c := load h a in Done (<[a := Chunk (values c) x (next c)]> h).

(** The addresses of the front and back elements. *)
Definition front_ptr (q : yqueue) : nat * nat := (begin_chunk q, begin_pos q).

Definition back_ptr (q : yqueue) : outcome (nat * nat) :=
  let* a := deref (back_chunk q) in Done (a, back_pos q).

Definition front (q : yqueue) : outcome T :=
  let* c := load (chunks q) (begin_chunk q) in deref (values c !! begin_pos q).

Definition back (q : yqueue) : outcome T :=
  let* (a, i) := back_ptr q in
  let* c := load (chunks q) a in deref (values c !! i).

(** [queue.back () = v] *)
Definition set_back (v : T) (q : yqueue) : outcome yqueue :=
  let* (a, i) := back_ptr q in
  let* c := load (chunks q) a in
  Done (Yqueue (<[a := Chunk (<[i := v]> (values c)) (prev c) (next c)]> (chunks q))
               (begin_chunk q) (begin_pos q) (back_chunk q) (back_pos q)
               (end_chunk q) (end_pos q) (spare_chunk q)).

Definition push (a : nat) (q : yqueue) : outcome yqueue :=
  if decide (S (end_pos q) <> N) then
    Done (Yqueue (chunks q) (begin_chunk q) (begin_pos q) (Some (end_chunk q)) (end_pos q)
                 (end_chunk q) (S (end_pos q)) (spare_chunk q))
  else
    let '(sc, h) := match spare_chunk q with
                    | Some sc => (sc, chunks q)
                    | None => (a, <[a := raw_chunk]> (chunks q))
                    end in
    let* h := set_next (end_chunk q) (Some sc) h in
    let* h := set_prev sc (Some (end_chunk q)) h in
    Done (Yqueue h (begin_chunk q) (begin_pos q) (Some (end_chunk q)) (end_pos q) sc 0 None).

Definition unpush (q : yqueue) : outcome yqueue :=
  let* (bc, bp) := if decide (back_pos q <> 0%nat) then Done (back_chunk q, (back_pos q - 1)%nat)
                   else let* a := deref (back_chunk q) in
                        let* c := load (chunks q) a in Done (prev c, (N - 1)%nat) in
  if decide (end_pos q <> 0%nat) then
    Done (Yqueue (chunks q) (begin_chunk q) (begin_pos q) bc bp (end_chunk q) (end_pos q - 1) (spare_chunk q))
  else
    let* c := load (chunks q) (end_chunk q) in
    let* ec := deref (prev c) in
    let* c' := load (chunks q) ec in
    let h := match next c' with Some x => delete x (chunks q) | None => chunks q end in
    let* h := set_next ec None h in
    Done (Yqueue h (begin_chunk q) (begin_pos q) bc bp ec (N - 1) (spare_chunk q)).

Definition pop (q : yqueue) : outcome yqueue :=
  if decide (S (begin_pos q) = N) then
    let o := begin_chunk q in
    let* c := load (chunks q) o in
    let* b := deref (next c) in
    let* h := set_prev b None (chunks q) in
    let h := match spare_chunk q with Some cs => delete cs h | None => h end in
    Done (Yqueue h b 0 (back_chunk q) (back_pos q) (end_chunk q) (end_pos q) (Some o))
  else
    Done (Yqueue (chunks q) (begin_chunk q) (S (begin_pos q)) (back_chunk q) (back_pos q)
                 (end_chunk q) (end_pos q) (spare_chunk q)).

(** ** The queue as a list of slots *)

(** The address of the [n]-th position of a chain of chunks. *)
Definition addr (chain : list nat) (n : nat) : option (nat * nat) :=
  a ← chain !! (n / N)%nat; Some (a, (n mod N)%nat).

Definition slot (h : gmap nat chunk) (p : option (nat * nat)) : option T :=
  x ← p; c ← h !! x.1; values c !! x.2.

(** [l] is what the slots hold, [None] where that does not matter. *)
Record rep (q : yqueue) (chain : list nat) (l : list (option T)) : Prop := {
  r_nodup : NoDup chain;
  r_head : chain !! 0%nat = Some (begin_chunk q);
  r_last : chain !! (length chain - 1)%nat = Some (end_chunk q);
  r_links : forall i a b, chain !! i = Some a -> chain !! S i = Some b ->
    (exists c, chunks q !! a = Some c /\ next c = Some b) /\
    (exists c, chunks q !! b = Some c /\ prev c = Some a);
  r_alive : forall a, a ∈ chain -> is_Some (chunks q !! a);
  r_spare : forall s, spare_chunk q = Some s -> is_Some (chunks q !! s) /\ s ∉ chain;
  r_begin : (begin_pos q < N)%nat;
  r_end : (end_pos q < N)%nat;
  r_len : (begin_pos q + length l = (length chain - 1) * N + end_pos q)%nat;
  r_back : l <> [] -> exists a, back_chunk q = Some a /\
    addr chain (begin_pos q + (length l - 1)) = Some (a, back_pos q);
  r_slots : forall j v, l !! j = Some (Some v) -> slot (chunks q) (addr chain (begin_pos q + j)) = Some v
}.

(** The address of the [j]-th element. *)
Definition pos (q : yqueue) (chain : list nat) (j : nat) : option (nat * nat) :=
  addr chain (begin_pos q + j).

Lemma div_mod_eq n k i : (i < N)%nat -> n = (k * N + i)%nat -> (n / N = k)%nat /\ (n mod N = i)%nat.
Proof.
  intros Hi ->. split.
  - rewrite Nat.add_comm, Nat.div_add by lia. rewrite Nat.div_small by done. lia.
  - rewrite Nat.add_comm, Nat.Div0.mod_add. by apply Nat.mod_small.
Qed.

Lemma addr_eq chain k i a : (i < N)%nat -> chain !! k = Some a -> addr chain (k * N + i) = Some (a, i).
Proof. intros Hi Hk. unfold addr. destruct (div_mod_eq (k * N + i) k i Hi eq_refl) as [-> ->]. by rewrite Hk. Qed.

Lemma addr_split chain n : (0 < N)%nat -> addr chain n = a ← chain !! (n / N)%nat; Some (a, (n mod N)%nat).
Proof. done. Qed.

Lemma addr_inj chain m n p :
  (0 < N)%nat -> NoDup chain -> addr chain m = Some p -> addr chain n = Some p -> m = n.
Proof.
  intros HN Hnd. unfold addr. intros Hm Hn.
  destruct (chain !! (m / N)%nat) as [a|] eqn:Em; [|done]. destruct (chain !! (n / N)%nat) as [b|] eqn:En; [|done].
  simpl in *. injection Hm as <-. injection Hn as <- E.
  pose proof (proj1 (NoDup_alt chain) Hnd _ _ _ Em En) as Hd.
  rewrite (Nat.div_mod_eq m N), (Nat.div_mod_eq n N). congruence.
Qed.

Lemma addr_some q chain l j :
  rep q chain l -> (j <= length l)%nat -> exists p, pos q chain j = Some p /\ p.1 ∈ chain.
Proof.
  intros R Hj. pose proof (r_begin _ _ _ R). pose proof (r_end _ _ _ R). pose proof (r_len _ _ _ R).
  assert (Hc : chain <> []) by (intros E; pose proof (r_head _ _ _ R) as Hh; rewrite E in Hh; done).
  assert (0 < length chain)%nat by (destruct chain; [done|simpl; lia]).
  unfold pos, addr. destruct (lookup_lt_is_Some_2 chain ((begin_pos q + j) / N)%nat) as [a Ha].
  { apply Nat.Div0.div_lt_upper_bound. nia. }
  rewrite Ha. simpl. eexists; split; [done|]. simpl. by eapply list_elem_of_lookup_2.
Qed.

Lemma pos_front q chain l : rep q chain l -> pos q chain 0 = Some (front_ptr q).
Proof.
  intros R. unfold pos, front_ptr. pose proof (addr_eq chain 0 (begin_pos q) _ (r_begin _ _ _ R) (r_head _ _ _ R)) as E.
  simpl in E. by rewrite Nat.add_0_r.
Qed.

Lemma back_ptr_spec q chain l :
  rep q chain l -> l <> [] -> exists p, back_ptr q = Done p /\ pos q chain (length l - 1) = Some p.
Proof.
  intros R Hl. destruct (r_back _ _ _ R Hl) as (a & Ea & Hp). unfold back_ptr. rewrite Ea. simpl. eauto.
Qed.

Lemma front_spec q chain v l : rep q chain (Some v :: l) -> front q = Done v.
Proof.
  intros R. pose proof (r_slots _ _ _ R 0%nat v eq_refl) as Hs. pose proof (pos_front _ _ _ R) as Hp.
  unfold pos in Hp. rewrite Hp in Hs. unfold slot, front_ptr in Hs. simpl in Hs.
  unfold front, load. destruct (chunks q !! begin_chunk q); simpl in *; [|done]. by rewrite Hs.
Qed.

Lemma back_spec q chain v l : rep q chain (l ++ [Some v]) -> back q = Done v.
Proof.
  intros R. destruct (back_ptr_spec _ _ _ R) as ([a i] & Eb & Hp); [by destruct l|].
  pose proof (r_slots _ _ _ R (length l) v) as Hs. rewrite lookup_app_r, Nat.sub_diag in Hs by done.
  specialize (Hs eq_refl). rewrite length_app in Hp. simpl in Hp.
  replace (length l + 1 - 1)%nat with (length l) in Hp by lia. unfold pos in Hp. rewrite Hp in Hs.
  unfold slot in Hs; simpl in Hs. unfold back. rewrite Eb. simpl. unfold load.
  destruct (chunks q !! a); simpl in *; [|done]. by rewrite Hs.
Qed.

Lemma chain_pos q chain l : rep q chain l -> (0 < length chain)%nat.
Proof. intros R. pose proof (r_head _ _ _ R) as E. destruct chain; [done|simpl; lia]. Qed.

Lemma chain_inj (chain : list nat) i j a :
  NoDup chain -> chain !! i = Some a -> chain !! j = Some a -> i = j.
Proof. intros Hnd. exact (proj1 (NoDup_alt chain) Hnd i j a). Qed.

(** What a link of a chunk becomes does not matter to its elements. *)
Definition values_at (h : gmap nat chunk) (a : nat) : option (gmap nat T) := values <$> h !! a.

Lemma slot_values h h' p :
  (forall a i, p = Some (a, i) -> values_at h' a = values_at h a) -> slot h' p = slot h p.
Proof.
  intros Hv. destruct p as [[a i]|]; [|done]. specialize (Hv a i eq_refl). unfold slot, values_at in *; simpl.
  destruct (h !! a), (h' !! a); simpl in *; congruence.
Qed.

Lemma set_back_spec q chain l x v :
  rep q chain (l ++ [x]) ->
  exists q', set_back v q = Done q' /\ rep q' chain (l ++ [Some v]) /\
    (forall j, pos q' chain j = pos q chain j) /\ dom (chunks q') = dom (chunks q).
Proof.
  intros R. destruct (back_ptr_spec _ _ _ R) as ([a i] & Eb & Hp); [by destruct l|].
  rewrite length_app in Hp; simpl in Hp. replace (length l + 1 - 1)%nat with (length l) in Hp by lia.
  destruct (addr_some _ _ _ (length l) R) as (p & Hp' & Hin); [rewrite length_app; simpl; lia|].
  rewrite Hp in Hp'. injection Hp' as <-. simpl in Hin.
  destruct (r_alive _ _ _ R a Hin) as [c Hc].
  unfold set_back. rewrite Eb. simpl. unfold load. rewrite Hc. simpl. eexists; split; [reflexivity|].
  set (c' := Chunk (<[i:=v]> (values c)) (prev c) (next c)).
  split; [|split; [done|simpl; rewrite dom_insert_L; apply elem_of_dom_2 in Hc; set_solver]].
  assert (Hlen : length (l ++ [Some v]) = length (l ++ [x])) by (rewrite !length_app; done).
  destruct R as [R1 R2 R3 R4 R5 R6 R7 R8 R9 R10 R11]. split; simpl; try done.
  - intros k b d Hb Hd. destruct (R4 k b d Hb Hd) as [(c1 & E1 & N1) (c2 & E2 & P2)].
    split.
    + destruct (decide (b = a)) as [->|]; [|exists c1; by rewrite lookup_insert_ne].
      exists c'. rewrite lookup_insert_eq. split; [done|]. simpl. congruence.
    + destruct (decide (d = a)) as [->|]; [|exists c2; by rewrite lookup_insert_ne].
      exists c'. rewrite lookup_insert_eq. split; [done|]. simpl. congruence.
  - intros b Hb. rewrite lookup_insert_is_Some. destruct (decide (a = b)); [by left|right; auto].
  - intros s Hs. destruct (R6 s Hs) as [? ?]. split; [|done]. rewrite lookup_insert_is_Some.
    destruct (decide (a = s)); [by left|by right].
  - by rewrite Hlen.
  - intros _. rewrite Hlen. apply R10. by destruct l.
  - intros j u Hj. apply lookup_app_Some in Hj as [Hj|[Hlj Hj]].
    + assert (Hjl : (j < length l)%nat) by by eapply lookup_lt_Some.
      specialize (R11 j u). rewrite lookup_app_l in R11 by done. specialize (R11 Hj). rewrite <- R11.
      unfold slot. destruct (addr chain (begin_pos q + j)) as [[b k]|] eqn:Ea; [|done]. simpl.
      destruct (decide (a = b)) as [->|]; [|by rewrite lookup_insert_ne].
      rewrite lookup_insert_eq, Hc. simpl. rewrite lookup_insert_ne; [done|]. intros ->.
      assert (begin_pos q + j = begin_pos q + length l)%nat; [|lia].
      apply (addr_inj chain _ _ (b, k)); [lia|done|done|done].
    + apply list_lookup_singleton_Some in Hj as [Hj Hv]. injection Hv as <-.
      replace j with (length l) by lia. unfold pos in Hp. rewrite Hp. unfold slot. simpl.
      rewrite lookup_insert_eq. simpl. by rewrite lookup_insert_eq.
Qed.

(** ** push *)

(** The chain grows by chunk [sc]. *)
Lemma push_link q chain l sc h :
  rep q chain l -> S (end_pos q) = N -> sc ∉ chain -> is_Some (h !! sc) ->
  (forall a, a ∈ chain -> h !! a = chunks q !! a) ->
  exists h', (let* h := set_next (end_chunk q) (Some sc) h in set_prev sc (Some (end_chunk q)) h) = Done h' /\
    dom h' = dom h /\
    rep (Yqueue h' (begin_chunk q) (begin_pos q) (Some (end_chunk q)) (end_pos q) sc 0 None)
        (chain ++ [sc]) (l ++ [None]).
Proof.
  intros R HN Hsc [cs Hcs] Hh. pose proof (chain_pos _ _ _ R) as Hpos.
  destruct R as [R1 R2 R3 R4 R5 R6 R7 R8 R9 R10 R11].
  set (e := end_chunk q) in *. assert (He : e ∈ chain) by by eapply list_elem_of_lookup_2.
  assert (Hne : e <> sc) by (intros E; congruence).
  destruct (R5 e He) as [ce Hce]. pose proof (Hh e He) as Hhe. rewrite Hce in Hhe.
  unfold set_next, set_prev, load. rewrite Hhe. simpl. rewrite lookup_insert_ne, Hcs by done. simpl.
  eexists; split; [reflexivity|].
  set (ce' := Chunk (values ce) (prev ce) (Some sc)). set (cs' := Chunk (values cs) (Some e) (next cs)).
  split. { rewrite !dom_insert_L. apply elem_of_dom_2 in Hcs, Hhe. set_solver. }
  assert (Hold : forall a, a ∈ chain -> a <> e -> <[sc:=cs']> (<[e:=ce']> h) !! a = chunks q !! a).
  { intros a Ha Hae. rewrite !lookup_insert_ne by congruence. auto. }
  assert (He' : <[sc:=cs']> (<[e:=ce']> h) !! e = Some ce').
  { rewrite lookup_insert_ne by congruence. apply lookup_insert_eq. }
  assert (Hval : forall a, a ∈ chain -> values_at (<[sc:=cs']> (<[e:=ce']> h)) a = values_at (chunks q) a).
  { intros a Ha. unfold values_at. destruct (decide (a = e)) as [->|]; [by rewrite He', Hce|by rewrite Hold]. }
  assert (Haddr : forall n, (n / N < length chain)%nat -> addr (chain ++ [sc]) n = addr chain n).
  { intros n Hn. unfold addr. by rewrite lookup_app_l. }
  split; simpl; rewrite ?length_app; simpl.
  - apply NoDup_app. split; [done|]. split; [|apply NoDup_singleton].
    intros x Hx. rewrite list_elem_of_singleton. intros ->. done.
  - by rewrite lookup_app_l.
  - rewrite lookup_app_r by lia. by replace (length chain + 1 - 1 - length chain)%nat with 0%nat by lia.
  - intros i a b Ha Hb. pose proof (lookup_lt_Some _ _ _ Hb) as Hlt. rewrite length_app in Hlt; simpl in Hlt.
    rewrite lookup_app_l in Ha by lia. destruct (decide (S i = length chain)) as [Hi|Hi].
    + rewrite lookup_app_r in Hb by lia. replace (S i - length chain)%nat with 0%nat in Hb by lia.
      injection Hb as <-. replace (length chain - 1)%nat with i in R3 by lia.
      assert (a = e) by congruence. subst a. split; [by exists ce'|]. exists cs'. by rewrite lookup_insert_eq.
    + rewrite lookup_app_l in Hb by lia. destruct (R4 i a b Ha Hb) as [(c1 & E1 & N1) (c2 & E2 & P2)].
      assert (a ∈ chain) by by eapply list_elem_of_lookup_2. assert (b ∈ chain) by by eapply list_elem_of_lookup_2.
      assert (a <> e). { intros ->. pose proof (chain_inj chain _ _ e R1 Ha R3). lia. }
      split; [exists c1; by rewrite Hold|].
      destruct (decide (b = e)) as [->|]; [|exists c2; by rewrite Hold].
      exists ce'. split; [done|]. simpl. congruence.
  - intros a [Ha|Ha%list_elem_of_singleton]%elem_of_app.
    + destruct (decide (a = e)) as [->|]; [by rewrite He'|]. rewrite Hold by done. auto.
    + subst a. rewrite lookup_insert_eq. by eexists.
  - done.
  - done.
  - lia.
  - nia.
  - intros _. exists e. split; [done|].
    replace (begin_pos q + (length l + 1 - 1))%nat with ((length chain - 1) * N + end_pos q)%nat by lia.
    apply addr_eq; [done|]. rewrite lookup_app_l by lia. done.
  - intros j v Hj. assert (Hjl : (j < length l)%nat /\ l !! j = Some (Some v)).
    { apply lookup_app_Some in Hj as [Hj|[_ Hj]]; [split; [by eapply lookup_lt_Some|done]|].
      by apply list_lookup_singleton_Some in Hj as [_ ?]. }
    destruct Hjl as [Hjl Hj']. rewrite <- (R11 j v Hj').
    assert (Hdiv : ((begin_pos q + j) / N < length chain)%nat) by (apply Nat.Div0.div_lt_upper_bound; nia).
    rewrite Haddr by done. apply slot_values. intros a i Ea. apply Hval. unfold addr in Ea.
    destruct (chain !! ((begin_pos q + j) / N)%nat) as [a0|] eqn:E0; [|done]. simpl in Ea. injection Ea as <- <-.
    by eapply list_elem_of_lookup_2.
Qed.

Lemma push_spec q chain l a :
  rep q chain l -> chunks q !! a = None ->
  exists q' chain', push a q = Done q' /\ rep q' chain' (l ++ [None]) /\
    (forall j, (j <= length l)%nat -> pos q' chain' j = pos q chain j).
Proof.
  intros R Ha. pose proof (chain_pos _ _ _ R) as Hpos. unfold push. destruct (decide (S (end_pos q) <> N)) as [Hne|Heq].
  - eexists _, chain. split; [reflexivity|]. split; [|done].
    destruct R as [R1 R2 R3 R4 R5 R6 R7 R8 R9 R10 R11]. split; simpl; try done.
    + lia.
    + rewrite length_app; simpl. lia.
    + intros _. exists (end_chunk q). split; [done|]. rewrite length_app; simpl.
      replace (begin_pos q + (length l + 1 - 1))%nat with ((length chain - 1) * N + end_pos q)%nat by lia.
      by apply addr_eq.
    + intros j v Hj. apply R11. apply lookup_app_Some in Hj as [Hj|[_ Hj]]; [done|].
      by apply list_lookup_singleton_Some in Hj as [_ ?].
  - assert (HN : S (end_pos q) = N) by (destruct (decide (S (end_pos q) = N)); [done|tauto]). clear Heq.
    set (scn := match spare_chunk q with Some sc => sc | None => a end).
    set (h0 := match spare_chunk q with Some sc => chunks q | None => <[a := raw_chunk]> (chunks q) end).
    assert (Hpush : forall c h, (c, h) = (scn, h0) ->
       match spare_chunk q with Some sc => (sc, chunks q) | None => (a, <[a:=raw_chunk]> (chunks q)) end = (c, h)).
    { intros c h [= -> ->]. unfold scn, h0. by destruct (spare_chunk q). }
    rewrite (Hpush _ _ eq_refl). cbn beta iota.
    assert (Hscn : scn ∉ chain).
    { unfold scn. destruct (spare_chunk q) as [sc|] eqn:Es; [by apply (r_spare _ _ _ R)|].
      intros Hin. destruct (r_alive _ _ _ R a Hin). congruence. }
    destruct (push_link q chain l scn h0 R HN Hscn) as (h' & E & _ & R').
    { unfold scn, h0. destruct (spare_chunk q) as [sc|] eqn:Es; [by apply (r_spare _ _ _ R)|].
      rewrite lookup_insert_eq. by eexists. }
    { intros b Hb. unfold h0. destruct (spare_chunk q); [done|]. apply lookup_insert_ne. intros ->.
      destruct (r_alive _ _ _ R b Hb). congruence. }
    destruct (set_next (end_chunk q) (Some scn) h0) as [h1|]; simpl in E |- *; [|done].
    rewrite E. simpl. eexists _, (chain ++ [scn]). split; [reflexivity|]. split; [exact R'|].
    intros j Hj. unfold pos; simpl. unfold addr. rewrite lookup_app_l; [done|].
    pose proof (r_len _ _ _ R). pose proof (r_end _ _ _ R). apply Nat.Div0.div_lt_upper_bound. nia.
Qed.

(** ** pop *)
Lemma addr_tail b chain n : (0 < N)%nat -> addr (b :: chain) (N + n) = addr chain n.
Proof.
  intros HN. unfold addr. replace (N + n)%nat with (n + 1 * N)%nat by lia.
  rewrite Nat.div_add, Nat.Div0.mod_add by lia. by replace (n / N + 1)%nat with (S (n / N)) by lia.
Qed.

Lemma pop_spec q chain x l :
  rep q chain (x :: l) ->
  exists q' chain', pop q = Done q' /\ rep q' chain' l /\
    (forall j, pos q' chain' j = pos q chain (S j)).
Proof.
  intros R. pose proof (chain_pos _ _ _ R) as Hpos. unfold pop. destruct (decide (S (begin_pos q) = N)) as [HN|HN].
  - pose proof R as [R1 R2 R3 R4 R5 R6 R7 R8 R9 R10 R11]. simpl in R9.
    destruct chain as [|b0 [|b1 rest]]; [done|simpl in R9; lia|].
    simpl in R2. injection R2 as R2. rewrite <- R2.
    destruct (R4 0%nat b0 b1 eq_refl eq_refl) as [(c0 & E0 & N0) (c1 & E1 & P1)].
    unfold load, set_prev, load. rewrite E0. simpl. rewrite N0. simpl. rewrite E1. simpl.
    set (c1' := Chunk (values c1) None (next c1)).
    set (h := match spare_chunk q with Some cs => delete cs (<[b1:=c1']> (chunks q)) | None => <[b1:=c1']> (chunks q) end).
    assert (Hh : forall a, a ∈ b0 :: b1 :: rest -> h !! a = <[b1:=c1']> (chunks q) !! a).
    { intros a Ha. unfold h. destruct (spare_chunk q) as [cs|] eqn:Es; [|done].
      apply lookup_delete_ne. intros ->. by destruct (R6 a eq_refl). }
    assert (Hne : forall a, a ∈ b1 :: rest -> a ∈ b0 :: b1 :: rest) by (intros a Ha; by constructor 2).
    assert (Haddr : forall n, addr (b1 :: rest) n = addr (b0 :: b1 :: rest) (begin_pos q + S n)).
    { intros n. rewrite <- (addr_tail b0) by lia. f_equal. lia. }
    eexists _, (b1 :: rest). split; [reflexivity|].
    split; [|intros j; apply Haddr].
    pose proof (NoDup_cons_1_1 _ _ R1) as Hb0. pose proof (NoDup_cons_1_2 _ _ R1) as R1'.
    split; simpl; try done.
    + simpl in R3. rewrite <- R3. simpl. by rewrite Nat.sub_0_r.
    + intros i a b Ha Hb. destruct (R4 (S i) a b Ha Hb) as [(ca & Ea & Na) (cb & Eb & Pb)].
      assert (Hina : a ∈ b1 :: rest) by (eapply list_elem_of_lookup_2; exact Ha).
      assert (Hinb : b ∈ b1 :: rest) by (apply (list_elem_of_lookup_2 _ (S i)); exact Hb).
      rewrite !Hh by auto. split.
      * destruct (decide (a = b1)) as [->|]; [|exists ca; by rewrite lookup_insert_ne].
        exists c1'. rewrite lookup_insert_eq. split; [done|]. simpl. congruence.
      * assert (b <> b1).
        { intros ->. pose proof (chain_inj (b1 :: rest) (S i) 0%nat b1 R1' Hb eq_refl). lia. }
        exists cb. by rewrite lookup_insert_ne.
    + intros a Ha. rewrite Hh by auto. destruct (decide (a = b1)) as [->|]; [rewrite lookup_insert_eq; by eexists|].
      rewrite lookup_insert_ne by done. auto.
    + intros s [= <-]. split; [|done]. rewrite Hh by constructor. rewrite lookup_insert_ne; [by eexists|].
      intros ->. apply Hb0. constructor.
    + lia.
    + simpl in R9. lia.
    + intros Hl. destruct (R10 ltac:(done)) as (a & Ea & Hp). exists a. split; [done|].
      destruct l as [|y l]; [done|]. rewrite Haddr, <- Hp. simpl. f_equal. lia.
    + intros j v Hj. specialize (R11 (S j) v Hj). rewrite <- R11, Haddr. apply slot_values.
      intros a k Ea. unfold addr in Ea.
      destruct ((b0 :: b1 :: rest) !! ((begin_pos q + S j) / N)%nat) as [a0|] eqn:E; [|done].
      simpl in Ea. injection Ea as <- <-. unfold values_at. rewrite Hh by by eapply list_elem_of_lookup_2.
      destruct (decide (a0 = b1)) as [->|]; [by rewrite lookup_insert_eq, E1|by rewrite lookup_insert_ne].
  - eexists _, chain. split; [reflexivity|]. split; [|intros j; unfold pos; simpl; f_equal; lia].
    destruct R as [R1 R2 R3 R4 R5 R6 R7 R8 R9 R10 R11]. simpl in R9. split; simpl; try done.
    + lia.
    + lia.
    + intros Hl. destruct (R10 ltac:(done)) as (a & Ea & Hp). exists a. split; [done|].
      rewrite <- Hp. simpl. f_equal. destruct l; [done|]. simpl. lia.
    + intros j v Hj. rewrite <- (R11 (S j) v Hj). f_equal. f_equal. lia.
Qed.

(** ** unpush *)

(** One position back, the way the code does it. *)
Lemma back_step q chain l x :
  rep q chain (l ++ [x]) -> l <> [] ->
  exists a' i', (if decide (back_pos q <> 0%nat) then Done (back_chunk q, (back_pos q - 1)%nat)
    else let* a := deref (back_chunk q) in let* c := load (chunks q) a in Done (prev c, (N - 1)%nat))
    = Done (Some a', i') /\ addr chain (begin_pos q + (length l - 1)) = Some (a', i').
Proof.
  intros R Hl. destruct (r_back _ _ _ R ltac:(by destruct l)) as (a & Ea & Hp).
  rewrite length_app in Hp; simpl in Hp. replace (length l + 1 - 1)%nat with (length l) in Hp by lia.
  assert (Hl1 : (0 < length l)%nat) by (destruct l; [done|simpl; lia]).
  pose proof (r_begin _ _ _ R) as Hb. set (n := (begin_pos q + length l)%nat) in *.
  unfold addr in Hp. destruct (chain !! (n / N)%nat) as [a0|] eqn:En; [|done]. simpl in Hp.
  injection Hp as -> Hbp. pose proof (Nat.div_mod_eq n N) as Hdm.
  destruct (decide (back_pos q <> 0%nat)) as [Hne|He].
  - exists a, (back_pos q - 1)%nat. rewrite Ea. split; [done|].
    replace (begin_pos q + (length l - 1))%nat with (n / N * N + (back_pos q - 1))%nat by lia.
    apply addr_eq; [|done]. pose proof (Nat.mod_upper_bound n N). lia.
  - assert (back_pos q = 0%nat) by lia. rewrite Ea. simpl.
    assert (Hk : (0 < n / N)%nat) by nia.
    destruct (lookup_lt_is_Some_2 chain (n / N - 1)%nat) as [p Hp]; [apply lookup_lt_Some in En; lia|].
    destruct (r_links _ _ _ R (n / N - 1)%nat p a Hp) as [_ (c & Ec & Pc)];
      [by replace (S (n / N - 1)) with (n / N)%nat by lia|].
    unfold load. rewrite Ec. simpl. rewrite Pc. exists p, (N - 1)%nat. split; [done|].
    replace (begin_pos q + (length l - 1))%nat with ((n / N - 1) * N + (N - 1))%nat by nia.
    apply addr_eq; [lia|done].
Qed.

Lemma unpush_spec q chain l x :
  rep q chain (l ++ [x]) -> l <> [] ->
  exists q' chain', unpush q = Done q' /\ rep q' chain' l /\
    (forall j, (j <= length l)%nat -> pos q' chain' j = pos q chain j).
Proof.
  intros R Hl. destruct (back_step _ _ _ _ R Hl) as (a' & i' & E & Ha').
  pose proof (chain_pos _ _ _ R) as Hpos.
  unfold unpush. rewrite E. cbn [obind]. clear E.
  assert (Hl1 : (0 < length l)%nat) by (destruct l; [done|simpl; lia]).
  destruct (decide (end_pos q <> 0%nat)) as [Hne|He].
  - eexists _, chain. split; [reflexivity|]. split; [|done].
    destruct R as [R1 R2 R3 R4 R5 R6 R7 R8 R9 R10 R11]. rewrite length_app in R9; simpl in R9.
    split; simpl; try done; try lia.
    + intros _. exists a'. by split.
    + intros j v Hj. apply R11. by apply lookup_app_l_Some.
  - assert (He0 : end_pos q = 0%nat) by lia. pose proof R as [R1 R2 R3 R4 R5 R6 R7 R8 R9 R10 R11].
    rewrite length_app in R9; simpl in R9.
    assert (Hm : (2 <= length chain)%nat) by (destruct (length chain) as [|[|m]]; nia).
    set (m := length chain) in *.
    destruct (lookup_lt_is_Some_2 chain (m - 2)%nat) as [ec Hec]; [unfold m; lia|].
    destruct (R4 (m - 2)%nat ec (end_chunk q) Hec) as [(cec & Ecec & Nec) (ce & Ece & Pe)].
    { by replace (S (m - 2)) with (m - 1)%nat by lia. }
    unfold load. rewrite Ece. simpl. rewrite Pe. simpl. rewrite Ecec. simpl. rewrite Nec.
    assert (Hne : ec <> end_chunk q).
    { intros ->. pose proof (chain_inj _ _ _ _ R1 Hec R3). lia. }
    unfold set_next, load. rewrite lookup_delete_ne, Ecec by done. simpl.
    set (ce' := Chunk (values cec) (prev cec) None).
    eexists _, (take (m - 1) chain). split; [reflexivity|].
    assert (Hin : forall a, a ∈ take (m - 1) chain -> a ∈ chain /\ a <> end_chunk q).
    { intros a [k Hk]%list_elem_of_lookup. apply lookup_take_Some in Hk as [Hk Hlt].
      split; [by eapply list_elem_of_lookup_2|]. intros ->.
      pose proof (chain_inj _ _ _ _ R1 Hk R3). lia. }
    assert (Hval : forall a, a <> end_chunk q ->
      values_at (<[ec:=ce']> (delete (end_chunk q) (chunks q))) a = values_at (chunks q) a).
    { intros a Ha. unfold values_at. destruct (decide (a = ec)) as [->|].
      - by rewrite lookup_insert_eq, Ecec.
      - by rewrite lookup_insert_ne, lookup_delete_ne. }
    assert (Hlen : length (take (m - 1) chain) = (m - 1)%nat) by (rewrite length_take; lia).
    assert (Haddr : forall j, (j <= length l)%nat ->
      addr (take (m - 1) chain) (begin_pos q + j) = addr chain (begin_pos q + j)).
    { intros j Hj. unfold addr. rewrite lookup_take_lt; [done|].
      apply Nat.Div0.div_lt_upper_bound. rewrite He0 in R9. nia. }
    split; [|exact Haddr]. split; simpl; rewrite ?Hlen.
    + pose proof R1 as Hnd. rewrite <- (take_drop (m - 1) chain) in Hnd. by apply NoDup_app in Hnd as [Hnd _].
    + rewrite lookup_take_lt; [exact R2|lia].
    + rewrite lookup_take_lt by lia. by replace (m - 1 - 1)%nat with (m - 2)%nat by lia.
    + intros i a b Ha Hb. apply lookup_take_Some in Ha as [Ha Hai]. apply lookup_take_Some in Hb as [Hb Hbi].
      destruct (R4 i a b Ha Hb) as [(ca & Ea & Na) (cb & Eb & Pb)].
      assert (a <> ec). { intros ->. pose proof (chain_inj _ _ _ _ R1 Ha Hec). lia. }
      assert (a <> end_chunk q). { intros ->. pose proof (chain_inj _ _ _ _ R1 Ha R3). lia. }
      assert (b <> end_chunk q). { intros ->. pose proof (chain_inj _ _ _ _ R1 Hb R3). lia. }
      split; [exists ca; by rewrite lookup_insert_ne, lookup_delete_ne|].
      destruct (decide (b = ec)) as [->|].
      * exists ce'. rewrite lookup_insert_eq. split; [done|]. simpl. congruence.
      * exists cb. by rewrite lookup_insert_ne, lookup_delete_ne.
    + intros a Ha. destruct (Hin a Ha) as [Hac Hae].
      destruct (decide (a = ec)) as [->|]; [rewrite lookup_insert_eq; by eexists|].
      rewrite lookup_insert_ne, lookup_delete_ne by done. auto.
    + intros s Hs. destruct (R6 s Hs) as [Hs1 Hs2]. split.
      * assert (Hs3 : s <> ec) by (intros ->; apply Hs2; by eapply list_elem_of_lookup_2).
        assert (Hs4 : s <> end_chunk q) by (intros ->; apply Hs2; by eapply list_elem_of_lookup_2).
        by rewrite lookup_insert_ne, lookup_delete_ne.
      * intros [Hc _]%Hin. done.
    + done.
    + lia.
    + rewrite He0 in R9. nia.
    + intros _. exists a'. split; [done|]. rewrite Haddr by lia. done.
    + intros j v Hj. pose proof (lookup_lt_Some _ _ _ Hj) as Hjl.
      assert (Hj' : (l ++ [x]) !! j = Some (Some v)) by by apply lookup_app_l_Some.
      rewrite <- (R11 j v Hj'), <- Haddr by lia. apply slot_values. intros a k Ea. apply Hval.
      unfold addr in Ea. destruct (take (m - 1) chain !! ((begin_pos q + j) / N)%nat) as [a0|] eqn:E; [|done].
      simpl in Ea. injection Ea as <- <-. apply Hin. by eapply list_elem_of_lookup_2.
Qed.

Lemma new_spec a : (0 < N)%nat -> rep (yqueue_new a) [a] [].
Proof.
  intros HN. split; simpl; try done.
  - apply NoDup_singleton.
  - intros x ->%list_elem_of_singleton. rewrite lookup_singleton_eq. by eexists.
Qed.

(** What a slot holds may be forgotten. *)
Lemma rep_forget q chain l v : rep q chain (l ++ [Some v]) -> rep q chain (l ++ [None]).
Proof.
  intros [R1 R2 R3 R4 R5 R6 R7 R8 R9 R10 R11].
  assert (Hlen : length (l ++ [@None T]) = length (l ++ [Some v])) by by rewrite !length_app.
  split; try done.
  - by rewrite Hlen.
  - intros _. rewrite Hlen. apply R10. by destruct l.
  - intros j u Hj. apply lookup_app_Some in Hj as [Hj|[_ Hj]].
    + apply R11. by apply lookup_app_l_Some.
    + by apply list_lookup_singleton_Some in Hj as [_ ?].
Qed.

Lemma pos_inj q chain l i j p :
  rep q chain l -> pos q chain i = Some p -> pos q chain j = Some p -> i = j.
Proof.
  intros R Hi Hj. pose proof (r_begin _ _ _ R).
  assert (begin_pos q + i = begin_pos q + j)%nat; [|lia].
  apply (addr_inj chain _ _ p); [lia|apply R|done|done].
Qed.
End Yqueue.
End Yq.
