(* ===== verification/Ypipe.v ===== *)
(** * Ypipe: ypipe_t, the lock-free pipe between two threads (libzmq/src/ypipe.hpp)

    One thread writes and flushes, another reads; the only word both access is the
    atomic [c].  An operation is one step, except [flush], which is split where
    another thread may run between its two accesses to [c].  The theorems: what is
    read is what was written and flushed, in order and once; an unfinished message is
    never visible; the writer learns of a sleeping reader and no wake-up is lost. *)

From S2P Require Import Prelude Yqueue.

Module Yp.
Import Yq.

Section Ypipe.
Context {T : Type} (N : nat).

Abbreviation ptr := (nat * nat)%type.

Record ypipe : Type := Ypipe {
  queue : @yqueue T;
  w : ptr;
  r : option ptr;
  f : ptr;
  c : option ptr
}.

Definition ypipe_new (a : nat) (a' : nat) : outcome ypipe :=
  let* q := push N a' (yqueue_new a) in
  let* p := back_ptr q in
  Done (Ypipe q p (Some p) p (Some p)).

(** [c.cas (cmp, val)]: the new [c] and the old one. *)
Definition cas (c cmp val : option ptr) : option ptr * option ptr :=
  if decide (c = cmp) then (val, c) else (c, c).

Definition set_queue (q : yqueue) (y : ypipe) : ypipe := Ypipe q (w y) (r y) (f y) (c y).

Definition write (a : nat) (v : T) (incomplete : bool) (y : ypipe) : outcome ypipe :=
  let* q := set_back v (queue y) in
  let* q := push N a q in
  if negb incomplete then
    let* p := back_ptr q in Done (Ypipe q (w y) (r y) p (c y))
  else Done (set_queue q y).

Definition unwrite (y : ypipe) : outcome (option T * ypipe) :=
  let* p := back_ptr (queue y) in
  if decide (f y = p) then Done (None, y)
  else
    let* q := unpush N (queue y) in
    let* v := back q in
    Done (Some v, set_queue q y).

(** [flush] up to its compare-and-swap: [Some b] when it is finished, [None] when the
    reader was found asleep. *)
Definition flush_cas (y : ypipe) : option bool * ypipe :=
  if decide (w y = f y) then (Some true, y)
  else
    let (c', old) := cas (c y) (Some (w y)) (Some (f y)) in
    if decide (old <> Some (w y)) then (None, Ypipe (queue y) (w y) (r y) (f y) c')
    else (Some true, Ypipe (queue y) (f y) (r y) (f y) c').

(** The rest of it. *)
Definition flush_set (y : ypipe) : ypipe := Ypipe (queue y) (f y) (r y) (f y) (Some (f y)).

Definition flush (y : ypipe) : bool * ypipe :=
  match flush_cas y with
  | (Some b, y) => (b, y)
  | (None, y) => (false, flush_set y)
  end.

Definition check_read (y : ypipe) : bool * ypipe :=
  if decide (Some (front_ptr (queue y)) <> r y /\ r y <> None) then (true, y)
  else
    let (c', r') := cas (c y) (Some (front_ptr (queue y))) None in
    let y := Ypipe (queue y) (w y) r' (f y) c' in
    if decide (Some (front_ptr (queue y)) = r y \/ r y = None) then (false, y) else (true, y).

Definition read (y : ypipe) : outcome (option T * ypipe) :=
  let (ready, y) := check_read y in
  if negb ready then Done (None, y)
  else
    let* v := front (queue y) in
    let* q := pop N (queue y) in
    Done (Some v, set_queue q y).

Definition probe (fn : T -> bool) (y : ypipe) : outcome (bool * ypipe) :=
  let (rc, y) := check_read y in
  if rc then let* v := front (queue y) in Done (fn v, y) else Crash.

(** ** The abstract pipe: what is flushed, completed and unfinished, and the reader *)

Record spipe : Type := Spipe {
  flushed : list T;
  complete : list T;
  partial : list T;
  asleep : bool
}.

Definition spipe_new : spipe := Spipe [] [] [] false.

Definition s_write (v : T) (incomplete : bool) (s : spipe) : spipe :=
  if incomplete then Spipe (flushed s) (complete s) (partial s ++ [v]) (asleep s)
  else Spipe (flushed s) (complete s ++ partial s ++ [v]) [] (asleep s).

Definition s_unwrite (s : spipe) : option T * spipe :=
  match last (partial s) with
  | None => (None, s)
  | Some v => (Some v, Spipe (flushed s) (complete s) (removelast (partial s)) (asleep s))
  end.

(** Whether the reader was awake. *)
Definition s_flush (s : spipe) : bool * spipe :=
  match complete s with
  | [] => (true, s)
  | _ :: _ => (negb (asleep s), Spipe (flushed s ++ complete s) [] (partial s) false)
  end.

Definition s_check_read (s : spipe) : bool * spipe :=
  match flushed s with
  | [] => (false, Spipe [] (complete s) (partial s) true)
  | _ :: _ => (true, s)
  end.

Definition s_read (s : spipe) : option T * spipe :=
  match flushed s with
  | [] => (None, Spipe [] (complete s) (partial s) true)
  | v :: l => (Some v, Spipe l (complete s) (partial s) (asleep s))
  end.

(** ** The correspondence *)

Definition slots (s : spipe) : list (option T) :=
  map Some (flushed s ++ complete s ++ partial s) ++ [None].

Record sim (y : ypipe) (chain : list nat) (s : spipe) : Prop := {
  m_rep : rep N (queue y) chain (slots s);
  m_w : pos N (queue y) chain (length (flushed s)) = Some (w y);
  m_f : pos N (queue y) chain (length (flushed s) + length (complete s)) = Some (f y);
  m_c : c y = if asleep s then None else Some (w y);
  m_sleep : asleep s = true -> flushed s = [];
  m_r : forall p, r y = Some p ->
    exists i, (i <= length (flushed s))%nat /\ pos N (queue y) chain i = Some p
}.

Lemma length_slots s :
  length (slots s) = S (length (flushed s) + length (complete s) + length (partial s)).
Proof. unfold slots. rewrite !length_app, length_map, !length_app. simpl. lia. Qed.

Lemma sim_back y chain s :
  sim y chain s -> exists p, back_ptr (queue y) = Done p /\
    pos N (queue y) chain (length (flushed s) + length (complete s) + length (partial s)) = Some p.
Proof.
  intros M. destruct (back_ptr_spec N _ _ _ (m_rep _ _ _ M)) as (p & E & Hp); [unfold slots; by destruct (map _ _)|].
  exists p. split; [done|]. rewrite length_slots in Hp. rewrite <- Hp. f_equal. lia.
Qed.

Lemma new_sim a a' :
  (0 < N)%nat -> a <> a' ->
  exists y chain, ypipe_new a a' = Done y /\ sim y chain spipe_new.
Proof.
  intros HN Hne. destruct (push_spec N (@yqueue_new T a) [a] [] a' (new_spec N a HN)) as (q & chain & E & R & Hp).
  { simpl. by rewrite lookup_singleton_ne. }
  unfold ypipe_new. rewrite E. simpl.
  destruct (back_ptr_spec N _ _ _ R) as (p & Eb & Hpos); [done|]. rewrite Eb. simpl.
  eexists _, chain. split; [reflexivity|]. split; simpl; try done.
  intros p' [= <-]. by exists 0%nat.
Qed.

Lemma write_sim y chain s a v b :
  sim y chain s -> chunks (queue y) !! a = None ->
  exists y' chain', write a v b y = Done y' /\ sim y' chain' (s_write v b s).
Proof.
  intros M Ha. unfold write. pose proof (m_rep _ _ _ M) as R.
  destruct (set_back_spec N (queue y) chain _ _ v R) as (q1 & -> & R1 & P1 & D1). cbn [obind].
  destruct (push_spec N q1 chain _ a R1) as (q2 & ch & -> & R2 & P2).
  { apply not_elem_of_dom. rewrite D1. by apply not_elem_of_dom. }
  cbn [obind].
  assert (Es : forall b, slots (s_write v b s) = (map Some (flushed s ++ complete s ++ partial s) ++ [Some v]) ++ [None]).
  { intros b0. unfold slots, s_write. destruct b0; simpl; by rewrite ?app_nil_r, !map_app, <- !app_assoc. }
  assert (Hp : forall j, (j <= length (flushed s) + length (complete s) + length (partial s))%nat ->
    pos N q2 ch j = pos N (queue y) chain j).
  { intros j Hj. rewrite P2, P1; [done|]. rewrite length_app, length_map, !length_app. simpl. lia. }
  destruct b; cbn [negb].
  - eexists _, ch. split; [reflexivity|]. rewrite <- (Es true) in R2. unfold set_queue.
    destruct M as [_ Mw Mf Mc Ms Mr]. split; simpl; try done.
    + rewrite Hp; [done|lia].
    + rewrite Hp; [done|lia].
    + intros p E. destruct (Mr p E) as (i & Hi & Hpi). exists i. split; [done|]. rewrite Hp; [done|lia].
  - destruct (back_ptr_spec N q2 ch _ R2) as (p & -> & Hb); [by destruct (map _ _)|]. cbn [obind].
    eexists _, ch. split; [reflexivity|]. rewrite <- (Es false) in R2.
    destruct M as [_ Mw Mf Mc Ms Mr]. split; simpl; try done.
    + rewrite Hp; [done|lia].
    + rewrite <- Hb. f_equal. rewrite !length_app, length_map, !length_app. simpl. lia.
    + intros p' E. destruct (Mr p' E) as (i & Hi & Hpi). exists i. split; [done|]. rewrite Hp; [done|lia].
Qed.

Lemma unwrite_sim y chain s :
  sim y chain s ->
  exists y' chain', unwrite y = Done ((s_unwrite s).1, y') /\ sim y' chain' (s_unwrite s).2.
Proof.
  intros M. destruct (sim_back _ _ _ M) as (p & Eb & Hb). unfold unwrite, s_unwrite. rewrite Eb. cbn [obind].
  destruct (list_eq_nil_dec (partial s)) as [En|En].
  - rewrite En in *. simpl. pose proof (m_f _ _ _ M) as Hf. simpl in Hb. rewrite Nat.add_0_r in Hb.
    rewrite decide_True by congruence. by exists y, chain.
  - destruct (exists_last En) as (pl & v & Ep). rewrite decide_False.
    2: { intros E. pose proof (m_f _ _ _ M) as Hf. rewrite E in Hf.
         pose proof (pos_inj N _ _ _ _ _ _ (m_rep _ _ _ M) Hf Hb) as Hij.
         rewrite Ep, length_app in Hij. simpl in Hij. lia. }
    rewrite Ep, last_snoc, removelast_last. cbn [fst snd].
    set (l := map Some (flushed s ++ complete s ++ pl)).
    assert (Es : slots s = (l ++ [Some v]) ++ [None]).
    { unfold slots, l. rewrite Ep. by rewrite !map_app, <- !app_assoc. }
    pose proof (m_rep _ _ _ M) as R. rewrite Es in R.
    destruct (unpush_spec N (queue y) chain _ _ R) as (q' & ch & -> & R' & Hp); [by destruct l|].
    cbn [obind]. rewrite (back_spec N q' ch v l R'). cbn [obind].
    eexists _, ch. split; [reflexivity|]. unfold set_queue.
    assert (Hp' : forall j, (j <= length (flushed s) + length (complete s) + length pl)%nat ->
      pos N q' ch j = pos N (queue y) chain j).
    { intros j Hj. apply Hp. unfold l. rewrite length_app, length_map, !length_app. simpl. lia. }
    destruct M as [_ Mw Mf Mc Ms Mr]. split; simpl; try done.
    + unfold slots; simpl. by apply (rep_forget N) in R'.
    + rewrite Hp'; [done|lia].
    + rewrite Hp'; [done|lia].
    + intros p' E. destruct (Mr p' E) as (i & Hi & Hpi). exists i. split; [done|]. rewrite Hp'; [done|lia].
Qed.

(** ** flush, in its two steps *)

Definition s_flushed (s : spipe) : spipe := Spipe (flushed s ++ complete s) [] (partial s) false.

Definition s_flush_cas (s : spipe) : option bool * spipe :=
  match complete s with
  | [] => (Some true, s)
  | _ :: _ => if asleep s then (None, s) else (Some true, s_flushed s)
  end.

Lemma slots_flushed s : slots (s_flushed s) = slots s.
Proof. unfold slots; simpl. by rewrite <- app_assoc. Qed.

Lemma flushed_sim y chain s :
  sim y chain s -> sim (Ypipe (queue y) (f y) (r y) (f y) (Some (f y))) chain (s_flushed s).
Proof.
  intros [M Mw Mf Mc Ms Mr]. split; simpl; rewrite ?length_app; simpl; rewrite ?Nat.add_0_r; try done.
  - by rewrite slots_flushed.
  - intros p E. destruct (Mr p E) as (i & Hi & Hp). exists i. split; [lia|done].
Qed.

Lemma w_eq_f y chain s : sim y chain s -> (w y = f y <-> complete s = []).
Proof.
  intros [M Mw Mf _ _ _]. split.
  - intros E. rewrite E in Mw. pose proof (pos_inj N _ _ _ _ _ _ M Mw Mf). destruct (complete s); simpl in *; [done|lia].
  - intros E. rewrite E in Mf. simpl in Mf. rewrite Nat.add_0_r in Mf. congruence.
Qed.

Lemma flush_cas_sim y chain s :
  sim y chain s ->
  (flush_cas y).1 = (s_flush_cas s).1 /\ sim (flush_cas y).2 chain (s_flush_cas s).2.
Proof.
  intros M. unfold flush_cas, s_flush_cas. pose proof (w_eq_f _ _ _ M) as Hw.
  destruct (complete s) as [|v l] eqn:Ec.
  - rewrite decide_True by by apply Hw. by split.
  - rewrite decide_False by (intros E; apply Hw in E; done).
    unfold cas. rewrite (m_c _ _ _ M). destruct (asleep s) eqn:Ea.
    + rewrite decide_False by done. rewrite decide_True by done. split; [done|].
      destruct M as [M1 Mw Mf Mc Ms Mr]. split; simpl; try done. by rewrite Ea.
    + rewrite decide_True by done. rewrite decide_False by (intros E; by apply E).
      split; [done|]. by apply flushed_sim.
Qed.

Lemma flush_set_sim y chain s : sim y chain s -> sim (flush_set y) chain (s_flushed s).
Proof. apply flushed_sim. Qed.

Lemma flush_sim y chain s :
  sim y chain s -> (flush y).1 = (s_flush s).1 /\ sim (flush y).2 chain (s_flush s).2.
Proof.
  intros M. destruct (flush_cas_sim y chain s M) as [E M']. unfold flush, s_flush.
  unfold s_flush_cas in E, M'. destruct (flush_cas y) as [o y1]; simpl in *. subst o.
  destruct (complete s) as [|v l] eqn:Ec; simpl in *; [by split|].
  destruct (asleep s) eqn:Ea; simpl in *; (split; [done|]).
  - pose proof (flush_set_sim _ _ _ M') as M2. unfold s_flushed in M2. by rewrite Ec in M2.
  - unfold s_flushed in M'. by rewrite Ec in M'.
Qed.

(** ** The reader *)
Lemma front_slot y chain s : sim y chain s -> pos N (queue y) chain 0 = Some (front_ptr (queue y)).
Proof. intros M. exact (pos_front N _ _ _ (m_rep _ _ _ M)). Qed.

Lemma check_read_sim y chain s :
  sim y chain s ->
  (check_read y).1 = (s_check_read s).1 /\ sim (check_read y).2 chain (s_check_read s).2 /\
  queue (check_read y).2 = queue y /\
  ((s_check_read s).1 = true -> exists i, (0 < i <= length (flushed s))%nat /\
     exists p, r (check_read y).2 = Some p /\ pos N (queue y) chain i = Some p).
Proof.
  intros M. pose proof (front_slot _ _ _ M) as H0. pose proof M as [M1 Mw Mf Mc Ms Mr]. unfold check_read, s_check_read.
  destruct (decide (Some (front_ptr (queue y)) <> r y /\ r y <> None)) as [[Hne Hr]|Hno].
  - destruct (r y) as [p|] eqn:Er; [|done]. destruct (Mr p eq_refl) as (i & Hi & Hp).
    assert (i <> 0%nat) by (intros ->; congruence).
    destruct (flushed s) as [|v l] eqn:Ef; [simpl in Hi; lia|]. simpl. split; [done|]. split; [done|].
    split; [done|]. intros _. exists i. split; [simpl in *; lia|]. by exists p.
  - unfold cas. rewrite Mc. destruct (flushed s) as [|v l] eqn:Ef.
    + simpl in Mw. assert (Hwf : w y = front_ptr (queue y)) by congruence.
      destruct (asleep s) eqn:Ea.
      * rewrite decide_False by done. cbn [r queue]. rewrite decide_True by (by right). cbn [fst snd].
        split; [done|]. split; [|split; [done|done]].
        split; simpl; try done. unfold slots in *; simpl. by rewrite Ef in M1.
      * rewrite decide_True by congruence. cbn [r queue]. rewrite decide_True by (left; congruence). cbn [fst snd].
        split; [done|]. split; [|split; [done|done]].
        split; simpl; try done; [unfold slots in *; simpl; by rewrite Ef in M1|].
        intros p [= <-]. exists 0%nat. split; [lia|done].
    + assert (Hs : asleep s = false) by (destruct (asleep s); [by specialize (Ms eq_refl)|done]).
      rewrite Hs in *. assert (Hwf : w y <> front_ptr (queue y)).
      { intros E. rewrite E in Mw. pose proof (pos_inj N _ _ _ _ _ _ M1 Mw H0). done. }
      rewrite decide_False by congruence. cbn [r queue]. rewrite decide_False by (intros [E|E]; congruence).
      cbn [fst snd]. split; [done|]. split.
      * split; simpl; try done; [by rewrite Ef|by rewrite Ef|by rewrite Hs|by rewrite Hs|].
        intros p [= <-]. exists (S (length l)). rewrite Ef. by split.
      * split; [done|]. intros _. exists (S (length l)). split; [simpl; lia|]. by exists (w y).
Qed.

Lemma read_sim y chain s :
  sim y chain s ->
  exists y' chain', read y = Done ((s_read s).1, y') /\ sim y' chain' (s_read s).2.
Proof.
  intros M. destruct (check_read_sim y chain s M) as (E & M' & Eq & Hi). unfold read.
  destruct (check_read y) as [b y1]; simpl in *. subst b. unfold s_check_read, s_read in *.
  destruct (flushed s) as [|v l] eqn:Ef; cbn [fst snd negb] in *.
  - by exists y1, chain.
  - destruct (Hi eq_refl) as (i & Hil & p & Er & Hp). clear Hi.
    pose proof M' as [M1 Mw Mf Mc Ms Mr]. unfold slots in M1. rewrite Ef in M1. simpl in M1.
    rewrite (front_spec N _ _ _ _ M1). cbn [obind].
    destruct (pop_spec N _ _ _ _ M1) as (q' & ch & -> & R' & Hpop). cbn [obind].
    eexists _, ch. split; [reflexivity|]. unfold set_queue. split; simpl.
    + exact R'.
    + rewrite Hpop. by rewrite Ef in Mw.
    + rewrite Hpop. by rewrite Ef in Mf.
    + done.
    + intros Ha. specialize (Ms Ha). congruence.
    + intros p' E'. rewrite Er in E'. injection E' as <-. exists (i - 1)%nat. simpl in Hil. split; [lia|].
      rewrite Hpop. rewrite <- Hp, Eq. f_equal. lia.
Qed.

(** ** Two threads

    Any interleaving of the writer's and the reader's operations; the writer may be
    stopped inside [flush], between its two accesses to [c], and then it does nothing
    else before the second. *)

Inductive action : Type :=
| Write (a : nat) (v : T) (incomplete : bool)
| Unwrite
| FlushCas
| FlushSet
| CheckRead
| Read.

(** What the caller of an operation sees. *)
Inductive obs : Type :=
| OWrite (v : T)
| OUnwrite (v : option T)
| OFlush (r : option bool)
| OWoken
| OReady (b : bool)
| ORead (v : option T).

Record sys : Type := Sys { pipe : ypipe; in_flush : bool }.

Definition step (x : action) (st : sys) : outcome (obs * sys) :=
  match x with
  | Write a v b => let* y := write a v b (pipe st) in Done (OWrite v, Sys y (in_flush st))
  | Unwrite => let* (v, y) := unwrite (pipe st) in Done (OUnwrite v, Sys y (in_flush st))
  | FlushCas => let (o, y) := flush_cas (pipe st) in
                Done (OFlush o, Sys y (match o with None => true | Some _ => false end))
  | FlushSet => Done (OWoken, Sys (flush_set (pipe st)) false)
  | CheckRead => let (b, y) := check_read (pipe st) in Done (OReady b, Sys y (in_flush st))
  | Read => let* (v, y) := read (pipe st) in Done (ORead v, Sys y (in_flush st))
  end.

(** When the threads may do it; [a] is an address [malloc] may return. *)
Definition enabled (x : action) (st : sys) : Prop :=
  match x with
  | Write a _ _ => in_flush st = false /\ chunks (queue (pipe st)) !! a = None
  | Unwrite | FlushCas => in_flush st = false
  | FlushSet => in_flush st = true
  | CheckRead | Read => True
  end.

Inductive steps : sys -> list (action * obs) -> sys -> Prop :=
| steps_nil st : steps st [] st
| steps_cons st x o st1 tr st2 :
    enabled x st -> step x st = Done (o, st1) -> steps st1 tr st2 -> steps st ((x, o) :: tr) st2.

Definition s_step (x : action) (s : spipe) : obs * spipe :=
  match x with
  | Write _ v b => (OWrite v, s_write v b s)
  | Unwrite => let (v, s) := s_unwrite s in (OUnwrite v, s)
  | FlushCas => let (o, s) := s_flush_cas s in (OFlush o, s)
  | FlushSet => (OWoken, s_flushed s)
  | CheckRead => let (b, s) := s_check_read s in (OReady b, s)
  | Read => let (v, s) := s_read s in (ORead v, s)
  end.

Fixpoint s_run (xs : list action) (s : spipe) : list obs * spipe :=
  match xs with
  | [] => ([], s)
  | x :: xs =>
    let (o, s) := s_step x s in
    let (os, s) := s_run xs s in (o :: os, s)
  end.

(** While the writer is inside [flush] the reader sleeps and something is to be flushed. *)
Definition good (st : sys) (s : spipe) : Prop :=
  (exists chain, sim (pipe st) chain s) /\
  (in_flush st = true -> asleep s = true /\ complete s <> []).

Lemma step_sim x st s :
  good st s -> enabled x st ->
  exists st', step x st = Done ((s_step x s).1, st') /\ good st' (s_step x s).2.
Proof.
  intros [[ch M] Hf] He. destruct st as [y fl]. simpl in *. destruct x as [a v b| | | | |]; simpl in *.
  - destruct He as [-> Ha]. destruct (write_sim y ch s a v b M Ha) as (y' & ch' & -> & M').
    eexists; split; [reflexivity|]. split; [by exists ch'|done].
  - subst fl. destruct (unwrite_sim y ch s M) as (y' & ch' & -> & M'). cbn [obind].
    destruct (s_unwrite s) as [v s'] eqn:Es. eexists; split; [reflexivity|]. split; [by exists ch'|done].
  - subst fl. destruct (flush_cas_sim y ch s M) as [E M']. destruct (flush_cas y) as [o y'].
    assert (Hn : (s_flush_cas s).1 = None -> asleep (s_flush_cas s).2 = true /\ complete (s_flush_cas s).2 <> []).
    { unfold s_flush_cas. destruct (complete s) as [|v l] eqn:Ec; [done|]. destruct (asleep s) eqn:Ea; [|done].
      intros _. simpl. by rewrite Ec. }
    destruct (s_flush_cas s) as [o' s']. simpl in *. subst o'. eexists; split; [reflexivity|].
    split; [by exists ch|]. simpl. destruct o; [done|auto].
  - eexists; split; [reflexivity|]. split; [exists ch; by apply flush_set_sim|done].
  - destruct (check_read_sim y ch s M) as (E & M' & _). destruct (check_read y) as [b y'].
    destruct (s_check_read s) as [b' s'] eqn:Es. simpl in *. subst b'. eexists; split; [reflexivity|].
    split; [by exists ch|]. simpl. intros Hfl. destruct (Hf Hfl) as [Ha Hc]. unfold s_check_read in Es.
    destruct (flushed s); simplify_eq; by simpl.
  - destruct (read_sim y ch s M) as (y' & ch' & -> & M'). cbn [obind].
    destruct (s_read s) as [v s'] eqn:Es. eexists; split; [reflexivity|]. split; [by exists ch'|].
    simpl. intros Hfl. destruct (Hf Hfl) as [Ha Hc]. unfold s_read in Es.
    destruct (flushed s); simplify_eq; by simpl.
Qed.

Lemma steps_sim st tr st' s :
  steps st tr st' -> good st s ->
  (s_run (map fst tr) s).1 = map snd tr /\ good st' (s_run (map fst tr) s).2.
Proof.
  intros Hs. revert s. induction Hs as [st|st x o st1 tr st2 He E Hs IH]; intros s Hg; [done|].
  destruct (step_sim x st s Hg He) as (st' & E' & Hg'). rewrite E in E'. injection E' as -> <-.
  simpl. destruct (s_step x s) as [o' s1]. simpl in *. destruct (IH s1 Hg') as [E1 E2].
  destruct (s_run (map fst tr) s1) as [os s2]. simpl in *. by rewrite E1.
Qed.

Definition start (a a' : nat) (st : sys) : Prop :=
  (0 < N)%nat /\ a <> a' /\ ypipe_new a a' = Done (pipe st) /\ in_flush st = false.

Lemma start_good a a' st : start a a' st -> good st spipe_new.
Proof.
  intros (HN & Hne & E & Hf). destruct (new_sim a a' HN Hne) as (y & ch & E' & M).
  rewrite E in E'. injection E' as <-. split; [by exists ch|]. by rewrite Hf.
Qed.

(** ** What the traces say *)

(** The values written and not taken back. *)
Definition kept1 (acc : list T) (o : obs) : list T :=
  match o with
  | OWrite v => acc ++ [v]
  | OUnwrite (Some _) => removelast acc
  | _ => acc
  end.

Definition kept (os : list obs) : list T := fold_left kept1 os [].

Definition reads (os : list obs) : list T :=
  flat_map (fun o => match o with ORead (Some v) => [v] | _ => [] end) os.

(** Whether the reader was told that the pipe is empty, and not woken up since. *)
Definition told1 (b : bool) (o : obs) : bool :=
  match o with
  | OReady false | ORead None => true
  | OWoken => false
  | _ => b
  end.

Definition told (os : list obs) : bool := fold_left told1 os false.

Definition contents (s : spipe) : list T := flushed s ++ complete s ++ partial s.

Lemma s_step_contents x s past :
  past ++ reads [(s_step x s).1] ++ contents (s_step x s).2 = kept1 (past ++ contents s) (s_step x s).1.
Proof.
  destruct x as [a v b| | | | |]; simpl.
  - unfold contents, s_write. destruct b; simpl; rewrite ?app_nil_r; by rewrite <- !app_assoc.
  - unfold s_unwrite. destruct (last (partial s)) as [v|] eqn:El; [|done]. simpl.
    apply last_Some in El as [l El]. unfold contents. simpl. rewrite El, removelast_last.
    rewrite !app_assoc. by rewrite removelast_last.
  - unfold s_flush_cas. destruct (complete s) as [|v l] eqn:Ec; simpl; [done|].
    destruct (asleep s); simpl; [done|]. unfold contents; simpl. by rewrite Ec, <- !app_assoc.
  - unfold contents; simpl. by rewrite <- !app_assoc.
  - unfold s_check_read, contents. destruct (flushed s) eqn:Ef; simpl; by rewrite ?Ef.
  - unfold s_read, contents. destruct (flushed s) eqn:Ef; simpl; [done|]. done.
Qed.

Lemma reads_cons o os : reads (o :: os) = reads [o] ++ reads os.
Proof. unfold reads. simpl. by rewrite app_nil_r. Qed.

Lemma s_run_contents xs : forall s past,
  past ++ reads (s_run xs s).1 ++ contents (s_run xs s).2 = fold_left kept1 (s_run xs s).1 (past ++ contents s).
Proof.
  induction xs as [|x xs IH]; intros s past; [done|]. cbn [s_run].
  pose proof (s_step_contents x s past) as Hc. destruct (s_step x s) as [o s1]. cbn [fst snd] in Hc.
  specialize (IH s1 (past ++ reads [o])). destruct (s_run xs s1) as [os s2]. cbn [fst snd fold_left] in *.
  rewrite <- Hc, reads_cons, <- !app_assoc. rewrite <- !app_assoc in IH. exact IH.
Qed.

Lemma s_step_told x s : asleep (s_step x s).2 = told1 (asleep s) (s_step x s).1.
Proof.
  destruct x as [a v b| | | | |]; simpl; try done.
  - by destruct b.
  - unfold s_unwrite. by destruct (last (partial s)).
  - unfold s_flush_cas. destruct (complete s); [done|]. by destruct (asleep s) eqn:E; simpl.
  - unfold s_check_read. by destruct (flushed s).
  - unfold s_read. by destruct (flushed s).
Qed.

Lemma s_run_told xs : forall s, asleep (s_run xs s).2 = fold_left told1 (s_run xs s).1 (asleep s).
Proof.
  induction xs as [|x xs IH]; intros s; [done|]. simpl. pose proof (s_step_told x s) as Ht.
  destruct (s_step x s) as [o s1]. simpl in Ht. specialize (IH s1). destruct (s_run xs s1) as [os s2].
  simpl in *. by rewrite <- Ht.
Qed.

(** C38: any interleaving of the two threads gives the answers of the abstract pipe
    (a queue of flushed values, the values completed but not flushed, those of an
    unfinished message, and whether the reader sleeps), with no access to a null
    pointer, a freed chunk or an uninitialised value, whatever addresses [malloc]
    returns. *)
Theorem ypipe_refines a a' st tr st' :
  start a a' st -> steps st tr st' ->
  (s_run (map fst tr) spipe_new).1 = map snd tr /\ good st' (s_run (map fst tr) spipe_new).2 /\
  forall x, enabled x st' -> exists o st2, step x st' = Done (o, st2).
Proof.
  intros Hst Hs. destruct (steps_sim st tr st' spipe_new Hs (start_good a a' st Hst)) as [E Hg].
  split; [done|]. split; [done|]. intros x He. destruct (step_sim x st' _ Hg He) as (st2 & E2 & _). eauto.
Qed.

(** First in, first out: what the reader has read is a prefix of the values
    written and not taken back, in order, each once; and the pipe holds the rest. *)
Theorem ypipe_fifo a a' st tr st' :
  start a a' st -> steps st tr st' ->
  kept (map snd tr) = reads (map snd tr) ++ contents (s_run (map fst tr) spipe_new).2.
Proof.
  intros Hst Hs. destruct (steps_sim st tr st' spipe_new Hs (start_good a a' st Hst)) as [E _].
  pose proof (s_run_contents (map fst tr) spipe_new []) as Hc. rewrite E in Hc. simpl in Hc.
  symmetry. exact Hc.
Qed.

(** No wake-up is lost: when the reader was told that the pipe is empty and has
    not been woken up since, a flush with anything to flush finds it asleep, so that
    the caller learns that it must wake it up. *)
Theorem ypipe_no_lost_wakeup a a' st tr st' :
  start a a' st -> steps st tr st' -> told (map snd tr) = true -> in_flush st' = false ->
  w (pipe st') <> f (pipe st') -> (flush (pipe st')).1 = false.
Proof.
  intros Hst Hs Ht Hf Hw. destruct (steps_sim st tr st' spipe_new Hs (start_good a a' st Hst)) as [E [[ch M] _]].
  pose proof (s_run_told (map fst tr) spipe_new) as Ha. rewrite E in Ha. unfold told in Ht.
  simpl in Ha. rewrite Ht in Ha. destruct (flush_sim _ _ _ M) as [-> _].
  pose proof (w_eq_f _ _ _ M) as Hwf. unfold s_flush.
  destruct (complete _) eqn:Ec; [by destruct Hw; apply Hwf|]. simpl. by rewrite Ha.
Qed.
End Ypipe.

(** ** A run with chunks of two slots *)

Definition start0 : sys (T := nat) :=
  match ypipe_new (T := nat) 2 10 11 with Done y => Sys y false | Crash => Sys (Ypipe (yqueue_new 0) (0,0)%nat None (0,0)%nat None) false end.

(** The reader finds the pipe empty; a message of two parts is written, then a part of
    another, which is taken back; the writer flushes and is stopped inside; the reader
    still finds nothing; then the flush ends and the values are read. *)
Definition sample_actions : list (action (T := nat)) :=
  [CheckRead; Write 12 1%nat true; Read; Write 13 2%nat false; Write 14 3%nat true; Unwrite; FlushCas; Read;
   FlushSet; Read; Read; CheckRead].

Fixpoint run (xs : list (action (T := nat))) (st : sys (T := nat)) : outcome (list (obs (T := nat)) * sys (T := nat)) :=
  match xs with
  | [] => Done ([], st)
  | x :: xs =>
    let* (o, st) := step 2 x st in
    let* (os, st) := run xs st in Done (o :: os, st)
  end.

Example sample_run :
  omap_out fst (run sample_actions start0) =
  Done [OReady false; OWrite 1%nat; ORead None; OWrite 2%nat; OWrite 3%nat; OUnwrite (Some 3%nat);
        OFlush None; ORead None; OWoken; ORead (Some 1%nat); ORead (Some 2%nat); OReady false].
Proof. vm_compute. reflexivity. Qed.

Definition enabledb (x : action (T := nat)) (st : sys (T := nat)) : bool :=
  match x with
  | Write a _ _ => negb (in_flush st) && bool_decide (chunks (queue (pipe st)) !! a = None)
  | Unwrite | FlushCas => negb (in_flush st)
  | FlushSet => in_flush st
  | CheckRead | Read => true
  end.

Lemma enabledb_ok x st : enabledb x st = true -> enabled x st.
Proof.
  destruct x; simpl; try (by destruct (in_flush st)); try done.
  intros [H1 H2]%andb_true_iff. apply bool_decide_eq_true_1 in H2. by destruct (in_flush st).
Qed.

(** A run whose actions are enabled is a sequence of steps. *)
Fixpoint trace (xs : list (action (T := nat))) (st : sys (T := nat))
  : option (list (action (T := nat) * obs (T := nat)) * sys (T := nat)) :=
  match xs with
  | [] => Some ([], st)
  | x :: xs =>
    if enabledb x st then
      match step 2 x st with
      | Done (o, st) => '(tr, st) ← trace xs st; Some ((x, o) :: tr, st)
      | Crash => None
      end
    else None
  end.

Lemma trace_steps xs : forall st tr st', trace xs st = Some (tr, st') -> steps 2 st tr st'.
Proof.
  induction xs as [|x xs IH]; intros st tr st' E; simpl in E; [injection E as <- <-; constructor|].
  destruct (enabledb x st) eqn:Eb; [|done]. destruct (step 2 x st) as [[o st1]|] eqn:Es; [|done].
  destruct (trace xs st1) as [[tr1 st2]|] eqn:Et; [|done]. simpl in E. injection E as <- <-.
  apply (steps_cons 2 st x o st1); [by apply enabledb_ok|done|by apply IH].
Qed.

Lemma start0_ok : start 2 10 11 start0.
Proof. split; [lia|]. split; [done|]. split; reflexivity. Qed.

Lemma ypipe_refines_witness :
  start 2 10 11 start0 /\ exists tr st', trace sample_actions start0 = Some (tr, st') /\
    (s_run (map fst tr) spipe_new).1 = map snd tr.
Proof.
  split; [exact start0_ok|].
  destruct (trace sample_actions start0) as [[tr st']|] eqn:E; [|vm_compute in E; discriminate].
  exists tr, st'. split; [reflexivity|].
  exact (proj1 (ypipe_refines 2 10 11 start0 tr st' start0_ok (trace_steps _ _ _ _ E))).
Defined.

Lemma ypipe_fifo_witness :
  start 2 10 11 start0 /\ exists tr st', trace sample_actions start0 = Some (tr, st') /\
    kept (map snd tr) = reads (map snd tr) ++ contents (s_run (map fst tr) spipe_new).2.
Proof.
  split; [exact start0_ok|].
  destruct (trace sample_actions start0) as [[tr st']|] eqn:E; [|vm_compute in E; discriminate].
  exists tr, st'. split; [reflexivity|].
  exact (ypipe_fifo 2 10 11 start0 tr st' start0_ok (trace_steps _ _ _ _ E)).
Defined.

Lemma ypipe_no_lost_wakeup_witness :
  start 2 10 11 start0 /\ exists tr st', trace [CheckRead; Write 12 1%nat false] start0 = Some (tr, st') /\
    told (map snd tr) = true /\ (flush (pipe st')).1 = false.
Proof.
  split; [exact start0_ok|].
  destruct (trace [CheckRead; Write 12 1%nat false] start0) as [[tr st']|] eqn:E; [|vm_compute in E; discriminate].
  exists tr, st'. split; [reflexivity|]. vm_compute in E. injection E as E1 E2.
  assert (Ht : told (map snd tr) = true) by (rewrite <- E1; reflexivity). split; [exact Ht|].
  apply (ypipe_no_lost_wakeup 2 10 11 start0 tr st' start0_ok).
  - apply (trace_steps [CheckRead; Write 12 1%nat false]). rewrite <- E1, <- E2. vm_compute. reflexivity.
  - exact Ht.
  - rewrite <- E2. reflexivity.
  - rewrite <- E2. simpl. discriminate.
Defined.

End Yp.
