(* ===== verification/Mailbox.v ===== *)
(** * Mailbox: mailbox_t, the commands sent to a thread (libzmq/src/mailbox.cpp)

    Any thread sends commands; one thread receives them.  The commands are in a
    [ypipe_t] whose writing end is shared under a mutex, and a signaler wakes the
    receiver when it sleeps.  The pipe is the specification that [Ypipe]
    implements; the signaler counts the signals sent and not received. *)

From stdpp Require Import relations.
From S2P Require Import Prelude Ypipe.

Module Mailbox.
Import Yp.

Section Mailbox.
Context {T : Type}.

(** Where the receiver is in [recv]. *)
Inductive reader : Type :=
| Outside
| Waiting      (* before [signaler.wait] *)
| Receiving    (* before [signaler.recv_failable] *)
| Reading.     (* before the [cpipe.read] that must succeed *)

Record mailbox : Type := Mailbox {
  cpipe : spipe (T := T);
  signals : nat;
  active : bool;
  pc : reader;
  (* the senders between the unlock and [signaler.send] *)
  signalling : gset nat;
  (* what was sent, in the order of the mutex, and what [recv] returned *)
  sent : list T;
  received : list T
}.

Definition set_cpipe (y : spipe) (m : mailbox) : mailbox :=
  Mailbox y (signals m) (active m) (pc m) (signalling m) (sent m) (received m).
Definition set_pc (p : reader) (m : mailbox) : mailbox :=
  Mailbox (cpipe m) (signals m) (active m) p (signalling m) (sent m) (received m).
Definition set_active (b : bool) (m : mailbox) : mailbox :=
  Mailbox (cpipe m) (signals m) b (pc m) (signalling m) (sent m) (received m).
Definition set_signals (n : nat) (m : mailbox) : mailbox :=
  Mailbox (cpipe m) n (active m) (pc m) (signalling m) (sent m) (received m).
Definition set_signalling (x : gset nat) (m : mailbox) : mailbox :=
  Mailbox (cpipe m) (signals m) (active m) (pc m) x (sent m) (received m).
Definition log_sent (c : T) (m : mailbox) : mailbox :=
  Mailbox (cpipe m) (signals m) (active m) (pc m) (signalling m) (sent m ++ [c]) (received m).
Definition log_received (c : T) (m : mailbox) : mailbox :=
  Mailbox (cpipe m) (signals m) (active m) (pc m) (signalling m) (sent m) (received m ++ [c]).

(** The constructor reads the empty pipe, so that it is passive. *)
Definition mailbox_new : outcome mailbox :=
  let (v, y) := s_read spipe_new in
  match v with
  | None => Done (Mailbox y 0 false Outside ∅ [] [])
  | Some _ => Crash
  end.

(** [send] up to the unlock. *)
Definition send (t : nat) (c : T) (m : mailbox) : mailbox :=
  let y := s_write c false (cpipe m) in
  let (ok, y) := s_flush y in
  let m := log_sent c (set_cpipe y m) in
  if negb ok then set_signalling ({[t]} ∪ signalling m) m else m.

(** [signaler.send ()] *)
Definition signal (t : nat) (m : mailbox) : mailbox :=
  set_signalling (signalling m ∖ {[t]}) (set_signals (S (signals m)) m).

(** [recv] from its first line, when nothing was read yet. *)
Definition recv_start (m : mailbox) : mailbox :=
  if active m then
    let (v, y) := s_read (cpipe m) in
    match v with
    | Some c => log_received c (set_cpipe y m)
    | None => set_pc Waiting (set_active false (set_cpipe y m))
    end
  else set_pc Waiting m.

(** [signaler.wait] returns: with a signal, or with a timeout or an interruption. *)
Definition wait_done (m : mailbox) : mailbox := set_pc Receiving m.
Definition wait_failed (m : mailbox) : mailbox := set_pc Outside m.

Definition recv_signal (m : mailbox) : mailbox :=
  match signals m with
  | O => set_pc Outside m
  | S n => set_pc Reading (set_active true (set_signals n m))
  end.

(** [const bool ok = cpipe.read (cmd_); zmq_assert (ok);] *)
Definition recv_read (m : mailbox) : outcome mailbox :=
  let (v, y) := s_read (cpipe m) in
  match v with
  | Some c => Done (set_pc Outside (log_received c (set_cpipe y m)))
  | None => Crash
  end.

(** ** Steps

    A thread that sends does not send again before it has signalled. *)
Inductive step : mailbox -> outcome mailbox -> Prop :=
| step_send t c m : t ∉ signalling m -> step m (Done (send t c m))
| step_signal t m : t ∈ signalling m -> step m (Done (signal t m))
| step_start m : pc m = Outside -> step m (Done (recv_start m))
| step_wait m : pc m = Waiting -> signals m <> O -> step m (Done (wait_done m))
| step_timeout m : pc m = Waiting -> step m (Done (wait_failed m))
| step_receive m : pc m = Receiving -> step m (Done (recv_signal m))
| step_read m : pc m = Reading -> step m (recv_read m).

Inductive reach : mailbox -> Prop :=
| reach_new m : mailbox_new = Done m -> reach m
| reach_step m m' : reach m -> step m (Done m') -> reach m'.

(** ** The invariant *)

Abbreviation due m := (base.size (signalling m)).

(** At most one signal is on its way or waits, and it does exactly when the receiver sleeps on a pipe that
    is not empty any more. *)
Record inv (m : mailbox) : Prop := {
  i_complete : complete (cpipe m) = [] /\ partial (cpipe m) = [];
  i_order : sent m = received m ++ flushed (cpipe m);
  i_state : match pc m with
            | Reading => active m = true /\ asleep (cpipe m) = false /\ flushed (cpipe m) <> [] /\
                         (due m + signals m = 0)%nat
            | Receiving => active m = false /\ asleep (cpipe m) = false /\ flushed (cpipe m) <> [] /\
                           due m = 0%nat /\ signals m = 1%nat
            | _ =>
              if active m then pc m = Outside /\ asleep (cpipe m) = false /\ (due m + signals m = 0)%nat
              else if asleep (cpipe m) then flushed (cpipe m) = [] /\ (due m + signals m = 0)%nat
              else flushed (cpipe m) <> [] /\ (due m + signals m = 1)%nat
            end
}.

Lemma inv_new m : mailbox_new = Done m -> inv m.
Proof. intros [= <-]. by split. Qed.

Lemma inv_send t c m : inv m -> t ∉ signalling m -> inv (send t c m).
Proof.
  intros [[Hc Hp] Ho Hs] Ht. destruct m as [[fl co pa as_] si ac p sg se re]. simpl in *. subst co pa.
  unfold send, s_write, s_flush. simpl. destruct as_; simpl.
  - split; simpl; [done|by rewrite Ho, app_assoc|].
    rewrite size_union, size_singleton by set_solver.
    destruct p, ac; try (by destruct Hs as (? & ? & ?)); destruct Hs as [-> Hs]; (split; [done|lia]).
  - split; simpl; [done|by rewrite Ho, app_assoc|].
    assert (Hne : forall l : list T, l ++ [c] <> []) by (by intros []).
    destruct p, ac; naive_solver.
Qed.

Lemma inv_signal t m : inv m -> t ∈ signalling m -> inv (signal t m).
Proof.
  intros [Hc Ho Hs] Ht. destruct m as [y si ac p sg se re]. simpl in *.
  assert (Hsz : base.size (sg ∖ {[t]}) = (base.size sg - 1)%nat /\ (0 < base.size sg)%nat).
  { rewrite size_difference by set_solver. rewrite size_singleton. split; [done|].
    assert (base.size sg <> 0%nat); [|lia]. intros E%size_empty_inv. set_solver. }
  destruct Hsz as [Hsz Hpos]. split; simpl; [done|done|]. rewrite Hsz.
  destruct p, ac, (asleep y); destruct_and?; split_and?; try done; lia.
Qed.

Lemma inv_recv_start m : inv m -> pc m = Outside -> inv (recv_start m).
Proof.
  intros [[Hc Hp] Ho Hs] Hpc. destruct m as [[fl co pa as_] si ac p sg se re]. simpl in *. subst co pa p.
  unfold recv_start, s_read. simpl. destruct ac; simpl; [|by split].
  destruct Hs as (_ & -> & Hz). destruct fl as [|v l]; simpl.
  - split; simpl; [done|done|done].
  - split; simpl; [done|by rewrite <- app_assoc|done].
Qed.

Lemma inv_wait_done m : inv m -> pc m = Waiting -> signals m <> O -> inv (wait_done m).
Proof.
  intros [Hc Ho Hs] Hpc Hn. destruct m as [y si ac p sg se re]. simpl in *. subst p.
  split; simpl; [done|done|]. destruct ac; [by destruct Hs|]. destruct (asleep y); destruct Hs as [? ?]; [lia|].
  split_and!; try done; lia.
Qed.

Lemma inv_wait_failed m : inv m -> pc m = Waiting -> inv (wait_failed m).
Proof.
  intros [Hc Ho Hs] Hpc. destruct m as [y si ac p sg se re]. simpl in *. subst p.
  split; simpl; [done|done|]. by destruct ac; [destruct Hs|].
Qed.

Lemma inv_recv_signal m : inv m -> pc m = Receiving -> inv (recv_signal m).
Proof.
  intros [Hc Ho Hs] Hpc. destruct m as [y si ac p sg se re]. simpl in *. subst p.
  destruct Hs as (-> & Ha & Hf & Hd & ->). split; simpl; [done|done|]. rewrite Hd. done.
Qed.

Lemma inv_recv_read m : inv m -> pc m = Reading -> exists m', recv_read m = Done m' /\ inv m'.
Proof.
  intros [[Hc Hp] Ho Hs] Hpc. destruct m as [[fl co pa as_] si ac p sg se re]. simpl in *. subst co pa p.
  destruct Hs as (-> & -> & Hf & Hz). unfold recv_read, s_read. simpl. destruct fl as [|v l]; [done|].
  eexists. split; [reflexivity|]. split; simpl; [done|by rewrite <- app_assoc|done].
Qed.

Lemma mailbox_inv_step m o : inv m -> step m o -> exists m', o = Done m' /\ inv m'.
Proof.
  intros Hi Hs. destruct Hs as [t c m Ht|t m Ht|m Hp|m Hp Hn|m Hp|m Hp|m Hp]; try (eexists; split; [reflexivity|]).
  - by apply inv_send.
  - by apply inv_signal.
  - by apply inv_recv_start.
  - by apply inv_wait_done.
  - by apply inv_wait_failed.
  - by apply inv_recv_signal.
  - destruct (inv_recv_read m Hi Hp) as (m' & -> & ?). by exists m'.
Qed.

Lemma mailbox_reach_inv m : reach m -> inv m.
Proof.
  induction 1 as [m E|m m' _ IH Hs]; [by apply inv_new|].
  destruct (mailbox_inv_step m (Done m') IH Hs) as (m1 & [= <-] & ?). done.
Qed.
End Mailbox.

(** ** Properties *)

(** C37: commands sent to a thread arrive, once each and in the order of the senders' turns,
    under any interleaving of senders and receiver.  No step aborts: when the receiver was
    woken by a signal there is a command to read.  And no command is stranded: while one
    has not been received, the receiver is awake, or a signal waits for it, or a sender is about to
    send the signal; otherwise all that was sent has been received. *)
Theorem mailbox_delivers {T} (m : mailbox (T := T)) :
  reach m ->
  (forall o, step m o -> exists m', o = Done m') /\
  received m `prefix_of` sent m /\
  (received m <> sent m -> active m = true \/ (signals m + base.size (signalling m) = 1)%nat) /\
  (signals m + base.size (signalling m) <= 1)%nat.
Proof.
  intros Hr. pose proof (mailbox_reach_inv m Hr) as Hi. split.
  { intros o Ho. destruct (mailbox_inv_step m o Hi Ho) as (m' & ? & _). by exists m'. }
  destruct Hi as [_ Ho Hs]. split; [by exists (flushed (cpipe m))|].
  assert (Hf : received m <> sent m -> flushed (cpipe m) <> []).
  { intros Hne E. apply Hne. by rewrite Ho, E, app_nil_r. }
  destruct (pc m), (active m), (asleep (cpipe m)); destruct_and?; split; try lia; intros Hne;
    specialize (Hf Hne); try (by left); try done; right; lia.
Qed.

(** Thread 1 sends command 7 and has not signalled yet. *)
Definition sample : mailbox (T := nat) :=
  match mailbox_new with Done m => send 1 7%nat m | Crash => Mailbox spipe_new 0 false Outside ∅ [] [] end.

Lemma mailbox_delivers_witness :
  reach sample /\ received sample = [] /\ sent sample = [7%nat] /\
  (signals sample + base.size (signalling sample) = 1)%nat.
Proof.
  assert (Hr : reach sample).
  { apply (reach_step (match mailbox_new with Done m => m | Crash => sample end)).
    - by apply reach_new.
    - apply step_send. apply not_elem_of_empty. }
  split; [exact Hr|]. split; [reflexivity|]. split; [reflexivity|].
  destruct (mailbox_delivers sample Hr) as (_ & _ & Hw & _).
  destruct Hw as [Ha|Hs]; [discriminate|discriminate Ha|exact Hs].
Defined.

End Mailbox.
