(* ===== verification/MailboxSafe.v ===== *)
(** * MailboxSafe: mailbox_safe_t (libzmq/src/mailbox_safe.cpp)

    The mailbox of a socket that several threads may use: they receive under one mutex
    and sleep on a condition variable.  [step] has one transition for each stretch
    of code under the mutex; a wait may end spuriously. *)

From S2P Require Import Prelude Ypipe.

Module Safe.
Import Yp.

Section Safe.
Context {T : Type}.

Record mailbox : Type := Mailbox {
  cpipe : spipe (T := T);
  (* each registered signaler with the signals it was sent *)
  signalers : list (nat * nat);
  (* the threads that sleep on the condition variable, and those it woke *)
  waiting : gset nat;
  woken : gset nat;
  sent : list T;
  received : list T
}.

Definition mailbox_safe_new : outcome mailbox :=
  let (v, y) := s_read spipe_new in
  match v with
  | None => Done (Mailbox y [] ∅ ∅ [] [])
  | Some _ => Crash
  end.

Definition add_signaler (s : nat) (m : mailbox) : mailbox :=
  Mailbox (cpipe m) (signalers m ++ [(s, O)]) (waiting m) (woken m) (sent m) (received m).

(** The first occurrence is erased. *)
Fixpoint erase_first (s : nat) (l : list (nat * nat)) : list (nat * nat) :=
  match l with
  | [] => []
  | (s', n) :: l => if decide (s' = s) then l else (s', n) :: erase_first s l
  end.

Definition remove_signaler (s : nat) (m : mailbox) : mailbox :=
  Mailbox (cpipe m) (erase_first s (signalers m)) (waiting m) (woken m) (sent m) (received m).

Definition clear_signalers (m : mailbox) : mailbox :=
  Mailbox (cpipe m) [] (waiting m) (woken m) (sent m) (received m).

Definition signal_all (l : list (nat * nat)) : list (nat * nat) := map (fun s => (s.1, S s.2)) l.

(** [send]: all of it is under the mutex. *)
Definition send (c : T) (m : mailbox) : mailbox :=
  let y := s_write c false (cpipe m) in
  let (ok, y) := s_flush y in
  if negb ok
  then Mailbox y (signal_all (signalers m)) ∅ (woken m ∪ waiting m) (sent m ++ [c]) (received m)
  else Mailbox y (signalers m) (waiting m) (woken m) (sent m ++ [c]) (received m).

(** [recv] up to [cond_var.wait], which frees the mutex. *)
Definition recv_start (t : nat) (m : mailbox) : mailbox :=
  let (v, y) := s_read (cpipe m) in
  match v with
  | Some c => Mailbox y (signalers m) (waiting m) (woken m) (sent m) (received m ++ [c])
  | None => Mailbox y (signalers m) ({[t]} ∪ waiting m) (woken m) (sent m) (received m)
  end.

(** The wait ended with a timeout. *)
Definition recv_timeout (t : nat) (m : mailbox) : mailbox :=
  Mailbox (cpipe m) (signalers m) (waiting m ∖ {[t]}) (woken m ∖ {[t]}) (sent m) (received m).

(** The wait ended, by [broadcast] or spuriously: the rest of [recv]. *)
Definition recv_woken (t : nat) (m : mailbox) : mailbox :=
  let (v, y) := s_read (cpipe m) in
  Mailbox y (signalers m) (waiting m ∖ {[t]}) (woken m ∖ {[t]}) (sent m)
    (received m ++ match v with Some c => [c] | None => [] end).

Inductive step : mailbox -> mailbox -> Prop :=
| step_send c m : step m (send c m)
| step_recv t m : t ∉ waiting m ∪ woken m -> step m (recv_start t m)
| step_timeout t m : t ∈ waiting m ∪ woken m -> step m (recv_timeout t m)
| step_woken t m : t ∈ waiting m ∪ woken m -> step m (recv_woken t m)
| step_add s m : step m (add_signaler s m)
| step_remove s m : step m (remove_signaler s m)
| step_clear m : step m (clear_signalers m).

Inductive reach : mailbox -> Prop :=
| reach_new m : mailbox_safe_new = Done m -> reach m
| reach_step m m' : reach m -> step m m' -> reach m'.

(** A thread sleeps, or a signaler may be polled, only when the pipe knows that its reader is gone. *)
Record inv (m : mailbox) : Prop := {
  i_complete : complete (cpipe m) = [] /\ partial (cpipe m) = [];
  i_order : sent m = received m ++ flushed (cpipe m);
  i_sleep : waiting m <> ∅ -> asleep (cpipe m) = true;
  i_asleep : asleep (cpipe m) = true -> flushed (cpipe m) = []
}.

(** A read keeps the invariant, whoever sleeps after it: only who found nothing may. *)
Lemma inv_read m y v sg w wk :
  inv m -> s_read (cpipe m) = (v, y) ->
  (v <> None -> w ⊆ waiting m) ->
  inv (Mailbox y sg w wk (sent m) (received m ++ match v with Some c => [c] | None => [] end)).
Proof.
  intros [[Hc Hp] Ho Hs Ha] E Hw. destruct m as [[fl co pa as_] si wa wo se re]. simpl in *. subst co pa.
  unfold s_read in E. simpl in E. destruct fl as [|c fl]; injection E as <- <-; simpl in *.
  - split; simpl; [done|by rewrite app_nil_r|done|done].
  - destruct as_; [by specialize (Ha eq_refl)|]. split; simpl; [done|by rewrite <- app_assoc| |done].
    intros Hne. apply Hs. intros ->. apply Hne. apply set_eq. intros x.
    pose proof (Hw ltac:(done) x). set_solver.
Qed.

Lemma mailboxsafe_inv_step m m' : inv m -> step m m' -> inv m'.
Proof.
  intros Hi Hs. destruct Hs as [c m|t m Ht|t m Ht|t m Ht|s m|s m|m]; try (destruct Hi; by split).
  - destruct Hi as [[Hc Hp] Ho Hw Ha]. destruct m as [[fl co pa as_] si wa wo se re]. simpl in *. subst co pa.
    unfold send, s_write, s_flush. simpl.
    destruct as_; simpl; split; simpl; try done; try (by rewrite Ho, app_assoc).
  - unfold recv_start. destruct (s_read (cpipe m)) as [v y] eqn:E.
    pose proof (inv_read m y v (signalers m)
      (match v with Some _ => waiting m | None => {[t]} ∪ waiting m end) (woken m) Hi E) as Hr.
    destruct v; [by apply Hr|rewrite app_nil_r in Hr; by apply Hr].
  - destruct Hi as [Hc Ho Hw Ha]. split; simpl; try done. intros Hne. apply Hw. set_solver.
  - unfold recv_woken. destruct (s_read (cpipe m)) as [v y] eqn:E.
    apply (inv_read m); [done|done|set_solver].
Qed.

Lemma mailboxsafe_reach_inv m : reach m -> inv m.
Proof.
  induction 1 as [m E|m m' _ IH Hs]; [|by apply (mailboxsafe_inv_step m)].
  injection E as <-. by split.
Qed.
End Safe.

(** A mailbox shared by receivers: commands are received once each and in the order they were
    sent; no receiver sleeps while a command waits; and a command that arrives when one sleeps
    wakes them all and signals every registered poller. *)
Theorem mailbox_safe_delivers {T} (m : mailbox (T := T)) c :
  reach m ->
  received m `prefix_of` sent m /\
  (waiting m <> ∅ -> received m = sent m) /\
  (asleep (cpipe m) = true ->
   waiting (send c m) = ∅ /\ waiting m ⊆ woken (send c m) /\
   signalers (send c m) = map (fun s => (s.1, S s.2)) (signalers m)).
Proof.
  intros Hr. pose proof (mailboxsafe_reach_inv m Hr) as [[Hc Hp] Ho Hs Ha]. split; [by exists (flushed (cpipe m))|]. split.
  - intros Hw. by rewrite Ho, (Ha (Hs Hw)), app_nil_r.
  - intros E. destruct m as [[fl co pa as_] si wa wo se re]. simpl in *. subst co pa as_.
    unfold send, s_flush, s_write. simpl. split_and!; [done|set_solver|done].
Qed.

(** Thread 1 sleeps in [recv]; a poller watches too. *)
Definition sample : mailbox (T := nat) := Mailbox (Spipe [] [] [] true) [(5%nat, O)] {[1%nat]} ∅ [] [].

Lemma mailbox_safe_delivers_witness :
  reach sample /\ waiting (send 7%nat sample) = ∅ /\ signalers (send 7%nat sample) = [(5%nat, 1%nat)].
Proof.
  assert (Hr : reach sample).
  { apply (reach_step (Mailbox (Spipe [] [] [] true) [(5%nat, O)] ∅ ∅ [] [])).
    - apply (reach_step (Mailbox (Spipe [] [] [] true) [] ∅ ∅ [] [])); [by apply reach_new|].
      exact (step_add 5 _).
    - replace sample with (recv_start 1 (Mailbox (T := nat) (Spipe [] [] [] true) [(5%nat, O)] ∅ ∅ [] []))
        by (vm_compute; reflexivity).
      apply step_recv. set_solver. }
  destruct (mailbox_safe_delivers sample 7%nat Hr) as (_ & _ & Hs).
  destruct (Hs eq_refl) as (Hw & _ & Hg). split; [exact Hr|]. split; [exact Hw|exact Hg].
Defined.

End Safe.
