(* ===== verification/Own.v ===== *)
(** * Own: the ownership tree, own_t and the commands of object_t (libzmq/src/own.cpp, object.cpp)

    Sockets, sessions, listeners and connecters form trees across threads.  A parent
    is deleted after its children, and nobody before the commands sent to it were
    processed; a sequence number and a count of acknowledgements see to that. *)

From S2P Require Import Prelude.

Module Own.

(** The commands that an [own_t] handles; objects are their addresses. *)
Inductive command : Type :=
| plug
| own (object : nat)
| attach
| bind
| term_req (object : nat)
| term (linger : Z)
| term_ack
| inproc_connected.

#[global] Instance command_eq_dec : EqDecision command.
Proof. solve_decision. Defined.

(** The members of own_t, with [tid] of object_t and [options.linger]. *)
Record own_t : Type := OwnT {
  tid : nat;
  terminating : bool;
  sent_seqnum : Z;
  processed_seqnum : Z;
  owner : option nat;
  owned : gset nat;
  term_acks : Z;
  linger : Z
}.

Definition own_new (tid_ : nat) (linger_ : Z) : own_t := OwnT tid_ false 0 0 None ∅ 0 linger_.

Definition set_terminating (x : own_t) : own_t :=
  OwnT (tid x) true (sent_seqnum x) (processed_seqnum x) (owner x) (owned x) (term_acks x) (linger x).
Definition set_sent (n : Z) (x : own_t) : own_t :=
  OwnT (tid x) (terminating x) n (processed_seqnum x) (owner x) (owned x) (term_acks x) (linger x).
Definition set_processed (n : Z) (x : own_t) : own_t :=
  OwnT (tid x) (terminating x) (sent_seqnum x) n (owner x) (owned x) (term_acks x) (linger x).
Definition set_the_owner (p : nat) (x : own_t) : own_t :=
  OwnT (tid x) (terminating x) (sent_seqnum x) (processed_seqnum x) (Some p) (owned x) (term_acks x) (linger x).
Definition set_owned (s : gset nat) (x : own_t) : own_t :=
  OwnT (tid x) (terminating x) (sent_seqnum x) (processed_seqnum x) (owner x) s (term_acks x) (linger x).
Definition set_acks (n : Z) (x : own_t) : own_t :=
  OwnT (tid x) (terminating x) (sent_seqnum x) (processed_seqnum x) (owner x) (owned x) n (linger x).

(** The objects that exist, and the commands sent and not processed, in the order in which they were
    sent: the mailbox of a thread is what goes to its slot. *)
Record world : Type := World { objs : gmap nat own_t; mail : list (nat * (nat * command)) }.

(** [this->]: the object must not have been deleted. *)
Definition self (o : nat) : stm world own_t := fun w => let* x := deref (objs w !! o) in Done (w, x).

Definition upd (o : nat) (f : own_t -> own_t) : stm world unit :=
  fun w => let* x := deref (objs w !! o) in Done (World (<[o := f x]> (objs w)) (mail w), tt).

(** *** Sending: object_t *)

(** [ctx->send_command (destination->get_tid (), cmd)] *)
Definition send_command (destination : nat) (cmd : command) : stm world unit :=
  let! x := self destination in
  smod (fun w => World (objs w) (mail w ++ [(tid x, (destination, cmd))])).

Definition inc_seqnum (o : nat) : stm world unit := upd o (fun x => set_sent (u32 (sent_seqnum x + 1)) x).

Definition send_plug (destination : nat) (inc : bool) : stm world unit :=
  (if inc then inc_seqnum destination else sret tt) ;;; send_command destination plug.
Definition send_own (destination object : nat) : stm world unit :=
  inc_seqnum destination ;;; send_command destination (own object).
Definition send_attach (destination : nat) (inc : bool) : stm world unit :=
  (if inc then inc_seqnum destination else sret tt) ;;; send_command destination attach.
Definition send_bind (destination : nat) (inc : bool) : stm world unit :=
  (if inc then inc_seqnum destination else sret tt) ;;; send_command destination bind.
Definition send_term_req (destination object : nat) : stm world unit := send_command destination (term_req object).
Definition send_term (destination : nat) (linger_ : Z) : stm world unit := send_command destination (term linger_).
Definition send_term_ack (destination : nat) : stm world unit := send_command destination term_ack.
Definition send_inproc_connected (socket : nat) : stm world unit := send_command socket inproc_connected.

(** *** own_t *)

(** [delete this] *)
Definition process_destroy (o : nat) : stm world unit := smod (fun w => World (delete o (objs w)) (mail w)).

Definition check_term_acks (o : nat) : stm world unit :=
  let! x := self o in
  if terminating x && (processed_seqnum x =? sent_seqnum x) && (term_acks x =? 0) then
    sassert (bool_decide (owned x = ∅)) ;;;
    match owner x with Some p => send_term_ack p | None => sret tt end ;;;
    process_destroy o
  else sret tt.

Definition register_term_acks (o : nat) (count : Z) : stm world unit :=
  upd o (fun x => set_acks (i32 (term_acks x + count)) x).

Definition unregister_term_ack (o : nat) : stm world unit :=
  let! x := self o in
  sassert (0 <? term_acks x) ;;;
  upd o (fun x => set_acks (i32 (term_acks x - 1)) x) ;;;
  check_term_acks o.

Definition set_owner (o p : nat) : stm world unit :=
  let! x := self o in
  sassert (bool_decide (owner x = None)) ;;; upd o (set_the_owner p).

Definition process_seqnum (o : nat) : stm world unit :=
  upd o (fun x => set_processed (u64 (processed_seqnum x + 1)) x) ;;; check_term_acks o.

(** [launch_child], up to the call of [send_own], and that call. *)
Definition launch_child_plug (o object : nat) : stm world unit := set_owner object o ;;; send_plug object true.
Definition launch_child_own (o object : nat) : stm world unit := send_own o object.
Definition launch_child (o object : nat) : stm world unit := launch_child_plug o object ;;; launch_child_own o object.

Definition process_term_req (o object : nat) : stm world unit :=
  let! x := self o in
  if terminating x then sret tt
  else if bool_decide (object ∈ owned x) then
    upd o (fun x => set_owned (owned x ∖ {[object]}) x) ;;;
    register_term_acks o 1 ;;;
    send_term object (linger x)
  else sret tt.

Definition term_child (o object : nat) : stm world unit := process_term_req o object.

Definition process_own (o object : nat) : stm world unit :=
  let! x := self o in
  if terminating x then register_term_acks o 1 ;;; send_term object 0
  else upd o (fun x => set_owned ({[object]} ∪ owned x) x).

(** The iteration over the set, in some order of the addresses. *)
Fixpoint send_terms (l : list nat) (linger_ : Z) : stm world unit :=
  match l with
  | [] => sret tt
  | c :: l => send_term c linger_ ;;; send_terms l linger_
  end.

Definition process_term (o : nat) (linger_ : Z) : stm world unit :=
  let! x := self o in
  sassert (negb (terminating x)) ;;;
  send_terms (elements (owned x)) linger_ ;;;
  register_term_acks o (i32 (Z.of_nat (base.size (owned x)))) ;;;
  upd o (set_owned ∅) ;;;
  upd o set_terminating ;;;
  check_term_acks o.

Definition terminate (o : nat) : stm world unit :=
  let! x := self o in
  if terminating x then sret tt
  else match owner x with
       | None => process_term o (linger x)
       | Some p => send_term_req p o
       end.

Definition process_term_ack (o : nat) : stm world unit := unregister_term_ack o.

(** object_t::process_command; the handlers [process_plug], [process_attach] and [process_bind] of the
    derived classes are the actions that precede this step. *)
Definition process_command (o : nat) (cmd : command) : stm world unit :=
  match cmd with
  | plug | attach | bind | inproc_connected => process_seqnum o
  | own object => process_own o object ;;; process_seqnum o
  | term_req object => process_term_req o object
  | term l => process_term o l
  | term_ack => process_term_ack o
  end.

(** The next command of a thread, and the others. *)
Fixpoint next_command (t : nat) (l : list (nat * (nat * command)))
  : option ((nat * command) * list (nat * (nat * command))) :=
  match l with
  | [] => None
  | (s, c) :: l => if decide (s = t) then Some (c, l)
                   else match next_command t l with Some (c', l') => Some (c', (s, c) :: l') | None => None end
  end.

(** A thread processes a command; nothing happens when it has none. *)
Definition process_next (t : nat) : stm world unit :=
  fun w => match next_command t (mail w) with
           | Some ((o, c), l) => process_command o c (World (objs w) l)
           | None => Done (w, tt)
           end.

(** ** The system

    Threads process their commands, and the objects that exist call the methods of [own_t] in
    between.  Three things are kept besides the objects: the thread that is between the two
    sends of [launch_child], the events each object registered (its pipes), and the
    commands announced by [inc_seqnum] and not sent (the [bind] of an inproc connection). *)

Record sys : Type := Sys {
  wo : world;
  busy : gmap nat (nat * nat);
  registered : nat -> Z;
  reserved : nat -> Z
}.

Definition bump (o : nat) (n : Z) (f : nat -> Z) (o' : nat) : Z := if decide (o' = o) then f o' + n else f o'.

Inductive action : Type :=
| Process (t : nat)
| Create (o t : nat) (l : Z)
| Launch (o c t : nat) (l : Z)
| Launched (t : nat)
| TermChild (o c : nat)
| Terminate (o : nat)
| Register (o : nat) (n : Z)
| Unregister (o : nat)
| Attach (o d : nat)
| Reserve (d : nat)
| Bind (d : nat).

Definition run (m : stm world unit) (s : sys) : outcome sys :=
  let* (w, _) := m (wo s) in Done (Sys w (busy s) (registered s) (reserved s)).

Definition new_object (o t : nat) (l : Z) : stm world unit :=
  smod (fun w => World (<[o := own_new t l]> (objs w)) (mail w)).

Definition exec (a : action) (s : sys) : outcome sys :=
  match a with
  | Process t => run (process_next t) s
  | Create o t l => run (new_object o t l) s
  | Launch o c t l =>
      let* x := deref (objs (wo s) !! o) in
      let* (w, _) := (new_object c t l ;;; launch_child_plug o c) (wo s) in
      Done (Sys w (<[tid x := (o, c)]> (busy s)) (registered s) (reserved s))
  | Launched t =>
      let* (o, c) := deref (busy s !! t) in
      let* (w, _) := launch_child_own o c (wo s) in
      Done (Sys w (delete t (busy s)) (registered s) (reserved s))
  | TermChild o c => run (term_child o c) s
  | Terminate o => run (terminate o) s
  | Register o n =>
      let* (w, _) := register_term_acks o n (wo s) in
      Done (Sys w (busy s) (bump o n (registered s)) (reserved s))
  | Unregister o =>
      let* (w, _) := unregister_term_ack o (wo s) in
      Done (Sys w (busy s) (bump o (-1) (registered s)) (reserved s))
  | Attach o d => run (send_attach d true) s
  | Reserve d =>
      let* (w, _) := inc_seqnum d (wo s) in
      Done (Sys w (busy s) (registered s) (bump d 1 (reserved s)))
  | Bind d =>
      let* (w, _) := send_bind d false (wo s) in
      Done (Sys w (busy s) (registered s) (bump d (-1) (reserved s)))
  end.

(** An object that exists, in a thread that is not inside [launch_child]. *)
Definition idle (s : sys) (o : nat) : Prop :=
  exists x, objs (wo s) !! o = Some x /\ busy s !! tid x = None.

(** Who may do what: an object calls its own methods, sends commands to itself, its owner and what
    it owns; announcing a command to an object takes place before it terminates. *)
Definition enabled (a : action) (s : sys) : Prop :=
  match a with
  | Process t => busy s !! t = None /\ next_command t (mail (wo s)) <> None
  | Create o _ _ => objs (wo s) !! o = None
  | Launch o c _ _ => idle s o /\ objs (wo s) !! c = None
  | Launched t => busy s !! t <> None
  | TermChild o _ | Terminate o => idle s o
  | Register o n => idle s o /\ 0 <= n /\
      registered s o + reserved s o + n + Z.of_nat (length (mail (wo s)) + base.size (objs (wo s))) < 2 ^ 31 - 1
  | Unregister o => idle s o /\ 0 < registered s o
  | Attach o d => idle s o /\ exists x, objs (wo s) !! o = Some x /\ (d = o \/ owner x = Some d \/ d ∈ owned x)
  | Reserve d => objs (wo s) !! d <> None
  | Bind d => 0 < reserved s d
  end.

(** Fewer than 2^31 things to count, whatever the object. *)
Definition small (s : sys) : Prop :=
  forall o, registered s o + reserved s o + Z.of_nat (length (mail (wo s)) + base.size (objs (wo s))) < 2 ^ 31 - 1.

Definition sys0 : sys := Sys (World ∅ []) ∅ (fun _ => 0) (fun _ => 0).

Inductive step : sys -> sys -> Prop :=
| step_action a s s' : small s -> enabled a s -> exec a s = Done s' -> step s s'.

End Own.
