(* ===== verification/OwnInv.v ===== *)
(** * OwnInv: the invariant of the ownership tree and the transitions that keep it

    The children of an object are in one of five phases, the counters of an object agree
    with the commands on their way to it, and nothing refers to an object that is deleted.  Each
    lemma [good_*] is one elementary change. *)

From S2P Require Import Prelude Own.

Module OwnInv.
Import Own.

(** ** The invariant *)

Abbreviation entry := (nat * (nat * command))%type.

Definition is_seq (c : command) : bool :=
  match c with plug | own _ | attach | bind | inproc_connected => true | _ => false end.
Definition is_ack (c : command) : bool := match c with term_ack => true | _ => false end.
Definition is_term (c : command) : bool := match c with term _ => true | _ => false end.

Definition b2n (b : bool) : nat := if b then 1%nat else 0%nat.

(** The commands to an object that satisfy a test. *)
Fixpoint cnt (P : command -> bool) (o : nat) (l : list entry) : nat :=
  match l with
  | [] => 0%nat
  | (_, (d, c)) :: l => (b2n (bool_decide (d = o) && P c) + cnt P o l)%nat
  end.

(** The commands that hand over an object. *)
Fixpoint nown (k : nat) (l : list entry) : nat :=
  match l with
  | [] => 0%nat
  | (_, (_, own k')) :: l => (b2n (bool_decide (k' = k)) + nown k l)%nat
  | _ :: l => nown k l
  end.

Definition arg_ok (X : gmap nat own_t) (d : nat) (x : own_t) (c : command) : Prop :=
  match c with
  | own k => exists y, X !! k = Some y /\ owner y = Some d
  | term _ => owner x <> None
  | _ => True
  end.

(** Every command goes to an object that exists, in its thread. *)
Definition dest_ok (X : gmap nat own_t) (l : list entry) : Prop :=
  forall s d c, (s, (d, c)) ∈ l -> exists x, X !! d = Some x /\ tid x = s /\ arg_ok X d x c.

(** A request to terminate a child is followed by its acknowledgement when the child is gone. *)
Definition req_ok (X : gmap nat own_t) (l : list entry) : Prop :=
  forall l1 l2 s o c, l = l1 ++ (s, (o, term_req c)) :: l2 ->
    (exists y, X !! c = Some y /\ owner y = Some o) \/ (exists s', (s', (o, term_ack)) ∈ l2).

Definition busy_ok (X : gmap nat own_t) (B : gmap nat (nat * nat)) : Prop :=
  forall t o c, B !! t = Some (o, c) ->
    exists x y, X !! o = Some x /\ tid x = t /\ X !! c = Some y /\ owner y = Some o.

Definition ranked (X : gmap nat own_t) : Prop :=
  exists rank : nat -> nat, forall c y o, X !! c = Some y -> owner y = Some o -> (rank o < rank c)%nat.

(** A child is launched, handed over, owned, asked to terminate, or terminating. *)
Definition phase (B : gmap nat (nat * nat)) (l : list entry) (o : nat) (x : own_t) (c : nat) (y : own_t) : nat :=
  (b2n (bool_decide (B !! tid x = Some (o, c))) + nown c l + b2n (bool_decide (c ∈ owned x)) +
   cnt is_term c l + b2n (terminating y))%nat.

(** [K o] are the children of [o] that were asked to terminate; [skip] is an object whose
    handler has not come to [check_term_acks]. *)
Record good (skip : option nat) (K : nat -> gset nat) (X : gmap nat own_t) (l : list entry)
    (B : gmap nat (nat * nat)) (reg res : nat -> Z) : Prop := {
  g_dest : dest_ok X l;
  g_req : req_ok X l;
  g_busy : busy_ok X B;
  g_rank : ranked X;
  g_seq : forall o x, X !! o = Some x -> 0 <= processed_seqnum x < 2 ^ 64 /\
    sent_seqnum x = u32 (processed_seqnum x + Z.of_nat (cnt is_seq o l) + res o);
  g_acks : forall o x, X !! o = Some x -> term_acks x = reg o + Z.of_nat (base.size (K o) + cnt is_ack o l);
  g_nonneg : forall o, 0 <= reg o /\ 0 <= res o /\ (X !! o = None -> reg o = 0 /\ res o = 0);
  g_asked : forall o c, c ∈ K o <->
    exists y, X !! c = Some y /\ owner y = Some o /\ (terminating y = true \/ (0 < cnt is_term c l)%nat);
  g_phase : forall c y o, X !! c = Some y -> owner y = Some o ->
    exists x, X !! o = Some x /\ phase B l o x c y = 1%nat;
  g_owned : forall o x c, X !! o = Some x -> c ∈ owned x -> exists y, X !! c = Some y /\ owner y = Some o;
  g_empty : forall o x, X !! o = Some x -> terminating x = true -> skip <> Some o -> owned x = ∅;
  g_last : forall o x, X !! o = Some x -> terminating x = true -> skip <> Some o ->
    cnt is_seq o l = 0%nat -> res o = 0 -> term_acks x = 0 -> 2 ^ 32 <= processed_seqnum x
}.

(** ** Counting *)
Lemma cnt_app P o l l' : cnt P o (l ++ l') = (cnt P o l + cnt P o l')%nat.
Proof. induction l as [|[s [d c]] l IH]; simpl; [done|]. rewrite IH. lia. Qed.

Lemma nown_app k l l' : nown k (l ++ l') = (nown k l + nown k l')%nat.
Proof. induction l as [|[s [d c]] l IH]; simpl; [done|]. rewrite IH. destruct c; lia. Qed.

Lemma cnt_le P o l : (cnt P o l <= length l)%nat.
Proof. induction l as [|[s [d c]] l IH]; simpl; [lia|]. destruct (_ && _); simpl; lia. Qed.

Lemma cnt_zero P o l s c : cnt P o l = 0%nat -> (s, (o, c)) ∈ l -> P c = false.
Proof.
  induction l as [|[s' [d c']] l IH]; simpl; [by intros _ ?%not_elem_of_nil|].
  intros Hc [E|E]%elem_of_cons; [|apply IH; [lia|done]].
  injection E as <- <- <-. rewrite bool_decide_eq_true_2 in Hc by done. by destruct (P c).
Qed.

Lemma cnt_pos P o l : (0 < cnt P o l)%nat -> exists s c, (s, (o, c)) ∈ l /\ P c = true.
Proof.
  induction l as [|[s' [d c']] l IH]; simpl; [lia|]. intros Hc. destruct (bool_decide (d = o) && P c') eqn:E.
  - apply andb_true_iff in E as [->%bool_decide_eq_true Hp]. exists s', c'. split; [by constructor|done].
  - destruct IH as (s & c & Hin & Hp); [simpl in Hc; lia|]. exists s, c. split; [by constructor|done].
Qed.

Lemma nown_zero k l s d : nown k l = 0%nat -> (s, (d, own k)) ∉ l.
Proof.
  induction l as [|[s' [d' c']] l IH]; [by intros _ ?%not_elem_of_nil|]. intros Hc [E|E]%elem_of_cons.
  - injection E as <- <- <-. cbn [nown] in Hc. rewrite bool_decide_eq_true_2 in Hc by done. simpl in Hc. lia.
  - apply IH; [|done]. simpl in Hc. destruct c'; lia.
Qed.

Lemma nown_pos k l : (0 < nown k l)%nat -> exists s d, (s, (d, own k)) ∈ l.
Proof.
  induction l as [|[s' [d c']] l IH]; simpl; [lia|]. intros Hc.
  assert (Hd : (exists k', c' = own k' /\ k' = k) \/ (0 < nown k l)%nat).
  { destruct c' as [|k'| | | | | |]; try (by right). destruct (bool_decide (k' = k)) eqn:E; simpl in Hc; [|by right; lia].
    left. apply bool_decide_eq_true in E. by exists k'. }
  destruct Hd as [(k' & -> & ->)|Hd]; [exists s', d; by constructor|].
  destruct (IH Hd) as (s & d' & Hin). exists s, d'. by constructor.
Qed.

(** The next command of a thread is the first to its slot. *)
Lemma next_command_spec t l c l' :
  next_command t l = Some (c, l') ->
  exists l1 l2, l = l1 ++ (t, c) :: l2 /\ l' = l1 ++ l2 /\ forall e, e ∈ l1 -> e.1 <> t.
Proof.
  revert l'. induction l as [|[s e] l IH]; intros l' E; simpl in E; [done|]. case_decide as Hs.
  - injection E as <- <-. subst s. exists [], l. split; [done|]. split; [done|]. by intros e' ?%not_elem_of_nil.
  - destruct (next_command t l) as [[c' l0]|]; [|done]. injection E as <- <-.
    destruct (IH _ eq_refl) as (l1 & l2 & -> & -> & Hl). exists ((s, e) :: l1), l2.
    split; [done|]. split; [done|]. intros e' [->|He]%elem_of_cons; [done|by apply Hl].
Qed.

(** ** Transport of the parts of the invariant *)

Definition core (x : own_t) : nat * option nat * bool * gset nat := (tid x, owner x, terminating x, owned x).

Lemma lookup_core (X : gmap nat own_t) o x x' c y' :
  X !! o = Some x -> core x' = core x -> <[o := x']> X !! c = Some y' ->
  exists y, X !! c = Some y /\ core y' = core y.
Proof.
  intros Ho Hc. rewrite lookup_insert. case_decide as E; [|by exists y'].
  subst. intros [= <-]. by exists x.
Qed.

Lemma lookup_core_back (X : gmap nat own_t) o x x' c y :
  X !! o = Some x -> core x' = core x -> X !! c = Some y ->
  exists y', <[o := x']> X !! c = Some y' /\ core y' = core y.
Proof.
  intros Ho Hc Hy. rewrite lookup_insert. case_decide as E; [|by exists y].
  subst. exists x'. split; [done|]. congruence.
Qed.

Lemma core_fields x y : core x = core y ->
  tid x = tid y /\ owner x = owner y /\ terminating x = terminating y /\ owned x = owned y.
Proof. unfold core. intros [= -> -> -> ->]. done. Qed.

Lemma req_snoc (X : gmap nat own_t) l e :
  req_ok X l ->
  match e.2.2 with term_req c => exists y, X !! c = Some y /\ owner y = Some e.2.1 | _ => True end ->
  req_ok X (l ++ [e]).
Proof.
  intros Hr He l1 l2 s o c E. destruct l2 as [|e2 l2 _] using rev_ind.
  - apply app_inj_tail in E as [_ ->]. left. exact He.
  - rewrite app_comm_cons, app_assoc in E. apply app_inj_tail in E as [-> ->].
    destruct (Hr l1 l2 s o c eq_refl) as [Hl|[s' Hin]]; [by left|]. right. exists s'. apply elem_of_app. by left.
Qed.

Lemma req_tail X e l : req_ok X (e :: l) -> req_ok X l.
Proof. intros Hr l1 l2 s o c ->. by apply (Hr (e :: l1) l2 s o c). Qed.

Lemma dest_snoc (X : gmap nat own_t) l s d c x :
  dest_ok X l -> X !! d = Some x -> tid x = s -> arg_ok X d x c -> dest_ok X (l ++ [(s, (d, c))]).
Proof.
  intros Hd Hx Ht Ha s' d' c' [Hin|E%list_elem_of_singleton]%elem_of_app; [by apply Hd|].
  injection E as -> -> ->. by exists x.
Qed.

Lemma dest_tail X e l : dest_ok X (e :: l) -> dest_ok X l.
Proof. intros Hd s d c Hin. apply Hd. by constructor. Qed.

Lemma dest_core (X : gmap nat own_t) o x x' l : X !! o = Some x -> core x' = core x -> dest_ok X l -> dest_ok (<[o := x']> X) l.
Proof.
  intros Ho Hc Hd s d c Hin. destruct (Hd s d c Hin) as (y & Hy & Ht & Ha).
  destruct (lookup_core_back X o x x' d y Ho Hc Hy) as (y' & Hy' & E%core_fields). exists y'. split; [done|].
  split; [by rewrite (proj1 E)|]. destruct c; try done; simpl in *; [|by rewrite (proj1 (proj2 E))].
  destruct Ha as (z & Hz & Hoz). destruct (lookup_core_back X o x x' _ z Ho Hc Hz) as (z' & Hz' & Ez%core_fields).
  exists z'. split; [done|]. by rewrite (proj1 (proj2 Ez)).
Qed.

Lemma req_core (X : gmap nat own_t) o x x' l : X !! o = Some x -> core x' = core x -> req_ok X l -> req_ok (<[o := x']> X) l.
Proof.
  intros Ho Hc Hr l1 l2 s d c E. destruct (Hr l1 l2 s d c E) as [(y & Hy & Hoy)|?]; [|by right]. left.
  destruct (lookup_core_back X o x x' c y Ho Hc Hy) as (y' & Hy' & Ey%core_fields). exists y'. split; [done|].
  by rewrite (proj1 (proj2 Ey)).
Qed.

Lemma busy_core (X : gmap nat own_t) o x x' B : X !! o = Some x -> core x' = core x -> busy_ok X B -> busy_ok (<[o := x']> X) B.
Proof.
  intros Ho Hc Hb t d c E. destruct (Hb t d c E) as (y & z & Hy & Ht & Hz & Hoz).
  destruct (lookup_core_back X o x x' d y Ho Hc Hy) as (y' & Hy' & Ey%core_fields).
  destruct (lookup_core_back X o x x' c z Ho Hc Hz) as (z' & Hz' & Ez%core_fields).
  exists y', z'. split; [done|]. split; [by rewrite (proj1 Ey)|]. split; [done|]. by rewrite (proj1 (proj2 Ez)).
Qed.

Lemma rank_core (X : gmap nat own_t) o x x' : X !! o = Some x -> core x' = core x -> ranked X -> ranked (<[o := x']> X).
Proof.
  intros Ho Hc [rank Hr]. exists rank. intros c y' p Hy' Hp.
  destruct (lookup_core X o x x' c y' Ho Hc Hy') as (y & Hy & Ey%core_fields). apply (Hr c y p Hy).
  by rewrite <- (proj1 (proj2 Ey)).
Qed.

(** Only the counters of [o] change, with the commands and events that they count. *)
Lemma good_core sk sk' K X l l' B reg res reg' res' o x x' :
  good sk K X l B reg res -> X !! o = Some x -> core x' = core x ->
  (sk = sk' \/ sk = None) ->
  dest_ok X l' -> req_ok X l' ->
  (forall c, cnt is_term c l' = cnt is_term c l) -> (forall c, nown c l' = nown c l) ->
  (forall o', o' <> o -> cnt is_seq o' l' = cnt is_seq o' l /\ cnt is_ack o' l' = cnt is_ack o' l /\
                         reg' o' = reg o' /\ res' o' = res o') ->
  0 <= reg' o -> 0 <= res' o -> 0 <= processed_seqnum x' < 2 ^ 64 ->
  sent_seqnum x' = u32 (processed_seqnum x' + Z.of_nat (cnt is_seq o l') + res' o) ->
  term_acks x' = reg' o + Z.of_nat (base.size (K o) + cnt is_ack o l') ->
  (sk' = Some o \/ (terminating x = true -> cnt is_seq o l' = 0%nat -> res' o = 0 -> term_acks x' = 0 ->
                    2 ^ 32 <= processed_seqnum x')) ->
  good sk' K (<[o := x']> X) l' B reg' res'.
Proof.
  intros [Gd Gr Gb Gk Gs Ga Gn Gw Gp Go Ge Gl] Ho Hc Hsk Hd Hr Hterm Hown Hoth Hreg Hres Hpr Hsent Hacks Hlast.
  split.
  - by apply (dest_core X o x).
  - by apply (req_core X o x).
  - by apply (busy_core X o x).
  - by apply (rank_core X o x).
  - intros o' y. rewrite lookup_insert. case_decide as E; [subst; by intros [= <-]|].
    intros Hy. destruct (Hoth o' (not_eq_sym E)) as (-> & _ & _ & ->). by apply Gs.
  - intros o' y. rewrite lookup_insert. case_decide as E; [subst; by intros [= <-]|].
    intros Hy. destruct (Hoth o' (not_eq_sym E)) as (_ & -> & -> & _). by apply Ga.
  - intros o'. rewrite lookup_insert. case_decide as E; [by subst|].
    destruct (Hoth o' (not_eq_sym E)) as (_ & _ & -> & ->). apply Gn.
  - intros p c. rewrite Gw, Hterm. split; intros (y & Hy & Hp & Ht).
    + destruct (lookup_core_back X o x x' c y Ho Hc Hy) as (y' & Hy' & E%core_fields). exists y'.
      destruct E as (_ & -> & -> & _). done.
    + destruct (lookup_core X o x x' c y Ho Hc Hy) as (y' & Hy' & E%core_fields). exists y'.
      destruct E as (_ & <- & <- & _). done.
  - intros c y' p Hy' Hp. destruct (lookup_core X o x x' c y' Ho Hc Hy') as (y & Hy & E%core_fields).
    destruct E as (_ & Eo & Et & _). rewrite Eo in Hp. destruct (Gp c y p Hy Hp) as (z & Hz & Hph).
    destruct (lookup_core_back X o x x' p z Ho Hc Hz) as (z' & Hz' & F%core_fields). exists z'. split; [done|].
    unfold phase in *. destruct F as (-> & _ & _ & ->). by rewrite Hterm, Hown, Et.
  - intros p z' c Hz' Hin. destruct (lookup_core X o x x' p z' Ho Hc Hz') as (z & Hz & F%core_fields).
    destruct F as (_ & _ & _ & F). rewrite F in Hin. destruct (Go p z c Hz Hin) as (y & Hy & Hoy).
    destruct (lookup_core_back X o x x' c y Ho Hc Hy) as (y' & Hy' & E%core_fields). exists y'. split; [done|].
    by rewrite (proj1 (proj2 E)).
  - intros p z' Hz' Ht Hs. destruct (lookup_core X o x x' p z' Ho Hc Hz') as (z & Hz & F%core_fields).
    destruct F as (_ & _ & Ft & ->). apply (Ge p z Hz); [by rewrite <- Ft|]. destruct Hsk as [->| ->]; done.
  - intros p z'. rewrite lookup_insert. case_decide as E.
    + subst p. intros [= <-] Ht Hs. destruct Hlast as [->|Hl]; [done|]. apply Hl.
      apply core_fields in Hc as (_ & _ & <- & _). done.
    + intros Hz Ht Hs. destruct (Hoth p (not_eq_sym E)) as (-> & _ & _ & ->). apply (Gl p z' Hz Ht).
      destruct Hsk as [->| ->]; done.
Qed.

(** ** Transitions

    In a transition that processes a command, the command is the first of the list. *)
Lemma u32_u64 a b : u32 (u64 a + b) = u32 (a + b).
Proof.
  unfold u32, u64. rewrite <- Zplus_mod_idemp_l. rewrite <- (Zplus_mod_idemp_l a b). f_equal. f_equal.
  apply Z.mod_mod_divide. by exists (2 ^ 32).
Qed.

(** A command that was counted is processed. *)
Lemma good_seq K X l B reg res s o c x :
  good None K X ((s, (o, c)) :: l) B reg res -> X !! o = Some x -> is_seq c = true -> (forall k, c <> own k) ->
  good (Some o) K (<[o := set_processed (u64 (processed_seqnum x + 1)) x]> X) l B reg res.
Proof.
  intros Hg Ho Hs Hn. pose proof (g_seq _ _ _ _ _ _ _ Hg o x Ho) as [Hp Hsent].
  pose proof (g_acks _ _ _ _ _ _ _ Hg o x Ho) as Ha. pose proof (g_nonneg _ _ _ _ _ _ _ Hg o) as (Hr1 & Hr2 & _).
  assert (Hc : is_term c = false /\ is_ack c = false) by (by destruct c). destruct Hc as [Hct Hca].
  apply (good_core None _ K X ((s, (o, c)) :: l) l B reg res reg res o x); try done; [by right|..|by left].
  - exact (dest_tail _ _ _ (g_dest _ _ _ _ _ _ _ Hg)).
  - exact (req_tail _ _ _ (g_req _ _ _ _ _ _ _ Hg)).
  - intros d. simpl. rewrite Hct, andb_false_r. done.
  - intros d. simpl. destruct c; try done. by destruct (Hn object).
  - intros o' Hne. simpl. rewrite bool_decide_eq_false_2 by done. done.
  - cbn [processed_seqnum set_processed]. unfold u64. apply Z.mod_pos_bound. lia.
  - cbn [processed_seqnum sent_seqnum set_processed]. simpl in Hsent.
    rewrite bool_decide_eq_true_2, Hs in Hsent by done. simpl in Hsent. rewrite Hsent, <- (Z.add_assoc (u64 _)), u32_u64.
    f_equal. lia.
  - cbn [term_acks set_processed]. simpl in Ha. rewrite Hca, andb_false_r in Ha. exact Ha.
Qed.

(** A request to terminate that has no effect. *)
Lemma good_drop K X l B reg res s o c x :
  good None K X ((s, (o, term_req c)) :: l) B reg res -> X !! o = Some x -> good None K X l B reg res.
Proof.
  intros Hg Ho. pose proof (g_seq _ _ _ _ _ _ _ Hg o x Ho) as [Hp Hsent].
  pose proof (g_acks _ _ _ _ _ _ _ Hg o x Ho) as Ha. pose proof (g_nonneg _ _ _ _ _ _ _ Hg o) as (Hr1 & Hr2 & _).
  simpl in Ha, Hsent. rewrite andb_false_r in Ha, Hsent. rewrite <- (insert_id X o x Ho).
  apply (good_core None _ K X ((s, (o, term_req c)) :: l) l B reg res reg res o x); try done; [by left|..].
  - exact (dest_tail _ _ _ (g_dest _ _ _ _ _ _ _ Hg)).
  - exact (req_tail _ _ _ (g_req _ _ _ _ _ _ _ Hg)).
  - intros d. simpl. by rewrite andb_false_r.
  - intros o' Hne. simpl. rewrite !andb_false_r. done.
  - right. intros Ht Hc Hz. apply (g_last _ _ _ _ _ _ _ Hg o x Ho Ht); [done| |done].
    simpl. by rewrite andb_false_r.
Qed.

(** An acknowledgement. *)
Lemma good_ack K X l B reg res s o x :
  good None K X ((s, (o, term_ack)) :: l) B reg res -> X !! o = Some x ->
  good (Some o) K (<[o := set_acks (term_acks x - 1) x]> X) l B reg res /\ 0 < term_acks x.
Proof.
  intros Hg Ho. pose proof (g_seq _ _ _ _ _ _ _ Hg o x Ho) as [Hp Hsent].
  pose proof (g_acks _ _ _ _ _ _ _ Hg o x Ho) as Ha. pose proof (g_nonneg _ _ _ _ _ _ _ Hg o) as (Hr1 & Hr2 & _).
  simpl in Ha, Hsent. rewrite bool_decide_eq_true_2 in Ha by done. rewrite andb_false_r in Hsent. simpl in Ha, Hsent.
  split; [|lia].
  apply (good_core None _ K X ((s, (o, term_ack)) :: l) l B reg res reg res o x); try done; [by right|..|by left].
  - exact (dest_tail _ _ _ (g_dest _ _ _ _ _ _ _ Hg)).
  - exact (req_tail _ _ _ (g_req _ _ _ _ _ _ _ Hg)).
  - intros d. simpl. by rewrite andb_false_r.
  - intros o' Hne. simpl. rewrite bool_decide_eq_false_2 by done. done.
  - cbn [term_acks set_acks]. lia.
Qed.

(** Events that an object waits for, and those that took place. *)
Lemma good_register sk sk' K X l B reg res o n x :
  good sk K X l B reg res -> X !! o = Some x -> 0 <= reg o + n -> (sk = sk' \/ sk = None) -> 
  (sk' = Some o \/ 0 < reg o + n \/ n = 0) ->
  good sk' K (<[o := set_acks (term_acks x + n) x]> X) l B (bump o n reg) res.
Proof.
  intros Hg Ho Hn Hsk Hs. pose proof (g_seq _ _ _ _ _ _ _ Hg o x Ho) as [Hp Hsent].
  pose proof (g_acks _ _ _ _ _ _ _ Hg o x Ho) as Ha. pose proof (g_nonneg _ _ _ _ _ _ _ Hg o) as (Hr1 & Hr2 & _).
  assert (Hb : bump o n reg o = reg o + n) by (unfold bump; by rewrite decide_True).
  apply (good_core sk _ K X l l B reg res (bump o n reg) res o x); try done.
  - apply Hg.
  - apply Hg.
  - intros o' Hne. unfold bump. by rewrite decide_False.
  - by rewrite Hb.
  - rewrite Hb. cbn [term_acks set_acks]. lia.
  - destruct Hs as [Hs|[Hs| ->]]; [by left|right; intros _ _ _; cbn [term_acks set_acks]; lia|].
    destruct (decide (sk' = Some o)) as [?|Hne]; [by left|right]. intros Ht Hc Hr0. cbn [term_acks set_acks processed_seqnum].
    intros Ha0. apply (g_last _ _ _ _ _ _ _ Hg o x Ho Ht); [by destruct Hsk as [->| ->]|done|done|lia].
Qed.

(** A command is announced. *)
Lemma good_announce K X l B reg res o x :
  good None K X l B reg res -> X !! o = Some x ->
  good None K (<[o := set_sent (u32 (sent_seqnum x + 1)) x]> X) l B reg (bump o 1 res).
Proof.
  intros Hg Ho. pose proof (g_seq _ _ _ _ _ _ _ Hg o x Ho) as [Hp Hsent].
  pose proof (g_acks _ _ _ _ _ _ _ Hg o x Ho) as Ha. pose proof (g_nonneg _ _ _ _ _ _ _ Hg o) as (Hr1 & Hr2 & _).
  assert (Hb : bump o 1 res o = res o + 1) by (unfold bump; by rewrite decide_True).
  apply (good_core None _ K X l l B reg res reg (bump o 1 res) o x); try done.
  - by left.
  - apply Hg.
  - apply Hg.
  - intros o' Hne. unfold bump. by rewrite decide_False.
  - lia.
  - cbn [sent_seqnum processed_seqnum set_sent]. rewrite Hsent, Hb. unfold u32. rewrite Zplus_mod_idemp_l. f_equal. lia.
  - right. intros _ _ Hz. lia.
Qed.

(** A command that counts is sent, which was announced now or before. *)
Lemma good_send K X l B reg res res' o x x' c :
  good None K X l B reg res -> X !! o = Some x -> is_seq c = true -> (forall k, c <> own k) ->
  core x' = core x -> processed_seqnum x' = processed_seqnum x -> term_acks x' = term_acks x -> 0 <= res' o ->
  (forall d, d <> o -> res' d = res d) ->
  sent_seqnum x' = u32 (processed_seqnum x + Z.of_nat (S (cnt is_seq o l)) + res' o) ->
  good None K (<[o := x']> X) (l ++ [(tid x, (o, c))]) B reg res'.
Proof.
  intros Hg Ho Hs Hn Hcore Hpx Hax Hr' Hoth Hsx. pose proof (g_seq _ _ _ _ _ _ _ Hg o x Ho) as [Hp Hsent].
  pose proof (g_acks _ _ _ _ _ _ _ Hg o x Ho) as Ha. pose proof (g_nonneg _ _ _ _ _ _ _ Hg o) as (Hr1 & Hr2 & _).
  assert (Hc : is_term c = false /\ is_ack c = false) by (by destruct c). destruct Hc as [Hct Hca].
  assert (Hcnt : cnt is_seq o (l ++ [(tid x, (o, c))]) = S (cnt is_seq o l)).
  { rewrite cnt_app. simpl. rewrite bool_decide_eq_true_2, Hs by done. simpl. lia. }
  apply (good_core None _ K X l _ B reg res reg res' o x); try done; [by left|..].
  - apply (dest_snoc X l (tid x) o c x); try done; [apply Hg|]. destruct c; try done. by destruct (Hn object).
  - apply req_snoc; [apply Hg|]. by destruct c.
  - intros d. rewrite cnt_app. simpl. rewrite Hct, andb_false_r. simpl. lia.
  - intros d. rewrite nown_app. simpl. destruct c; try done; try lia. by destruct (Hn object).
  - intros o' Hne. rewrite !cnt_app. simpl. rewrite bool_decide_eq_false_2 by done. simpl. rewrite Hoth by done. split_and!; lia.
  - by rewrite Hpx.
  - by rewrite Hpx, Hcnt.
  - rewrite Hax, Ha, cnt_app. simpl. rewrite Hca, andb_false_r. simpl. lia.
  - right. intros _ Hz. rewrite Hcnt in Hz. done.
Qed.

(** A child asks its owner for its termination. *)
Lemma good_request K X l B reg res o p x y :
  good None K X l B reg res -> X !! o = Some x -> owner x = Some p -> X !! p = Some y ->
  good None K X (l ++ [(tid y, (p, term_req o))]) B reg res.
Proof.
  intros Hg Ho Hp Hy. pose proof (g_seq _ _ _ _ _ _ _ Hg p y Hy) as [Hpr Hsent].
  pose proof (g_acks _ _ _ _ _ _ _ Hg p y Hy) as Ha. pose proof (g_nonneg _ _ _ _ _ _ _ Hg p) as (Hr1 & Hr2 & _).
  rewrite <- (insert_id X p y Hy).
  assert (Hcnt : forall P d, P (term_req o) = false -> cnt P d (l ++ [(tid y, (p, term_req o))]) = cnt P d l).
  { intros P d HP. rewrite cnt_app. simpl. rewrite HP, andb_false_r. simpl. lia. }
  apply (good_core None _ K X l _ B reg res reg res p y); try done; [by left|..].
  - apply (dest_snoc X l (tid y) p _ y); try done. apply Hg.
  - apply req_snoc; [apply Hg|]. simpl. by exists x.
  - intros d. by apply Hcnt.
  - intros d. rewrite nown_app. simpl. lia.
  - intros o' Hne. by rewrite !Hcnt.
  - by rewrite Hcnt.
  - by rewrite Hcnt.
  - right. rewrite Hcnt by done. intros Ht. by apply (g_last _ _ _ _ _ _ _ Hg p y Hy Ht).
Qed.

(** *** Transitions that change the tree *)

(** Same thread, same owner. *)
Definition kin (x : own_t) : nat * option nat := (tid x, owner x).

Definition same_kin (X X' : gmap nat own_t) : Prop := forall k, kin <$> X !! k = kin <$> X' !! k.

Lemma same_kin_insert (X : gmap nat own_t) o x x' : X !! o = Some x -> kin x' = kin x -> same_kin X (<[o := x']> X).
Proof. intros Ho Hk k. rewrite lookup_insert. case_decide as E; [|done]. subst. rewrite Ho. simpl. by rewrite Hk. Qed.

Lemma kin_lookup X X' k x : same_kin X X' -> X !! k = Some x -> exists x', X' !! k = Some x' /\ tid x' = tid x /\ owner x' = owner x.
Proof.
  intros Hs Hx. specialize (Hs k). rewrite Hx in Hs. destruct (X' !! k) as [x'|]; [|done].
  injection Hs as E1 E2. by exists x'.
Qed.

Lemma kin_sym X X' : same_kin X X' -> same_kin X' X.
Proof. intros Hs k. by rewrite Hs. Qed.

Lemma dest_kin X X' l : same_kin X X' -> dest_ok X l -> dest_ok X' l.
Proof.
  intros Hs Hd s d c Hin. destruct (Hd s d c Hin) as (x & Hx & Ht & Ha).
  destruct (kin_lookup _ _ _ _ Hs Hx) as (x' & Hx' & Et & Eo). exists x'. split; [done|]. split; [by rewrite Et|].
  destruct c; try done; simpl in *; [|by rewrite Eo]. destruct Ha as (y & Hy & Hoy).
  destruct (kin_lookup _ _ _ _ Hs Hy) as (y' & Hy' & _ & Ey). exists y'. by rewrite Ey.
Qed.

Lemma req_kin X X' l : same_kin X X' -> req_ok X l -> req_ok X' l.
Proof.
  intros Hs Hr l1 l2 s o c E. destruct (Hr l1 l2 s o c E) as [(y & Hy & Hoy)|?]; [|by right]. left.
  destruct (kin_lookup _ _ _ _ Hs Hy) as (y' & Hy' & _ & Ey). exists y'. by rewrite Ey.
Qed.

Lemma busy_kin X X' B : same_kin X X' -> busy_ok X B -> busy_ok X' B.
Proof.
  intros Hs Hb t o c E. destruct (Hb t o c E) as (x & y & Hx & Ht & Hy & Hoy).
  destruct (kin_lookup _ _ _ _ Hs Hx) as (x' & Hx' & Et & _). destruct (kin_lookup _ _ _ _ Hs Hy) as (y' & Hy' & _ & Ey).
  exists x', y'. by rewrite Et, Ey.
Qed.

Lemma rank_kin X X' : same_kin X X' -> ranked X -> ranked X'.
Proof.
  intros Hs [rank Hr]. exists rank. intros c y o Hy Ho.
  destruct (kin_lookup _ _ _ _ (kin_sym _ _ Hs) Hy) as (y' & Hy' & _ & Ey). apply (Hr c y' o Hy'). by rewrite Ey.
Qed.

Lemma b2n_eq (b b' : bool) : b = b' -> b2n b = b2n b'.
Proof. by intros ->. Qed.

(** What the phase of a child excludes. *)
Lemma phase_one B l o x c y : phase B l o x c y = 1%nat ->
  ((0 < nown c l)%nat -> B !! tid x <> Some (o, c) /\ (c ∉ owned x) /\ cnt is_term c l = 0%nat /\ terminating y = false) /\
  (c ∈ owned x -> B !! tid x <> Some (o, c) /\ nown c l = 0%nat /\ cnt is_term c l = 0%nat /\ terminating y = false) /\
  ((0 < cnt is_term c l)%nat -> B !! tid x <> Some (o, c) /\ nown c l = 0%nat /\ (c ∉ owned x) /\ terminating y = false /\ cnt is_term c l = 1%nat) /\
  (terminating y = true -> B !! tid x <> Some (o, c) /\ nown c l = 0%nat /\ (c ∉ owned x) /\ cnt is_term c l = 0%nat).
Proof.
  unfold phase. intros E. assert (Hb : B !! tid x = Some (o, c) -> b2n (bool_decide (B !! tid x = Some (o, c))) = 1%nat)
    by (intros ?; by rewrite bool_decide_eq_true_2).
  assert (Hw : c ∈ owned x -> b2n (bool_decide (c ∈ owned x)) = 1%nat) by (intros ?; by rewrite bool_decide_eq_true_2).
  split_and!; intros Hc; split_and!; try (intros Hc'; specialize (Hb Hc') || specialize (Hw Hc')); try specialize (Hw Hc);
    try (destruct (terminating y); [|done]); rewrite ?Hc in E; simpl in *; try lia; try done.
Qed.

(** The owner stores a child that was handed over. *)
Lemma good_own K X l B reg res s o c x :
  good None K X ((s, (o, own c)) :: l) B reg res -> X !! o = Some x ->
  good (Some o) K (<[o := set_processed (u64 (processed_seqnum x + 1)) (set_owned ({[c]} ∪ owned x) x)]> X) l B reg res.
Proof.
  intros [Gd Gr Gb Gk Gs Ga Gn Gw Gp Go Ge Gl] Ho. set (x' := set_processed _ _).
  assert (Hk : same_kin X (<[o := x']> X)) by (by apply (same_kin_insert X o x)).
  destruct (Gd s o (own c)) as (x0 & Hx0 & _ & (yc & Hyc & Hoc)); [by constructor|].
  assert (Hlook : forall k z', <[o := x']> X !! k = Some z' -> exists z, X !! k = Some z /\ owner z' = owner z /\
    tid z' = tid z /\ terminating z' = terminating z).
  { intros k z'. rewrite lookup_insert. case_decide; [subst; intros [= <-]; by exists x|intros; by exists z']. }
  split.
  - apply (dest_kin X); [done|]. by eapply dest_tail.
  - apply (req_kin X); [done|]. by eapply req_tail.
  - by apply (busy_kin X).
  - by apply (rank_kin X).
  - intros p z. rewrite lookup_insert. case_decide as E.
    + subst p. intros [= <-]. destruct (Gs o x Ho) as [Hp Hsent]. split.
      * cbn [processed_seqnum set_processed x']. unfold u64. apply Z.mod_pos_bound. lia.
      * cbn [processed_seqnum sent_seqnum set_processed set_owned x']. simpl in Hsent.
        rewrite bool_decide_eq_true_2 in Hsent by done. simpl in Hsent. rewrite Hsent, <- (Z.add_assoc (u64 _)), u32_u64.
        f_equal. lia.
    + intros Hz. destruct (Gs p z Hz) as [Hp Hsent]. simpl in Hsent. by rewrite bool_decide_eq_false_2 in Hsent.
  - intros p z. rewrite lookup_insert. case_decide as E.
    + subst p. intros [= <-]. specialize (Ga o x Ho). simpl in Ga. by rewrite andb_false_r in Ga.
    + intros Hz. specialize (Ga p z Hz). simpl in Ga. by rewrite andb_false_r in Ga.
  - intros p. rewrite lookup_insert. case_decide; [|apply Gn]. destruct (Gn p) as (? & ? & _). done.
  - intros p k. rewrite Gw. simpl. rewrite andb_false_r. simpl. split; intros (y & Hy & Hp & Ht).
    + destruct (decide (k = o)) as [->|Hne].
      * exists x'. rewrite lookup_insert_eq. split; [done|]. rewrite Ho in Hy. injection Hy as <-. done.
      * exists y. by rewrite lookup_insert_ne.
    + destruct (Hlook _ _ Hy) as (z & Hz & E1 & _ & E2). exists z. by rewrite <- E1, <- E2.
  - intros k y' p Hy' Hp. destruct (Hlook _ _ Hy') as (y & Hy & E1 & _ & E2). rewrite E1 in Hp.
    destruct (Gp k y p Hy Hp) as (z & Hz & Hph). destruct (decide (p = o)) as [->|Hne].
    + rewrite Ho in Hz. injection Hz as <-. exists x'. rewrite lookup_insert_eq. split; [done|].
      unfold phase in *. simpl in Hph. rewrite andb_false_r in Hph. rewrite E2.
      cbn [tid owned set_processed set_owned x']. destruct (decide (c = k)) as [->|Hck].
      * rewrite (bool_decide_eq_true_2 (k = k)) in Hph by done. simpl in Hph.
        rewrite (bool_decide_eq_true_2 (k ∈ _)) by set_solver. simpl. lia.
      * rewrite (bool_decide_eq_false_2 (c = k)) in Hph by done. simpl in Hph.
        rewrite (b2n_eq (bool_decide (k ∈ {[c]} ∪ owned x)) (bool_decide (k ∈ owned x))); [lia|]. apply bool_decide_ext. set_solver.
    + exists z. rewrite lookup_insert_ne by done. split; [done|]. unfold phase in *. simpl in Hph.
      rewrite andb_false_r in Hph. rewrite E2.
      assert (c <> k) by (intros ->; rewrite Hy in Hyc; injection Hyc as <-; congruence).
      rewrite (bool_decide_eq_false_2 (c = k)) in Hph by done. exact Hph.
  - intros p z k. rewrite lookup_insert. case_decide as E.
    + subst p. intros [= <-]. cbn [owned set_processed set_owned x']. intros Hin.
      assert (Hy : exists y, X !! k = Some y /\ owner y = Some o).
      { apply elem_of_union in Hin as [->%elem_of_singleton|Hin]; [by exists yc|by apply (Go o x)]. }
      destruct Hy as (y & Hy & Hoy). destruct (kin_lookup _ _ _ _ Hk Hy) as (y' & Hy' & _ & E). exists y'. by rewrite E.
    + intros Hz Hin. destruct (Go p z k Hz Hin) as (y & Hy & Hoy).
      destruct (kin_lookup _ _ _ _ Hk Hy) as (y' & Hy' & _ & E'). exists y'. by rewrite E'.
  - intros p z. rewrite lookup_insert. case_decide as E; [subst p; by intros _ _ ?|]. intros Hz Ht _. by apply (Ge p z Hz Ht).
  - intros p z. rewrite lookup_insert. case_decide as E; [subst p; by intros _ _ ?|]. intros Hz Ht _ Hc.
    apply (Gl p z Hz Ht); [done|]. simpl. by rewrite bool_decide_eq_false_2.
Qed.

Lemma own_lookup (X : gmap nat own_t) o x x' k z' :
  X !! o = Some x -> kin x' = kin x -> terminating x' = terminating x -> <[o := x']> X !! k = Some z' ->
  exists z, X !! k = Some z /\ owner z' = owner z /\ tid z' = tid z /\ terminating z' = terminating z.
Proof.
  unfold kin. intros Ho [= E1 E2] Et. rewrite lookup_insert. case_decide; [subst; intros [= <-]; by exists x|intros; by exists z'].
Qed.

Lemma own_lookup_back (X : gmap nat own_t) o x x' k z :
  X !! o = Some x -> kin x' = kin x -> terminating x' = terminating x -> X !! k = Some z ->
  exists z', <[o := x']> X !! k = Some z' /\ owner z' = owner z /\ tid z' = tid z /\ terminating z' = terminating z.
Proof.
  unfold kin. intros Ho [= E1 E2] Et Hz. rewrite lookup_insert. case_decide; [|by exists z].
  subst. exists x'. split; [done|]. replace z with x by congruence. done.
Qed.

Lemma not_own_child X o x : ranked X -> X !! o = Some x -> owner x <> Some o.
Proof. intros [rank Hr] Ho E. specialize (Hr o x o Ho E). lia. Qed.

(** The children asked, with one more. *)
Definition ask (o c : nat) (K : nat -> gset nat) (p : nat) : gset nat :=
  if decide (p = o) then {[c]} ∪ K o else K p.

(** A child is asked to terminate. *)
Lemma good_ask sk K X l B reg res o c x y ln :
  good sk K X l B reg res -> X !! o = Some x -> c ∈ owned x -> X !! c = Some y ->
  good sk (ask o c K) (<[o := set_acks (term_acks x + 1) (set_owned (owned x ∖ {[c]}) x)]> X)
       (l ++ [(tid y, (c, term ln))]) B reg res.
Proof.
  intros [Gd Gr Gb Gk Gs Ga Gn Gw Gp Go Ge Gl] Ho Hc Hy. set (x' := set_acks _ _).
  assert (Hk : same_kin X (<[o := x']> X)) by (by apply (same_kin_insert X o x)).
  destruct (Go o x c Ho Hc) as (y0 & Hy0 & Hoy). rewrite Hy in Hy0. injection Hy0 as <-.
  assert (Hco : c <> o) by (intros ->; by apply (not_own_child X o y Gk Hy)).
  destruct (Gp c y o Hy Hoy) as (x0 & Hx0 & Hph). rewrite Ho in Hx0. injection Hx0 as <-.
  destruct (proj1 (proj2 (phase_one _ _ _ _ _ _ Hph)) Hc) as (Hnb & Hno & Hnt & Hty).
  assert (Hterm : forall d, cnt is_term d (l ++ [(tid y, (c, term ln))]) = (cnt is_term d l + b2n (bool_decide (c = d)))%nat).
  { intros d. rewrite cnt_app. simpl. rewrite andb_true_r. lia. }
  assert (Hsame : forall P d, P (term ln) = false -> cnt P d (l ++ [(tid y, (c, term ln))]) = cnt P d l).
  { intros P d HP. rewrite cnt_app. simpl. rewrite HP, andb_false_r. simpl. lia. }
  assert (Hown : forall d, nown d (l ++ [(tid y, (c, term ln))]) = nown d l) by (intros d; rewrite nown_app; simpl; lia).
  assert (HcK : c ∉ K o).
  { rewrite Gw. intros (y1 & Hy1 & _ & [Ht|Ht]); [|lia]. rewrite Hy in Hy1. injection Hy1 as <-. congruence. }
  split.
  - apply (dest_kin X); [done|]. apply (dest_snoc X l (tid y) c _ y); try done. simpl. congruence.
  - apply (req_kin X); [done|]. by apply req_snoc.
  - by apply (busy_kin X).
  - by apply (rank_kin X).
  - intros p z. rewrite Hsame, lookup_insert by done. case_decide; [subst p; intros [= <-]; by apply (Gs o x)|]. by apply Gs.
  - intros p z. rewrite Hsame, lookup_insert by done. unfold ask. case_decide as E.
    + subst p. intros [= <-]. rewrite decide_True by done. rewrite size_union by set_solver. rewrite size_singleton.
      specialize (Ga o x Ho). cbn [term_acks set_acks x']. lia.
    + rewrite decide_False by done. apply Ga.
  - intros p. rewrite lookup_insert. case_decide; [|apply Gn]. destruct (Gn p) as (? & ? & _). done.
  - intros p k. unfold ask. split.
    + intros Hin. assert (HK : p = o /\ k = c \/ k ∈ K p) by (case_decide; [subst p|]; set_solver).
      destruct HK as [[-> ->]|HK].
      * exists y. rewrite lookup_insert_ne by done. split; [done|]. split; [done|]. right. rewrite Hterm, bool_decide_eq_true_2; simpl; [lia|done].
      * apply Gw in HK as (z & Hz & Hp & Ht). destruct (own_lookup_back X o x x' k z) as (z' & Hz' & E1 & _ & E2); [done..|].
        exists z'. rewrite E1, E2. split; [done|]. split; [done|]. destruct Ht as [|Ht]; [by left|right]. rewrite Hterm. lia.
    + intros (z' & Hz' & Hp & Ht). destruct (own_lookup X o x x' k z') as (z & Hz & E1 & _ & E2); [done..|].
      rewrite E1 in Hp. rewrite E2, Hterm in Ht. destruct (decide (k = c)) as [->|Hkc].
      * rewrite Hy in Hz. injection Hz as <-. rewrite Hoy in Hp. injection Hp as <-. rewrite decide_True by done. set_solver.
      * rewrite bool_decide_eq_false_2, Nat.add_0_r in Ht by done.
        assert (HK : k ∈ K p) by (apply Gw; by exists z). case_decide; [subst p|]; set_solver.
  - intros k z' p Hz' Hp. destruct (own_lookup X o x x' k z') as (z & Hz & E1 & _ & E2); [done..|]. rewrite E1 in Hp.
    destruct (Gp k z p Hz Hp) as (q & Hq & Hphk). destruct (decide (p = o)) as [->|Hne].
    + rewrite Ho in Hq. injection Hq as <-. exists x'. rewrite lookup_insert_eq. split; [done|].
      unfold phase in *. rewrite Hterm, Hown, E2. cbn [tid owned set_acks set_owned x']. destruct (decide (k = c)) as [->|Hkc].
      * rewrite (bool_decide_eq_true_2 (c ∈ owned x)) in Hphk by done.
        rewrite (bool_decide_eq_false_2 (c ∈ owned x ∖ {[c]})) by set_solver.
        rewrite (bool_decide_eq_true_2 (c = c)) by done. simpl in *. lia.
      * rewrite (bool_decide_eq_false_2 (c = k)) by done. simpl.
        rewrite (b2n_eq (bool_decide (k ∈ owned x ∖ {[c]})) (bool_decide (k ∈ owned x))); [lia|].
        apply bool_decide_ext. set_solver.
    + exists q. rewrite lookup_insert_ne by done. split; [done|]. unfold phase in *. rewrite Hterm, Hown, E2.
      assert (c <> k) by (intros ->; rewrite Hy in Hz; injection Hz as <-; congruence).
      rewrite (bool_decide_eq_false_2 (c = k)) by done. simpl. lia.
  - intros p z' k Hz' Hin. assert (Hin' : exists z, X !! p = Some z /\ k ∈ owned z).
    { revert Hz'. rewrite lookup_insert. case_decide; [subst p; intros [= <-]|intros Hz'; by exists z'].
      exists x. split; [done|]. cbn [owned set_acks set_owned x'] in Hin. set_solver. }
    destruct Hin' as (z & Hz & Hkz). destruct (Go p z k Hz Hkz) as (q & Hq & Hoq).
    destruct (kin_lookup _ _ _ _ Hk Hq) as (q' & Hq' & _ & E). exists q'. by rewrite E.
  - intros p z'. rewrite lookup_insert. case_decide; [subst p; intros [= <-] Ht Hs|apply Ge].
    exfalso. rewrite (Ge o x Ho Ht Hs) in Hc. set_solver.
  - intros p z'. rewrite Hsame, lookup_insert by done. case_decide; [subst p; intros [= <-] Ht Hs|apply Gl].
    exfalso. rewrite (Ge o x Ho Ht Hs) in Hc. set_solver.
Qed.

(** The termination of an object starts: by a command of its owner, or by itself when it has none. *)
Lemma good_start K X l0 l B reg res o x :
  good None K X l0 B reg res -> X !! o = Some x -> terminating x = false -> owned x = ∅ ->
  (owner x <> None /\ (exists s ln, l0 = (s, (o, term ln)) :: l) \/ owner x = None /\ l0 = l) ->
  good (Some o) K (<[o := set_terminating x]> X) l B reg res.
Proof.
  intros [Gd Gr Gb Gk Gs Ga Gn Gw Gp Go Ge Gl] Ho Hnt Hem Hl. set (x' := set_terminating x).
  assert (Hk : same_kin X (<[o := x']> X)) by (by apply (same_kin_insert X o x)).
  assert (Hsame : forall P d, (forall ln, P (term ln) = false) -> cnt P d l0 = cnt P d l).
  { intros P d HP. destruct Hl as [(_ & s & ln & ->)|(_ & ->)]; [|done]. simpl. by rewrite HP, andb_false_r. }
  assert (Hown : forall d, nown d l0 = nown d l) by (intros d; destruct Hl as [(_ & s & ln & ->)|(_ & ->)]; done).
  assert (Hterm : forall d, d <> o -> cnt is_term d l0 = cnt is_term d l).
  { intros d Hd. destruct Hl as [(_ & s & ln & ->)|(_ & ->)]; [|done]. simpl. by rewrite bool_decide_eq_false_2. }
  assert (Hto : owner x <> None -> cnt is_term o l0 = S (cnt is_term o l)).
  { intros Hx. destruct Hl as [(_ & s & ln & ->)|(? & _)]; [|done]. simpl. by rewrite bool_decide_eq_true_2. }
  assert (Hlook : forall k z', k <> o -> <[o := x']> X !! k = Some z' -> X !! k = Some z')
    by (intros k z' Hne; by rewrite lookup_insert_ne).
  assert (Heq : forall p z', <[o := x']> X !! p = Some z' -> exists z, X !! p = Some z /\ tid z' = tid z /\
    owner z' = owner z /\ owned z' = owned z /\ sent_seqnum z' = sent_seqnum z /\ processed_seqnum z' = processed_seqnum z /\
    term_acks z' = term_acks z /\ (p <> o -> z' = z)).
  { intros p z'. rewrite lookup_insert. case_decide; [subst p; intros [= <-]; by exists x|intros; by exists z']. }
  split.
  - apply (dest_kin X); [done|]. destruct Hl as [(_ & s & ln & ->)|(_ & ->)]; [by eapply dest_tail|done].
  - apply (req_kin X); [done|]. destruct Hl as [(_ & s & ln & ->)|(_ & ->)]; [by eapply req_tail|done].
  - by apply (busy_kin X).
  - by apply (rank_kin X).
  - intros p z' (z & Hz & _ & _ & _ & -> & -> & _)%Heq. rewrite <- Hsame by done. by apply Gs.
  - intros p z' (z & Hz & _ & _ & _ & _ & _ & -> & _)%Heq. rewrite <- Hsame by done. by apply Ga.
  - intros p. rewrite lookup_insert. case_decide; [|apply Gn]. destruct (Gn p) as (? & ? & _). done.
  - intros p k. rewrite Gw. destruct (decide (k = o)) as [->|Hne].
    + rewrite lookup_insert_eq, Ho. split; intros (y & [= <-] & Hp & _).
      * exists x'. split; [done|]. split; [done|by left].
      * exists x. split; [done|]. split; [done|]. right. rewrite Hto; [lia|].
        change (owner x') with (owner x) in Hp. by rewrite Hp.
    + rewrite lookup_insert_ne by done. by rewrite Hterm.
  - intros k z' p Hz' Hp. destruct (Heq k z' Hz') as (z & Hz & _ & Eo & _ & _ & _ & _ & Ez). rewrite Eo in Hp.
    destruct (Gp k z p Hz Hp) as (q & Hq & Hph).
    assert (Hq' : exists q', <[o := x']> X !! p = Some q' /\ tid q' = tid q /\ owned q' = owned q).
    { rewrite lookup_insert. case_decide; [subst p; exists x'; replace q with x by congruence; done|by exists q]. }
    destruct Hq' as (q' & Hq' & E1 & E2). exists q'. split; [done|]. unfold phase in *. rewrite E1, E2, <- Hown.
    destruct (decide (k = o)) as [->|Hne].
    + rewrite lookup_insert_eq in Hz'. injection Hz' as <-. replace z with x in * by congruence.
      rewrite Hto in Hph by (by rewrite Hp). rewrite Hnt in Hph. simpl in *. lia.
    + rewrite <- Hterm by done. by rewrite Ez.
  - intros p z' k (z & Hz & _ & _ & -> & _)%Heq Hin. destruct (Go p z k Hz Hin) as (q & Hq & Hoq).
    destruct (kin_lookup _ _ _ _ Hk Hq) as (q' & Hq' & _ & E). exists q'. by rewrite E.
  - intros p z' Hz' Ht Hs. destruct (decide (p = o)) as [->|Hne]; [done|]. by apply (Ge p z' (Hlook _ _ Hne Hz')).
  - intros p z' Hz' Ht Hs. rewrite <- Hsame by done. destruct (decide (p = o)) as [->|Hne]; [done|].
    by apply (Gl p z' (Hlook _ _ Hne Hz')).
Qed.

(** *** Deletion *)

(** What is known when [check_term_acks] finds that all is over. *)
Lemma over K X l B reg res o x :
  good (Some o) K X l B reg res -> X !! o = Some x -> terminating x = true -> term_acks x = 0 ->
  processed_seqnum x = sent_seqnum x -> Z.of_nat (length l) + res o < 2 ^ 32 ->
  cnt is_seq o l = 0%nat /\ res o = 0 /\ reg o = 0 /\ K o = ∅ /\ cnt is_ack o l = 0%nat /\ cnt is_term o l = 0%nat /\
  nown o l = 0%nat /\ (forall t p, B !! t <> Some (p, o)).
Proof.
  intros [Gd Gr Gb Gk Gs Ga Gn Gw Gp Go Ge Gl] Ho Ht Hac Hps Hz.
  destruct (Gs o x Ho) as [Hp Hsent]. specialize (Ga o x Ho). destruct (Gn o) as (Hr1 & Hr2 & _).
  pose proof (cnt_le is_seq o l) as Hle.
  assert (Hn : Z.of_nat (cnt is_seq o l) + res o = 0).
  { rewrite <- Hps in Hsent. unfold u32 in Hsent. rewrite <- Z.add_assoc in Hsent.
    set (n := Z.of_nat (cnt is_seq o l) + res o) in *. assert (Hb : 0 <= n < 2 ^ 32) by lia. clearbody n.
    assert (Hp2 : processed_seqnum x < 2 ^ 32) by (rewrite Hsent; apply Z.mod_pos_bound; lia).
    assert (processed_seqnum x + n < 2 ^ 32 \/ 2 ^ 32 <= processed_seqnum x + n) as [Hs|Hs] by lia.
    - rewrite Z.mod_small in Hsent by lia. lia.
    - replace (processed_seqnum x + n) with (processed_seqnum x + n - 2 ^ 32 + 1 * 2 ^ 32) in Hsent by lia.
      rewrite Z.mod_add, Z.mod_small in Hsent by lia. lia. }
  assert (HK : base.size (K o) = 0%nat) by lia. apply size_empty_inv in HK. apply leibniz_equiv in HK.
  assert (Hrest : cnt is_term o l = 0%nat /\ nown o l = 0%nat /\ (forall t p, B !! t <> Some (p, o))).
  { destruct (owner x) as [p|] eqn:Eo.
    - destruct (Gp o x p Ho Eo) as (y & Hy & Hph).
      destruct (proj2 (proj2 (proj2 (phase_one _ _ _ _ _ _ Hph))) Ht) as (Hb & Hno & _ & Hnt).
      split; [done|]. split; [done|]. intros t q E. destruct (Gb t q o E) as (z & w & Hz' & <- & Hw & Hq).
      rewrite Ho in Hw. injection Hw as <-. rewrite Eo in Hq. injection Hq as <-. rewrite Hy in Hz'. by injection Hz' as <-.
    - split; [|split].
      + destruct (cnt is_term o l) eqn:E; [done|]. destruct (cnt_pos is_term o l) as (s & c & Hin & Hc); [lia|].
        destruct (Gd s o c Hin) as (z & Hz' & _ & Ha). rewrite Ho in Hz'. injection Hz' as <-. by destruct c.
      + destruct (nown o l) eqn:E; [done|]. destruct (nown_pos o l) as (s & d & Hin); [lia|].
        destruct (Gd s d _ Hin) as (z & _ & _ & (w & Hw & Hd)). rewrite Ho in Hw. injection Hw as <-. congruence.
      + intros t q E. destruct (Gb t q o E) as (z & w & _ & _ & Hw & Hq). rewrite Ho in Hw. injection Hw as <-. congruence. }
  destruct Hrest as (? & ? & ?). split_and!; try done; lia.
Qed.

(** An object that is over has no children and no commands. *)
Lemma no_children sk K X l B reg res o x :
  good sk K X l B reg res -> X !! o = Some x -> owned x = ∅ -> B !! tid x = None -> cnt is_seq o l = 0%nat -> K o = ∅ ->
  forall c y, X !! c = Some y -> owner y <> Some o.
Proof.
  intros [Gd Gr Gb Gk Gs Ga Gn Gw Gp Go Ge Gl] Ho Hem Hb Hs HK c y Hy Hoy.
  destruct (Gp c y o Hy Hoy) as (x0 & Hx0 & Hph). rewrite Ho in Hx0. injection Hx0 as <-.
  assert (Hc : c ∉ K o) by (rewrite HK; set_solver). rewrite Gw in Hc.
  unfold phase in Hph. rewrite bool_decide_eq_false_2 in Hph by (by rewrite Hb).
  rewrite bool_decide_eq_false_2 in Hph by (rewrite Hem; set_solver). simpl in Hph.
  destruct (nown c l) eqn:En.
  - apply Hc. exists y. split; [done|]. split; [done|]. destruct (terminating y); [by left|right]. simpl in Hph. lia.
  - destruct (nown_pos c l) as (s & d & Hin); [lia|]. destruct (Gd s d _ Hin) as (z & _ & _ & (w & Hw & Hd)).
    rewrite Hy in Hw. injection Hw as <-. rewrite Hoy in Hd. injection Hd as <-.
    by pose proof (cnt_zero _ _ _ _ _ Hs Hin).
Qed.

Lemma no_commands X l o :
  req_ok X l -> (forall c y, X !! c = Some y -> owner y <> Some o) -> cnt is_seq o l = 0%nat -> cnt is_ack o l = 0%nat ->
  cnt is_term o l = 0%nat -> forall s c, (s, (o, c)) ∉ l.
Proof.
  intros Hr Hnc Hs Ha Ht s c Hin. destruct c; try (by pose proof (cnt_zero _ _ _ _ _ Hs Hin));
    try (by pose proof (cnt_zero _ _ _ _ _ Ha Hin)); try (by pose proof (cnt_zero _ _ _ _ _ Ht Hin)).
  pose proof Hin as [l1 [l2 E]]%list_elem_of_split. destruct (Hr l1 l2 s o object E) as [(y & Hy & Hoy)|[s' Hin']].
  - by apply (Hnc _ _ Hy).
  - assert (Hin2 : (s', (o, term_ack)) ∈ l) by (rewrite E; apply elem_of_app; right; by constructor).
    by pose proof (cnt_zero _ _ _ _ _ Ha Hin2).
Qed.

(** The commands after a deletion: the owner is told. *)
Definition told (X : gmap nat own_t) (x : own_t) (l : list entry) : list entry :=
  match owner x with
  | Some p => match X !! p with Some y => l ++ [(tid y, (p, term_ack))] | None => l end
  | None => l
  end.

Lemma good_destroy K X l B reg res o x :
  good (Some o) K X l B reg res -> X !! o = Some x -> terminating x = true -> term_acks x = 0 ->
  processed_seqnum x = sent_seqnum x -> Z.of_nat (length l) + res o < 2 ^ 32 -> owned x = ∅ -> B !! tid x = None ->
  good None (fun p => K p ∖ {[o]}) (delete o X) (told X x l) B reg res.
Proof.
  intros Hg Ho Ht Hac Hps Hz Hem Hb.
  destruct (over _ _ _ _ _ _ _ _ Hg Ho Ht Hac Hps Hz) as (H1 & H2 & H3 & H4 & H5 & H6 & H7 & H8).
  pose proof (no_children _ _ _ _ _ _ _ _ _ Hg Ho Hem Hb H1 H4) as Hnc.
  destruct Hg as [Gd Gr Gb Gk Gs Ga Gn Gw Gp Go Ge Gl].
  pose proof (no_commands X l o Gr Hnc H1 H5 H6) as Hcmd.
  assert (Hown : forall p, owner x = Some p -> exists y, X !! p = Some y /\ o <> p /\ o ∈ K p /\ (o ∉ owned y) /\
    told X x l = l ++ [(tid y, (p, term_ack))]).
  { intros p Hp. destruct (Gp o x p Ho Hp) as (y & Hy & Hph). exists y.
    destruct (proj2 (proj2 (proj2 (phase_one _ _ _ _ _ _ Hph))) Ht) as (_ & _ & Hno & _).
    split; [done|]. split; [intros <-; by apply (Hnc o x Ho)|]. split; [apply Gw; exists x; by split_and!; [..|left]|].
    split; [done|]. unfold told. by rewrite Hp, Hy. }
  assert (Hroot : owner x = None -> told X x l = l) by (unfold told; by intros ->).
  assert (Hcnt : forall P d, P term_ack = false -> cnt P d (told X x l) = cnt P d l).
  { intros P d HP. destruct (owner x) as [p|] eqn:E; [|by rewrite Hroot].
    destruct (Hown p eq_refl) as (y & _ & _ & _ & _ & ->). rewrite cnt_app. simpl. rewrite HP, andb_false_r. simpl. lia. }
  assert (Hn : forall d, nown d (told X x l) = nown d l).
  { intros d. destruct (owner x) as [p|] eqn:E; [|by rewrite Hroot].
    destruct (Hown p eq_refl) as (y & _ & _ & _ & _ & ->). rewrite nown_app. simpl. lia. }
  assert (Hlook : forall k z, delete o X !! k = Some z <-> k <> o /\ X !! k = Some z).
  { intros k z. rewrite lookup_delete_Some. intuition congruence. }
  split.
  - assert (Hd : dest_ok (delete o X) l).
    { intros s d c Hin. destruct (Gd s d c Hin) as (z & Hz' & Hs & Ha).
      assert (d <> o) by (intros ->; by apply (Hcmd s c)). exists z. split; [by apply Hlook|]. split; [done|].
      destruct c; try done. destruct Ha as (w & Hw & Hd). exists w. split; [|done]. apply Hlook. split; [|done].
      intros ->. by apply (nown_zero o l s d H7). }
    destruct (owner x) as [p|] eqn:E; [|by rewrite Hroot]. destruct (Hown p eq_refl) as (y & Hy & Hne & _ & _ & ->).
    apply (dest_snoc _ l (tid y) p term_ack y); try done. by apply Hlook.
  - destruct (owner x) as [p|] eqn:E.
    + destruct (Hown p eq_refl) as (y & Hy & Hne & _ & _ & ->). intros l1 l2 s d c El.
      destruct l2 as [|e l2 _] using rev_ind; [by apply app_inj_tail in El as [_ ?]|].
      rewrite app_comm_cons, app_assoc in El. apply app_inj_tail in El as [-> <-].
      destruct (Gr l1 l2 s d c eq_refl) as [(z & Hz' & Hd)|[s' Hin]].
      * destruct (decide (c = o)) as [->|Hco].
        -- right. exists (tid y). replace d with p by congruence. apply elem_of_app. right. by constructor.
        -- left. exists z. split; [by apply Hlook|done].
      * right. exists s'. apply elem_of_app. by left.
    + rewrite Hroot by done. intros l1 l2 s d c El. destruct (Gr l1 l2 s d c El) as [(z & Hz' & Hd)|?]; [|by right].
      left. exists z. split; [|done]. apply Hlook. split; [|done]. intros ->. congruence.
  - intros t a c Et. destruct (Gb t a c Et) as (z & w & Hz' & Htid & Hw & Hc). exists z, w.
    split; [apply Hlook; split; [|done]|split; [done|split; [apply Hlook; split; [|done]|done]]].
    + intros ->. rewrite Ho in Hz'. injection Hz' as <-. rewrite <- Htid in Et. congruence.
    + intros ->. by apply (H8 t a).
  - destruct Gk as [rank Hr]. exists rank. intros c y p [_ Hy]%Hlook. by apply Hr.
  - intros p z [Hne Hz']%Hlook. rewrite Hcnt by done. by apply Gs.
  - intros p z [Hne Hz']%Hlook. rewrite (Ga p z Hz'). destruct (decide (o ∈ K p)) as [Hin|Hin].
    + pose proof Hin as (w & Hw & Hp & _)%Gw. rewrite Ho in Hw. injection Hw as <-.
      destruct (Hown p Hp) as (y & Hy & _ & _ & _ & ->). rewrite cnt_app. simpl. rewrite bool_decide_eq_true_2 by done.
      rewrite size_difference by set_solver. rewrite size_singleton.
      assert (base.size (K p) <> 0%nat) by (intros E%size_empty_inv; set_solver). simpl. lia.
    + replace (K p ∖ {[o]}) with (K p) by set_solver.
      destruct (owner x) as [q|] eqn:E; [|by rewrite Hroot]. destruct (Hown q eq_refl) as (y & _ & _ & Hq & _ & ->).
      rewrite cnt_app. simpl. rewrite bool_decide_eq_false_2; [simpl; lia|]. by intros ->.
  - intros p. destruct (Gn p) as (? & ? & Hg'). split; [done|]. split; [done|].
    intros [<-|Hnone]%lookup_delete_None; [done|by apply Hg'].
  - intros p k. rewrite elem_of_difference, elem_of_singleton, Gw. rewrite Hcnt by done. split.
    + intros [(y & Hy & Hp & Hk) Hne]. exists y. split; [by apply Hlook|done].
    + intros (y & [Hne Hy]%Hlook & Hp & Hk). split; [by exists y|done].
  - intros k y p [Hne Hy]%Hlook Hp. destruct (Gp k y p Hy Hp) as (z & Hz' & Hph). exists z.
    split; [apply Hlook; split; [intros ->; by apply (Hnc k y Hy)|done]|]. unfold phase in *. by rewrite Hcnt, Hn.
  - intros p z k [Hne Hz']%Hlook Hin. destruct (Go p z k Hz' Hin) as (y & Hy & Hp). exists y. split; [|done].
    apply Hlook. split; [|done]. intros ->. rewrite Ho in Hy. injection Hy as <-.
    destruct (Hown p Hp) as (w & Hw & _ & _ & Hno & _). rewrite Hz' in Hw. by injection Hw as <-.
  - intros p z [Hne Hz']%Hlook Htz _. apply (Ge p z Hz' Htz). congruence.
  - intros p z [Hne Hz']%Hlook Htz _. rewrite Hcnt by done. apply (Gl p z Hz' Htz). congruence.
Qed.

(** *** Creation *)
Lemma cnt_none P o l : (forall s c, (s, (o, c)) ∉ l) -> cnt P o l = 0%nat.
Proof.
  intros Hn. destruct (cnt P o l) eqn:E; [done|]. destruct (cnt_pos P o l) as (s & c & Hin & _); [lia|]. by destruct (Hn s c).
Qed.

(** Nothing refers to an address that is not in use. *)
Lemma unused sk K X l B reg res c :
  good sk K X l B reg res -> X !! c = None ->
  (forall s d, (s, (c, d)) ∉ l) /\ nown c l = 0%nat /\ K c = ∅ /\ reg c = 0 /\ res c = 0 /\
  (forall k y, X !! k = Some y -> owner y <> Some c /\ c ∉ owned y) /\ (forall t o, B !! t <> Some (o, c) /\ B !! t <> Some (c, o)).
Proof.
  intros [Gd Gr Gb Gk Gs Ga Gn Gw Gp Go Ge Gl] Hc.
  assert (Hno : forall k y, X !! k = Some y -> owner y <> Some c).
  { intros k y Hy Hoy. destruct (Gp k y c Hy Hoy) as (x & Hx & _). congruence. }
  split; [|split; [|split; [|split; [|split; [|split]]]]].
  - intros s d Hin. destruct (Gd s c d Hin) as (x & Hx & _). congruence.
  - destruct (nown c l) eqn:E; [done|]. destruct (nown_pos c l) as (s & d & Hin); [lia|].
    destruct (Gd s d _ Hin) as (z & _ & _ & (w & Hw & _)). congruence.
  - apply set_eq. intros k. rewrite Gw. split; [|set_solver]. intros (y & Hy & Hoy & _). by destruct (Hno k y).
  - by apply Gn.
  - by apply Gn.
  - intros k y Hy. split; [by apply (Hno k)|]. intros Hin. destruct (Go k y c Hy Hin) as (w & Hw & _). congruence.
  - intros t o. split; intros E; destruct (Gb _ _ _ E) as (x & y & Hx & _ & Hy & _); congruence.
Qed.

(** An object without an owner, or a child with its command [plug]. *)
Lemma good_new K X l l' B B' reg res c t ln ow n :
  good None K X l B reg res -> X !! c = None ->
  (ow = None /\ l' = l /\ B' = B /\ n = 0 \/
   exists o x, ow = Some o /\ X !! o = Some x /\ B !! tid x = None /\ l' = l ++ [(t, (c, plug))] /\
     B' = <[tid x := (o, c)]> B /\ n = 1) ->
  good None K (<[c := OwnT t false n 0 ow ∅ 0 ln]> X) l' B' reg res.
Proof.
  intros Hg Hc Hcase. destruct (unused _ _ _ _ _ _ _ _ Hg Hc) as (Hcmd & Hnown & HK & Hreg & Hres & Hkin & Hbusy).
  destruct Hg as [Gd Gr Gb Gk Gs Ga Gn Gw Gp Go Ge Gl]. set (x0 := OwnT t false n 0 ow ∅ 0 ln).
  assert (Hback : forall k y, X !! k = Some y -> k <> c /\ <[c := x0]> X !! k = Some y).
  { intros k y Hy. assert (k <> c) by congruence. split; [done|]. by rewrite lookup_insert_ne. }
  assert (Hplug : forall P d, P plug = false \/ d <> c -> cnt P d l' = cnt P d l).
  { intros P d Hd. destruct Hcase as [(_ & -> & _)|(o & x & _ & _ & _ & -> & _)]; [done|]. rewrite cnt_app. simpl.
    destruct Hd as [->|Hd]; [rewrite andb_false_r|rewrite bool_decide_eq_false_2 by done]; simpl; lia. }
  assert (Hfirst : Z.of_nat (cnt is_seq c l') = n).
  { destruct Hcase as [(_ & -> & _ & ->)|(o & x & _ & _ & _ & -> & _ & ->)]; [by rewrite (cnt_none _ _ _ Hcmd)|].
    rewrite cnt_app, (cnt_none _ _ _ Hcmd). simpl. by rewrite bool_decide_eq_true_2. }
  assert (Hno : forall k, nown k l' = nown k l).
  { intros k. destruct Hcase as [(_ & -> & _)|(o & x & _ & _ & _ & -> & _)]; [done|]. rewrite nown_app. simpl. lia. }
  assert (HB : forall k q p, k <> c -> (B' !! q = Some (p, k) <-> B !! q = Some (p, k))).
  { intros k q p Hne. destruct Hcase as [(_ & _ & -> & _)|(o & x & _ & _ & Hb & _ & -> & _)]; [done|].
    rewrite lookup_insert_Some. split; [intros [[_ [= -> ->]]|[_ ?]]; done|]. intros E. right. split; [|done]. congruence. }
  split.
  - assert (Hd : dest_ok (<[c := x0]> X) l).
    { intros s d e Hin. destruct (Gd s d e Hin) as (z & Hz & Hs & Ha). destruct (Hback _ _ Hz) as [_ Hz']. exists z.
      split; [done|]. split; [done|]. destruct e; try done. destruct Ha as (w & Hw & Hd). exists w. split; [|done]. by apply Hback. }
    destruct Hcase as [(_ & -> & _)|(o & x & _ & _ & _ & -> & _)]; [done|].
    apply (dest_snoc _ l t c plug x0); [done|apply lookup_insert_eq|done|done].
  - assert (Hr : req_ok (<[c := x0]> X) l).
    { intros l1 l2 s d k E. destruct (Gr l1 l2 s d k E) as [(y & Hy & Hd)|?]; [|by right]. left. exists y. split; [|done]. by apply Hback. }
    destruct Hcase as [(_ & -> & _)|(o & x & _ & _ & _ & -> & _)]; [done|]. by apply req_snoc.
  - assert (Hb : busy_ok (<[c := x0]> X) B).
    { intros q a k E. destruct (Gb q a k E) as (z & w & Hz & Ht & Hw & Ha). exists z, w.
      split; [by apply Hback|]. split; [done|]. split; [by apply Hback|done]. }
    destruct Hcase as [(_ & _ & -> & _)|(o & x & Eow & Hx & _ & _ & -> & _)]; [done|].
    intros q a k [[<- [= <- <-]]|[_ E]]%lookup_insert_Some; [|by apply Hb]. exists x, x0.
    split; [by apply Hback|]. split; [done|]. split; [apply lookup_insert_eq|]. exact Eow.
  - destruct Gk as [rank Hr]. exists (fun k => if decide (k = c) then S (match ow with Some o => rank o | None => O end) else rank k).
    intros k y p. destruct (decide (k = c)) as [->|Hne].
    + rewrite lookup_insert_eq. intros [= <-] Hp. simpl in Hp. cbv beta.
      rewrite Hp, decide_False; [lia|]. intros ->. destruct Hcase as [(-> & _)|(o & x & -> & Hx & _)]; [done|]. congruence.
    + rewrite lookup_insert_ne by done. intros Hy Hp. cbv beta.
      rewrite decide_False; [by apply (Hr k y)|]. intros ->. by destruct (Hkin k y Hy) as [Hn _].
  - intros p z. rewrite lookup_insert. case_decide as E.
    + subst p. intros [= <-]. cbn [sent_seqnum processed_seqnum x0]. split; [lia|].
      rewrite Hfirst, Hres. by destruct Hcase as [(_ & _ & _ & ->)|(o & x & _ & _ & _ & _ & _ & ->)].
    + intros Hz. rewrite Hplug by (by right). by apply Gs.
  - intros p z. rewrite lookup_insert, Hplug by (by left). case_decide as E; [|apply Ga]. subst p. intros [= <-].
    cbn [term_acks x0]. by rewrite Hreg, HK, (cnt_none _ _ _ Hcmd), size_empty.
  - intros p. destruct (Gn p) as (? & ? & Hg). split; [done|]. split; [done|]. rewrite lookup_insert. case_decide; [done|exact Hg].
  - intros p k. rewrite Gw, Hplug by (by left). split; intros (y & Hy & Hp & Ht).
    + exists y. split; [by apply Hback|done].
    + rewrite lookup_insert in Hy. case_decide as E; [|by exists y]. subst k. injection Hy as <-.
      destruct Ht as [Ht|Ht]; [done|]. rewrite (cnt_none _ _ _ Hcmd) in Ht. lia.
  - intros k y p. rewrite lookup_insert. case_decide as E.
    + subst k. intros [= <-] Hp. simpl in Hp. destruct Hcase as [(-> & _)|(o & x & -> & Hx & _ & _ & -> & _)]; [done|].
      injection Hp as <-. exists x. split; [by apply Hback|]. unfold phase. rewrite Hno, Hnown, Hplug by (by left).
      rewrite (cnt_none _ _ _ Hcmd), lookup_insert_eq, (bool_decide_eq_true_2 (Some _ = _)) by done.
      rewrite bool_decide_eq_false_2; [done|]. by apply (Hkin o x Hx).
    + intros Hy Hp. destruct (Gp k y p Hy Hp) as (z & Hz & Hph). exists z. split; [by apply Hback|].
      unfold phase in *. rewrite Hno, Hplug by (by left).
      rewrite (b2n_eq (bool_decide (B' !! tid z = Some (p, k))) (bool_decide (B !! tid z = Some (p, k)))); [done|].
      apply bool_decide_ext. by apply HB.
  - intros p z k. rewrite lookup_insert. case_decide as E; [subst p; intros [= <-]; simpl; set_solver|].
    intros Hz Hin. destruct (Go p z k Hz Hin) as (y & Hy & Hp). exists y. split; [by apply Hback|done].
  - intros p z. rewrite lookup_insert. case_decide as E; [subst p; by intros [= <-]|]. apply Ge.
  - intros p z. rewrite lookup_insert. case_decide as E; [subst p; by intros [= <-]|]. rewrite Hplug by (by right). apply Gl.
Qed.

(** The second command of [launch_child]. *)
Lemma good_handed K X l B reg res o c x :
  good None K X l B reg res -> X !! o = Some x -> B !! tid x = Some (o, c) ->
  good None K (<[o := set_sent (u32 (sent_seqnum x + 1)) x]> X) (l ++ [(tid x, (o, own c))]) (delete (tid x) B) reg res.
Proof.
  intros Hg Ho HB. pose proof Hg as [Gd Gr Gb Gk Gs Ga Gn Gw Gp Go Ge Gl].
  destruct (Gb _ _ _ HB) as (x0 & y0 & Hx0 & _ & Hy0 & Hoy0). rewrite Ho in Hx0. injection Hx0 as <-.
  destruct (Gp c y0 o Hy0 Hoy0) as (x0 & Hx0 & Hph0). rewrite Ho in Hx0. injection Hx0 as <-.
  set (x' := set_sent _ x). assert (Hk : core x' = core x) by done.
  assert (Hsame : forall P d, P (own c) = false -> cnt P d (l ++ [(tid x, (o, own c))]) = cnt P d l).
  { intros P d HP. rewrite cnt_app. simpl. rewrite HP, andb_false_r. simpl. lia. }
  assert (Hseq : forall d, cnt is_seq d (l ++ [(tid x, (o, own c))]) = (cnt is_seq d l + b2n (bool_decide (o = d)))%nat).
  { intros d. rewrite cnt_app. simpl. rewrite andb_true_r. lia. }
  assert (Hno : forall k, nown k (l ++ [(tid x, (o, own c))]) = (nown k l + b2n (bool_decide (c = k)))%nat).
  { intros k. rewrite nown_app. simpl. lia. }
  split.
  - apply (dest_snoc _ l (tid x) o (own c) x'); [by apply (dest_core X o x)|apply lookup_insert_eq|done|].
    destruct (lookup_core_back X o x x' c y0 Ho Hk Hy0) as (y' & Hy' & E%core_fields). exists y'. by rewrite (proj1 (proj2 E)).
  - apply req_snoc; [by apply (req_core X o x)|done].
  - intros t a k [Hne E]%lookup_delete_Some. by apply (busy_core X o x x' B Ho Hk Gb).
  - by apply (rank_core X o x).
  - intros p z. rewrite Hseq, lookup_insert. case_decide as E.
    + subst p. intros [= <-]. destruct (Gs o x Ho) as [Hp Hsent]. split; [done|].
      cbn [sent_seqnum processed_seqnum set_sent x']. rewrite bool_decide_eq_true_2 by done. simpl.
      rewrite Hsent. unfold u32. rewrite Zplus_mod_idemp_l. f_equal. lia.
    + intros Hz. rewrite bool_decide_eq_false_2 by done. rewrite Nat.add_0_r. by apply Gs.
  - intros p z. rewrite Hsame, lookup_insert by done. case_decide as E; [subst p; intros [= <-]; by apply (Ga o x)|apply Ga].
  - intros p. rewrite lookup_insert. case_decide; [|apply Gn]. destruct (Gn p) as (? & ? & _). done.
  - intros p k. rewrite Gw, Hsame by done. split; intros (y & Hy & Hp & Ht).
    + destruct (lookup_core_back X o x x' k y Ho Hk Hy) as (y' & Hy' & (_ & E1 & E2 & _)%core_fields).
      exists y'. by rewrite E1, E2.
    + destruct (lookup_core X o x x' k y Ho Hk Hy) as (y' & Hy' & (_ & E1 & E2 & _)%core_fields).
      exists y'. by rewrite <- E1, <- E2.
  - intros k y p Hy Hp. destruct (lookup_core X o x x' k y Ho Hk Hy) as (y' & Hy' & (_ & E1 & E2 & _)%core_fields).
    rewrite E1 in Hp. destruct (Gp k y' p Hy' Hp) as (z & Hz & Hph).
    destruct (lookup_core_back X o x x' p z Ho Hk Hz) as (z' & Hz' & (F1 & _ & _ & F2)%core_fields). exists z'. split; [done|].
    unfold phase in *. rewrite Hsame, Hno, E2, F1, F2 by done. destruct (decide (k = c)) as [->|Hne].
    + replace p with o in * by congruence. rewrite Ho in Hz. injection Hz as <-.
      rewrite HB, (bool_decide_eq_true_2 (Some _ = _)) in Hph by done.
      rewrite lookup_delete_eq, (bool_decide_eq_false_2 (None = _)), (bool_decide_eq_true_2 (c = c)) by done.
      simpl in *. lia.
    + rewrite (bool_decide_eq_false_2 (c = k)) by done. simpl.
      rewrite (b2n_eq (bool_decide (delete (tid x) B !! tid z = Some (p, k))) (bool_decide (B !! tid z = Some (p, k)))); [lia|].
      apply bool_decide_ext. rewrite lookup_delete_Some. split; [by intros [_ ?]|]. intros E. split; [|done]. congruence.
  - intros p z k Hz Hin. destruct (lookup_core X o x x' p z Ho Hk Hz) as (z' & Hz' & (_ & _ & _ & F)%core_fields).
    rewrite F in Hin. destruct (Go p z' k Hz' Hin) as (y & Hy & Hoy).
    destruct (lookup_core_back X o x x' k y Ho Hk Hy) as (y' & Hy' & (_ & E & _)%core_fields). exists y'. by rewrite E.
  - intros p z. rewrite lookup_insert. case_decide; [subst p; intros [= <-]; by apply (Ge o x)|apply Ge].
  - intros p z. rewrite Hseq, lookup_insert. case_decide as E.
    + subst p. intros _ _ _. rewrite bool_decide_eq_true_2 by done. simpl. lia.
    + rewrite bool_decide_eq_false_2 by done. rewrite Nat.add_0_r. apply Gl.
Qed.

(** ** A measure

    Every object is asked to terminate at most once and deleted once. *)

Fixpoint asked (l : list entry) : list nat :=
  match l with
  | [] => []
  | (_, (d, term _)) :: l => d :: asked l
  | _ :: l => asked l
  end.

Definition dying (X : gmap nat own_t) : gmap nat own_t := filter (fun kx => terminating kx.2 = true) X.

Definition phi (X : gmap nat own_t) (l : list entry) : Z :=
  Z.of_nat (length l) + 2 * Z.of_nat (base.size X) - Z.of_nat (length (asked l)) - Z.of_nat (base.size (dying X)).

Lemma asked_app l l' : asked (l ++ l') = asked l ++ asked l'.
Proof. induction l as [|[s [d c]] l IH]; [done|]. simpl. rewrite IH. by destruct c. Qed.

Lemma elem_asked l d : d ∈ asked l <-> (0 < cnt is_term d l)%nat.
Proof.
  induction l as [|[s [k c]] l IH]; simpl; [split; [by intros ?%not_elem_of_nil|lia]|].
  destruct c; simpl; rewrite ?andb_false_r, ?andb_true_r; simpl; try exact IH.
  rewrite elem_of_cons, IH. destruct (bool_decide_reflect (k = d)) as [->|Hne]; simpl; [split; [lia|by left]|].
  split; [intros [->|?]; [done|lia]|intros ?; right; lia].
Qed.

Lemma asked_nodup l : (forall d, (cnt is_term d l <= 1)%nat) -> NoDup (asked l).
Proof.
  induction l as [|[s [d c]] l IH]; intros Hc; [constructor|].
  assert (IH' : NoDup (asked l)) by (apply IH; intros k; specialize (Hc k); simpl in Hc; lia).
  destruct c; try done. simpl. constructor; [|done]. rewrite elem_asked. specialize (Hc d). simpl in Hc.
  rewrite bool_decide_eq_true_2 in Hc by done. simpl in Hc. lia.
Qed.

Lemma asked_once sk K X l B reg res d : good sk K X l B reg res -> (cnt is_term d l <= 1)%nat /\
  ((0 < cnt is_term d l)%nat -> exists y, X !! d = Some y /\ terminating y = false).
Proof.
  intros [Gd Gr Gb Gk Gs Ga Gn Gw Gp Go Ge Gl]. destruct (cnt is_term d l) eqn:E; [split; lia|].
  destruct (cnt_pos is_term d l) as (s & c & Hin & Hc); [lia|]. destruct (Gd s d c Hin) as (y & Hy & _ & Ha).
  destruct c; try done. simpl in Ha. destruct (owner y) as [p|] eqn:Ep; [|done].
  destruct (Gp d y p Hy Ep) as (x & _ & Hph). destruct (phase_one _ _ _ _ _ _ Hph) as (_ & _ & Ht & _).
  destruct Ht as (_ & _ & _ & Hty & E1); [lia|]. split; [lia|]. intros _. by exists y.
Qed.

Lemma elem_dying X d : d ∈ dom (dying X) <-> exists y, X !! d = Some y /\ terminating y = true.
Proof. rewrite elem_of_dom. unfold dying, is_Some. setoid_rewrite map_lookup_filter_Some. done. Qed.

Lemma phi_nonneg sk K X l B reg res : good sk K X l B reg res ->
  Z.of_nat (length l) + Z.of_nat (base.size X) <= phi X l.
Proof.
  intros Hg. unfold phi. set (A := list_to_set (asked l) : gset nat).
  assert (Hn : NoDup (asked l)) by (apply asked_nodup; intros d; by apply (asked_once _ _ _ _ _ _ _ d Hg)).
  assert (Hd : A ## dom (dying X)).
  { intros d Ha Hdy. unfold A in Ha. rewrite elem_of_list_to_set, elem_asked in Ha. apply elem_dying in Hdy as (y & Hy & Ht).
    destruct (proj2 (asked_once _ _ _ _ _ _ _ d Hg) Ha) as (z & Hz & Htz). congruence. }
  assert (Hsub : A ∪ dom (dying X) ⊆ dom X).
  { intros d [Ha|Ha]%elem_of_union; apply elem_of_dom.
    - unfold A in Ha. rewrite elem_of_list_to_set, elem_asked in Ha.
      destruct (proj2 (asked_once _ _ _ _ _ _ _ d Hg) Ha) as (z & Hz & _). by exists z.
    - apply elem_dying in Ha as (y & Hy & _). by exists y. }
  apply subseteq_size in Hsub. rewrite size_union in Hsub by done. unfold A in Hsub.
  rewrite size_list_to_set, !size_dom in Hsub by done. lia.
Qed.

Lemma dying_insert X o x x' : X !! o = Some x ->
  Z.of_nat (base.size (dying (<[o := x']> X))) =
    Z.of_nat (base.size (dying X)) - Z.of_nat (b2n (terminating x)) + Z.of_nat (b2n (terminating x')).
Proof.
  intros Ho. unfold dying.
  assert (Hdel : Z.of_nat (base.size (filter (fun kx => terminating kx.2 = true) (delete o X))) =
     Z.of_nat (base.size (filter (fun kx => terminating kx.2 = true) X)) - Z.of_nat (b2n (terminating x))).
  { rewrite map_filter_delete, map_size_delete. destruct (terminating x) eqn:Et.
    - assert (E : filter (fun kx => terminating kx.2 = true) X !! o = Some x) by (by apply map_lookup_filter_Some).
      rewrite E. assert (base.size (filter (fun kx : nat * own_t => terminating kx.2 = true) X) <> 0%nat)
        by (apply map_size_ne_0_lookup; by exists o, x). simpl. lia.
    - assert (E : filter (fun kx => terminating kx.2 = true) X !! o = None).
      { apply map_lookup_filter_None. right. intros y Hy. simpl. congruence. }
      rewrite E. simpl. lia. }
  rewrite <- insert_delete_eq. destruct (terminating x') eqn:Et.
  - rewrite map_filter_insert_True by done. rewrite map_size_insert_None; [simpl; lia|].
    apply map_lookup_filter_None. left. apply lookup_delete_eq.
  - rewrite map_filter_insert_False by (simpl; congruence). rewrite delete_delete_eq. simpl. lia.
Qed.

Lemma dying_delete X o x : X !! o = Some x ->
  Z.of_nat (base.size (dying (delete o X))) = Z.of_nat (base.size (dying X)) - Z.of_nat (b2n (terminating x)).
Proof.
  intros Ho. pose proof (dying_insert X o x (own_new 0 0) Ho) as E.
  rewrite <- insert_delete_eq in E. unfold dying in E at 1.
  rewrite map_filter_insert_False in E by (by simpl). rewrite delete_delete_eq in E. simpl in E. unfold dying at 1. lia.
Qed.

Lemma phi_insert X o x x' l : X !! o = Some x ->
  phi (<[o := x']> X) l = phi X l + Z.of_nat (b2n (terminating x)) - Z.of_nat (b2n (terminating x')).
Proof. intros Ho. unfold phi. rewrite (dying_insert X o x) by done. rewrite map_size_insert_Some by (by exists x). lia. Qed.

Lemma phi_delete X o x l : X !! o = Some x -> phi (delete o X) l = phi X l - 2 + Z.of_nat (b2n (terminating x)).
Proof.
  intros Ho. unfold phi. rewrite (dying_delete X o x) by done. rewrite map_size_delete, Ho.
  assert (base.size X <> 0%nat) by (apply map_size_ne_0_lookup; by exists o, x). simpl. lia.
Qed.

Lemma phi_app X l l' :
  phi X (l ++ l') = phi X l + Z.of_nat (length l') - Z.of_nat (length (asked l')).
Proof. unfold phi. rewrite asked_app, !length_app. lia. Qed.

Lemma phi_cons X s d c l : phi X ((s, (d, c)) :: l) = phi X l + 1 - Z.of_nat (b2n (is_term c)).
Proof. unfold phi. destruct c; cbn [asked length is_term b2n]; lia. Qed.

End OwnInv.
