(* ===== verification/OwnSafe.v ===== *)
(** * OwnSafe: the ownership tree is safe and its termination completes

    The handlers of [Own] are sequences of the transitions of [OwnInv]; any run of the
    threads is safe, and the commands that are left after a termination delete the
    whole tree. *)

From stdpp Require Import relations.
From S2P Require Import Prelude Own OwnInv.

Module OwnSafe.
Import Own OwnInv.

(** ** The handlers *)

(** No object is created, none changes its owner or ceases to terminate, and none processes more than
    [n] commands that count. *)
Definition older (n : Z) (X X' : gmap nat own_t) : Prop :=
  forall k y', X' !! k = Some y' -> exists y, X !! k = Some y /\ owner y' = owner y /\
    (terminating y = true -> terminating y' = true) /\ processed_seqnum y' <= processed_seqnum y + n.

Lemma older_refl X : older 0 X X.
Proof. intros k y Hy. exists y. split_and!; try done. lia. Qed.

Lemma older_trans n m X Y Z' : older n X Y -> older m Y Z' -> older (n + m) X Z'.
Proof.
  intros H1 H2 k z Hz. destruct (H2 k z Hz) as (y & Hy & E1 & T1 & P1). destruct (H1 k y Hy) as (x & Hx & E2 & T2 & P2).
  exists x. split; [done|]. split; [congruence|]. split; [auto|]. lia.
Qed.

Lemma older_insert n X o x x' : X !! o = Some x -> owner x' = owner x -> (terminating x = true -> terminating x' = true) ->
  processed_seqnum x' <= processed_seqnum x + n -> 0 <= n -> older n X (<[o := x']> X).
Proof.
  intros Ho H1 H2 H3 Hn k y. rewrite lookup_insert. case_decide; [subst k; intros [= <-]; by exists x|].
  intros Hy. exists y. split_and!; try done. lia.
Qed.

Lemma older_delete X o : older 0 X (delete o X).
Proof. intros k y [_ Hy]%lookup_delete_Some. exists y. split_and!; try done. lia. Qed.

(** A handler returns, and leaves the system in order. *)
Definition goes (n : Z) (X : gmap nat own_t) (out : outcome (world * unit)) (B : gmap nat (nat * nat)) (reg res : nat -> Z)
    (bound : Z) : Prop :=
  exists X' l' K', out = Done (World X' l', tt) /\ good None K' X' l' B reg res /\ phi X' l' <= bound /\ older n X X'.

Lemma upd_done o f X l x : X !! o = Some x -> upd o f (World X l) = Done (World (<[o := f x]> X) l, tt).
Proof. intros Ho. unfold upd. cbn [objs mail]. by rewrite Ho. Qed.

Lemma self_done o X l x : X !! o = Some x -> self o (World X l) = Done (World X l, x).
Proof. intros Ho. unfold self. cbn [objs]. by rewrite Ho. Qed.

Lemma send_done d c X l x : X !! d = Some x -> send_command d c (World X l) = Done (World X (l ++ [(tid x, (d, c))]), tt).
Proof. intros Hd. unfold send_command. by rewrite (sbind_done _ _ _ _ _ (self_done _ _ _ _ Hd)). Qed.

(** The end of a handler that did not delete the object. *)
Lemma unskip K X l B reg res o x :
  good (Some o) K X l B reg res -> X !! o = Some x -> (terminating x = true -> owned x = ∅) ->
  (terminating x = true -> cnt is_seq o l = 0%nat -> res o = 0 -> term_acks x = 0 -> 2 ^ 32 <= processed_seqnum x) ->
  good None K X l B reg res.
Proof.
  intros [Gd Gr Gb Gk Gs Ga Gn Gw Gp Go Ge Gl] Ho Hem Hl. split; try done.
  - intros p z Hz Ht _. destruct (decide (p = o)) as [->|Hne]; [|apply (Ge p z Hz Ht); congruence].
    rewrite Ho in Hz. injection Hz as <-. by apply Hem.
  - intros p z Hz Ht _. destruct (decide (p = o)) as [->|Hne]; [|apply (Gl p z Hz Ht); congruence].
    rewrite Ho in Hz. injection Hz as <-. by apply Hl.
Qed.

Lemma check_goes K X l B reg res o x :
  good (Some o) K X l B reg res -> X !! o = Some x -> (terminating x = true -> owned x = ∅) -> B !! tid x = None ->
  Z.of_nat (length l) + res o < 2 ^ 32 -> goes 0 X (check_term_acks o (World X l)) B reg res (phi X l).
Proof.
  intros Hg Ho Hem Hb Hz. unfold check_term_acks. rewrite (sbind_done _ _ _ _ _ (self_done _ _ _ _ Ho)).
  destruct (terminating x && (processed_seqnum x =? sent_seqnum x) && (term_acks x =? 0)) eqn:Ec.
  - apply andb_true_iff in Ec as [[Ht Hps]%andb_true_iff Hac]. apply Z.eqb_eq in Hps, Hac.
    pose proof (good_destroy _ _ _ _ _ _ _ _ Hg Ho Ht Hac Hps Hz (Hem Ht) Hb) as Hg'.
    exists (delete o X), (told X x l), (fun p => K p ∖ {[o]}). split; [|split; [exact Hg'|split; [|apply older_delete]]].
    + rewrite (sbind_done _ _ (World X l) (World X l) tt) by (unfold sassert; by rewrite bool_decide_eq_true_2 by (by apply Hem)).
      unfold told. destruct (owner x) as [p|] eqn:Ep; [|done].
      destruct (g_phase _ _ _ _ _ _ _ Hg o x p Ho Ep) as (y & Hy & _). rewrite Hy.
      unfold send_term_ack. by rewrite (sbind_done _ _ _ _ _ (send_done _ _ _ _ _ Hy)).
    + rewrite (phi_delete X o x) by done. rewrite Ht. unfold told.
      destruct (owner x) as [p|]; [destruct (X !! p) as [y|]|]; rewrite ?phi_app; simpl; lia.
  - exists X, l, K. split; [done|]. split; [|split; [lia|apply older_refl]]. apply (unskip _ _ _ _ _ _ o x Hg Ho Hem).
    intros Ht Hc Hr Hac. rewrite Ht, Hac in Ec. simpl in Ec. rewrite andb_true_r in Ec. apply Z.eqb_neq in Ec.
    destruct (g_seq _ _ _ _ _ _ _ Hg o x Ho) as [Hp Hs]. rewrite Hc, Hr in Hs. simpl in Hs. rewrite !Z.add_0_r in Hs.
    apply Z.nlt_ge. intros Hlt. apply Ec. rewrite Hs. symmetry. apply u32_small. lia.
Qed.

(** Counts are far from the bounds of an [int]. *)
Definition room (X : gmap nat own_t) (l : list entry) (reg res : nat -> Z) : Prop :=
  forall o, reg o + res o + Z.of_nat (length l + base.size X) < 2 ^ 31 - 1.

Lemma asked_size sk K X l B reg res o : good sk K X l B reg res -> (base.size (K o) <= base.size X)%nat.
Proof.
  intros Hg. rewrite <- size_dom. apply subseteq_size. intros c (y & Hy & _)%(g_asked _ _ _ _ _ _ _ Hg).
  apply elem_of_dom. by exists y.
Qed.

Lemma acks_bound sk K X l B reg res o x : good sk K X l B reg res -> X !! o = Some x ->
  room X l reg res -> 0 <= term_acks x < 2 ^ 31 - 1.
Proof.
  intros Hg Ho Hr. rewrite (g_acks _ _ _ _ _ _ _ Hg o x Ho). pose proof (asked_size _ _ _ _ _ _ _ o Hg).
  pose proof (cnt_le is_ack o l). destruct (g_nonneg _ _ _ _ _ _ _ Hg o) as (? & ? & _). specialize (Hr o). lia.
Qed.

Lemma older_seq X o x x' :
  X !! o = Some x -> owner x' = owner x -> terminating x' = terminating x -> 0 <= processed_seqnum x ->
  processed_seqnum x' = u64 (processed_seqnum x + 1) -> older 1 X (<[o := x']> X).
Proof.
  intros Ho H1 H2 H3 H4. apply (older_insert 1 X o x); [done|done|by rewrite H2| |lia]. rewrite H4. apply Z.mod_le; lia.
Qed.

Lemma seq_goes K X l B reg res s o c x :
  good None K X ((s, (o, c)) :: l) B reg res -> X !! o = Some x -> is_seq c = true -> (forall k, c <> own k) ->
  B !! tid x = None -> room X l reg res -> goes 1 X (process_seqnum o (World X l)) B reg res (phi X ((s, (o, c)) :: l) - 1).
Proof.
  intros Hg Ho Hs Hn Hb Hr. pose proof (good_seq _ _ _ _ _ _ _ _ _ _ Hg Ho Hs Hn) as Hg'.
  set (x' := set_processed (u64 (processed_seqnum x + 1)) x) in *.
  assert (Ho' : <[o := x']> X !! o = Some x') by apply lookup_insert_eq.
  destruct (check_goes _ _ _ _ _ _ o x' Hg' Ho') as (X' & l' & K' & E & Hg2 & Hphi & Hold).
  - intros Ht. apply (g_empty _ _ _ _ _ _ _ Hg o x Ho Ht). done.
  - done.
  - specialize (Hr o). destruct (g_nonneg _ _ _ _ _ _ _ Hg o) as (? & ? & _). lia.
  - exists X', l', K'. split; [|split; [done|split; [|refine (older_trans 1 0 _ _ _ _ Hold)]]].
    3: apply (older_seq X o x); try done; apply (g_seq _ _ _ _ _ _ _ Hg o x Ho).
    + unfold process_seqnum. by rewrite (sbind_done _ _ _ _ _ (upd_done _ _ _ _ _ Ho)).
    + rewrite (phi_insert X o x x' l Ho) in Hphi. change (terminating x') with (terminating x) in Hphi.
      rewrite phi_cons. replace (is_term c) with false by (by destruct c). simpl. lia.
Qed.

Lemma ack_goes K X l B reg res s o x :
  good None K X ((s, (o, term_ack)) :: l) B reg res -> X !! o = Some x ->
  B !! tid x = None -> room X ((s, (o, term_ack)) :: l) reg res ->
  goes 0 X (process_term_ack o (World X l)) B reg res (phi X ((s, (o, term_ack)) :: l) - 1).
Proof.
  intros Hg Ho Hb Hr. destruct (good_ack _ _ _ _ _ _ _ _ _ Hg Ho) as [Hg' Hpos].
  set (x' := set_acks (term_acks x - 1) x) in *. pose proof (acks_bound _ _ _ _ _ _ _ _ _ Hg Ho Hr) as Hab.
  assert (Ho' : <[o := x']> X !! o = Some x') by apply lookup_insert_eq.
  destruct (check_goes _ _ _ _ _ _ o x' Hg' Ho') as (X' & l' & K' & E & Hg2 & Hphi & Hold).
  - intros Ht. apply (g_empty _ _ _ _ _ _ _ Hg o x Ho Ht). done.
  - done.
  - specialize (Hr o). destruct (g_nonneg _ _ _ _ _ _ _ Hg o) as (? & ? & _). simpl in Hr. lia.
  - exists X', l', K'. split; [|split; [done|split; [|refine (older_trans 0 0 _ _ _ _ Hold)]]].
    3: apply (older_insert 0 X o x); try done; cbn [processed_seqnum x' set_acks]; lia.
    + unfold process_term_ack, unregister_term_ack. rewrite (sbind_done _ _ _ _ _ (self_done _ _ _ _ Ho)).
      rewrite (sbind_done _ _ (World X l) (World X l) tt) by (unfold sassert; by rewrite (proj2 (Z.ltb_lt _ _) Hpos)).
      rewrite (sbind_done _ _ _ _ _ (upd_done _ _ _ _ _ Ho)). rewrite i32_small by lia. exact E.
    + rewrite (phi_insert X o x x' l Ho) in Hphi. change (terminating x') with (terminating x) in Hphi.
      rewrite phi_cons. simpl. lia.
Qed.

(** [process_term_req], on behalf of a command or of the object itself. *)
Lemma term_req_goes K X l B reg res o c x :
  good None K X l B reg res -> X !! o = Some x -> room X l reg res ->
  goes 0 X (process_term_req o c (World X l)) B reg res (phi X l).
Proof.
  intros Hg Ho Hr. unfold process_term_req. rewrite (sbind_done _ _ _ _ _ (self_done _ _ _ _ Ho)).
  assert (Hsame : goes 0 X (Done (World X l, tt)) B reg res (phi X l)) by (exists X, l, K; split_and!; try done; apply older_refl).
  destruct (terminating x); [exact Hsame|]. destruct (bool_decide_reflect (c ∈ owned x)) as [Hc|Hc]; [|exact Hsame]. clear Hsame.
  destruct (g_owned _ _ _ _ _ _ _ Hg o x c Ho Hc) as (y & Hy & Hoy).
  pose proof (good_ask _ _ _ _ _ _ _ o c x y (linger x) Hg Ho Hc Hy) as Hg'.
  pose proof (acks_bound _ _ _ _ _ _ _ _ _ Hg Ho Hr) as Hab.
  assert (Hco : c <> o) by (intros ->; by apply (not_own_child X o y (g_rank _ _ _ _ _ _ _ Hg) Hy)).
  eexists _, _, _. split; [|split; [exact Hg'|split; [|apply (older_insert 0 X o x); try done; cbn; lia]]].
  - rewrite (sbind_done _ _ _ _ _ (upd_done _ _ _ _ _ Ho)). unfold register_term_acks.
    rewrite (sbind_done _ _ _ _ _ (upd_done o _ _ _ _ (lookup_insert_eq X o _))). rewrite insert_insert_eq.
    unfold send_term. erewrite send_done by (by rewrite lookup_insert_ne).
    cbn [term_acks set_owned set_acks owned]. rewrite i32_small by lia. done.
  - rewrite phi_app, (phi_insert X o x) by done. simpl. lia.
Qed.

Lemma own_goes K X l B reg res s o c x :
  good None K X ((s, (o, own c)) :: l) B reg res -> X !! o = Some x -> B !! tid x = None ->
  room X ((s, (o, own c)) :: l) reg res ->
  goes 1 X (process_command o (own c) (World X l)) B reg res (phi X ((s, (o, own c)) :: l) - 1).
Proof.
  intros Hg Ho Hb Hr. pose proof (good_own _ _ _ _ _ _ _ _ _ _ Hg Ho) as Hg'.
  pose proof (acks_bound _ _ _ _ _ _ _ _ _ Hg Ho Hr) as Hab.
  destruct (g_nonneg _ _ _ _ _ _ _ Hg o) as (Hn1 & Hn2 & _). pose proof (Hr o) as Hro. simpl in Hro.
  destruct (g_dest _ _ _ _ _ _ _ Hg s o (own c)) as (x0 & Hx0 & _ & (y & Hy & Hoy)); [by constructor|].
  assert (Hco : c <> o) by (intros ->; by apply (not_own_child X o y (g_rank _ _ _ _ _ _ _ Hg) Hy)).
  set (x1 := set_processed (u64 (processed_seqnum x + 1)) (set_owned ({[c]} ∪ owned x) x)) in *.
  assert (H1 : <[o := x1]> X !! o = Some x1) by apply lookup_insert_eq.
  assert (H2 : <[o := x1]> X !! c = Some y) by (by rewrite lookup_insert_ne).
  unfold process_command, process_own. unfold sbind at 1. rewrite (sbind_done _ _ _ _ _ (self_done _ _ _ _ Ho)).
  destruct (terminating x) eqn:Et.
  - assert (Hem : owned x = ∅) by (by apply (g_empty _ _ _ _ _ _ _ Hg o x Ho Et)).
    pose proof (good_ask _ _ _ _ _ _ _ o c x1 y 0 Hg' H1) as Hg2. specialize (Hg2 ltac:(set_solver) H2).
    rewrite insert_insert_eq in Hg2. set (x2 := set_acks _ _) in Hg2.
    assert (Ho2 : <[o := x2]> X !! o = Some x2) by apply lookup_insert_eq.
    destruct (check_goes _ _ _ _ _ _ o x2 Hg2 Ho2) as (X' & l' & K' & E & Hg3 & Hphi & Hold).
    + intros _. cbn [owned x2 set_acks set_owned x1 set_processed]. rewrite Hem. set_solver.
    + done.
    + rewrite length_app. simpl. lia.
    + exists X', l', K'. split; [|split; [done|split; [|refine (older_trans 1 0 _ _ _ _ Hold)]]].
      3: apply (older_seq X o x); try done; apply (g_seq _ _ _ _ _ _ _ Hg o x Ho).
      * unfold register_term_acks. rewrite (sbind_done _ _ _ _ _ (upd_done _ _ _ _ _ Ho)).
        unfold send_term. erewrite send_done by (by rewrite lookup_insert_ne). cbn [obind].
        unfold process_seqnum. rewrite (sbind_done _ _ _ _ _ (upd_done o _ _ _ _ (lookup_insert_eq X o _))).
        rewrite insert_insert_eq, <- E. f_equal. f_equal. f_equal.
        destruct x as [x_tid x_t x_s x_p x_o x_w x_a x_l]. cbn in *. subst x_w. unfold x2, x1. cbn.
        rewrite i32_small by lia. unfold set_processed, set_acks, set_owned. cbn. f_equal. apply set_eq. set_solver.
      * rewrite phi_app, (phi_insert X o x) in Hphi by done. rewrite phi_cons.
        change (terminating x2) with (terminating x) in Hphi. simpl in *. lia.
  - destruct (check_goes _ _ _ _ _ _ o x1 Hg' H1) as (X' & l' & K' & E & Hg3 & Hphi & Hold).
    + cbn [terminating x1 set_processed set_owned]. by rewrite Et.
    + done.
    + lia.
    + exists X', l', K'. split; [|split; [done|split; [|refine (older_trans 1 0 _ _ _ _ Hold)]]].
      3: apply (older_seq X o x); try done; apply (g_seq _ _ _ _ _ _ _ Hg o x Ho).
      * rewrite (upd_done _ _ _ _ _ Ho). cbn [obind]. unfold process_seqnum.
        rewrite (sbind_done _ _ _ _ _ (upd_done o _ _ _ _ (lookup_insert_eq X o _))). rewrite insert_insert_eq. exact E.
      * rewrite (phi_insert X o x x1 l Ho) in Hphi. rewrite phi_cons.
        change (terminating x1) with (terminating x) in Hphi. simpl in *. lia.
Qed.

(** The commands of [send_terms]. *)
Definition terms (X : gmap nat own_t) (cs : list nat) (ln : Z) : list entry :=
  omap (fun c => (fun y => (tid y, (c, term ln))) <$> X !! c) cs.

Lemma send_terms_done cs ln X : forall l, (forall c, c ∈ cs -> is_Some (X !! c)) ->
  send_terms cs ln (World X l) = Done (World X (l ++ terms X cs ln), tt) /\ length (terms X cs ln) = length cs /\
  length (asked (terms X cs ln)) = length cs.
Proof.
  induction cs as [|c cs IH]; intros l Hc; [by rewrite app_nil_r|].
  destruct (Hc c) as [y Hy]; [by constructor|]. cbn [send_terms]. unfold send_term.
  rewrite (sbind_done _ _ _ _ _ (send_done _ _ _ _ _ Hy)).
  destruct (IH (l ++ [(tid y, (c, term ln))])) as (E & H1 & H2); [intros c' ?; apply Hc; by constructor|].
  rewrite E. unfold terms. cbn [omap list_omap]. rewrite Hy. cbn [fmap option_fmap option_map].
  rewrite <- app_assoc. unfold terms in *. simpl. by rewrite H1, H2.
Qed.

Lemma good_asks cs ln : forall sk K X l B reg res o x,
  good sk K X l B reg res -> X !! o = Some x -> NoDup cs -> (forall c, c ∈ cs -> c ∈ owned x) ->
  exists K', good sk K' (<[o := set_acks (term_acks x + Z.of_nat (length cs)) (set_owned (owned x ∖ list_to_set cs) x)]> X)
    (l ++ terms X cs ln) B reg res.
Proof.
  induction cs as [|c cs IH]; intros sk K X l B reg res o x Hg Ho Hn Hc.
  - exists K. rewrite app_nil_r. replace (set_acks _ _) with x; [by rewrite insert_id|].
    destruct x. unfold set_acks, set_owned. simpl. f_equal; [|lia]. apply set_eq. set_solver.
  - apply NoDup_cons in Hn as [Hni Hn]. assert (Hcx : c ∈ owned x) by (apply Hc; by constructor).
    destruct (g_owned _ _ _ _ _ _ _ Hg o x c Ho Hcx) as (y & Hy & Hoy).
    assert (Hco : forall k, k ∈ owned x -> k <> o).
    { intros k Hk ->. destruct (g_owned _ _ _ _ _ _ _ Hg o x o Ho Hk) as (z & Hz & Hoz).
      by apply (not_own_child X o z (g_rank _ _ _ _ _ _ _ Hg) Hz). }
    pose proof (good_ask _ _ _ _ _ _ _ o c x y ln Hg Ho Hcx Hy) as Hg'.
    set (x1 := set_acks _ _) in Hg'. assert (H1 : <[o := x1]> X !! o = Some x1) by apply lookup_insert_eq.
    destruct (IH _ _ _ _ _ _ _ o x1 Hg' H1 Hn) as [K' Hg2].
    { intros k Hk. cbn [owned x1 set_acks set_owned]. specialize (Hc k ltac:(by constructor)).
      apply elem_of_difference. split; [done|]. intros ->%elem_of_singleton. done. }
    exists K'. rewrite insert_insert_eq in Hg2.
    assert (Et : terms (<[o := x1]> X) cs ln = terms X cs ln).
    { unfold terms. apply list_omap_ext. apply Forall2_same_length_lookup_2; [done|]. intros i a b Ea Eb.
      rewrite Ea in Eb. injection Eb as <-. rewrite lookup_insert_ne; [done|]. apply not_eq_sym, Hco, Hc. constructor.
      by eapply list_elem_of_lookup_2. }
    rewrite Et in Hg2. unfold terms in *. cbn [omap list_omap]. rewrite Hy. cbn [fmap option_fmap option_map].
    rewrite <- app_assoc in Hg2. simpl in Hg2. replace (set_acks _ _) with
      (set_acks (term_acks x1 + Z.of_nat (length cs)) (set_owned (owned x1 ∖ list_to_set cs) x1)); [exact Hg2|].
    unfold x1, set_acks, set_owned. simpl. f_equal; [apply set_eq; set_solver|lia].
Qed.

(** [process_term]: by a command of the owner, or for an object without one. *)
Lemma term_goes K X l0 l B reg res o ln x :
  good None K X l0 B reg res -> X !! o = Some x -> terminating x = false -> B !! tid x = None ->
  (owner x <> None /\ (exists s ln, l0 = (s, (o, term ln)) :: l) \/ owner x = None /\ l0 = l) ->
  room X l0 reg res -> goes 0 X (process_term o ln (World X l)) B reg res (phi X l - 1).
Proof.
  intros Hg Ho Hnt Hb Hl Hr. set (cs := elements (owned x)).
  assert (Hcs : forall c, c ∈ cs -> c ∈ owned x) by (intros c; apply elem_of_elements).
  assert (Halive : forall c, c ∈ cs -> is_Some (X !! c)).
  { intros c Hc. destruct (g_owned _ _ _ _ _ _ _ Hg o x c Ho (Hcs c Hc)) as (y & Hy & _). by exists y. }
  destruct (send_terms_done cs ln X l Halive) as (Es & Hl1 & Hl2).
  destruct (good_asks cs ln _ _ _ _ _ _ _ o x Hg Ho (NoDup_elements _) Hcs) as [K1 Hg1].
  set (x1 := set_acks _ _) in Hg1. assert (H1 : <[o := x1]> X !! o = Some x1) by apply lookup_insert_eq.
  assert (Hem : owned x1 = ∅) by (cbn [owned x1 set_acks set_owned]; apply set_eq; intros k; unfold cs; set_solver).
  assert (Hroom : term_acks x + Z.of_nat (length cs) < 2 ^ 31 - 1 /\ 0 <= term_acks x).
  { pose proof (g_acks _ _ _ _ _ _ _ Hg1 o x1 H1) as Ha. pose proof (asked_size _ _ _ _ _ _ _ o Hg1) as Hk.
    pose proof (cnt_le is_ack o l0) as Hc. rewrite cnt_app in Ha.
    assert (Hz : cnt is_ack o (terms X cs ln) = 0%nat).
    { destruct (cnt is_ack o (terms X cs ln)) eqn:E; [done|]. destruct (cnt_pos is_ack o (terms X cs ln)) as (s & c & Hin & Hc'); [lia|].
      unfold terms in Hin. apply list_elem_of_omap in Hin as (k & _ & Hk'). destruct (X !! k); [|done]. by injection Hk' as <- <- <-. }
    rewrite map_size_insert_Some in Hk by (by exists x). cbn [term_acks x1 set_acks] in Ha.
    pose proof (g_acks _ _ _ _ _ _ _ Hg o x Ho). destruct (g_nonneg _ _ _ _ _ _ _ Hg o) as (? & ? & _). specialize (Hr o). lia. }
  assert (Hg2 : good (Some o) K1 (<[o := set_terminating x1]> (<[o := x1]> X)) (l ++ terms X cs ln) B reg res).
  { apply (good_start _ _ (l0 ++ terms X cs ln) _ _ _ _ o x1 Hg1 H1 Hnt Hem).
    destruct Hl as [(Hx & s & ln' & ->)|(Hx & ->)]; [left|by right]. split; [done|]. by exists s, ln'. }
  rewrite insert_insert_eq in Hg2. set (x2 := set_terminating x1) in *.
  assert (H2 : <[o := x2]> X !! o = Some x2) by apply lookup_insert_eq.
  destruct (check_goes _ _ _ _ _ _ o x2 Hg2 H2) as (X' & l' & K' & E & Hg3 & Hphi & Hold); [done|done| |].
  { rewrite length_app, Hl1. assert (length l <= length l0)%nat by (destruct Hl as [(_ & s & ln' & ->)|(_ & ->)]; simpl; lia).
    destruct (g_nonneg _ _ _ _ _ _ _ Hg o) as (? & ? & _). pose proof (Hr o).
    assert (Hsz : (length cs <= base.size X)%nat).
    { rewrite <- size_dom, <- (size_list_to_set (C := gset nat) cs) by apply NoDup_elements. apply subseteq_size.
      intros c Hc%elem_of_list_to_set. apply elem_of_dom. by apply Halive. }
    lia. }
  exists X', l', K'. split; [|split; [done|split; [|refine (older_trans 0 0 _ _ _ _ Hold)]]].
  3: apply (older_insert 0 X o x); try done; cbn; lia.
  - unfold process_term. rewrite (sbind_done _ _ _ _ _ (self_done _ _ _ _ Ho)).
    rewrite (sbind_done _ _ (World X l) (World X l) tt) by (unfold sassert; by rewrite Hnt).
    rewrite (sbind_done _ _ _ _ _ Es). unfold register_term_acks.
    rewrite (sbind_done _ _ _ _ _ (upd_done _ _ _ _ _ Ho)).
    rewrite (sbind_done _ _ _ _ _ (upd_done o _ _ _ _ (lookup_insert_eq X o _))), insert_insert_eq.
    rewrite (sbind_done _ _ _ _ _ (upd_done o _ _ _ _ (lookup_insert_eq X o _))), insert_insert_eq.
    rewrite <- E. f_equal. f_equal. f_equal. unfold x2, x1, set_terminating, set_acks, set_owned. cbn. f_equal.
    + apply set_eq. intros k. unfold cs. set_solver.
    + change (base.size (owned x)) with (length cs). rewrite (i32_small (Z.of_nat _)) by lia. apply i32_small. lia.
  - rewrite phi_app, Hl1, Hl2, (phi_insert X o x x2) in Hphi by done. rewrite Hnt in Hphi. simpl in Hphi. lia.
Qed.

(** The command that a thread takes may as well be the first one. *)
Lemma good_front K X l1 l2 t e B reg res :
  good None K X (l1 ++ (t, e) :: l2) B reg res -> (forall e', e' ∈ l1 -> e'.1 <> t) ->
  good None K X ((t, e) :: l1 ++ l2) B reg res.
Proof.
  intros [Gd Gr Gb Gk Gs Ga Gn Gw Gp Go Ge Gl] Hfirst.
  assert (Hcnt : forall P d, cnt P d ((t, e) :: l1 ++ l2) = cnt P d (l1 ++ (t, e) :: l2)).
  { intros P d. rewrite cnt_app. destruct e as [d' c]. simpl. rewrite cnt_app. lia. }
  assert (Hown : forall d, nown d ((t, e) :: l1 ++ l2) = nown d (l1 ++ (t, e) :: l2)).
  { intros d. rewrite nown_app. destruct e as [d' c]. simpl. destruct c; rewrite nown_app; lia. }
  assert (Hin : forall x, x ∈ (t, e) :: l1 ++ l2 <-> x ∈ l1 ++ (t, e) :: l2).
  { intros x. rewrite elem_of_cons, !elem_of_app, elem_of_cons. tauto. }
  split; try done.
  - intros s d c Hx. apply Gd. by apply Hin.
  - intros a b s o c E. destruct a as [|x a].
    + injection E as -> -> <-. destruct (Gr l1 l2 s o c eq_refl) as [?|[s' Hs]]; [by left|]. right. exists s'. set_solver.
    + injection E as <- E. apply app_eq_app in E as (m & [[-> E]|[-> ->]]).
      * destruct m as [|x m].
        -- simpl in E. subst l2. destruct (Gr (a ++ [(t, e)]) b s o c) as [?|?]; [by rewrite app_nil_r, <- app_assoc|by left|by right].
        -- injection E as <- ->. destruct (Gr a (m ++ (t, e) :: l2) s o c) as [?|[s' Hs]]; [by rewrite <- app_assoc|by left|].
           right. exists s'. apply elem_of_app in Hs as [Hs|Hs]; [apply elem_of_app; by left|].
           apply elem_of_cons in Hs as [Hs|Hs]; [|apply elem_of_app; by right]. exfalso. injection Hs as -> Hs.
           destruct (Gd s o (term_req c)) as (x & Hx & Hxs & _); [set_solver|].
           destruct (Gd t o term_ack) as (y & Hy & Hyt & _); [rewrite Hs; set_solver|].
           rewrite Hx in Hy. injection Hy as <-. apply (Hfirst (s, (o, term_req c))); [set_solver|]. simpl. congruence.
      * destruct (Gr (l1 ++ (t, e) :: m) b s o c) as [?|?]; [by rewrite <- app_assoc|by left|by right].
  - intros o x Hx. rewrite Hcnt. by apply Gs.
  - intros o x Hx. rewrite Hcnt. by apply Ga.
  - intros o c. rewrite Hcnt. apply Gw.
  - intros c y o Hy Ho. destruct (Gp c y o Hy Ho) as (x & Hx & Hph). exists x. split; [done|].
    unfold phase in *. by rewrite Hown, Hcnt.
  - intros o x. rewrite Hcnt. apply Gl.
Qed.

Lemma phi_front X l1 l2 e : phi X (l1 ++ e :: l2) = phi X (e :: l1 ++ l2).
Proof.
  destruct e as [s [d c]]. unfold phi. rewrite asked_app. cbn [length asked]. rewrite !length_app.
  destruct c; cbn [length asked]; rewrite ?asked_app, ?length_app; cbn [length]; lia.
Qed.

Lemma goes_weaken m m' X out B reg res n n' :
  goes m X out B reg res n -> n <= n' -> m <= m' -> goes m' X out B reg res n'.
Proof.
  intros (X' & l' & K' & E & Hg & Hp & Ho) Hn Hm. exists X', l', K'. split; [done|]. split; [done|]. split; [lia|].
  intros k y Hy. destruct (Ho k y Hy) as (x & ? & ? & ? & ?). exists x. split_and!; try done. lia.
Qed.

Lemma process_goes K X l B reg res t :
  good None K X l B reg res -> B !! t = None -> room X l reg res -> next_command t l <> None ->
  goes 1 X (process_next t (World X l)) B reg res (phi X l - 1).
Proof.
  intros Hg Hb Hr Hn. unfold process_next. cbn [mail objs]. destruct (next_command t l) as [[[o c] l']|] eqn:E; [|done].
  apply next_command_spec in E as (l1 & l2 & -> & -> & Hl1). apply good_front in Hg; [|done]. rewrite phi_front.
  destruct (g_dest _ _ _ _ _ _ _ Hg t o c) as (x & Hx & <- & Ha); [by constructor|].
  assert (Hr1 : room X ((tid x, (o, c)) :: l1 ++ l2) reg res).
  { intros q. specialize (Hr q). rewrite length_app in Hr. cbn [length] in *. rewrite length_app. lia. }
  assert (Hr2 : room X (l1 ++ l2) reg res) by (intros q; specialize (Hr1 q); cbn [length] in Hr1; lia).
  destruct c as [|k| | |k|ln| |].
  - by eapply seq_goes.
  - by eapply own_goes.
  - by eapply seq_goes.
  - by eapply seq_goes.
  - pose proof (good_drop _ _ _ _ _ _ _ _ _ _ Hg Hx) as Hg'. rewrite phi_cons.
    eapply goes_weaken; [by eapply term_req_goes|simpl; lia|lia].
  - rewrite phi_cons. destruct (owner x) as [p|] eqn:Ep; [|by destruct Ha].
    destruct (g_phase _ _ _ _ _ _ _ Hg o x p Hx Ep) as (y & Hy & Hph).
    destruct (proj1 (proj2 (proj2 (phase_one _ _ _ _ _ _ Hph)))) as (_ & _ & _ & Ht & _);
      [simpl; by rewrite bool_decide_eq_true_2 by done; simpl; lia|].
    eapply goes_weaken; [eapply (term_goes _ _ _ (l1 ++ l2)); try done|simpl; lia|lia].
    left. split; [congruence|]. by eexists _, _.
  - eapply goes_weaken; [by eapply ack_goes|lia|lia].
  - by eapply seq_goes.
Qed.

(** *** Actions *)

Definition sgood (s : sys) : Prop :=
  exists K, good None K (objs (wo s)) (mail (wo s)) (busy s) (registered s) (reserved s).

Lemma run_goes n m s bound :
  goes n (objs (wo s)) (m (wo s)) (busy s) (registered s) (reserved s) bound ->
  exists s', run m s = Done s' /\ sgood s' /\ busy s' = busy s /\ registered s' = registered s /\ reserved s' = reserved s /\
    phi (objs (wo s')) (mail (wo s')) <= bound /\ older n (objs (wo s)) (objs (wo s')).
Proof.
  intros (X' & l' & K' & E & Hg & Hp & Ho). exists (Sys (World X' l') (busy s) (registered s) (reserved s)).
  split; [by unfold run; rewrite E|]. split; [by exists K'|done].
Qed.

Lemma small_room s : small s -> room (objs (wo s)) (mail (wo s)) (registered s) (reserved s).
Proof. intros Hs o. specialize (Hs o). lia. Qed.

Lemma launch_safe s o c t l : sgood s -> enabled (Launch o c t l) s -> exists s', exec (Launch o c t l) s = Done s' /\ sgood s'.
Proof.
  destruct s as [[X m] B reg res]. intros [K Hg] [(x & Hx & Hb) Hc]. cbn [wo objs mail busy registered reserved] in *.
  pose proof (good_new _ _ _ (m ++ [(t, (c, plug))]) _ (<[tid x := (o, c)]> B) _ _ c t l (Some o) 1 Hg Hc) as Hg'.
  assert (Hg2 : good None K (<[c := OwnT t false 1 0 (Some o) ∅ 0 l]> X) (m ++ [(t, (c, plug))]) (<[tid x := (o, c)]> B) reg res)
    by (apply Hg'; right; by exists o, x).
  eexists (Sys (World _ _) _ _ _). split; [|exists K; exact Hg2].
  unfold exec. cbn [wo objs busy registered reserved]. rewrite Hx. cbn [deref obind].
  unfold launch_child_plug, set_owner, new_object, smod. unfold sbind at 1. cbn [obind objs mail].
  unfold sbind at 1. rewrite (sbind_done _ _ _ _ _ (self_done c _ _ _ (lookup_insert_eq X c _))).
  rewrite (sbind_done _ _ (World (<[c := own_new t l]> X) m) (World (<[c := own_new t l]> X) m) tt) by done.
  rewrite (upd_done c _ _ _ _ (lookup_insert_eq X c _)), insert_insert_eq. cbn [obind].
  unfold send_plug, inc_seqnum. rewrite (sbind_done _ _ _ _ _ (upd_done c _ _ _ _ (lookup_insert_eq X c _))), insert_insert_eq.
  rewrite (send_done c _ _ _ _ (lookup_insert_eq X c _)). done.
Qed.

Lemma unregister_safe s o : sgood s -> small s -> enabled (Unregister o) s -> exists s', exec (Unregister o) s = Done s' /\ sgood s'.
Proof.
  destruct s as [[X m] B reg res]. intros [K Hg] Hs [(x & Hx & Hb) Hreg]. apply small_room in Hs.
  cbn [wo objs mail busy registered reserved] in *. pose proof (acks_bound _ _ _ _ _ _ _ _ _ Hg Hx Hs) as Hab.
  pose proof (g_acks _ _ _ _ _ _ _ Hg o x Hx) as Ha. specialize (Hs o). destruct (g_nonneg _ _ _ _ _ _ _ Hg o) as (? & ? & _).
  pose proof (good_register None (Some o) _ _ _ _ _ _ o (-1) x Hg Hx) as Hg'.
  specialize (Hg' ltac:(lia) ltac:(by right) ltac:(by left)). set (x' := set_acks _ x) in Hg'.
  assert (Hx' : <[o := x']> X !! o = Some x') by apply lookup_insert_eq.
  destruct (check_goes _ _ _ _ _ _ o x' Hg' Hx') as (X' & l' & K' & E & Hg2 & _ & _); [|done|lia|].
  { intros Ht. by apply (g_empty _ _ _ _ _ _ _ Hg o x Hx Ht). }
  exists (Sys (World X' l') B (bump o (-1) reg) res). split; [|by exists K'].
  unfold exec, unregister_term_ack. cbn [wo]. rewrite (sbind_done _ _ _ _ _ (self_done _ _ _ _ Hx)).
  rewrite (sbind_done _ _ (World X m) (World X m) tt) by (unfold sassert; rewrite (proj2 (Z.ltb_lt _ _)); [done|lia]).
  rewrite (sbind_done _ _ _ _ _ (upd_done _ _ _ _ _ Hx)), i32_small by lia.
  change (term_acks x - 1) with (term_acks x + -1). fold x'. by rewrite E.
Qed.

Lemma terminate_safe s o : sgood s -> small s -> enabled (Terminate o) s -> exists s', exec (Terminate o) s = Done s' /\ sgood s'.
Proof.
  intros [K Hg] Hs (x & Hx & Hb). apply small_room in Hs. destruct s as [[X m] B reg res].
  cbn [wo objs mail busy registered reserved] in *. unfold exec, run, terminate. cbn [wo].
  rewrite (sbind_done _ _ _ _ _ (self_done _ _ _ _ Hx)). destruct (terminating x) eqn:Et; [eexists; by split; [|exists K]|].
  destruct (owner x) as [p|] eqn:Ep.
  - destruct (g_phase _ _ _ _ _ _ _ Hg o x p Hx Ep) as (y & Hy & _).
    unfold send_term_req. rewrite (send_done _ _ _ _ _ Hy). eexists. split; [done|]. exists K.
    by apply (good_request K X m B reg res o p x y).
  - destruct (run_goes 0 (process_term o (linger x)) (Sys (World X m) B reg res) (phi X m - 1)) as (s' & E & Hs' & _); [|by exists s'].
    eapply (term_goes K X m m); try done. by right.
Qed.

Lemma send_safe s o d : sgood s -> enabled (Attach o d) s -> exists s', exec (Attach o d) s = Done s' /\ sgood s'.
Proof.
  destruct s as [[X m] B reg res]. intros [K Hg] [_ (x & Hx & Hd)]. cbn [wo objs mail busy registered reserved] in *.
  assert (Hy : exists y, X !! d = Some y).
  { destruct Hd as [->|[Hd|Hd]]; [by exists x| |].
    - destruct (g_phase _ _ _ _ _ _ _ Hg o x d Hx Hd) as (y & Hy & _). by exists y.
    - destruct (g_owned _ _ _ _ _ _ _ Hg o x d Hx Hd) as (y & Hy & _). by exists y. }
  destruct Hy as [y Hy]. unfold exec, run, send_attach. cbn [wo busy registered reserved]. unfold inc_seqnum.
  rewrite (sbind_done _ _ _ _ _ (upd_done _ _ _ _ _ Hy)), (send_done d _ _ _ _ (lookup_insert_eq X d _)). cbn [obind].
  eexists. split; [done|]. exists K. destruct (g_seq _ _ _ _ _ _ _ Hg d y Hy) as [Hp Hsent].
  apply (good_send K X m B reg res res d y _ attach Hg Hy); try done; [apply Hg|].
  cbn [sent_seqnum set_sent]. rewrite Hsent. unfold u32. rewrite Zplus_mod_idemp_l. f_equal. lia.
Qed.

Lemma bind_safe s d : sgood s -> enabled (Bind d) s -> exists s', exec (Bind d) s = Done s' /\ sgood s'.
Proof.
  destruct s as [[X m] B reg res]. intros [K Hg] Hd. cbn [wo objs mail busy registered reserved enabled] in *.
  destruct (X !! d) as [y|] eqn:Hy; [|destruct (g_nonneg _ _ _ _ _ _ _ Hg d) as (_ & _ & Hn); destruct (Hn Hy); lia].
  unfold exec, send_bind. cbn [wo busy registered reserved].
  rewrite (sbind_done _ _ (World X m) (World X m) tt) by done. rewrite (send_done d _ _ _ _ Hy). cbn [obind].
  eexists. split; [done|]. exists K. cbn [wo objs mail busy registered reserved].
  destruct (g_seq _ _ _ _ _ _ _ Hg d y Hy) as [Hp Hsent]. rewrite <- (insert_id X d y Hy) at 1.
  apply (good_send K X m B reg res _ d y y bind Hg Hy); try done.
  - unfold bump. rewrite decide_True by done. lia.
  - intros q Hq. unfold bump. by rewrite decide_False.
  - unfold bump. rewrite decide_True by done. rewrite Hsent. f_equal. lia.
Qed.

(** No action that is enabled crashes, and the invariant is kept. *)
Lemma action_safe a s : sgood s -> small s -> enabled a s -> exists s', exec a s = Done s' /\ sgood s'.
Proof.
  intros Hg Hs Ha. pose proof (small_room _ Hs) as Hr. destruct a as [t|o t l|o c t l|t|o c|o|o n|o|o d|d|d].
  - destruct Hg as [K Hg], Ha as [Hb Hn]. destruct (run_goes 1 (process_next t) s (phi (objs (wo s)) (mail (wo s)) - 1)) as (s' & E & Hs' & _); [|by exists s'].
    destruct s as [[X m] B reg res]. by eapply process_goes.
  - destruct Hg as [K Hg]. destruct s as [[X m] B reg res]. cbn [wo objs mail busy registered reserved enabled] in *.
    assert (Hg' : good None K (<[o := OwnT t false 0 0 None ∅ 0 l]> X) m B reg res)
      by (apply (good_new K X m m B B reg res o t l None 0 Hg Ha); by left).
    eexists. split; [done|]. exists K. exact Hg'.
  - by apply launch_safe.
  - destruct Hg as [K Hg]. destruct s as [[X m] B reg res]. simpl in Ha. destruct (B !! t) as [[o c]|] eqn:Hb; [|done].
    destruct (g_busy _ _ _ _ _ _ _ Hg t o c Hb) as (x & y & Hx & <- & _).
    unfold exec, launch_child_own, send_own, inc_seqnum. cbn [wo objs mail busy registered reserved]. rewrite Hb. cbn [deref obind].
    rewrite (sbind_done _ _ _ _ _ (upd_done _ _ _ _ _ Hx)), (send_done o _ _ _ _ (lookup_insert_eq X o _)). cbn [obind].
    eexists. split; [done|]. exists K. exact (good_handed _ _ _ _ _ _ _ _ _ Hg Hx Hb).
  - destruct Hg as [K Hg], Ha as (x & Hx & Hb). destruct (run_goes 0 (term_child o c) s (phi (objs (wo s)) (mail (wo s)))) as (s' & E & Hs' & _); [|by exists s'].
    destruct s as [[X m] B reg res]. by eapply term_req_goes.
  - by apply terminate_safe.
  - destruct Hg as [K Hg], Ha as ((x & Hx & Hb) & Hn & Hlt). destruct s as [[X m] B reg res].
    cbn [wo objs mail busy registered reserved] in *. unfold exec, register_term_acks. cbn [wo].
    rewrite (upd_done _ _ _ _ _ Hx). eexists. split; [done|]. exists K. cbn [wo objs mail busy registered reserved].
    pose proof (acks_bound _ _ _ _ _ _ _ _ _ Hg Hx Hr) as Hab. destruct (g_nonneg _ _ _ _ _ _ _ Hg o) as (? & ? & _).
    pose proof (g_acks _ _ _ _ _ _ _ Hg o x Hx) as Hac. pose proof (asked_size _ _ _ _ _ _ _ o Hg).
    pose proof (cnt_le is_ack o m). rewrite i32_small by lia.
    apply (good_register None None); try done; [lia|by left|]. destruct (decide (n = 0)); [by right; right|right; left; lia].
  - by apply unregister_safe.
  - by apply send_safe.
  - destruct Hg as [K Hg]. destruct s as [[X m] B reg res]. simpl in Ha. destruct (X !! d) as [y|] eqn:Hy; [|done].
    unfold exec, inc_seqnum. cbn [wo objs mail busy registered reserved]. rewrite (upd_done _ _ _ _ _ Hy).
    eexists. split; [done|]. exists K. exact (good_announce _ _ _ _ _ _ _ _ Hg Hy).
  - by apply bind_safe.
Qed.

(** ** Runs *)

Definition reachable (s : sys) : Prop := rtc step sys0 s.

Lemma sgood0 : sgood sys0.
Proof.
  exists (fun _ => ∅). split; simpl.
  - by intros s d c ?%not_elem_of_nil.
  - intros l1 l2 s o c E. by destruct l1.
  - intros t o c. by rewrite lookup_empty.
  - exists (fun _ => 0%nat). intros c y o. by rewrite lookup_empty.
  - intros o x. by rewrite lookup_empty.
  - intros o x. by rewrite lookup_empty.
  - done.
  - intros o c. split; [set_solver|]. intros (y & Hy & _). by rewrite lookup_empty in Hy.
  - intros c y o. by rewrite lookup_empty.
  - intros o x c. by rewrite lookup_empty.
  - intros o x. by rewrite lookup_empty.
  - intros o x. by rewrite lookup_empty.
Qed.

Lemma reachable_good s : reachable s -> sgood s.
Proof.
  unfold reachable. generalize sgood0. generalize sys0. intros s0 H0 Hr.
  induction Hr as [s|s s1 s2 [a s' s'' Hs Ha E] Hr IH]; [done|]. apply IH.
  destruct (action_safe a s' H0 Hs Ha) as (s3 & E3 & Hg). by replace s'' with s3 by congruence.
Qed.

(** Only commands are processed. *)
Inductive process_step : sys -> sys -> Prop :=
| processed t s s' : small s -> enabled (Process t) s -> exec (Process t) s = Done s' -> process_step s s'.

(** No thread is inside [launch_child], no pipe is registered, nothing is announced, and the
    counts have room. *)
Record settled (s : sys) : Prop := {
  st_busy : busy s = ∅;
  st_registered : forall o, registered s o = 0;
  st_reserved : forall o, reserved s o = 0;
  st_room : phi (objs (wo s)) (mail (wo s)) < 2 ^ 31 - 1;
  st_young : forall o x, objs (wo s) !! o = Some x -> processed_seqnum x + phi (objs (wo s)) (mail (wo s)) < 2 ^ 32
}.

Lemma settled_small s : sgood s -> settled s -> small s.
Proof.
  intros [K Hg] [Hb Hr1 Hr2 Hr Hy] o. rewrite Hr1, Hr2. pose proof (phi_nonneg _ _ _ _ _ _ _ Hg). lia.
Qed.

Lemma process_step_spec s s' :
  sgood s -> settled s -> process_step s s' ->
  sgood s' /\ settled s' /\ phi (objs (wo s')) (mail (wo s')) <= phi (objs (wo s)) (mail (wo s)) - 1 /\
  older 1 (objs (wo s)) (objs (wo s')).
Proof.
  intros [K Hg] Hst Hstep. inversion Hstep as [t s1 s2 Hs [Hb Hn] E E1 E2]. subst s1 s2.
  destruct (run_goes 1 (process_next t) s (phi (objs (wo s)) (mail (wo s)) - 1)) as (s3 & E3 & Hg3 & E4 & E5 & E6 & Hphi & Hold).
  { pose proof (small_room _ Hs) as Hr. destruct s as [[X m] B reg res]. exact (process_goes _ _ _ _ _ _ t Hg Hb Hr Hn). }
  unfold exec in E. replace s' with s3 by congruence. split; [done|]. split; [|done].
  destruct Hst as [H1 H2 H3 H4 H5]. split.
  - by rewrite E4.
  - intros o. by rewrite E5.
  - intros o. by rewrite E6.
  - lia.
  - intros o x Hx. destruct (Hold o x Hx) as (y & Hy & _ & _ & Hp). specialize (H5 o y Hy). lia.
Qed.

Lemma process_steps_spec n : forall s s', sgood s -> settled s -> nsteps process_step n s s' ->
  sgood s' /\ settled s' /\ phi (objs (wo s')) (mail (wo s')) <= phi (objs (wo s)) (mail (wo s)) - Z.of_nat n /\
  older (Z.of_nat n) (objs (wo s)) (objs (wo s')).
Proof.
  induction n as [|n IH]; intros s s' Hg Hst Hn; inversion Hn as [|? ? s1 ? Hs1 Hn1]; subst.
  - split; [done|]. split; [done|]. split; [lia|apply older_refl].
  - destruct (process_step_spec _ _ Hg Hst Hs1) as (Hg1 & Hst1 & Hp1 & Ho1).
    destruct (IH _ _ Hg1 Hst1 Hn1) as (Hg2 & Hst2 & Hp2 & Ho2). split; [done|]. split; [done|]. split; [lia|].
    replace (Z.of_nat (S n)) with (1 + Z.of_nat n) by lia. by eapply older_trans.
Qed.

(** When nothing waits, nobody is terminating. *)
Lemma idle_none_terminating s o x :
  sgood s -> settled s -> mail (wo s) = [] -> objs (wo s) !! o = Some x -> terminating x = false.
Proof.
  intros [K Hg] Hst Hm Ho. destruct (terminating x) eqn:Ht; [exfalso|done].
  destruct Hg as [Gd Gr Gb Gk Gs Ga Gn Gw Gp Go Ge Gl]. rewrite Hm in *. destruct Gk as [rank Hrank].
  assert (Hkid : forall o x, objs (wo s) !! o = Some x -> terminating x = true ->
    exists c y, objs (wo s) !! c = Some y /\ terminating y = true /\ (rank o < rank c)%nat).
  { clear o x Ho Ht. intros o x Ho Ht.
    destruct (decide (K o = ∅)) as [HK|HK].
    - exfalso. pose proof (Ga o x Ho) as Ha. rewrite HK, (st_registered _ Hst), size_empty in Ha. simpl in Ha.
      pose proof (Gl o x Ho Ht) as Hl. simpl in Hl. pose proof (st_young _ Hst o x Ho).
      specialize (Hl ltac:(done) eq_refl (st_reserved _ Hst o) Ha).
      assert (0 <= phi (objs (wo s)) (mail (wo s))).
      { rewrite Hm. unfold phi. simpl. assert (base.size (dying (objs (wo s))) <= base.size (objs (wo s)))%nat;
          [apply map_subseteq_size, map_filter_subseteq|lia]. }
      lia.
    - apply set_choose_L in HK as [c Hc]. apply Gw in Hc as (y & Hy & Hoy & [Hty|Hty]); [|simpl in Hty; lia].
      exists c, y. split; [done|]. split; [done|]. by apply (Hrank c y o). }
  assert (Hmax : forall n o x, objs (wo s) !! o = Some x -> terminating x = true ->
    exists c y, objs (wo s) !! c = Some y /\ (n <= rank c)%nat /\ terminating y = true).
  { clear o x Ho Ht. induction n as [|n IH]; intros o x Ho Ht; [exists o, x; split_and!; [done|lia|done]|].
    destruct (IH o x Ho Ht) as (c & y & Hy & Hn & Hty). destruct (Hkid c y Hy Hty) as (d & z & Hz & Htz & Hlt).
    exists d, z. split_and!; [done|lia|done]. }
  set (top := foldr (fun c n => Nat.max (rank c) n) 0%nat (elements (dom (objs (wo s))))).
  destruct (Hmax (S top) o x Ho Ht) as (c & y & Hy & Hn & _).
  assert (Hc : c ∈ elements (dom (objs (wo s)))) by (apply elem_of_elements, elem_of_dom; by exists y).
  assert (rank c <= top)%nat; [|lia]. unfold top. clear - Hc.
  induction (elements (dom (objs (wo s)))) as [|d l IH]; [by apply not_elem_of_nil in Hc|].
  apply elem_of_cons in Hc as [->|Hc]; simpl; [lia|]. specialize (IH Hc). lia.
Qed.

(** [c] is the object [o] or below it. *)
Inductive below (X : gmap nat own_t) (o : nat) : nat -> Prop :=
| below_self : below X o o
| below_child c y p : X !! c = Some y -> owner y = Some p -> below X o p -> below X o c.

Lemma below_gone n s s' o c :
  sgood s' -> older n (objs (wo s)) (objs (wo s')) -> objs (wo s') !! o = None -> below (objs (wo s)) o c ->
  objs (wo s') !! c = None.
Proof.
  intros [K Hg] Hold Ho Hb. induction Hb as [|c y p Hy Hp Hb IH]; [done|].
  destruct (objs (wo s') !! c) as [z|] eqn:Hz; [exfalso|done].
  destruct (Hold c z Hz) as (y' & Hy' & Eo & _). replace y' with y in Eo by congruence. rewrite Hp in Eo.
  destruct (g_phase _ _ _ _ _ _ _ Hg c z p Hz Eo) as (w & Hw & _). congruence.
Qed.

(** ** Properties *)

(** C12: Ownership is safe, whatever the threads do: no assertion of own.cpp fails, in particular no
    object is terminated twice or deleted with children, and none is used after its
    deletion.  In every state that can be reached, an action that its rules allow succeeds, every
    command that waits is for an object that exists and in the thread of that object, and the owner
    of an object that exists does too. *)
Theorem ownership_safe s :
  reachable s ->
  (forall a, small s -> enabled a s -> exists s', exec a s = Done s') /\
  (forall t o c, (t, (o, c)) ∈ mail (wo s) -> exists x, objs (wo s) !! o = Some x /\ tid x = t) /\
  (forall c y o, objs (wo s) !! c = Some y -> owner y = Some o -> exists x, objs (wo s) !! o = Some x).
Proof.
  intros Hg%reachable_good. split; [|split].
  - intros a Hs Ha. destruct (action_safe a s Hg Hs Ha) as (s' & E & _). by exists s'.
  - intros t o c Hin. destruct Hg as [K Hg]. destruct (g_dest _ _ _ _ _ _ _ Hg t o c Hin) as (x & ? & ? & _). by exists x.
  - intros c y o Hy Ho. destruct Hg as [K Hg]. destruct (g_phase _ _ _ _ _ _ _ Hg c y o Hy Ho) as (x & ? & _). by exists x.
Qed.

(** C13: A termination that was begun is completed.  From a settled state, in which the methods of the
    program are done and only commands are left, and each object processes fewer than 2^32 commands
    ([late_object_survives] shows what follows otherwise), the threads process at most [phi] of
    them; while some wait, one can be processed; and when none waits, every object
    that was terminating is deleted, with all the objects below it. *)
Theorem ownership_terminates s :
  reachable s -> settled s ->
  (forall n s', nsteps process_step n s s' -> Z.of_nat n <= phi (objs (wo s)) (mail (wo s))) /\
  (forall s', rtc process_step s s' -> mail (wo s') <> [] -> exists s'', process_step s' s'') /\
  (forall s' o x c, rtc process_step s s' -> mail (wo s') = [] -> objs (wo s) !! o = Some x -> terminating x = true ->
     below (objs (wo s)) o c -> objs (wo s') !! c = None).
Proof.
  intros Hg%reachable_good Hst. split; [|split].
  - intros n s' Hn. destruct (process_steps_spec n s s' Hg Hst Hn) as ([K Hg'] & _ & Hp & _).
    pose proof (phi_nonneg _ _ _ _ _ _ _ Hg'). lia.
  - intros s' [n Hn]%rtc_nsteps Hm. destruct (process_steps_spec n s s' Hg Hst Hn) as (Hg' & Hst' & _).
    pose proof (settled_small _ Hg' Hst') as Hs. destruct (mail (wo s')) as [|[t [o c]] l] eqn:Em; [done|].
    assert (Ha : enabled (Process t) s').
    { split; [by rewrite (st_busy _ Hst'), lookup_empty|]. rewrite Em. simpl. by rewrite decide_True. }
    destruct (action_safe _ _ Hg' Hs Ha) as (s2 & E & _). exists s2. by apply (processed t).
  - intros s' o x c [n Hn]%rtc_nsteps Hm Ho Ht Hb. destruct (process_steps_spec n s s' Hg Hst Hn) as (Hg' & Hst' & _ & Hold).
    apply (below_gone (Z.of_nat n) s s' o c Hg' Hold); [|done].
    destruct (objs (wo s') !! o) as [y|] eqn:Hy; [exfalso|done].
    destruct (Hold o y Hy) as (x' & Hx' & _ & Hty & _). replace x' with x in Hty by congruence.
    rewrite (idle_none_terminating s' o y Hg' Hst' Hm Hy) in Hty. by specialize (Hty Ht).
Qed.

(** ** Concrete runs *)

Fixpoint runs (l : list action) (s s' : sys) : Prop :=
  match l with
  | [] => s = s'
  | a :: l => small s /\ enabled a s /\ exists s1, exec a s = Done s1 /\ runs l s1 s'
  end.

Lemma runs_reachable l : forall s s', runs l s s' -> rtc step s s'.
Proof.
  induction l as [|a l IH]; intros s s'; [by intros ->|]. intros (Hs & Ha & s1 & E & Hr).
  eapply rtc_l; [by apply (step_action a)|by apply IH].
Qed.

(** Evaluates a run, state by state. *)
Ltac run_step tac :=
  split; [intros ?o; vm_compute; reflexivity|split; [tac|eexists; split; [vm_compute; reflexivity|]]].

Ltac by_idle := eexists; split; vm_compute; reflexivity.

Definition early : list action :=
  [Create 1 0 0; Launch 1 2 1 0; Process 1; Terminate 2; Launched 0; Process 0; Process 0].

(** A request can be lost.  A child asks for its termination between the two commands of
    [launch_child]: its owner does not know it yet and ignores the request, then stores
    it; nothing waits any more and the child lives on.  The comment in [process_term_req] assumes
    that an unknown child was asked to terminate before. *)
Theorem early_request_lost :
  exists s x y, runs early sys0 s /\ Terminate 2 ∈ early /\
    mail (wo s) = [] /\ busy s = ∅ /\ objs (wo s) !! 1%nat = Some x /\ 2%nat ∈ owned x /\
    objs (wo s) !! 2%nat = Some y /\ terminating y = false.
Proof.
  eexists _, _, _. split.
  - run_step ltac:(vm_compute; reflexivity).
    run_step ltac:(split; [by_idle|vm_compute; reflexivity]).
    run_step ltac:(split; [vm_compute; reflexivity|vm_compute; discriminate]).
    run_step ltac:(by_idle).
    run_step ltac:(vm_compute; discriminate).
    run_step ltac:(split; [vm_compute; reflexivity|vm_compute; discriminate]).
    run_step ltac:(split; [vm_compute; reflexivity|vm_compute; discriminate]).
    vm_compute. reflexivity.
  - split; [unfold early; set_solver|]. split; [reflexivity|]. split; [reflexivity|]. split; [reflexivity|].
    split; [apply (bool_decide_unpack _); vm_compute; exact I|]. split; reflexivity.
Qed.

(** An object that has processed 2^32 commands is never deleted: the number of commands sent
    to it is kept in 32 bits and compared with the number of those it processed, which is kept
    in 64. *)
Theorem late_object_survives o (w : world) x :
  objs w !! o = Some x -> 0 <= sent_seqnum x < 2 ^ 32 -> 2 ^ 32 <= processed_seqnum x ->
  check_term_acks o w = Done (w, tt).
Proof.
  intros Ho Hs Hp. destruct w as [X m]. unfold check_term_acks. rewrite (sbind_done _ _ _ _ _ (self_done _ _ _ _ Ho)).
  replace (processed_seqnum x =? sent_seqnum x) with false by (symmetry; apply Z.eqb_neq; lia).
  by rewrite andb_false_r.
Qed.

(** *** Witnesses *)
Lemma late_object_survives_witness :
  check_term_acks 1 (World {[ 1%nat := OwnT 0 true 0 (2 ^ 32) None ∅ 0 0 ]} []) =
    Done (World {[ 1%nat := OwnT 0 true 0 (2 ^ 32) None ∅ 0 0 ]} [], tt).
Proof.
  apply (late_object_survives 1 _ (OwnT 0 true 0 (2 ^ 32) None ∅ 0 0)); [reflexivity| |]; simpl; lia.
Defined.

(** A tree of three objects in two threads; the root starts its termination. *)
Definition sample_run : list action :=
  [Create 1 0 100; Launch 1 2 1 100; Launched 0; Process 1; Launch 2 3 1 100; Launched 1;
   Process 0; Process 1; Process 1; Terminate 1].

Definition sample_world : world :=
  World (<[1%nat := OwnT 0 true 1 1 None ∅ 1 100]> (<[2%nat := OwnT 1 false 2 2 (Some 1%nat) {[3%nat]} 0 100]>
         {[ 3%nat := OwnT 1 false 1 1 (Some 2%nat) ∅ 0 100 ]})) [(1%nat, (2%nat, term 100))].

Definition sample : sys := Sys sample_world ∅ (fun _ => 0) (fun _ => 0).

Lemma sample_reachable : reachable sample.
Proof.
  apply (runs_reachable sample_run).
  run_step ltac:(vm_compute; reflexivity).
  run_step ltac:(split; [by_idle|vm_compute; reflexivity]).
  run_step ltac:(vm_compute; discriminate).
  run_step ltac:(split; [vm_compute; reflexivity|vm_compute; discriminate]).
  run_step ltac:(split; [by_idle|vm_compute; reflexivity]).
  run_step ltac:(vm_compute; discriminate).
  run_step ltac:(split; [vm_compute; reflexivity|vm_compute; discriminate]).
  run_step ltac:(split; [vm_compute; reflexivity|vm_compute; discriminate]).
  run_step ltac:(split; [vm_compute; reflexivity|vm_compute; discriminate]).
  run_step ltac:(by_idle).
  vm_compute. reflexivity.
Qed.

Lemma ownership_safe_witness : exists s', exec (Process 1) sample = Done s'.
Proof.
  apply (proj1 (ownership_safe sample sample_reachable)).
  - intros o. vm_compute. reflexivity.
  - split; [reflexivity|vm_compute; discriminate].
Defined.

Lemma ownership_terminates_witness :
  settled sample /\ forall s', rtc process_step sample s' -> mail (wo s') = [] -> objs (wo s') !! 3%nat = None.
Proof.
  assert (Hst : settled sample).
  { split; try done. intros o x Hx. revert Hx. unfold sample, sample_world. cbn [wo objs].
    intros [[_ <-]|[_ [[_ <-]|[_ [_ <-]%lookup_singleton_Some]]%lookup_insert_Some]]%lookup_insert_Some; vm_compute; reflexivity. }
  split; [exact Hst|]. intros s' Hr Hm. destruct (ownership_terminates sample sample_reachable Hst) as (_ & _ & Hend).
  apply (Hend s' 1%nat (OwnT 0 true 1 1 None ∅ 1 100) 3%nat Hr Hm); [reflexivity|reflexivity|].
  apply (below_child _ _ 3 (OwnT 1 false 1 1 (Some 2%nat) ∅ 0 100) 2%nat); [reflexivity|reflexivity|].
  apply (below_child _ _ 2 (OwnT 1 false 2 2 (Some 1%nat) {[3%nat]} 0 100) 1%nat); [reflexivity|reflexivity|].
  apply below_self.
Defined.

(** The run ends with no object left. *)
Example sample_ends :
  match (let* s := exec (Process 1) sample in let* s := exec (Process 1) s in let* s := exec (Process 1) s in
         exec (Process 0) s) with
  | Done s => mail (wo s) = [] /\ base.size (objs (wo s)) = 0%nat
  | Crash => False
  end.
Proof. vm_compute. done. Qed.

End OwnSafe.
