(* ===== verification/Ctx.v ===== *)
(** * Ctx: contexts, their sockets and the reaper (libzmq/src/ctx.cpp, reaper.cpp)

    A context gives every socket a slot of its table of mailboxes.  A socket that is
    closed goes to the reaper thread, which terminates it and gives its slot back;
    when the context is terminated, the reaper says when the last one is gone. *)

From stdpp Require Import fin_sets.
From S2P Require Import Prelude Array.

Module Ctx.

Inductive errno : Type := EINVAL | ETERM | EMFILE | ENOMEM.

#[global] Instance errno_eq_dec : EqDecision errno.
Proof. solve_decision. Defined.

(** What a slot points to; an I/O thread is its index in [io_threads]. *)
Inductive i_mailbox : Type :=
| term_mailbox
| reaper_mailbox
| io_mailbox (k : nat)
| socket_mailbox (s : nat).

(** The options of a context. *)
Record options : Type := Options {
  max_sockets : Z;
  max_msgsz : Z;
  io_thread_count : Z;
  blocky : bool;
  ipv6 : bool;
  zero_copy : bool;
  thread_priority : Z;
  thread_sched_policy : Z;
  thread_affinity_cpus : gset Z;
  thread_name_prefix : option Z
}.

(** ctx_t; sockets are their addresses, and [io_threads] are the numbers of the slots of the I/O threads. *)
Record ctx_t : Type := CtxT {
  opts : options;
  starting : bool;
  terminating : bool;
  reaper : bool;
  io_threads : list Z;
  slot_count : Z;
  slots : list (option i_mailbox);
  empty_slots : list Z;
  sockets : Array.array
}.

(** The commands of the reaper's mailbox. *)
Inductive command : Type :=
| stop
| reap (s : nat)
| reaped.

#[global] Instance command_eq_dec : EqDecision command.
Proof. solve_decision. Defined.

(** reaper_t, with its mailbox. *)
Record reaper_t : Type := ReaperT {
  reaper_mail : list command;
  reaper_sockets : Z;
  reaper_terminating : bool
}.

(** A socket belongs to an application thread, then to the reaper: its command is on its
    way, or the reaper's poller has it. *)
Inductive phase : Type := Used | Closed | Reaping.

#[global] Instance phase_eq_dec : EqDecision phase.
Proof. solve_decision. Defined.

(** What of a socket the context knows: its slot and identifier, its phase, and how many
    [stop] commands it was sent. *)
Record socket : Type := Socket { socket_tid : Z; socket_id : Z; socket_phase : phase; stops : nat }.

(** The context, its reaper, the sockets, the counter of identifiers, which contexts share,
    and the number of [done] commands in the mailbox of [terminate]; a context that was
    deleted is [None]. *)
Record world : Type := World {
  the_ctx : option ctx_t;
  the_reaper : reaper_t;
  heap : gmap nat socket;
  next_socket : nat;
  max_socket_id : Z;
  dones : nat
}.

(** *** Options *)

Section Options.
(** [poller_t::max_fds ()], of the poller the library is built with. *)
Context (max_fds : Z).

Definition clipped_maxsocket (max_requested : Z) : Z :=
  if (max_fds <=? max_requested) && negb (max_fds =? -1) then max_fds - 1 else max_requested.

Definition options_new : options :=
  Options (clipped_maxsocket 1023) (2 ^ 31 - 1) 1 true false true (-1) (-1) ∅ None.

Definition thread_set (option_ optval_ : Z) (o : options) : options * option errno :=
  let '(Options ms mz io bl v6 zc tp sp cpus pre) := o in
  if (option_ =? 4) && (0 <=? optval_) then (Options ms mz io bl v6 zc tp optval_ cpus pre, None)
  else if (option_ =? 7) && (0 <=? optval_) then (Options ms mz io bl v6 zc tp sp ({[ optval_ ]} ∪ cpus) pre, None)
  else if (option_ =? 8) && (0 <=? optval_) then
    if bool_decide (optval_ ∈ cpus) then (Options ms mz io bl v6 zc tp sp (cpus ∖ {[ optval_ ]}) pre, None)
    else (o, Some EINVAL)
  else if (option_ =? 9) && (0 <=? optval_) then (Options ms mz io bl v6 zc tp sp cpus (Some optval_), None)
  else if (option_ =? 3) && (0 <=? optval_) then (Options ms mz io bl v6 zc optval_ sp cpus pre, None)
  else (o, Some EINVAL).

Definition set (option_ optval_ : Z) (o : options) : options * option errno :=
  let '(Options ms mz io bl v6 zc tp sp cpus pre) := o in
  if (option_ =? 2) && (1 <=? optval_) && (optval_ =? clipped_maxsocket optval_) then
    (Options optval_ mz io bl v6 zc tp sp cpus pre, None)
  else if (option_ =? 1) && (0 <=? optval_) then (Options ms mz optval_ bl v6 zc tp sp cpus pre, None)
  else if (option_ =? 42) && (0 <=? optval_) then (Options ms mz io bl (negb (optval_ =? 0)) zc tp sp cpus pre, None)
  else if (option_ =? 70) && (0 <=? optval_) then (Options ms mz io (negb (optval_ =? 0)) v6 zc tp sp cpus pre, None)
  else if (option_ =? 5) && (0 <=? optval_) then
    (Options ms (if optval_ <? 2 ^ 31 - 1 then optval_ else 2 ^ 31 - 1) io bl v6 zc tp sp cpus pre, None)
  else if (option_ =? 10) && (0 <=? optval_) then (Options ms mz io bl v6 (negb (optval_ =? 0)) tp sp cpus pre, None)
  else thread_set option_ optval_ o.

Definition get (option_ : Z) (o : options) : errno + Z :=
  if option_ =? 2 then inr (max_sockets o)
  else if option_ =? 3 then inr (clipped_maxsocket 65535)
  else if option_ =? 1 then inr (io_thread_count o)
  else if option_ =? 42 then inr (Z.b2z (ipv6 o))
  else if option_ =? 70 then inr (Z.b2z (blocky o))
  else if option_ =? 5 then inr (max_msgsz o)
  else if option_ =? 6 then inr 64
  else if option_ =? 10 then inr (Z.b2z (zero_copy o))
  else inl EINVAL.

Definition ctx_new : ctx_t := CtxT options_new true false false [] 0 [] [] Array.empty.
End Options.

Definition world_new (max_fds : Z) : world :=
  World (Some (ctx_new max_fds)) (ReaperT [] 0 false) ∅ 0 0 0.

(** *** Accesses *)

Definition this : stm world ctx_t := fun w => let* c := deref (the_ctx w) in Done (w, c).
Definition set_ctx (c : option ctx_t) (w : world) : world :=
  World c (the_reaper w) (heap w) (next_socket w) (max_socket_id w) (dones w).
Definition upd (f : ctx_t -> ctx_t) : stm world unit :=
  fun w => let* c := deref (the_ctx w) in Done (set_ctx (Some (f c)) w, tt).
Definition set_reaper (r : reaper_t) (w : world) : world :=
  World (the_ctx w) r (heap w) (next_socket w) (max_socket_id w) (dones w).
Definition set_heap (h : gmap nat socket) (w : world) : world :=
  World (the_ctx w) (the_reaper w) h (next_socket w) (max_socket_id w) (dones w).

Definition with_opts (o : options) (c : ctx_t) : ctx_t :=
  CtxT o (starting c) (terminating c) (reaper c) (io_threads c) (slot_count c) (slots c) (empty_slots c) (sockets c).
Definition with_terminating (b : bool) (c : ctx_t) : ctx_t :=
  CtxT (opts c) (starting c) b (reaper c) (io_threads c) (slot_count c) (slots c) (empty_slots c) (sockets c).
Definition with_slots (l : list (option i_mailbox)) (e : list Z) (a : Array.array) (c : ctx_t) : ctx_t :=
  CtxT (opts c) (starting c) (terminating c) (reaper c) (io_threads c) (slot_count c) l e a.

(** *** Commands *)

(** [slots [tid_]->send (command_)]: the slot must not be empty. *)
Definition slot (tid_ : Z) : stm world i_mailbox :=
  let! c := this in
  let! m := slift (nth_z (slots c) tid_) in
  slift (deref m).

Definition send_command (tid_ : Z) (cmd : command) : stm world unit :=
  let! m := slot tid_ in
  match m with
  | reaper_mailbox => smod (fun w => set_reaper (ReaperT (reaper_mail (the_reaper w) ++ [cmd])
                              (reaper_sockets (the_reaper w)) (reaper_terminating (the_reaper w))) w)
  | socket_mailbox s => fun w =>
      let* x := deref (heap w !! s) in
      Done (set_heap (<[s := Socket (socket_tid x) (socket_id x) (socket_phase x) (S (stops x))]> (heap w)) w, tt)
  | _ => sret tt
  end.

Definition reaper_tid : Z := 1.

(** [reaper->stop ()]: its mailbox is valid. *)
Definition reaper_stop : stm world unit :=
  let! c := this in sassert (reaper c) ;;; send_command reaper_tid stop.

(** [socket_base_t::stop] *)
Definition socket_stop (s : nat) : stm world unit := fun w =>
  let* x := deref (heap w !! s) in send_command (socket_tid x) stop w.

(** *** Sockets *)

(** [socket_base_t::create] knows the types ZMQ_PAIR (0) to ZMQ_DGRAM (18), and fails without a mailbox. *)
Definition known_type (type_ : Z) : bool := (0 <=? type_) && (type_ <=? 18).

(** [empty_slots.back ()], [pop_back ()] *)
Definition pop_slot : stm world Z :=
  let! c := this in
  let! t := slift (deref (last (empty_slots c))) in
  upd (fun c => with_slots (slots c) (removelast (empty_slots c)) (sockets c) c) ;;;
  sret t.

Definition new_socket (tid_ sid_ : Z) : stm world nat := fun w =>
  let s := next_socket w in
  Done (World (the_ctx w) (the_reaper w) (<[s := Socket tid_ sid_ Used 0]> (heap w)) (S s)
              (max_socket_id w) (dones w), s).

Definition next_id : stm world Z := fun w =>
  let sid := i32 (max_socket_id w) + 1 in
  Done (World (the_ctx w) (the_reaper w) (heap w) (next_socket w) (u32 (max_socket_id w + 1)) (dones w), sid).

(** [create_socket] once the context has started. *)
Definition create_started (type_ : Z) (mailbox : bool) : stm world (errno + nat) :=
  let! c := this in
  if terminating c then sret (inl ETERM)
  else if bool_decide (empty_slots c = []) then sret (inl EMFILE)
  else
    let! slot := pop_slot in
    let! sid := next_id in
    if known_type type_ && mailbox then
      let! s := new_socket slot sid in
      let! c := this in
      let! l := slift (set_z (slots c) slot (Some (socket_mailbox s))) in
      upd (fun c => with_slots l (empty_slots c) (Array.push_back (sockets c) s) c) ;;;
      sret (inr s)
    else
      upd (fun c => with_slots (slots c) (empty_slots c ++ [slot]) (sockets c) c) ;;;
      sret (inl (if known_type type_ then EMFILE else EINVAL)).

Definition is_empty (a : Array.array) : bool := Array.size a =? 0.

Definition destroy_socket (s : nat) : stm world unit := fun w =>
  let* x := deref (heap w !! s) in
  (let tid := socket_tid x in
   let! c := this in
   let! l := slift (set_z (slots c) tid None) in
   let! a := slift (Array.erase (sockets c) s) in
   upd (with_slots l (empty_slots c ++ [tid]) a) ;;;
   let! c := this in
   if terminating c && is_empty (sockets c) then reaper_stop else sret tt) w.

Definition set_phase (s : nat) (p : phase) : stm world unit := fun w =>
  let* x := deref (heap w !! s) in
  Done (set_heap (<[s := Socket (socket_tid x) (socket_id x) p (stops x)]> (heap w)) w, tt).

(** [socket_base_t::close]: [send_reap], to the reaper's slot. *)
Definition close (s : nat) : stm world unit :=
  set_phase s Closed ;;; let! c := this in sassert (reaper c) ;;; send_command reaper_tid (reap s).

(** *** The reaper *)

(** [socket_base_t::check_destroy], when the socket has terminated: it goes for good. *)
Definition check_destroy (destroyed : bool) (s : nat) : stm world unit :=
  if destroyed then
    destroy_socket s ;;;
    let! c := this in sassert (reaper c) ;;; send_command reaper_tid reaped ;;;
    smod (fun w => set_heap (delete s (heap w)) w)
  else sret tt.

Definition send_done : stm world unit :=
  let! m := slot 0 in
  sassert (if m is term_mailbox then true else false) ;;;
  smod (fun w => World (the_ctx w) (the_reaper w) (heap w) (next_socket w) (max_socket_id w) (S (dones w))).

Definition upd_reaper (f : reaper_t -> reaper_t) : stm world unit := smod (fun w => set_reaper (f (the_reaper w)) w).

Definition process_stop : stm world unit :=
  upd_reaper (fun r => ReaperT (reaper_mail r) (reaper_sockets r) true) ;;;
  let! w := sget in
  if reaper_sockets (the_reaper w) =? 0 then send_done else sret tt.

(** [destroyed]: whether the socket terminates at once. *)
Definition process_reap (destroyed : bool) (s : nat) : stm world unit :=
  set_phase s Reaping ;;;
  check_destroy destroyed s ;;;
  upd_reaper (fun r => ReaperT (reaper_mail r) (i32 (reaper_sockets r + 1)) (reaper_terminating r)).

Definition process_reaped : stm world unit :=
  upd_reaper (fun r => ReaperT (reaper_mail r) (i32 (reaper_sockets r - 1)) (reaper_terminating r)) ;;;
  let! w := sget in
  if (reaper_sockets (the_reaper w) =? 0) && reaper_terminating (the_reaper w) then send_done else sret tt.

(** One turn of [reaper_t::in_event]. *)
Definition in_event (destroyed : bool) : stm world unit := fun w =>
  match reaper_mail (the_reaper w) with
  | [] => Done (w, tt)
  | cmd :: l =>
      (upd_reaper (fun r => ReaperT l (reaper_sockets r) (reaper_terminating r)) ;;;
       match cmd with
       | stop => process_stop
       | reap s => process_reap destroyed s
       | reaped => process_reaped
       end) w
  end.

(** *** Starting *)

(** What the system gives to [start]: the memory and the mailboxes of the threads, or the first that
    it refuses; [k] I/O threads run already when one is refused. *)
Inductive started : Type :=
| Started
| NoSlots
| NoReaper
| BadReaper
| NoIoThread (k : nat)
| BadIoThread (k : nat).

#[global] Instance started_eq_dec : EqDecision started.
Proof. solve_decision. Defined.

(** [for (i = last; i >= first; i--)] *)
Definition downto (first last : Z) : list Z := reverse (seqZ first (last - first + 1)).

(** The slots when the reaper and the first [ios] I/O threads run; there are [old] I/O threads that are older. *)
Definition table (old : nat) (ios n : Z) : list (option i_mailbox) :=
  [Some term_mailbox; Some reaper_mailbox] ++ map (fun k => Some (io_mailbox k)) (seq old (Z.to_nat ios))
    ++ replicate (Z.to_nat (n - 2 - ios)) None.

(** The reaper and the first [ios] I/O threads run. *)
Definition launch (ios n : Z) : stm world unit :=
  upd (fun c => CtxT (opts c) (starting c) (terminating c) true (io_threads c ++ seqZ 2 ios) n
                     (table (length (io_threads c)) ios n) (empty_slots c) (sockets c)) ;;;
  smod (set_reaper (ReaperT [] 0 false)).

(** [fail_cleanup_slots], and [reaper = NULL] *)
Definition cleanup (n : Z) : stm world unit :=
  upd (fun c => CtxT (opts c) (starting c) (terminating c) false (io_threads c) n [] (empty_slots c) (sockets c)) ;;;
  smod (set_reaper (ReaperT [] 0 false)).

(** [fail_cleanup_reaper], when the reaper runs: [delete reaper] waits for the thread, which processes [stop]. *)
Definition cleanup_reaper (n : Z) : stm world unit :=
  reaper_stop ;;; in_event false ;;; cleanup n.

(** A reaper without a mailbox is not sent [stop]. *)
Definition start (r : started) : stm world (option errno) :=
  let! c := this in
  let mazmq := max_sockets (opts c) in
  let ios := io_thread_count (opts c) in
  let n := mazmq + ios + 2 in
  let success :=
    launch ios n ;;;
    upd (fun c => CtxT (opts c) false (terminating c) (reaper c) (io_threads c) (slot_count c) (slots c)
                       (empty_slots c ++ downto (ios + 2) (n - 1)) (sockets c)) ;;;
    sret None in
  match r with
  | Started => success
  | NoSlots => cleanup n ;;; sret (Some ENOMEM)
  | NoReaper => cleanup n ;;; sret (Some ENOMEM)
  | BadReaper => cleanup n ;;; sret (Some EMFILE)
  | NoIoThread k => if Z.of_nat k <? ios then launch (Z.of_nat k) n ;;; cleanup_reaper n ;;; sret (Some ENOMEM) else success
  | BadIoThread k => if Z.of_nat k <? ios then launch (Z.of_nat k) n ;;; cleanup_reaper n ;;; sret (Some EMFILE) else success
  end.

Definition create_socket (type_ : Z) (r : started) (mailbox : bool) : stm world (errno + nat) :=
  let! c := this in
  let! e := if starting c then start r else sret None in
  match e with
  | Some e => sret (inl e)
  | None => create_started type_ mailbox
  end.

(** *** Termination *)

Fixpoint stop_all (fuel : nat) (i : Z) : stm world unit :=
  let! c := this in
  if i =? Array.size (sockets c) then sret tt
  else
    match fuel with
    | O => scrash
    | S fuel => let! s := slift (Array.get (sockets c) i) in socket_stop s ;;; stop_all fuel (i + 1)
    end.

Definition stop_sockets : stm world unit :=
  let! c := this in
  stop_all (length (Array.items (sockets c))) 0 ;;;
  let! c := this in
  if is_empty (sockets c) then reaper_stop else sret tt.

(** The pending inproc connections: a socket is bound for each, and closed; what the binding does to the
    endpoints is modelled apart, with the connections inside a context. *)
Fixpoint connect_pending (mailboxes : list bool) : stm world unit :=
  match mailboxes with
  | [] => sret tt
  | mailbox :: l =>
      let! s := create_socket 0 Started mailbox in
      match s with
      | inr s => close s ;;; connect_pending l
      | inl _ => scrash
      end
  end.

(** The destructor of ctx_t tells the I/O threads to stop and waits for them.  A command is processed by the thread of
    the slot; when that is another thread the destructor waits for ever, which is [Crash] here. *)
Fixpoint stop_io_threads (tids : list Z) (k : nat) : stm world unit :=
  match tids with
  | [] => sret tt
  | t :: tids =>
      let! m := slot t in
      sassert (if m is io_mailbox k' then bool_decide (k' = k) else false) ;;;
      stop_io_threads tids (S k)
  end.

Definition delete_ctx : stm world unit :=
  let! c := this in
  sassert (is_empty (sockets c)) ;;;
  stop_io_threads (io_threads c) 0 ;;;
  smod (set_ctx None).

(** [terminate] up to the wait: whether there is something to wait for.  [mailboxes] has, for every
    pending connection, whether the system had a mailbox for its socket. *)
Definition terminate_begin (mailboxes : list bool) : stm world bool :=
  let! c := this in
  let saveTerminating := terminating c in
  upd (with_terminating false) ;;;
  connect_pending mailboxes ;;;
  upd (with_terminating saveTerminating) ;;;
  let! c := this in
  if negb (starting c) then
    let restarted := terminating c in
    upd (with_terminating true) ;;;
    (if negb restarted then stop_sockets else sret tt) ;;;
    sret true
  else delete_ctx ;;; sret false.

(** [term_mailbox.recv] gives [done]; an interrupted call of [terminate] ends before. *)
Definition terminate_end : stm world unit :=
  let! w := sget in
  match dones w with
  | O => scrash
  | S n =>
      smod (fun w => World (the_ctx w) (the_reaper w) (heap w) (next_socket w) (max_socket_id w) n) ;;;
      let! c := this in
      sassert (is_empty (sockets c)) ;;;
      delete_ctx
  end.

Definition shutdown : stm world unit :=
  let! c := this in
  if negb (starting c) && negb (terminating c) then upd (with_terminating true) ;;; stop_sockets
  else sret tt.

(** *** I/O threads *)

(** The loop of [choose_io_thread], on the loads of the threads. *)
Fixpoint choose_from (loads : list Z) (i : Z) (affinity_ : Z) (best : option (Z * Z)) : option Z :=
  match loads with
  | [] => fst <$> best
  | load :: loads =>
      let best :=
        if (affinity_ =? 0) || negb (Z.land affinity_ (u64 (Z.shiftl 1 i)) =? 0) then
          match best with
          | None => Some (i, load)
          | Some (_, min_load) => if load <? min_load then Some (i, load) else best
          end
        else best in
      choose_from loads (i + 1) affinity_ best
  end.

Definition choose_io_thread (loads : list Z) (affinity_ : Z) : option Z := choose_from loads 0 affinity_ None.

(** ** Runs *)

(** The options whose table of slots an [int] can count. *)
Definition ok_options (o : options) : Prop :=
  1 <= max_sockets o /\ 0 <= io_thread_count o /\ max_sockets o + io_thread_count o + 2 < 2 ^ 31.

(** The system gives a context all of its I/O threads; [refused_io_thread_spoils] shows what follows when it does not. *)
Definition gives_io_threads (r : started) : Prop :=
  match r with NoIoThread _ | BadIoThread _ => False | _ => True end.

(** One call, or one command of the reaper; [Finish] is the event in which a socket that the reaper polls
    terminates.  A call that the application makes uses a context that exists, and a socket of its own; a
    pending connection has a socket, which is not deallocated before the connection is made; the reaper
    has less than 2^31 sockets at a time. *)
Inductive step (w w' : world) : Prop :=
| SetOption option_ optval_ max_fds c e :
    the_ctx w = Some c -> ok_options (set max_fds option_ optval_ (opts c)).1 ->
    (set max_fds option_ optval_ (opts c)).2 = e ->
    upd (with_opts (set max_fds option_ optval_ (opts c)).1) w = Done (w', tt) -> step w w'
| Create type_ r mailbox res : gives_io_threads r -> create_socket type_ r mailbox w = Done (w', res) -> step w w'
| Close s x : heap w !! s = Some x -> socket_phase x = Used -> close s w = Done (w', tt) -> step w w'
| Shutdown : shutdown w = Done (w', tt) -> step w w'
| Terminate mailboxes wait c :
    the_ctx w = Some c -> (mailboxes <> [] -> Array.items (sockets c) <> []) ->
    terminate_begin mailboxes w = Done (w', wait) -> step w w'
| TerminateEnd : dones w <> 0%nat -> terminate_end w = Done (w', tt) -> step w w'
| Event destroyed : reaper_mail (the_reaper w) <> [] -> reaper_sockets (the_reaper w) < 2 ^ 31 - 1 -> in_event destroyed w = Done (w', tt) -> step w w'
| Finish s x : heap w !! s = Some x -> socket_phase x = Reaping ->
    check_destroy true s w = Done (w', tt) -> step w w'.

Definition reachable (max_fds : Z) (w : world) : Prop := rtc step (world_new max_fds) w.

(** ** The invariant *)

Definition sockets_in (p : phase) (w : world) : gmap nat socket := filter (fun x => socket_phase x.2 = p) (heap w).
Definition count_of (c : command) (l : list command) : nat := length (filter (fun d => d = c) l).
Definition reaps (l : list command) : list nat := omap (fun d => if d is reap s then Some s else None) l.

(** The slots for sockets. *)
Definition for_socket (m : option i_mailbox) : bool :=
  match m with None | Some (socket_mailbox _) => true | _ => false end.
Definition capacity (c : ctx_t) : nat := length (filter (fun m => for_socket m = true) (slots c)).

(** The slots: those of the term mailbox, the reaper and the I/O threads come first; every other is
    empty and free, or the mailbox of one socket. *)
Record slots_ok (w : world) (c : ctx_t) : Prop := {
  so_array : Array.ok (sockets c);
  so_sockets : forall s, s ∈ Array.items (sockets c) <-> is_Some (heap w !! s);
  so_next : forall s, is_Some (heap w !! s) -> (s < next_socket w)%nat;
  so_small : slot_count c < 2 ^ 31;
  so_length : Z.of_nat (length (slots c)) = slot_count c;
  so_count : (length (empty_slots c) + size (heap w))%nat = capacity c;
  so_term : slots c !! 0%nat = Some (Some term_mailbox);
  so_reaper : slots c !! 1%nat = Some (Some reaper_mailbox);
  so_io : forall k t, io_threads c !! k = Some t -> 2 <= t /\ slots c !! Z.to_nat t = Some (Some (io_mailbox k));
  so_nodup : NoDup (empty_slots c);
  so_empty : forall t, t ∈ empty_slots c -> 2 <= t < slot_count c /\ slots c !! Z.to_nat t = Some None;
  so_used : forall s x, heap w !! s = Some x ->
    2 <= socket_tid x < slot_count c /\ slots c !! Z.to_nat (socket_tid x) = Some (Some (socket_mailbox s))
}.

(** The commands of the reaper and its counter, which is [k] behind, follow the phases of the sockets. *)
Record reaper_ok (k : Z) (w : world) : Prop := {
  ro_nodup : NoDup (reaps (reaper_mail (the_reaper w)));
  ro_reaps : forall s, s ∈ reaps (reaper_mail (the_reaper w))
    <-> exists x, heap w !! s = Some x /\ socket_phase x = Closed;
  ro_sockets : reaper_sockets (the_reaper w) + k
    = Z.of_nat (size (sockets_in Reaping w) + count_of reaped (reaper_mail (the_reaper w)))
}.

Definition b2n (b : bool) : nat := if b then 1 else 0.

(** The reaper is asked to stop once, when the context is terminating and its last socket has gone; it
    says that it is done once, when it has processed that and reaped every socket. *)
Record term_ok (w : world) (c : ctx_t) : Prop := {
  to_stop : (count_of stop (reaper_mail (the_reaper w)) + b2n (reaper_terminating (the_reaper w))
    = b2n (terminating c && is_empty (sockets c)))%nat;
  to_done : dones w = b2n (reaper_terminating (the_reaper w) && (reaper_sockets (the_reaper w) =? 0));
  to_stops : forall s x, heap w !! s = Some x -> (stops x <= 1)%nat;
  to_used : terminating c = true -> forall s x, heap w !! s = Some x -> socket_phase x = Used -> stops x = 1%nat;
  to_none : terminating c = false -> forall s x, heap w !! s = Some x -> stops x = 0%nat
}.

(** A context is new, or has started. *)
Definition fresh (w : world) (c : ctx_t) : Prop :=
  starting c = true /\ terminating c = false /\ io_threads c = [] /\ empty_slots c = [] /\ sockets c = Array.empty
  /\ the_reaper w = ReaperT [] 0 false /\ heap w = ∅ /\ dones w = 0%nat.

Definition running (w : world) (c : ctx_t) : Prop :=
  starting c = false /\ reaper c = true /\ slots_ok w c /\ reaper_ok 0 w /\ term_ok w c.

Definition inv (w : world) : Prop :=
  match the_ctx w with
  | Some c => ok_options (opts c) /\ (fresh w c \/ running w c)
  | None => heap w = ∅ /\ reaper_mail (the_reaper w) = []
  end.

(** ** Lemmas on the parts of the state *)
Lemma capacity_insert (l : list (option i_mailbox)) i x y :
  l !! i = Some x -> for_socket x = true -> for_socket y = true ->
  length (filter (fun m => for_socket m = true) (<[i := y]> l)) = length (filter (fun m => for_socket m = true) l).
Proof.
  intros Hi Hx Hy. pose proof (take_drop_middle l i x Hi) as E. rewrite <- E at 2.
  rewrite insert_take_drop by (by eapply lookup_lt_Some).
  rewrite !filter_app, !filter_cons, !decide_True by done. by rewrite !length_app.
Qed.

Lemma is_empty_spec a : is_empty a = true <-> Array.items a = [].
Proof.
  unfold is_empty, Array.size. rewrite Z.eqb_eq. destruct (Array.items a); simpl; [done|]. split; [lia|done].
Qed.

(** What a field of the world depends on. *)
Lemma slots_ok_ext w w' c :
  heap w' = heap w -> (next_socket w <= next_socket w')%nat -> slots_ok w c -> slots_ok w' c.
Proof.
  intros Hh Hn Hs. destruct Hs as [a b d e f g h i io j k l]. split; rewrite ?Hh; try done.
  intros s Hs. specialize (d s Hs). lia.
Qed.

(** Phases and stops do not matter to the slots. *)
Lemma slots_ok_insert w w' c s x y :
  heap w !! s = Some x -> socket_tid y = socket_tid x -> heap w' = <[s := y]> (heap w) ->
  next_socket w' = next_socket w -> slots_ok w c -> slots_ok w' c.
Proof.
  intros Hx Ht Hh Hn [a b d e f g h i io j k l].
  assert (Hdom : forall q, is_Some (<[s := y]> (heap w) !! q) <-> is_Some (heap w !! q)).
  { intros q. destruct (decide (q = s)) as [->|]; [rewrite lookup_insert_eq, Hx; by split; eexists|].
    by rewrite lookup_insert_ne by congruence. }
  split; rewrite ?Hh, ?Hn; try done.
  - intros q. by rewrite Hdom.
  - intros q. rewrite Hdom. apply d.
  - rewrite map_size_insert_Some; [done|by eexists].
  - intros q z. destruct (decide (q = s)) as [->|]; [|rewrite lookup_insert_ne by congruence; apply l].
    rewrite lookup_insert_eq. intros [= <-]. rewrite Ht. by apply l.
Qed.

Lemma slots_ok_terminating w b c : slots_ok w (with_terminating b c) <-> slots_ok w c.
Proof. split; intros [a b' d e f g h i io j k l]; split; done. Qed.

Lemma slots_ok_options w o c : slots_ok w (with_opts o c) <-> slots_ok w c.
Proof. split; intros [a b' d e f g h i io j k l]; split; done. Qed.

Lemma count_app c l1 l2 : count_of c (l1 ++ l2) = (count_of c l1 + count_of c l2)%nat.
Proof. unfold count_of. by rewrite filter_app, length_app. Qed.

Lemma count_cons c d l : count_of c (d :: l) = ((if decide (d = c) then 1 else 0) + count_of c l)%nat.
Proof. unfold count_of. rewrite filter_cons. by destruct (decide (d = c)). Qed.

Lemma count_snoc c d l : count_of c (l ++ [d]) = (count_of c l + if decide (d = c) then 1 else 0)%nat.
Proof. rewrite count_app, count_cons. replace (count_of c []) with 0%nat by done. lia. Qed.

Lemma reaps_app l1 l2 : reaps (l1 ++ l2) = reaps l1 ++ reaps l2.
Proof. unfold reaps. apply omap_app. Qed.

(** The number of sockets in a phase, when one changes. *)
Lemma sockets_in_insert p h s x :
  filter (fun z => socket_phase z.2 = p) (<[s := x]> h)
  = if decide (socket_phase x = p) then <[s := x]> (filter (fun z => socket_phase z.2 = p) h)
    else delete s (filter (fun z => socket_phase z.2 = p) h : gmap nat socket).
Proof.
  destruct (decide (socket_phase x = p)) as [E|E].
  - by rewrite map_filter_insert_True.
  - rewrite map_filter_insert_False by done. by rewrite map_filter_delete.
Qed.

Lemma sockets_in_lookup p (h : gmap nat socket) s x :
  filter (fun z => socket_phase z.2 = p) h !! s = Some x <-> h !! s = Some x /\ socket_phase x = p.
Proof. by rewrite map_lookup_filter_Some. Qed.

Lemma size_phase_insert p (h : gmap nat socket) s x y :
  h !! s = Some x ->
  (size (filter (fun z => socket_phase z.2 = p) (<[s := y]> h)) + (if decide (socket_phase x = p) then 1 else 0)
   = size (filter (fun z => socket_phase z.2 = p) h) + (if decide (socket_phase y = p) then 1 else 0))%nat.
Proof.
  intros Hx. set (f := filter (fun z => socket_phase z.2 = p) h).
  assert (Hin : socket_phase x = p -> f !! s = Some x) by (intros; by apply sockets_in_lookup).
  assert (Hout : socket_phase x <> p -> f !! s = None).
  { intros Hn. apply map_lookup_filter_None. right. intros z Hz E. simpl in E. congruence. }
  rewrite sockets_in_insert. fold f.
  destruct (decide (socket_phase y = p)), (decide (socket_phase x = p)) as [E|E].
  - rewrite map_size_insert_Some by (eexists; by apply Hin). lia.
  - rewrite map_size_insert_None by (by apply Hout). lia.
  - rewrite map_size_delete_Some by (eexists; by apply Hin).
    assert (size f <> 0)%nat; [|lia]. intros Hz%map_size_empty_inv. by rewrite Hz in Hin; specialize (Hin E).
  - rewrite map_size_delete_None by (by apply Hout). lia.
Qed.

Lemma size_phase_delete p (h : gmap nat socket) s x :
  h !! s = Some x ->
  (size (filter (fun z => socket_phase z.2 = p) (delete s h)) + (if decide (socket_phase x = p) then 1 else 0)
   = size (filter (fun z => socket_phase z.2 = p) h))%nat.
Proof.
  intros Hx. rewrite map_filter_delete. set (f := filter (fun z => socket_phase z.2 = p) h).
  destruct (decide (socket_phase x = p)) as [E|E].
  - assert (Hin : f !! s = Some x) by (by apply sockets_in_lookup).
    rewrite map_size_delete_Some by (by eexists).
    assert (size f <> 0)%nat; [|lia]. intros Hz%map_size_empty_inv. by rewrite Hz in Hin.
  - rewrite map_size_delete_None; [lia|]. apply map_lookup_filter_None. right. intros z Hz E'. simpl in E'. congruence.
Qed.

(** ** Creating sockets *)

(** [push_back] to the reaper's mailbox. *)
Definition push (cmd : command) (w : world) : world :=
  set_reaper (ReaperT (reaper_mail (the_reaper w) ++ [cmd]) (reaper_sockets (the_reaper w))
                      (reaper_terminating (the_reaper w))) w.

Lemma send_reaper w c cmd :
  the_ctx w = Some c -> slots_ok w c -> send_command reaper_tid cmd w = Done (push cmd w, tt).
Proof.
  intros Hc Hs. unfold send_command, slot, sbind, this, slift. rewrite Hc. simpl.
  rewrite (nth_z_done _ reaper_tid (Some reaper_mailbox)); [done|done|apply Hs].
Qed.

Lemma downto_spec ios n t :
  0 <= ios -> t ∈ downto (ios + 2) (n - 1) <-> ios + 2 <= t < n.
Proof. intros Hi. unfold downto. rewrite elem_of_reverse, elem_of_seqZ. lia. Qed.

Lemma fresh_table ios mazmq :
  0 <= ios -> 1 <= mazmq ->
  let l := table 0 ios (mazmq + ios + 2) in
  Z.of_nat (length l) = mazmq + ios + 2
  /\ length (filter (fun m => for_socket m = true) l) = Z.to_nat mazmq
  /\ (forall t, ios + 2 <= t < mazmq + ios + 2 -> l !! Z.to_nat t = Some None)
  /\ forall k, (k < Z.to_nat ios)%nat -> l !! (2 + k)%nat = Some (Some (io_mailbox k)).
Proof.
  intros Hi Hm l.
  assert (Hlen : length (map (fun k => Some (io_mailbox k)) (seq 0 (Z.to_nat ios))) = Z.to_nat ios).
  { by rewrite length_map, length_seq. }
  unfold l, table. replace (mazmq + ios + 2 - 2 - ios) with mazmq by lia. clear l.
  split_and!.
  - rewrite !length_app, Hlen, length_replicate. simpl. lia.
  - rewrite !filter_app.
    assert (forall k : list nat, filter (fun m => for_socket m = true) (map (fun i => Some (io_mailbox i)) k) = []) as ->.
    { induction k as [|x k IH]; [done|]. simpl. rewrite filter_cons, decide_False by done. done. }
    simpl.
    generalize (Z.to_nat mazmq). intros n. induction n as [|n IH]; [done|]. simpl.
    by rewrite IH.
  - intros t Ht. rewrite lookup_app_r by (simpl; lia). simpl length.
    rewrite lookup_app_r by (rewrite Hlen; lia). rewrite Hlen. apply lookup_replicate_2.
    lia.
  - intros k Hk. rewrite lookup_app_r by (simpl; lia). simpl length. replace (2 + k - 2)%nat with k by lia.
    rewrite lookup_app_l by (rewrite Hlen; lia). rewrite list_lookup_fmap, lookup_seq_lt by lia. done.
Qed.

Definition start_world (w : world) (c : ctx_t) : world :=
  let mazmq := max_sockets (opts c) in
  let ios := io_thread_count (opts c) in
  let n := mazmq + ios + 2 in
  set_reaper (ReaperT [] 0 false)
    (set_ctx (Some (CtxT (opts c) false (terminating c) true (io_threads c ++ seqZ 2 ios) n (table (length (io_threads c)) ios n)
                         (empty_slots c ++ downto (ios + 2) (n - 1)) (sockets c))) w).

(** The error of [start]. *)
Definition start_error (ios : Z) (r : started) : option errno :=
  match r with
  | Started => None
  | NoSlots | NoReaper => Some ENOMEM
  | BadReaper => Some EMFILE
  | NoIoThread k => if Z.of_nat k <? ios then Some ENOMEM else None
  | BadIoThread k => if Z.of_nat k <? ios then Some EMFILE else None
  end.

Lemma ctx_start_done w c r :
  the_ctx w = Some c -> start_error (io_thread_count (opts c)) r = None -> start r w = Done (start_world w c, None).
Proof.
  intros Hc Hr. unfold start, start_world, launch. unfold sbind at 1, this at 1. rewrite Hc. cbn [obind deref].
  destruct r as [| | | |k|k]; simpl in Hr; try done; try (destruct (Z.of_nat k <? io_thread_count (opts c)); [done|]);
    unfold sbind, upd, smod; rewrite Hc; cbn; by rewrite ?Hc.
Qed.

Lemma start_runs w c :
  the_ctx w = Some c -> fresh w c -> ok_options (opts c) ->
  exists c', the_ctx (start_world w c) = Some c' /\ running (start_world w c) c' /\ opts c' = opts c
    /\ terminating c' = false /\ capacity c' = Z.to_nat (max_sockets (opts c)).
Proof.
  intros Hc (Hst & Hte & Hio & Hem & Hso & Hre & Hh & Hd) (Hm & Hi & Hs).
  destruct (fresh_table _ _ Hi Hm) as (Hl1 & Hl2 & Hl3 & Hl4).
  eexists. split; [reflexivity|]. split; [|split; [done|split; [done|]]].
  2:{ unfold capacity. cbn [slots]. rewrite Hio. exact Hl2. }
  split; [done|]. split; [done|]. split; [|split].
  - unfold start_world, set_reaper, set_ctx. split; cbn [sockets slots empty_slots slot_count heap next_socket the_ctx io_threads];
      rewrite ?Hso, ?Hh, ?Hem, ?Hio.
    + apply Array.ok_empty.
    + intros s. rewrite lookup_empty. simpl. split; [by intros ?%not_elem_of_nil|by intros [? ?]].
    + intros s. rewrite lookup_empty. by intros [? ?].
    + lia.
    + exact Hl1.
    + unfold capacity. cbn [slots length]. rewrite Hl2, map_size_empty. simpl. unfold downto.
      rewrite length_reverse, length_seqZ. lia.
    + done.
    + done.
    + intros k t. simpl app. intros [-> Hk]%lookup_seqZ. split; [lia|]. replace (Z.to_nat (2 + Z.of_nat k)) with (2 + k)%nat by lia.
      apply Hl4. lia.
    + simpl. unfold downto. rewrite reverse_Permutation. apply NoDup_seqZ.
    + intros t. simpl app. rewrite downto_spec by done. intros Ht. split; [lia|]. apply Hl3. lia.
    + intros s x. by rewrite lookup_empty.
  - split; cbn; rewrite ?Hh; [constructor|..].
    + intros s. setoid_rewrite lookup_empty. split; [by intros ?%not_elem_of_nil|by intros (? & ? & _)].
    + unfold sockets_in; cbn. by rewrite Hh.
  - split; cbn; rewrite ?Hte, ?Hd; try done; rewrite Hh; intros s x; by rewrite lookup_empty.
Qed.

(** A context that could not start, whatever the system refused; the reaper leaves its [done] if it ran. *)
Definition not_started (w : world) (c : ctx_t) (tids : list Z) (n : nat) : world :=
  World (Some (CtxT (opts c) (starting c) (terminating c) false tids
                    (max_sockets (opts c) + io_thread_count (opts c) + 2) [] (empty_slots c) (sockets c)))
        (ReaperT [] 0 false) (heap w) (next_socket w) (max_socket_id w) n.

Lemma launch_cleanup w c ios n (e : errno) :
  the_ctx w = Some c -> 0 <= ios -> n = max_sockets (opts c) + io_thread_count (opts c) + 2 ->
  (launch ios n ;;; cleanup_reaper n ;;; sret (Some e)) w
    = Done (not_started w c (io_threads c ++ seqZ 2 ios) (S (dones w)), Some e).
Proof.
  intros Hc Hi ->. unfold launch, cleanup_reaper, cleanup, reaper_stop, send_command, slot, sbind, this, upd, smod, slift, sassert.
  rewrite Hc. done.
Qed.

Lemma start_fails w c r e :
  the_ctx w = Some c -> start_error (io_thread_count (opts c)) r = Some e ->
  start r w = Done (not_started w c
    match r with NoIoThread k | BadIoThread k => io_threads c ++ seqZ 2 (Z.of_nat k) | _ => io_threads c end
    match r with NoIoThread _ | BadIoThread _ => S (dones w) | _ => dones w end, Some e).
Proof.
  intros Hc He. unfold start. unfold sbind at 1, this at 1. rewrite Hc. cbn [obind deref].
  destruct r as [| | | |k|k]; simpl in He; try done; try (destruct (Z.of_nat k <? io_thread_count (opts c)); [|done]);
    injection He as <-; try (apply launch_cleanup; [done|lia|done]);
    unfold cleanup, sbind, upd, smod; rewrite Hc; done.
Qed.

Lemma not_started_fresh w c n :
  fresh w c -> fresh (not_started w c (io_threads c) (dones w))
    (CtxT (opts c) (starting c) (terminating c) false (io_threads c) n [] (empty_slots c) (sockets c)).
Proof. intros (Hst & Hte & Hio & Hem & Hso & Hre & Hh & Hd). by split_and!. Qed.

Lemma removelast_last_of (l : list Z) t : last l = Some t -> removelast l ++ [t] = l.
Proof.
  intros [k ->]%last_Some. by rewrite removelast_last.
Qed.

(** The context with a new socket in slot [t]. *)
Definition created (w : world) (c : ctx_t) (t : Z) : world :=
  let s := next_socket w in
  World (Some (with_slots (<[Z.to_nat t := Some (socket_mailbox s)]> (slots c)) (removelast (empty_slots c))
                          (Array.push_back (sockets c) s) c))
        (the_reaper w) (<[s := Socket t (i32 (max_socket_id w) + 1) Used 0]> (heap w)) (S s)
        (u32 (max_socket_id w + 1)) (dones w).

Definition numbered (w : world) : world :=
  World (the_ctx w) (the_reaper w) (heap w) (next_socket w) (u32 (max_socket_id w + 1)) (dones w).

Definition create_error (type_ : Z) : errno := if known_type type_ then EMFILE else EINVAL.

Lemma create_socket_started w c type_ r mailbox :
  the_ctx w = Some c -> starting c = false -> create_socket type_ r mailbox w = create_started type_ mailbox w.
Proof. intros Hc Hst. unfold create_socket, sbind, this. rewrite Hc. cbn [obind deref]. by rewrite Hst. Qed.

Lemma create_terminating w c type_ r mailbox :
  the_ctx w = Some c -> starting c = false -> terminating c = true ->
  create_socket type_ r mailbox w = Done (w, inl ETERM).
Proof.
  intros Hc Hst Ht. rewrite (create_socket_started w c) by done. unfold create_started, sbind, this. rewrite Hc. cbn.
  by rewrite Ht.
Qed.

Lemma create_full w c type_ r mailbox :
  the_ctx w = Some c -> starting c = false -> terminating c = false -> empty_slots c = [] ->
  create_socket type_ r mailbox w = Done (w, inl EMFILE).
Proof.
  intros Hc Hst Ht He. rewrite (create_socket_started w c) by done. unfold create_started, sbind, this. rewrite Hc. cbn.
  by rewrite Ht, He.
Qed.

Lemma create_refused w c type_ r mailbox :
  the_ctx w = Some c -> starting c = false -> terminating c = false -> empty_slots c <> [] ->
  known_type type_ && mailbox = false ->
  create_socket type_ r mailbox w = Done (numbered w, inl (create_error type_)).
Proof.
  intros Hc Hst Ht He Hk. rewrite (create_socket_started w c) by done.
  unfold create_started, pop_slot, next_id, sbind, this, slift, upd. rewrite Hc. cbn. rewrite Ht, bool_decide_eq_false_2 by done. cbn. rewrite Hc. cbn.
  destruct (last (empty_slots c)) as [t|] eqn:El; [|by apply last_None in El]. cbn. rewrite Hc. cbn. rewrite Hk. cbn.
  unfold set_ctx; cbn. unfold numbered, create_error. rewrite Hc. do 3 f_equal. destruct c; unfold with_slots; cbn in *.
  by rewrite removelast_last_of.
Qed.

Lemma create_makes w c type_ r mailbox :
  the_ctx w = Some c -> slots_ok w c -> starting c = false -> terminating c = false -> empty_slots c <> [] ->
  known_type type_ && mailbox = true ->
  exists t, last (empty_slots c) = Some t /\ create_socket type_ r mailbox w = Done (created w c t, inr (next_socket w)).
Proof.
  intros Hc Hs Hst Ht He Hk.
  destruct (last (empty_slots c)) as [t|] eqn:El; [|by apply last_None in El]. exists t. split; [done|].
  destruct (so_empty _ _ Hs t) as [Hr _]; [apply last_Some in El as [k ->]; apply elem_of_app; right; constructor|].
  rewrite (create_socket_started w c) by done.
  unfold create_started, pop_slot, next_id, new_socket, sbind, this, slift, upd. rewrite Hc. cbn. rewrite Ht, bool_decide_eq_false_2 by done. cbn. rewrite Hc. cbn.
  rewrite El. cbn. rewrite Hc. cbn. rewrite Hk. cbn.
  rewrite set_z_done by (rewrite (so_length _ _ Hs); lia). done.
Qed.

Lemma fresh_socket w c : slots_ok w c -> heap w !! next_socket w = None.
Proof.
  intros Hs. apply eq_None_not_Some. intros Hx. pose proof (so_next _ _ Hs _ Hx). lia.
Qed.

Lemma size_heap w c : slots_ok w c -> size (heap w) = length (Array.items (sockets c)).
Proof.
  intros Hs. rewrite <- size_dom. rewrite <- (size_list_to_set (C := gset nat) (Array.items (sockets c)));
    [|apply Array.ok_nodup, Hs]. f_equal. apply set_eq. intros s.
  by rewrite elem_of_dom, elem_of_list_to_set, (so_sockets _ _ Hs).
Qed.

Lemma capacity_small w c : slots_ok w c -> Z.of_nat (length (empty_slots c) + size (heap w)) < 2 ^ 31.
Proof.
  intros Hs. rewrite (so_count _ _ Hs). pose proof (length_filter (fun m => for_socket m = true) (slots c)).
  pose proof (so_length _ _ Hs). pose proof (so_small _ _ Hs). unfold capacity. lia.
Qed.

Lemma created_slots w c t :
  slots_ok w c -> last (empty_slots c) = Some t ->
  slots_ok (created w c t) (with_slots (<[Z.to_nat t := Some (socket_mailbox (next_socket w))]> (slots c))
    (removelast (empty_slots c)) (Array.push_back (sockets c) (next_socket w)) c).
Proof.
  intros Hs El. pose proof (fresh_socket w c Hs) as Hf. set (s := next_socket w) in *.
  assert (Hns : s ∉ Array.items (sockets c)) by (rewrite (so_sockets _ _ Hs), Hf; by intros [? ?]).
  pose proof (removelast_last_of _ _ El) as Erl.
  destruct (so_empty _ _ Hs t) as [Hr Ht]; [rewrite <- Erl; apply elem_of_app; right; constructor|].
  pose proof (so_nodup _ _ Hs) as Hnd. rewrite <- Erl in Hnd. apply NoDup_app in Hnd as (Hnd & Hdis & _).
  assert (Hlt : (Z.to_nat t < length (slots c))%nat) by (pose proof (so_length _ _ Hs); lia).
  split; cbn [sockets slots empty_slots slot_count with_slots heap next_socket created]; fold s.
  - apply Array.push_back_ok; [apply Hs|done|]. unfold Array.size. rewrite <- (size_heap w c Hs).
    pose proof (capacity_small w c Hs) as Hc. rewrite <- Erl, length_app in Hc. simpl in Hc. lia.
  - intros q. cbn [Array.items Array.push_back]. rewrite elem_of_app, list_elem_of_singleton, (so_sockets _ _ Hs).
    destruct (decide (q = s)) as [->|]; [rewrite lookup_insert_eq; by split; [eexists|right]|].
    rewrite lookup_insert_ne by congruence. tauto.
  - intros q. destruct (decide (q = s)) as [->|]; [lia|]. rewrite lookup_insert_ne by congruence.
    intros Hq%(so_next _ _ Hs). fold s in Hq. lia.
  - apply Hs.
  - rewrite length_insert. apply Hs.
  - unfold capacity. cbn [slots with_slots]. rewrite (capacity_insert _ _ None) by done.
    fold (capacity c). rewrite <- (so_count _ _ Hs), map_size_insert_None by done. rewrite <- Erl at 2.
    rewrite length_app. simpl. lia.
  - rewrite list_lookup_insert_ne by lia. apply Hs.
  - rewrite list_lookup_insert_ne by lia. apply Hs.
  - intros k t' Hk. destruct (so_io _ _ Hs k t' Hk) as [? Hio]. split; [done|]. rewrite list_lookup_insert_ne; [done|].
    intros E. congruence.
  - done.
  - intros t' Ht'. destruct (so_empty _ _ Hs t') as [Hr' He'].
    { rewrite <- Erl. apply elem_of_app. by left. }
    split; [done|]. rewrite list_lookup_insert_ne; [done|].
    intros E. assert (t = t') as -> by lia. apply (Hdis t' Ht'). constructor.
  - intros q x. destruct (decide (q = s)) as [->|].
    + rewrite lookup_insert_eq. intros [= <-]. cbn. split; [done|]. by apply list_lookup_insert_eq.
    + rewrite lookup_insert_ne by congruence. intros Hx. destruct (so_used _ _ Hs q x Hx) as [Hr' Hu].
      split; [done|]. rewrite list_lookup_insert_ne; [done|]. intros E. rewrite <- E, Ht in Hu. done.
Qed.

(** The options, and the number of slots for sockets, do not change. *)
Definition kept (c c' : ctx_t) : Prop := opts c' = opts c /\ capacity c' = capacity c.

#[local] Instance kept_preorder : PreOrder kept.
Proof. split; [by split|]. intros x y z [? ?] [? ?]. split; congruence. Qed.

Lemma kept_created w c t l a s :
  slots_ok w c -> last (empty_slots c) = Some t ->
  kept c (with_slots (<[Z.to_nat t := Some (socket_mailbox s)]> (slots c)) l a c).
Proof.
  intros Hs El. split; [done|]. unfold capacity. cbn [slots with_slots].
  rewrite (capacity_insert _ _ None); [done| |done|done].
  apply (so_empty _ _ Hs). rewrite <- (removelast_last_of _ _ El). apply elem_of_app; right; constructor.
Qed.

(** A socket that is new is used. *)
Lemma created_running w c t :
  running w c -> terminating c = false -> last (empty_slots c) = Some t ->
  exists c', the_ctx (created w c t) = Some c' /\ running (created w c t) c' /\ kept c c'
    /\ terminating c' = false.
Proof.
  intros (Hst & Hre & Hs & Hr & Ht) Hte El. pose proof (fresh_socket w c Hs) as Hf.
  eexists. split; [reflexivity|]. split; [|split; [by apply (kept_created w)|done]].
  split; [done|]. split; [done|]. split; [by apply created_slots|]. split.
  - destruct Hr as [Hnd Hrp Hsk]. split; cbn [created the_reaper heap]; [done|..].
    + intros s. rewrite Hrp. split.
      * intros (x & Hx & Hp). exists x. rewrite lookup_insert_ne; [done|]. by intros E; rewrite E, Hx in Hf.
      * intros (x & Hx & Hp). destruct (decide (s = next_socket w)) as [->|].
        { rewrite lookup_insert_eq in Hx. by injection Hx as <-. }
        rewrite lookup_insert_ne in Hx by congruence. by exists x.
    + rewrite Hsk. do 2 f_equal. unfold sockets_in, created. cbn [heap]. rewrite map_filter_insert_False by done.
      by rewrite delete_id.
  - destruct Ht as [a b d e f]. split; cbn [created the_reaper heap dones with_slots terminating]; rewrite Hte in *.
    + exact a.
    + exact b.
    + intros s x. destruct (decide (s = next_socket w)) as [->|].
      * rewrite lookup_insert_eq. intros [= <-]. cbn. lia.
      * rewrite lookup_insert_ne by congruence. apply d.
    + done.
    + intros _ s x. destruct (decide (s = next_socket w)) as [->|].
      * rewrite lookup_insert_eq. by intros [= <-].
      * rewrite lookup_insert_ne by congruence. by apply f.
Qed.

(** ** Closing and destroying sockets *)
Lemma close_done w c s x :
  the_ctx w = Some c -> slots_ok w c -> reaper c = true -> heap w !! s = Some x ->
  close s w = Done (push (reap s) (set_heap (<[s := Socket (socket_tid x) (socket_id x) Closed (stops x)]> (heap w)) w), tt).
Proof.
  intros Hc Hs Hr Hx. unfold close, set_phase, sbind. rewrite Hx. cbn. unfold this, sassert. cbn. rewrite Hc. cbn. rewrite Hr.
  set (w1 := set_heap _ w).
  apply (send_reaper w1 c); [done|]. by apply (slots_ok_insert w w1 c s x (Socket (socket_tid x) (socket_id x) Closed (stops x))).
Qed.

(** The reaper's side of it. *)
Lemma reaper_ok_close k w s x w' :
  reaper_ok k w -> (heap w !! s = None \/ heap w !! s = Some x /\ socket_phase x = Used) ->
  the_reaper w' = ReaperT (reaper_mail (the_reaper w) ++ [reap s]) (reaper_sockets (the_reaper w)) (reaper_terminating (the_reaper w)) ->
  (exists y, socket_phase y = Closed /\ heap w' = <[s := y]> (heap w)) ->
  reaper_ok k w'.
Proof.
  intros [Hnd Hrp Hsk] Hx Er (y & Hy & Eh).
  assert (Hns : s ∉ reaps (reaper_mail (the_reaper w))).
  { rewrite Hrp. intros (z & Hz & Hp). destruct Hx as [Hx|[Hx Hu]]; rewrite Hx in Hz; [done|].
    injection Hz as <-. congruence. }
  split; rewrite Er; cbn [reaper_mail reaper_sockets].
  - rewrite reaps_app. apply NoDup_app. split; [done|]. split; [|apply NoDup_singleton].
    intros q Hq [= ->]%list_elem_of_singleton. done.
  - intros q. rewrite reaps_app, elem_of_app, Hrp, Eh. change (reaps [reap s]) with [s]. rewrite list_elem_of_singleton.
    destruct (decide (q = s)) as [->|Hne].
    + rewrite lookup_insert_eq. split; [intros _; by exists y|by right].
    + rewrite lookup_insert_ne by congruence. tauto.
  - rewrite Hsk, count_snoc, decide_False, Nat.add_0_r by done. do 2 f_equal. unfold sockets_in. rewrite Eh.
    rewrite map_filter_insert_False by (simpl; congruence).
    destruct Hx as [Hx|[Hx Hu]]; [by rewrite delete_id|]. rewrite map_filter_delete, delete_id; [done|].
    apply map_lookup_filter_None. right. intros z Hz E. simpl in E. congruence.
Qed.

Lemma term_ok_close w c s x w' :
  term_ok w c -> heap w !! s = Some x ->
  the_reaper w' = ReaperT (reaper_mail (the_reaper w) ++ [reap s]) (reaper_sockets (the_reaper w)) (reaper_terminating (the_reaper w)) ->
  heap w' = <[s := Socket (socket_tid x) (socket_id x) Closed (stops x)]> (heap w) -> dones w' = dones w ->
  term_ok w' c.
Proof.
  intros [a b d e f] Hx Er Eh Ed. split; rewrite ?Er, ?Eh, ?Ed; cbn [reaper_mail reaper_sockets reaper_terminating].
  - rewrite count_snoc, decide_False by done. rewrite Nat.add_0_r. done.
  - done.
  - intros q y. destruct (decide (q = s)) as [->|].
    + rewrite lookup_insert_eq. intros [= <-]. cbn. by apply (d s).
    + rewrite lookup_insert_ne by congruence. apply d.
  - intros Ht q y. destruct (decide (q = s)) as [->|].
    + rewrite lookup_insert_eq. by intros [= <-].
    + rewrite lookup_insert_ne by congruence. by apply e.
  - intros Ht q y. destruct (decide (q = s)) as [->|].
    + rewrite lookup_insert_eq. intros [= <-]. cbn. by apply (f Ht s).
    + rewrite lookup_insert_ne by congruence. by apply f.
Qed.

Lemma close_running w c s x :
  the_ctx w = Some c -> running w c -> heap w !! s = Some x -> socket_phase x = Used ->
  exists w', close s w = Done (w', tt) /\ the_ctx w' = Some c /\ running w' c.
Proof.
  intros Hc (Hst & Hre & Hs & Hr & Ht) Hx Hp. eexists. split; [exact (close_done w c s x Hc Hs Hre Hx)|]. split; [done|].
  split; [done|]. split; [done|]. split; [|split].
  - by apply (slots_ok_insert w _ c s x (Socket (socket_tid x) (socket_id x) Closed (stops x))).
  - apply (reaper_ok_close 0 w s x); [done|by right|done|]. eexists. split; [|reflexivity]. done.
  - by apply (term_ok_close w c s x).
Qed.

(** The context without a socket. *)
Definition without (c : ctx_t) (t : Z) (a : Array.array) : ctx_t :=
  with_slots (<[Z.to_nat t := None]> (slots c)) (empty_slots c ++ [t]) a c.

Lemma without_slots w c s x a w' :
  slots_ok w c -> heap w !! s = Some x -> Array.erase (sockets c) s = Done a ->
  heap w' = delete s (heap w) -> next_socket w' = next_socket w ->
  slots_ok w' (without c (socket_tid x) a).
Proof.
  intros Hs Hx Ea Eh En. destruct (so_used _ _ Hs s x Hx) as [Hr Hu].
  assert (Hin : s ∈ Array.items (sockets c)) by (apply (so_sockets _ _ Hs); by eexists).
  destruct (Array.erase_ok (sockets c) s (so_array _ _ Hs) Hin) as (a' & Ea' & Hok & Hsz & Hel & _).
  rewrite Ea in Ea'. injection Ea' as <-.
  assert (Hlt : (Z.to_nat (socket_tid x) < length (slots c))%nat) by (pose proof (so_length _ _ Hs); lia).
  assert (Hne : socket_tid x ∉ empty_slots c) by (intros [_ He]%(so_empty _ _ Hs); congruence).
  split; unfold without; cbn [sockets slots empty_slots slot_count with_slots]; rewrite ?Eh, ?En.
  - exact Hok.
  - intros q. rewrite Hel, (so_sockets _ _ Hs). destruct (decide (q = s)) as [->|].
    + rewrite lookup_delete_eq. split; [tauto|by intros [? ?]].
    + rewrite lookup_delete_ne by congruence. tauto.
  - intros q. destruct (decide (q = s)) as [->|]; [rewrite lookup_delete_eq; by intros [? ?]|].
    rewrite lookup_delete_ne by congruence. apply Hs.
  - apply Hs.
  - rewrite length_insert. apply Hs.
  - unfold capacity. cbn [slots with_slots]. rewrite (capacity_insert _ _ _ _ Hu) by done. fold (capacity c).
    rewrite <- (so_count _ _ Hs), map_size_delete_Some, length_app by (by eexists). simpl.
    assert (size (heap w) <> 0)%nat; [|lia]. intros Hz%map_size_empty_inv. by rewrite Hz in Hx.
  - rewrite list_lookup_insert_ne by lia. apply Hs.
  - rewrite list_lookup_insert_ne by lia. apply Hs.
  - intros k t' Hk. destruct (so_io _ _ Hs k t' Hk) as [? Hio]. split; [done|]. rewrite list_lookup_insert_ne; [done|].
    intros E. congruence.
  - apply NoDup_app. split; [apply Hs|]. split; [|apply NoDup_singleton]. by intros t Ht ->%list_elem_of_singleton.
  - intros t [Ht| ->%list_elem_of_singleton]%elem_of_app.
    + destruct (so_empty _ _ Hs t Ht) as [Hr' He]. split; [done|]. rewrite list_lookup_insert_ne; [done|].
      intros E. assert (socket_tid x = t) as E' by lia. by rewrite E' in Hne.
    + split; [done|]. by apply list_lookup_insert_eq.
  - intros q y. destruct (decide (q = s)) as [->|]; [by rewrite lookup_delete_eq|].
    rewrite lookup_delete_ne by congruence. intros Hy. destruct (so_used _ _ Hs q y Hy) as [Hr' Hu']. split; [done|].
    rewrite list_lookup_insert_ne; [done|]. intros E. rewrite <- E, Hu in Hu'. by injection Hu' as <-.
Qed.

Lemma kept_without w c s x a : slots_ok w c -> heap w !! s = Some x -> kept c (without c (socket_tid x) a).
Proof.
  intros Hs Hx. split; [done|]. unfold capacity, without. cbn [slots with_slots].
  rewrite (capacity_insert _ _ (Some (socket_mailbox s))); [done| |done|done]. by apply (so_used _ _ Hs).
Qed.

(** The commands that the destruction of a socket sends to the reaper. *)
Definition last_gone (c : ctx_t) (a : Array.array) : list command :=
  if terminating c && is_empty a then [stop; reaped] else [reaped].

Lemma check_destroy_done w c s x :
  the_ctx w = Some c -> slots_ok w c -> reaper c = true -> heap w !! s = Some x ->
  exists a, Array.erase (sockets c) s = Done a /\
  check_destroy true s w
  = Done (World (Some (without c (socket_tid x) a))
            (ReaperT (reaper_mail (the_reaper w) ++ last_gone c a) (reaper_sockets (the_reaper w)) (reaper_terminating (the_reaper w)))
            (delete s (heap w)) (next_socket w) (max_socket_id w) (dones w), tt).
Proof.
  intros Hc Hs Hr Hx.
  assert (Hin : s ∈ Array.items (sockets c)) by (apply (so_sockets _ _ Hs); by eexists).
  destruct (Array.erase_ok (sockets c) s (so_array _ _ Hs) Hin) as (a & Ea & _). exists a. split; [done|].
  destruct (so_used _ _ Hs s x Hx) as [Hrg Hu].
  unfold check_destroy, destroy_socket. unfold sbind at 1. rewrite Hx. cbn [obind deref].
  unfold sbind at 1, this at 1. rewrite Hc. cbn [obind deref].
  unfold sbind at 1, slift at 1. rewrite set_z_done by (rewrite (so_length _ _ Hs); lia). cbn [obind].
  unfold sbind at 1, slift at 1. rewrite Ea. cbn [obind].
  unfold sbind at 1, upd at 1. rewrite Hc. cbn [obind deref].
  change (with_slots (<[Z.to_nat (socket_tid x) := None]> (slots c)) (empty_slots c ++ [socket_tid x]) a c)
    with (without c (socket_tid x) a).
  set (c1 := without c (socket_tid x) a). set (w1 := set_ctx (Some c1) w).
  assert (Hs1 : slots_ok (set_heap (delete s (heap w)) w1) c1) by (by apply (without_slots w c s x a)).
  assert (Hsend : forall cmd v, the_ctx v = Some c1 -> send_command reaper_tid cmd v = Done (push cmd v, tt)).
  { intros cmd v Hv. unfold send_command, slot, sbind, this, slift. rewrite Hv. cbn [obind deref].
    rewrite (nth_z_done _ reaper_tid (Some reaper_mailbox)); [done|done|apply Hs1]. }
  unfold sbind at 1, this at 1. cbn [the_ctx set_ctx w1 deref obind].
  unfold last_gone. change (terminating c1) with (terminating c). change (sockets c1) with a.
  destruct (terminating c && is_empty a).
  - unfold reaper_stop. unfold sbind at 1, this at 1. cbn [the_ctx set_ctx w1 deref obind].
    unfold sbind at 1, sassert at 1. change (reaper c1) with (reaper c). rewrite Hr. cbn [obind].
    rewrite (Hsend stop w1) by done. cbn [obind].
    unfold sbind at 1, this at 1. cbn. unfold sbind at 1, sassert at 1. cbn. rewrite Hr. cbn.
    unfold sbind at 1. rewrite Hsend by done. cbn. unfold set_heap, smod; cbn. by rewrite <- app_assoc.
  - cbn. unfold sbind at 1, sassert at 1. rewrite Hr. cbn.
    unfold sbind at 1. rewrite Hsend by done. done.
Qed.

(** What is left to do for the reaper. *)
Definition work (w : world) : nat :=
  (4 * size (sockets_in Closed w) + 3 * size (sockets_in Reaping w) + count_of reaped (reaper_mail (the_reaper w))
   + count_of stop (reaper_mail (the_reaper w)))%nat.

Definition none_used (w : world) : Prop := forall s x, heap w !! s = Some x -> socket_phase x <> Used.

(** The reaper has less to do, and no new socket. *)
Definition progress (w w' : world) : Prop := (work w' < work w)%nat /\ (none_used w -> none_used w').

Lemma none_used_delete w s w' : heap w' = delete s (heap w) -> none_used w -> none_used w'.
Proof. intros E Hn q y. rewrite E, lookup_delete_Some. intros [_ Hy]. by apply (Hn q). Qed.

Lemma reaps_last_gone c a : reaps (last_gone c a) = [].
Proof. unfold last_gone. by destruct (_ && _). Qed.

Lemma count_last_gone c a cmd :
  count_of cmd (last_gone c a)
  = ((if decide (reaped = cmd) then 1 else 0) + (if decide (stop = cmd) then b2n (terminating c && is_empty a) else 0))%nat.
Proof.
  unfold last_gone. destruct (_ && _); rewrite ?count_cons; replace (count_of cmd []) with 0%nat by done;
    repeat case_decide; simpl; lia.
Qed.

Lemma reaper_ok_destroy k w s x w' r :
  reaper_ok k w -> heap w !! s = Some x -> socket_phase x = Reaping ->
  the_reaper w' = ReaperT (reaper_mail (the_reaper w) ++ r) (reaper_sockets (the_reaper w)) (reaper_terminating (the_reaper w)) ->
  reaps r = [] -> count_of reaped r = 1%nat -> heap w' = delete s (heap w) -> reaper_ok k w'.
Proof.
  intros [Hnd Hrp Hsk] Hx Hp Er Hr Hc Eh. split; rewrite Er; cbn [reaper_mail reaper_sockets].
  - by rewrite reaps_app, Hr, app_nil_r.
  - intros q. rewrite reaps_app, Hr, app_nil_r, Hrp, Eh. destruct (decide (q = s)) as [->|Hne].
    + rewrite lookup_delete_eq. split; [|by intros (? & ? & _)]. intros (y & Hy & Hpy). rewrite Hx in Hy.
      injection Hy as <-. congruence.
    + by rewrite lookup_delete_ne by congruence.
  - rewrite Hsk, count_app, Hc. unfold sockets_in. rewrite Eh.
    pose proof (size_phase_delete Reaping (heap w) s x Hx) as Hz. rewrite decide_True in Hz by done. lia.
Qed.

Lemma term_ok_destroy w c s x a w' :
  term_ok w c -> slots_ok w c -> heap w !! s = Some x ->
  the_reaper w' = ReaperT (reaper_mail (the_reaper w) ++ last_gone c a) (reaper_sockets (the_reaper w)) (reaper_terminating (the_reaper w)) ->
  heap w' = delete s (heap w) -> dones w' = dones w -> term_ok w' (without c (socket_tid x) a).
Proof.
  intros [ta tb td te tf] Hs Hx Er Eh Ed.
  assert (Hne : is_empty (sockets c) = false).
  { apply not_true_iff_false. rewrite is_empty_spec. intros E.
    assert (Hin : s ∈ Array.items (sockets c)) by (apply (so_sockets _ _ Hs); by eexists). rewrite E in Hin.
    by apply not_elem_of_nil in Hin. }
  rewrite Hne, andb_false_r in ta. cbn [b2n] in ta.
  assert (Hdel : forall (P : socket -> Prop), (forall q y, heap w !! q = Some y -> P y) ->
    forall q y, delete s (heap w) !! q = Some y -> P y).
  { intros P HP q y. rewrite lookup_delete_Some. intros [_ Hy]. by apply (HP q). }
  split; rewrite ?Er, ?Eh, ?Ed; cbn [reaper_mail reaper_sockets reaper_terminating without with_slots terminating sockets].
  - rewrite count_app, count_last_gone, decide_False, decide_True by done. lia.
  - done.
  - by apply Hdel.
  - intros Ht. apply (Hdel (fun y => socket_phase y = Used -> stops y = 1%nat)). by apply te.
  - intros Ht. apply (Hdel (fun y => stops y = 0%nat)). by apply tf.
Qed.

Lemma progress_destroy w c s x a w' :
  heap w !! s = Some x -> socket_phase x = Reaping ->
  reaper_mail (the_reaper w') = reaper_mail (the_reaper w) ++ last_gone c a -> heap w' = delete s (heap w) -> progress w w'.
Proof.
  intros Hx Hp Em Eh. split; [|by apply (none_used_delete w s)].
  unfold work, sockets_in. rewrite Em, Eh, !count_app, !count_last_gone.
  pose proof (size_phase_delete Closed (heap w) s x Hx) as H1. pose proof (size_phase_delete Reaping (heap w) s x Hx) as H2.
  rewrite decide_False in H1 by congruence. rewrite decide_True in H2 by done.
  destruct (terminating c && is_empty a); cbn [b2n]; repeat case_decide; try done; lia.
Qed.

Lemma finish_running w c s x :
  the_ctx w = Some c -> running w c -> heap w !! s = Some x -> socket_phase x = Reaping ->
  exists w' c', check_destroy true s w = Done (w', tt) /\ the_ctx w' = Some c' /\ running w' c' /\ kept c c'
    /\ terminating c' = terminating c /\ progress w w'.
Proof.
  intros Hc (Hst & Hre & Hs & Hr & Ht) Hx Hp.
  destruct (check_destroy_done w c s x Hc Hs Hre Hx) as (a & Ea & E).
  eexists _, _. split; [exact E|]. split; [reflexivity|]. split; [|split; [by apply (kept_without w c s)|split; [done|]]].
  2:{ by apply (progress_destroy w c s x a). }
  split; [done|]. split; [done|]. split; [|split].
  - by apply (without_slots w c s x a).
  - apply (reaper_ok_destroy 0 w s x _ (last_gone c a)); try done; [apply reaps_last_gone|].
    by rewrite count_last_gone, decide_True, decide_False by done.
  - by apply (term_ok_destroy w c s x a).
Qed.

(** *** The events of the reaper *)

(** [reaper] has received the next command. *)
Definition popped (w : world) (l : list command) : world :=
  set_reaper (ReaperT l (reaper_sockets (the_reaper w)) (reaper_terminating (the_reaper w))) w.

Lemma send_done_spec w c :
  the_ctx w = Some c -> slots_ok w c ->
  send_done w = Done (World (the_ctx w) (the_reaper w) (heap w) (next_socket w) (max_socket_id w) (S (dones w)), tt).
Proof.
  intros Hc Hs. unfold send_done, slot, sbind, this, slift. rewrite Hc at 1. cbn [obind deref].
  rewrite (nth_z_done _ 0 (Some term_mailbox)); [done|done|apply Hs].
Qed.

Lemma progress_mail w w' cmd l :
  reaper_mail (the_reaper w) = cmd :: l -> reaper_mail (the_reaper w') = l -> heap w' = heap w ->
  cmd = stop \/ cmd = reaped -> progress w w'.
Proof.
  intros Em Em' Eh Hcmd. split; [|unfold none_used; by rewrite Eh].
  unfold work, sockets_in. rewrite Em, Em', Eh, !count_cons.
  destruct Hcmd as [->| ->]; repeat case_decide; try done; lia.
Qed.

Lemma event_stop w c l :
  the_ctx w = Some c -> running w c -> reaper_mail (the_reaper w) = stop :: l ->
  exists w', process_stop (popped w l) = Done (w', tt) /\ the_ctx w' = Some c /\ running w' c /\ progress w w'.
Proof.
  intros Hc (Hst & Hre & Hs & [Hnd Hrp Hsk] & [ta tb td te tf]) Em. pose proof Em as Em0. rewrite Em in Hnd, Hrp, Hsk, ta.
  rewrite count_cons, decide_True in ta by done.
  assert (Hrt : reaper_terminating (the_reaper w) = false).
  { destruct (reaper_terminating _); [|done]. cbn [b2n] in ta. destruct (_ && _) in ta; cbn in ta; lia. }
  rewrite Hrt in *. cbn [b2n andb] in ta, tb.
  set (w1 := set_reaper (ReaperT l (reaper_sockets (the_reaper w)) true) w).
  assert (Hs1 : slots_ok w1 c) by (by apply (slots_ok_ext w)).
  assert (Hr1 : reaper_ok 0 w1).
  { split; cbn [w1 the_reaper set_reaper reaper_mail reaper_sockets]; [done|exact Hrp|].
    rewrite Hsk, count_cons, decide_False by done. done. }
  assert (E : process_stop (popped w l) = if reaper_sockets (the_reaper w) =? 0 then send_done w1 else Done (w1, tt)).
  { unfold process_stop, upd_reaper, sbind, sget, smod, popped. cbn. rewrite <- (Z.add_0_r 0). by destruct (_ =? _). }
  rewrite E. destruct (Z.eqb_spec (reaper_sockets (the_reaper w)) 0) as [Hz|Hz].
  - rewrite (send_done_spec w1 c Hc Hs1). eexists. split; [reflexivity|]. split; [done|]. split; [|by apply (progress_mail w _ stop l); auto]. 
    split; [done|]. split; [done|]. split; [by apply (slots_ok_ext w1)|]. split; [by destruct Hr1|].
    split; cbn [w1 the_reaper set_reaper reaper_mail reaper_sockets reaper_terminating heap dones]; try done.
    + cbn [b2n]. lia.
    + rewrite Hz, tb. done.
  - eexists. split; [reflexivity|]. split; [done|]. split; [|by apply (progress_mail w _ stop l); auto].  split; [done|]. split; [done|]. split; [done|]. split; [done|].
    split; cbn [w1 the_reaper set_reaper reaper_mail reaper_sockets reaper_terminating heap dones]; try done.
    + cbn [b2n]. lia.
    + rewrite tb. by apply Z.eqb_neq in Hz as ->.
Qed.

Lemma event_reaped w c l :
  the_ctx w = Some c -> running w c -> reaper_mail (the_reaper w) = reaped :: l -> reaper_sockets (the_reaper w) < 2 ^ 31 - 1 ->
  exists w', process_reaped (popped w l) = Done (w', tt) /\ the_ctx w' = Some c /\ running w' c /\ progress w w'.
Proof.
  intros Hc (Hst & Hre & Hs & [Hnd Hrp Hsk] & [ta tb td te tf]) Em Hb. pose proof Em as Em0. rewrite Em in Hnd, Hrp, Hsk, ta.
  rewrite count_cons, decide_False in ta by done. rewrite count_cons, decide_True in Hsk by done.
  set (rs := reaper_sockets (the_reaper w)) in *.
  set (w1 := set_reaper (ReaperT l (rs - 1) (reaper_terminating (the_reaper w))) w).
  assert (Hs1 : slots_ok w1 c) by (by apply (slots_ok_ext w)).
  assert (Hr1 : reaper_ok 0 w1).
  { split; cbn [w1 the_reaper set_reaper reaper_mail reaper_sockets]; [done|exact Hrp|].
    replace (sockets_in Reaping w1) with (sockets_in Reaping w) by done. lia. }
  assert (E : process_reaped (popped w l)
    = if (rs - 1 =? 0) && reaper_terminating (the_reaper w) then send_done w1 else Done (w1, tt)).
  { unfold process_reaped, upd_reaper, sbind, sget, smod, popped. cbn. fold rs. rewrite i32_small by lia.
    destruct ((rs - 1 =? 0) && reaper_terminating (the_reaper w)); reflexivity. }
  assert (Hd : dones w = 0%nat).
  { rewrite tb. assert ((rs =? 0) = false) as -> by (apply Z.eqb_neq; lia). by rewrite andb_false_r. }
  rewrite E. destruct (Z.eqb_spec (rs - 1) 0) as [Hz|Hz].
  - destruct (reaper_terminating (the_reaper w)) eqn:Ert; cbn [andb].
    + rewrite (send_done_spec w1 c Hc Hs1). eexists. split; [reflexivity|]. split; [done|]. split; [|by apply (progress_mail w _ reaped l); auto]. 
      split; [done|]. split; [done|]. split; [by apply (slots_ok_ext w1)|]. split; [by destruct Hr1|].
      split; cbn [w1 the_reaper set_reaper reaper_mail reaper_sockets reaper_terminating heap dones]; try done.
      by rewrite Hz, Hd.
    + eexists. split; [reflexivity|]. split; [done|]. split; [|by apply (progress_mail w _ reaped l); auto].  split; [done|]. split; [done|]. split; [done|]. split; [done|].
      split; cbn [w1 the_reaper set_reaper reaper_mail reaper_sockets reaper_terminating heap dones]; try done.
  - cbn [andb]. eexists. split; [reflexivity|]. split; [done|]. split; [|by apply (progress_mail w _ reaped l); auto].  split; [done|]. split; [done|]. split; [done|]. split; [done|].
    split; cbn [w1 the_reaper set_reaper reaper_mail reaper_sockets reaper_terminating heap dones]; try done.
    apply Z.eqb_neq in Hz. by rewrite Hz, andb_false_r.
Qed.

(** A socket with a phase and the stops it had is as good for the termination, unless it is used. *)
Lemma term_ok_phase w c s x p w' :
  term_ok w c -> heap w !! s = Some x -> p <> Used ->
  heap w' = <[s := Socket (socket_tid x) (socket_id x) p (stops x)]> (heap w) ->
  count_of stop (reaper_mail (the_reaper w')) = count_of stop (reaper_mail (the_reaper w)) ->
  reaper_terminating (the_reaper w') = reaper_terminating (the_reaper w) ->
  reaper_sockets (the_reaper w') = reaper_sockets (the_reaper w) -> dones w' = dones w -> term_ok w' c.
Proof.
  intros [a b d e f] Hx Hp Eh Em Et Es Ed. split; rewrite ?Em, ?Et, ?Es, ?Ed, ?Eh; try done.
  - intros q y. destruct (decide (q = s)) as [->|].
    + rewrite lookup_insert_eq. intros [= <-]. cbn. by apply (d s).
    + rewrite lookup_insert_ne by congruence. apply d.
  - intros Ht q y. destruct (decide (q = s)) as [->|].
    + rewrite lookup_insert_eq. by intros [= <-].
    + rewrite lookup_insert_ne by congruence. by apply e.
  - intros Ht q y. destruct (decide (q = s)) as [->|].
    + rewrite lookup_insert_eq. intros [= <-]. cbn. by apply (f Ht s).
    + rewrite lookup_insert_ne by congruence. by apply f.
Qed.

Definition bumped (w : world) : world :=
  set_reaper (ReaperT (reaper_mail (the_reaper w)) (i32 (reaper_sockets (the_reaper w) + 1))
                      (reaper_terminating (the_reaper w))) w.

Lemma bumped_running w c :
  starting c = false -> reaper c = true -> slots_ok w c -> reaper_ok 1 w -> term_ok w c ->
  reaper_terminating (the_reaper w) = false -> -1 <= reaper_sockets (the_reaper w) < 2 ^ 31 - 1 -> running (bumped w) c.
Proof.
  intros Hst Hre Hs [Hnd Hrp Hsk] [ta tb td te tf] Hrt Hb. split; [done|]. split; [done|].
  split; [by apply (slots_ok_ext w)|]. split.
  - split; cbn [bumped the_reaper set_reaper reaper_mail reaper_sockets]; [done|done|].
    replace (sockets_in Reaping (bumped w)) with (sockets_in Reaping w) by done. rewrite i32_small by lia. lia.
  - split; cbn [bumped the_reaper set_reaper reaper_mail reaper_sockets reaper_terminating heap dones]; try done.
    rewrite Hrt in *. done.
Qed.

Lemma event_reap w c s l d :
  the_ctx w = Some c -> running w c -> reaper_mail (the_reaper w) = reap s :: l -> reaper_sockets (the_reaper w) < 2 ^ 31 - 1 ->
  exists w' c', process_reap d s (popped w l) = Done (w', tt) /\ the_ctx w' = Some c' /\ running w' c' /\ kept c c'
    /\ terminating c' = terminating c /\ progress w w'.
Proof.
  intros Hc (Hst & Hre & Hs & [Hnd Hrp Hsk] & Ht) Em Hb. rewrite Em in *.
  change (reaps (reap s :: l)) with (s :: reaps l) in Hnd, Hrp.
  destruct (proj1 (Hrp s)) as (x & Hx & Hp); [constructor|].
  apply NoDup_cons in Hnd as [Hns Hnd].
  assert (Hrt : reaper_terminating (the_reaper w) = false).
  { apply not_true_iff_false. intros Hrt. pose proof (to_stop _ _ Ht) as ta. rewrite Hrt in ta. cbn [b2n] in ta.
    destruct (terminating c && is_empty (sockets c)) eqn:E; cbn [b2n] in ta; [|lia].
    apply andb_prop in E as [_ E]. apply is_empty_spec in E.
    assert (Hin : s ∈ Array.items (sockets c)) by (apply (so_sockets _ _ Hs); by eexists).
    rewrite E in Hin. by apply not_elem_of_nil in Hin. }
  set (y := Socket (socket_tid x) (socket_id x) Reaping (stops x)).
  set (w1 := set_heap (<[s := y]> (heap w)) (popped w l)).
  assert (Hs1 : slots_ok w1 c) by (by apply (slots_ok_insert w w1 c s x y)).
  assert (Hr1 : reaper_ok 1 w1).
  { split; cbn [w1 the_reaper set_heap popped set_reaper reaper_mail reaper_sockets heap]; [done|..].
    - intros q. destruct (decide (q = s)) as [->|Hne].
      + rewrite lookup_insert_eq. split; [by intros ?|by intros (z & [= <-] & ?)].
      + rewrite lookup_insert_ne by congruence. rewrite <- Hrp, elem_of_cons. naive_solver.
    - pose proof (size_phase_insert Reaping (heap w) s x y Hx) as Hz.
      rewrite decide_False, decide_True in Hz by (done || congruence).
      unfold sockets_in, w1; cbn [heap set_heap]. rewrite count_cons, decide_False in Hsk by done.
      unfold sockets_in in Hsk. lia. }
  assert (Ht1 : term_ok w1 c).
  { apply (term_ok_phase w c s x Reaping); try done. rewrite Em. symmetry. rewrite count_cons, decide_False by done. done. }
  assert (E : process_reap d s (popped w l) = (check_destroy d s ;;;
    upd_reaper (fun r => ReaperT (reaper_mail r) (i32 (reaper_sockets r + 1)) (reaper_terminating r))) w1).
  { unfold process_reap, set_phase, sbind. cbn [popped heap set_reaper]. by rewrite Hx. }
  assert (Hlow : 0 <= reaper_sockets (the_reaper w)) by lia.
  assert (Hp1 : progress w w1).
  { split.
    - pose proof (size_phase_insert Reaping (heap w) s x y Hx) as H1.
      pose proof (size_phase_insert Closed (heap w) s x y Hx) as H2.
      rewrite decide_False, decide_True in H1 by (done || congruence).
      rewrite decide_True, decide_False in H2 by (done || congruence).
      unfold work. rewrite Em, !count_cons. unfold sockets_in, w1. cbn [set_heap popped set_reaper heap the_reaper reaper_mail].
      repeat case_decide; try done; lia.
    - intros Hn q z. cbn. destruct (decide (q = s)) as [->|]; [rewrite lookup_insert_eq; by intros [= <-]|].
      rewrite lookup_insert_ne by congruence. apply Hn. }
  rewrite E. unfold sbind. destruct d.
  - destruct (check_destroy_done w1 c s y) as (a & Ea & ->); [done|done|done|by cbn; rewrite lookup_insert_eq|].
    cbn [obind]. set (w2 := World _ _ _ _ _ _). exists (bumped w2), (without c (socket_tid x) a).
    assert (Hxy : heap w1 !! s = Some y) by (cbn; by rewrite lookup_insert_eq).
    split; [done|]. split; [done|]. split; [|split; [by apply (kept_without w c s)|split; [done|]]].
    2:{ destruct (progress_destroy w1 c s y a (bumped w2)) as [H1 H2]; try done. destruct Hp1 as [H3 H4].
        split; [lia|auto]. }
    apply bumped_running; try done; [by apply (without_slots w1 c s y a)| | |cbn; lia].
    + apply (reaper_ok_destroy 1 w1 s y w2 (last_gone c a)); try done; [apply reaps_last_gone|].
      by rewrite count_last_gone, decide_True, decide_False by done.
    + by apply (term_ok_destroy w1 c s y a).
  - cbn [check_destroy sret obind]. exists (bumped w1), c. split; [done|]. split; [done|]. split; [|by split_and!].
    by apply bumped_running; try (cbn; lia).
Qed.

(** *** Stopping *)

Definition stopped (x : socket) : socket := Socket (socket_tid x) (socket_id x) (socket_phase x) (S (stops x)).

Lemma socket_stop_done w c s x :
  the_ctx w = Some c -> slots_ok w c -> heap w !! s = Some x ->
  socket_stop s w = Done (set_heap (<[s := stopped x]> (heap w)) w, tt).
Proof.
  intros Hc Hs Hx. unfold socket_stop. rewrite Hx. cbn [obind deref].
  unfold send_command, slot, sbind, this, slift. rewrite Hc at 1. cbn [obind deref].
  destruct (so_used _ _ Hs s x Hx) as [Hr Hu].
  rewrite (nth_z_done _ (socket_tid x) (Some (socket_mailbox s))); [|lia|done]. cbn [obind deref]. by rewrite Hx.
Qed.

Lemma stop_all_spec c fuel i w :
  the_ctx w = Some c -> slots_ok w c -> (i <= length (Array.items (sockets c)))%nat ->
  (length (Array.items (sockets c)) - i <= fuel)%nat ->
  exists h, stop_all fuel (Z.of_nat i) w = Done (set_heap h w, tt)
    /\ forall s, h !! s = if decide (s ∈ drop i (Array.items (sockets c))) then stopped <$> heap w !! s else heap w !! s.
Proof.
  revert i w. induction fuel as [|fuel IH]; intros i w Hc Hs Hi Hf;
    (destruct (decide (i = length (Array.items (sockets c)))) as [->|Hne];
      [exists (heap w); split; [cbn; unfold sbind, this; rewrite Hc at 1; cbn; unfold Array.size; rewrite Z.eqb_refl; by destruct w|];
       intros s; rewrite drop_all, decide_False; [done|apply not_elem_of_nil]|]); [lia|].
  destruct (lookup_lt_is_Some_2 (Array.items (sockets c)) i) as [s Hl]; [lia|].
  assert (Hin : s ∈ Array.items (sockets c)) by (by eapply list_elem_of_lookup_2).
  destruct (proj1 (so_sockets _ _ Hs s) Hin) as [x Hx].
  set (w1 := set_heap (<[s := stopped x]> (heap w)) w).
  destruct (IH (S i) w1) as (h & E & Hh); [done|by apply (slots_ok_insert w w1 c s x (stopped x))|lia|lia|].
  exists h. split.
  - cbn [stop_all]. unfold sbind at 1, this at 1. rewrite Hc at 1. cbn [obind deref].
    unfold Array.size. destruct (Z.eqb_spec (Z.of_nat i) (Z.of_nat (length (Array.items (sockets c))))); [lia|].
    unfold sbind at 1, slift at 1. unfold Array.get.
    rewrite (nth_z_done _ _ s) by (lia || by rewrite Nat2Z.id). cbn [obind].
    unfold sbind at 1. rewrite (socket_stop_done w c s x) by done. cbn [obind]. fold w1.
    replace (Z.of_nat i + 1) with (Z.of_nat (S i)) by lia. by rewrite E.
  - intros q. rewrite Hh. rewrite (drop_S _ s i) by done. pose proof (Array.ok_nodup _ (so_array _ _ Hs)) as Hnd.
    rewrite <- (take_drop i (Array.items (sockets c))), (drop_S _ s i) in Hnd by done.
    apply NoDup_app in Hnd as (_ & _ & Hnd). apply NoDup_cons in Hnd as [Hns _].
    unfold w1; cbn [heap set_heap]. destruct (decide (q = s)) as [->|Hq].
    + rewrite decide_False by done. rewrite decide_True by constructor. by rewrite lookup_insert_eq, Hx.
    + rewrite lookup_insert_ne by congruence. destruct (decide (q ∈ drop (S i) _)) as [Hd|Hd].
      * by rewrite decide_True by (by constructor).
      * rewrite decide_False; [done|]. intros [?|?]%elem_of_cons; done.
Qed.

Definition all_stopped (w : world) : world := set_heap (stopped <$> heap w) w.

Lemma stop_sockets_done w c :
  the_ctx w = Some c -> slots_ok w c -> reaper c = true ->
  stop_sockets w = Done (if is_empty (sockets c) then push stop (all_stopped w) else all_stopped w, tt).
Proof.
  intros Hc Hs Hr.
  destruct (stop_all_spec c (length (Array.items (sockets c))) 0 w Hc Hs) as (h & E & Hh); [lia|lia|].
  assert (h = stopped <$> heap w) as ->.
  { apply map_eq. intros s. rewrite Hh, lookup_fmap. rewrite drop_0. case_decide as Hd; [done|].
    rewrite (so_sockets _ _ Hs) in Hd. by destruct (heap w !! s) as [x|]; [destruct Hd; eexists|]. }
  unfold stop_sockets. unfold sbind at 1, this at 1. rewrite Hc at 1. cbn [obind deref].
  unfold sbind at 1. change 0 with (Z.of_nat 0). rewrite E. cbn [obind].
  unfold sbind at 1, this at 1. cbn [the_ctx set_heap]. rewrite Hc at 1. cbn [obind deref].
  destruct (is_empty (sockets c)) eqn:Ee; [|done].
  unfold reaper_stop, sbind at 1, this at 1. cbn [the_ctx set_heap]. rewrite Hc at 1. cbn [obind deref].
  unfold sbind at 1, sassert at 1. rewrite Hr. cbn [obind].
  apply is_empty_spec in Ee. assert (heap w = ∅) as Eh.
  { apply map_empty. intros s. apply eq_None_not_Some. intros Hx%(so_sockets _ _ Hs). rewrite Ee in Hx.
    by apply not_elem_of_nil in Hx. }
  apply (send_reaper _ c); [done|]. apply (slots_ok_ext w); [|done|done]. cbn. by rewrite Eh, fmap_empty.
Qed.

Lemma size_fmap_phase p (h : gmap nat socket) :
  size (filter (fun z => socket_phase z.2 = p) (stopped <$> h)) = size (filter (fun z => socket_phase z.2 = p) h).
Proof.
  induction h as [|s x h Hx IH] using map_ind; [by rewrite fmap_empty|]. rewrite fmap_insert.
  destruct (decide (socket_phase x = p)).
  - rewrite !map_filter_insert_True by done. rewrite !map_size_insert_None; [by rewrite IH| |];
      apply map_lookup_filter_None; left; by rewrite ?lookup_fmap, Hx.
  - rewrite !map_filter_insert_False by done. rewrite !delete_id; [done|done|]. by rewrite lookup_fmap, Hx.
Qed.

Lemma is_empty_heap w c : slots_ok w c -> is_empty (sockets c) = true <-> heap w = ∅.
Proof.
  intros Hs. rewrite is_empty_spec. split; intros E.
  - apply map_empty. intros s. apply eq_None_not_Some. intros Hx%(so_sockets _ _ Hs). rewrite E in Hx.
    by apply not_elem_of_nil in Hx.
  - destruct (Array.items (sockets c)) as [|s l] eqn:El; [done|]. destruct (proj1 (so_sockets _ _ Hs s)) as [x Hx].
    { rewrite El. constructor. }
    by rewrite E in Hx.
Qed.

Lemma some_fmap (h : gmap nat socket) s : is_Some ((stopped <$> h) !! s) <-> is_Some (h !! s).
Proof. rewrite lookup_fmap. destruct (h !! s); split; intros [? ?]; try done; by eexists. Qed.

(** The first to terminate the context stops its sockets, or the reaper when it has none. *)
Lemma stopping_running w c :
  the_ctx w = Some c -> running w c -> terminating c = false ->
  exists w', stop_sockets (set_ctx (Some (with_terminating true c)) w) = Done (w', tt)
    /\ the_ctx w' = Some (with_terminating true c) /\ running w' (with_terminating true c).
Proof.
  intros Hc (Hst & Hre & Hs & [Hnd Hrp Hsk] & [ta tb td te tf]) Hte. rewrite Hte in *. cbn [andb b2n] in ta.
  set (c1 := with_terminating true c). set (w0 := set_ctx (Some c1) w).
  assert (Hs0 : slots_ok w0 c1) by (by apply slots_ok_terminating, (slots_ok_ext w)).
  pose proof (stop_sockets_done w0 c1 eq_refl Hs0 Hre) as E. change (sockets c1) with (sockets c) in E.
  assert (Hs1 : slots_ok (all_stopped w0) c1).
  { destruct Hs0 as [a b d e f g h i io j k l]. split; try done; cbn [all_stopped heap set_heap next_socket].
    - intros s. rewrite b. unfold w0; cbn. symmetry. apply some_fmap.
    - intros s. unfold w0; cbn. rewrite lookup_fmap, fmap_is_Some. exact (d s).
    - unfold w0; cbn. by rewrite map_size_fmap.
    - intros s x. unfold w0; cbn. rewrite lookup_fmap. intros (y & Hy & ->)%fmap_Some. exact (l s y Hy). }
  assert (Hr1 : reaper_ok 0 (all_stopped w0)).
  { split; cbn; [done| |].
    - intros s. rewrite Hrp. setoid_rewrite lookup_fmap. split.
      + intros (x & Hx & Hp). exists (stopped x). by rewrite Hx.
      + intros (y & (x & Hx & ->)%fmap_Some & Hp). by exists x.
    - rewrite Hsk. unfold sockets_in. cbn. by rewrite size_fmap_phase. }
  assert (Hstops : forall s y, (stopped <$> heap w) !! s = Some y -> stops y = 1%nat).
  { intros s y. rewrite lookup_fmap. intros (x & Hx & ->)%fmap_Some. cbn. by rewrite (tf eq_refl s x Hx). }
  rewrite E. destruct (is_empty (sockets c)) eqn:Ee.
  - eexists. split; [reflexivity|]. split; [done|]. split; [done|]. split; [done|].
    assert (Eh : heap w = ∅) by (by apply (is_empty_heap w c)).
    split; [by apply (slots_ok_ext (all_stopped w0))|]. split.
    + destruct Hr1 as [r1 r2 r3]. split; cbn [push the_reaper set_reaper reaper_mail reaper_sockets].
      * by rewrite reaps_app, app_nil_r.
      * intros s. rewrite reaps_app, app_nil_r. apply r2.
      * rewrite count_snoc, decide_False, Nat.add_0_r by done. exact r3.
    + split; cbn [push all_stopped set_heap w0 set_ctx the_reaper set_reaper reaper_mail reaper_terminating reaper_sockets heap dones].
      * rewrite count_snoc, decide_True by done. change (terminating c1) with true. change (sockets c1) with (sockets c).
        rewrite Ee. cbn [andb b2n]. lia.
      * done.
      * intros s y Hy. rewrite (Hstops s y Hy). lia.
      * intros _ s y Hy _. by apply (Hstops s).
      * done.
  - eexists. split; [reflexivity|]. split; [done|]. split; [done|]. split; [done|]. split; [done|]. split; [done|].
    split; cbn [all_stopped set_heap w0 set_ctx the_reaper reaper_mail reaper_terminating reaper_sockets heap dones].
    + change (terminating c1) with true. change (sockets c1) with (sockets c). by rewrite Ee.
    + done.
    + intros s y Hy. rewrite (Hstops s y Hy). lia.
    + intros _ s y Hy _. by apply (Hstops s).
    + done.
Qed.

Lemma shutdown_running w c :
  the_ctx w = Some c -> running w c ->
  exists w' c', shutdown w = Done (w', tt) /\ the_ctx w' = Some c' /\ running w' c' /\ kept c c'
    /\ terminating c' = true.
Proof.
  intros Hc Hr. unfold shutdown. unfold sbind at 1, this at 1. rewrite Hc. cbn [obind deref].
  rewrite (proj1 Hr). cbn [negb andb]. destruct (terminating c) eqn:Et; cbn [negb].
  - by exists w, c.
  - destruct (stopping_running w c Hc Hr Et) as (w' & E & Hc' & Hr').
    exists w', (with_terminating true c). split; [|done]. unfold sbind, upd. rewrite Hc at 1. cbn [obind deref]. done.
Qed.

(** *** terminate *)

(** While [terminate] makes the pending connections, [terminating] is false: [b] is its value before. *)
Definition runs (b : bool) (w : world) (c : ctx_t) : Prop :=
  starting c = false /\ reaper c = true /\ slots_ok w c /\ reaper_ok 0 w /\ term_ok w (with_terminating b c).

Lemma term_ok_pending b w c t s x w' l a :
  term_ok w (with_terminating b c) -> (b = true -> is_empty (sockets c) = false) ->
  heap w !! s = None -> stops x = 0%nat -> socket_phase x = Closed -> is_empty a = false ->
  heap w' = <[s := x]> (heap w) -> dones w' = dones w ->
  the_reaper w' = ReaperT (reaper_mail (the_reaper w) ++ [reap s]) (reaper_sockets (the_reaper w)) (reaper_terminating (the_reaper w)) ->
  term_ok w' (with_terminating b (with_slots l t a c)).
Proof.
  intros [ta tb td te tf] Hb Hs Hx Hp Ha Eh Ed Er.
  split; rewrite ?Er, ?Eh, ?Ed; cbn [reaper_mail reaper_sockets reaper_terminating with_terminating with_slots terminating sockets].
  - rewrite count_snoc, decide_False, Nat.add_0_r by done. rewrite ta. cbn [with_terminating terminating sockets].
    rewrite Ha. destruct b; [by rewrite Hb|done].
  - done.
  - intros q y. destruct (decide (q = s)) as [->|].
    + rewrite lookup_insert_eq. intros [= <-]. lia.
    + rewrite lookup_insert_ne by congruence. apply td.
  - intros Ht q y. destruct (decide (q = s)) as [->|].
    + rewrite lookup_insert_eq. intros [= <-]. congruence.
    + rewrite lookup_insert_ne by congruence. by apply te.
  - intros Ht q y. destruct (decide (q = s)) as [->|].
    + rewrite lookup_insert_eq. by intros [= <-].
    + rewrite lookup_insert_ne by congruence. by apply tf.
Qed.

Lemma connect_one b w c :
  the_ctx w = Some c -> runs b w c -> terminating c = false -> (b = true -> is_empty (sockets c) = false) ->
  empty_slots c <> [] ->
  exists w' c', (let! s := create_socket 0 Started true in match s with inr s => close s | inl _ => scrash end) w = Done (w', tt)
    /\ the_ctx w' = Some c' /\ runs b w' c' /\ kept c c' /\ terminating c' = false
    /\ is_empty (sockets c') = false /\ length (empty_slots c') = (length (empty_slots c) - 1)%nat.
Proof.
  intros Hc (Hst & Hre & Hs & Hr & Ht) Hte Hb He.
  destruct (create_makes w c 0 Started true Hc Hs Hst Hte He eq_refl) as (t & El & E).
  pose proof (created_slots w c t Hs El) as Hs1. set (w1 := created w c t) in *.
  set (c1 := with_slots _ _ _ c) in *. set (s := next_socket w) in *.
  set (x := Socket t (i32 (max_socket_id w) + 1) Used 0).
  assert (Hx : heap w1 !! s = Some x) by (cbn; by rewrite lookup_insert_eq).
  pose proof (fresh_socket w c Hs) as Hf.
  assert (Hne : is_empty (sockets c1) = false).
  { apply not_true_iff_false. rewrite is_empty_spec. cbn. by destruct (Array.items (sockets c)). }
  unfold sbind at 1. rewrite E. cbn [obind]. rewrite (close_done w1 c1 s x) by done.
  eexists _, c1. split; [reflexivity|]. split; [done|]. split; [|split; [by apply (kept_created w)|split; [done|split; [done|]]]].
  - split; [done|]. split; [done|]. split; [|split].
    + by apply (slots_ok_insert w1 _ c1 s x (Socket (socket_tid x) (socket_id x) Closed (stops x))).
    + apply (reaper_ok_close 0 w s x); [done|by left|done|]. eexists. split; [|cbn; by rewrite insert_insert_eq]. done.
    + apply (term_ok_pending b w c _ s (Socket (socket_tid x) (socket_id x) Closed (stops x))); try done.
      cbn. by rewrite insert_insert_eq.
  - cbn [c1 with_slots empty_slots]. rewrite <- (removelast_last_of _ _ El) at 2. rewrite length_app. simpl. lia.
Qed.

(** The system has a mailbox for every pending connection, and the context a slot. *)
Definition can_connect (mailboxes : list bool) (c : ctx_t) : Prop :=
  Forall (fun b => b = true) mailboxes /\ (length mailboxes <= length (empty_slots c))%nat.

Lemma connect_pending_cons b l w :
  connect_pending (b :: l) w
  = ((let! s := create_socket 0 Started b in match s with inr s => close s | inl _ => scrash end) ;;; connect_pending l) w.
Proof.
  cbn [connect_pending]. unfold sbind. destruct (create_socket 0 Started b w) as [[w1 [e|s]]|]; [done| |done].
  by destruct (close s w1) as [[w2 []]|].
Qed.

Lemma connect_pending_runs b ms : forall w c,
  the_ctx w = Some c -> runs b w c -> terminating c = false ->
  (ms <> [] -> b = true -> is_empty (sockets c) = false) ->
  (can_connect ms c /\ exists w' c', connect_pending ms w = Done (w', tt) /\ the_ctx w' = Some c' /\ runs b w' c'
    /\ kept c c')
  \/ (~ can_connect ms c /\ connect_pending ms w = Crash).
Proof.
  induction ms as [|m ms IH]; intros w c Hc Hr Ht Hb.
  { left. split; [split; [constructor|simpl; lia]|]. by exists w, c. }
  rewrite connect_pending_cons. destruct (decide (empty_slots c = [])) as [He|He].
  { right. split; [intros [_ Hl]; rewrite He in Hl; simpl in Hl; lia|].
    unfold sbind. rewrite (create_full w c) by (done || apply Hr). done. }
  destruct m.
  - destruct (connect_one b w c Hc Hr Ht (Hb ltac:(done)) He) as (w1 & c1 & E & Hc1 & Hr1 & Ho & Ht1 & Hne & Hl).
    rewrite (sbind_done _ _ _ _ _ E).
    assert (Hcc : can_connect ms c1 <-> can_connect (true :: ms) c).
    { unfold can_connect. rewrite Forall_cons, Hl. simpl. split; intros [? ?]; (split; [tauto|]); [|lia].
      assert (length (empty_slots c) <> 0)%nat by (by destruct (empty_slots c)). lia. }
    destruct (IH w1 c1 Hc1 Hr1 Ht1 (fun _ _ => Hne)) as [(H1 & w' & c' & ? & ? & ? & ?)|[H1 ?]].
    + left. split; [by apply Hcc|]. exists w', c'. split; [done|]. split; [done|]. split; [done|]. by transitivity c1.
    + right. split; [by rewrite <- Hcc|done].
  - right. split; [by intros [[? _]%Forall_cons _]|].
    unfold sbind. rewrite (create_refused w c) by (done || apply Hr). done.
Qed.

Lemma with_terminating_same c : with_terminating (terminating c) c = c.
Proof. by destruct c. Qed.

Lemma terminate_begin_spec w c ms :
  the_ctx w = Some c -> running w c -> (ms <> [] -> Array.items (sockets c) <> []) ->
  (can_connect ms c /\ exists w' c', terminate_begin ms w = Done (w', true) /\ the_ctx w' = Some c' /\ running w' c'
     /\ kept c c' /\ terminating c' = true)
  \/ (~ can_connect ms c /\ terminate_begin ms w = Crash).
Proof.
  intros Hc (Hst & Hre & Hs & Hr & Ht) Hms.
  set (c1 := with_terminating false c). set (w1 := set_ctx (Some c1) w).
  assert (Hr1 : runs (terminating c) w1 c1).
  { split; [done|]. split; [done|]. split; [by apply slots_ok_terminating, (slots_ok_ext w)|]. split; [by destruct Hr|].
    change (with_terminating (terminating c) c1) with (with_terminating (terminating c) c).
    rewrite with_terminating_same. by destruct Ht. }
  assert (Hne : ms <> [] -> terminating c = true -> is_empty (sockets c1) = false).
  { intros Hm _. apply not_true_iff_false. rewrite is_empty_spec. by apply Hms. }
  destruct (connect_pending_runs (terminating c) ms w1 c1 eq_refl Hr1 eq_refl Hne)
    as [(Hcan & w2 & c2 & E & Hc2 & (Hst2 & Hre2 & Hs2 & Hrp2 & Ht2) & Ho2)|[Hcan E]]; [left|right];
    (split; [done|]); unfold terminate_begin; unfold sbind at 1, this at 1; rewrite Hc; cbn [obind deref];
    unfold sbind at 1, upd at 1; rewrite Hc; cbn [obind deref]; fold c1; fold w1; unfold sbind at 1; rewrite E; [|done].
  cbn [obind]. unfold sbind at 1, upd at 1. rewrite Hc2. cbn [obind deref].
  set (c3 := with_terminating (terminating c) c2). set (w3 := set_ctx (Some c3) w2).
  assert (Hr3 : running w3 c3).
  { split; [done|]. split; [done|]. split; [by apply slots_ok_terminating, (slots_ok_ext w2)|].
    split; [by destruct Hrp2|by destruct Ht2]. }
  unfold sbind at 1, this at 1. cbn [the_ctx w3 set_ctx obind deref]. change (starting c3) with (starting c2). rewrite Hst2.
  cbn [negb]. change (terminating c3) with (terminating c).
  unfold sbind at 1, upd at 1. cbn [the_ctx w3 set_ctx obind deref].
  destruct (terminating c) eqn:Et; cbn [negb].
  - eexists _, c3. split; [reflexivity|]. split; [done|]. split; [|done].
    destruct Hr3 as (? & ? & ? & [] & []). split; [done|]. split; [done|]. split; [by apply (slots_ok_ext w3)|]. by split.
  - destruct (stopping_running w3 c3 eq_refl Hr3 eq_refl) as (w4 & E4 & Hc4 & Hr4).
    exists w4, (with_terminating true c3). split; [|done]. unfold sbind. by rewrite E4.
Qed.

Lemma fresh_inv w c : ok_options (opts c) -> the_ctx w = Some c -> fresh w c -> inv w.
Proof. intros Ho Hc Hf. unfold inv. rewrite Hc. auto. Qed.

Lemma running_inv w c : ok_options (opts c) -> the_ctx w = Some c -> running w c -> inv w.
Proof. intros Ho Hc Hf. unfold inv. rewrite Hc. auto. Qed.

(** What [terminate] waits for means that nothing is left. *)
Lemma done_means w c :
  running w c -> dones w <> 0%nat ->
  terminating c = true /\ heap w = ∅ /\ reaper_mail (the_reaper w) = [] /\ dones w = 1%nat.
Proof.
  intros (Hst & Hre & Hs & [Hnd Hrp Hsk] & [ta tb td te tf]) Hd.
  destruct (reaper_terminating (the_reaper w)) eqn:Ert; [|by rewrite tb in Hd].
  destruct (Z.eqb_spec (reaper_sockets (the_reaper w)) 0) as [Hz|]; [|by rewrite tb in Hd].
  destruct (terminating c && is_empty (sockets c)) eqn:E; cbn [b2n] in ta; [|lia].
  apply andb_prop in E as [Et Ee]. apply (is_empty_heap w c Hs) in Ee. split; [done|]. split; [done|]. split; [|done].
  destruct (reaper_mail (the_reaper w)) as [|cmd l]; [done|]. exfalso. rewrite !count_cons in *.
  destruct cmd as [|q|].
  - rewrite decide_True in ta by done. lia.
  - destruct (proj1 (Hrp q)) as (x & Hx & _); [constructor|]. by rewrite Ee in Hx.
  - rewrite decide_True in Hsk by done. lia.
Qed.

Lemma stop_io_threads_done w c tids k :
  the_ctx w = Some c -> (forall j t, tids !! j = Some t -> 2 <= t /\ slots c !! Z.to_nat t = Some (Some (io_mailbox (k + j)))) ->
  stop_io_threads tids k w = Done (w, tt).
Proof.
  intros Hc. revert k. induction tids as [|t tids IH]; intros k Hk; [done|]. cbn [stop_io_threads].
  destruct (Hk 0%nat t eq_refl) as [Ht Hs]. rewrite Nat.add_0_r in Hs.
  unfold slot, sbind at 1 2 3, this at 1, slift at 1 2. rewrite Hc. cbn [obind deref].
  rewrite (nth_z_done (slots c) t (Some (io_mailbox k)) ltac:(lia) Hs). cbn [obind deref]. unfold sbind, sassert. rewrite bool_decide_eq_true_2 by done. cbn [obind].
  apply IH. intros j t' Hj. replace (S k + j)%nat with (k + S j)%nat by lia. by apply Hk.
Qed.

Lemma delete_ctx_done w c :
  the_ctx w = Some c -> is_empty (sockets c) = true ->
  (forall k t, io_threads c !! k = Some t -> 2 <= t /\ slots c !! Z.to_nat t = Some (Some (io_mailbox k))) ->
  delete_ctx w = Done (set_ctx None w, tt).
Proof.
  intros Hc He Hio. unfold delete_ctx, sbind at 1 2, this, sassert. rewrite Hc. cbn [obind deref]. rewrite He. cbn [obind].
  by rewrite (sbind_done _ _ _ _ _ (stop_io_threads_done w c _ 0 Hc Hio)).
Qed.

Lemma terminate_end_done w c :
  the_ctx w = Some c -> running w c -> dones w <> 0%nat ->
  exists w', terminate_end w = Done (w', tt) /\ the_ctx w' = None /\ heap w' = ∅ /\ reaper_mail (the_reaper w') = [].
Proof.
  intros Hc Hr Hd. destruct (done_means w c Hr Hd) as (Ht & Eh & Em & Ed).
  assert (Hs : slots_ok w c) by apply Hr. apply (is_empty_heap w c Hs) in Eh as Ee.
  unfold terminate_end, sbind, sget. cbn [obind]. rewrite Ed. unfold smod, this. cbn [the_ctx obind]. rewrite Hc.
  cbn [deref obind]. unfold sassert. rewrite Ee. cbn [obind].
  set (w1 := World _ _ _ _ _ _). rewrite (delete_ctx_done w1 c eq_refl Ee (so_io _ _ Hs)). by eexists.
Qed.

(** ** The runs keep the invariant *)
Lemma event_running w c d :
  the_ctx w = Some c -> running w c -> reaper_mail (the_reaper w) <> [] -> reaper_sockets (the_reaper w) < 2 ^ 31 - 1 ->
  exists w' c', in_event d w = Done (w', tt) /\ the_ctx w' = Some c' /\ running w' c' /\ kept c c'
    /\ terminating c' = terminating c /\ progress w w'.
Proof.
  intros Hc Hr Hm Hb. unfold in_event. destruct (reaper_mail (the_reaper w)) as [|cmd l] eqn:Em; [done|].
  unfold sbind, upd_reaper, smod. cbn [obind]. fold (popped w l). destruct cmd as [|s|].
  - destruct (event_stop w c l Hc Hr Em) as (w' & E & Hc' & Hr' & Hp). exists w', c. split_and!; done.
  - apply (event_reap w c s l d Hc Hr Em Hb).
  - destruct (event_reaped w c l Hc Hr Em Hb) as (w' & E & Hc' & Hr' & Hp). exists w', c. by split_and!.
Qed.

Lemma create_running w c type_ r mailbox :
  the_ctx w = Some c -> running w c ->
  exists w' c' res, create_socket type_ r mailbox w = Done (w', res) /\ the_ctx w' = Some c' /\ running w' c' /\ kept c c'.
Proof.
  intros Hc Hr. pose proof Hr as (Hst & Hre & Hs & Hrp & Ht).
  destruct (terminating c) eqn:Et; [exists w, c, (inl ETERM); split; [by apply (create_terminating w c)|by split_and!]|].
  destruct (decide (empty_slots c = [])) as [He|He].
  { exists w, c, (inl EMFILE). split; [by apply (create_full w c)|]. by split_and!. }
  destruct (known_type type_ && mailbox) eqn:Ek.
  - destruct (create_makes w c type_ r mailbox Hc Hs Hst Et He Ek) as (t & El & E).
    destruct (created_running w c t Hr Et El) as (c' & Hc' & Hr' & Hk & _). by exists (created w c t), c', (inr (next_socket w)).
  - exists (numbered w), c, (inl (create_error type_)). split; [by apply (create_refused w c)|]. split; [done|].
    split; [|done]. split; [done|]. split; [done|]. split; [by apply (slots_ok_ext w)|]. split; [by destruct Hrp|by destruct Ht].
Qed.

(** The first socket starts the context. *)
Lemma create_starts w c type_ r mailbox :
  the_ctx w = Some c -> starting c = true -> start_error (io_thread_count (opts c)) r = None ->
  create_socket type_ r mailbox w = create_started type_ mailbox (start_world w c).
Proof.
  intros Hc Hs Hr. unfold create_socket. unfold sbind at 1, this at 1. rewrite Hc. cbn [obind deref].
  rewrite Hs. by rewrite (sbind_done _ _ _ _ _ (ctx_start_done w c r Hc Hr)).
Qed.

Lemma create_not_started w c type_ r mailbox e :
  the_ctx w = Some c -> starting c = true -> start_error (io_thread_count (opts c)) r = Some e ->
  exists tids n, create_socket type_ r mailbox w = Done (not_started w c tids n, inl e)
    /\ (gives_io_threads r -> tids = io_threads c /\ n = dones w).
Proof.
  intros Hc Hs Hr. eexists _, _. split.
  - unfold create_socket. unfold sbind at 1, this at 1. rewrite Hc. cbn [obind deref].
    rewrite Hs. by rewrite (sbind_done _ _ _ _ _ (start_fails w c r e Hc Hr)).
  - by destruct r.
Qed.

Lemma create_fresh w c type_ r mailbox :
  the_ctx w = Some c -> fresh w c -> ok_options (opts c) -> gives_io_threads r ->
  exists w' c' res, create_socket type_ r mailbox w = Done (w', res) /\ the_ctx w' = Some c' /\ opts c' = opts c
    /\ (fresh w' c' \/ running w' c' /\ capacity c' = Z.to_nat (max_sockets (opts c))).
Proof.
  intros Hc Hf Ho Hg. destruct (start_error (io_thread_count (opts c)) r) as [e|] eqn:Er.
  - destruct (create_not_started w c type_ r mailbox e Hc (proj1 Hf) Er) as (tids & n & E & Hn). destruct (Hn Hg) as [-> ->].
    eexists _, _, (inl e). split; [exact E|]. split; [reflexivity|]. split; [done|]. left. by apply not_started_fresh.
  - destruct (start_runs w c Hc Hf Ho) as (c1 & Hc1 & Hr1 & Ho1 & Ht1 & Hcap).
    destruct (create_running _ c1 type_ Started mailbox Hc1 Hr1) as (w' & c' & res & E' & Hc' & Hr' & [Hk1 Hk2]).
    exists w', c', res. split; [|split; [done|split; [congruence|right; split; [done|congruence]]]].
    rewrite (create_socket_started _ c1) in E' by (done || apply Hr1). rewrite <- E'.
    by apply create_starts; [|apply Hf|].
Qed.

Lemma running_step w c w' :
  ok_options (opts c) -> the_ctx w = Some c -> running w c -> step w w' ->
  (the_ctx w' = None /\ heap w' = ∅ /\ reaper_mail (the_reaper w') = [])
  \/ exists c', the_ctx w' = Some c' /\ running w' c' /\ capacity c' = capacity c /\ ok_options (opts c').
Proof.
  intros Ho Hc Hr Hst.
  assert (Hkept : forall w1 c1, the_ctx w1 = Some c1 -> running w1 c1 -> kept c c1 -> w1 = w' ->
    exists c', the_ctx w' = Some c' /\ running w' c' /\ capacity c' = capacity c /\ ok_options (opts c')).
  { intros w1 c1 ? ? [E1 E2] <-. exists c1. rewrite E1. by split_and!. }
  destruct Hst as [o z mf c0 e Hc0 Hok _ E|ty r mb res Hg E|s x Hx Hp E|E|ms wt c0 Hc0 Hms E|Hd E|d Hm Hb E|s x Hx Hp E].
  - right. rewrite Hc in Hc0. injection Hc0 as <-. unfold upd in E. rewrite Hc in E. injection E as <-.
    eexists. split; [reflexivity|]. destruct Hr as (? & ? & ? & [] & []).
    split; [|by split]. split; [done|]. split; [done|]. split; [by apply slots_ok_options, (slots_ok_ext w)|]. by split.
  - right. destruct (create_running w c ty r mb Hc Hr) as (w1 & c1 & res1 & E1 & ? & ? & ?). rewrite E in E1.
    injection E1 as <- <-. by apply (Hkept w' c1).
  - right. destruct (close_running w c s x Hc Hr Hx Hp) as (w1 & E1 & ? & ?). rewrite E in E1. injection E1 as <-.
    by apply (Hkept w' c).
  - right. destruct (shutdown_running w c Hc Hr) as (w1 & c1 & E1 & ? & ? & ? & _). rewrite E in E1. injection E1 as <-.
    by apply (Hkept w' c1).
  - right. rewrite Hc in Hc0. injection Hc0 as <-.
    destruct (terminate_begin_spec w c ms Hc Hr Hms) as [(_ & w1 & c1 & E1 & ? & ? & ? & _)|[_ E1]]; rewrite E in E1; [|done].
    injection E1 as <- _. by apply (Hkept w' c1).
  - left. destruct (terminate_end_done w c Hc Hr Hd) as (w1 & E1 & ?). rewrite E in E1. by injection E1 as <-.
  - right. destruct (event_running w c d Hc Hr Hm Hb) as (w1 & c1 & E1 & ? & ? & ? & _). rewrite E in E1. injection E1 as <-.
    by apply (Hkept w' c1).
  - right. destruct (finish_running w c s x Hc Hr Hx Hp) as (w1 & c1 & E1 & ? & ? & ? & _). rewrite E in E1. injection E1 as <-.
    by apply (Hkept w' c1).
Qed.

Lemma step_inv w w' : inv w -> step w w' -> inv w'.
Proof.
  unfold inv at 1. destruct (the_ctx w) as [c|] eqn:Hc.
  - intros [Ho [Hf|Hr]] Hst.
    2:{ destruct (running_step w c w' Ho Hc Hr Hst) as [(E & ? & ?)|(c' & E & ? & _ & ?)]; unfold inv; rewrite E; auto. }
    pose proof Hf as (Hs & Ht & Hio & He & Hso & Hre & Hh & Hd).
    destruct Hst as [o z mf c0 e Hc0 Hok _ E|ty r mb res Hg E|s x Hx Hp E|E|ms wt c0 Hc0 Hms E|Hd' E|d Hm Hb E|s x Hx Hp E].
    + rewrite Hc in Hc0. injection Hc0 as <-. unfold upd in E. rewrite Hc in E. injection E as <-. by split; [|left].
    + destruct (create_fresh w c ty r mb Hc Hf Ho Hg) as (w1 & c1 & res1 & E1 & Hc1 & Eo & Hr1). rewrite E in E1.
      injection E1 as <- <-. unfold inv. rewrite Hc1, Eo. split; [done|]. by destruct Hr1 as [?|[? _]]; auto.
    + by rewrite Hh in Hx.
    + unfold shutdown, sbind, this in E. rewrite Hc in E. cbn in E. rewrite Hs in E. injection E as <-. unfold inv. rewrite Hc. auto.
    + rewrite Hc in Hc0. injection Hc0 as <-. assert (ms = []) as ->.
      { destruct ms; [done|]. destruct (Hms ltac:(done)). by rewrite Hso. }
      unfold terminate_begin, delete_ctx, sbind, this, upd, sassert in E. rewrite Hc in E. cbn in E. rewrite Hc in E. cbn in E.
      rewrite Hs in E. cbn in E. rewrite Hso, Hio in E. cbn in E. injection E as <- <-.
      by split; cbn; rewrite ?Hh, ?Hre.
    + by rewrite Hd in Hd'.
    + by rewrite Hre in Hm.
    + by rewrite Hh in Hx.
  - intros [Hh Hm] Hst.
    destruct Hst as [o z mf c0 e Hc0 Hok _ E|ty r mb res Hg E|s x Hx Hp E|E|ms wt c0 Hc0 Hms E|Hd' E|d Hm' Hb E|s x Hx Hp E]; try congruence.
    + unfold create_socket, sbind, this in E. by rewrite Hc in E.
    + by rewrite Hh in Hx.
    + unfold shutdown, sbind, this in E. by rewrite Hc in E.
    + unfold terminate_end, sbind, sget, smod, this in E. cbn in E. destruct (dones w); [done|]. cbn in E. by rewrite Hc in E.
    + by rewrite Hh in Hx.
Qed.

Lemma steps_inv w w' : rtc step w w' -> inv w -> inv w'.
Proof. induction 1; eauto using step_inv. Qed.

Lemma reachable_inv max_fds w : ok_options (options_new max_fds) -> reachable max_fds w -> inv w.
Proof. intros Ho Hr. apply (steps_inv _ _ Hr). split; [exact Ho|left; by split_and!]. Qed.

(** What a context that has started can do. *)
Definition never_crashes (w : world) (c : ctx_t) : Prop :=
  (forall type_ r mailbox, create_socket type_ r mailbox w <> Crash)
  /\ (forall s x, heap w !! s = Some x -> socket_phase x = Used -> close s w <> Crash)
  /\ shutdown w <> Crash
  /\ (reaper_mail (the_reaper w) <> [] -> reaper_sockets (the_reaper w) < 2 ^ 31 - 1 -> forall d, in_event d w <> Crash)
  /\ (forall s x, heap w !! s = Some x -> socket_phase x = Reaping -> check_destroy true s w <> Crash)
  /\ (dones w <> 0%nat -> terminate_end w <> Crash)
  /\ (forall ms, (ms <> [] -> Array.items (sockets c) <> []) -> terminate_begin ms w = Crash <-> ~ can_connect ms c).


(** The number of sockets a context may have: of its slots, when it has started, or of its options. *)
Definition most_sockets (c : ctx_t) : nat := if starting c then Z.to_nat (max_sockets (opts c)) else capacity c.

(** The answer of [create_socket], apart from the start. *)
Definition create_answer (c : ctx_t) (n : nat) (type_ : Z) (mailbox : bool) : option errno :=
  if terminating c then Some ETERM
  else if decide (n = most_sockets c) then Some EMFILE
  else if negb (known_type type_) then Some EINVAL
  else if negb mailbox then Some EMFILE
  else None.

Lemma create_running_spec w c type_ r mailbox :
  the_ctx w = Some c -> running w c ->
  (size (heap w) <= capacity c)%nat /\
  exists w', match create_answer c (size (heap w)) type_ mailbox with
    | Some e => create_socket type_ r mailbox w = Done (w', inl e) /\ heap w' = heap w
    | None => exists x, create_socket type_ r mailbox w = Done (w', inr (next_socket w))
        /\ heap w !! next_socket w = None /\ heap w' = <[next_socket w := x]> (heap w)
        /\ socket_phase x = Used /\ forall s y, heap w !! s = Some y -> socket_tid y <> socket_tid x
    end.
Proof.
  intros Hc (Hst & _ & Hs & _ & _). pose proof (so_count _ _ Hs) as Hn. split; [lia|]. unfold create_answer, most_sockets. rewrite Hst.
  destruct (terminating c) eqn:Et; [exists w; split; [by apply (create_terminating w c)|done]|].
  destruct (decide (size (heap w) = capacity c)) as [Hfull|Hfull].
  { exists w. split; [|done]. apply (create_full w c); try done. apply length_zero_iff_nil. lia. }
  assert (He : empty_slots c <> []) by (intros He; rewrite He in Hn; simpl in Hn; lia).
  destruct (known_type type_ && mailbox) eqn:Ek.
  - apply andb_prop in Ek as [Hk ->]. rewrite Hk. simpl.
    destruct (create_makes w c type_ r true Hc Hs Hst Et He) as (t & El & E); [by rewrite Hk|].
    eexists _, _. split; [exact E|]. split; [by apply (fresh_socket w c)|]. split; [reflexivity|]. split; [done|].
    intros s y Hy. cbn. intros Ety. destruct (so_used _ _ Hs s y Hy) as [_ Hu].
    destruct (so_empty _ _ Hs t) as [_ Hem]; [rewrite <- (removelast_last_of _ _ El); apply elem_of_app; right; constructor|].
    rewrite Ety in Hu. congruence.
  - exists (numbered w). pose proof (create_refused w c type_ r mailbox Hc Hst Et He Ek) as E. unfold create_error in E.
    revert E Ek. destruct (known_type type_); simpl; [|done]. by intros E ->.
Qed.

(** C23: [create_socket] answers as it should on every branch.  The first call starts the context and fails with
    what the system refused, and then the next call starts it again; in a context that has started it fails
    with ETERM when the context terminates, with EMFILE when the context has as many sockets as its options said, with EINVAL
    for a type that is not known and with EMFILE without a mailbox, and no socket changes; otherwise it makes a
    socket with a slot of its own. *)
Theorem create_socket_spec max_fds w c type_ r mailbox :
  ok_options (options_new max_fds) -> reachable max_fds w -> the_ctx w = Some c ->
  (size (heap w) <= most_sockets c)%nat /\
  exists w',
    match (if starting c then start_error (io_thread_count (opts c)) r else None) with
    | Some e => create_socket type_ r mailbox w = Done (w', inl e) /\ heap w' = heap w
        /\ exists c', the_ctx w' = Some c' /\ starting c' = true /\ opts c' = opts c
    | None =>
        (exists c', the_ctx w' = Some c' /\ starting c' = false /\ capacity c' = most_sockets c) /\
        match create_answer c (size (heap w)) type_ mailbox with
        | Some e => create_socket type_ r mailbox w = Done (w', inl e) /\ heap w' = heap w
        | None => exists x, create_socket type_ r mailbox w = Done (w', inr (next_socket w))
            /\ heap w !! next_socket w = None /\ heap w' = <[next_socket w := x]> (heap w)
            /\ socket_phase x = Used /\ forall s y, heap w !! s = Some y -> socket_tid y <> socket_tid x
        end
    end.
Proof.
  intros Ho Hr Hc. pose proof (reachable_inv max_fds w Ho Hr) as Hi. unfold inv in Hi. rewrite Hc in Hi.
  assert (Hkept : forall v d w', the_ctx v = Some d -> running v d ->
    (exists res, create_socket type_ r mailbox v = Done (w', res)) -> exists c', the_ctx w' = Some c' /\ starting c' = false /\ capacity c' = capacity d).
  { intros v d w' Hv Hd (res & E). destruct (create_running v d type_ r mailbox Hv Hd) as (w1 & c1 & res1 & E1 & H1 & H2 & [_ H3]).
    rewrite E in E1. injection E1 as <- <-. exists c1. split; [done|]. split; [apply H2|done]. }
  destruct Hi as [Hoc [Hf|Hrun]].
  - pose proof (proj1 Hf) as Hst. rewrite Hst. unfold most_sockets at 1. rewrite Hst.
    pose proof Hf as (_ & Hte & _ & _ & _ & _ & Hh & _). rewrite Hh, map_size_empty. split; [lia|].
    destruct (start_error (io_thread_count (opts c)) r) as [e|] eqn:Er.
    + destruct (create_not_started w c type_ r mailbox e Hc Hst Er) as (tids & n & E & _). eexists. split; [exact E|]. split; [done|].
      eexists. split; [reflexivity|done].
    + destruct (start_runs w c Hc) as (c1 & Hc1 & Hr1 & Ho1 & Ht1 & Hcap); [done|done|].
      pose proof (create_starts w c type_ r mailbox Hc Hst Er) as Est.
      rewrite <- (create_socket_started _ c1 type_ r) in Est by (done || apply Hr1).
      destruct (create_running_spec _ c1 type_ r mailbox Hc1 Hr1) as (_ & w' & Hw). exists w'.
      change (heap (start_world w c)) with (heap w) in Hw. change (next_socket (start_world w c)) with (next_socket w) in Hw.
      assert (Ea : create_answer c1 (size (heap w)) type_ mailbox = create_answer c 0 type_ mailbox).
      { unfold create_answer, most_sockets. rewrite Hst, (proj1 Hr1), Hcap, Ht1, Hte, Hh, map_size_empty. done. }
      rewrite Ea, <- Est in Hw. rewrite Hh in Hw. split; [|exact Hw].
      unfold most_sockets. rewrite Hst, <- Hcap. apply (Hkept _ c1 w' Hc1 Hr1). rewrite <- Est.
      destruct (create_answer c 0 type_ mailbox); [destruct Hw as [-> _]|destruct Hw as (x & -> & _)]; by eexists.
  - pose proof (proj1 Hrun) as Hst. rewrite Hst. destruct (create_running_spec w c type_ r mailbox Hc Hrun) as (Hn & w' & Hw).
    unfold most_sockets. rewrite Hst. split; [done|]. exists w'. split; [|exact Hw]. apply (Hkept w c w' Hc Hrun).
    destruct (create_answer c (size (heap w)) type_ mailbox); [destruct Hw as [-> _]|destruct Hw as (x & -> & _)]; by eexists.
Qed.

(** ** The end of a context *)

(** The steps of the reaper thread. *)
Inductive reaper_step (w w' : world) : Prop :=
| reaper_event d : reaper_mail (the_reaper w) <> [] -> reaper_sockets (the_reaper w) < 2 ^ 31 - 1 ->
    in_event d w = Done (w', tt) -> reaper_step w w'
| reaper_finish s x : heap w !! s = Some x -> socket_phase x = Reaping ->
    check_destroy true s w = Done (w', tt) -> reaper_step w w'.


Lemma reaper_step_running w c w' :
  the_ctx w = Some c -> running w c -> reaper_step w w' ->
  exists c', the_ctx w' = Some c' /\ running w' c' /\ terminating c' = terminating c /\ progress w w'.
Proof.
  intros Hc Hr [d Hm Hb E|s x Hx Hp E].
  - destruct (event_running w c d Hc Hr Hm Hb) as (w1 & c1 & E1 & Hc1 & Hr1 & _ & Ht & Hp). rewrite E in E1.
    injection E1 as <-. by exists c1.
  - destruct (finish_running w c s x Hc Hr Hx Hp) as (w1 & c1 & E1 & Hc1 & Hr1 & _ & Ht & Hpr). rewrite E in E1.
    injection E1 as <-. by exists c1.
Qed.

Lemma reaper_idle w c :
  the_ctx w = Some c -> running w c -> terminating c = true -> none_used w -> Z.of_nat (work w) < 2 ^ 31 - 1 ->
  (forall w', ~ reaper_step w w') -> dones w = 1%nat.
Proof.
  intros Hc Hr Ht Hn Hb Hno. pose proof Hr as (_ & _ & Hs & [Hnd Hrp Hsk] & [ta tb _ _ _]).
  assert (Hm : reaper_mail (the_reaper w) = []).
  { destruct (reaper_mail (the_reaper w)) as [|cmd l] eqn:Em; [done|]. exfalso.
    assert (Hne : reaper_mail (the_reaper w) <> []) by (by rewrite Em).
    assert (Hlt : reaper_sockets (the_reaper w) < 2 ^ 31 - 1) by (unfold work in Hb; rewrite Em in Hb; lia).
    destruct (event_running w c false Hc Hr Hne Hlt) as (w1 & c1 & E1 & _).
    by apply (Hno w1), (reaper_event w w1 false). }
  assert (Hh : heap w = ∅).
  { apply map_empty. intros s. destruct (heap w !! s) as [x|] eqn:Hx; [|done]. exfalso.
    destruct (socket_phase x) eqn:Ep; [by apply (Hn s x Hx)| |].
    - assert (Hin : s ∈ reaps (reaper_mail (the_reaper w))) by (apply Hrp; by exists x).
      rewrite Hm in Hin. by apply not_elem_of_nil in Hin.
    - destruct (finish_running w c s x Hc Hr Hx Ep) as (w1 & c1 & E1 & _). by apply (Hno w1), (reaper_finish w w1 s x). }
  apply (is_empty_heap w c Hs) in Hh as He. rewrite Ht, He, Hm in ta. cbn [andb b2n] in ta.
  replace (count_of stop []) with 0%nat in ta by done.
  assert (Hz : reaper_sockets (the_reaper w) = 0).
  { rewrite Hm in Hsk. unfold sockets_in in Hsk. rewrite Hh, map_filter_empty, map_size_empty in Hsk. cbn in Hsk. lia. }
  destruct (reaper_terminating (the_reaper w)); [|done]. by rewrite tb, Hz.
Qed.

(** C15: a context that was asked to terminate, and whose sockets have all been closed, terminates: the
    reaper is finished after a bounded number of steps, whatever their order, and then it has said [done],
    once, and [terminate] deletes the context, with its I/O threads.  As in [context_safe] the system has not refused an I/O
    thread. *)
Theorem context_terminates max_fds w c n w' :
  ok_options (options_new max_fds) -> reachable max_fds w -> the_ctx w = Some c -> starting c = false ->
  terminating c = true -> none_used w -> Z.of_nat (work w) < 2 ^ 31 - 1 ->
  nsteps reaper_step n w w' ->
  (n <= work w)%nat /\
  ((forall w'', ~ reaper_step w' w'') ->
     dones w' = 1%nat /\ exists w'', terminate_end w' = Done (w'', tt) /\ the_ctx w'' = None).
Proof.
  intros Ho Hr Hc Hst Ht Hn Hb Hsteps. pose proof (reachable_inv max_fds w Ho Hr) as Hi. unfold inv in Hi.
  rewrite Hc in Hi. destruct Hi as [_ [[Hf _]|Hrun]]; [congruence|]. clear Ho Hr Hst. revert c Hc Hrun Ht Hn Hb.
  induction Hsteps as [w|n w w1 w' Hone _ IH]; intros c Hc Hrun Ht Hn Hb.
  - split; [lia|]. intros Hno. pose proof (reaper_idle w c Hc Hrun Ht Hn Hb Hno) as Hd. split; [done|].
    destruct (terminate_end_done w c Hc Hrun) as (w2 & E & Hc2 & _); [by rewrite Hd|]. by exists w2.
  - destruct (reaper_step_running w c w1 Hc Hrun Hone) as (c1 & Hc1 & Hrun1 & Ht1 & Hlt & Hn1).
    destruct (IH c1 Hc1 Hrun1) as [Hl Hend]; [congruence|by apply Hn1|lia|]. split; [lia|done].
Qed.

(** [terminate] only wakes up when nothing is left: when the reaper has said [done], it has said it
    once, every socket of the context has been deallocated and no command is on its way to the reaper;
    and while a socket is left it has not. *)
Theorem done_when_empty max_fds w c :
  ok_options (options_new max_fds) -> reachable max_fds w -> the_ctx w = Some c -> dones w <> 0%nat ->
  dones w = 1%nat /\ terminating c = true /\ heap w = ∅ /\ reaper_mail (the_reaper w) = [].
Proof.
  intros Ho Hr Hc Hd. pose proof (reachable_inv max_fds w Ho Hr) as Hi. unfold inv in Hi. rewrite Hc in Hi.
  destruct Hi as [_ [(_ & _ & _ & _ & _ & _ & _ & Hz)|Hrun]]; [done|].
  destruct (done_means w c Hrun Hd) as (? & ? & ? & ?). done.
Qed.

(** A context that has no socket yet ignores [shutdown]: the calls that follow make sockets as if it
    had not been called. *)
Theorem shutdown_before_start_lost max_fds w c type_ :
  ok_options (options_new max_fds) -> reachable max_fds w -> the_ctx w = Some c -> starting c = true ->
  known_type type_ = true ->
  shutdown w = Done (w, tt) /\ exists w' s, create_socket type_ Started true w = Done (w', inr s).
Proof.
  intros Ho Hr Hc Hst Hk. pose proof (reachable_inv max_fds w Ho Hr) as Hi. unfold inv in Hi. rewrite Hc in Hi.
  destruct Hi as [Hoc [Hf|[Hrun _]]]; [|congruence]. split.
  - unfold shutdown, sbind, this. rewrite Hc. cbn. by rewrite Hst.
  - destruct (start_runs w c Hc Hf Hoc) as (c1 & Hc1 & Hr1 & Ho1 & Ht1 & Hcap).
    destruct (create_running_spec _ c1 type_ Started true Hc1 Hr1) as (_ & w' & Hw).
    rewrite (create_socket_started _ c1) in Hw by (done || apply Hr1).
    rewrite <- (create_starts w c type_ Started true Hc Hst eq_refl) in Hw.
    unfold create_answer, most_sockets in Hw. rewrite (proj1 Hr1), Ht1, Hk, Hcap, decide_False in Hw.
    + destruct Hw as (x & E & _). by eexists _, _.
    + change (heap (start_world w c)) with (heap w). destruct Hf as (_ & _ & _ & _ & _ & _ & Hh & _). rewrite Hh, map_size_empty.
      destruct Hoc as (Hm & _). lia.
Qed.

(** ** Choosing an I/O thread *)

Definition eligible (affinity_ : Z) (i : nat) : Prop := affinity_ = 0 \/ Z.land affinity_ (2 ^ Z.of_nat i) <> 0.

(** The best of the first threads. *)
Definition best_of (loads : list Z) (affinity_ : Z) (best : option (Z * Z)) : Prop :=
  match best with
  | None => forall i l, loads !! i = Some l -> ~ eligible affinity_ i
  | Some (b, m) => exists k, b = Z.of_nat k /\ loads !! k = Some m /\ eligible affinity_ k
      /\ forall i l, loads !! i = Some l -> eligible affinity_ i -> m <= l /\ (l = m -> (k <= i)%nat)
  end.

Lemma choose_from_spec affinity_ loads pre best :
  (length pre + length loads <= 64)%nat -> best_of pre affinity_ best ->
  exists best', choose_from loads (Z.of_nat (length pre)) affinity_ best = fst <$> best'
    /\ best_of (pre ++ loads) affinity_ best'.
Proof.
  revert pre best. induction loads as [|l loads IH]; intros pre best Hlen Hb; simpl in Hlen.
  { exists best. by rewrite app_nil_r. }
  cbn [choose_from].
  set (b1 := if _ || _ then _ else best).
  assert (Hel : (affinity_ =? 0) || negb (Z.land affinity_ (u64 (Z.shiftl 1 (Z.of_nat (length pre)))) =? 0) = true
                <-> eligible affinity_ (length pre)).
  { unfold eligible. rewrite Z.shiftl_1_l, u64_small.
    - rewrite orb_true_iff, negb_true_iff, Z.eqb_eq, Z.eqb_neq. done.
    - split; [lia|]. change 18446744073709551616 with (2 ^ 64). apply Z.pow_lt_mono_r; lia. }
  assert (Hb1 : best_of (pre ++ [l]) affinity_ b1).
  { assert (Hlast : forall i l', (pre ++ [l]) !! i = Some l' -> pre !! i = Some l' \/ i = length pre /\ l' = l).
    { intros i l' [Hi|[Hi Hl]]%lookup_app_Some; [by left|]. right. apply list_lookup_singleton_Some in Hl as [? ->].
      split; [lia|done]. }
    unfold b1. destruct (_ || _) eqn:E.
    - pose proof (proj1 Hel eq_refl) as He0. destruct best as [[b m]|]; simpl in Hb.
      + destruct Hb as (k & -> & Hk & Hke & Hmin). pose proof (lookup_lt_Some _ _ _ Hk).
        destruct (Z.ltb_spec l m).
        * exists (length pre). split; [done|]. split; [by rewrite lookup_app_r, Nat.sub_diag by lia|]. split; [done|].
          intros i l' Hi He. destruct (Hlast i l' Hi) as [Hi'|[-> ->]]; [|lia]. destruct (Hmin i l' Hi' He). lia.
        * exists k. split; [done|]. split; [by apply lookup_app_l_Some|]. split; [done|].
          intros i l' Hi He. destruct (Hlast i l' Hi) as [Hi'|[-> ->]]; [by apply Hmin|lia].
      + exists (length pre). split; [done|]. split; [by rewrite lookup_app_r, Nat.sub_diag by lia|]. split; [done|].
        intros i l' Hi He. destruct (Hlast i l' Hi) as [Hi'|[-> ->]]; [by destruct (Hb i l' Hi')|lia].
    - assert (Hne : ~ eligible affinity_ (length pre)) by (intros He%Hel; congruence).
      destruct best as [[b m]|]; simpl in Hb |- *.
      + destruct Hb as (k & -> & Hk & Hke & Hmin). exists k. split; [done|]. split; [by apply lookup_app_l_Some|]. split; [done|].
        intros i l' Hi He. destruct (Hlast i l' Hi) as [Hi'|[-> ->]]; [by apply Hmin|done].
      + intros i l' Hi. destruct (Hlast i l' Hi) as [Hi'|[-> ->]]; [by apply (Hb i l')|done]. }
  destruct (IH (pre ++ [l]) b1) as (best' & E & Hb'); [rewrite length_app; simpl; lia|done|].
  exists best'. rewrite length_app in E. simpl in E. replace (Z.of_nat (length pre) + 1) with (Z.of_nat (length pre + 1)) by lia.
  split; [exact E|]. by rewrite <- app_assoc in Hb'.
Qed.

(** [choose_io_thread] chooses, of at most 64 threads, the first of the least loaded that the affinity
    allows, and none when it allows none. *)
Theorem choose_io_thread_least loads affinity_ :
  (length loads <= 64)%nat ->
  match choose_io_thread loads affinity_ with
  | None => forall i l, loads !! i = Some l -> ~ eligible affinity_ i
  | Some b => exists k m, b = Z.of_nat k /\ loads !! k = Some m /\ eligible affinity_ k
      /\ forall i l, loads !! i = Some l -> eligible affinity_ i -> m <= l /\ (l = m -> (k <= i)%nat)
  end.
Proof.
  intros Hl. unfold choose_io_thread.
  destruct (choose_from_spec affinity_ loads [] None) as (best & E & Hb); [done|by intros ?|].
  simpl in Hb. change (Z.of_nat (length (@nil Z))) with 0 in E. rewrite E. destruct best as [[b m]|]; simpl; [|done]. destruct Hb as (k & ?). by exists k, m.
Qed.

(** *** A run: two sockets at most, both made, closed and reaped *)

Definition after {A} (m : stm world A) (w : world) : world := match m w with Done (w', _) => w' | Crash => w end.

Definition lab0 : world := world_new (-1).
Definition lab1 : world := after (upd (with_opts (set (-1) 2 2 (options_new (-1))).1)) lab0.
Definition lab2 : world := after (create_socket 1 Started true) lab1.
Definition lab3 : world := after (create_socket 2 Started true) lab2.
Definition lab4 : world := after (close 0) lab3.
Definition lab5 : world := after (close 1) lab4.
Definition lab6 : world := after (terminate_begin []) lab5.
Definition lab7 : world := after (in_event false) lab6.
Definition lab8 : world := after (in_event true) lab7.
Definition lab9 : world := after (check_destroy true 0) lab8.
Definition lab10 : world := after (in_event false) lab9.
Definition lab11 : world := after (in_event false) lab10.
Definition lab12 : world := after (in_event false) lab11.

(** A context that was refused an I/O thread cannot be terminated.  The reaper that [start] stops says [done], which stays
    in the mailbox of [terminate]: the next call of [create_socket] starts the context again, and [terminate] then does
    not wait for the socket, and [zmq_assert (sockets.empty ())] fails.  The I/O threads that ran before the one that was refused stay
    in [io_threads]: when the context is terminated instead, its destructor sends them [stop] through [slots], which was freed. *)
Theorem refused_io_thread_spoils :
  match (let! r1 := create_socket 1 (BadIoThread 0) true in
         let! r2 := create_socket 1 Started true in
         let! wait := terminate_begin [] in
         sret (r1, r2, wait)) lab1 with
  | Done (w, r) => r = (inl EMFILE, inr 0%nat, true) /\ size (heap w) = 1%nat /\ dones w = 1%nat /\ terminate_end w = Crash
  | Crash => False
  end /\
  match create_socket 1 (NoIoThread 1) true (after (upd (with_opts (set (-1) 1 2 (options_new (-1))).1)) lab0) with
  | Done (w, r) => r = inl ENOMEM /\ terminate_begin [] w = Crash
  | Crash => False
  end.
Proof. split; vm_compute; done. Qed.

Lemma lab_options : ok_options (options_new (-1)).
Proof. vm_compute. by split_and!. Qed.

Definition ctx_of (w : world) : ctx_t := default (ctx_new (-1)) (the_ctx w).

Lemma lab_step {A} (m : stm world A) w a :
  m w = Done (after m w, a) -> (forall w', m w = Done (w', a) -> step w w') -> reachable (-1) w -> reachable (-1) (after m w).
Proof. intros E Hst Hr. eapply rtc_r; [exact Hr|]. by apply Hst. Qed.

Lemma lab1_reachable : reachable (-1) lab1.
Proof.
  apply rtc_once. refine (SetOption lab0 lab1 2 2 (-1) (ctx_new (-1)) None _ _ _ _); [reflexivity| |reflexivity|reflexivity].
  vm_compute. by split_and!.
Qed.

Lemma lab3_reachable : reachable (-1) lab3.
Proof.
  apply (lab_step _ _ (inr 1%nat)); [vm_compute; reflexivity|intros w' E; exact (Create _ _ 2 Started true _ I E)|].
  apply (lab_step _ _ (inr 0%nat)); [vm_compute; reflexivity|intros w' E; exact (Create _ _ 1 Started true _ I E)|].
  exact lab1_reachable.
Qed.

Lemma lab6_reachable : reachable (-1) lab6.
Proof.
  apply (lab_step _ _ true); [vm_compute; reflexivity|intros w' E; exact (Terminate lab5 _ [] true (ctx_of lab5) eq_refl (fun H => match H eq_refl with end) E)|].
  apply (lab_step _ _ tt); [vm_compute; reflexivity|
    intros w' E; exact (Close lab4 _ 1 (Socket 4 2 Used 0) ltac:(vm_compute; reflexivity) eq_refl E)|].
  apply (lab_step _ _ tt); [vm_compute; reflexivity|
    intros w' E; exact (Close lab3 _ 0 (Socket 3 1 Used 0) ltac:(vm_compute; reflexivity) eq_refl E)|].
  exact lab3_reachable.
Qed.

Lemma lab6_unused : none_used lab6.
Proof.
  assert (E : map_Forall (fun (_ : nat) x => socket_phase x <> Used) (heap lab6)); [|exact E].
  apply (bool_decide_unpack _). vm_compute. exact I.
Qed.

Lemma lab_run : nsteps reaper_step 6 lab6 lab12.
Proof.
  apply (nsteps_l _ _ lab6 lab7); [refine (reaper_event _ _ false _ _ _); vm_compute; done|].
  apply (nsteps_l _ _ lab7 lab8); [refine (reaper_event _ _ true _ _ _); vm_compute; done|].
  apply (nsteps_l _ _ lab8 lab9); [refine (reaper_finish _ _ 0 (Socket 3 1 Reaping 1) _ _ _); vm_compute; done|].
  apply (nsteps_l _ _ lab9 lab10); [refine (reaper_event _ _ false _ _ _); vm_compute; done|].
  apply (nsteps_l _ _ lab10 lab11); [refine (reaper_event _ _ false _ _ _); vm_compute; done|].
  apply (nsteps_l _ _ lab11 lab12); [refine (reaper_event _ _ false _ _ _); vm_compute; done|].
  constructor.
Qed.


Lemma create_socket_spec_witness :
  create_socket 9 Started true lab3 = Done (lab3, inl EMFILE) /\ most_sockets (ctx_of lab3) = 2%nat /\
  ((size (heap lab3) <= most_sockets (ctx_of lab3))%nat /\
   exists w', (exists c', the_ctx w' = Some c' /\ starting c' = false /\ capacity c' = most_sockets (ctx_of lab3))
     /\ create_socket 9 Started true lab3 = Done (w', inl EMFILE) /\ heap w' = heap lab3).
Proof.
  split; [vm_compute; reflexivity|]. split; [vm_compute; reflexivity|].
  exact (create_socket_spec (-1) lab3 (ctx_of lab3) 9 Started true lab_options lab3_reachable eq_refl).
Defined.

Lemma context_terminates_witness :
  dones lab12 = 1%nat /\ work lab6 = 8%nat /\
  ((6 <= work lab6)%nat /\
  ((forall w'', ~ reaper_step lab12 w'') ->
     dones lab12 = 1%nat /\ exists w'', terminate_end lab12 = Done (w'', tt) /\ the_ctx w'' = None)).
Proof.
  split; [vm_compute; reflexivity|]. split; [vm_compute; reflexivity|].
  refine (context_terminates (-1) lab6 (ctx_of lab6) 6 lab12 lab_options lab6_reachable eq_refl eq_refl eq_refl lab6_unused _ lab_run).
  vm_compute. reflexivity.
Defined.

Lemma lab12_reachable : reachable (-1) lab12.
Proof.
  apply (lab_step _ _ tt); [vm_compute; reflexivity|intros w' E; refine (Event lab11 w' false _ _ E); vm_compute; done|].
  apply (lab_step _ _ tt); [vm_compute; reflexivity|intros w' E; refine (Event lab10 w' false _ _ E); vm_compute; done|].
  apply (lab_step _ _ tt); [vm_compute; reflexivity|intros w' E; refine (Event lab9 w' false _ _ E); vm_compute; done|].
  apply (lab_step _ _ tt); [vm_compute; reflexivity|intros w' E; refine (Finish lab8 w' 0 (Socket 3 1 Reaping 1) _ _ E); vm_compute; done|].
  apply (lab_step _ _ tt); [vm_compute; reflexivity|intros w' E; refine (Event lab7 w' true _ _ E); vm_compute; done|].
  apply (lab_step _ _ tt); [vm_compute; reflexivity|intros w' E; refine (Event lab6 w' false _ _ E); vm_compute; done|].
  exact lab6_reachable.
Qed.

Lemma done_when_empty_witness :
  dones lab12 = 1%nat /\ terminating (ctx_of lab12) = true /\ heap lab12 = ∅ /\ reaper_mail (the_reaper lab12) = [].
Proof.
  refine (done_when_empty (-1) lab12 (ctx_of lab12) lab_options lab12_reachable eq_refl _). vm_compute. done.
Defined.

Lemma shutdown_before_start_lost_witness :
  the_ctx lab1 = Some (ctx_of lab1) /\
  shutdown lab1 = Done (lab1, tt) /\ exists w' s, create_socket 9 Started true lab1 = Done (w', inr s).
Proof.
  split; [reflexivity|].
  exact (shutdown_before_start_lost (-1) lab1 (ctx_of lab1) 9 lab_options lab1_reachable eq_refl eq_refl eq_refl).
Defined.

(** A context that is full, and one of whose sockets waits for a bind, cannot be terminated. *)
Lemma terminate_aborts_when_full :
  reachable (-1) lab3 /\ Array.items (sockets (ctx_of lab3)) = [0; 1]%nat /\ terminate_begin [true] lab3 = Crash.
Proof. split; [exact lab3_reachable|]. split; vm_compute; reflexivity. Qed.

Lemma choose_io_thread_least_witness :
  choose_io_thread [3; 1; 1] 5 = Some 2 /\
  match choose_io_thread [3; 1; 1] 5 with
  | None => forall i l, [3; 1; 1] !! i = Some l -> ~ eligible 5 i
  | Some b => exists k m, b = Z.of_nat k /\ [3; 1; 1] !! k = Some m /\ eligible 5 k
      /\ forall i l, [3; 1; 1] !! i = Some l -> eligible 5 i -> m <= l /\ (l = m -> (k <= i)%nat)
  end.
Proof. split; [vm_compute; reflexivity|]. exact (choose_io_thread_least [3; 1; 1] 5 ltac:(simpl; lia)). Defined.
End Ctx.
