(* ===== verification/Pipe.v ===== *)
(** * Pipe: pipe_t, an end of a bidirectional pipe between two objects (libzmq/src/pipe.cpp)

    [pipepair] makes two ends joined by two queues, one per direction, and by the
    commands they send each other.  The state of the model is both ends, the heap of
    queues and the commands on their way to each end, in the order in which they
    were sent.  A method is one step of the end's thread; the queues are those of
    [Yp] and [Conflate], in the abstract form those files justify.  An end that has
    been deleted is [None], and a command to it, like a freed queue, is [Crash].  *)

From S2P Require Import Prelude Pipes Yqueue Ypipe Conflate.

Module Pipe.

Section Pipe.
Context {T : Type} `{Message T}.

(** [ypipe_base_t<msg_t>]: one of its two classes. *)
Inductive upipe : Type :=
| Normal (y : @Yp.spipe T)
| Conflated (y : @Conflate.cpipe T).

Inductive pstate : Type :=
| active
| delimiter_received
| waiting_for_delimiter
| term_ack_sent
| term_req_sent1
| term_req_sent2.

#[global] Instance pstate_eq_dec : EqDecision pstate.
Proof. solve_decision. Defined.

(** The counters and watermarks of an end. *)
Record flow : Type := Flow {
  hwm : Z;
  lwm : Z;
  inhwmboost : Z;
  outhwmboost : Z;
  msgs_read : Z;
  msgs_written : Z;
  peers_msgs_read : Z
}.

(** An end; its peer is the other end of the pair. *)
Record pipe_t : Type := Pipe {
  inpipe : nat;
  outpipe : option nat;
  in_active : bool;
  out_active : bool;
  counts : flow;
  sink : bool;
  state : pstate;
  delay : bool;
  conflate : bool;
  credential : list Z
}.

Definition set_inpipe (i : nat) (p : pipe_t) : pipe_t :=
  Pipe i (outpipe p) (in_active p) (out_active p) (counts p) (sink p) (state p) (delay p) (conflate p) (credential p).
Definition set_outpipe (o : option nat) (p : pipe_t) : pipe_t :=
  Pipe (inpipe p) o (in_active p) (out_active p) (counts p) (sink p) (state p) (delay p) (conflate p) (credential p).
Definition set_in_active (b : bool) (p : pipe_t) : pipe_t :=
  Pipe (inpipe p) (outpipe p) b (out_active p) (counts p) (sink p) (state p) (delay p) (conflate p) (credential p).
Definition set_out_active (b : bool) (p : pipe_t) : pipe_t :=
  Pipe (inpipe p) (outpipe p) (in_active p) b (counts p) (sink p) (state p) (delay p) (conflate p) (credential p).
Definition set_counts (c : flow) (p : pipe_t) : pipe_t :=
  Pipe (inpipe p) (outpipe p) (in_active p) (out_active p) c (sink p) (state p) (delay p) (conflate p) (credential p).
Definition set_sink (b : bool) (p : pipe_t) : pipe_t :=
  Pipe (inpipe p) (outpipe p) (in_active p) (out_active p) (counts p) b (state p) (delay p) (conflate p) (credential p).
Definition set_state (s : pstate) (p : pipe_t) : pipe_t :=
  Pipe (inpipe p) (outpipe p) (in_active p) (out_active p) (counts p) (sink p) s (delay p) (conflate p) (credential p).
Definition set_delay (b : bool) (p : pipe_t) : pipe_t :=
  Pipe (inpipe p) (outpipe p) (in_active p) (out_active p) (counts p) (sink p) (state p) b (conflate p) (credential p).
Definition set_credential (d : list Z) (p : pipe_t) : pipe_t :=
  Pipe (inpipe p) (outpipe p) (in_active p) (out_active p) (counts p) (sink p) (state p) (delay p) (conflate p) d.

Definition with_read (n : Z) (c : flow) : flow :=
  Flow (hwm c) (lwm c) (inhwmboost c) (outhwmboost c) n (msgs_written c) (peers_msgs_read c).
Definition with_written (n : Z) (c : flow) : flow :=
  Flow (hwm c) (lwm c) (inhwmboost c) (outhwmboost c) (msgs_read c) n (peers_msgs_read c).
Definition with_peers (n : Z) (c : flow) : flow :=
  Flow (hwm c) (lwm c) (inhwmboost c) (outhwmboost c) (msgs_read c) (msgs_written c) n.
Definition with_marks (h l : Z) (c : flow) : flow :=
  Flow h l (inhwmboost c) (outhwmboost c) (msgs_read c) (msgs_written c) (peers_msgs_read c).
Definition with_boosts (i o : Z) (c : flow) : flow :=
  Flow (hwm c) (lwm c) i o (msgs_read c) (msgs_written c) (peers_msgs_read c).

(** The commands between ends. *)
Inductive command : Type :=
| activate_read
| activate_write (msgs_read : Z)
| hiccup_cmd (pipe : nat)
| pipe_term
| pipe_term_ack
| pipe_hwm (inhwm outhwm : Z).

(** The calls of [i_pipe_events]. *)
Inductive event : Type := ReadActivated | WriteActivated | Hiccuped | PipeTerminated.

#[global] Instance command_eq_dec : EqDecision command.
Proof. solve_decision. Defined.

(** Both ends and what joins them: the commands on their way to each end, the calls
    each sink has received, and the messages the pipe has closed. *)
Record sys : Type := Sys {
  upipes : gmap nat upipe;
  next_upipe : nat;
  ends : bool -> option pipe_t;
  mail : bool -> list command;
  calls : bool -> list event;
  closed : list T
}.

Definition upd_at {A} (e : bool) (x : A) (f : bool -> A) : bool -> A :=
  fun e' => if eqb e' e then x else f e'.

Definition with_end (e : bool) (p : option pipe_t) (s : sys) : sys :=
  Sys (upipes s) (next_upipe s) (upd_at e p (ends s)) (mail s) (calls s) (closed s).
Definition with_mail (e : bool) (l : list command) (s : sys) : sys :=
  Sys (upipes s) (next_upipe s) (ends s) (upd_at e l (mail s)) (calls s) (closed s).
Definition with_upipes (h : gmap nat upipe) (s : sys) : sys :=
  Sys h (next_upipe s) (ends s) (mail s) (calls s) (closed s).
Definition with_closed (l : list T) (s : sys) : sys :=
  Sys (upipes s) (next_upipe s) (ends s) (mail s) (calls s) l.

(** ** Accesses *)

Definition this (e : bool) : stm sys pipe_t := fun s => let* p := deref (ends s e) in Done (s, p).

Definition upd (e : bool) (f : pipe_t -> pipe_t) : stm sys unit :=
  fun s => let* p := deref (ends s e) in Done (with_end e (Some (f p)) s, tt).

(** [send_command] reads the thread of its destination, the peer. *)
Definition send (e : bool) (c : command) : stm sys unit :=
  fun s => let* _ := deref (ends s (negb e)) in
           Done (with_mail (negb e) (mail s (negb e) ++ [c]) s, tt).

(** [sink->...]: the sink's own work is done by the steps that follow. *)
Definition notify (e : bool) (ev : event) : stm sys unit :=
  let! p := this e in
  sassert (sink p) ;;;
  (fun s => Done (Sys (upipes s) (next_upipe s) (ends s) (mail s)
                      (upd_at e (calls s e ++ [ev]) (calls s)) (closed s), tt)).

(** [msg.close ()]; what it does to the contents is in [Msg]. *)
Definition close (m : T) : stm sys unit := fun s => Done (with_closed (closed s ++ [m]) s, tt).

(** A virtual call on a queue of the heap. *)
Definition call {A} (i : nat) (f : upipe -> outcome (A * upipe)) : stm sys A :=
  fun s => let* y := deref (upipes s !! i) in
           let* (a, y) := f y in Done (with_upipes (<[i := y]> (upipes s)) s, a).

Definition u_write (contended : bool) (m : T) (incomplete : bool) (y : upipe) : outcome (option T * upipe) :=
  match y with
  | Normal y => Done (None, Normal (Yp.s_write m incomplete y))
  | Conflated y => let (old, y) := Conflate.write contended m incomplete y in Done (Some old, Conflated y)
  end.

Definition u_unwrite (y : upipe) : outcome (option T * upipe) :=
  match y with
  | Normal y => let (v, y) := Yp.s_unwrite y in Done (v, Normal y)
  | Conflated y => let (v, y) := Conflate.unwrite y in Done (v, Conflated y)
  end.

Definition u_flush (y : upipe) : outcome (bool * upipe) :=
  match y with
  | Normal y => let (b, y) := Yp.s_flush y in Done (b, Normal y)
  | Conflated y => let (b, y) := Conflate.flush y in Done (b, Conflated y)
  end.

Definition u_check_read (y : upipe) : outcome (bool * upipe) :=
  match y with
  | Normal y => let (b, y) := Yp.s_check_read y in Done (b, Normal y)
  | Conflated y => let (b, y) := Conflate.check_read y in Done (b, Conflated y)
  end.

Definition u_read (y : upipe) : outcome (option T * upipe) :=
  match y with
  | Normal y => let (v, y) := Yp.s_read y in Done (v, Normal y)
  | Conflated y => let (v, y) := Conflate.read y in Done (v, Conflated y)
  end.

(** [ypipe_t::probe] asserts that there is a message. *)
Definition u_probe (fn : T -> bool) (y : upipe) : outcome (bool * upipe) :=
  match y with
  | Normal y =>
    let (rc, y) := Yp.s_check_read y in
    match Yp.flushed y with
    | m :: _ => zmq_assert rc (Done (fn m, Normal y))
    | [] => Crash
    end
  | Conflated y => let (b, y) := Conflate.probe fn y in Done (b, Conflated y)
  end.

Definition up_write (contended : bool) (i : nat) (m : T) (incomplete : bool) : stm sys unit :=
  let! old := call i (u_write contended m incomplete) in
  match old with Some m => close m | None => sret tt end.

Definition up_unwrite (i : nat) : stm sys (option T) := call i u_unwrite.
Definition up_flush (i : nat) : stm sys bool := call i u_flush.
Definition up_check_read (i : nat) : stm sys bool := call i u_check_read.
Definition up_read (i : nat) : stm sys (option T) := call i u_read.
Definition up_probe (i : nat) (fn : T -> bool) : stm sys bool := call i (u_probe fn).

Definition up_delete (i : nat) : stm sys unit :=
  fun s => let* _ := deref (upipes s !! i) in Done (with_upipes (delete i (upipes s)) s, tt).

Definition up_new (c : bool) : stm sys nat :=
  fun s => let i := next_upipe s in
           Done (Sys (<[i := if c then Conflated Conflate.cpipe_new else Normal Yp.spipe_new]> (upipes s)) (S i)
                     (ends s) (mail s) (calls s) (closed s), i).

(** How many messages can be read, and unwritten: bounds for the loops that take
    them all. *)
Definition up_unread (i : nat) : stm sys nat :=
  fun s => let* y := deref (upipes s !! i) in
           Done (s, match y with Normal y => length (Yp.flushed y) | Conflated _ => 1%nat end).

Definition up_partial (i : nat) : stm sys nat :=
  fun s => let* y := deref (upipes s !! i) in
           Done (s, match y with Normal y => length (Yp.partial y) | Conflated _ => 0%nat end).

(** ** The methods of [pipe_t] *)

(** [state == active || state == waiting_for_delimiter] *)
Definition reading (p : pipe_t) : bool :=
  bool_decide (state p = active) || bool_decide (state p = waiting_for_delimiter).

Definition process_delimiter (e : bool) : stm sys unit :=
  let! p := this e in
  sassert (reading p) ;;;
  if bool_decide (state p = active) then upd e (set_state delimiter_received)
  else
    upd e (set_outpipe None) ;;;
    send e pipe_term_ack ;;;
    upd e (set_state term_ack_sent).

Definition check_read (e : bool) : stm sys bool :=
  let! p := this e in
  if negb (in_active p) then sret false
  else if negb (reading p) then sret false
  else
    let! ok := up_check_read (inpipe p) in
    if negb ok then upd e (set_in_active false) ;;; sret false
    else
      let! d := up_probe (inpipe p) is_delimiter in
      if d then
        let! m := up_read (inpipe p) in
        sassert (if m is Some _ then true else false) ;;;
        process_delimiter e ;;; sret false
      else sret true.

(** [read_message:] is the loop; credentials are taken out of it. *)
Fixpoint read_message (fuel : nat) (e : bool) : stm sys (option T) :=
  let! p := this e in
  let! m := up_read (inpipe p) in
  match m with
  | None => upd e (set_in_active false) ;;; sret None
  | Some m =>
    if is_credential m then
      upd e (set_credential (msg_data m)) ;;;
      close m ;;;
      match fuel with
      | O => scrash
      | S fuel => read_message fuel e
      end
    else if is_delimiter m then process_delimiter e ;;; sret None
    else
      (if negb (has_more m) && negb (is_routing_id m)
       then upd e (fun p => set_counts (with_read (u64 (msgs_read (counts p) + 1)) (counts p)) p)
       else sret tt) ;;;
      let! p := this e in
      (if (0 <? lwm (counts p)) && (msgs_read (counts p) mod lwm (counts p) =? 0)
       then send e (activate_write (msgs_read (counts p)))
       else sret tt) ;;;
      sret (Some m)
  end.

Definition read (e : bool) : stm sys (option T) :=
  let! p := this e in
  if negb (in_active p) then sret None
  else if negb (reading p) then sret None
  else let! n := up_unread (inpipe p) in read_message n e.

Definition check_hwm (p : pipe_t) : bool :=
  let c := counts p in
  let full := (0 <? hwm c) && (hwm c <=? u64 (msgs_written c - peers_msgs_read c)) in
  negb full.

Definition check_write (e : bool) : stm sys bool :=
  let! p := this e in
  if negb (out_active p) || negb (bool_decide (state p = active)) then sret false
  else
    let full := negb (check_hwm p) in
    if full then upd e (set_out_active false) ;;; sret false
    else sret true.

(** [outpipe] is used without a test here. *)
Definition write (contended : bool) (e : bool) (m : T) : stm sys bool :=
  let! ok := check_write e in
  if negb ok then sret false
  else
    let more := has_more m in
    let! p := this e in
    let! o := slift (deref (outpipe p)) in
    up_write contended o m more ;;;
    (if negb more && negb (is_routing_id m)
     then upd e (fun p => set_counts (with_written (u64 (msgs_written (counts p) + 1)) (counts p)) p)
     else sret tt) ;;;
    sret true.

Fixpoint unwrite_all (fuel : nat) (o : nat) : stm sys unit :=
  let! m := up_unwrite o in
  match m with
  | None => sret tt
  | Some m =>
    sassert (has_more m) ;;;
    close m ;;;
    match fuel with
    | O => scrash
    | S fuel => unwrite_all fuel o
    end
  end.

Definition rollback (e : bool) : stm sys unit :=
  let! p := this e in
  match outpipe p with
  | None => sret tt
  | Some o => let! n := up_partial o in unwrite_all n o
  end.

Definition flush (e : bool) : stm sys unit :=
  let! p := this e in
  if bool_decide (state p = term_ack_sent) then sret tt
  else
    match outpipe p with
    | None => sret tt
    | Some o =>
      let! awake := up_flush o in
      if negb awake then send e activate_read else sret tt
    end.

Definition process_activate_read (e : bool) : stm sys unit :=
  let! p := this e in
  if negb (in_active p) && reading p then
    upd e (set_in_active true) ;;; notify e ReadActivated
  else sret tt.

Definition process_activate_write (n : Z) (e : bool) : stm sys unit :=
  upd e (fun p => set_counts (with_peers n (counts p)) p) ;;;
  let! p := this e in
  if negb (out_active p) && bool_decide (state p = active) then
    upd e (set_out_active true) ;;; notify e WriteActivated
  else sret tt.

(** Reading the old outbound pipe until it is empty. *)
Fixpoint drop_unread (fuel : nat) (e : bool) (o : nat) : stm sys unit :=
  let! m := up_read o in
  match m with
  | None => sret tt
  | Some m =>
    (if negb (has_more m)
     then upd e (fun p => set_counts (with_written (u64 (msgs_written (counts p) - 1)) (counts p)) p)
     else sret tt) ;;;
    close m ;;;
    match fuel with
    | O => scrash
    | S fuel => drop_unread fuel e o
    end
  end.

Definition process_hiccup (pipe_ : nat) (e : bool) : stm sys unit :=
  let! p := this e in
  let! o := slift (deref (outpipe p)) in
  up_flush o ;;;
  let! n := up_unread o in
  drop_unread n e o ;;;
  up_delete o ;;;
  upd e (set_outpipe (Some pipe_)) ;;;
  upd e (set_out_active true) ;;;
  let! p := this e in
  if bool_decide (state p = active) then notify e Hiccuped else sret tt.

Definition process_pipe_term (e : bool) : stm sys unit :=
  let! p := this e in
  match state p with
  | active =>
    if delay p then upd e (set_state waiting_for_delimiter)
    else
      upd e (set_state term_ack_sent) ;;;
      upd e (set_outpipe None) ;;;
      send e pipe_term_ack
  | delimiter_received =>
    upd e (set_state term_ack_sent) ;;;
    upd e (set_outpipe None) ;;;
    send e pipe_term_ack
  | term_req_sent1 =>
    upd e (set_state term_req_sent2) ;;;
    upd e (set_outpipe None) ;;;
    send e pipe_term_ack
  | _ => scrash
  end.

(** Reading the inbound pipe until it is empty. *)
Fixpoint close_unread (fuel : nat) (i : nat) : stm sys unit :=
  let! m := up_read i in
  match m with
  | None => sret tt
  | Some m =>
    close m ;;;
    match fuel with
    | O => scrash
    | S fuel => close_unread fuel i
    end
  end.

(** [delete this] *)
Definition delete_this (e : bool) : stm sys unit := fun s => Done (with_end e None s, tt).

Definition process_pipe_term_ack (e : bool) : stm sys unit :=
  notify e PipeTerminated ;;;
  let! p := this e in
  (if bool_decide (state p = term_req_sent1) then
     upd e (set_outpipe None) ;;; send e pipe_term_ack
   else sassert (bool_decide (state p = term_ack_sent) || bool_decide (state p = term_req_sent2))) ;;;
  (if negb (conflate p)
   then let! n := up_unread (inpipe p) in close_unread n (inpipe p)
   else sret tt) ;;;
  up_delete (inpipe p) ;;;
  delete_this e.

Definition set_nodelay (e : bool) : stm sys unit := upd e (set_delay false).

Definition terminate (contended : bool) (delay_ : bool) (e : bool) : stm sys unit :=
  upd e (set_delay delay_) ;;;
  let! p := this e in
  let rest :=
    upd e (set_out_active false) ;;;
    let! p := this e in
    match outpipe p with
    | None => sret tt
    | Some o =>
      rollback e ;;;
      up_write contended o msg_delimiter false ;;;
      flush e
    end in
  match state p with
  | term_req_sent1 | term_req_sent2 => sret tt
  | term_ack_sent => sret tt
  | active => send e pipe_term ;;; upd e (set_state term_req_sent1) ;;; rest
  | waiting_for_delimiter =>
    if negb (delay p) then
      rollback e ;;;
      upd e (set_outpipe None) ;;;
      send e pipe_term_ack ;;;
      upd e (set_state term_ack_sent) ;;;
      rest
    else rest
  | delimiter_received => send e pipe_term ;;; upd e (set_state term_req_sent1) ;;; rest
  end.

(** [(hwm_ + 1) / 2], rounded towards zero. *)
Definition compute_lwm (hwm_ : Z) : Z := Z.quot (i32 (hwm_ + 1)) 2.

Definition hiccup (e : bool) : stm sys unit :=
  let! p := this e in
  if negb (bool_decide (state p = active)) then sret tt
  else
    let! i := up_new (conflate p) in
    upd e (set_inpipe i) ;;;
    upd e (set_in_active true) ;;;
    send e (hiccup_cmd i).

Definition hwms (inhwm_ outhwm_ : Z) (c : flow) : flow :=
  let in_ := i32 (inhwm_ + (if 0 <? inhwmboost c then inhwmboost c else 0)) in
  let out := i32 (outhwm_ + (if 0 <? outhwmboost c then outhwmboost c else 0)) in
  let in_ := if (inhwm_ <=? 0) || (inhwmboost c =? 0) then 0 else in_ in
  let out := if (outhwm_ <=? 0) || (outhwmboost c =? 0) then 0 else out in
  with_marks out (compute_lwm in_) c.

Definition set_hwms (inhwm_ outhwm_ : Z) (e : bool) : stm sys unit :=
  upd e (fun p => set_counts (hwms inhwm_ outhwm_ (counts p)) p).

Definition set_hwms_boost (inhwmboost_ outhwmboost_ : Z) (e : bool) : stm sys unit :=
  upd e (fun p => set_counts (with_boosts inhwmboost_ outhwmboost_ (counts p)) p).

Definition send_hwms_to_peer (inhwm_ outhwm_ : Z) (e : bool) : stm sys unit :=
  send e (pipe_hwm inhwm_ outhwm_).

Definition process_pipe_hwm (inhwm_ outhwm_ : Z) (e : bool) : stm sys unit := set_hwms inhwm_ outhwm_ e.

Definition set_event_sink (e : bool) : stm sys unit :=
  let! p := this e in sassert (negb (sink p)) ;;; upd e (set_sink true).

(** The constructor, and [pipepair]: end [false] is [pipes_[0]]. *)
Definition pipe_new (inpipe_ outpipe_ : nat) (inhwm_ outhwm_ : Z) (conflate_ : bool) : pipe_t :=
  Pipe inpipe_ (Some outpipe_) true true
       (Flow outhwm_ (compute_lwm inhwm_) (-1) (-1) 0 0 0)
       false active true conflate_ [].

Definition pipepair (hwm0 hwm1 : Z) (conflate0 conflate1 : bool) : sys :=
  let new (c : bool) := if c then Conflated Conflate.cpipe_new else Normal Yp.spipe_new in
  Sys (<[0%nat := new conflate0]> (<[1%nat := new conflate1]> ∅)) 2
      (fun e => Some (if e then pipe_new 1 0 hwm0 hwm1 conflate1 else pipe_new 0 1 hwm1 hwm0 conflate0))
      (fun _ => []) (fun _ => []) [].

(** [object_t::process_command], on the next command for an end. *)
Definition process_command (c : command) (e : bool) : stm sys unit :=
  match c with
  | activate_read => process_activate_read e
  | activate_write n => process_activate_write n e
  | hiccup_cmd i => process_hiccup i e
  | pipe_term => process_pipe_term e
  | pipe_term_ack => process_pipe_term_ack e
  | pipe_hwm i o => process_pipe_hwm i o e
  end.

Definition process_next (e : bool) : stm sys unit :=
  fun s => match mail s e with
           | [] => Done (s, tt)
           | c :: l => process_command c e (with_mail e l s)
           end.

(** ** Runs *)

(** What the owner of an end may call, and the processing of its next command. *)
Inductive action : Type :=
| CheckRead
| Read
| CheckWrite
| Write (contended : bool) (m : T)
| Rollback
| Flush
| Hiccup
| SetNodelay
| Terminate (contended delay : bool)
| SetHwms (inhwm outhwm : Z)
| SetHwmsBoost (inboost outboost : Z)
| SendHwms (inhwm outhwm : Z)
| Process.

Inductive result : Type :=
| RUnit
| RBool (b : bool)
| RMsg (m : option T).

Definition step (e : bool) (a : action) : stm sys result :=
  match a with
  | CheckRead => let! b := check_read e in sret (RBool b)
  | Read => let! m := read e in sret (RMsg m)
  | CheckWrite => let! b := check_write e in sret (RBool b)
  | Write c m => let! b := write c e m in sret (RBool b)
  | Rollback => rollback e ;;; sret RUnit
  | Flush => flush e ;;; sret RUnit
  | Hiccup => hiccup e ;;; sret RUnit
  | SetNodelay => set_nodelay e ;;; sret RUnit
  | Terminate c d => terminate c d e ;;; sret RUnit
  | SetHwms i o => set_hwms i o e ;;; sret RUnit
  | SetHwmsBoost i o => set_hwms_boost i o e ;;; sret RUnit
  | SendHwms i o => send_hwms_to_peer i o e ;;; sret RUnit
  | Process => process_next e ;;; sret RUnit
  end.

(** An end that has acknowledged the termination, or is gone. *)
Definition acked (s : sys) (e : bool) : bool :=
  match ends s e with
  | Some p => bool_decide (state p = term_ack_sent) || bool_decide (state p = term_req_sent2)
  | None => true
  end.

(** The owner uses an end until it is told that it has gone, and does not announce
    watermarks after the acknowledgement; commands are processed whenever they arrive. *)
Definition allowed (s : sys) (e : bool) (a : action) : Prop :=
  match a with
  | Process => True
  | SendHwms _ _ => acked s e = false
  | _ => is_Some (ends s e)
  end.

(** A new pair, with its two sinks. *)
Definition start (hwm0 hwm1 : Z) (conflate0 conflate1 : bool) : outcome sys :=
  let* (s, _) := (set_event_sink false ;;; set_event_sink true) (pipepair hwm0 hwm1 conflate0 conflate1) in
  Done s.

Inductive reach (P : action -> Prop) (s0 : sys) : sys -> Prop :=
| reach_start : reach P s0 s0
| reach_step e a s s' r :
    reach P s0 s -> P a -> allowed s e a -> step e a s = Done (s', r) -> reach P s0 s'.

(** A run given as the list of its actions. *)
Definition allowedb (s : sys) (e : bool) (a : action) : bool :=
  match a with
  | Process => true
  | SendHwms _ _ => negb (acked s e)
  | _ => if ends s e is Some _ then true else false
  end.

Fixpoint play (xs : list (bool * action)) (s : sys) : outcome sys :=
  match xs with
  | [] => Done s
  | (e, a) :: xs =>
    if allowedb s e a then let* (s, _) := step e a s in play xs s else Crash
  end.

Lemma allowedb_ok s e a : allowedb s e a = true -> allowed s e a.
Proof.
  destruct a; simpl; try done; try (destruct (ends s e); [by eexists|done]). by rewrite negb_true_iff.
Qed.

Lemma play_reach P s0 xs : forall s s',
  reach P s0 s -> Forall (fun x => P x.2) xs -> play xs s = Done s' -> reach P s0 s'.
Proof.
  induction xs as [|[e a] xs IH]; intros s s' Hr HP E; simpl in E; [by simplify_eq|].
  apply Forall_cons in HP as [Ha HP]. destruct (allowedb s e a) eqn:Eb; [|done].
  destruct (step e a s) as [[s1 r]|] eqn:Es; [|done]. apply (IH s1 s'); [|done|done].
  by apply (reach_step P s0 e a s s1 r); [| |apply allowedb_ok|].
Qed.
End Pipe.
End Pipe.
