(* ===== verification/PipeSteps.v ===== *)
(** * PipeSteps: the transitions of a pair of pipes

    Each method of [Pipe] makes one or two elementary changes of the pair: taking a
    message, falling asleep, sending the delimiter with the termination request, and
    so on.  [trans] lists them; [step_trans] shows that, under the invariant that makes
    every access valid, a method does not abort and is a sequence of them.  The
    properties of the pair are then proved on the transitions.  Pipes are not
    conflating here. *)

From stdpp Require Import relations.
From S2P Require Import Prelude Pipes Yqueue Ypipe Conflate Pipe.

Module PipeSteps.
Import Pipe.

(** Case analysis of a transition ([trans] below), with the names of its premises. *)
Ltac trans_cases Ht :=
  destruct Ht as [a s s' p d c Ga E F|a s s' p h l i o Hm E F|a s s' p y Ga E Hr Hi Hy Hf F|
    a s s' p y m l Ga E Hr Hi Hy Hf Hc F|a s s' p y m l Ga E Hr Hi Hy Hf Hc Hd F|a s s' p y m l Ga E Hr Hi Hy Hf Hd F|
    a s s' p Ga E Es Hh F|c m s s' p o z E Es Hout Hh Eo Ez F|s s' p o z E Eo Ez F|s s' p o z E Eo Ez F|
    a s s' p o z d Ga E Es Eo Ez F|a s s' p o z d Ga E Es Eo Ez F|a s s' p o z Ga E Es Eo Ez F|
    s s' p E Es G1 G2 G3 G4 G5 G6|i o s s' p E Hk F|
    s s' p l E Em F|s s' p n l E Em F|s s' p o z j l E Em Eo Ez F|s s' p h lw i o l E Em F|s s' p l E Em Es Hd F|
    s s' p l E Em Es F|s s' p l E Em Es F].

Section Steps.
Context {T : Type} `{Message T}.

Abbreviation sys := (@sys T).
Abbreviation spipe := (@Yp.spipe T).

(** How a step of end [e] changes the pair: its new state, the commands left in its
    mailbox, those sent to the peer, and the queues. *)
Record eff (s s' : sys) (e : bool) (p : option pipe_t) (l cs : list command) (h : gmap nat upipe) : Prop := {
  f_this : ends s' e = p;
  f_peer : ends s' (negb e) = ends s (negb e);
  f_mail : mail s' e = l;
  f_sent : mail s' (negb e) = mail s (negb e) ++ cs;
  f_upipes : upipes s' = h;
  f_next : next_upipe s' = next_upipe s
}.

Definition counted (m : T) : bool := negb (has_more m) && negb (is_routing_id m).

Definition taken (m : T) (c : flow) : flow :=
  if counted m then with_read (u64 (msgs_read c + 1)) c else c.

(** [activate_write], every [lwm] messages. *)
Definition credit (c : flow) : list command :=
  if (0 <? lwm c) && (msgs_read c mod lwm c =? 0) then [activate_write (msgs_read c)] else [].

Definition wrote (m : T) (c : flow) : flow :=
  if counted m then with_written (u64 (msgs_written c + 1)) c else c.

(** [activate_read], if the reader slept. *)
Definition wake (z : spipe) : list command := if Yp.asleep z then [activate_read] else [].

(** A queue after the delimiter has been written and flushed. *)
Definition delimited (z : spipe) : spipe :=
  Yp.Spipe (Yp.flushed z ++ Yp.complete z ++ [msg_delimiter]) [] [] false.

Definition emptied (z : spipe) : spipe := Yp.Spipe (Yp.flushed z) (Yp.complete z) [] (Yp.asleep z).

Definition tail_read (z : spipe) (l : list T) : spipe := Yp.Spipe l (Yp.complete z) (Yp.partial z) (Yp.asleep z).

Definition slept (z : spipe) : spipe := Yp.Spipe [] (Yp.complete z) (Yp.partial z) true.

(** Closing the outbound side and acknowledging. *)
Definition acking (st : pstate) (p : pipe_t) : pipe_t := set_state st (set_outpipe None p).

(** Which methods a transition belongs to. *)
Definition setting (a : action (T := T)) : bool := match a with SetNodelay | Terminate _ _ => true | _ => false end.
Definition receiving (a : action (T := T)) : bool := match a with CheckRead | Read => true | _ => false end.
Definition sending (a : action (T := T)) : bool := match a with CheckWrite | Write _ _ => true | _ => false end.
Definition terminating (a : action (T := T)) : bool := match a with Terminate _ _ => true | _ => false end.

Inductive trans (e : bool) : action (T := T) -> sys -> sys -> Prop :=
| tr_touch a s s' p d c :
    setting a = true ->
    ends s e = Some p ->
    eff s s' e (Some (set_delay d (set_credential c p))) (mail s e) [] (upipes s) ->
    trans e a s s'
| tr_marks a s s' p h l i o :
    match a with SetHwms _ _ | SetHwmsBoost _ _ => True | _ => False end ->
    ends s e = Some p ->
    eff s s' e (Some (set_counts (Flow h l i o (msgs_read (counts p)) (msgs_written (counts p)) (peers_msgs_read (counts p))) p))
        (mail s e) [] (upipes s) ->
    trans e a s s'
| tr_sleep a s s' p y :
    receiving a = true ->
    ends s e = Some p -> reading p = true -> in_active p = true ->
    upipes s !! inpipe p = Some (Normal y) -> Yp.flushed y = [] ->
    eff s s' e (Some (set_in_active false p)) (mail s e) [] (<[inpipe p := Normal (slept y)]> (upipes s)) ->
    trans e a s s'
| tr_credential a s s' p y m l :
    receiving a = true ->
    ends s e = Some p -> reading p = true -> in_active p = true ->
    upipes s !! inpipe p = Some (Normal y) -> Yp.flushed y = m :: l -> is_credential m = true ->
    eff s s' e (Some (set_credential (msg_data m) p)) (mail s e) [] (<[inpipe p := Normal (tail_read y l)]> (upipes s)) ->
    trans e a s s'
| tr_take a s s' p y m l :
    receiving a = true ->
    ends s e = Some p -> reading p = true -> in_active p = true ->
    upipes s !! inpipe p = Some (Normal y) -> Yp.flushed y = m :: l ->
    is_credential m = false -> is_delimiter m = false ->
    eff s s' e (Some (set_counts (taken m (counts p)) p)) (mail s e) (credit (taken m (counts p)))
        (<[inpipe p := Normal (tail_read y l)]> (upipes s)) ->
    trans e a s s'
| tr_delimiter a s s' p y m l :
    receiving a = true ->
    ends s e = Some p -> reading p = true -> in_active p = true ->
    upipes s !! inpipe p = Some (Normal y) -> Yp.flushed y = m :: l -> is_delimiter m = true ->
    eff s s' e (Some (if decide (state p = active) then set_state delimiter_received p else acking term_ack_sent p))
        (mail s e) (if decide (state p = active) then [] else [pipe_term_ack])
        (<[inpipe p := Normal (tail_read y l)]> (upipes s)) ->
    trans e a s s'
| tr_block a s s' p :
    sending a = true ->
    ends s e = Some p -> state p = active -> check_hwm p = false ->
    eff s s' e (Some (set_out_active false p)) (mail s e) [] (upipes s) ->
    trans e a s s'
| tr_write c m s s' p o z :
    ends s e = Some p -> state p = active -> out_active p = true -> check_hwm p = true ->
    outpipe p = Some o -> upipes s !! o = Some (Normal z) ->
    eff s s' e (Some (set_counts (wrote m (counts p)) p)) (mail s e) []
        (<[o := Normal (Yp.s_write m (has_more m) z)]> (upipes s)) ->
    trans e (Write c m) s s'
| tr_rollback s s' p o z :
    ends s e = Some p -> outpipe p = Some o -> upipes s !! o = Some (Normal z) ->
    eff s s' e (Some p) (mail s e) [] (<[o := Normal (emptied z)]> (upipes s)) ->
    trans e Rollback s s'
| tr_flush s s' p o z :
    ends s e = Some p -> outpipe p = Some o -> upipes s !! o = Some (Normal z) ->
    eff s s' e (Some p) (mail s e) (if (Yp.s_flush z).1 then [] else [activate_read])
        (<[o := Normal (Yp.s_flush z).2]> (upipes s)) ->
    trans e Flush s s'
| tr_terminate a s s' p o z d :
    terminating a = true ->
    ends s e = Some p -> state p = active \/ state p = delimiter_received ->
    outpipe p = Some o -> upipes s !! o = Some (Normal z) ->
    eff s s' e (Some (set_out_active false (set_state term_req_sent1 (set_delay d p)))) (mail s e)
        (pipe_term :: wake z) (<[o := Normal (delimited z)]> (upipes s)) ->
    trans e a s s'
| tr_terminate_waiting a s s' p o z d :
    terminating a = true ->
    ends s e = Some p -> state p = waiting_for_delimiter ->
    outpipe p = Some o -> upipes s !! o = Some (Normal z) ->
    eff s s' e (Some (set_out_active false (set_delay d p))) (mail s e)
        (wake z) (<[o := Normal (delimited z)]> (upipes s)) ->
    trans e a s s'
| tr_give_up a s s' p o z :
    terminating a = true ->
    ends s e = Some p -> state p = waiting_for_delimiter ->
    outpipe p = Some o -> upipes s !! o = Some (Normal z) ->
    eff s s' e (Some (set_out_active false (acking term_ack_sent (set_delay false p)))) (mail s e)
        [pipe_term_ack] (<[o := Normal (emptied z)]> (upipes s)) ->
    trans e a s s'
| tr_hiccup s s' p :
    ends s e = Some p -> state p = active ->
    ends s' e = Some (set_in_active true (set_inpipe (next_upipe s) p)) ->
    ends s' (negb e) = ends s (negb e) -> mail s' e = mail s e ->
    mail s' (negb e) = mail s (negb e) ++ [hiccup_cmd (next_upipe s)] ->
    upipes s' = <[next_upipe s := Normal Yp.spipe_new]> (upipes s) -> next_upipe s' = S (next_upipe s) ->
    trans e Hiccup s s'
| tr_send_hwms i o s s' p :
    ends s e = Some p -> acked s e = false ->
    eff s s' e (Some p) (mail s e) [pipe_hwm i o] (upipes s) ->
    trans e (SendHwms i o) s s'
| tr_wake s s' p l :
    ends s e = Some p -> mail s e = activate_read :: l ->
    eff s s' e (Some (if negb (in_active p) && reading p then set_in_active true p else p)) l [] (upipes s) ->
    trans e Process s s'
| tr_credit s s' p n l :
    ends s e = Some p -> mail s e = activate_write n :: l ->
    eff s s' e (Some ((if negb (out_active p) && bool_decide (state p = active) then set_out_active true else id)
                        (set_counts (with_peers n (counts p)) p))) l [] (upipes s) ->
    trans e Process s s'
| tr_hiccuped s s' p o z j l :
    ends s e = Some p -> mail s e = hiccup_cmd j :: l -> outpipe p = Some o -> upipes s !! o = Some (Normal z) ->
    eff s s' e (Some (set_out_active true (set_outpipe (Some j)
                 (set_counts (with_written
                    (foldl (fun n m => if has_more m then n else u64 (n - 1)) (msgs_written (counts p))
                           (Yp.flushed z ++ Yp.complete z)) (counts p)) p)))) l []
        (delete o (upipes s)) ->
    trans e Process s s'
| tr_marked s s' p h lw i o l :
    ends s e = Some p -> mail s e = pipe_hwm i o :: l ->
    eff s s' e (Some (set_counts (with_marks h lw (counts p)) p)) l [] (upipes s) ->
    trans e Process s s'
| tr_term_wait s s' p l :
    ends s e = Some p -> mail s e = pipe_term :: l -> state p = active -> delay p = true ->
    eff s s' e (Some (set_state waiting_for_delimiter p)) l [] (upipes s) ->
    trans e Process s s'
| tr_term_ack s s' p l :
    ends s e = Some p -> mail s e = pipe_term :: l ->
    (state p = active /\ delay p = false) \/ state p = delimiter_received \/ state p = term_req_sent1 ->
    eff s s' e (Some (acking (if decide (state p = term_req_sent1) then term_req_sent2 else term_ack_sent) p))
        l [pipe_term_ack] (upipes s) ->
    trans e Process s s'
| tr_dead s s' p l :
    ends s e = Some p -> mail s e = pipe_term_ack :: l ->
    state p = term_req_sent1 \/ state p = term_req_sent2 \/ state p = term_ack_sent ->
    eff s s' e None l (if decide (state p = term_req_sent1) then [pipe_term_ack] else []) (delete (inpipe p) (upipes s)) ->
    trans e Process s s'.

(** ** The invariant that makes every access valid *)

(** What an end has sent: 2 once it has acknowledged, 1 once it has asked to
    terminate; and what it has received. *)
Definition sphase (p : option pipe_t) : nat :=
  match p with
  | None => 2
  | Some p => match state p with
              | term_ack_sent | term_req_sent2 => 2
              | term_req_sent1 => 1
              | _ => 0
              end
  end.

Definition rphase (p : option pipe_t) : nat :=
  match p with
  | None => 2
  | Some p => match state p with
              | waiting_for_delimiter | term_ack_sent | term_req_sent2 => 1
              | _ => 0
              end
  end.

(** A mailbox is a sequence of commands that a sender could have sent: at most one
    request, hiccups before it only, and nothing after the acknowledgement. *)
Definition phase_step (ph : nat) (c : command) : option nat :=
  match c, ph with
  | hiccup_cmd _, 0%nat => Some 0%nat
  | pipe_term, 0%nat => Some 1%nat
  | pipe_term_ack, (0%nat | 1%nat) => Some 2%nat
  | (activate_read | activate_write _ | pipe_hwm _ _), (0%nat | 1%nat) => Some ph
  | _, _ => None
  end.

Fixpoint phases (ph : nat) (l : list command) : option nat :=
  match l with
  | [] => Some ph
  | c :: l => match phase_step ph c with Some ph => phases ph l | None => None end
  end.

Definition hiccups (l : list command) : list nat :=
  omap (fun c => if c is hiccup_cmd i then Some i else None) l.

(** The queues from [e] to its peer: the one [e] writes to, and those the peer has
    replaced it with; the peer reads the last. *)
Definition chain (s : sys) (e : bool) : list nat :=
  match ends s e ≫= outpipe with
  | Some o => o :: hiccups (mail s e)
  | None => match ends s (negb e) with Some q => [inpipe q] | None => [] end
  end.

Definition unfinished_ok (y : upipe) : Prop :=
  match y with Normal z => Forall (fun m => has_more m = true) (Yp.partial z) | Conflated _ => False end.

Record safe (s : sys) : Prop := {
  a_phase : forall e, phases (rphase (ends s e)) (mail s e) = Some (sphase (ends s (negb e)));
  a_end : forall e p, ends s e = Some p -> sink p = true /\ conflate p = false /\ (outpipe p = None <-> sphase (Some p) = 2%nat);
  a_last : forall e q, ends s (negb e) = Some q -> last (chain s e) = Some (inpipe q);
  a_nodup : NoDup (chain s false ++ chain s true);
  a_dom : forall i, is_Some (upipes s !! i) <-> i ∈ chain s false ++ chain s true;
  a_fresh : forall i, is_Some (upipes s !! i) -> (i < next_upipe s)%nat;
  a_upipes : forall i y, upipes s !! i = Some y -> unfinished_ok y
}.

(** ** Mailboxes *)
Lemma phases_app ph l l' :
  phases ph (l ++ l') = match phases ph l with Some ph => phases ph l' | None => None end.
Proof. revert ph. induction l as [|c l IH]; intros ph; simpl; [done|]. by destruct (phase_step ph c). Qed.

Lemma phases_two l ph : phases 2 l = Some ph -> l = [] /\ ph = 2%nat.
Proof. destruct l as [|[]]; simpl; intros E; by simplify_eq. Qed.

Lemma phases_mono ph l ph' : phases ph l = Some ph' -> (ph <= ph')%nat.
Proof.
  revert ph. induction l as [|c l IH]; intros ph E; simpl in E; [by simplify_eq|].
  destruct (phase_step ph c) as [ph1|] eqn:E2; [|done]. etrans; [|by apply IH].
  destruct c, ph as [|[|[|]]]; simpl in E2; simplify_eq; lia.
Qed.

Lemma phases_no_hiccup ph l ph' : (1 <= ph)%nat -> phases ph l = Some ph' -> hiccups l = [].
Proof.
  revert ph. induction l as [|c l IH]; intros ph Hph E; [done|]. simpl in E.
  destruct (phase_step ph c) as [ph1|] eqn:Es; [|done].
  assert (1 <= ph1)%nat by (destruct c, ph as [|[|[|]]]; simpl in Es; simplify_eq; lia).
  destruct c; simpl; try by apply (IH ph1).
  destruct ph; simpl in Es; [lia|done].
Qed.

Lemma hiccups_app l l' : hiccups (l ++ l') = hiccups l ++ hiccups l'.
Proof. unfold hiccups. by rewrite omap_app. Qed.

Lemma sphase_le p : (sphase p <= 2)%nat.
Proof. destruct p as [p|]; simpl; [destruct (state p)|]; lia. Qed.

Lemma acked_rphase p : sphase (Some p) = 2%nat -> rphase (Some p) = 1%nat.
Proof. simpl. by destruct (state p). Qed.

Lemma bool_cases (e e' : bool) : e' = e \/ e' = negb e.
Proof. destruct e, e'; auto. Qed.

Lemma peer_alive s e p :
  safe s -> ends s e = Some p -> sphase (Some p) <> 2%nat -> exists q, ends s (negb e) = Some q.
Proof.
  intros S E Hs. destruct (ends s (negb e)) as [q|] eqn:Eq; [by exists q|].
  pose proof (a_phase _ S (negb e)) as Hph. rewrite Eq, negb_involutive, E in Hph.
  apply phases_two in Hph as [_ ?]. done.
Qed.

Lemma out_some s e p :
  safe s -> ends s e = Some p -> sphase (Some p) <> 2%nat -> exists o, outpipe p = Some o.
Proof.
  intros S E Hs. destruct (outpipe p) as [o|] eqn:Eo; [by exists o|].
  by apply (a_end _ S e p E) in Eo.
Qed.

Lemma chain_out s e p o : ends s e = Some p -> outpipe p = Some o -> chain s e = o :: hiccups (mail s e).
Proof. intros E Eo. unfold chain. rewrite E. simpl. by rewrite Eo. Qed.

Lemma chain_none s e p q :
  ends s e = Some p -> outpipe p = None -> ends s (negb e) = Some q -> chain s e = [inpipe q].
Proof. intros E Eo Eq. unfold chain. rewrite E. simpl. by rewrite Eo, Eq. Qed.

Lemma in_chain s e i : i ∈ chain s e -> i ∈ chain s false ++ chain s true.
Proof. destruct e; rewrite elem_of_app; auto. Qed.

Lemma chain_valid s e i : safe s -> i ∈ chain s e -> exists z, upipes s !! i = Some (Normal z) /\
  Forall (fun m => has_more m = true) (Yp.partial z).
Proof.
  intros S Hi. apply in_chain in Hi. apply (a_dom _ S) in Hi as [y Hy].
  pose proof (a_upipes _ S i y Hy) as Ho. destruct y as [z|]; [|done]. by exists z.
Qed.

Lemma out_valid s e p o :
  safe s -> ends s e = Some p -> outpipe p = Some o ->
  exists z, upipes s !! o = Some (Normal z) /\ Forall (fun m => has_more m = true) (Yp.partial z).
Proof.
  intros S E Eo. apply (chain_valid s e o S). rewrite (chain_out s e p o E Eo). by left.
Qed.

Lemma in_valid s e p :
  safe s -> ends s e = Some p ->
  exists z, upipes s !! inpipe p = Some (Normal z) /\ Forall (fun m => has_more m = true) (Yp.partial z).
Proof.
  intros S E. apply (chain_valid s (negb e) _ S). apply last_Some_elem_of.
  apply (a_last _ S). by rewrite negb_involutive.
Qed.

(** ** Preservation *)

(** A change that keeps the chains. *)
Lemma safe_chains s s' :
  safe s -> (forall e, chain s' e = chain s e) ->
  (forall e, phases (rphase (ends s' e)) (mail s' e) = Some (sphase (ends s' (negb e)))) ->
  (forall e p, ends s' e = Some p ->
     sink p = true /\ conflate p = false /\ (outpipe p = None <-> sphase (Some p) = 2%nat)) ->
  (forall e q, ends s' e = Some q -> exists q0, ends s e = Some q0 /\ inpipe q = inpipe q0) ->
  (forall i, is_Some (upipes s' !! i) <-> is_Some (upipes s !! i)) ->
  (forall i y, upipes s' !! i = Some y -> unfinished_ok y) ->
  next_upipe s' = next_upipe s -> safe s'.
Proof.
  intros S Hc Hph He Hin Hd Hu Hn. split; try done.
  - intros e q E. destruct (Hin _ _ E) as (q0 & E0 & ->). rewrite Hc. by apply (a_last _ S).
  - rewrite !Hc. apply S.
  - intros i. rewrite !Hc, Hd. apply S.
  - intros i Hi. rewrite Hn. apply (a_fresh _ S). by apply Hd.
Qed.

Lemma safe_eff s s' e p p' l cs h :
  safe s -> ends s e = Some p -> eff s s' e (Some p') l cs h ->
  phases (rphase (Some p')) l = Some (sphase (ends s (negb e))) ->
  phases (sphase (Some p)) cs = Some (sphase (Some p')) ->
  sink p' = sink p -> conflate p' = conflate p -> inpipe p' = inpipe p ->
  (outpipe p' = outpipe p /\ (sphase (Some p') = 2%nat <-> sphase (Some p) = 2%nat)) \/
  (outpipe p' = None /\ sphase (Some p') = 2%nat /\ sphase (Some p) <> 2%nat) ->
  hiccups l = hiccups (mail s e) -> hiccups cs = [] ->
  (forall i, is_Some (h !! i) <-> is_Some (upipes s !! i)) ->
  (forall i y, h !! i = Some y -> unfinished_ok y) ->
  safe s'.
Proof.
  intros S E [F1 F2 F3 F4 F5 F6] Hr Hs Hk Hc Hi Ho Hl Hcs Hd Hu.
  destruct (a_end _ S e p E) as (Hsk & Hcf & Hop).
  assert (Hce : chain s' e = chain s e).
  { destruct Ho as [[Ho _]|(Ho & H2 & H2')].
    - unfold chain. rewrite F1, E, F2, F3. simpl. by rewrite Ho, Hl.
    - destruct (peer_alive s e p S E H2') as [q Eq]. destruct (out_some s e p S E H2') as [o Eo].
      pose proof (a_last _ S e q Eq) as Hlast. rewrite (chain_out s e p o E Eo) in *.
      rewrite <- Hl in *. rewrite (phases_no_hiccup _ _ _ (Nat.eq_le_incl _ _ (eq_sym (acked_rphase _ H2))) Hr) in *.
      simpl in Hlast. simplify_eq. apply (chain_none s' e p' q); [done..|]. by rewrite F2. }
  assert (Hcn : chain s' (negb e) = chain s (negb e)).
  { unfold chain. rewrite negb_involutive, F1, E, F2, F4, hiccups_app, Hcs, app_nil_r. by rewrite Hi. }
  apply (safe_chains s s' S).
  - intros e'. by destruct (bool_cases e e') as [->| ->].
  - intros e'. destruct (bool_cases e e') as [->| ->].
    + by rewrite F1, F2, F3.
    + pose proof (a_phase _ S (negb e)) as Hph. rewrite negb_involutive in *. rewrite F2, F4, F1, phases_app, Hph, E. done.
  - intros e' q Eq. destruct (bool_cases e e') as [->| ->].
    + rewrite F1 in Eq. injection Eq as <-. split; [congruence|]. split; [congruence|].
      destruct Ho as [[-> Hx]|(-> & Hx & _)]; [by rewrite Hx|done].
    + rewrite F2 in Eq. by apply (a_end _ S (negb e)).
  - intros e' q Eq. destruct (bool_cases e e') as [->| ->].
    + rewrite F1 in Eq. injection Eq as <-. by exists p.
    + rewrite F2 in Eq. by exists q.
  - by rewrite F5.
  - by rewrite F5.
  - done.
Qed.

Lemma insert_dom (h : gmap nat (upipe (T := T))) o z z' :
  h !! o = Some z -> forall i, is_Some (<[o := z']> h !! i) <-> is_Some (h !! i).
Proof.
  intros E i. destruct (decide (i = o)) as [->|Hne].
  - rewrite lookup_insert_eq, E. split; intros _; by eexists.
  - by rewrite lookup_insert_ne.
Qed.

Lemma insert_valid s o z' :
  safe s -> Forall (fun m => has_more m = true) (Yp.partial z') ->
  forall i y, <[o := Normal z']> (upipes s) !! i = Some y -> unfinished_ok y.
Proof.
  intros S Hz i y. destruct (decide (i = o)) as [->|Hne].
  - rewrite lookup_insert_eq. by intros [= <-].
  - rewrite lookup_insert_ne by done. apply (a_upipes _ S).
Qed.

Lemma credit_phase ph c : (ph < 2)%nat -> phases ph (credit c) = Some ph.
Proof. intros Hp. unfold credit. destruct (_ && _); [|done]. destruct ph as [|[|]]; (done || lia). Qed.

Lemma wake_phase ph z : (ph < 2)%nat -> phases ph (wake z) = Some ph.
Proof. intros Hp. unfold wake. destruct (Yp.asleep z); [|done]. destruct ph as [|[|]]; (done || lia). Qed.

Lemma credit_hiccups c : hiccups (credit c) = [].
Proof. unfold credit. by destruct (_ && _). Qed.

Lemma wake_hiccups z : hiccups (wake z) = [].
Proof. unfold wake. by destruct (Yp.asleep z). Qed.

Lemma reading_cases (p : pipe_t) : reading p = true -> state p = active \/ state p = waiting_for_delimiter.
Proof. unfold reading. rewrite orb_true_iff, !bool_decide_eq_true. done. Qed.

(** The mailbox after its first command. *)
Lemma mail_phase s e p c l :
  safe s -> ends s e = Some p -> mail s e = c :: l ->
  exists ph, phase_step (rphase (Some p)) c = Some ph /\ phases ph l = Some (sphase (ends s (negb e))).
Proof.
  intros S E Em. pose proof (a_phase _ S e) as Hph. rewrite E, Em in Hph. cbn [phases] in Hph.
  destruct (phase_step (rphase (Some p)) c) as [ph|] eqn:Ep; [|done]. by exists ph.
Qed.

Lemma end_ok s e p :
  safe s -> ends s e = Some p -> sink p = true /\ conflate p = false /\ (outpipe p = None <-> sphase (Some p) = 2%nat).
Proof. intros S E. by apply (a_end _ S e). Qed.

Lemma in_phase s e p : safe s -> ends s e = Some p -> phases (rphase (Some p)) (mail s e) = Some (sphase (ends s (negb e))).
Proof. intros S E. pose proof (a_phase _ S e) as Hp. by rewrite E in Hp. Qed.

Lemma set_out_if (p : pipe_t) b b' : outpipe ((if (b : bool) then set_out_active b' else id) p) = outpipe p.
Proof. by destruct b. Qed.

(** A change of fields that the phases do not look at. *)
Lemma safe_light s s' e p p' l cs h :
  safe s -> ends s e = Some p -> eff s s' e (Some p') l cs h ->
  phases (rphase (Some p)) l = Some (sphase (ends s (negb e))) -> hiccups l = hiccups (mail s e) ->
  (sphase (Some p) < 2 -> phases (sphase (Some p)) cs = Some (sphase (Some p)))%nat ->
  (cs <> [] -> sphase (Some p) < 2)%nat -> hiccups cs = [] ->
  state p' = state p -> sink p' = sink p -> conflate p' = conflate p -> inpipe p' = inpipe p -> outpipe p' = outpipe p ->
  (forall i, is_Some (h !! i) <-> is_Some (upipes s !! i)) ->
  (forall i y, h !! i = Some y -> unfinished_ok y) ->
  safe s'.
Proof.
  intros S E F Hl Hh Hcs Hne Hcsh Es Ek Ec Ei Eo Hd Hu.
  assert (Esp : sphase (Some p') = sphase (Some p)) by (simpl; by rewrite Es).
  assert (Erp : rphase (Some p') = rphase (Some p)) by (simpl; by rewrite Es).
  apply (safe_eff s s' e p p' l cs h S E F); rewrite ?Esp, ?Erp; try done.
  - destruct cs as [|c cs]; [done|]. apply Hcs. by apply Hne.
  - by left.
Qed.

(** A new inbound queue. *)
Lemma safe_hiccup s s' e p :
  safe s -> ends s e = Some p -> state p = active ->
  ends s' e = Some (set_in_active true (set_inpipe (next_upipe s) p)) ->
  ends s' (negb e) = ends s (negb e) -> mail s' e = mail s e ->
  mail s' (negb e) = mail s (negb e) ++ [hiccup_cmd (next_upipe s)] ->
  upipes s' = <[next_upipe s := Normal Yp.spipe_new]> (upipes s) -> next_upipe s' = S (next_upipe s) ->
  safe s'.
Proof.
  intros S E Ea F1 F2 F3 F4 F5 F6. set (j := next_upipe s) in *.
  assert (Hj : j ∉ chain s false ++ chain s true).
  { intros Hj. apply (a_dom _ S), (a_fresh _ S) in Hj. unfold j in Hj. lia. }
  assert (Hs2 : sphase (Some p) <> 2%nat) by (simpl; by rewrite Ea).
  destruct (peer_alive s e p S E Hs2) as [q Eq]. destruct (out_some s e p S E Hs2) as [o Eo].
  destruct (end_ok s _ q S Eq) as (Hsk & Hcf & Hoq).
  assert (Hrq : rphase (Some q) = 0%nat).
  { pose proof (a_phase _ S (negb e)) as Hph. rewrite negb_involutive, E, Eq in Hph.
    destruct (rphase (Some q)) as [|n] eqn:Er; [done|]. exfalso.
    apply phases_mono in Hph. simpl in Hph. rewrite Ea in Hph. simpl in Hph. lia. }
  assert (Hoq' : exists o', outpipe q = Some o').
  { destruct (outpipe q) as [o'|] eqn:Eoq; [by exists o'|].
    pose proof (acked_rphase q (proj1 Hoq eq_refl)). lia. }
  destruct Hoq' as [o' Eo'].
  assert (Hce : chain s' e = chain s e).
  { rewrite (chain_out s e p o E Eo). by rewrite (chain_out s' e _ o F1 Eo), F3. }
  assert (Hcn : chain s' (negb e) = chain s (negb e) ++ [j]).
  { rewrite (chain_out s _ q o' Eq Eo'). rewrite (chain_out s' (negb e) q o'); [|by rewrite F2|done].
    by rewrite F4, hiccups_app. }
  split.
  - intros e'. destruct (bool_cases e e') as [->| ->]; rewrite ?negb_involutive.
    + rewrite F1, F2, F3. pose proof (a_phase _ S e) as Hph. rewrite E in Hph. exact Hph.
    + rewrite F2, F4, F1, phases_app. pose proof (a_phase _ S (negb e)) as Hph.
      rewrite negb_involutive in Hph. rewrite Hph, E. simpl. by rewrite Ea.
  - intros e' p' E'. destruct (bool_cases e e') as [->| ->].
    + rewrite F1 in E'. injection E' as <-. exact (end_ok s e p S E).
    + rewrite F2 in E'. by apply (a_end _ S (negb e)).
  - intros e' q' E'. destruct (bool_cases e e') as [->| ->].
    + rewrite F2 in E'. rewrite Hce. by apply (a_last _ S).
    + rewrite negb_involutive in E'. rewrite F1 in E'. injection E' as <-. by rewrite Hcn, last_snoc.
  - pose proof (a_nodup _ S) as Hnd.
    assert (Hp : chain s' false ++ chain s' true ≡ₚ (chain s false ++ chain s true) ++ [j]).
    { destruct e; simpl in Hcn; rewrite Hce, Hcn; [|by rewrite app_assoc].
      rewrite <- !app_assoc. apply Permutation_app_head, Permutation_app_comm. }
    rewrite Hp. apply NoDup_app. split; [done|]. split; [|by apply NoDup_singleton].
    intros x Hx ->%list_elem_of_singleton. done.
  - intros i. assert (Hp : i ∈ chain s' false ++ chain s' true <-> i ∈ chain s false ++ chain s true \/ i = j).
    { destruct e; simpl in Hcn; rewrite Hce, Hcn; rewrite !elem_of_app, list_elem_of_singleton; tauto. }
    rewrite Hp, <- (a_dom _ S). rewrite F5. destruct (decide (i = j)) as [->|Hne].
    + rewrite lookup_insert_eq. split; [by right|by eexists].
    + rewrite lookup_insert_ne by done. tauto.
  - intros i Hi. rewrite F6. rewrite F5 in Hi. destruct (decide (i = j)) as [->|Hne]; [unfold j; lia|].
    rewrite lookup_insert_ne in Hi by done. apply (a_fresh _ S) in Hi. lia.
  - rewrite F5. apply insert_valid; [done|constructor].
Qed.

(** The peer's new inbound queue takes the place of the old outbound one. *)
Lemma safe_hiccuped s s' e p p' o j l :
  safe s -> ends s e = Some p -> mail s e = hiccup_cmd j :: l -> outpipe p = Some o ->
  eff s s' e (Some p') l [] (delete o (upipes s)) ->
  state p' = state p -> sink p' = sink p -> conflate p' = conflate p -> inpipe p' = inpipe p -> outpipe p' = Some j ->
  safe s'.
Proof.
  intros S E Em Eo [F1 F2 F3 F4 F5 F6] Es Ek Ec Ei Eo'.
  pose proof (chain_out s e p o E Eo) as Hce. rewrite Em in Hce. cbn [hiccups omap list_omap] in Hce. fold (hiccups l) in Hce.
  assert (Hce' : chain s' e = j :: hiccups l) by (by rewrite (chain_out s' e p' j F1 Eo'), F3).
  assert (Hcn : chain s' (negb e) = chain s (negb e)).
  { unfold chain. rewrite negb_involutive, F1, E, F2, F4, app_nil_r. by rewrite Ei. }
  destruct (mail_phase s e p _ l S E Em) as (ph & Hph & Hl).
  destruct (end_ok s e p S E) as (Hsk & Hcf & Hop).
  assert (Er : rphase (Some p) = 0%nat /\ ph = 0%nat).
  { destruct (rphase (Some p)); simpl in Hph; [by simplify_eq|done]. }
  destruct Er as [Er ->].
  assert (Hall : chain s false ++ chain s true ≡ₚ o :: chain s' false ++ chain s' true).
  { destruct e; simpl in Hcn; rewrite Hce, Hce', Hcn; [|done]. by rewrite <- Permutation_middle. }
  pose proof (a_nodup _ S) as Hnd. rewrite Hall in Hnd. apply NoDup_cons in Hnd as [Ho Hnd].
  split.
  - intros e'. destruct (bool_cases e e') as [->| ->]; rewrite ?negb_involutive.
    + rewrite F1, F2, F3. simpl rphase. rewrite Es. change (match state p with waiting_for_delimiter | term_ack_sent | term_req_sent2 => 1%nat | _ => 0%nat end) with (rphase (Some p)). by rewrite Er.
    + rewrite F2, F4, F1, app_nil_r. pose proof (a_phase _ S (negb e)) as Hx. rewrite negb_involutive, E in Hx. simpl sphase in *. by rewrite Es.
  - intros e' q Eq. destruct (bool_cases e e') as [->| ->].
    + rewrite F1 in Eq. injection Eq as <-. split; [congruence|]. split; [congruence|]. rewrite Eo'. simpl sphase. rewrite Es.
      split; [done|]. intros H2. apply Hop in H2. congruence.
    + rewrite F2 in Eq. by apply (a_end _ S (negb e)).
  - intros e' q Eq. destruct (bool_cases e e') as [->| ->].
    + rewrite F2 in Eq. pose proof (a_last _ S e q Eq) as Hla. rewrite Hce in Hla. by rewrite Hce'.
    + rewrite negb_involutive in Eq. rewrite F1 in Eq. injection Eq as <-. rewrite Hcn, Ei.
      apply (a_last _ S (negb e)). by rewrite negb_involutive.
  - done.
  - intros i. rewrite F5. destruct (decide (i = o)) as [->|Hne].
    + rewrite lookup_delete_eq. split; [by intros []|done].
    + rewrite lookup_delete_ne by done. rewrite (a_dom _ S), Hall, elem_of_cons. tauto.
  - intros i. rewrite F5, F6. destruct (decide (i = o)) as [->|Hne]; [by rewrite lookup_delete_eq; intros []|].
    rewrite lookup_delete_ne by done. apply (a_fresh _ S).
  - intros i y. rewrite F5. destruct (decide (i = o)) as [->|Hne]; [by rewrite lookup_delete_eq|].
    rewrite lookup_delete_ne by done. apply (a_upipes _ S).
Qed.

(** The end of an end: its mailbox is empty, and the peer has acknowledged. *)
Lemma safe_dead s s' e p l cs :
  safe s -> ends s e = Some p -> mail s e = pipe_term_ack :: l ->
  eff s s' e None l cs (delete (inpipe p) (upipes s)) ->
  phases (sphase (Some p)) cs = Some 2%nat -> hiccups cs = [] -> safe s'.
Proof.
  intros S E Em [F1 F2 F3 F4 F5 F6] Hcs Hch.
  destruct (mail_phase s e p _ l S E Em) as (ph & Hph & Hl).
  assert (ph = 2%nat) as -> by (destruct (rphase (Some p)) as [|[|]]; simpl in Hph; by simplify_eq).
  apply phases_two in Hl as [-> Hn].
  assert (Hce' : chain s' e = match ends s (negb e) with Some q => [inpipe q] | None => [] end).
  { unfold chain. by rewrite F1, F2. }
  assert (Hout : forall q, ends s (negb e) = Some q -> outpipe q = None).
  { intros q Eq. rewrite Eq in Hn. by apply (end_ok s _ q S Eq). }
  assert (Hcn : chain s (negb e) = [inpipe p] /\ chain s' (negb e) = []).
  { unfold chain. rewrite negb_involutive, F1, F2, E.
    destruct (ends s (negb e)) as [q|] eqn:Eq; simpl; [|done]. by rewrite (Hout q eq_refl). }
  destruct Hcn as [Hcn Hcn'].
  assert (Hce : chain s e = chain s' e).
  { rewrite Hce'. unfold chain. rewrite E, Em. simpl. destruct (outpipe p) as [o|] eqn:Eo; [|done].
    destruct (ends s (negb e)) as [q|] eqn:Eq.
    - pose proof (a_last _ S e q Eq) as Hla. rewrite (chain_out s e p o E Eo), Em in Hla. simpl in Hla. by simplify_eq.
    - exfalso. destruct (end_ok s e p S E) as (_ & _ & Hop).
      pose proof (a_phase _ S (negb e)) as Hx. rewrite negb_involutive, Eq, E in Hx. apply phases_two in Hx as [_ Hx].
      apply Hop in Hx. congruence. }
  assert (Hall : chain s false ++ chain s true ≡ₚ inpipe p :: chain s' false ++ chain s' true).
  { destruct e; simpl in Hcn, Hcn'; rewrite Hce, Hcn, Hcn'; [done|]. by rewrite <- Permutation_middle. }
  pose proof (a_nodup _ S) as Hnd. rewrite Hall in Hnd. apply NoDup_cons in Hnd as [Ho Hnd].
  split.
  - intros e'. destruct (bool_cases e e') as [->| ->]; rewrite ?negb_involutive.
    + rewrite F1, F2, F3. by rewrite Hn.
    + rewrite F2, F4, F1, phases_app. pose proof (a_phase _ S (negb e)) as Hx. rewrite negb_involutive, E in Hx. by rewrite Hx.
  - intros e' q Eq. destruct (bool_cases e e') as [->| ->]; [by rewrite F1 in Eq|].
    rewrite F2 in Eq. by apply (a_end _ S (negb e)).
  - intros e' q Eq. destruct (bool_cases e e') as [->| ->].
    + rewrite F2 in Eq. by rewrite Hce', Eq.
    + rewrite negb_involutive in Eq. by rewrite F1 in Eq.
  - done.
  - intros i. rewrite F5. destruct (decide (i = inpipe p)) as [->|Hne].
    + rewrite lookup_delete_eq. split; [by intros []|done].
    + rewrite lookup_delete_ne by done. rewrite (a_dom _ S), Hall, elem_of_cons. tauto.
  - intros i. rewrite F5, F6. destruct (decide (i = inpipe p)) as [->|Hne]; [by rewrite lookup_delete_eq; intros []|].
    rewrite lookup_delete_ne by done. apply (a_fresh _ S).
  - intros i y. rewrite F5. destruct (decide (i = inpipe p)) as [->|Hne]; [by rewrite lookup_delete_eq|].
    rewrite lookup_delete_ne by done. apply (a_upipes _ S).
Qed.

Lemma partial_valid s i z :
  safe s -> upipes s !! i = Some (Normal z) -> Forall (fun m => has_more m = true) (Yp.partial z).
Proof. intros S E. exact (a_upipes _ S i _ E). Qed.

Lemma write_valid m z :
  Forall (fun m => has_more m = true) (Yp.partial z) ->
  Forall (fun m => has_more m = true) (Yp.partial (Yp.s_write m (has_more m) z)).
Proof.
  intros Hz. unfold Yp.s_write. destruct (has_more m) eqn:Em; simpl; [|constructor].
  apply Forall_app. split; [done|]. by constructor.
Qed.

Lemma flush_valid z :
  Forall (fun m => has_more m = true) (Yp.partial z) ->
  Forall (fun m => has_more m = true) (Yp.partial (Yp.s_flush z).2).
Proof. intros Hz. unfold Yp.s_flush. by destruct (Yp.complete z). Qed.

Lemma not_acked (s : sys) e p : ends s e = Some p -> acked s e = false -> (sphase (Some p) < 2)%nat.
Proof.
  intros E. unfold acked. rewrite E, orb_false_iff, !bool_decide_eq_false. intros [? ?]. simpl.
  destruct (state p); (lia || done).
Qed.

Lemma out_phase s e p o : safe s -> ends s e = Some p -> outpipe p = Some o -> (sphase (Some p) < 2)%nat.
Proof.
  intros S E Eo. destruct (end_ok s e p S E) as (_ & _ & Hop). pose proof (sphase_le (Some p)).
  destruct (decide (sphase (Some p) = 2%nat)) as [H2|H2]; [apply Hop in H2; congruence|lia].
Qed.

(** The side conditions on queues: a queue is replaced by a valid one. *)
Ltac queues S E :=
  try done; try exact (a_upipes _ S);
  try (by apply (insert_dom _ _ _ _ E));
  try (apply insert_valid; [done|]; pose proof (partial_valid _ _ _ S E) as Hz; simpl;
       first [done | by apply write_valid | by apply flush_valid | constructor]).

Lemma neutral_phase s e p c l :
  safe s -> ends s e = Some p -> mail s e = c :: l ->
  match c with activate_read | activate_write _ | pipe_hwm _ _ => True | _ => False end ->
  phases (rphase (Some p)) l = Some (sphase (ends s (negb e))) /\ hiccups l = hiccups (mail s e).
Proof.
  intros S E Em Hc. destruct (mail_phase s e p c l S E Em) as (ph & Hph & Hl). rewrite Em.
  destruct c; try done; simpl in Hph; destruct (match state p with waiting_for_delimiter | term_ack_sent | term_req_sent2 => 1%nat | _ => 0%nat end) as [|[|]] eqn:Er;
    simplify_eq; split; try done; unfold rphase; by rewrite Er.
Qed.

Lemma cons_neq {A} (x : A) l : l <> x :: l.
Proof. intros E. apply (f_equal length) in E. simpl in E. lia. Qed.

Lemma trans_safe_own e a s s' : mail s' e = mail s e -> safe s -> trans e a s s' -> safe s'.
Proof.
  intros Ha S Ht. trans_cases Ht.
  all: try (by rewrite (f_mail _ _ _ _ _ _ _ F), Em in Ha; apply cons_neq in Ha).
  all: pose proof (in_phase s e p S E) as Hph.
  - eapply (safe_light s s' e p _ _ _ _ S E F); queues S E.
  - eapply (safe_light s s' e p _ _ _ _ S E F); queues S E.
  - eapply (safe_light s s' e p _ _ _ _ S E F); queues S Hy.
  - eapply (safe_light s s' e p _ _ _ _ S E F); queues S Hy.
  - eapply (safe_light s s' e p _ _ _ _ S E F); queues S Hy.
    + intros. by apply credit_phase.
    + intros _. apply reading_cases in Hr as [Hr|Hr]; simpl; rewrite Hr; lia.
    + apply credit_hiccups.
  - destruct (decide (state p = active)) as [Es|Es].
    + eapply (safe_eff s s' e p _ _ _ _ S E F); queues S Hy; simpl in *; rewrite Es in *; try done. by left.
    + apply reading_cases in Hr as [Hr|Hr]; [done|].
      eapply (safe_eff s s' e p _ _ _ _ S E F); queues S Hy; simpl in *; rewrite Hr in *; try done. by right.
  - eapply (safe_light s s' e p _ _ _ _ S E F); queues S E.
  - eapply (safe_light s s' e p _ _ _ _ S E F); queues S Ez.
  - eapply (safe_light s s' e p _ _ _ _ S E F); queues S Ez.
  - pose proof (out_phase s e p o S E Eo) as Hop.
    eapply (safe_light s s' e p _ _ _ _ S E F); queues S Ez; destruct (Yp.s_flush z).1; try done.
    intros _. simpl in *. destruct (state p); (done || lia).
  - eapply (safe_eff s s' e p _ _ _ _ S E F); queues S Ez.
    + destruct Es as [Es|Es]; simpl in *; by rewrite Es in *.
    + destruct Es as [Es|Es]; simpl; rewrite Es; by apply wake_phase; lia.
    + left. split; [done|]. destruct Es as [Es|Es]; simpl; by rewrite Es.
    + simpl. apply wake_hiccups.
  - eapply (safe_light s s' e p _ _ _ _ S E F); queues S Ez.
    + intros. by apply wake_phase.
    + intros _. simpl. rewrite Es. lia.
    + apply wake_hiccups.
  - eapply (safe_eff s s' e p _ _ _ _ S E F); queues S Ez; simpl in *; rewrite Es in *; try done. by right.
  - by eapply (safe_hiccup s s' e p).
  - pose proof (not_acked s e p E Hk). eapply (safe_light s s' e p _ _ _ _ S E F); queues S E.
    intros _. simpl in *. destruct (state p); (done || lia).
Qed.

Lemma set_counts_state c (p : pipe_t) : sphase (Some (set_counts c p)) = sphase (Some p).
Proof. done. Qed.

(** The mailbox after the request to terminate, or after the acknowledgement. *)
Lemma request_phase s e p l :
  safe s -> ends s e = Some p -> mail s e = pipe_term :: l ->
  phases 1 l = Some (sphase (ends s (negb e))) /\ hiccups l = hiccups (mail s e) /\ rphase (Some p) = 0%nat.
Proof.
  intros S E Em. destruct (mail_phase s e p _ l S E Em) as (ph & Hph & Hl). rewrite Em.
  destruct (rphase (Some p)) eqn:Er; [|done]. simpl in Hph. simplify_eq. done.
Qed.

Lemma trans_safe_process e a s s' : mail s' e <> mail s e -> safe s -> trans e a s s' -> safe s'.
Proof.
  intros Ha S Ht. trans_cases Ht; try (by destruct Ha; apply F); try done.
  - destruct (neutral_phase s e p _ l S E Em) as [Hph Hh]; [done|].
    destruct (negb (in_active p) && reading p); eapply (safe_light s s' e p _ _ _ _ S E F); queues S E.
  - destruct (neutral_phase s e p _ l S E Em) as [Hph Hh]; [done|].
    destruct (negb (out_active p) && bool_decide (state p = active)); eapply (safe_light s s' e p _ _ _ _ S E F); queues S E.
  - by eapply (safe_hiccuped s s' e p).
  - destruct (neutral_phase s e p _ l S E Em) as [Hph Hh]; [done|].
    eapply (safe_light s s' e p _ _ _ _ S E F); queues S E.
  - destruct (request_phase s e p l S E Em) as (Hph & Hh & _).
    eapply (safe_eff s s' e p _ _ _ _ S E F); queues S E; simpl; rewrite Es; try done. by left.
  - destruct (request_phase s e p l S E Em) as (Hph & Hh & Hr).
    destruct Es as [[Es _]|[Es|Es]]; rewrite Es in F; simpl in F;
      (eapply (safe_eff s s' e p _ _ _ _ S E F); queues S E; simpl; rewrite ?Es; try done; by right).
  - eapply (safe_dead s s' e p l _ S E Em F); destruct Es as [Es|[Es|Es]]; rewrite Es; simpl; rewrite ?Es; done.
Qed.

Lemma trans_safe e a s s' : safe s -> trans e a s s' -> safe s'.
Proof.
  intros S Ht. destruct (decide (mail s' e = mail s e)); [by eapply trans_safe_own|by eapply trans_safe_process].
Qed.

Lemma rtc_safe e a s s' : safe s -> rtc (trans e a) s s' -> safe s'.
Proof. intros S Ht. induction Ht as [|s s1 s' Hs _ IH]; [done|]. apply IH. by apply (trans_safe e a s). Qed.
End Steps.
End PipeSteps.
