(* ===== verification/PipeRuns.v ===== *)
(** * PipeRuns: the methods of pipe_t as sequences of transitions

    Under the invariant [safe] every method of [Pipe] runs to its end, and what it does
    is a sequence of the transitions of [PipeSteps].  [runs] is a weakest precondition
    for the methods; its rules follow the accesses one by one. *)

From stdpp Require Import relations.
From S2P Require Import Prelude Pipes Yqueue Ypipe Conflate Pipe PipeSteps.

Module PipeRuns.
Import Pipe PipeSteps.

Section Runs.
Context {T : Type} `{Message T}.

Abbreviation sys := (@sys T).

Definition runs {A} (m : stm sys A) (s : sys) (Q : sys -> A -> Prop) : Prop :=
  exists s' a, m s = Done (s', a) /\ Q s' a.

Lemma runs_bind {A B} (m : stm sys A) (k : A -> stm sys B) s Q :
  runs m s (fun s1 a => runs (k a) s1 Q) -> runs (sbind m k) s Q.
Proof. intros (s1 & a & E & s2 & b & E2 & HQ). exists s2, b. split; [|done]. by rewrite (sbind_done _ _ _ _ _ E). Qed.

Lemma runs_ret {A} (a : A) s (Q : sys -> A -> Prop) : Q s a -> runs (sret a) s Q.
Proof. intros HQ. by exists s, a. Qed.

Lemma runs_mono {A} (m : stm sys A) s (Q Q' : sys -> A -> Prop) :
  runs m s Q -> (forall s' a, Q s' a -> Q' s' a) -> runs m s Q'.
Proof. intros (s' & a & E & HQ) HQ'. exists s', a. auto. Qed.

Lemma runs_assert b s (Q : sys -> unit -> Prop) : b = true -> Q s tt -> runs (sassert b) s Q.
Proof. intros -> HQ. by exists s, tt. Qed.

Lemma runs_lift {A} (o : outcome A) a s (Q : sys -> A -> Prop) : o = Done a -> Q s a -> runs (slift o) s Q.
Proof. intros -> HQ. by exists s, a. Qed.

Lemma runs_this e p s (Q : sys -> pipe_t -> Prop) : ends s e = Some p -> Q s p -> runs (this e) s Q.
Proof. intros E HQ. exists s, p. unfold this. by rewrite E. Qed.

Lemma runs_upd e f p s (Q : sys -> unit -> Prop) :
  ends s e = Some p -> Q (with_end e (Some (f p)) s) tt -> runs (upd e f) s Q.
Proof. intros E HQ. eexists _, tt. unfold upd. rewrite E. split; [reflexivity|done]. Qed.

Lemma runs_send e c q s (Q : sys -> unit -> Prop) :
  ends s (negb e) = Some q -> Q (with_mail (negb e) (mail s (negb e) ++ [c]) s) tt -> runs (send e c) s Q.
Proof. intros E HQ. eexists _, tt. unfold send. rewrite E. split; [reflexivity|done]. Qed.

Lemma runs_close m s (Q : sys -> unit -> Prop) : Q (with_closed (closed s ++ [m]) s) tt -> runs (close m) s Q.
Proof. intros HQ. by eexists _, tt. Qed.

Lemma runs_call {A} i (f : upipe -> outcome (A * upipe)) y a y' s (Q : sys -> A -> Prop) :
  upipes s !! i = Some y -> f y = Done (a, y') -> Q (with_upipes (<[i := y']> (upipes s)) s) a -> runs (call i f) s Q.
Proof. intros E Ef HQ. eexists _, a. unfold call. rewrite E. simpl. rewrite Ef. split; [reflexivity|done]. Qed.

Lemma runs_delete i y s (Q : sys -> unit -> Prop) :
  upipes s !! i = Some y -> Q (with_upipes (delete i (upipes s)) s) tt -> runs (up_delete i) s Q.
Proof. intros E HQ. eexists _, tt. unfold up_delete. rewrite E. split; [reflexivity|done]. Qed.

(** Reading a queue without changing it. *)
Lemma runs_unread i z s (Q : sys -> nat -> Prop) :
  upipes s !! i = Some (Normal z) -> Q s (length (Yp.flushed z)) -> runs (up_unread i) s Q.
Proof. intros E HQ. eexists _, _. unfold up_unread. rewrite E. split; [reflexivity|done]. Qed.

Lemma runs_partial i z s (Q : sys -> nat -> Prop) :
  upipes s !! i = Some (Normal z) -> Q s (length (Yp.partial z)) -> runs (up_partial i) s Q.
Proof. intros E HQ. eexists _, _. unfold up_partial. rewrite E. split; [reflexivity|done]. Qed.

(** The states with the same ends, commands and queues. *)
Definition alike (s s' : sys) : Prop :=
  ends s' = ends s /\ mail s' = mail s /\ upipes s' = upipes s /\ next_upipe s' = next_upipe s.

Lemma runs_notify e ev p s (Q : sys -> unit -> Prop) :
  ends s e = Some p -> sink p = true -> (forall s', alike s s' -> Q s' tt) -> runs (notify e ev) s Q.
Proof.
  intros E Hk HQ. unfold notify. apply runs_bind. apply (runs_this e p); [done|].
  apply runs_bind. apply runs_assert; [done|]. eexists _, tt. split; [reflexivity|]. by apply HQ.
Qed.

Lemma upd_at_same {A} e (x : A) f : upd_at e x f e = x.
Proof. unfold upd_at. by rewrite eqb_reflx. Qed.

Lemma upd_at_peer {A} e (x : A) f : upd_at e x f (negb e) = f (negb e).
Proof. by destruct e. Qed.

Lemma upd_at_self {A} e (x : A) f : upd_at (negb e) x f e = f e.
Proof. by destruct e. Qed.

(** Replacing the queue [o], and possibly closing messages. *)
Definition refilled (s s1 : sys) (o : nat) (z : upipe) : Prop :=
  ends s1 = ends s /\ mail s1 = mail s /\ upipes s1 = <[o := z]> (upipes s) /\ next_upipe s1 = next_upipe s.

Lemma unwrite_all_runs o z0 s (Q : sys -> unit -> Prop) :
  Forall (fun m => has_more m = true) (Yp.partial z0) ->
  upipes s !! o = Some (Normal z0) ->
  (forall s1, refilled s s1 o (Normal (emptied z0)) -> Q s1 tt) ->
  runs (unwrite_all (length (Yp.partial z0)) o) s Q.
Proof.
  remember (Yp.partial z0) as l eqn:El. revert z0 s El.
  induction l as [|m l IH] using rev_ind; intros z0 s El Hm Ez HQ.
  - simpl. apply runs_bind. apply (runs_call o u_unwrite (Normal z0) None (Normal z0)); [done| |].
    { unfold u_unwrite, Yp.s_unwrite. by rewrite <- El. }
    simpl. apply runs_ret. apply HQ. repeat split. simpl. do 2 f_equal.
    unfold emptied. destruct z0; simpl in *. by subst.
  - rewrite length_app. simpl. rewrite Nat.add_1_r. cbn [unwrite_all].
    apply runs_bind. apply (runs_call o u_unwrite (Normal z0) (Some m) (Normal (Yp.Spipe (Yp.flushed z0) (Yp.complete z0) l (Yp.asleep z0)))); [done| |].
    { unfold u_unwrite, Yp.s_unwrite. rewrite <- El, last_snoc, removelast_last. done. }
    apply Forall_app in Hm as [Hm [Hm1 _]%Forall_cons].
    apply runs_bind. apply runs_assert; [done|]. apply runs_bind. apply runs_close.
    eapply (IH (Yp.Spipe (Yp.flushed z0) (Yp.complete z0) l (Yp.asleep z0))); [done|done|apply lookup_insert_eq|].
    intros s1 (E1 & E2 & E3 & E4). apply HQ. repeat split; [done|done| |done].
    rewrite E3. simpl. by rewrite insert_insert_eq.
Qed.

(** ** Automation *)

(** The components of an [eff] on an explicit state. *)
Ltac effs :=
  split; simpl; repeat first [rewrite upd_at_same|rewrite upd_at_peer|rewrite upd_at_self];
  rewrite ?app_nil_r, <- ?app_assoc; try done; try congruence.

(** Run the first access of a sequence. *)
Ltac rstep tac := apply runs_bind; tac.
Ltac rthis E := rstep ltac:(eapply runs_this; [simpl; rewrite ?upd_at_same; exact E|]).
Ltac rthis' := rstep ltac:(eapply runs_this; [simpl; rewrite ?upd_at_same; reflexivity|]).
Ltac rupd := first [apply runs_bind; eapply runs_upd; [simpl; rewrite ?upd_at_same; first [reflexivity|eassumption]|]
                   |eapply runs_upd; [simpl; rewrite ?upd_at_same; first [reflexivity|eassumption]|]].
Ltac rsend Eq := first [apply runs_bind; eapply runs_send; [simpl; rewrite ?upd_at_peer; exact Eq|]
                       |eapply runs_send; [simpl; rewrite ?upd_at_peer; exact Eq|]].

Definition does (e : bool) (a : action) {A} (m : stm sys A) (s : sys) : Prop :=
  runs m s (fun s' _ => rtc (trans e a) s s').

Lemma does_bind_ret e a {A B} (m : stm sys A) (f : A -> B) s :
  does e a m s -> does e a (let! x := m in sret (f x)) s.
Proof. intros Hm. apply runs_bind. eapply runs_mono; [exact Hm|]. intros s' x Ht. by apply runs_ret. Qed.

(** ** The methods *)
Lemma rollback_does e s p : safe s -> ends s e = Some p -> does e Rollback (rollback e) s.
Proof.
  intros S E. unfold does, rollback. rthis E.
  destruct (outpipe p) as [o|] eqn:Eo; [|by apply runs_ret].
  destruct (out_valid s e p o S E Eo) as (z & Ez & Hz).
  apply runs_bind. apply (runs_partial o z); [done|].
  apply (unwrite_all_runs o z); [done..|]. intros s1 (E1 & E2 & E3 & E4).
  apply rtc_once. apply (tr_rollback e s s1 p o z); [done..|]. split; rewrite ?E1, ?E2, ?app_nil_r; done.
Qed.

Lemma sphase_states (p : pipe_t) : sphase (Some p) <> 2%nat -> state p <> term_ack_sent.
Proof. simpl. by destruct (state p). Qed.

Lemma flush_does e s p : safe s -> ends s e = Some p -> does e Flush (flush e) s.
Proof.
  intros S E. unfold does, flush. rthis E.
  destruct (bool_decide_reflect (state p = term_ack_sent)) as [Hs|Hs]; [by apply runs_ret|].
  destruct (outpipe p) as [o|] eqn:Eo; [|by apply runs_ret].
  destruct (out_valid s e p o S E Eo) as (z & Ez & Hz).
  pose proof (out_phase s e p o S E Eo) as Hph.
  destruct (peer_alive s e p S E ltac:(lia)) as [q Eq].
  apply runs_bind. eapply (runs_call o u_flush (Normal z) (Yp.s_flush z).1 (Normal (Yp.s_flush z).2)); [done| |].
  { simpl. by destruct (Yp.s_flush z). }
  destruct (Yp.s_flush z).1 eqn:Ef; simpl.
  - apply runs_ret. apply rtc_once. apply (tr_flush e s _ p o z); [done..|]. rewrite Ef. effs.
  - rsend Eq. apply rtc_once. apply (tr_flush e s _ p o z); [done..|]. rewrite Ef. effs.
Qed.

(** What happens when the delimiter has been taken out of the inbound queue. *)
Lemma delimiter_runs e a s s1 p y m l (Q : sys -> unit -> Prop) :
  receiving a = true -> safe s -> ends s e = Some p -> reading p = true -> in_active p = true ->
  upipes s !! inpipe p = Some (Normal y) -> Yp.flushed y = m :: l -> is_delimiter m = true ->
  eff s s1 e (Some p) (mail s e) [] (<[inpipe p := Normal (tail_read y l)]> (upipes s)) ->
  (forall s', trans e a s s' -> Q s' tt) ->
  runs (process_delimiter e) s1 Q.
Proof.
  intros Ga S E Hr Hi Ey Ef Hd [F1 F2 F3 F4 F5 F6] HQ. unfold process_delimiter.
  rewrite app_nil_r in F4. rthis F1. apply runs_bind. apply runs_assert; [done|].
  destruct (bool_decide_reflect (state p = active)) as [Hs|Hs].
  - rupd. apply HQ. eapply (tr_delimiter e a s _ p y m l); [done..|].
    rewrite !decide_True by done. effs.
  - apply reading_cases in Hr as Hr2. destruct Hr2 as [Hr2|Hr2]; [done|].
    destruct (peer_alive s e p S E) as [q Eq]; [simpl; by rewrite Hr2|]. rewrite <- F2 in Eq.
    rupd. rsend Eq. rupd. apply HQ. eapply (tr_delimiter e a s _ p y m l); [done..|].
    rewrite !decide_False by done. effs.
Qed.

Lemma check_read_done (y : @Yp.spipe T) m l :
  Yp.flushed y = m :: l -> u_check_read (Normal y) = Done (true, Normal y).
Proof. intros Ef. simpl. unfold Yp.s_check_read. by rewrite Ef. Qed.

Lemma check_read_none (y : @Yp.spipe T) :
  Yp.flushed y = [] -> u_check_read (Normal y) = Done (false, Normal (slept y)).
Proof. intros Ef. simpl. unfold Yp.s_check_read. by rewrite Ef. Qed.

Lemma read_done (y : @Yp.spipe T) m l :
  Yp.flushed y = m :: l -> u_read (Normal y) = Done (Some m, Normal (tail_read y l)).
Proof. intros Ef. simpl. unfold Yp.s_read. by rewrite Ef. Qed.

Lemma read_none (y : @Yp.spipe T) :
  Yp.flushed y = [] -> u_read (Normal y) = Done (None, Normal (slept y)).
Proof. intros Ef. simpl. unfold Yp.s_read. by rewrite Ef. Qed.

Lemma probe_done (y : @Yp.spipe T) m l fn :
  Yp.flushed y = m :: l -> u_probe fn (Normal y) = Done (fn m, Normal y).
Proof. intros Ef. simpl. unfold Yp.s_check_read. rewrite Ef. simpl. by rewrite Ef. Qed.

Lemma check_read_does e a s p : receiving a = true -> safe s -> ends s e = Some p -> does e a (check_read e) s.
Proof.
  intros Ga S E. unfold does, check_read. rthis E.
  destruct (in_active p) eqn:Hi; simpl; [|by apply runs_ret].
  destruct (reading p) eqn:Hr; simpl; [|by apply runs_ret].
  destruct (in_valid s e p S E) as (y & Ey & Hy). apply runs_bind.
  destruct (Yp.flushed y) as [|m l] eqn:Ef.
  { apply (runs_call _ _ _ _ _ s _ Ey (check_read_none y Ef)). simpl. rupd. apply runs_ret.
    apply rtc_once. apply (tr_sleep e a s _ p y); [done..|]. effs. }
  apply (runs_call _ _ _ _ _ s _ Ey (check_read_done y m l Ef)). simpl. rewrite insert_id by done.
  apply runs_bind. apply (runs_call _ _ (Normal y) _ _ _ _ Ey (probe_done y m l is_delimiter Ef)). simpl.
  rewrite insert_id by done. destruct (is_delimiter m) eqn:Hd.
  - apply runs_bind. apply (runs_call _ _ (Normal y) _ _ _ _ Ey (read_done y m l Ef)).
    apply runs_bind. apply runs_assert; [done|]. apply runs_bind.
    eapply (delimiter_runs e a s _ p y m l); [done..| |].
    + effs.
    + intros s' Ht. apply runs_ret. by apply rtc_once.
  - apply runs_ret. destruct s; simpl in *. apply rtc_refl.
Qed.

Lemma set_counts_id (p : pipe_t) : set_counts (counts p) p = p.
Proof. by destruct p. Qed.

(** [activate_write] when it is due. *)
Lemma credit_runs e s c q (Q : sys -> unit -> Prop) :
  ends s (negb e) = Some q ->
  (forall s', ends s' = ends s -> mail s' e = mail s e -> mail s' (negb e) = mail s (negb e) ++ credit c ->
     upipes s' = upipes s -> next_upipe s' = next_upipe s -> Q s' tt) ->
  runs (if (0 <? lwm c) && (msgs_read c mod lwm c =? 0) then send e (activate_write (msgs_read c)) else sret tt) s Q.
Proof.
  intros Eq HQ. unfold credit in HQ. destruct (_ && _).
  - eapply runs_send; [done|]. apply HQ; simpl; rewrite ?upd_at_same, ?upd_at_self; done.
  - apply runs_ret. apply HQ; rewrite ?app_nil_r; done.
Qed.

Lemma reading_not_acked (p : pipe_t) : reading p = true -> sphase (Some p) <> 2%nat.
Proof. intros [Hr|Hr]%reading_cases; simpl; by rewrite Hr. Qed.

Lemma read_message_does e a n : receiving a = true -> forall s p y,
  safe s -> ends s e = Some p -> reading p = true -> in_active p = true ->
  upipes s !! inpipe p = Some (Normal y) -> (length (Yp.flushed y) <= n)%nat ->
  runs (read_message n e) s (fun s' _ => tc (trans e a) s s').
Proof.
  intros Ga. induction n as [|n IH]; intros s p y S E Hr Hi Ey Hn; cbn [read_message];
    rthis E; apply runs_bind; destruct (Yp.flushed y) as [|m l] eqn:Ef; simpl in Hn; try lia.
  1, 2: apply (runs_call _ _ _ _ _ s _ Ey (read_none y Ef)); rupd; apply runs_ret;
        apply tc_once; apply (tr_sleep e a s _ p y); [done..|]; effs.
  apply (runs_call _ _ _ _ _ s _ Ey (read_done y m l Ef)). destruct (is_credential m) eqn:Hc.
  { rupd. apply runs_bind. apply runs_close.
    set (s1 := with_closed _ _). assert (Ht : trans e a s s1).
    { apply (tr_credential e a s s1 p y m l); [done..|]. effs. }
    eapply runs_mono; [apply (IH s1 (set_credential (msg_data m) p) (tail_read y l))|]; try done.
    - by apply (trans_safe e a s).
    - simpl. by rewrite upd_at_same.
    - simpl. apply lookup_insert_eq.
    - simpl. lia.
    - intros s' x Hs. by apply tc_l with s1. }
  destruct (is_delimiter m) eqn:Hd.
  { apply runs_bind. eapply (delimiter_runs e a s _ p y m l); [done..| |].
    - effs.
    - intros s' Ht. apply runs_ret. by apply tc_once. }
  destruct (peer_alive s e p S E (reading_not_acked p Hr)) as [q Eq].
  assert (Hk : forall s1, eff s s1 e (Some (set_counts (taken m (counts p)) p)) (mail s e) []
      (<[inpipe p := Normal (tail_read y l)]> (upipes s)) ->
    runs (let! p := this e in
      (if (0 <? lwm (counts p)) && (msgs_read (counts p) mod lwm (counts p) =? 0)
       then send e (activate_write (msgs_read (counts p))) else sret tt) ;;; sret (Some m)) s1
     (fun s' _ => tc (trans e a) s s')).
  { intros s1 [F1 F2 F3 F4 F5 F6]. rewrite app_nil_r in F4. rthis F1. apply runs_bind.
    apply (credit_runs e s1 _ q); [by rewrite F2|]. intros s' G1 G2 G3 G4 G5. apply runs_ret. apply tc_once.
    apply (tr_take e a s s' p y m l); [done..|]. split; rewrite ?G1, ?G2, ?G3, ?G4, ?G5, ?F2, ?F4; done. }
  apply runs_bind. unfold taken, counted in Hk. destruct (negb (has_more m) && negb (is_routing_id m)).
  - rupd. apply Hk. effs.
  - apply runs_ret. apply Hk. rewrite set_counts_id. effs.
Qed.

Lemma read_does e a s p : receiving a = true -> safe s -> ends s e = Some p -> does e a (read e) s.
Proof.
  intros Ga S E. unfold does, read. rthis E.
  destruct (in_active p) eqn:Hi; simpl; [|by apply runs_ret].
  destruct (reading p) eqn:Hr; simpl; [|by apply runs_ret].
  destruct (in_valid s e p S E) as (y & Ey & Hy). apply runs_bind. apply (runs_unread _ y); [done|].
  eapply runs_mono; [by apply (read_message_does e a _ Ga s p y)|]. intros s' x. apply tc_rtc.
Qed.

Lemma check_write_runs e a s p (Q : sys -> bool -> Prop) :
  sending a = true -> safe s -> ends s e = Some p ->
  (state p = active -> out_active p = true -> check_hwm p = true -> Q s true) ->
  (forall s', rtc (trans e a) s s' -> Q s' false) ->
  runs (check_write e) s Q.
Proof.
  intros Ga S E Ht Hf. unfold check_write. rthis E.
  destruct (out_active p) eqn:Ho; simpl; [|by apply runs_ret, Hf].
  destruct (bool_decide_reflect (state p = active)) as [Hs|Hs]; simpl; [|by apply runs_ret, Hf].
  destruct (check_hwm p) eqn:Hh; simpl; [by apply runs_ret, Ht|].
  rupd. apply runs_ret, Hf, rtc_once. apply (tr_block e a s _ p); [done..|]. effs.
Qed.

Lemma write_does e s p c m : safe s -> ends s e = Some p -> does e (Write c m) (write c e m) s.
Proof.
  intros S E. unfold does, write. apply runs_bind. apply (check_write_runs e (Write c m) s p); [done..| |].
  2: { intros s' Ht. simpl. by apply runs_ret. }
  intros Hs Ho Hh. simpl. rthis E.
  destruct (out_some s e p S E) as [o Eo]; [simpl; by rewrite Hs|].
  apply runs_bind. apply (runs_lift _ o); [by rewrite Eo|].
  destruct (out_valid s e p o S E Eo) as (z & Ez & Hz).
  apply runs_bind. apply runs_bind. eapply runs_call; [exact Ez|reflexivity|].
  apply runs_ret. apply runs_bind. destruct (negb (has_more m) && negb (is_routing_id m)) eqn:Ec.
  - rupd. apply runs_ret, rtc_once. apply (tr_write e c m s _ p o z); [done..|].
    unfold wrote, counted. rewrite Ec. effs.
  - apply runs_ret. apply runs_ret, rtc_once. apply (tr_write e c m s _ p o z); [done..|].
    unfold wrote, counted. rewrite Ec, set_counts_id. effs.
Qed.

(** Dropping the unfinished message, then writing and flushing the delimiter. *)
Lemma delimit_runs e c s p q o z (Q : sys -> unit -> Prop) :
  ends s e = Some p -> ends s (negb e) = Some q -> state p <> term_ack_sent -> outpipe p = Some o ->
  upipes s !! o = Some (Normal z) -> Forall (fun m => has_more m = true) (Yp.partial z) ->
  (forall s', eff s s' e (Some p) (mail s e) (wake z) (<[o := Normal (delimited z)]> (upipes s)) -> Q s' tt) ->
  runs (rollback e ;;; up_write c o msg_delimiter false ;;; flush e) s Q.
Proof.
  intros E Eq Hs Eo Ez Hz HQ. apply runs_bind. unfold rollback. rthis E. rewrite Eo.
  apply runs_bind. apply (runs_partial o z); [done|].
  apply (unwrite_all_runs o z); [done..|]. intros s1 (E1 & E2 & E3 & E4).
  apply runs_bind. apply runs_bind.
  eapply (runs_call o _ (Normal (emptied z))); [by rewrite E3, lookup_insert_eq|reflexivity|].
  apply runs_ret. unfold flush. rthis ltac:(constr:(eq_trans (f_equal (fun g => g e) E1) E)).
  rewrite bool_decide_eq_false_2 by done. rewrite Eo. apply runs_bind.
  eapply (runs_call o _ _ (negb (Yp.asleep z)) (Normal (delimited z))); [simpl; apply lookup_insert_eq| |].
  { simpl. unfold Yp.s_flush, Yp.s_write, delimited. simpl. by destruct (Yp.complete z ++ [msg_delimiter]) eqn:Ec; [destruct (Yp.complete z)|]. }
  rewrite negb_involutive. unfold wake in HQ. destruct (Yp.asleep z).
  - eapply runs_send; [simpl; rewrite E1; exact Eq|]. apply HQ. split; simpl;
      rewrite ?upd_at_same, ?upd_at_self, ?E1, ?E2, ?E3, ?insert_insert_eq; done.
  - apply runs_ret. apply HQ. split; simpl; rewrite ?E1, ?E2, ?E3, ?insert_insert_eq, ?app_nil_r; done.
Qed.

(** Asking the peer to terminate. *)
Lemma request_runs e a c d s p :
  terminating a = true -> safe s -> ends s e = Some p -> state p = active \/ state p = delimiter_received ->
  runs (send e pipe_term ;;; upd e (set_state term_req_sent1) ;;;
        upd e (set_out_active false) ;;;
        let! p := this e in
        match outpipe p with
        | None => sret tt
        | Some o => rollback e ;;; up_write c o msg_delimiter false ;;; flush e
        end) (with_end e (Some (set_delay d p)) s) (fun s' _ => rtc (trans e a) s s').
Proof.
  intros Ga S E Hs. assert (Hp : sphase (Some p) = 0%nat) by (destruct Hs as [Hs|Hs]; simpl; by rewrite Hs).
  destruct (peer_alive s e p S E ltac:(lia)) as [q Eq]. destruct (out_some s e p S E ltac:(lia)) as [o Eo].
  destruct (out_valid s e p o S E Eo) as (z & Ez & Hz).
  rsend Eq. rupd. rupd. rthis'. cbn [outpipe set_out_active set_state set_delay]. rewrite Eo.
  eapply (delimit_runs e c _ _ q o z); [simpl; by rewrite upd_at_same|simpl; by rewrite !upd_at_peer|done|done|done|done|].
  intros s' [F1 F2 F3 F4 F5 F6]. apply rtc_once. apply (tr_terminate e a s s' p o z d); [done..|].
  simpl in F2, F3, F4, F5. rewrite ?upd_at_peer, ?upd_at_same, ?upd_at_self in *.
  split; try done. by rewrite F4, <- app_assoc.
Qed.

Lemma terminate_does e c d s p :
  safe s -> ends s e = Some p -> does e (Terminate c d) (terminate c d e) s.
Proof.
  intros S E. unfold does, terminate. rupd. rthis'. cbn [state set_delay delay].
  assert (Htouch : trans e (Terminate c d) s (with_end e (Some (set_delay d p)) s)).
  { apply (tr_touch e _ s _ p d (credential p)); [done|done|].
    replace (set_credential (credential p) p) with p by (by destruct p). effs. }
  destruct (state p) eqn:Es; try (by apply runs_ret, rtc_once).
  - apply (request_runs e (Terminate c d) c d s p eq_refl S E). by left.
  - apply (request_runs e (Terminate c d) c d s p eq_refl S E). by right.
  - assert (Hp : sphase (Some p) = 0%nat) by (simpl; by rewrite Es).
    destruct (peer_alive s e p S E ltac:(lia)) as [q Eq]. destruct (out_some s e p S E ltac:(lia)) as [o Eo].
    destruct (out_valid s e p o S E Eo) as (z & Ez & Hz). destruct d; simpl.
    + rupd. rthis'. cbn [outpipe set_out_active set_delay]. rewrite Eo.
      eapply (delimit_runs e c _ _ q o z); [simpl; by rewrite upd_at_same|simpl; by rewrite !upd_at_peer|simpl; by rewrite Es|done|done|done|].
      intros s' [F1 F2 F3 F4 F5 F6]. apply rtc_once. apply (tr_terminate_waiting e _ s s' p o z true); [done..|].
      simpl in F2, F3, F4, F5. rewrite ?upd_at_peer in *. by split.
    + apply runs_bind. unfold rollback. rthis'. cbn [outpipe set_delay]. rewrite Eo. apply runs_bind. apply (runs_partial o z); [done|].
      apply (unwrite_all_runs o z); [done..|]. intros s1 (E1 & E2 & E3 & E4). simpl in E1, E2, E3, E4.
      apply runs_bind. eapply runs_upd; [rewrite E1; apply upd_at_same|].
      apply runs_bind. eapply runs_send; [simpl; rewrite E1, !upd_at_peer; exact Eq|].
      rupd. rupd. rthis'. cbn [outpipe set_out_active set_delay set_state set_outpipe]. apply runs_ret, rtc_once.
      apply (tr_give_up e _ s _ p o z); [done..|]. split; simpl; rewrite ?upd_at_same, ?upd_at_self, ?upd_at_peer, ?E1, ?E2, ?E3, ?upd_at_peer; done.
Qed.

Lemma hiccup_does e s p : safe s -> ends s e = Some p -> does e Hiccup (hiccup e) s.
Proof.
  intros S E. unfold does, hiccup. rthis E.
  destruct (bool_decide_reflect (state p = active)) as [Hs|Hs]; simpl; [|by apply runs_ret].
  destruct (peer_alive s e p S E) as [q Eq]; [simpl; by rewrite Hs|].
  destruct (end_ok s e p S E) as (_ & Hc & _). rewrite Hc.
  apply runs_bind. eexists _, _. split; [reflexivity|]. simpl.
  rupd. rupd. rsend Eq. apply rtc_once. eapply (tr_hiccup e s _ p); simpl; rewrite ?upd_at_same, ?upd_at_self, ?upd_at_peer; done.
Qed.

Lemma set_marks_does e a f s p :
  match a with SetHwms _ _ | SetHwmsBoost _ _ => True | _ => False end ->
  ends s e = Some p ->
  (forall c : flow, msgs_read (f c) = msgs_read c /\ msgs_written (f c) = msgs_written c /\ peers_msgs_read (f c) = peers_msgs_read c) ->
  does e a (upd e (fun p => set_counts (f (counts p)) p)) s.
Proof.
  intros Ha E Hf. unfold does. rupd. apply rtc_once. destruct (Hf (counts p)) as (H1 & H2 & H3).
  apply (tr_marks e a s _ p (hwm (f (counts p))) (lwm (f (counts p))) (inhwmboost (f (counts p))) (outhwmboost (f (counts p)))); [done..|].
  rewrite <- H1, <- H2, <- H3. replace (Flow _ _ _ _ _ _ _) with (f (counts p)) by (by destruct (f (counts p))). effs.
Qed.

(** ** The commands *)

(** The number of written messages, after some of them have been dropped. *)
Definition undone (l : list T) (c : flow) : flow :=
  with_written (foldl (fun n m => if has_more m then n else u64 (n - 1)) (msgs_written c) l) c.

Lemma drop_unread_runs e o l : forall s p z (Q : sys -> unit -> Prop),
  ends s e = Some p -> upipes s !! o = Some (Normal z) -> Yp.flushed z = l ->
  (forall s1 z1, eff s s1 e (Some (set_counts (undone l (counts p)) p)) (mail s e) [] (<[o := z1]> (upipes s)) -> Q s1 tt) ->
  runs (drop_unread (length l) e o) s Q.
Proof.
  induction l as [|m l IH]; intros s p z Q E Ez Ef HQ; cbn [drop_unread length]; apply runs_bind.
  - apply (runs_call _ _ _ _ _ s _ Ez (read_none z Ef)). apply runs_ret. eapply (HQ _ (Normal (slept z))).
    unfold undone. simpl. replace (set_counts _ p) with p by (by destruct p as [????[]]). effs.
  - apply (runs_call _ _ _ _ _ s _ Ez (read_done z m l Ef)).
    set (n := if has_more m then msgs_written (counts p) else u64 (msgs_written (counts p) - 1)).
    set (p1 := set_counts (with_written n (counts p)) p).
    assert (Hk : forall s1, eff s s1 e (Some p1) (mail s e) [] (<[o := Normal (tail_read z l)]> (upipes s)) ->
      runs (close m ;;; drop_unread (length l) e o) s1 Q).
    { intros s1 F. apply runs_bind. apply runs_close. pose proof F as [F1 F2 F3 F4 F5 F6].
      eapply (IH _ p1 (tail_read z l)); [exact F1|simpl; rewrite F5; apply lookup_insert_eq|done|].
      intros s2 z1 [G1 G2 G3 G4 G5 G6]. simpl in G2, G3, G4, G5, G6. apply (HQ s2 z1).
      split; rewrite ?G1, ?G2, ?G3, ?G4, ?G5, ?G6, ?F2, ?F4, ?F5, ?insert_insert_eq, ?app_nil_r; done. }
    apply runs_bind. unfold n in *. destruct (has_more m) eqn:Em; simpl.
    + apply runs_ret. apply Hk. unfold p1. replace (set_counts _ p) with p by (by destruct p as [????[]]). effs.
    + rupd. apply Hk. effs.
Qed.

Lemma close_unread_runs i l : forall s z (Q : sys -> unit -> Prop),
  upipes s !! i = Some (Normal z) -> Yp.flushed z = l ->
  (forall s1 z1, refilled s s1 i z1 -> Q s1 tt) ->
  runs (close_unread (length l) i) s Q.
Proof.
  induction l as [|m l IH]; intros s z Q Ez Ef HQ; cbn [close_unread length]; apply runs_bind.
  - apply (runs_call _ _ _ _ _ s _ Ez (read_none z Ef)). apply runs_ret. by eapply HQ.
  - apply (runs_call _ _ _ _ _ s _ Ez (read_done z m l Ef)). apply runs_bind. apply runs_close.
    eapply (IH _ (tail_read z l)); [simpl; apply lookup_insert_eq|done|].
    intros s1 z1 (E1 & E2 & E3 & E4). apply (HQ s1 z1). repeat split; [done|done| |done].
    rewrite E3. simpl. by rewrite insert_insert_eq.
Qed.

(** Taking a command off the mailbox. *)
Lemma popped (s : sys) e c l :
  mail s e = c :: l -> forall x, runs (process_command c e) (with_mail e l s) x -> runs (process_next e) s x.
Proof. intros Em x (s' & a & E & HQ). exists s', a. split; [|done]. unfold process_next. by rewrite Em. Qed.

Lemma activate_read_runs e s p l :
  safe s -> ends s e = Some p -> mail s e = activate_read :: l ->
  runs (process_activate_read e) (with_mail e l s) (fun s' _ => trans e Process s s').
Proof.
  intros S E Em. destruct (end_ok s e p S E) as (Hk & _ & _). unfold process_activate_read. rthis E.
  destruct (negb (in_active p) && reading p) eqn:Hb.
  - rupd. eapply (runs_notify e _ (set_in_active true p)); [simpl; apply upd_at_same|done|].
    intros s' (A1 & A2 & A3 & A4). apply (tr_wake e s s' p l); [done..|]. rewrite Hb.
    split; rewrite ?A1, ?A2, ?A3; simpl; rewrite ?upd_at_same, ?upd_at_peer, ?app_nil_r; done.
  - apply runs_ret. apply (tr_wake e s _ p l); [done..|]. rewrite Hb. effs.
Qed.

Lemma activate_write_runs e s p n l :
  safe s -> ends s e = Some p -> mail s e = activate_write n :: l ->
  runs (process_activate_write n e) (with_mail e l s) (fun s' _ => trans e Process s s').
Proof.
  intros S E Em. destruct (end_ok s e p S E) as (Hk & _ & _). unfold process_activate_write.
  rupd. rthis'. cbn [out_active state set_counts].
  destruct (negb (out_active p) && bool_decide (state p = active)) eqn:Hb.
  - rupd. eapply (runs_notify e _ _); [simpl; apply upd_at_same|done|].
    intros s' (A1 & A2 & A3 & A4). apply (tr_credit e s s' p n l); [done..|]. rewrite Hb.
    split; rewrite ?A1, ?A2, ?A3; simpl; rewrite ?upd_at_same, ?upd_at_peer, ?app_nil_r; done.
  - apply runs_ret. apply (tr_credit e s _ p n l); [done..|]. rewrite Hb. effs.
Qed.

Lemma flush_all (z : @Yp.spipe T) : exists z',
  u_flush (Normal z) = Done ((Yp.s_flush z).1, Normal z') /\ Yp.flushed z' = Yp.flushed z ++ Yp.complete z.
Proof.
  exists (Yp.s_flush z).2. simpl. unfold Yp.s_flush. destruct (Yp.complete z); simpl; [|done].
  by rewrite app_nil_r.
Qed.

Lemma hiccup_runs e s p j l :
  safe s -> ends s e = Some p -> mail s e = hiccup_cmd j :: l ->
  runs (process_hiccup j e) (with_mail e l s) (fun s' _ => trans e Process s s').
Proof.
  intros S E Em. destruct (end_ok s e p S E) as (Hk & _ & Hop). unfold process_hiccup. rthis E.
  destruct (mail_phase s e p _ l S E Em) as (ph & Hph & Hl).
  assert (Hr : sphase (Some p) <> 2%nat).
  { intros H2. apply acked_rphase in H2. rewrite H2 in Hph. done. }
  destruct (out_some s e p S E Hr) as [o Eo].
  apply runs_bind. apply (runs_lift _ o); [by rewrite Eo|].
  destruct (out_valid s e p o S E Eo) as (z & Ez & Hz). destruct (flush_all z) as (z' & Ef & Ez').
  apply runs_bind. eapply runs_call; [exact Ez|exact Ef|].
  apply runs_bind. eapply (runs_unread o z'); [apply lookup_insert_eq|].
  apply runs_bind. eapply (drop_unread_runs e o _ _ p z'); [done|apply lookup_insert_eq|done|].
  intros s1 z1 [F1 F2 F3 F4 F5 F6]. rewrite Ez' in F1. simpl in F2, F3, F4, F5, F6. rewrite ?upd_at_same, ?upd_at_peer, ?app_nil_r in *.
  rewrite insert_insert_eq in F5.
  apply runs_bind. eapply (runs_delete o z1); [rewrite F5; apply lookup_insert_eq|].
  rewrite F5, delete_insert_eq. apply runs_bind. eapply runs_upd; [exact F1|]. rupd. rthis'. cbn [state set_out_active set_outpipe set_counts].
  destruct (bool_decide (state p = active)).
  - eapply runs_notify; [simpl; apply upd_at_same|done|]. intros s' (A1 & A2 & A3 & A4).
    apply (tr_hiccuped e s s' p o z j l); [done..|]. split; rewrite ?A1, ?A2, ?A3, ?A4; simpl;
      rewrite ?upd_at_same, ?upd_at_peer, ?app_nil_r; try done.
  - apply runs_ret. apply (tr_hiccuped e s _ p o z j l); [done..|]. effs.
Qed.

Lemma term_runs e s p l :
  safe s -> ends s e = Some p -> mail s e = pipe_term :: l ->
  runs (process_pipe_term e) (with_mail e l s) (fun s' _ => trans e Process s s').
Proof.
  intros S E Em. unfold process_pipe_term. rthis E.
  destruct (request_phase s e p l S E Em) as (Hl & Hh & Hr). simpl in Hr.
  assert (Hq : sphase (Some p) <> 2%nat -> exists q, ends s (negb e) = Some q) by (by apply peer_alive).
  destruct (state p) eqn:Es; try done; simpl in Hq; rewrite Es in Hq; destruct (Hq ltac:(done)) as [q Eq].
  - destruct (delay p) eqn:Ed.
    + rupd. apply (tr_term_wait e s _ p l); [done..|]. effs.
    + rupd. rupd. rsend Eq. apply (tr_term_ack e s _ p l); [done|done|by left|]. rewrite Es. effs.
  - rupd. rupd. rsend Eq. apply (tr_term_ack e s _ p l); [done|done|by right; left|]. rewrite Es. effs.
  - rupd. rupd. rsend Eq. apply (tr_term_ack e s _ p l); [done|done|by right; right|]. rewrite Es. effs.
Qed.

(** An end that is acknowledged has asked or has acknowledged itself. *)
Lemma ack_states s e p l :
  safe s -> ends s e = Some p -> mail s e = pipe_term_ack :: l ->
  state p = term_req_sent1 \/ state p = term_req_sent2 \/ state p = term_ack_sent.
Proof.
  intros S E Em. destruct (mail_phase s e p _ l S E Em) as (ph & Hph & Hl).
  assert (ph = 2%nat) as -> by (destruct (rphase (Some p)) as [|[|]]; simpl in Hph; by simplify_eq).
  apply phases_two in Hl as [_ Hn].
  assert (Hr : (1 <= rphase (ends s (negb e)))%nat).
  { destruct (ends s (negb e)) as [q|]; [|simpl; lia]. by rewrite (acked_rphase q Hn). }
  pose proof (a_phase _ S (negb e)) as Hx. rewrite negb_involutive, E in Hx. apply phases_mono in Hx.
  simpl in Hx. destruct (state p); auto; simpl in Hx; lia.
Qed.

Lemma ack_runs e s p l :
  safe s -> ends s e = Some p -> mail s e = pipe_term_ack :: l ->
  runs (process_pipe_term_ack e) (with_mail e l s) (fun s' _ => trans e Process s s').
Proof.
  intros S E Em. destruct (end_ok s e p S E) as (Hk & Hcf & _). pose proof (ack_states s e p l S E Em) as Hs.
  unfold process_pipe_term_ack. apply runs_bind. eapply (runs_notify e _ p); [done|done|].
  intros s1 (A1 & A2 & A3 & A4). rthis ltac:(constr:(eq_trans (f_equal (fun g => g e) A1) E)).
  destruct (in_valid s e p S E) as (z & Ez & Hz).
  assert (Hk2 : forall s2 cs, eff s s2 e (Some (if decide (state p = term_req_sent1) then set_outpipe None p else p)) l cs (upipes s) ->
    cs = (if decide (state p = term_req_sent1) then [pipe_term_ack] else []) ->
    runs ((let! n := up_unread (inpipe p) in close_unread n (inpipe p)) ;;; up_delete (inpipe p) ;;; delete_this e)
      s2 (fun s' _ => trans e Process s s')).
  { intros s2 cs [F1 F2 F3 F4 F5 F6] ->. apply runs_bind. apply runs_bind.
    apply (runs_unread _ z); [by rewrite F5|]. eapply (close_unread_runs _ _ _ z); [by rewrite F5|done|].
    intros s3 z1 (B1 & B2 & B3 & B4). apply runs_bind. eapply (runs_delete _ z1); [rewrite B3; apply lookup_insert_eq|].
    eexists _, tt. split; [reflexivity|]. apply (tr_dead e s _ p l); [done..|].
    split; simpl; rewrite ?upd_at_same, ?upd_at_peer, ?B1, ?B2, ?B3, ?B4, ?delete_insert_eq, ?F5; done. }
  rewrite Hcf. cbn [negb]. apply runs_bind. destruct (bool_decide_reflect (state p = term_req_sent1)) as [Hs1|Hs1].
  - destruct (peer_alive s e p S E) as [q Eq]; [simpl; by rewrite Hs1|].
    apply runs_bind. eapply runs_upd; [rewrite A1; exact E|].
    eapply runs_send; [simpl; rewrite upd_at_peer, A1; exact Eq|].
    eapply Hk2; [|reflexivity]. rewrite !decide_True by done.
    split; simpl; rewrite ?A1, ?A2, ?A3, ?upd_at_same, ?upd_at_self, ?upd_at_peer; simpl; rewrite ?upd_at_same, ?upd_at_peer; done.
  - apply runs_assert.
    { destruct Hs as [Hs|[Hs|Hs]]; [done| |]; rewrite Hs; by rewrite ?orb_true_r. }
    eapply Hk2; [|reflexivity]. rewrite !decide_False by done.
    split; rewrite ?A1, ?A2, ?A3, ?app_nil_r; simpl; rewrite ?upd_at_same, ?upd_at_peer; done.
Qed.

Lemma hwm_runs e s p i o l :
  ends s e = Some p -> mail s e = pipe_hwm i o :: l ->
  runs (process_pipe_hwm i o e) (with_mail e l s) (fun s' _ => trans e Process s s').
Proof.
  intros E Em. unfold process_pipe_hwm, set_hwms, hwms. rupd.
  match goal with |- trans _ _ _ (with_end _ (Some (set_counts (with_marks ?h ?lw _) _)) _) =>
    apply (tr_marked e s _ p h lw i o l); [done..|] end. effs.
Qed.

(** Processing a command is one transition, and no command comes to an end that has gone. *)
Lemma process_trans e s c l :
  safe s -> mail s e = c :: l -> runs (process_next e) s (fun s' _ => trans e Process s s').
Proof.
  intros S Em. assert (Hp : exists p, ends s e = Some p).
  { destruct (ends s e) as [p|] eqn:E; [by exists p|]. pose proof (a_phase _ S e) as Hph.
    rewrite E, Em in Hph. by apply phases_two in Hph as [? _]. }
  destruct Hp as [p E]. apply (popped s e c l Em). destruct c; simpl.
  - by apply (activate_read_runs e s p).
  - by apply (activate_write_runs e s p).
  - by apply (hiccup_runs e s p).
  - by apply (term_runs e s p).
  - by apply (ack_runs e s p).
  - by apply (hwm_runs e s p).
Qed.

Lemma process_does e s : safe s -> does e Process (process_next e) s.
Proof.
  intros S. unfold does. destruct (mail s e) as [|c l] eqn:Em.
  { eexists s, tt. split; [|apply rtc_refl]. unfold process_next. by rewrite Em. }
  eapply runs_mono; [by apply (process_trans e s c l)|]. intros s' x Ht. by apply rtc_once.
Qed.

(** Every method runs, as a sequence of transitions. *)
Lemma step_runs e a s : safe s -> allowed s e a -> does e a (step e a) s.
Proof.
  intros S Ha. assert (Hp : a = Process \/ exists p, ends s e = Some p).
  { destruct a; simpl in Ha; try (right; exact Ha); [|by left]. right. unfold acked in Ha.
    destruct (ends s e) as [p|]; [by exists p|done]. }
  destruct Hp as [->|[p E]]; [apply does_bind_ret; by apply process_does|].
  destruct a; simpl step; try (apply (does_bind_ret e _ _ (fun _ => RUnit))).
  - apply does_bind_ret. by apply (check_read_does e _ s p).
  - apply does_bind_ret. by apply (read_does e _ s p).
  - apply does_bind_ret. apply (check_write_runs e CheckWrite s p); done.
  - apply does_bind_ret. by apply (write_does e s p).
  - by apply (rollback_does e s p).
  - by apply (flush_does e s p).
  - by apply (hiccup_does e s p).
  - unfold does, set_nodelay. rupd. apply rtc_once. apply (tr_touch e _ s _ p false (credential p)); [done|done|].
    replace (set_credential (credential p) p) with p by (by destruct p). effs.
  - by apply (terminate_does e _ _ s p).
  - unfold set_hwms. apply (set_marks_does e _ (hwms _ _) s p); done.
  - apply (set_marks_does e _ (with_boosts _ _) s p); done.
  - pose proof (not_acked s e p E Ha) as Hn. destruct (peer_alive s e p S E ltac:(lia)) as [q Eq].
    unfold does, send_hwms_to_peer. rsend Eq. apply rtc_once. apply (tr_send_hwms e _ _ s _ p); [done..|]. effs.
  - by apply process_does.
Qed.

(** ** Reachable pairs *)
Lemma piperuns_start_done hwm0 hwm1 c0 c1 : exists s, start hwm0 hwm1 c0 c1 = Done s.
Proof. by eexists. Qed.

Definition started (hwm0 hwm1 : Z) : sys :=
  match start hwm0 hwm1 false false with Done s => s | Crash => pipepair hwm0 hwm1 false false end.

Lemma start_safe hwm0 hwm1 : safe (started hwm0 hwm1).
Proof.
  split.
  - by intros [].
  - intros [] p [= <-]; done.
  - by intros [] q [= <-].
  - unfold chain. simpl. repeat constructor; set_solver.
  - intros i. unfold chain. simpl. rewrite !elem_of_cons, elem_of_nil.
    destruct (decide (i = 0%nat)) as [->|]; [rewrite lookup_insert_eq; split; [auto|by eexists]|].
    rewrite lookup_insert_ne by done. destruct (decide (i = 1%nat)) as [->|]; [rewrite lookup_insert_eq; split; [auto|by eexists]|].
    rewrite lookup_insert_ne, lookup_empty by done. split; [by intros []|]. intuition.
  - intros i. simpl. destruct (decide (i = 0%nat)) as [->|]; [lia|]. rewrite lookup_insert_ne by done.
    destruct (decide (i = 1%nat)) as [->|]; [lia|]. rewrite lookup_insert_ne, lookup_empty by done. by intros [].
  - intros i y. simpl. destruct (decide (i = 0%nat)) as [->|]; [rewrite lookup_insert_eq; intros [= <-]; constructor|].
    rewrite lookup_insert_ne by done. destruct (decide (i = 1%nat)) as [->|]; [rewrite lookup_insert_eq; intros [= <-]; constructor|].
    by rewrite lookup_insert_ne, lookup_empty.
Qed.

Lemma step_done e a s s' r : safe s -> allowed s e a -> step e a s = Done (s', r) -> rtc (trans e a) s s'.
Proof. intros S Ha E. destruct (step_runs e a s S Ha) as (s1 & r1 & E1 & Ht). rewrite E in E1. by injection E1 as -> ->. Qed.

Lemma reach_safe P h0 h1 s : reach P (started h0 h1) s -> safe s.
Proof.
  induction 1 as [|e a s s' r _ IH _ Ha E]; [apply start_safe|].
  apply (rtc_safe e a s s' IH). by apply (step_done e a s s' r).
Qed.

(** An invariant of the transitions that the actions of a run can make. *)
Lemma reach_invariant (P : action -> Prop) (I : sys -> Prop) h0 h1 :
  I (started h0 h1) ->
  (forall e a s s', P a -> safe s -> I s -> trans e a s s' -> I s') ->
  forall s, reach P (started h0 h1) s -> I s.
Proof.
  intros H0 Hs. induction 1 as [|e a s s' r Hr IH Ha Hal E]; [done|].
  pose proof (reach_safe P h0 h1 s Hr) as S. pose proof (step_done e a s s' r S Hal E) as Ht.
  clear E Hr Hal. induction Ht as [|s s1 s' Ht _ IHt]; [done|]. apply IHt.
  - by apply (Hs e a s).
  - by apply (trans_safe e a s).
Qed.
End Runs.
End PipeRuns.
