(* ===== verification/PipeLive.v ===== *)
(** * PipeLive: wake-ups and termination of a pair of pipes

    Invariants of the transitions of [PipeSteps]: a reader that has been told there is
    nothing to read is woken when there is, and the delimiter follows a request to
    terminate.  From these: the protocol never touches a deleted end or a freed queue,
    no wake-up is lost, and a pair that has begun to terminate ends, with nothing left
    behind. *)

From stdpp Require Import relations.
From S2P Require Import Prelude Msg Pipes Yqueue Ypipe Conflate Pipe PipeSteps PipeRuns.

Module PipeLive.
Import Pipe PipeSteps PipeRuns.

(** The components of the [eff] of a transition, in [F1] to [F6]. *)
Ltac parts F :=
  pose proof (f_this _ _ _ _ _ _ _ F) as F1; pose proof (f_peer _ _ _ _ _ _ _ F) as F2;
  pose proof (f_mail _ _ _ _ _ _ _ F) as F3; pose proof (f_sent _ _ _ _ _ _ _ F) as F4;
  pose proof (f_upipes _ _ _ _ _ _ _ F) as F5; clear F.

Section Live.
Context {T : Type} `{Message T}.

Abbreviation sys := (@sys T).

(** ** The queues of the two directions are distinct *)
Lemma chains_disjoint (s : sys) e i j : safe s -> i ∈ chain s e -> j ∈ chain s (negb e) -> i <> j.
Proof.
  intros S Hi Hj ->. pose proof (a_nodup _ S) as Hnd. apply NoDup_app in Hnd as (_ & Hd & _).
  destruct e; simpl in Hj; [by apply (Hd j)|by apply (Hd j)].
Qed.

Lemma in_in_chain (s : sys) e p : safe s -> ends s e = Some p -> inpipe p ∈ chain s (negb e).
Proof. intros S E. apply last_Some_elem_of, (a_last _ S). by rewrite negb_involutive. Qed.

Lemma out_in_chain (s : sys) e p o : ends s e = Some p -> outpipe p = Some o -> o ∈ chain s e.
Proof. intros E Eo. rewrite (chain_out s e p o E Eo). by left. Qed.

Lemma out_ne_in (s : sys) e p o : safe s -> ends s e = Some p -> outpipe p = Some o -> o <> inpipe p.
Proof.
  intros S E Eo. apply (chains_disjoint s e); [done|by apply (out_in_chain s e p)|by apply in_in_chain].
Qed.

Lemma in_ne_in (s : sys) e p q : safe s -> ends s e = Some p -> ends s (negb e) = Some q -> inpipe p <> inpipe q.
Proof.
  intros S E Eq Hx. pose proof (in_in_chain s e p S E) as H1. pose proof (in_in_chain s _ q S Eq) as H2.
  rewrite negb_involutive in H2. by apply (chains_disjoint s e _ _ S H2 H1).
Qed.

Lemma next_ne_in (s : sys) e q : safe s -> ends s e = Some q -> next_upipe s <> inpipe q.
Proof.
  intros S E Hx. destruct (in_valid s e q S E) as (z & Ez & _).
  pose proof (a_fresh _ S (inpipe q) ltac:(by eexists)). lia.
Qed.

(** While a hiccup is on its way, the old queue is not the one the peer reads. *)
Lemma old_ne_in (s : sys) e p q o j l :
  safe s -> ends s e = Some p -> mail s e = hiccup_cmd j :: l -> outpipe p = Some o ->
  ends s (negb e) = Some q -> o <> inpipe q.
Proof.
  intros S E Em Eo Eq ->. pose proof (a_last _ S e q Eq) as Hl. pose proof (a_nodup _ S) as Hnd.
  assert (Hn : NoDup (chain s e)) by (apply NoDup_app in Hnd as (? & _ & ?); by destruct e).
  rewrite (chain_out s e p _ E Eo), Em in Hl, Hn. cbn [hiccups omap list_omap] in Hl, Hn.
  apply NoDup_cons in Hn as [Hn _]. apply Hn. rewrite last_cons_cons in Hl. by apply last_Some_elem_of.
Qed.

(** ** No wake-up is lost *)

Record awake (s : sys) : Prop := {
  w_queue : forall i y, upipes s !! i = Some (Normal y) -> Yp.asleep y = true -> Yp.flushed y = [];
  w_reader : forall e p y, ends s e = Some p -> reading p = true -> in_active p = false ->
    upipes s !! inpipe p = Some (Normal y) -> Yp.asleep y = true \/ activate_read ∈ mail s e
}.

(** A queue that is replaced keeps the first condition. *)
Lemma w_insert (h : gmap nat (upipe (T := T))) o z' :
  (forall i y, h !! i = Some (Normal y) -> Yp.asleep y = true -> Yp.flushed y = []) ->
  (Yp.asleep z' = true -> Yp.flushed z' = []) ->
  forall i y, <[o := Normal z']> h !! i = Some (Normal y) -> Yp.asleep y = true -> Yp.flushed y = [].
Proof.
  intros Hh Hz i y. destruct (decide (i = o)) as [->|].
  - rewrite lookup_insert_eq. by intros [= <-].
  - rewrite lookup_insert_ne by done. apply Hh.
Qed.

Lemma w_delete (h : gmap nat (upipe (T := T))) o :
  (forall i y, h !! i = Some (Normal y) -> Yp.asleep y = true -> Yp.flushed y = []) ->
  forall i y, delete o h !! i = Some (Normal y) -> Yp.asleep y = true -> Yp.flushed y = [].
Proof.
  intros Hh i y. destruct (decide (i = o)) as [->|]; [by rewrite lookup_delete_eq|].
  rewrite lookup_delete_ne by done. apply Hh.
Qed.

Lemma trans_queues e a (s s' : sys) : awake s -> trans e a s s' ->
  forall i y, upipes s' !! i = Some (Normal y) -> Yp.asleep y = true -> Yp.flushed y = [].
Proof.
  intros [W _] Ht. destruct Ht; try (match goal with F : eff _ _ _ _ _ _ _ |- _ => rewrite (f_upipes _ _ _ _ _ _ _ F) end);
    try exact W; try (by apply w_delete); try (apply w_insert; [done|]); simpl; try done.
  - intros Ha. match goal with Hy : upipes s !! _ = Some _ |- _ => pose proof (W _ _ Hy Ha) end. congruence.
  - intros Ha. match goal with Hy : upipes s !! _ = Some _ |- _ => pose proof (W _ _ Hy Ha) end. congruence.
  - intros Ha. match goal with Hy : upipes s !! _ = Some _ |- _ => pose proof (W _ _ Hy Ha) end. congruence.
  - match goal with Hy : upipes s !! _ = Some _ |- _ => pose proof (W _ _ Hy) end. by destruct (has_more m).
  - match goal with Hy : upipes s !! _ = Some _ |- _ => by pose proof (W _ _ Hy) end.
  - match goal with Hy : upipes s !! _ = Some _ |- _ => pose proof (W _ _ Hy) end.
    unfold Yp.s_flush. by destruct (Yp.complete z).
  - match goal with Hy : upipes s !! _ = Some _ |- _ => by pose proof (W _ _ Hy) end.
  - match goal with Hy : upipes s' = _ |- _ => rewrite Hy end. by apply w_insert.
Qed.

(** After a command other than [activate_read]. *)
Lemma still_woken (P : Prop) e (s : sys) c l :
  mail s e = c :: l -> c <> activate_read -> P \/ activate_read ∈ mail s e -> P \/ activate_read ∈ l.
Proof. intros Em Hc [?|Hm]; [by left|right]. rewrite Em in Hm. apply elem_of_cons in Hm as [<-|]; done. Qed.

(** The reader that makes the transition. *)
Lemma trans_reader_own e a (s s' : sys) p' y' : safe s -> awake s -> trans e a s s' ->
  ends s' e = Some p' -> reading p' = true -> in_active p' = false ->
  upipes s' !! inpipe p' = Some (Normal y') -> Yp.asleep y' = true \/ activate_read ∈ mail s' e.
Proof.
  intros S [_ W] Ht E' Hr' Hi' Ey'. trans_cases Ht; try parts F;
    try (rewrite F1 in E'; injection E' as <-; rewrite F3; rewrite F5 in Ey'; cbn in Hr', Hi', Ey');
    try (by apply (W e p y')); try congruence; try done;
    try (rewrite lookup_insert_ne in Ey' by (by apply (out_ne_in s e p)); by apply (W e p y'));
    try (apply (still_woken _ e s _ l Em); [done|]; by apply (W e p y')).
  - rewrite lookup_insert_eq in Ey'. injection Ey' as <-. by left.
  - by destruct (decide (state p = active)).
  - rewrite G1 in E'. by injection E' as <-.
  - destruct (negb (in_active p) && reading p) eqn:Hb; [done|]. by rewrite Hi', Hr' in Hb.
  - apply (still_woken _ e s _ l Em); [done|]. apply (W e p y'); by destruct (_ && _).
  - rewrite lookup_delete_ne in Ey' by (by apply (out_ne_in s e p)).
    apply (still_woken _ e s _ l Em); [done|]. by apply (W e p y').
  - apply (still_woken _ e s _ l Em); [done|]. apply (W e p y'); try done. unfold reading. by rewrite Es.
  - destruct Es as [[Es _]|[Es|Es]]; by rewrite Es in Hr'.
Qed.

(** A queue that the transition replaces, seen from its reader. *)
Lemma woken_insert (h : gmap nat (upipe (T := T))) o z z' i y' cs (m : list command) :
  h !! o = Some (Normal z) -> <[o := Normal z']> h !! i = Some (Normal y') ->
  (Yp.asleep z = true -> Yp.asleep z' = true \/ activate_read ∈ cs) ->
  (forall y, h !! i = Some (Normal y) -> Yp.asleep y = true \/ activate_read ∈ m) ->
  Yp.asleep y' = true \/ activate_read ∈ m ++ cs.
Proof.
  intros Ez Ey Hz W. rewrite elem_of_app. destruct (decide (i = o)) as [->|Hne].
  - rewrite lookup_insert_eq in Ey. injection Ey as <-. destruct (W z Ez) as [Ha|Hm]; [|tauto].
    destruct (Hz Ha); tauto.
  - rewrite lookup_insert_ne in Ey by done. destruct (W y' Ey); tauto.
Qed.

(** The peer of the end that makes it. *)
Lemma trans_reader_peer e a (s s' : sys) q y' : safe s -> awake s -> trans e a s s' ->
  ends s (negb e) = Some q -> reading q = true -> in_active q = false ->
  upipes s' !! inpipe q = Some (Normal y') -> Yp.asleep y' = true \/ activate_read ∈ mail s' (negb e).
Proof.
  intros S [_ W] Ht Eq Hr' Hi' Ey'. assert (Wq := fun y => W (negb e) q y Eq Hr' Hi').
  trans_cases Ht; try parts F; try (rewrite F4; rewrite F5 in Ey');
    try (rewrite lookup_insert_ne in Ey' by (by apply (in_ne_in s e)));
    try (rewrite ?elem_of_app; destruct (Wq y' Ey') as [|]; tauto).
  - by apply (woken_insert (upipes s) o z _ (inpipe q) y' _ _ Ez Ey'); [left; destruct (has_more m)|].
  - by apply (woken_insert (upipes s) o z _ (inpipe q) y' _ _ Ez Ey'); [left|].
  - apply (woken_insert (upipes s) o z _ (inpipe q) y' _ _ Ez Ey'); [|done].
    unfold Yp.s_flush. destruct (Yp.complete z); [by left|]. simpl. intros ->. right. by left.
  - apply (woken_insert (upipes s) o z _ (inpipe q) y' _ _ Ez Ey'); [|done].
    unfold wake. intros ->. right. by right; left.
  - apply (woken_insert (upipes s) o z _ (inpipe q) y' _ _ Ez Ey'); [|done].
    unfold wake. intros ->. right. by left.
  - by apply (woken_insert (upipes s) o z _ (inpipe q) y' _ _ Ez Ey'); [left|].
  - rewrite G5 in Ey'. rewrite lookup_insert_ne in Ey' by (by apply (next_ne_in s (negb e))).
    rewrite G4, elem_of_app. destruct (Wq y' Ey') as [|]; tauto.
  - rewrite lookup_delete_ne in Ey' by (by apply (old_ne_in s e p q o j l)).
    rewrite elem_of_app. destruct (Wq y' Ey') as [|]; tauto.
  - rewrite lookup_delete_ne in Ey' by (by apply (in_ne_in s e)).
    rewrite elem_of_app. destruct (Wq y' Ey') as [|]; tauto.
Qed.

Lemma trans_peer e a (s s' : sys) : trans e a s s' -> ends s' (negb e) = ends s (negb e).
Proof. intros Ht. trans_cases Ht; try (by apply F). done. Qed.

Lemma trans_awake e a (s s' : sys) : safe s -> awake s -> trans e a s s' -> awake s'.
Proof.
  intros S W Ht. split; [by apply (trans_queues e a s s')|].
  intros e' p y E. destruct (bool_cases e e') as [->| ->].
  - by apply (trans_reader_own e a s s').
  - rewrite (trans_peer e a s s' Ht) in E. by apply (trans_reader_peer e a s s').
Qed.

Lemma start_awake hwm0 hwm1 : awake (started (T := T) hwm0 hwm1).
Proof.
  split.
  - intros i y. simpl. destruct (decide (i = 0%nat)) as [->|]; [rewrite lookup_insert_eq; by intros [= <-]|].
    rewrite lookup_insert_ne by done. destruct (decide (i = 1%nat)) as [->|]; [rewrite lookup_insert_eq; by intros [= <-]|].
    by rewrite lookup_insert_ne, lookup_empty.
  - by intros [] p y [= <-].
Qed.

Lemma reach_awake P h0 h1 s : reach P (started h0 h1) s -> awake s.
Proof. apply reach_invariant; [apply start_awake|]. intros e a s0 s1 _. apply trans_awake. Qed.

(** ** The delimiter follows the request to terminate *)

Record delimits (s : sys) : Prop := {
  d_mail : forall e i, hiccup_cmd i ∉ mail s e;
  d_queue : forall e p q y, ends s e = Some p -> ends s (negb e) = Some q ->
    reading p = true -> state q = term_req_sent1 ->
    upipes s !! inpipe p = Some (Normal y) -> msg_delimiter ∈ Yp.flushed y
}.

Lemma no_hiccups (l : list command) : (forall i, hiccup_cmd i ∉ l) -> hiccups l = [].
Proof.
  induction l as [|c l IH]; intros Hl; [done|].
  assert (hiccups l = []) as Hr by (apply IH; intros i Hi; apply (Hl i); by right).
  destruct c; try exact Hr. exfalso. apply (Hl pipe). by left.
Qed.

(** Without hiccups the peer reads what an end writes. *)
Lemma out_is_in (s : sys) e p q o :
  safe s -> delimits s -> ends s e = Some p -> outpipe p = Some o -> ends s (negb e) = Some q -> inpipe q = o.
Proof.
  intros S [Dm _] E Eo Eq. pose proof (a_last _ S e q Eq) as Hl.
  rewrite (chain_out s e p o E Eo), no_hiccups in Hl by apply Dm. by injection Hl.
Qed.

(** The commands a transition adds to a mailbox. *)
Definition sent_by (a : action (T := T)) (c : command) : Prop :=
  match c with
  | hiccup_cmd _ => a = Hiccup
  | pipe_hwm i o => a = SendHwms i o
  | _ => True
  end.

Lemma trans_commands e a (s s' : sys) e' c0 :
  trans e a s s' -> c0 ∈ mail s' e' -> c0 ∈ mail s e' \/ sent_by a c0.
Proof.
  intros Ht. destruct (bool_cases e e') as [->| ->]; trans_cases Ht; try parts F;
    rewrite ?F3, ?F4, ?G3, ?G4, ?elem_of_app; try tauto; try (rewrite Em, elem_of_cons; tauto);
    intros [?|Hx]; try tauto; right; try (by apply elem_of_nil in Hx);
    try (by apply list_elem_of_singleton in Hx as ->).
  - unfold credit in Hx. destruct (_ && _); [by apply list_elem_of_singleton in Hx as ->|by apply elem_of_nil in Hx].
  - destruct (decide _); [by apply elem_of_nil in Hx|by apply list_elem_of_singleton in Hx as ->].
  - destruct (Yp.s_flush z).1; [by apply elem_of_nil in Hx|by apply list_elem_of_singleton in Hx as ->].
  - apply elem_of_cons in Hx as [->|Hx]; [done|]. unfold wake in Hx.
    destruct (Yp.asleep z); [by apply list_elem_of_singleton in Hx as ->|by apply elem_of_nil in Hx].
  - unfold wake in Hx. destruct (Yp.asleep z); [by apply list_elem_of_singleton in Hx as ->|by apply elem_of_nil in Hx].
  - destruct (decide _); [by apply list_elem_of_singleton in Hx as ->|by apply elem_of_nil in Hx].
Qed.

Lemma trans_mail e a (s s' : sys) : a <> Hiccup -> delimits s -> trans e a s s' -> forall e' i, hiccup_cmd i ∉ mail s' e'.
Proof. intros Ha D Ht e' i Hx. destruct (trans_commands e a s s' e' _ Ht Hx) as [Hm|Hm]; [by apply (d_mail _ D e' i)|done]. Qed.

(** Taking a message that is not the delimiter leaves it in the queue. *)
Lemma delimiter_stays (m : T) l :
  msg_delimiter ∈ m :: l -> is_credential m = true \/ is_delimiter m = false -> msg_delimiter ∈ l.
Proof.
  intros [<-|?]%elem_of_cons Hm; [|done]. pose proof delimiter_delimits. pose proof delimiter_no_credential.
  destruct Hm; congruence.
Qed.

Lemma trans_delim_own e a (s s' : sys) p' q y' : a <> Hiccup -> safe s -> delimits s -> trans e a s s' ->
  ends s' e = Some p' -> ends s (negb e) = Some q -> reading p' = true -> state q = term_req_sent1 ->
  upipes s' !! inpipe p' = Some (Normal y') -> msg_delimiter ∈ Yp.flushed y'.
Proof.
  intros Ha S [Dm D] Ht E' Eq Hr' Hq Ey'. trans_cases Ht; try done; try parts F;
    try (rewrite F1 in E'; injection E' as <-; rewrite F5 in Ey'; cbn in Hr', Ey');
    try (by apply (D e p q y')); try congruence; try done;
    try (rewrite lookup_insert_ne in Ey' by (by apply (out_ne_in s e p)); by apply (D e p q y')).
  - pose proof (D e p q y E Eq Hr Hq Hy) as Hx. rewrite Hf in Hx. by apply elem_of_nil in Hx.
  - rewrite lookup_insert_eq in Ey'. injection Ey' as <-. pose proof (D e p q y E Eq Hr Hq Hy) as Hx. rewrite Hf in Hx.
    apply (delimiter_stays m l Hx). by left.
  - rewrite lookup_insert_eq in Ey'. injection Ey' as <-. pose proof (D e p q y E Eq Hr Hq Hy) as Hx. rewrite Hf in Hx.
    apply (delimiter_stays m l Hx). by right.
  - by destruct (decide (state p = active)).
  - apply (D e p q y'); try done; by destruct (_ && _).
  - apply (D e p q y'); try done; by destruct (_ && _).
  - exfalso. apply (Dm e j). rewrite Em. by left.
  - apply (D e p q y'); try done. unfold reading. by rewrite Es.
  - destruct Es as [[Es _]|[Es|Es]]; by rewrite Es in Hr'.
Qed.

(** A queue whose flushed messages are kept. *)
Lemma delim_insert (h : gmap nat (upipe (T := T))) o z z' i y' :
  h !! o = Some (Normal z) -> <[o := Normal z']> h !! i = Some (Normal y') ->
  Yp.flushed z ⊆ Yp.flushed z' -> (forall y, h !! i = Some (Normal y) -> msg_delimiter ∈ Yp.flushed y) ->
  msg_delimiter ∈ Yp.flushed y'.
Proof.
  intros Ez Ey Hz D. destruct (decide (i = o)) as [->|Hne].
  - rewrite lookup_insert_eq in Ey. injection Ey as <-. apply Hz. by apply D.
  - rewrite lookup_insert_ne in Ey by done. by apply D.
Qed.

Lemma trans_delim_peer e a (s s' : sys) p' q y' : a <> Hiccup -> safe s -> delimits s -> trans e a s s' ->
  ends s (negb e) = Some q -> ends s' e = Some p' -> reading q = true -> state p' = term_req_sent1 ->
  upipes s' !! inpipe q = Some (Normal y') -> msg_delimiter ∈ Yp.flushed y'.
Proof.
  intros Ha S D0 Ht Eq E' Hr' Hp' Ey'. pose proof D0 as [Dm D].
  assert (Dq := fun p y E Hs => D (negb e) q p y Eq E Hr' Hs). rewrite negb_involutive in Dq.
  trans_cases Ht; try done; try parts F;
    try (rewrite F1 in E'; injection E' as <-; rewrite F5 in Ey'; cbn in Hp', Ey');
    try (rewrite lookup_insert_ne in Ey' by (by apply (in_ne_in s e)));
    try (by apply (Dq p)); try congruence; try done.
  - by destruct (decide (state p = active)).
  - by apply (delim_insert (upipes s) o z _ (inpipe q) y' Ez Ey'); [|intros; apply (Dq p)].
  - apply (delim_insert (upipes s) o z _ (inpipe q) y' Ez Ey'); [|by intros; apply (Dq p)].
    unfold Yp.s_flush. destruct (Yp.complete z); simpl; set_solver.
  - rewrite (out_is_in s e p q o S D0 E Eo Eq), lookup_insert_eq in Ey'. injection Ey' as <-. simpl. set_solver.
  - apply (Dq p); [done|by destruct (_ && _)|done].
  - apply (Dq p); [done|by destruct (_ && _)|done].
  - exfalso. apply (Dm e j). rewrite Em. by left.
  - by destruct (decide (state p = term_req_sent1)).
Qed.

Lemma trans_delimits e a (s s' : sys) : a <> Hiccup -> safe s -> delimits s -> trans e a s s' -> delimits s'.
Proof.
  intros Ha S D Ht. split; [by apply (trans_mail e a s)|].
  intros e' p q y E Eq Hr Hq Ey. destruct (bool_cases e e') as [->| ->].
  - rewrite (trans_peer e a s s' Ht) in Eq. by apply (trans_delim_own e a s s' p q).
  - rewrite (trans_peer e a s s' Ht) in E. rewrite negb_involutive in Eq.
    by apply (trans_delim_peer e a s s' q p).
Qed.

Lemma start_delimits hwm0 hwm1 : delimits (started (T := T) hwm0 hwm1).
Proof. split; [intros e i; by apply not_elem_of_nil|]. by intros [] p q y [= <-] [= <-]. Qed.

Definition no_hiccup (a : action (T := T)) : Prop := a <> Hiccup.

Lemma reach_delimits h0 h1 s : reach no_hiccup (started h0 h1) s -> delimits s.
Proof. apply reach_invariant; [apply start_delimits|]. intros e a s0 s1 Ha S D. by apply trans_delimits. Qed.

(** ** Progress *)

(** An end processes a command, or reads while it may. *)
Definition busy (s : sys) (e : bool) (a : action (T := T)) : Prop :=
  (a = Process /\ mail s e <> []) \/
  (a = Read /\ exists p, ends s e = Some p /\ reading p = true /\ in_active p = true).

Definition fair_step (s s' : sys) : Prop := exists e a r, busy s e a /\ step e a s = Done (s', r).

(** A termination has begun: an end has gone, or has asked, or has been asked. *)
Definition late (p : option pipe_t) : Prop :=
  match p with Some p => state p <> active /\ state p <> delimiter_received | None => True end.
Definition begun (s : sys) : Prop := exists e, late (ends s e).

Lemma trans_late e a (s s' : sys) : trans e a s s' -> late (ends s e) -> late (ends s' e).
Proof.
  intros Ht Hl. trans_cases Ht; try parts F; rewrite ?F1, ?G1; rewrite E in Hl; simpl in *; try done;
    try (by destruct (_ && _)); try tauto.
  - destruct (decide (state p = active)); [tauto|done].
  - by destruct (decide _).
Qed.

Lemma rtc_begun e a (s s' : sys) : rtc (trans e a) s s' -> begun s -> begun s'.
Proof.
  induction 1 as [|s s1 s' Ht _ IH]; [done|]. intros [e' Hl]. apply IH. exists e'.
  destruct (bool_cases e e') as [->| ->]; [by apply (trans_late e a s)|]. by rewrite (trans_peer e a s s1 Ht).
Qed.

Lemma busy_allowed s e a : busy s e a -> allowed s e a.
Proof. intros [[-> _]|(-> & p & E & _)]; simpl; [done|]. by exists p. Qed.

(** Without a fair step, a termination that has begun is over. *)
Lemma idle_gone s : safe s -> awake s -> delimits s -> begun s ->
  (forall e a, ~ busy s e a) -> forall e, ends s e = None.
Proof.
  intros S W D Hb Hi.
  assert (Hm : forall e, mail s e = []).
  { intros e. destruct (mail s e) eqn:Em; [done|]. exfalso. apply (Hi e Process). left. by rewrite Em. }
  assert (Hph : forall e, rphase (ends s e) = sphase (ends s (negb e))).
  { intros e. pose proof (a_phase _ S e) as Hx. rewrite Hm in Hx. by injection Hx. }
  assert (Hq : forall e p, ends s e = Some p -> state p = term_req_sent1 -> False).
  { intros e p E Es. pose proof (Hph e) as H1. pose proof (Hph (negb e)) as H2. rewrite negb_involutive, E in *.
    simpl in H1, H2. rewrite Es in H1, H2. destruct (ends s (negb e)) as [q|] eqn:Eq; [|done].
    simpl in H1, H2. assert (Eqw : state q = waiting_for_delimiter) by (by destruct (state q)).
    assert (Hr : reading q = true) by (unfold reading; by rewrite Eqw).
    destruct (in_valid s _ q S Eq) as (y & Ey & _).
    pose proof (d_queue _ D (negb e) q p y Eq) as Hd. rewrite negb_involutive in Hd. specialize (Hd E Hr Es Ey).
    destruct (in_active q) eqn:Ea; [apply (Hi (negb e) Read); right; split; [done|by exists q]|].
    destruct (w_reader _ W _ q y Eq Hr Ea Ey) as [Has|Hin]; [|rewrite Hm in Hin; by apply elem_of_nil in Hin].
    rewrite (w_queue _ W _ y Ey Has) in Hd. by apply elem_of_nil in Hd. }
  assert (Hn : forall e, late (ends s e) -> ends s e = None).
  { intros e Hl. destruct (ends s e) as [p|] eqn:E; [|done]. exfalso.
    pose proof (Hph e) as H1. pose proof (Hph (negb e)) as H2. rewrite negb_involutive, E in *. simpl in H1, H2, Hl.
    destruct (ends s (negb e)) as [q|] eqn:Eq; simpl in H1, H2; [|by destruct (state p)].
    pose proof (Hq _ q Eq). destruct (state p) eqn:Ep, (state q); try done; try tauto; by apply (Hq e p E). }
  destruct Hb as [e0 Hl]. pose proof (Hn e0 Hl) as E0. intros e. destruct (bool_cases e0 e) as [->| ->]; [done|].
  pose proof (Hph e0) as H1. rewrite E0 in H1. simpl in H1.
  destruct (ends s (negb e0)) as [q|] eqn:Eq; [|done]. rewrite <- Eq. apply Hn. rewrite Eq. simpl in *. by destruct (state q).
Qed.

(** ** The measure of what is left to do *)

Definition unread (s : sys) (i : nat) : nat :=
  match upipes s !! i with Some (Normal y) => length (Yp.flushed y) | _ => 0 end.

Definition end_weight (s : sys) (e : bool) : nat :=
  match ends s e with
  | None => 0
  | Some p => 3 + (if in_active p then 1 else 0) + 2 * unread s (inpipe p)
  end.

Definition weight (c : command) : nat :=
  match c with activate_read => 2 | pipe_term => 3 | _ => 1 end.

Definition mail_weight (l : list command) : nat := sum_list_with weight l.

Definition measure (s : sys) : nat :=
  end_weight s false + end_weight s true + (mail_weight (mail s false) + mail_weight (mail s true)).

Lemma measure_split s e :
  measure s = (end_weight s e + end_weight s (negb e) + (mail_weight (mail s e) + mail_weight (mail s (negb e))))%nat.
Proof. unfold measure. destruct e; simpl; lia. Qed.

Lemma mail_weight_app l l' : mail_weight (l ++ l') = (mail_weight l + mail_weight l')%nat.
Proof. unfold mail_weight. by rewrite sum_list_with_app. Qed.

Lemma end_weight_some s e p :
  ends s e = Some p -> end_weight s e = (3 + (if in_active p then 1 else 0) + 2 * unread s (inpipe p))%nat.
Proof. unfold end_weight. by intros ->. Qed.

(** A step of [e] that leaves the peer's queue as it is. *)
Lemma measure_eff s s' e p' l cs h :
  eff s s' e p' l cs h ->
  (forall q, ends s (negb e) = Some q -> h !! inpipe q = upipes s !! inpipe q) ->
  (end_weight s' e + mail_weight l + mail_weight cs < end_weight s e + mail_weight (mail s e))%nat ->
  (measure s' < measure s)%nat.
Proof.
  intros [F1 F2 F3 F4 F5 F6] Hq Hw. rewrite (measure_split s e), (measure_split s' e), F3, F4, mail_weight_app.
  assert (Ep : end_weight s' (negb e) = end_weight s (negb e)).
  { unfold end_weight. rewrite F2. destruct (ends s (negb e)) as [q|]; [|done]. unfold unread. by rewrite F5, (Hq q eq_refl). }
  lia.
Qed.

Lemma unread_at s i y : upipes s !! i = Some (Normal y) -> unread s i = length (Yp.flushed y).
Proof. unfold unread. by intros ->. Qed.

Lemma unread_inserted s i y h : upipes s = <[i := Normal y]> h -> unread s i = length (Yp.flushed y).
Proof. unfold unread. intros ->. by rewrite lookup_insert_eq. Qed.

Lemma unread_same (s s' : sys) i : upipes s' = upipes s -> unread s' i = unread s i.
Proof. unfold unread. by intros ->. Qed.

(** The weights of an end, and of what it sends, in a step. *)
Ltac weigh S E F p :=
  eapply (measure_eff _ _ _ _ _ _ _ F);
  [try done; intros q Eq; rewrite lookup_insert_ne by (by apply (in_ne_in _ _ p q S E Eq)); done|];
  rewrite (end_weight_some _ _ _ (f_this _ _ _ _ _ _ _ F)), (end_weight_some _ _ _ E).

Lemma receive_measure e a (s s' : sys) : receiving a = true -> safe s -> trans e a s s' -> (measure s' < measure s)%nat.
Proof.
  intros Ha S Ht. trans_cases Ht; try done; try (by destruct a);
    weigh S E F p; rewrite ?(unread_at s _ y Hy); cbn [inpipe in_active set_in_active set_credential set_counts];
    try rewrite (unread_inserted s' _ _ _ (f_upipes _ _ _ _ _ _ _ F)), Hf; rewrite ?Hi; simpl; try lia.
  - unfold credit. destruct (_ && _); simpl; lia.
  - destruct (decide (state p = active)); simpl;
      rewrite (unread_inserted s' _ _ _ (f_upipes _ _ _ _ _ _ _ F)), Hi, Hf; simpl; lia.
Qed.

(** The same for a command that leaves the queues alone. *)
Ltac weigh_command E F Em :=
  eapply (measure_eff _ _ _ _ _ _ _ F); [done|]; rewrite Em;
  rewrite (end_weight_some _ _ _ (f_this _ _ _ _ _ _ _ F)), (end_weight_some _ _ _ E);
  rewrite (unread_same _ _ _ (f_upipes _ _ _ _ _ _ _ F)).

Lemma process_measure e a (s s' : sys) : a = Process -> safe s -> delimits s -> trans e a s s' -> (measure s' < measure s)%nat.
Proof.
  intros Ea S D Ht. trans_cases Ht; try done; try (by subst); try (weigh_command E F Em; simpl; lia).
  - weigh_command E F Em. destruct (negb (in_active p) && reading p); simpl; destruct (in_active p); lia.
  - weigh_command E F Em. destruct (_ && _); simpl; lia.
  - exfalso. apply (d_mail _ D e j). rewrite Em. by left.
  - eapply (measure_eff _ _ _ _ _ _ _ F).
    { intros q Eq. by rewrite lookup_delete_ne by (by apply (in_ne_in s e p q S E Eq)). }
    rewrite Em, (end_weight_some _ _ _ E). unfold end_weight. rewrite (f_this _ _ _ _ _ _ _ F).
    destruct (decide _); simpl; lia.
Qed.

Lemma tc_measure e a (s s' : sys) :
  (forall s s', safe s -> delimits s -> trans e a s s' -> (measure s' < measure s)%nat) -> a <> Hiccup ->
  tc (trans e a) s s' -> safe s -> delimits s -> (measure s' < measure s)%nat.
Proof.
  intros Hm Ha Ht. induction Ht as [s s' Ht|s s1 s' Ht _ IH]; intros S D; [by apply Hm|].
  etrans; [apply IH|by apply Hm]; [by apply (trans_safe e a s)|by apply (trans_delimits e a s)].
Qed.

Lemma busy_tc s e a s' r : safe s -> busy s e a -> step e a s = Done (s', r) -> tc (trans e a) s s'.
Proof.
  intros S [[-> Hm]|(-> & p & E & Hr & Hi)] Es; simpl in Es; apply sbind_inv in Es as (s1 & x & Es & [= -> _]).
  - destruct (mail s e) as [|c l] eqn:Em; [done|]. destruct (process_trans e s c l S Em) as (s2 & y & E2 & Ht).
    rewrite Es in E2. injection E2 as -> _. by apply tc_once.
  - destruct (in_valid s e p S E) as (y & Ey & _).
    destruct (read_message_does e Read _ eq_refl s p y S E Hr Hi Ey (Nat.le_refl _)) as (s2 & m & E2 & Ht).
    assert (Er : read e s = read_message (length (Yp.flushed y)) e s).
    { unfold read, this, up_unread, sbind. rewrite E. simpl. rewrite Hi, Hr. simpl. by rewrite Ey. }
    rewrite Er, E2 in Es. by injection Es as -> _.
Qed.

Lemma fair_measure s s' : safe s -> delimits s -> fair_step s s' -> (measure s' < measure s)%nat.
Proof.
  intros S D (e & a & r & Hb & Es). pose proof (busy_tc s e a s' r S Hb Es) as Ht.
  assert (Ha : a = Process \/ a = Read) by (destruct Hb as [[-> _]|[-> _]]; auto).
  apply (tc_measure e a s s'); try done; [|by destruct Ha as [->| ->]].
  intros s0 s1 S0 D0. destruct Ha as [->| ->]; [by apply (process_measure e)|by apply (receive_measure e Read)].
Qed.

(** Iterated steps. *)
Fixpoint fair_steps (n : nat) (s s' : sys) : Prop :=
  match n with
  | O => s' = s
  | S n => exists s1, fair_step s s1 /\ fair_steps n s1 s'
  end.

Lemma fair_reach h0 h1 s s' : reach no_hiccup (started h0 h1) s -> fair_step s s' -> reach no_hiccup (started h0 h1) s'.
Proof.
  intros Hr (e & a & r & Hb & Es). apply (reach_step _ _ e a s s' r); [done| |by apply busy_allowed|done].
  by destruct Hb as [[-> _]|[-> _]].
Qed.

Lemma fair_begun h0 h1 s s' : reach no_hiccup (started h0 h1) s -> fair_step s s' -> begun s -> begun s'.
Proof.
  intros Hr (e & a & r & Hb & Es). apply (rtc_begun e a). apply tc_rtc.
  apply (busy_tc s e a s' r); [by apply (reach_safe _ _ _ _ Hr)|done|done].
Qed.

Lemma fair_steps_spec h0 h1 n : forall s s',
  reach no_hiccup (started h0 h1) s -> begun s -> fair_steps n s s' ->
  (n + measure s' <= measure s)%nat /\ reach no_hiccup (started h0 h1) s' /\ begun s'.
Proof.
  induction n as [|n IH]; intros s s' Hr Hb Hn; simpl in Hn; [by subst|].
  destruct Hn as (s1 & Hs & Hn). pose proof (reach_safe _ _ _ _ Hr) as S. pose proof (reach_delimits _ _ _ Hr) as D.
  pose proof (fair_measure s s1 S D Hs) as Hm.
  destruct (IH s1 s' (fair_reach h0 h1 s s1 Hr Hs) (fair_begun h0 h1 s s1 Hr Hs Hb) Hn) as (Hle & Hr' & Hb').
  split; [lia|done].
Qed.

Lemma gone_empty s : safe s -> (forall e, ends s e = None) -> upipes s = ∅ /\ forall e, mail s e = [].
Proof.
  intros S Hn. split.
  - apply map_eq. intros i. rewrite lookup_empty. destruct (upipes s !! i) as [y|] eqn:Ey; [|done]. exfalso.
    pose proof (proj1 (a_dom _ S i) ltac:(by eexists)) as Hi. unfold chain in Hi. rewrite !Hn in Hi. by apply elem_of_nil in Hi.
  - intros e. pose proof (a_phase _ S e) as Hp. rewrite !Hn in Hp. by apply phases_two in Hp as [? _].
Qed.

Lemma reach_mono P P' (s0 s : sys) : (forall a, P a -> P' a) -> reach P s0 s -> reach P' s0 s.
Proof. intros HP. induction 1 as [|e a s s' r _ IH Ha Hal E]; [constructor|]. by apply (reach_step _ _ e a s s' r); auto. Qed.
End Live.

(** ** Properties *)

(** C32: The protocol of a pair of pipes is memory-safe.  Whatever the two owners call on a pair that does not
    conflate, in any interleaving with the processing of commands, no assertion of pipe.cpp fails, no
    queue is used after it was deleted, and no command is sent to, or arrives at, an end
    that has deleted itself; when both ends have gone, no queue and no command is left.  An owner uses an end until it is
    told that it has gone, and announces no watermarks on an end that has acknowledged its termination, which is the one call that
    can crash ([hwm_announced_after_ack_crashes]). *)
Theorem pipe_protocol_safe {T} `{Message T} hwm0 hwm1 (s : sys (T := T)) :
  reach (fun _ => True) (started hwm0 hwm1) s ->
  (forall e a, allowed s e a -> exists s' r, step e a s = Done (s', r)) /\
  ((forall e, ends s e = None) -> upipes s = ∅ /\ forall e, mail s e = []).
Proof.
  intros Hr. pose proof (reach_safe _ _ _ _ Hr) as S. split; [|by apply gone_empty].
  intros e a Ha. destruct (step_runs e a s S Ha) as (s' & r & E & _). by exists s', r.
Qed.

(** C34: No wake-up is lost: an end that has found its queue empty and whose queue is not
    empty any more has an [activate_read] waiting in its mailbox. *)
Theorem pipe_no_lost_wakeup {T} `{Message T} hwm0 hwm1 (s : sys (T := T)) e p y :
  reach (fun _ => True) (started hwm0 hwm1) s -> ends s e = Some p -> reading p = true -> in_active p = false ->
  upipes s !! inpipe p = Some (Normal y) -> Yp.flushed y <> [] -> activate_read ∈ mail s e.
Proof.
  intros Hr E Hrd Hi Ey Hf. pose proof (reach_awake _ _ _ _ Hr) as W.
  destruct (w_reader _ W e p y E Hrd Hi Ey) as [Ha|Hm]; [|done]. by apply (w_queue _ W) in Ey.
Qed.

(** C33: Termination completes.  Once an end has asked to terminate, and as long as nobody
    calls [hiccup], the two ends can only process a bounded number of commands and reads;
    when they have nothing left to do both have deleted themselves, and every queue
    is freed. *)
Theorem pipe_termination_completes {T} `{Message T} hwm0 hwm1 (s s' : sys (T := T)) n :
  reach no_hiccup (started hwm0 hwm1) s -> begun s -> fair_steps n s s' ->
  (n <= measure s)%nat /\
  ((forall e a, ~ busy s' e a) -> upipes s' = ∅ /\ forall e, ends s' e = None).
Proof.
  intros Hr Hb Hn. destruct (fair_steps_spec hwm0 hwm1 n s s' Hr Hb Hn) as (Hle & Hr' & Hb').
  split; [lia|]. intros Hi. pose proof (reach_safe _ _ _ _ Hr') as S.
  pose proof (reach_awake _ _ _ _ (reach_mono _ _ _ _ (fun _ _ => I) Hr')) as W.
  pose proof (idle_gone s' S W (reach_delimits _ _ _ Hr') Hb' Hi) as Hn'.
  split; [by apply gone_empty|done].
Qed.

(** ** Concrete pairs *)

#[local] Instance plain_messages : Message Msg.msg := msg_message Msg.memory0.

Definition part (d : list Z) (b : bool) : Msg.msg :=
  Msg.Msg (Msg.Vsm d) (if b then Msg.more else 0) [] 0 None.

(** End [false] sends a message and terminates; end [true] reads it. *)
Definition sample_run : list (bool * action (T := Msg.msg)) :=
  [(true, Read); (false, Write false (part [7] true)); (false, Write false (part [8] false)); (false, Flush);
   (false, Terminate false true)].

(** A watermark announced by an end that has acknowledged a termination, as
    [socket_base_t::setsockopt] does for every pipe it still has, is sent to an end that
    may have deleted itself: the program uses freed memory. *)
Theorem hwm_announced_after_ack_crashes :
  exists xs s, play xs (started 10 10) = Done s /\ acked s true = true /\ is_Some (ends s true) /\
    step true (SendHwms 5 5) s = Crash.
Proof.
  exists [(false, Terminate false true); (true, Process); (true, Read); (false, Process)].
  eexists. split; [vm_compute; reflexivity|]. split; [reflexivity|]. split; [by eexists|reflexivity].
Qed.

(** A hiccup loses the delimiter.  If an end replaces its inbound queue while its peer
    terminates, the delimiter goes with the old queue: both ends then wait for ever, one
    for the delimiter and the other for the acknowledgement, with nothing left to do. *)
Theorem hiccup_loses_delimiter :
  exists xs s, play xs (started 10 10) = Done s /\ begun s /\
    (forall e a, ~ busy s e a) /\ (forall e, is_Some (ends s e)).
Proof.
  exists [(true, Hiccup); (false, Terminate false true); (false, Process); (true, Process); (true, Read)].
  eexists. split; [vm_compute; reflexivity|]. split; [exists false; split; discriminate|]. split.
  - intros e a [[_ Hm]|(_ & p & E & Hr & Hi)]; [by destruct e|]. destruct e; vm_compute in E; injection E as <-; done.
  - intros []; by eexists.
Qed.

(** ** Witnesses *)

Definition sample_pair : sys (T := Msg.msg) :=
  match play sample_run (started 2 2) with Done s => s | Crash => started 2 2 end.

Lemma sample_reach (P : action -> Prop) :
  Forall (fun x => P x.2) sample_run -> reach P (started 2 2) sample_pair.
Proof. intros HP. apply (play_reach P _ sample_run (started 2 2)); [constructor|done|vm_compute; reflexivity]. Qed.

Lemma pipe_protocol_safe_witness :
  (forall e a, allowed sample_pair e a -> exists s' r, step e a sample_pair = Done (s', r)) /\
  ((forall e, ends sample_pair e = None) -> upipes sample_pair = ∅ /\ forall e, mail sample_pair e = []).
Proof.
  apply (pipe_protocol_safe 2 2). apply sample_reach. repeat constructor.
Defined.

Lemma pipe_no_lost_wakeup_witness : activate_read ∈ mail sample_pair true.
Proof.
  eapply (pipe_no_lost_wakeup 2 2 sample_pair true); [apply sample_reach; repeat constructor| | | | |];
    [vm_compute; reflexivity|reflexivity|reflexivity|vm_compute; reflexivity|discriminate].
Defined.

Definition sample_next : sys (T := Msg.msg) :=
  match step true Process sample_pair with Done (s, _) => s | Crash => sample_pair end.

Lemma pipe_termination_completes_witness :
  fair_steps 1 sample_pair sample_next /\ (1 <= measure sample_pair)%nat /\
  ((forall e a, ~ busy sample_next e a) -> upipes sample_next = ∅ /\ forall e, ends sample_next e = None).
Proof.
  assert (Hf : fair_steps 1 sample_pair sample_next).
  { exists sample_next. split; [|reflexivity]. exists true, Process, RUnit.
    split; [left; split; [reflexivity|vm_compute; discriminate]|vm_compute; reflexivity]. }
  split; [exact Hf|]. apply (pipe_termination_completes 2 2 sample_pair sample_next 1); [| |exact Hf].
  - apply sample_reach. repeat constructor; discriminate.
  - exists false. vm_compute. split; discriminate.
Defined.

End PipeLive.
