(* ===== verification/PipeFlow.v ===== *)
(** * PipeFlow: the flow control of a pair of pipes

    The writer stops when [msgs_written - peers_msgs_read] reaches its high watermark;
    the reader sends [activate_write] every [lwm] messages.  The counters are 64-bit
    and may wrap.  The theorems: a queue never holds more messages than the watermark,
    routing ids apart, and a writer that waits has been, or will be, told to go on.  They are about
    runs in which nobody sets the watermarks anew and no pipe is replaced, and that send no
    credentials, which are counted by the writer and not by the reader; the last theorem is about those. *)

From S2P Require Import Prelude Msg Pipes Yqueue Ypipe Conflate Pipe PipeSteps PipeRuns PipeLive.

Module PipeFlow.
Import Pipe PipeSteps PipeRuns PipeLive.

(** ** The counters *)
Lemma compute_lwm_pos h : 0 < h < 2 ^ 31 - 1 -> 0 < compute_lwm h <= h.
Proof.
  intros Hh. unfold compute_lwm. rewrite i32_small by lia. rewrite Z.quot_div_nonneg by lia.
  split; [apply Z.div_str_pos; lia|]. apply Z.div_le_upper_bound; lia.
Qed.

Lemma compute_lwm_zero : compute_lwm 0 = 0.
Proof. done. Qed.

Lemma u64_range z : 0 <= u64 z < 2 ^ 64.
Proof. unfold u64. apply Z.mod_pos_bound. lia. Qed.

Lemma u64_add_l a b : u64 (u64 a + b) = u64 (a + b).
Proof. unfold u64. by rewrite Zplus_mod_idemp_l. Qed.

Lemma u64_sub_l a b : u64 (u64 a - b) = u64 (a - b).
Proof. unfold u64. by rewrite Zminus_mod_idemp_l. Qed.

(** The state of one direction: watermarks [h] and [l], the writer's [wr] and [pe],
    the reader's [rd], whether the writer waits, the whole messages [n] in the queue and
    the credits [cs] on their way to the writer. *)
Record flow_ok (h l wr rd pe : Z) (blocked : Prop) (n : Z) (cs : list Z) : Prop := {
  k_hwm : 0 <= h < 2 ^ 31 - 1;
  k_lwm : l = compute_lwm h;
  k_read : 0 <= rd < 2 ^ 64;
  k_whole : 0 <= n;
  k_written : wr = u64 (rd + n);
  k_sorted : 0 < h -> StronglySorted (fun a b => u64 (rd - b) <= u64 (rd - a)) (pe :: cs);
  k_bound : 0 < h -> n + u64 (rd - pe) <= h;
  k_told : 0 < h -> last (pe :: cs) = Some (l * (rd / l));
  k_blocked : blocked -> 0 < h /\ h <= u64 (wr - pe)
}.

Lemma outstanding h l wr rd pe b n cs :
  flow_ok h l wr rd pe b n cs -> 0 < h -> u64 (wr - pe) = n + u64 (rd - pe).
Proof.
  intros K Hh. pose proof (k_bound _ _ _ _ _ _ _ _ K Hh). pose proof (k_hwm _ _ _ _ _ _ _ _ K).
  pose proof (k_whole _ _ _ _ _ _ _ _ K). pose proof (u64_range (rd - pe)).
  rewrite (k_written _ _ _ _ _ _ _ _ K), u64_sub_l. replace (rd + n - pe) with ((rd - pe) + n) by lia.
  rewrite <- u64_add_l. rewrite u64_small by lia. lia.
Qed.

(** The writer's condition for a full queue. *)
Definition full (h wr pe : Z) : bool := (0 <? h) && (h <=? u64 (wr - pe)).

Lemma flow_write h l wr rd pe b n cs :
  flow_ok h l wr rd pe b n cs -> full h wr pe = false -> flow_ok h l (u64 (wr + 1)) rd pe False (n + 1) cs.
Proof.
  intros K Hf. pose proof (outstanding _ _ _ _ _ _ _ _ K) as Ho. destruct K as [K1 K2 K3 K4 K5 K6 K7 K8 K9].
  split; try done; try lia.
  - rewrite K5, u64_add_l. f_equal. lia.
  - intros Hh. unfold full in Hf. rewrite Ho in Hf by done. zb; simpl in Hf; try done; lia.
Qed.

Lemma flow_block h l wr rd pe b b' n cs :
  flow_ok h l wr rd pe b n cs -> full h wr pe = true -> flow_ok h l wr rd pe b' n cs.
Proof.
  intros [K1 K2 K3 K4 K5 K6 K7 K8 K9] Hf. split; try done. intros _. unfold full in Hf. zb; simpl in Hf; try done; lia.
Qed.

Lemma flow_relax h l wr rd pe (b b' : Prop) n cs :
  flow_ok h l wr rd pe b n cs -> (b' -> b) -> flow_ok h l wr rd pe b' n cs.
Proof. intros [K1 K2 K3 K4 K5 K6 K7 K8 K9] Hb. split; try done. intros Hx. by apply K9, Hb. Qed.

(** [activate_write c] is processed. *)
Lemma flow_credit h l wr rd pe b c n cs :
  flow_ok h l wr rd pe b n (c :: cs) -> flow_ok h l wr rd c False n cs.
Proof.
  intros [K1 K2 K3 K4 K5 K6 K7 K8 K9]. split; try done.
  - intros Hh. by apply StronglySorted_inv in K6 as [? _].
  - intros Hh. specialize (K6 Hh). apply StronglySorted_inv in K6 as [_ Hf]. apply Forall_cons in Hf as [Hf _].
    specialize (K7 Hh). lia.
Qed.

Lemma sorted_snoc {A} (R : A -> A -> Prop) l x :
  StronglySorted R l -> Forall (fun a => R a x) l -> StronglySorted R (l ++ [x]).
Proof.
  induction 1 as [|y l Hs IH Hf]; intros Hx; simpl; [repeat constructor|].
  apply Forall_cons in Hx as [Hy Hx]. constructor; [by apply IH|]. apply Forall_app. split; [done|by constructor].
Qed.

(** The credit sent after a message. *)
Definition credits_due (l rd : Z) : list Z := if (0 <? l) && (rd mod l =? 0) then [rd] else [].

Lemma flow_due h l wr rd pe b n cs :
  (0 < h -> StronglySorted (fun a b => u64 (rd - b) <= u64 (rd - a)) (pe :: cs)) ->
  0 <= h < 2 ^ 31 - 1 -> l = compute_lwm h -> 0 <= rd < 2 ^ 64 -> 0 <= n -> wr = u64 (rd + n) ->
  (0 < h -> n + u64 (rd - pe) <= h) ->
  (0 < h -> rd mod l <> 0 -> last (pe :: cs) = Some (l * (rd / l))) ->
  (b -> 0 < h /\ h <= u64 (wr - pe)) ->
  flow_ok h l wr rd pe b n (cs ++ credits_due l rd).
Proof.
  intros Hs H1 H2 H3 H4 H5 H6 H7 H8. split; try done.
  - intros Hh. unfold credits_due. destruct (_ && _); [|rewrite app_nil_r; by apply Hs].
    rewrite app_comm_cons. apply sorted_snoc; [by apply Hs|]. apply Forall_forall. intros x _.
    rewrite Z.sub_diag. change (u64 0) with 0. apply u64_range.
  - intros Hh. unfold credits_due. pose proof (compute_lwm_pos h ltac:(lia)) as Hl. rewrite <- H2 in Hl.
    destruct (Z.ltb_spec 0 l); [|lia]. destruct (Z.eqb_spec (rd mod l) 0) as [E|E]; simpl.
    + rewrite app_comm_cons, last_snoc. f_equal. apply Z.div_exact; [lia|done].
    + rewrite app_nil_r. by apply H7.
Qed.

Lemma sorted_impl {A} (R R' : A -> A -> Prop) l :
  StronglySorted R l -> (forall a b, a ∈ l -> b ∈ l -> R a b -> R' a b) -> StronglySorted R' l.
Proof.
  induction 1 as [|y l Hs IH Hf]; intros Hr; constructor.
  - apply IH. intros a b Ha Hb. apply Hr; by right.
  - apply Forall_forall. intros x Hx. apply Hr; [by left|by right|]. rewrite Forall_forall in Hf. by apply Hf.
Qed.

(** A part of a message is read: nothing is counted. *)
Lemma flow_part h l wr rd pe b n cs :
  flow_ok h l wr rd pe b n cs -> flow_ok h l wr rd pe b n (cs ++ credits_due l rd).
Proof. intros [K1 K2 K3 K4 K5 K6 K7 K8 K9]. apply flow_due; try done. intros Hh _. by apply K8. Qed.

Lemma dist_succ rd x h : 0 <= u64 (rd - x) <= h -> h < 2 ^ 31 -> u64 (u64 (rd + 1) - x) = u64 (rd - x) + 1.
Proof.
  intros Hx Hh. rewrite u64_sub_l. replace (rd + 1 - x) with ((rd - x) + 1) by lia.
  rewrite <- u64_add_l. apply u64_small. lia.
Qed.

(** A whole message is read. *)
Lemma flow_take h l wr rd pe b n cs :
  flow_ok h l wr rd pe b n cs -> 1 <= n ->
  flow_ok h l wr (u64 (rd + 1)) pe b (n - 1) (cs ++ credits_due l (u64 (rd + 1))).
Proof.
  intros [K1 K2 K3 K4 K5 K6 K7 K8 K9] Hn.
  assert (Hd : 0 < h -> forall x, x ∈ pe :: cs -> 0 <= u64 (rd - x) <= h).
  { intros Hh x Hx. specialize (K6 Hh). specialize (K7 Hh). pose proof (u64_range (rd - x)).
    apply StronglySorted_inv in K6 as [_ Hf]. rewrite Forall_forall in Hf.
    apply elem_of_cons in Hx as [->|Hx]; [lia|]. pose proof (Hf x Hx). lia. }
  apply flow_due; try done; try lia.
  - intros Hh. apply (sorted_impl (fun a b => u64 (rd - b) <= u64 (rd - a))); [by apply K6|].
    intros a c Ha Hc Hr. rewrite !(dist_succ rd _ h) by (auto; lia). lia.
  - apply u64_range.
  - rewrite K5, u64_add_l. f_equal. lia.
  - intros Hh. rewrite (dist_succ rd _ h); [specialize (K7 Hh); lia|apply (Hd Hh); by left|lia].
  - intros Hh Hm. rewrite (K8 Hh). do 2 f_equal.
    pose proof (compute_lwm_pos h ltac:(lia)) as Hl. rewrite <- K2 in Hl.
    destruct (decide (rd = 2 ^ 64 - 1)) as [->|Hne]; [by rewrite Z.mod_0_l in Hm by lia|].
    rewrite u64_small in * by lia. pose proof (Z.div_mod rd l ltac:(lia)) as E1.
    pose proof (Z.mod_pos_bound rd l ltac:(lia)). assert (rd mod l <> l - 1).
    { intros E. apply Hm. replace (rd + 1) with (0 + (rd / l + 1) * l) by lia. rewrite Z.mod_add by lia. by apply Z.mod_0_l; lia. }
    apply (Z.div_unique_pos _ _ _ (rd mod l + 1)); lia.
Qed.

Section Flow.
Context {T : Type} `{Message T}.

Abbreviation sys := (@sys T).
Abbreviation spipe := (@Yp.spipe T).

(** ** Pairs *)

(** What a socket writes: neither a delimiter nor a credential.  Both sides count it when it is the last
    part of a message, and neither does when it is a routing id. *)
Definition plain (m : T) : Prop := is_credential m = false /\ is_delimiter m = false.

(** Runs with fixed watermarks, without hiccups and credentials. *)
Definition flowing (a : action) : Prop :=
  match a with
  | Hiccup | SetHwms _ _ | SetHwmsBoost _ _ | SendHwms _ _ => False
  | Write _ m => plain m
  | _ => True
  end.

Definition whole (m : T) : bool := counted m && negb (is_delimiter m).

(** The whole messages of a queue, routing ids apart. *)
Definition messages (l : list T) : Z := Z.of_nat (length (filter (fun m => whole m = true) l)).
Definition queued (z : spipe) : Z := messages (Yp.flushed z ++ Yp.complete z).

Definition usual (m : T) : Prop := is_credential m = false.
Definition usual_queue (z : spipe) : Prop := Forall usual (Yp.flushed z ++ Yp.complete z ++ Yp.partial z).

Definition credits (l : list command) : list Z :=
  omap (fun c => if c is activate_write n then Some n else None) l.

Definition waits (p : pipe_t) : Prop := out_active p = false /\ state p = active.

Definition flows (p q : pipe_t) (z : spipe) (l : list command) : Prop :=
  usual_queue z /\
  flow_ok (hwm (counts p)) (lwm (counts q)) (msgs_written (counts p)) (msgs_read (counts q))
          (peers_msgs_read (counts p)) (waits p) (queued z) (credits l).

Record controlled (s : sys) : Prop := {
  c_delimits : delimits s;
  c_mail : forall e i o, pipe_hwm i o ∉ mail s e;
  c_flow : forall e p q o z, ends s e = Some p -> ends s (negb e) = Some q -> outpipe p = Some o ->
    upipes s !! o = Some (Normal z) -> flows p q z (mail s e)
}.

Lemma messages_app l l' : messages (l ++ l') = messages l + messages l'.
Proof. unfold messages. rewrite filter_app, length_app. lia. Qed.

Lemma messages_one m : messages [m] = if whole m then 1 else 0.
Proof. unfold messages. rewrite filter_cons. by destruct (whole m). Qed.

Lemma messages_nonneg l : 0 <= messages l.
Proof. unfold messages. lia. Qed.

Lemma messages_more l : Forall (fun m => has_more m = true) l -> messages l = 0.
Proof.
  induction 1 as [|m l Hm _ IH]; [done|]. change (m :: l) with ([m] ++ l). rewrite messages_app, messages_one, IH.
  unfold whole, counted. by rewrite Hm.
Qed.

Lemma credits_app l l' : credits (l ++ l') = credits l ++ credits l'.
Proof. unfold credits. by rewrite omap_app. Qed.

Lemma credits_credit c : credits (credit c) = credits_due (lwm c) (msgs_read c).
Proof. unfold credit, credits_due. by destruct (_ && _). Qed.

Lemma credits_wake z : credits (wake (T := T) z) = [].
Proof. unfold wake. by destruct (Yp.asleep z). Qed.

(** What the transitions do to a queue. *)
Lemma queued_write m z :
  Forall (fun m => has_more m = true) (Yp.partial z) -> plain m ->
  queued (Yp.s_write m (has_more m) z) = queued z + (if counted m then 1 else 0).
Proof.
  intros Hz (Hc & Hd). unfold queued, Yp.s_write, counted. destruct (has_more m) eqn:Em; simpl; [lia|].
  rewrite !messages_app, (messages_more _ Hz), messages_one. unfold whole, counted. rewrite Em, Hd. simpl. rewrite andb_true_r. lia.
Qed.

Lemma queued_tail m l z :
  Yp.flushed z = m :: l -> queued z = queued (tail_read z l) + (if whole m then 1 else 0).
Proof.
  intros Ef. unfold queued. rewrite Ef. change (m :: l) with ([m] ++ l). rewrite !messages_app, messages_one. simpl. lia.
Qed.

Lemma queued_flush z : queued (Yp.s_flush z).2 = queued z.
Proof. unfold queued, Yp.s_flush. destruct (Yp.complete z) eqn:Ec; simpl; by rewrite ?Ec, ?app_nil_r. Qed.

Lemma queued_delimited z : queued (delimited z) = queued z.
Proof.
  unfold queued, delimited. simpl. rewrite app_nil_r, !messages_app, messages_one. unfold whole.
  rewrite delimiter_delimits, andb_false_r. lia.
Qed.

Lemma queued_nonneg z : 0 <= queued z.
Proof. apply messages_nonneg. Qed.

Lemma usual_write m z : usual_queue z -> plain m -> usual_queue (Yp.s_write m (has_more m) z).
Proof.
  unfold usual_queue, Yp.s_write. intros Hz (Hc & Hd). rewrite !Forall_app in Hz. destruct Hz as (H1 & H2 & H3).
  assert (usual m) by done. destruct (has_more m); simpl; rewrite !Forall_app; split_and!; try done; by repeat constructor.
Qed.

Lemma usual_tail m l z : usual_queue z -> Yp.flushed z = m :: l -> usual m /\ usual_queue (tail_read z l).
Proof. unfold usual_queue. intros Hz Ef. rewrite Ef in Hz. simpl in Hz. by apply Forall_cons in Hz. Qed.

Lemma usual_emptied z : usual_queue z -> usual_queue (emptied z).
Proof. unfold usual_queue. rewrite !Forall_app. simpl. intros (? & ? & _). split_and!; [done|done|constructor]. Qed.

Lemma usual_flush z : usual_queue z -> usual_queue (Yp.s_flush z).2.
Proof.
  unfold usual_queue, Yp.s_flush. intros Hz. destruct (Yp.complete z) eqn:Ec; simpl; [by rewrite Ec|].
  by rewrite <- app_assoc.
Qed.

Lemma usual_delimited z : usual_queue z -> usual_queue (delimited z).
Proof.
  unfold usual_queue, delimited. simpl. rewrite !Forall_app. intros (? & ? & _). split_and!; try done; [|constructor..].
  constructor; [apply delimiter_no_credential|constructor].
Qed.

(** A queue of the pair and its valid unfinished part. *)
Lemma partial_more (s : sys) o z : safe s -> upipes s !! o = Some (Normal z) -> Forall (fun m => has_more m = true) (Yp.partial z).
Proof. intros S E. exact (a_upipes _ S o _ E). Qed.

Lemma trans_no_hwm e a (s s' : sys) : flowing a -> controlled s -> trans e a s s' -> forall e' i o, pipe_hwm i o ∉ mail s' e'.
Proof.
  intros Ha C Ht e' i o Hx. destruct (trans_commands e a s s' e' _ Ht Hx) as [Hm|Hm]; [by apply (c_mail _ C e' i o)|].
  simpl in Hm. by subst.
Qed.

(** The writer's own queue, replaced. *)
Lemma out_insert (h : gmap nat (upipe (T := T))) o z' z1 (Q : spipe -> Prop) :
  <[o := Normal z']> h !! o = Some (Normal z1) -> Q z' -> Q z1.
Proof. rewrite lookup_insert_eq. by intros [= <-]. Qed.

Lemma check_hwm_full (p : pipe_t) : check_hwm p = negb (full (hwm (counts p)) (msgs_written (counts p)) (peers_msgs_read (counts p))).
Proof. done. Qed.

(** The writer makes the transition. *)
Lemma trans_flow_writer e a (s s' : sys) p' q o' z' : flowing a -> safe s -> controlled s -> trans e a s s' ->
  ends s' e = Some p' -> ends s (negb e) = Some q -> outpipe p' = Some o' -> upipes s' !! o' = Some (Normal z') ->
  flows p' q z' (mail s' e).
Proof.
  intros Ha S C Ht E' Eq Eo' Ez'. assert (Cf := fun p o z E => c_flow _ C e p q o z E Eq).
  trans_cases Ht; try done; try parts F;
    try (rewrite F1 in E'; injection E' as <-; rewrite F3; rewrite F5 in Ez'; cbn in Eo');
    try (rewrite lookup_insert_ne in Ez' by (by apply not_eq_sym, (out_ne_in s e p)));
    try (by apply (Cf p o' z')); try congruence; try done.
  - by destruct a.
  - destruct (Cf p o' z' E Eo' Ez') as [Hu K]. split; [done|]. unfold taken. by destruct (counted m).
  - destruct (decide (state p = active)); cbn in Eo'; [|discriminate].
    rewrite lookup_insert_ne in Ez' by (by apply not_eq_sym, (out_ne_in s e p)).
    destruct (Cf p o' z' E Eo' Ez') as [Hu K]. split; [done|]. apply (flow_relax _ _ _ _ _ _ _ _ _ K). by intros [? ?].
  - destruct (Cf p o' z' E Eo' Ez') as [Hu K]. split; [done|]. apply (flow_block _ _ _ _ _ _ _ _ _ K).
    rewrite check_hwm_full in Hh. by apply negb_false_iff in Hh.
  - assert (o' = o) as -> by congruence. apply (out_insert _ _ _ _ (fun z1 => flows _ q z1 _) Ez').
    destruct (Cf p o z E Eo Ez) as [Hu K]. split; [by apply usual_write|]. rewrite queued_write by (try done; by apply (partial_more s o)).
    unfold wrote. destruct (counted m); [|rewrite set_counts_id, Z.add_0_r; exact K]. simpl.
    eapply flow_relax; [eapply (flow_write _ _ _ _ _ _ _ _ K)|]; [|unfold waits; simpl; by intros [? _]; congruence].
    rewrite check_hwm_full in Hh. by apply negb_true_iff in Hh.
  - assert (o' = o) as -> by congruence. apply (out_insert _ _ _ _ (fun z1 => flows _ q z1 _) Ez').
    destruct (Cf p o z E Eo Ez) as [Hu K]. split; [by apply usual_emptied|exact K].
  - assert (o' = o) as -> by congruence. apply (out_insert _ _ _ _ (fun z1 => flows _ q z1 _) Ez').
    destruct (Cf p o z E Eo Ez) as [Hu K]. split; [by apply usual_flush|by rewrite queued_flush].
  - assert (o' = o) as -> by congruence. apply (out_insert _ _ _ _ (fun z1 => flows _ q z1 _) Ez').
    destruct (Cf p o z E Eo Ez) as [Hu K]. split; [by apply usual_delimited|]. rewrite queued_delimited.
    apply (flow_relax _ _ _ _ _ _ _ _ _ K). by intros [_ ?].
  - assert (o' = o) as -> by congruence. apply (out_insert _ _ _ _ (fun z1 => flows _ q z1 _) Ez').
    destruct (Cf p o z E Eo Ez) as [Hu K]. split; [by apply usual_delimited|]. rewrite queued_delimited.
    apply (flow_relax _ _ _ _ _ _ _ _ _ K). intros [_ Hx]. cbn in Hx. congruence.
  - destruct (neutral_phase s e p _ l S E Em) as [_ _]; [done|].
    destruct (Cf p o' z' E) as [Hu K]; [by destruct (_ && _)|done|]. rewrite Em in K. split; [done|].
    by destruct (_ && _).
  - destruct (Cf p o' z' E) as [Hu K]; [by destruct (_ && _)|done|]. rewrite Em in K. split; [done|].
    pose proof (flow_credit _ _ _ _ _ _ _ _ _ K) as K'. unfold waits.
    destruct (negb (out_active p) && bool_decide (state p = active)) eqn:Hb; simpl.
    + apply (flow_relax _ _ _ _ _ _ _ _ _ K'). by intros [? _].
    + apply (flow_relax _ _ _ _ _ _ _ _ _ K'). intros [H1 H2]. by rewrite H1, bool_decide_eq_true_2 in Hb.
  - exfalso. apply (d_mail _ (c_delimits _ C) e j). rewrite Em. by left.
  - exfalso. apply (c_mail _ C e i o). rewrite Em. by left.
  - destruct (Cf p o' z' E Eo' Ez') as [Hu K]. rewrite Em in K. split; [done|].
    apply (flow_relax _ _ _ _ _ _ _ _ _ K). by intros [_ ?].
Qed.

Lemma outs_differ (s : sys) e p q o o' :
  safe s -> ends s e = Some p -> outpipe p = Some o -> ends s (negb e) = Some q -> outpipe q = Some o' -> o <> o'.
Proof.
  intros S E Eo Eq Eo'. apply (chains_disjoint s e); [done|by apply (out_in_chain s e p)|by apply (out_in_chain s _ q)].
Qed.

Lemma flows_more p q z l cs : flows p q z l -> credits cs = [] -> flows p q z (l ++ cs).
Proof. intros [Hu K] Hc. split; [done|]. by rewrite credits_app, Hc, app_nil_r. Qed.

(** A message is taken: its effect on the counters and the credit. *)
Lemma flows_take p q m l y ml (c : flow) :
  flows p q y ml -> Yp.flushed y = m :: l -> is_credential m = false -> is_delimiter m = false -> c = counts q ->
  flows p (set_counts (taken m c) q) (tail_read y l) (ml ++ credit (taken m c)).
Proof.
  intros [Hu K] Ef Hc Hd ->. destruct (usual_tail m l y Hu Ef) as [_ Hu']. split; [done|].
  rewrite credits_app, credits_credit. pose proof (queued_tail m l y Ef) as Hq. unfold taken.
  unfold whole in Hq. rewrite Hd in Hq. destruct (counted m); simpl in *.
  2: { rewrite Z.add_0_r in Hq. rewrite <- Hq. by apply flow_part. }
  - replace (queued (tail_read y l)) with (queued y - 1) by lia. apply flow_take; [done|].
    pose proof (queued_nonneg (tail_read y l)). lia.
Qed.

(** The reader makes the transition. *)
Lemma trans_flow_reader e a (s s' : sys) w q' o1 z1 : flowing a -> safe s -> controlled s -> trans e a s s' ->
  ends s (negb e) = Some w -> ends s' e = Some q' -> outpipe w = Some o1 -> upipes s' !! o1 = Some (Normal z1) ->
  flows w q' z1 (mail s' (negb e)).
Proof.
  intros Ha S C Ht Ew E' Eo' Ez'. assert (Cf := fun q z E Ez => c_flow _ C (negb e) w q o1 z Ew E Eo' Ez).
  rewrite negb_involutive in Cf. pose proof (c_delimits _ C) as D.
  assert (Hin : forall q, ends s e = Some q -> inpipe q = o1).
  { intros q E. apply (out_is_in s (negb e) w q o1 S D Ew Eo'). by rewrite negb_involutive. }
  trans_cases Ht; try done; try parts F; try pose proof (Hin _ E) as Ei;
    try (rewrite F1 in E'; injection E' as <-; rewrite F4; rewrite F5 in Ez');
    try (rewrite lookup_insert_ne in Ez' by (by apply (outs_differ s e p w)));
    try (rewrite Ei in *; apply (out_insert _ _ _ _ (fun z2 => flows _ _ z2 _) Ez'); clear Ez');
    try (apply flows_more; [by apply (Cf p z1)|]); try done.
  - by destruct a.
  - apply flows_more; [|done]. destruct (Cf p y E Hy) as [Hu K]. unfold flows, usual_queue, queued, slept in *.
    rewrite Hf in Hu, K. done.
  - exfalso. destruct (Cf p y E Hy) as [Hu _]. destruct (usual_tail m l y Hu Hf) as [Hx _]. unfold usual in Hx. congruence.
  - by apply (flows_take w p m l y); [apply (Cf p y)|..].
  - destruct (Cf p y E Hy) as [Hu K]. destruct (usual_tail m l y Hu Hf) as [_ Hu'].
    apply flows_more; [|by destruct (decide _)]. pose proof (queued_tail m l y Hf) as Hq. unfold whole in Hq.
    rewrite Hd, andb_false_r, Z.add_0_r in Hq. rewrite Hq in K. split; [done|]. by destruct (decide _).
  - apply flows_more; [|done]. destruct (Cf p z1 E Ez') as [Hu K]. split; [done|]. unfold wrote. by destruct (counted m).
  - by destruct (Yp.s_flush z).1.
  - apply (credits_wake z).
  - apply credits_wake.
  - apply flows_more; [|done]. destruct (Cf p z1 E Ez') as [Hu K]. split; [done|]. by destruct (_ && _).
  - apply flows_more; [|done]. destruct (Cf p z1 E Ez') as [Hu K]. split; [done|]. by destruct (_ && _).
  - exfalso. apply (d_mail _ D e j). rewrite Em. by left.
  - exfalso. apply (c_mail _ C e i o). rewrite Em. by left.
  - congruence.
Qed.

Lemma trans_controlled e a (s s' : sys) : flowing a -> safe s -> controlled s -> trans e a s s' -> controlled s'.
Proof.
  intros Ha S C Ht. split.
  - apply (trans_delimits e a s); [by destruct a|done|apply C|done].
  - by apply (trans_no_hwm e a s).
  - intros e' p q o z E Eq Eo Ez. destruct (bool_cases e e') as [->| ->].
    + rewrite (trans_peer e a s s' Ht) in Eq. by apply (trans_flow_writer e a s s' p q o).
    + rewrite (trans_peer e a s s' Ht) in E. rewrite negb_involutive in Eq. by apply (trans_flow_reader e a s s' p q o).
Qed.

Lemma start_controlled hwm0 hwm1 :
  0 <= hwm0 < 2 ^ 31 - 1 -> 0 <= hwm1 < 2 ^ 31 - 1 -> controlled (started (T := T) hwm0 hwm1).
Proof.
  intros H0 H1. split; [apply start_delimits|intros e i o; by apply not_elem_of_nil|].
  assert (Hk : forall h, 0 <= h < 2 ^ 31 - 1 -> flow_ok h (compute_lwm h) 0 0 0 (true = false /\ active = active) 0 []).
  { intros h Hh. split; try done; try lia.
    - intros Hp. repeat constructor.
    - intros Hp. change (u64 (0 - 0)) with 0. lia.
    - intros Hp. simpl. rewrite Zdiv_0_l. f_equal. lia. }
  intros [] p q o z [= <-] [= <-] [= <-] Ez; vm_compute in Ez; injection Ez as <-; (split; [constructor|by apply Hk]).
Qed.

Lemma reach_controlled h0 h1 s :
  0 <= h0 < 2 ^ 31 - 1 -> 0 <= h1 < 2 ^ 31 - 1 -> reach flowing (started h0 h1) s -> controlled s.
Proof.
  intros H0 H1. apply reach_invariant; [by apply start_controlled|]. intros e a s0 s1 Ha S C. by apply trans_controlled.
Qed.
End Flow.

(** ** Properties *)

(** C36: The high watermark is a bound.  In a run in which the watermarks of the pair are not changed, nobody hiccups
    and no credential is written, a queue never holds more whole messages (routing ids, which neither side
    counts, apart) than the watermark its writer was given, whatever is in flight and even if the 64-bit counters wrap. *)
Theorem pipe_hwm_respected {T} `{Message T} hwm0 hwm1 (s : sys (T := T)) e p q o z :
  0 <= hwm0 < 2 ^ 31 - 1 -> 0 <= hwm1 < 2 ^ 31 - 1 -> reach flowing (started hwm0 hwm1) s ->
  ends s e = Some p -> ends s (negb e) = Some q -> outpipe p = Some o -> upipes s !! o = Some (Normal z) ->
  0 < hwm (counts p) -> queued z <= hwm (counts p).
Proof.
  intros H0 H1 Hr E Eq Eo Ez Hh. destruct (c_flow _ (reach_controlled _ _ _ H0 H1 Hr) e p q o z E Eq Eo Ez) as [_ K].
  pose proof (k_bound _ _ _ _ _ _ _ _ K Hh). pose proof (u64_range (msgs_read (counts q) - peers_msgs_read (counts p))). lia.
Qed.

(** C35: A writer is not stuck.  In a run in which the watermarks of the pair are not changed, nobody hiccups and no
    credential is written ([credentials_fill_the_pipe] and [Inproc.inproc_writer_blocked] show what follows
    otherwise), when no [activate_write] is on its way and the queue has drained to the watermark less the low
    watermark (about half of it), or there is no watermark, the writer can write. *)
Theorem pipe_writer_resumes {T} `{Message T} hwm0 hwm1 (s : sys (T := T)) e p q o z :
  0 <= hwm0 < 2 ^ 31 - 1 -> 0 <= hwm1 < 2 ^ 31 - 1 -> reach flowing (started hwm0 hwm1) s ->
  ends s e = Some p -> ends s (negb e) = Some q -> outpipe p = Some o -> upipes s !! o = Some (Normal z) ->
  state p = active -> (forall n, activate_write n ∉ mail s e) ->
  hwm (counts p) = 0 \/ queued z + compute_lwm (hwm (counts p)) <= hwm (counts p) ->
  step e CheckWrite s = Done (s, RBool true).
Proof.
  intros H0 H1 Hr E Eq Eo Ez Hs Hm Hq. destruct (c_flow _ (reach_controlled _ _ _ H0 H1 Hr) e p q o z E Eq Eo Ez) as [_ K].
  assert (Hc : credits (mail s e) = []).
  { destruct (credits (mail s e)) as [|n l] eqn:Ec; [done|]. exfalso.
    assert (Hn : n ∈ credits (mail s e)) by (rewrite Ec; by left).
    apply list_elem_of_omap in Hn as (c & Hc & Hn). destruct c; simplify_eq. by apply (Hm n). }
  assert (Hf : full (hwm (counts p)) (msgs_written (counts p)) (peers_msgs_read (counts p)) = false).
  { unfold full. destruct (Z.ltb_spec 0 (hwm (counts p))) as [Hh|Hh]; [|done]. simpl.
    rewrite (outstanding _ _ _ _ _ _ _ _ K Hh). pose proof (k_told _ _ _ _ _ _ _ _ K Hh) as Ht. rewrite Hc in Ht.
    simpl in Ht. injection Ht as ->. pose proof (k_hwm _ _ _ _ _ _ _ _ K) as Hk. pose proof (k_read _ _ _ _ _ _ _ _ K) as Hrd.
    pose proof (compute_lwm_pos (hwm (counts p)) ltac:(lia)) as Hl. rewrite (k_lwm _ _ _ _ _ _ _ _ K).
    set (L := compute_lwm _) in *. set (rd := msgs_read (counts q)) in *.
    assert (Hrm : rd - L * (rd / L) = rd mod L) by (rewrite Z.mod_eq by lia; done). rewrite Hrm.
    pose proof (Z.mod_pos_bound rd L ltac:(lia)). rewrite u64_small by lia. apply Z.leb_gt. lia. }
  assert (Ho : out_active p = true).
  { destruct (out_active p) eqn:Ho; [done|]. exfalso. destruct (k_blocked _ _ _ _ _ _ _ _ K (conj Ho Hs)) as [Hh Hw].
    unfold full in Hf. zb; simpl in Hf; try done; lia. }
  simpl. unfold sbind, check_write, this, sbind. rewrite E. simpl. rewrite Ho, bool_decide_eq_true_2 by done.
  rewrite check_hwm_full, Hf. done.
Qed.

#[local] Instance plain_messages : Message Msg.msg := msg_message Msg.memory0.

Definition credential_msg : Msg.msg := Msg.Msg (Msg.Vsm [117]) Msg.credential [] 0 None.

(** Credentials are counted by the writer and not by the reader.  After a credential
    has been written, flushed and read from a pipe with watermark one, both queues and both
    mailboxes are empty, and the writer can write nothing any more. *)
Theorem credentials_fill_the_pipe :
  exists xs s s', play xs (started 1 1) = Done s /\ (forall e, mail s e = []) /\
    (forall e p y, ends s e = Some p -> upipes s !! inpipe p = Some (Normal y) ->
       Yp.flushed y ++ Yp.complete y ++ Yp.partial y = []) /\
    step false CheckWrite s = Done (s', RBool false).
Proof.
  exists [(false, Write false credential_msg); (false, Flush); (true, Read)].
  eexists. eexists. split; [vm_compute; reflexivity|]. split; [by intros []|]. split; [|vm_compute; reflexivity].
  intros [] p y [= <-] E; vm_compute in E; by injection E as <-.
Qed.

(** ** Witnesses *)

(** End [false] fills a pipe with watermark two, end [true] reads it, and the credits come back. *)
Definition full_run : list (bool * action (T := Msg.msg)) :=
  [(false, Write false (part [7] false)); (false, Write false (part [8] false)); (false, CheckWrite); (false, Flush);
   (true, Read); (true, Read); (false, Process); (false, Process)].

Definition flow_pair : sys (T := Msg.msg) :=
  match play full_run (started 2 2) with Done s => s | Crash => started 2 2 end.

Lemma flow_pair_reach : reach flowing (started 2 2) flow_pair.
Proof. apply (play_reach _ _ full_run (started 2 2)); [constructor|repeat constructor|vm_compute; reflexivity]. Qed.

Lemma pipe_hwm_respected_witness :
  exists p q z, ends flow_pair false = Some p /\ ends flow_pair true = Some q /\
    upipes flow_pair !! 1%nat = Some (Normal z) /\ queued z <= hwm (counts p).
Proof.
  eexists _, _, _. split; [vm_compute; reflexivity|]. split; [vm_compute; reflexivity|]. split; [vm_compute; reflexivity|].
  eapply (pipe_hwm_respected 2 2 flow_pair false); [lia|lia|exact flow_pair_reach|vm_compute; reflexivity|
    vm_compute; reflexivity|reflexivity|vm_compute; reflexivity|reflexivity].
Defined.

Lemma pipe_writer_resumes_witness : step false CheckWrite flow_pair = Done (flow_pair, RBool true).
Proof.
  eapply (pipe_writer_resumes 2 2 flow_pair false); [lia|lia|exact flow_pair_reach|vm_compute; reflexivity|
    vm_compute; reflexivity|reflexivity|vm_compute; reflexivity|reflexivity| |].
  - intros n Hn. vm_compute in Hn. by apply elem_of_nil in Hn.
  - right. vm_compute. discriminate.
Defined.
End PipeFlow.
