(* ===== verification/PipeJoin.v ===== *)
(** * PipeJoin: pairs of which one end has no owner yet

    A connection to an address that nobody has bound is a pair of pipes whose second
    end is not attached: it has no sink.  The methods do the same on such a pair as on
    one with two sinks, as long as the sink that is missing would not be called; so a pair that
    waits is a pair of [Pipe] but for the sink, and becomes one when it is attached. *)

From stdpp Require Import relations.
From S2P Require Import Prelude Pipes Yqueue Ypipe Conflate Pipe PipeSteps PipeRuns PipeLive.

Module PipeJoin.
Import Pipe PipeSteps PipeRuns PipeLive.

Section Like.
Context {T : Type} `{Message T}.

Abbreviation sys := (@sys T).

(** [t] is [s], without the sinks of the ends that [b] says. *)
Record like (b : bool -> bool) (s t : sys) : Prop := {
  l_ends : forall e, ends t e = if b e then ends s e else set_sink false <$> ends s e;
  l_mail : forall e, mail t e = mail s e;
  l_upipes : upipes t = upipes s;
  l_next : next_upipe t = next_upipe s;
  l_calls : forall e, calls t e = calls s e;
  l_closed : closed t = closed s
}.

(** The sinks that are missing are not called. *)
Definition spared (b : bool -> bool) (s s' : sys) : Prop := forall e, b e = true \/ calls s' e = calls s e.

(** A computation calls the sinks, and does the same on both states unless it calls a missing one. *)
Record respects {A} (m : stm sys A) : Prop := {
  r_grows : forall s s' a e, m s = Done (s', a) -> calls s e `prefix_of` calls s' e;
  r_same : forall b s t s' a, like b s t -> m s = Done (s', a) -> spared b s s' ->
    exists t', m t = Done (t', a) /\ like b s' t'
}.

Lemma prefix_same {A} (l1 l2 l3 : list A) : l1 `prefix_of` l2 -> l2 `prefix_of` l3 -> l3 = l1 -> l2 = l1.
Proof.
  intros H1 H2 ->. apply prefix_length_eq; [done|]. by apply prefix_length.
Qed.

Lemma respects_bind {A B} (m : stm sys A) (k : A -> stm sys B) :
  respects m -> (forall a, respects (k a)) -> respects (sbind m k).
Proof.
  intros [Gm Hm] Hk. split.
  - intros s s' r e E. apply sbind_inv in E as (s1 & a & E1 & E2).
    etrans; [by apply (Gm _ _ _ e E1)|by apply (r_grows _ (Hk a) _ _ _ e E2)].
  - intros b s t s' r L E Hb. apply sbind_inv in E as (s1 & a & E1 & E2).
    assert (P1 : forall e, calls s e `prefix_of` calls s1 e) by (intros e; apply (Gm _ _ _ e E1)).
    assert (P2 : forall e, calls s1 e `prefix_of` calls s' e) by (intros e; apply (r_grows _ (Hk a) _ _ _ e E2)).
    destruct (Hm b s t s1 a L E1) as (t1 & Et & L1).
    { intros e. destruct (Hb e) as [|He]; [by left|]. right. by apply (prefix_same _ _ _ (P1 e) (P2 e)). }
    destruct (r_same _ (Hk a) b s1 t1 s' r L1 E2) as (t2 & Et2 & L2).
    { intros e. destruct (Hb e) as [|He]; [by left|]. right. rewrite He. symmetry. by apply (prefix_same _ _ _ (P1 e) (P2 e)). }
    exists t2. split; [|done]. by rewrite (sbind_done _ _ _ _ _ Et).
Qed.

(** A computation that does not look at the ends. *)
Lemma respects_simple {A} (m : stm sys A) :
  (forall s s' a, m s = Done (s', a) -> calls s' = calls s) ->
  (forall b s t s' a, like b s t -> m s = Done (s', a) -> exists t', m t = Done (t', a) /\ like b s' t') -> respects m.
Proof.
  intros Hc Hs. split; [|by eauto]. intros s s' a e E. by rewrite (Hc _ _ _ E).
Qed.

Lemma respects_ret {A} (a : A) : respects (sret a).
Proof. apply respects_simple; [by intros ??? [= <- <-]|]. intros b s t s' a' L [= <- <-]. by exists t. Qed.

Lemma respects_crash {A} : respects (scrash (A := A)).
Proof. by apply respects_simple. Qed.

Lemma respects_assert b : respects (sassert b).
Proof. destruct b; [apply (respects_ret tt)|apply respects_crash]. Qed.

Lemma respects_lift {A} (o : outcome A) : respects (slift o).
Proof. destruct o as [a|]; [apply (respects_ret a)|apply respects_crash]. Qed.

Lemma like_end b e (s t : sys) p :
  like b s t -> ends s e = Some p -> ends t e = Some (if b e then p else set_sink false p).
Proof. intros L E. rewrite (l_ends b s t L), E. by destruct (b e). Qed.

(** Reading an end, and going on in a way that does not depend on its sink. *)
Lemma respects_this {A} e (k : pipe_t -> stm sys A) :
  (forall p, k (set_sink false p) = k p) -> (forall p, respects (k p)) -> respects (sbind (this e) k).
Proof.
  intros Hk Hr. split.
  - intros s s' r e' E. apply sbind_inv in E as (s1 & p & E1 & E2). unfold this in E1.
    destruct (ends s e) as [q|]; [|done]. injection E1 as <- <-. by apply (r_grows _ (Hr q) _ _ _ e' E2).
  - intros b s t s' r L E Hb. apply sbind_inv in E as (s1 & p & E1 & E2). unfold this in E1.
    destruct (ends s e) as [q|] eqn:Eq; [|done]. injection E1 as <- <-.
    destruct (r_same _ (Hr q) b s t s' r L E2 Hb) as (t' & Et & L'). exists t'. split; [|done].
    unfold sbind, this. rewrite (like_end b e s t q L Eq). simpl. by destruct (b e); [|rewrite Hk].
Qed.

Lemma respects_upd e f : (forall p, f (set_sink false p) = set_sink false (f p)) -> respects (upd e f).
Proof.
  intros Hf. unfold upd. apply respects_simple.
  - intros s s' a E. destruct (ends s e); [|done]. by injection E as <- <-.
  - intros b s t s' a L E. destruct (ends s e) as [q|] eqn:Eq; [|done]. injection E as <- <-.
    rewrite (like_end b e s t q L Eq). eexists. split; [reflexivity|]. destruct L. split; try done.
    intros e'. simpl. unfold upd_at. destruct (eqb e' e) eqn:Ee; [|done]. apply eqb_prop in Ee as ->.
    by destruct (b e); simpl; rewrite ?Hf.
Qed.

Lemma respects_send e c : respects (send e c).
Proof.
  apply respects_simple; unfold send.
  - intros s s' a E. destruct (ends s (negb e)); [|done]. by injection E as <- <-.
  - intros b s t s' a L E. destruct (ends s (negb e)) as [q|] eqn:Eq; [|done]. injection E as <- <-.
    rewrite (like_end b _ s t q L Eq). eexists. split; [reflexivity|]. destruct L. split; try done.
    intros e'. simpl. unfold upd_at. destruct (eqb e' (negb e)); [by rewrite l_mail0|done].
Qed.

Lemma respects_notify e ev : respects (notify e ev).
Proof.
  split; unfold notify, sbind, this, sassert.
  - intros s s' a e' E. destruct (ends s e) as [p|]; [|done]. simpl in E. destruct (sink p); [|done].
    injection E as <- <-. simpl. unfold upd_at. destruct (eqb e' e) eqn:Ee; [|done]. apply eqb_prop in Ee as ->.
    by apply prefix_app_r.
  - intros b s t s' a L E Hb. destruct (ends s e) as [p|] eqn:Ep; [|done]. simpl in E.
    destruct (sink p) eqn:Ek; [|done]. injection E as <- <-. rewrite (like_end b e s t p L Ep). simpl.
    assert (Hsink : b e = true).
    { destruct (Hb e) as [|He]; [done|]. exfalso. simpl in He. rewrite upd_at_same in He.
      rewrite <- (app_nil_r (calls s e)) in He at 2. by apply app_inv_head in He. }
    rewrite Hsink, Ek. eexists. split; [reflexivity|]. destruct L. split; try done.
    intros e'. simpl. unfold upd_at. destruct (eqb e' e); [by rewrite l_calls0|done].
Qed.

Lemma respects_call {A} i (f : upipe -> outcome (A * upipe)) : respects (call i f).
Proof.
  apply respects_simple; unfold call.
  - intros s s' a E. destruct (upipes s !! i); [|done]. simpl in E. destruct (f _) as [[]|]; [|done]. by injection E as <- <-.
  - intros b s t s' a L E. rewrite (l_upipes b s t L). destruct (upipes s !! i); [|done]. simpl in E |- *.
    destruct (f _) as [[]|]; [|done]. injection E as <- <-. eexists. split; [reflexivity|]. by destruct L.
Qed.

Lemma respects_close m : respects (close m).
Proof.
  apply respects_simple; unfold close.
  - by intros s s' a [= <- <-].
  - intros b s t s' a L [= <- <-]. eexists. split; [reflexivity|]. destruct L. split; try done. simpl. by rewrite l_closed0.
Qed.

Lemma respects_up_delete i : respects (up_delete i).
Proof.
  apply respects_simple; unfold up_delete.
  - intros s s' a E. destruct (upipes s !! i); [|done]. by injection E as <- <-.
  - intros b s t s' a L E. rewrite (l_upipes b s t L). destruct (upipes s !! i); [|done]. injection E as <- <-.
    eexists. split; [reflexivity|]. by destruct L.
Qed.

Lemma respects_up_new c : respects (up_new c).
Proof.
  apply respects_simple; unfold up_new.
  - by intros s s' a [= <- <-].
  - intros b s t s' a L [= <- <-]. rewrite (l_upipes b s t L), (l_next b s t L). eexists. split; [reflexivity|]. by destruct L.
Qed.

Lemma respects_unread i : respects (up_unread i).
Proof.
  apply respects_simple; unfold up_unread.
  - intros s s' a E. destruct (upipes s !! i); [|done]. by injection E as <- <-.
  - intros b s t s' a L E. rewrite (l_upipes b s t L). destruct (upipes s !! i); [|done]. injection E as <- <-. by exists t.
Qed.

Lemma respects_partial i : respects (up_partial i).
Proof.
  apply respects_simple; unfold up_partial.
  - intros s s' a E. destruct (upipes s !! i); [|done]. by injection E as <- <-.
  - intros b s t s' a L E. rewrite (l_upipes b s t L). destruct (upipes s !! i); [|done]. injection E as <- <-. by exists t.
Qed.

Lemma respects_delete e : respects (delete_this e).
Proof.
  apply respects_simple; unfold delete_this.
  - by intros s s' a [= <- <-].
  - intros b s t s' a L [= <- <-]. eexists. split; [reflexivity|]. destruct L. split; try done.
    intros e'. simpl. unfold upd_at. destruct (eqb e' e); [by destruct (b e')|done].
Qed.

Ltac resp :=
  repeat first
    [ apply respects_this; [reflexivity|intros ?]
    | apply respects_ret | apply respects_crash | apply respects_assert | apply respects_lift
    | apply respects_upd; reflexivity | apply respects_send | apply respects_notify | apply respects_call
    | apply respects_close | apply respects_up_delete | apply respects_up_new | apply respects_unread
    | apply respects_partial | apply respects_delete
    | assumption
    | apply respects_bind; [|intros ?]
    | match goal with |- respects (if ?b then _ else _) => destruct b
                    | |- respects (match ?x with _ => _ end) => destruct x end ].

Lemma respects_up_write c i m b : respects (up_write c i m b).
Proof. unfold up_write. resp. Qed.

Lemma respects_delimiter e : respects (process_delimiter e).
Proof. unfold process_delimiter. resp. Qed.

Lemma respects_read_message fuel e : respects (read_message fuel e).
Proof.
  induction fuel as [|fuel IH]; cbn [read_message]; unfold up_read; resp; apply respects_delimiter.
Qed.

Lemma respects_unwrite_all fuel o : respects (unwrite_all fuel o).
Proof. induction fuel as [|fuel IH]; cbn [unwrite_all]; unfold up_unwrite; resp. Qed.

Lemma respects_drop_unread fuel e o : respects (drop_unread fuel e o).
Proof. induction fuel as [|fuel IH]; cbn [drop_unread]; unfold up_read; resp. Qed.

Lemma respects_close_unread fuel i : respects (close_unread fuel i).
Proof. induction fuel as [|fuel IH]; cbn [close_unread]; unfold up_read; resp. Qed.

Lemma respects_rollback e : respects (rollback e).
Proof. unfold rollback. resp. apply respects_unwrite_all. Qed.

Lemma respects_flush e : respects (flush e).
Proof. unfold flush, up_flush. resp. Qed.

Lemma respects_check_read e : respects (check_read e).
Proof. unfold check_read, up_check_read, up_probe, up_read. resp. Qed.

Lemma respects_read e : respects (read e).
Proof. unfold read. resp. apply respects_read_message. Qed.

Lemma respects_check_write e : respects (check_write e).
Proof. unfold check_write. resp. Qed.

Lemma respects_write c e m : respects (write c e m).
Proof. unfold write. apply respects_bind; [apply respects_check_write|intros ?]. resp; apply respects_up_write. Qed.

Lemma respects_terminate c d e : respects (terminate c d e).
Proof.
  unfold terminate. resp; try apply respects_unwrite_all; try apply respects_up_write; apply respects_flush.
Qed.

Lemma respects_command c e : respects (process_command c e).
Proof.
  destruct c; cbn [process_command]; unfold process_activate_read, process_activate_write, process_hiccup, up_flush,
    process_pipe_term, process_pipe_term_ack, process_pipe_hwm, set_hwms; resp;
    first [apply respects_drop_unread|apply respects_close_unread].
Qed.

Lemma respects_next e : respects (process_next e).
Proof.
  unfold process_next. split.
  - intros s s' a e' E. destruct (mail s e) as [|c l]; [by injection E as <- <-|].
    apply (r_grows _ (respects_command c e) _ _ _ e' E).
  - intros b s t s' a L E Hb. rewrite (l_mail b s t L e). destruct (mail s e) as [|c l]; [injection E as <- <-; by exists t|].
    apply (r_same _ (respects_command c e) b (with_mail e l s)); [|done|exact Hb].
    destruct L. split; try done. intros e'. simpl. unfold upd_at. by destruct (eqb e' e).
Qed.

(** Every method does the same on both. *)
Lemma step_respects e a : respects (step e a).
Proof.
  destruct a; cbn [step]; apply respects_bind; try (intros ?; apply respects_ret).
  - apply respects_check_read.
  - apply respects_read.
  - apply respects_check_write.
  - apply respects_write.
  - apply respects_rollback.
  - apply respects_flush.
  - unfold hiccup. resp.
  - unfold set_nodelay. resp.
  - apply respects_terminate.
  - unfold set_hwms. resp.
  - unfold set_hwms_boost. resp.
  - unfold send_hwms_to_peer. resp.
  - apply respects_next.
Qed.

(** *** Which sinks are called *)

(** A computation that calls no sink but those of [P]. *)
Definition calls_only (P : bool -> Prop) {A} (m : stm sys A) : Prop :=
  forall s s' a e, m s = Done (s', a) -> ~ P e -> calls s' e = calls s e.

Lemma only_bind P {A B} (m : stm sys A) (k : A -> stm sys B) :
  calls_only P m -> (forall a, calls_only P (k a)) -> calls_only P (sbind m k).
Proof.
  intros Hm Hk s s' r e E He. apply sbind_inv in E as (s1 & a & E1 & E2).
  rewrite (Hk a _ _ _ e E2 He). by apply (Hm _ _ _ e E1).
Qed.

Lemma only_ret P {A} (a : A) : calls_only P (sret a).
Proof. by intros s s' a' e [= <- <-]. Qed.

Lemma only_crash P {A} : calls_only P (scrash (A := A)).
Proof. by intros s s' a' e. Qed.

Lemma only_assert P b : calls_only P (sassert b).
Proof. destruct b; [apply only_ret|apply only_crash]. Qed.

Lemma only_lift P {A} (o : outcome A) : calls_only P (slift o).
Proof. destruct o; [apply only_ret|apply only_crash]. Qed.

Lemma only_this P e : calls_only P (this e).
Proof. intros s s' a e' E _. unfold this in E. destruct (ends s e); [|done]. by injection E as <- <-. Qed.

Lemma only_upd P e f : calls_only P (upd e f).
Proof. intros s s' a e' E _. unfold upd in E. destruct (ends s e); [|done]. by injection E as <- <-. Qed.

Lemma only_send P e c : calls_only P (send e c).
Proof. intros s s' a e' E _. unfold send in E. destruct (ends s (negb e)); [|done]. by injection E as <- <-. Qed.

Lemma only_call P {A} i (f : upipe -> outcome (A * upipe)) : calls_only P (call i f).
Proof.
  intros s s' a e' E _. unfold call in E. destruct (upipes s !! i); [|done]. simpl in E.
  destruct (f _) as [[]|]; [|done]. by injection E as <- <-.
Qed.

Lemma only_close P m : calls_only P (close m).
Proof. by intros s s' a e' [= <- <-]. Qed.

Lemma only_up_delete P i : calls_only P (up_delete i).
Proof. intros s s' a e' E _. unfold up_delete in E. destruct (upipes s !! i); [|done]. by injection E as <- <-. Qed.

Lemma only_up_new P c : calls_only P (up_new c).
Proof. by intros s s' a e' [= <- <-]. Qed.

Lemma only_unread P i : calls_only P (up_unread i).
Proof. intros s s' a e' E _. unfold up_unread in E. destruct (upipes s !! i); [|done]. by injection E as <- <-. Qed.

Lemma only_partial P i : calls_only P (up_partial i).
Proof. intros s s' a e' E _. unfold up_partial in E. destruct (upipes s !! i); [|done]. by injection E as <- <-. Qed.

Lemma only_delete P e : calls_only P (delete_this e).
Proof. by intros s s' a e' [= <- <-]. Qed.

Lemma only_notify (P : bool -> Prop) e ev : P e -> calls_only P (notify e ev).
Proof.
  intros He s s' a e' E Hn. unfold notify, sbind, this, sassert in E. destruct (ends s e) as [p|]; [|done]. simpl in E.
  destruct (sink p); [|done]. injection E as <- <-. simpl. unfold upd_at. destruct (eqb e' e) eqn:Ee; [|done].
  apply eqb_prop in Ee as ->. done.
Qed.

Ltac silent :=
  repeat first
    [ apply only_ret | apply only_crash | apply only_assert | apply only_lift | apply only_this
    | apply only_upd | apply only_send | apply only_call | apply only_close | apply only_up_delete
    | apply only_up_new | apply only_unread | apply only_partial | apply only_delete
    | apply only_notify; reflexivity | assumption
    | apply only_bind; [|intros ?]
    | match goal with |- calls_only _ (if ?b then _ else _) => destruct b
                    | |- calls_only _ (match ?x with _ => _ end) => destruct x end ].

Lemma only_read_message P fuel e : calls_only P (read_message fuel e).
Proof. induction fuel as [|fuel IH]; cbn [read_message]; unfold up_read, process_delimiter; silent. Qed.

Lemma only_unwrite_all P fuel o : calls_only P (unwrite_all fuel o).
Proof. induction fuel as [|fuel IH]; cbn [unwrite_all]; unfold up_unwrite; silent. Qed.

Lemma only_drop_unread P fuel e o : calls_only P (drop_unread fuel e o).
Proof. induction fuel as [|fuel IH]; cbn [drop_unread]; unfold up_read; silent. Qed.

Lemma only_close_unread P fuel i : calls_only P (close_unread fuel i).
Proof. induction fuel as [|fuel IH]; cbn [close_unread]; unfold up_read; silent. Qed.

Lemma only_rollback P e : calls_only P (rollback e).
Proof. unfold rollback. silent. apply only_unwrite_all. Qed.

Lemma only_flush P e : calls_only P (flush e).
Proof. unfold flush, up_flush. silent. Qed.

Lemma only_up_write P c i m b : calls_only P (up_write c i m b).
Proof. unfold up_write. silent. Qed.

(** A method other than the processing of a command calls no sink. *)
Lemma step_calls_none e a : a <> Process -> calls_only (fun _ => False) (step e a).
Proof.
  intros Ha. destruct a; try done; cbn [step]; apply only_bind; try (intros ?; apply only_ret).
  - unfold check_read, process_delimiter, up_check_read, up_probe, up_read. silent.
  - unfold read. silent. apply only_read_message.
  - unfold check_write. silent.
  - unfold write, check_write. silent; apply only_up_write.
  - apply only_rollback.
  - apply only_flush.
  - unfold hiccup. silent.
  - unfold set_nodelay. silent.
  - unfold terminate. silent; try apply only_unwrite_all; try apply only_up_write; try apply only_rollback; apply only_flush.
  - unfold set_hwms. silent.
  - unfold set_hwms_boost. silent.
  - unfold send_hwms_to_peer. silent.
Qed.

(** The processing of a command calls the sink of its end only. *)
Lemma next_calls_own e : calls_only (eq e) (process_next e).
Proof.
  intros s s' a e' E He. unfold process_next in E. destruct (mail s e) as [|c l]; [by injection E as <- <-|].
  assert (Hc : calls_only (eq e) (process_command c e)).
  { destruct c; cbn [process_command]; unfold process_activate_read, process_activate_write, process_hiccup, up_flush,
      process_pipe_term, process_pipe_term_ack, process_pipe_hwm, set_hwms; silent;
      first [apply only_drop_unread|apply only_close_unread]. }
  by apply (Hc _ _ _ e' E He).
Qed.

Lemma step_calls_own e a s s' r : step e a s = Done (s', r) -> calls s' (negb e) = calls s (negb e).
Proof.
  intros E. assert (a = Process \/ a <> Process) as [->|Ha] by (destruct a; (by left) || (by right)).
  - cbn [step] in E. apply sbind_inv in E as (s1 & u & E & [= <- _]). apply (next_calls_own e s s1 u (negb e) E). by destruct e.
  - apply (step_calls_none e a Ha s s' r (negb e) E). tauto.
Qed.

(** *** When an end goes *)

(** A computation that keeps the end, and does not call its sink with [PipeTerminated]. *)
Definition keeps_end (e : bool) {A} (m : stm sys A) : Prop := forall s s' a, m s = Done (s', a) ->
  (exists k, calls s' e = calls s e ++ k /\ PipeTerminated ∉ k) /\ (is_Some (ends s e) -> is_Some (ends s' e)).

Lemma pipejoin_keeps_bind e {A B} (m : stm sys A) (k : A -> stm sys B) :
  keeps_end e m -> (forall a, keeps_end e (k a)) -> keeps_end e (sbind m k).
Proof.
  intros Hm Hk s s' r E. apply sbind_inv in E as (s1 & a & E1 & E2).
  destruct (Hm _ _ _ E1) as [(k1 & Ek1 & Hk1) He1]. destruct (Hk a _ _ _ E2) as [(k2 & Ek2 & Hk2) He2].
  split; [|auto]. exists (k1 ++ k2). rewrite Ek2, Ek1, app_assoc. split; [done|]. by apply not_elem_of_app.
Qed.

(** A computation that neither calls a sink nor changes which ends there are. *)
Lemma keeps_simple e {A} (m : stm sys A) :
  calls_only (fun _ => False) m -> (forall s s' a, m s = Done (s', a) -> is_Some (ends s e) -> is_Some (ends s' e)) -> keeps_end e m.
Proof.
  intros Hc He s s' a E. split; [|by apply (He s s' a)]. exists []. rewrite app_nil_r. split; [|by apply not_elem_of_nil].
  apply (Hc s s' a e E). tauto.
Qed.

Lemma pipejoin_keeps_same e {A} (m : stm sys A) :
  calls_only (fun _ => False) m -> (forall s s' a, m s = Done (s', a) -> ends s' = ends s) -> keeps_end e m.
Proof. intros Hc He. apply keeps_simple; [done|]. intros s s' a E. by rewrite (He s s' a E). Qed.

Lemma pipejoin_keeps_ret e {A} (a : A) : keeps_end e (sret a).
Proof. apply pipejoin_keeps_same; [apply only_ret|]. by intros s s' a' [= <- <-]. Qed.

Lemma keeps_crash e {A} : keeps_end e (scrash (A := A)).
Proof. by apply pipejoin_keeps_same. Qed.

Lemma pipejoin_keeps_assert e b : keeps_end e (sassert b).
Proof. destruct b; [apply pipejoin_keeps_ret|apply keeps_crash]. Qed.

Lemma pipejoin_keeps_lift e {A} (o : outcome A) : keeps_end e (slift o).
Proof. destruct o; [apply pipejoin_keeps_ret|apply keeps_crash]. Qed.

Lemma pipejoin_keeps_this e e' : keeps_end e (this e').
Proof.
  apply pipejoin_keeps_same; [apply only_this|]. intros s s' a E. unfold this in E. destruct (ends s e'); [|done]. by injection E as <- _.
Qed.

Lemma pipejoin_keeps_upd e e' f : keeps_end e (upd e' f).
Proof.
  apply keeps_simple; [apply only_upd|]. intros s s' a E He. unfold upd in E. destruct (ends s e'); [|done].
  injection E as <- _. simpl. unfold upd_at. destruct (eqb e e'); [by eexists|done].
Qed.

Lemma pipejoin_keeps_send e e' c : keeps_end e (send e' c).
Proof.
  apply pipejoin_keeps_same; [apply only_send|]. intros s s' a E. unfold send in E. destruct (ends s (negb e')); [|done]. by injection E as <- _.
Qed.

Lemma pipejoin_keeps_call e {A} i (f : upipe -> outcome (A * upipe)) : keeps_end e (call i f).
Proof.
  apply pipejoin_keeps_same; [apply only_call|]. intros s s' a E. unfold call in E. destruct (upipes s !! i); [|done]. simpl in E.
  destruct (f _) as [[]|]; [|done]. by injection E as <- _.
Qed.

Lemma pipejoin_keeps_close e m : keeps_end e (close m).
Proof. apply pipejoin_keeps_same; [apply only_close|]. by intros s s' a [= <- _]. Qed.

Lemma keeps_up_delete e i : keeps_end e (up_delete i).
Proof.
  apply pipejoin_keeps_same; [apply only_up_delete|]. intros s s' a E. unfold up_delete in E. destruct (upipes s !! i); [|done]. by injection E as <- _.
Qed.

Lemma pipejoin_keeps_unread e i : keeps_end e (up_unread i).
Proof.
  apply pipejoin_keeps_same; [apply only_unread|]. intros s s' a E. unfold up_unread in E. destruct (upipes s !! i); [|done]. by injection E as <- _.
Qed.

Lemma keeps_notify e ev : ev <> PipeTerminated -> keeps_end e (notify e ev).
Proof.
  intros Hev s s' a E. unfold notify, sbind, this, sassert in E. destruct (ends s e) as [p|] eqn:Ep; [|done]. simpl in E.
  destruct (sink p); [|done]. injection E as <- <-. simpl. rewrite upd_at_same, Ep. split; [|done].
  exists [ev]. split; [done|]. rewrite list_elem_of_singleton. congruence.
Qed.

Ltac keeps :=
  repeat first
    [ apply pipejoin_keeps_ret | apply keeps_crash | apply pipejoin_keeps_assert | apply pipejoin_keeps_lift | apply pipejoin_keeps_this
    | apply pipejoin_keeps_upd | apply pipejoin_keeps_send | apply pipejoin_keeps_call | apply pipejoin_keeps_close | apply keeps_up_delete
    | apply pipejoin_keeps_unread | apply keeps_notify; discriminate | assumption
    | apply pipejoin_keeps_bind; [|intros ?]
    | match goal with |- keeps_end _ (if ?b then _ else _) => destruct b
                    | |- keeps_end _ (match ?x with _ => _ end) => destruct x end ].

Lemma keeps_drop_unread e fuel e' o : keeps_end e (drop_unread fuel e' o).
Proof. induction fuel as [|fuel IH]; cbn [drop_unread]; unfold up_read; keeps. Qed.

Lemma command_keeps c e : c <> pipe_term_ack -> keeps_end e (process_command c e).
Proof.
  intros Hc. destruct c; try done; cbn [process_command]; unfold process_activate_read, process_activate_write, process_hiccup,
    up_flush, process_pipe_term, process_pipe_hwm, set_hwms; keeps; apply keeps_drop_unread.
Qed.

(** The acknowledgement: the sink is told, and the end is deleted. *)
Lemma term_ack_goes e s s' a : process_pipe_term_ack e s = Done (s', a) ->
  (exists k, calls s' e = calls s e ++ PipeTerminated :: k) /\ ends s' e = None.
Proof.
  unfold process_pipe_term_ack. intros E. apply sbind_inv in E as (s1 & u & E1 & E). split.
  - exists []. unfold notify, sbind, this, sassert in E1. destruct (ends s e) as [p|]; [|done]. simpl in E1.
    destruct (sink p); [|done]. injection E1 as <- <-.
    match type of E with ?m ?st = _ => assert (Hm : calls_only (fun _ => False) m) by (silent; apply only_close_unread) end.
    rewrite (Hm _ _ _ e E) by tauto. simpl. by rewrite upd_at_same.
  - apply sbind_inv in E as (s2 & p & _ & E). do 3 apply sbind_inv in E as (? & ? & _ & E).
    injection E as <- _. simpl. by rewrite upd_at_same.
Qed.

Lemma trans_stays e a (s s' : sys) : a <> Process -> trans e a s s' -> is_Some (ends s' e).
Proof. intros Ha Ht. trans_cases Ht; try done; try parts F; rewrite ?F1, ?G1; by eexists. Qed.

(** The sink of an end is told exactly when the end goes. *)
Lemma step_goes e a s s' r : safe s -> allowed s e a -> step e a s = Done (s', r) -> is_Some (ends s e) ->
  exists k, calls s' e = calls s e ++ k /\ (PipeTerminated ∈ k <-> ends s' e = None).
Proof.
  intros S Ha E He. assert (a = Process \/ a <> Process) as [->|Hn] by (destruct a; (by left) || (by right)).
  - cbn [step] in E. apply sbind_inv in E as (s1 & u & E & [= <- _]). unfold process_next in E.
    destruct (mail s e) as [|c l] eqn:Em.
    + injection E as <- _. exists []. rewrite app_nil_r. split; [done|]. destruct He as [p ->]. split; [by intros ?%elem_of_nil|done].
    + destruct (decide (c = pipe_term_ack)) as [->|Hc].
      * destruct (term_ack_goes e _ _ _ E) as [(k & Ek) Hg]. exists (PipeTerminated :: k). split; [done|].
        split; [done|intros _; constructor].
      * destruct (command_keeps c e Hc _ _ _ E) as [(k & Ek & Hk) Hs]. exists k. split; [done|].
        split; [done|]. intros Hnone. exfalso. destruct (Hs He) as [p Hp]. congruence.
  - exists []. rewrite app_nil_r. split; [apply (step_calls_none e a Hn s s' r e E); tauto|].
    pose proof (step_done e a s s' r S Ha E) as Ht. assert (Hs : is_Some (ends s' e)).
    { clear E S Ha. induction Ht as [|s s1 s' Ht _ IH]; [done|]. apply IH. by apply (trans_stays e a s s1 Hn). }
    split; [by intros ?%elem_of_nil|]. intros Hnone. destruct Hs as [p Hp]. congruence.
Qed.
End Like.

(** ** Pairs that wait *)

(** The messages that carry a routing id: [init_size], [memcpy], [set_flags (msg_t::routing_id)]. *)
Class RoutingIds (T : Type) `{Message T} : Type := {
  routing_id_msg : list Z -> T;
  rid_flag : forall d, is_routing_id (routing_id_msg d) = true;
  rid_whole : forall d, has_more (routing_id_msg d) = false;
  rid_no_delimiter : forall d, is_delimiter (routing_id_msg d) = false;
  rid_no_credential : forall d, is_credential (routing_id_msg d) = false
}.

Section Waiting.
Context {T : Type} `{RoutingIds T}.

Abbreviation sys := (@sys T).

(** The second end has done nothing but to take note that the first one terminates: what was
    written for it is there, the routing id first, and it has sent nothing. *)
Inductive lone (d : list Z) (s : sys) : Prop :=
| lone_intro p q o y z l
  (Ep : ends s false = Some p) (Eq : ends s true = Some q)
  (Hp : state p = active \/ state p = term_req_sent1)
  (Hq : state q = active \/ state q = waiting_for_delimiter)
  (Hin : in_active q = true) (Hout : out_active q = true) (Hd : delay q = true)
  (Hw : msgs_written (counts q) = 0) (Hr : peers_msgs_read (counts q) = 0)
  (Eo : outpipe q = Some o) (Ey : upipes s !! o = Some (Normal y))
  (Hy : Yp.flushed y = [] /\ Yp.complete y = [] /\ Yp.partial y = [])
  (Ez : upipes s !! inpipe q = Some (Normal z)) (Hz : Yp.flushed z = routing_id_msg d :: l)
  (Hm : mail s false = []) (Hc : forall n, activate_write n ∉ mail s true).

Definition empty_queue (h : gmap nat (upipe (T := T))) (o : nat) : Prop :=
  exists y, h !! o = Some (Normal y) /\ Yp.flushed y = [] /\ Yp.complete y = [] /\ Yp.partial y = [].

Definition starts_with (rid : list Z) (h : gmap nat (upipe (T := T))) (i : nat) : Prop :=
  exists z l, h !! i = Some (Normal z) /\ Yp.flushed z = routing_id_msg rid :: l.

(** No credit among the commands. *)
Definition no_credit (l : list command) : Prop := Forall (fun c => if c is activate_write _ then False else True) l.

Lemma lone_first rid (s s' : sys) p' cs :
  lone rid s -> ends s' false = Some p' -> state p' = active \/ state p' = term_req_sent1 ->
  ends s' true = ends s true -> mail s' false = mail s false -> mail s' true = mail s true ++ cs ->
  no_credit cs ->
  (forall q o, ends s true = Some q -> outpipe q = Some o -> empty_queue (upipes s) o -> empty_queue (upipes s') o) ->
  (forall q, ends s true = Some q -> starts_with rid (upipes s) (inpipe q) -> starts_with rid (upipes s') (inpipe q)) ->
  lone rid s'.
Proof.
  intros [p0 q0 o0 y0 z0 l0 Wp Wq Wsp Wsq Win Wout Wd Ww Wr Wo Wy Wyn Wz Wzn Wm Wc] E Hp Hq Hm Hm' Hcs Hy Hz.
  destruct (Hy q0 o0 Wq Wo) as (y & Ey & Hyn); [by exists y0|].
  destruct (Hz q0 Wq) as (z & l & Ez & Hzn); [by exists z0, l0|].
  apply (lone_intro rid s' p' q0 o0 y z l); try done; try congruence.
  intros n. rewrite Hm', elem_of_app. intros [?|Hx]; [by apply (Wc n)|].
  unfold no_credit in Hcs. rewrite Forall_forall in Hcs. by apply (Hcs _ Hx).
Qed.

Lemma starts_with_insert rid (h : gmap nat (upipe (T := T))) i o z z' :
  h !! o = Some (Normal z) -> Yp.flushed z `prefix_of` Yp.flushed z' ->
  starts_with rid h i -> starts_with rid (<[o := Normal z']> h) i.
Proof.
  intros Ez [k Hk] (z0 & l & E0 & Hz0). destruct (decide (i = o)) as [->|Hne].
  - rewrite Ez in E0. injection E0 as <-. exists z', (l ++ k). rewrite lookup_insert_eq. by rewrite Hk, Hz0.
  - exists z0, l. by rewrite lookup_insert_ne.
Qed.

(** What the first end does keeps the second end waiting. *)
Lemma trans_lone_first rid a (s s' : sys) :
  safe s -> delimits s -> a <> Hiccup -> trans false a s s' -> lone rid s -> lone rid s'.
Proof.
  intros S D Ha Ht W. pose proof W as [p0 q0 o0 y0 z0 l0 Wp Wq Wsp Wsq Win Wout Wd Ww Wr Wo Wy Wyn Wz Wzn Wm Wc].
  assert (Wi : inpipe p0 = o0) by apply (out_is_in s true q0 p0 o0 S D Wq Wo Wp).
  assert (Wn : o0 <> inpipe q0) by apply (out_ne_in s true q0 o0 S Wq Wo).
  assert (Wout' : forall o z z' h, outpipe p0 = Some o -> upipes s !! o = Some (Normal z) ->
    Yp.flushed z `prefix_of` Yp.flushed z' -> h = <[o := Normal z']> (upipes s) ->
    (forall q o1, ends s true = Some q -> outpipe q = Some o1 -> empty_queue (upipes s) o1 -> empty_queue h o1) /\
    (forall q, ends s true = Some q -> starts_with rid (upipes s) (inpipe q) -> starts_with rid h (inpipe q))).
  { intros o z z' h Eo Ez Hpre ->. assert (inpipe q0 = o) as Eo' by apply (out_is_in s false p0 q0 o S D Wp Eo Wq). split.
    - intros q o1 Eq Eo1 (y & Ey & Hy). rewrite Wq in Eq. injection Eq as <-. rewrite Wo in Eo1. injection Eo1 as <-.
      exists y. rewrite lookup_insert_ne by congruence. done.
    - intros q _. by apply (starts_with_insert rid (upipes s) _ o z z'). }
  trans_cases Ht; try done; try parts F; rewrite Wp in E; injection E as <-; simpl in *; try congruence.
  all: try (assert (y = y0) as -> by congruence; destruct Wyn as (Wf & _); congruence).
  all: try (destruct Wsp; congruence).
  all: try (eapply (lone_first rid s s' _ _ W F1); [done|done|done|exact F4|by repeat constructor|by rewrite F5|by rewrite F5]; fail).
  - assert (y = y0) as -> by congruence.
    eapply (lone_first rid s s' _ _ W F1); [done|done|done|exact F4|by repeat constructor| |]; rewrite F5.
    + intros q1 o1 Eq1 Eo1 _. exists (slept y0). rewrite Wq in Eq1. injection Eq1 as <-. rewrite Wo in Eo1. injection Eo1 as <-.
      rewrite Wi, lookup_insert_eq. by destruct Wyn as (_ & ? & ?).
    + intros q1 Eq1 (z1 & l1 & Ez1 & Hz1). exists z1, l1. rewrite Wq in Eq1. injection Eq1 as <-.
      by rewrite lookup_insert_ne by congruence.
  - destruct (Wout' _ _ (Yp.s_write m (has_more m) z) (upipes s') Eo Ez) as [H1 H2]; [by destruct (has_more m)|exact F5|].
    by eapply (lone_first rid s s' _ _ W F1); [..|exact F4|by repeat constructor| |].
  - destruct (Wout' _ _ (emptied z) (upipes s') Eo Ez) as [H1 H2]; [done|exact F5|].
    by eapply (lone_first rid s s' _ _ W F1); [..|exact F4|by repeat constructor| |].
  - destruct (Wout' _ _ (Yp.s_flush z).2 (upipes s') Eo Ez) as [H1 H2]; [|exact F5|].
    { unfold Yp.s_flush. destruct (Yp.complete z); simpl; [done|by apply prefix_app_r]. }
    eapply (lone_first rid s s' _ _ W F1); [done..|exact F4| |done|done].
    destruct (Yp.s_flush z).1; by repeat constructor.
  - destruct (Wout' _ _ (delimited z) (upipes s') Eo Ez) as [H1 H2]; [simpl; by apply prefix_app_r|exact F5|].
    eapply (lone_first rid s s' _ _ W F1); [by right|done|done|exact F4| |done|done].
    unfold wake. destruct (Yp.asleep z); by repeat constructor.
Qed.

Definition reached (s : sys) : Prop := exists h0 h1, reach no_hiccup (started h0 h1) s.

Lemma reached_safe s : reached s -> safe s.
Proof. intros (h0 & h1 & Hr). by apply (reach_safe no_hiccup h0 h1). Qed.

Lemma reached_step s e a s' r : reached s -> a <> Hiccup -> allowed s e a -> step e a s = Done (s', r) -> reached s'.
Proof. intros (h0 & h1 & Hr) Ha Hal E. exists h0, h1. by apply (reach_step no_hiccup _ e a s s' r). Qed.

Lemma reached_done s e a : reached s -> allowed s e a -> exists s' r, step e a s = Done (s', r).
Proof.
  intros Hr Ha. destruct (step_runs e a s (reached_safe s Hr) Ha) as (s' & r & E & _). by exists s', r.
Qed.

(** A pair that waits for its second end to be attached. *)
Record waits (rid : list Z) (s : sys) : Prop := {
  w_reached : reached s;
  w_calls : calls s true = [];
  w_lone : lone rid s
}.

Lemma waits_first rid s a :
  waits rid s -> a <> Hiccup -> allowed s false a -> exists s' r, step false a s = Done (s', r) /\ waits rid s'.
Proof.
  intros [Hr Hc W] Ha Hal. destruct (reached_done s false a Hr Hal) as (s' & r & E). exists s', r. split; [done|].
  pose proof (step_done false a s s' r (reached_safe s Hr) Hal E) as Ht. split.
  - by apply (reached_step s false a s' r).
  - rewrite <- Hc. by apply (step_calls_own false a s s' r).
  - destruct Hr as (h0 & h1 & Hr). pose proof (reach_safe no_hiccup h0 h1 s Hr) as S. pose proof (reach_delimits h0 h1 s Hr) as D.
    clear E Hr Hal Hc. induction Ht as [|s s1 s' Ht _ IH]; [done|].
    apply IH; [by apply (trans_lone_first rid a s)|by apply (trans_safe false a s)|by apply (trans_delimits false a s)].
Qed.

(** The second end takes note of a command. *)
Lemma lone_noted rid (s : sys) c l q q' :
  lone rid s -> mail s true = c :: l -> ends s true = Some q ->
  state q' = active \/ state q' = waiting_for_delimiter -> in_active q' = in_active q -> out_active q' = out_active q ->
  delay q' = delay q -> msgs_written (counts q') = msgs_written (counts q) ->
  peers_msgs_read (counts q') = peers_msgs_read (counts q) -> outpipe q' = outpipe q -> inpipe q' = inpipe q ->
  lone rid (with_end true (Some q') (with_mail true l s)).
Proof.
  intros [p0 q0 o0 y0 z0 l0 Wp Wq Wsp Wsq Win Wout Wd Ww Wr Wo Wy Wyn Wz Wzn Wm Wc] Em E. rewrite Wq in E. injection E as <-.
  intros. apply (lone_intro rid _ p0 q' o0 y0 z0 l0); try done; simpl; try congruence.
  intros n Hn. apply (Wc n). rewrite Em. by right.
Qed.

Lemma waits_process rid s : waits rid s -> exists s', step true Process s = Done (s', RUnit) /\ waits rid s'.
Proof.
  intros [Hr Hc W]. pose proof (reached_safe s Hr) as S.
  destruct (reached_done s true Process Hr I) as (s' & r & E).
  assert (HW : calls s' true = [] /\ lone rid s').
  { pose proof W as [p0 q0 o0 y0 z0 l0 Wp Wq Wsp Wsq Win Wout Wd Ww Wr Wo Wy Wyn Wz Wzn Wm Wc].
    cbn [step] in E. unfold sbind, process_next in E. destruct (mail s true) as [|c l] eqn:Em; [by injection E as <- _|].
    pose proof (a_phase _ S true) as Hph. rewrite Wq, Em in Hph. simpl negb in Hph. rewrite Wp in Hph.
    destruct c; cbn [process_command] in E.
    - unfold process_activate_read, sbind, this in E. simpl in E. rewrite Wq in E. simpl in E. rewrite Win in E. injection E as <- _.
      split; [done|]. apply (lone_intro rid _ p0 q0 o0 y0 z0 l0); try done. intros n Hn. apply (Wc n). by right.
    - exfalso. eapply Wc. constructor.
    - exfalso. destruct Hr as (h0 & h1 & Hr). eapply (d_mail _ (reach_delimits h0 h1 s Hr) true). rewrite Em. constructor.
    - unfold process_pipe_term, sbind, this in E. simpl in E. rewrite Wq in E. simpl in E.
      destruct Wsq as [Ws|Ws]; [|simpl in Hph; by rewrite Ws in Hph].
      rewrite Ws, Wd in E. unfold upd in E. simpl in E. rewrite Wq in E. injection E as <- _.
      split; [done|]. apply (lone_noted rid s pipe_term l q0); try done. by right.
    - exfalso. simpl in Hph. destruct Wsq as [Ws|Ws], Wsp as [Ws'|Ws']; rewrite Ws, Ws' in Hph; simpl in Hph;
        apply phases_two in Hph as [_ ?]; done.
    - unfold process_pipe_hwm, set_hwms, upd, sbind in E. simpl in E. rewrite Wq in E. injection E as <- _.
      split; [done|]. by eapply (lone_noted rid s _ l q0). }
  assert (r = RUnit) as ->.
  { cbn [step] in E. apply sbind_inv in E as (s1 & u & _ & E). by injection E as _ <-. }
  exists s'. split; [done|]. destruct HW. split; [|done|done]. by apply (reached_step s true Process s' RUnit).
Qed.

(** ** Calls of the owner of an end *)

(** The calls an end's owner makes, but for announcing watermarks. *)
Definition owner_call (a : action (T := T)) : Prop :=
  match a with Process | Hiccup | SendHwms _ _ => False | _ => True end.

(** The end [e] is there, and the other one is [q]. *)
Record facing (e : bool) (q : option pipe_t) (s : sys) : Prop := {
  g_reached : reached s;
  g_here : is_Some (ends s e);
  g_peer : ends s (negb e) = q
}.

Lemma rtc_peer e a (s s' : sys) : rtc (trans e a) s s' -> ends s' (negb e) = ends s (negb e).
Proof. induction 1 as [|s s1 s' Ht _ IH]; [done|]. by rewrite IH, (trans_peer e a s s1). Qed.

Lemma owner_call_allowed s e a : owner_call a -> is_Some (ends s e) -> allowed s e a.
Proof. by destruct a. Qed.

Lemma facing_call e q s a : facing e q s -> owner_call a -> exists s' r, step e a s = Done (s', r) /\ facing e q s'.
Proof.
  intros [Hr He Hq] Ha. pose proof (owner_call_allowed s e a Ha He) as Hal.
  destruct (reached_done s e a Hr Hal) as (s' & r & E). exists s', r. split; [done|].
  pose proof (step_done e a s s' r (reached_safe s Hr) Hal E) as Ht. split.
  - apply (reached_step s e a s' r); try done. by destruct a.
  - assert (Hn : a <> Process) by (by destruct a). clear Hq E Hr Hal. induction Ht as [|s s1 s' Ht _ IH]; [done|].
    apply IH. by apply (trans_stays e a s s1).
  - by rewrite (rtc_peer e a s s' Ht).
Qed.

Lemma owner_call_spared b e a (s s' : sys) r : owner_call a -> step e a s = Done (s', r) -> spared b s s'.
Proof. intros Ha E e'. right. apply (step_calls_none e a ltac:(by destruct a) s s' r e' E). tauto. Qed.

(** A call on the pair whose sinks are missing. *)
Lemma like_call b e a (s s' t : sys) r : like b s t -> owner_call a -> step e a s = Done (s', r) ->
  exists t', step e a t = Done (t', r) /\ like b s' t'.
Proof. intros L Ha E. apply (r_same _ (step_respects e a) b s t s' r L E). by apply (owner_call_spared b e a s s' r). Qed.

(** A method behind a call. *)
Lemma method_done {A} (m : stm sys A) (f : A -> result (T := T)) (s s' : sys) r :
  (let! x := m in sret (f x)) s = Done (s', r) -> exists x, m s = Done (s', x) /\ r = f x.
Proof. intros E. apply sbind_inv in E as (s1 & x & E & [= <- <-]). by exists x. Qed.

(** Attaching an end gives it its sink. *)
Lemma like_attach b e (s t : sys) : like b s t -> safe s -> is_Some (ends s e) -> b e = false ->
  exists t', set_event_sink e t = Done (t', tt) /\ like (fun e' => eqb e' e || b e') s t'.
Proof.
  intros L S [p Ep] Hb. destruct (a_end _ S e p Ep) as (Hk & _).
  assert (Et : ends t e = Some (set_sink false p)) by (rewrite (l_ends b s t L), Hb, Ep; done).
  unfold set_event_sink, sbind, this, sassert, upd. rewrite Et. simpl. rewrite Et. simpl.
  eexists. split; [reflexivity|]. destruct L. split; try done. intros e'. simpl. unfold upd_at.
  destruct (eqb e' e) eqn:Ee; [|done]. apply eqb_prop in Ee as ->. rewrite Ep. destruct p; simpl in *. by subst.
Qed.

(** ** A new pair *)
Lemma fresh_like h0 h1 : like (fun _ => false) (started h0 h1) (pipepair (T := T) h0 h1 false false).
Proof. split; try done; by intros []. Qed.

Lemma fresh_reached h0 h1 : reached (started h0 h1).
Proof. exists h0, h1. constructor. Qed.

(** An end through which nothing that counts was sent yet. *)
Definition unsent (e : bool) (s : sys) : Prop :=
  exists p, ends s e = Some p /\ state p = active /\ out_active p = true
    /\ msgs_written (counts p) = 0 /\ peers_msgs_read (counts p) = 0.

Lemma unsent_write e rid (s : sys) : safe s -> unsent e s ->
  exists s', write false e (routing_id_msg rid) s = Done (s', true) /\ unsent e s' /\ ends s' (negb e) = ends s (negb e).
Proof.
  intros S (p & Ep & Hs & Ho & Hw & Hr). unfold write, check_write, sbind at 1 2, this. rewrite Ep. simpl.
  rewrite Ho, Hs. assert (Hh : check_hwm p = true).
  { unfold check_hwm. rewrite Hw, Hr. change (u64 (0 - 0)) with 0. destruct (Z.ltb_spec 0 (hwm (counts p))); [|done].
    by rewrite (proj2 (Z.leb_gt _ _)). }
  simpl. rewrite Hh. unfold sret at 1. simpl. unfold sbind at 1, this. rewrite Ep. simpl.
  destruct (out_some s e p S Ep) as [o Eo]; [simpl; by rewrite Hs|].
  pose proof (chain_out s e p o Ep Eo) as Hch. rewrite Eo. simpl.
  destruct (upipes s !! o) as [y|] eqn:Ey.
  2:{ exfalso. assert (is_Some (upipes s !! o)) as [? ?]; [|congruence]. apply (a_dom _ S). apply (in_chain s e). rewrite Hch. constructor. }
  pose proof (a_upipes _ S o y Ey) as Hy. destruct y as [z|]; [|done].
  unfold slift, up_write, call, sret. rewrite rid_whole, rid_flag. unfold sbind. simpl. rewrite Ey. simpl.
  eexists. split; [reflexivity|]. split; [by exists p|done].
Qed.

(** The pair with a routing id on its way to its second end. *)
Lemma fresh_waits h0 h1 i0 o0 i1 o1 rid s1 s2 s3 s4 :
  set_hwms_boost i0 o0 false (started h0 h1) = Done (s1, tt) -> set_hwms_boost i1 o1 true s1 = Done (s2, tt) ->
  write false false (routing_id_msg rid) s2 = Done (s3, true) -> flush false s3 = Done (s4, tt) ->
  lone rid s4 /\ calls s4 true = [].
Proof.
  intros [= <-] [= <-] E3 E4. unfold write, check_write, sbind, this, check_hwm in E3. simpl in E3.
  change (u64 (0 - 0)) with 0 in E3.
  assert (Hh : (0 <? h0) && (h0 <=? 0) = false).
  { destruct (Z.ltb_spec 0 h0); [|done]. by rewrite (proj2 (Z.leb_gt _ _)). }
  rewrite Hh in E3. cbn [negb] in E3. unfold slift, up_write, call, sret in E3. rewrite rid_whole, rid_flag in E3.
  unfold sbind in E3. cbn in E3. injection E3 as <-.
  unfold flush, up_flush, call, sbind, this in E4. cbn in E4. injection E4 as <-.
  split; [|done].
  eapply (lone_intro rid _ _ _ 0%nat); cbn; [reflexivity|reflexivity|by left|by left|reflexivity..| | | |reflexivity|].
  all: try reflexivity.
  - done.
  - intros n. apply not_elem_of_nil.
Qed.

(** Taking the routing id out of a pair that waits. *)
Lemma lone_read rid (s : sys) : lone rid s -> exists s', read true s = Done (s', Some (routing_id_msg rid)) /\
  ends s' true = ends s true.
Proof.
  intros [p0 q0 o0 y0 z0 l0 Wp Wq Wsp Wsq Win Wout Wd Ww Wr Wo Wy Wyn Wz Wzn Wm Wc].
  assert (Hrd : reading q0 = true) by (unfold reading; destruct Wsq as [->| ->]; done).
  assert (Hruns : runs (read true) s (fun s' r => r = Some (routing_id_msg rid) /\ ends s' true = ends s true)).
  { unfold read. apply runs_bind, (runs_this true q0); [done|]. rewrite Win, Hrd. cbn [negb]. apply runs_bind. apply (runs_unread _ z0); [done|].
    rewrite Wzn. cbn [length read_message]. apply runs_bind, (runs_this true q0); [done|]. apply runs_bind.
    apply (runs_call _ _ _ _ _ s _ Wz (read_done z0 _ l0 Wzn)). rewrite rid_no_credential, rid_no_delimiter, rid_whole, rid_flag.
    cbn [negb andb]. apply runs_bind, runs_ret, runs_bind, (runs_this true q0); [done|]. apply runs_bind.
    apply (credit_runs true _ (counts q0) p0); [done|]. intros s' G1 G2 G3 G4 G5. apply runs_ret. split; [done|]. by rewrite G1. }
  destruct Hruns as (s' & r & E & -> & He). by exists s'.
Qed.

Lemma unsent_ends e (s s' : sys) : ends s' e = ends s e -> unsent e s -> unsent e s'.
Proof. intros He (p & Hp). exists p. by rewrite He. Qed.

Lemma lone_unsent rid (s : sys) q : lone rid s -> ends s true = Some q -> state q = active -> unsent true s.
Proof.
  intros [p0 q0 o0 y0 z0 l0 Wp Wq Wsp Wsq Win Wout Wd Ww Wr Wo Wy Wyn Wz Wzn Wm Wc] E Hs. rewrite Wq in E.
  injection E as <-. by exists q0.
Qed.
End Waiting.
End PipeJoin.
