(* ===== verification/Inproc.v ===== *)
(** * Inproc: connections between sockets of a context (ctx.cpp, and the inproc parts of socket_base.cpp)

    A socket that binds an address is registered under it; a socket that connects to it
    makes a pair of pipes and sends the second end to the binder.  When nobody has bound
    the address yet, the connection is pending: the pair waits, both ends with the socket
    that connected, until an address is bound.  The calls of the sockets interleave at the
    critical sections of [endpoints_sync].

    The state has the tables of the context, what the sockets know of their connections,
    and the pairs of [Pipe].  What a socket pattern does with an end that is attached to it
    ([xattach_pipe]) is a list of calls on the end, an argument of the steps. *)

From stdpp Require Import relations.
From S2P Require Import Prelude Multimap Pipes Yqueue Ypipe Conflate Pipe PipeJoin.

Module Inproc.

Section Inproc.
Context {T : Type} `{PipeJoin.RoutingIds T}.

(** Addresses. *)
Abbreviation name := (list Z).
Abbreviation action := (@Pipe.action T).

Inductive errno : Type := EADDRINUSE | ENOENT.

(** What of [options_t] matters to a connection; the default of the watermarks is 1000. *)
Record options_t : Type := Options {
  type : Z;
  sndhwm : Z;
  rcvhwm : Z;
  recv_routing_id : bool;
  conflate : bool;
  routing_id : list Z
}.

Definition options_default : options_t := Options (-1) 1000 1000 false false [].

Record endpoint_t : Type := Endpoint { socket : nat; options : options_t }.

(** [connect_pipe] and [bind_pipe] are the first and the second end of the pair. *)
Record pending_connection_t : Type := PendingConnection { endpoint : endpoint_t; pair : nat }.

Inductive command : Type := bind (pair : nat) | inproc_connected.

#[global] Instance event_eq_dec : EqDecision Pipe.event.
Proof. solve_decision. Defined.

(** Where a socket's thread is: between two critical sections of a call, or in none. *)
Inductive activity : Type :=
| Idle
| Binding (addr_ : name)
| Connecting (addr_ : name) (peer : option endpoint_t).

(** [tag]: [check_tag ()]. *)
Record socket_t : Type := Socket {
  opts : options_t;
  tag : bool;
  sent_seqnum : Z;
  processed_seqnum : Z;
  terminating : bool;
  term_acks : Z;
  pipes : list (nat * bool);
  inprocs : Mm.mmap name (nat * bool);
  mailbox : list command;
  doing : activity
}.

(** A pair with the sockets whose threads have its ends. *)
Record connection : Type := Connection { ends : @Pipe.sys T; connector : nat; bind_tid : nat }.

Record world : Type := World {
  endpoints : gmap name endpoint_t;
  pending_connections : Mm.mmap name pending_connection_t;
  sockets : gmap nat socket_t;
  connections : gmap nat connection;
  next_connection : nat
}.

Definition world_new : world := World ∅ Mm.empty ∅ ∅ 0.

(** *** Accesses *)

Definition set_endpoints (m : gmap name endpoint_t) (w : world) : world :=
  World m (pending_connections w) (sockets w) (connections w) (next_connection w).
Definition set_pending (m : Mm.mmap name pending_connection_t) (w : world) : world :=
  World (endpoints w) m (sockets w) (connections w) (next_connection w).
Definition set_sockets (m : gmap nat socket_t) (w : world) : world :=
  World (endpoints w) (pending_connections w) m (connections w) (next_connection w).
Definition set_connections (m : gmap nat connection) (w : world) : world :=
  World (endpoints w) (pending_connections w) (sockets w) m (next_connection w).

Definition this (s : nat) : stm world socket_t := fun w => let* x := deref (sockets w !! s) in Done (w, x).

Definition upd (s : nat) (f : socket_t -> socket_t) : stm world unit := fun w =>
  let* x := deref (sockets w !! s) in Done (set_sockets (<[s := f x]> (sockets w)) w, tt).

Definition with_opts (o : options_t) (x : socket_t) : socket_t :=
  Socket o (tag x) (sent_seqnum x) (processed_seqnum x) (terminating x) (term_acks x) (pipes x) (inprocs x) (mailbox x) (doing x).
Definition with_tag (b : bool) (x : socket_t) : socket_t :=
  Socket (opts x) b (sent_seqnum x) (processed_seqnum x) (terminating x) (term_acks x) (pipes x) (inprocs x) (mailbox x) (doing x).
Definition with_seqnums (a b : Z) (x : socket_t) : socket_t :=
  Socket (opts x) (tag x) a b (terminating x) (term_acks x) (pipes x) (inprocs x) (mailbox x) (doing x).
Definition with_term (b : bool) (n : Z) (x : socket_t) : socket_t :=
  Socket (opts x) (tag x) (sent_seqnum x) (processed_seqnum x) b n (pipes x) (inprocs x) (mailbox x) (doing x).
Definition with_pipes (l : list (nat * bool)) (m : Mm.mmap name (nat * bool)) (x : socket_t) : socket_t :=
  Socket (opts x) (tag x) (sent_seqnum x) (processed_seqnum x) (terminating x) (term_acks x) l m (mailbox x) (doing x).
Definition with_mailbox (l : list command) (x : socket_t) : socket_t :=
  Socket (opts x) (tag x) (sent_seqnum x) (processed_seqnum x) (terminating x) (term_acks x) (pipes x) (inprocs x) l (doing x).
Definition with_doing (d : activity) (x : socket_t) : socket_t :=
  Socket (opts x) (tag x) (sent_seqnum x) (processed_seqnum x) (terminating x) (term_acks x) (pipes x) (inprocs x) (mailbox x) d.

(** A call on a pair. *)
Definition on_pair {A} (p : nat) (m : stm (@Pipe.sys T) A) : stm world A := fun w =>
  let* c := deref (connections w !! p) in
  let* (s, a) := m (ends c) in
  Done (set_connections (<[p := Connection s (connector c) (bind_tid c)]> (connections w)) w, a).

(** The socket that has an end. *)
Definition owner (c : connection) (e : bool) : nat := if e then bind_tid c else connector c.

(** *** Commands and their numbers *)

Definition inc_seqnum (s : nat) : stm world unit :=
  upd s (fun x => with_seqnums (u32 (sent_seqnum x + 1)) (processed_seqnum x) x).

Definition process_seqnum (s : nat) : stm world unit :=
  upd s (fun x => with_seqnums (sent_seqnum x) (u64 (processed_seqnum x + 1)) x).

Definition send_command (s : nat) (c : command) : stm world unit := upd s (fun x => with_mailbox (mailbox x ++ [c]) x).

(** *** Attaching an end *)

Fixpoint xattach_pipe (e : bool) (xs : list action) : stm (@Pipe.sys T) unit :=
  match xs with
  | [] => sret tt
  | a :: xs => Pipe.step e a ;;; xattach_pipe e xs
  end.

Definition attach_pipe (s p : nat) (e : bool) (xs : list action) : stm world unit :=
  on_pair p (Pipe.set_event_sink e) ;;;
  upd s (fun x => with_pipes (pipes x ++ [(p, e)]) (inprocs x) x) ;;;
  on_pair p (xattach_pipe e xs) ;;;
  let! x := this s in
  if terminating x then
    upd s (fun x => with_term (terminating x) (term_acks x + 1) x) ;;;
    on_pair p (Pipe.terminate false false e)
  else sret tt.

Definition process_bind (s p : nat) (xs : list action) : stm world unit := attach_pipe s p true xs.

(** *** The tables of the context *)

Definition register_endpoint (addr_ : name) (endpoint_ : endpoint_t) : stm world (option errno) := fun w =>
  match endpoints w !! addr_ with
  | Some _ => Done (w, Some EADDRINUSE)
  | None => Done (set_endpoints (<[addr_ := endpoint_]> (endpoints w)) w, None)
  end.

Definition unregister_endpoint (addr_ : name) (socket_ : nat) : stm world (option errno) := fun w =>
  match endpoints w !! addr_ with
  | Some e =>
      if bool_decide (socket e = socket_) then Done (set_endpoints (delete addr_ (endpoints w)) w, None)
      else Done (w, Some ENOENT)
  | None => Done (w, Some ENOENT)
  end.

Definition unregister_endpoints (socket_ : nat) : stm world unit :=
  smod (fun w => set_endpoints (filter (fun x => socket x.2 <> socket_) (endpoints w)) w).

(** [None] is the endpoint without a socket. *)
Definition find_endpoint (addr_ : name) : stm world (option endpoint_t) := fun w =>
  match endpoints w !! addr_ with
  | Some e => (inc_seqnum (socket e) ;;; sret (Some e)) w
  | None => Done (w, None)
  end.

(** The socket types that may conflate: ZMQ_DEALER, ZMQ_PULL, ZMQ_PUSH, ZMQ_PUB, ZMQ_SUB. *)
Definition conflates (o : options_t) : bool :=
  conflate o && ((type o =? 5) || (type o =? 7) || (type o =? 8) || (type o =? 1) || (type o =? 2)).

(** Sending a routing id through an end. *)
Definition send_routing_id (p : nat) (e : bool) (id : list Z) : stm world unit :=
  on_pair p (let! written := Pipe.write false e (PipeJoin.routing_id_msg id) in sassert written ;;; Pipe.flush e).

Inductive side : Type := connect_side | bind_side.

Definition set_tid (p tid_ : nat) : stm world unit := fun w =>
  let* c := deref (connections w !! p) in
  Done (set_connections (<[p := Connection (ends c) (connector c) tid_]> (connections w)) w, tt).

(** The watermarks of both ends. *)
Definition join_hwms (bind_options connect_options : options_t) : stm (@Pipe.sys T) unit :=
  if negb (conflates connect_options) then
    Pipe.set_hwms_boost (sndhwm bind_options) (rcvhwm bind_options) false ;;;
    Pipe.set_hwms_boost (sndhwm connect_options) (rcvhwm connect_options) true ;;;
    Pipe.set_hwms (rcvhwm connect_options) (sndhwm connect_options) false ;;;
    Pipe.set_hwms (rcvhwm bind_options) (sndhwm bind_options) true
  else
    Pipe.set_hwms (-1) (-1) false ;;;
    Pipe.set_hwms (-1) (-1) true.

(** The message that was read is closed. *)
Definition drop_routing_id (p : nat) : stm world unit :=
  on_pair p (let! m := Pipe.read true in sassert (if m is Some _ then true else false)).

Definition connect_inproc_sockets (bind_socket_ : nat) (bind_options : options_t)
    (pending : pending_connection_t) (side_ : side) (xs : list action) : stm world unit :=
  let p := pair pending in
  let peer := socket (endpoint pending) in
  inc_seqnum bind_socket_ ;;;
  set_tid p bind_socket_ ;;;
  (if negb (recv_routing_id bind_options) then drop_routing_id p else sret tt) ;;;
  on_pair p (join_hwms bind_options (options (endpoint pending))) ;;;
  match side_ with
  | bind_side =>
      process_bind bind_socket_ p xs ;;; process_seqnum bind_socket_ ;;;
      send_command peer inproc_connected
  | connect_side => send_command bind_socket_ (bind p)
  end ;;;
  if recv_routing_id (options (endpoint pending)) then
    let! x := this peer in
    if tag x then send_routing_id p true (routing_id bind_options) else sret tt
  else sret tt.

Definition pend_connection (addr_ : name) (endpoint_ : endpoint_t) (p : nat) : stm world unit := fun w =>
  match endpoints w !! addr_ with
  | None =>
      (inc_seqnum (socket endpoint_) ;;;
       smod (fun w => set_pending (Mm.insert (pending_connections w) addr_ (PendingConnection endpoint_ p)) w)) w
  | Some e =>
      connect_inproc_sockets (socket e) (options e) (PendingConnection endpoint_ p) connect_side [] w
  end.

(** The loop over the pending connections of an address; [xattach] has, for every pair, what the pattern
    does with its end. *)
Fixpoint connect_all (xattach : nat -> list action) (addr_ : name) (bind_socket_ : nat)
    (l : list (Mm.node name pending_connection_t)) : stm world unit :=
  match l with
  | [] => sret tt
  | n :: l =>
      let! w := sget in
      let! e := slift (deref (endpoints w !! addr_)) in
      connect_inproc_sockets bind_socket_ (options e) (Mm.val n) bind_side (xattach (pair (Mm.val n))) ;;;
      connect_all xattach addr_ bind_socket_ l
  end.

Definition connect_pending (xattach : nat -> list action) (addr_ : name) (bind_socket_ : nat) : stm world unit :=
  let! w := sget in
  connect_all xattach addr_ bind_socket_ (Mm.with_key addr_ (Mm.items (pending_connections w))) ;;;
  smod (fun w => set_pending (Mm.erase_key (pending_connections w) addr_) w).

(** *** Calls of a socket *)

(** [bind], in two critical sections. *)
Definition bind_register (s : nat) (addr_ : name) : stm world (option errno) :=
  let! x := this s in
  let! rc := register_endpoint addr_ (Endpoint s (opts x)) in
  match rc with
  | None => upd s (with_doing (Binding addr_)) ;;; sret None
  | Some e => sret (Some e)
  end.

Definition bind_pending (xattach : nat -> list action) (s : nat) (addr_ : name) : stm world unit :=
  connect_pending xattach addr_ s ;;;
  upd s (with_doing Idle).

(** [connect]: finding the peer, then the rest. *)
Definition connect_find (s : nat) (addr_ : name) : stm world unit :=
  let! peer := find_endpoint addr_ in
  upd s (with_doing (Connecting addr_ peer)).

(** The sum of both watermarks; none when either has none. *)
Definition total_hwm (own theirs : Z) : Z :=
  if negb (own =? 0) && negb (theirs =? 0) then i32 (own + theirs) else 0.

Definition new_pair (s tid_ : nat) (hwm0 hwm1 : Z) (conflate_ : bool) : stm world nat := fun w =>
  let p := next_connection w in
  Done (World (endpoints w) (pending_connections w) (sockets w)
          (<[p := Connection (Pipe.pipepair hwm0 hwm1 conflate_ conflate_) s tid_]> (connections w)) (S p), p).

Definition connect_rest (xs : list action) (s : nat) (addr_ : name) (peer : option endpoint_t) : stm world unit :=
  let! x := this s in
  let o := opts x in
  let sndhwm_ := match peer with Some e => total_hwm (sndhwm o) (rcvhwm (options e)) | None => sndhwm o end in
  let rcvhwm_ := match peer with Some e => total_hwm (rcvhwm o) (sndhwm (options e)) | None => rcvhwm o end in
  let conflate_ := conflates o in
  let peer_options := match peer with Some e => options e | None => options_default end in
  let! p := new_pair s (match peer with Some e => socket e | None => s end)
              (if conflate_ then -1 else sndhwm_) (if conflate_ then -1 else rcvhwm_) conflate_ in
  (if negb conflate_ then
     on_pair p (Pipe.set_hwms_boost (sndhwm peer_options) (rcvhwm peer_options) false ;;;
                Pipe.set_hwms_boost (sndhwm o) (rcvhwm o) true)
   else sret tt) ;;;
  match peer with
  | None =>
      send_routing_id p false (routing_id o) ;;;
      pend_connection addr_ (Endpoint s o) p
  | Some e =>
      (if recv_routing_id (options e) then send_routing_id p false (routing_id o) else sret tt) ;;;
      (if recv_routing_id o then send_routing_id p true (routing_id (options e)) else sret tt) ;;;
      send_command (socket e) (bind p)
  end ;;;
  attach_pipe s p false xs ;;;
  upd s (fun x => with_pipes (pipes x) (Mm.insert (inprocs x) addr_ (p, false)) x) ;;;
  upd s (with_doing Idle).

Fixpoint terminate_pipes (delay_ : bool) (l : list (nat * bool)) : stm world unit :=
  match l with
  | [] => sret tt
  | (p, e) :: l => on_pair p (Pipe.terminate false delay_ e) ;;; terminate_pipes delay_ l
  end.

(** [setsockopt], when the option is one of [options_t]: [o] is what it makes of the options.  A change of a
    watermark is passed on to the pipes and to their peers. *)
Definition ZMQ_SNDHWM : Z := 23.
Definition ZMQ_RCVHWM : Z := 24.

Definition is_watermark (option_ : Z) : bool := (option_ =? ZMQ_SNDHWM) || (option_ =? ZMQ_RCVHWM).

Fixpoint update_pipes (sndhwm_ rcvhwm_ : Z) (l : list (nat * bool)) : stm world unit :=
  match l with
  | [] => sret tt
  | (p, e) :: l =>
      on_pair p (Pipe.set_hwms rcvhwm_ sndhwm_ e ;;; Pipe.send_hwms_to_peer sndhwm_ rcvhwm_ e) ;;;
      update_pipes sndhwm_ rcvhwm_ l
  end.

Definition update_pipe_options (s : nat) (option_ : Z) : stm world unit :=
  if is_watermark option_ then
    let! x := this s in update_pipes (sndhwm (opts x)) (rcvhwm (opts x)) (pipes x)
  else sret tt.

Definition setsockopt (s : nat) (option_ : Z) (o : options_t) : stm world unit :=
  upd s (with_opts o) ;;; update_pipe_options s option_.

(** [term_endpoint], of zmq_unbind and zmq_disconnect. *)
Definition term_endpoint (s : nat) (addr_ : name) : stm world (option errno) :=
  let! rc := unregister_endpoint addr_ s in
  match rc with
  | None => sret None
  | Some _ =>
      let! x := this s in
      match Mm.with_key addr_ (Mm.items (inprocs x)) with
      | [] => sret (Some ENOENT)
      | range =>
          terminate_pipes true (map Mm.val range) ;;;
          upd s (fun x => with_pipes (pipes x) (Mm.erase_key (inprocs x) addr_) x) ;;;
          sret None
      end
  end.

(** [close] marks the socket; the reaper's [terminate] goes on with [process_term]. *)
Definition close (s : nat) : stm world unit := upd s (with_tag false).

Definition process_term (s : nat) : stm world unit :=
  unregister_endpoints s ;;;
  let! x := this s in
  terminate_pipes false (pipes x) ;;;
  upd s (fun x => with_term true (term_acks x + Z.of_nat (length (pipes x))) x).

(** [pipes.erase (pipe_)] of [array_t]: the last pipe takes the place.  A pipe that is not there has no place. *)
Definition erase_pipe (q : nat * bool) (l : list (nat * bool)) : outcome (list (nat * bool)) :=
  let* (i, _) := deref (list_find (fun r => r = q) l) in
  let* b := deref (last l) in
  Done (removelast (<[i := b]> l)).

(** [pipe_terminated], called when an end has gone. *)
Definition pipe_terminated (s : nat) (q : nat * bool) : stm world unit :=
  let! x := this s in
  let! m := match Mm.find_if (fun n => bool_decide (Mm.val n = q)) (inprocs x) with
            | Some it => let! e := slift (Mm.erase (inprocs x) (Some it)) in sret e.1
            | None => sret (inprocs x)
            end in
  let! l := slift (erase_pipe q (pipes x)) in
  upd s (with_pipes l m) ;;;
  if terminating x then
    sassert (0 <? term_acks x) ;;;
    upd s (fun x => with_term (terminating x) (term_acks x - 1) x)
  else sret tt.

(** A call on an end, or the processing of its next command; the sink is told when the end goes. *)
Definition pipe_call (p : nat) (e : bool) (a : action) : stm world unit := fun w =>
  let* c := deref (connections w !! p) in
  let n := length (Pipe.calls (ends c) e) in
  let* (w, _) := on_pair p (Pipe.step e a) w in
  let* c := deref (connections w !! p) in
  if bool_decide (Pipe.PipeTerminated ∈ drop n (Pipe.calls (ends c) e)) then pipe_terminated (owner c e) (p, e) w
  else Done (w, tt).

(** The next command of a socket. *)
Definition process_command (xattach : nat -> list action) (s : nat) : stm world unit :=
  let! x := this s in
  match mailbox x with
  | [] => sret tt
  | c :: l =>
      upd s (with_mailbox l) ;;;
      match c with
      | bind p => process_bind s p (xattach p) ;;; process_seqnum s
      | inproc_connected => process_seqnum s
      end
  end.

(** [check_term_acks] has found that nothing is left: the socket is deallocated. *)
Definition deallocate (s : nat) : stm world unit := fun w =>
  let* x := deref (sockets w !! s) in
  zmq_assert (terminating x && (processed_seqnum x =? sent_seqnum x) && (term_acks x =? 0))
    (Done (set_sockets (delete s (sockets w)) w, tt)).

(** ** Runs *)

(** What a pattern may do with an end when it is attached. *)
Definition pattern_call (a : action) : bool :=
  match a with
  | Pipe.CheckRead | Pipe.Read | Pipe.CheckWrite | Pipe.Write _ _ | Pipe.Rollback | Pipe.Flush
  | Pipe.SetNodelay | Pipe.Terminate _ _ => true
  | _ => false
  end.

Definition patterned (xs : list action) : Prop := Forall (fun a => pattern_call a = true) xs.

Definition attached (c : connection) (e : bool) : bool :=
  match Pipe.ends (ends c) e with Some p => Pipe.sink p | None => true end.

Definition is_pending (w : world) (p : nat) : Prop := exists n, n ∈ Mm.items (pending_connections w) /\ pair (Mm.val n) = p.

(** The calls that the thread of an end makes: the end is attached; while the pair is pending the
    connecting thread processes the commands of the second end too. *)
Definition may_call (w : world) (p : nat) (c : connection) (e : bool) (a : action) : Prop :=
  a <> Pipe.Hiccup /\ Pipe.allowed (ends c) e a /\
  (attached c e = true \/ e = true /\ is_pending w p /\ a = Pipe.Process).

(** The commands on their way to a socket, and the calls that have found it or wait for it: what its
    sequence numbers count. *)
Definition connects_to (s : nat) (d : activity) : Prop :=
  match d with Connecting _ (Some e) => socket e = s | _ => False end.

#[global] Instance connects_to_dec s d : Decision (connects_to s d).
Proof. unfold connects_to. destruct d as [| |? [e|]]; apply _. Defined.

Definition pending_of (s : nat) (l : list (Mm.node name pending_connection_t)) : nat :=
  length (filter (fun n => socket (endpoint (Mm.val n)) = s) l).

Definition coming (s : nat) (l : list (Mm.node name pending_connection_t)) (w : world) : nat :=
  (length (from_option mailbox [] (sockets w !! s)) + pending_of s l
   + base.size (filter (fun x => connects_to s x.2) (doing <$> sockets w)))%nat.

(** The critical sections of the calls, the processing of a command, a call on an end. *)
Inductive operation : Type :=
| Create (s : nat) (o : options_t)
| SetOptions (s : nat) (option_ : Z) (o : options_t)
| Register (s : nat) (addr_ : name)
| Bind (s : nat) (addr_ : name) (xattach : nat -> list action)
| Find (s : nat) (addr_ : name)
| Connect (s : nat) (addr_ : name) (peer : option endpoint_t) (xs : list action)
| TermEndpoint (s : nat) (addr_ : name)
| Close (s : nat)
| Term (s : nat)
| Command (s : nat) (xattach : nat -> list action)
| PipeCall (p : nat) (e : bool) (a : action)
| Deallocate (s : nat).

Definition socket_new (o : options_t) : socket_t := Socket o true 0 0 false 0 [] Mm.empty [] Idle.

Definition run (op : operation) : stm world unit :=
  match op with
  | Create s o => smod (fun w => set_sockets (<[s := socket_new o]> (sockets w)) w)
  | SetOptions s option_ o => setsockopt s option_ o
  | Register s addr_ => bind_register s addr_ ;;; sret tt
  | Bind s addr_ xattach => bind_pending xattach s addr_
  | Find s addr_ => connect_find s addr_
  | Connect s addr_ peer xs => connect_rest xs s addr_ peer
  | TermEndpoint s addr_ => term_endpoint s addr_ ;;; sret tt
  | Close s => close s
  | Term s => process_term s
  | Command s xattach => process_command xattach s
  | PipeCall p e a => pipe_call p e a
  | Deallocate s => deallocate s
  end.

(** When the code comes to an operation.  The options of the sockets do not conflate here, a watermark is not set while a pipe
    of the socket has acknowledged its termination (its peer may be gone: [PipeLive.hwm_announced_after_ack_crashes]), and
    fewer than 2^32 commands are on their way to a socket that is deallocated. *)
Definition plain (o : options_t) : Prop := conflates o = false.

Definition may (op : operation) (w : world) : Prop :=
  match op with
  | Create s o => sockets w !! s = None /\ plain o
  | SetOptions s option_ o => plain o /\ exists x, sockets w !! s = Some x /\ doing x = Idle /\ tag x = true
      /\ (is_watermark option_ = true -> forall p e c, (p, e) ∈ pipes x -> connections w !! p = Some c ->
            Pipe.acked (ends c) e = false)
  | Register s _ | Find s _ | TermEndpoint s _ | Close s =>
      exists x, sockets w !! s = Some x /\ doing x = Idle /\ tag x = true
  | Bind s addr_ xattach =>
      (forall p, patterned (xattach p)) /\ exists x, sockets w !! s = Some x /\ doing x = Binding addr_
  | Connect s addr_ peer xs => patterned xs /\ exists x, sockets w !! s = Some x /\ doing x = Connecting addr_ peer
  | Term s => exists x, sockets w !! s = Some x /\ tag x = false /\ terminating x = false
  | Command s xattach => (forall p, patterned (xattach p)) /\ exists x, sockets w !! s = Some x /\ doing x = Idle
  | PipeCall p e a => exists c, connections w !! p = Some c /\ may_call w p c e a
  | Deallocate s => exists x, sockets w !! s = Some x /\ terminating x = true /\ processed_seqnum x = sent_seqnum x
      /\ term_acks x = 0 /\ Z.of_nat (coming s (Mm.items (pending_connections w)) w) < 2 ^ 32
  end.

Definition step (w w' : world) : Prop := exists op, may op w /\ run op w = Done (w', tt).

Definition reachable (w : world) : Prop := rtc step world_new w.
End Inproc.
End Inproc.
