(* ===== verification/InprocOps.v ===== *)
(** * InprocOps: what the operations of [Inproc] do to a pair and to a world

    The pairs of [Inproc] are pairs of [Pipe] whose ends may lack their sinks: a pair is
    standing when both are there, travelling when the second end is on its way to the binder,
    waiting when nobody has bound the address.  The file has what every operation does when
    it is not stopped by an assertion, and when it is. *)

From stdpp Require Import relations.
From S2P Require Import Prelude Multimap Pipes Yqueue Ypipe Conflate Pipe PipeSteps PipeRuns PipeLive PipeJoin Inproc.

Module InprocOps.
Import Inproc PipeJoin.

Section Pairs.
Context {T : Type} `{RoutingIds T}.

Abbreviation pair_sys := (@Pipe.sys T).
Abbreviation action := (@Pipe.action T).
Abbreviation world := (@world T).

(** ** The shapes of a pair *)

Definition standing (t : pair_sys) : Prop := exists s0, reached s0 /\ like (fun _ => true) s0 t.
Definition travelling (t : pair_sys) : Prop :=
  exists s0, reached s0 /\ is_Some (Pipe.ends s0 true) /\ like negb s0 t.
Definition waiting (t : pair_sys) : Prop := exists rid s0, waits rid s0 /\ like negb s0 t.

(** An end that is attached. *)
Definition live (t : pair_sys) (e : bool) : Prop := exists p, Pipe.ends t e = Some p /\ Pipe.sink p = true.

Lemma like_some b (s t : pair_sys) e : like b s t -> is_Some (Pipe.ends t e) <-> is_Some (Pipe.ends s e).
Proof. intros L. rewrite (l_ends b s t L). destruct (b e); [done|]. apply fmap_is_Some. Qed.

Lemma like_live b (s t : pair_sys) e :
  like b s t -> PipeSteps.safe s -> live t e <-> b e = true /\ is_Some (Pipe.ends s e).
Proof.
  intros L S. unfold live. rewrite (l_ends b s t L). split.
  - intros (p & Ep & Hk). destruct (b e); [by rewrite Ep|]. destruct (Pipe.ends s e); [|done].
    simpl in Ep. injection Ep as <-. done.
  - intros [-> [p Ep]]. exists p. split; [done|]. by apply (PipeSteps.a_end s S e p Ep).
Qed.

Lemma like_allowed b (s t : pair_sys) e a : like b s t -> Pipe.allowed t e a -> Pipe.allowed s e a.
Proof.
  intros L Ha. pose proof (like_some b s t e L) as He. destruct a; simpl in *; try (by apply He); try done.
  unfold Pipe.acked in *. rewrite (l_ends b s t L) in Ha. destruct (b e); [done|]. by destruct (Pipe.ends s e).
Qed.

(** *** A call on an end that is attached *)

(** Whether the sink is told in a call that the end has gone. *)
Definition told (t t' : pair_sys) (e : bool) : Prop :=
  Pipe.PipeTerminated ∈ drop (length (Pipe.calls t e)) (Pipe.calls t' e).

(** What the call leaves attached. *)
Definition live_after (t t' : pair_sys) (e : bool) : Prop :=
  (told t t' e -> live t e) /\ forall e', live t' e' <-> live t e' /\ ~ (e' = e /\ told t t' e).

Lemma dead_idle (s s' : pair_sys) e r :
  PipeSteps.safe s -> Pipe.ends s e = None -> Pipe.step e Pipe.Process s = Done (s', r) -> s' = s.
Proof.
  intros S Ee E. pose proof (PipeSteps.a_phase _ S e) as Hph. rewrite Ee in Hph.
  apply PipeSteps.phases_two in Hph as [Hm _]. cbn [Pipe.step] in E. apply sbind_inv in E as (s1 & u & E & [= <- _]).
  unfold Pipe.process_next in E. rewrite Hm in E. by injection E as <- _.
Qed.

Lemma like_step b (s t : pair_sys) e a :
  like b s t -> reached s -> b e = true -> a <> Pipe.Hiccup -> Pipe.allowed t e a ->
  exists s' t' r, Pipe.step e a s = Done (s', r) /\ Pipe.step e a t = Done (t', r) /\ reached s' /\ like b s' t'
    /\ Pipe.ends s' (negb e) = Pipe.ends s (negb e) /\ live_after t t' e.
Proof.
  intros L Hr Hb Ha Hal. pose proof (like_allowed b s t e a L Hal) as Hals. pose proof (reached_safe s Hr) as S.
  destruct (reached_done s e a Hr Hals) as (s' & r & E). pose proof (reached_step s e a s' r Hr Ha Hals E) as Hr'.
  pose proof (PipeRuns.step_done e a s s' r S Hals E) as Ht. pose proof (rtc_peer e a s s' Ht) as Hp.
  destruct (r_same _ (step_respects e a) b s t s' r L E) as (t' & Et & L').
  { intros e'. destruct (PipeSteps.bool_cases e e') as [->| ->]; [by left|right]. by apply (step_calls_own e a s s' r). }
  exists s', t', r. do 5 (split; [done|]).
  assert (Htold : told t t' e <-> is_Some (Pipe.ends s e) /\ Pipe.ends s' e = None).
  { unfold told. rewrite (l_calls b s t L), (l_calls b s' t' L'). destruct (Pipe.ends s e) as [p|] eqn:Ep.
    - destruct (step_goes e a s s' r S Hals E) as (k & Ek & Hk); [by rewrite Ep|].
      rewrite Ek, drop_app_length, Hk. split; [intros ?; split; [by eexists|done]|by intros [_ ?]].
    - assert (s' = s) as ->.
      { assert (a = Pipe.Process) as ->; [|by apply (dead_idle s s' e r)].
        destruct a; try done; simpl in Hals; try (by destruct Hals; congruence).
        unfold Pipe.acked in Hals. by rewrite Ep in Hals. }
      rewrite drop_all. split; [by intros ?%elem_of_nil|by intros [[? ?] _]]. }
  split; [intros [? _]%Htold; by apply (like_live b s t e L S)|]. intros e'.
  rewrite (like_live b s' t' e' L' (reached_safe s' Hr')), (like_live b s t e' L S).
  destruct (PipeSteps.bool_cases e e') as [->| ->].
  2:{ rewrite Hp. split; [|tauto]. intros ?. split; [done|]. intros [? _]. by destruct e. }
  rewrite Htold. destruct (Pipe.ends s' e) as [p'|] eqn:Ep'.
  - split; [|intros [[_ _] _]; split; [done|by eexists]]. intros _. split; [split; [done|]|by intros [_ [_ ?]]].
    destruct (Pipe.ends s e) as [p|] eqn:Ep; [by eexists|]. exfalso.
    assert (a = Pipe.Process) as ->.
    { destruct a; try done; simpl in Hals; try (by destruct Hals; congruence). unfold Pipe.acked in Hals. by rewrite Ep in Hals. }
    rewrite (dead_idle s s' e r S Ep E) in Ep'. congruence.
  - split; [by intros [_ [? ?]]|]. intros [[_ ?] Hn]. exfalso. tauto.
Qed.

(** ** The operations on a world, one by one *)

Definition put (p : nat) (t : pair_sys) (w : world) : world :=
  set_connections (alter (fun c => Connection t (connector c) (bind_tid c)) p (connections w)) w.

Definition on_socket (s : nat) (f : socket_t -> socket_t) (w : world) : world := set_sockets (alter f s (sockets w)) w.

Lemma alter_some {A} (f : A -> A) (m : gmap nat A) k x : m !! k = Some x -> alter f k m = <[k := f x]> m.
Proof.
  intros E. apply map_eq. intros j. destruct (decide (k = j)) as [<-|Hne].
  - by rewrite lookup_alter_eq, lookup_insert_eq, E.
  - by rewrite lookup_alter_ne, lookup_insert_ne.
Qed.

Lemma alter_same {A} (f g : A -> A) (m : gmap nat A) k x : m !! k = Some x -> f x = g x -> alter f k m = alter g k m.
Proof. intros E Hfg. by rewrite !(alter_some _ m k x E), Hfg. Qed.

Lemma alter_twice {A} (f g : A -> A) (m : gmap nat A) k : alter f k (alter g k m) = alter (fun x => f (g x)) k m.
Proof.
  apply map_eq. intros j. destruct (decide (k = j)) as [<-|Hne].
  - rewrite !lookup_alter_eq. by destruct (m !! k).
  - by rewrite !lookup_alter_ne.
Qed.

Lemma on_pair_done {A} p c (m : stm pair_sys A) t a (w : world) :
  connections w !! p = Some c -> m (ends c) = Done (t, a) -> on_pair p m w = Done (put p t w, a).
Proof. intros Ec Em. unfold on_pair, put. rewrite Ec. simpl. rewrite Em. simpl. by rewrite (alter_some _ _ p c Ec). Qed.

Lemma on_pair_crash {A} p c (m : stm pair_sys A) w :
  connections w !! p = Some c -> m (ends c) = Crash -> on_pair p m w = Crash.
Proof. intros Ec Em. unfold on_pair. rewrite Ec. simpl. by rewrite Em. Qed.

Lemma socket_upd s x f (w : world) : sockets w !! s = Some x -> Inproc.upd s f w = Done (on_socket s f w, tt).
Proof. intros E. unfold Inproc.upd, on_socket. rewrite E. simpl. by rewrite (alter_some _ _ s x E). Qed.

Lemma this_done s x (w : world) : sockets w !! s = Some x -> Inproc.this s w = Done (w, x).
Proof. intros E. unfold Inproc.this. by rewrite E. Qed.

Lemma put_put p t t' w : put p t' (put p t w) = put p t' w.
Proof. unfold put, set_connections. simpl. f_equal. by rewrite alter_twice. Qed.

Lemma put_same p c (w : world) : connections w !! p = Some c -> put p (ends c) w = w.
Proof.
  intros E. unfold put. rewrite (alter_some _ _ p c E), insert_id by (by destruct c). by destruct w.
Qed.

Lemma put_at p t c w : connections w !! p = Some c -> connections (put p t w) !! p = Some (Connection t (connector c) (bind_tid c)).
Proof. intros E. simpl. by rewrite lookup_alter_eq, E. Qed.

Lemma socket_at s f x (w : world) : sockets w !! s = Some x -> sockets (on_socket s f w) !! s = Some (f x).
Proof. intros E. simpl. by rewrite lookup_alter_eq, E. Qed.

Lemma socket_other s s' f (w : world) : s <> s' -> sockets (on_socket s f w) !! s' = sockets w !! s'.
Proof. intros Hne. simpl. by rewrite lookup_alter_ne. Qed.

(** *** Attaching an end *)
Lemma pattern_owner (a : action) : pattern_call a = true -> owner_call a.
Proof. by destruct a. Qed.

Lemma xattach_runs (I : pair_sys -> Prop) b e :
  (forall s a, I s -> owner_call a -> exists s' r, Pipe.step e a s = Done (s', r) /\ I s') ->
  forall xs s t, like b s t -> I s -> patterned xs ->
  exists s' t', xattach_pipe e xs t = Done (t', tt) /\ like b s' t' /\ I s' /\ (xs = [] -> s' = s).
Proof.
  intros HI xs. induction xs as [|a xs IH]; intros s t L Is Hxs.
  - by exists s, t.
  - apply Forall_cons in Hxs as [Ha Hxs]. apply pattern_owner in Ha.
    destruct (HI s a Is Ha) as (s1 & r & E & I1). destruct (like_call b e a s s1 t r L Ha E) as (t1 & Et & L1).
    destruct (IH s1 t1 L1 I1 Hxs) as (s2 & t2 & E2 & L2 & I2 & _). exists s2, t2. split; [|done].
    cbn [xattach_pipe]. by rewrite (sbind_done _ _ _ _ _ Et).
Qed.

(** What attaching does to the socket. *)
Definition attaching (p : nat) (e : bool) (x : socket_t) : socket_t :=
  with_term (terminating x) (term_acks x + (if terminating x then 1 else 0)) (with_pipes (pipes x ++ [(p, e)]) (inprocs x) x).

Definition sinked (b : bool -> bool) (e : bool) : bool -> bool := fun e' => eqb e' e || b e'.

Lemma attach_spec (I : pair_sys -> Prop) b w s x p c e xs s0 :
  (forall s, I s -> reached s /\ is_Some (Pipe.ends s e)) ->
  (forall s a, I s -> owner_call a -> exists s' r, Pipe.step e a s = Done (s', r) /\ I s') ->
  sockets w !! s = Some x -> connections w !! p = Some c -> like b s0 (ends c) -> I s0 -> b e = false -> patterned xs ->
  exists s1 t1, attach_pipe s p e xs w = Done (put p t1 (on_socket s (attaching p e) w), tt)
    /\ like (sinked b e) s1 t1 /\ I s1 /\ (xs = [] -> terminating x = false -> s1 = s0).
Proof.
  intros HI1 HI2 Es Ec L Is Hb Hxs. destruct (HI1 s0 Is) as [Hr He].
  destruct (like_attach b e s0 (ends c) L (reached_safe s0 Hr) He Hb) as (t1 & E1 & L1).
  destruct (xattach_runs I (sinked b e) e HI2 xs s0 t1 L1 Is Hxs) as (s2 & t2 & E2 & L2 & I2 & Hxs2).
  unfold attach_pipe. rewrite (sbind_done _ _ _ _ _ (on_pair_done p c _ _ _ w Ec E1)).
  rewrite (sbind_done _ _ _ _ _ (socket_upd s x _ (put p t1 w) Es)).
  rewrite (sbind_done _ _ _ _ _ (on_pair_done p _ _ t2 tt (on_socket s _ (put p t1 w)) (put_at p t1 c w Ec) E2)).
  set (x1 := with_pipes (pipes x ++ [(p, e)]) (inprocs x) x).
  assert (E3 : sockets (put p t2 (on_socket s (fun x => with_pipes (pipes x ++ [(p, e)]) (inprocs x) x) (put p t1 w))) !! s = Some x1).
  { simpl. by rewrite lookup_alter_eq, Es. }
  assert (Hput : forall t f, put p t (on_socket s f (put p t1 w)) = put p t (on_socket s f w)).
  { intros t f. unfold put, on_socket, set_connections, set_sockets. simpl. f_equal. by rewrite alter_twice. }
  rewrite (sbind_done _ _ _ _ _ (this_done s x1 _ E3)). change (terminating x1) with (terminating x).
  destruct (terminating x) eqn:Et.
  - rewrite (sbind_done _ _ _ _ _ (socket_upd s x1 _ _ E3)).
    destruct (HI2 s2 (Pipe.Terminate false false) I2) as (s3 & r & E4 & I3); [done|].
    destruct (like_call _ e (Pipe.Terminate false false) s2 s3 t2 r L2) as (t3 & Et3 & L3); [done|done|].
    apply method_done in Et3 as ([] & Et3 & _).
    eexists s3, t3. split; [|split; [done|split; [done|congruence]]].
    erewrite on_pair_done; [|apply put_at; simpl; by apply put_at|exact Et3]. do 2 f_equal.
    unfold put, on_socket, set_connections, set_sockets. simpl. f_equal.
    + rewrite alter_twice. apply (alter_same _ _ _ s x Es). unfold attaching. simpl. by rewrite Et.
    + by rewrite !alter_twice.
  - exists s2, t2. split; [|split; [done|split; [done|auto]]]. unfold sret. rewrite Hput. do 2 f_equal.
    unfold put, on_socket, set_connections, set_sockets. simpl. f_equal. apply (alter_same _ _ _ s x Es). unfold attaching. rewrite Et, Z.add_0_r. unfold with_term. simpl. unfold with_pipes. simpl. by rewrite Et.
Qed.

(** *** Joining a pair *)

(** A pair with both ends. *)
Definition both (s : pair_sys) : Prop := reached s /\ is_Some (Pipe.ends s false) /\ is_Some (Pipe.ends s true).

Lemma both_end s e : both s -> is_Some (Pipe.ends s e).
Proof. intros (_ & ? & ?). by destruct e. Qed.

Lemma both_call e a s : both s -> owner_call a ->
  exists s' r, Pipe.step e a s = Done (s', r) /\ both s' /\ Pipe.ends s' (negb e) = Pipe.ends s (negb e).
Proof.
  intros Hs Ha. destruct (facing_call e (Pipe.ends s (negb e)) s a) as (s' & r & E & [Hr' Hh Hp]); [|done|].
  { split; [apply Hs|by apply both_end|done]. }
  exists s', r. split; [done|]. split; [|done]. split; [done|]. pose proof (both_end s (negb e) Hs) as Hn. rewrite <- Hp in Hn. by destruct e.
Qed.

(** A method of an end, on a pair whose sinks may be missing. *)
Lemma both_method {A} b e a (m : stm pair_sys A) (f : A -> Pipe.result) (s t : pair_sys) :
  Pipe.step e a = (let! x := m in sret (f x)) -> respects m -> owner_call a -> both s -> like b s t ->
  exists s' t' x, m s = Done (s', x) /\ m t = Done (t', x) /\ both s' /\ like b s' t'
    /\ Pipe.ends s' (negb e) = Pipe.ends s (negb e).
Proof.
  intros Hm Hresp Ha Hs L. destruct (both_call e a s Hs Ha) as (s' & r & E & Hs' & Hp).
  pose proof (owner_call_spared b e a s s' r Ha E) as Hsp. rewrite Hm in E.
  apply method_done in E as (x & E & _). destruct (r_same _ Hresp b s t s' x L E Hsp) as (t' & Et & L').
  by exists s', t', x.
Qed.

Lemma both_hwms b e i o (s t : pair_sys) : both s -> like b s t ->
  exists s' t', Pipe.set_hwms i o e s = Done (s', tt) /\ Pipe.set_hwms i o e t = Done (t', tt) /\ both s' /\ like b s' t'
    /\ (forall e', unsent e' s -> unsent e' s').
Proof.
  intros Hs L. destruct (both_method b e (Pipe.SetHwms i o) (Pipe.set_hwms i o e) (fun _ => Pipe.RUnit) s t)
    as (s' & t' & [] & E & Et & Hs' & L' & Hp); [done| |done..|].
  { by apply respects_upd. }
  exists s', t'. do 4 (split; [done|]). intros e' Hu. destruct (PipeSteps.bool_cases e e') as [->| ->]; [|by apply (unsent_ends _ s)].
  destruct Hu as (p & Ep & Hu). unfold Pipe.set_hwms, Pipe.upd in E. rewrite Ep in E. injection E as <-.
  eexists. split; [apply PipeRuns.upd_at_same|exact Hu].
Qed.

Lemma both_boost b e i o (s t : pair_sys) : both s -> like b s t ->
  exists s' t', Pipe.set_hwms_boost i o e s = Done (s', tt) /\ Pipe.set_hwms_boost i o e t = Done (t', tt) /\ both s' /\ like b s' t'
    /\ (forall e', unsent e' s -> unsent e' s').
Proof.
  intros Hs L. destruct (both_method b e (Pipe.SetHwmsBoost i o) (Pipe.set_hwms_boost i o e) (fun _ => Pipe.RUnit) s t)
    as (s' & t' & [] & E & Et & Hs' & L' & Hp); [done| |done..|].
  { by apply respects_upd. }
  exists s', t'. do 4 (split; [done|]). intros e' Hu. destruct (PipeSteps.bool_cases e e') as [->| ->]; [|by apply (unsent_ends _ s)].
  destruct Hu as (p & Ep & Hu). unfold Pipe.set_hwms_boost, Pipe.upd in E. rewrite Ep in E. injection E as <-.
  eexists. split; [apply PipeRuns.upd_at_same|exact Hu].
Qed.

Lemma both_join_hwms b bo co (s t : pair_sys) : both s -> like b s t ->
  exists s' t', join_hwms bo co t = Done (t', tt) /\ both s' /\ like b s' t' /\ (unsent true s -> unsent true s').
Proof.
  intros Hs L. unfold join_hwms. destruct (negb (conflates co)).
  - destruct (both_boost b false (sndhwm bo) (rcvhwm bo) s t Hs L) as (s1 & t1 & _ & E1 & H1 & L1 & U1).
    destruct (both_boost b true (sndhwm co) (rcvhwm co) s1 t1 H1 L1) as (s2 & t2 & _ & E2 & H2 & L2 & U2).
    destruct (both_hwms b false (rcvhwm co) (sndhwm co) s2 t2 H2 L2) as (s3 & t3 & _ & E3 & H3 & L3 & U3).
    destruct (both_hwms b true (rcvhwm bo) (sndhwm bo) s3 t3 H3 L3) as (s4 & t4 & _ & E4 & H4 & L4 & U4).
    exists s4, t4. rewrite (sbind_done _ _ _ _ _ E1), (sbind_done _ _ _ _ _ E2), (sbind_done _ _ _ _ _ E3). split_and!; auto.
  - destruct (both_hwms b false (-1) (-1) s t Hs L) as (s3 & t3 & _ & E3 & H3 & L3 & U3).
    destruct (both_hwms b true (-1) (-1) s3 t3 H3 L3) as (s4 & t4 & _ & E4 & H4 & L4 & U4).
    exists s4, t4. rewrite (sbind_done _ _ _ _ _ E3). split_and!; auto.
Qed.

(** The routing id is taken out of a pair that waits. *)
Lemma lone_drop b rid (s t : pair_sys) : reached s -> lone rid s -> like b s t ->
  exists s' t', (let! m := Pipe.read true in sassert (if m is Some _ then true else false)) t = Done (t', tt)
    /\ both s' /\ like b s' t' /\ (unsent true s -> unsent true s').
Proof.
  intros Hr W L. assert (Hs : both s).
  { destruct W. split; [done|]. split; by eexists. }
  destruct (lone_read rid s W) as (s1 & E1 & He).
  destruct (both_method b true Pipe.Read (Pipe.read true) Pipe.RMsg s t) as (s' & t' & x & E & Et & Hs' & L' & _);
    [done|apply respects_read|done..|].
  rewrite E1 in E. injection E as <- <-. exists s1, t'. rewrite (sbind_done _ _ _ _ _ Et). do 3 (split; [done|]).
  by apply unsent_ends.
Qed.

(** A routing id is sent through an end, or the assertion fails. *)
Definition rid_call (e : bool) (rid : list Z) : stm pair_sys unit :=
  let! written := Pipe.write false e (routing_id_msg rid) in sassert written ;;; Pipe.flush e.

Lemma both_rid b e rid (s t : pair_sys) : both s -> like b s t ->
  (exists s' t', rid_call e rid s = Done (s', tt) /\ rid_call e rid t = Done (t', tt) /\ both s' /\ like b s' t'
     /\ Pipe.ends s' (negb e) = Pipe.ends s (negb e))
  \/ (rid_call e rid t = Crash /\ ~ unsent e s).
Proof.
  intros Hs L. destruct (both_method b e (Pipe.Write false (routing_id_msg rid)) (Pipe.write false e (routing_id_msg rid)) Pipe.RBool s t)
    as (s1 & t1 & x & E1 & Et1 & H1 & L1 & P1); [done|apply respects_write|done..|].
  unfold rid_call. rewrite (sbind_done _ _ _ _ _ E1), (sbind_done _ _ _ _ _ Et1). destruct x.
  - left. destruct (both_method b e Pipe.Flush (Pipe.flush e) (fun _ => Pipe.RUnit) s1 t1) as (s2 & t2 & [] & E2 & Et2 & H2 & L2 & P2);
      [done|apply respects_flush|done..|].
    exists s2, t2. split; [exact E2|]. split; [exact Et2|]. split; [done|]. split; [done|congruence].
  - right. split; [done|]. intros Hu. destruct (unsent_write e rid s (reached_safe s (proj1 Hs)) Hu) as (s' & E & _). congruence.
Qed.

Definition incd (x : socket_t) : socket_t := with_seqnums (u32 (sent_seqnum x + 1)) (processed_seqnum x) x.
Definition processed (x : socket_t) : socket_t := with_seqnums (sent_seqnum x) (u64 (processed_seqnum x + 1)) x.
Definition pushing (c : command) (x : socket_t) : socket_t := with_mailbox (mailbox x ++ [c]) x.

Definition tidd (p tid_ : nat) (w : world) : world :=
  set_connections (alter (fun c => Connection (ends c) (connector c) tid_) p (connections w)) w.

Lemma set_tid_done p tid_ c (w : world) : connections w !! p = Some c -> set_tid p tid_ w = Done (tidd p tid_ w, tt).
Proof. intros E. unfold set_tid, tidd. rewrite E. simpl. by rewrite (alter_some _ _ p c E). Qed.

Lemma tidd_at p tid_ c (w : world) : connections w !! p = Some c ->
  connections (tidd p tid_ w) !! p = Some (Connection (ends c) (connector c) tid_).
Proof. intros E. simpl. by rewrite lookup_alter_eq, E. Qed.

(** The rest of [connect_inproc_sockets], when the watermarks are set. *)
Definition join_rest (bs : nat) (bo : options_t) (pc : pending_connection_t) (side_ : side) (xs : list action) : stm world unit :=
  match side_ with
  | bind_side =>
      process_bind bs (pair pc) xs ;;; process_seqnum bs ;;;
      send_command (socket (endpoint pc)) inproc_connected
  | connect_side => send_command bs (Inproc.bind (pair pc))
  end ;;;
  if recv_routing_id (options (endpoint pc)) then
    let! x := Inproc.this (socket (endpoint pc)) in
    if tag x then send_routing_id (pair pc) true (routing_id bo) else sret tt
  else sret tt.

Lemma join_first (w : world) bs bo pc side_ xs x c b s0 rid :
  sockets w !! bs = Some x -> connections w !! pair pc = Some c -> reached s0 -> lone rid s0 -> like b s0 (ends c) ->
  exists s1 t1, connect_inproc_sockets bs bo pc side_ xs w
      = join_rest bs bo pc side_ xs (put (pair pc) t1 (tidd (pair pc) bs (on_socket bs incd w)))
    /\ both s1 /\ like b s1 t1 /\ (unsent true s0 -> unsent true s1).
Proof.
  intros Es Ec Hr W L. set (p := pair pc).
  assert (Hs : both s0) by (destruct W; split; [done|split; by eexists]).
  set (w1 := on_socket bs incd w). assert (Ec1 : connections w1 !! p = Some c) by done.
  set (w2 := tidd p bs w1). assert (Ec2 : connections w2 !! p = Some (Connection (ends c) (connector c) bs)) by (by apply tidd_at).
  assert (Hdrop : exists s1 t1, (if negb (recv_routing_id bo) then drop_routing_id p else sret tt) w2 = Done (put p t1 w2, tt)
    /\ both s1 /\ like b s1 t1 /\ (unsent true s0 -> unsent true s1)).
  { destruct (negb (recv_routing_id bo)).
    - destruct (lone_drop b rid s0 (ends c) Hr W L) as (s1 & t1 & E & ? & ? & ?). exists s1, t1.
      unfold drop_routing_id. by rewrite (on_pair_done p _ _ t1 tt w2 Ec2 E).
    - exists s0, (ends c). by rewrite <- (put_same p _ w2 Ec2) at 1. }
  destruct Hdrop as (s1 & t1 & E1 & H1 & L1 & U1).
  destruct (both_join_hwms b bo (options (endpoint pc)) s1 t1 H1 L1) as (s2 & t2 & E2 & H2 & L2 & U2).
  exists s2, t2. split; [|by auto]. unfold connect_inproc_sockets. fold p.
  rewrite (sbind_done _ _ _ _ _ (socket_upd bs x incd w Es)). fold w1.
  rewrite (sbind_done _ _ _ _ _ (set_tid_done p bs c w1 Ec1)). fold w2.
  rewrite (sbind_done _ _ _ _ _ E1).
  erewrite sbind_done; [|apply (on_pair_done p _ _ t2 tt (put p t1 w2) (put_at p t1 _ w2 Ec2) E2)].
  by rewrite put_put.
Qed.

(** The last part: the routing id for the socket that connected. *)
Lemma join_last (w : world) bo pc c b s0 y :
  sockets w !! socket (endpoint pc) = Some y -> connections w !! pair pc = Some c -> both s0 -> like b s0 (ends c) ->
  let last : stm world unit := if recv_routing_id (options (endpoint pc)) then
      let! x := Inproc.this (socket (endpoint pc)) in
      if tag x then send_routing_id (pair pc) true (routing_id bo) else sret tt
    else sret tt in
  (exists s1 t1, last w = Done (put (pair pc) t1 w, tt) /\ both s1 /\ like b s1 t1)
  \/ (last w = Crash /\ recv_routing_id (options (endpoint pc)) = true /\ tag y = true /\ ~ unsent true s0).
Proof.
  intros Es Ec Hs L last. unfold last. destruct (recv_routing_id _).
  2:{ left. exists s0, (ends c). by rewrite <- (put_same _ _ w Ec) at 1. }
  rewrite (sbind_done _ _ _ _ _ (this_done _ y w Es)). destruct (tag y).
  2:{ left. exists s0, (ends c). by rewrite <- (put_same _ _ w Ec) at 1. }
  destruct (both_rid b true (routing_id bo) s0 (ends c) Hs L) as [(s1 & t1 & _ & E & H1 & L1 & _)|[E Hu]].
  - left. exists s1, t1. split; [|done]. by apply (on_pair_done _ c).
  - right. split; [|done]. by apply (on_pair_crash _ c).
Qed.

Lemma like_ext b b' (s t : pair_sys) : (forall e, b e = b' e) -> like b s t -> like b' s t.
Proof. intros Hb [L1 L2 L3 L4 L5 L6]. split; try done. intros e. by rewrite L1, Hb. Qed.

Lemma both_reached e s : both s -> reached s /\ is_Some (Pipe.ends s e).
Proof. intros Hs. split; [apply Hs|by apply both_end]. Qed.

Lemma both_step e s a : both s -> owner_call a -> exists s' r, Pipe.step e a s = Done (s', r) /\ both s'.
Proof. intros Hs Ha. destruct (both_call e a s Hs Ha) as (s' & r & E & Hs' & _). by exists s', r. Qed.

Lemma waits_both rid s : waits rid s -> both s.
Proof. intros [Hr _ []]. split; [done|]. split; by eexists. Qed.

Lemma waits_step rid s a : waits rid s -> owner_call a -> exists s' r, Pipe.step false a s = Done (s', r) /\ waits rid s'.
Proof.
  intros Hs Ha. apply waits_first; [done|by destruct a|]. apply owner_call_allowed; [done|]. by apply (both_end s false (waits_both rid s Hs)).
Qed.

(** What binding does to the sockets: the binder has one more end, and has processed a command; the socket that
    connected is sent one. *)
Definition bound (p : nat) (x : socket_t) : socket_t := processed (attaching p true (incd x)).

Lemma join_bind (w : world) bs bo pc xs x c y :
  sockets w !! bs = Some x -> terminating x = false -> connections w !! pair pc = Some c ->
  sockets w !! socket (endpoint pc) = Some y -> waiting (ends c) -> patterned xs ->
  (exists s1 t1, connect_inproc_sockets bs bo pc bind_side xs w
     = Done (put (pair pc) t1 (tidd (pair pc) bs
               (on_socket (socket (endpoint pc)) (pushing inproc_connected) (on_socket bs (bound (pair pc)) w))), tt)
     /\ both s1 /\ like (fun _ => true) s1 t1)
  \/ (connect_inproc_sockets bs bo pc bind_side xs w = Crash
     /\ recv_routing_id (options (endpoint pc)) = true /\ tag y = true
     /\ (xs = [] -> exists q, Pipe.ends (ends c) true = Some q /\ Pipe.state q <> Pipe.active)).
Proof.
  intros Es Ht Ec Ey (rid & s0 & W & L) Hxs. set (p := pair pc). set (peer := socket (endpoint pc)).
  destruct (join_first w bs bo pc bind_side xs x c negb s0 rid Es Ec (w_reached _ _ W) (w_lone _ _ W) L)
    as (s1 & t1 & -> & H1 & L1 & U1). fold p.
  set (w1 := put p t1 (tidd p bs (on_socket bs incd w))).
  assert (Ec1 : connections w1 !! p = Some (Connection t1 (connector c) bs)).
  { unfold w1. by erewrite put_at; [|apply tidd_at; exact Ec]. }
  assert (Es1 : sockets w1 !! bs = Some (incd x)) by (simpl; by rewrite lookup_alter_eq, Es).
  destruct (attach_spec both negb w1 bs (incd x) p _ true xs s1 (both_reached true) (both_step true) Es1 Ec1 L1 H1 eq_refl Hxs)
    as (s2 & t2 & E2 & L2 & H2 & Hnil).
  set (w2 := put p t2 (on_socket bs (attaching p true) w1)) in E2.
  assert (Es2 : sockets w2 !! bs = Some (attaching p true (incd x))) by (simpl; by rewrite lookup_alter_eq, lookup_alter_eq, Es).
  set (w3 := on_socket bs processed w2).
  assert (Ey3 : exists y3, sockets w3 !! peer = Some y3 /\ tag y3 = tag y).
  { fold peer in Ey. simpl. destruct (decide (bs = peer)) as [<-|Hne].
    - rewrite !lookup_alter_eq, Ey. by eexists.
    - rewrite !lookup_alter_ne, Ey by done. by eexists. }
  destruct Ey3 as (y3 & Ey3 & Hy3). set (w4 := on_socket peer (pushing inproc_connected) w3).
  assert (Ey4 : sockets w4 !! peer = Some (pushing inproc_connected y3)) by (by apply socket_at).
  assert (Ec4 : connections w4 !! p = Some (Connection t2 (connector c) bs)).
  { change (connections w4) with (connections w2). unfold w2. by erewrite put_at; [|exact Ec1]. }
  assert (Hjoin : join_rest bs bo pc bind_side xs w1 = (if recv_routing_id (options (endpoint pc)) then
      let! x := Inproc.this peer in if tag x then send_routing_id p true (routing_id bo) else sret tt else sret tt) w4).
  { unfold join_rest. fold p peer. erewrite sbind_done; [reflexivity|].
    unfold process_bind. rewrite (sbind_done _ _ _ _ _ E2). unfold process_seqnum.
    rewrite (sbind_done _ _ _ _ _ (socket_upd bs _ processed w2 Es2)). unfold send_command.
    by rewrite (socket_upd peer y3 _ w3 Ey3). }
  rewrite Hjoin.
  assert (L2' : like (fun _ => true) s2 (ends (Connection t2 (connector c) bs))) by (apply (like_ext (sinked negb true)); [by intros []|done]).
  destruct (join_last w4 bo pc _ _ s2 _ Ey4 Ec4 H2 L2') as [(s5 & t5 & E5 & H5 & L5)|(E5 & Hrecv & Htag & Hu)].
  - left. exists s5, t5. split; [|done]. etransitivity; [exact E5|]. do 2 f_equal. unfold w4, w3, w2, w1, bound.
    unfold put, tidd, on_socket, set_connections, set_sockets. simpl. rewrite !alter_twice. f_equal.
  - right. split; [exact E5|]. split; [done|]. split; [by rewrite <- Hy3|]. intros ->.
    rewrite (Hnil eq_refl Ht) in Hu. pose proof (w_lone _ _ W) as Wl. inversion Wl as [p0 q0 o0 y0 z0 l0 Wp Wq Wsp Wsq].
    exists (Pipe.set_sink false q0). split; [by rewrite (l_ends negb s0 (ends c) L), Wq|].
    intros Hs. apply Hu, U1. by apply (lone_unsent rid s0 q0).
Qed.
(** Somebody has bound the address between the two looks: the pair is sent to the binder. *)
Lemma join_connect (w : world) bs bo pc x y c s0 rid :
  sockets w !! bs = Some x -> sockets w !! socket (endpoint pc) = Some y -> connections w !! pair pc = Some c ->
  waits rid s0 -> unsent true s0 -> like (fun _ => false) s0 (ends c) ->
  exists s1 t1, connect_inproc_sockets bs bo pc connect_side [] w
     = Done (put (pair pc) t1 (tidd (pair pc) bs (on_socket bs (fun x => pushing (Inproc.bind (pair pc)) (incd x)) w)), tt)
     /\ both s1 /\ like (fun _ => false) s1 t1.
Proof.
  intros Es Ey Ec W Hu L. set (p := pair pc).
  destruct (join_first w bs bo pc connect_side [] x c _ s0 rid Es Ec (w_reached _ _ W) (w_lone _ _ W) L)
    as (s1 & t1 & -> & H1 & L1 & U1). fold p.
  set (w1 := put p t1 (tidd p bs (on_socket bs incd w))).
  assert (Ec1 : connections w1 !! p = Some (Connection t1 (connector c) bs)).
  { unfold w1. by erewrite put_at; [|apply tidd_at; exact Ec]. }
  assert (Es1 : sockets w1 !! bs = Some (incd x)) by (by apply (socket_at bs incd x w)).
  set (w2 := on_socket bs (pushing (Inproc.bind p)) w1).
  assert (Ey2 : exists y2, sockets w2 !! socket (endpoint pc) = Some y2).
  { simpl. destruct (decide (bs = socket (endpoint pc))) as [Heq|Hne].
    - rewrite <- Heq, !lookup_alter_eq, Es. by eexists.
    - rewrite !lookup_alter_ne, Ey by done. by eexists. }
  destruct Ey2 as (y2 & Ey2).
  unfold join_rest. fold p. unfold send_command. erewrite sbind_done; [|exact (socket_upd bs _ _ w1 Es1)]. fold w2.
  destruct (join_last w2 bo pc _ _ s1 y2 Ey2 Ec1 H1 L1) as [(s5 & t5 & E5 & H5 & L5)|(_ & _ & _ & Hn)]; [|by destruct Hn; auto].
  exists s5, t5. split; [|done]. etransitivity; [exact E5|]. do 2 f_equal. unfold w2, w1.
  unfold put, tidd, on_socket, set_connections, set_sockets. simpl. rewrite !alter_twice. f_equal.
Qed.

Lemma both_travelling s t : both s -> like negb s t -> travelling t /\ live t false.
Proof.
  intros Hs L. split; [exists s; split; [apply Hs|by split; [apply (both_end s true)|]]|].
  apply (like_live negb s t false L (reached_safe s (proj1 Hs))). split; [done|by apply (both_end s false)].
Qed.

(** *** A new pair *)
Lemma fresh_pair h0 h1 i0 o0 i1 o1 :
  exists s1 s2 t2, Pipe.set_hwms_boost i0 o0 false (PipeRuns.started h0 h1) = Done (s1, tt)
    /\ Pipe.set_hwms_boost i1 o1 true s1 = Done (s2, tt)
    /\ (Pipe.set_hwms_boost i0 o0 false ;;; Pipe.set_hwms_boost i1 o1 true) (Pipe.pipepair h0 h1 false false) = Done (t2, tt)
    /\ both s2 /\ like (fun _ => false) s2 t2 /\ unsent false s2 /\ unsent true s2.
Proof.
  assert (Hb : both (PipeRuns.started h0 h1)) by (split; [apply fresh_reached|split; by eexists]).
  destruct (both_boost _ false i0 o0 _ _ Hb (fresh_like h0 h1)) as (s1 & t1 & E1 & Et1 & H1 & L1 & U1).
  destruct (both_boost _ true i1 o1 _ _ H1 L1) as (s2 & t2 & E2 & Et2 & H2 & L2 & U2).
  exists s1, s2, t2. rewrite (sbind_done _ _ _ _ _ Et1). split_and!; try done; apply U2, U1; by eexists.
Qed.

Lemma rid_maybe (c : bool) b e rid (s t : pair_sys) : both s -> like b s t -> unsent e s ->
  exists s' t', (if c then rid_call e rid else sret tt) t = Done (t', tt) /\ both s' /\ like b s' t'
    /\ Pipe.ends s' (negb e) = Pipe.ends s (negb e).
Proof.
  intros Hs L Hu. destruct c; [|by exists s, t].
  destruct (both_rid b e rid s t Hs L) as [(s' & t' & _ & E & ?)|[_ Hn]]; [|done]. by exists s', t'.
Qed.

Lemma fresh_rid h0 h1 i0 o0 i1 o1 rid s1 s2 t2 b :
  Pipe.set_hwms_boost i0 o0 false (PipeRuns.started h0 h1) = Done (s1, tt) ->
  Pipe.set_hwms_boost i1 o1 true s1 = Done (s2, tt) -> both s2 -> like b s2 t2 -> unsent false s2 -> unsent true s2 ->
  exists s3 t3, rid_call false rid t2 = Done (t3, tt) /\ waits rid s3 /\ unsent true s3 /\ like b s3 t3.
Proof.
  intros E1 E2 H2 L2 U0 U1. destruct (both_rid b false rid s2 t2 H2 L2) as [(s3 & t3 & E3 & Et3 & H3 & L3 & P3)|[_ Hn]]; [|done].
  exists s3, t3. split; [done|]. pose proof E3 as E3'. unfold rid_call in E3'.
  apply sbind_inv in E3' as (s2' & wr & Ew & E3'). destruct wr; [|done]. change (Pipe.flush false s2' = Done (s3, tt)) in E3'.
  destruct (fresh_waits h0 h1 i0 o0 i1 o1 rid s1 s2 s2' s3 E1 E2 Ew E3') as [Hl Hc].
  split; [split; [apply H3|done|done]|]. split; [by apply (unsent_ends _ s2)|done].
Qed.

(** *** The end of a connect *)

Definition linked (addr_ : list Z) (p : nat) (x : socket_t) : socket_t :=
  with_doing Idle (with_pipes (pipes x ++ [(p, false)]) (Mm.insert (inprocs x) addr_ (p, false)) x).

Definition connect_tail (xs : list action) (s : nat) (addr_ : list Z) (p : nat) : stm world unit :=
  attach_pipe s p false xs ;;;
  Inproc.upd s (fun x => with_pipes (pipes x) (Mm.insert (inprocs x) addr_ (p, false)) x) ;;;
  Inproc.upd s (with_doing Idle).

Lemma tail_spec (I : pair_sys -> Prop) xs s addr_ p (w : world) x c s0 :
  (forall s, I s -> reached s /\ is_Some (Pipe.ends s false)) ->
  (forall s a, I s -> owner_call a -> exists s' r, Pipe.step false a s = Done (s', r) /\ I s') ->
  sockets w !! s = Some x -> terminating x = false -> connections w !! p = Some c ->
  like (fun _ => false) s0 (ends c) -> I s0 -> patterned xs ->
  exists s1 t1, connect_tail xs s addr_ p w = Done (put p t1 (on_socket s (linked addr_ p) w), tt)
    /\ like negb s1 t1 /\ I s1.
Proof.
  intros HI1 HI2 Es Ht Ec L Is Hxs.
  destruct (attach_spec I (fun _ => false) w s x p c false xs s0 HI1 HI2 Es Ec L Is eq_refl Hxs) as (s1 & t1 & E1 & L1 & I1 & _).
  exists s1, t1. split; [|split; [|done]].
  2:{ apply (like_ext (sinked (fun _ => false) false)); [by intros []|done]. }
  unfold connect_tail. rewrite (sbind_done _ _ _ _ _ E1).
  erewrite sbind_done; [|by apply (socket_upd s (attaching p false x)), (socket_at s (attaching p false) x w)].
  erewrite socket_upd; [|apply socket_at; apply (socket_at s (attaching p false) x w); done].
  do 2 f_equal. unfold put, on_socket, set_connections, set_sockets. simpl. rewrite !alter_twice. f_equal.
  apply (alter_same _ _ _ s x Es). unfold linked, attaching. rewrite Ht, Z.add_0_r. unfold with_term, with_pipes, with_doing. simpl.
  by rewrite Ht.
Qed.

Definition opened (s tid_ : nat) (t : pair_sys) (w : world) : world :=
  World (endpoints w) (pending_connections w) (sockets w) (<[next_connection w := Connection t s tid_]> (connections w))
    (S (next_connection w)).

Lemma put_opened s tid_ t t' (w : world) : put (next_connection w) t' (opened s tid_ t w) = opened s tid_ t' w.
Proof.
  unfold put, opened, set_connections. simpl. f_equal. apply map_eq. intros j.
  destruct (decide (next_connection w = j)) as [<-|Hne].
  - by rewrite lookup_alter_eq, !lookup_insert_eq.
  - by rewrite lookup_alter_ne, !lookup_insert_ne.
Qed.

Lemma tidd_opened s tid_ tid' t (w : world) : tidd (next_connection w) tid' (opened s tid_ t w) = opened s tid' t w.
Proof.
  unfold tidd, opened, set_connections. simpl. f_equal. apply map_eq. intros j.
  destruct (decide (next_connection w = j)) as [<-|Hne].
  - by rewrite lookup_alter_eq, !lookup_insert_eq.
  - by rewrite lookup_alter_ne, !lookup_insert_ne.
Qed.

Lemma opened_at s tid_ t (w : world) : connections (opened s tid_ t w) !! next_connection w = Some (Connection t s tid_).
Proof. simpl. by rewrite lookup_insert_eq. Qed.

Lemma opened_run {A} s tid_ t t' a (m : stm pair_sys A) (w : world) :
  m t = Done (t', a) -> on_pair (next_connection w) m (opened s tid_ t w) = Done (opened s tid_ t' w, a).
Proof. intros E. by rewrite (on_pair_done _ _ m t' a _ (opened_at s tid_ t w) E), put_opened. Qed.

Section Connect.
Context (xs : list action) (s : nat) (addr_ : list Z) (w : world) (x : socket_t).
Hypothesis Es : sockets w !! s = Some x.
Hypothesis Hplain : plain (opts x).
Hypothesis Ht : terminating x = false.
Hypothesis Hxs : patterned xs.

(** The peer was found: the second end goes to it. *)
Lemma connect_found e y : sockets w !! socket e = Some y ->
  exists t, connect_rest xs s addr_ (Some e) w
    = Done (on_socket s (linked addr_ (next_connection w))
             (on_socket (socket e) (pushing (Inproc.bind (next_connection w))) (opened s (socket e) t w)), tt)
    /\ travelling t /\ live t false.
Proof.
  intros Ey. unfold connect_rest. rewrite (sbind_done _ _ _ _ _ (this_done s x w Es)), Hplain. cbn [negb].
  match goal with |- context [new_pair s (socket e) ?a ?b false] => set (h0 := a); set (h1 := b) end.
  set (p := next_connection w).
  destruct (fresh_pair h0 h1 (sndhwm (options e)) (rcvhwm (options e)) (sndhwm (opts x)) (rcvhwm (opts x)))
    as (s1 & s2 & t2 & _ & _ & E2 & H2 & L2 & U0 & U1).
  erewrite (sbind_done (new_pair s (socket e) h0 h1 false) _ w); [|reflexivity]. fold p.
  erewrite sbind_done; [|exact (opened_run s (socket e) _ t2 tt _ w E2)].
  destruct (rid_maybe (recv_routing_id (options e)) _ false (routing_id (opts x)) s2 t2 H2 L2 U0) as (s3 & t3 & E3 & H3 & L3 & P3).
  destruct (rid_maybe (recv_routing_id (opts x)) _ true (routing_id (options e)) s3 t3 H3 L3) as (s4 & t4 & E4 & H4 & L4 & P4).
  { by apply (unsent_ends true s2). }
  destruct (tail_spec both xs s addr_ p (on_socket (socket e) (pushing (Inproc.bind p)) (opened s (socket e) t4 w))
    (if decide (socket e = s) then pushing (Inproc.bind p) x else x) (Connection t4 s (socket e)) s4 (both_reached false) (both_step false))
    as (s5 & t5 & E5 & L5 & H5).
  1:{ destruct (decide (socket e = s)) as [<-|Hne]; [by apply socket_at|]. by rewrite socket_other. }
  1:{ by destruct (decide (socket e = s)). }
  1:{ apply opened_at. }
  1-3: done.
  exists t5. split; [|by apply (both_travelling s5)].
  assert (E34 : ((if recv_routing_id (options e) then send_routing_id p false (routing_id (opts x)) else sret tt) ;;;
      (if recv_routing_id (opts x) then send_routing_id p true (routing_id (options e)) else sret tt) ;;;
      send_command (socket e) (Inproc.bind p)) (opened s (socket e) t2 w)
    = Done (on_socket (socket e) (pushing (Inproc.bind p)) (opened s (socket e) t4 w), tt)).
  { erewrite sbind_done.
    2:{ destruct (recv_routing_id (options e)); [exact (opened_run s (socket e) t2 t3 tt _ w E3)|injection E3 as ->; reflexivity]. }
    erewrite sbind_done.
    2:{ destruct (recv_routing_id (opts x)); [exact (opened_run s (socket e) t3 t4 tt _ w E4)|injection E4 as ->; reflexivity]. }
    unfold send_command. by erewrite socket_upd. }
  rewrite (sbind_done _ _ _ _ _ E34). etransitivity; [exact E5|]. do 2 f_equal.
  rewrite <- (put_opened s (socket e) t4 t5 w). reflexivity.
Qed.

(** The peer was not found: the routing id is sent before the second look at the table. *)
Lemma connect_alone : exists s3 t3,
  connect_rest xs s addr_ None w
    = (pend_connection addr_ (Endpoint s (opts x)) (next_connection w) ;;; connect_tail xs s addr_ (next_connection w))
        (opened s s t3 w)
  /\ waits (routing_id (opts x)) s3 /\ unsent true s3 /\ like (fun _ => false) s3 t3.
Proof.
  unfold connect_rest. rewrite (sbind_done _ _ _ _ _ (this_done s x w Es)), Hplain. cbn [negb].
  set (p := next_connection w). set (h0 := sndhwm (opts x)). set (h1 := rcvhwm (opts x)).
  destruct (fresh_pair h0 h1 (sndhwm options_default) (rcvhwm options_default) h0 h1)
    as (s1 & s2 & t2 & E0 & E1 & E2 & H2 & L2 & U0 & U1).
  erewrite (sbind_done (new_pair s s h0 h1 false) _ w); [|reflexivity]. fold p.
  erewrite sbind_done; [|exact (opened_run s s _ t2 tt _ w E2)].
  destruct (fresh_rid h0 h1 _ _ _ _ (routing_id (opts x)) s1 s2 t2 _ E0 E1 H2 L2 U0 U1) as (s3 & t3 & E3 & W3 & U3 & L3).
  exists s3, t3. split; [|done]. unfold sbind at 1. rewrite (sbind_done _ _ _ _ _ (opened_run s s t2 t3 tt _ w E3)). reflexivity.
Qed.

(** Nobody has bound the address: the connection is pending. *)
Lemma connect_pends : endpoints w !! addr_ = None ->
  exists t, connect_rest xs s addr_ None w
    = Done (on_socket s (linked addr_ (next_connection w))
             (set_pending (Mm.insert (pending_connections w) addr_ (PendingConnection (Endpoint s (opts x)) (next_connection w)))
               (on_socket s incd (opened s s t w))), tt)
    /\ waiting t.
Proof.
  intros Ha. destruct connect_alone as (s3 & t3 & -> & W3 & U3 & L3). set (p := next_connection w).
  set (w1 := set_pending (Mm.insert (pending_connections w) addr_ (PendingConnection (Endpoint s (opts x)) p))
               (on_socket s incd (opened s s t3 w))).
  destruct (tail_spec (waits (routing_id (opts x))) xs s addr_ p w1 (incd x) (Connection t3 s s) s3)
    as (s5 & t5 & E5 & L5 & H5).
  1:{ intros s' W'. by apply both_reached, (waits_both (routing_id (opts x))). }
  1:{ intros s' a W' Ha'. by apply (waits_step _ s' a). }
  1:{ by apply (socket_at s incd x (opened s s t3 w)). }
  1:{ done. }
  1:{ apply opened_at. }
  1-3: done.
  exists t5. split; [|by exists (routing_id (opts x)), s5].
  erewrite sbind_done.
  2:{ unfold pend_connection. change (endpoints (opened s s t3 w)) with (endpoints w). rewrite Ha.
      unfold inc_seqnum. rewrite (sbind_done _ _ _ _ _ (socket_upd s x incd (opened s s t3 w) Es)). reflexivity. }
  etransitivity; [exact E5|]. do 2 f_equal. rewrite <- (put_opened s s t3 t5 w). reflexivity.
Qed.

(** Somebody has bound the address in between. *)
Lemma connect_late e y : endpoints w !! addr_ = Some e -> sockets w !! socket e = Some y ->
  exists t, connect_rest xs s addr_ None w
    = Done (on_socket s (linked addr_ (next_connection w))
             (on_socket (socket e) (fun x => pushing (Inproc.bind (next_connection w)) (incd x)) (opened s (socket e) t w)), tt)
    /\ travelling t /\ live t false.
Proof.
  intros Ha Ey. destruct connect_alone as (s3 & t3 & -> & W3 & U3 & L3). set (p := next_connection w).
  destruct (join_connect (opened s s t3 w) (socket e) (options e) (PendingConnection (Endpoint s (opts x)) p) y x
    (Connection t3 s s) s3 _ Ey Es (opened_at s s t3 w) W3 U3 L3) as (s4 & t4 & E4 & H4 & L4). simpl pair in E4.
  destruct (tail_spec both xs s addr_ p (on_socket (socket e) (fun x => pushing (Inproc.bind p) (incd x)) (opened s (socket e) t4 w))
    (if decide (socket e = s) then pushing (Inproc.bind p) (incd x) else x) (Connection t4 s (socket e)) s4
    (both_reached false) (both_step false)) as (s5 & t5 & E5 & L5 & H5).
  1:{ destruct (decide (socket e = s)) as [<-|Hne]; [by apply (socket_at (socket e) (fun x => pushing (Inproc.bind p) (incd x)))|].
      by rewrite socket_other. }
  1:{ by destruct (decide (socket e = s)). }
  1:{ apply opened_at. }
  1-3: done.
  exists t5. split; [|by apply (both_travelling s5)].
  assert (Ep : pend_connection addr_ (Endpoint s (opts x)) p (opened s s t3 w)
    = Done (on_socket (socket e) (fun x => pushing (Inproc.bind p) (incd x)) (opened s (socket e) t4 w), tt)).
  { unfold pend_connection. change (endpoints (opened s s t3 w)) with (endpoints w). rewrite Ha.
    etransitivity; [exact E4|]. do 2 f_equal. unfold p.
    rewrite <- (put_opened s (socket e) t3 t4 w), <- (tidd_opened s s (socket e) t3 w). reflexivity. }
  rewrite (sbind_done _ _ _ _ _ Ep). etransitivity; [exact E5|]. do 2 f_equal.
  rewrite <- (put_opened s (socket e) t4 t5 w). reflexivity.
Qed.
End Connect.

(** *** Calls on an end, by the shape of its pair *)

Inductive place : Type := Standing | Travelling | Waiting.

Definition shape (k : place) (t : pair_sys) : Prop :=
  match k with Standing => standing t | Travelling => travelling t | Waiting => waiting t end.

Lemma waiting_lives t : waiting t -> live t false /\ ~ live t true /\ is_Some (Pipe.ends t true).
Proof.
  intros (rid & s & W & L). pose proof (waits_both rid s W) as Hs. pose proof (reached_safe s (proj1 Hs)) as S.
  rewrite !(like_live negb s t _ L S), (like_some negb s t true L). split; [|split; [by intros []|by apply both_end]].
  split; [done|by apply both_end].
Qed.

Lemma travelling_lives t : travelling t -> ~ live t true /\ is_Some (Pipe.ends t true).
Proof.
  intros (s & Hr & He & L). rewrite (like_live negb s t _ L (reached_safe s Hr)), (like_some negb s t true L).
  split; [by intros []|done].
Qed.

(** An end that is attached, or gone. *)
Lemma attached_shape k c e : shape k (ends c) -> attached c e = true -> k = Standing \/ e = false.
Proof.
  intros Hk Ha. destruct e; [|by right]. left. unfold attached in Ha.
  assert (Hn : k <> Standing -> ~ live (ends c) true /\ is_Some (Pipe.ends (ends c) true)).
  { intros Hne. destruct k; [done|by apply travelling_lives|apply waiting_lives, Hk]. }
  destruct k; [done|..]; destruct Hn as [Hn [p Ep]]; try done; destruct Hn; exists p; by rewrite Ep in Ha.
Qed.

Lemma shape_step k t e a : shape k t -> k = Standing \/ e = false -> a <> Pipe.Hiccup -> Pipe.allowed t e a ->
  exists t' r, Pipe.step e a t = Done (t', r) /\ shape k t' /\ live_after t t' e.
Proof.
  intros Hk He Ha Hal. destruct k; simpl in *.
  - destruct Hk as (s & Hr & L). destruct (like_step _ s t e a L Hr eq_refl Ha Hal) as (s' & t' & r & _ & E & Hr' & L' & _ & Hl).
    exists t', r. split; [done|]. split; [by exists s'|done].
  - destruct He as [| ->]; [done|]. destruct Hk as (s & Hr & He & L).
    destruct (like_step _ s t false a L Hr eq_refl Ha Hal) as (s' & t' & r & _ & E & Hr' & L' & Hp & Hl).
    exists t', r. split; [done|]. split; [|done]. exists s'. split; [done|]. split; [|done]. simpl in Hp. by rewrite Hp.
  - destruct He as [| ->]; [done|]. destruct Hk as (rid & s & W & L).
    destruct (like_step _ s t false a L (w_reached _ _ W) eq_refl Ha Hal) as (s' & t' & r & E & Et & Hr' & L' & _ & Hl).
    exists t', r. split; [done|]. split; [|done].
    destruct (waits_first rid s a W Ha (like_allowed _ s t false a L Hal)) as (s1 & r1 & E1 & W1).
    rewrite E in E1. injection E1 as <- <-. by exists rid, s'.
Qed.

(** A pair that waits: the second end processes the commands of the first one. *)
Lemma waiting_process t : waiting t ->
  exists t', Pipe.step true Pipe.Process t = Done (t', Pipe.RUnit) /\ waiting t' /\ live_after t t' true /\ ~ told t t' true.
Proof.
  intros Hw. pose proof Hw as (rid & s & W & L). destruct (waits_process rid s W) as (s' & E & W').
  destruct (r_same _ (step_respects true Pipe.Process) negb s t s' Pipe.RUnit L E) as (t' & Et & L').
  { intros []; [right|by left]. by rewrite (w_calls _ _ W), (w_calls _ _ W'). }
  assert (Hw' : waiting t') by (by exists rid, s'). exists t'. split; [done|]. split; [done|].
  assert (Hn : ~ told t t' true).
  { unfold told. rewrite (l_calls _ _ _ L'), (w_calls _ _ W'). rewrite drop_nil. by intros ?%elem_of_nil. }
  split; [|done]. split; [done|]. intros e'. destruct (waiting_lives t Hw) as (H1 & H2 & _), (waiting_lives t' Hw') as (H1' & H2' & _).
  destruct e'; tauto.
Qed.

Lemma terminate_step k t e d : shape k t -> live t e ->
  exists t', Pipe.terminate false d e t = Done (t', tt) /\ shape k t' /\ forall e', live t' e' <-> live t e'.
Proof.
  intros Hk Hl. assert (Hp : is_Some (Pipe.ends t e)) by (destruct Hl as (p & ? & _); by exists p).
  assert (He : k = Standing \/ e = false).
  { destruct k, e; try (by left); try (by right); exfalso; [apply (travelling_lives t)|apply (waiting_lives t)]; done. }
  destruct (shape_step k t e (Pipe.Terminate false d) Hk He) as (t' & r & E & Hk' & _ & Hl'); [done|done|].
  pose proof (step_calls_none e (Pipe.Terminate false d) ltac:(done) t t' r e E) as Hc.
  apply method_done in E as ([] & E & _). exists t'. split; [done|]. split; [done|]. intros e'. rewrite (Hl' e').
  assert (~ told t t' e); [|tauto]. unfold told. rewrite Hc by tauto. rewrite drop_all. by intros ?%elem_of_nil.
Qed.

(** New watermarks for an end, and for its peer. *)
Lemma hwms_step k t e i o : shape k t -> live t e -> Pipe.acked t e = false ->
  exists t', (Pipe.set_hwms i o e ;;; Pipe.send_hwms_to_peer o i e) t = Done (t', tt) /\ shape k t'
    /\ (forall e', live t' e' <-> live t e') /\ forall e', Pipe.acked t' e' = Pipe.acked t e'.
Proof.
  intros Hk Hl Ha. assert (Hp : is_Some (Pipe.ends t e)) by (destruct Hl as (p & ? & _); by exists p).
  assert (He : k = Standing \/ e = false).
  { destruct k, e; try (by left); try (by right); exfalso; [apply (travelling_lives t)|apply (waiting_lives t)]; done. }
  assert (Hquiet : forall (a : action) t1 t2 r, a <> Pipe.Process -> Pipe.step e a t1 = Done (t2, r) ->
    live_after t1 t2 e -> forall e', live t2 e' <-> live t1 e').
  { intros a t1 t2 r Hn E [_ Hl1] e'. rewrite (Hl1 e'). pose proof (step_calls_none e a Hn t1 t2 r e E) as Hc.
    assert (~ told t1 t2 e); [|tauto]. unfold told. rewrite Hc by tauto. rewrite drop_all. by intros ?%elem_of_nil. }
  destruct (shape_step k t e (Pipe.SetHwms i o) Hk He) as (t1 & r1 & E1 & Hk1 & Hl1); [done|done|].
  pose proof (Hquiet (Pipe.SetHwms i o) t t1 r1 ltac:(done) E1 Hl1) as Hq1.
  apply method_done in E1 as ([] & E1 & _).
  assert (Ha1 : forall e', Pipe.acked t1 e' = Pipe.acked t e').
  { unfold Pipe.set_hwms, Pipe.upd in E1. destruct Hp as [p Ep]. rewrite Ep in E1. injection E1 as <-. intros e'.
    unfold Pipe.acked. cbn. destruct (PipeSteps.bool_cases e e') as [->| ->];
      [by rewrite PipeRuns.upd_at_same, Ep|by rewrite PipeRuns.upd_at_peer]. }
  destruct (shape_step k t1 e (Pipe.SendHwms o i) Hk1 He) as (t2 & r2 & E2 & Hk2 & Hl2); [done|cbn; by rewrite (Ha1 e)|].
  pose proof (Hquiet (Pipe.SendHwms o i) t1 t2 r2 ltac:(done) E2 Hl2) as Hq2.
  apply method_done in E2 as ([] & E2 & _). exists t2. split; [by rewrite (sbind_done _ _ _ _ _ E1)|]. split; [done|]. split.
  - intros e'. by rewrite Hq2, Hq1.
  - intros e'. rewrite <- Ha1. unfold Pipe.send_hwms_to_peer, Pipe.send in E2. destruct (Pipe.ends t1 (negb e)); [|done].
    injection E2 as <-. done.
Qed.

(** The second end has arrived. *)
Lemma arrive (w : world) s x p c xs : sockets w !! s = Some x -> connections w !! p = Some c -> travelling (ends c) -> patterned xs ->
  exists t, process_bind s p xs w = Done (put p t (on_socket s (attaching p true) w), tt)
    /\ standing t /\ live t true /\ (live t false <-> live (ends c) false).
Proof.
  intros Es Ec (s0 & Hr & He & L) Hxs.
  destruct (attach_spec (facing true (Pipe.ends s0 false)) negb w s x p c true xs s0) as (s1 & t1 & E1 & L1 & [Hr1 He1 Hp1] & _);
    [..|done|done|done| |done|done|].
  { by intros s' []. }
  { intros s' a. apply facing_call. }
  { by split. }
  assert (L2 : like (fun _ => true) s1 t1) by (apply (like_ext (sinked negb true)); [by intros []|done]).
  exists t1. split; [exact E1|]. split; [by exists s1|].
  rewrite !(like_live _ s1 t1 _ L2 (reached_safe s1 Hr1)), (like_live _ s0 _ _ L (reached_safe s0 Hr)). simpl in Hp1. by rewrite Hp1.
Qed.

Lemma both_standing t s : both s -> like (fun _ => true) s t -> standing t /\ forall e, live t e.
Proof.
  intros Hs L. split; [exists s; split; [apply Hs|done]|]. intros e.
  apply (like_live _ s t e L (reached_safe s (proj1 Hs))). split; [done|by apply both_end].
Qed.
End Pairs.
End InprocOps.
