(* ===== verification/InprocInv.v ===== *)
(** * InprocInv: the invariant of the connections of a context

    Four parts: the numbers of the commands, the tables of the context, the places of the
    pairs, and the ends that every socket has.  Each part has a lemma for every kind of
    change; a part does not mind a change of what it does not look at ([alike]). *)

From stdpp Require Import relations.
From S2P Require Import Prelude Multimap Pipes Yqueue Ypipe Conflate Pipe PipeSteps PipeRuns PipeLive PipeJoin Inproc InprocOps.

Module InprocInv.
Import Inproc PipeJoin InprocOps.

Section Inv.
Context {T : Type} `{RoutingIds T}.

Abbreviation world := (@world T).
Abbreviation connection := (@connection T).
Abbreviation waiter := (Mm.node (list Z) pending_connection_t).

(** ** Worlds that look the same *)

Definition alike {B} (g : socket_t -> B) (w w' : world) : Prop := forall s, g <$> sockets w' !! s = g <$> sockets w !! s.

Lemma alike_refl {B} (g : socket_t -> B) w : alike g w w.
Proof. done. Qed.

Lemma alike_trans {B} (g : socket_t -> B) w1 w2 w3 : alike g w1 w2 -> alike g w2 w3 -> alike g w1 w3.
Proof. intros H1 H2 s. by rewrite H2. Qed.

Lemma alike_sym {B} (g : socket_t -> B) w1 w2 : alike g w1 w2 -> alike g w2 w1.
Proof. intros H1 s. by rewrite H1. Qed.

Lemma alike_on {B} (g : socket_t -> B) s f w : (forall x, g (f x) = g x) -> alike g w (on_socket s f w).
Proof.
  intros Hg s'. destruct (decide (s = s')) as [->|Hne]; [|by rewrite socket_other].
  simpl. rewrite lookup_alter_eq. destruct (sockets w !! s'); simpl; [by rewrite Hg|done].
Qed.

Lemma alike_at {B} (g : socket_t -> B) s f x w : sockets w !! s = Some x -> g (f x) = g x -> alike g w (on_socket s f w).
Proof.
  intros Ex Hg s'. destruct (decide (s = s')) as [<-|Hne]; [|by rewrite socket_other].
  by rewrite (socket_at s f x w Ex), Ex; simpl; rewrite Hg.
Qed.

(** The same change, for the part that looks. *)
Lemma alike_both {B} (g : socket_t -> B) s f f' w : (forall x, g (f x) = g (f' x)) -> alike g (on_socket s f w) (on_socket s f' w).
Proof.
  intros Hg s'. destruct (decide (s = s')) as [->|Hne]; [|by rewrite !socket_other].
  simpl. rewrite !lookup_alter_eq. destruct (sockets w !! s'); simpl; [by rewrite Hg|done].
Qed.

Lemma alike_under {B} (g : socket_t -> B) s f w w' : (forall x y, g x = g y -> g (f x) = g (f y)) -> alike g w w' ->
  alike g (on_socket s f w) (on_socket s f w').
Proof.
  intros Hf Ha s'. destruct (decide (s = s')) as [<-|Hne]; [|by rewrite !socket_other].
  specialize (Ha s). simpl. rewrite !lookup_alter_eq. destruct (sockets w !! s), (sockets w' !! s); try done.
  simpl in *. f_equal. apply Hf. by injection Ha.
Qed.

Lemma on_socket_twice s f g (w : world) : on_socket s f (on_socket s g w) = on_socket s (fun x => f (g x)) w.
Proof. unfold on_socket, set_sockets. simpl. by rewrite alter_twice. Qed.

Lemma alike_to {B} (g : socket_t -> B) w w' s x : alike g w w' -> sockets w' !! s = Some x ->
  exists y, sockets w !! s = Some y /\ g x = g y.
Proof.
  intros Ha Ex. specialize (Ha s). rewrite Ex in Ha. destruct (sockets w !! s) as [y|]; [|done].
  exists y. split; [done|]. by injection Ha.
Qed.

Lemma alike_from {B} (g : socket_t -> B) w w' s x : alike g w w' -> sockets w !! s = Some x ->
  exists y, sockets w' !! s = Some y /\ g y = g x.
Proof. intros Ha Ex. destruct (alike_to g w' w s x (alike_sym g w w' Ha) Ex) as (y & ? & ?). by exists y. Qed.

Lemma on_socket_inv s f (w : world) s' x : sockets (on_socket s f w) !! s' = Some x ->
  exists y, sockets w !! s' = Some y /\ x = if decide (s = s') then f y else y.
Proof.
  simpl. destruct (decide (s = s')) as [->|Hne].
  - rewrite lookup_alter_eq. destruct (sockets w !! s') as [y|]; [|done]. intros [= <-]. by exists y.
  - rewrite lookup_alter_ne by done. intros ?. by exists x.
Qed.

Lemma on_socket_is s f (w : world) s' : is_Some (sockets w !! s') -> is_Some (sockets (on_socket s f w) !! s').
Proof.
  intros [x E]. destruct (decide (s = s')) as [->|Hne]; [|by rewrite socket_other; [eexists|]].
  rewrite (socket_at s' f x w E). by eexists.
Qed.

(** ** The numbers *)

(** [d s]: how many commands [s] counts that are neither on their way nor announced, within a step. *)
Definition one (s s' : nat) : Z := if decide (s = s') then 1 else 0.
Definition calling (d : activity) (s : nat) : Z := if decide (connects_to s d) then 1 else 0.

Lemma calling_idle s : calling Idle s = 0.
Proof. done. Qed.

Lemma calling_binding a s : calling (Binding a) s = 0.
Proof. done. Qed.

Lemma calling_alone a s : calling (Connecting a None) s = 0.
Proof. done. Qed.

Lemma calling_peer a e s : calling (Connecting a (Some e)) s = one (socket e) s.
Proof. done. Qed.

Definition numbers (d : nat -> Z) (l : list waiter) (w : world) : Prop := forall s x, sockets w !! s = Some x ->
  sent_seqnum x = u32 (processed_seqnum x + Z.of_nat (coming s l w) + d s).

Definition counted (x : socket_t) : Z * Z * nat * activity :=
  (sent_seqnum x, processed_seqnum x, length (mailbox x), doing x).

Definition callers (s : nat) (w : world) : nat := base.size (filter (fun x => connects_to s x.2) (doing <$> sockets w)).

Lemma u32_wrap a b : u32 (u32 a + b) = u32 (a + b).
Proof. unfold u32. by rewrite Zplus_mod_idemp_l. Qed.

Lemma u32_of_u64 a b : u32 (u64 a + b) = u32 (a + b).
Proof.
  unfold u32, u64. rewrite (Z.mod_eq a (2 ^ 64)) by done.
  replace (a - 2 ^ 64 * (a / 2 ^ 64) + b) with (a + b + (- (2 ^ 32 * (a / 2 ^ 64))) * 2 ^ 32) by lia.
  by rewrite Z_mod_plus_full.
Qed.

Lemma filter_size_insert s (m : gmap nat activity) k d : m !! k = None ->
  Z.of_nat (base.size (filter (fun x => connects_to s x.2) (<[k := d]> m)))
  = Z.of_nat (base.size (filter (fun x => connects_to s x.2) m)) + calling d s.
Proof.
  intros E. rewrite map_filter_insert. simpl. unfold calling. destruct (decide (connects_to s d)) as [Hd|Hd].
  - rewrite map_size_insert_None; [lia|]. rewrite map_lookup_filter_None. by left.
  - rewrite delete_id by done. lia.
Qed.

Lemma callers_on s' s f x w : sockets w !! s = Some x ->
  Z.of_nat (callers s' (on_socket s f w)) = Z.of_nat (callers s' w) + calling (doing (f x)) s' - calling (doing x) s'.
Proof.
  intros Ex. unfold callers. simpl. rewrite (alter_some f _ s x Ex), fmap_insert.
  set (m := doing <$> sockets w). assert (Em : m !! s = Some (doing x)) by (unfold m; by rewrite lookup_fmap, Ex).
  rewrite <- (insert_delete_id m s (doing x) Em) at 2. rewrite <- insert_delete_eq.
  rewrite !filter_size_insert by apply lookup_delete_eq. lia.
Qed.

Lemma callers_alike s w w' : alike doing w w' -> callers s w' = callers s w.
Proof.
  intros Ha. unfold callers. f_equal. f_equal. apply map_eq. intros j. rewrite !lookup_fmap. apply Ha.
Qed.

Lemma num_alike d l w w' : alike counted w w' -> numbers d l w -> numbers d l w'.
Proof.
  intros Ha Hn s x Ex. destruct (alike_to counted w w' s x Ha Ex) as (y & Ey & [= -> -> Hl Hd]).
  rewrite (Hn s y Ey). do 2 f_equal. unfold coming. fold (callers s w) (callers s w'). rewrite Ex, Ey. simpl.
  rewrite Hl, (callers_alike s w w'); [done|]. intros s1. specialize (Ha s1).
  destruct (sockets w' !! s1), (sockets w !! s1); simpl in *; try done. by injection Ha as _ _ _ ->.
Qed.

Lemma num_perm d l l' w : l ≡ₚ l' -> numbers d l w -> numbers d l' w.
Proof.
  intros Hp Hn s x Ex. rewrite (Hn s x Ex). do 3 f_equal. unfold coming, pending_of. by rewrite Hp.
Qed.

Lemma num_ext d d' l w : (forall s, d s = d' s) -> numbers d l w -> numbers d' l w.
Proof. intros Hd Hn s x Ex. by rewrite <- Hd, (Hn s x Ex). Qed.

(** One socket changes. *)
Lemma num_on d d' l w s f x : sockets w !! s = Some x ->
  (sent_seqnum x = u32 (processed_seqnum x + Z.of_nat (coming s l w) + d s) ->
   sent_seqnum (f x) = u32 (processed_seqnum (f x) + Z.of_nat (coming s l w) + d s
     + (d' s - d s + Z.of_nat (length (mailbox (f x))) - Z.of_nat (length (mailbox x)) + calling (doing (f x)) s - calling (doing x) s))) ->
  (forall s', s' <> s -> d' s' = d s' - calling (doing (f x)) s' + calling (doing x) s') ->
  numbers d l w -> numbers d' l (on_socket s f w).
Proof.
  intros Ex Hf Hd Hn s' y Ey. apply on_socket_inv in Ey as (y0 & Ey0 & ->).
  pose proof (callers_on s' s f x w Ex) as Hc. unfold coming. fold (callers s' w) (callers s' (on_socket s f w)).
  destruct (decide (s = s')) as [<-|Hne].
  - rewrite Ex in Ey0. injection Ey0 as <-. rewrite (Hf (Hn s x Ex)). f_equal. unfold coming. fold (callers s w).
    rewrite (socket_at s f x w Ex), Ex. simpl. lia.
  - rewrite (Hn s' y0 Ey0). f_equal. unfold coming. fold (callers s' w).
    rewrite (socket_other s s' f w Hne), (Hd s'), Ey0 by done. simpl. lia.
Qed.

Lemma one_eq s : one s s = 1.
Proof. unfold one. by rewrite decide_True. Qed.

Lemma one_ne s s' : s' <> s -> one s s' = 0.
Proof. intros ?. unfold one. by rewrite decide_False. Qed.

Lemma num_inc d l w s x : sockets w !! s = Some x -> numbers d l w -> numbers (fun s' => d s' + one s s') l (on_socket s incd w).
Proof.
  intros Ex. apply (num_on _ _ _ _ _ _ x Ex); simpl; [|intros s' ?; rewrite one_ne by done; lia].
  intros ->. rewrite u32_wrap, one_eq. f_equal. lia.
Qed.

Lemma num_processed d l w s x : sockets w !! s = Some x -> numbers d l w ->
  numbers (fun s' => d s' - one s s') l (on_socket s processed w).
Proof.
  intros Ex. apply (num_on _ _ _ _ _ _ x Ex); simpl; [|intros s' ?; rewrite one_ne by done; lia].
  intros ->. rewrite <- !Z.add_assoc, u32_of_u64, one_eq. f_equal. lia.
Qed.

Lemma num_push d l w s x c : sockets w !! s = Some x -> numbers d l w ->
  numbers (fun s' => d s' - one s s') l (on_socket s (pushing c) w).
Proof.
  intros Ex. apply (num_on _ _ _ _ _ _ x Ex); simpl; [|intros s' ?; rewrite one_ne by done; lia].
  intros ->. rewrite length_app, one_eq. simpl. f_equal. lia.
Qed.

Lemma num_pop d l w s x c m : sockets w !! s = Some x -> mailbox x = c :: m -> numbers d l w ->
  numbers (fun s' => d s' + one s s') l (on_socket s (with_mailbox m) w).
Proof.
  intros Ex Em. apply (num_on _ _ _ _ _ _ x Ex); simpl; [|intros s' ?; rewrite one_ne by done; lia].
  intros ->. rewrite Em, one_eq. simpl. f_equal. lia.
Qed.

Lemma num_doing d l w s x a : sockets w !! s = Some x -> numbers d l w ->
  numbers (fun s' => d s' - calling a s' + calling (doing x) s') l (on_socket s (with_doing a) w).
Proof.
  intros Ex. apply (num_on _ _ _ _ _ _ x Ex); simpl; [|done]. intros ->. f_equal. lia.
Qed.

Lemma pending_of_cons s n l : Z.of_nat (pending_of s (n :: l)) = Z.of_nat (pending_of s l) + one (socket (endpoint (Mm.val n))) s.
Proof.
  unfold pending_of, one. rewrite filter_cons. destruct (decide (socket (endpoint (Mm.val n)) = s)); simpl; lia.
Qed.

Lemma num_pend d l w n : numbers d l w -> numbers (fun s' => d s' - one (socket (endpoint (Mm.val n))) s') (n :: l) w.
Proof.
  intros Hn s x Ex. rewrite (Hn s x Ex). f_equal. unfold coming. pose proof (pending_of_cons s n l). lia.
Qed.

Lemma num_unpend d l w n : numbers d (n :: l) w -> numbers (fun s' => d s' + one (socket (endpoint (Mm.val n))) s') l w.
Proof.
  intros Hn s x Ex. rewrite (Hn s x Ex). f_equal. unfold coming. pose proof (pending_of_cons s n l). lia.
Qed.

(** Nothing is on its way to a socket that has processed what it was sent. *)
Lemma num_zero l w s x : numbers (fun _ => 0) l w -> sockets w !! s = Some x -> processed_seqnum x = sent_seqnum x ->
  Z.of_nat (coming s l w) < 2 ^ 32 -> coming s l w = 0%nat.
Proof.
  intros Hn Ex Hp Hc. specialize (Hn s x Ex). rewrite Hp in Hn. unfold u32 in Hn.
  assert (Hs : 0 <= sent_seqnum x < 2 ^ 32) by (rewrite Hn; by apply Z.mod_pos_bound).
  pose proof (Z.div_mod (sent_seqnum x + Z.of_nat (coming s l w) + 0) (2 ^ 32) ltac:(done)) as Hd. nia.
Qed.

Lemma num_new l w s o : sockets w !! s = None -> coming s l w = 0%nat -> numbers (fun _ => 0) l w ->
  numbers (fun _ => 0) l (set_sockets (<[s := socket_new o]> (sockets w)) w).
Proof.
  intros Es Hc Hn s' x Ex. simpl in Ex.
  assert (Hcall : forall s1, callers s1 (set_sockets (<[s := socket_new o]> (sockets w)) w) = callers s1 w).
  { intros s1. unfold callers. simpl. rewrite fmap_insert. apply Nat2Z.inj. rewrite filter_size_insert by (by rewrite lookup_fmap, Es).
    unfold calling. simpl. lia. }
  unfold coming. fold (callers s' (set_sockets (<[s := socket_new o]> (sockets w)) w)). rewrite Hcall.
  unfold coming in Hc. fold (callers s w) in Hc. simpl. destruct (decide (s = s')) as [<-|Hne].
  - rewrite lookup_insert_eq in Ex. injection Ex as <-. rewrite lookup_insert_eq. simpl. rewrite Es in Hc. simpl in Hc. by rewrite Hc.
  - rewrite lookup_insert_ne in * by done. by apply Hn.
Qed.

Lemma num_gone l w s x : sockets w !! s = Some x -> doing x = Idle -> numbers (fun _ => 0) l w ->
  numbers (fun _ => 0) l (set_sockets (delete s (sockets w)) w).
Proof.
  intros Es Hi Hn s' y Ey. simpl in Ey. apply lookup_delete_Some in Ey as [Hne Ey]. rewrite (Hn s' y Ey). f_equal. unfold coming.
  assert (Hcall : callers s' (set_sockets (delete s (sockets w)) w) = callers s' w).
  { unfold callers. simpl. rewrite fmap_delete. apply Nat2Z.inj.
    assert (Em : (doing <$> sockets w) !! s = Some Idle) by (by rewrite lookup_fmap, Es, <- Hi).
    rewrite <- (insert_delete_id (doing <$> sockets w) s Idle Em) at 2. rewrite filter_size_insert by apply lookup_delete_eq.
    unfold calling. simpl. lia. }
  unfold callers in Hcall. rewrite Hcall. simpl. by rewrite lookup_delete_ne by done.
Qed.

(** ** The tables *)

Definition busy (s : nat) (x : socket_t) (w : world) : Prop :=
  match doing x with
  | Idle => True
  | Binding a => tag x = true /\ exists e, endpoints w !! a = Some e /\ socket e = s
  | Connecting a peer => tag x = true /\ forall e, peer = Some e -> is_Some (sockets w !! socket e)
  end.

Record tables (l : list waiter) (w : world) : Prop := {
  t_endpoints : forall a e, endpoints w !! a = Some e -> exists x, sockets w !! socket e = Some x /\ terminating x = false;
  t_busy : forall s x, sockets w !! s = Some x -> busy s x w;
  t_term : forall s x, sockets w !! s = Some x -> terminating x = true -> tag x = false;
  t_plain : forall s x, sockets w !! s = Some x -> plain (opts x);
  t_pending : forall n e, n ∈ l -> endpoints w !! Mm.key n = Some e ->
    exists x, sockets w !! socket e = Some x /\ doing x = Binding (Mm.key n)
}.

Definition core (x : socket_t) : options_t * bool * bool * activity := (opts x, tag x, terminating x, doing x).

Lemma tab_alike l w w' : endpoints w' = endpoints w -> alike core w w' -> tables l w -> tables l w'.
Proof.
  intros He Ha Ht. assert (Hto := fun s x => alike_to core w w' s x Ha). assert (Hfrom := fun s x => alike_from core w w' s x Ha).
  split.
  - intros a e. rewrite He. intros E. destruct (t_endpoints l w Ht a e E) as (x & Ex & Hx).
    destruct (Hfrom _ x Ex) as (y & Ey & [= _ _ Hy _]). exists y. by rewrite Hy.
  - intros s x Ex. destruct (Hto s x Ex) as (y & Ey & [= _ Htag _ Hd]). pose proof (t_busy l w Ht s y Ey) as Hb.
    unfold busy in *. rewrite Hd, Htag, He. destruct (doing y) as [|a|a peer]; [done..|].
    destruct Hb as [? Hb]. split; [done|]. intros e E. destruct (Hb e E) as [z Ez]. destruct (Hfrom _ z Ez) as (z' & ? & _). by exists z'.
  - intros s x Ex. destruct (Hto s x Ex) as (y & Ey & [= _ -> -> _]). by apply (t_term l w Ht s).
  - intros s x Ex. destruct (Hto s x Ex) as (y & Ey & [= -> _ _ _]). by apply (t_plain l w Ht s).
  - intros n e Hn. rewrite He. intros E. destruct (t_pending l w Ht n e Hn E) as (x & Ex & Hx).
    destruct (Hfrom _ x Ex) as (y & Ey & [= _ _ _ Hy]). exists y. by rewrite Hy.
Qed.

Lemma tab_sub l l' w : l' ⊆ l -> tables l w -> tables l' w.
Proof. intros Hl [H1 H2 H3 H4 H5]. split; try done. intros n e Hn. apply H5. by apply Hl. Qed.

(** A socket changes, and stays where the tables have it. *)
Lemma tab_on l w s f x : sockets w !! s = Some x -> busy s (f x) w -> plain (opts (f x)) ->
  (terminating (f x) = true -> tag (f x) = false) ->
  (forall a e, endpoints w !! a = Some e -> socket e = s -> terminating (f x) = false) ->
  (forall n e, n ∈ l -> endpoints w !! Mm.key n = Some e -> socket e = s -> doing (f x) = Binding (Mm.key n)) ->
  tables l w -> tables l (on_socket s f w).
Proof.
  intros Ex Hb Hp Htm Hte Hpe Ht. pose proof Ht as [H1 H2 H3 H4 H5]. split.
  - intros a e E. destruct (H1 a e E) as (y & Ey & Hy). destruct (decide (s = socket e)) as [->|Hne].
    + rewrite (socket_at _ f x w Ex). eexists. split; [done|]. by apply (Hte a e).
    + rewrite socket_other by done. by exists y.
  - intros s' y Ey. apply on_socket_inv in Ey as (y0 & Ey0 & ->).
    assert (Hbusy : busy s' (if decide (s = s') then f y0 else y0) w).
    { destruct (decide (s = s')) as [<-|]; [by rewrite Ex in Ey0; injection Ey0 as <-|by apply H2]. }
    clear Hb. revert Hbusy. generalize (if decide (s = s') then f y0 else y0). intros z Hbusy. unfold busy in *.
    destruct (doing z) as [|a|a peer]; [done..|]. destruct Hbusy as [? Hbusy]. split; [done|].
    intros e E. by apply on_socket_is, Hbusy.
  - intros s' y Ey. apply on_socket_inv in Ey as (y0 & Ey0 & ->).
    destruct (decide (s = s')) as [<-|]; [by rewrite Ex in Ey0; injection Ey0 as <-|by apply (H3 s')].
  - intros s' y Ey. apply on_socket_inv in Ey as (y0 & Ey0 & ->).
    destruct (decide (s = s')) as [<-|]; [by rewrite Ex in Ey0; injection Ey0 as <-|by apply (H4 s')].
  - intros n e Hn E. destruct (H5 n e Hn E) as (y & Ey & Hy). destruct (decide (s = socket e)) as [->|Hne].
    + rewrite (socket_at _ f x w Ex). eexists. split; [done|]. by apply (Hpe n e).
    + rewrite socket_other by done. by exists y.
Qed.

(** The tables lose endpoints that nobody is binding. *)
Lemma tab_unregister l w m :
  (forall a e, m !! a = Some e -> endpoints w !! a = Some e) ->
  (forall a s x, sockets w !! s = Some x -> doing x = Binding a -> m !! a = endpoints w !! a) ->
  tables l w -> tables l (set_endpoints m w).
Proof.
  intros Hm Hb [H1 H2 H3 H4 H5]. split; simpl.
  - intros a e E. by apply (H1 a), Hm.
  - intros s x Ex. pose proof (H2 s x Ex) as Hx. unfold busy in *. destruct (doing x) as [|a|a peer] eqn:Ed; [done| |done].
    simpl. by rewrite (Hb a s x Ex Ed).
  - done.
  - done.
  - intros n e Hn E. by apply H5; [|apply Hm].
Qed.

Lemma tab_register l w s x a : sockets w !! s = Some x -> doing x = Idle -> tag x = true -> endpoints w !! a = None ->
  tables l w -> tables l (on_socket s (with_doing (Binding a)) (set_endpoints (<[a := Endpoint s (opts x)]> (endpoints w)) w)).
Proof.
  intros Ex Hi Htag Ha [H1 H2 H3 H4 H5].
  set (w' := set_endpoints (<[a := Endpoint s (opts x)]> (endpoints w)) w).
  assert (Hk : forall a' e, endpoints w' !! a' = Some e -> a' = a /\ e = Endpoint s (opts x) \/ a' <> a /\ endpoints w !! a' = Some e).
  { intros a' e. simpl. destruct (decide (a = a')) as [<-|Hne].
    - rewrite lookup_insert_eq. intros [= <-]. by left.
    - rewrite lookup_insert_ne by done. by right. }
  assert (Hx : terminating x = false). { destruct (terminating x) eqn:E; [|done]. by rewrite (H3 s x Ex E) in Htag. }
  split.
  - intros a' e E. assert (Hto : exists y, sockets w !! socket e = Some y /\ terminating y = false).
    { destruct (Hk a' e E) as [[-> ->]|[_ E']]; [by exists x|by apply (H1 a')]. }
    destruct Hto as (y & Ey & Hy). destruct (decide (s = socket e)) as [->|Hne].
    + exists (with_doing (Binding a) y). by rewrite (socket_at _ _ y w' Ey).
    + exists y. by rewrite socket_other.
  - intros s' y Ey. apply on_socket_inv in Ey as (y0 & Ey0 & ->). destruct (decide (s = s')) as [<-|Hne].
    + simpl in Ey0. rewrite Ex in Ey0. injection Ey0 as <-. split; [done|]. exists (Endpoint s (opts x)). split; [|done].
      simpl. by rewrite lookup_insert_eq.
    + pose proof (H2 s' y0 Ey0) as Hb. unfold busy in *. destruct (doing y0) as [|a'|a' peer] eqn:Ed; [done|..].
      * destruct Hb as (? & e & E & He). split; [done|]. exists e. split; [|done]. simpl. rewrite lookup_insert_ne; [done|]. by intros ->; rewrite E in Ha.
      * destruct Hb as (? & Hb). split; [done|]. intros e E. by apply on_socket_is, Hb.
  - intros s' y Ey. apply on_socket_inv in Ey as (y0 & Ey0 & ->). destruct (decide (s = s')) as [<-|Hne]; by apply (H3 _ y0 Ey0).
  - intros s' y Ey. apply on_socket_inv in Ey as (y0 & Ey0 & ->). destruct (decide (s = s')) as [<-|Hne]; by apply (H4 _ y0 Ey0).
  - intros n e Hn E. destruct (Hk _ e E) as [[Hkey ->]|[Hkey E']].
    + exists (with_doing (Binding a) x). rewrite Hkey. by rewrite (socket_at s _ x w' Ex).
    + destruct (H5 n e Hn E') as (y & Ey & Hy). destruct (decide (s = socket e)) as [->|Hne].
      * rewrite Ey in Ex. injection Ex as ->. congruence.
      * exists y. by rewrite socket_other.
Qed.

Lemma tab_new l w s o : sockets w !! s = None -> plain o -> tables l w ->
  tables l (set_sockets (<[s := socket_new o]> (sockets w)) w).
Proof.
  intros Es Ho [H1 H2 H3 H4 H5]. set (w' := set_sockets _ w).
  assert (Hin : forall s' y, sockets w !! s' = Some y -> sockets w' !! s' = Some y).
  { intros s' y Ey. simpl. rewrite lookup_insert_ne; [done|]. by intros ->; rewrite Es in Ey. }
  assert (Hout : forall s' y, sockets w' !! s' = Some y -> y = socket_new o \/ sockets w !! s' = Some y).
  { intros s' y. simpl. rewrite lookup_insert_Some. intros [[_ <-]|[_ ?]]; [by left|by right]. }
  split.
  - intros a e E. destruct (H1 a e E) as (x & Ex & Hx). exists x. by split; [apply Hin|].
  - intros s' y Ey. destruct (Hout s' y Ey) as [->|Ey0]; [done|]. pose proof (H2 s' y Ey0) as Hb. unfold busy in *.
    destruct (doing y) as [|a|a peer]; [done..|]. destruct Hb as [? Hb]. split; [done|]. intros e E. destruct (Hb e E) as [z Ez].
    exists z. by apply Hin.
  - intros s' y Ey. destruct (Hout s' y Ey) as [->|Ey0]; [done|by apply (H3 s')].
  - intros s' y Ey. destruct (Hout s' y Ey) as [->|Ey0]; [done|by apply (H4 s')].
  - intros n e Hn E. destruct (H5 n e Hn E) as (x & Ex & Hx). exists x. by split; [apply Hin|].
Qed.

(** A socket that terminates is in no table, and nobody calls it when it is not coming. *)
Lemma tab_gone l w s x : sockets w !! s = Some x -> terminating x = true -> callers s w = 0%nat -> tables l w ->
  tables l (set_sockets (delete s (sockets w)) w).
Proof.
  intros Ex Htx Hc [H1 H2 H3 H4 H5].
  assert (Hne : forall a e, endpoints w !! a = Some e -> s <> socket e).
  { intros a e E ->. destruct (H1 a e E) as (y & Ey & Hy). congruence. }
  split; simpl.
  - intros a e E. destruct (H1 a e E) as (y & Ey & Hy). exists y. rewrite lookup_delete_ne; [done|]. by apply (Hne a).
  - intros s' y [Hs Ey]%lookup_delete_Some. pose proof (H2 s' y Ey) as Hb. unfold busy in *.
    destruct (doing y) as [|a|a peer] eqn:Ed; [done..|]. destruct Hb as [? Hb]. split; [done|]. intros e E. simpl.
    destruct (Hb e E) as [z Ez]. exists z. rewrite lookup_delete_ne; [done|]. intros ->.
    unfold callers in Hc. apply map_size_empty_inv in Hc.
    assert (Hf : filter (fun x => connects_to (socket e) x.2) (doing <$> sockets w) !! s' = Some (Connecting a (Some e))).
    { apply map_lookup_filter_Some. split; [|done]. by rewrite lookup_fmap, Ey, <- E, <- Ed. }
    by rewrite Hc in Hf.
  - intros s' y [_ Ey]%lookup_delete_Some. by apply (H3 s').
  - intros s' y [_ Ey]%lookup_delete_Some. by apply (H4 s').
  - intros n e Hn E. destruct (H5 n e Hn E) as (y & Ey & Hy). exists y. rewrite lookup_delete_ne; [done|]. by apply (Hne (Mm.key n)).
Qed.

(** A connection is pending at an address that nobody has bound. *)
Lemma tab_pend l w n : endpoints w !! Mm.key n = None -> tables l w -> tables (n :: l) w.
Proof.
  intros Hn [H1 H2 H3 H4 H5]. split; try done. intros n' e Hin E. apply elem_of_cons in Hin as [->|Hin]; [congruence|by apply H5].
Qed.

(** ** The places of the pairs *)

(** The pairs whose second ends are on their way to a socket. *)
Definition bound_pair (c : command) : option nat := match c with bind p => Some p | inproc_connected => None end.
Definition letters (x : socket_t) : list nat := omap bound_pair (mailbox x).

Definition posted (p : nat) (w : world) : Prop := exists s x, sockets w !! s = Some x /\ p ∈ letters x.
Definition waiter_pair (n : waiter) : nat := pair (Mm.val n).

(** Whether a pair is in a table or in a mailbox says which shape it has. *)
Definition placed (k : place) (p : nat) (l : list waiter) (w : world) : Prop :=
  (k = Waiting <-> p ∈ map waiter_pair l) /\ (k = Travelling <-> posted p w).

Record places (l : list waiter) (w : world) : Prop := {
  p_place : forall p c, connections w !! p = Some c -> exists k, shape k (ends c) /\ placed k p l w;
  p_mail : forall s x p, sockets w !! s = Some x -> p ∈ letters x -> exists c, connections w !! p = Some c /\ bind_tid c = s;
  p_mail_once : forall s x, sockets w !! s = Some x -> NoDup (letters x);
  p_pending : forall n, n ∈ l -> exists c, connections w !! waiter_pair n = Some c /\
    socket (endpoint (Mm.val n)) = connector c /\ bind_tid c = connector c;
  p_pending_once : NoDup (map waiter_pair l);
  p_next : forall p c, connections w !! p = Some c -> (p < next_connection w)%nat
}.

Lemma posted_alike p w w' : alike letters w w' -> posted p w' <-> posted p w.
Proof.
  intros Ha. split; intros (s & x & Ex & Hp).
  - destruct (alike_to letters w w' s x Ha Ex) as (y & Ey & Hy). exists s, y. by rewrite <- Hy.
  - destruct (alike_from letters w w' s x Ha Ex) as (y & Ey & Hy). exists s, y. by rewrite Hy.
Qed.

Lemma placed_alike k p l w w' : alike letters w w' -> placed k p l w' <-> placed k p l w.
Proof. intros Ha. unfold placed. by rewrite (posted_alike p w w' Ha). Qed.

Lemma pl_alike l w w' : connections w' = connections w -> next_connection w' = next_connection w -> alike letters w w' ->
  places l w -> places l w'.
Proof.
  intros Hc Hx Ha [H1 H2 H3 H4 H5 H6]. split.
  - intros p c. rewrite Hc. intros E. destruct (H1 p c E) as (k & Hk & Hp). exists k. by rewrite (placed_alike k p l w w' Ha).
  - intros s x p Ex Hp. destruct (alike_to letters w w' s x Ha Ex) as (y & Ey & Hy). rewrite Hc. apply (H2 s y); [done|by rewrite <- Hy].
  - intros s x Ex. destruct (alike_to letters w w' s x Ha Ex) as (y & Ey & ->). by apply (H3 s).
  - intros n Hn. rewrite Hc. by apply H4.
  - done.
  - intros p c. rewrite Hc, Hx. apply H6.
Qed.

Lemma pl_perm l l' w : l ≡ₚ l' -> places l w -> places l' w.
Proof.
  intros Hp [H1 H2 H3 H4 H5 H6]. split; try done.
  - intros p c E. destruct (H1 p c E) as (k & Hk & Hpl). exists k. split; [done|]. unfold placed in *. by rewrite <- Hp.
  - intros n Hn. apply H4. by rewrite Hp.
  - by rewrite <- Hp.
Qed.

(** A pair changes within its shape. *)
Lemma pl_put l w p c k t : connections w !! p = Some c -> placed k p l w -> shape k t -> places l w -> places l (put p t w).
Proof.
  intros Ec Hk Ht [H1 H2 H3 H4 H5 H6].
  assert (Hc : forall p' c', connections (put p t w) !! p' = Some c' -> exists c0, connections w !! p' = Some c0 /\
    connector c' = connector c0 /\ bind_tid c' = bind_tid c0 /\ (p' = p /\ ends c' = t \/ p' <> p /\ c' = c0)).
  { intros p' c' E. simpl in E. destruct (decide (p = p')) as [<-|Hne].
    - rewrite lookup_alter_eq, Ec in E. injection E as <-. exists c. split_and!; try done. by left.
    - rewrite lookup_alter_ne in E by done. exists c'. split_and!; try done. right. by split; [congruence|]. }
  assert (Hc' : forall p' c', connections w !! p' = Some c' -> exists c0, connections (put p t w) !! p' = Some c0 /\
    connector c0 = connector c' /\ bind_tid c0 = bind_tid c').
  { intros p' c' E. simpl. destruct (decide (p = p')) as [<-|Hne].
    - rewrite lookup_alter_eq, E. by eexists.
    - rewrite lookup_alter_ne by done. by exists c'. }
  split; try done.
  - intros p' c' E. destruct (Hc p' c' E) as (c0 & E0 & _ & _ & [[-> <-]|[_ ->]]); [by exists k|by apply H1].
  - intros s x p' Ex Hp. destruct (H2 s x p' Ex Hp) as (c0 & E0 & <-). destruct (Hc' p' c0 E0) as (c1 & E1 & _ & Hb). by exists c1.
  - intros n Hn. destruct (H4 n Hn) as (c0 & E0 & Hs & Hb). destruct (Hc' _ c0 E0) as (c1 & E1 & Hb1 & Hb2).
    exists c1. split; [done|]. by rewrite Hb1, Hb2.
  - intros p' c' E. destruct (Hc p' c' E) as (c0 & E0 & _). by apply (H6 p' c0).
Qed.

Lemma place_of l w p c : places l w -> connections w !! p = Some c -> exists k, shape k (ends c) /\ placed k p l w.
Proof. intros Hl. apply (p_place l w Hl). Qed.

Lemma letters_push_bind p x : letters (pushing (bind p) x) = letters x ++ [p].
Proof. unfold letters. simpl. by rewrite omap_app. Qed.

Lemma posted_on s f x (w : world) p : sockets w !! s = Some x -> (forall q, q ∈ letters x -> q ∈ letters (f x)) ->
  posted p (on_socket s f w) <-> posted p w \/ p ∈ letters (f x).
Proof.
  intros Ex Hf. split.
  - intros (s' & y & Ey & Hp). apply on_socket_inv in Ey as (y0 & Ey0 & ->). destruct (decide (s = s')) as [<-|Hne].
    + right. by rewrite Ex in Ey0; injection Ey0 as <-.
    + left. by exists s', y0.
  - intros [(s' & y & Ey & Hp)|Hp]; [|exists s, (f x); split; [by apply socket_at|done]].
    destruct (decide (s = s')) as [<-|Hne].
    + exists s, (f x). split; [by apply socket_at|]. rewrite Ex in Ey. injection Ey as <-. by apply Hf.
    + exists s', y. by rewrite socket_other.
Qed.

Lemma fresh_unplaced l w : places l w -> (next_connection w ∉ map waiter_pair l) /\ ~ posted (next_connection w) w.
Proof.
  intros [H1 H2 H3 H4 H5 H6]. split.
  - intros (n & Hp & Hn)%list_elem_of_fmap. destruct (H4 n Hn) as (c & Ec & _).
    rewrite <- Hp in Ec. specialize (H6 _ c Ec). lia.
  - intros (s & x & Ex & Hp). destruct (H2 s x _ Ex Hp) as (c & Ec & _). specialize (H6 _ c Ec). lia.
Qed.

Lemma opened_inv s tid_ t (w : world) p c : connections (opened s tid_ t w) !! p = Some c ->
  p = next_connection w /\ c = Connection t s tid_ \/ p <> next_connection w /\ connections w !! p = Some c.
Proof.
  simpl. intros E. destruct (decide (next_connection w = p)) as [<-|Hne].
  - rewrite lookup_insert_eq in E. injection E as <-. by left.
  - rewrite lookup_insert_ne in E by done. right. by split; [congruence|].
Qed.

Lemma opened_old s tid_ t (w : world) p c : connections w !! p = Some c -> p <> next_connection w ->
  connections (opened s tid_ t w) !! p = Some c.
Proof. intros E Hne. simpl. by rewrite lookup_insert_ne. Qed.

(** A new pair is sent to a binder. *)
Lemma pl_travel l w s b x t : sockets w !! b = Some x -> travelling t -> places l w ->
  places l (on_socket b (pushing (bind (next_connection w))) (opened s b t w)).
Proof.
  intros Ex Ht Hl. destruct (fresh_unplaced l w Hl) as [Hf1 Hf2]. pose proof Hl as [H1 H2 H3 H4 H5 H6].
  set (p := next_connection w) in *. set (w1 := opened s b t w). set (w2 := on_socket b (pushing (bind p)) w1).
  assert (Hpost : forall q, posted q w2 <-> posted q w \/ q = p).
  { intros q. unfold w2. rewrite (posted_on b (pushing (bind p)) x w1 q Ex).
    - rewrite letters_push_bind, elem_of_app, list_elem_of_singleton. change (posted q w1) with (posted q w).
      split; [intros [?|[?|?]]; [by left|left; by exists b, x|by right]|intros [?|?]; [by left|by right; right]].
    - intros r Hr. rewrite letters_push_bind, elem_of_app. by left. }
  split.
  - intros q c E. destruct (opened_inv s b t w q c E) as [[-> ->]|[Hne E']].
    + exists Travelling. split; [done|]. split; [split; [done|by intros ?]|]. split; [intros _; apply Hpost; by right|done].
    + destruct (H1 q c E') as (k & Hk & Hp1 & Hp2). exists k. split; [done|]. split; [done|]. rewrite Hpost, Hp2. split; [by left|by intros [?|?]].
  - intros s' y q Ey Hq. apply on_socket_inv in Ey as (y0 & Ey0 & ->). change (sockets w !! s' = Some y0) in Ey0.
    change (connections w2) with (connections w1).
    assert (Hold : q ∈ letters y0 -> exists c, connections w1 !! q = Some c /\ bind_tid c = s').
    { intros Hq'. destruct (H2 s' y0 q Ey0 Hq') as (c & Ec & Hc). exists c. split; [|done]. apply opened_old; [done|].
      intros ->. apply Hf2. by exists s', y0. }
    destruct (decide (b = s')) as [<-|Hne]; [|by apply Hold]. rewrite letters_push_bind, elem_of_app, list_elem_of_singleton in Hq.
    destruct Hq as [Hq| ->]; [by apply Hold|]. eexists. by split; [apply opened_at|].
  - intros s' y Ey. apply on_socket_inv in Ey as (y0 & Ey0 & ->). change (sockets w !! s' = Some y0) in Ey0.
    destruct (decide (b = s')) as [<-|Hne]; [|by apply (H3 s')]. rewrite letters_push_bind. apply NoDup_app. split_and!.
    + by apply (H3 b).
    + intros q Hq ->%list_elem_of_singleton. apply Hf2. by exists b, y0.
    + apply NoDup_singleton.
  - intros n Hn. destruct (H4 n Hn) as (c & Ec & Hc). exists c. split; [|done]. apply opened_old; [done|].
    intros Hp. apply Hf1. unfold p. rewrite <- Hp. by apply list_elem_of_fmap_2.
  - done.
  - intros q c E. simpl. destruct (opened_inv s b t w q c E) as [[-> _]|[_ E']]; [unfold p; lia|]. specialize (H6 q c E'). lia.
Qed.

(** A new pair waits. *)
Lemma pl_wait l w s t n : waiter_pair n = next_connection w -> socket (endpoint (Mm.val n)) = s -> waiting t -> places l w ->
  places (n :: l) (opened s s t w).
Proof.
  intros Hn Hs Ht Hl. destruct (fresh_unplaced l w Hl) as [Hf1 Hf2]. pose proof Hl as [H1 H2 H3 H4 H5 H6]. split.
  - intros q c E. destruct (opened_inv s s t w q c E) as [[-> ->]|[Hne E']].
    + exists Waiting. split; [done|]. split; [|by split; [|intros ?]]. split; [|done]. intros _. simpl. rewrite Hn. constructor.
    + destruct (H1 q c E') as (k & Hk & Hp1 & Hp2). exists k. split; [done|]. split; [|done]. rewrite Hp1. simpl. rewrite elem_of_cons, Hn. tauto.
  - intros s' y q Ey Hq. destruct (H2 s' y q Ey Hq) as (c & Ec & Hc). exists c. split; [|done]. apply opened_old; [done|].
    intros ->. apply Hf2. by exists s', y.
  - done.
  - intros n' [->|Hn']%elem_of_cons.
    + rewrite Hn. eexists. split; [apply opened_at|done].
    + destruct (H4 n' Hn') as (c & Ec & Hc). exists c. split; [|done]. apply opened_old; [done|].
      intros Hp. apply Hf1. rewrite <- Hp. by apply list_elem_of_fmap_2.
  - simpl. rewrite Hn. by constructor.
  - intros q c E. simpl. destruct (opened_inv s s t w q c E) as [[-> _]|[_ E']]; [lia|]. specialize (H6 q c E'). lia.
Qed.

(** A pair that waited has been joined. *)
Lemma pl_join l w b n c t : connections w !! waiter_pair n = Some c -> standing t -> places (n :: l) w ->
  places l (put (waiter_pair n) t (tidd (waiter_pair n) b w)).
Proof.
  intros Ec Ht [H1 H2 H3 H4 H5 H6]. simpl in H5. apply NoDup_cons in H5 as [Hn H5]. set (p := waiter_pair n) in *.
  assert (Hnp : ~ posted p w).
  { destruct (H1 p c Ec) as (k & _ & Hk1 & Hk2). assert (k = Waiting) as -> by (apply Hk1; simpl; constructor).
    intros ?%Hk2. done. }
  assert (Hc : forall q c', q <> p -> connections (put p t (tidd p b w)) !! q = Some c' <-> connections w !! q = Some c').
  { intros q c' Hne. simpl. rewrite !lookup_alter_ne by done. done. }
  assert (Hp : connections (put p t (tidd p b w)) !! p = Some (Connection t (connector c) b)).
  { erewrite put_at; [|by apply tidd_at]. done. }
  split; try done.
  - intros q c' E. destruct (decide (q = p)) as [->|Hne].
    + rewrite Hp in E. injection E as <-. exists Standing. split; [done|]. split; split; try done; intros ?; done.
    + destruct (H1 q c' (proj1 (Hc q c' Hne) E)) as (k & Hk & Hk1 & Hk2). exists k. split; [done|]. split; [|done].
      rewrite Hk1. simpl. rewrite elem_of_cons. fold p. tauto.
  - intros s x q Ex Hq. destruct (H2 s x q Ex Hq) as (c' & Ec' & Hb). exists c'. split; [|done]. apply Hc; [|done].
    intros ->. apply Hnp. by exists s, x.
  - intros n' Hn'. destruct (H4 n') as (c' & Ec' & Hb); [by right|]. exists c'. split; [|done]. apply Hc; [|done].
    intros Hq. apply Hn. fold p. rewrite <- Hq. by apply list_elem_of_fmap_2.
  - intros q c' E. destruct (decide (q = p)) as [->|Hne]; [by apply (H6 p c)|]. by apply (H6 q c'), Hc.
Qed.

(** A second end has arrived. *)
Lemma pl_arrive l w s x p m t : sockets w !! s = Some x -> mailbox x = bind p :: m -> standing t -> places l w ->
  places l (put p t (on_socket s (with_mailbox m) w)).
Proof.
  intros Ex Em Ht [H1 H2 H3 H4 H5 H6]. assert (Hl : letters x = p :: letters (with_mailbox m x)) by (unfold letters; by rewrite Em).
  destruct (H2 s x p Ex) as (c & Ec & Hcs); [rewrite Hl; constructor|].
  pose proof (H3 s x Ex) as Hnd. rewrite Hl in Hnd. apply NoDup_cons in Hnd as [Hnp Hnd].
  set (w' := put p t (on_socket s (with_mailbox m) w)).
  assert (Hc : forall q c', q <> p -> connections w' !! q = Some c' <-> connections w !! q = Some c').
  { intros q c' Hne. simpl. rewrite lookup_alter_ne by done. done. }
  assert (Hp : connections w' !! p = Some (Connection t (connector c) (bind_tid c))) by (by apply (put_at p t c (on_socket s (with_mailbox m) w))).
  assert (Hpost : forall q, posted q w' <-> posted q w /\ q <> p).
  { intros q. split.
    - intros (s' & y & Ey & Hq). apply on_socket_inv in Ey as (y0 & Ey0 & ->). destruct (decide (s = s')) as [<-|Hne].
      + rewrite Ex in Ey0. injection Ey0 as <-. split; [exists s, x; split; [done|rewrite Hl; by right]|by intros ->].
      + split; [by exists s', y0|]. intros ->. destruct (H2 s' y0 p Ey0 Hq) as (c' & Ec' & Hb). congruence.
    - intros [(s' & y & Ey & Hq) Hne]. destruct (decide (s = s')) as [<-|Hs].
      + exists s, (with_mailbox m x). split; [by apply (socket_at s (with_mailbox m) x w)|].
        rewrite Ex in Ey. injection Ey as <-. rewrite Hl in Hq. by apply elem_of_cons in Hq as [?|?].
      + exists s', y. split; [|done]. change (sockets w') with (sockets (on_socket s (with_mailbox m) w)). by rewrite socket_other. }
  assert (Htr : posted p w) by (exists s, x; split; [done|rewrite Hl; constructor]).
  assert (Hnw : p ∉ map waiter_pair l).
  { destruct (H1 p c Ec) as (k & _ & Hk1 & Hk2). apply Hk2 in Htr as ->. intros ?%Hk1. done. }
  split; try done.
  - intros q c' E. destruct (decide (q = p)) as [->|Hne].
    + rewrite Hp in E. injection E as <-. exists Standing. split; [done|]. split; split; try done. by intros [_ ?]%Hpost.
    + destruct (H1 q c' (proj1 (Hc q c' Hne) E)) as (k & Hk & Hk1 & Hk2). exists k. split; [done|]. split; [done|].
      rewrite Hpost, Hk2. tauto.
  - intros s' y q Ey Hq. assert (Hpo : posted q w') by (by exists s', y). apply Hpost in Hpo as [_ Hne].
    apply on_socket_inv in Ey as (y0 & Ey0 & ->).
    assert (Hq0 : q ∈ letters y0).
    { destruct (decide (s = s')) as [<-|]; [|done]. rewrite Ex in Ey0. injection Ey0 as <-. rewrite Hl. by right. }
    destruct (H2 s' y0 q Ey0 Hq0) as (c' & Ec' & Hb). exists c'. by rewrite Hc.
  - intros s' y Ey. apply on_socket_inv in Ey as (y0 & Ey0 & ->). destruct (decide (s = s')) as [<-|]; [|by apply (H3 s')].
    rewrite Ex in Ey0. by injection Ey0 as <-.
  - intros n Hn. destruct (H4 n Hn) as (c' & Ec' & Hb). exists c'. split; [|done]. apply Hc; [|done]. intros Hq. apply Hnw.
    rewrite <- Hq. by apply list_elem_of_fmap_2.
  - intros q c' E. destruct (decide (q = p)) as [->|Hne]; [by apply (H6 p c)|]. by apply (H6 q c'), Hc.
Qed.

Lemma pl_new l w s x : sockets w !! s = None -> letters x = [] -> places l w -> places l (set_sockets (<[s := x]> (sockets w)) w).
Proof.
  intros Es Hx [H1 H2 H3 H4 H5 H6]. set (w' := set_sockets (<[s := x]> (sockets w)) w).
  assert (Hout : forall s' y, sockets w' !! s' = Some y -> y = x \/ sockets w !! s' = Some y).
  { intros s' y. simpl. rewrite lookup_insert_Some. intros [[_ <-]|[_ ?]]; [by left|by right]. }
  assert (Hpost : forall q, posted q w' <-> posted q w).
  { intros q. split; intros (s' & y & Ey & Hq).
    - destruct (Hout s' y Ey) as [->|Ey0]; [rewrite Hx in Hq; by apply elem_of_nil in Hq|by exists s', y].
    - exists s', y. split; [|done]. simpl. rewrite lookup_insert_ne; [done|]. by intros ->; rewrite Es in Ey. }
  split; try done.
  - intros p c E. destruct (H1 p c E) as (k & Hk & Hp1 & Hp2). exists k. split; [done|]. split; [done|]. by rewrite Hpost.
  - intros s' y p Ey Hp. destruct (Hout s' y Ey) as [->|Ey0]; [rewrite Hx in Hp; by apply elem_of_nil in Hp|by apply (H2 s' y)].
  - intros s' y Ey. destruct (Hout s' y Ey) as [->|Ey0]; [rewrite Hx; by apply NoDup_nil|by apply (H3 s')].
Qed.

Lemma pl_gone l w s x : sockets w !! s = Some x -> mailbox x = [] -> places l w -> places l (set_sockets (delete s (sockets w)) w).
Proof.
  intros Es Hm [H1 H2 H3 H4 H5 H6]. set (w' := set_sockets (delete s (sockets w)) w).
  assert (Hin : forall s' y, sockets w' !! s' = Some y -> sockets w !! s' = Some y).
  { intros s' y Ey. simpl in Ey. by apply lookup_delete_Some in Ey as [_ ?]. }
  assert (Hpost : forall q, posted q w' <-> posted q w).
  { intros q. split; intros (s' & y & Ey & Hq).
    - exists s', y. by split; [apply Hin|].
    - exists s', y. split; [|done]. simpl. rewrite lookup_delete_ne; [done|]. intros <-. rewrite Es in Ey. injection Ey as <-.
      unfold letters in Hq. rewrite Hm in Hq. by apply elem_of_nil in Hq. }
  split; try done.
  - intros p c E. destruct (H1 p c E) as (k & Hk & Hp1 & Hp2). exists k. split; [done|]. split; [done|]. by rewrite Hpost.
  - intros s' y p Ey%Hin Hp. by apply (H2 s' y).
  - intros s' y Ey%Hin. by apply (H3 s').
Qed.

(** ** The rosters *)

(** A socket has an end that is attached. *)
Definition lives (o : option connection) (e : bool) (s : nat) : Prop :=
  match o with Some c => owner c e = s /\ live (ends c) e | None => False end.

(** The pipes of a socket; when it terminates, every pipe will tell it that it has gone. *)
Record roster_ok (x : socket_t) : Prop := {
  o_once : NoDup (pipes x);
  o_acks : term_acks x = if terminating x then Z.of_nat (length (pipes x)) else 0;
  o_wf : Mm.wf (inprocs x);
  o_vals : NoDup (map Mm.val (Mm.items (inprocs x)));
  o_inprocs : forall n, n ∈ Mm.items (inprocs x) -> Mm.val n ∈ pipes x
}.

Record rosters (w : world) : Prop := {
  r_pipes : forall s x p e, sockets w !! s = Some x -> (p, e) ∈ pipes x <-> lives (connections w !! p) e s;
  r_owner : forall p e s, lives (connections w !! p) e s -> is_Some (sockets w !! s);
  r_ok : forall s x, sockets w !! s = Some x -> roster_ok x
}.

Definition roster (x : socket_t) : bool * Z * list (nat * bool) * Mm.mmap (list Z) (nat * bool) :=
  (terminating x, term_acks x, pipes x, inprocs x).

Lemma roster_ok_eq x y : roster x = roster y -> roster_ok y -> roster_ok x.
Proof. intros [= E1 E2 E3 E4] [H1 H2 H3 H4 H5]. split; rewrite ?E1, ?E2, ?E3, ?E4; done. Qed.

Definition same_lives (w w' : world) : Prop := forall p e s, lives (connections w' !! p) e s <-> lives (connections w !! p) e s.

Lemma ro_alike w w' : same_lives w w' -> alike roster w w' -> rosters w -> rosters w'.
Proof.
  intros Hl Ha [H1 H2 H3]. split.
  - intros s x p e Ex. destruct (alike_to roster w w' s x Ha Ex) as (y & Ey & [= _ _ -> _]). by rewrite (Hl p e s), (H1 s y).
  - intros p e s Hp. apply Hl, H2 in Hp as [x Ex]. destruct (alike_from roster w w' s x Ha Ex) as (y & ? & _). by exists y.
  - intros s x Ex. destruct (alike_to roster w w' s x Ha Ex) as (y & Ey & Hy). apply (roster_ok_eq x y Hy). by apply (H3 s).
Qed.

(** The ends of one socket change. *)
Lemma ro_change w w' s f x : sockets w !! s = Some x -> alike roster (on_socket s f w) w' -> roster_ok (f x) ->
  (forall p e, (p, e) ∈ pipes (f x) <-> lives (connections w' !! p) e s) ->
  (forall p e s', s' <> s -> lives (connections w' !! p) e s' <-> lives (connections w !! p) e s') ->
  rosters w -> rosters w'.
Proof.
  intros Ex Ha Hok Hp Hl [H1 H2 H3].
  assert (Hto : forall s' y, sockets w' !! s' = Some y ->
    s' = s /\ roster y = roster (f x) \/ s' <> s /\ exists y0, sockets w !! s' = Some y0 /\ roster y = roster y0).
  { intros s' y Ey. destruct (alike_to roster _ w' s' y Ha Ey) as (y0 & Ey0 & Hy). apply on_socket_inv in Ey0 as (y1 & Ey1 & ->).
    destruct (decide (s = s')) as [<-|Hne]; [left; split; [done|by rewrite Ex in Ey1; injection Ey1 as <-]|].
    right. split; [congruence|]. by exists y1. }
  split.
  - intros s' y p e Ey. destruct (Hto s' y Ey) as [[-> [= _ _ -> _]]|(Hne & y0 & Ey0 & [= _ _ -> _])].
    + apply Hp.
    + by rewrite (H1 s' y0), Hl.
  - intros p e s' Hs. assert (Hs' : is_Some (sockets (on_socket s f w) !! s')).
    { apply on_socket_is. destruct (decide (s' = s)) as [->|Hne]; [by eexists|]. by apply (H2 p e), Hl. }
    destruct Hs' as [z Ez]. destruct (alike_from roster _ w' s' z Ha Ez) as (y & ? & _). by exists y.
  - intros s' y Ey. destruct (Hto s' y Ey) as [[-> Hy]|(Hne & y0 & Ey0 & Hy)]; apply (roster_ok_eq _ _ Hy); [done|by apply (H3 s')].
Qed.

(** A socket has one more end. *)
Definition gains (p : nat) (e : bool) (s : nat) (w w' : world) : Prop :=
  (forall s', ~ lives (connections w !! p) e s') /\
  forall q e' s', lives (connections w' !! q) e' s' <-> lives (connections w !! q) e' s' \/ (q, e', s') = (p, e, s).

Lemma ro_gain w w' s f x p e : sockets w !! s = Some x -> gains p e s w w' -> alike roster (on_socket s f w) w' ->
  pipes (f x) = pipes x ++ [(p, e)] -> (NoDup (pipes (f x)) -> (p, e) ∉ pipes x -> roster_ok x -> roster_ok (f x)) ->
  rosters w -> rosters w'.
Proof.
  intros Ex [Hn Hl] Ha Hp Hok Hr. pose proof Hr as [H1 H2 H3].
  assert (Hnew : (p, e) ∉ pipes x) by (intros Hin; apply (H1 s x p e Ex) in Hin; by apply (Hn s)).
  apply (ro_change w w' s f x Ex Ha); [| | |done].
  - apply Hok; [|done|by apply (H3 s)]. rewrite Hp. apply NoDup_app. split_and!; [apply (H3 s x Ex)| |apply NoDup_singleton].
    by intros q Hq ->%list_elem_of_singleton.
  - intros q e'. rewrite Hp, elem_of_app, list_elem_of_singleton, (H1 s x), Hl by done. split; (intros [?|[= -> ->]]; [by left|by right]).
  - intros q e' s' Hne. rewrite Hl. split; [intros [?|[= _ _ ?]]; done|by left].
Qed.

(** The second end of a pair is attached. *)
Lemma gains_second p c t b (w w' : world) : connections w !! p = Some c -> connections w' !! p = Some (Connection t (connector c) b) ->
  (forall q, q <> p -> connections w' !! q = connections w !! q) ->
  ~ live (ends c) true -> live t true -> (live t false <-> live (ends c) false) -> gains p true b w w'.
Proof.
  intros Ec Ec' Hq Hn Ht Hf. split.
  - intros s'. rewrite Ec. by intros [_ ?].
  - intros q e s'. destruct (decide (q = p)) as [->|Hne].
    + rewrite Ec, Ec'. destruct e; simpl.
      * split; [intros [<- _]; by right|]. intros [[_ ?]|[= <-]]; done.
      * rewrite Hf. split; [by left|]. by intros [?|[= ]].
    + rewrite Hq by done. split; [by left|]. intros [?|[= ? _ _]]; done.
Qed.

(** The first end of a new pair is attached. *)
Lemma gains_first l s tid_ t (w w' : world) : places l w -> connections w' = connections (opened s tid_ t w) ->
  live t false -> ~ live t true -> gains (next_connection w) false s w w'.
Proof.
  intros Hl Hc Hf Ht. assert (Hn : connections w !! next_connection w = None).
  { destruct (connections w !! next_connection w) as [c|] eqn:Ec; [|done]. pose proof (p_next l w Hl _ c Ec). lia. }
  split.
  - intros s'. rewrite Hn. by intros [].
  - intros q e s'. rewrite Hc. destruct (decide (q = next_connection w)) as [->|Hne].
    + rewrite opened_at, Hn. destruct e; simpl.
      * split; [by intros [_ ?]|]. by intros [?|[= ]].
      * split; [intros [<- _]; by right|]. intros [?|[= ->]]; done.
    + simpl. rewrite lookup_insert_ne by done. split; [by left|]. intros [?|[= ? _ _]]; done.
Qed.

Lemma attaching_ok p e x : NoDup (pipes (attaching p e x)) -> (p, e) ∉ pipes x -> roster_ok x -> roster_ok (attaching p e x).
Proof.
  intros Hnd _ [H1 H2 H3 H4 H5]. split; try done.
  - simpl. rewrite H2, length_app. simpl. destruct (terminating x); lia.
  - intros n Hn. simpl in *. rewrite elem_of_app. left. by apply H5.
Qed.

Lemma linked_ok a p x : terminating x = false -> NoDup (pipes (linked a p x)) -> (p, false) ∉ pipes x -> roster_ok x -> roster_ok (linked a p x).
Proof.
  intros Ht Hnd Hnew [H1 H2 H3 H4 H5]. assert (Hperm := Mm.insert_perm (inprocs x) a (p, false)). split; try done; simpl.
  - rewrite Ht in *. done.
  - by apply Mm.wf_insert.
  - rewrite Hperm. simpl. constructor; [|done]. intros (n & Hq & Hn)%list_elem_of_fmap. apply Hnew. rewrite Hq. by apply H5.
  - intros n. rewrite Hperm. intros [->|Hn]%elem_of_cons; rewrite elem_of_app; [right; simpl; constructor|left; by apply H5].
Qed.

(** A socket has an end no more. *)
Lemma ro_lose w w' s f x p e : sockets w !! s = Some x -> alike roster (on_socket s f w) w' ->
  (forall q e' s', lives (connections w' !! q) e' s' <-> lives (connections w !! q) e' s' /\ (q, e') <> (p, e)) ->
  (forall s', lives (connections w !! p) e s' -> s' = s) ->
  pipes (f x) ≡ₚ filter (fun r => r <> (p, e)) (pipes x) -> roster_ok (f x) -> rosters w -> rosters w'.
Proof.
  intros Ex Ha Hl Hs Hp Hok Hr. pose proof Hr as [H1 H2 H3].
  apply (ro_change w w' s f x Ex Ha Hok); [| |done].
  - intros q e'. rewrite Hp, list_elem_of_filter, (H1 s x), Hl by done. tauto.
  - intros q e' s' Hne. rewrite Hl. split; [by intros [? _]|]. intros Hli. split; [done|]. intros [= -> ->]. by apply Hne, Hs.
Qed.

(** What a socket knows of its ends changes, its ends do not. *)
Lemma ro_on w s f x : sockets w !! s = Some x -> pipes (f x) = pipes x -> roster_ok (f x) -> rosters w -> rosters (on_socket s f w).
Proof.
  intros Ex Hp Hok Hr. apply (ro_change w _ s f x Ex (alike_refl roster _) Hok); [|done|done].
  intros q e. rewrite Hp. by apply (r_pipes w Hr).
Qed.

Lemma ro_new w s o : sockets w !! s = None -> rosters w ->
  rosters (set_sockets (<[s := socket_new o]> (sockets w)) w).
Proof.
  intros Es [H1 H2 H3].
  assert (Hout : forall s' y, <[s := socket_new o]> (sockets w) !! s' = Some y ->
    s' = s /\ y = socket_new o \/ sockets w !! s' = Some y).
  { intros s' y. rewrite lookup_insert_Some. intros [[<- <-]|[_ ?]]; [by left|by right]. }
  split.
  - intros s' y p e Ey. destruct (Hout s' y Ey) as [[-> ->]|Ey0]; [|by apply H1]. simpl. split; [by intros ?%elem_of_nil|].
    intros Hl. destruct (H2 p e s Hl) as [z Ez]. congruence.
  - intros p e s' Hl. destruct (H2 p e s' Hl) as [z Ez]. simpl. destruct (decide (s = s')) as [<-|Hne].
    + rewrite lookup_insert_eq. by eexists.
    + rewrite lookup_insert_ne by done. by exists z.
  - intros s' y Ey. destruct (Hout s' y Ey) as [[-> ->]|Ey0]; [|by apply (H3 s')].
    split; simpl; try done; try constructor; try constructor. by intros n ?%elem_of_nil.
Qed.

Lemma ro_gone w s x : sockets w !! s = Some x -> pipes x = [] -> rosters w -> rosters (set_sockets (delete s (sockets w)) w).
Proof.
  intros Es Hp [H1 H2 H3]. split; simpl.
  - intros s' y p e [_ Ey]%lookup_delete_Some. by apply H1.
  - intros p e s' Hl. destruct (H2 p e s' Hl) as [z Ez]. exists z. rewrite lookup_delete_ne; [done|]. intros <-.
    apply (H1 s x p e Es) in Hl. rewrite Hp in Hl. by apply elem_of_nil in Hl.
  - intros s' y [_ Ey]%lookup_delete_Some. by apply (H3 s').
Qed.

(** ** The invariant *)

(** With [l] the connections that are pending, and the debts [d] of the numbers. *)
Record inv_with (d : nat -> Z) (l : list waiter) (w : world) : Prop := {
  i_numbers : numbers d l w;
  i_tables : tables l w;
  i_places : places l w;
  i_rosters : rosters w
}.

Definition inv (w : world) : Prop := inv_with (fun _ => 0) (Mm.items (pending_connections w)) w.
End Inv.
End InprocInv.
