(* ===== verification/InprocSafe.v ===== *)
(** * InprocSafe: the operations of [Inproc] run, and keep the invariant

    Every operation succeeds in a state of the invariant, and gives one; only binding may
    fail, when it cannot send a routing id to a socket that had connected. *)

From stdpp Require Import relations.
From S2P Require Import Prelude Multimap Pipes Yqueue Ypipe Conflate Pipe PipeSteps PipeRuns PipeLive PipeJoin Inproc InprocOps InprocInv.

Module InprocSafe.
Import Inproc PipeJoin InprocOps InprocInv.

Section Safe.
Context {T : Type} `{RoutingIds T}.

Abbreviation world := (@world T).
Abbreviation action := (@Pipe.action T).
Abbreviation waiter := (Mm.node (list Z) pending_connection_t).

(** ** The ends after a change *)
Lemma put_lives p c t e (w : world) q e' s' : connections w !! p = Some c -> live_after (ends c) t e ->
  lives (connections (put p t w) !! q) e' s'
  <-> lives (connections w !! q) e' s' /\ ((q, e') <> (p, e) \/ ~ told (ends c) t e).
Proof.
  intros Ec [_ Hl]. destruct (decide (q = p)) as [->|Hne].
  - rewrite (put_at p t c w Ec), Ec. simpl. rewrite (Hl e'). split.
    + intros (? & ? & Hn). split; [done|]. destruct (PipeSteps.bool_cases e e') as [->| ->]; [right; tauto|left; intros [= ?]; by destruct e].
    + intros [[? ?] Hn]. split; [done|]. split; [done|]. intros [-> ?]. destruct Hn as [Hn|Hn]; done.
  - simpl. rewrite lookup_alter_ne by done. split; [|by intros [? _]]. intros ?. split; [done|]. left. by intros [= ? _].
Qed.

Lemma put_same_lives p c t (w : world) : connections w !! p = Some c -> (forall e, live t e <-> live (ends c) e) -> same_lives w (put p t w).
Proof.
  intros Ec Hl q e s. destruct (decide (q = p)) as [->|Hne].
  - rewrite (put_at p t c w Ec), Ec. simpl. by rewrite Hl.
  - simpl. by rewrite lookup_alter_ne.
Qed.

Lemma inv_ext d d' l (w : world) : (forall s, d s = d' s) -> inv_with d l w -> inv_with d' l w.
Proof. intros Hd [H1 H2 H3 H4]. split; [by apply (num_ext d)|done..]. Qed.

Lemma inv_perm d l l' (w : world) : l ≡ₚ l' -> inv_with d l w -> inv_with d l' w.
Proof.
  intros Hp [H1 H2 H3 H4]. split; [by apply (num_perm d l)| |by apply (pl_perm l)|done].
  apply (tab_sub l); [|done]. intros n. by rewrite Hp.
Qed.

(** A socket changes in a way that no part looks at, but for the tables. *)
Lemma inv_quiet d l s f (w : world) : (forall x, core (f x) = core x) -> (forall x, letters (f x) = letters x) ->
  (forall x, roster (f x) = roster x) -> numbers d l (on_socket s f w) -> forall d0, inv_with d0 l w -> inv_with d l (on_socket s f w).
Proof.
  intros Hc Hl Hr Hn d0 [_ H2 H3 H4]. split; [done|..].
  - apply (tab_alike l w); [done|by apply alike_on|done].
  - apply (pl_alike l w); [done|done|by apply alike_on|done].
  - apply (ro_alike w); [done|by apply alike_on|done].
Qed.

(** ** Who is there *)
Lemma pending_waits l (w : world) n : places l w -> n ∈ l -> exists c, connections w !! waiter_pair n = Some c /\ waiting (ends c)
  /\ socket (endpoint (Mm.val n)) = connector c /\ bind_tid c = connector c.
Proof.
  intros Hp Hn. destruct (p_pending l w Hp n Hn) as (c & Ec & Hc). exists c. split; [done|]. split; [|done].
  destruct (p_place l w Hp _ c Ec) as (k & Hk & Hk1 & _). assert (k = Waiting) as ->; [|done]. apply Hk1.
  by apply list_elem_of_fmap_2.
Qed.

Lemma pending_socket d l (w : world) n : inv_with d l w -> n ∈ l -> is_Some (sockets w !! socket (endpoint (Mm.val n))).
Proof.
  intros Hi Hn. destruct (pending_waits l w n (i_places _ _ _ Hi) Hn) as (c & Ec & Hw & -> & _).
  apply (r_owner w (i_rosters _ _ _ Hi) (waiter_pair n) false). rewrite Ec. split; [done|]. by apply waiting_lives.
Qed.

Lemma nobody d l (w : world) s : inv_with d l w -> sockets w !! s = None -> coming s l w = 0%nat.
Proof.
  intros Hi Es. unfold coming. rewrite Es. simpl. assert (pending_of s l = 0%nat /\ callers s w = 0%nat) as [-> Hc]; [|by unfold callers in Hc; rewrite Hc].
  split.
  - unfold pending_of. rewrite length_zero_iff_nil. destruct (filter _ l) as [|n m] eqn:E; [done|].
    assert (Hin : n ∈ filter (fun n => socket (endpoint (Mm.val n)) = s) l) by (rewrite E; constructor).
    apply list_elem_of_filter in Hin as [<- Hin]. destruct (pending_socket d l w n Hi Hin) as [x Ex]. congruence.
  - unfold callers. rewrite map_size_empty_iff. apply map_empty. intros s'. apply map_lookup_filter_None. right.
    intros a Ea Hc. simpl in Hc. rewrite lookup_fmap in Ea. destruct (sockets w !! s') as [y|] eqn:Ey; [|done].
    injection Ea as <-. pose proof (t_busy l w (i_tables _ _ _ Hi) s' y Ey) as Hb. unfold busy in Hb.
    destruct (doing y) as [| |a [e|]]; try done. destruct Hb as [_ Hb]. destruct (Hb e eq_refl) as [z Ez]. simpl in Hc. congruence.
Qed.

(** ** The simple steps *)
Lemma run_create (w : world) s o : inv w -> sockets w !! s = None -> plain o ->
  inv (set_sockets (<[s := socket_new o]> (sockets w)) w).
Proof.
  intros Hi Es Ho. pose proof Hi as [H1 H2 H3 H4]. split.
  - apply num_new; [done|by apply (nobody (fun _ => 0))|done].
  - by apply tab_new.
  - by apply pl_new.
  - by apply ro_new.
Qed.

Lemma run_register (w : world) s x a : inv w -> sockets w !! s = Some x -> doing x = Idle -> tag x = true ->
  exists w' rc, bind_register s a w = Done (w', rc) /\ inv w'.
Proof.
  intros [H1 H2 H3 H4] Ex Hd Ht. unfold bind_register, register_endpoint. rewrite (sbind_done _ _ _ _ _ (this_done s x w Ex)).
  unfold sbind at 1. destruct (endpoints w !! a) as [e|] eqn:Ea; [by exists w, (Some EADDRINUSE)|].
  set (w1 := set_endpoints (<[a := Endpoint s (opts x)]> (endpoints w)) w).
  exists (on_socket s (with_doing (Binding a)) w1), None. split.
  { change ((Inproc.upd s (with_doing (Binding a)) ;;; sret (@None errno)) w1 = Done (on_socket s (with_doing (Binding a)) w1, None)).
    by rewrite (sbind_done _ _ _ _ _ (socket_upd s x _ w1 Ex)). }
  split.
  - eapply num_ext; [|apply (num_doing (fun _ => 0) _ w1 s x (Binding a) Ex); exact H1].
    intros s'. by rewrite Hd.
  - by apply tab_register.
  - apply (pl_alike _ w); [done|done|exact (alike_on letters s (with_doing (Binding a)) w1 (fun _ => eq_refl))|done].
  - apply (ro_alike w); [done|exact (alike_on roster s (with_doing (Binding a)) w1 (fun _ => eq_refl))|done].
Qed.

Lemma run_find (w : world) s x a : inv w -> sockets w !! s = Some x -> doing x = Idle -> tag x = true ->
  exists w', connect_find s a w = Done (w', tt) /\ inv w'.
Proof.
  intros [H1 H2 H3 H4] Ex Hd Ht. pose proof (t_term _ w H2 s x Ex) as Htm.
  assert (Hdo : forall (w1 : world) x1 peer, sockets w1 !! s = Some x1 -> core x1 = core x -> tables (Mm.items (pending_connections w)) w1 ->
    (forall e, peer = Some e -> is_Some (sockets w1 !! socket e)) -> tables (Mm.items (pending_connections w)) (on_socket s (with_doing (Connecting a peer)) w1)).
  { intros w1 x1 peer Ex1 [= Ho Htg Hte Hdo] Hw1 Hp. apply (tab_on _ w1 s _ x1 Ex1); simpl; try done.
    - split; [simpl; congruence|done].
    - exact (t_plain _ w1 Hw1 s x1 Ex1).
    - exact (t_term _ w1 Hw1 s x1 Ex1).
    - intros b e E <-. destruct (t_endpoints _ w1 Hw1 b e E) as (y & Ey & Hy). congruence.
    - intros n e Hn E <-. destruct (t_pending _ w1 Hw1 n e Hn E) as (y & Ey & Hy). congruence. }
  unfold connect_find, find_endpoint. unfold sbind at 1. destruct (endpoints w !! a) as [e|] eqn:Ea.
  - destruct (t_endpoints _ w H2 a e Ea) as (y & Ey & _). unfold inc_seqnum. rewrite (sbind_done _ _ _ _ _ (socket_upd _ y incd w Ey)).
    unfold sret. set (w1 := on_socket (socket e) incd w).
    destruct (alike_from core w w1 s x) as (x1 & Ex1 & Hx1); [by apply alike_on|done|].
    exists (on_socket s (with_doing (Connecting a (Some e))) w1). split; [exact (socket_upd s x1 _ w1 Ex1)|]. split.
    + eapply num_ext; [|apply (num_doing (fun s' => 0 + one (socket e) s') _ w1 s x1 (Connecting a (Some e)) Ex1), (num_inc (fun _ => 0) _ w _ y Ey H1)].
      intros s'. injection Hx1 as _ _ _ ->. rewrite Hd, calling_peer, calling_idle. lia.
    + apply (Hdo w1 x1); [done|done|apply (tab_alike _ w); [done|by apply alike_on|done]|].
      intros e' [= <-]. exists (incd y). by apply socket_at.
    + apply (pl_alike _ w); [done|done| |done]. eapply alike_trans; [|by apply alike_on]. by apply alike_on.
    + apply (ro_alike w); [done| |done]. eapply alike_trans; [|by apply alike_on]. by apply alike_on.
  - exists (on_socket s (with_doing (Connecting a None)) w). split; [exact (socket_upd s x _ w Ex)|]. split.
    + eapply num_ext; [|apply (num_doing (fun _ => 0) _ w s x (Connecting a None) Ex H1)]. intros s'. by rewrite Hd.
    + by apply (Hdo w x).
    + apply (pl_alike _ w); [done|done|by apply alike_on|done].
    + apply (ro_alike w); [done|by apply alike_on|done].
Qed.

Lemma run_close (w : world) s x : inv w -> sockets w !! s = Some x -> doing x = Idle ->
  exists w', close s w = Done (w', tt) /\ inv w'.
Proof.
  intros [H1 H2 H3 H4] Ex Hd. unfold close. rewrite (socket_upd s x _ w Ex). eexists. split; [done|]. split.
  - apply (num_alike _ _ w); [by apply alike_on|done].
  - apply (tab_on _ w s _ x Ex); try done.
    + unfold busy. simpl. by rewrite Hd.
    + exact (t_plain _ w H2 s x Ex).
    + intros a e E <-. destruct (t_endpoints _ w H2 a e E) as (y & Ey & Hy). simpl. congruence.
    + intros n e Hn E <-. destruct (t_pending _ w H2 n e Hn E) as (y & Ey & Hy). simpl. congruence.
  - apply (pl_alike _ w); [done|done|by apply alike_on|done].
  - apply (ro_alike w); [done|by apply alike_on|done].
Qed.

Lemma run_deallocate (w : world) s x : inv w -> sockets w !! s = Some x -> terminating x = true ->
  processed_seqnum x = sent_seqnum x -> term_acks x = 0 -> Z.of_nat (coming s (Mm.items (pending_connections w)) w) < 2 ^ 32 ->
  exists w', deallocate s w = Done (w', tt) /\ inv w'.
Proof.
  intros [H1 H2 H3 H4] Ex Ht Hp Ha Hc. unfold deallocate. rewrite Ex. simpl. rewrite Ht, Hp, Ha, Z.eqb_refl. simpl.
  eexists. split; [reflexivity|].
  pose proof (num_zero _ w s x H1 Ex Hp Hc) as Hz. unfold coming in Hz. fold (callers s w) in Hz. rewrite Ex in Hz. simpl in Hz.
  assert (Hd : doing x = Idle).
  { pose proof (t_busy _ w H2 s x Ex) as Hb. pose proof (t_term _ w H2 s x Ex Ht) as Htg. unfold busy in Hb.
    destruct (doing x); [done|destruct Hb; congruence..]. }
  assert (Hm : mailbox x = []) by (destruct (mailbox x); [done|simpl in Hz; lia]).
  assert (Hps : pipes x = []).
  { pose proof (o_acks x (r_ok w H4 s x Ex)) as Hk. rewrite Ht, Ha in Hk. destruct (pipes x); [done|simpl in Hk; lia]. }
  split.
  - by apply (num_gone _ w s x).
  - apply (tab_gone _ w s x); [done|done|lia|done].
  - by apply (pl_gone _ w s x).
  - by apply (ro_gone w s x).
Qed.

(** ** Ends that terminate, and are gone *)
Lemma inv_put d l (w : world) p c k t : connections w !! p = Some c -> placed k p l w -> shape k t ->
  (forall e, live t e <-> live (ends c) e) -> inv_with d l w -> inv_with d l (put p t w).
Proof.
  intros Ec Hk Ht Hl [H1 H2 H3 H4]. split.
  - by apply (num_alike d l w).
  - by apply (tab_alike l w).
  - by apply (pl_put l w p c k).
  - apply (ro_alike w); [by apply (put_same_lives p c)|done|done].
Qed.

Lemma run_terminate_pipes d l b ps : forall w : world, inv_with d l w ->
  (forall p e, (p, e) ∈ ps -> exists s, lives (connections w !! p) e s) ->
  exists w', terminate_pipes b ps w = Done (w', tt) /\ inv_with d l w' /\ sockets w' = sockets w /\ endpoints w' = endpoints w
    /\ pending_connections w' = pending_connections w.
Proof.
  induction ps as [|[p e] ps IH]; intros w Hi Hps; [by exists w|].
  destruct (Hps p e) as [s Hl]; [constructor|]. destruct (connections w !! p) as [c|] eqn:Ec; [|done]. destruct Hl as [_ Hl].
  destruct (place_of l w p c (i_places _ _ _ Hi) Ec) as (k & Hk & Hpl).
  destruct (terminate_step k (ends c) e b Hk Hl) as (t & E & Ht & Hlt).
  destruct (IH (put p t w)) as (w' & E' & Hi' & Hs' & He' & Hp').
  { by apply (inv_put d l w p c k t). }
  { intros q e' Hq. destruct (Hps q e') as [s' Hl']; [by right|]. exists s'. by apply (put_same_lives p c t w Ec Hlt). }
  exists w'. split; [|done]. cbn [terminate_pipes]. by rewrite (sbind_done _ _ _ _ _ (on_pair_done p c _ t tt w Ec E)).
Qed.

Lemma run_update_pipes d l i o ps : forall w : world, inv_with d l w ->
  (forall p e, (p, e) ∈ ps -> exists s, lives (connections w !! p) e s) ->
  (forall p e c, (p, e) ∈ ps -> connections w !! p = Some c -> Pipe.acked (ends c) e = false) ->
  exists w', update_pipes o i ps w = Done (w', tt) /\ inv_with d l w' /\ pending_connections w' = pending_connections w.
Proof.
  induction ps as [|[p e] ps IH]; intros w Hi Hps Hack; [by exists w|].
  destruct (Hps p e) as [s Hl]; [constructor|]. destruct (connections w !! p) as [c|] eqn:Ec; [|done]. destruct Hl as [_ Hl].
  destruct (place_of l w p c (i_places _ _ _ Hi) Ec) as (k & Hk & Hpl).
  destruct (hwms_step k (ends c) e i o Hk Hl) as (t & E & Ht & Hlt & Hat); [by apply (Hack p e c); [constructor|]|].
  destruct (IH (put p t w)) as (w' & E' & Hi' & Hp').
  { by apply (inv_put d l w p c k t). }
  { intros q e' Hq. destruct (Hps q e') as [s' Hl']; [by right|]. exists s'. by apply (put_same_lives p c t w Ec Hlt). }
  { intros q e' c' Hq Ec'. destruct (decide (q = p)) as [->|Hne].
    - rewrite (put_at p t c w Ec) in Ec'. injection Ec' as <-. cbn [ends]. rewrite Hat. by apply (Hack p e' c); [right|].
    - unfold put in Ec'. cbn [set_connections connections] in Ec'. rewrite lookup_alter_ne in Ec' by done. by apply (Hack q e' c'); [right|]. }
  exists w'. split; [|done]. cbn [update_pipes]. by rewrite (sbind_done _ _ _ _ _ (on_pair_done p c _ t tt w Ec E)).
Qed.

Lemma roster_pipes (w : world) s x p e : rosters w -> sockets w !! s = Some x -> (p, e) ∈ pipes x -> exists s', lives (connections w !! p) e s'.
Proof. intros Hr Ex Hp. exists s. by apply (r_pipes w Hr s x). Qed.

Lemma run_options (w : world) s x o : inv w -> sockets w !! s = Some x -> plain o ->
  inv (on_socket s (with_opts o) w).
Proof.
  intros [H1 H2 H3 H4] Ex Ho. split.
  - apply (num_alike _ _ w); [by apply alike_on|done].
  - apply (tab_on _ w s _ x Ex); try done.
    + pose proof (t_busy _ w H2 s x Ex) as Hb. unfold busy in *. simpl. by destruct (doing x).
    + exact (t_term _ w H2 s x Ex).
    + intros a e E <-. destruct (t_endpoints _ w H2 a e E) as (y & Ey & Hy). simpl. congruence.
    + intros n e Hn E <-. destruct (t_pending _ w H2 n e Hn E) as (y & Ey & Hy). simpl. congruence.
  - apply (pl_alike _ w); [done|done|by apply alike_on|done].
  - apply (ro_alike w); [done|by apply alike_on|done].
Qed.

Lemma run_setsockopt (w : world) s x option_ o : inv w -> sockets w !! s = Some x -> plain o ->
  (is_watermark option_ = true -> forall p e c, (p, e) ∈ pipes x -> connections w !! p = Some c -> Pipe.acked (ends c) e = false) ->
  exists w', setsockopt s option_ o w = Done (w', tt) /\ inv w'.
Proof.
  intros Hi Ex Ho Ha. pose proof (run_options w s x o Hi Ex Ho) as Hi1. unfold setsockopt.
  rewrite (sbind_done _ _ _ _ _ (socket_upd s x _ w Ex)). unfold update_pipe_options. destruct (is_watermark option_); [|by eexists].
  rewrite (sbind_done _ _ _ _ _ (this_done s _ _ (socket_at s _ x w Ex))).
  destruct (run_update_pipes _ _ (rcvhwm o) (sndhwm o) (pipes x) (on_socket s (with_opts o) w) Hi1) as (w' & E & Hi' & Hp).
  { intros p e Hp. exists s. by apply (r_pipes w (i_rosters _ _ _ Hi) s x). }
  { intros p e c Hp Ec. by apply (Ha eq_refl p e c). }
  exists w'. split; [exact E|]. unfold inv. by rewrite Hp.
Qed.

Lemma run_term (w : world) s x : inv w -> sockets w !! s = Some x -> tag x = false -> terminating x = false ->
  exists w', process_term s w = Done (w', tt) /\ inv w'.
Proof.
  intros Hi Ex Htg Ht. pose proof Hi as [H1 H2 H3 H4]. unfold process_term.
  set (m := filter (fun x => socket x.2 <> s) (endpoints w)). set (w1 := set_endpoints m w).
  assert (Hd : doing x = Idle).
  { pose proof (t_busy _ w H2 s x Ex) as Hb. unfold busy in Hb. destruct (doing x); [done|destruct Hb; congruence..]. }
  assert (Hm : forall a e, m !! a = Some e -> endpoints w !! a = Some e /\ socket e <> s).
  { intros a e [E Hn]%map_lookup_filter_Some. done. }
  assert (Hi1 : inv_with (fun _ => 0) (Mm.items (pending_connections w)) w1).
  { split; [done| |by apply (pl_alike _ w)|by apply (ro_alike w)].
    apply (tab_unregister _ w m); [by intros a e [? _]%Hm| |done]. intros a s' y Ey Hdo.
    pose proof (t_busy _ w H2 s' y Ey) as Hb. unfold busy in Hb. rewrite Hdo in Hb. destruct Hb as (_ & e & E & He).
    rewrite E. apply map_lookup_filter_Some. split; [done|]. simpl. rewrite He. intros ->. congruence. }
  destruct (run_terminate_pipes _ _ false (pipes x) w1 Hi1) as (w2 & E2 & Hi2 & Hs2 & He2 & Hp2).
  { intros p e Hp. by apply (roster_pipes w s x). }
  assert (Ex2 : sockets w2 !! s = Some x) by (by rewrite Hs2).
  set (f := fun x => with_term true (term_acks x + Z.of_nat (length (pipes x))) x).
  exists (on_socket s f w2). split.
  { rewrite (sbind_done (unregister_endpoints s) _ w w1 tt eq_refl).
    rewrite (sbind_done _ _ _ _ _ (this_done s x w1 Ex)), (sbind_done _ _ _ _ _ E2). by rewrite (socket_upd s x f w2 Ex2). }
  unfold inv. change (pending_connections (on_socket s f w2)) with (pending_connections w2). rewrite Hp2.
  destruct Hi2 as [N2 T2 P2 R2]. split.
  - apply (num_alike _ _ w2); [by apply alike_on|done].
  - apply (tab_on _ w2 s f x Ex2); try done.
    + unfold busy. simpl. by rewrite Hd.
    + exact (t_plain _ w2 T2 s x Ex2).
    + intros a e E. rewrite He2 in E. by apply Hm in E as [_ ?].
    + intros n e Hn E. rewrite He2 in E. by apply Hm in E as [_ ?].
  - apply (pl_alike _ w2); [done|done|by apply alike_on|done].
  - apply (ro_on w2 s f x Ex2); [done| |done]. destruct (r_ok w2 R2 s x Ex2) as [O1 O2 O3 O4 O5]. split; try done.
    simpl. rewrite O2, Ht. lia.
Qed.

Lemma erase_key_wf {K V} `{EqDecision K, !KeyOrder K} (m : Mm.mmap K V) k : Mm.wf m -> Mm.wf (Mm.erase_key m k).
Proof.
  intros [H1 H2 H3]. assert (Hs : filter (fun n => Mm.key n <> k) (Mm.items m) `sublist_of` Mm.items m) by apply sublist_filter.
  split; simpl.
  - revert H1. clear. induction (Mm.items m) as [|n l IH]; [done|]. simpl. intros Hs. inversion Hs as [|? ? Hs' Hf]; subst.
    rewrite filter_cons. case_decide; [|by apply IH]. simpl. constructor; [by apply IH|].
    rewrite Forall_forall in *. intros q (n' & -> & Hn)%list_elem_of_fmap. apply list_elem_of_filter in Hn as [_ Hn].
    apply Hf. by apply list_elem_of_fmap_2.
  - eapply sublist_NoDup; [exact H2|]. exact (fmap_sublist Mm.nid _ _ Hs).
  - rewrite Forall_forall in *. intros n [_ Hn]%list_elem_of_filter. by apply H3.
Qed.

Lemma run_term_endpoint (w : world) s x a : inv w -> sockets w !! s = Some x -> doing x = Idle ->
  exists w' rc, term_endpoint s a w = Done (w', rc) /\ inv w'.
Proof.
  intros Hi Ex Hd. pose proof Hi as [H1 H2 H3 H4].
  assert (Hrest : exists w' rc, (let! x := Inproc.this s in
      match Mm.with_key a (Mm.items (inprocs x)) with
      | [] => sret (Some ENOENT)
      | range =>
          terminate_pipes true (map Mm.val range) ;;;
          Inproc.upd s (fun x => with_pipes (pipes x) (Mm.erase_key (inprocs x) a) x) ;;;
          sret None
      end) w = Done (w', rc) /\ inv w').
  { rewrite (sbind_done _ _ _ _ _ (this_done s x w Ex)).
    pose proof (r_ok w H4 s x Ex) as Hok.
    destruct (Mm.with_key a (Mm.items (inprocs x))) as [|n0 range0] eqn:Er; [by exists w, (Some ENOENT)|].
    set (range := n0 :: range0) in *.
    destruct (run_terminate_pipes _ _ true (map Mm.val range) w Hi) as (w2 & E2 & Hi2 & Hs2 & He2 & Hp2).
    { intros p e (n & Hv & Hn)%list_elem_of_fmap. apply (roster_pipes w s x); [done..|]. rewrite Hv. apply (o_inprocs x Hok).
      rewrite <- Er in Hn. by apply list_elem_of_filter in Hn as [_ ?]. }
    assert (Ex2 : sockets w2 !! s = Some x) by (by rewrite Hs2).
    set (f := fun x => with_pipes (pipes x) (Mm.erase_key (inprocs x) a) x).
    exists (on_socket s f w2), None. split.
    { rewrite (sbind_done _ _ _ _ _ E2). by rewrite (sbind_done _ _ _ _ _ (socket_upd s x f w2 Ex2)). }
    unfold inv. change (pending_connections (on_socket s f w2)) with (pending_connections w2). rewrite Hp2.
    destruct Hi2 as [N2 T2 P2 R2]. split.
    - apply (num_alike _ _ w2); [by apply alike_on|done].
    - apply (tab_alike _ w2); [done|by apply alike_on|done].
    - apply (pl_alike _ w2); [done|done|by apply alike_on|done].
    - apply (ro_on w2 s f x Ex2); [done| |done]. destruct Hok as [O1 O2 O3 O4 O5]. split; try done.
      + by apply erase_key_wf.
      + simpl. eapply sublist_NoDup; [exact O4|]. apply (fmap_sublist Mm.val), sublist_filter.
      + intros n Hn. apply O5. by apply list_elem_of_filter in Hn as [_ ?]. }
  unfold term_endpoint, unregister_endpoint. unfold sbind at 1. destruct (endpoints w !! a) as [e|] eqn:Ea; [|exact Hrest].
  destruct (bool_decide_reflect (socket e = s)) as [Hes|Hes]; [|exact Hrest].
  eexists _, _. split; [reflexivity|]. split; [done| |by apply (pl_alike _ w)|by apply (ro_alike w)].
  apply (tab_unregister _ w); [by intros b e' [_ ?]%lookup_delete_Some| |done]. intros b s' y Ey Hdo.
  pose proof (t_busy _ w H2 s' y Ey) as Hb. unfold busy in Hb. rewrite Hdo in Hb. destruct Hb as (_ & e' & E' & He').
  rewrite lookup_delete_ne; [done|]. intros <-. rewrite Ea in E'. injection E' as <-. congruence.
Qed.

(** What a socket forgets when an end has gone. *)
Definition forgets (l : list (nat * bool)) (m : Mm.mmap (list Z) (nat * bool)) (x : socket_t) : socket_t :=
  with_term (terminating x) (if terminating x then term_acks x - 1 else term_acks x) (with_pipes l m x).

Lemma filter_without {A} `{EqDecision A} (q : A) (k : list A) : q ∉ k -> filter (fun r => r <> q) k = k.
Proof.
  induction k as [|y k IH]; [done|]. rewrite not_elem_of_cons. intros [Hy Hk]. rewrite filter_cons, decide_True by congruence.
  by rewrite IH.
Qed.

Lemma filter_at {A} `{EqDecision A} (q : A) (l1 l2 : list A) : NoDup (l1 ++ q :: l2) -> filter (fun r => r <> q) (l1 ++ q :: l2) = l1 ++ l2.
Proof.
  intros Hnd. apply NoDup_app in Hnd as (_ & Hd & Hnd2). apply NoDup_cons in Hnd2 as [Hq2 _].
  rewrite filter_app, filter_cons, decide_False by tauto. rewrite !filter_without; [done|done|].
  intros Hq1. apply (Hd q Hq1). constructor.
Qed.

Lemma erase_pipe_runs q l : NoDup l -> q ∈ l -> exists l', erase_pipe q l = Done l' /\ l' ≡ₚ filter (fun r => r <> q) l.
Proof.
  intros Hnd Hq. unfold erase_pipe.
  destruct (list_find_elem_of (fun r => r = q) l q Hq eq_refl) as [[i r] Hf]. rewrite Hf. cbn [deref obind].
  apply list_find_Some in Hf as (Hi & -> & _). pose proof (list_elem_of_split_length l i q Hi) as (l1 & l2 & -> & ->).
  destruct l2 as [|b l2 _] using rev_ind.
  - rewrite last_snoc. cbn [deref obind]. rewrite insert_app_r_alt, Nat.sub_diag by done. simpl. rewrite removelast_last.
    exists l1. split; [done|]. by rewrite (filter_at q l1 []), app_nil_r.
  - rewrite (app_comm_cons l2 [b] q), app_assoc, last_snoc. cbn [deref obind]. rewrite <- app_assoc, insert_app_r_alt, Nat.sub_diag by done. simpl.
    rewrite app_comm_cons, app_assoc, removelast_last. eexists. split; [done|].
    rewrite (filter_at q l1 (l2 ++ [b])) by done. rewrite app_assoc, (Permutation_app_comm (l1 ++ l2) [b]). simpl. by rewrite Permutation_middle.
Qed.

Lemma filter_ne {A} `{EqDecision A} (q : A) (l : list A) : NoDup l -> q ∈ l ->
  length l = S (length (filter (fun r => r <> q) l)).
Proof.
  intros Hnd Hq. apply list_elem_of_split in Hq as (l1 & l2 & ->). rewrite filter_at by done. rewrite !length_app. simpl. lia.
Qed.

Lemma pipe_terminated_runs (w : world) s x q : sockets w !! s = Some x -> roster_ok x -> q ∈ pipes x ->
  exists l m, pipe_terminated s q w = Done (on_socket s (forgets l m) w, tt) /\ roster_ok (forgets l m x)
    /\ l ≡ₚ filter (fun r => r <> q) (pipes x).
Proof.
  intros Ex Hok Hq. pose proof Hok as [O1 O2 O3 O4 O5]. pose proof (filter_ne q (pipes x) O1 Hq) as Hlen.
  destruct (erase_pipe_runs q (pipes x) O1 Hq) as (l & El & Hl).
  assert (Hf : exists m, (match Mm.find_if (fun n => bool_decide (Mm.val n = q)) (inprocs x) with
      | Some it => let! e := slift (Mm.erase (inprocs x) (Some it)) in sret e.1
      | None => sret (inprocs x) end) w = Done (w, m)
    /\ Mm.wf m /\ NoDup (map Mm.val (Mm.items m)) /\ forall n, n ∈ Mm.items m -> n ∈ Mm.items (inprocs x) /\ Mm.val n <> q).
  { destruct (Mm.find_if _ _) as [it|] eqn:Ef.
    - apply Mm.find_if_some in Ef as (l1 & n & l2 & Hi & Hn & Hit). apply bool_decide_eq_true in Hn.
      exists (Mm.Mmap (l1 ++ l2) (Mm.fresh_id (inprocs x))). split; [|split; [by apply (Mm.wf_erase _ l1 n l2)|]].
      { rewrite Hit. unfold slift, sbind. by rewrite (Mm.erase_at _ l1 n l2 O3 Hi). }
      rewrite Hi, map_app in O4. simpl in O4. apply NoDup_app in O4 as (N1 & N2 & N3). apply NoDup_cons in N3 as [N3 N4].
      split.
      + simpl. rewrite map_app. apply NoDup_app. split_and!; [done| |done]. intros v Hv Hv2. apply (N2 v Hv). by right.
      + simpl. intros n' Hn'. rewrite Hi. apply elem_of_app in Hn' as [Hn'|Hn']; split; rewrite ?elem_of_app, ?elem_of_cons; try tauto.
        * intros Hv. apply (N2 q); [rewrite <- Hv; by apply list_elem_of_fmap_2|rewrite Hn; constructor].
        * intros Hv. apply N3. rewrite Hn, <- Hv. by apply list_elem_of_fmap_2.
    - exists (inprocs x). split; [done|]. split; [done|]. split; [done|]. intros n Hn. split; [done|]. intros Hv.
      apply Mm.find_if_none in Ef. rewrite Forall_forall in Ef. specialize (Ef n Hn). by rewrite Hv, bool_decide_true in Ef. }
  destruct Hf as (m & Em & M1 & M2 & M3). exists l, m. split; [|split; [|done]].
  - unfold pipe_terminated. rewrite (sbind_done _ _ _ _ _ (this_done s x w Ex)), (sbind_done _ _ _ _ _ Em).
    set (f := with_pipes l m).
    rewrite (sbind_done (slift (erase_pipe q (pipes x))) _ w w l) by (unfold slift; by rewrite El).
    rewrite (sbind_done _ _ _ _ _ (socket_upd s x f w Ex)).
    destruct (terminating x) eqn:Et.
    + assert (Ha : (0 <? term_acks x) = true) by (apply Z.ltb_lt; rewrite O2; lia).
      rewrite (sbind_done _ _ _ _ _ (sassert_done _ _ Ha)). erewrite socket_upd; [|by apply (socket_at s f x w)]. do 2 f_equal.
      unfold on_socket, set_sockets. simpl. f_equal. rewrite alter_twice. apply (alter_same _ _ _ s x Ex). unfold forgets, f, with_term, with_pipes. simpl. by rewrite Et.
    + unfold sret. do 2 f_equal. unfold on_socket, set_sockets. f_equal. apply (alter_same _ _ _ s x Ex). unfold f, forgets. rewrite Et.
      unfold with_term, with_pipes. simpl. by rewrite Et.
  - split; simpl; try done.
    + rewrite Hl. by apply NoDup_filter.
    + rewrite O2, Hl. destruct (terminating x); [lia|done].
    + intros n Hn. destruct (M3 n Hn) as [Hn' Hv]. rewrite Hl. apply list_elem_of_filter. split; [done|]. by apply O5.
Qed.

Lemma run_call (w : world) p c k e a t r : inv w -> connections w !! p = Some c ->
  placed k p (Mm.items (pending_connections w)) w -> shape k t -> Pipe.step e a (ends c) = Done (t, r) -> live_after (ends c) t e ->
  exists w', pipe_call p e a w = Done (w', tt) /\ inv w'.
Proof.
  intros Hi Ec Hpl Ht E Hl. pose proof Hi as [H1 H2 H3 H4]. set (l := Mm.items (pending_connections w)) in *.
  set (w1 := put p t w). assert (Ec1 := put_at p t c w Ec). fold w1 in Ec1.
  unfold pipe_call. rewrite Ec. cbn [deref obind]. rewrite (on_pair_done p c _ t r w Ec E). cbn [obind]. fold w1. rewrite Ec1. cbn [deref obind ends owner].
  assert (Htold : Pipe.PipeTerminated ∈ drop (length (Pipe.calls (ends c) e)) (Pipe.calls t e) <-> told (ends c) t e) by done.
  destruct (bool_decide_reflect (Pipe.PipeTerminated ∈ drop (length (Pipe.calls (ends c) e)) (Pipe.calls t e))) as [Hd|Hd].
  - pose proof (proj1 Htold Hd) as Hd'. pose proof (proj1 Hl Hd') as Hlive.
    set (s := owner (Connection t (connector c) (bind_tid c)) e).
    assert (Hs : s = owner c e) by (by destruct e).
    assert (Hli : lives (connections w !! p) e s) by (rewrite Ec; by split).
    destruct (r_owner w H4 p e s Hli) as [x Ex].
    destruct (pipe_terminated_runs w1 s x (p, e) Ex (r_ok w H4 s x Ex)) as (l0 & m & Em & Hok & Hl0).
    { by apply (r_pipes w H4 s x). }
    exists (on_socket s (forgets l0 m) w1). split; [exact Em|].
    unfold inv. change (pending_connections (on_socket s (forgets l0 m) w1)) with (pending_connections w). fold l. split.
    + apply (num_alike _ _ w1); [by apply alike_on|done].
    + apply (tab_alike _ w1); [done|by apply alike_on|by apply (tab_alike l w)].
    + apply (pl_alike _ w1); [done|done|by apply alike_on|by apply (pl_put l w p c k)].
    + apply (ro_lose w _ s (forgets l0 m) x p e Ex).
      * intros s'. reflexivity.
      * intros q e' s'. change (connections (on_socket s (forgets l0 m) w1)) with (connections (put p t w)).
        rewrite (put_lives p c t e w q e' s' Ec Hl). tauto.
      * intros s'. rewrite Ec. intros [<- _]. done.
      * done.
      * done.
      * done.
  - exists w1. split; [done|]. apply (inv_put _ _ w p c k); [done|done|done| |done]. intros e'. rewrite (proj2 Hl e'). tauto.
Qed.

Lemma run_pipe (w : world) p c e a : inv w -> connections w !! p = Some c -> may_call w p c e a ->
  exists w', pipe_call p e a w = Done (w', tt) /\ inv w'.
Proof.
  intros Hi Ec (Ha & Hal & Hwho). destruct (place_of _ w p c (i_places _ _ _ Hi) Ec) as (k & Hk & Hpl).
  destruct Hwho as [Hat|(-> & (n & Hn & Hp) & ->)].
  - destruct (shape_step k (ends c) e a Hk (attached_shape k c e Hk Hat) Ha Hal) as (t & r & E & Ht & Hl).
    by apply (run_call w p c k e a t r).
  - assert (k = Waiting) as ->. { apply Hpl. rewrite <- Hp. by apply (list_elem_of_fmap_2 waiter_pair). }
    destruct (waiting_process (ends c) Hk) as (t & E & Ht & Hl & _). by apply (run_call w p c Waiting true Pipe.Process t Pipe.RUnit).
Qed.

(** ** Commands *)
Lemma run_command (w : world) s x xattach : inv w -> sockets w !! s = Some x -> (forall p, patterned (xattach p)) ->
  exists w', process_command xattach s w = Done (w', tt) /\ inv w'.
Proof.
  intros Hi Ex Hxs. pose proof Hi as [H1 H2 H3 H4]. unfold process_command. rewrite (sbind_done _ _ _ _ _ (this_done s x w Ex)).
  destruct (mailbox x) as [|cmd m] eqn:Em; [by exists w|].
  set (w1 := on_socket s (with_mailbox m) w). assert (Ex1 := socket_at s (with_mailbox m) x w Ex). fold w1 in Ex1.
  rewrite (sbind_done _ _ _ _ _ (socket_upd s x (with_mailbox m) w Ex)). fold w1.
  assert (N1 := num_pop (fun _ => 0) _ w s x cmd m Ex Em H1). fold w1 in N1. destruct cmd as [p|].
  - assert (Hp : p ∈ letters x) by (unfold letters; rewrite Em; simpl; constructor).
    destruct (p_mail _ w H3 s x p Ex Hp) as (c & Ec & Hb). destruct (place_of _ w p c H3 Ec) as (k & Hk & Hpl).
    assert (k = Travelling) as -> by (apply Hpl; by exists s, x). simpl in Hk.
    destruct (arrive w1 s _ p c (xattach p) Ex1 Ec Hk (Hxs p)) as (t & E & Ht & Hl1 & Hl2).
    set (w2 := put p t (on_socket s (attaching p true) w1)) in E.
    assert (Ex2 : sockets w2 !! s = Some (attaching p true (with_mailbox m x))) by (by apply (socket_at s (attaching p true) _ w1)).
    exists (on_socket s processed w2). split.
    { rewrite (sbind_done _ _ _ _ _ E). exact (socket_upd s _ processed w2 Ex2). }
    split.
    + eapply num_ext; [|apply (num_processed (fun s' => 0 + one s s') _ w2 s _ Ex2)]; [simpl; lia|].
      apply (num_alike _ _ w1); [exact (alike_on counted s (attaching p true) w1 (fun _ => eq_refl))|done].
    + apply (tab_alike _ w); [done| |done]. eapply alike_trans; [|by apply alike_on].
      eapply alike_trans; [|exact (alike_on core s (attaching p true) w1 (fun _ => eq_refl))]. by apply alike_on.
    + apply (pl_alike _ (put p t w1)); [done|done| |by apply (pl_arrive _ w s x)].
      eapply alike_trans; [|by apply alike_on]. exact (alike_on letters s (attaching p true) w1 (fun _ => eq_refl)).
    + apply (ro_gain w _ s (attaching p true) x p true Ex); [| |done|by apply attaching_ok|done].
      * rewrite <- Hb. apply (gains_second p c t _ w); [done| | |by apply travelling_lives|done|done].
        -- simpl. by rewrite lookup_alter_eq, Ec.
        -- intros q Hne. simpl. by rewrite lookup_alter_ne.
      * intros s'. destruct (decide (s = s')) as [<-|Hne]; [|by simpl; rewrite !lookup_alter_ne].
        rewrite (socket_at s processed _ w2 Ex2), (socket_at s (attaching p true) x w Ex). done.
  - exists (on_socket s processed w1). split; [exact (socket_upd s _ processed w1 Ex1)|]. split.
    + eapply num_ext; [|apply (num_processed (fun s' => 0 + one s s') _ w1 s _ Ex1 N1)]. simpl. lia.
    + apply (tab_alike _ w); [done| |done]. eapply alike_trans; by apply alike_on.
    + apply (pl_alike _ w); [done|done| |done]. eapply alike_trans; [|by apply alike_on].
      apply (alike_at letters s _ x w Ex). unfold letters. by rewrite Em.
    + apply (ro_alike w); [done| |done]. eapply alike_trans; by apply alike_on.
Qed.

(** ** Connecting *)

(** The last part of a connect: the first end is attached, and the call is over. *)
Lemma inv_link l (w w1 : world) s x a p : sockets w !! s = Some x -> terminating x = false ->
  (forall b, doing x <> Binding b) -> alike core w w1 -> alike roster w w1 ->
  numbers (fun s' => - calling (doing x) s') l w1 -> tables l w1 -> places l w1 -> rosters w ->
  gains p false s w (on_socket s (linked a p) w1) -> inv_with (fun _ => 0) l (on_socket s (linked a p) w1).
Proof.
  intros Ex Ht Hb Hc Hr N1 T1 P1 R Hg. destruct (alike_from core w w1 s x Hc Ex) as (x1 & Ex1 & [= Ho1 Htg1 Ht1 Hd1]). split.
  - apply (num_alike _ _ (on_socket s (with_doing Idle) w1)); [by apply alike_both|].
    eapply num_ext; [|apply (num_doing _ l w1 s x1 Idle Ex1 N1)]. intros s'. rewrite Hd1, calling_idle. lia.
  - apply (tab_alike l (on_socket s (with_doing Idle) w1)); [done|by apply alike_both|].
    apply (tab_on l w1 s _ x1 Ex1); try done; simpl.
    + exact (t_plain l w1 T1 s x1 Ex1).
    + exact (t_term l w1 T1 s x1 Ex1).
    + intros. congruence.
    + intros n e Hn E <-. destruct (t_pending l w1 T1 n e Hn E) as (y & Ey & Hy). rewrite Ex1 in Ey. injection Ey as <-.
      exfalso. apply (Hb (Mm.key n)). congruence.
  - apply (pl_alike l w1); [done|done|by apply alike_on|done].
  - apply (ro_gain w _ s (linked a p) x p false Ex Hg); [|done|by apply linked_ok|done].
    apply alike_under; [|done]. intros y z [= E1 E2 E3 E4]. unfold roster, linked. simpl. by rewrite E1, E2, E3, E4.
Qed.

Lemma run_connect (w : world) s x a peer xs : inv w -> sockets w !! s = Some x -> doing x = Connecting a peer -> patterned xs ->
  exists w', connect_rest xs s a peer w = Done (w', tt) /\ inv w'.
Proof.
  intros Hi Ex Hd Hxs. pose proof Hi as [H1 H2 H3 H4]. set (p := next_connection w). set (l := Mm.items (pending_connections w)) in *.
  pose proof (t_busy l w H2 s x Ex) as Hb. unfold busy in Hb. rewrite Hd in Hb. destruct Hb as [Htg Hpeer].
  assert (Ht : terminating x = false).
  { destruct (terminating x) eqn:Ht; [|done]. by rewrite (t_term l w H2 s x Ex Ht) in Htg. }
  assert (Hp := t_plain l w H2 s x Ex). assert (Hnb : forall b, doing x <> Binding b) by congruence.
  destruct peer as [e|].
  - destruct (Hpeer e eq_refl) as [y Ey].
    destruct (connect_found xs s a w x Ex Hp Ht Hxs e y Ey) as (t & E & Htr & Hlv). fold p in E.
    set (w1 := on_socket (socket e) (pushing (bind p)) (opened s (socket e) t w)) in E.
    exists (on_socket s (linked a p) w1). split; [exact E|].
    apply (inv_link l w w1 s x a p); [done|done|done|exact (alike_on core (socket e) (pushing (bind p)) w (fun _ => eq_refl))
      |exact (alike_on roster (socket e) (pushing (bind p)) w (fun _ => eq_refl))| | | |done|].
    + eapply num_ext; [|apply (num_push (fun _ => 0) l (opened s (socket e) t w) (socket e) y (bind p) Ey H1)].
      intros s'. rewrite Hd, calling_peer. lia.
    + apply (tab_alike l w); [done|exact (alike_on core (socket e) (pushing (bind p)) w (fun _ => eq_refl))|done].
    + by apply (pl_travel l w s (socket e) y).
    + apply (gains_first l s (socket e) t); [done|done|done|by apply travelling_lives].
  - destruct (endpoints w !! a) as [e|] eqn:Ea.
    + destruct (t_endpoints l w H2 a e Ea) as (y & Ey & _).
      destruct (connect_late xs s a w x Ex Hp Ht Hxs e y Ea Ey) as (t & E & Htr & Hlv). fold p in E.
      set (f := fun x => pushing (bind p) (incd x)) in E. set (w1 := on_socket (socket e) f (opened s (socket e) t w)) in E.
      exists (on_socket s (linked a p) w1). split; [exact E|].
      apply (inv_link l w w1 s x a p); [done|done|done|exact (alike_on core (socket e) f w (fun _ => eq_refl))
        |exact (alike_on roster (socket e) f w (fun _ => eq_refl))| | | |done|].
      * unfold w1, f. rewrite <- on_socket_twice. set (w0 := on_socket (socket e) incd (opened s (socket e) t w)).
        eapply num_ext; [|apply (num_push (fun s' => 0 + one (socket e) s') l w0 (socket e) (incd y) (bind p))].
        -- intros s'. rewrite Hd, calling_alone. lia.
        -- by apply (socket_at (socket e) incd y w).
        -- by apply (num_inc (fun _ => 0) l (opened s (socket e) t w) (socket e) y).
      * apply (tab_alike l w); [done|exact (alike_on core (socket e) f w (fun _ => eq_refl))|done].
      * apply (pl_alike l (on_socket (socket e) (pushing (bind p)) (opened s (socket e) t w))); [done|done|by apply alike_both|].
        by apply (pl_travel l w s (socket e) y).
      * apply (gains_first l s (socket e) t); [done|done|done|by apply travelling_lives].
    + destruct (connect_pends xs s a w x Ex Hp Ht Hxs Ea) as (t & E & Hw). fold p in E.
      set (pc := PendingConnection (Endpoint s (opts x)) p) in E.
      set (w0 := on_socket s incd (opened s s t w)) in E. set (w1 := set_pending (Mm.insert (pending_connections w) a pc) w0) in E.
      exists (on_socket s (linked a p) w1). split; [exact E|]. set (n := Mm.Node (Mm.fresh_id (pending_connections w)) a pc).
      apply (inv_perm _ (n :: l)); [symmetry; apply Mm.insert_perm|].
      apply (inv_link (n :: l) w w1 s x a p); [done|done|done|exact (alike_on core s incd w (fun _ => eq_refl))
        |exact (alike_on roster s incd w (fun _ => eq_refl))| | | |done|].
      * eapply num_ext; [|apply (num_pend (fun s' => 0 + one s s') l w1 n)].
        -- intros s'. rewrite Hd, calling_alone. simpl. lia.
        -- by apply (num_inc (fun _ => 0) l (opened s s t w) s x).
      * apply (tab_alike (n :: l) w); [done|exact (alike_on core s incd w (fun _ => eq_refl))|by apply tab_pend].
      * apply (pl_alike (n :: l) (opened s s t w)); [done|done|exact (alike_on letters s incd w (fun _ => eq_refl))|].
        by apply pl_wait.
      * apply (gains_first l s s t); [done|done|by apply waiting_lives|by apply waiting_lives].
Qed.

(** ** Binding *)

(** The routing id cannot be sent to the socket that connected: it is not closed, and its pair's second end has noted
    that the first one terminates, or the pattern that binds has used it. *)
Definition refuses (xattach : nat -> list action) (n : waiter) (w : world) : Prop :=
  exists c y, connections w !! waiter_pair n = Some c /\ sockets w !! socket (endpoint (Mm.val n)) = Some y
    /\ recv_routing_id (options (endpoint (Mm.val n))) = true /\ tag y = true
    /\ (xattach (waiter_pair n) = [] -> exists q, Pipe.ends (ends c) true = Some q /\ Pipe.state q <> Pipe.active).

Lemma run_join l (w : world) bs bo x n xs : inv_with (fun _ => 0) (n :: l) w -> sockets w !! bs = Some x -> terminating x = false ->
  patterned xs ->
  (exists w', connect_inproc_sockets bs bo (Mm.val n) bind_side xs w = Done (w', tt) /\ inv_with (fun _ => 0) l w'
    /\ endpoints w' = endpoints w /\ pending_connections w' = pending_connections w /\ alike core w w'
    /\ (forall q, q <> waiter_pair n -> connections w' !! q = connections w !! q)
    /\ exists x', sockets w' !! bs = Some x' /\ pipes x' = pipes x ++ [(waiter_pair n, true)])
  \/ connect_inproc_sockets bs bo (Mm.val n) bind_side xs w = Crash /\ refuses (fun _ => xs) n w.
Proof.
  intros Hi Ex Ht Hxs. pose proof Hi as [H1 H2 H3 H4]. set (p := waiter_pair n). set (peer := socket (endpoint (Mm.val n))).
  destruct (pending_waits (n :: l) w n H3) as (c & Ec & Hw & Hconn & Htid); [constructor|].
  destruct (pending_socket _ (n :: l) w n Hi) as [y Ey]; [constructor|].
  destruct (join_bind w bs bo (Mm.val n) xs x c y Ex Ht Ec Ey Hw Hxs) as [(s1 & t & E & Hs & L)|(E & Hr & Htg & Hn)].
  2:{ right. split; [done|]. by exists c, y. }
  left. destruct (both_standing t s1 Hs L) as [Hst Hlv]. change (pair (Mm.val n)) with p in E. fold peer in E.
  set (w1 := on_socket bs (bound p) w) in E. set (w2 := on_socket peer (pushing inproc_connected) w1) in E.
  eexists. split; [exact E|].
  assert (Hcore : alike core w w2) by (eapply alike_trans; by apply alike_on).
  split; [|split; [done|split; [done|split; [exact Hcore|split]]]].
  2:{ intros q Hne. simpl. by rewrite !lookup_alter_ne. }
  2:{ destruct (alike_from pipes w1 w2 bs (bound p x)) as (x' & Ex' & Hx'); [by apply alike_on|by apply socket_at|].
      exists x'. split; [exact Ex'|]. by rewrite Hx'. }
  destruct (waiting_lives (ends c) Hw) as (Hl1 & Hl2 & _). split.
  - assert (N1 : numbers (fun _ => 0) (n :: l) w1).
    { unfold w1. change (bound p) with (fun x => processed (attaching p true (incd x))).
      rewrite <- (on_socket_twice bs processed (fun x => attaching p true (incd x))), <- (on_socket_twice bs (attaching p true) incd).
      eapply num_ext; [|apply (num_processed (fun s' => 0 + one bs s') _ _ bs (attaching p true (incd x)))].
      - intros s'. simpl. lia.
      - by apply socket_at, (socket_at bs incd).
      - apply (num_alike _ _ (on_socket bs incd w)); [by apply alike_on|]. by apply (num_inc _ _ w bs x). }
    assert (Ey1 : is_Some (sockets w1 !! peer)) by (apply on_socket_is; by exists y). destruct Ey1 as [y1 Ey1].
    apply (num_alike _ _ w2); [done|].
    eapply num_ext; [|apply num_unpend, (num_push (fun _ => 0) (n :: l) w1 peer y1 inproc_connected Ey1 N1)].
    intros s'. fold peer. simpl. lia.
  - apply (tab_alike l w); [done|exact Hcore|]. apply (tab_sub (n :: l)); [|done]. intros n' Hn'. by right.
  - apply (pl_alike l (put p t (tidd p bs w))); [done|done| |by apply (pl_join l w bs n c t)].
    assert (Hlet : alike letters w w2); [|exact Hlet].
    apply (alike_trans letters _ w1); [by apply (alike_on letters bs)|apply (alike_on letters peer)]. intros z.
    unfold letters. simpl. rewrite omap_app. simpl. by rewrite app_nil_r.
  - apply (ro_gain w _ bs (attaching p true) x p true Ex); [| |done|by apply attaching_ok|done].
    + apply (gains_second p c t bs w); [done| | |done|done|by split].
      * by erewrite put_at; [|apply tidd_at].
      * intros q Hne. simpl. by rewrite !lookup_alter_ne.
    + assert (Hro : alike roster (on_socket bs (attaching p true) w) w2); [|exact Hro].
      apply (alike_trans roster _ w1); [by apply (alike_both roster bs)|by apply (alike_on roster peer)].
Qed.

Lemma refuses_later xattach n w w' : alike core w w' -> (forall q, q = waiter_pair n -> connections w' !! q = connections w !! q) ->
  refuses xattach n w' -> refuses xattach n w.
Proof.
  intros Ha Hc (c & y & Ec & Ey & Hr & Ht & Hn). destruct (alike_to core w w' _ y Ha Ey) as (z & Ez & [= _ Htg _ _]).
  exists c, z. rewrite <- (Hc _ eq_refl). split_and!; try done. congruence.
Qed.

Lemma run_connect_all xattach a e l2 : (forall p, patterned (xattach p)) -> forall l1 (w : world) x, inv_with (fun _ => 0) (l1 ++ l2) w ->
  endpoints w !! a = Some e -> sockets w !! socket e = Some x -> terminating x = false ->
  (exists w', connect_all xattach a (socket e) l1 w = Done (w', tt) /\ inv_with (fun _ => 0) l2 w' /\ endpoints w' = endpoints w
    /\ pending_connections w' = pending_connections w /\ alike core w w'
    /\ exists x', sockets w' !! socket e = Some x' /\ pipes x' = pipes x ++ map (fun n => (waiter_pair n, true)) l1)
  \/ connect_all xattach a (socket e) l1 w = Crash /\ exists n, n ∈ l1 /\ refuses xattach n w.
Proof.
  intros Hxs l1. induction l1 as [|n l1 IH]; intros w x Hi Ea Ex Ht.
  { left. exists w. split_and!; try done. exists x. by rewrite app_nil_r. }
  assert (E : connect_all xattach a (socket e) (n :: l1) w
    = (connect_inproc_sockets (socket e) (options e) (Mm.val n) bind_side (xattach (waiter_pair n)) ;;;
       connect_all xattach a (socket e) l1) w).
  { cbn [connect_all]. rewrite (sbind_done sget _ w w w eq_refl).
    rewrite (sbind_done (slift (deref (endpoints w !! a))) _ w w e); [done|]. unfold slift. by rewrite Ea. }
  pose proof (p_pending_once _ w (i_places _ _ _ Hi)) as Hnd. simpl in Hnd. apply NoDup_cons in Hnd as [Hnn _].
  destruct (run_join (l1 ++ l2) w (socket e) (options e) x n (xattach (waiter_pair n)) Hi Ex Ht (Hxs _))
    as [(w1 & E1 & Hi1 & He1 & Hp1 & Hc1 & Hq1 & x1 & Ex1 & Hx1)|[E1 Hr]].
  - destruct (alike_from core w w1 _ x Hc1 Ex) as (x0 & Ex0 & [= _ _ Ht1 _]). rewrite Ex1 in Ex0. injection Ex0 as <-.
    destruct (IH w1 x1 Hi1) as [(w2 & E2 & Hi2 & He2 & Hp2 & Hc2 & x2 & Ex2 & Hx2)|(E2 & n' & Hn' & Hr)]; [congruence|done|congruence|left|right].
    + exists w2. rewrite E, (sbind_done _ _ _ _ _ E1), E2. split_and!; [done|done|congruence|congruence|by eapply alike_trans|].
      exists x2. split; [done|]. rewrite Hx2, Hx1, <- app_assoc. done.
    + rewrite E, (sbind_done _ _ _ _ _ E1), E2. split; [done|]. exists n'. split; [by right|].
      apply (refuses_later xattach n' w w1 Hc1); [|done]. intros q ->. apply Hq1. intros Heq. apply Hnn. rewrite <- Heq.
      apply (list_elem_of_fmap_2 waiter_pair). apply elem_of_app. by left.
  - right. split; [|exists n; split; [constructor|exact Hr]]. rewrite E. unfold sbind. by rewrite E1.
Qed.

Lemma run_bind (w : world) s x a xattach : inv w -> sockets w !! s = Some x -> doing x = Binding a -> (forall p, patterned (xattach p)) ->
  (exists w', bind_pending xattach s a w = Done (w', tt) /\ inv w' /\ endpoints w' = endpoints w
    /\ Mm.items (pending_connections w') = filter (fun n => Mm.key n <> a) (Mm.items (pending_connections w))
    /\ exists x', sockets w' !! s = Some x'
         /\ pipes x' = pipes x ++ map (fun n => (waiter_pair n, true)) (Mm.with_key a (Mm.items (pending_connections w))))
  \/ bind_pending xattach s a w = Crash /\ exists n, n ∈ Mm.with_key a (Mm.items (pending_connections w)) /\ refuses xattach n w.
Proof.
  intros Hi Ex Hd Hxs. pose proof Hi as [H1 H2 H3 H4]. set (m := pending_connections w). fold m in H1, H2, H3.
  pose proof (t_busy _ w H2 s x Ex) as Hb. unfold busy in Hb. rewrite Hd in Hb. destruct Hb as (Htg & e & Ea & He).
  assert (Ht : terminating x = false).
  { destruct (terminating x) eqn:Ht; [|done]. by rewrite (t_term _ w H2 s x Ex Ht) in Htg. }
  subst s. set (l2 := filter (fun n => Mm.key n <> a) (Mm.items m)).
  assert (Hperm : Mm.items m ≡ₚ Mm.with_key a (Mm.items m) ++ l2).
  { unfold Mm.with_key, l2. by rewrite filter_app_complement. }
  destruct (run_connect_all xattach a e l2 Hxs (Mm.with_key a (Mm.items m)) w x (inv_perm _ _ _ w Hperm Hi) Ea Ex Ht)
    as [(w1 & E1 & [N1 T1 P1 R1] & He1 & Hp1 & Hc1 & x0 & Ex0 & Hx0)|[E1 Hr]].
  2:{ right. split; [|done]. assert (Ec : connect_pending xattach a (socket e) w = Crash).
      { unfold connect_pending. rewrite (sbind_done sget _ w w w eq_refl). fold m. unfold sbind. by rewrite E1. }
      unfold bind_pending, sbind. by rewrite Ec. }
  left. set (w2 := set_pending (Mm.erase_key m a) w1).
  destruct (alike_from core w w1 _ x Hc1 Ex) as (x1 & Ex1 & [= _ Htg1 Ht1 Hd1]). rewrite Ex1 in Ex0. injection Ex0 as <-.
  exists (on_socket (socket e) (with_doing Idle) w2). split.
  { assert (Ec : connect_pending xattach a (socket e) w = Done (w2, tt)).
    { unfold connect_pending. rewrite (sbind_done sget _ w w w eq_refl). fold m. rewrite (sbind_done _ _ _ _ _ E1).
      unfold smod. by rewrite Hp1. }
    unfold bind_pending. rewrite (sbind_done _ _ _ _ _ Ec). exact (socket_upd (socket e) x1 (with_doing Idle) w2 Ex1). }
  split; [|split; [exact He1|split; [done|]]].
  2:{ exists (with_doing Idle x1). split; [by apply (socket_at (socket e) (with_doing Idle) x1 w2)|exact Hx0]. }
  unfold inv. change (Mm.items (pending_connections (on_socket (socket e) (with_doing Idle) w2))) with l2. split.
  - eapply num_ext; [|apply (num_doing (fun _ => 0) l2 w2 (socket e) x1 Idle Ex1 N1)]. intros s'. rewrite Hd1, Hd. done.
  - apply (tab_on l2 w2 (socket e) _ x1 Ex1); try done.
    + exact (t_plain l2 w1 T1 _ x1 Ex1).
    + exact (t_term l2 w1 T1 _ x1 Ex1).
    + intros b e' _ _. simpl. congruence.
    + intros n e' Hn E He'. exfalso. destruct (t_pending l2 w1 T1 n e' Hn E) as (y & Ey & Hy). rewrite He', Ex1 in Ey. injection Ey as <-.
      apply list_elem_of_filter in Hn as [Hn _]. congruence.
    + by apply (tab_alike l2 w1).
  - apply (pl_alike l2 w1); [done|done|exact (alike_on letters (socket e) (with_doing Idle) w1 (fun _ => eq_refl))|done].
  - apply (ro_alike w1); [done|exact (alike_on roster (socket e) (with_doing Idle) w1 (fun _ => eq_refl))|done].
Qed.

(** ** Reachable states *)

Definition stuck (op : operation) (w : world) : Prop :=
  exists s a xattach n, op = Bind s a xattach /\ n ∈ Mm.with_key a (Mm.items (pending_connections w)) /\ refuses xattach n w.

Lemma run_inv (w : world) op : inv w -> may op w ->
  (exists w', run op w = Done (w', tt) /\ inv w') \/ run op w = Crash /\ stuck op w.
Proof.
  intros Hi Hm.
  assert (Hrc : forall (m : stm world (option errno)), (exists w' rc, m w = Done (w', rc) /\ inv w') ->
    exists w', (m ;;; sret tt) w = Done (w', tt) /\ inv w').
  { intros m (w' & rc & E & Hi'). exists w'. by rewrite (sbind_done _ _ _ _ _ E). }
  destruct op as [s o|s option_ o|s a|s a xattach|s a|s a peer xs|s a|s|s|s xattach|p e c|s]; simpl in *.
  - left. destruct Hm. eexists. split; [reflexivity|]. by apply run_create.
  - left. destruct Hm as (Ho & x & Ex & _ & _ & Ha). by apply (run_setsockopt w s x).
  - left. destruct Hm as (x & Ex & Hd & Ht). by apply Hrc, (run_register w s x).
  - destruct Hm as (Hxs & x & Ex & Hd). destruct (run_bind w s x a xattach Hi Ex Hd Hxs) as [(w' & E & Hi' & _)|(E & n & Hn & Hr)]; [left; by exists w'|].
    right. split; [done|]. by exists s, a, xattach, n.
  - left. destruct Hm as (x & Ex & Hd & Ht). by apply (run_find w s x).
  - left. destruct Hm as (Hxs & x & Ex & Hd). by apply (run_connect w s x).
  - left. destruct Hm as (x & Ex & Hd & Ht). by apply Hrc, (run_term_endpoint w s x).
  - left. destruct Hm as (x & Ex & Hd & Ht). by apply (run_close w s x).
  - left. destruct Hm as (x & Ex & Ht & Htm). by apply (run_term w s x).
  - left. destruct Hm as (Hxs & x & Ex & Hd). by apply (run_command w s x).
  - left. destruct Hm as (cn & Ec & Hcall). by apply (run_pipe w p cn).
  - left. destruct Hm as (x & Ex & Ht & Hp & Ha & Hc). by apply (run_deallocate w s x).
Qed.

Lemma world_new_ok : inv (world_new : world).
Proof.
  assert (Hs : forall s x, sockets (world_new : world) !! s = Some x -> False) by (intros s x; simpl; by rewrite lookup_empty).
  assert (Hc : forall p c, connections (world_new : world) !! p = Some c -> False) by (intros p c; simpl; by rewrite lookup_empty).
  split.
  - intros s x Ex. by destruct (Hs s x Ex).
  - split; try (by intros s x Ex; case (Hs s x Ex)).
    + intros a e. simpl. by rewrite lookup_empty.
    + by intros n e ?%elem_of_nil.
  - split; try (by intros s x Ex; case (Hs s x Ex)); try (by intros p c Ec; case (Hc p c Ec)).
    + intros s x p Ex. case (Hs s x Ex).
    + by intros n ?%elem_of_nil.
    + constructor.
  - split; try (by intros s x Ex; case (Hs s x Ex)).
    + intros s x p e Ex. by destruct (Hs s x Ex).
    + intros p e s Hl. simpl in Hl. by rewrite lookup_empty in Hl.
Qed.

Lemma reachable_ok (w : world) : reachable w -> inv w.
Proof.
  unfold reachable. generalize world_new_ok. generalize (world_new : world). intros w0 Hi Hr. revert Hi.
  induction Hr as [|w1 w2 w3 (op & Hm & E) _ IH]; [done|]. intros Hi. apply IH.
  destruct (run_inv w1 op Hi Hm) as [(w' & E' & Hi')|[E' _]]; congruence.
Qed.
End Safe.
End InprocSafe.
