(* ===== verification/InprocMeet.v ===== *)
(** * InprocMeet: what the connections of a context promise

    Every operation runs, but for binding when a routing id cannot be sent; every pair has
    its place; nothing refers to a socket that is gone, and a socket goes when nothing is on
    its way to it; the watermarks do not depend on who came first. *)

From stdpp Require Import relations.
From S2P Require Import Prelude Multimap Pipes Msg Yqueue Ypipe Conflate Pipe PipeSteps PipeRuns PipeLive PipeJoin Inproc InprocOps InprocInv InprocSafe.

Module InprocMeet.
Import Inproc PipeJoin InprocOps InprocInv InprocSafe.

Section Meet.
Context {T : Type} `{RoutingIds T}.

Abbreviation world := (@world T).
Abbreviation operation := (@operation T).

Lemma reach_run (w w' : world) op : reachable w -> may op w -> run op w = Done (w', tt) -> reachable w'.
Proof. intros Hr Hm E. eapply rtc_r; [exact Hr|]. by exists op. Qed.

(** C16: In every state that the calls of the sockets of a context can reach, in whatever order their critical sections
    and the commands of the pipes interleave, every operation that the code comes to succeeds: no pointer is dangling,
    no iterator invalid and no assertion fails, except when a socket binds an address at which a connection is pending
    that asked for the binder's routing id, has not been closed, and whose pair's second end is not active any more
    (or was used by the pattern of the binder).  The sockets do not conflate, and they do not set a watermark while one of
    their pipes has acknowledged its termination: its peer may be gone ([PipeLive.hwm_announced_after_ack_crashes]). *)
Theorem inproc_runs (w : world) (op : operation) : reachable w -> may op w ->
  (exists w', run op w = Done (w', tt) /\ reachable w') \/ (run op w = Crash /\ stuck op w).
Proof.
  intros Hr Hm. destruct (run_inv w op (reachable_ok w Hr) Hm) as [(w' & E & _)|?]; [left|by right].
  exists w'. split; [done|]. by apply (reach_run w w' op).
Qed.

(** Where the second end of a pair is. *)
Definition is_waiting (w : world) (p : nat) (c : @connection T) : Prop :=
  exists n, n ∈ Mm.items (pending_connections w) /\ pair (Mm.val n) = p
    /\ (forall n', n' ∈ Mm.items (pending_connections w) -> pair (Mm.val n') = p -> n' = n)
    /\ socket (endpoint (Mm.val n)) = connector c /\ bind_tid c = connector c /\ waiting (ends c)
    /\ forall e, endpoints w !! Mm.key n = Some e -> exists x, sockets w !! socket e = Some x /\ doing x = Binding (Mm.key n).

Definition is_travelling (w : world) (p : nat) (c : @connection T) : Prop :=
  travelling (ends c) /\ exists x l1 l2, sockets w !! bind_tid c = Some x /\ mailbox x = l1 ++ bind p :: l2
    /\ bind p ∉ l1 ++ l2.

Definition is_standing (w : world) (p : nat) (c : @connection T) : Prop :=
  standing (ends c) /\ (~ is_pending w p) /\ forall s x, sockets w !! s = Some x -> bind p ∉ mailbox x.

Lemma letter_in p (x : socket_t) : p ∈ letters x <-> bind p ∈ mailbox x.
Proof.
  unfold letters. rewrite list_elem_of_omap. split.
  - intros ([q|] & Hx & [= ->]). done.
  - intros Hx. by exists (bind p).
Qed.

Lemma letters_split (x : socket_t) p : NoDup (letters x) -> p ∈ letters x ->
  exists l1 l2, mailbox x = l1 ++ bind p :: l2 /\ bind p ∉ l1 ++ l2.
Proof.
  intros Hnd Hp. apply letter_in in Hp. apply list_elem_of_split in Hp as (l1 & l2 & Hm). exists l1, l2. split; [done|].
  unfold letters in Hnd. rewrite Hm, omap_app in Hnd. simpl in Hnd. apply NoDup_app in Hnd as (_ & Hd & Hnd).
  apply NoDup_cons in Hnd as [Hn2 _]. intros [Hx|Hx]%elem_of_app.
  - apply (Hd p); [apply list_elem_of_omap; by exists (bind p)|constructor].
  - apply Hn2. apply list_elem_of_omap. by exists (bind p).
Qed.

Lemma nodup_waiter (l : list (Mm.node (list Z) pending_connection_t)) n n' :
  NoDup (map waiter_pair l) -> n ∈ l -> n' ∈ l -> waiter_pair n' = waiter_pair n -> n' = n.
Proof.
  induction l as [|m l IH]; [by intros _ ?%elem_of_nil|]. simpl. intros [Hm Hnd]%NoDup_cons.
  assert (Hin : forall k, k ∈ l -> waiter_pair k ∈ map waiter_pair l) by (intros k; by apply list_elem_of_fmap_2).
  intros [->|Hn]%elem_of_cons [->|Hn']%elem_of_cons E; [done| | |by apply IH].
  - destruct Hm. rewrite <- E. by apply Hin.
  - destruct Hm. rewrite E. by apply Hin.
Qed.

(** C17: A connection is in one place.  Its pair waits in the table of pending connections, once, with both
    ends with the socket that connected, and then nobody has bound its address but a socket that is in the middle of
    its bind call, which will take it; or its second end is on its way to the binder, in one command; or both ends are
    attached, or were, and the pair is a reachable pair of [Pipe], so that all that holds of those holds of it. *)
Theorem inproc_rendezvous (w : world) p c : reachable w -> connections w !! p = Some c ->
  is_waiting w p c \/ is_travelling w p c \/ is_standing w p c.
Proof.
  intros Hr Ec. pose proof (reachable_ok w Hr) as [H1 H2 H3 H4]. destruct (place_of _ w p c H3 Ec) as (k & Hk & Hp1 & Hp2).
  destruct k; simpl in Hk.
  - right; right. split; [done|]. split.
    + intros (n & Hn & Hp). assert (Standing = Waiting); [|done]. apply Hp1. rewrite <- Hp. by apply (list_elem_of_fmap_2 waiter_pair).
    + intros s x Ex Hx%letter_in. assert (Standing = Travelling); [|done]. apply Hp2. by exists s, x.
  - right; left. split; [done|]. destruct (proj1 Hp2 eq_refl) as (s & x & Ex & Hx).
    destruct (p_mail _ w H3 s x p Ex Hx) as (c' & Ec' & Hb). rewrite Ec in Ec'. injection Ec' as <-.
    destruct (letters_split x p (p_mail_once _ w H3 s x Ex) Hx) as (l1 & l2 & Hm & Hn). exists x, l1, l2. by rewrite Hb.
  - left. pose proof (proj1 Hp1 eq_refl) as (n & Hp & Hn)%list_elem_of_fmap. exists n. split; [done|]. split; [done|].
    destruct (p_pending _ w H3 n Hn) as (c' & Ec' & Hs & Hb). rewrite <- Hp, Ec in Ec'. injection Ec' as <-.
    split_and!; try done.
    + intros n' Hn' Hp'. apply (nodup_waiter (Mm.items (pending_connections w))); [by apply (p_pending_once _ w H3)|done|done|].
      by rewrite <- Hp.
    + intros e He. by apply (t_pending _ w H2).
Qed.

(** C18: Binding joins the connections that waited.  When it succeeds, exactly the connections that were pending at the
    address have left the table; the binder has their second ends, after the ends it had, in the order in which they
    connected, and both ends of each have their sockets. *)
Theorem inproc_bind_joins (w w' : world) s a xattach x : reachable w -> may (Bind s a xattach) w -> sockets w !! s = Some x ->
  run (Bind s a xattach) w = Done (w', tt) ->
  let joined := Mm.with_key a (Mm.items (pending_connections w)) in
  Mm.items (pending_connections w') = filter (fun n => Mm.key n <> a) (Mm.items (pending_connections w))
  /\ (exists x', sockets w' !! s = Some x' /\ pipes x' = pipes x ++ map (fun n => (waiter_pair n, true)) joined)
  /\ forall n, n ∈ joined -> exists c, connections w' !! waiter_pair n = Some c /\ bind_tid c = s /\ standing (ends c).
Proof.
  intros Hr (Hxs & y & Ey & Hd) Ex E joined. rewrite Ex in Ey. injection Ey as <-.
  destruct (run_bind w s x a xattach (reachable_ok w Hr) Ex Hd Hxs) as [(w1 & E1 & Hi1 & _ & Hp & x' & Ex' & Hx')|[E1 _]];
    simpl in E; [|congruence]. rewrite E in E1. injection E1 as <-.
  split; [done|]. split; [by exists x'|]. intros n Hn. pose proof Hi1 as [_ _ P R].
  assert (Hin : (waiter_pair n, true) ∈ pipes x').
  { rewrite Hx', elem_of_app. right. apply list_elem_of_fmap. by exists n. }
  apply (r_pipes w' R s x' _ _ Ex') in Hin. destruct (connections w' !! waiter_pair n) as [c|] eqn:Ec; [|done].
  destruct Hin as [Hb Hl]. exists c. split; [done|]. split; [done|].
  destruct (place_of _ w' _ c P Ec) as (k & Hk & _). destruct k; [done|by apply travelling_lives in Hk as [? _]|].
  by apply waiting_lives in Hk as (_ & ? & _).
Qed.

(** Nothing refers to a socket that has been deallocated: it is in no endpoint, no pending connection is its, no
    connect call has found it, no second end is on its way to it, and no end that is attached is its. *)
Theorem inproc_nothing_dangles (w : world) s : reachable w -> sockets w !! s = None ->
  (forall a e, endpoints w !! a = Some e -> socket e <> s)
  /\ (forall n, n ∈ Mm.items (pending_connections w) -> socket (endpoint (Mm.val n)) <> s)
  /\ (forall s' x, sockets w !! s' = Some x -> ~ connects_to s (doing x))
  /\ (forall p c e, connections w !! p = Some c -> live (ends c) e -> owner c e <> s)
  /\ (forall s' x p c, sockets w !! s' = Some x -> bind p ∈ mailbox x -> connections w !! p = Some c -> bind_tid c <> s).
Proof.
  intros Hr Es. pose proof (reachable_ok w Hr) as Hi. pose proof Hi as [H1 H2 H3 H4]. split_and!.
  - intros a e Ea <-. destruct (t_endpoints _ w H2 a e Ea) as (x & Ex & _). congruence.
  - intros n Hn <-. destruct (pending_socket _ _ w n Hi Hn) as [x Ex]. congruence.
  - intros s' x Ex Hc. pose proof (t_busy _ w H2 s' x Ex) as Hb. unfold busy in Hb. destruct (doing x) as [| |a [e|]]; try done.
    destruct Hb as [_ Hb]. destruct (Hb e eq_refl) as [y Ey]. simpl in Hc. congruence.
  - intros p c e Ec Hl <-. destruct (r_owner w H4 p e (owner c e)) as [x Ex]; [by rewrite Ec|]. congruence.
  - intros s' x p c Ex Hx%letter_in Ec Hb. destruct (p_mail _ w H3 s' x p Ex Hx) as (c' & Ec' & Hb'). congruence.
Qed.

(** The sequence numbers count what is on its way.  A socket has been sent as many commands as it has processed,
    plus those in its mailbox, its pending connections and the connect calls that have found it, modulo 2^32.  Thus
    a terminating socket whose pipes are gone may be deallocated exactly when nothing is on its way, as long as less
    than 2^32 commands have been sent. *)
Theorem inproc_deallocated_exactly (w : world) s x : reachable w -> sockets w !! s = Some x ->
  let n := coming s (Mm.items (pending_connections w)) w in
  sent_seqnum x = u32 (processed_seqnum x + Z.of_nat n)
  /\ (terminating x = true -> term_acks x = Z.of_nat (length (pipes x)))
  /\ (0 <= processed_seqnum x -> processed_seqnum x + Z.of_nat n < 2 ^ 32 -> processed_seqnum x = sent_seqnum x <-> n = 0%nat).
Proof.
  intros Hr Ex n. pose proof (reachable_ok w Hr) as [H1 H2 H3 H4]. pose proof (H1 s x Ex) as Hs. fold n in Hs. rewrite Z.add_0_r in Hs.
  split_and!; [done| |].
  - intros Ht. by rewrite (o_acks x (r_ok w H4 s x Ex)), Ht.
  - intros Hp Hc. rewrite Hs, u32_small by lia. split; lia.
Qed.

(** ** The watermarks *)

(** What limits an end: the high and the low watermark, and what its peer adds to them. *)
Definition limits (p : @Pipe.pipe_t) : Z * Z * Z * Z :=
  let c := Pipe.counts p in (Pipe.hwm c, Pipe.lwm c, Pipe.inhwmboost c, Pipe.outhwmboost c).

Definition watermarks (s : @Pipe.sys T) (e : bool) : option (Z * Z * Z * Z) := limits <$> Pipe.ends s e.

(** *** What leaves the watermarks alone *)
Definition keeps {A} (m : stm (@Pipe.sys T) A) : Prop :=
  forall s s' a, m s = Done (s', a) -> forall e, watermarks s' e = watermarks s e.

Lemma inprocmeet_keeps_bind {A B} (m : stm (@Pipe.sys T) A) (k : A -> stm (@Pipe.sys T) B) : keeps m -> (forall a, keeps (k a)) -> keeps (sbind m k).
Proof.
  intros Hm Hk s s' b (s1 & a & E1 & E2)%sbind_inv e. by rewrite (Hk a _ _ _ E2), (Hm _ _ _ E1).
Qed.

Lemma inprocmeet_keeps_same {A} (m : stm (@Pipe.sys T) A) : (forall s s' a, m s = Done (s', a) -> Pipe.ends s' = Pipe.ends s) -> keeps m.
Proof. intros Hm s s' a E e. unfold watermarks. by rewrite (Hm _ _ _ E). Qed.

Lemma inprocmeet_keeps_upd e f : (forall p, limits (f p) = limits p) -> keeps (Pipe.upd e f).
Proof.
  intros Hf s s' a E e'. unfold Pipe.upd in E. destruct (Pipe.ends s e) as [p|] eqn:Ep; [|done]. injection E as <- _.
  unfold watermarks. cbn. destruct (PipeSteps.bool_cases e e') as [->| ->].
  - rewrite PipeRuns.upd_at_same, Ep. cbn [fmap option_fmap option_map]. by rewrite Hf.
  - by rewrite PipeRuns.upd_at_peer.
Qed.

Lemma inprocmeet_keeps_call {A} i (f : Pipe.upipe -> outcome (A * Pipe.upipe)) : keeps (Pipe.call i f).
Proof.
  apply inprocmeet_keeps_same. intros s s' a E. unfold Pipe.call in E. destruct (Pipe.upipes s !! i); [|done]. cbn in E.
  destruct (f _) as [[]|]; [|done]. by injection E as <- _.
Qed.

Ltac same_ends := apply inprocmeet_keeps_same; intros t0 t1 a0 E;
  unfold sret, scrash, sassert, slift, Pipe.this, Pipe.send, Pipe.close, Pipe.up_unread, Pipe.up_partial in E;
  repeat case_match; simplify_eq; try done;
  first [by injection E as <- _|apply obind_inv in E as (x0 & _ & [= <- _]); done].

Lemma inprocmeet_keeps_ret {A} (a : A) : keeps (sret a).
Proof. same_ends. Qed.
Lemma inprocmeet_keeps_assert b : keeps (sassert b).
Proof. same_ends. Qed.
Lemma inprocmeet_keeps_lift {A} (o : outcome A) : keeps (slift o).
Proof. same_ends. Qed.
Lemma inprocmeet_keeps_this e : keeps (Pipe.this e).
Proof. same_ends. Qed.
Lemma inprocmeet_keeps_send e c : keeps (Pipe.send e c).
Proof. same_ends. Qed.
Lemma inprocmeet_keeps_close m : keeps (Pipe.close m).
Proof. same_ends. Qed.
Lemma inprocmeet_keeps_unread i : keeps (Pipe.up_unread i).
Proof. same_ends. Qed.
Lemma keeps_partial i : keeps (Pipe.up_partial i).
Proof. same_ends. Qed.

Ltac kept :=
  repeat first
    [ apply inprocmeet_keeps_ret | apply inprocmeet_keeps_assert | apply inprocmeet_keeps_lift | apply inprocmeet_keeps_this | apply inprocmeet_keeps_send | apply inprocmeet_keeps_close
    | apply inprocmeet_keeps_unread | apply keeps_partial | apply inprocmeet_keeps_call | assumption
    | by intros ? ? ? ?
    | apply inprocmeet_keeps_upd; intros ?; reflexivity
    | apply inprocmeet_keeps_bind; [|intros ?]
    | match goal with |- keeps (if ?b then _ else _) => destruct b
                    | |- keeps (match ?x with _ => _ end) => destruct x end ].

Lemma keeps_read_message fuel e : keeps (Pipe.read_message fuel e).
Proof. induction fuel as [|fuel IH]; cbn [Pipe.read_message]; unfold Pipe.up_read, Pipe.process_delimiter; kept. Qed.

Lemma keeps_unwrite_all fuel o : keeps (Pipe.unwrite_all fuel o).
Proof. induction fuel as [|fuel IH]; cbn [Pipe.unwrite_all]; unfold Pipe.up_unwrite; kept. Qed.

Lemma keeps_rollback e : keeps (Pipe.rollback e).
Proof. unfold Pipe.rollback. kept. apply keeps_unwrite_all. Qed.

Lemma keeps_flush e : keeps (Pipe.flush e).
Proof. unfold Pipe.flush, Pipe.up_flush. kept. Qed.

Lemma keeps_write b e m : keeps (Pipe.write b e m).
Proof. unfold Pipe.write, Pipe.check_write, Pipe.up_write. kept. Qed.

Lemma keeps_terminate b d e : keeps (Pipe.terminate b d e).
Proof.
  unfold Pipe.terminate, Pipe.up_write. kept; try apply keeps_unwrite_all; try apply keeps_rollback; apply keeps_flush.
Qed.

Lemma keeps_read e : keeps (Pipe.read e).
Proof. unfold Pipe.read. kept. apply keeps_read_message. Qed.

Lemma keeps_sink e : keeps (Pipe.set_event_sink e).
Proof. unfold Pipe.set_event_sink. kept. Qed.

Lemma keeps_step e (a : @Pipe.action T) : pattern_call a = true -> keeps (Pipe.step e a).
Proof.
  intros Ha. destruct a; try done; cbn [Pipe.step]; apply inprocmeet_keeps_bind; try (intros ?; apply inprocmeet_keeps_ret).
  - unfold Pipe.check_read, Pipe.process_delimiter, Pipe.up_check_read, Pipe.up_probe, Pipe.up_read. kept.
  - apply keeps_read.
  - unfold Pipe.check_write. kept.
  - apply keeps_write.
  - apply keeps_rollback.
  - apply keeps_flush.
  - unfold Pipe.set_nodelay. kept.
  - apply keeps_terminate.
Qed.

Lemma keeps_xattach e xs : patterned xs -> keeps (xattach_pipe e xs).
Proof.
  induction 1 as [|a xs Ha _ IH]; cbn [xattach_pipe]; [apply inprocmeet_keeps_ret|]. apply inprocmeet_keeps_bind; [by apply keeps_step|done].
Qed.

(** The same of the operations on a world. *)
Definition watermarks_at (w : world) (p : nat) (e : bool) : option (Z * Z * Z * Z) :=
  match connections w !! p with Some c => watermarks (ends c) e | None => None end.

Definition wkeeps (p : nat) {A} (m : stm world A) : Prop :=
  forall w w' a, m w = Done (w', a) -> forall e, watermarks_at w' p e = watermarks_at w p e.

Lemma wkeeps_bind p {A B} (m : stm world A) (k : A -> stm world B) : wkeeps p m -> (forall a, wkeeps p (k a)) -> wkeeps p (sbind m k).
Proof. intros Hm Hk w w' b (w1 & a & E1 & E2)%sbind_inv e. by rewrite (Hk a _ _ _ E2), (Hm _ _ _ E1). Qed.

Lemma wkeeps_ret p {A} (a : A) : wkeeps p (sret a).
Proof. by intros w w' b [= <- _] e. Qed.

Lemma wkeeps_this p s : wkeeps p (Inproc.this s).
Proof. intros w w' x E e. unfold Inproc.this in E. destruct (sockets w !! s); [|done]. by injection E as <- _. Qed.

Lemma wkeeps_upd p s f : wkeeps p (Inproc.upd s f).
Proof. intros w w' x E e. unfold Inproc.upd in E. destruct (sockets w !! s); [|done]. by injection E as <- _. Qed.

Lemma wkeeps_pair p q {A} (m : stm (@Pipe.sys T) A) : keeps m -> wkeeps p (on_pair q m).
Proof.
  intros Hm w w' a E e. unfold on_pair in E. destruct (connections w !! q) as [c|] eqn:Ec; [|done]. cbn in E.
  destruct (m (ends c)) as [[t b]|] eqn:Et; [|done]. injection E as <- _. unfold watermarks_at. cbn.
  destruct (decide (p = q)) as [->|Hne]; [rewrite lookup_insert_eq, Ec; by apply (Hm _ _ _ Et)|by rewrite lookup_insert_ne].
Qed.

Lemma wkeeps_rid p q e id : wkeeps p (send_routing_id q e id).
Proof.
  apply wkeeps_pair. apply inprocmeet_keeps_bind; [apply keeps_write|intros ?]. apply inprocmeet_keeps_bind; [apply inprocmeet_keeps_assert|intros ?]. apply keeps_flush.
Qed.

Lemma wkeeps_attach p s q e xs : patterned xs -> wkeeps p (attach_pipe s q e xs).
Proof.
  intros Hxs. unfold attach_pipe. apply wkeeps_bind; [apply wkeeps_pair, keeps_sink|intros ?].
  apply wkeeps_bind; [apply wkeeps_upd|intros ?]. apply wkeeps_bind; [by apply wkeeps_pair, keeps_xattach|intros ?].
  apply wkeeps_bind; [apply wkeeps_this|intros x]. destruct (terminating x); [|apply wkeeps_ret].
  apply wkeeps_bind; [apply wkeeps_upd|intros ?]. apply wkeeps_pair, keeps_terminate.
Qed.

Lemma wkeeps_tid p q b : wkeeps p (set_tid q b).
Proof.
  intros w w' a E e. unfold set_tid in E. destruct (connections w !! q) as [c|] eqn:Ec; [|done]. injection E as <- _.
  unfold watermarks_at. cbn. destruct (decide (p = q)) as [->|Hne]; [by rewrite lookup_insert_eq, Ec|by rewrite lookup_insert_ne].
Qed.

Lemma hwms_total (own theirs boost_in in_ : Z) c : 0 <= own -> 0 <= theirs -> 0 <= boost_in -> 0 <= in_ ->
  Pipe.inhwmboost c = boost_in -> Pipe.outhwmboost c = theirs ->
  Pipe.hwm (Pipe.hwms in_ own c) = total_hwm own theirs /\ Pipe.lwm (Pipe.hwms in_ own c) = Pipe.compute_lwm (total_hwm in_ boost_in).
Proof.
  intros Ho Ht Hb Hin Eb Et. unfold Pipe.hwms, total_hwm. rewrite Eb, Et. simpl.
  split; [|f_equal]; repeat (case_match; zb; simpl in *; try lia; try done); do 2 f_equal; lia.
Qed.

Lemma total_hwm_comm a b : total_hwm a b = total_hwm b a.
Proof. unfold total_hwm. by rewrite Z.add_comm, andb_comm. Qed.

Definition nonneg (o : options_t) : Prop := 0 <= sndhwm o /\ 0 <= rcvhwm o.

Lemma upd_limits (s s' : @Pipe.sys T) e f u : Pipe.upd e f s = Done (s', u) ->
  exists p, Pipe.ends s e = Some p /\ Pipe.ends s' e = Some (f p) /\ Pipe.ends s' (negb e) = Pipe.ends s (negb e).
Proof.
  unfold Pipe.upd. destruct (Pipe.ends s e) as [p|]; [|done]. intros [= <- _]. exists p. split; [done|].
  split; [apply PipeRuns.upd_at_same|by apply PipeRuns.upd_at_peer].
Qed.

(** What the ends of a connection between a binder with the options [bo] and a connecter with the options [co] get:
    an end may write what its socket may send and the other one receive, and none limits it when either has none. *)
Definition joined_limits (bo co : options_t) (e : bool) : Z * Z * Z * Z :=
  let (own, theirs) := if e then (bo, co) else (co, bo) in
  (total_hwm (sndhwm own) (rcvhwm theirs), Pipe.compute_lwm (total_hwm (rcvhwm own) (sndhwm theirs)), sndhwm theirs, rcvhwm theirs).

Lemma join_limits (bo co : options_t) (s s' : @Pipe.sys T) u :
  plain co -> nonneg bo -> nonneg co -> join_hwms bo co s = Done (s', u) ->
  forall e, watermarks s' e = Some (joined_limits bo co e).
Proof.
  intros Hp [B1 B2] [C1 C2] E. unfold join_hwms in E. rewrite Hp in E. cbn [negb] in E.
  apply sbind_inv in E as (s1 & u1 & E1 & E). apply sbind_inv in E as (s2 & u2 & E2 & E). apply sbind_inv in E as (s3 & u3 & E3 & E4).
  apply upd_limits in E1 as (p1 & P1 & P1' & Q1), E2 as (p2 & P2 & P2' & Q2), E3 as (p3 & P3 & P3' & Q3), E4 as (p4 & P4 & P4' & Q4).
  cbn [negb] in *. rewrite Q2, P1' in P3. injection P3 as <-. rewrite Q3, P2' in P4. injection P4 as <-. rewrite P3' in Q4.
  intros []; unfold watermarks; [rewrite P4'|rewrite Q4]; cbn [fmap option_fmap option_map]; f_equal; unfold limits, joined_limits;
    cbn [Pipe.counts Pipe.set_counts Pipe.inhwmboost Pipe.outhwmboost Pipe.hwms Pipe.with_marks Pipe.with_boosts].
  - destruct (hwms_total (sndhwm bo) (rcvhwm co) (sndhwm co) (rcvhwm bo) (Pipe.with_boosts (sndhwm co) (rcvhwm co) (Pipe.counts p2))
      B1 C2 C1 B2 eq_refl eq_refl) as [<- <-]. done.
  - destruct (hwms_total (sndhwm co) (rcvhwm bo) (sndhwm bo) (rcvhwm co) (Pipe.with_boosts (sndhwm bo) (rcvhwm bo) (Pipe.counts p1))
      C1 B2 B1 C2 eq_refl eq_refl) as [<- <-]. done.
Qed.

(** The watermarks of a pair that is on its own. *)
Lemma on_pair_limits p {A} (m : stm (@Pipe.sys T) A) (l : bool -> Z * Z * Z * Z) w w' a :
  (forall t t' b, (exists c, connections w !! p = Some c /\ t = ends c) -> m t = Done (t', b) -> forall e, watermarks t' e = Some (l e)) ->
  on_pair p m w = Done (w', a) -> forall e, watermarks_at w' p e = Some (l e).
Proof.
  intros Hm E e. unfold on_pair in E. destruct (connections w !! p) as [c|] eqn:Ec; [|done]. cbn in E.
  destruct (m (ends c)) as [[t b]|] eqn:Et; [|done]. injection E as <- _. unfold watermarks_at. cbn. rewrite lookup_insert_eq. cbn.
  eapply Hm; [|exact Et]. by exists c.
Qed.

(** The limits of a connection do not depend on who came first.  When the address is bound already
    ([connect_rest] with the endpoint that was found) and when a connection that was pending is joined
    ([connect_inproc_sockets], called for the binder or for the connecter), both ends get the same
    watermarks: what one socket may send and the other one receive together, and none when either has none; and the same
    boosts, which later changes of the watermarks use. *)
Theorem inproc_order_watermarks (bo co : options_t) :
  plain co -> nonneg bo -> nonneg co ->
  (forall xs s addr_ x e (w w1 : world), sockets w !! s = Some x -> opts x = co -> options e = bo -> patterned xs ->
     connect_rest xs s addr_ (Some e) w = Done (w1, tt) ->
     forall b, watermarks_at w1 (next_connection w) b = Some (joined_limits bo co b)) /\
  (forall bs pending side_ xs (w w1 : world), options (endpoint pending) = co -> patterned xs ->
     connect_inproc_sockets bs bo pending side_ xs w = Done (w1, tt) ->
     forall b, watermarks_at w1 (pair pending) b = Some (joined_limits bo co b)).
Proof.
  intros Hp Hb Hc. split.
  - intros xs s addr_ x e w w1 Ex Eo Ee Hxs E b. unfold connect_rest in E.
    rewrite (sbind_done _ _ _ _ _ (this_done s x w Ex)), Eo, Ee in E. rewrite Hp in E. cbn [negb] in E.
    apply sbind_inv in E as (w2 & p & [= <- <-] & E). apply sbind_inv in E as (w3 & u & E3 & E).
    assert (H3 : forall b, watermarks_at w3 (next_connection w) b = Some (joined_limits bo co b)).
    { refine (on_pair_limits _ _ _ _ _ _ _ E3). intros t t' r (c & Ec & ->) Et. cbn in Ec. rewrite lookup_insert_eq in Ec.
      injection Ec as <-. apply sbind_inv in Et as (t1 & u1 & E1 & E2).
      apply upd_limits in E1 as (p1 & P1 & P1' & Q1), E2 as (p2 & P2 & P2' & Q2). cbn in P1, Q1. injection P1 as <-.
      cbn [negb] in *. rewrite Q1 in P2. injection P2 as <-. rewrite P1' in Q2. intros []; unfold watermarks; [rewrite P2'|rewrite Q2]; cbn.
      - by rewrite (total_hwm_comm (sndhwm bo)), (total_hwm_comm (rcvhwm bo)).
      - done. }
    rewrite <- H3. revert E b. match goal with |- ?m _ = _ -> _ => assert (Hk : wkeeps (next_connection w) m) end.
    { apply wkeeps_bind; [|intros ?].
      - apply wkeeps_bind; [|intros ?; apply wkeeps_bind; [|intros ?; apply wkeeps_upd]];
          (match goal with |- wkeeps _ (if ?c then _ else _) => destruct c end); (apply wkeeps_rid || apply wkeeps_ret).
      - apply wkeeps_bind; [by apply wkeeps_attach|intros ?]. apply wkeeps_bind; [apply wkeeps_upd|intros ?]. apply wkeeps_upd. }
    intros E b. exact (Hk _ _ _ E b).
  - intros bs pending side_ xs w w1 Eo Hxs E b. unfold connect_inproc_sockets in E. rewrite Eo in E.
    apply sbind_inv in E as (w2 & u2 & _ & E). apply sbind_inv in E as (w3 & u3 & _ & E). apply sbind_inv in E as (w4 & u4 & _ & E).
    apply sbind_inv in E as (w5 & u5 & E5 & E).
    assert (H5 : forall b, watermarks_at w5 (pair pending) b = Some (joined_limits bo co b)).
    { refine (on_pair_limits _ _ _ _ _ _ _ E5). intros t t' r _ Et. by apply (join_limits bo co t t' r). }
    rewrite <- H5. revert E b. match goal with |- ?m _ = _ -> _ => assert (Hk : wkeeps (pair pending) m) end.
    { apply wkeeps_bind; [|intros ?].
      - destruct side_; [apply wkeeps_upd|]. apply wkeeps_bind; [by apply wkeeps_attach|intros ?].
        apply wkeeps_bind; [apply wkeeps_upd|intros ?]. apply wkeeps_upd.
      - destruct (recv_routing_id co); [|apply wkeeps_ret]. apply wkeeps_bind; [apply wkeeps_this|intros y].
        destruct (tag y); [apply wkeeps_rid|apply wkeeps_ret]. }
    intros E b. exact (Hk _ _ _ E b).
Qed.
End Meet.

(** ** Runs *)

#[local] Instance plain_messages : Message Msg.msg := msg_message Msg.memory0.

(** A routing id fits into a message here. *)
#[local] Program Instance plain_routing_ids : RoutingIds Msg.msg := {
  routing_id_msg := fun d => Msg.set_flags Msg.routing_id_flag (Msg.fresh (Msg.Vsm d))
}.
Solve All Obligations with done.

Abbreviation world := (@Inproc.world Msg.msg).
Abbreviation operation := (@Inproc.operation Msg.msg).

Definition after (op : operation) (w : world) : world := match run op w with Done (w', _) => w' | Crash => w end.

Definition succeeded (op : operation) (w : world) : bool := match run op w with Done _ => true | Crash => false end.

Lemma reach_after (w : world) op : reachable w -> may op w -> succeeded op w = true -> reachable (after op w).
Proof.
  intros Hr Hm Hs. unfold succeeded in Hs. destruct (run op w) as [[w' []]|] eqn:E; [|done].
  apply (reach_run w _ op Hr Hm). unfold after. by rewrite E.
Qed.

Definition after_all (ops : list operation) (w : world) : world := fold_left (fun w op => after op w) ops w.

Fixpoint runs (ops : list operation) (w : world) : outcome world :=
  match ops with
  | [] => Done w
  | op :: ops => let* (w, _) := run op w in runs ops w
  end.

Definition quiet : nat -> list (@Pipe.action Msg.msg) := fun _ => [].

(** [may], as a test on the operations that the runs below use. *)
Definition mayb (op : operation) (w : world) : bool :=
  match op with
  | Create s o => bool_decide (sockets w !! s = None) && negb (conflates o)
  | Register s _ | Find s _ | TermEndpoint s _ | Close s =>
      match sockets w !! s with
      | Some x => tag x && (if doing x is Idle then true else false)
      | None => false
      end
  | Connect s addr_ None [] =>
      match sockets w !! s with
      | Some x => match doing x with Connecting a None => bool_decide (a = addr_) | _ => false end
      | None => false
      end
  | PipeCall p true Pipe.Process =>
      bool_decide (p ∈ map waiter_pair (Mm.items (pending_connections w))) && (if connections w !! p is Some _ then true else false)
  | _ => false
  end.

Lemma mayb_may op w : mayb op w = true -> may op w.
Proof.
  destruct op as [s o|s option_ o|s a|s a xattach|s a|s a [peer|] [|]|s a|s|s|s xattach|p [] []|s]; simpl; try done; intros Hm.
  1: { apply andb_prop in Hm as [Hs Ho]. apply bool_decide_eq_true in Hs. split; [done|]. by destruct (conflates o) eqn:E. }
  6: { apply andb_prop in Hm as [Hp Hc]. apply bool_decide_eq_true in Hp. destruct (connections w !! p) as [c|]; [|done].
       exists c. split; [done|]. split; [done|]. split; [done|]. right. split; [done|]. split; [|done].
       apply list_elem_of_fmap in Hp as (n & -> & Hn). by exists n. }
  3: { destruct (sockets w !! s) as [x|]; [|done]. destruct (doing x) as [| |b [|]] eqn:E; try done. apply bool_decide_eq_true in Hm as ->.
       split; [constructor|]. by exists x. }
  all: destruct (sockets w !! s) as [x|]; [|done]; apply andb_prop in Hm as [Ht Hd]; exists x; by destruct (doing x).
Qed.

Fixpoint playable (ops : list operation) (w : world) : bool :=
  match ops with
  | [] => true
  | op :: ops => mayb op w && succeeded op w && playable ops (after op w)
  end.

Lemma playable_reachable ops : forall w, reachable w -> playable ops w = true -> reachable (after_all ops w).
Proof.
  induction ops as [|op ops IH]; [done|]. simpl. intros w Hr Hp. apply andb_prop in Hp as [[Hm Hs]%andb_prop Hp].
  apply IH; [|done]. apply reach_after; [done|by apply mayb_may|done].
Qed.

(** Socket 0 connects to an address that socket 1 has registered then; it has not looked for connections yet. *)
Definition early_ops : list operation :=
  [Create 0 options_default; Create 1 options_default; Find 0 [97]; Connect 0 [97] None []; Register 1 [97]].
Definition early : world := after_all early_ops world_new.

Lemma early_reachable : reachable early.
Proof. apply playable_reachable; [constructor|vm_compute; reflexivity]. Qed.

(** Socket 0 asks for routing ids, connects, and disconnects again before socket 1 binds. *)
Definition recv_options : options_t := Options 5 1000 1000 true false [7].
Definition refused_ops : list operation :=
  [Create 0 recv_options; Create 1 options_default; Find 0 [97]; Connect 0 [97] None []; TermEndpoint 0 [97];
   PipeCall 0 true Pipe.Process; Register 1 [97]].
Definition refused : world := after_all refused_ops world_new.

Lemma refused_reachable : reachable refused.
Proof. apply playable_reachable; [constructor|vm_compute; reflexivity]. Qed.

(** Binding can abort the process.  A socket that asks for routing ids (ROUTER, REP) connects to an address that
    nobody has bound, and disconnects again; when another socket binds the address, [zmq_assert (written)] fails. *)
Theorem inproc_bind_aborts : exists w, reachable w /\ may (Bind 1 [97] quiet) w /\ run (Bind 1 [97] quiet) w = Crash.
Proof.
  exists refused. split; [apply refused_reachable|]. split; [|vm_compute; reflexivity].
  split; [intros p; constructor|]. eexists. by split; [vm_compute; reflexivity|].
Qed.

(** The same calls in two orders, with sockets that conflate. *)
Definition push_options : options_t := Options 8 1000 1000 false true [].
Definition pull_options : options_t := Options 7 1000 1000 false true [].
Definition hello : Msg.msg := Msg.fresh (Msg.Vsm [104; 105]).

Definition connect_first : list operation :=
  [Create 0 push_options; Create 1 pull_options; Find 0 [97]; Connect 0 [97] None [];
   PipeCall 0 false (Pipe.Write false hello); PipeCall 0 false Pipe.Flush; Register 1 [97]; Bind 1 [97] quiet].
Definition bind_first : list operation :=
  [Create 0 push_options; Create 1 pull_options; Register 1 [97]; Bind 1 [97] quiet; Find 0 [97];
   Connect 0 [97] (Some (Endpoint 1 pull_options)) []; Command 1 quiet;
   PipeCall 0 false (Pipe.Write false hello); PipeCall 0 false Pipe.Flush].

(** What the binder reads of the connection 0. *)
Definition received (w : world) : option (@Pipe.result Msg.msg) :=
  match connections w !! 0%nat with
  | Some c => match Pipe.step true Pipe.Read (ends c) with Done (_, r) => Some r | Crash => None end
  | None => None
  end.

(** A conflating socket that connects before the address is bound loses a message.  The pipe keeps one
    message, so the message that was sent has replaced the routing id, and binding takes it for the routing id and
    drops it.  When the address is bound first, the message arrives. *)
Theorem inproc_conflate_loses :
  (exists w, runs connect_first world_new = Done w /\ received w = Some (Pipe.RMsg None))
  /\ (exists w, runs bind_first world_new = Done w /\ received w = Some (Pipe.RMsg (Some hello))).
Proof. split; eexists; (split; [vm_compute; reflexivity|vm_compute; reflexivity]). Qed.

(** A socket with watermark one connects, writes a message and finds the pipe full; then a socket that asks for routing
    ids and has no watermark binds, and reads everything. *)
Definition narrow_options : options_t := Options 5 1 1000 false false [].
Definition wide_options : options_t := Options 6 1000 0 true false [].
Definition blocked_ops : list operation :=
  [Create 0 narrow_options; Create 1 wide_options; Find 0 [97]; Connect 0 [97] None [];
   PipeCall 0 false (Pipe.Write false hello); PipeCall 0 false Pipe.CheckWrite; PipeCall 0 false Pipe.Flush;
   Register 1 [97]; Bind 1 [97] quiet; PipeCall 0 true Pipe.Read; PipeCall 0 true Pipe.Read; PipeCall 0 true Pipe.Process;
   PipeCall 0 true Pipe.Read].

(** A writer can stay blocked on a pipe that has no limit.  When a socket has filled the pipe of a
    pending connection, and the one that binds asks for routing ids and has no watermark, joining the pair takes
    the watermark from it; but then no message that is read sends a credit, and the writer waits for one for ever. *)
Theorem inproc_writer_blocked : exists w c s, runs blocked_ops world_new = Done w /\ connections w !! 0%nat = Some c
  /\ fst ∘ fst <$> watermarks (ends c) false = Some (0, 1000) /\ Pipe.mail (ends c) false = []
  /\ Pipe.step true Pipe.Read (ends c) = Done (s, Pipe.RMsg None)
  /\ Pipe.step false Pipe.CheckWrite (ends c) = Done (ends c, Pipe.RBool false).
Proof.
  eexists _, _, _. split; [vm_compute; reflexivity|]. split; [vm_compute; reflexivity|].
  split; [vm_compute; reflexivity|]. split; [vm_compute; reflexivity|]. split; vm_compute; reflexivity.
Qed.

(** ** Witnesses *)
Lemma inproc_runs_witness :
  (exists w', run (Bind 1 [97] quiet) early = Done (w', tt) /\ reachable w')
  \/ (run (Bind 1 [97] quiet) early = Crash /\ stuck (Bind 1 [97] quiet) early).
Proof.
  apply inproc_runs; [exact early_reachable|]. split; [intros p; constructor|]. eexists. by split; [vm_compute; reflexivity|].
Defined.

Lemma inproc_rendezvous_witness : exists c, connections early !! 0%nat = Some c
  /\ (is_waiting early 0 c \/ is_travelling early 0 c \/ is_standing early 0 c).
Proof.
  eexists. split; [vm_compute; reflexivity|]. apply inproc_rendezvous; [exact early_reachable|vm_compute; reflexivity].
Defined.

Lemma inproc_bind_joins_witness : exists w' x, run (Bind 1 [97] quiet) early = Done (w', tt) /\ sockets early !! 1%nat = Some x
  /\ Mm.items (pending_connections w') = []
  /\ (exists x', sockets w' !! 1%nat = Some x' /\ pipes x' = pipes x ++ [(0%nat, true)]).
Proof.
  exists (after (Bind 1 [97] quiet) early). eexists. split; [vm_compute; reflexivity|]. split; [vm_compute; reflexivity|].
  edestruct (inproc_bind_joins early (after (Bind 1 [97] quiet) early) 1 [97] quiet) as (H1 & (x' & H2 & H3) & _).
  - exact early_reachable.
  - split; [intros p; constructor|]. eexists. by split; [vm_compute; reflexivity|].
  - vm_compute. reflexivity.
  - vm_compute. reflexivity.
  - split; [etransitivity; [exact H1|vm_compute; reflexivity]|]. exists x'. split; [exact H2|].
    etransitivity; [exact H3|vm_compute; reflexivity].
Defined.

Lemma inproc_nothing_dangles_witness : sockets early !! 7%nat = None /\ forall a e, endpoints early !! a = Some e -> socket e <> 7%nat.
Proof. split; [vm_compute; reflexivity|]. apply (inproc_nothing_dangles early 7); [exact early_reachable|vm_compute; reflexivity]. Defined.

Lemma inproc_deallocated_exactly_witness : exists x, sockets early !! 0%nat = Some x /\ sent_seqnum x = 1
  /\ sent_seqnum x = u32 (processed_seqnum x + Z.of_nat (coming 0 (Mm.items (pending_connections early)) early)).
Proof.
  eexists. split; [vm_compute; reflexivity|]. split; [reflexivity|].
  apply (inproc_deallocated_exactly early 0); [exact early_reachable|vm_compute; reflexivity].
Defined.

(** A socket binds and another one connects to it, in both orders. *)
Definition binder_options : options_t := Options 7 10 20 false false [].
Definition connecter_options : options_t := Options 8 3 4 false false [].
Definition bound_first : world :=
  after_all [Create 0 connecter_options; Create 1 binder_options; Register 1 [97]; Bind 1 [97] quiet; Find 0 [97]] world_new.
Definition connected_first : world :=
  after_all [Create 0 connecter_options; Create 1 binder_options; Find 0 [97]; Connect 0 [97] None []; Register 1 [97]] world_new.
Definition bound_then_connected : world := after (Connect 0 [97] (Some (Endpoint 1 binder_options)) []) bound_first.
Definition connected_then_bound : world :=
  match connect_inproc_sockets 1 binder_options (PendingConnection (Endpoint 0 connecter_options) 0) bind_side [] connected_first with
  | Done (w, _) => w
  | Crash => connected_first
  end.

Lemma inproc_order_watermarks_witness :
  joined_limits binder_options connecter_options false = (23, 7, 10, 20) /\
  (forall b, watermarks_at bound_then_connected 0 b = Some (joined_limits binder_options connecter_options b)) /\
  (forall b, watermarks_at connected_then_bound 0 b = Some (joined_limits binder_options connecter_options b)).
Proof.
  destruct (inproc_order_watermarks (T := Msg.msg) binder_options connecter_options) as [H1 H2]; [done|by split|by split|].
  split; [vm_compute; reflexivity|]. split.
  - eapply (H1 [] 0%nat [97] _ (Endpoint 1 binder_options) bound_first); [vm_compute; reflexivity|reflexivity|reflexivity|constructor|].
    vm_compute. reflexivity.
  - apply (H2 1%nat (PendingConnection (Endpoint 0 connecter_options) 0) bind_side [] connected_first); [reflexivity|constructor|].
    vm_compute. reflexivity.
Defined.
End InprocMeet.
