(* ===== verification/Wire.v ===== *)
(** * Wire: integers in network byte order (libzmq/src/wire.hpp)

    The functions are written with the shifts and masks of the source; bytes are
    integers below 256. *)

From S2P Require Import Prelude.

Module Wire.

Definition put_uint8 (value : Z) : list Z := [value].

Definition get_uint8 (b : list Z) : outcome Z := nth_z b 0.

Definition put_uint16 (value : Z) : list Z :=
  [Z.land (Z.shiftr value 8) 255; Z.land value 255].

Definition put_uint32 (value : Z) : list Z :=
  [Z.land (Z.shiftr value 24) 255; Z.land (Z.shiftr value 16) 255;
   Z.land (Z.shiftr value 8) 255; Z.land value 255].

Definition put_uint64 (value : Z) : list Z :=
  [Z.land (Z.shiftr value 56) 255; Z.land (Z.shiftr value 48) 255;
   Z.land (Z.shiftr value 40) 255; Z.land (Z.shiftr value 32) 255;
   Z.land (Z.shiftr value 24) 255; Z.land (Z.shiftr value 16) 255;
   Z.land (Z.shiftr value 8) 255; Z.land value 255].

(** The readers look at the first bytes of the buffer; past its end is [Crash]. *)
Definition get_uint16 (b : list Z) : outcome Z :=
  match b with
  | b0 :: b1 :: _ => Done (Z.lor (u16 (Z.shiftl b0 8)) b1)
  | _ => Crash
  end.

Definition get_uint32 (b : list Z) : outcome Z :=
  match b with
  | b0 :: b1 :: b2 :: b3 :: _ =>
    Done (Z.lor (Z.lor (Z.lor (u32 (Z.shiftl b0 24)) (u32 (Z.shiftl b1 16))) (u32 (Z.shiftl b2 8))) b3)
  | _ => Crash
  end.

Definition get_uint64 (b : list Z) : outcome Z :=
  match b with
  | b0 :: b1 :: b2 :: b3 :: b4 :: b5 :: b6 :: b7 :: _ =>
    Done (Z.lor (Z.lor (Z.lor (Z.lor (Z.lor (Z.lor (Z.lor
      (u64 (Z.shiftl b0 56)) (u64 (Z.shiftl b1 48))) (u64 (Z.shiftl b2 40))) (u64 (Z.shiftl b3 32)))
      (u64 (Z.shiftl b4 24))) (u64 (Z.shiftl b5 16))) (u64 (Z.shiftl b6 8))) b7)
  | _ => Crash
  end.

(** ** Against positional notation *)

Fixpoint be (n : nat) (v : Z) : list Z :=
  match n with
  | O => []
  | S n => be n (v / 256) ++ [v mod 256]
  end.

Definition num (l : list Z) : Z := fold_left (fun a b => a * 256 + b) l 0.

Definition byte (b : Z) : Prop := 0 <= b < 256.

Lemma num_snoc l b : num (l ++ [b]) = num l * 256 + b.
Proof. unfold num. by rewrite fold_left_app. Qed.

Lemma length_be n v : length (be n v) = n.
Proof. revert v. induction n as [|n IH]; intros v; simpl; [done|]. rewrite length_app, IH. simpl. lia. Qed.

Lemma be_bytes n v : Forall byte (be n v).
Proof.
  revert v. induction n as [|n IH]; intros v; simpl; [constructor|]. apply Forall_app. split; [done|].
  constructor; [|done]. unfold byte. apply Z.mod_pos_bound. lia.
Qed.

Lemma num_be n v : 0 <= v < 256 ^ Z.of_nat n -> num (be n v) = v.
Proof.
  revert v. induction n as [|n IH]; intros v Hv.
  - unfold num. simpl in *. lia.
  - simpl. rewrite num_snoc, IH.
    + pose proof (Z_div_mod_eq_full v 256). lia.
    + rewrite Nat2Z.inj_succ, Z.pow_succ_r in Hv by lia. split; [apply Z.div_pos; lia|].
      apply Z.div_lt_upper_bound; lia.
Qed.

Lemma num_bound l : Forall byte l -> 0 <= num l < 256 ^ Z.of_nat (length l).
Proof.
  induction l as [|b l IH] using rev_ind; intros Hl; [unfold num; simpl; lia|].
  apply Forall_app in Hl as [Hl Hb]. apply Forall_cons in Hb as [Hb _]. unfold byte in Hb.
  specialize (IH Hl). rewrite num_snoc, length_app. simpl.
  replace (Z.of_nat (length l + 1)) with (Z.succ (Z.of_nat (length l))) by lia.
  rewrite Z.pow_succ_r by lia. lia.
Qed.

Lemma be_num l : Forall byte l -> be (length l) (num l) = l.
Proof.
  induction l as [|b l IH] using rev_ind; intros Hl; [done|].
  apply Forall_app in Hl as [Hl Hb]. apply Forall_cons in Hb as [Hb _]. unfold byte in Hb.
  rewrite num_snoc, length_app. simpl. replace (length l + 1)%nat with (S (length l)) by lia. simpl.
  rewrite (Z.add_comm (num l * 256) b), Z.div_add, Z.mod_add by lia.
  rewrite (Z.div_small b) by lia. rewrite Z.mod_small by lia. by rewrite Z.add_0_l, IH.
Qed.

Lemma mask v k : 0 <= k -> Z.land (Z.shiftr v k) 255 = (v / 2 ^ k) mod 256.
Proof. intros Hk. rewrite Z.shiftr_div_pow2 by done. by rewrite (Z.land_ones _ 8). Qed.

Lemma mask0 v : Z.land v 255 = v mod 256.
Proof. by rewrite (Z.land_ones _ 8). Qed.

Lemma put_uint16_be v : put_uint16 v = be 2 v.
Proof. unfold put_uint16. rewrite !mask, mask0 by lia. done. Qed.

Lemma put_uint32_be v : put_uint32 v = be 4 v.
Proof. unfold put_uint32. rewrite !mask, mask0 by lia. simpl. by rewrite !Z.div_div by lia. Qed.

Lemma put_uint64_be v : put_uint64 v = be 8 v.
Proof. unfold put_uint64. rewrite !mask, mask0 by lia. simpl. by rewrite !Z.div_div by lia. Qed.

(** Bytes put side by side. *)
Lemma lor_add x k y : 0 <= k -> 0 <= y < 2 ^ k -> Z.lor (Z.shiftl x k) y = x * 2 ^ k + y.
Proof.
  intros Hk Hy. assert (E : Z.land (Z.shiftl x k) y = 0).
  { apply Z.bits_inj'. intros n Hn. rewrite Z.land_spec, Z.shiftl_spec, Z.bits_0 by done.
    destruct (Z.lt_ge_cases n k); [by rewrite Z.testbit_neg_r by lia|].
    replace y with (y mod 2 ^ k) by (apply Z.mod_small; lia).
    rewrite Z.mod_pow2_bits_high by lia. apply andb_false_r. }
  pose proof (Z.add_lor_land (Z.shiftl x k) y) as H. rewrite E, Z.shiftl_mul_pow2 in H by done.
  rewrite Z.shiftl_mul_pow2 by done. lia.
Qed.

Lemma byte_shift b k w : byte b -> 0 <= k -> k + 8 <= w -> 0 <= Z.shiftl b k < 2 ^ w.
Proof.
  unfold byte. intros Hb Hk Hw. rewrite Z.shiftl_mul_pow2 by done.
  assert (2 ^ (k + 8) <= 2 ^ w) by (apply Z.pow_le_mono_r; lia). rewrite Z.pow_add_r in * by lia.
  pose proof (Z.pow_pos_nonneg 2 k). change (2 ^ 8) with 256 in *. nia.
Qed.

Lemma get_uint16_num b0 b1 rest :
  Forall byte [b0; b1] -> get_uint16 (b0 :: b1 :: rest) = Done (num [b0; b1]).
Proof.
  intros Hl. rewrite !Forall_cons in Hl. destruct Hl as (H0 & H1 & _). unfold get_uint16, num, byte in *. simpl.
  unfold u16. rewrite Z.mod_small by (apply (byte_shift _ 8 16); [done|lia|lia]).
  rewrite lor_add by lia. f_equal.
Qed.

Lemma get_uint32_num b0 b1 b2 b3 rest :
  Forall byte [b0; b1; b2; b3] -> get_uint32 (b0 :: b1 :: b2 :: b3 :: rest) = Done (num [b0; b1; b2; b3]).
Proof.
  intros Hl. rewrite !Forall_cons in Hl. destruct Hl as (H0 & H1 & H2 & H3 & _).
  unfold get_uint32, num; simpl. unfold u32.
  rewrite !Z.mod_small by (apply byte_shift; [done|lia|lia]).
  unfold byte in *. rewrite <- !Z.lor_assoc.
  rewrite (lor_add b2 8) by lia. rewrite (lor_add b1 16) by lia. rewrite (lor_add b0 24) by lia.
  f_equal. lia.
Qed.

Lemma get_uint64_num b0 b1 b2 b3 b4 b5 b6 b7 rest :
  Forall byte [b0; b1; b2; b3; b4; b5; b6; b7] ->
  get_uint64 (b0 :: b1 :: b2 :: b3 :: b4 :: b5 :: b6 :: b7 :: rest) =
    Done (num [b0; b1; b2; b3; b4; b5; b6; b7]).
Proof.
  intros Hl. rewrite !Forall_cons in Hl. destruct Hl as (H0 & H1 & H2 & H3 & H4 & H5 & H6 & H7 & _).
  unfold get_uint64, num; simpl. unfold u64.
  rewrite !Z.mod_small by (apply byte_shift; [done|lia|lia]).
  unfold byte in *. rewrite <- !Z.lor_assoc.
  rewrite (lor_add b6 8) by lia. rewrite (lor_add b5 16) by lia. rewrite (lor_add b4 24) by lia.
  rewrite (lor_add b3 32) by lia. rewrite (lor_add b2 40) by lia. rewrite (lor_add b1 48) by lia.
  rewrite (lor_add b0 56) by lia. f_equal. lia.
Qed.

Lemma get_put_uint64 v rest : 0 <= v < 2 ^ 64 -> get_uint64 (put_uint64 v ++ rest) = Done v.
Proof.
  intros Hv. pose proof (be_bytes 8 v) as Hb. rewrite <- put_uint64_be in Hb. unfold put_uint64 in *.
  simpl app. rewrite get_uint64_num by done. f_equal.
  transitivity (num (be 8 v)); [by rewrite <- put_uint64_be|]. by apply num_be.
Qed.

Lemma put_uint64_length v : length (put_uint64 v) = 8%nat.
Proof. done. Qed.

(** Writing an integer of 16, 32 or 64 bits in network order and reading it back
    gives the integer, whatever follows it in the buffer, and reading bytes and
    writing them back gives the bytes: the encodings are bijective. *)
Theorem wire_roundtrip :
  (forall v rest, 0 <= v < 2 ^ 16 -> get_uint16 (put_uint16 v ++ rest) = Done v) /\
  (forall v rest, 0 <= v < 2 ^ 32 -> get_uint32 (put_uint32 v ++ rest) = Done v) /\
  (forall v rest, 0 <= v < 2 ^ 64 -> get_uint64 (put_uint64 v ++ rest) = Done v) /\
  (forall l, Forall byte l -> length l = 8%nat ->
     exists v, get_uint64 l = Done v /\ 0 <= v < 2 ^ 64 /\ put_uint64 v = l).
Proof.
  split_and!.
  - intros v rest Hv. pose proof (be_bytes 2 v) as Hb. rewrite <- put_uint16_be in Hb. unfold put_uint16 in *.
    simpl app. rewrite get_uint16_num by done. f_equal.
    transitivity (num (be 2 v)); [by rewrite <- put_uint16_be|]. by apply num_be.
  - intros v rest Hv. pose proof (be_bytes 4 v) as Hb. rewrite <- put_uint32_be in Hb. unfold put_uint32 in *.
    simpl app. rewrite get_uint32_num by done. f_equal.
    transitivity (num (be 4 v)); [by rewrite <- put_uint32_be|]. by apply num_be.
  - apply get_put_uint64.
  - intros l Hl Hlen. do 9 (destruct l as [|? l]; [try discriminate|]); [|discriminate].
    eexists; split; [by apply get_uint64_num|]. split; [by apply (num_bound _ Hl)|].
    rewrite put_uint64_be. by apply (be_num _ Hl).
Qed.

(** The sizes of the two ends of the range, on the wire. *)
Example put_uint64_bytes : put_uint64 256 = [0; 0; 0; 0; 0; 0; 1; 0] /\
  get_uint64 [255; 255; 255; 255; 255; 255; 255; 255] = Done (2 ^ 64 - 1).
Proof. split; reflexivity. Qed.
End Wire.
