(* ===== verification/Encoder.v ===== *)
(** * Encoder: messages to bytes (libzmq/src/encoder.hpp, v1_encoder.cpp, v2_encoder.cpp)

    The state machine that fills the outgoing buffer, for both versions of the wire
    protocol, and the loop of [stream_engine_t::out_event] that drives it.  A pointer
    into a buffer is the bytes that remain to be written from it.  The theorems: however
    the buffers cut it, the output is the encodings of the messages one after the
    other, and no assertion fails. *)

From S2P Require Import Prelude Msg Wire.

Module Encoder.

(** What the encoder asks of a message: [flags ()], [data ()] and [size ()]. *)
Record frame : Type := Frame { flags : Z; data : list Z }.

Definition size (m : frame) : Z := Z.of_nat (length (data m)).

Definition has (m : frame) (flag : Z) : bool := negb (Z.land (flags m) flag =? 0).

(** ** The headers *)

Definition more_flag : Z := 1.
Definition large_flag : Z := 2.
Definition command_flag : Z := 4.

(** [v1_encoder_t::message_ready] *)
Definition v1_header (m : frame) : list Z :=
  let sz := u64 (size m + 1) in
  if (sz <? 255) then [u8 sz; u8 (Z.land (flags m) Msg.more)]
  else [255] ++ Wire.put_uint64 sz ++ [u8 (Z.land (flags m) Msg.more)].

(** [v2_encoder_t::message_ready] *)
Definition v2_header (m : frame) : list Z :=
  let f := 0 in
  let f := if has m Msg.more then Z.lor f more_flag else f in
  let f := if (255 <? size m) then Z.lor f large_flag else f in
  let f := if has m Msg.command then Z.lor f command_flag else f in
  if (255 <? size m) then [f] ++ Wire.put_uint64 (size m) else [f; u8 (size m)].

Section Encoder.
(** The header of the version in use. *)
Variable header : frame -> list Z.

Inductive estep : Type := MessageReady | SizeReady.

Record encoder : Type := Enc {
  write_pos : list Z;
  next : estep;
  new_msg_flag : bool;
  in_progress : option frame
}.

Definition encoder_new : encoder := Enc [] MessageReady true None.

Definition to_write (e : encoder) : Z := Z.of_nat (length (write_pos e)).

Definition message_ready (e : encoder) : outcome encoder :=
  let* m := deref (in_progress e) in
  Done (Enc (header m) SizeReady false (in_progress e)).

Definition size_ready (e : encoder) : outcome encoder :=
  let* m := deref (in_progress e) in
  Done (Enc (data m) MessageReady true (in_progress e)).

Definition run_next (e : encoder) : outcome encoder :=
  match next e with
  | MessageReady => message_ready e
  | SizeReady => size_ready e
  end.

(** The loop of [encode]; [out] is what the buffer holds.  Closing the message and
    initialising it again is left to its owner. *)
Fixpoint encode_loop (fuel : nat) (supplied : bool) (buffersize : Z) (out : list Z) (e : encoder)
  : outcome (list Z * encoder) :=
  if (Z.of_nat (length out) <? buffersize) then
    match fuel with
    | O => Crash
    | S fuel =>
      if (to_write e =? 0) && new_msg_flag e then
        Done (out, Enc (write_pos e) (next e) (new_msg_flag e) None)
      else
        let* e := if (to_write e =? 0) then run_next e else Done e in
        if (Z.of_nat (length out) =? 0) && negb supplied && (buffersize <=? to_write e) then
          Done (write_pos e, Enc [] (next e) (new_msg_flag e) (in_progress e))
        else
          let to_copy := Z.min (to_write e) (buffersize - Z.of_nat (length out)) in
          encode_loop fuel supplied buffersize (out ++ take (Z.to_nat to_copy) (write_pos e))
            (Enc (drop (Z.to_nat to_copy) (write_pos e)) (next e) (new_msg_flag e) (in_progress e))
    end
  else Done (out, e).

(** At most the rest of the header or body in hand, the body, and the end. *)
Definition encode_fuel : nat := 4.

(** [encode (&data, size)]: [supplied] tells whether the caller gave a buffer; [bufsize]
    is the size of the encoder's own. *)
Definition encode (supplied : option Z) (bufsize : Z) (e : encoder) : outcome (list Z * encoder) :=
  let buffersize := match supplied with Some n => n | None => bufsize end in
  match in_progress e with
  | None => Done ([], e)
  | Some _ => encode_loop encode_fuel (bool_decide (supplied <> None)) buffersize [] e
  end.

Definition load_msg (m : frame) (e : encoder) : outcome encoder :=
  zmq_assert (bool_decide (in_progress e = None)) (run_next (Enc (write_pos e) (next e) (new_msg_flag e) (Some m))).

(** The filling of the output buffer in [out_event], [next_msg] being a queue of
    messages; one unit of fuel per message. *)
Fixpoint fill_loop (fuel : nat) (batch : Z) (out : list Z) (msgs : list frame) (e : encoder)
  : outcome (list Z * list frame * encoder) :=
  if (Z.of_nat (length out) <? batch) then
    match fuel, msgs with
    | S fuel, m :: msgs =>
      let* e := load_msg m e in
      let supplied := if (Z.of_nat (length out) =? 0) then None else Some (batch - Z.of_nat (length out)) in
      let* (o, e) := encode supplied batch e in
      zmq_assert (negb (Z.of_nat (length o) =? 0)) (fill_loop fuel batch (out ++ o) msgs e)
    | _, _ => Done (out, msgs, e)
    end
  else Done (out, msgs, e).

Definition fill (batch : Z) (msgs : list frame) (e : encoder) : outcome (list Z * list frame * encoder) :=
  let* (out, e) := encode None batch e in
  fill_loop (length msgs) batch out msgs e.

(** ** What remains to be sent of the message in hand *)

Definition wire (m : frame) : list Z := header m ++ data m.

Definition pending (e : encoder) : list Z :=
  write_pos e ++ match next e, in_progress e with SizeReady, Some m => data m | _, _ => [] end.

Record enc_ok (e : encoder) : Prop := {
  e_flag : new_msg_flag e = match next e with MessageReady => true | SizeReady => false end;
  e_idle : in_progress e = None -> write_pos e = [] /\ next e = MessageReady
}.

Lemma encoder_new_ok : enc_ok encoder_new.
Proof. by split. Qed.

Hypothesis header_nonempty : forall m, header m <> [].

Lemma load_msg_spec m e :
  enc_ok e -> in_progress e = None ->
  exists e', load_msg m e = Done e' /\ enc_ok e' /\ in_progress e' = Some m /\ pending e' = wire m /\
    write_pos e' <> [].
Proof.
  intros [Hf Hi] Hn. destruct (Hi Hn) as [Hw Hx]. unfold load_msg. rewrite bool_decide_eq_true_2 by done.
  simpl. unfold run_next; simpl. rewrite Hx. eexists; split; [reflexivity|].
  split; [by split|]. split; [done|]. split; [done|]. simpl. apply header_nonempty.
Qed.

(** What a call may leave: all is written, or the buffer is full. *)
Definition left (m : frame) (size : Z) (all out : list Z) (e : encoder) : Prop :=
  all = out ++ pending e /\ enc_ok e /\
  (in_progress e = None /\ pending e = [] \/ in_progress e = Some m /\ size <= Z.of_nat (length out)).

(** Number of iterations needed. *)
Definition rounds (e : encoder) : nat :=
  (match next e with SizeReady => 2 | MessageReady => 1 end +
   match write_pos e with [] => 0 | _ :: _ => 1 end)%nat.

Definition loop_ok (fuel : nat) (supplied : bool) (sz : Z) (m : frame) : Prop :=
  forall out e, enc_ok e -> in_progress e = Some m -> (rounds e <= fuel)%nat ->
  exists out' e', encode_loop fuel supplied sz out e = Done (out ++ out', e') /\
    left m sz (out ++ pending e) (out ++ out') e'.

(** Copying what fits, and the rest of the loop: the buffer is full or there is
    nothing left to copy. *)
Lemma copy_spec fuel supplied sz out e m :
  loop_ok fuel supplied sz m -> enc_ok e -> in_progress e = Some m -> Z.of_nat (length out) < sz ->
  (match next e with SizeReady => 2 | MessageReady => 1 end <= fuel)%nat ->
  let k := Z.to_nat (Z.min (to_write e) (sz - Z.of_nat (length out))) in
  exists out' e', encode_loop fuel supplied sz (out ++ take k (write_pos e))
      (Enc (drop k (write_pos e)) (next e) (new_msg_flag e) (in_progress e)) = Done (out ++ out', e') /\
    left m sz (out ++ pending e) (out ++ out') e'.
Proof.
  intros IH [Hf Hi] Hm Hlt Hr k.
  set (e1 := Enc (drop k (write_pos e)) (next e) (new_msg_flag e) (in_progress e)).
  assert (H1 : enc_ok e1) by (split; [done|simpl; congruence]).
  assert (Hp : out ++ pending e = (out ++ take k (write_pos e)) ++ pending e1).
  { unfold pending, e1; simpl. rewrite <- !app_assoc. f_equal. rewrite !app_assoc. by rewrite take_drop. }
  destruct (decide (Z.of_nat (length out) + to_write e < sz)) as [Hs|Hs].
  - destruct (IH (out ++ take k (write_pos e)) e1) as (out' & e' & E & L); [done|done| |].
    { unfold rounds; simpl. rewrite drop_ge by (unfold k, to_write in *; lia). lia. }
    exists (take k (write_pos e) ++ out'), e'. rewrite Hp. by rewrite !app_assoc in *.
  - exists (take k (write_pos e)), e1.
    assert (Hl : sz <= Z.of_nat (length (out ++ take k (write_pos e)))).
    { rewrite length_app, length_take. unfold k, to_write in *. lia. }
    split; [destruct fuel; cbn [encode_loop];
      (destruct (Z.ltb_spec (Z.of_nat (length (out ++ take k (write_pos e)))) sz); [lia|done])|].
    split; [done|]. split; [done|]. right. split; [done|lia].
Qed.

(** The zero-copy way out, and the copy otherwise. *)
Lemma write_spec fuel supplied sz out e m :
  loop_ok fuel supplied sz m -> enc_ok e -> in_progress e = Some m -> Z.of_nat (length out) < sz ->
  (match next e with SizeReady => 2 | MessageReady => 1 end <= fuel)%nat ->
  exists out' e',
    (if (Z.of_nat (length out) =? 0) && negb supplied && (sz <=? to_write e) then
       Done (write_pos e, Enc [] (next e) (new_msg_flag e) (in_progress e))
     else
       let to_copy := Z.min (to_write e) (sz - Z.of_nat (length out)) in
       encode_loop fuel supplied sz (out ++ take (Z.to_nat to_copy) (write_pos e))
         (Enc (drop (Z.to_nat to_copy) (write_pos e)) (next e) (new_msg_flag e) (in_progress e)))
    = Done (out ++ out', e') /\ left m sz (out ++ pending e) (out ++ out') e'.
Proof.
  intros IH He Hm Hlt Hr. pose proof He as [Hf Hi].
  destruct ((Z.of_nat (length out) =? 0) && negb supplied && (sz <=? to_write e)) eqn:Ez.
  - apply andb_true_iff in Ez as [[Eo _]%andb_true_iff Eb]. apply Z.eqb_eq in Eo. apply Z.leb_le in Eb.
    assert (out = []) as -> by (destruct out; [done|simpl in Eo; lia]).
    eexists (write_pos e), (Enc [] (next e) (new_msg_flag e) (in_progress e)). split; [done|].
    split; [unfold pending; simpl; done|]. split; [split; [done|simpl; congruence]|].
    right. split; [done|]. exact Eb.
  - exact (copy_spec fuel supplied sz out e m IH He Hm Hlt Hr).
Qed.

Lemma encode_loop_spec m supplied sz : forall fuel, loop_ok fuel supplied sz m.
Proof.
  induction fuel as [|fuel IH]; intros out e He Hm Hr.
  { unfold rounds in Hr. destruct (next e); lia. }
  pose proof He as [Hf Hi]. cbn [encode_loop]. destruct (Z.ltb_spec (Z.of_nat (length out)) sz).
  2: { exists [], e. rewrite app_nil_r. split; [done|]. split; [done|]. split; [done|]. right. split; [done|lia]. }
  destruct (Z.eqb_spec (to_write e) 0) as [E0|E0]; cbn [andb].
  - assert (Ew : write_pos e = []) by (unfold to_write in E0; destruct (write_pos e); [done|simpl in E0; lia]).
    rewrite Hf. destruct (next e) eqn:En.
    + exists [], (Enc (write_pos e) (next e) (new_msg_flag e) None). rewrite app_nil_r, En.
      rewrite Hf. split; [done|]. unfold left, pending; simpl. rewrite En, Ew. split; [done|].
      split; [split; [done|done]|]. by left.
    + unfold run_next. rewrite En. unfold size_ready. rewrite Hm. cbn [deref obind].
      assert (Hp : pending e = pending (Enc (data m) MessageReady true (Some m))).
      { unfold pending; simpl. rewrite En, Hm, Ew. by rewrite app_nil_r. }
      rewrite Hp. apply (write_spec fuel supplied sz out); try done.
      unfold rounds in Hr. rewrite En in Hr. simpl. lia.
  - cbn [obind]. apply write_spec; try done.
    unfold rounds in Hr. destruct (write_pos e) eqn:Ew; [unfold to_write in E0; rewrite Ew in E0; done|].
    destruct (next e); lia.
Qed.

Lemma encode_spec e m supplied bufsize :
  enc_ok e -> in_progress e = Some m ->
  exists out e', encode supplied bufsize e = Done (out, e') /\
    left m (match supplied with Some n => n | None => bufsize end) (pending e) out e'.
Proof.
  intros He Hm. unfold encode. rewrite Hm.
  destruct (encode_loop_spec m (bool_decide (supplied <> None))
    (match supplied with Some n => n | None => bufsize end) encode_fuel [] e He Hm) as (out & e' & E & L).
  - unfold rounds, encode_fuel. destruct (next e), (write_pos e); lia.
  - by exists out, e'.
Qed.

(** ** The output buffer *)

Definition wires (msgs : list frame) : list Z := flat_map wire msgs.

(** What the engine will send: the rest of the message in hand, then the queue. *)
Definition to_send (msgs : list frame) (e : encoder) : list Z := pending e ++ wires msgs.

(** When the loop is entered with a full buffer the message in hand may not be
    finished; otherwise it is. *)
Definition between (batch : Z) (out : list Z) (e : encoder) : Prop :=
  enc_ok e /\ (in_progress e = None /\ pending e = [] \/ batch <= Z.of_nat (length out)).

Lemma fill_loop_spec batch : forall msgs out e,
  between batch out e ->
  exists out' msgs' e', fill_loop (length msgs) batch out msgs e = Done (out ++ out', msgs', e') /\
    between batch (out ++ out') e' /\ to_send msgs e = out' ++ to_send msgs' e' /\
    (msgs' = [] \/ batch <= Z.of_nat (length (out ++ out'))).
Proof.
  induction msgs as [|m msgs IH]; intros out e [He Hb]; cbn [length fill_loop].
  - exists [], [], e. rewrite app_nil_r. split; [by destruct (Z.ltb _ _)|]. split; [done|]. split; [done|]. by left.
  - destruct (Z.ltb_spec (Z.of_nat (length out)) batch).
    2: { exists [], (m :: msgs), e. rewrite app_nil_r. split; [done|]. split; [done|]. split; [done|]. by right. }
    destruct Hb as [[Hn Hp]|Hb]; [|lia].
    destruct (load_msg_spec m e He Hn) as (e1 & -> & He1 & Hm1 & Hp1 & Hw1). cbn [obind].
    set (sup := if (Z.of_nat (length out) =? 0) then None else Some (batch - Z.of_nat (length out))).
    destruct (encode_spec e1 m sup batch He1 Hm1) as (o & e2 & -> & L1 & L2 & L3). cbn [obind].
    assert (Hsz : (match sup with Some n => n | None => batch end) = batch - Z.of_nat (length out)).
    { unfold sup. destruct (Z.eqb_spec (Z.of_nat (length out)) 0); lia. }
    rewrite Hsz in L3.
    assert (Ho : 0 < Z.of_nat (length o)).
    { destruct L3 as [[_ Hp2]|[_ Hl]]; [|lia]. rewrite Hp2, app_nil_r in L1. rewrite <- L1, Hp1.
      unfold wire. rewrite length_app. pose proof (header_nonempty m). destruct (header m); [done|simpl; lia]. }
    destruct (Z.eqb_spec (Z.of_nat (length o)) 0); [lia|]. cbn [negb zmq_assert].
    destruct (IH (out ++ o) e2) as (out' & msgs' & e' & E & Hb' & Hs & Hd).
    { split; [done|]. destruct L3 as [?|[_ Hl]]; [by left|]. right. rewrite length_app. lia. }
    exists (o ++ out'), msgs', e'. rewrite app_assoc. split; [exact E|]. split; [done|]. split; [|done].
    unfold to_send in *. rewrite Hp. simpl. rewrite <- Hp1, L1, <- !app_assoc. by rewrite Hs.
Qed.

Lemma fill_spec batch msgs e :
  0 < batch -> enc_ok e ->
  exists out msgs' e', fill batch msgs e = Done (out, msgs', e') /\ enc_ok e' /\
    to_send msgs e = out ++ to_send msgs' e' /\
    (to_send msgs' e' = [] \/ batch <= Z.of_nat (length out)).
Proof.
  intros Hb He. unfold fill.
  assert (Hfirst : exists out e1, encode None batch e = Done (out, e1) /\ between batch out e1 /\
    pending e = out ++ pending e1).
  { destruct (in_progress e) as [m|] eqn:Em.
    - destruct (encode_spec e m None batch He Em) as (out & e1 & E & L1 & L2 & L3).
      exists out, e1. split; [done|]. split; [|done]. split; [done|]. destruct L3 as [?|[_ ?]]; [by left|by right].
    - exists [], e. unfold encode. rewrite Em. split; [done|]. split; [|done]. split; [done|]. left. split; [done|].
      destruct (e_idle _ He Em) as [Hw Hx]. unfold pending. by rewrite Hw, Hx. }
  destruct Hfirst as (out & e1 & -> & Hbt & Hp). cbn [obind].
  destruct (fill_loop_spec batch msgs out e1 Hbt) as (out' & msgs' & e' & -> & [He' Hd'] & Hs & Hd).
  eexists _, msgs', e'. split; [reflexivity|]. split; [done|]. split.
  - unfold to_send in *. by rewrite Hp, <- !app_assoc, Hs.
  - destruct Hd as [->|?]; [|by right]. destruct Hd' as [[_ Hp']|?]; [|by right]. left.
    unfold to_send. by rewrite Hp'.
Qed.

(** Successive output events; each finds more messages queued. *)
Fixpoint out_events (batch : Z) (arrivals : list (list frame)) (queue : list frame) (e : encoder)
  : outcome (list Z * list frame * encoder) :=
  match arrivals with
  | [] => Done ([], queue, e)
  | a :: arrivals =>
    let* (out, queue, e) := fill batch (queue ++ a) e in
    let* (outs, queue, e) := out_events batch arrivals queue e in
    Done (out ++ outs, queue, e)
  end.

Lemma wires_app l k : wires (l ++ k) = wires l ++ wires k.
Proof. unfold wires. apply flat_map_app. Qed.

Lemma out_events_spec batch arrivals : 0 < batch -> forall queue e,
  enc_ok e ->
  exists outs q e', out_events batch arrivals queue e = Done (outs, q, e') /\ enc_ok e' /\
    to_send (queue ++ concat arrivals) e = outs ++ to_send q e'.
Proof.
  intros Hb. induction arrivals as [|a arrivals IH]; intros queue e He; simpl.
  - exists [], queue, e. by rewrite app_nil_r.
  - destruct (fill_spec batch (queue ++ a) e Hb He) as (out & q1 & e1 & -> & He1 & Hs & _). cbn [obind].
    destruct (IH q1 e1 He1) as (outs & q & e' & -> & He' & Hs'). cbn [obind].
    exists (out ++ outs), q, e'. split; [done|]. split; [done|].
    unfold to_send in *. rewrite !app_assoc, wires_app, app_assoc, Hs, <- !app_assoc.
    f_equal. by rewrite <- Hs', wires_app.
Qed.
End Encoder.

Lemma v1_header_nonempty m : v1_header m <> [].
Proof. unfold v1_header. by destruct (_ <? 255). Qed.

Lemma v2_header_nonempty m : v2_header m <> [].
Proof. unfold v2_header. by destruct (255 <? size m). Qed.

(** Whatever the size of the output buffer and however messages arrive between
    output events, the bytes sent followed by what is still to be sent are the
    encodings of the messages, in order, for both versions of the protocol; no
    assertion fails ([load_msg] finds no message in progress, and an encoded message
    has bytes). *)
Theorem encoder_sends_wires batch arrivals :
  0 < batch ->
  (exists outs q e', out_events v1_header batch arrivals [] encoder_new = Done (outs, q, e') /\
     wires v1_header (concat arrivals) = outs ++ to_send v1_header q e') /\
  (exists outs q e', out_events v2_header batch arrivals [] encoder_new = Done (outs, q, e') /\
     wires v2_header (concat arrivals) = outs ++ to_send v2_header q e').
Proof.
  intros Hb. split.
  - destruct (out_events_spec v1_header v1_header_nonempty batch arrivals Hb [] encoder_new encoder_new_ok)
      as (outs & q & e' & E & _ & Hs). by exists outs, q, e'.
  - destruct (out_events_spec v2_header v2_header_nonempty batch arrivals Hb [] encoder_new encoder_new_ok)
      as (outs & q & e' & E & _ & Hs). by exists outs, q, e'.
Qed.

(** An output event that leaves something unsent fills the output buffer. *)
Theorem out_event_progress batch msgs e :
  0 < batch -> enc_ok e ->
  exists out msgs' e', fill v2_header batch msgs e = Done (out, msgs', e') /\
    (to_send v2_header msgs' e' = [] \/ batch <= Z.of_nat (length out)).
Proof.
  intros Hb He. destruct (fill_spec v2_header v2_header_nonempty batch msgs e Hb He)
    as (out & msgs' & e' & E & _ & _ & H). by exists out, msgs', e'.
Qed.

(** A message of three bytes and one of two, with a buffer of four bytes. *)
Definition sample_msgs : list (list frame) := [[Frame 1 [7; 8; 9]; Frame 0 [5; 6]]; []; []; []].

Example sample_output :
  omap_out (fun r => r.1.1) (out_events v2_header 4 sample_msgs [] encoder_new) =
  Done [1; 3; 7; 8; 9; 0; 2; 5; 6].
Proof. vm_compute. reflexivity. Qed.

Lemma encoder_sends_wires_witness :
  0 < 4 /\ exists outs q e', out_events v2_header 4 sample_msgs [] encoder_new = Done (outs, q, e') /\
     wires v2_header (concat sample_msgs) = outs ++ to_send v2_header q e'.
Proof. split; [lia|]. apply (encoder_sends_wires 4 sample_msgs). lia. Defined.

Lemma out_event_progress_witness :
  0 < 4 /\ enc_ok encoder_new /\
  exists out msgs' e', fill v2_header 4 (concat sample_msgs) encoder_new = Done (out, msgs', e') /\
    (to_send v2_header msgs' e' = [] \/ 4 <= Z.of_nat (length out)).
Proof.
  split; [lia|]. split; [exact encoder_new_ok|].
  apply (out_event_progress 4 (concat sample_msgs) encoder_new); [lia|exact encoder_new_ok].
Defined.
End Encoder.
