(* ===== verification/Decoder.v ===== *)
(** * Decoder: bytes to messages (libzmq/src/decoder.hpp, v1_decoder.cpp, v2_decoder.cpp)

    The state machine that parses the incoming buffer, for both versions of the wire
    protocol, and the loop of [stream_engine_t::in_event] that drives it.  What the
    decoder has stored at its destination since the last [next_step] is the list
    [got]; whether the destination is the temporary buffer, the body of the message
    or the input buffer itself (zero copy) changes where the bytes are, not what they
    are.  The theorems: the parser does not depend on how the input is cut, and it is
    the inverse of the encoder. *)

From S2P Require Import Prelude Msg Wire Encoder.

Module Decoder.
Import Encoder.

Inductive derr : Type := EMSGSIZE | EPROTO | ENOMEM.

(** The result of a step: 0, 1 or -1. *)
Inductive dresult : Type := More | Message | Err (e : derr).

Inductive dstep : Type := FlagsReady | OneByteSizeReady | EightByteSizeReady | BodyReady.

Record decoder : Type := Dec {
  next : dstep;
  got : list Z;
  to_read : Z;
  msg_flags : Z;
  msg_size : Z;
  in_progress : frame
}.

(** [next_step (destination, n, s)] *)
Definition next_step (n : Z) (s : dstep) (d : decoder) : decoder :=
  Dec s [] n (msg_flags d) (msg_size d) (in_progress d).

Definition store (l : list Z) (d : decoder) : decoder :=
  Dec (next d) (got d ++ l) (to_read d - Z.of_nat (length l)) (msg_flags d) (msg_size d) (in_progress d).

(** A message initialised with room for [n] bytes. *)
Definition init_msg (n : Z) (d : decoder) : decoder :=
  Dec (next d) (got d) (to_read d) (msg_flags d) n (Frame 0 []).

Definition set_msg_flags (f : Z) (d : decoder) : decoder :=
  Dec (next d) (got d) (to_read d) (msg_flags d) (msg_size d)
      (Frame (Z.lor (flags (in_progress d)) f) (data (in_progress d))).

Definition set_wire_flags (f : Z) (d : decoder) : decoder :=
  Dec (next d) (got d) (to_read d) f (msg_size d) (in_progress d).

Definition decoder_new (first : dstep) : decoder := Dec first [] 1 0 0 (Frame 0 []).

(** ** The steps of the two versions *)

Section Steps.
(** The limit on the size of messages, none if negative, and whether a message of a
    size can be allocated. *)
Variable maxmsgsize : Z.
Variable can_alloc : Z -> bool.

(** [message_ready]: the body is what was stored. *)
Definition message_ready (first : dstep) (d : decoder) : outcome (dresult * decoder) :=
  let d := Dec (next d) (got d) (to_read d) (msg_flags d) (msg_size d)
               (Frame (flags (in_progress d)) (got d)) in
  Done (Message, next_step 1 first d).

(** *** Version 2 *)

Definition v2_flags_ready (d : decoder) : outcome (dresult * decoder) :=
  let* b := nth_z (got d) 0 in
  let f := 0 in
  let f := if negb (Z.land b more_flag =? 0) then Z.lor f Msg.more else f in
  let f := if negb (Z.land b command_flag =? 0) then Z.lor f Msg.command else f in
  let d := set_wire_flags f d in
  if negb (Z.land b large_flag =? 0) then Done (More, next_step 8 EightByteSizeReady d)
  else Done (More, next_step 1 OneByteSizeReady d).

Definition v2_size_ready (n : Z) (d : decoder) : outcome (dresult * decoder) :=
  if (0 <=? maxmsgsize) && (u64 maxmsgsize <? n) then Done (Err EMSGSIZE, d)
  else if negb (n =? u64 n) then Done (Err EMSGSIZE, d)
  else if negb (can_alloc n) then Done (Err ENOMEM, init_msg 0 d)
  else
    let d := init_msg n d in
    let d := set_msg_flags (msg_flags d) d in
    Done (More, next_step (msg_size d) BodyReady d).

Definition v2_next (d : decoder) : outcome (dresult * decoder) :=
  match next d with
  | FlagsReady => v2_flags_ready d
  | OneByteSizeReady => let* b := nth_z (got d) 0 in v2_size_ready b d
  | EightByteSizeReady => let* n := Wire.get_uint64 (got d) in v2_size_ready n d
  | BodyReady => message_ready FlagsReady d
  end.

(** *** Version 1 *)

Definition v1_one_byte_size_ready (d : decoder) : outcome (dresult * decoder) :=
  let* b := nth_z (got d) 0 in
  if (b =? 255) then Done (More, next_step 8 EightByteSizeReady d)
  else if (b =? 0) then Done (Err EPROTO, d)
  else if (0 <=? maxmsgsize) && (maxmsgsize <? b - 1) then Done (Err EMSGSIZE, d)
  else if negb (can_alloc (u64 (b - 1))) then Done (Err ENOMEM, init_msg 0 d)
  else Done (More, next_step 1 FlagsReady (init_msg (u64 (b - 1)) d)).

Definition v1_eight_byte_size_ready (d : decoder) : outcome (dresult * decoder) :=
  let* n := Wire.get_uint64 (got d) in
  if (n =? 0) then Done (Err EPROTO, d)
  else if (0 <=? maxmsgsize) && (u64 maxmsgsize <? u64 (n - 1)) then Done (Err EMSGSIZE, d)
  else if (2 ^ 64 - 1 <? u64 (n - 1)) then Done (Err EMSGSIZE, d)
  else if negb (can_alloc (u64 (n - 1))) then Done (Err ENOMEM, init_msg 0 d)
  else Done (More, next_step 1 FlagsReady (init_msg (u64 (n - 1)) d)).

Definition v1_flags_ready (d : decoder) : outcome (dresult * decoder) :=
  let* b := nth_z (got d) 0 in
  let d := set_msg_flags (Z.land b Msg.more) d in
  Done (More, next_step (u64 (msg_size d)) BodyReady d).

Definition v1_next (d : decoder) : outcome (dresult * decoder) :=
  match next d with
  | OneByteSizeReady => v1_one_byte_size_ready d
  | EightByteSizeReady => v1_eight_byte_size_ready d
  | FlagsReady => v1_flags_ready d
  | BodyReady => message_ready OneByteSizeReady d
  end.
End Steps.

(** ** The base class *)

Section Base.
Variable next_fn : decoder -> outcome (dresult * decoder).

(** [while (to_read == 0) { rc = next (...); if (rc != 0) return rc; }] *)
Fixpoint next_loop (fuel : nat) (d : decoder) : outcome (dresult * decoder) :=
  if (to_read d =? 0) then
    match fuel with
    | O => Crash
    | S fuel =>
      let* (r, d) := next_fn d in
      match r with
      | More => next_loop fuel d
      | _ => Done (r, d)
      end
    end
  else Done (More, d).

(** A size, then an empty body, then the message. *)
Definition next_fuel : nat := 3.

(** The copying loop; [rest] is the input from [data_ + bytes_used_]. *)
Fixpoint copy_loop (fuel : nat) (rest : list Z) (d : decoder) : outcome (dresult * list Z * decoder) :=
  match rest, fuel with
  | [], _ => Done (More, [], d)
  | _ :: _, O => Crash
  | _ :: _, S fuel =>
    let to_copy := Z.to_nat (Z.min (to_read d) (Z.of_nat (length rest))) in
    let* (r, d) := next_loop next_fuel (store (take to_copy rest) d) in
    match r with
    | More => copy_loop fuel (drop to_copy rest) d
    | _ => Done (r, drop to_copy rest, d)
    end
  end.

(** [decode]: [direct] tells that the caller filled the destination itself; the result
    has the input that is not used. *)
Definition decode (direct : bool) (input : list Z) (d : decoder) : outcome (dresult * list Z * decoder) :=
  if direct then
    zmq_assert (Z.of_nat (length input) <=? to_read d)
      (let* (r, d) := next_loop next_fuel (store input d) in Done (r, [], d))
  else copy_loop (length input) input d.

(** The loop of [in_event]: decode what was received, hand over each message. *)
Fixpoint in_event_loop (fuel : nat) (direct : bool) (input : list Z) (d : decoder)
  : outcome (list frame * dresult * decoder) :=
  match input, fuel with
  | [], _ => Done ([], More, d)
  | _ :: _, O => Crash
  | _ :: _, S fuel =>
    let* (r, rest, d) := decode direct input d in
    match r with
    | Message =>
      let* (ms, r, d') := in_event_loop fuel false rest d in
      Done (in_progress d :: ms, r, d')
    | _ => Done ([], r, d)
    end
  end.

Definition in_event (direct : bool) (input : list Z) (d : decoder) : outcome (list frame * dresult * decoder) :=
  in_event_loop (length input) direct input d.

(** ** One byte at a time *)

Definition feed1 (b : Z) (d : decoder) : outcome (dresult * decoder) := next_loop next_fuel (store [b] d).

Fixpoint feed (input : list Z) (d : decoder) : outcome (list frame * dresult * decoder) :=
  match input with
  | [] => Done ([], More, d)
  | b :: rest =>
    let* (r, d) := feed1 b d in
    match r with
    | More => feed rest d
    | Message => let* (ms, r, d') := feed rest d in Done (in_progress d :: ms, r, d')
    | Err _ => Done ([], r, d)
    end
  end.

Definition good (d : decoder) : Prop := 0 < to_read d.

(** A step asks for bytes, or ends a message and asks for bytes. *)
Hypothesis next_good : forall d r d', next_fn d = Done (r, d') ->
  match r with More => 0 <= to_read d' | Message => 0 < to_read d' | Err _ => True end.

Lemma next_loop_good fuel d r d' :
  0 <= to_read d -> next_loop fuel d = Done (r, d') -> match r with Err _ => True | _ => good d' end.
Proof.
  revert d. induction fuel as [|fuel IH]; intros d Hd; simpl; destruct (Z.eqb_spec (to_read d) 0); try done.
  - injection 1 as <- <-. unfold good. lia.
  - destruct (next_fn d) as [[r1 d1]|] eqn:E; simpl; [|done]. pose proof (next_good _ _ _ E) as Hn.
    destruct r1; [by apply IH| |]; injection 1 as <- <-; [exact Hn|done].
  - injection 1 as <- <-. unfold good. lia.
Qed.

Lemma store_store l k d : store k (store l d) = store (l ++ k) d.
Proof. unfold store; simpl. rewrite <- app_assoc, length_app. f_equal. lia. Qed.

Lemma store_nil d : store [] d = d.
Proof. unfold store. simpl. rewrite app_nil_r, Z.sub_0_r. by destruct d. Qed.

(** Bytes that do not complete what is being read. *)
Lemma feed_partial l rest : forall d,
  Z.of_nat (length l) < to_read d -> feed (l ++ rest) d = feed rest (store l d).
Proof.
  induction l as [|b l IH]; intros d Hl; [by rewrite store_nil|]. simpl in Hl |- *. unfold feed1.
  assert (E : next_loop next_fuel (store [b] d) = Done (More, store [b] d)).
  { unfold next_fuel; cbn [next_loop]. destruct (Z.eqb_spec (to_read (store [b] d)) 0) as [E|]; [simpl in E; lia|done]. }
  rewrite E. cbn [obind]. rewrite IH by (simpl; lia). by rewrite store_store.
Qed.

(** Bytes that complete it. *)
Lemma feed_exact l rest d :
  Z.of_nat (length l) = to_read d -> 0 < to_read d ->
  feed (l ++ rest) d =
    let* (r, d) := next_loop next_fuel (store l d) in
    match r with
    | More => feed rest d
    | Message => let* (ms, r, d') := feed rest d in Done (in_progress d :: ms, r, d')
    | Err _ => Done ([], r, d)
    end.
Proof.
  intros Hl Hd. destruct (exists_last (l := l)) as (l0 & b & ->); [by intros ->; simpl in Hl; lia|].
  rewrite length_app in Hl; simpl in Hl. rewrite <- app_assoc, feed_partial by lia. simpl. unfold feed1.
  by rewrite store_store.
Qed.

(** [decode] is the bytes up to the end of a message. *)
Lemma copy_loop_feed fuel : forall rest d,
  good d -> (length rest <= fuel)%nat ->
  feed rest d =
    let* (r, rest', d') := copy_loop fuel rest d in
    match r with
    | More => Done ([], More, d')
    | Message => let* (ms, r, d2) := feed rest' d' in Done (in_progress d' :: ms, r, d2)
    | Err _ => Done ([], r, d')
    end.
Proof.
  induction fuel as [|fuel IH]; intros rest d Hd Hf.
  { destruct rest; [done|simpl in Hf; lia]. }
  destruct rest as [|b rest]; [done|]. cbn [copy_loop]. set (l := b :: rest) in *.
  unfold good in Hd. destruct (Z.le_gt_cases (to_read d) (Z.of_nat (length l))) as [Hle|Hgt].
  - rewrite Z.min_l by lia. set (k := Z.to_nat (to_read d)).
    assert (Hk : length (take k l) = k) by (rewrite length_take; unfold k; lia).
    rewrite <- (take_drop k l) at 1. rewrite feed_exact by (try done; rewrite Hk; unfold k; lia).
    destruct (next_loop next_fuel (store (take k l) d)) as [[r d1]|] eqn:E; cbn [obind]; [|done].
    assert (Hg : match r with Err _ => True | _ => good d1 end).
    { apply (next_loop_good next_fuel (store (take k l) d)); [|done]. simpl. rewrite Hk. unfold k. lia. }
    destruct r; [|done|done]. apply IH; [done|]. rewrite length_drop. unfold k. simpl in *. lia.
  - rewrite Z.min_r by lia. rewrite Nat2Z.id, take_ge, drop_ge by lia.
    rewrite <- (app_nil_r l) at 1. rewrite feed_partial by lia. simpl feed.
    unfold next_fuel; cbn [next_loop].
    destruct (Z.eqb_spec (to_read (store l d)) 0) as [E|]; [simpl in E; unfold l in *; simpl in *; lia|].
    cbn [obind]. by destruct fuel.
Qed.

Lemma decode_feed direct input d :
  good d -> (direct = true -> Z.of_nat (length input) <= to_read d) -> input <> [] ->
  feed input d =
    let* (r, rest', d') := decode direct input d in
    match r with
    | More => Done ([], More, d')
    | Message => let* (ms, r, d2) := feed rest' d' in Done (in_progress d' :: ms, r, d2)
    | Err _ => Done ([], r, d')
    end.
Proof.
  intros Hd Hdir Hne. unfold decode. destruct direct; [|by apply copy_loop_feed].
  specialize (Hdir eq_refl). destruct (Z.leb_spec (Z.of_nat (length input)) (to_read d)); [|lia].
  cbn [zmq_assert]. destruct (Z.eq_dec (Z.of_nat (length input)) (to_read d)) as [He|Hlt].
  - rewrite <- (app_nil_r input) at 1. rewrite feed_exact by (unfold good in Hd; lia).
    destruct (next_loop next_fuel (store input d)) as [[[] d1]|]; done.
  - rewrite <- (app_nil_r input) at 1. rewrite feed_partial by lia. simpl feed.
    unfold next_fuel; cbn [next_loop].
    destruct (Z.eqb_spec (to_read (store input d)) 0) as [E|]; [simpl in E; lia|done].
Qed.

(** Decoding uses at least a byte and leaves a decoder that waits for bytes. *)
Lemma copy_loop_rest fuel : forall rest d r rest' d',
  good d -> copy_loop fuel rest d = Done (r, rest', d') ->
  (length rest' <= length rest)%nat /\ (rest <> [] -> length rest' < length rest)%nat /\
  match r with Err _ => True | _ => good d' end.
Proof.
  induction fuel as [|fuel IH]; intros rest d r rest' d' Hd E; destruct rest as [|b rest]; cbn [copy_loop] in E; try done.
  - by injection E as <- <- <-.
  - by injection E as <- <- <-.
  - set (l := b :: rest) in *. set (k := Z.to_nat (Z.min (to_read d) (Z.of_nat (length l)))) in *.
    unfold good in Hd. assert (Hk : (0 < k <= length l)%nat) by (unfold k, l; simpl; lia).
    destruct (next_loop next_fuel (store (take k l) d)) as [[r1 d1]|] eqn:En; cbn [obind] in E; [|done].
    assert (Hg : match r1 with Err _ => True | _ => good d1 end).
    { apply (next_loop_good next_fuel (store (take k l) d)); [|done]. simpl. rewrite length_take. lia. }
    destruct r1.
    + apply IH in E as (E1 & _ & E3); [|done]. rewrite length_drop in E1. split; [lia|]. split; [intros _; lia|done].
    + injection E as <- <- <-. rewrite length_drop. split; [lia|]. split; [intros _; lia|done].
    + injection E as <- <- <-. rewrite length_drop. split; [lia|]. split; [intros _; lia|done].
Qed.

(** The engine's loop is the bytes one after the other. *)
Lemma in_event_loop_feed fuel : forall direct input d,
  good d -> (direct = true -> Z.of_nat (length input) <= to_read d) -> (length input <= fuel)%nat ->
  in_event_loop fuel direct input d = feed input d.
Proof.
  induction fuel as [|fuel IH]; intros direct input d Hd Hdir Hf.
  { destruct input; [done|simpl in Hf; lia]. }
  destruct input as [|b input]; [done|]. rewrite (decode_feed direct (b :: input) d Hd Hdir) by done.
  cbn [in_event_loop]. destruct (decode direct (b :: input) d) as [[[r rest] d1]|] eqn:E; cbn [obind]; [|done].
  destruct r; [done| |done].
  assert (Hr : (length rest < length (b :: input))%nat /\ good d1).
  { unfold decode in E. destruct direct.
    - specialize (Hdir eq_refl). destruct (_ <=? _); cbn [zmq_assert] in E; [|done].
      destruct (next_loop next_fuel (store (b :: input) d)) as [[r1 d2]|] eqn:En; cbn [obind] in E; [|done].
      injection E as -> <- <-. split; [simpl; lia|].
      apply (next_loop_good next_fuel (store (b :: input) d) Message d2); [simpl in *; lia|done].
    - destruct (copy_loop_rest _ _ _ _ _ _ Hd E) as (_ & Hl & Hg). split; [by apply Hl|done]. }
  destruct Hr as [Hr Hg]. rewrite IH; [done|done|done|]. simpl in *. lia.
Qed.

Lemma feed_app a : forall b d,
  feed (a ++ b) d =
    let* (ms, r, d1) := feed a d in
    match r with
    | Err _ => Done (ms, r, d1)
    | _ => let* (ms', r', d2) := feed b d1 in Done (ms ++ ms', r', d2)
    end.
Proof.
  induction a as [|x a IH]; intros b d; simpl.
  - by destruct (feed b d) as [[[ms r] d2]|].
  - destruct (feed1 x d) as [[r d1]|]; simpl; [|done]. destruct r; [apply IH| |done].
    rewrite IH. destruct (feed a d1) as [[[ms r] d2]|]; simpl; [|done].
    destruct r; [| |done]; by destruct (feed b d2) as [[[ms' r'] d3]|].
Qed.

(** Successive input events, while there is no error. *)
Fixpoint in_events (chunks : list (list Z)) (d : decoder) : outcome (list frame * dresult * decoder) :=
  match chunks with
  | [] => Done ([], More, d)
  | c :: chunks =>
    let* (ms, r, d) := in_event false c d in
    match r with
    | Err _ => Done (ms, r, d)
    | _ => let* (ms', r', d) := in_events chunks d in Done (ms ++ ms', r', d)
    end
  end.

Lemma feed_good l : forall d ms r d', good d -> feed l d = Done (ms, r, d') ->
  match r with Err _ => True | Message => False | More => good d' end.
Proof.
  induction l as [|b l IH]; intros d ms r d' Hd E; simpl in E; [by injection E as <- <- <-|].
  destruct (feed1 b d) as [[r1 d1]|] eqn:E1; simpl in E; [|done].
  assert (Hg : match r1 with Err _ => True | _ => good d1 end).
  { apply (next_loop_good next_fuel (store [b] d)); [|done]. simpl. unfold good in Hd. lia. }
  destruct r1.
  - by apply IH in E.
  - destruct (feed l d1) as [[[ms1 r1] d2]|] eqn:E2; simpl in E; [|done]. injection E as <- <- <-.
    by apply IH in E2.
  - by injection E as <- <- <-.
Qed.

Lemma in_events_feed chunks : forall d, good d -> in_events chunks d = feed (concat chunks) d.
Proof.
  induction chunks as [|c chunks IH]; intros d Hd; [done|]. simpl. unfold in_event.
  rewrite in_event_loop_feed, feed_app by done.
  destruct (feed c d) as [[[ms r] d1]|] eqn:E; simpl; [|done]. pose proof (feed_good _ _ _ _ _ Hd E) as Hg.
  destruct r; [|done|done]. by rewrite IH.
Qed.

(** The last piece of a header, and the body that follows it. *)
Lemma feed_body first piece body rest d d1 :
  (forall d, next d = BodyReady -> next_fn d = message_ready first d) ->
  Z.of_nat (length piece) = to_read d -> 0 < to_read d ->
  next_fn (store piece d) = Done (More, d1) -> next d1 = BodyReady -> got d1 = [] ->
  to_read d1 = Z.of_nat (length body) ->
  exists d2, next d2 = first /\ got d2 = [] /\ to_read d2 = 1 /\
    feed (piece ++ body ++ rest) d =
      let* (ms, r, d') := feed rest d2 in Done (Frame (flags (in_progress d1)) body :: ms, r, d').
Proof.
  intros Hb Hl Hd Hn Hn1 Hg1 Hr1. rewrite feed_exact by done. unfold next_fuel; cbn [next_loop].
  destruct (Z.eqb_spec (to_read (store piece d)) 0) as [_|E]; [|simpl in E; lia].
  rewrite Hn. cbn [obind]. destruct (Z.eqb_spec (to_read d1) 0) as [E1|E1].
  - assert (body = []) as -> by (destruct body; [done|simpl in Hr1; lia]).
    rewrite (Hb d1 Hn1). unfold message_ready. cbn [obind]. rewrite Hg1. simpl app.
    eexists. split; [|split; [|split; [|reflexivity]]]; done.
  - cbn [obind]. rewrite feed_exact by lia. unfold next_fuel; cbn [next_loop].
    destruct (Z.eqb_spec (to_read (store body d1)) 0) as [_|E2]; [|simpl in E2; lia].
    rewrite (Hb (store body d1)) by done. unfold message_ready. cbn [obind store got]. rewrite Hg1. simpl app.
    eexists. split; [|split; [|split; [|reflexivity]]]; done.
Qed.

(** A piece of a header that is followed by another. *)
Lemma feed_piece piece rest d d1 :
  Z.of_nat (length piece) = to_read d -> 0 < to_read d ->
  next_fn (store piece d) = Done (More, d1) -> 0 < to_read d1 ->
  feed (piece ++ rest) d = feed rest d1.
Proof.
  intros Hl Hd Hn Hd1. rewrite feed_exact by done. unfold next_fuel; cbn [next_loop].
  destruct (Z.eqb_spec (to_read (store piece d)) 0) as [_|E]; [|simpl in E; lia].
  rewrite Hn. cbn [obind]. by destruct (Z.eqb_spec (to_read d1) 0); [lia|].
Qed.

(** A header that is refused. *)
Lemma feed_error piece rest d d1 e :
  Z.of_nat (length piece) = to_read d -> 0 < to_read d ->
  next_fn (store piece d) = Done (Err e, d1) -> feed (piece ++ rest) d = Done ([], Err e, d1).
Proof.
  intros Hl Hd Hn. rewrite feed_exact by done. unfold next_fuel; cbn [next_loop].
  destruct (Z.eqb_spec (to_read (store piece d)) 0) as [_|E]; [|simpl in E; lia].
  by rewrite Hn.
Qed.
End Base.

(** ** Each version reads what it writes *)

Section Versions.
Variable maxmsgsize : Z.
Variable can_alloc : Z -> bool.
Hypothesis maxmsgsize_range : maxmsgsize < 2 ^ 63.

Lemma v2_next_good d r d' : v2_next maxmsgsize can_alloc d = Done (r, d') ->
  match r with More => 0 <= to_read d' | Message => 0 < to_read d' | Err _ => True end.
Proof.
  assert (Hs : forall n d0, v2_size_ready maxmsgsize can_alloc n d0 = Done (r, d') ->
    match r with More => 0 <= to_read d' | Message => 0 < to_read d' | Err _ => True end).
  { intros n d0. unfold v2_size_ready. destruct (_ && _); [by injection 1 as <- <-|].
    destruct (Z.eqb_spec n (u64 n)) as [E|]; [|by injection 1 as <- <-].
    destruct (negb (can_alloc n)); [by injection 1 as <- <-|]. injection 1 as <- <-. simpl.
    rewrite E. unfold u64. apply Z.mod_pos_bound. lia. }
  unfold v2_next. destruct (next d).
  - unfold v2_flags_ready. destruct (nth_z (got d) 0) as [b|]; simpl; [|done].
    destruct (negb (Z.land b large_flag =? 0)); injection 1 as <- <-; simpl; lia.
  - destruct (nth_z (got d) 0) as [b|]; simpl; [apply Hs|done].
  - destruct (Wire.get_uint64 (got d)) as [n|]; simpl; [apply Hs|done].
  - unfold message_ready. injection 1 as <- <-. simpl. lia.
Qed.

Lemma v1_next_good d r d' : v1_next maxmsgsize can_alloc d = Done (r, d') ->
  match r with More => 0 <= to_read d' | Message => 0 < to_read d' | Err _ => True end.
Proof.
  unfold v1_next. destruct (next d).
  - unfold v1_flags_ready. destruct (nth_z (got d) 0) as [b|]; simpl; [|done]. injection 1 as <- <-. simpl.
    unfold u64. apply Z.mod_pos_bound. lia.
  - unfold v1_one_byte_size_ready. destruct (nth_z (got d) 0) as [b|]; simpl; [|done].
    destruct (b =? 255); [injection 1 as <- <-; simpl; lia|].
    destruct (b =? 0); [by injection 1 as <- <-|]. destruct (_ && _); [by injection 1 as <- <-|].
    destruct (negb _); injection 1 as <- <-; simpl; [done|lia].
  - unfold v1_eight_byte_size_ready. destruct (Wire.get_uint64 (got d)) as [n|]; simpl; [|done].
    destruct (n =? 0); [by injection 1 as <- <-|]. destruct (_ && _); [by injection 1 as <- <-|].
    destruct (_ <? _); [by injection 1 as <- <-|].
    destruct (negb _); injection 1 as <- <-; simpl; [done|lia].
  - unfold message_ready. injection 1 as <- <-. simpl. lia.
Qed.

(** A message that both sides accept. *)
Definition acceptable (m : frame) : Prop :=
  size m + 1 < 2 ^ 64 /\ (0 <= maxmsgsize -> size m <= maxmsgsize) /\ can_alloc (size m) = true.

(** What arrives: the flags that the protocol carries. *)
Definition v1_received (m : frame) : frame := Frame (Z.land (flags m) Msg.more) (data m).

(** The flags of a message that version 2 carries. *)
Definition v2_wire_flags (m : frame) : Z :=
  Z.lor (if has m Msg.more then Msg.more else 0) (if has m Msg.command then Msg.command else 0).

Definition v2_received (m : frame) : frame := Frame (v2_wire_flags m) (data m).

Definition idle (first : dstep) (d : decoder) : Prop := next d = first /\ got d = [] /\ to_read d = 1.

Lemma over_max m : acceptable m -> (0 <=? maxmsgsize) && (u64 maxmsgsize <? size m) = false.
Proof.
  intros (Hs & Hm & _). destruct (Z.leb_spec 0 maxmsgsize); [|done]. simpl.
  unfold u64. rewrite Z.mod_small by lia. destruct (Z.ltb_spec maxmsgsize (size m)); [|done]. lia.
Qed.

Lemma size_nonneg m : 0 <= size m.
Proof. unfold size. lia. Qed.

Lemma v2_size_step m d :
  acceptable m ->
  exists d1, v2_size_ready maxmsgsize can_alloc (size m) d = Done (More, d1) /\ next d1 = BodyReady /\ got d1 = [] /\
    to_read d1 = size m /\ flags (in_progress d1) = Z.lor 0 (msg_flags d).
Proof.
  intros Ha. pose proof Ha as (Hs & _ & Hc). pose proof (size_nonneg m). unfold v2_size_ready.
  rewrite over_max by done. unfold u64 at 1. rewrite Z.mod_small, Z.eqb_refl by lia. rewrite Hc. simpl.
  eexists; split; [reflexivity|]. done.
Qed.

(** The size as version 2 writes it. *)
Definition v2_size_bytes (m : frame) : list Z :=
  if (255 <? size m) then Wire.put_uint64 (size m) else [size m].

(** The flags byte says which form of the size follows. *)
Lemma v2_flags_step m rest d :
  idle FlagsReady d ->
  exists d1, to_read d1 = Z.of_nat (length (v2_size_bytes m)) /\ msg_flags d1 = v2_wire_flags m /\
    feed (v2_next maxmsgsize can_alloc) (v2_header m ++ rest) d =
    feed (v2_next maxmsgsize can_alloc) (v2_size_bytes m ++ rest) d1 /\
    (size m < 2 ^ 64 -> v2_next maxmsgsize can_alloc (store (v2_size_bytes m) d1) =
       v2_size_ready maxmsgsize can_alloc (size m) (store (v2_size_bytes m) d1)).
Proof.
  intros (Hn & Hg & Hr). pose proof (size_nonneg m) as Hsz. set (nf := v2_next maxmsgsize can_alloc).
  set (d1 := next_step (if (255 <? size m) then 8 else 1)
    (if (255 <? size m) then EightByteSizeReady else OneByteSizeReady) (set_wire_flags (v2_wire_flags m) (store [0] d))).
  assert (Hh : exists f, v2_header m = f :: v2_size_bytes m /\ nf (store [f] d) = Done (More, d1)).
  { unfold v2_header, nf, v2_next, store, v2_size_bytes. destruct d as [x g r mf0 sz p]; simpl in *. subst x g r.
    unfold v2_flags_ready, d1, v2_wire_flags; simpl.
    destruct (Z.ltb_spec 255 (size m)).
    - destruct (has m Msg.more), (has m Msg.command); (eexists; split; [reflexivity|]; reflexivity).
    - assert (E8 : u8 (size m) = size m) by (unfold u8; apply Z.mod_small; lia). rewrite E8.
      destruct (has m Msg.more), (has m Msg.command); (eexists; split; [reflexivity|]; reflexivity). }
  destruct Hh as (f & Hw & Hf). exists d1. split; [|split; [done|split]].
  - unfold v2_size_bytes, d1. simpl. by destruct (255 <? size m).
  - rewrite Hw. apply (feed_piece nf [f]); [simpl; lia|lia|exact Hf|]. unfold d1. simpl. by destruct (255 <? size m).
  - intros Hs. unfold nf, v2_next, d1, v2_size_bytes. cbn [next next_step store got set_wire_flags app].
    destruct (255 <? size m) eqn:E.
    + pose proof (Wire.get_put_uint64 (size m) [] ltac:(lia)) as Hg64. rewrite app_nil_r in Hg64. by rewrite Hg64.
    + done.
Qed.

Lemma v2_feed_wire m rest d :
  idle FlagsReady d -> acceptable m ->
  exists d2, idle FlagsReady d2 /\
    feed (v2_next maxmsgsize can_alloc) (wire v2_header m ++ rest) d =
      let* (ms, r, d') := feed (v2_next maxmsgsize can_alloc) rest d2 in Done (v2_received m :: ms, r, d').
Proof.
  intros Hd Ha. pose proof Ha as (Hs & _ & _). unfold wire. rewrite <- app_assoc.
  destruct (v2_flags_step m (data m ++ rest) d Hd) as (d1 & T1 & F1 & -> & N1).
  destruct (v2_size_step m (store (v2_size_bytes m) d1) Ha) as (d3 & E3 & N3 & G3 & T3 & F3).
  destruct (feed_body (v2_next maxmsgsize can_alloc) FlagsReady (v2_size_bytes m) (data m) rest d1 d3)
    as (d2 & N2 & G2 & T2 & E2); try done.
  - intros d0 H0. unfold v2_next. by rewrite H0.
  - rewrite T1. unfold v2_size_bytes. by destruct (255 <? size m).
  - by rewrite N1 by lia.
  - exists d2. split; [by split_and!|]. rewrite E2, F3. cbn [store msg_flags]. rewrite F1, Z.lor_0_l. done.
Qed.

Lemma land_more f : u8 (Z.land f Msg.more) = Z.land f Msg.more /\
  Z.lor 0 (Z.land (Z.land f Msg.more) Msg.more) = Z.land f Msg.more.
Proof.
  unfold Msg.more. rewrite !(Z.land_ones _ 1) by lia. change (2 ^ 1) with 2.
  pose proof (Z.mod_pos_bound f 2 ltac:(lia)) as H. split; [unfold u8; apply Z.mod_small; lia|].
  rewrite Z.lor_0_l. rewrite Z.mod_mod by lia. done.
Qed.

(** Both forms of the size lead to the flags byte. *)
Lemma v1_size_step m rest d :
  idle OneByteSizeReady d -> acceptable m ->
  exists d1, next d1 = FlagsReady /\ got d1 = [] /\ to_read d1 = 1 /\ msg_size d1 = size m /\
    flags (in_progress d1) = 0 /\
    feed (v1_next maxmsgsize can_alloc) (v1_header m ++ rest) d =
    feed (v1_next maxmsgsize can_alloc) ([Z.land (flags m) Msg.more] ++ rest) d1.
Proof.
  intros (Hn & Hg & Hr) Ha. pose proof Ha as (Hs & Hmax & Hc). pose proof (size_nonneg m) as Hsz.
  set (nf := v1_next maxmsgsize can_alloc). destruct (land_more (flags m)) as [E8 _].
  assert (E64 : u64 (size m + 1) = size m + 1) by (apply Z.mod_small; lia).
  assert (Em : u64 (size m) = size m) by (apply Z.mod_small; lia).
  unfold v1_header. rewrite E64, E8. destruct (Z.ltb_spec (size m + 1) 255).
  - exists (next_step 1 FlagsReady (init_msg (size m) (store [size m + 1] d))).
    do 5 (split; [done|]). assert (Eu : u8 (size m + 1) = size m + 1) by (apply Z.mod_small; lia).
    rewrite Eu. change ([?a; ?b] ++ ?l) with ([a] ++ ([b] ++ l)).
    apply (feed_piece nf [size m + 1]); [simpl; lia|lia| |simpl; lia].
    unfold nf, v1_next. cbn [next store]. rewrite Hn. unfold v1_one_byte_size_ready. cbn [got store]. rewrite Hg. simpl.
    destruct (Z.eqb_spec (size m + 1) 255); [lia|]. destruct (Z.eqb_spec (size m + 1) 0); [lia|].
    replace (size m + 1 - 1) with (size m) by lia.
    assert (Eo : (0 <=? maxmsgsize) && (maxmsgsize <? size m) = false).
    { destruct (Z.leb_spec 0 maxmsgsize); [|done]. simpl. destruct (Z.ltb_spec maxmsgsize (size m)); [lia|done]. }
    rewrite Eo, Em, Hc. done.
  - set (d0 := next_step 8 EightByteSizeReady (store [255] d)).
    exists (next_step 1 FlagsReady (init_msg (size m) (store (Wire.put_uint64 (size m + 1)) d0))).
    do 5 (split; [done|]). rewrite <- !app_assoc.
    rewrite (feed_piece nf [255] _ d d0); [|simpl; lia|lia| |simpl; lia].
    + apply (feed_piece nf (Wire.put_uint64 (size m + 1))); [done|simpl; lia| |simpl; lia].
      unfold nf, v1_next. cbn [next store next_step d0]. unfold v1_eight_byte_size_ready. cbn [got store next_step d0]. simpl app.
      pose proof (Wire.get_put_uint64 (size m + 1) [] ltac:(lia)) as Hg64. rewrite app_nil_r in Hg64. rewrite Hg64.
      cbn [obind]. destruct (Z.eqb_spec (size m + 1) 0); [lia|].
      replace (size m + 1 - 1) with (size m) by lia. rewrite Em, over_max by done.
      destruct (Z.ltb_spec (2 ^ 64 - 1) (size m)); [lia|]. rewrite Hc. done.
    + unfold nf, v1_next. cbn [next store]. rewrite Hn. unfold v1_one_byte_size_ready. cbn [got store]. by rewrite Hg.
Qed.

Lemma v1_feed_wire m rest d :
  idle OneByteSizeReady d -> acceptable m ->
  exists d2, idle OneByteSizeReady d2 /\
    feed (v1_next maxmsgsize can_alloc) (wire v1_header m ++ rest) d =
      let* (ms, r, d') := feed (v1_next maxmsgsize can_alloc) rest d2 in Done (v1_received m :: ms, r, d').
Proof.
  intros Hi Ha. pose proof (size_nonneg m) as Hsz. unfold wire. rewrite <- app_assoc.
  destruct (v1_size_step m (data m ++ rest) d Hi Ha) as (d1 & N1 & G1 & T1 & S1 & F1 & ->).
  set (nf := v1_next maxmsgsize can_alloc).
  destruct (land_more (flags m)) as [_ El].
  destruct (feed_body nf OneByteSizeReady [Z.land (flags m) Msg.more] (data m) rest d1
    (next_step (size m) BodyReady (set_msg_flags (Z.land (Z.land (flags m) Msg.more) Msg.more)
      (store [Z.land (flags m) Msg.more] d1)))) as (d2 & N2 & G2 & T2 & E2).
  - intros d0 H0. unfold nf, v1_next. by rewrite H0.
  - simpl. lia.
  - lia.
  - unfold nf, v1_next. cbn [next store]. rewrite N1. unfold v1_flags_ready. cbn [got store]. rewrite G1. simpl.
    rewrite S1. assert (Em : u64 (size m) = size m).
    { destruct Ha as (Hs & _ & _). apply Z.mod_small. lia. }
    by rewrite Em.
  - done.
  - done.
  - done.
  - exists d2. split; [by split_and!|]. rewrite E2. simpl flags. by rewrite F1, El.
Qed.

Lemma feed_wires header received first nf msgs :
  (forall m rest d, idle first d -> acceptable m -> exists d2, idle first d2 /\
     feed nf (wire header m ++ rest) d = let* (ms, r, d') := feed nf rest d2 in Done (received m :: ms, r, d')) ->
  Forall acceptable msgs -> forall d, idle first d ->
  exists d', idle first d' /\ feed nf (wires header msgs) d = Done (map received msgs, More, d').
Proof.
  intros Hw. induction 1 as [|m msgs Hm _ IH]; intros d Hd; [by exists d|].
  simpl. destruct (Hw m (wires header msgs) d Hd Hm) as (d2 & H2 & ->).
  destruct (IH d2 H2) as (d' & H' & ->). by exists d'.
Qed.

Lemma too_large m : 0 <= maxmsgsize -> maxmsgsize < size m ->
  (0 <=? maxmsgsize) && (u64 maxmsgsize <? size m) = true.
Proof.
  intros Hm Hs. unfold u64. rewrite Z.mod_small by lia.
  destruct (Z.leb_spec 0 maxmsgsize); [|lia]. destruct (Z.ltb_spec maxmsgsize (size m)); [done|lia].
Qed.

Lemma v2_too_large m rest d :
  idle FlagsReady d -> 0 <= maxmsgsize -> maxmsgsize < size m -> size m + 1 < 2 ^ 64 ->
  exists d', feed (v2_next maxmsgsize can_alloc) (v2_header m ++ rest) d = Done ([], Err EMSGSIZE, d').
Proof.
  intros Hd Hm Hs H64. destruct (v2_flags_step m rest d Hd) as (d1 & T1 & _ & -> & N1).
  eexists. apply feed_error; [done| |].
  - rewrite T1. unfold v2_size_bytes. by destruct (255 <? size m).
  - rewrite N1 by lia. unfold v2_size_ready. by rewrite too_large.
Qed.

Lemma v1_too_large m rest d :
  idle OneByteSizeReady d -> 0 <= maxmsgsize -> maxmsgsize < size m -> size m + 1 < 2 ^ 64 ->
  exists d', feed (v1_next maxmsgsize can_alloc) (v1_header m ++ rest) d = Done ([], Err EMSGSIZE, d').
Proof.
  intros (Hn & Hg & Hr) Hm Hs H64. pose proof (size_nonneg m) as Hsz.
  set (nf := v1_next maxmsgsize can_alloc).
  assert (E64 : u64 (size m + 1) = size m + 1) by (apply Z.mod_small; lia).
  assert (Em : u64 (size m) = size m) by (apply Z.mod_small; lia).
  unfold v1_header. rewrite E64. destruct (Z.ltb_spec (size m + 1) 255).
  - assert (Eu : u8 (size m + 1) = size m + 1) by (apply Z.mod_small; lia). rewrite Eu.
    eexists. apply (feed_error nf [size m + 1]); [simpl; lia|lia|].
    unfold nf, v1_next. cbn [next store]. rewrite Hn. unfold v1_one_byte_size_ready. cbn [got store]. rewrite Hg. simpl.
    destruct (Z.eqb_spec (size m + 1) 255); [lia|]. destruct (Z.eqb_spec (size m + 1) 0); [lia|].
    replace (size m + 1 - 1) with (size m) by lia. destruct (Z.leb_spec 0 maxmsgsize); [|lia]. simpl.
    destruct (Z.ltb_spec maxmsgsize (size m)); [done|lia].
  - set (d0 := next_step 8 EightByteSizeReady (store [255] d)). rewrite <- !app_assoc.
    rewrite (feed_piece nf [255] _ d d0); [|simpl; lia|lia| |simpl; lia].
    + eexists. apply (feed_error nf (Wire.put_uint64 (size m + 1))); [done|simpl; lia|].
      unfold nf, v1_next. cbn [next store next_step d0]. unfold v1_eight_byte_size_ready. cbn [got store next_step d0]. simpl app.
      pose proof (Wire.get_put_uint64 (size m + 1) [] ltac:(lia)) as Hg64. rewrite app_nil_r in Hg64. rewrite Hg64.
      cbn [obind]. destruct (Z.eqb_spec (size m + 1) 0); [lia|].
      replace (size m + 1 - 1) with (size m) by lia. by rewrite Em, too_large.
    + unfold nf, v1_next. cbn [next store]. rewrite Hn. unfold v1_one_byte_size_ready. cbn [got store]. by rewrite Hg.
Qed.

Lemma idle_good first d : idle first d -> good d.
Proof. intros (_ & _ & E). unfold good. lia. Qed.
End Versions.

(** C39: what one end writes the other reads: for both versions of the protocol, the
    encodings of acceptable messages, however the network cuts them, are decoded to
    the same messages in order, with the flags that the protocol carries, and the
    decoder is then ready for another message. *)
Theorem codec_roundtrip maxmsgsize can_alloc msgs chunks :
  maxmsgsize < 2 ^ 63 -> Forall (acceptable maxmsgsize can_alloc) msgs ->
  (concat chunks = wires v1_header msgs ->
     exists d', idle OneByteSizeReady d' /\
       in_events (v1_next maxmsgsize can_alloc) chunks (decoder_new OneByteSizeReady) =
       Done (map v1_received msgs, More, d')) /\
  (concat chunks = wires v2_header msgs ->
     exists d', idle FlagsReady d' /\
       in_events (v2_next maxmsgsize can_alloc) chunks (decoder_new FlagsReady) =
       Done (map v2_received msgs, More, d')).
Proof.
  intros Hr Ha. split; intros Hc.
  - rewrite in_events_feed; [|apply v1_next_good|done]. rewrite Hc.
    apply (feed_wires maxmsgsize can_alloc v1_header v1_received OneByteSizeReady); [|done|done].
    intros m rest d. by apply v1_feed_wire.
  - rewrite in_events_feed; [|apply v2_next_good|done]. rewrite Hc.
    apply (feed_wires maxmsgsize can_alloc v2_header v2_received FlagsReady); [|done|done].
    intros m rest d. by apply v2_feed_wire.
Qed.

(** The engine's loop does not depend on how the input is cut nor on zero copy:
    it gives the messages, result and state of feeding the bytes one by one. *)
Theorem in_event_bytewise maxmsgsize can_alloc direct input d :
  good d -> (direct = true -> Z.of_nat (length input) <= to_read d) ->
  in_event (v1_next maxmsgsize can_alloc) direct input d = feed (v1_next maxmsgsize can_alloc) input d /\
  in_event (v2_next maxmsgsize can_alloc) direct input d = feed (v2_next maxmsgsize can_alloc) input d.
Proof.
  intros Hd Hdir. split; apply in_event_loop_feed; try done; [apply v1_next_good|apply v2_next_good].
Qed.

(** A message larger than the limit is refused with [EMSGSIZE] when its size is
    read, before any byte of its body, in both versions, and in version 1 a size
    without room for the flags byte is refused with [EPROTO]. *)
Theorem decoder_limits maxmsgsize can_alloc m rest d :
  0 <= maxmsgsize < 2 ^ 63 -> size m + 1 < 2 ^ 64 -> maxmsgsize < size m ->
  (idle OneByteSizeReady d -> exists d', feed (v1_next maxmsgsize can_alloc) (v1_header m ++ rest) d =
     Done ([], Err EMSGSIZE, d')) /\
  (idle FlagsReady d -> exists d', feed (v2_next maxmsgsize can_alloc) (v2_header m ++ rest) d =
     Done ([], Err EMSGSIZE, d')) /\
  (idle OneByteSizeReady d -> exists d', feed (v1_next maxmsgsize can_alloc) (0 :: rest) d =
     Done ([], Err EPROTO, d')).
Proof.
  intros Hm H64 Hs. split_and!.
  - intros Hd. apply v1_too_large; (done || lia).
  - intros Hd. apply v2_too_large; (done || lia).
  - intros (Hn & Hg & Hr). eexists. apply (feed_error _ [0] rest); [simpl; lia|lia|].
    unfold v1_next. cbn [next store]. rewrite Hn. unfold v1_one_byte_size_ready. cbn [got store]. by rewrite Hg.
Qed.

(** ** Messages of 3, 0 and 300 bytes, cut in pieces of 7 bytes *)

Definition sample_msgs : list frame := [Frame 1 [7; 8; 9]; Frame 2 []; Frame 0 (repeat 5 300)].

Fixpoint cut (fuel n : nat) (l : list Z) : list (list Z) :=
  match fuel, l with
  | S fuel, _ :: _ => take n l :: cut fuel n (drop n l)
  | _, _ => []
  end.

Lemma cut_concat fuel n : forall l, (0 < n)%nat -> (length l <= fuel)%nat -> concat (cut fuel n l) = l.
Proof.
  induction fuel as [|fuel IH]; intros l Hn Hl; [destruct l; [done|simpl in Hl; lia]|].
  destruct l as [|x l]; [done|]. cbn [cut concat]. rewrite IH; [apply take_drop|done|].
  rewrite length_drop. simpl in *. lia.
Qed.

Example sample_decoded :
  omap_out (fun r => map (fun m => (flags m, size m)) r.1.1)
    (in_events (v2_next 1000 (fun _ => true)) (cut 400 7 (wires v2_header sample_msgs)) (decoder_new FlagsReady)) =
  Done [(1, 3); (2, 0); (0, 300)].
Proof. vm_compute. reflexivity. Qed.

Lemma sample_acceptable : Forall (acceptable 1000 (fun _ => true)) sample_msgs.
Proof. repeat constructor; try (vm_compute; congruence). Qed.

Lemma codec_roundtrip_witness :
  1000 < 2 ^ 63 /\ Forall (acceptable 1000 (fun _ => true)) sample_msgs /\
  exists d', in_events (v2_next 1000 (fun _ => true)) (cut 400 7 (wires v2_header sample_msgs)) (decoder_new FlagsReady) =
    Done (map v2_received sample_msgs, More, d').
Proof.
  split; [lia|]. split; [exact sample_acceptable|].
  destruct (codec_roundtrip 1000 (fun _ => true) sample_msgs (cut 400 7 (wires v2_header sample_msgs)))
    as [_ H]; [lia|exact sample_acceptable|].
  destruct H as (d' & _ & E); [vm_compute; reflexivity|]. exists d'. exact E.
Defined.

Lemma in_event_bytewise_witness :
  good (decoder_new FlagsReady) /\
  in_event (v2_next 1000 (fun _ => true)) true [0] (decoder_new FlagsReady) =
  feed (v2_next 1000 (fun _ => true)) [0] (decoder_new FlagsReady).
Proof.
  split; [reflexivity|].
  refine (proj2 (in_event_bytewise 1000 (fun _ => true) true [0] (decoder_new FlagsReady) _ _)); [reflexivity|].
  intros _. simpl. lia.
Defined.

Lemma decoder_limits_witness :
  0 <= 2 < 2 ^ 63 /\ 2 < size (Frame 0 [1; 2; 3]) /\ idle FlagsReady (decoder_new FlagsReady) /\
  exists d', feed (v2_next 2 (fun _ => true)) (v2_header (Frame 0 [1; 2; 3]) ++ [1]) (decoder_new FlagsReady) =
     Done ([], Err EMSGSIZE, d').
Proof.
  split; [lia|]. split; [reflexivity|]. split; [by split_and!|].
  destruct (decoder_limits 2 (fun _ => true) (Frame 0 [1; 2; 3]) [1] (decoder_new FlagsReady)) as (_ & H & _);
    [lia|vm_compute; reflexivity|reflexivity|].
  apply H. by split_and!.
Defined.
End Decoder.
